(* ===== verification/_CoqProject ===== *)
-Q . S2P
Prelude.v
OrdMap.v
Bencode.v
BencodeCorrect.v
Convert.v
ShaHash.v
Routing.v
RoutingCorrect.v
RoutingClosest.v
Nom.v
PeerMessage.v
PeerMessageCorrect.v
PeerTask.v
Handshake.v
HandshakeCorrect.v
Tracker.v
TrackerCorrect.v
TrackerServer.v
Timer.v
Contiguous.v
SplitSender.v
TrackerClient.v
UtpPacket.v
UtpPacketCorrect.v
Effects.v
Float.v
BencodeRead.v
UtpSocket.v
UtpSocketInv.v
UtpSocketCorrect.v
UtpSocketProps.v
TransIds.v
DhtToken.v
DhtStorage.v
DhtMessage.v
DhtMessageCorrect.v
DhtSecurity.v
DhtWork.v
DhtLookup.v
DhtBootstrap.v
DhtHandler.v
DhtWorkCorrect.v
DhtLookupCorrect.v
DhtBootstrapCorrect.v
DhtHandlerCorrect.v
DhtService.v
Metainfo.v
Hasher.v
HasherCorrect.v
MetainfoCorrect.v
FileSystem.v
FileSystemCorrect.v
Disk.v
DiskAccess.v
DiskChecker.v
DiskDownload.v
DiskCorrect.v
PeerInfo.v
Select.v
SelectMetadata.v
SelectDownload.v
SelectUber.v
SelectReveal.v
PeerManager.v
PeerManagerCorrect.v
ClientMessage.v
ClientDownload.v
ClientDownloadCorrect.v
ClientConnection.v
ClientConnectionCorrect.v
