(* ===== verification/Prelude.v ===== *)
(** * A verification library for the bittorrent-protocol workspace

    The repository is a Rust workspace of BitTorrent crates under
    src/bittorrent-protocol/btp-*, with a client of its own in
    src/bittorrent-client-demo.  This library models the crates that carry
    the protocols' logic, as executable functions over explicit states, and
    proves what they promise each other and their users.

    ** The program and its parts

    - btp-bencode decodes and encodes bencode; the extended handshake of
      btp-peer is a bencode dictionary and uses its access traits.
    - btp-util has byte conversions for numbers and socket addresses, 20-byte
      SHA hashes with their xor distance, and the bit iterators over them; a
      timer, identifier generators, buffers of fixed capacity, and a sender
      that divides the capacity of a channel.
    - btp-dht keeps the Kademlia routing table (buckets of nodes ordered by
      their status, split on demand, searched by distance), speaks KRPC
      messages in bencode, hands out transaction identifiers and announce
      tokens, and stores the contacts announced to it.  Its worker joins these:
      a loop of turns that answers requests and runs lookups, the bootstrap and
      the refresh of the table on the timer of btp-util.
    - btp-peer parses and writes peer wire messages; its codec remembers the
      extended handshakes of both sides, and a task per connection turns a byte
      stream into messages and back.  A manager starts these tasks for its user
      and carries messages between them.
    - btp-handshake exchanges the opening handshake over a fresh socket, under
      filters that can be changed at any time, and hands connections on.
    - btp-utracker has the messages of the UDP tracker protocol, a tracker
      server, and a client that retransmits with the timer of btp-util.
    - btp-metainfo reads torrent files, builds and writes them, and hashes the
      pieces of a torrent's files with a master and worker threads.
    - btp-disk stores blocks in the files of a torrent, merges the blocks of a
      piece, checks pieces on the timer of btp-util, and runs its work in tasks
      over a context with locks and a file system behind a trait.
    - btp-select decides what to ask of peers and tell them: the exchange of info
      dictionaries (ut_metadata), the extended handshakes it rides on, an honest
      revealer of pieces, and a module that walks over the others.
    - btp-utp has the uTP packet format with its chain of extensions, and the
      socket: connection set-up and close, ordered delivery, selective
      acknowledgement, retransmission and congestion control over UDP.
    - bittorrent-client-demo is a client of the older protocol that does not use
      the crates: a download with its file behind a mutex, filled by the threads
      of its connections, which speak the peer wire protocol.

    ** Files

    - Prelude: outcomes of Rust code (results, panics, exhausted fuel), machine
      integers as [Z] with explicit wrap-around, slices, big-endian numbers,
      the tactics and hint databases, and the generic lemmas.
    - OrdMap: [BTreeMap] as its sorted association list, over a class of
      ordered keys.
    - Bencode, BencodeCorrect: btp-bencode/src (lib.rs, error.rs, reference/,
      mutable/, access/).  [decode] is [BencodeRef::decode], [encode] is
      [BencodeMut::encode], [convert_*] and [lookup_*] are the conversion
      traits.
    - Convert, ShaHash: btp-util/src/convert.rs, net.rs, error.rs, sha/mod.rs,
      and [leading_bit_count] of the routing table.
    - Routing, RoutingCorrect, RoutingClosest: btp-dht/src/routing/node.rs,
      bucket.rs, table.rs; the clock is an argument.
    - Nom: what the parsers use of the crate nom 3, as the classes [Nom] and
      [NomTracker] with the documented behaviour as laws and a concrete
      instance of each; combinators; [bytes::Bytes].
    - PeerMessage, PeerMessageCorrect: btp-peer/src/message and src/codec.
    - PeerTask: btp-peer/src/handler/peer_task.rs, its reading and writing
      loops, and two codecs joined by a connection as a step relation.
    - Handshake, HandshakeCorrect: btp-handshake/src/message, filter,
      socket/framed.rs and handler.  A socket is its input, its output and the
      sizes and failures of its reads and writes.
    - Tracker, TrackerCorrect: the messages of btp-utracker/src.
    - TrackerServer: btp-utracker/src/server/dispatcher.rs.
    - Timer: btp-util/src/timer.rs.
    - Contiguous: btp-util/src/contiguous.rs.  SplitSender: btp-util/src/send, with
      the two steps of a call as steps of threads in any order.
    - TrackerClient: btp-utracker/src/client, on top of Timer.
    - UtpPacket, UtpPacketCorrect: btp-utp/src/packet.rs, bit_iterator.rs,
      time.rs, util.rs.
    - Effects: the state-and-outcome monad of code that mutates [self] and can
      fail or panic, with record updates, checked arithmetic of both build
      profiles (class [Profile]) and the lemmas that run it.
    - Float: what the sources use of [f64].
    - BencodeRead: looking keys up in what an encoded dictionary decodes to,
      shared by the round trips of KRPC messages and torrent files.
    - UtpSocket, UtpSocketInv, UtpSocketCorrect, UtpSocketProps:
      btp-utp/src/socket.rs and stream.rs, every method of the socket, over a
      UDP socket whose reads, writes, clock and floating-point results are an
      environment (class [UdpEnv] of UtpSocket).
    - TransIds: btp-util/src/trans, the shuffles of btp-util/src/lib.rs and
      btp-dht/src/transaction.rs.
    - DhtToken, DhtStorage, DhtSecurity: btp-dht/src/token.rs, storage.rs,
      security.rs.
    - DhtMessage, DhtMessageCorrect: btp-dht/src/message and error.rs.
    - DhtWork, DhtLookup, DhtBootstrap, DhtHandler: btp-dht/src/worker (mod.rs,
      lookup.rs, bootstrap.rs and refresh.rs, handler.rs) and router.rs.  [Work]
      is what the actions share (table, timer, outgoing channel), the class
      [DhtEnv] what one turn sees of clocks, random numbers, name resolution and
      clients; [run_one] is a turn, [dht_run] a sequence of them.
    - DhtWorkCorrect, DhtLookupCorrect, DhtBootstrapCorrect, DhtHandlerCorrect,
      DhtService: the theorems about the worker.

    - Metainfo, MetainfoCorrect: btp-metainfo/src (parse.rs, metainfo.rs,
      accessor.rs, builder/mod.rs, builder/buffer.rs, error.rs).
    - Hasher, HasherCorrect: btp-metainfo/src/builder/worker.rs, the hashing
      threads as a step relation over their queues and channel.

    - FileSystem, FileSystemCorrect: btp-disk/src/fs.  The trait is a class of
      operations, what it promises a class of laws ([FileSystemLaws], and
      [FileSystemSteady] for a file system that works); the native file system
      and the cache of handles are instances.
    - Disk: btp-disk/src/memory, message, tasks.  DiskAccess: blocks as ranges of
      a torrent's bytes.  DiskChecker: merging and checking.  DiskDownload: a
      piece stored block by block.  DiskCorrect: the handler with its tasks, as
      sequences of turns and sections of tasks in any order.

    - PeerInfo: btp-peer/src/handler/peer_info.rs and the builder of extended
      handshakes; the order of a hash map is the class [HashOrder].
    - Select: btp-select/src.  A discovery module is an instance of the class
      [DiscoveryTrait]; the bit set of a crate is the class [BitSetOps] with
      [BitSetLaws].  SelectMetadata and SelectDownload: the metadata exchange as
      sequences of messages, handshakes and polls ([ut_run]).  SelectUber: the
      module walk.  SelectReveal: the revealer against its specification.
    - PeerManager, PeerManagerCorrect: btp-peer/src/manager and src/handler, the
      handler, the two loops of each connection and the user as one step
      function ([mgr_step]); [manages] is what a careful user can bring about.
    - ClientMessage: bittorrent-client-demo/src/peer/message.rs, util.rs, ipc.rs and
      the reading and writing of streams.  ClientDownload, ClientDownloadCorrect:
      peer/download.rs with request_queue.rs and request_metadata.rs; the lock that
      a panic poisons is in the state.  ClientConnection, ClientConnectionCorrect:
      peer/peer_connection.rs, the handler of each message over the connection and
      the download; [conn_runs] is what may happen to a connection.

    Each definition keeps the name of the Rust item it models, with a prefix
    where several types have a method of that name.  Mutable state is passed
    explicitly; a method that changes [self] returns the new value.

    ** What the theorems show

    - Bencode: decoding inverts encoding ([decode_encode]); it terminates on
      every input; decoded buffers are the input's own bytes; decoding and
      encoding again is stable ([decode_normalizes]); the one place where
      malformed input panics instead of returning an error.
    - Hashes: the count of leading common bits equals its definition by bits,
      although the bit iterator it uses reports only the highest bit of each
      byte.
    - Routing table: every reachable table is well-formed and complete; adding
      a node loses no good node; the closest-nodes iterator yields every
      eligible node once, place by place around the target, right before left
      ([closest_nodes_complete], with the order written out as [alternating]).
    - Peer messages: written messages are read back with their size; a byte
      stream cut at arbitrary places is reassembled, as long as its messages fit
      into the read buffer and none is a keep-alive ([stream_reassembled]; a longer
      one is never read, [long_message_stalls]); a turn of the reading loop always
      returns; the codecs at both ends of a connection agree on the
      announcements, and when a keep-alive is read ([announcements_agree]).
    - uTP packets: the decoder accepts exactly the well-formed packets and the
      accessors return their structure; [set_sack] appends an extension.
    - uTP socket: every socket in use is well-formed ([socket_invariant]);
      written data is read in order and complete ([transfer_in_order]); a
      handshake makes two agreeing ends; the bounds of the congestion window
      and timeout; a silent peer is given up in bounded time; what a selective
      acknowledgement says; a repeated old packet stalls the receiver.
    - Handshake: reading a handshake takes exactly its bytes off the socket;
      two connected ends agree; how filters combine; the filter list is a set;
      what a turn of the handler can announce.
    - Tracker: requests and responses are read back; the server refines a
      specification that logs accepted announces; what an answer to an announce
      contains.
    - Timer and tracker client: the timer is observably one sorted map; every
      active request of the client is waiting for a timeout the timer holds, and
      the client panics only when a caller is gone; what a request is sent as
      and when it is given up; that it ends.
    - DHT: transaction identifiers are unique and lead back to their action;
      tokens live between ten and thirty minutes; the announce storage refines
      a bounded map with expiry ([storage_refines_map]); KRPC messages are read
      back, and reading one never panics; generated node ids pass the security
      check ([generated_id_compliant]).
    - DHT worker: a lookup comes to its endgame, or to a closed channel, and a
      bootstrap ends after a bounded number of responses and timeouts, whoever
      answers what ([lookup_search_ends], [bootstrap_ends]); every action that a running
      worker keeps has a timeout pending, and the reasons for which a turn can
      panic ([worker_actions_waited_for]); a peer that announces itself with its
      token is found by those who ask ([announced_peer_found]).

    - Torrent files: what is accepted, and that its info hash is that of the
      file's own bytes of the info entry ([torrent_accepted]); what survives writing and reading
      again ([metainfo_rewritten]); hashing with any number of threads ends with
      the hashes of the pieces in order, under every schedule ([hashing_ends]).

    - Disk: a block replaces exactly its range of the torrent's bytes and is read
      back ([blocks_stored]); the cache of handles is invisible
      ([cache_transparent]); what is reported of a piece is true of the bytes on
      disk, under every interleaving and failure ([pieces_reported_truly]); blocks
      that tile a piece make it good ([downloaded_piece_found]); active downloads
      keep a timeout ([downloads_stay_armed]).

    - Selection: the metadata exchange accounts for every piece, and on
      representable input panics only where the bencode decoder does
      ([downloads_accounted]); with honest peers a torrent
      is downloaded in a known number of polls ([honest_download_completes]); what a
      poll hands out has its reason in the past ([polls_justified]); the module walk
      equals its definition ([uber_walks_modules]) and a message that no module
      refuses reaches all ([send_reaches_all]); peers are told exactly the
      pieces that were found, and a bitfield beyond the room of its buffer is a panic
      ([pieces_revealed]).
    - Peer manager: a user that waits for peers to be gone and sends nothing of the
      extension protocol cannot make it panic ([manager_never_panics]; what such a
      message can do, [metadata_before_handshake]), and its messages are given to the
      socket in order, each whole and, before a removal is reported, all of them
      ([sessions_written_in_order]).
    - Buffers and senders: many contiguous buffers are one ([buffers_refine_one]); two
      split senders keep to their parts of a channel ([split_capacity]).
    - Demo client: what is written is read back, except pieces, which are written
      under the wrong number ([client_stream_read_back]); a piece that counts as
      complete has passed its check on bytes that are in the file still
      ([complete_pieces_true]), and honest blocks complete the download
      ([honest_blocks_complete]); what a connection asks, tells and sends is in order
      at every moment, each block sent answers a request, and each message is
      handled in finite time ([connection_disciplined]).

    ** Fuel

    Loops that are not structural take a step budget and return [NoFuel] when
    it is used up; the theorems about such a loop state the result it gives, so
    they show that its budget is enough wherever they apply.  The budgets: twice the
    input length and a constant for the bencode decoder (each level consumes a
    byte); the number of buckets for a routing-table split (each split adds a
    bucket); the buffer length for the reading loop (each message has a
    positive size); 306 turns for a handshake (at most 304 bytes, one per turn,
    one turn to start and one to parse); the buffer length plus one for the
    send loop, the option parser and the record iterators; two turns for an
    identifier generator (one to refill its block); the number of buckets for
    the bootstrap's loop over buckets (each turn moves to the next one); the
    number of discovery modules plus two for the module walk; the number of downloads
    plus one for handing out a finished one (each turn drops one); the number of
    waiting blocks plus one for requesting them in the demo client (each turn
    takes one); there [NoFuel] is also the endless wait for a poisoned lock.  The loops of the uTP socket
    that wait for the network can wait for as long as the peer likes; they take
    their budget as an argument, and the theorems that promise a result say how
    large it has to be (the allowed retries for a silent peer).

    ** Assumptions

    The classes [Nom] and [NomTracker] state documented behaviour of a crate
    whose code is not in the repository; what the documentation leaves open
    (an optional parser on incomplete input, a tag on truncated input) is left
    open.  The class [Sha1] is the digest of a crate, of which only the length of
    the result is used; the CRC of the node-id check is an argument.  The room of a new
    [BytesMut], which its documentation leaves open, is the class [BytesMutOps].  Clock
    readings and random numbers are inputs of the operations that take them.
    Inputs are lists of numbers, and theorems that need them to be bytes
    say so.  The order in which a hash map or set is iterated is an argument.
    A turn of the DHT worker reads each clock once, and the platform has a first instant
    before which its clock cannot go ([env_oldest]); statements about its timeouts
    hold as long as fewer than 2^64 of them were made, and datagrams come from
    IPv4 addresses.  A channel between tasks is a list, with its bound where it has
    one.  An [await] that never becomes ready is not modelled.  The
    crate lru_cache and the name resolution of the operating system are parameters
    with laws; the sections of disk tasks between lock operations are atomic.
    There are no axioms.

    ** Not modelled, and the plan

    Not modelled: the tokio transports, UDP sockets and start-up code that only
    move bytes between the operating system and the channels of the modelled
    parts (btp-dht/src/worker/socket.rs and mainlinedht.rs, btp-utracker/src/socket.rs,
    btp-handshake/src/socket/transport.rs and src/manager); the SHA-1 and CRC
    digests and the bit set, which are crates; logging; btp-magnet,
    btp-htracker, btp-lsd and btp-nat, which have no code yet; and the older
    copies of the crates under src/bittorrent-protocol/src.  Of btp-metainfo, the
    reader of a directory tree (FileAccessor) and the thread that reports
    progress.  Of btp-disk, the handle that forwards to the channels, and calls of
    the file system by other programs.  Of the demo client, the requests to
    trackers, the torrent file's fields (traits of the crate bencode), the command
    line, and the start and end of threads.  Nothing is planned beyond this. *)


From stdpp Require Import base list gmap sorting.
From Stdlib Require Import ZArith Lia.
From Stdlib Require Ascii String.

(** * Outcomes of Rust code

    [Ok] and [Err] are the two arms of a [Result]; [Panic] is an unwinding
    panic (a failed [unwrap], an index out of range, an [assert!]); [NoFuel]
    is not a behaviour of the program: it marks a loop of the model that ran
    out of its step budget, and is proved unreachable wherever fuel is used. *)
Inductive outcome (E A : Type) : Type :=
  | Ok (a : A)
  | Err (e : E)
  | Panic
  | NoFuel.
Arguments Ok {E A} a.
Arguments Err {E A} e.
Arguments Panic {E A}.
Arguments NoFuel {E A}.

#[global] Instance outcome_ret E : MRet (outcome E) := fun A a => Ok a.
#[global] Instance outcome_bind E : MBind (outcome E) := fun A B f m =>
  match m with
  | Ok a => f a
  | Err e => Err e
  | Panic => Panic
  | NoFuel => NoFuel
  end.

(** [Result::unwrap] *)
Definition unwrap {E F A} (m : outcome E A) : outcome F A :=
  match m with
  | Ok a => Ok a
  | Err _ => Panic
  | Panic => Panic
  | NoFuel => NoFuel
  end.

(** [Option::ok_or] and [Option::unwrap] *)
Definition ok_or {E A} (o : option A) (e : E) : outcome E A :=
  match o with Some a => Ok a | None => Err e end.
Definition opt_unwrap {E A} (o : option A) : outcome E A :=
  match o with Some a => Ok a | None => Panic end.

(** [Result::map_err] *)
Definition map_err {E F A} (f : E -> F) (m : outcome E A) : outcome F A :=
  match m with
  | Ok a => Ok a
  | Err e => Err (f e)
  | Panic => Panic
  | NoFuel => NoFuel
  end.

(** [assert!] *)
Definition assert_that {E} (b : bool) : outcome E unit :=
  if b then Ok tt else Panic.

(** * Machine integers

    A [u<w>] is a [Z] in [0, 2^w); casts and wrapping operations reduce
    modulo [2^w].  Indices and lengths ([usize]) that only ever address an
    in-memory buffer are [nat]. *)
Notation bytes := (list Z).

Definition is_u8 (z : Z) : Prop := (0 <= z < 256)%Z.
Definition is_u16 (z : Z) : Prop := (0 <= z < 65536)%Z.
Definition is_u32 (z : Z) : Prop := (0 <= z < 4294967296)%Z.
Definition is_u64 (z : Z) : Prop := (0 <= z < 18446744073709551616)%Z.
Definition is_i64 (z : Z) : Prop :=
  (-9223372036854775808 <= z < 9223372036854775808)%Z.

Definition is_i32 (z : Z) : Prop := (-2147483648 <= z < 2147483648)%Z.

Definition to_u8 (z : Z) : Z := (z mod 256)%Z.
Definition to_u16 (z : Z) : Z := (z mod 65536)%Z.
Definition to_u32 (z : Z) : Z := (z mod 4294967296)%Z.
Definition to_u64 (z : Z) : Z := (z mod 18446744073709551616)%Z.

(** [as i32] and [as i64]: two's complement. *)
Definition to_i32 (z : Z) : Z :=
  let u := to_u32 z in (if u <? 2147483648 then u else u - 4294967296)%Z.
Definition to_i64 (z : Z) : Z :=
  let u := to_u64 z in
  (if u <? 9223372036854775808 then u else u - 18446744073709551616)%Z.

#[global] Instance is_u8_dec z : Decision (is_u8 z).
Proof. unfold is_u8. apply _. Defined.
#[global] Instance is_u16_dec z : Decision (is_u16 z).
Proof. unfold is_u16. apply _. Defined.
#[global] Instance is_u32_dec z : Decision (is_u32 z).
Proof. unfold is_u32. apply _. Defined.
#[global] Instance is_u64_dec z : Decision (is_u64 z).
Proof. unfold is_u64. apply _. Defined.
#[global] Instance is_i32_dec z : Decision (is_i32 z).
Proof. unfold is_i32. apply _. Defined.
#[global] Instance is_i64_dec z : Decision (is_i64 z).
Proof. unfold is_i64. apply _. Defined.

(** * Slices *)

(** [&l[i..j]]: panics when [i > j] or [j > l.len()]. *)
Definition slice {E A} (l : list A) (i j : nat) : outcome E (list A) :=
  if (i <=? j) && (j <=? length l) then Ok (take (j - i) (drop i l)) else Panic.

(** [&l[i..]] *)
Definition slice_from {E A} (l : list A) (i : nat) : outcome E (list A) :=
  if i <=? length l then Ok (drop i l) else Panic.

(** [l[i]] *)
Definition index {E A} (l : list A) (i : nat) : outcome E A :=
  opt_unwrap (l !! i).

(** [iter().position(p)] *)
Fixpoint position {A} (p : A -> bool) (l : list A) : option nat :=
  match l with
  | [] => None
  | x :: l' => if p x then Some O else S <$> position p l'
  end.

(** [Vec::insert]: panics when the index is past the end. *)
Definition vec_insert {E A} (l : list A) (i : nat) (x : A) : outcome E (list A) :=
  if i <=? length l then Ok (take i l ++ x :: drop i l) else Panic.

(** * Big-endian byte strings *)

Fixpoint be_bytes (n : nat) (z : Z) : bytes :=
  match n with
  | O => []
  | S n' => to_u8 (Z.shiftr z (8 * Z.of_nat n')) :: be_bytes n' z
  end.

Definition be_val (bs : bytes) : Z :=
  fold_left (fun acc b => Z.lor (Z.shiftl acc 8) b)%Z bs 0%Z.

(** * Byte-string literals *)

Fixpoint ascii_bytes (s : String.string) : bytes :=
  match s with
  | String.EmptyString => []
  | String.String c s' => Z.of_N (Ascii.N_of_ascii c) :: ascii_bytes s'
  end.
Arguments ascii_bytes s%_string_scope.

(** * Tactics and hints *)

Create HintDb bt.
Create HintDb btsize.

(** Case split on the scrutinee of an outcome computation in [H]. *)
Ltac outcome_step H :=
  match type of H with
  | context [match ?m with Ok _ => _ | Err _ => _ | Panic => _ | NoFuel => _ end] =>
      destruct m eqn:?; try discriminate H
  end.

Ltac unfold_bind := unfold mbind, outcome_bind, mret, outcome_ret in *.

(** Rewrite [m = r] everywhere and step the bind. *)
Ltac bind_rw H := rewrite H; simpl.

(** * Lemmas on outcomes *)

Lemma bind_Ok {E A B} (m : outcome E A) (f : A -> outcome E B) b :
  m ≫= f = Ok b <-> exists a, m = Ok a /\ f a = Ok b.
Proof. destruct m; simpl; naive_solver. Qed.

Lemma mbind_ok {E A B} (a : A) (f : A -> outcome E B) : Ok a ≫= f = f a.
Proof. done. Qed.

Lemma unwrap_Ok {E F A} (m : outcome E A) a :
  @unwrap E F A m = Ok a <-> m = Ok a.
Proof. destruct m; simpl; naive_solver. Qed.

Lemma slice_Ok {E A} (l : list A) i j s :
  @slice E A l i j = Ok s <-> i <= j <= length l /\ s = take (j - i) (drop i l).
Proof.
  unfold slice. destruct (Nat.leb_spec i j), (Nat.leb_spec j (length l)); simpl;
    naive_solver lia.
Qed.

Lemma slice_in {E A} (l : list A) i j :
  i <= j <= length l -> @slice E A l i j = Ok (take (j - i) (drop i l)).
Proof. intros H. apply slice_Ok. auto. Qed.

Lemma slice_from_in {E A} (l : list A) i :
  i <= length l -> @slice_from E A l i = Ok (drop i l).
Proof. intros H. unfold slice_from. destruct (Nat.leb_spec i (length l)); [done|lia]. Qed.

Lemma slice_app {E A} (l k m : list A) :
  @slice E A (l ++ k ++ m) (length l) (length l + length k) = Ok k.
Proof.
  rewrite slice_in by (rewrite !length_app; lia).
  rewrite drop_app_length. f_equal.
  replace (length l + length k - length l) with (length k) by lia.
  apply take_app_length.
Qed.

Lemma index_Some {E A} (l : list A) i x : l !! i = Some x -> @index E A l i = Ok x.
Proof. intros H. unfold index. by rewrite H. Qed.

Lemma index_Ok {E A} (l : list A) i x : @index E A l i = Ok x <-> l !! i = Some x.
Proof. unfold index, opt_unwrap. destruct (l !! i); naive_solver. Qed.

Lemma index_lt {E A} (l : list A) i : i < length l -> exists x, @index E A l i = Ok x.
Proof.
  intros H. destruct (lookup_lt_is_Some_2 l i H) as [x Hx].
  exists x. by apply index_Some.
Qed.

(** * Lemmas on [position] *)

Lemma position_Some {A} (p : A -> bool) (l : list A) i :
  position p l = Some i <->
  exists x, l !! i = Some x /\ p x = true /\ Forall (fun y => p y = false) (take i l).
Proof.
  revert i. induction l as [|y l IH]; intros i; simpl.
  - split; [done|]. intros (x & H & _). by rewrite lookup_nil in H.
  - destruct (p y) eqn:Hp.
    + split.
      * intros [= <-]. exists y. simpl. auto.
      * destruct i as [|i]; [done|]. simpl. intros (x & _ & _ & H).
        inversion H. congruence.
    + rewrite fmap_Some. split.
      * intros (j & Hj & ->). apply IH in Hj as (x & ? & ? & ?).
        exists x. simpl. auto.
      * destruct i as [|i]; simpl; [intros (x & [= <-] & ? & _); congruence|].
        intros (x & ? & ? & Hf). exists i. split; [|done]. apply IH.
        inversion Hf. eauto.
Qed.

Lemma position_None {A} (p : A -> bool) (l : list A) :
  position p l = None <-> Forall (fun y => p y = false) l.
Proof.
  induction l as [|y l IH]; simpl; [naive_solver|].
  destruct (p y) eqn:Hp.
  - split; [done|]. intros H. inversion H. congruence.
  - rewrite fmap_None, IH. split; [auto|]. intros H. by inversion H.
Qed.

Lemma position_lt {A} (p : A -> bool) (l : list A) i :
  position p l = Some i -> i < length l.
Proof.
  intros (x & H & _)%position_Some. by eapply lookup_lt_Some.
Qed.

Lemma position_app_here {A} (p : A -> bool) (l : list A) x r :
  Forall (fun y => p y = false) l -> p x = true ->
  position p (l ++ x :: r) = Some (length l).
Proof.
  intros Hl Hx. induction Hl as [|y l Hy Hl IH]; simpl.
  - by rewrite Hx.
  - by rewrite Hy, IH.
Qed.

(** * Lemmas on [filter] *)

Lemma filter_all {A} (P : A -> Prop) `{forall x, Decision (P x)} (l : list A) :
  Forall P l -> filter P l = l.
Proof. induction 1; simplify_eq/=; [done|]. rewrite filter_cons_True by done. by f_equal. Qed.

Lemma filter_none {A} (P : A -> Prop) `{forall x, Decision (P x)} (l : list A) :
  Forall (fun x => ~ P x) l -> filter P l = [].
Proof. induction 1; simplify_eq/=; [done|]. by rewrite filter_cons_False. Qed.

(** * Lemmas on big-endian byte strings *)

Section BigEndian.
Local Open Scope Z_scope.

Lemma be_step acc b : is_u8 b -> Z.lor (Z.shiftl acc 8) b = acc * 256 + b.
Proof.
  intros Hb.
  assert (Hl : Z.land (Z.shiftl acc 8) b = 0).
  { apply Z.bits_inj'. intros i Hi. rewrite Z.land_spec, Z.bits_0.
    destruct (Z.lt_ge_cases i 8).
    - rewrite Z.shiftl_spec_low by done. done.
    - rewrite (Z.bits_above_log2 b i), andb_false_r; [done| |].
      + by destruct Hb.
      + destruct (decide (b = 0)) as [->|]; [simpl; lia|].
        apply Z.log2_lt_pow2; [unfold is_u8 in Hb; lia|].
        apply Z.lt_le_trans with (2 ^ 8); [unfold is_u8 in Hb; lia|].
        apply Z.pow_le_mono_r; lia. }
  rewrite <- Z.lxor_lor by done. rewrite <- Z.add_nocarry_lxor by done.
  rewrite Z.shiftl_mul_pow2 by lia. done.
Qed.

Lemma be_fold acc bs :
  Forall is_u8 bs ->
  fold_left (fun acc b => Z.lor (Z.shiftl acc 8) b) bs acc
  = acc * 256 ^ Z.of_nat (length bs) + be_val bs.
Proof.
  unfold be_val. intros Hbs. revert acc.
  induction Hbs as [|b bs Hb Hbs IH]; intros acc.
  - simpl. lia.
  - cbn [fold_left]. rewrite (IH (Z.lor (Z.shiftl acc 8) b)).
    rewrite (IH (Z.lor (Z.shiftl 0 8) b)), !be_step by done.
    cbn [length]. rewrite Nat2Z.inj_succ, Z.pow_succ_r by lia. ring.
Qed.

Lemma be_val_cons b bs :
  is_u8 b -> Forall is_u8 bs ->
  be_val (b :: bs) = b * 256 ^ Z.of_nat (length bs) + be_val bs.
Proof.
  intros Hb Hbs. unfold be_val at 1. cbn [fold_left].
  rewrite be_fold, be_step by done. ring.
Qed.

Lemma be_val_bound bs :
  Forall is_u8 bs -> 0 <= be_val bs < 256 ^ Z.of_nat (length bs).
Proof.
  induction 1 as [|b bs Hb Hbs IH]; [vm_compute; split; congruence|].
  rewrite be_val_cons by done. cbn [length].
  rewrite Nat2Z.inj_succ, Z.pow_succ_r by lia. unfold is_u8 in Hb. nia.
Qed.

Lemma length_be_bytes n z : length (be_bytes n z) = n.
Proof. induction n; simpl; auto. Qed.

Lemma to_u8_u8 z : is_u8 (to_u8 z).
Proof. apply Z.mod_pos_bound. lia. Qed.

Lemma to_u8_id z : is_u8 z -> to_u8 z = z.
Proof. apply Z.mod_small. Qed.

Lemma be_bytes_u8 n z : Forall is_u8 (be_bytes n z).
Proof. induction n; simpl; constructor; auto using to_u8_u8. Qed.

Lemma be_val_be_bytes n z : be_val (be_bytes n z) = z mod 256 ^ Z.of_nat n.
Proof.
  induction n as [|n IH]; [rewrite Z.mod_1_r; done|].
  cbn [be_bytes]. rewrite be_val_cons by (auto using to_u8_u8, be_bytes_u8).
  rewrite length_be_bytes, IH.
  rewrite Nat2Z.inj_succ, Z.pow_succ_r by lia.
  unfold to_u8. rewrite Z.shiftr_div_pow2 by lia.
  rewrite Z.pow_mul_r by lia. change (2 ^ 8) with 256.
  rewrite (Z.mul_comm 256), Z.rem_mul_r by (try apply Z.pow_nonzero; lia). ring.
Qed.

Lemma be_bytes_be_val bs :
  Forall is_u8 bs -> be_bytes (length bs) (be_val bs) = bs.
Proof.
  assert (Hmod : forall n a z, be_bytes n (a * 256 ^ Z.of_nat n + z) = be_bytes n z).
  { intros n a z. assert (Hn : forall k, (k <= n)%nat ->
      be_bytes k (a * 256 ^ Z.of_nat n + z) = be_bytes k z); [|auto].
    induction k as [|k IH]; intros Hk; [done|]. cbn [be_bytes].
    rewrite IH by lia. f_equal. unfold to_u8.
    rewrite !Z.shiftr_div_pow2, !Z.pow_mul_r by lia. change (2 ^ 8) with 256.
    replace (a * 256 ^ Z.of_nat n) with
      (a * 256 ^ (Z.of_nat n - Z.of_nat k - 1) * 256 * 256 ^ Z.of_nat k).
    2:{ rewrite <- !Z.mul_assoc. f_equal. rewrite <- Z.pow_succ_r by lia.
        rewrite <- Z.pow_add_r by lia. f_equal. lia. }
    rewrite Z.add_comm, Z.div_add by (apply Z.pow_nonzero; lia).
    by rewrite Z.mod_add by lia. }
  induction 1 as [|b bs Hb Hbs IH]; [done|].
  rewrite be_val_cons by done. cbn [length be_bytes].
  rewrite Hmod, IH. f_equal. pose proof (be_val_bound bs Hbs).
  rewrite Z.shiftr_div_pow2, Z.pow_mul_r by lia. change (2 ^ 8) with 256.
  rewrite Z.add_comm, Z.div_add by (apply Z.pow_nonzero; lia).
  rewrite Z.div_small by done. by apply to_u8_id.
Qed.

Lemma be_val_u16 bs : Forall is_u8 bs -> length bs = 2%nat -> is_u16 (be_val bs).
Proof. intros H Hl. pose proof (be_val_bound bs H) as B. by rewrite Hl in B. Qed.

Lemma be_val_u32 bs : Forall is_u8 bs -> length bs = 4%nat -> is_u32 (be_val bs).
Proof. intros H Hl. pose proof (be_val_bound bs H) as B. by rewrite Hl in B. Qed.

Lemma be_u16_id z : is_u16 z -> be_val (be_bytes 2 z) = z.
Proof. intros H. rewrite be_val_be_bytes. by apply Z.mod_small. Qed.

Lemma be_u32_id z : is_u32 z -> be_val (be_bytes 4 z) = z.
Proof. intros H. rewrite be_val_be_bytes. by apply Z.mod_small. Qed.

Lemma be_u64_id z : is_u64 z -> be_val (be_bytes 8 z) = z.
Proof. intros H. rewrite be_val_be_bytes. by apply Z.mod_small. Qed.

Lemma be_val_u64 bs : Forall is_u8 bs -> length bs = 8%nat -> is_u64 (be_val bs).
Proof. intros H Hl. pose proof (be_val_bound bs H) as B. by rewrite Hl in B. Qed.

Lemma to_i32_range z : is_i32 (to_i32 z).
Proof.
  unfold is_i32, to_i32, to_u32. pose proof (Z.mod_pos_bound z 4294967296).
  destruct (Z.ltb_spec (z mod 4294967296) 2147483648); lia.
Qed.

(** A signed number written and read back at its width. *)
Lemma be_i32_id z : is_i32 z -> to_i32 (be_val (be_bytes 4 z)) = z.
Proof.
  unfold is_i32, to_i32, to_u32. intros H. rewrite be_val_be_bytes. change (256 ^ Z.of_nat 4) with 4294967296.
  rewrite Z.mod_mod by lia. destruct (Z.lt_ge_cases z 0).
  - rewrite <- (Z.mod_unique z 4294967296 (-1) (z + 4294967296)) by lia.
    destruct (Z.ltb_spec (z + 4294967296) 2147483648); lia.
  - rewrite Z.mod_small by lia. destruct (Z.ltb_spec z 2147483648); lia.
Qed.

Lemma be_i64_id z : is_i64 z -> to_i64 (be_val (be_bytes 8 z)) = z.
Proof.
  unfold is_i64, to_i64, to_u64. intros H. rewrite be_val_be_bytes.
  change (256 ^ Z.of_nat 8) with 18446744073709551616.
  rewrite Z.mod_mod by lia. destruct (Z.lt_ge_cases z 0).
  - rewrite <- (Z.mod_unique z 18446744073709551616 (-1) (z + 18446744073709551616)) by lia.
    destruct (Z.ltb_spec (z + 18446744073709551616) 9223372036854775808); lia.
  - rewrite Z.mod_small by lia. destruct (Z.ltb_spec z 9223372036854775808); lia.
Qed.
End BigEndian.

#[export] Hint Resolve to_u8_u8 be_bytes_u8 be_val_u16 be_val_u32 : bt.
#[export] Hint Rewrite length_be_bytes be_val_be_bytes : bt.
