(* ===== verification/OrdMap.v ===== *)
(** OrdMap: the ordered map [std::collections::BTreeMap] used by the bencode
    dictionaries and by the timer queue.

    A map is the association list its iterator yields: strictly increasing
    keys.  [OrdKey] states what a key type must promise ([Ord]); the instances
    are byte strings in lexicographic order and lexicographic pairs. *)

From stdpp Require Import base list sorting.
From Stdlib Require Import ZArith Lia.
From S2P Require Import Prelude.

(** [trait Ord] *)
Class OrdKey (K : Type) := {
  kcmp : K -> K -> comparison;
  kcmp_eq : forall a b, kcmp a b = Eq <-> a = b;
  kcmp_antisym : forall a b, kcmp b a = CompOpp (kcmp a b);
  kcmp_trans : forall a b c, kcmp a b = Lt -> kcmp b c = Lt -> kcmp a c = Lt;
}.

#[global] Arguments kcmp {K OrdKey} _ _ : simpl never, rename.

Section OrdMap.
Context {K V : Type} `{!OrdKey K}.
Implicit Types (k : K) (v : V) (m : list (K * V)).

Definition klt (p q : K * V) : Prop := kcmp p.1 q.1 = Lt.

(** The iteration-order invariant of a [BTreeMap]. *)
Definition ordered m : Prop := StronglySorted klt m.

(** [BTreeMap::get] *)
Fixpoint btree_get (k : K) (m : list (K * V)) : option V :=
  match m with
  | [] => None
  | (k', v') :: m' =>
      match kcmp k k' with
      | Lt => None
      | Eq => Some v'
      | Gt => btree_get k m'
      end
  end.

(** [BTreeMap::insert], without the returned old value *)
Fixpoint btree_insert (k : K) (v : V) (m : list (K * V)) : list (K * V) :=
  match m with
  | [] => [(k, v)]
  | (k', v') :: m' =>
      match kcmp k k' with
      | Lt => (k, v) :: m
      | Eq => (k', v) :: m'
      | Gt => (k', v') :: btree_insert k v m'
      end
  end.

(** [BTreeMap::remove], without the returned value *)
Fixpoint btree_remove (k : K) (m : list (K * V)) : list (K * V) :=
  match m with
  | [] => []
  | (k', v') :: m' =>
      match kcmp k k' with
      | Lt => m
      | Eq => m'
      | Gt => (k', v') :: btree_remove k m'
      end
  end.

(** [BTreeMap::keys().last()] *)
Definition btree_last_key m : option K := fst <$> last m.

(** ** Order facts *)

Lemma kcmp_refl k : kcmp k k = Eq.
Proof. by apply kcmp_eq. Qed.

Lemma kcmp_gt a b : kcmp a b = Gt <-> kcmp b a = Lt.
Proof. rewrite (kcmp_antisym a b). destruct (kcmp a b); naive_solver. Qed.

#[export] Instance klt_trans : Transitive klt.
Proof. intros p q r. apply kcmp_trans. Qed.

Lemma ordered_cons p m : ordered (p :: m) <-> Forall (klt p) m /\ ordered m.
Proof.
  split; [by intros [? ?]%StronglySorted_inv|].
  intros [? ?]. by constructor.
Qed.

(** ** Lookup after update *)

Lemma btree_get_above k m : Forall (fun p => kcmp p.1 k = Lt) m -> btree_get k m = None.
Proof.
  induction 1 as [|[k' v'] m Hk Hm IH]; [done|]. simpl in *.
  by apply kcmp_gt in Hk as ->.
Qed.

Lemma btree_get_below k m : Forall (fun p => kcmp k p.1 = Lt) m -> btree_get k m = None.
Proof. destruct 1 as [|[k' v'] m Hk Hm]; [done|]. simpl in *. by rewrite Hk. Qed.

Lemma btree_get_insert_eq k v m : btree_get k (btree_insert k v m) = Some v.
Proof.
  induction m as [|[k' v'] m IH]; simpl; [by rewrite kcmp_refl|].
  destruct (kcmp k k') eqn:Hk; simpl; rewrite ?kcmp_refl, ?Hk; done.
Qed.

Lemma btree_get_insert_ne k k0 v m :
  ordered m -> k0 <> k -> btree_get k0 (btree_insert k v m) = btree_get k0 m.
Proof.
  intros Hm Hne. induction m as [|[k' v'] m IH]; simpl.
  - destruct (kcmp k0 k) eqn:H; [by apply kcmp_eq in H|done|done].
  - apply ordered_cons in Hm as [Hall Hm].
    destruct (kcmp k k') eqn:Hk; simpl.
    + apply kcmp_eq in Hk as ->. destruct (kcmp k0 k') eqn:H; [|done|done].
      by apply kcmp_eq in H.
    + destruct (kcmp k0 k) eqn:H; [by apply kcmp_eq in H| |done].
      by rewrite (kcmp_trans _ _ _ H Hk).
    + destruct (kcmp k0 k'); [done|done|]. by apply IH.
Qed.

Lemma btree_insert_below k v m p :
  Forall (klt p) m -> kcmp p.1 k = Lt -> Forall (klt p) (btree_insert k v m).
Proof.
  intros Hall Hp. induction Hall as [|[k' v'] m Hk Hm IH]; simpl.
  - by repeat constructor.
  - destruct (kcmp k k'); repeat constructor; done.
Qed.

Lemma btree_insert_Forall (P : K * V -> Prop) k v m :
  Forall P m -> P (k, v) -> Forall P (btree_insert k v m).
Proof.
  intros Hm Hk. induction Hm as [|[k' v'] m Hk' Hm IH]; simpl; [by constructor|].
  destruct (kcmp k k') eqn:E; [apply kcmp_eq in E as <-|..]; by repeat apply Forall_cons_2.
Qed.

Lemma btree_insert_ordered k v m : ordered m -> ordered (btree_insert k v m).
Proof.
  induction m as [|[k' v'] m IH]; intros Hm; simpl; [by repeat constructor|].
  apply ordered_cons in Hm as [Hall Hm].
  destruct (kcmp k k') eqn:Hk.
  - apply ordered_cons. done.
  - apply ordered_cons. split; [|by apply ordered_cons].
    constructor; [done|]. eapply Forall_impl; [exact Hall|].
    intros q Hq. unfold klt in *. simpl in *. eapply kcmp_trans; eauto.
  - apply ordered_cons. split; [|auto].
    apply btree_insert_below; [done|]. simpl. by apply kcmp_gt.
Qed.

Lemma btree_remove_sub k m p : Forall (klt p) m -> Forall (klt p) (btree_remove k m).
Proof.
  induction 1 as [|[k' v'] m Hk Hm IH]; simpl; [done|].
  destruct (kcmp k k'); auto.
Qed.

Lemma btree_remove_ordered k m : ordered m -> ordered (btree_remove k m).
Proof.
  induction m as [|[k' v'] m IH]; intros Hm; simpl; [done|].
  pose proof Hm as [Hall Hm']%ordered_cons.
  destruct (kcmp k k'); [done|done|].
  apply ordered_cons. split; auto using btree_remove_sub.
Qed.

Lemma btree_get_remove_eq k m : ordered m -> btree_get k (btree_remove k m) = None.
Proof.
  induction m as [|[k' v'] m IH]; intros Hm; simpl; [done|].
  apply ordered_cons in Hm as [Hall Hm].
  destruct (kcmp k k') eqn:Hk; simpl; rewrite ?Hk; auto.
  apply kcmp_eq in Hk as ->. apply btree_get_below.
  eapply Forall_impl; [exact Hall|done].
Qed.

Lemma btree_get_remove_ne k k0 m :
  ordered m -> k0 <> k -> btree_get k0 (btree_remove k m) = btree_get k0 m.
Proof.
  intros Hm Hne. induction m as [|[k' v'] m IH]; simpl; [done|].
  apply ordered_cons in Hm as [Hall Hm].
  destruct (kcmp k k') eqn:Hk; simpl; [|done|].
  - apply kcmp_eq in Hk as ->. destruct (kcmp k0 k') eqn:H; [by apply kcmp_eq in H| |done].
    apply btree_get_below. eapply Forall_impl; [exact Hall|].
    intros q Hq. unfold klt in Hq. simpl in *. eapply kcmp_trans; eauto.
  - destruct (kcmp k0 k'); auto.
Qed.

Lemma btree_get_Some k v m : ordered m -> btree_get k m = Some v <-> (k, v) ∈ m.
Proof.
  induction m as [|[k' v'] m IH]; intros Hm; simpl; [by rewrite elem_of_nil|].
  apply ordered_cons in Hm as [Hall Hm]. rewrite elem_of_cons.
  destruct (kcmp k k') eqn:Hk.
  - apply kcmp_eq in Hk as ->. split; [intros [= ->]; auto|].
    intros [[= ->]|Hin]; [done|]. rewrite Forall_forall in Hall.
    apply Hall in Hin. unfold klt in Hin. simpl in Hin. by rewrite kcmp_refl in Hin.
  - split; [done|]. intros [[= -> ->]|Hin]; [by rewrite kcmp_refl in Hk|].
    rewrite Forall_forall in Hall. apply Hall in Hin. unfold klt in Hin. simpl in Hin.
    pose proof (kcmp_trans _ _ _ Hk Hin) as Hc. by rewrite kcmp_refl in Hc.
  - rewrite IH by done. split; [auto|]. intros [[= -> ->]|]; [|done].
    by rewrite kcmp_refl in Hk.
Qed.

(** A key above every stored key lands at the end. *)
Lemma btree_insert_last k v m :
  Forall (fun p => kcmp p.1 k = Lt) m -> btree_insert k v m = m ++ [(k, v)].
Proof.
  induction 1 as [|[k' v'] m Hk Hm IH]; [done|]. simpl in *.
  apply kcmp_gt in Hk as ->. by rewrite IH.
Qed.

Lemma ordered_app_inv m1 m2 :
  ordered (m1 ++ m2) ->
  ordered m1 /\ ordered m2 /\ Forall (fun q => Forall (fun p => klt p q) m1) m2.
Proof.
  induction m1 as [|p m1 IH]; simpl; intros H.
  - split; [constructor|]. split; [done|]. apply Forall_true. intros. constructor.
  - apply ordered_cons in H as [Hall H]. apply Forall_app in Hall as [H1 H2].
    destruct (IH H) as (? & ? & H3). split; [by apply ordered_cons|].
    split; [done|]. rewrite Forall_forall in H2, H3 |- *. intros q Hq.
    constructor; auto.
Qed.

Lemma ordered_NoDup m : ordered m -> NoDup m.*1.
Proof.
  induction m as [|[k v] m IH]; intros H; simpl; [constructor|].
  apply ordered_cons in H as [Hall H]. constructor; [|auto].
  intros Hin. apply list_elem_of_fmap in Hin as ([k' v'] & -> & Hin).
  rewrite Forall_forall in Hall. apply Hall in Hin. unfold klt in Hin. simpl in Hin.
  by rewrite kcmp_refl in Hin.
Qed.
End OrdMap.

#[export] Hint Resolve btree_insert_ordered btree_remove_ordered : bt.

(** * Byte strings: [Ord] for [[u8]] is lexicographic *)

Fixpoint bytes_cmp (a b : bytes) : comparison :=
  match a, b with
  | [], [] => Eq
  | [], _ :: _ => Lt
  | _ :: _, [] => Gt
  | x :: a', y :: b' =>
      match Z.compare x y with Eq => bytes_cmp a' b' | c => c end
  end.

Lemma bytes_cmp_eq a b : bytes_cmp a b = Eq <-> a = b.
Proof.
  revert b. induction a as [|x a IH]; intros [|y b]; simpl; try naive_solver.
  destruct (Z.compare_spec x y) as [->|H|H].
  - rewrite IH. naive_solver.
  - split; [done|]. intros [= -> ->]. lia.
  - split; [done|]. intros [= -> ->]. lia.
Qed.

Lemma bytes_cmp_antisym a b : bytes_cmp b a = CompOpp (bytes_cmp a b).
Proof.
  revert b. induction a as [|x a IH]; intros [|y b]; simpl; try done.
  rewrite (Z.compare_antisym x y). destruct (x ?= y)%Z; simpl; auto.
Qed.

Lemma bytes_cmp_trans a b c :
  bytes_cmp a b = Lt -> bytes_cmp b c = Lt -> bytes_cmp a c = Lt.
Proof.
  revert b c. induction a as [|x a IH]; intros [|y b] [|z c]; simpl; try done.
  destruct (Z.compare_spec x y) as [->|H|H], (Z.compare_spec y z) as [->|H'|H'];
    try done.
  - rewrite ?Z.compare_refl. eauto.
  - intros _ _. by apply Z.compare_lt_iff in H as ->.
  - intros _ _. assert (x < z)%Z as ->%Z.compare_lt_iff by lia. done.
Qed.

#[global] Instance bytes_ord : OrdKey bytes := {|
  kcmp := bytes_cmp;
  kcmp_eq := bytes_cmp_eq;
  kcmp_antisym := bytes_cmp_antisym;
  kcmp_trans := bytes_cmp_trans;
|}.

(** * Pairs of integers: derived [Ord] compares the fields in order *)

Definition pair_cmp (a b : Z * Z) : comparison :=
  match Z.compare a.1 b.1 with Eq => Z.compare a.2 b.2 | c => c end.

Lemma pair_cmp_eq a b : pair_cmp a b = Eq <-> a = b.
Proof.
  destruct a as [a1 a2], b as [b1 b2]. unfold pair_cmp. simpl.
  destruct (Z.compare_spec a1 b1) as [->|H|H];
    [rewrite Z.compare_eq_iff; naive_solver| |];
    (split; [done|intros [= -> ->]; lia]).
Qed.

Lemma pair_cmp_antisym a b : pair_cmp b a = CompOpp (pair_cmp a b).
Proof.
  unfold pair_cmp. rewrite (Z.compare_antisym a.1 b.1).
  destruct (a.1 ?= b.1)%Z; simpl; auto using Z.compare_antisym.
Qed.

Lemma pair_cmp_Lt a b :
  pair_cmp a b = Lt <-> (a.1 < b.1 \/ a.1 = b.1 /\ a.2 < b.2)%Z.
Proof.
  unfold pair_cmp. destruct (Z.compare_spec a.1 b.1).
  - rewrite Z.compare_lt_iff. lia.
  - split; [auto|done].
  - split; [done|lia].
Qed.

Lemma pair_cmp_trans a b c :
  pair_cmp a b = Lt -> pair_cmp b c = Lt -> pair_cmp a c = Lt.
Proof. rewrite !pair_cmp_Lt. lia. Qed.

#[global] Instance pair_ord : OrdKey (Z * Z) := {|
  kcmp := pair_cmp;
  kcmp_eq := pair_cmp_eq;
  kcmp_antisym := pair_cmp_antisym;
  kcmp_trans := pair_cmp_trans;
|}.
