(* ===== verification/Bencode.v ===== *)
(** Bencode: the crate [btp-bencode] (decoder, encoder, accessors, converters).

    [BencodeRef] is the borrowed tree the decoder builds, each node with the
    slice of the input it was decoded from; [BencodeMut] is the owned tree that
    is encoded.  The traits [BRefAccess] and [BConvert] are type classes. *)

From stdpp Require Import base list.
From Stdlib Require Import ZArith Lia.
From S2P Require Import Prelude OrdMap.

(** * Constants of lib.rs *)

Definition BEN_END : Z := 101.
Definition DICT_START : Z := 100.
Definition LIST_START : Z := 108.
Definition INT_START : Z := 105.
Definition BYTE_LEN_LOW : Z := 48.
Definition BYTE_LEN_HIGH : Z := 57.
Definition BYTE_LEN_END : Z := 58.

(** * Errors *)

Inductive BencodeParseErrorKind : Type :=
  | BytesEmpty (pos : nat)
  | InvalidByte (pos : nat)
  | InvalidIntNoDelimiter (pos : nat)
  | InvalidIntNegativeZero (pos : nat)
  | InvalidIntZeroPadding (pos : nat)
  | InvalidIntParseError (pos : nat)
  | InvalidKeyOrdering (pos : nat) (key : bytes)
  | InvalidKeyDuplicates (pos : nat) (key : bytes)
  | InvalidLengthNegative (pos : nat)
  | InvalidLengthOverflow (pos : nat)
  | InvalidRecursionExceeded (pos max : nat).

Inductive ExpectedType : Type :=
  | TInteger | TBytes | TUtf8Bytes | TList | TDictionary.

Inductive BencodeConvertErrorKind : Type :=
  | MissingKey (key : bytes)
  | WrongType (key : bytes) (expected_type : ExpectedType).

(** * Decode options *)

Record BDecodeOpt := {
  max_recursion : nat;
  check_key_sort : bool;
  enforce_full_decode : bool;
}.

Definition DEFAULT_MAX_RECURSION : nat := 50.
Definition DEFAULT_CHECK_KEY_SORT : bool := false.
Definition DEFAULT_ENFORCE_FULL_DECODE : bool := true.

Definition BDecodeOpt_default : BDecodeOpt := {|
  max_recursion := DEFAULT_MAX_RECURSION;
  check_key_sort := DEFAULT_CHECK_KEY_SORT;
  enforce_full_decode := DEFAULT_ENFORCE_FULL_DECODE;
|}.

(** * Trees *)

Inductive BencodeRef : Type :=
  | RInt (n : Z) (buf : bytes)
  | RBytes (b buf : bytes)
  | RList (l : list BencodeRef) (buf : bytes)
  | RDict (d : list (bytes * BencodeRef)) (buf : bytes).

Inductive BencodeMut : Type :=
  | MInt (n : Z)
  | MBytes (b : bytes)
  | MList (l : list BencodeMut)
  | MDict (d : list (bytes * BencodeMut)).

(** [BencodeRef::buffer] *)
Definition buffer (r : BencodeRef) : bytes :=
  match r with
  | RInt _ buf | RBytes _ buf | RList _ buf | RDict _ buf => buf
  end.

(** * The standard library: decimal text, UTF-8, [i64::from_str_radix] *)

(** Decimal digits of a non-negative number of at most [fuel] digits. *)
Fixpoint dec_digits (fuel : nat) (z : Z) : bytes :=
  match fuel with
  | O => []
  | S fuel' =>
      if (z <? 10)%Z then [(48 + z)%Z]
      else dec_digits fuel' (z / 10) ++ [(48 + z mod 10)%Z]
  end.

(** [to_string] of an [i64] or a [usize]: at most twenty digits. *)
Definition to_string (z : Z) : bytes :=
  if (z <? 0)%Z then 45%Z :: dec_digits 20 (- z) else dec_digits 20 z.

Definition in_i64 (z : Z) : bool := bool_decide (is_i64 z).
Definition is_digit (c : Z) : bool := ((48 <=? c) && (c <=? 57))%Z.

(** The digit loop of [from_str_radix]: [checked_mul], then [checked_add], or
    [checked_sub] for a negative number. *)
Fixpoint parse_digits (neg : bool) (acc : Z) (s : bytes) : option Z :=
  match s with
  | [] => Some acc
  | c :: s' =>
      if is_digit c then
        let m := (acc * 10)%Z in
        let acc' := (if neg then m - (c - 48) else m + (c - 48))%Z in
        if in_i64 m && in_i64 acc' then parse_digits neg acc' s' else None
      else None
  end.

Definition i64_from_str_radix (s : bytes) : option Z :=
  match s with
  | [] => None
  | c :: s' =>
      if ((c =? 43) || (c =? 45))%Z && (length s' =? 0) then None
      else if (c =? 45)%Z then parse_digits true 0 s'
      else if (c =? 43)%Z then parse_digits false 0 s'
      else parse_digits false 0 s
  end.

Definition in_range (lo hi c : Z) : bool := ((lo <=? c) && (c <=? hi))%Z.
Definition utf8_cont (c : Z) : bool := in_range 128 191 c.

(** Well-formed UTF-8 (the Unicode byte-sequence table). *)
Fixpoint utf8_valid (s : bytes) : bool :=
  match s with
  | [] => true
  | a :: s1 =>
      if (a <? 128)%Z then utf8_valid s1
      else
        match s1 with
        | [] => false
        | b :: s2 =>
            if in_range 194 223 a then utf8_cont b && utf8_valid s2
            else
              match s2 with
              | [] => false
              | c :: s3 =>
                  if (a =? 224)%Z then in_range 160 191 b && utf8_cont c && utf8_valid s3
                  else if in_range 225 236 a || in_range 238 239 a
                  then utf8_cont b && utf8_cont c && utf8_valid s3
                  else if (a =? 237)%Z
                  then in_range 128 159 b && utf8_cont c && utf8_valid s3
                  else
                    match s3 with
                    | [] => false
                    | d :: s4 =>
                        (if (a =? 240)%Z then in_range 144 191 b
                         else if in_range 241 243 a then utf8_cont b
                         else if (a =? 244)%Z then in_range 128 143 b else false)
                        && utf8_cont c && utf8_cont d && utf8_valid s4
                    end
              end
        end
  end.

(** [str::from_utf8] *)
Definition from_utf8 (s : bytes) : option bytes := if utf8_valid s then Some s else None.

(** * The decoder (reference/decode.rs) *)

Notation parse A := (outcome BencodeParseErrorKind A).

Definition peek_byte (bs : bytes) (pos : nat) : parse Z :=
  ok_or (bs !! pos) (BytesEmpty pos).

(** The two checks made when the slice has more than one byte. *)
Definition starts_minus_zero (s : bytes) : bool :=
  match s with a :: b :: _ => ((a =? 45) && (b =? 48))%Z | _ => false end.
Definition zero_padded (s : bytes) : bool :=
  match s with a :: _ :: _ => (a =? 48)%Z | _ => false end.

Definition decode_int (bs : bytes) (pos : nat) (delim : Z) : parse (Z * nat) :=
  begin_decode ← slice_from bs pos;
  match position (Z.eqb delim) begin_decode with
  | None => Err (InvalidIntNoDelimiter pos)
  | Some relative_end_pos =>
      let int_byte_slice := take relative_end_pos begin_decode in
      if starts_minus_zero int_byte_slice then Err (InvalidIntNegativeZero pos)
      else if zero_padded int_byte_slice then Err (InvalidIntZeroPadding pos)
      else
        match from_utf8 int_byte_slice with
        | None => Err (InvalidIntParseError pos)
        | Some int_str =>
            let absolute_end_pos := pos + relative_end_pos in
            let next_pos := absolute_end_pos + 1 in
            match i64_from_str_radix int_str with
            | Some n => Ok (n, next_pos)
            | None => Err (InvalidIntParseError pos)
            end
        end
  end.

Definition decode_bytes (bs : bytes) (pos : nat) : parse (bytes * nat) :=
  '(num_bytes, start_pos) ← decode_int bs pos BYTE_LEN_END;
  if (num_bytes <? 0)%Z then Err (InvalidLengthNegative pos)
  else
    rest ← slice_from bs start_pos;
    if (Z.of_nat (length rest) <? num_bytes)%Z then Err (InvalidLengthOverflow pos)
    else
      let next_pos := start_pos + Z.to_nat num_bytes in
      s ← slice bs start_pos next_pos;
      Ok (s, next_pos).

Definition is_len_byte (c : Z) : bool := in_range BYTE_LEN_LOW BYTE_LEN_HIGH c.

(** The key-order check of [decode_dict]. *)
Definition key_order_ok {V} (opts : BDecodeOpt) (d : list (bytes * V)) (key : bytes) : bool :=
  match btree_last_key d, check_key_sort opts with
  | Some last_key, true => match kcmp key last_key with Lt => false | _ => true end
  | _, _ => true
  end.

(** [decode], [decode_list] and [decode_dict] call each other; [fuel] bounds
    the calls plus the loop iterations.  In [decode_dict] the value is decoded
    with [.unwrap()], so an error inside a dictionary value is a panic. *)
Fixpoint decode (fuel : nat) (bs : bytes) (pos : nat) (opts : BDecodeOpt)
    (depth : nat) : parse (BencodeRef * nat) :=
  match fuel with
  | O => NoFuel
  | S fuel =>
      if max_recursion opts <=? depth then Err (InvalidRecursionExceeded pos depth)
      else
        curr_byte ← peek_byte bs pos;
        if (curr_byte =? INT_START)%Z then
          '(n, next_pos) ← decode_int bs (pos + 1) BEN_END;
          buf ← slice bs pos next_pos; Ok (RInt n buf, next_pos)
        else if (curr_byte =? LIST_START)%Z then
          '(l, next_pos) ← decode_list fuel bs (pos + 1) opts depth [];
          buf ← slice bs pos next_pos; Ok (RList l buf, next_pos)
        else if (curr_byte =? DICT_START)%Z then
          '(d, next_pos) ← decode_dict fuel bs (pos + 1) opts depth [];
          buf ← slice bs pos next_pos; Ok (RDict d buf, next_pos)
        else if is_len_byte curr_byte then
          '(b, next_pos) ← decode_bytes bs pos;
          buf ← slice bs pos next_pos; Ok (RBytes b buf, next_pos)
        else Err (InvalidByte pos)
  end
with decode_list (fuel : nat) (bs : bytes) (curr_pos : nat) (opts : BDecodeOpt)
    (depth : nat) (bencode_list : list BencodeRef) : parse (list BencodeRef * nat) :=
  match fuel with
  | O => NoFuel
  | S fuel =>
      curr_byte ← peek_byte bs curr_pos;
      if (curr_byte =? BEN_END)%Z then Ok (bencode_list, curr_pos + 1)
      else
        '(b, next_pos) ← decode fuel bs curr_pos opts (depth + 1);
        decode_list fuel bs next_pos opts depth (bencode_list ++ [b])
  end
with decode_dict (fuel : nat) (bs : bytes) (curr_pos : nat) (opts : BDecodeOpt)
    (depth : nat) (bencode_dict : list (bytes * BencodeRef))
    : parse (list (bytes * BencodeRef) * nat) :=
  match fuel with
  | O => NoFuel
  | S fuel =>
      curr_byte ← peek_byte bs curr_pos;
      if (curr_byte =? BEN_END)%Z then Ok (bencode_dict, curr_pos + 1)
      else
        '(key_bytes, next_pos) ← decode_bytes bs curr_pos;
        if key_order_ok opts bencode_dict key_bytes then
          '(value, next_pos') ← unwrap (decode fuel bs next_pos opts (depth + 1));
          match btree_get key_bytes bencode_dict with
          | Some _ => Err (InvalidKeyDuplicates next_pos key_bytes)
          | None =>
              decode_dict fuel bs next_pos' opts depth
                (btree_insert key_bytes value bencode_dict)
          end
        else Err (InvalidKeyOrdering curr_pos key_bytes)
  end.

(** Each call or iteration but the last of a loop consumes a byte, so two
    steps per byte are enough ([decode_terminates]). *)
Definition decode_fuel (bs : bytes) : nat := 2 * length bs + 4.

(** [BencodeRef::decode] *)
Definition BencodeRef_decode (bs : bytes) (opts : BDecodeOpt) : parse BencodeRef :=
  '(bencode, end_pos) ← decode (decode_fuel bs) bs 0 opts 0;
  if negb (end_pos =? length bs) && enforce_full_decode opts
  then Err (BytesEmpty end_pos)
  else Ok bencode.

(** * The encoder (mutable/encode.rs) *)

(** [slice::sort_by] on the keys: a stable sort. *)
Fixpoint sort_insert {V} (p : bytes * V) (l : list (bytes * V)) : list (bytes * V) :=
  match l with
  | [] => [p]
  | q :: l' => match kcmp p.1 q.1 with Gt => q :: sort_insert p l' | _ => p :: l end
  end.
Definition sort_by_key {V} (l : list (bytes * V)) : list (bytes * V) :=
  foldr sort_insert [] l.

Definition encode_int (val : Z) : bytes := [INT_START] ++ to_string val ++ [BEN_END].

Definition encode_bytes (l : bytes) : bytes :=
  to_string (Z.of_nat (length l)) ++ [BYTE_LEN_END] ++ l.

(** The bytes [encode] appends to the buffer.  The entries of a dictionary are
    encoded where they stand and then sorted with their keys, which gives the
    same bytes as sorting the entries first. *)
Fixpoint encode (val : BencodeMut) : bytes :=
  match val with
  | MInt n => encode_int n
  | MBytes b => encode_bytes b
  | MList l => [LIST_START] ++ concat (encode <$> l) ++ [BEN_END]
  | MDict d =>
      let entries := (fun '(k, v) => (k, encode_bytes k ++ encode v)) <$> d in
      [DICT_START] ++ concat (sort_by_key entries).*2 ++ [BEN_END]
  end.

(** * Construction (mutable/bencode_mut.rs and the [ben_*] macros) *)

Definition new_int (value : Z) : BencodeMut := MInt value.
Definition new_bytes (value : bytes) : BencodeMut := MBytes value.
Definition new_list : BencodeMut := MList [].
Definition new_dict : BencodeMut := MDict [].

(** [ben_map!]: insert the pairs in order into a fresh dictionary. *)
Definition ben_map (kvs : list (bytes * BencodeMut)) : BencodeMut :=
  MDict (fold_left (fun d '(k, v) => btree_insert k v d) kvs []).

(** [ben_list!] *)
Definition ben_list (vs : list BencodeMut) : BencodeMut :=
  MList (fold_left (fun l v => l ++ [v]) vs []).

(** * Access (access/bencode.rs) *)

(** [trait BRefAccess]; lists and dictionaries are exposed as the sequences
    their [BListAccess] and [BDictAccess] objects give access to. *)
Class BRefAccess (T : Type) := {
  str : T -> option bytes;
  int : T -> option Z;
  bytes_of : T -> option bytes;
  list_of : T -> option (list T);
  dict_of : T -> option (list (bytes * T));
}.

Definition BencodeRef_bytes (r : BencodeRef) : option bytes :=
  match r with RBytes b _ => Some b | _ => None end.
Definition BencodeMut_bytes (r : BencodeMut) : option bytes :=
  match r with MBytes b => Some b | _ => None end.

#[global] Instance BencodeRef_access : BRefAccess BencodeRef := {|
  str r := match BencodeRef_bytes r with Some b => from_utf8 b | None => None end;
  int r := match r with RInt n _ => Some n | _ => None end;
  bytes_of := BencodeRef_bytes;
  list_of r := match r with RList l _ => Some l | _ => None end;
  dict_of r := match r with RDict d _ => Some d | _ => None end;
|}.

#[global] Instance BencodeMut_access : BRefAccess BencodeMut := {|
  str r := match BencodeMut_bytes r with Some b => from_utf8 b | None => None end;
  int r := match r with MInt n => Some n | _ => None end;
  bytes_of := BencodeMut_bytes;
  list_of r := match r with MList l => Some l | _ => None end;
  dict_of r := match r with MDict d => Some d | _ => None end;
|}.

(** ** [BListAccess for Vec<V>] (access/list.rs) *)
Section ListAccess.
Context {V : Type}.
Definition list_get (l : list V) (i : nat) : option V := l !! i.
Definition list_remove (l : list V) (i : nat) : option V * list V :=
  if i <? length l then (l !! i, delete i l) else (None, l).
Definition list_insert_at {E} (l : list V) (i : nat) (x : V) : outcome E (list V) :=
  vec_insert l i x.
Definition list_push (l : list V) (x : V) : list V := l ++ [x].
End ListAccess.

(** ** [BDictAccess for BTreeMap] (access/dict.rs) *)
Section DictAccess.
Context {V : Type}.
Definition dict_to_list (d : list (bytes * V)) : list (bytes * V) := d.
Definition dict_lookup (d : list (bytes * V)) (key : bytes) : option V := btree_get key d.
Definition dict_insert (d : list (bytes * V)) (key : bytes) (value : V)
    : option V * list (bytes * V) := (btree_get key d, btree_insert key value d).
Definition dict_remove (d : list (bytes * V)) (key : bytes)
    : option V * list (bytes * V) := (btree_get key d, btree_remove key d).
End DictAccess.

(** * Conversion (access/convert.rs) *)

(** [trait BConvert]: an application error type and the map into it. *)
Class BConvert (Error : Type) := {
  handle_error : BencodeConvertErrorKind -> Error;
}.

Section Convert.
Context {B Error : Type} `{!BRefAccess B, !BConvert Error}.
Implicit Types (bencode : B) (error_key key : bytes) (d : list (bytes * B)).

Definition convert_int bencode error_key : outcome Error Z :=
  ok_or (int bencode) (handle_error (WrongType error_key TInteger)).
Definition convert_bytes bencode error_key : outcome Error bytes :=
  ok_or (bytes_of bencode) (handle_error (WrongType error_key TBytes)).
Definition convert_str bencode error_key : outcome Error bytes :=
  ok_or (str bencode) (handle_error (WrongType error_key TUtf8Bytes)).
Definition convert_list bencode error_key : outcome Error (list B) :=
  ok_or (list_of bencode) (handle_error (WrongType error_key TList)).
Definition convert_dict bencode error_key : outcome Error (list (bytes * B)) :=
  ok_or (dict_of bencode) (handle_error (WrongType error_key TDictionary)).

Definition lookup_key d key : outcome Error B :=
  match dict_lookup d key with
  | Some n => Ok n
  | None => Err (handle_error (MissingKey key))
  end.

Definition lookup_and_convert_int d key : outcome Error Z :=
  v ← lookup_key d key; convert_int v key.
Definition lookup_and_convert_bytes d key : outcome Error bytes :=
  v ← lookup_key d key; convert_bytes v key.
Definition lookup_and_convert_str d key : outcome Error bytes :=
  v ← lookup_key d key; convert_str v key.
Definition lookup_and_convert_list d key : outcome Error (list B) :=
  v ← lookup_key d key; convert_list v key.
Definition lookup_and_convert_dict d key : outcome Error (list (bytes * B)) :=
  v ← lookup_key d key; convert_dict v key.
End Convert.

(** * The well-formed trees of the model

    What the Rust types guarantee of a [BencodeMut]: integers are [i64],
    lengths fit, and a dictionary is in [BTreeMap] order. *)

Fixpoint orderedb {V} (d : list (bytes * V)) : bool :=
  match d with
  | p :: (q :: _) as d' =>
      match kcmp p.1 q.1 with Lt => true | _ => false end && orderedb d'
  | _ => true
  end.

Fixpoint wf_mut (v : BencodeMut) : bool :=
  match v with
  | MInt n => in_i64 n
  | MBytes b => in_i64 (Z.of_nat (length b))
  | MList l => forallb wf_mut l
  | MDict d =>
      orderedb d && forallb (fun '(k, x) => in_i64 (Z.of_nat (length k)) && wf_mut x) d
  end.

(** Nesting depth, as [decode] counts it against [max_recursion]. *)
Fixpoint nesting (v : BencodeMut) : nat :=
  match v with
  | MInt _ | MBytes _ => 1
  | MList l => S (list_max (nesting <$> l))
  | MDict d => S (list_max ((fun '(_, x) => nesting x) <$> d))
  end.

(** The borrowed view of an owned tree: every node annotated with its own
    encoding. *)
Fixpoint to_ref (v : BencodeMut) : BencodeRef :=
  match v with
  | MInt n => RInt n (encode v)
  | MBytes b => RBytes b (encode v)
  | MList l => RList (to_ref <$> l) (encode v)
  | MDict d => RDict ((fun '(k, x) => (k, to_ref x)) <$> d) (encode v)
  end.

(** The owned tree a borrowed one denotes: the buffers forgotten. *)
Fixpoint from_ref (r : BencodeRef) : BencodeMut :=
  match r with
  | RInt n _ => MInt n
  | RBytes b _ => MBytes b
  | RList l _ => MList (from_ref <$> l)
  | RDict d _ => MDict ((fun '(k, x) => (k, from_ref x)) <$> d)
  end.

(** [n] is [r] or one of the nodes below it. *)
Inductive node_in (n : BencodeRef) : BencodeRef -> Prop :=
  | node_here : node_in n n
  | node_list l buf x : x ∈ l -> node_in n x -> node_in n (RList l buf)
  | node_dict d buf k x : (k, x) ∈ d -> node_in n x -> node_in n (RDict d buf).
