(* ===== verification/BencodeCorrect.v ===== *)
(** BencodeCorrect: the properties of the bencode codec. *)

From stdpp Require Import base list.
From Stdlib Require Import ZArith Lia.
From S2P Require Import Prelude OrdMap Bencode.

(** * Decimal text *)

Section Decimal.
Local Open Scope Z_scope.

Lemma is_digit_spec c : is_digit c = true <-> 48 <= c <= 57.
Proof. unfold is_digit. lia. Qed.

Lemma in_i64_spec z : in_i64 z = true <-> is_i64 z.
Proof. unfold in_i64. apply bool_decide_eq_true. Qed.

Lemma dec_digits_step fuel z :
  dec_digits (S fuel) z =
  if z <? 10 then [48 + z] else dec_digits fuel (z / 10) ++ [48 + z mod 10].
Proof. done. Qed.

Lemma dec_digits_digit fuel z :
  0 <= z -> Forall (fun c => is_digit c = true) (dec_digits fuel z).
Proof.
  revert z. induction fuel as [|fuel IH]; intros z Hz; [constructor|].
  rewrite dec_digits_step. destruct (Z.ltb_spec z 10).
  - repeat constructor. apply is_digit_spec. lia.
  - apply Forall_app. split; [apply IH, Z.div_pos; lia|].
    repeat constructor. apply is_digit_spec.
    pose proof (Z.mod_pos_bound z 10). lia.
Qed.

(** No leading zero: a first digit 0 means the text is exactly "0". *)
Lemma dec_digits_head fuel z :
  0 <= z < 10 ^ Z.of_nat (S fuel) ->
  exists c s, dec_digits (S fuel) z = c :: s /\ (c = 48 -> s = [] /\ z = 0).
Proof.
  revert z. induction fuel as [|fuel IH]; intros z Hz.
  - change (Z.of_nat 1) with 1 in Hz. cbn [dec_digits]. destruct (Z.ltb_spec z 10); [|lia].
    eexists _, []. split; [done|]. intros. split; [done|lia].
  - rewrite dec_digits_step. destruct (Z.ltb_spec z 10).
    + eexists _, []. split; [done|]. intros. split; [done|lia].
    + destruct (IH (z / 10)) as (c & s & -> & Hc).
      { split; [apply Z.div_pos; lia|]. apply Z.div_lt_upper_bound; [lia|].
        rewrite <- Z.pow_succ_r by lia. rewrite <- Nat2Z.inj_succ. apply Hz. }
      eexists c, _. split; [done|]. intros ->. destruct Hc as [_ Hc]; [done|].
      pose proof (Z.div_mod z 10). pose proof (Z.mod_pos_bound z 10). lia.
Qed.

Lemma parse_digits_app neg acc s t :
  parse_digits neg acc (s ++ t) = parse_digits neg acc s ≫= fun a => parse_digits neg a t.
Proof.
  revert acc. induction s as [|c s IH]; intros acc; [done|]. simpl.
  destruct (is_digit c); [|done]. destruct (_ && _); [|done]. apply IH.
Qed.

Lemma parse_dec_digits neg fuel z :
  0 <= z < 10 ^ Z.of_nat fuel -> (1 <= fuel)%nat ->
  is_i64 (if neg : bool then - z else z) ->
  parse_digits neg 0 (dec_digits fuel z) = Some (if neg then - z else z).
Proof.
  revert z. induction fuel as [|fuel IH]; intros z Hz Hf Hi; [lia|].
  rewrite dec_digits_step. destruct (Z.ltb_spec z 10) as [Hlt|Hge].
  - cbn [parse_digits]. rewrite (proj2 (is_digit_spec _)) by lia. cbn [Z.mul].
    replace (if neg then _ else _) with (if neg then - z else z) by (destruct neg; lia).
    rewrite (proj2 (in_i64_spec _) Hi). by vm_compute (in_i64 0).
  - assert (Hf' : (1 <= fuel)%nat) by (destruct fuel; [change (Z.of_nat 1) with 1 in Hz|]; lia).
    rewrite parse_digits_app, IH; [| |done|].
    + cbn [mbind option_bind parse_digits].
      pose proof (Z.div_mod z 10). pose proof (Z.mod_pos_bound z 10).
      rewrite (proj2 (is_digit_spec _)) by lia.
      set (m := _ * 10). assert (Hm : is_i64 m).
      { unfold is_i64 in *. subst m. destruct neg; lia. }
      replace (if neg then _ - _ else _) with (if neg then - z else z)
        by (subst m; destruct neg; lia).
      by rewrite (proj2 (in_i64_spec _) Hm), (proj2 (in_i64_spec _) Hi).
    + split; [apply Z.div_pos; lia|]. apply Z.div_lt_upper_bound; [lia|].
      rewrite <- Z.pow_succ_r by lia. rewrite <- Nat2Z.inj_succ. apply Hz.
    + pose proof (Z.div_mod z 10). pose proof (Z.mod_pos_bound z 10).
      unfold is_i64 in *. destruct neg; lia.
Qed.

Lemma from_str_neg s : s <> [] -> i64_from_str_radix (45 :: s) = parse_digits true 0 s.
Proof. by destruct s. Qed.

Lemma from_str_pos c s :
  is_digit c = true -> i64_from_str_radix (c :: s) = parse_digits false 0 (c :: s).
Proof.
  intros Hc%is_digit_spec. unfold i64_from_str_radix.
  destruct (Z.eqb_spec c 43), (Z.eqb_spec c 45); lia || done.
Qed.

(** [i64::to_string] then [i64::from_str_radix] is the identity. *)
Lemma from_str_to_string z : is_i64 z -> i64_from_str_radix (to_string z) = Some z.
Proof.
  intros Hz. unfold to_string.
  destruct (Z.ltb_spec z 0) as [Hneg|Hpos].
  - assert (Hb : 0 <= - z < 10 ^ Z.of_nat 20) by (unfold is_i64 in Hz; lia).
    destruct (dec_digits_head 19 (- z) Hb) as (c & s & Hd & _).
    rewrite from_str_neg by (by rewrite Hd).
    rewrite (parse_dec_digits true); [f_equal; lia|done|lia|].
    unfold is_i64 in *. lia.
  - assert (Hb : 0 <= z < 10 ^ Z.of_nat 20) by (unfold is_i64 in Hz; lia).
    destruct (dec_digits_head 19 z Hb) as (c & s & Hd & _).
    pose proof (dec_digits_digit 20 z Hpos) as Hall. rewrite Hd in Hall |- *.
    apply Forall_cons in Hall as [Hc _].
    rewrite from_str_pos, <- Hd by done. apply (parse_dec_digits false); [done|lia|done].
Qed.

Lemma utf8_ascii s : Forall (fun c => c < 128) s -> utf8_valid s = true.
Proof.
  induction 1 as [|c s Hc Hs IH]; [done|]. simpl. apply Z.ltb_lt in Hc. by rewrite Hc.
Qed.

(** What [decode_int] needs to know of a printed number. *)
Lemma to_string_shape z :
  is_i64 z ->
  Forall (fun c => c = 45 \/ 48 <= c <= 57) (to_string z) /\
  starts_minus_zero (to_string z) = false /\ zero_padded (to_string z) = false.
Proof.
  intros Hz. unfold to_string.
  destruct (Z.ltb_spec z 0) as [Hneg|Hpos].
  - assert (Hb : 0 <= - z < 10 ^ Z.of_nat 20) by (unfold is_i64 in Hz; lia).
    destruct (dec_digits_head 19 (- z) Hb) as (c & s & Hd & Hc0).
    pose proof (dec_digits_digit 20 (- z)) as Hall. rewrite Hd in *. split.
    + constructor; [by left|]. eapply Forall_impl; [apply Hall; lia|].
      intros x Hx%is_digit_spec. by right.
    + split; [|done]. simpl. destruct (Z.eqb_spec c 48) as [->|]; [|done].
      destruct Hc0 as [_ ?]; [done|]. lia.
  - assert (Hb : 0 <= z < 10 ^ Z.of_nat 20) by (unfold is_i64 in Hz; lia).
    destruct (dec_digits_head 19 z Hb) as (c & s & Hd & Hc0).
    pose proof (dec_digits_digit 20 z Hpos) as Hall. rewrite Hd in *. split.
    + eapply Forall_impl; [exact Hall|]. intros x Hx%is_digit_spec. by right.
    + apply Forall_cons in Hall as [Hc%is_digit_spec _].
      destruct s as [|d s]; [done|]. simpl.
      destruct (Z.eqb_spec c 45); [lia|]. split; [done|].
      destruct (Z.eqb_spec c 48); [|done]. by destruct Hc0.
Qed.
End Decimal.

#[export] Hint Resolve from_str_to_string utf8_ascii : bt.

(** * The leaf decoders *)

(** Destruct the first scrutinee of a chain of binds and tests in [H]. *)
Ltac parse_step H :=
  match type of H with
  | mbind _ ?m = Ok _ => apply bind_Ok in H as (? & ?Hm & H)
  | (if ?b then _ else _) = Ok _ => destruct b eqn:?
  | (let '(_, _) := ?p in _) = Ok _ => destruct p as [? ?]
  | (match ?o with Some _ => _ | None => _ end) = Ok _ => destruct o eqn:?
  | Err _ = Ok _ => discriminate H
  | Panic = Ok _ => discriminate H
  | Ok _ = Ok _ => injection H as ?; subst
  end.
Ltac parse_inv H := repeat (parse_step H; try discriminate).

Lemma slice_from_Ok {E A} (l : list A) i s :
  @slice_from E A l i = Ok s <-> i <= length l /\ s = drop i l.
Proof. unfold slice_from. destruct (Nat.leb_spec i (length l)); naive_solver lia. Qed.

Lemma decode_int_bounds bs pos delim n next :
  decode_int bs pos delim = Ok (n, next) -> pos < next <= length bs.
Proof.
  unfold decode_int. intros H. parse_inv H.
  apply slice_from_Ok in Hm as [Hp ->].
  match goal with Hq : position _ _ = Some _ |- _ => apply position_lt in Hq end.
  rewrite length_drop in *. lia.
Qed.

Lemma decode_bytes_bounds bs pos b next :
  decode_bytes bs pos = Ok (b, next) -> pos < next <= length bs.
Proof.
  unfold decode_bytes. intros H. parse_inv H.
  apply decode_int_bounds in Hm. apply slice_Ok in Hm1. lia.
Qed.

Lemma decode_int_total bs pos delim : decode_int bs pos delim <> NoFuel.
Proof. unfold decode_int, slice_from. simpl. repeat (case_match; simpl; try done). Qed.

Lemma decode_bytes_total bs pos : decode_bytes bs pos <> NoFuel.
Proof.
  unfold decode_bytes. pose proof (decode_int_total bs pos BYTE_LEN_END).
  destruct (decode_int bs pos BYTE_LEN_END) as [[n sp]| | |]; simpl; try done.
  unfold slice_from, slice. repeat (case_match; simpl; try done).
Qed.

(** A read past the buffer never happens in the leaf decoders. *)
Lemma decode_int_no_panic bs pos delim : pos <= length bs -> decode_int bs pos delim <> Panic.
Proof.
  intros Hp. unfold decode_int. rewrite slice_from_in by done. simpl.
  repeat (case_match; simpl; try done).
Qed.

Lemma decode_bytes_no_panic bs pos : pos <= length bs -> decode_bytes bs pos <> Panic.
Proof.
  intros Hp. unfold decode_bytes.
  pose proof (decode_int_no_panic bs pos BYTE_LEN_END Hp).
  destruct (decode_int bs pos BYTE_LEN_END) as [[n sp]| | |] eqn:Hi; simpl; try done.
  apply decode_int_bounds in Hi. case_match; [done|].
  rewrite slice_from_in by lia. simpl. rewrite length_drop.
  destruct (Z.ltb_spec (Z.of_nat (length bs - sp)) n); [done|].
  rewrite slice_in by lia. done.
Qed.

Lemma decode_int_print pre z delim post :
  is_i64 z -> (delim <> 45)%Z -> ~ (48 <= delim <= 57)%Z ->
  decode_int (pre ++ to_string z ++ delim :: post) (length pre) delim
  = Ok (z, length pre + length (to_string z) + 1).
Proof.
  intros Hz Hd1 Hd2. destruct (to_string_shape z Hz) as (Hall & Hmz & Hzp).
  unfold decode_int. rewrite slice_from_in by (rewrite !length_app; lia).
  rewrite drop_app_length. cbn [mbind outcome_bind].
  rewrite position_app_here; [| |apply Z.eqb_refl].
  2:{ eapply Forall_impl; [exact Hall|]. simpl. intros c Hc. lia. }
  rewrite take_app_length, Hmz, Hzp. unfold from_utf8.
  rewrite utf8_ascii by (eapply Forall_impl; [exact Hall|simpl; lia]).
  by rewrite from_str_to_string.
Qed.

Lemma decode_bytes_encode pre b post :
  is_i64 (Z.of_nat (length b)) ->
  decode_bytes (pre ++ encode_bytes b ++ post) (length pre)
  = Ok (b, length pre + length (encode_bytes b)).
Proof.
  intros Hb. unfold decode_bytes, encode_bytes.
  replace (pre ++ (_ ++ _) ++ post) with
    (pre ++ to_string (Z.of_nat (length b)) ++ BYTE_LEN_END :: (b ++ post))
    by (by rewrite <- !app_assoc).
  rewrite decode_int_print by (done || unfold BYTE_LEN_END; lia). cbn [mbind outcome_bind].
  set (ts := to_string _).
  destruct (Z.ltb_spec (Z.of_nat (length b)) 0); [lia|].
  assert (Hpre : pre ++ ts ++ BYTE_LEN_END :: b ++ post = (pre ++ ts ++ [BYTE_LEN_END]) ++ b ++ post)
    by (by rewrite <- !app_assoc).
  assert (Hl : length pre + length ts + 1 = length (pre ++ ts ++ [BYTE_LEN_END]))
    by (rewrite !length_app; simpl; lia).
  rewrite Hpre, Hl, slice_from_in by (rewrite !length_app; lia).
  rewrite drop_app_length. cbn [mbind outcome_bind]. rewrite length_app.
  destruct (Z.ltb_spec (Z.of_nat (length b + length post)) (Z.of_nat (length b))); [lia|].
  rewrite Nat2Z.id, slice_app. cbn [mbind outcome_bind]. do 2 f_equal.
  rewrite !length_app. simpl. lia.
Qed.

(** * Progress, buffers and termination *)

Lemma peek_byte_Ok bs pos c : peek_byte bs pos = Ok c <-> bs !! pos = Some c.
Proof. unfold peek_byte, ok_or. destruct (bs !! pos); naive_solver. Qed.

Lemma peek_byte_cases bs pos :
  (exists c, peek_byte bs pos = Ok c /\ pos < length bs) \/
  peek_byte bs pos = Err (BytesEmpty pos).
Proof.
  unfold peek_byte. destruct (bs !! pos) eqn:H; simpl; [left|by right].
  apply lookup_lt_Some in H. eauto.
Qed.

Lemma peek_byte_lt bs pos c : peek_byte bs pos = Ok c -> pos < length bs.
Proof. rewrite peek_byte_Ok. apply lookup_lt_Some. Qed.

Lemma decode_bounds_aux fuel bs opts :
  (forall pos depth r next, decode fuel bs pos opts depth = Ok (r, next) ->
     pos < next <= length bs /\ buffer r = take (next - pos) (drop pos bs)) /\
  (forall pos depth acc l next, decode_list fuel bs pos opts depth acc = Ok (l, next) ->
     pos < next <= length bs) /\
  (forall pos depth acc d next, decode_dict fuel bs pos opts depth acc = Ok (d, next) ->
     pos < next <= length bs).
Proof.
  induction fuel as [|fuel (IHd & IHl & IHm)]; [done|]. split; [|split].
  - intros pos depth r next H. cbn [decode] in H. parse_inv H;
      match goal with Hs : slice _ _ _ = Ok _ |- _ => apply slice_Ok in Hs as [? ->] end;
      (split; [|done]);
      repeat match goal with
      | Hi : decode_int _ _ _ = Ok _ |- _ => apply decode_int_bounds in Hi
      | Hi : decode_bytes _ _ = Ok _ |- _ => apply decode_bytes_bounds in Hi
      | Hi : decode_list _ _ _ _ _ _ = Ok _ |- _ => apply IHl in Hi
      | Hi : decode_dict _ _ _ _ _ _ = Ok _ |- _ => apply IHm in Hi
      end; lia.
  - intros pos depth acc l next H. cbn [decode_list] in H.
    apply bind_Ok in H as (c & Hc & H). apply peek_byte_lt in Hc.
    parse_inv H; [lia|]. apply IHd in Hm as [? _]. apply IHl in H. lia.
  - intros pos depth acc d next H. cbn [decode_dict] in H.
    apply bind_Ok in H as (c & Hc & H). apply peek_byte_lt in Hc.
    parse_inv H; [lia|]. apply decode_bytes_bounds in Hm.
    rewrite unwrap_Ok in Hm0. apply IHd in Hm0 as [? _]. apply IHm in H. lia.
Qed.

Lemma decode_bounds fuel bs pos opts depth r next :
  decode fuel bs pos opts depth = Ok (r, next) ->
  pos < next <= length bs /\ buffer r = take (next - pos) (drop pos bs).
Proof. apply decode_bounds_aux. Qed.

(** Enough fuel: two steps per remaining byte. *)
Lemma decode_fuel_aux fuel bs opts :
  (forall pos depth, 2 * (length bs - pos) + 1 <= fuel ->
     decode fuel bs pos opts depth <> NoFuel) /\
  (forall pos depth acc, 2 * (length bs - pos) + 2 <= fuel ->
     decode_list fuel bs pos opts depth acc <> NoFuel) /\
  (forall pos depth acc, 2 * (length bs - pos) + 2 <= fuel ->
     decode_dict fuel bs pos opts depth acc <> NoFuel).
Proof.
  induction fuel as [|fuel (IHd & IHl & IHm)];
    [split; [|split]; intros; lia|]. split; [|split].
  - intros pos depth Hf. cbn [decode]. destruct (max_recursion opts <=? depth); [done|].
    destruct (peek_byte_cases bs pos) as [(c & -> & Hlt)| ->]; [|done].
    cbn [mbind outcome_bind].
    repeat case_match; try done; simplify_eq;
      match goal with
      | |- context [decode_int ?a ?b ?c] => pose proof (decode_int_total a b c)
      | |- context [decode_bytes ?a ?b] => pose proof (decode_bytes_total a b)
      | |- context [decode_list ?f ?a ?b ?c ?d ?e] =>
          assert (decode_list f a b c d e <> NoFuel) by (apply IHl; lia)
      | |- context [decode_dict ?f ?a ?b ?c ?d ?e] =>
          assert (decode_dict f a b c d e <> NoFuel) by (apply IHm; lia)
      end;
      match goal with |- mbind _ ?m <> _ => destruct m as [[? ?]| | |]; try done end;
      cbn [mbind outcome_bind]; unfold slice; destruct (_ && _); done.
  - intros pos depth acc Hf. cbn [decode_list].
    destruct (peek_byte_cases bs pos) as [(c & -> & Hlt)| ->]; [|done].
    cbn [mbind outcome_bind]. case_match; [done|].
    assert (decode fuel bs pos opts (depth + 1) <> NoFuel) by (apply IHd; lia).
    destruct (decode fuel bs pos opts (depth + 1)) as [[r n]| | |] eqn:Hr; try done.
    apply decode_bounds in Hr. apply IHl. lia.
  - intros pos depth acc Hf. cbn [decode_dict].
    destruct (peek_byte_cases bs pos) as [(c & -> & Hlt)| ->]; [|done].
    cbn [mbind outcome_bind]. case_match; [done|].
    pose proof (decode_bytes_total bs pos).
    destruct (decode_bytes bs pos) as [[k n]| | |] eqn:Hk; try done.
    apply decode_bytes_bounds in Hk. cbn [mbind outcome_bind]. case_match; [|done].
    assert (decode fuel bs n opts (depth + 1) <> NoFuel) by (apply IHd; lia).
    destruct (decode fuel bs n opts (depth + 1)) as [[r n']| | |] eqn:Hr; try done.
    apply decode_bounds in Hr. cbn. case_match; [done|]. apply IHm. lia.
Qed.

(** More fuel does not change an answer. *)
Lemma decode_mono_aux fuel bs opts :
  (forall pos depth r, decode fuel bs pos opts depth = r -> r <> NoFuel ->
     decode (S fuel) bs pos opts depth = r) /\
  (forall pos depth acc r, decode_list fuel bs pos opts depth acc = r -> r <> NoFuel ->
     decode_list (S fuel) bs pos opts depth acc = r) /\
  (forall pos depth acc r, decode_dict fuel bs pos opts depth acc = r -> r <> NoFuel ->
     decode_dict (S fuel) bs pos opts depth acc = r).
Proof.
  induction fuel as [|fuel (IHd & IHl & IHm)]; [by split; [|split]; intros; subst|].
  split; [|split].
  - intros pos depth r H Hr. cbn [decode] in H. rewrite <- H in Hr |- *. clear H.
    remember (S fuel) as f eqn:Ef. cbn [decode]. subst f.
    destruct (max_recursion opts <=? depth); [done|].
    destruct (peek_byte_cases bs pos) as [(c & Hc & _)|Hc]; rewrite Hc in Hr |- *; [|done].
    cbn [mbind outcome_bind] in *.
    repeat case_match; try done;
      match goal with
      | |- context [decode_list (S ?f) ?a ?b ?c ?d ?e] =>
          destruct (decode_list f a b c d e) eqn:E; try done; by rewrite (IHl _ _ _ _ E)
      | |- context [decode_dict (S ?f) ?a ?b ?c ?d ?e] =>
          destruct (decode_dict f a b c d e) eqn:E; try done; by rewrite (IHm _ _ _ _ E)
      end.
  - intros pos depth acc r H Hr. cbn [decode_list] in H. rewrite <- H in Hr |- *. clear H.
    remember (S fuel) as f eqn:Ef. cbn [decode_list]. subst f.
    destruct (peek_byte_cases bs pos) as [(c & Hc & _)|Hc]; rewrite Hc in Hr |- *; [|done].
    cbn [mbind outcome_bind] in *.
    case_match; [done|].
    destruct (decode fuel bs pos opts (depth + 1)) as [[b n]| | |] eqn:E; try done;
      rewrite (IHd _ _ _ E) by done; try done.
    cbn [mbind outcome_bind] in *. by apply IHl.
  - intros pos depth acc r H Hr. cbn [decode_dict] in H. rewrite <- H in Hr |- *. clear H.
    remember (S fuel) as f eqn:Ef. cbn [decode_dict]. subst f.
    destruct (peek_byte_cases bs pos) as [(c & Hc & _)|Hc]; rewrite Hc in Hr |- *; [|done].
    cbn [mbind outcome_bind] in *.
    case_match; [done|].
    destruct (decode_bytes bs pos) as [[k n]| | |]; try done. cbn [mbind outcome_bind] in *.
    case_match; [|done].
    destruct (decode fuel bs n opts (depth + 1)) as [[b n']| | |] eqn:E; try done;
      rewrite (IHd _ _ _ E) by done; try done.
    cbn in *. case_match; [done|]. by apply IHm.
Qed.

Lemma decode_mono fuel fuel' bs pos opts depth r :
  fuel <= fuel' -> decode fuel bs pos opts depth = r -> r <> NoFuel ->
  decode fuel' bs pos opts depth = r.
Proof.
  intros Hle H Hr. induction Hle as [|f Hle IH]; [done|].
  by apply decode_mono_aux.
Qed.

(** The canonical fuel decides every query. *)
Lemma decode_fuel_enough bs pos opts depth :
  decode (decode_fuel bs) bs pos opts depth <> NoFuel.
Proof. apply decode_fuel_aux. unfold decode_fuel. lia. Qed.

Lemma decode_at_fuel fuel bs pos opts depth r :
  decode fuel bs pos opts depth = r -> r <> NoFuel ->
  decode (decode_fuel bs) bs pos opts depth = r.
Proof.
  intros H Hr. destruct (le_ge_dec fuel (decode_fuel bs)).
  - by eapply decode_mono.
  - pose proof (decode_fuel_enough bs pos opts depth) as Hn.
    assert (decode fuel bs pos opts depth = decode (decode_fuel bs) bs pos opts depth)
      as <-; [|done].
    by eapply (decode_mono (decode_fuel bs)).
Qed.

(** * Round trip *)

Section MutInd.
Variable P : BencodeMut -> Prop.
Hypothesis Hint : forall n, P (MInt n).
Hypothesis Hbytes : forall b, P (MBytes b).
Hypothesis Hlist : forall l, Forall P l -> P (MList l).
Hypothesis Hdict : forall d, Forall (fun p => P p.2) d -> P (MDict d).

Fixpoint BencodeMut_nested_ind (v : BencodeMut) : P v :=
  match v with
  | MInt n => Hint n
  | MBytes b => Hbytes b
  | MList l =>
      Hlist l ((fix go l : Forall P l :=
        match l with
        | [] => Forall_nil_2 P
        | x :: l' => Forall_cons_2 P x l' (BencodeMut_nested_ind x) (go l')
        end) l)
  | MDict d =>
      Hdict d ((fix go d : Forall (fun p => P p.2) d :=
        match d with
        | [] => Forall_nil_2 _
        | p :: d' => Forall_cons_2 _ p d' (BencodeMut_nested_ind p.2) (go d')
        end) d)
  end.
End MutInd.

Lemma orderedb_spec {V} (d : list (bytes * V)) : orderedb d = true <-> ordered d.
Proof.
  induction d as [|p [|q d] IH]; [by split; constructor| |].
  - split; [|done]. intros _. by repeat constructor.
  - cbn [orderedb]. rewrite andb_true_iff, IH, (ordered_cons p). split.
    + intros [Hpq H]. destruct (kcmp p.1 q.1) eqn:E; try done. split; [|done].
      constructor; [done|]. apply ordered_cons in H as [Hall _].
      eapply Forall_impl; [exact Hall|]. intros r Hr. by transitivity q.
    + intros [Hall H]. apply Forall_cons in Hall as [Hpq _]. unfold klt in Hpq.
      by rewrite Hpq.
Qed.

Lemma sort_by_key_ordered {V} (d : list (bytes * V)) : ordered d -> sort_by_key d = d.
Proof.
  unfold sort_by_key. induction d as [|p d IH]; intros H; [done|].
  apply ordered_cons in H as [Hall H]. cbn [foldr]. rewrite IH by done.
  destruct Hall as [|q d Hq _]; [done|]. unfold klt in Hq. simpl. simpl in Hq.
  by rewrite Hq.
Qed.

Lemma ordered_map_values {V W} (f : bytes -> V -> W) (d : list (bytes * V)) :
  ordered ((fun '(k, v) => (k, f k v)) <$> d) <-> ordered d.
Proof.
  induction d as [|[k v] d IH]; [by split; constructor|].
  rewrite fmap_cons, !ordered_cons, IH, Forall_fmap. f_equiv.
  apply Forall_proper; [|done]. by intros [k' v'].
Qed.

Lemma encode_dict_ordered d :
  ordered d ->
  encode (MDict d)
  = DICT_START :: concat ((fun '(k, v) => encode_bytes k ++ encode v) <$> d) ++ [BEN_END].
Proof.
  intros H. cbn [encode app]. rewrite sort_by_key_ordered by (by apply (ordered_map_values (fun k v => _))).
  do 3 f_equal. rewrite <- list_fmap_compose. apply list_fmap_ext. by intros i [k v].
Qed.

Lemma to_string_nonneg_head n :
  (0 <= n)%Z -> is_i64 n -> exists c s, to_string n = c :: s /\ is_digit c = true.
Proof.
  intros Hn Hi. unfold to_string. destruct (Z.ltb_spec n 0); [lia|].
  destruct (dec_digits_head 19 n) as (c & s & Hd & _); [unfold is_i64 in Hi; lia|].
  pose proof (dec_digits_digit 20 n Hn) as Hall. rewrite Hd in *.
  apply Forall_cons in Hall as [? _]. eauto.
Qed.

Lemma encode_bytes_head b :
  is_i64 (Z.of_nat (length b)) ->
  exists c s, encode_bytes b = c :: s /\ is_digit c = true.
Proof.
  intros Hb. unfold encode_bytes.
  destruct (to_string_nonneg_head (Z.of_nat (length b))) as (c & s & -> & Hc); [lia|done|].
  eexists c, _. done.
Qed.

Lemma encode_head v :
  wf_mut v = true -> exists c s, encode v = c :: s /\ c <> BEN_END.
Proof.
  destruct v; simpl; intros H; try by eexists _, _.
  apply in_i64_spec in H. destruct (encode_bytes_head b H) as (c & s & -> & Hc).
  eexists _, _. split; [done|]. apply is_digit_spec in Hc. unfold BEN_END. lia.
Qed.

Lemma peek_app pre c s : peek_byte (pre ++ c :: s) (length pre) = Ok c.
Proof. apply peek_byte_Ok. rewrite lookup_app_r, Nat.sub_diag; done. Qed.

(** [v] decodes wherever its encoding stands in the input. *)
Definition decodes (v : BencodeMut) : Prop :=
  forall pre post opts depth, depth + nesting v <= max_recursion opts ->
  exists F, forall fuel, F <= fuel ->
  decode fuel (pre ++ encode v ++ post) (length pre) opts depth
  = Ok (to_ref v, length pre + length (encode v)).

Lemma depth_ok opts depth n :
  depth + S n <= max_recursion opts -> (max_recursion opts <=? depth) = false.
Proof. intros. apply Nat.leb_gt. lia. Qed.

Lemma decode_list_encode l :
  Forall decodes l -> Forall (fun v => wf_mut v = true) l ->
  forall pre post opts depth acc,
  Forall (fun v => depth + 1 + nesting v <= max_recursion opts) l ->
  exists F, forall fuel, F <= fuel ->
  decode_list fuel (pre ++ concat (encode <$> l) ++ BEN_END :: post) (length pre) opts depth acc
  = Ok (acc ++ (to_ref <$> l), length pre + length (concat (encode <$> l)) + 1).
Proof.
  intros Hdec Hwf. induction l as [|v l IH]; intros pre post opts depth acc Hdep.
  - exists 1. intros [|fuel] Hf; [lia|]. cbn [decode_list fmap list_fmap concat app].
    rewrite peek_app. simpl. rewrite app_nil_r. do 2 f_equal. lia.
  - apply Forall_cons in Hdec as [Hv Hdec], Hwf as [Wv Hwf], Hdep as [Dv Hdep].
    cbn [fmap list_fmap concat].
    destruct (encode_head v Wv) as (c & s & Hc & Hne).
    destruct (Hv pre (concat (encode <$> l) ++ BEN_END :: post) opts (depth + 1) Dv)
      as [F1 H1].
    destruct (IH Hdec Hwf (pre ++ encode v) post opts depth (acc ++ [to_ref v]) Hdep)
      as [F2 H2].
    exists (S (F1 + F2)). intros [|fuel] Hf; [lia|]. cbn [decode_list].
    rewrite <- !app_assoc. rewrite Hc at 1. cbn [app]. rewrite peek_app.
    cbn [mbind outcome_bind]. destruct (Z.eqb_spec c BEN_END); [done|].
    rewrite H1 by lia. cbn [mbind outcome_bind].
    rewrite <- !app_assoc, !length_app in H2. rewrite H2 by lia.
    cbn [app]. do 2 f_equal. rewrite length_app. unfold fmap. lia.
Qed.

Notation entry := (fun '(k, v) => encode_bytes k ++ encode v).
Notation ref_entry := (fun '(k, v) => (k, to_ref v)).

Lemma key_order_ok_above opts {V} (d : list (bytes * V)) k :
  Forall (fun p => kcmp p.1 k = Lt) d -> key_order_ok opts d k = true.
Proof.
  intros Hall. unfold key_order_ok, btree_last_key.
  destruct (last d) as [p|] eqn:Hl; [|done]. simpl. destruct (check_key_sort opts); [|done].
  apply last_Some_elem_of in Hl. rewrite Forall_forall in Hall.
  apply Hall in Hl. apply kcmp_gt in Hl. by rewrite Hl.
Qed.

Lemma decode_dict_encode d :
  Forall (fun p => decodes p.2) d ->
  Forall (fun p => is_i64 (Z.of_nat (length p.1)) /\ wf_mut p.2 = true) d ->
  forall pre post opts depth acc,
  ordered (acc ++ (ref_entry <$> d)) ->
  Forall (fun p => depth + 1 + nesting p.2 <= max_recursion opts) d ->
  exists F, forall fuel, F <= fuel ->
  decode_dict fuel (pre ++ concat (entry <$> d) ++ BEN_END :: post) (length pre) opts depth acc
  = Ok (acc ++ (ref_entry <$> d), length pre + length (concat (entry <$> d)) + 1).
Proof.
  intros Hdec Hwf. induction d as [|[k v] d IH]; intros pre post opts depth acc Hord Hdep.
  - exists 1. intros [|fuel] Hf; [lia|]. cbn [decode_dict fmap list_fmap concat app].
    rewrite peek_app. simpl. rewrite app_nil_r. do 2 f_equal. lia.
  - apply Forall_cons in Hdec as [Hv Hdec], Hwf as [[Wk Wv] Hwf], Hdep as [Dv Hdep].
    simpl in Hv, Wk, Wv, Dv. cbn [fmap list_fmap concat] in *.
    assert (Habove : Forall (fun p => kcmp p.1 k = Lt) acc).
    { apply ordered_app_inv in Hord as (_ & _ & H). by apply Forall_cons in H as [H _]. }
    destruct (encode_bytes_head k Wk) as (c & s & Hc & Hdig).
    destruct (Hv (pre ++ encode_bytes k) (concat (entry <$> d) ++ BEN_END :: post)
      opts (depth + 1) Dv) as [F1 H1].
    destruct (IH Hdec Hwf (pre ++ encode_bytes k ++ encode v) post opts depth
      (acc ++ [(k, to_ref v)])) as [F2 H2]; [by rewrite <- app_assoc|done|].
    exists (S (F1 + F2)). intros [|fuel] Hf; [lia|]. cbn [decode_dict].
    rewrite <- !app_assoc. rewrite Hc at 1. cbn [app]. rewrite peek_app.
    cbn [mbind outcome_bind]. apply is_digit_spec in Hdig.
    destruct (Z.eqb_spec c BEN_END); [unfold BEN_END in *; lia|].
    rewrite decode_bytes_encode by done. cbn [mbind outcome_bind].
    rewrite key_order_ok_above by done.
    rewrite <- !app_assoc, !length_app in H1. rewrite H1 by lia.
    cbn [unwrap mbind outcome_bind]. rewrite btree_get_above by done.
    rewrite btree_insert_last by done.
    rewrite <- !app_assoc, !length_app in H2.
    replace (length pre + length (encode_bytes k) + length (encode v)) with
      (length pre + (length (encode_bytes k) + length (encode v))) by lia.
    rewrite H2 by lia. cbn [app]. do 2 f_equal. rewrite !length_app. unfold fmap. lia.
Qed.

Lemma nesting_list l depth n :
  depth + S (list_max (nesting <$> l)) <= n ->
  Forall (fun v => depth + 1 + nesting v <= n) l.
Proof.
  intros H. assert (Hm : list_max (nesting <$> l) <= n - depth - 1) by lia.
  apply list_max_le in Hm. rewrite Forall_fmap in Hm.
  eapply Forall_impl; [exact Hm|]. simpl. intros. lia.
Qed.

Lemma nesting_dict d depth n :
  depth + S (list_max ((fun '(_, x) => nesting x) <$> d)) <= n ->
  Forall (fun p : bytes * BencodeMut => depth + 1 + nesting p.2 <= n) d.
Proof.
  intros H. assert (Hm : list_max ((fun '(_, x) => nesting x) <$> d) <= n - depth - 1) by lia.
  apply list_max_le in Hm. rewrite Forall_fmap in Hm.
  eapply Forall_impl; [exact Hm|]. intros [k v]. simpl. intros. lia.
Qed.

Lemma forallb_Forall {A} (f : A -> bool) l :
  forallb f l = true <-> Forall (fun x => f x = true) l.
Proof. induction l; simpl; [by split|]. rewrite andb_true_iff, IHl, Forall_cons. done. Qed.

(** The frame of an integer, list or dictionary: opening byte, body, [e]. *)
Lemma frame_app pre c body post :
  pre ++ (c :: body ++ [BEN_END]) ++ post = (pre ++ [c]) ++ body ++ BEN_END :: post.
Proof. simpl. by rewrite <- !app_assoc. Qed.

Lemma frame_len (pre : bytes) c body :
  length (pre ++ [c]) + length body + 1 = length pre + length (c :: body ++ [BEN_END]).
Proof. simpl. rewrite !length_app. simpl. lia. Qed.

Lemma frame_pos (pre : bytes) c : length pre + 1 = length (pre ++ [c]).
Proof. by rewrite length_app. Qed.

Lemma frame_peek pre c body post :
  peek_byte (pre ++ (c :: body ++ [BEN_END]) ++ post) (length pre) = Ok c.
Proof. apply peek_app. Qed.

Lemma int_decodes n : is_i64 n -> decodes (MInt n).
Proof.
  intros Hn pre post opts depth Hdep. exists 1. intros [|fuel] Hf; [lia|].
  cbn [decode]. rewrite (depth_ok _ _ _ Hdep). cbn [encode to_ref].
  change (encode_int n) with (INT_START :: to_string n ++ [BEN_END]).
  rewrite frame_peek. cbn [mbind outcome_bind]. rewrite Z.eqb_refl, (frame_pos _ INT_START).
  rewrite frame_app at 1. rewrite decode_int_print by (done || unfold BEN_END; lia).
  cbn [mbind outcome_bind]. by rewrite frame_len, slice_app.
Qed.

Lemma bytes_decodes b : is_i64 (Z.of_nat (length b)) -> decodes (MBytes b).
Proof.
  intros Hb pre post opts depth Hdep. exists 1. intros [|fuel] Hf; [lia|].
  cbn [decode]. rewrite (depth_ok _ _ _ Hdep). cbn [encode to_ref].
  destruct (encode_bytes_head b Hb) as (c & s & Hc & Hdig).
  rewrite Hc at 1. cbn [app]. rewrite peek_app. cbn [mbind outcome_bind].
  apply is_digit_spec in Hdig.
  destruct (Z.eqb_spec c INT_START), (Z.eqb_spec c LIST_START), (Z.eqb_spec c DICT_START);
    try (unfold INT_START, LIST_START, DICT_START in *; lia).
  assert (is_len_byte c = true) as ->
    by (unfold is_len_byte, in_range, BYTE_LEN_LOW, BYTE_LEN_HIGH; lia).
  rewrite decode_bytes_encode by done. cbn [mbind outcome_bind]. by rewrite slice_app.
Qed.

Lemma list_decodes l :
  Forall decodes l -> Forall (fun v => wf_mut v = true) l -> decodes (MList l).
Proof.
  intros Hdec Hwf pre post opts depth Hdep.
  destruct (decode_list_encode l Hdec Hwf (pre ++ [LIST_START]) post opts depth []
    (nesting_list _ _ _ Hdep)) as [F H].
  exists (S F). intros [|fuel] Hf; [lia|]. cbn [decode].
  rewrite (depth_ok _ _ _ Hdep). cbn [to_ref].
  change (encode (MList l)) with (LIST_START :: concat (encode <$> l) ++ [BEN_END]).
  rewrite frame_peek.
  cbn [mbind outcome_bind]. change (LIST_START =? INT_START)%Z with false.
  rewrite Z.eqb_refl, (frame_pos _ LIST_START). rewrite frame_app at 1.
  rewrite H by lia. cbn [mbind outcome_bind]. by rewrite frame_len, slice_app.
Qed.

Lemma dict_decodes d :
  ordered d -> Forall (fun p => decodes p.2) d ->
  Forall (fun p => is_i64 (Z.of_nat (length p.1)) /\ wf_mut p.2 = true) d ->
  decodes (MDict d).
Proof.
  intros Hord Hdec Hwf pre post opts depth Hdep.
  destruct (decode_dict_encode d Hdec Hwf (pre ++ [DICT_START]) post opts depth [])
    as [F H]; [by apply (ordered_map_values (fun k v => to_ref v))|by apply nesting_dict|].
  exists (S F). intros [|fuel] Hf; [lia|]. cbn [decode].
  rewrite (depth_ok _ _ _ Hdep). cbn [to_ref]. rewrite (encode_dict_ordered d Hord).
  rewrite frame_peek. cbn [mbind outcome_bind].
  change (DICT_START =? INT_START)%Z with false.
  change (DICT_START =? LIST_START)%Z with false.
  rewrite Z.eqb_refl, (frame_pos _ DICT_START). rewrite frame_app at 1.
  rewrite H by lia. cbn [mbind outcome_bind]. by rewrite frame_len, slice_app.
Qed.

Lemma wf_dict d :
  wf_mut (MDict d) = true ->
  ordered d /\ Forall (fun p => is_i64 (Z.of_nat (length p.1)) /\ wf_mut p.2 = true) d.
Proof.
  cbn [wf_mut]. intros [Hord%orderedb_spec Hwf%forallb_Forall]%andb_true_iff.
  split; [done|]. eapply Forall_impl; [exact Hwf|].
  intros [k v] H%andb_true_iff. by rewrite in_i64_spec in H.
Qed.

Lemma wf_decodes v : wf_mut v = true -> decodes v.
Proof.
  induction v as [n|b|l IH|d IH] using BencodeMut_nested_ind; intros Hwf.
  - by apply int_decodes, in_i64_spec.
  - by apply bytes_decodes, in_i64_spec.
  - cbn [wf_mut] in Hwf. apply forallb_Forall in Hwf. apply list_decodes; [|done].
    rewrite Forall_forall in IH, Hwf |- *. auto.
  - apply wf_dict in Hwf as [Hord Hwf]. apply dict_decodes; [done| |done].
    rewrite Forall_forall in IH, Hwf |- *. intros p Hp. apply IH; [done|]. by apply Hwf.
Qed.

(** * Invariant of decoded trees *)

(** What every tree the decoder returns satisfies, with the depth it used. *)
Definition good_ref (opts : BDecodeOpt) (depth : nat) (r : BencodeRef) : Prop :=
  wf_mut (from_ref r) = true /\ depth + nesting (from_ref r) <= max_recursion opts.

Lemma parse_digits_i64 neg acc s z :
  is_i64 acc -> parse_digits neg acc s = Some z -> is_i64 z.
Proof.
  revert acc. induction s as [|c s IH]; intros acc Ha; simpl; [naive_solver|].
  destruct (is_digit c); [|done].
  destruct (_ && _) eqn:E; [|done]. apply andb_true_iff in E as [_ E%in_i64_spec].
  by apply IH.
Qed.

Lemma from_str_i64 s z : i64_from_str_radix s = Some z -> is_i64 z.
Proof.
  assert (is_i64 0) by (unfold is_i64; lia).
  unfold i64_from_str_radix. repeat case_match; try done; eauto using parse_digits_i64.
Qed.

Lemma decode_int_i64 bs pos delim n next :
  decode_int bs pos delim = Ok (n, next) -> is_i64 n.
Proof. unfold decode_int. intros H. parse_inv H. by eapply from_str_i64. Qed.

Lemma decode_bytes_i64 bs pos b next :
  decode_bytes bs pos = Ok (b, next) -> is_i64 (Z.of_nat (length b)).
Proof.
  unfold decode_bytes. intros H. parse_inv H. apply decode_int_i64 in Hm.
  apply slice_Ok in Hm1 as [Hs ->]. rewrite length_take, length_drop.
  unfold is_i64 in *. lia.
Qed.

Lemma good_list opts depth l buf :
  depth < max_recursion opts -> Forall (good_ref opts (depth + 1)) l ->
  good_ref opts depth (RList l buf).
Proof.
  intros Hd Hl. unfold good_ref. cbn [from_ref wf_mut nesting]. split.
  - apply forallb_Forall, Forall_fmap. eapply Forall_impl; [exact Hl|]. by intros x [? _].
  - assert (list_max (nesting <$> (from_ref <$> l)) <= max_recursion opts - depth - 1);
      [|lia]. apply list_max_le. rewrite !Forall_fmap. eapply Forall_impl; [exact Hl|].
    intros x [_ ?]. simpl. lia.
Qed.

Definition good_entries (opts : BDecodeOpt) (depth : nat) (d : list (bytes * BencodeRef)) : Prop :=
  ordered d /\
  Forall (fun p => is_i64 (Z.of_nat (length p.1)) /\ good_ref opts (depth + 1) p.2) d.

Lemma good_dict opts depth d buf :
  depth < max_recursion opts -> good_entries opts depth d -> good_ref opts depth (RDict d buf).
Proof.
  intros Hd [Ho Hl]. unfold good_ref. cbn [from_ref wf_mut nesting]. split.
  - apply andb_true_iff. split.
    + by apply orderedb_spec, (ordered_map_values (fun k x => from_ref x)).
    + apply forallb_Forall, Forall_fmap. eapply Forall_impl; [exact Hl|].
      intros [k x] [Hk [Hx _]]. simpl in *. apply andb_true_iff. by rewrite in_i64_spec.
  - match goal with |- depth + S (list_max ?l) <= _ =>
      assert (list_max l <= max_recursion opts - depth - 1); [|lia] end.
    apply list_max_le. rewrite !Forall_fmap. eapply Forall_impl; [exact Hl|].
    intros [k x] [_ [_ ?]]. simpl in *. lia.
Qed.

Lemma good_entries_insert opts depth d k v :
  good_entries opts depth d -> is_i64 (Z.of_nat (length k)) -> good_ref opts (depth + 1) v ->
  good_entries opts depth (btree_insert k v d).
Proof.
  intros [Ho Hl] Hk Hv. split; [by apply btree_insert_ordered|].
  by apply btree_insert_Forall.
Qed.

Lemma decode_good_aux fuel bs opts :
  (forall pos depth r next, decode fuel bs pos opts depth = Ok (r, next) ->
     good_ref opts depth r) /\
  (forall pos depth acc l next, decode_list fuel bs pos opts depth acc = Ok (l, next) ->
     Forall (good_ref opts (depth + 1)) acc -> Forall (good_ref opts (depth + 1)) l) /\
  (forall pos depth acc d next, decode_dict fuel bs pos opts depth acc = Ok (d, next) ->
     good_entries opts depth acc -> good_entries opts depth d).
Proof.
  induction fuel as [|fuel (IHd & IHl & IHm)]; [done|]. split; [|split].
  - intros pos depth r next H. cbn [decode] in H.
    destruct (Nat.leb_spec (max_recursion opts) depth) as [|Hdep]; [done|].
    parse_inv H.
    + apply decode_int_i64 in Hm0. split; [by apply in_i64_spec|simpl; lia].
    + apply good_list; [done|]. by eapply IHl; [exact Hm0|].
    + apply good_dict; [done|]. eapply IHm; [exact Hm0|]. by repeat constructor.
    + apply decode_bytes_i64 in Hm0. split; [by apply in_i64_spec|simpl; lia].
  - intros pos depth acc l next H Hacc. cbn [decode_list] in H. parse_inv H; [done|].
    eapply IHl; [exact H|]. apply Forall_app. split; [done|].
    constructor; [|done]. by eapply IHd.
  - intros pos depth acc d next H Hacc. cbn [decode_dict] in H. parse_inv H; [done|].
    eapply IHm; [exact H|]. rewrite unwrap_Ok in Hm1.
    apply good_entries_insert; [done|by eapply decode_bytes_i64|by eapply IHd].
Qed.

Lemma decode_good fuel bs pos opts depth r next :
  decode fuel bs pos opts depth = Ok (r, next) -> good_ref opts depth r.
Proof. apply decode_good_aux. Qed.

(** Every node below a decoded tree carries a slice of the input. *)
Definition within (bs : bytes) (r : BencodeRef) : Prop :=
  forall n, node_in n r -> exists pre post, bs = pre ++ buffer n ++ post.

Lemma slice_within {E} (bs : bytes) i j s :
  @slice E _ bs i j = Ok s -> exists pre post, bs = pre ++ s ++ post.
Proof.
  intros [Hij ->]%slice_Ok. exists (take i bs), (drop (j - i) (drop i bs)).
  by rewrite !take_drop.
Qed.

Lemma decode_within_aux fuel bs opts :
  (forall pos depth r next, decode fuel bs pos opts depth = Ok (r, next) -> within bs r) /\
  (forall pos depth acc l next, decode_list fuel bs pos opts depth acc = Ok (l, next) ->
     Forall (within bs) acc -> Forall (within bs) l) /\
  (forall pos depth acc d next, decode_dict fuel bs pos opts depth acc = Ok (d, next) ->
     Forall (fun p => within bs p.2) acc -> Forall (fun p => within bs p.2) d).
Proof.
  induction fuel as [|fuel (IHd & IHl & IHm)]; [done|]. split; [|split].
  - intros pos depth r next H. cbn [decode] in H. parse_inv H;
      match goal with Hs : slice _ _ _ = Ok _ |- _ => apply slice_within in Hs as Hw end;
      intros n Hn; inversion Hn as [|l' b' y Hx Hin|d' b' k' y Hx Hin]; subst; try done.
    + pose proof (IHl _ _ _ _ _ Hm0 (Forall_nil_2 _)) as HF.
      rewrite Forall_forall in HF. by apply (HF _ Hx).
    + pose proof (IHm _ _ _ _ _ Hm0 (Forall_nil_2 _)) as HF.
      rewrite Forall_forall in HF. by apply (HF _ Hx).
  - intros pos depth acc l next H Hacc. cbn [decode_list] in H. parse_inv H; [done|].
    eapply IHl; [exact H|]. apply Forall_app. split; [done|].
    constructor; [|done]. by eapply IHd.
  - intros pos depth acc d next H Hacc. cbn [decode_dict] in H. parse_inv H; [done|].
    eapply IHm; [exact H|]. rewrite unwrap_Ok in Hm1. apply IHd in Hm1.
    by apply btree_insert_Forall.
Qed.

(** * Panics *)

(** A dictionary value at [p], after the key at [kpos], that fails to parse. *)
Definition bad_value (bs : bytes) (opts : BDecodeOpt) : Prop :=
  exists kpos key p depth e,
    DICT_START ∈ bs /\ decode_bytes bs kpos = Ok (key, p) /\
    decode (decode_fuel bs) bs p opts depth = Err e.

Lemma decode_slice_ok {A} (bs : bytes) pos (m : outcome BencodeParseErrorKind (A * nat))
    (f : A -> bytes -> BencodeRef) :
  (forall a next, m = Ok (a, next) -> pos < next <= length bs) ->
  ('(a, next) ← m; buf ← slice bs pos next; Ok (f a buf, next)) = Panic -> m = Panic.
Proof.
  intros Hb. destruct m as [[a next]| | |]; try done. cbn [mbind outcome_bind].
  rewrite slice_in; [done|]. specialize (Hb _ _ eq_refl). lia.
Qed.

Lemma decode_panic_aux fuel bs opts :
  (forall pos depth, decode fuel bs pos opts depth = Panic -> bad_value bs opts) /\
  (forall pos depth acc, decode_list fuel bs pos opts depth acc = Panic -> bad_value bs opts) /\
  (forall pos depth acc, DICT_START ∈ bs ->
     decode_dict fuel bs pos opts depth acc = Panic -> bad_value bs opts).
Proof.
  induction fuel as [|fuel (IHd & IHl & IHm)]; [done|]. split; [|split].
  - intros pos depth H. cbn [decode] in H. case_match; [done|].
    destruct (peek_byte_cases bs pos) as [(c & Hc & Hlt)|Hc]; rewrite Hc in H; [|done].
    cbn [mbind outcome_bind] in H. apply peek_byte_Ok, list_elem_of_lookup_2 in Hc.
    repeat case_match; try done.
    + eapply (decode_slice_ok bs pos) in H;
        [|intros ? ? Hi; apply decode_int_bounds in Hi; lia].
      by apply decode_int_no_panic in H; [|lia].
    + eapply (decode_slice_ok bs pos) in H;
        [by apply IHl in H|intros ? ? Hi; apply decode_bounds_aux in Hi; lia].
    + match goal with Hd : (c =? DICT_START)%Z = true |- _ => apply Z.eqb_eq in Hd; subst end.
      eapply (decode_slice_ok bs pos) in H;
        [by apply IHm in H|intros ? ? Hi; apply decode_bounds_aux in Hi; lia].
    + eapply (decode_slice_ok bs pos) in H;
        [|intros ? ? Hi; apply decode_bytes_bounds in Hi; lia].
      by apply decode_bytes_no_panic in H; [|lia].
  - intros pos depth acc H. cbn [decode_list] in H.
    destruct (peek_byte_cases bs pos) as [(c & Hc & Hlt)|Hc]; rewrite Hc in H; [|done].
    cbn [mbind outcome_bind] in H. case_match; [done|].
    destruct (decode fuel bs pos opts (depth + 1)) as [[r n]| | |] eqn:Hr; try done; eauto.
  - intros pos depth acc Hin H. cbn [decode_dict] in H.
    destruct (peek_byte_cases bs pos) as [(c & Hc & Hlt)|Hc]; rewrite Hc in H; [|done].
    cbn [mbind outcome_bind] in H. case_match; [done|].
    destruct (decode_bytes bs pos) as [[k n]| | |] eqn:Hk; try done.
    2:{ by apply decode_bytes_no_panic in Hk; [|lia]. }
    cbn [mbind outcome_bind] in H. case_match; [|done].
    destruct (decode fuel bs n opts (depth + 1)) as [[r n']|e| |] eqn:Hr; try done; eauto.
    + cbn in H. case_match; [done|]. eauto.
    + exists pos, k, n, (depth + 1), e. split; [done|]. split; [done|].
      by eapply decode_at_fuel.
Qed.

Lemma decode_encode_at v rest opts :
  wf_mut v = true -> nesting v <= max_recursion opts ->
  decode (decode_fuel (encode v ++ rest)) (encode v ++ rest) 0 opts 0
  = Ok (to_ref v, length (encode v)).
Proof.
  intros Hwf Hn. destruct (wf_decodes v Hwf [] rest opts 0) as [F HF]; [lia|].
  by eapply decode_at_fuel; [exact (HF F (le_n F))|].
Qed.

(** * Properties *)

(** C4. Round trip: any well-formed owned tree no deeper than the recursion
    limit, encoded and decoded again (with arbitrary trailing bytes when full
    decoding is not enforced), gives back the same tree, every node annotated
    with exactly the bytes of its own encoding. *)
Theorem decode_encode (v : BencodeMut) (rest : bytes) (opts : BDecodeOpt) :
  wf_mut v = true -> nesting v <= max_recursion opts ->
  rest = [] \/ enforce_full_decode opts = false ->
  BencodeRef_decode (encode v ++ rest) opts = Ok (to_ref v).
Proof.
  intros Hwf Hn Hrest. unfold BencodeRef_decode.
  rewrite decode_encode_at by done. cbn [mbind outcome_bind].
  destruct Hrest as [->|Hopt].
  - by rewrite app_nil_r, Nat.eqb_refl.
  - by rewrite Hopt, andb_false_r.
Qed.

(** Termination: on every input and under every option the decoder comes
    to an answer, and the answer does not depend on how much fuel it gets
    beyond two steps per input byte. *)
Theorem decode_terminates (bs : bytes) (opts : BDecodeOpt) (extra : nat) :
  decode (decode_fuel bs + extra) bs 0 opts 0 <> NoFuel /\
  decode (decode_fuel bs + extra) bs 0 opts 0 = decode (decode_fuel bs) bs 0 opts 0.
Proof.
  pose proof (decode_fuel_enough bs 0 opts 0) as H.
  assert (Heq : decode (decode_fuel bs + extra) bs 0 opts 0
    = decode (decode_fuel bs) bs 0 opts 0) by (eapply decode_mono; [|done|done]; lia).
  by rewrite Heq.
Qed.

(** Every node of a decoded tree holds, in its [buffer], a contiguous slice
    of the input; the root's buffer is a prefix of it, and the whole of it when
    full decoding is enforced.  (The info hash is computed from such a buffer.) *)
Theorem decode_buffers (bs : bytes) (opts : BDecodeOpt) (r : BencodeRef) :
  BencodeRef_decode bs opts = Ok r ->
  (exists rest, bs = buffer r ++ rest /\ (enforce_full_decode opts = true -> rest = [])) /\
  (forall n, node_in n r -> exists pre post, bs = pre ++ buffer n ++ post).
Proof.
  unfold BencodeRef_decode. intros H. parse_inv H.
  split; [|by eapply decode_within_aux].
  apply decode_bounds in Hm as [Hb ->]. rewrite drop_0, Nat.sub_0_r. eexists.
  split; [symmetry; apply take_drop|]. intros He. rewrite He, andb_true_r in *.
  match goal with Hx : negb _ = false |- _ =>
    apply negb_false_iff, Nat.eqb_eq in Hx as -> end.
  by apply drop_all.
Qed.

(** A tree that was accepted is well formed (integers in [i64], dictionary
    keys strictly increasing, whatever their order in the input), no deeper
    than the recursion limit, and re-encoding it gives bytes that decode to the
    same tree: encoding after decoding normalises the input. *)
Theorem decode_normalizes (bs : bytes) (opts : BDecodeOpt) (r : BencodeRef) :
  BencodeRef_decode bs opts = Ok r ->
  wf_mut (from_ref r) = true /\ nesting (from_ref r) <= max_recursion opts /\
  BencodeRef_decode (encode (from_ref r)) opts = Ok (to_ref (from_ref r)).
Proof.
  unfold BencodeRef_decode. intros H. parse_inv H.
  apply decode_good in Hm as [Hwf Hn]. split; [done|]. split; [lia|].
  pose proof (decode_encode_at (from_ref r) [] opts Hwf) as Hd.
  rewrite app_nil_r in Hd. rewrite Hd by lia. cbn [mbind outcome_bind].
  by rewrite Nat.eqb_refl.
Qed.

(** The decoder panics only where [decode_dict] unwraps: when it panics,
    the input contains a dictionary, and some key in it is followed by a value
    that on its own is rejected with an ordinary parse error.  In particular
    input without a dictionary never makes it panic. *)
Theorem decode_panic_source (bs : bytes) (opts : BDecodeOpt) :
  BencodeRef_decode bs opts = Panic -> bad_value bs opts.
Proof.
  unfold BencodeRef_decode. intros H.
  destruct (decode (decode_fuel bs) bs 0 opts 0) as [[r n]| | |] eqn:Hd; try done.
  - cbn [mbind outcome_bind] in H. by case_match.
  - by apply decode_panic_aux in Hd.
Qed.

(** An error in the first value of a dictionary is not returned: the
    [unwrap] in [decode_dict] turns it into a panic, for every key, every
    malformed value and every option that allows one level of nesting. *)
Theorem dict_value_error_panics (k s : bytes) (opts : BDecodeOpt) (e : BencodeParseErrorKind) :
  let bs := DICT_START :: encode_bytes k ++ s in
  is_i64 (Z.of_nat (length k)) -> 0 < max_recursion opts ->
  decode (decode_fuel bs) bs (1 + length (encode_bytes k)) opts 1 = Err e ->
  BencodeRef_decode bs opts = Panic.
Proof.
  intros bs Hk Hmax He. unfold BencodeRef_decode.
  assert (Hd : decode (S (S (decode_fuel bs))) bs 0 opts 0 = Panic);
    [|by rewrite (decode_at_fuel _ _ _ _ _ _ Hd)].
  destruct (encode_bytes_head k Hk) as (c & t & Hc & Hdig%is_digit_spec).
  assert (Hp0 : peek_byte bs 0 = Ok DICT_START) by done.
  assert (Hp1 : peek_byte bs 1 = Ok c) by (unfold bs; by rewrite Hc).
  assert (Hdb : decode_bytes bs 1 = Ok (k, 1 + length (encode_bytes k)))
    by apply (decode_bytes_encode [DICT_START] k s Hk).
  clearbody bs. remember (S (decode_fuel bs)) as f eqn:Ef. cbn [decode].
  destruct (Nat.leb_spec (max_recursion opts) 0); [lia|].
  rewrite Hp0. cbn [mbind outcome_bind].
  change (DICT_START =? INT_START)%Z with false.
  change (DICT_START =? LIST_START)%Z with false. rewrite Z.eqb_refl.
  subst f. cbn [decode_dict Nat.add]. rewrite Hp1. cbn [mbind outcome_bind].
  destruct (Z.eqb_spec c BEN_END); [unfold BEN_END in *; lia|].
  rewrite Hdb. cbn [mbind outcome_bind].
  change (key_order_ok opts [] k) with true. cbn iota. by rewrite He.
Qed.

(** * Witnesses *)

(** [{"a": [i500, "x"], "b": -7}] *)
Definition sample_tree : BencodeMut :=
  ben_map [([98], new_int (-7)); ([97], ben_list [new_int 500; new_bytes [120]])]%Z.

Lemma decode_encode_witness :
  BencodeRef_decode (encode sample_tree ++ [1; 2]%Z)
    {| max_recursion := 3; check_key_sort := true; enforce_full_decode := false |}
  = Ok (to_ref sample_tree).
Proof. apply decode_encode; [reflexivity|vm_compute; lia|right; reflexivity]. Defined.

(** "d1:bi1e1:ai2ee", keys out of order *)
Definition unordered_text : bytes :=
  [100; 49; 58; 98; 105; 49; 101; 49; 58; 97; 105; 50; 101; 101]%Z.
Definition unordered_tree : BencodeRef :=
  RDict [([97], RInt 2 [105; 50; 101]); ([98], RInt 1 [105; 49; 101])]%Z unordered_text.

Lemma decode_buffers_witness :
  exists pre post, unordered_text = pre ++ buffer (RInt 2 [105; 50; 101]%Z) ++ post.
Proof.
  refine (proj2 (decode_buffers unordered_text BDecodeOpt_default unordered_tree _) _ _).
  - vm_compute. reflexivity.
  - eapply (node_dict _ _ _ [97%Z]); [left|apply node_here].
Defined.

Lemma decode_normalizes_witness :
  encode (from_ref unordered_tree) <> unordered_text /\
  BencodeRef_decode (encode (from_ref unordered_tree)) BDecodeOpt_default
  = Ok (to_ref (from_ref unordered_tree)).
Proof.
  split; [vm_compute; discriminate|].
  apply (decode_normalizes unordered_text BDecodeOpt_default unordered_tree).
  vm_compute. reflexivity.
Defined.

(** "d1:ai1": the integer has no end *)
Definition truncated_text : bytes := [100; 49; 58; 97; 105; 49]%Z.

Lemma decode_panic_source_witness : bad_value truncated_text BDecodeOpt_default.
Proof. apply decode_panic_source. vm_compute. reflexivity. Defined.

Lemma dict_value_error_panics_witness :
  BencodeRef_decode truncated_text BDecodeOpt_default = Panic.
Proof.
  apply (dict_value_error_panics [97%Z] [105; 49]%Z BDecodeOpt_default (InvalidIntNoDelimiter 5)).
  - vm_compute. split; congruence.
  - vm_compute. lia.
  - vm_compute. reflexivity.
Defined.
