(* ===== verification/Convert.v ===== *)
(** Convert: [btp-util/src/convert.rs] and [net.rs], the big-endian forms of
    integers, ports and socket addresses. *)

From stdpp Require Import base list.
From stdpp Require countable.
From Stdlib Require Import ZArith Lia.
From S2P Require Import Prelude.

Local Open Scope Z_scope.

(** * Addresses of [std::net] *)

Inductive Ipv4Addr : Type := Ipv4 (a b c d : Z).
Inductive Ipv6Addr : Type := Ipv6 (segments : list Z).

Definition octets (ip : Ipv4Addr) : bytes := let 'Ipv4 a b c d := ip in [a; b; c; d].
Definition segments (ip : Ipv6Addr) : list Z := let 'Ipv6 s := ip in s.

Record SocketAddrV4 := { v4_ip : Ipv4Addr; v4_port : Z }.
Record SocketAddrV6 := { v6_ip : Ipv6Addr; v6_port : Z; flowinfo : Z; scope_id : Z }.
Inductive SocketAddr : Type := SockV4 (s : SocketAddrV4) | SockV6 (s : SocketAddrV6).

#[global] Instance Ipv4Addr_eq_dec : EqDecision Ipv4Addr.
Proof. solve_decision. Defined.
#[global] Instance Ipv6Addr_eq_dec : EqDecision Ipv6Addr.
Proof. solve_decision. Defined.
#[global] Instance SocketAddrV4_eq_dec : EqDecision SocketAddrV4.
Proof. solve_decision. Defined.
#[global] Instance SocketAddrV6_eq_dec : EqDecision SocketAddrV6.
Proof. solve_decision. Defined.
#[global] Instance SocketAddr_eq_dec : EqDecision SocketAddr.
Proof. solve_decision. Defined.

(** Keys of maps and sets. *)
#[global] Instance Ipv4Addr_countable : countable.Countable Ipv4Addr.
Proof.
  refine (countable.inj_countable' (fun '(Ipv4 a b c d) => (a, b, c, d)) (fun '(a, b, c, d) => Ipv4 a b c d) _).
  by intros [].
Defined.

#[global] Instance Ipv6Addr_countable : countable.Countable Ipv6Addr.
Proof. refine (countable.inj_countable' segments Ipv6 _). by intros []. Defined.

#[global] Instance SocketAddrV4_countable : countable.Countable SocketAddrV4.
Proof.
  refine (countable.inj_countable' (fun s => (v4_ip s, v4_port s)) (fun '(i, p) => Build_SocketAddrV4 i p) _).
  by intros [].
Defined.

#[global] Instance SocketAddrV6_countable : countable.Countable SocketAddrV6.
Proof.
  refine (countable.inj_countable' (fun s => (v6_ip s, v6_port s, flowinfo s, scope_id s))
    (fun '(i, p, f, c) => Build_SocketAddrV6 i p f c) _).
  by intros [].
Defined.

#[global] Instance SocketAddr_countable : countable.Countable SocketAddr.
Proof.
  refine (countable.inj_countable' (fun s => match s with SockV4 a => inl a | SockV6 a => inr a end)
    (fun s => match s with inl a => SockV4 a | inr a => SockV6 a end) _).
  by intros [].
Defined.

(** What the Rust types guarantee. *)
Definition ipv4_ok (ip : Ipv4Addr) : Prop := Forall is_u8 (octets ip).
Definition ipv6_ok (ip : Ipv6Addr) : Prop :=
  length (segments ip) = 8%nat /\ Forall is_u16 (segments ip).

(** * net.rs *)

Inductive IpAddr : Type := IpV4 (ip : Ipv4Addr) | IpV6 (ip : Ipv6Addr).

Definition from_socket_addr (s : SocketAddr) : IpAddr :=
  match s with
  | SockV4 v4 => IpV4 (v4_ip v4)
  | SockV6 v6 => IpV6 (v6_ip v6)
  end.

Definition default_route_v4 : SocketAddr :=
  SockV4 {| v4_ip := Ipv4 0 0 0 0; v4_port := 0 |}.

(** * convert.rs *)

Definition eight_bytes_to_array (b : Z) : bytes :=
  [ to_u8 (Z.shiftr b 56); to_u8 (Z.shiftr b 48); to_u8 (Z.shiftr b 40);
    to_u8 (Z.shiftr b 32); to_u8 (Z.shiftr b 24); to_u8 (Z.shiftr b 16);
    to_u8 (Z.shiftr b 8); to_u8 b ].

Definition four_bytes_to_array (b : Z) : bytes := drop 4 (eight_bytes_to_array b).

Definition ipv4_to_bytes_be (ip : Ipv4Addr) : bytes := octets ip.

Definition ipv6_to_bytes_be (ip : Ipv6Addr) : bytes :=
  (fun index : nat =>
     let segment_index := (index / 2)%nat in
     let segment_byte_index := (index mod 2)%nat in
     let byte_shift_bits := 8 - Z.of_nat (segment_byte_index * 8) in
     to_u8 (Z.shiftr (default 0 (segments ip !! segment_index)) byte_shift_bits))
  <$> seq 0 16.

Definition port_to_bytes_be (port : Z) : bytes :=
  [to_u8 (Z.shiftr port 8); to_u8 (Z.shiftr port 0)].

Definition sock_v4_to_bytes_be (s : SocketAddrV4) : bytes :=
  ipv4_to_bytes_be (v4_ip s) ++ port_to_bytes_be (v4_port s).

Definition sock_v6_to_bytes_be (s : SocketAddrV6) : bytes :=
  ipv6_to_bytes_be (v6_ip s) ++ port_to_bytes_be (v6_port s).

(** The array arguments below have the length the Rust type gives them; the
    last branch is never taken. *)
Definition bytes_be_to_ipv4 (bs : bytes) : Ipv4Addr :=
  match bs with
  | [a; b; c; d] => Ipv4 a b c d
  | _ => Ipv4 0 0 0 0
  end.

Definition bytes_be_to_ipv6 (bs : bytes) : Ipv6Addr :=
  Ipv6 (fold_left (fun combined '(index, value) =>
    let combined_index := (index / 2)%nat in
    let should_shift := (index mod 2 =? 0)%nat in
    let adjusted_value := if should_shift then to_u16 (Z.shiftl value 8) else value in
    <[combined_index := Z.lor (default 0 (combined !! combined_index)) adjusted_value]> combined)
  (zip (seq 0 (length bs)) bs) (replicate 8 0)).

Definition bytes_be_to_port (bs : bytes) : Z :=
  match bs with
  | [high_byte; low_byte] => Z.lor (to_u16 (Z.shiftl high_byte 8)) low_byte
  | _ => 0
  end.

Definition bytes_be_to_sock_v4 (bs : bytes) : SocketAddrV4 :=
  {| v4_ip := bytes_be_to_ipv4 (take 4 bs); v4_port := bytes_be_to_port (drop 4 bs) |}.

Definition bytes_be_to_sock_v6 (bs : bytes) : SocketAddrV6 :=
  {| v6_ip := bytes_be_to_ipv6 (take 16 bs); v6_port := bytes_be_to_port (drop 16 bs);
     flowinfo := 0; scope_id := 0 |}.

(** * Lemmas *)

Lemma eight_bytes_be b : eight_bytes_to_array b = be_bytes 8 b.
Proof. reflexivity. Qed.

Lemma four_bytes_be b : four_bytes_to_array b = be_bytes 4 b.
Proof. reflexivity. Qed.

Lemma port_bytes_be port : port_to_bytes_be port = be_bytes 2 port.
Proof. reflexivity. Qed.

(** The two halves of a 16-bit word, put together again. *)
Lemma u16_halves s : is_u16 s ->
  Z.lor (to_u16 (Z.shiftl (to_u8 (Z.shiftr s 8)) 8)) (to_u8 s) = s.
Proof.
  intros Hs. unfold is_u16 in Hs.
  assert (Hq : 0 <= s / 2 ^ 8 < 256).
  { split; [apply Z.div_pos; lia|]. apply Z.div_lt_upper_bound; lia. }
  rewrite (to_u8_id (Z.shiftr s 8)) by (by rewrite Z.shiftr_div_pow2).
  unfold to_u16. rewrite Z.mod_small.
  - rewrite be_step by apply to_u8_u8. rewrite Z.shiftr_div_pow2 by lia. unfold to_u8.
    change (2 ^ 8) with 256 in *. pose proof (Z.div_mod s 256). lia.
  - rewrite Z.shiftl_mul_pow2, Z.shiftr_div_pow2 by lia. lia.
Qed.

Lemma bytes_be_to_port_be_val bs :
  Forall is_u8 bs -> length bs = 2%nat -> bytes_be_to_port bs = be_val bs.
Proof.
  destruct bs as [|a [|b [|]]]; try done. intros [Ha [Hb _]%Forall_cons]%Forall_cons _.
  unfold bytes_be_to_port, be_val. simpl fold_left.
  rewrite Z.lor_0_l. unfold to_u16. rewrite Z.mod_small; [done|].
  rewrite Z.shiftl_mul_pow2 by lia. unfold is_u8 in *. lia.
Qed.

Lemma port_roundtrip p : is_u16 p -> bytes_be_to_port (port_to_bytes_be p) = p.
Proof.
  intros Hp. rewrite port_bytes_be, bytes_be_to_port_be_val; auto using be_bytes_u8.
  by apply be_u16_id.
Qed.

Lemma ipv4_roundtrip ip : bytes_be_to_ipv4 (ipv4_to_bytes_be ip) = ip.
Proof. by destruct ip. Qed.

Lemma ipv6_roundtrip ip : ipv6_ok ip -> bytes_be_to_ipv6 (ipv6_to_bytes_be ip) = ip.
Proof.
  destruct ip as [s]. intros [Hl Hs]. simpl in Hl, Hs.
  destruct s as [|s0 [|s1 [|s2 [|s3 [|s4 [|s5 [|s6 [|s7 [|]]]]]]]]]; try done.
  repeat (apply Forall_cons in Hs as [? Hs]).
  unfold ipv6_to_bytes_be, bytes_be_to_ipv6.
  cbn -[Z.lor Z.shiftl Z.shiftr to_u8 to_u16].
  change (8 - 0) with 8. rewrite !Z.lor_0_l, !Z.shiftr_0_r.
  by rewrite !u16_halves.
Qed.

Lemma length_ipv6_bytes ip : length (ipv6_to_bytes_be ip) = 16%nat.
Proof. unfold ipv6_to_bytes_be. by rewrite length_fmap, length_seq. Qed.

Lemma sock_v4_bytes_u8 s :
  ipv4_ok (v4_ip s) -> Forall is_u8 (sock_v4_to_bytes_be s).
Proof.
  intros H. apply Forall_app. split; [done|]. rewrite port_bytes_be. apply be_bytes_u8.
Qed.

Lemma length_sock_v4_bytes s : length (sock_v4_to_bytes_be s) = 6%nat.
Proof. by destruct s as [[] ?]. Qed.

Lemma sock_v4_roundtrip s :
  is_u16 (v4_port s) -> bytes_be_to_sock_v4 (sock_v4_to_bytes_be s) = s.
Proof.
  intros Hp. destruct s as [[a b c d] p]. simpl in Hp.
  unfold bytes_be_to_sock_v4, sock_v4_to_bytes_be. simpl v4_port. simpl v4_ip.
  f_equal. change (drop 4 _) with (port_to_bytes_be p). by apply port_roundtrip.
Qed.

Lemma sock_v6_roundtrip s :
  ipv6_ok (v6_ip s) -> is_u16 (v6_port s) ->
  length (sock_v6_to_bytes_be s) = 18%nat /\
  bytes_be_to_sock_v6 (sock_v6_to_bytes_be s)
  = {| v6_ip := v6_ip s; v6_port := v6_port s; flowinfo := 0; scope_id := 0 |}.
Proof.
  intros Hip Hp. pose proof (length_ipv6_bytes (v6_ip s)) as Hl.
  unfold sock_v6_to_bytes_be, bytes_be_to_sock_v6.
  rewrite length_app, Hl. split; [done|].
  rewrite <- Hl, take_app_length, drop_app_length.
  by rewrite ipv6_roundtrip, port_roundtrip.
Qed.

(** * Properties *)

(** A v6 socket address survives conversion to its 18 wire bytes and back,
    except that the flow info and scope id, which are not on the wire, come
    back as zero. *)
Theorem sock_v6_bytes_roundtrip (s : SocketAddrV6) :
  ipv6_ok (v6_ip s) -> is_u16 (v6_port s) ->
  length (sock_v6_to_bytes_be s) = 18%nat /\
  bytes_be_to_sock_v6 (sock_v6_to_bytes_be s)
  = {| v6_ip := v6_ip s; v6_port := v6_port s; flowinfo := 0; scope_id := 0 |}.
Proof. apply sock_v6_roundtrip. Qed.

Lemma sock_v6_bytes_roundtrip_witness :
  bytes_be_to_sock_v6 (sock_v6_to_bytes_be
    {| v6_ip := Ipv6 [8193; 3512; 0; 0; 0; 65535; 255; 1]; v6_port := 51413;
       flowinfo := 7; scope_id := 2 |})
  = {| v6_ip := Ipv6 [8193; 3512; 0; 0; 0; 65535; 255; 1]; v6_port := 51413;
       flowinfo := 0; scope_id := 0 |}.
Proof.
  refine (proj2 (sock_v6_bytes_roundtrip {| v6_ip := Ipv6 [8193; 3512; 0; 0; 0; 65535; 255; 1];
    v6_port := 51413; flowinfo := 7; scope_id := 2 |} _ _)).
  - split; [reflexivity|]. repeat constructor; vm_compute; congruence.
  - vm_compute; split; congruence.
Defined.
