(* ===== verification/ShaHash.v ===== *)
(** ShaHash: [btp-util/src/sha/mod.rs], [error.rs], [bt.rs] (20-byte hashes, xor
    distance and the bit iterators), and [leading_bit_count] of the DHT's
    [routing/table.rs], which is the only consumer of the iterators. *)

From stdpp Require Import base list.
From stdpp Require countable.
From Stdlib Require Import ZArith Lia.
From S2P Require Import Prelude.

Definition SHA_HASH_LEN : nat := 20.

(** [struct ShaHash], also [NodeId], [PeerId] and [InfoHash]. *)
Record ShaHash := { hash : bytes }.

#[global] Instance ShaHash_eq_dec : EqDecision ShaHash.
Proof. solve_decision. Defined.
#[global] Instance ShaHash_countable : countable.Countable ShaHash.
Proof. refine (countable.inj_countable' hash Build_ShaHash _). by intros []. Defined.

(** What [[u8; 20]] guarantees. *)
Definition is_hash (h : ShaHash) : Prop :=
  length (hash h) = SHA_HASH_LEN /\ Forall is_u8 (hash h).

#[global] Instance is_hash_dec h : Decision (is_hash h).
Proof. unfold is_hash. apply _. Defined.

(** * error.rs *)

Inductive LengthErrorKind : Type := LengthExceeded | LengthExpected | LengthMultipleExpected.

Record LengthError := {
  le_kind : LengthErrorKind;
  le_length : nat;
  le_index : option nat;
}.

Definition LengthError_new (kind : LengthErrorKind) (length : nat) : LengthError :=
  {| le_kind := kind; le_length := length; le_index := None |}.
Definition LengthError_with_index (kind : LengthErrorKind) (length index : nat) : LengthError :=
  {| le_kind := kind; le_length := length; le_index := Some index |}.

(** * Construction *)

(** [ShaHash::from_hash] *)
Definition from_hash (h : bytes) : outcome LengthError ShaHash :=
  if negb (length h =? SHA_HASH_LEN)
  then Err (LengthError_new LengthExpected SHA_HASH_LEN)
  else Ok {| hash := h |}.

(** ** Hashing

    The SHA-1 digest itself is the crate rust-crypto's: a function on all bytes
    given to it, with a result of twenty bytes.  [ShaHashBuilder] collects
    them. *)
Class Sha1 := {
  sha1 : bytes -> bytes;
  sha1_is_hash : forall bs, length (sha1 bs) = SHA_HASH_LEN /\ Forall is_u8 (sha1 bs)
}.

Record ShaHashBuilder := { sha_input : bytes }.
Definition ShaHashBuilder_new : ShaHashBuilder := {| sha_input := [] |}.
Definition add_bytes (b : ShaHashBuilder) (bs : bytes) : ShaHashBuilder :=
  {| sha_input := sha_input b ++ bs |}.
Definition build `{Sha1} (b : ShaHashBuilder) : ShaHash := {| hash := sha1 (sha_input b) |}.
Definition ShaHash_from_bytes `{Sha1} (bs : bytes) : ShaHash := build (add_bytes ShaHashBuilder_new bs).

(** [u8::from_str_radix(_, 16)] on at most two characters. *)
Definition hex_digit (c : Z) : option Z :=
  if ((48 <=? c) && (c <=? 57))%Z then Some (c - 48)%Z
  else if ((65 <=? c) && (c <=? 70))%Z then Some (c - 55)%Z
  else if ((97 <=? c) && (c <=? 102))%Z then Some (c - 87)%Z
  else None.
Definition u8_from_hex (s : bytes) : option Z :=
  match s with
  | [a; b] =>
      if (a =? 43)%Z then hex_digit b
      else h ← hex_digit a; l ← hex_digit b; Some (h * 16 + l)%Z
  | _ => None
  end.

(** [str] slicing: the ends must be character boundaries. *)
Definition is_char_boundary (s : bytes) (i : nat) : bool :=
  match s !! i with
  | Some b => negb ((128 <=? b) && (b <=? 191))%Z
  | None => i =? length s
  end.
Definition str_slice {E} (s : bytes) (i j : nat) : outcome E bytes :=
  if is_char_boundary s i && is_char_boundary s j then slice s i j else Panic.

Fixpoint from_hex_loop {E} (hex : bytes) (byte_index todo : nat) (exact : bytes)
    : outcome E bytes :=
  match todo with
  | O => Ok exact
  | S todo =>
      let high_index := byte_index * 2 in
      let low_index := byte_index * 2 + 1 in
      hex_chunk ← str_slice hex high_index (low_index + 1);
      byte_value ← opt_unwrap (u8_from_hex hex_chunk);
      from_hex_loop hex (S byte_index) todo (<[byte_index := byte_value]> exact)
  end.

(** [ShaHash::from_hex] *)
Definition from_hex {E} (hex : bytes) : outcome E ShaHash :=
  exact ← from_hex_loop hex 0 20 (replicate 20 0%Z); Ok {| hash := exact |}.

(** [PartialEq<[u8]> for ShaHash] *)
Definition eq_slice (h : ShaHash) (other : bytes) : bool :=
  fold_left (fun prev '(a, o) => prev && (a =? o)%Z) (zip (hash h) other)
    (length other =? length (hash h)).

(** [BitXor for ShaHash] *)
Definition bitxor (self rhs : ShaHash) : ShaHash :=
  {| hash := zip_with (fun dst src => Z.lxor src dst) (hash self) (hash rhs) |}.

(** * Bit iterators *)

Inductive BitRep : Type := BSet | BUnset.
Inductive XorRep : Type := Diff | Same.

Record Bits := { bits_bytes : bytes; bit_pos : nat }.

Definition bits (h : ShaHash) : Bits := {| bits_bytes := hash h; bit_pos := 0 |}.

(** [Iterator for Bits]: note that the shifted byte is compared with 1 without
    masking the higher bits away. *)
Definition bits_next (b : Bits) : option (BitRep * Bits) :=
  if bit_pos b <? length (bits_bytes b) * 8 then
    let byte_index := bit_pos b / 8 in
    let bit_offset := 7 - bit_pos b mod 8 in
    let bit_value := Z.shiftr (default 0%Z (bits_bytes b !! byte_index)) (Z.of_nat bit_offset) in
    Some (if (bit_value =? 1)%Z then BSet else BUnset,
          {| bits_bytes := bits_bytes b; bit_pos := bit_pos b + 1 |})
  else None.

(** [Iterator for XorBits] *)
Definition xor_bits_next (b : Bits) : option (XorRep * Bits) :=
  match bits_next b with
  | Some (BSet, b') => Some (Diff, b')
  | Some (BUnset, b') => Some (Same, b')
  | None => None
  end.

(** [PartialEq<XorRep> for BitRep] *)
Definition bit_eq_xor (b : BitRep) (x : XorRep) : bool :=
  match b, x with
  | BSet, Diff => true
  | BUnset, Same => true
  | _, _ => false
  end.

(** [take_while(|&x| x == XorRep::Same).count()]; the iterator yields at most
    eight items per byte, which the fuel covers. *)
Fixpoint count_same (fuel : nat) (b : Bits) : nat :=
  match fuel with
  | O => 0
  | S fuel =>
      match bits_next b with
      | Some (r, b') => if bit_eq_xor r Same then S (count_same fuel b') else 0
      | None => 0
      end
  end.

(** [leading_bit_count] (routing/table.rs) *)
Definition leading_bit_count (local_node remote_node : ShaHash) : nat :=
  let diff_id := bitxor local_node remote_node in
  count_same (8 * length (hash diff_id) + 1) (bits diff_id).

(** * Specification: the bits of a hash, most significant first *)

Definition byte_bit (bs : bytes) (i : nat) : bool :=
  Z.testbit (default 0%Z (bs !! (i / 8))) (Z.of_nat (7 - i mod 8)).
Definition hash_bit (h : ShaHash) (i : nat) : bool := byte_bit (hash h) i.

(** * Lemmas *)

Lemma is_hash_xor a b : is_hash a -> is_hash b -> is_hash (bitxor a b).
Proof.
  intros [La Ha] [Lb Hb]. split.
  - unfold bitxor. simpl. rewrite length_zip_with, La, Lb. done.
  - unfold bitxor. simpl. clear La Lb. revert Hb. generalize (hash b).
    induction Ha as [|x la Hx Ha IH]; intros [|y lb] Hb; try constructor.
    + apply Forall_cons in Hb as [Hy _]. unfold is_u8 in *.
      assert (0 <= Z.lxor y x)%Z by (apply Z.lxor_nonneg; lia). split; [done|].
      destruct (decide (Z.lxor y x = 0)%Z) as [->|]; [lia|].
      apply (Z.log2_lt_pow2 _ 8); [lia|].
      pose proof (Z.log2_lxor y x). assert (forall z, 0 <= z < 256 -> Z.log2 z < 8)%Z as Hlog.
      { intros z Hz. destruct (decide (z = 0)%Z) as [->|]; [done|].
        apply Z.log2_lt_pow2; lia. }
      pose proof (Hlog x). pose proof (Hlog y). lia.
    + apply IH. by apply Forall_cons in Hb as [_ ?].
Qed.

Lemma byte_bit_xor a b i :
  is_hash a -> is_hash b -> i < 160 ->
  hash_bit (bitxor a b) i = xorb (hash_bit a i) (hash_bit b i).
Proof.
  intros [La _] [Lb _] Hi. unfold hash_bit, byte_bit, bitxor. simpl hash.
  assert (Hq : i / 8 < 20) by (apply Nat.Div0.div_lt_upper_bound; lia).
  unfold SHA_HASH_LEN in *.
  destruct (lookup_lt_is_Some_2 (hash a) (i / 8)) as [x Hx]; [lia|].
  destruct (lookup_lt_is_Some_2 (hash b) (i / 8)) as [y Hy]; [lia|].
  rewrite lookup_zip_with, Hx, Hy. simpl. rewrite Z.lxor_spec. by destruct (Z.testbit x _), (Z.testbit y _).
Qed.

(** One step of the shift: the next bit joins the ones above it. *)
Lemma shiftr_step z k :
  (0 <= k)%Z -> Z.shiftr z k = (2 * Z.shiftr z (k + 1) + Z.b2z (Z.testbit z k))%Z.
Proof.
  intros Hk. rewrite <- Z.shiftr_shiftr by lia.
  rewrite <- (Z.add_0_l k) at 3. rewrite <- Z.shiftr_spec by lia.
  rewrite Z.bit0_odd, <- Z.div2_spec. apply Z.div2_odd.
Qed.

(** The bits above position [i] in its byte are clear. *)
Definition clear_above (bs : bytes) (i : nat) : Prop :=
  Z.shiftr (default 0%Z (bs !! (i / 8))) (Z.of_nat (8 - i mod 8)) = 0%Z.

Lemma bits_next_clear bs i :
  i < length bs * 8 -> clear_above bs i ->
  bits_next {| bits_bytes := bs; bit_pos := i |}
  = Some (if byte_bit bs i then BSet else BUnset, {| bits_bytes := bs; bit_pos := i + 1 |}).
Proof.
  intros Hi Hc. unfold bits_next, byte_bit, clear_above in *. cbn [bits_bytes bit_pos].
  destruct (Nat.ltb_spec i (length bs * 8)); [|lia]. do 2 f_equal.
  pose proof (Nat.mod_upper_bound i 8).
  rewrite shiftr_step by lia.
  replace (Z.of_nat (7 - i mod 8) + 1)%Z with (Z.of_nat (8 - i mod 8)) by lia.
  rewrite Hc. by destruct (Z.testbit _ _).
Qed.

Lemma clear_above_next bs i :
  Forall is_u8 bs -> clear_above bs i -> byte_bit bs i = false -> clear_above bs (i + 1).
Proof.
  intros Hbs Hc Hb. unfold clear_above, byte_bit in *.
  pose proof (Nat.mod_upper_bound i 8) as Hm.
  destruct (decide (i mod 8 = 7)) as [E|E].
  - assert ((i + 1) mod 8 = 0) as -> .
    { rewrite Nat.Div0.add_mod, E. done. }
    destruct (bs !! ((i + 1) / 8)) as [z|] eqn:Hz; [|done].
    rewrite Forall_lookup in Hbs. apply Hbs in Hz. unfold is_u8 in Hz. simpl.
    rewrite Z.shiftr_div_pow2 by lia. apply Z.div_small. simpl. lia.
  - assert ((i + 1) / 8 = i / 8 /\ (i + 1) mod 8 = i mod 8 + 1) as [-> ->].
    { assert (i + 1 = 8 * (i / 8) + (i mod 8 + 1)) as Hi
        by (pose proof (Nat.div_mod_eq i 8); lia).
      split; [symmetry; apply Nat.div_unique with (i mod 8 + 1)
             |symmetry; apply Nat.mod_unique with (i / 8)]; lia. }
    replace (8 - (i mod 8 + 1)) with (7 - i mod 8) by lia.
    rewrite shiftr_step, Hb by lia.
    replace (Z.of_nat (7 - i mod 8) + 1)%Z with (Z.of_nat (8 - i mod 8)) by lia.
    by rewrite Hc.
Qed.

(** [count_same] counts the clear bits up to the first set one. *)
Lemma count_same_spec bs i fuel :
  Forall is_u8 bs -> i <= length bs * 8 -> length bs * 8 - i < fuel -> clear_above bs i ->
  let n := count_same fuel {| bits_bytes := bs; bit_pos := i |} in
  (forall j, i <= j < i + n -> byte_bit bs j = false) /\
  (i + n = length bs * 8 \/ i + n < length bs * 8 /\ byte_bit bs (i + n) = true).
Proof.
  intros Hbs. revert i. induction fuel as [|fuel IH]; intros i Hi Hf Hc; [lia|].
  cbn [count_same]. destruct (decide (i = length bs * 8)) as [->|Hne].
  - unfold bits_next. simpl. rewrite Nat.ltb_irrefl. split; [intros; lia|left; lia].
  - rewrite bits_next_clear by (done || lia).
    destruct (byte_bit bs i) eqn:Hb; simpl.
    + split; [intros; lia|right]. rewrite Nat.add_0_r. split; [lia|done].
    + destruct (IH (i + 1)) as [H1 H2]; [lia|lia|by apply clear_above_next|].
      set (m := count_same fuel _) in *. replace (i + S m) with (i + 1 + m) by lia.
      split; [|done]. intros j Hj. destruct (decide (j = i)) as [->|]; [done|].
      apply H1. lia.
Qed.

Lemma u8_testbit_high z n : is_u8 z -> (8 <= n)%Z -> Z.testbit z n = false.
Proof.
  intros Hz Hn. destruct (decide (z = 0)%Z) as [->|]; [apply Z.bits_0|].
  apply Z.bits_above_log2; [unfold is_u8 in Hz; lia|].
  apply Z.lt_le_trans with 8%Z; [|done]. apply Z.log2_lt_pow2; unfold is_u8 in Hz; lia.
Qed.

Lemma byte_zero z :
  is_u8 z -> (forall k, (k < 8)%nat -> Z.testbit z (Z.of_nat k) = false) -> z = 0%Z.
Proof.
  intros Hz H. apply Z.bits_inj'. intros n Hn. rewrite Z.bits_0.
  destruct (Z.lt_ge_cases n 8).
  - rewrite <- (Z2Nat.id n) by done. apply H. lia.
  - by apply u8_testbit_high.
Qed.

Lemma hash_bits_inj a b :
  is_hash a -> is_hash b -> (forall i, i < 160 -> hash_bit a i = hash_bit b i) -> a = b.
Proof.
  intros Ha Hb H. destruct a as [la], b as [lb]. f_equal. apply list_eq_same_length with 20.
  { apply Hb. } { apply Ha. }
  intros i x y Hi Hx Hy. simpl in *.
  pose proof (is_hash_xor _ _ Ha Hb) as [Lx Ux]. simpl in Lx, Ux.
  assert (Hxy : Z.lxor y x = 0%Z).
  { apply byte_zero.
    - rewrite Forall_lookup in Ux. apply (Ux i). rewrite lookup_zip_with, Hx, Hy. done.
    - intros k Hk. assert (Hbit : hash_bit {| hash := la |} (8 * i + (7 - k))
          = hash_bit {| hash := lb |} (8 * i + (7 - k))) by (apply H; lia).
      unfold hash_bit, byte_bit in Hbit. cbn [hash] in Hbit.
      replace ((8 * i + (7 - k)) / 8) with i in Hbit
        by (apply Nat.div_unique with (7 - k); lia).
      replace ((8 * i + (7 - k)) mod 8) with (7 - k) in Hbit
        by (apply Nat.mod_unique with i; lia).
      rewrite Hx, Hy in Hbit. cbn [default from_option id] in Hbit. replace (7 - (7 - k)) with k in Hbit by lia.
      rewrite Z.lxor_spec, Hbit. apply xorb_nilpotent. }
  apply Z.lxor_eq in Hxy. congruence.
Qed.

(** A shifted byte is 1 when the bit is set and none above it is. *)
Lemma shiftr_one_iff z k :
  is_u8 z -> (0 <= k)%Z ->
  Z.shiftr z k = 1%Z <-> Z.testbit z k = true /\ Z.shiftr z (k + 1) = 0%Z.
Proof.
  intros Hz Hk. rewrite (shiftr_step z k) by lia.
  assert (0 <= Z.shiftr z (k + 1))%Z by (apply Z.shiftr_nonneg; unfold is_u8 in Hz; lia).
  destruct (Z.testbit z k); simpl Z.b2z; split; intros; try split; try done; lia.
Qed.

Lemma shiftr_clear_iff z i :
  is_u8 z ->
  Z.shiftr z (Z.of_nat (7 - i mod 8) + 1) = 0%Z <->
  (forall j, j < i -> j / 8 = i / 8 -> Z.testbit z (Z.of_nat (7 - j mod 8)) = false).
Proof.
  intros Hzu. pose proof (Nat.mod_upper_bound i 8). pose proof (Nat.div_mod_eq i 8).
  set (k := 7 - i mod 8). split.
  - intros Hsh j Hj Hq. pose proof (Nat.mod_upper_bound j 8). pose proof (Nat.div_mod_eq j 8).
    replace (Z.of_nat (7 - j mod 8)) with
      (Z.of_nat (7 - j mod 8) - (Z.of_nat k + 1) + (Z.of_nat k + 1))%Z by lia.
    rewrite <- Z.shiftr_spec by lia. rewrite Hsh. apply Z.bits_0.
  - intros Hj. apply Z.bits_inj'. intros n Hn. rewrite Z.bits_0, Z.shiftr_spec by done.
    destruct (Z.lt_ge_cases (n + (Z.of_nat k + 1)) 8); [|by apply u8_testbit_high].
    specialize (Hj (8 * (i / 8) + (7 - Z.to_nat (n + (Z.of_nat k + 1))))).
    rewrite <- (Z2Nat.id (n + (Z.of_nat k + 1))) by lia.
    set (t := Z.to_nat (n + (Z.of_nat k + 1))) in *.
    assert (t < 8 /\ 8 - i mod 8 <= t) by lia.
    replace ((8 * (i / 8) + (7 - t)) / 8) with (i / 8) in Hj
      by (apply Nat.div_unique with (7 - t); lia).
    replace ((8 * (i / 8) + (7 - t)) mod 8) with (7 - t) in Hj
      by (apply Nat.mod_unique with (i / 8); lia).
    replace (7 - (7 - t)) with t in Hj by lia. apply Hj; lia.
Qed.

(** * Properties *)

(** [leading_bit_count] is the length of the longest common bit prefix of
    two node ids: the ids agree on that many leading bits, and either they are
    equal (and the count is 160) or they differ at the next bit.  This holds
    although the bit iterator it folds over misreports later bits. *)
Theorem leading_bit_count_correct (a b : ShaHash) :
  is_hash a -> is_hash b ->
  let n := leading_bit_count a b in
  (forall i, i < n -> hash_bit a i = hash_bit b i) /\
  (n = 160 /\ a = b \/ n < 160 /\ hash_bit a n <> hash_bit b n).
Proof.
  intros Ha Hb n. pose proof (is_hash_xor a b Ha Hb) as [Lx Ux]. unfold SHA_HASH_LEN in Lx.
  destruct (count_same_spec (hash (bitxor a b)) 0 (8 * length (hash (bitxor a b)) + 1))
    as [H1 H2]; [done|lia|lia| |].
  { unfold clear_above. destruct (hash (bitxor a b)) as [|z l]; [done|].
    apply Forall_cons in Ux as [Hz _]. simpl. unfold is_u8 in Hz.
    rewrite Z.shiftr_div_pow2 by lia. by apply Z.div_small. }
  change (count_same _ _) with n in H1, H2. rewrite Lx in H2. simpl in H1, H2.
  assert (Heq : forall i, i < n -> hash_bit a i = hash_bit b i).
  { intros i Hi. assert (Hf : hash_bit (bitxor a b) i = false) by (apply H1; lia).
    rewrite byte_bit_xor in Hf by (done || lia). by apply xorb_eq. }
  split; [done|]. destruct H2 as [->|[Hlt Hd]].
  - left. split; [done|]. apply hash_bits_inj; [done|done|]. intros i Hi. by apply Heq.
  - right. split; [done|]. intros E. change (byte_bit _ n) with (hash_bit (bitxor a b) n) in Hd.
    rewrite byte_bit_xor, E, xorb_nilpotent in Hd by (done || lia). done.
Qed.

(** The bit iterator does not report the bits of the hash: at each position
    it says [Set] exactly when that position is the highest set bit of its byte,
    so every set bit below it is reported as [Unset]. *)
Theorem bits_report_top_bit_only (bs : bytes) (i : nat) :
  i < length bs * 8 -> Forall is_u8 bs ->
  fst <$> bits_next {| bits_bytes := bs; bit_pos := i |} = Some BSet <->
  byte_bit bs i = true /\ (forall j, j < i -> j / 8 = i / 8 -> byte_bit bs j = false).
Proof.
  intros Hi Hbs. unfold bits_next, byte_bit. cbn [bits_bytes bit_pos].
  destruct (Nat.ltb_spec i (length bs * 8)); [|lia]. cbn [fmap option_fmap option_map fst].
  destruct (lookup_lt_is_Some_2 bs (i / 8)) as [z Hz].
  { apply Nat.Div0.div_lt_upper_bound; lia. }
  assert (Hzu : is_u8 z) by (rewrite Forall_lookup in Hbs; eauto).
  rewrite Hz. cbn [default from_option id].
  destruct (Z.eqb_spec (Z.shiftr z (Z.of_nat (7 - i mod 8))) 1) as [E|E].
  - apply shiftr_one_iff in E as [Hb Hc]; [|done|lia]. split; [|done]. intros _.
    split; [done|]. intros j Hj Hq. rewrite Hq, Hz. by apply (shiftr_clear_iff z i).
  - split; [done|]. intros [Hb Hj]. destruct E. apply shiftr_one_iff; [done|lia|].
    split; [done|]. apply shiftr_clear_iff; [done|].
    intros j Hlt Hq. specialize (Hj j Hlt Hq). by rewrite Hq, Hz in Hj.
Qed.

Definition zero_hash : ShaHash := {| hash := replicate 20 0%Z |}.
Definition low_hash : ShaHash := {| hash := [0%Z; 6%Z] ++ replicate 18 255%Z |}.

Lemma leading_bit_count_correct_witness :
  leading_bit_count zero_hash low_hash = 13 /\
  hash_bit zero_hash 13 <> hash_bit low_hash 13.
Proof.
  split; [vm_compute; reflexivity|].
  destruct (leading_bit_count_correct zero_hash low_hash) as [_ [[H _]|[_ H]]].
  - vm_compute. split; [reflexivity|]. repeat constructor; congruence.
  - vm_compute. split; [reflexivity|]. repeat constructor; congruence.
  - vm_compute in H. discriminate.
  - exact H.
Defined.

Lemma bits_report_top_bit_only_witness :
  byte_bit [192%Z] 1 = true /\
  fst <$> bits_next {| bits_bytes := [192%Z]; bit_pos := 1 |} <> Some BSet.
Proof.
  split; [reflexivity|]. intros H.
  apply bits_report_top_bit_only in H as [_ H].
  - specialize (H 0). vm_compute in H. discriminate H; [lia|reflexivity].
  - vm_compute. lia.
  - repeat constructor; vm_compute; congruence.
Defined.
