(* ===== verification/Routing.v ===== *)
(** Routing: the DHT routing table ([btp-dht/src/routing]: node.rs, bucket.rs,
    table.rs).

    An [Instant] is a number of nanoseconds; every operation that reads the
    clock takes the time [now] it reads, once for the whole operation. *)

From stdpp Require Import base list.
From Stdlib Require Import ZArith Lia.
From S2P Require Import Prelude Convert ShaHash.

(** * node.rs *)

Definition MAX_LAST_SEEN_MINS : Z := 15.
Definition MAX_REFRESH_REQUESTS : Z := 2.
Definition secs (s : Z) : Z := (s * 1000000000)%Z.
Definition USIZE_MAX : Z := 18446744073709551615.

Inductive NodeStatus : Type := Bad | Questionable | Good.

#[global] Instance NodeStatus_eq_dec : EqDecision NodeStatus.
Proof. solve_decision. Defined.

(** The derived [Ord]: declaration order. *)
Definition status_rank (s : NodeStatus) : nat :=
  match s with Bad => 0 | Questionable => 1 | Good => 2 end.
Definition status_lt (a b : NodeStatus) : bool := status_rank a <? status_rank b.
Definition status_ge (a b : NodeStatus) : bool := status_rank b <=? status_rank a.

Record NodeHandle := { nh_id : ShaHash; nh_addr : SocketAddr }.

#[global] Instance NodeHandle_eq_dec : EqDecision NodeHandle.
Proof. solve_decision. Defined.

Record Node := {
  handle : NodeHandle;
  last_request : option Z;
  last_response : option Z;
  last_local_request : option Z;
  refresh_requests : Z;
}.

Definition node_id (n : Node) : ShaHash := nh_id (handle n).
Definition node_addr (n : Node) : SocketAddr := nh_addr (handle n).

Definition as_good (now : Z) (id : ShaHash) (addr : SocketAddr) : Node := {|
  handle := {| nh_id := id; nh_addr := addr |};
  last_response := Some now; last_request := None;
  last_local_request := None; refresh_requests := 0;
|}.

(** [Instant - Duration]: a panic when the result is before [oldest], the first instant
    that the platform's clock can represent. *)
Definition instant_sub {E} (oldest now d : Z) : outcome E Z := if (oldest <=? now - d)%Z then Ok (now - d)%Z else Panic.

Definition as_questionable {E} (oldest now : Z) (id : ShaHash) (addr : SocketAddr) : outcome E Node :=
  last_response ← instant_sub oldest now (secs (MAX_LAST_SEEN_MINS * 60));
  Ok {|
    handle := {| nh_id := id; nh_addr := addr |};
    last_response := Some last_response; last_request := None;
    last_local_request := None; refresh_requests := 0;
  |}.

Definition as_bad (id : ShaHash) (addr : SocketAddr) : Node := {|
  handle := {| nh_id := id; nh_addr := addr |};
  last_response := None; last_request := None;
  last_local_request := None; refresh_requests := 0;
|}.

(** [Instant - Instant] saturates at zero. *)
Definition since (now t : Z) : Z := Z.max 0 (now - t).

Definition status (now : Z) (n : Node) : NodeStatus :=
  match last_response n with
  | None => Bad
  | Some response_time =>
      if (since now response_time <? secs (MAX_LAST_SEEN_MINS * 60))%Z then Good
      else if (MAX_REFRESH_REQUESTS <=? refresh_requests n)%Z then Bad
      else
        match last_request n with
        | Some request_time =>
            if (since now request_time <? secs (MAX_LAST_SEEN_MINS * 60))%Z
            then Good else Questionable
        | None => Questionable
        end
  end.

Definition is_pingable (now : Z) (n : Node) : bool :=
  match status now n with Good | Questionable => true | Bad => false end.

(** [Node::update]; the handles must agree. *)
Definition node_update {E} (now : Z) (self other : Node) : outcome E Node :=
  _ ← assert_that (bool_decide (handle self = handle other));
  match status now self, status now other with
  | Good, Good => Ok {|
      handle := handle self; last_response := last_response other;
      last_request := last_request self; last_local_request := last_local_request self;
      refresh_requests := 0 |}
  | Good, Questionable | Good, Bad => Ok self
  | Questionable, Good => Ok other
  | Questionable, Questionable | Questionable, Bad => Ok self
  | Bad, Good | Bad, Questionable => Ok other
  | Bad, Bad => Ok self
  end.

Definition local_request (now : Z) (n : Node) : Node :=
  let n' := {| handle := handle n; last_request := last_request n;
    last_response := last_response n; last_local_request := Some now;
    refresh_requests := refresh_requests n |} in
  if bool_decide (status now n' <> Good) then
    {| handle := handle n'; last_request := last_request n';
       last_response := last_response n'; last_local_request := last_local_request n';
       refresh_requests := Z.min (refresh_requests n' + 1) USIZE_MAX |}
  else n'.

Definition remote_request (now : Z) (n : Node) : Node := {|
  handle := handle n; last_request := Some now; last_response := last_response n;
  last_local_request := last_local_request n; refresh_requests := refresh_requests n |}.

Definition remote_response (now : Z) (n : Node) : Node := {|
  handle := handle n; last_request := last_request n; last_response := Some now;
  last_local_request := last_local_request n; refresh_requests := 0 |}.

Definition recently_requested_from {E} (oldest now : Z) (n : Node) : outcome E bool :=
  match last_local_request n with
  | Some time => limit ← instant_sub oldest now (secs 30); Ok (limit <? time)%Z
  | None => Ok false
  end.

(** [Node::encode]: id, ip and port, 26 bytes; panics on a v6 address. *)
Definition node_encode {E} (n : Node) : outcome E bytes :=
  match node_addr n with
  | SockV4 v4 =>
      Ok (hash (node_id n) ++ octets (v4_ip v4) ++
          [to_u8 (Z.shiftr (v4_port v4) 8); to_u8 (v4_port v4)])
  | SockV6 _ => Panic
  end.

(** [PartialEq for Node]: the handles are compared. *)
Definition node_eqb (a b : Node) : bool := bool_decide (handle a = handle b).

(** * bucket.rs *)

Definition MAX_BUCKET_SIZE : nat := 8.

Notation Bucket := (list Node) (only parsing).

Definition default_node : Node :=
  as_bad {| hash := replicate SHA_HASH_LEN 0%Z |}
    (SockV4 {| v4_ip := Ipv4 127 0 0 1; v4_port := 0 |}).

Definition bucket_new : Bucket := replicate MAX_BUCKET_SIZE default_node.

Definition good_nodes (now : Z) (b : Bucket) : list Node :=
  filter (fun n => status now n = Good) b.
Definition pingable_nodes (now : Z) (b : Bucket) : list Node :=
  filter (fun n => is_pingable now n = true) b.

Definition needs_refresh (now : Z) (b : Bucket) : bool :=
  fold_left (fun prev n => prev && bool_decide (status now n <> Good)) b true.

(** [Bucket::add_node] *)
Definition bucket_add_node (now : Z) (b : Bucket) (new_node : Node) : bool * Bucket :=
  let new_node_status := status now new_node in
  if bool_decide (new_node_status = Bad) then (true, b)
  else
    match position (fun node => node_eqb node new_node) b with
    | Some index =>
        let other_node_status := status now (default default_node (b !! index)) in
        if status_ge new_node_status other_node_status
        then (true, <[index := new_node]> b) else (true, b)
    | None =>
        match position (fun node => status_lt (status now node) new_node_status) b with
        | Some index => (true, <[index := new_node]> b)
        | None => (false, b)
        end
    end.

(** * table.rs *)

Definition MAX_BUCKETS : nat := SHA_HASH_LEN * 8.

Record RoutingTable := { buckets : list Bucket; table_id : ShaHash }.

Definition table_new (id : ShaHash) : RoutingTable :=
  {| buckets := [bucket_new]; table_id := id |}.

Definition bucket_placement (num_same_bits num_buckets : nat) : nat :=
  if num_buckets <=? num_same_bits then num_buckets - 1 else num_same_bits.

Definition can_split_bucket (num_buckets bucket_index : nat) : bool :=
  (bucket_index =? num_buckets - 1) && negb (bucket_index =? MAX_BUCKETS - 1).

Definition set_buckets (t : RoutingTable) (bs : list Bucket) : RoutingTable :=
  {| buckets := bs; table_id := table_id t |}.

(** [add_node], [bucket_node] and [split_bucket] call each other.  Every split
    adds a bucket and there are never more than [MAX_BUCKETS], so three calls
    per bucket bound the recursion ([add_node_fuel]). *)
Fixpoint add_node_f {E} (fuel : nat) (now : Z) (t : RoutingTable) (node : Node)
    : outcome E RoutingTable :=
  match fuel with
  | O => NoFuel
  | S fuel =>
      if bool_decide (status now node = Bad) then Ok t
      else
        let num_same_bits := leading_bit_count (table_id t) (node_id node) in
        if negb (num_same_bits =? MAX_BUCKETS)
        then bucket_node_f fuel now t node num_same_bits else Ok t
  end
with bucket_node_f {E} (fuel : nat) (now : Z) (t : RoutingTable) (node : Node)
    (num_same_bits : nat) : outcome E RoutingTable :=
  match fuel with
  | O => NoFuel
  | S fuel =>
      let bucket_index := bucket_placement num_same_bits (length (buckets t)) in
      b ← index (buckets t) bucket_index;
      let '(added, b') := bucket_add_node now b node in
      let t' := set_buckets t (<[bucket_index := b']> (buckets t)) in
      if negb added then
        '(did_split, t'') ← split_bucket_f fuel now t' bucket_index;
        if did_split : bool then bucket_node_f fuel now t'' node num_same_bits else Ok t''
      else Ok t'
  end
with split_bucket_f {E} (fuel : nat) (now : Z) (t : RoutingTable) (bucket_index : nat)
    : outcome E (bool * RoutingTable) :=
  match fuel with
  | O => NoFuel
  | S fuel =>
      if negb (can_split_bucket (length (buckets t)) bucket_index) then Ok (false, t)
      else
        match last (buckets t) with
        | None => Panic
        | Some split_bucket =>
            let t0 := set_buckets t
              (take (length (buckets t) - 1) (buckets t) ++ [bucket_new; bucket_new]) in
            t1 ← fold_left (fun acc n => t ← acc; add_node_f fuel now t n) split_bucket (Ok t0);
            Ok (true, t1)
        end
  end.

Definition add_node_fuel : nat := 3 * MAX_BUCKETS + 3.

(** [RoutingTable::add_node] *)
Definition table_add_node {E} (now : Z) (t : RoutingTable) (node : Node)
    : outcome E RoutingTable := add_node_f add_node_fuel now t node.

(** [RoutingTable::bucket_index_for_node] *)
Definition bucket_index_for_node {E} (t : RoutingTable) (id : ShaHash) : outcome E nat :=
  let bucket_index := leading_bit_count (table_id t) id in
  if bucket_index <? length (buckets t) then Ok bucket_index
  else if length (buckets t) =? 0 then Panic else Ok (length (buckets t) - 1).

(** [RoutingTable::find_node_mut]: the position of the node found, through
    which the caller updates it in place. *)
Definition find_node_mut {E} (now : Z) (t : RoutingTable) (h : NodeHandle)
    : outcome E (option (nat * nat)) :=
  bucket_index ← bucket_index_for_node t (nh_id h);
  match buckets t !! bucket_index with
  | None => Ok None
  | Some b =>
      match position (fun n => is_pingable now n && bool_decide (handle n = h)) b with
      | Some slot => Ok (Some (bucket_index, slot))
      | None => Ok None
      end
  end.

Definition update_at (t : RoutingTable) (i slot : nat) (f : Node -> Node) : RoutingTable :=
  set_buckets t (alter (alter f slot) i (buckets t)).

(** ** The bucket iterator *)

Inductive BucketContents : Type :=
  | BEmpty
  | BSorted (b : Bucket)
  | BAssorted (b : Bucket).

Record Buckets := { bi_buckets : list Bucket; bi_index : nat }.

Definition buckets_iter (t : RoutingTable) : Buckets :=
  {| bi_buckets := buckets t; bi_index := 0 |}.

(** [Iterator for Buckets] *)
Definition buckets_next {E} (it : Buckets) : outcome E (option (BucketContents * Buckets)) :=
  let len := length (bi_buckets it) in
  let it' := {| bi_buckets := bi_buckets it; bi_index := bi_index it + 1 |} in
  if MAX_BUCKETS <? bi_index it then Ok None
  else if bi_index it =? MAX_BUCKETS then
    if (len =? MAX_BUCKETS) || (len =? 0) then Ok None
    else b ← index (bi_buckets it) (len - 1); Ok (Some (BAssorted b, it'))
  else if (bi_index it + 1 <? len) || (len =? MAX_BUCKETS) then
    b ← index (bi_buckets it) (bi_index it); Ok (Some (BSorted b, it'))
  else Ok (Some (BEmpty, it')).

(** [skip(n).next()] *)
Fixpoint buckets_nth {E} (n : nat) (it : Buckets) : outcome E (option BucketContents) :=
  r ← buckets_next it;
  match r with
  | None => Ok None
  | Some (c, it') => match n with O => Ok (Some c) | S n => buckets_nth n it' end
  end.

(** [find(|c| Assorted)]; at most [MAX_BUCKETS + 2] calls of [next]. *)
Fixpoint buckets_find_assorted {E} (fuel : nat) (it : Buckets)
    : outcome E (option BucketContents) :=
  match fuel with
  | O => NoFuel
  | S fuel =>
      r ← buckets_next it;
      match r with
      | None => Ok None
      | Some (BAssorted b, _) => Ok (Some (BAssorted b))
      | Some (_, it') => buckets_find_assorted fuel it'
      end
  end.

(** [RoutingTable::find_node] *)
Definition find_node {E} (now : Z) (t : RoutingTable) (node : Node)
    : outcome E (option Node) :=
  let bucket_index := leading_bit_count (table_id t) (node_id node) in
  sorted ← buckets_nth bucket_index (buckets_iter t);
  contents ← match sorted with
             | Some c => Ok (Some c)
             | None => buckets_find_assorted (MAX_BUCKETS + 2) (buckets_iter t)
             end;
  match contents with
  | Some (BSorted b) | Some (BAssorted b) =>
      Ok (list_find (fun n => node_eqb n node = true) (pingable_nodes now b) ≫= fun p => Some p.2)
  | _ => Ok None
  end.

(** ** The closest-nodes iterator *)

Definition index_is_in_bounds (length : nat) (checked_index : option nat) : bool :=
  match checked_index with
  | Some index => index <? length
  | None => false
  end.

(** [usize::checked_sub]; the additions cannot overflow, the indices being at
    most a few hundred. *)
Definition checked_sub (a b : nat) : option nat := if b <=? a then Some (a - b) else None.

Definition next_bucket_index (num_buckets start_index curr_index : nat) : option nat :=
  if curr_index =? start_index then
    let right_index := Some (start_index + 1) in
    let left_index := checked_sub start_index 1 in
    if index_is_in_bounds num_buckets right_index then right_index
    else if index_is_in_bounds num_buckets left_index then left_index
    else None
  else if start_index <? curr_index then
    let offset := curr_index - start_index in
    let left_index := checked_sub start_index offset in
    let right_index := Some (curr_index + 1) in
    if index_is_in_bounds num_buckets left_index then left_index
    else if index_is_in_bounds num_buckets right_index then right_index
    else None
  else
    let offset := (start_index - curr_index) + 1 in
    let right_index := Some (start_index + offset) in
    let left_index := checked_sub curr_index 1 in
    if index_is_in_bounds num_buckets right_index then right_index
    else if index_is_in_bounds num_buckets left_index then left_index
    else None.

(** [bucket_iterator]: the good nodes of a sorted bucket, if it exists. *)
Definition bucket_iterator (now : Z) (bs : list Bucket) (i : nat) : option (list Node) :=
  pingable_nodes now <$>
    (if length bs =? MAX_BUCKETS then bs else take (length bs - 1) bs) !! i.

(** [precompute_assorted_nodes].  A table always has a bucket, so the index of
    the last one does not wrap, and a bucket always has [MAX_BUCKET_SIZE] slots,
    so every entry of the array is overwritten ([table_ok], RoutingCorrect). *)
Definition precompute_assorted_nodes (bs : list Bucket) (self_id : ShaHash)
    : option (list (nat * Node * bool)) :=
  if length bs =? MAX_BUCKETS then None
  else
    match last bs with
    | Some b =>
        match b with
        | [] => None
        | _ => Some ((fun n => (leading_bit_count self_id (node_id n), n, false)) <$> b)
        end
    | None => None
    end.

Record ClosestNodes := {
  cn_buckets : list Bucket;
  current_iter : option (list Node);
  current_index : nat;
  start_index : nat;
  assorted_nodes : option (list (nat * Node * bool));
}.

Definition closest_nodes (now : Z) (t : RoutingTable) (other_id : ShaHash) : ClosestNodes :=
  let start := leading_bit_count (table_id t) other_id in {|
    cn_buckets := buckets t;
    current_iter := bucket_iterator now (buckets t) start;
    current_index := start;
    start_index := start;
    assorted_nodes := precompute_assorted_nodes (buckets t) (table_id t);
  |}.

(** The assorted node to hand out at [current_index]. *)
Definition assorted_candidate (now : Z) (current_index : nat) (tup : nat * Node * bool) : bool :=
  let '(i, n, returned) := tup in
  is_pingable now n && ((i =? current_index) && negb returned).

Definition mark_returned (tup : nat * Node * bool) : nat * Node * bool :=
  let '(i, n, _) := tup in (i, n, true).

(** [Iterator for ClosestNodes]: recurses when it moves to another bucket. *)
Fixpoint closest_next {E} (fuel : nat) (now : Z) (it : ClosestNodes)
    : outcome E (option Node * ClosestNodes) :=
  match fuel with
  | O => NoFuel
  | S fuel =>
      match current_iter it with
      | Some (n :: rest) =>
          Ok (Some n, {| cn_buckets := cn_buckets it; current_iter := Some rest;
            current_index := current_index it; start_index := start_index it;
            assorted_nodes := assorted_nodes it |})
      | _ =>
          match (l ← assorted_nodes it;
                 slot ← position (assorted_candidate now (current_index it)) l;
                 tup ← l !! slot; Some (l, slot, tup)) with
          | Some (l, slot, tup) =>
              Ok (Some tup.1.2, {| cn_buckets := cn_buckets it; current_iter := current_iter it;
                current_index := current_index it; start_index := start_index it;
                assorted_nodes := Some (<[slot := mark_returned tup]> l) |})
          | None =>
              match next_bucket_index MAX_BUCKETS (start_index it) (current_index it) with
              | Some new_index =>
                  closest_next fuel now {| cn_buckets := cn_buckets it;
                    current_iter := bucket_iterator now (cn_buckets it) new_index;
                    current_index := new_index; start_index := start_index it;
                    assorted_nodes := assorted_nodes it |}
              | None => Ok (None, it)
              end
          end
      end
  end.

(** The whole sequence the iterator yields. *)
Fixpoint closest_collect {E} (fuel : nat) (now : Z) (it : ClosestNodes) : outcome E (list Node) :=
  match fuel with
  | O => NoFuel
  | S fuel =>
      '(o, it') ← closest_next (MAX_BUCKETS + 2) now it;
      match o with
      | None => Ok []
      | Some n => rest ← closest_collect fuel now it'; Ok (n :: rest)
      end
  end.

(** [num_good_nodes] and [num_questionable_nodes] *)
Definition num_with_status {E} (fuel : nat) (now : Z) (t : RoutingTable) (s : NodeStatus)
    : outcome E nat :=
  l ← closest_collect fuel now (closest_nodes now t (table_id t));
  Ok (length (filter (fun n => status now n = s) l)).
