(* ===== verification/RoutingCorrect.v ===== *)
(** RoutingCorrect: the properties of the DHT routing table. *)

From stdpp Require Import base list relations.
From Stdlib Require Import ZArith Lia.
From S2P Require Import Prelude Convert ShaHash Routing.

(** * The order in which the buckets are visited *)

(** The indices [next_bucket_index] leads through, from [curr] to the end;
    [None] when the fuel does not reach the end. *)
Fixpoint visit_order (fuel num_buckets start curr : nat) : option (list nat) :=
  match fuel with
  | O => None
  | S fuel =>
      match next_bucket_index num_buckets start curr with
      | None => Some [curr]
      | Some next => cons curr <$> visit_order fuel num_buckets start next
      end
  end.

(** The highest index visited: the start may lie just past the last bucket. *)
Definition top_index (num_buckets start : nat) : nat := Nat.max (num_buckets - 1) start.

(** The indices visited up to [curr] are the interval from [lo] to [hi]. *)
Definition visited (n s curr lo hi : nat) : Prop :=
  (curr = s /\ lo = s /\ hi = s) \/
  (s < curr < n /\ hi = curr /\ lo = s + 1 - (curr - s)) \/
  (curr < s /\ lo = curr /\ hi = Nat.min (top_index n s) (s + (s - curr))).

Ltac next_tests :=
  repeat match goal with
  | |- context [if ?a <? ?b then _ else _] => destruct (Nat.ltb_spec a b)
  | |- context [if ?a <=? ?b then _ else _] => destruct (Nat.leb_spec a b)
  | H : context [if ?a <=? ?b then _ else _] |- _ => destruct (Nat.leb_spec a b)
  end.

Lemma visited_step n s curr lo hi :
  s <= n -> visited n s curr lo hi ->
  match next_bucket_index n s curr with
  | None => lo = 0 /\ hi = top_index n s
  | Some c => (c = hi + 1 /\ c <= top_index n s /\ visited n s c lo c) \/
              (c + 1 = lo /\ visited n s c c hi)
  end.
Proof.
  intros Hs Hv. unfold next_bucket_index, checked_sub, index_is_in_bounds, visited, top_index in *.
  destruct Hv as [(-> & -> & ->)|[(Hc & -> & ->)|(Hc & -> & ->)]].
  - rewrite Nat.eqb_refl. next_tests; first [left; split; lia | right; split; [lia|right; right; lia] | lia].
  - destruct (Nat.eqb_spec curr s); [lia|]. destruct (Nat.ltb_spec s curr); [|lia].
    next_tests; first [right; split; [lia|right; right; lia] | left; split; [lia|split; [lia|right; left; lia]] | lia].
  - destruct (Nat.eqb_spec curr s); [lia|]. destruct (Nat.ltb_spec s curr); [lia|].
    next_tests; first [left; split; [lia|split; [lia|right; left; lia]] | right; split; [lia|right; right; lia] | lia].
Qed.

Lemma visited_range n s curr lo hi :
  s <= n -> visited n s curr lo hi -> lo <= hi <= top_index n s.
Proof. unfold visited, top_index. lia. Qed.

Lemma visit_order_rest fuel n s curr lo hi :
  s <= n -> visited n s curr lo hi -> top_index n s - hi + lo < fuel ->
  exists l, visit_order fuel n s curr = Some (curr :: l) /\
    l ≡ₚ seq 0 lo ++ seq (hi + 1) (top_index n s - hi).
Proof.
  intros Hs. revert curr lo hi. induction fuel as [|fuel IH]; intros curr lo hi Hv Hf; [lia|].
  pose proof (visited_step _ _ _ _ _ Hs Hv) as Hstep. pose proof (visited_range _ _ _ _ _ Hs Hv).
  cbn [visit_order]. destruct (next_bucket_index n s curr) as [c|].
  - destruct Hstep as [(-> & Hc & Hv')|(<- & Hv')].
    + destruct (IH _ _ _ Hv') as (l & -> & Hl); [lia|]. exists (hi + 1 :: l).
      split; [done|]. rewrite Hl.
      replace (top_index n s - hi) with (S (top_index n s - (hi + 1))) by lia.
      cbn [seq]. rewrite (Nat.add_1_r (hi + 1)). apply Permutation_middle.
    + destruct (IH _ _ _ Hv') as (l & -> & Hl); [lia|]. exists (c :: l).
      split; [done|]. rewrite Hl, (Nat.add_1_r c), seq_S. simpl.
      rewrite <- app_assoc. apply Permutation_middle.
  - destruct Hstep as [-> ->]. exists []. split; [done|]. by rewrite Nat.sub_diag.
Qed.

Lemma visit_order_all n s :
  s <= n -> exists l, visit_order (n + 2) n s s = Some (s :: l) /\
    s :: l ≡ₚ seq 0 (top_index n s + 1).
Proof.
  intros Hs. assert (Hv : visited n s s s s) by (by left).
  pose proof (visited_range _ _ _ _ _ Hs Hv).
  destruct (visit_order_rest (n + 2) n s s s s Hs Hv) as (l & Hl & Hp);
    [unfold top_index in *; lia|].
  exists l. split; [done|]. rewrite Hp, Permutation_middle.
  replace (top_index n s + 1) with (s + S (top_index n s - s)) by lia.
  rewrite seq_app. simpl. by rewrite Nat.add_1_r.
Qed.

(** The order as it is meant: the start, and then for each distance [k] the index [k] to
    the right and the index [k] to the left, as far as there are such buckets. *)
Definition beside (num_buckets start k : nat) : list nat :=
  (if start + k <? num_buckets then [start + k] else []) ++ (if k <=? start then [start - k] else []).
Definition alternating (num_buckets start : nat) : list nat :=
  start :: (seq 1 num_buckets ≫= beside num_buckets start).

Example alternating_sample : alternating 10 3 = [3; 4; 2; 5; 1; 6; 0; 7; 8; 9].
Proof. reflexivity. Qed.

Lemma visit_order_fuel f f' n s c l l' : visit_order f n s c = Some l -> visit_order f' n s c = Some l' -> l = l'.
Proof.
  revert f' c l l'. induction f as [|f IH]; intros [|f'] c l l'; cbn [visit_order]; try done.
  destruct (next_bucket_index n s c) as [d|]; [|congruence].
  intros (l1 & H1 & ->)%fmap_Some (l2 & H2 & ->)%fmap_Some. by rewrite (IH _ _ _ _ H1 H2).
Qed.

Lemma beside_none n s k m : n <= s + k -> s < k -> seq k m ≫= beside n s = [].
Proof.
  revert k. induction m as [|m IH]; intros k Hn Hs; [done|]. cbn [seq mbind list_bind]. rewrite IH by lia. unfold beside.
  destruct (Nat.ltb_spec (s + k) n), (Nat.leb_spec k s); lia || done.
Qed.

(** From the left of the start, and from the right, the walk goes on as it is meant to. *)
Lemma visit_beside n s m : s <= n -> forall k, 1 <= k -> n <= k + m ->
  (forall fuel, k <= s -> 2 * m + 2 <= fuel -> visit_order fuel n s (s - k) = Some (s - k :: (seq (k + 1) m ≫= beside n s))) /\
  (forall fuel, s + k < n -> 2 * m + 3 <= fuel ->
     visit_order fuel n s (s + k) = Some (s + k :: (if k <=? s then [s - k] else []) ++ (seq (k + 1) m ≫= beside n s))).
Proof.
  intros Hs. induction m as [|m IH]; intros k Hk Hm.
  - split; intros [|fuel] H Hf; try lia. cbn [visit_order]. unfold next_bucket_index, checked_sub, index_is_in_bounds.
    next_tests; try lia. destruct (Nat.eqb_spec (s - k) s); [lia|done].
  - assert (Hleft : forall fuel, k <= s -> 2 * S m + 2 <= fuel ->
      visit_order fuel n s (s - k) = Some (s - k :: (seq (k + 1) (S m) ≫= beside n s))).
    { intros [|fuel] H Hf; [lia|]. destruct (IH (k + 1) ltac:(lia) ltac:(lia)) as [IHl IHr]. cbn [visit_order seq mbind list_bind].
      unfold next_bucket_index, checked_sub, index_is_in_bounds, beside at 1. rewrite <- (Nat.add_1_r (k + 1)).
      destruct (Nat.eqb_spec (s - k) s); [lia|]. destruct (Nat.ltb_spec s (s - k)); [lia|].
      replace (s + (s - (s - k) + 1)) with (s + (k + 1)) by lia. replace (s - k - 1) with (s - (k + 1)) by lia.
      destruct (Nat.ltb_spec (s + (k + 1)) n); cbv beta iota; [by rewrite IHr by lia|].
      destruct (Nat.leb_spec 1 (s - k)); cbv beta iota.
      - destruct (Nat.ltb_spec (s - (k + 1)) n); [|lia]. cbv beta iota. rewrite IHl by lia. destruct (Nat.leb_spec (k + 1) s); [done|lia].
      - destruct (Nat.leb_spec (k + 1) s); [lia|]. cbn [app]. by rewrite beside_none by lia. }
    split; [exact Hleft|]. intros [|fuel] H Hf; [lia|]. cbn [visit_order]. unfold next_bucket_index, checked_sub, index_is_in_bounds.
    destruct (Nat.eqb_spec (s + k) s); [lia|]. destruct (Nat.ltb_spec s (s + k)); [|lia].
    replace (s + k - s) with k by lia. destruct (Nat.leb_spec k s).
    + destruct (Nat.ltb_spec (s - k) n); [|lia]. cbv beta iota. by rewrite Hleft by lia.
    + cbn [app]. destruct (Nat.ltb_spec (s + k + 1) n) as [Hin|Hout].
      * destruct (IH (k + 1) ltac:(lia) ltac:(lia)) as [_ IHr]. replace (s + k + 1) with (s + (k + 1)) by lia.
        cbv beta iota. rewrite IHr by lia. cbn [seq mbind list_bind]. unfold beside at 2. rewrite <- (Nat.add_1_r (k + 1)).
        destruct (Nat.ltb_spec (s + (k + 1)) n); [|lia]. done.
      * by rewrite beside_none by lia.
Qed.

(** The indices are visited in the order as it is meant. *)
Lemma visit_order_alternating n s : 0 < n -> s <= n -> exists fuel, visit_order fuel n s s = Some (alternating n s).
Proof.
  intros Hn Hs. exists (2 * n + 4). unfold alternating. destruct n as [|n]; [lia|]. replace (2 * S n + 4) with (S (2 * n + 5)) by lia.
  destruct (visit_beside (S n) s n Hs 1 ltac:(lia) ltac:(lia)) as [Hl Hr]. cbn [visit_order seq mbind list_bind].
  unfold next_bucket_index, checked_sub, index_is_in_bounds, beside at 1. rewrite Nat.eqb_refl.
  destruct (Nat.ltb_spec (s + 1) (S n)); cbv beta iota; [by rewrite Hr by lia|]. destruct (Nat.leb_spec 1 s); cbv beta iota.
  - destruct (Nat.ltb_spec (s - 1) (S n)); [|lia]. cbv beta iota. by rewrite Hl by lia.
  - cbn [app]. by rewrite beside_none by lia.
Qed.

(** * Buckets *)

(** The slots that hold a node that was added: the others hold the default
    node, which never answered. *)
Definition residents (b : list Node) : list Node := filter (fun n => last_response n <> None) b.

(** A bucket has eight slots, the added nodes come first, and no two of them
    have the same handle. *)
Definition bucket_ok (b : list Node) : Prop :=
  b = residents b ++ replicate (MAX_BUCKET_SIZE - length (residents b)) default_node /\
  length (residents b) <= MAX_BUCKET_SIZE /\ NoDup (handle <$> residents b).

(** The same, with the added nodes named. *)
Definition bucket_rep (l b : list Node) : Prop :=
  b = l ++ replicate (MAX_BUCKET_SIZE - length l) default_node /\
  length l <= MAX_BUCKET_SIZE /\ NoDup (handle <$> l) /\
  Forall (fun n => last_response n <> None) l.

Lemma residents_rep l b : bucket_rep l b -> residents b = l.
Proof.
  intros (-> & _ & _ & Hl). unfold residents. rewrite filter_app.
  rewrite (filter_all _ l) by done.
  rewrite (filter_none _ (replicate _ _)); [apply app_nil_r|].
  apply Forall_replicate. simpl. naive_solver.
Qed.

Lemma bucket_ok_rep b : bucket_ok b <-> bucket_rep (residents b) b.
Proof.
  split; [|by intros (? & ? & ? & _)].
  intros (H1 & H2 & H3). split_and!; [done..|].
  apply Forall_forall. intros x Hx. by apply list_elem_of_filter in Hx as [? _].
Qed.

Lemma bucket_rep_nil : bucket_rep [] bucket_new.
Proof. split_and!; [done|simpl; lia|constructor|constructor]. Qed.

Lemma not_bad_responded now n : status now n <> Bad -> last_response n <> None.
Proof. unfold status. destruct (last_response n); naive_solver. Qed.

Lemma default_is_bad now : status now default_node = Bad.
Proof. done. Qed.

Lemma status_ge_spec a b : status_ge a b = true <-> status_rank b <= status_rank a.
Proof. apply Nat.leb_le. Qed.

Lemma status_lt_spec a b : status_lt a b = false <-> status_rank b <= status_rank a.
Proof. apply Nat.ltb_ge. Qed.

Lemma rank_bad s : s <> Bad <-> 0 < status_rank s.
Proof. destruct s; simpl; naive_solver lia. Qed.

(** Replacing one resident, and taking the first free slot. *)
Lemma bucket_rep_insert l b i n m :
  bucket_rep l b -> l !! i = Some m -> last_response n <> None ->
  (handle m = handle n \/ handle n ∉ handle <$> l) ->
  bucket_rep (<[i := n]> l) (<[i := n]> b).
Proof.
  intros (-> & Hlen & Hnd & Hl) Hi Hn Hh. pose proof (lookup_lt_Some _ _ _ Hi).
  split_and!.
  - by rewrite insert_app_l, length_insert.
  - by rewrite length_insert.
  - rewrite list_fmap_insert. destruct Hh as [Hh|Hh].
    + rewrite list_insert_id; [done|]. rewrite list_lookup_fmap, Hi. simpl. by rewrite Hh.
    + apply NoDup_alt. intros j k x Hj Hk.
      apply list_lookup_insert_Some in Hj as [(? & ? & _)|[Hij Hj]];
        apply list_lookup_insert_Some in Hk as [(? & ? & _)|[Hik Hk]]; subst; [done| | |].
      * destruct Hh. by apply list_elem_of_lookup_2 in Hk.
      * destruct Hh. by apply list_elem_of_lookup_2 in Hj.
      * by eapply NoDup_lookup.
  - by apply Forall_insert.
Qed.

Lemma bucket_rep_snoc l b n :
  bucket_rep l b -> length l < MAX_BUCKET_SIZE -> last_response n <> None ->
  handle n ∉ handle <$> l -> bucket_rep (l ++ [n]) (<[length l := n]> b).
Proof.
  intros (-> & Hlen & Hnd & Hl) Hlt Hn Hh. split_and!.
  - rewrite insert_app_r_alt, Nat.sub_diag, length_app by lia.
    replace (MAX_BUCKET_SIZE - length l) with (S (MAX_BUCKET_SIZE - (length l + 1))) by lia.
    simpl. by rewrite <- app_assoc.
  - rewrite length_app. simpl. lia.
  - rewrite fmap_app. apply NoDup_app. split_and!; [done| |apply NoDup_singleton].
    intros x Hx ->%list_elem_of_singleton. done.
  - by apply Forall_app_2; [|constructor].
Qed.

(** A position found in a bucket is that of a resident or the first free slot. *)
Lemma bucket_rep_slot l b i x (p : Node -> bool) :
  bucket_rep l b -> position p b = Some i -> b !! i = Some x ->
  l !! i = Some x \/
  (i = length l /\ x = default_node /\ i < MAX_BUCKET_SIZE /\ Forall (fun n => p n = false) l).
Proof.
  intros (-> & Hlen & _ & _) Hp Hx.
  apply lookup_app_Some in Hx as [Hx|[Hge Hx]]; [by left|right].
  apply lookup_replicate in Hx as [-> Hlt].
  apply position_Some in Hp as (y & Hy & Hpy & Hf).
  rewrite lookup_app_r in Hy by done. apply lookup_replicate in Hy as [-> _].
  assert (Hi : i = length l).
  { destruct (decide (i = length l)) as [|Hne]; [done|].
    rewrite take_app_ge, take_replicate in Hf by done. apply Forall_app in Hf as [_ Hf].
    replace ((i - length l) `min` (MAX_BUCKET_SIZE - length l))
      with (S (i - length l - 1)) in Hf by lia.
    apply Forall_cons in Hf as [Hf _]. congruence. }
  split_and!; [done|done|lia|]. subst i. by rewrite take_app_length in Hf.
Qed.

(** What [Bucket::add_node] does with a node that is not bad: it refuses it only
    when every slot is taken by a node of at least its status; otherwise the
    node, or an entry of the same handle and better status, is in the bucket,
    and the only resident that can have left had a lower status or the same
    handle. *)
Definition bucket_added (now : Z) (n : Node) (l l' : list Node) : Prop :=
  length l' <= length l + 1 /\
  (exists m, m ∈ l' /\ handle m = handle n /\
    status_rank (status now n) <= status_rank (status now m)) /\
  (forall m, m ∈ l -> status now m = Good -> m ∈ l' \/ handle m = handle n) /\
  (forall m, m ∈ l' -> m = n \/ m ∈ l).

Lemma added_insert now n m l i :
  l !! i = Some m -> (handle m = handle n \/ status now m <> Good) ->
  bucket_added now n l (<[i := n]> l).
Proof.
  intros Hi Hm. pose proof (lookup_lt_Some _ _ _ Hi). split_and!.
  - rewrite length_insert. lia.
  - exists n. split; [|done]. by apply list_elem_of_insert.
  - intros x [j Hj]%list_elem_of_lookup_1 Hg. destruct (decide (i = j)) as [<-|Hne].
    + right. rewrite Hi in Hj. injection Hj as <-. tauto.
    + left. apply list_elem_of_lookup_2 with j. by rewrite list_lookup_insert_ne.
  - intros x [j Hj]%list_elem_of_lookup_1.
    apply list_lookup_insert_Some in Hj as [(_ & -> & _)|[_ Hj]]; [by left|].
    right. by apply list_elem_of_lookup_2 in Hj.
Qed.

Lemma added_snoc now n l : bucket_added now n l (l ++ [n]).
Proof.
  split_and!.
  - rewrite length_app. simpl. lia.
  - exists n. split; [|done]. apply elem_of_app. right. by apply list_elem_of_singleton.
  - intros m Hm _. left. apply elem_of_app. by left.
  - intros m [Hm|Hm%list_elem_of_singleton]%elem_of_app; auto.
Qed.

Lemma added_same now n l m :
  m ∈ l -> handle m = handle n -> status_rank (status now n) <= status_rank (status now m) ->
  bucket_added now n l l.
Proof. intros. split_and!; [lia|by exists m|by left|by right]. Qed.

Lemma not_in_handles (n : Node) (l : list Node) :
  Forall (fun y => node_eqb y n = false) l -> handle n ∉ handle <$> l.
Proof.
  intros Hf (y & Hy & Hin)%list_elem_of_fmap. rewrite Forall_forall in Hf.
  specialize (Hf y Hin). unfold node_eqb in Hf. by apply bool_decide_eq_false in Hf.
Qed.

Lemma bucket_add_node_ok now l b n :
  bucket_rep l b -> status now n <> Bad ->
  (bucket_add_node now b n = (false, b) /\ length l = MAX_BUCKET_SIZE /\
   Forall (fun m => status_rank (status now n) <= status_rank (status now m)) b) \/
  (exists b' l', bucket_add_node now b n = (true, b') /\ bucket_rep l' b' /\
     bucket_added now n l l').
Proof.
  intros Hb Hn. pose proof (not_bad_responded _ _ Hn) as Hr. unfold bucket_add_node.
  rewrite bool_decide_eq_false_2 by done. pose proof Hb as (Heq & Hlen & _ & _).
  destruct (position (fun m => node_eqb m n) b) as [i|] eqn:Hp.
  - right. pose proof Hp as (x & Hx & Hxn & _)%position_Some. rewrite Hx. simpl.
    apply bool_decide_eq_true in Hxn.
    destruct (bucket_rep_slot _ _ _ _ _ Hb Hp Hx) as [Hi|(-> & -> & Hlt & Hf)].
    + destruct (status_ge (status now n) (status now x)) eqn:Hge.
      * eexists _, _. split; [done|]. split; [eapply bucket_rep_insert; eauto|].
        eapply added_insert; eauto.
      * exists b, l. split_and!; [done|done|]. eapply added_same; [by eapply list_elem_of_lookup_2|done|].
        apply Nat.leb_gt in Hge. lia.
    + replace (status_ge _ _) with true by (destruct (status now n); done).
      eexists _, _. split; [done|]. split; [|apply added_snoc].
      apply bucket_rep_snoc; auto using not_in_handles.
  - apply position_None in Hp. destruct (position _ b) as [i|] eqn:Hq.
    + right. pose proof Hq as (x & Hx & Hxn & _)%position_Some. apply Nat.ltb_lt in Hxn.
      assert (Hnl : handle n ∉ handle <$> l).
      { apply not_in_handles. rewrite Heq in Hp. by apply Forall_app in Hp as [? _]. }
      destruct (bucket_rep_slot _ _ _ _ _ Hb Hq Hx) as [Hi|(-> & -> & Hlt & Hf)];
        eexists _, _; (split; [done|]).
      * split; [eapply bucket_rep_insert; eauto|]. eapply added_insert; [done|right].
        intros E. rewrite E in Hxn. destruct (status now n); simpl in Hxn; lia.
      * split; [by apply bucket_rep_snoc|apply added_snoc].
    + left. apply position_None in Hq. split_and!; [done| |].
      * apply rank_bad in Hn. destruct (decide (length l = MAX_BUCKET_SIZE)) as [|Hne]; [done|].
        rewrite Heq in Hq. apply Forall_app in Hq as [_ Hq].
        destruct (MAX_BUCKET_SIZE - length l) eqn:E; [lia|].
        apply Forall_cons in Hq as [Hq _]. apply status_lt_spec in Hq.
        rewrite default_is_bad in Hq. simpl in Hq. lia.
      * eapply Forall_impl; [done|]. intros m Hm. by apply status_lt_spec in Hm.
Qed.

(** * The table *)

(** Node [n] belongs in bucket [i] of a table with [len] buckets. *)
Definition in_place (id : ShaHash) (len i : nat) (n : Node) : Prop :=
  leading_bit_count id (node_id n) < MAX_BUCKETS /\
  bucket_placement (leading_bit_count id (node_id n)) len = i.

Definition table_ok (t : RoutingTable) : Prop :=
  length (hash (table_id t)) = SHA_HASH_LEN /\
  1 <= length (buckets t) <= MAX_BUCKETS /\
  (forall i b, buckets t !! i = Some b ->
    bucket_ok b /\ Forall (in_place (table_id t) (length (buckets t)) i) (residents b)).

Lemma count_same_le fuel b :
  count_same fuel b <= length (bits_bytes b) * 8 - bit_pos b.
Proof.
  revert b. induction fuel as [|fuel IH]; intros b; cbn [count_same]; [lia|].
  unfold bits_next. destruct (Nat.ltb_spec (bit_pos b) (length (bits_bytes b) * 8)); [|lia].
  destruct (bit_eq_xor _ _); [|lia]. etrans; [apply le_n_S, IH|]. simpl. lia.
Qed.

Lemma leading_bit_count_le id other :
  length (hash id) = SHA_HASH_LEN -> leading_bit_count id other <= MAX_BUCKETS.
Proof.
  intros H. unfold leading_bit_count. etrans; [apply count_same_le|]. simpl.
  rewrite length_zip_with, H. unfold MAX_BUCKETS. lia.
Qed.

(** The table with its buckets' residents named. *)
Definition buckets_rep (id : ShaHash) (len : nat) (bs : list (list Node)) : Prop :=
  forall i b, bs !! i = Some b ->
    exists l, bucket_rep l b /\ Forall (in_place id len i) l.

Lemma table_ok_rep t :
  table_ok t <-> length (hash (table_id t)) = SHA_HASH_LEN /\
    1 <= length (buckets t) <= MAX_BUCKETS /\
    buckets_rep (table_id t) (length (buckets t)) (buckets t).
Proof.
  unfold table_ok, buckets_rep.
  split; intros (H1 & H2 & H3); split_and!; try done; try lia; intros i b Hb.
  - exists (residents b). rewrite <- bucket_ok_rep. auto.
  - destruct (H3 i b Hb) as (l & Hl & Hp). pose proof (residents_rep _ _ Hl) as E.
    rewrite E. split; [|done]. apply bucket_ok_rep. by rewrite E.
Qed.

Lemma bucket_placement_lt k len : 1 <= len -> bucket_placement k len < len.
Proof. unfold bucket_placement. destruct (Nat.leb_spec len k); lia. Qed.

(** Splitting the last bucket moves its nodes to one of the two last buckets,
    and leaves the other placements alone. *)
Lemma in_place_grow id len i n :
  1 <= len -> i < len - 1 -> in_place id len i n -> in_place id (len + 1) i n.
Proof.
  unfold in_place, bucket_placement. intros Hl Hi [H1 H2]. split; [done|].
  next_tests; lia.
Qed.

Lemma in_place_split id len n :
  1 <= len -> in_place id len (len - 1) n ->
  in_place id (len + 1) (len - 1) n \/ in_place id (len + 1) len n.
Proof.
  unfold in_place, bucket_placement. intros Hl [H1 H2].
  next_tests; lia.
Qed.

Lemma buckets_rep_insert id len bs i b l :
  buckets_rep id len bs -> bucket_rep l b -> Forall (in_place id len i) l ->
  buckets_rep id len (<[i := b]> bs).
Proof.
  intros Hbs Hb Hl j c Hc.
  apply list_lookup_insert_Some in Hc as [(<- & <- & _)|[_ Hc]]; eauto.
Qed.

(** The table holds a node. *)
Definition holds (t : RoutingTable) (m : Node) : Prop :=
  exists i b, buckets t !! i = Some b /\ m ∈ b.

Lemma holds_set t i b b' m :
  buckets t !! i = Some b -> holds t m -> (m ∈ b -> m ∈ b') ->
  holds (set_buckets t (<[i := b']> (buckets t))) m.
Proof.
  intros Hi (j & c & Hj & Hm) Himp. destruct (decide (i = j)) as [<-|Hne].
  - exists i, b'. split; [apply list_lookup_insert_eq; by eapply lookup_lt_Some|].
    rewrite Hi in Hj. injection Hj as <-. auto.
  - exists j, c. split; [|done]. simpl. by rewrite list_lookup_insert_ne.
Qed.

(** The good nodes of [t] are in [t'], an entry of handle [h] excepted. *)
Definition good_kept (now : Z) (h : NodeHandle) (t t' : RoutingTable) : Prop :=
  forall m, holds t m -> status now m = Good -> holds t' m \/ handle m = h.

(** Node [n] has been dealt with: its bucket has an entry of its handle that is
    no worse, or the bucket cannot be split and is full of nodes no worse. *)
Definition settled (now : Z) (n : Node) (t : RoutingTable) : Prop :=
  let i := bucket_placement (leading_bit_count (table_id t) (node_id n)) (length (buckets t)) in
  exists b, buckets t !! i = Some b /\
    ((exists m, m ∈ b /\ handle m = handle n /\
        status_rank (status now n) <= status_rank (status now m)) \/
     (can_split_bucket (length (buckets t)) i = false /\
      Forall (fun m => status_rank (status now n) <= status_rank (status now m)) b)).

Lemma bucket_rep_elem l b m : bucket_rep l b -> m ∈ b -> m ∈ l \/ m = default_node.
Proof.
  intros (-> & _) [?|[? _]%elem_of_replicate]%elem_of_app; auto.
Qed.

Lemma bucket_rep_in l b m : bucket_rep l b -> m ∈ l -> m ∈ b.
Proof. intros (-> & _) ?. apply elem_of_app. by left. Qed.

(** The update of the bucket of the node's placement. *)
Lemma table_set_ok now t i b l b' l' n :
  table_ok t -> buckets t !! i = Some b -> bucket_rep l b ->
  Forall (in_place (table_id t) (length (buckets t)) i) l ->
  in_place (table_id t) (length (buckets t)) i n ->
  bucket_rep l' b' -> bucket_added now n l l' ->
  let t' := set_buckets t (<[i := b']> (buckets t)) in
  table_ok t' /\ good_kept now (handle n) t t' /\ settled now n t'.
Proof.
  intros (H1 & H2 & H3)%table_ok_rep Hi Hl Hp Hn Hl' (_ & (m & Hm & Hmn & Hrank) & Hk & Hin) t'.
  assert (Hlt := lookup_lt_Some _ _ _ Hi). split_and!.
  - apply table_ok_rep. unfold t'. simpl. rewrite length_insert. split_and!; [done|lia|lia|].
    eapply buckets_rep_insert; [done..|]. apply Forall_forall. intros x Hx.
    rewrite Forall_forall in Hp. destruct (Hin x Hx) as [->|]; auto.
  - intros x Hx Hg. destruct (decide (handle x = handle n)); [by right|left].
    eapply holds_set; [done..|]. intros Hxb. eapply bucket_rep_in; [done|].
    destruct (bucket_rep_elem _ _ _ Hl Hxb) as [Hxl| ->]; [|done]. by destruct (Hk x Hxl).
  - destruct Hn as [_ Hn]. unfold settled, t'. simpl. rewrite length_insert, Hn.
    exists b'. split; [by apply list_lookup_insert_eq|]. left. exists m.
    split; [by eapply bucket_rep_in|done].
Qed.

(** ** Splitting *)

Lemma add_node_to_bucket {E} now fuel t n :
  status now n <> Bad -> leading_bit_count (table_id t) (node_id n) < MAX_BUCKETS ->
  @add_node_f E (S fuel) now t n
  = bucket_node_f fuel now t n (leading_bit_count (table_id t) (node_id n)).
Proof.
  intros Hn Hl. cbn [add_node_f]. rewrite bool_decide_eq_false_2 by done.
  destruct (Nat.eqb_spec (leading_bit_count (table_id t) (node_id n)) MAX_BUCKETS); [lia|done].
Qed.

Section Split.
Context {E : Type} (now : Z) (id : ShaHash) (pre : list (list Node)).

Let len := length pre + 1.
Let table (b1 b2 : list Node) : RoutingTable :=
  {| buckets := pre ++ [b1; b2]; table_id := id |}.

(** After the nodes [p] of the split bucket have been added again. *)
Definition split_inv (p b1 b2 : list Node) : Prop :=
  exists l1 l2, bucket_rep l1 b1 /\ bucket_rep l2 b2 /\
    Forall (in_place id (len + 1) (len - 1)) l1 /\ Forall (in_place id (len + 1) len) l2 /\
    length l1 + length l2 <= length p /\
    (forall m, m ∈ l1 \/ m ∈ l2 -> m ∈ p) /\
    (forall m, m ∈ p -> status now m = Good -> m ∈ l1 \/ m ∈ l2).

Lemma split_inv_bad p b1 b2 n :
  status now n = Bad -> split_inv p b1 b2 -> split_inv (p ++ [n]) b1 b2.
Proof.
  intros Hn (l1 & l2 & H1 & H2 & H3 & H4 & H5 & H6 & H7).
  exists l1, l2. split_and!; try done.
  - rewrite length_app. lia.
  - intros m Hm. apply elem_of_app. left. auto.
  - intros m [Hm| ->%list_elem_of_singleton]%elem_of_app Hg; [auto|congruence].
Qed.

(** The bucket a node goes to has a free slot, since at most seven nodes were
    added before it. *)
Lemma added_has_room l b n :
  bucket_rep l b -> status now n <> Bad -> length l < MAX_BUCKET_SIZE ->
  handle n ∉ handle <$> l ->
  exists b' l', bucket_add_node now b n = (true, b') /\ bucket_rep l' b' /\
    length l' <= length l + 1 /\ (forall m, m ∈ l' -> m = n \/ m ∈ l) /\ n ∈ l' /\
    (forall m, m ∈ l -> status now m = Good -> m ∈ l').
Proof.
  intros Hb Hn Hl Hh. destruct (bucket_add_node_ok now l b n Hb Hn)
    as [(_ & ? & _)|(b' & l' & Ha & Hr & H1 & (m & Hm & Hmn & _) & H3 & H4)]; [lia|].
  assert (Hno : forall x, x ∈ l -> handle x <> handle n).
  { intros x Hx Hxn. apply Hh. apply list_elem_of_fmap. by exists x. }
  exists b', l'. split_and!; try done.
  - destruct (H4 m Hm) as [->|Hml]; [done|]. by destruct (Hno m Hml).
  - intros x Hx Hg. destruct (H3 x Hx Hg) as [|Hxn]; [done|]. by destruct (Hno x Hx).
Qed.

Lemma bucket_node_at fuel i b b' n :
  (pre ++ b) !! i = Some b' ->
  bucket_placement (leading_bit_count id (node_id n)) (length (pre ++ b)) = i ->
  forall c, bucket_add_node now b' n = (true, c) ->
  @bucket_node_f E (S fuel) now {| buckets := pre ++ b; table_id := id |} n
    (leading_bit_count id (node_id n))
  = Ok {| buckets := <[i := c]> (pre ++ b); table_id := id |}.
Proof.
  intros Hi Hp c Hc. cbn [bucket_node_f buckets]. rewrite Hp.
  rewrite (index_Some _ _ _ Hi). cbn [mbind outcome_bind]. rewrite Hc. done.
Qed.

Lemma put_elems (l l' k p : list Node) n :
  (forall m, m ∈ l' -> m = n \/ m ∈ l) -> n ∈ l' ->
  (forall m, m ∈ l -> status now m = Good -> m ∈ l') ->
  (forall m, m ∈ l \/ m ∈ k -> m ∈ p) ->
  (forall m, m ∈ p -> status now m = Good -> m ∈ l \/ m ∈ k) ->
  (forall m, m ∈ l' \/ m ∈ k -> m ∈ p ++ [n]) /\
  (forall m, m ∈ p ++ [n] -> status now m = Good -> m ∈ l' \/ m ∈ k).
Proof.
  intros Hin Hn Hg H6 H7. split; intros m.
  - rewrite elem_of_app, list_elem_of_singleton. naive_solver.
  - intros [Hm| ->%list_elem_of_singleton]%elem_of_app Hgm; [|by left].
    destruct (H7 m Hm Hgm); auto.
Qed.

Lemma put_place (l l' : list Node) n i :
  (forall m, m ∈ l' -> m = n \/ m ∈ l) -> in_place id (len + 1) i n ->
  Forall (in_place id (len + 1) i) l -> Forall (in_place id (len + 1) i) l'.
Proof.
  intros Hin Hn Hl. apply Forall_forall. intros x Hx. rewrite Forall_forall in Hl.
  destruct (Hin x Hx) as [->|]; auto.
Qed.

Lemma readd_one fuel p b1 b2 n :
  split_inv p b1 b2 -> length p < MAX_BUCKET_SIZE ->
  in_place id len (len - 1) n -> handle n ∉ handle <$> p ->
  exists b1' b2', @add_node_f E (S (S fuel)) now (table b1 b2) n = Ok (table b1' b2') /\
    split_inv (p ++ [n]) b1' b2'.
Proof.
  intros Hinv Hp Hn Hh. destruct (decide (status now n = Bad)) as [Hb|Hb].
  { exists b1, b2. split; [|by apply split_inv_bad].
    cbn [add_node_f]. by rewrite bool_decide_eq_true_2. }
  pose proof Hinv as (l1 & l2 & H1 & H2 & H3 & H4 & H5 & H6 & H7).
  assert (Hsub : forall l : list Node, (forall m, m ∈ l -> m ∈ p) -> handle n ∉ handle <$> l).
  { intros l Hl (x & Hx & Hxl)%list_elem_of_fmap. apply Hh. apply list_elem_of_fmap. eauto. }
  rewrite add_node_to_bucket by (done || by destruct Hn).
  assert (Hlen : forall b, length (pre ++ [b; b2]) = len + 1)
    by (intros; rewrite length_app; simpl; unfold len; lia).
  destruct (in_place_split _ len _ ltac:(unfold len; lia) Hn) as [Hq|Hq].
  - destruct (added_has_room l1 b1 n) as (c & l' & Hc & Hr & Hl' & Hin & Hnl & Hg);
      [done|done|lia|apply Hsub; auto|].
    exists c, b2. split.
    + rewrite (bucket_node_at _ (length pre) [b1; b2] b1 n) with (c := c);
        [|by apply list_lookup_middle| |done].
      * unfold table. by rewrite insert_app_r_alt, Nat.sub_diag by done.
      * rewrite Hlen. destruct Hq as [_ ->]. unfold len. lia.
    + destruct (put_elems l1 l' l2 p n) as [Ha Hz]; auto.
      exists l', l2. split_and!; eauto using put_place. rewrite length_app. simpl. lia.
  - destruct (added_has_room l2 b2 n) as (c & l' & Hc & Hr & Hl' & Hin & Hnl & Hg);
      [done|done|lia|apply Hsub; auto|].
    exists b1, c. split.
    + rewrite (bucket_node_at _ (length pre + 1) [b1; b2] b2 n) with (c := c); [| | |done].
      * unfold table. by rewrite insert_app_r.
      * by rewrite lookup_app_r, Nat.add_comm, Nat.add_sub by lia.
      * rewrite Hlen. by destruct Hq as [_ ->].
    + destruct (put_elems l2 l' l1 p n) as [Ha Hz]; auto; [naive_solver..|].
      exists l1, l'. split_and!; eauto using put_place; [|naive_solver..].
      rewrite length_app. simpl. lia.
Qed.

Lemma readd_all fuel l p b1 b2 :
  split_inv p b1 b2 -> length (p ++ l) <= MAX_BUCKET_SIZE ->
  Forall (in_place id len (len - 1)) l -> NoDup (handle <$> p ++ l) ->
  exists b1' b2',
    fold_left (fun acc n => t ← acc; add_node_f (S (S fuel)) now t n) l (Ok (table b1 b2))
    = @Ok E _ (table b1' b2') /\ split_inv (p ++ l) b1' b2'.
Proof.
  revert p b1 b2. induction l as [|n l IH]; intros p b1 b2 Hinv Hlen Hpl Hnd.
  - exists b1, b2. by rewrite app_nil_r.
  - apply Forall_cons in Hpl as [Hn Hpl]. rewrite length_app in Hlen. simpl in Hlen.
    rewrite (cons_middle n p l), app_assoc in Hnd.
    destruct (readd_one fuel p b1 b2 n) as (c1 & c2 & Heq & Hinv'); [done|lia|done| |].
    { rewrite !fmap_app in Hnd. apply NoDup_app in Hnd as [Hnd _].
      apply NoDup_app in Hnd as (_ & Hnd & _). intros Hin. apply (Hnd _ Hin).
      by apply list_elem_of_singleton. }
    destruct (IH (p ++ [n]) c1 c2) as (d1 & d2 & Heq' & Hinv''); [done| |done|done|].
    { rewrite !length_app. simpl. lia. }
    exists d1, d2. rewrite (cons_middle n p l), app_assoc. split; [|done].
    cbn [fold_left mbind outcome_bind]. by rewrite Heq.
Qed.

Lemma readd_defaults fuel k t :
  fold_left (fun acc n => t ← acc; add_node_f (S fuel) now t n)
    (replicate k default_node) (Ok t) = @Ok E _ t.
Proof. induction k as [|k IH]; [done|]. simpl. apply IH. Qed.
End Split.

(** [split_bucket] on the last bucket: one more bucket, every good node kept. *)
Lemma split_bucket_ok {E} fuel now t :
  table_ok t -> length (buckets t) < MAX_BUCKETS ->
  exists t', @split_bucket_f E (S (S (S fuel))) now t (length (buckets t) - 1) = Ok (true, t') /\
    table_ok t' /\ table_id t' = table_id t /\ length (buckets t') = length (buckets t) + 1 /\
    (forall m, holds t m -> status now m = Good -> holds t' m).
Proof.
  intros (Hid & Hlen & Hbs)%table_ok_rep Hlt. destruct t as [bs id]. cbn [buckets table_id] in *.
  destruct (last bs) as [b|] eqn:Hlast; [|apply last_None in Hlast; subst; simpl in *; lia].
  apply last_Some in Hlast as [pre ->]. rewrite length_app in *. cbn [length] in *.
  destruct (Hbs (length pre) b) as (l & Hl & Hpl); [by apply list_lookup_middle|].
  pose proof Hl as (Hb & Hll & Hnd & _).
  destruct (@readd_all E now id pre fuel l [] bucket_new bucket_new)
    as (c1 & c2 & Hfold & l1 & l2 & H1 & H2 & H3 & H4 & _ & _ & Hgood); [|done| |done|].
  { exists [], []. split_and!; auto using bucket_rep_nil.
    - intros m [Hm|Hm]; by apply elem_of_nil in Hm. }
  { by rewrite Nat.add_sub. }
  rewrite Nat.add_sub in *.
  exists {| buckets := pre ++ [c1; c2]; table_id := id |}. split_and!.
  - cbn [split_bucket_f buckets]. rewrite last_snoc, length_app. cbn [length].
    unfold can_split_bucket. rewrite Nat.add_sub, Nat.eqb_refl.
    destruct (Nat.eqb_spec (length pre) (MAX_BUCKETS - 1)); [lia|]. cbn [andb negb].
    rewrite take_app_length. unfold set_buckets. cbn [table_id].
    rewrite Hb, fold_left_app, Hfold, readd_defaults. done.
  - apply table_ok_rep. cbn [buckets table_id]. rewrite length_app. cbn [length].
    split_and!; [done|lia|lia|]. intros i c Hc.
    replace (length pre + 2) with (length pre + 1 + 1) by lia.
    apply lookup_app_Some in Hc as [Hc|[Hge Hc]].
    + pose proof (lookup_lt_Some _ _ _ Hc). destruct (Hbs i c) as (k & Hk & Hpk).
      { by apply lookup_app_l_Some. }
      exists k. split; [done|]. eapply Forall_impl; [done|]. intros n. apply in_place_grow; lia.
    + destruct (i - length pre) as [|[|]] eqn:Ei; simplify_eq/=.
      * exists l1. split; [done|]. by replace i with (length pre) by lia.
      * exists l2. split; [done|]. by replace i with (length pre + 1) by lia.
  - done.
  - cbn [buckets]. rewrite !length_app. simpl. lia.
  - intros m (i & c & Hi & Hm) Hg. apply lookup_app_Some in Hi as [Hi|[Hge Hi]].
    + exists i, c. split; [|done]. by apply lookup_app_l_Some.
    + apply list_lookup_singleton_Some in Hi as [Hi <-].
      destruct (bucket_rep_elem _ _ _ Hl Hm) as [Hml| ->]; [|done].
      destruct (Hgood m Hml Hg) as [Hin|Hin].
      * exists (length pre), c1. split; [by apply list_lookup_middle|by eapply bucket_rep_in].
      * exists (length pre + 1), c2. split; [|by eapply bucket_rep_in].
        cbn [buckets]. by rewrite lookup_app_r, Nat.add_comm, Nat.add_sub by lia.
Qed.

Lemma split_bucket_refused {E} fuel now t i :
  can_split_bucket (length (buckets t)) i = false ->
  @split_bucket_f E (S fuel) now t i = Ok (false, t).
Proof. intros H. cbn [split_bucket_f]. by rewrite H. Qed.

Lemma set_buckets_same t i b : buckets t !! i = Some b ->
  set_buckets t (<[i := b]> (buckets t)) = t.
Proof. intros H. unfold set_buckets. rewrite list_insert_id by done. by destruct t. Qed.

Lemma good_kept_after now h t t' t'' :
  (forall m, holds t m -> status now m = Good -> holds t' m) ->
  good_kept now h t' t'' -> good_kept now h t t''.
Proof. unfold good_kept. naive_solver. Qed.

(** [bucket_node]: one split per missing bucket at most. *)
Lemma bucket_node_ok {E} fuel now t n :
  table_ok t -> status now n <> Bad ->
  leading_bit_count (table_id t) (node_id n) < MAX_BUCKETS ->
  MAX_BUCKETS - length (buckets t) + 4 <= fuel ->
  exists t', @bucket_node_f E fuel now t n (leading_bit_count (table_id t) (node_id n)) = Ok t' /\
    table_ok t' /\ table_id t' = table_id t /\
    good_kept now (handle n) t t' /\ settled now n t'.
Proof.
  revert t. induction fuel as [|fuel IH]; intros t Ht Hn Hbits Hf; [lia|].
  pose proof Ht as (Hid & Hlen & Hbs)%table_ok_rep.
  set (i := bucket_placement (leading_bit_count (table_id t) (node_id n)) (length (buckets t))).
  assert (Hi : i < length (buckets t)) by (apply bucket_placement_lt; lia).
  destruct (lookup_lt_is_Some_2 _ _ Hi) as [b Hb]. destruct (Hbs i b Hb) as (l & Hl & Hpl).
  cbn [bucket_node_f]. fold i. rewrite (index_Some _ _ _ Hb). cbn [mbind outcome_bind].
  destruct (bucket_add_node_ok now l b n Hl Hn) as [(Hadd & Hfull & Hge)|(b' & l' & Hadd & Hr & Hst)];
    rewrite Hadd; cbn [negb].
  - rewrite (set_buckets_same _ _ _ Hb).
    destruct (can_split_bucket (length (buckets t)) i) eqn:Hcs.
    + apply andb_true_iff in Hcs as [Hlast%Nat.eqb_eq Hmax%negb_true_iff%Nat.eqb_neq].
      destruct fuel as [|[|[|fuel]]]; [lia..|]. rewrite Hlast.
      destruct (@split_bucket_ok E fuel now t Ht) as (t' & -> & Ht' & Hid' & Hlen' & Hg); [lia|].
      cbn [mbind outcome_bind]. rewrite <- Hid' in Hbits |- *.
      destruct (IH t') as (t'' & -> & Ht'' & Hid'' & Hg'' & Hset); [done|done|done|lia|].
      exists t''. split_and!; [done|done|congruence| |done]. by eapply good_kept_after.
    + destruct fuel as [|fuel]; [lia|]. rewrite (split_bucket_refused fuel now t i Hcs).
      cbn [mbind outcome_bind]. exists t. split_and!; [done..|by intros m; left|].
      exists b. split; [done|]. right. done.
  - eexists. split; [done|]. split_and!.
    all: destruct (table_set_ok now t i b l b' l' n) as (? & ? & ?); done.
Qed.

Lemma add_node_ok {E} now t n :
  table_ok t ->
  exists t', @table_add_node E now t n = Ok t' /\ table_ok t' /\ table_id t' = table_id t /\
    good_kept now (handle n) t t' /\
    (status now n = Bad \/ leading_bit_count (table_id t) (node_id n) = MAX_BUCKETS \/
     settled now n t').
Proof.
  intros Ht. unfold table_add_node, add_node_fuel.
  assert (Hsame : good_kept now (handle n) t t) by (by intros m; left).
  pose proof (leading_bit_count_le (table_id t) (node_id n) (proj1 Ht)).
  destruct (decide (status now n = Bad)) as [Hb|Hb].
  { exists t. split; [|by eauto 10]. rewrite Nat.add_comm. cbn [Nat.add add_node_f].
    by rewrite bool_decide_eq_true_2. }
  destruct (decide (leading_bit_count (table_id t) (node_id n) = MAX_BUCKETS)) as [He|He].
  { exists t. split; [|by eauto 10]. rewrite Nat.add_comm. cbn [Nat.add add_node_f].
    rewrite bool_decide_eq_false_2 by done. by rewrite He, Nat.eqb_refl. }
  rewrite Nat.add_comm. cbn [Nat.add].
  rewrite add_node_to_bucket by (done || lia).
  destruct (@bucket_node_ok E (S (S (3 * MAX_BUCKETS))) now t n)
    as (t' & ? & ? & ? & ? & ?); [done|done|lia|lia|]. exists t'. eauto 10.
Qed.

(** ** The operations of the worker on the table *)

(** What [find_node_mut]'s callers do with the node found. *)
Inductive Touch : Type := TLocalRequest | TRemoteRequest | TRemoteResponse.

Definition touch (k : Touch) : Z -> Node -> Node :=
  match k with
  | TLocalRequest => local_request
  | TRemoteRequest => remote_request
  | TRemoteResponse => remote_response
  end.

Inductive table_step : RoutingTable -> RoutingTable -> Prop :=
  | step_add now n t t' :
      @table_add_node unit now t n = Ok t' -> table_step t t'
  | step_touch now h t i slot k now' :
      @find_node_mut unit now t h = Ok (Some (i, slot)) ->
      table_step t (update_at t i slot (touch k now')).

Lemma touch_handle k now n : handle (touch k now n) = handle n.
Proof. destruct k; simpl; [unfold local_request; case_bool_decide|..]; done. Qed.

Lemma touch_responded k now n :
  last_response n <> None -> last_response (touch k now n) <> None.
Proof. destruct k; simpl; [unfold local_request; case_bool_decide|..]; done. Qed.

Lemma pingable_responded now n : is_pingable now n = true -> last_response n <> None.
Proof.
  unfold is_pingable. intros H. apply (not_bad_responded now). by destruct (status now n).
Qed.

Lemma bucket_rep_alter l b slot n k now :
  bucket_rep l b -> b !! slot = Some n -> last_response n <> None ->
  bucket_rep (alter (touch k now) slot l) (alter (touch k now) slot b) /\
  (forall P : Node -> Prop, (forall x y, handle x = handle y -> P x -> P y) ->
    Forall P l -> Forall P (alter (touch k now) slot l)).
Proof.
  intros Hl Hs Hr.
  assert (Hi : l !! slot = Some n).
  { destruct Hl as (-> & _). apply lookup_app_Some in Hs as [|[_ Hs]]; [done|].
    by apply lookup_replicate in Hs as [-> _]. }
  assert (Ha : forall c : list Node, c !! slot = Some n ->
    alter (touch k now) slot c = <[slot := touch k now n]> c).
  { intros c Hc. apply list_eq. intros j. destruct (decide (slot = j)) as [<-|].
    - rewrite list_lookup_alter_eq, Hc, list_lookup_insert_eq; [done|]. by eapply lookup_lt_Some.
    - by rewrite list_lookup_alter_ne, list_lookup_insert_ne. }
  rewrite !Ha by done. split.
  - eapply bucket_rep_insert; eauto using touch_responded. left. by rewrite touch_handle.
  - intros P HP HF. apply Forall_insert; [done|]. rewrite Forall_lookup in HF.
    eapply HP; [|by eapply HF]. by rewrite touch_handle.
Qed.

Lemma find_node_mut_total {E} now t h :
  table_ok t -> exists r, @find_node_mut E now t h = Ok r /\
    (forall i slot, r = Some (i, slot) -> exists b n, buckets t !! i = Some b /\
      b !! slot = Some n /\ is_pingable now n = true /\ handle n = h).
Proof.
  intros (_ & Hlen & _). unfold find_node_mut, bucket_index_for_node.
  set (k := leading_bit_count _ _).
  assert (Hi : exists i, i < length (buckets t) /\
    (if k <? length (buckets t) then Ok k
     else if length (buckets t) =? 0 then Panic else Ok (length (buckets t) - 1)) = @Ok E _ i).
  { destruct (Nat.ltb_spec k (length (buckets t))); [by exists k|].
    destruct (Nat.eqb_spec (length (buckets t)) 0); [lia|].
    exists (length (buckets t) - 1). split; [lia|done]. }
  destruct Hi as (i & Hi & ->). cbn [mbind outcome_bind].
  destruct (lookup_lt_is_Some_2 _ _ Hi) as [b Hb]. rewrite Hb.
  destruct (position _ b) as [slot|] eqn:Hp.
  - eexists. split; [done|]. intros ? ? [= <- <-].
    apply position_Some in Hp as (n & Hn & [Hping Hh%bool_decide_eq_true]%andb_true_iff & _).
    by exists b, n.
  - eexists. split; [done|]. by intros.
Qed.

(** Updating a responding node in place keeps the table well-formed. *)
Lemma update_at_ok t i slot b n k now :
  table_ok t -> buckets t !! i = Some b -> b !! slot = Some n -> last_response n <> None ->
  table_ok (update_at t i slot (touch k now)).
Proof.
  intros Ht Hi Hs Hp. apply table_ok_rep in Ht as (H1 & H2 & H3). apply table_ok_rep.
  unfold update_at. simpl. rewrite length_alter. split_and!; [done|lia|lia|].
  intros j c Hc. destruct (decide (i = j)) as [<-|Hne].
  - rewrite list_lookup_alter_eq, Hi in Hc. injection Hc as <-.
    destruct (H3 i b Hi) as (l & Hl & Hpl).
    destruct (bucket_rep_alter l b slot n k now Hl Hs Hp) as [Hl' HP].
    eexists. split; [done|]. apply HP; [|done].
    intros x y E. unfold in_place, node_id. by rewrite E.
  - rewrite list_lookup_alter_ne in Hc by done. eauto.
Qed.

Lemma table_step_ok t t' : table_step t t' -> table_ok t -> table_ok t'.
Proof.
  intros [now n t1 t2 Ha|now h t1 i slot k now' Hf] Ht.
  - destruct (@add_node_ok unit now t1 n Ht) as (t3 & Ha' & Ht3 & _). congruence.
  - destruct (@find_node_mut_total unit now t1 h Ht) as (r & Hr & Hb). rewrite Hf in Hr.
    injection Hr as <-. destruct (Hb i slot eq_refl) as (b & n & Hi & Hs & Hp%pingable_responded & _).
    by apply (update_at_ok t1 i slot b n).
Qed.

Lemma table_new_ok id : length (hash id) = SHA_HASH_LEN -> table_ok (table_new id).
Proof.
  intros H. apply table_ok_rep. simpl. split_and!; [done|lia|unfold MAX_BUCKETS, SHA_HASH_LEN; lia|].
  intros i b Hb. apply list_lookup_singleton_Some in Hb as [-> <-].
  exists []. split; [apply bucket_rep_nil|constructor].
Qed.

Lemma reachable_ok id t :
  length (hash id) = SHA_HASH_LEN -> rtc table_step (table_new id) t -> table_ok t.
Proof.
  intros Hid Hr. apply table_new_ok in Hid. revert Hid.
  induction Hr; eauto using table_step_ok.
Qed.

(** ** A property of all nodes

    What holds of a new node, and of the placeholder of an empty slot, holds of
    all nodes of the table after the node was added. *)
Definition table_all (P : Node -> Prop) (t : RoutingTable) : Prop := Forall (Forall P) (buckets t).

Section TableAll.
Context {E : Type} (P : Node -> Prop) (now : Z) (HP : P default_node).

Lemma bucket_add_all b n : P n -> Forall P b -> Forall P (bucket_add_node now b n).2.
Proof.
  intros Hn Hb. unfold bucket_add_node.
  repeat case_match; simpl; auto using Forall_insert.
Qed.

Lemma fold_add_all (add : RoutingTable -> Node -> outcome E RoutingTable) ns t t' :
  (forall n t t', P n -> table_all P t -> add t n = Ok t' -> table_all P t') ->
  Forall P ns -> table_all P t ->
  fold_left (fun acc n => t ← acc; add t n) ns (Ok t) = Ok t' -> table_all P t'.
Proof.
  intros Hadd. revert t. induction ns as [|n ns IH]; intros t Hns Ht; simpl; [by intros [= <-]|].
  inversion Hns; subst. destruct (add t n) as [t1|e| |] eqn:Ha; simpl;
    [intros H; eapply IH; [done| |exact H]; eauto|..];
    intros H; exfalso; clear - H; induction ns; simpl in H; auto; discriminate.
Qed.

Lemma add_node_all_f fuel :
  (forall t n t', P n -> table_all P t -> @add_node_f E fuel now t n = Ok t' -> table_all P t') /\
  (forall t n k t', P n -> table_all P t -> @bucket_node_f E fuel now t n k = Ok t' -> table_all P t') /\
  (forall t i b t', table_all P t -> @split_bucket_f E fuel now t i = Ok (b, t') -> table_all P t').
Proof.
  induction fuel as [|fuel (IH1 & IH2 & IH3)]; [done|]. split_and!.
  - intros t n t' Hn Ht. cbn [add_node_f]. repeat case_match; try (by intros [= <-]). by eauto.
  - intros t n k t' Hn Ht. cbn [bucket_node_f]. set (i := bucket_placement _ _).
    unfold index. destruct (buckets t !! i) as [b|] eqn:Hb; [|done]. simpl.
    pose proof (bucket_add_all b n Hn (Forall_lookup_1 _ _ _ _ Ht Hb)) as Hadd.
    destruct (bucket_add_node now b n) as [added b']. simpl in Hadd.
    assert (Ht1 : table_all P (set_buckets t (<[i := b']> (buckets t)))) by (by apply Forall_insert).
    destruct added; simpl; [by intros [= <-]|].
    destruct (split_bucket_f _ _ _ _) as [[[] t2]|e| |] eqn:Hs; try done; simpl; apply IH3 in Hs; auto.
    + intros H. eauto.
    + by intros [= <-].
  - intros t i b t' Ht. cbn [split_bucket_f]. destruct (negb _); [by intros [= _ <-]|].
    destruct (last (buckets t)) as [sb|] eqn:Hl; [|done].
    destruct (fold_left _ _ _) as [t1|e| |] eqn:Hf; try done. intros [= _ <-].
    eapply fold_add_all in Hf; [done|by eauto| |].
    + apply last_Some_elem_of in Hl. unfold table_all in Ht. rewrite Forall_forall in Ht. by apply Ht.
    + apply Forall_app. split; [by apply Forall_take|].
      rewrite Forall_cons, Forall_singleton. split; by apply Forall_replicate.
Qed.

Lemma add_node_all t n t' :
  P n -> table_all P t -> @table_add_node E now t n = Ok t' -> table_all P t'.
Proof. apply add_node_all_f. Qed.
End TableAll.

Lemma update_at_all (P : Node -> Prop) t i slot k now :
  (forall n, P n -> P (touch k now n)) -> table_all P t -> table_all P (update_at t i slot (touch k now)).
Proof. intros HP Ht. apply Forall_alter; [done|]. intros b Hb Hbb. apply Forall_alter; auto. Qed.
