(* ===== verification/RoutingClosest.v ===== *)
(** RoutingClosest: the closest-nodes iterator of the routing table yields
    every pingable node of the table exactly once, nearest buckets first. *)

From stdpp Require Import base list relations.
From Stdlib Require Import ZArith Lia.
From S2P Require Import Prelude Convert ShaHash Routing RoutingCorrect.

(** The assorted nodes still to be handed out at bucket index [i]. *)
Definition pending (now : Z) (i : nat) (tups : list (nat * Node * bool)) : list Node :=
  (fun tup => tup.1.2) <$> filter (fun tup => assorted_candidate now i tup = true) tups.

Definition assorted_list (a : option (list (nat * Node * bool))) : list (nat * Node * bool) :=
  default [] a.

(** What the iterator yields when it reaches index [j]. *)
Definition yields_at (now : Z) (bs : list (list Node)) (a : list (nat * Node * bool)) (j : nat)
    : list Node := default [] (bucket_iterator now bs j) ++ pending now j a.

(** All the iterator has left, when [rest] are the indices it will move to. *)
Definition remaining (now : Z) (it : ClosestNodes) (rest : list nat) : list Node :=
  default [] (current_iter it) ++
  pending now (current_index it) (assorted_list (assorted_nodes it)) ++
  (rest ≫= yields_at now (cn_buckets it) (assorted_list (assorted_nodes it))).

Lemma bind_ext {A B} (f g : A -> list B) (l : list A) :
  (forall x, x ∈ l -> f x = g x) -> l ≫= f = l ≫= g.
Proof.
  induction l as [|x l IH]; intros H; [done|]. cbn [mbind list_bind].
  rewrite H, IH; [done| |by left]. intros y Hy. apply H. by right.
Qed.

Lemma bind_nil {A B} (l : list A) : (l ≫= fun _ => []) = ([] : list B).
Proof. induction l; [done|]. done. Qed.

Lemma bind_map {A B C} (f : A -> B) (g : B -> list C) (l : list A) :
  (f <$> l) ≫= g = l ≫= fun x => g (f x).
Proof. induction l as [|x l IH]; [done|]. cbn. by rewrite IH. Qed.

Lemma bind_app_fun {A B} (f g : A -> list B) (l : list A) :
  l ≫= (fun x => f x ++ g x) ≡ₚ (l ≫= f) ++ (l ≫= g).
Proof.
  induction l as [|x l IH]; [done|]. cbn [mbind list_bind]. rewrite IH, <- !app_assoc.
  apply Permutation_app_head. by rewrite !app_assoc, (Permutation_app_comm (g x)).
Qed.

(** ** Handing out an assorted node *)

Lemma mark_not_candidate now i tup : assorted_candidate now i (mark_returned tup) = false.
Proof. destruct tup as [[k n] r]. simpl. by rewrite !andb_false_r. Qed.

Lemma pending_first now i tups slot tup :
  position (assorted_candidate now i) tups = Some slot -> tups !! slot = Some tup ->
  pending now i tups = tup.1.2 :: pending now i (<[slot := mark_returned tup]> tups).
Proof.
  intros (x & Hx & Hc & Hf)%position_Some Ht. rewrite Ht in Hx. injection Hx as <-.
  rewrite insert_take_drop by (by eapply lookup_lt_Some).
  rewrite <- (take_drop_middle tups slot tup Ht) at 1. unfold pending.
  rewrite !filter_app, !fmap_app, filter_cons_True, filter_cons_False by
    (done || by rewrite mark_not_candidate).
  rewrite (filter_none _ (take slot tups)); [done|].
  eapply Forall_impl; [done|]. simpl. congruence.
Qed.

Lemma pending_other now i j tups slot tup :
  i <> j -> position (assorted_candidate now i) tups = Some slot -> tups !! slot = Some tup ->
  pending now j (<[slot := mark_returned tup]> tups) = pending now j tups.
Proof.
  intros Hne (x & Hx & Hc & _)%position_Some Ht. rewrite Ht in Hx. injection Hx as <-.
  rewrite insert_take_drop by (by eapply lookup_lt_Some).
  rewrite <- (take_drop_middle tups slot tup Ht) at 3. unfold pending.
  assert (Hj : assorted_candidate now j tup = false).
  { destruct tup as [[k n] r]. simpl in *. apply andb_true_iff in Hc as [_ [Hk _]%andb_true_iff].
    apply Nat.eqb_eq in Hk as ->. destruct (Nat.eqb_spec i j); [done|]. by rewrite andb_false_r. }
  rewrite !filter_app, !filter_cons_False; [done|..]; rewrite ?mark_not_candidate, ?Hj; done.
Qed.

Lemma pending_none now i tups :
  position (assorted_candidate now i) tups = None -> pending now i tups = [].
Proof.
  intros H%position_None. unfold pending. rewrite filter_none; [done|].
  eapply Forall_impl; [done|]. simpl. congruence.
Qed.

(** ** One call of [next] *)

Lemma visit_order_tail fuel n s i rest j :
  visit_order fuel n s i = Some (i :: rest) -> next_bucket_index n s i = Some j ->
  exists fuel' rest', rest = j :: rest' /\ visit_order fuel' n s j = Some rest.
Proof.
  destruct fuel as [|fuel]; [done|]. cbn [visit_order]. intros H Hn. rewrite Hn in H.
  apply fmap_Some in H as (l & Hl & [= ->]). destruct fuel as [|f]; [done|].
  pose proof Hl as Hl'. cbn [visit_order] in Hl'. exists (S f).
  destruct (next_bucket_index n s j); [apply fmap_Some in Hl' as (? & _ & ->)|injection Hl' as <-]; eauto.
Qed.

Lemma visit_order_last fuel n s i rest :
  visit_order fuel n s i = Some (i :: rest) -> next_bucket_index n s i = None -> rest = [].
Proof.
  destruct fuel as [|fuel]; [done|]. cbn [visit_order]. intros H Hn. rewrite Hn in H.
  by injection H.
Qed.

(** The iterator is on its way: [rest] is what [next_bucket_index] leads to. *)
Definition on_way (it : ClosestNodes) (rest : list nat) : Prop :=
  NoDup (current_index it :: rest) /\
  exists fuel, visit_order fuel MAX_BUCKETS (start_index it) (current_index it)
    = Some (current_index it :: rest).

Definition moved (now : Z) (it : ClosestNodes) (j : nat) : ClosestNodes := {|
  cn_buckets := cn_buckets it; current_iter := bucket_iterator now (cn_buckets it) j;
  current_index := j; start_index := start_index it; assorted_nodes := assorted_nodes it |}.

Definition handed_out (it : ClosestNodes) (slot : nat) (tup : nat * Node * bool)
    : ClosestNodes := {|
  cn_buckets := cn_buckets it; current_iter := current_iter it;
  current_index := current_index it; start_index := start_index it;
  assorted_nodes := Some (<[slot := mark_returned tup]> (assorted_list (assorted_nodes it))) |}.

(** [next] once the current bucket is exhausted. *)
Lemma closest_next_exhausted {E} fuel now it :
  default [] (current_iter it) = [] ->
  @closest_next E (S fuel) now it =
  match position (assorted_candidate now (current_index it))
          (assorted_list (assorted_nodes it)) with
  | Some slot =>
      match assorted_list (assorted_nodes it) !! slot with
      | Some tup => Ok (Some tup.1.2, handed_out it slot tup)
      | None => Ok (None, it)
      end
  | None =>
      match next_bucket_index MAX_BUCKETS (start_index it) (current_index it) with
      | Some j => closest_next fuel now (moved now it j)
      | None => Ok (None, it)
      end
  end.
Proof.
  intros Hc. destruct it as [bs cur i s a]. cbn in Hc. cbn [closest_next current_iter assorted_nodes
    current_index start_index cn_buckets].
  assert (Hm : forall A (x : Node -> list Node -> A) y,
    match cur with Some (n :: r) => x n r | _ => y end = y).
  { intros. destruct cur as [[|]|]; done. }
  rewrite Hm. destruct a as [l|]; [|done]. cbn [assorted_list default from_option id].
  cbn [mbind option_bind].
  destruct (position _ l) as [slot|] eqn:Hp; [|done]. cbn.
  destruct (l !! slot) as [tup|] eqn:Ht; [done|].
  apply position_lt, lookup_lt_is_Some_2 in Hp as [? Hp]. congruence.
Qed.

Lemma closest_next_spec {E} rest fuel now it :
  length rest < fuel -> on_way it rest ->
  match remaining now it rest with
  | [] => exists it', @closest_next E fuel now it = Ok (None, it')
  | n :: l => exists it' rest', @closest_next E fuel now it = Ok (Some n, it') /\
      on_way it' rest' /\ length rest' <= length rest /\ remaining now it' rest' = l
  end.
Proof.
  revert fuel it. induction rest as [rest IH] using (induction_ltof1 _ (@length nat)).
  unfold ltof in IH. intros fuel it Hf [Hnd [vf Hv]]. destruct fuel as [|fuel]; [lia|].
  destruct (default [] (current_iter it)) as [|n c] eqn:Hc.
  2:{ destruct (current_iter it) as [[|? ?]|] eqn:Hi; [done| |done]. injection Hc as -> ->.
      unfold remaining. rewrite Hi. cbn [default from_option id app].
      cbn [closest_next]. rewrite Hi. eexists _, rest. split; [done|]. split; [split; eauto|done]. }
  rewrite closest_next_exhausted by done. unfold remaining. rewrite Hc. cbn [app].
  destruct (position _ _) as [slot|] eqn:Hp.
  - destruct (lookup_lt_is_Some_2 _ _ (position_lt _ _ _ Hp)) as [tup Ht].
    rewrite (pending_first _ _ _ _ _ Hp Ht), Ht. cbn [app].
    eexists _, rest. split; [done|]. split; [by split; [|exists vf]|]. split; [done|].
    unfold remaining, handed_out. cbn [cn_buckets current_iter current_index start_index
      assorted_nodes assorted_list default from_option id]. rewrite Hc. cbn [app]. f_equal.
    apply bind_ext. intros j Hj. unfold yields_at.
    rewrite (pending_other now (current_index it) j); [done| |done|done].
    intros <-. by apply NoDup_cons in Hnd as [? _].
  - rewrite (pending_none _ _ _ Hp). cbn [app].
    destruct (next_bucket_index _ _ _) as [j|] eqn:Hn.
    + destruct (visit_order_tail _ _ _ _ _ _ Hv Hn) as (vf' & rest' & -> & Hv').
      apply NoDup_cons in Hnd as [_ Hnd]. cbn [length] in *.
      specialize (IH rest' ltac:(lia) fuel (moved now it j) ltac:(lia)).
      unfold remaining, moved in IH. cbn [cn_buckets current_iter current_index start_index
        assorted_nodes] in IH. specialize (IH ltac:(split; [done|by exists vf'])).
      cbn [mbind list_bind]. unfold yields_at at 1. rewrite <- app_assoc.
      fold (moved now it j) in IH. destruct (_ ++ _ ++ _) as [|n l]; [done|].
      destruct IH as (it' & rest'' & ? & ? & ? & ?). exists it', rest''. eauto.
    + rewrite (visit_order_last _ _ _ _ _ Hv Hn). simpl. eauto.
Qed.

Lemma closest_collect_spec {E} now fuel it rest :
  length (remaining now it rest) < fuel -> length rest < MAX_BUCKETS + 2 -> on_way it rest ->
  @closest_collect E fuel now it = Ok (remaining now it rest).
Proof.
  revert it rest. induction fuel as [|fuel IH]; intros it rest Hf Hl Hw; [lia|].
  cbn [closest_collect]. pose proof (@closest_next_spec E rest (MAX_BUCKETS + 2) now it Hl Hw) as H.
  destruct (remaining now it rest) as [|n l]; [destruct H as (it' & ->); done|].
  destruct H as (it' & rest' & -> & Hw' & Hl' & Hr). cbn [mbind outcome_bind].
  rewrite (IH it' rest'); [|rewrite Hr; simpl in Hf; lia|lia|done].
  cbn [mbind outcome_bind]. by rewrite Hr.
Qed.

(** ** The nodes yielded, all together *)

Lemma pingable_nodes_app now l k :
  pingable_nodes now (l ++ k) = pingable_nodes now l ++ pingable_nodes now k.
Proof. apply filter_app. Qed.

(** The sorted buckets, by increasing index. *)
Lemma bucket_lists now (bs : list (list Node)) k :
  length bs <= k ->
  (seq 0 k ≫= fun j => default [] (pingable_nodes now <$> bs !! j)) = pingable_nodes now (mjoin bs).
Proof.
  revert k. induction bs as [|b bs IH]; intros k Hk; simpl in Hk.
  - rewrite (bind_ext _ (fun _ => [])); [apply bind_nil|]. intros j _. by rewrite lookup_nil.
  - destruct k as [|k]; [lia|]. cbn [seq mbind list_bind]. cbn [lookup list_lookup fmap option_fmap
      option_map default from_option id].
    rewrite <- fmap_S_seq, bind_map. change (mjoin (b :: bs)) with (b ++ mjoin bs). rewrite pingable_nodes_app.
    f_equal. rewrite <- (IH k) by lia. by apply bind_ext.
Qed.

(** The assorted nodes, sorted by their keys. *)
Definition fresh (id : ShaHash) (b : list Node) : list (nat * Node * bool) :=
  (fun n => (leading_bit_count id (node_id n), n, false)) <$> b.

Lemma pending_cons now j id n b :
  pending now j (fresh id (n :: b)) =
  (if is_pingable now n && (leading_bit_count id (node_id n) =? j) then [n] else [])
  ++ pending now j (fresh id b).
Proof.
  unfold pending. cbn [fresh fmap list_fmap].
  destruct (is_pingable now n && (leading_bit_count id (node_id n) =? j)) eqn:Hc.
  - rewrite filter_cons_True; [done|]. cbn [assorted_candidate]. by rewrite andb_true_r.
  - rewrite filter_cons_False; [done|]. cbn [assorted_candidate]. rewrite andb_true_r. congruence.
Qed.

Lemma seq_one (n : Node) key j k :
  (seq j k ≫= fun i => if key =? i then [n] else [])
  = if (j <=? key) && (key <? j + k) then [n] else [].
Proof.
  revert j. induction k as [|k IH]; intros j.
  - destruct (Nat.leb_spec j key), (Nat.ltb_spec key (j + 0)); simpl; done || lia.
  - cbn [seq mbind list_bind]. rewrite IH.
    destruct (Nat.eqb_spec key j), (Nat.leb_spec (S j) key), (Nat.ltb_spec key (S j + k)),
      (Nat.leb_spec j key), (Nat.ltb_spec key (j + S k)); simpl; done || lia.
Qed.

Lemma assorted_all now id b k :
  Forall (fun n => is_pingable now n = true -> leading_bit_count id (node_id n) < k) b ->
  (seq 0 k ≫= fun j => pending now j (fresh id b)) ≡ₚ pingable_nodes now b.
Proof.
  induction 1 as [|n b Hn Hb IH].
  - by rewrite (bind_ext _ (fun _ => [])), bind_nil.
  - rewrite (bind_ext _ (fun j => (if is_pingable now n && (leading_bit_count id (node_id n) =? j)
      then [n] else []) ++ pending now j (fresh id b))) by (intros; apply pending_cons).
    rewrite bind_app_fun, IH. unfold pingable_nodes.
    destruct (is_pingable now n) eqn:Hp; simpl.
    + rewrite filter_cons_True, seq_one by done. specialize (Hn eq_refl).
      destruct (Nat.ltb_spec (leading_bit_count id (node_id n)) (0 + k)); [done|lia].
    + rewrite filter_cons_False by congruence.
      by rewrite bind_nil.
Qed.

Lemma precomputed t :
  table_ok t ->
  exists sorted assorted, buckets t = sorted ++ assorted /\
    (forall now j, bucket_iterator now (buckets t) j = pingable_nodes now <$> sorted !! j) /\
    assorted_list (precompute_assorted_nodes (buckets t) (table_id t))
    = fresh (table_id t) (mjoin assorted).
Proof.
  intros (_ & Hlen & Hb). unfold bucket_iterator, precompute_assorted_nodes.
  destruct (Nat.eqb_spec (length (buckets t)) MAX_BUCKETS) as [He|Hne].
  { exists (buckets t), []. by rewrite app_nil_r. }
  destruct (last (buckets t)) as [b|] eqn:Hl; [|apply last_None in Hl; rewrite Hl in Hlen; simpl in Hlen; lia].
  apply last_Some in Hl as [pre Hpre]. exists pre, [b]. split; [done|]. split.
  - intros now j. rewrite Hpre, length_app. simpl. by rewrite Nat.add_sub, take_app_length.
  - destruct (Hb (length pre) b) as [Hok _]; [rewrite Hpre; by apply list_lookup_middle|].
    cbn [mjoin list_join]. rewrite app_nil_r.
    destruct b; [|done]. destruct Hok as [Hok _]. simpl in Hok. done.
Qed.

Lemma table_ok_bits now t n :
  table_ok t -> n ∈ mjoin (buckets t) -> is_pingable now n = true ->
  leading_bit_count (table_id t) (node_id n) < MAX_BUCKETS.
Proof.
  intros (_ & _ & Hb) (b & Hn & Hin)%list_elem_of_join Hp%pingable_responded.
  apply list_elem_of_lookup_1 in Hin as [i Hi]. destruct (Hb i b Hi) as [_ Hf].
  rewrite Forall_forall in Hf. apply Hf. by apply list_elem_of_filter.
Qed.

Lemma all_yielded now t k :
  table_ok t -> MAX_BUCKETS <= k ->
  seq 0 k ≫= yields_at now (buckets t)
    (assorted_list (precompute_assorted_nodes (buckets t) (table_id t)))
  ≡ₚ pingable_nodes now (mjoin (buckets t)).
Proof.
  intros Ht Hk. destruct (precomputed t Ht) as (sorted & assorted & Hbs & Hit & ->).
  unfold yields_at. rewrite bind_app_fun, assorted_all.
  - rewrite (bind_ext _ (fun j => default [] (pingable_nodes now <$> sorted !! j)))
      by (intros j _; by rewrite Hit).
    rewrite bucket_lists; [by rewrite Hbs, join_app, pingable_nodes_app|].
    destruct Ht as (_ & Ht & _). rewrite Hbs, length_app in Ht. lia.
  - apply Forall_forall. intros n Hn Hp. eapply Nat.lt_le_trans; [|done].
    apply (table_ok_bits now t n); [done| |done]. rewrite Hbs, join_app. apply elem_of_app. by right.
Qed.

Lemma length_mjoin (bs : list (list Node)) k :
  Forall (fun b => length b = k) bs -> length (mjoin bs) = length bs * k.
Proof.
  induction 1 as [|b bs Hb Hbs IH]; [done|]. change (mjoin (b :: bs)) with (b ++ mjoin bs).
  rewrite length_app, IH, Hb. simpl. lia.
Qed.

Lemma table_ok_size t : table_ok t -> length (mjoin (buckets t)) <= MAX_BUCKETS * MAX_BUCKET_SIZE.
Proof.
  intros (_ & Hlen & Hb). rewrite (length_mjoin _ MAX_BUCKET_SIZE).
  - apply Nat.mul_le_mono_r. lia.
  - apply Forall_forall. intros b [i Hi]%list_elem_of_lookup_1.
    destruct (Hb i b Hi) as [(Heq%(f_equal length) & Hr & _) _].
    rewrite length_app, length_replicate in Heq. lia.
Qed.

(** ** [find_node] *)

Lemma buckets_nth_in {E} bs k i :
  i + k < MAX_BUCKETS ->
  @buckets_nth E k {| bi_buckets := bs; bi_index := i |} =
  if (i + k + 1 <? length bs) || (length bs =? MAX_BUCKETS)
  then b ← index bs (i + k); Ok (Some (BSorted b)) else Ok (Some BEmpty).
Proof.
  revert i. induction k as [|k IH]; intros i Hi; cbn [buckets_nth]; unfold buckets_next;
    cbn [bi_buckets bi_index].
  - destruct (Nat.ltb_spec MAX_BUCKETS i); [lia|]. destruct (Nat.eqb_spec i MAX_BUCKETS); [lia|].
    rewrite Nat.add_0_r. destruct (_ || _); [|done]. by destruct (index bs i).
  - destruct (Nat.ltb_spec MAX_BUCKETS i); [lia|]. destruct (Nat.eqb_spec i MAX_BUCKETS); [lia|].
    replace (i + S k) with (i + 1 + k) by lia. rewrite <- (IH (i + 1)) by lia.
    destruct ((i + 1 <? length bs) || (length bs =? MAX_BUCKETS)) eqn:Hc; [|done].
    destruct (@index_lt E _ bs i) as [b ->]; [|done].
    apply orb_true_iff in Hc as [Hc%Nat.ltb_lt|Hc%Nat.eqb_eq]; lia.
Qed.

(** * Properties *)

(** C29. Every table that the worker's operations (adding nodes, and updating in
    place a node [find_node_mut] found) can reach from a new table is well formed:
    it has between 1 and 160 buckets, each with eight slots, its added nodes in
    front with pairwise different handles, and every added node is in the bucket
    of its distance.  In such a table [add_node] returns for every node and time
    (the recursion of [add_node], [bucket_node] and [split_bucket] ends, and no
    index is out of range), and so does [find_node_mut]. *)
Theorem reachable_tables_ok (id : ShaHash) (t : RoutingTable) :
  length (hash id) = SHA_HASH_LEN -> rtc table_step (table_new id) t ->
  table_ok t /\
  (forall now n, exists t', @table_add_node unit now t n = Ok t') /\
  (forall now h, exists r, @find_node_mut unit now t h = Ok r).
Proof.
  intros Hid Hr. pose proof (reachable_ok id t Hid Hr) as Ht. split; [done|]. split.
  - intros now n. destruct (@add_node_ok unit now t n Ht) as (t' & H & _). eauto.
  - intros now h. destruct (@find_node_mut_total unit now t h Ht) as (r & H & _). eauto.
Qed.

(** C27. What adding a node does to a well-formed table: no node that is good at
    that time leaves it, unless it has the handle of the added node (splits
    included, where all nodes of a bucket are inserted again); and unless the
    node is bad or has the table's own id, afterwards its bucket either holds
    an entry of its handle with at least its status, or cannot be split any more
    and is full of nodes with at least its status. *)
Theorem add_node_keeps_good_and_settles (now : Z) (t : RoutingTable) (n : Node) :
  table_ok t ->
  exists t', @table_add_node unit now t n = Ok t' /\ table_ok t' /\
    (forall m, holds t m -> status now m = Good -> holds t' m \/ handle m = handle n) /\
    (status now n = Bad \/ leading_bit_count (table_id t) (node_id n) = MAX_BUCKETS \/
     settled now n t').
Proof.
  intros Ht. destruct (@add_node_ok unit now t n Ht) as (t' & H1 & H2 & _ & H3 & H4). eauto 10.
Qed.

(** The whole run of the iterator. *)
Lemma closest_collect_all {E} (now : Z) (t : RoutingTable) (target : ShaHash) :
  table_ok t ->
  let start := leading_bit_count (table_id t) target in
  exists order l,
    visit_order (MAX_BUCKETS + 2) MAX_BUCKETS start start = Some order /\
    order ≡ₚ seq 0 (top_index MAX_BUCKETS start + 1) /\
    @closest_collect E (MAX_BUCKETS * MAX_BUCKET_SIZE + 1) now (closest_nodes now t target)
    = Ok l /\
    l = order ≫= yields_at now (buckets t)
          (assorted_list (precompute_assorted_nodes (buckets t) (table_id t))) /\
    l ≡ₚ pingable_nodes now (mjoin (buckets t)).
Proof.
  intros Ht start. pose proof (leading_bit_count_le (table_id t) target (proj1 Ht)) as Hs.
  destruct (visit_order_all MAX_BUCKETS start Hs) as (rest & Hv & Hp).
  assert (Hall := all_yielded now t (top_index MAX_BUCKETS start + 1) Ht
    ltac:(unfold top_index; lia)).
  rewrite <- Hp in Hall. exists (start :: rest). eexists. split; [done|]. split; [done|].
  split; [|split; [reflexivity|done]]. set (it := closest_nodes now t target).
  assert (Hrem : remaining now it rest = (start :: rest) ≫= yields_at now (buckets t)
    (assorted_list (precompute_assorted_nodes (buckets t) (table_id t)))).
  { unfold remaining, it. cbn [mbind list_bind]. unfold yields_at at 2. by rewrite <- app_assoc. }
  rewrite <- Hrem in Hall |- *. apply closest_collect_spec.
  - apply Permutation_length in Hall. rewrite Hall. pose proof (table_ok_size t Ht).
    unfold pingable_nodes. pose proof (length_filter (fun n => is_pingable now n = true)
      (mjoin (buckets t))). lia.
  - apply Permutation_length in Hp. rewrite length_seq in Hp. simpl in Hp.
    unfold top_index in Hp. fold start in Hs. lia.
  - split; [|by exists (MAX_BUCKETS + 2)]. simpl. fold start. rewrite Hp. apply NoDup_seq.
Qed.

(** The buckets that hold only nodes of their distance, and the nodes of the last
    bucket of a table that is not full, which are of that distance or any greater. *)
Definition sorted_buckets (t : RoutingTable) : list (list Node) :=
  if length (buckets t) =? MAX_BUCKETS then buckets t else take (length (buckets t) - 1) (buckets t).
Definition unsorted_nodes (t : RoutingTable) : list Node :=
  if length (buckets t) =? MAX_BUCKETS then [] else default [] (last (buckets t)).

(** The pingable nodes whose place is the bucket [j]: those in it, then those that are
    in the last bucket still. *)
Definition nodes_of_place (now : Z) (t : RoutingTable) (j : nat) : list Node :=
  pingable_nodes now (default [] (sorted_buckets t !! j)) ++
  filter (fun n => leading_bit_count (table_id t) (node_id n) = j) (pingable_nodes now (unsorted_nodes t)).

Lemma all_pending_fresh now j id b :
  pending now j (fresh id b) = filter (fun n => leading_bit_count id (node_id n) = j) (pingable_nodes now b).
Proof.
  induction b as [|n b IH]; [done|]. rewrite pending_cons, IH. unfold pingable_nodes. rewrite (filter_cons _ n b).
  destruct (is_pingable now n) eqn:Hp; cbn [andb].
  - rewrite decide_True by done. rewrite filter_cons. destruct (Nat.eqb_spec (leading_bit_count id (node_id n)) j).
    + by rewrite decide_True.
    + by rewrite decide_False.
  - by rewrite decide_False by congruence.
Qed.

Lemma yields_place now t j : table_ok t ->
  yields_at now (buckets t) (assorted_list (precompute_assorted_nodes (buckets t) (table_id t))) j = nodes_of_place now t j.
Proof.
  intros (_ & Hlen & Hb). unfold yields_at, nodes_of_place, bucket_iterator, precompute_assorted_nodes, sorted_buckets, unsorted_nodes.
  f_equal; [by destruct (_ !! j)|]. destruct (Nat.eqb_spec (length (buckets t)) MAX_BUCKETS) as [He|Hne]; [done|].
  destruct (last (buckets t)) as [b|] eqn:Hl; [|apply last_None in Hl; rewrite Hl in Hlen; simpl in Hlen; lia].
  rewrite <- (all_pending_fresh now j (table_id t)). by destruct b.
Qed.

(** C21. The closest-nodes iterator of a well-formed table ends, and yields each
    pingable node of the table exactly once.  It begins with the place of the target, goes
    on to the places at each distance from it, the right one before the left one
    ([alternating], which meets every place once), and yields at each the
    bucket's nodes and then the nodes of the unsorted last bucket that belong
    there. *)
Theorem closest_nodes_complete (now : Z) (t : RoutingTable) (target : ShaHash) :
  table_ok t ->
  let start := leading_bit_count (table_id t) target in
  exists l,
    @closest_collect unit (MAX_BUCKETS * MAX_BUCKET_SIZE + 1) now (closest_nodes now t target) = Ok l /\
    l = alternating MAX_BUCKETS start ≫= nodes_of_place now t /\
    alternating MAX_BUCKETS start ≡ₚ seq 0 (top_index MAX_BUCKETS start + 1) /\
    l ≡ₚ pingable_nodes now (mjoin (buckets t)).
Proof.
  intros Ht start. destruct (@closest_collect_all unit now t target Ht) as (order & l & Hv & Hperm & Hl & El & Hp).
  assert (Hs : start <= MAX_BUCKETS) by apply (leading_bit_count_le _ _ (proj1 Ht)).
  destruct (visit_order_alternating MAX_BUCKETS start) as [fuel Ha]; [by apply Nat.ltb_lt|done|].
  rewrite <- (visit_order_fuel _ _ _ _ _ _ _ Hv Ha). exists l. split_and!; [done| |done|done].
  rewrite El. apply bind_ext. intros j _. by apply yields_place.
Qed.

(** [find_node] looks for a node in the sorted bucket of its distance only:
    as long as the table is not full, a node whose place is the unsorted last
    bucket is never found, even when it is in that bucket. *)
Theorem find_node_searches_sorted_only (now : Z) (t : RoutingTable) (n : Node) :
  table_ok t ->
  let i := leading_bit_count (table_id t) (node_id n) in
  i < MAX_BUCKETS ->
  @find_node unit now t n =
  Ok (if (i + 1 <? length (buckets t)) || (length (buckets t) =? MAX_BUCKETS)
      then list_find (fun m => node_eqb m n = true)
             (pingable_nodes now (default [] (buckets t !! i))) ≫= fun p => Some p.2
      else None).
Proof.
  intros Ht i Hi. unfold find_node, buckets_iter. fold i. rewrite buckets_nth_in by done.
  rewrite Nat.add_0_l. destruct (_ || _) eqn:Hc; [|done].
  assert (Hlt : i < length (buckets t)).
  { apply orb_true_iff in Hc as [Hc%Nat.ltb_lt|Hc%Nat.eqb_eq]; lia. }
  destruct (lookup_lt_is_Some_2 _ _ Hlt) as [b Hb]. rewrite (index_Some _ _ _ Hb), Hb. done.
Qed.

(** * Concrete instances *)

Definition sample_id (b : Z) : ShaHash := {| hash := b :: replicate 19 0%Z |}.
Definition sample_addr : SocketAddr := SockV4 {| v4_ip := Ipv4 10 0 0 1; v4_port := 6881 |}.
Definition sample_node (b : Z) : Node := as_good 0 (sample_id b) sample_addr.
Definition sample_table : RoutingTable :=
  match @table_add_node unit 0 (table_new zero_hash) (sample_node 128) with
  | Ok t => t
  | _ => table_new zero_hash
  end.

Lemma sample_table_step : table_step (table_new zero_hash) sample_table.
Proof. apply (step_add 0 (sample_node 128)). vm_compute. reflexivity. Qed.

Lemma sample_table_ok : table_ok sample_table.
Proof.
  apply (reachable_ok zero_hash); [done|]. apply rtc_once, sample_table_step.
Qed.

Lemma reachable_tables_ok_witness :
  table_ok sample_table /\
  exists t', @table_add_node unit 0 sample_table (sample_node 64) = Ok t'.
Proof.
  destruct (reachable_tables_ok zero_hash sample_table) as (H1 & H2 & _).
  - reflexivity.
  - apply rtc_once, sample_table_step.
  - split; [exact H1|exact (H2 0%Z (sample_node 64))].
Defined.

Lemma add_node_keeps_good_and_settles_witness :
  exists t', @table_add_node unit 0 sample_table (sample_node 64) = Ok t' /\
    holds t' (sample_node 128) /\ settled 0 (sample_node 64) t'.
Proof.
  destruct (add_node_keeps_good_and_settles 0 sample_table (sample_node 64) sample_table_ok)
    as (t' & H1 & _ & H2 & H3).
  exists t'. split; [exact H1|]. split.
  - destruct (H2 (sample_node 128)) as [H|H]; [|reflexivity|exact H|].
    + exists 0, (default [] (buckets sample_table !! 0)). split; [vm_compute; reflexivity|].
      apply list_elem_of_lookup_2 with 0. vm_compute. reflexivity.
    + discriminate H.
  - destruct H3 as [H|[H|H]]; [discriminate H|vm_compute in H; discriminate H|exact H].
Defined.

Lemma closest_nodes_complete_witness :
  exists l, @closest_collect unit (MAX_BUCKETS * MAX_BUCKET_SIZE + 1) 0
              (closest_nodes 0 sample_table (sample_id 1)) = Ok l /\ l = [sample_node 128].
Proof.
  destruct (closest_nodes_complete 0 sample_table (sample_id 1) sample_table_ok)
    as (l & H & _ & _ & Hp).
  exists l. split; [exact H|]. apply Permutation_singleton_r. exact Hp.
Defined.

Lemma find_node_searches_sorted_only_witness :
  holds sample_table (sample_node 128) /\
  @find_node unit 0 sample_table (sample_node 128) = Ok None.
Proof.
  split.
  - exists 0, (default [] (buckets sample_table !! 0)). split; [vm_compute; reflexivity|].
    apply list_elem_of_lookup_2 with 0. vm_compute. reflexivity.
  - rewrite (find_node_searches_sorted_only 0 sample_table (sample_node 128) sample_table_ok);
      vm_compute; [reflexivity|lia].
Defined.

(** A good node takes the slot of a questionable one although seven slots are
    free: the first slot of lower status is chosen, not the worst. *)
Example good_evicts_questionable_despite_free_slots :
  exists q, @as_questionable Empty_set 0 (secs 3600) (sample_id 64) sample_addr = Ok q /\
  let g := as_good (secs 3600) (sample_id 65) sample_addr in
  let b := (bucket_add_node (secs 3600) bucket_new q).2 in
  q ∈ b /\ q ∉ (bucket_add_node (secs 3600) b g).2 /\
  length (residents (bucket_add_node (secs 3600) b g).2) = 1.
Proof.
  eexists. split; [reflexivity|]. cbn zeta. split_and!; [apply list_elem_of_lookup_2 with 0| |]; try (vm_compute; reflexivity).
  intros H%list_elem_of_In. vm_compute in H. intuition discriminate.
Qed.
