(* ===== verification/Nom.v ===== *)
(** Nom: what the peer, handshake and tracker parsers use of the
    parser-combinator crate [nom] 3 and of the byte-buffer crate [bytes].

    The primitive parsers are fields of the class [Nom], with their documented
    behaviour as its laws; the documentation leaves open what [opt!] makes of
    an incomplete inner parser, and so does the class.  The macros that only
    sequence parsers ([tuple!], [map!], [do_parse!], [switch!], [call!],
    [value!]) are [iresult_bind]: a result that is not [Done] ends the
    sequence.  [alt!] goes on to the next alternative after [Error] only. *)

From stdpp Require Import base list.
From Stdlib Require Import ZArith Lia.
From S2P Require Import Prelude ShaHash.

Inductive IResult (I O : Type) : Type :=
  | Done (rest : I) (o : O)
  | Error
  | Incomplete (needed : option Z).
Arguments Done {_ _} _ _.
Arguments Error {_ _}.
Arguments Incomplete {_ _} _.

Definition iresult_bind {I O P} (r : IResult I O) (f : I -> O -> IResult I P) : IResult I P :=
  match r with
  | Done i o => f i o
  | Error => Error
  | Incomplete n => Incomplete n
  end.

Definition iresult_map {I O P} (f : O -> P) (r : IResult I O) : IResult I P :=
  iresult_bind r (fun i o => Done i (f o)).

Class Nom := {
  be_u8 : bytes -> IResult bytes Z;
  be_u16 : bytes -> IResult bytes Z;
  be_u32 : bytes -> IResult bytes Z;
  take_bytes : Z -> bytes -> IResult bytes bytes;
  opt : forall {O}, (bytes -> IResult bytes O) -> bytes -> IResult bytes (option O);

  be_u8_done bs : 1 <= length bs -> be_u8 bs = Done (drop 1 bs) (be_val (take 1 bs));
  be_u8_short bs : length bs < 1 -> exists n, be_u8 bs = Incomplete n;
  be_u16_done bs : 2 <= length bs -> be_u16 bs = Done (drop 2 bs) (be_val (take 2 bs));
  be_u16_short bs : length bs < 2 -> exists n, be_u16 bs = Incomplete n;
  be_u32_done bs : 4 <= length bs -> be_u32 bs = Done (drop 4 bs) (be_val (take 4 bs));
  be_u32_short bs : length bs < 4 -> exists n, be_u32 bs = Incomplete n;
  take_bytes_done n bs : (0 <= n <= Z.of_nat (length bs))%Z ->
    take_bytes n bs = Done (drop (Z.to_nat n) bs) (take (Z.to_nat n) bs);
  take_bytes_short n bs : (Z.of_nat (length bs) < n)%Z -> exists m, take_bytes n bs = Incomplete m;
  opt_done {O} (p : bytes -> IResult bytes O) i r o : p i = Done r o -> opt p i = Done r (Some o);
  opt_error {O} (p : bytes -> IResult bytes O) i : p i = Error -> opt p i = Done i None;
  opt_incomplete {O} (p : bytes -> IResult bytes O) i n :
    p i = Incomplete n -> opt p i = Done i None \/ opt p i = Incomplete n;
}.

(** [tuple!(be_u32, be_u8)] and [tuple!(be_u32, be_u8, be_u8)], input thrown away. *)
Section Tuples.
Context `{Nom}.
Definition header2 (bs : bytes) : IResult bytes (Z * Z) :=
  iresult_bind (be_u32 bs) (fun i a => iresult_bind (be_u8 i) (fun i b => Done i (a, b))).
Definition header3 (bs : bytes) : IResult bytes (Z * Z * Z) :=
  iresult_bind (be_u32 bs) (fun i a => iresult_bind (be_u8 i) (fun i b =>
    iresult_bind (be_u8 i) (fun i c => Done i (a, b, c)))).
Definition header_opt (bs : bytes) : IResult bytes (Z * option Z) :=
  iresult_bind (be_u32 bs) (fun i a => iresult_bind (opt be_u8 i) (fun i b => Done i (a, b))).

(** [count_fixed!(u8, be_u8, n)] *)
Fixpoint count_fixed_u8 (n : nat) (bs : bytes) : IResult bytes bytes :=
  match n with
  | O => Done bs []
  | S n' => iresult_bind (be_u8 bs) (fun i b => iresult_map (cons b) (count_fixed_u8 n' i))
  end.

(** [do_parse!]: go on with the rest of the input after [Done]. *)
Definition then_parse {O P} (r : IResult bytes O)
    (f : bytes -> O -> outcome unit (IResult bytes P)) : outcome unit (IResult bytes P) :=
  match r with
  | Done i o => f i o
  | Error => Ok Error
  | Incomplete k => Ok (Incomplete k)
  end.

(** [take!(n) >> (from_hash(..).unwrap())] *)
Definition parse_hash_of (n : nat) (bs : bytes) : outcome unit (IResult bytes ShaHash) :=
  match take_bytes (Z.of_nat n) bs with
  | Done i h => h' ← unwrap (from_hash h); Ok (Done i h')
  | Error => Ok Error
  | Incomplete k => Ok (Incomplete k)
  end.

End Tuples.

(** [alt!]: the next alternative is tried after [Error] only. *)
Definition iresult_alt {I O} (r : IResult I O) (f : unit -> IResult I O) : IResult I O :=
  match r with Error => f tt | _ => r end.

(** ** The parsers on input that starts with what they look for *)

Section Heads.
Context `{Nom}.

Lemma be_u8_cons b r : be_u8 (b :: r) = Done r b.
Proof.
  by rewrite be_u8_done by (simpl; lia).
Qed.

Lemma take_bytes_head n a r : n = Z.of_nat (length a) -> take_bytes n (a ++ r) = Done r a.
Proof.
  intros ->. rewrite take_bytes_done by (rewrite length_app; lia).
  by rewrite Nat2Z.id, drop_app_length, take_app_length.
Qed.

Lemma count_fixed_head a r : count_fixed_u8 (length a) (a ++ r) = Done r a.
Proof.
  induction a as [|b a IH]; [done|]. cbn [length app count_fixed_u8].
  rewrite be_u8_cons. cbn [iresult_bind]. by rewrite IH.
Qed.

Lemma parse_hash_head n a r :
  n = SHA_HASH_LEN -> length a = n -> parse_hash_of n (a ++ r) = Ok (Done r {| hash := a |}).
Proof.
  intros -> Ha. unfold parse_hash_of. rewrite take_bytes_head by (by rewrite Ha).
  unfold from_hash. by rewrite Ha.
Qed.

Lemma be_u32_app z r : is_u32 z -> be_u32 (be_bytes 4 z ++ r) = Done r z.
Proof.
  intros Hz. rewrite be_u32_done by (rewrite length_app, length_be_bytes; lia).
  rewrite drop_app_length', take_app_length' by (by rewrite length_be_bytes).
  by rewrite be_u32_id.
Qed.

Lemma be_u16_app z r : is_u16 z -> be_u16 (be_bytes 2 z ++ r) = Done r z.
Proof.
  intros Hz. rewrite be_u16_done by (rewrite length_app, length_be_bytes; lia).
  rewrite drop_app_length', take_app_length' by (by rewrite length_be_bytes).
  by rewrite be_u16_id.
Qed.
End Heads.

(** What the tracker messages use besides: signed and 64-bit numbers, [tag!],
    [eof!] and [take_str!].  Whether [tag!] fails or asks for more on
    input that ends inside the tag is left open. *)
Class NomTracker (utf8 : bytes -> bool) `{Nom} := {
  be_u64 : bytes -> IResult bytes Z;
  be_i32 : bytes -> IResult bytes Z;
  be_i64 : bytes -> IResult bytes Z;
  tag : bytes -> bytes -> IResult bytes bytes;
  eof : bytes -> IResult bytes bytes;
  take_str : nat -> bytes -> IResult bytes bytes;

  be_u64_done bs : 8 <= length bs -> be_u64 bs = Done (drop 8 bs) (be_val (take 8 bs));
  be_u64_short bs : length bs < 8 -> exists n, be_u64 bs = Incomplete n;
  be_i32_done bs : 4 <= length bs -> be_i32 bs = Done (drop 4 bs) (to_i32 (be_val (take 4 bs)));
  be_i32_short bs : length bs < 4 -> exists n, be_i32 bs = Incomplete n;
  be_i64_done bs : 8 <= length bs -> be_i64 bs = Done (drop 8 bs) (to_i64 (be_val (take 8 bs)));
  be_i64_short bs : length bs < 8 -> exists n, be_i64 bs = Incomplete n;
  tag_match t bs : tag t (t ++ bs) = Done bs t;
  tag_mismatch t bs : length t <= length bs -> take (length t) bs <> t -> tag t bs = Error;
  tag_short t bs : length bs < length t -> tag t bs = Error \/ exists n, tag t bs = Incomplete n;
  eof_end : eof [] = Done [] [];
  eof_more b bs : eof (b :: bs) = Error;
  take_str_valid bs r : utf8 bs = true -> take_str (length bs) (bs ++ r) = Done r bs;
  take_str_invalid bs r : utf8 bs = false -> take_str (length bs) (bs ++ r) = Error;
}.

(** ** [bytes::Bytes], represented by its contents *)

(** [split_to(n)]: the first [n] bytes are returned, the rest stays. *)
Definition split_to {E} (n : Z) (bs : bytes) : outcome E (bytes * bytes) :=
  if (n <=? Z.of_nat (length bs))%Z
  then Ok (take (Z.to_nat n) bs, drop (Z.to_nat n) bs) else Panic.

(** [split_off(n)]: the bytes from [n] on are returned, the first [n] stay. *)
Definition split_off {E} (n : nat) (bs : bytes) : outcome E (bytes * bytes) :=
  if n <=? length bs then Ok (drop n bs, take n bs) else Panic.

Arguments split_to : simpl never.
Arguments split_off : simpl never.

(** ** A concrete instance: nom 3 itself, with [opt!] passing [Incomplete] on *)

Definition be_parser (n : nat) (bs : bytes) : IResult bytes Z :=
  if n <=? length bs then Done (drop n bs) (be_val (take n bs))
  else Incomplete (Some (Z.of_nat n)).

Lemma be_parser_done n bs :
  n <= length bs -> be_parser n bs = Done (drop n bs) (be_val (take n bs)).
Proof. intros H. unfold be_parser. by destruct (Nat.leb_spec n (length bs)); [|lia]. Qed.

Lemma be_parser_short n bs : length bs < n -> exists m, be_parser n bs = Incomplete m.
Proof. intros H. unfold be_parser. destruct (Nat.leb_spec n (length bs)); [lia|eauto]. Qed.

#[refine] Definition nom3 : Nom := {|
  be_u8 := be_parser 1; be_u16 := be_parser 2; be_u32 := be_parser 4;
  take_bytes n bs :=
    if (n <=? Z.of_nat (length bs))%Z then Done (drop (Z.to_nat n) bs) (take (Z.to_nat n) bs)
    else Incomplete (Some n);
  opt O p i :=
    match p i with
    | Done r o => Done r (Some o)
    | Error => Done i None
    | Incomplete n => Incomplete n
    end;
|}.
Proof.
  - apply be_parser_done.
  - apply be_parser_short.
  - apply be_parser_done.
  - apply be_parser_short.
  - apply be_parser_done.
  - apply be_parser_short.
  - intros n bs H. destruct (Z.leb_spec n (Z.of_nat (length bs))); [done|lia].
  - intros n bs H. destruct (Z.leb_spec n (Z.of_nat (length bs))); [lia|eauto].
  - intros O p i r o ->. done.
  - intros O p i ->. done.
  - intros O p i n ->. by right.
Defined.

#[refine] Definition nom3_tracker (utf8 : bytes -> bool) : @NomTracker utf8 nom3 := {|
  be_u64 := be_parser 8;
  be_i32 bs := iresult_map to_i32 (be_parser 4 bs);
  be_i64 bs := iresult_map to_i64 (be_parser 8 bs);
  tag t bs :=
    if length t <=? length bs
    then if decide (take (length t) bs = t) then Done (drop (length t) bs) t else Error
    else Incomplete (Some (Z.of_nat (length t)));
  eof bs := match bs with [] => Done [] [] | _ => Error end;
  take_str n bs :=
    if n <=? length bs
    then if utf8 (take n bs) then Done (drop n bs) (take n bs) else Error
    else Incomplete (Some (Z.of_nat n));
|}.
Proof.
  - apply be_parser_done.
  - apply be_parser_short.
  - intros bs H. by rewrite be_parser_done.
  - intros bs H. destruct (be_parser_short 4 bs) as [m ->]; [lia|]. by exists m.
  - intros bs H. by rewrite be_parser_done.
  - intros bs H. destruct (be_parser_short 8 bs) as [m ->]; [lia|]. by exists m.
  - intros t bs. rewrite length_app, take_app_length, drop_app_length, decide_True by done.
    by rewrite (proj2 (Nat.leb_le _ _)) by lia.
  - intros t bs H1 H2. by rewrite (proj2 (Nat.leb_le _ _)), decide_False by done.
  - intros t bs H1. right. rewrite (proj2 (Nat.leb_gt _ _)) by lia. eauto.
  - done.
  - done.
  - intros bs r Hu. rewrite length_app, take_app_length, drop_app_length, Hu.
    by rewrite (proj2 (Nat.leb_le _ _)) by lia.
  - intros bs r Hu. rewrite length_app, take_app_length, Hu.
    by rewrite (proj2 (Nat.leb_le _ _)) by lia.
Defined.
