(* ===== verification/PeerMessage.v ===== *)
(** PeerMessage: the messages of the peer wire protocol and their byte forms
    ([btp-peer/src/message]: mod.rs, standard.rs, bits_ext, prot_ext,
    bencode.rs, and [codec/codec.rs]).

    A writer is a growing buffer, so [write_bytes] is the bytes written.
    Subtractions of unsigned values panic on underflow (overflow checks on). *)

From stdpp Require Import base list gmap countable.
From Stdlib Require Import ZArith Lia.
From Stdlib Require String.
From S2P Require Import Prelude OrdMap Bencode Convert Nom.
Import String.StringSyntax.

(** * Constants (message/mod.rs, bits_ext/mod.rs) *)

Definition KEEP_ALIVE_MESSAGE_LEN : Z := 0.
Definition CHOKE_MESSAGE_LEN : Z := 1.
Definition UNCHOKE_MESSAGE_LEN : Z := 1.
Definition INTERESTED_MESSAGE_LEN : Z := 1.
Definition UNINTERESTED_MESSAGE_LEN : Z := 1.
Definition HAVE_MESSAGE_LEN : Z := 5.
Definition BASE_BITFIELD_MESSAGE_LEN : Z := 1.
Definition REQUEST_MESSAGE_LEN : Z := 13.
Definition BASE_PIECE_MESSAGE_LEN : Z := 9.
Definition CANCEL_MESSAGE_LEN : Z := 13.

Definition CHOKE_MESSAGE_ID : Z := 0.
Definition UNCHOKE_MESSAGE_ID : Z := 1.
Definition INTERESTED_MESSAGE_ID : Z := 2.
Definition UNINTERESTED_MESSAGE_ID : Z := 3.
Definition HAVE_MESSAGE_ID : Z := 4.
Definition BITFIELD_MESSAGE_ID : Z := 5.
Definition REQUEST_MESSAGE_ID : Z := 6.
Definition PIECE_MESSAGE_ID : Z := 7.
Definition CANCEL_MESSAGE_ID : Z := 8.

Definition MESSAGE_LENGTH_LEN_BYTES : nat := 4.
Definition MESSAGE_ID_LEN_BYTES : nat := 1.
Definition HEADER_LEN : nat := MESSAGE_LENGTH_LEN_BYTES + MESSAGE_ID_LEN_BYTES.
Definition BASE_PROT_EXTENSION_MESSAGE_LEN : nat := 2.
Definition EXTENSION_HEADER_LEN : nat := HEADER_LEN + 1.

Definition PORT_MESSAGE_LEN : Z := 3.
Definition BASE_EXTENDED_MESSAGE_LEN : Z := 2.
Definition PORT_MESSAGE_ID : Z := 9.
Definition EXTENDED_MESSAGE_ID : Z := 20.
Definition EXTENDED_MESSAGE_HANDSHAKE_ID : Z := 0.

(** * Errors

    Every [io::Error] the parsers and writers make, by its text. *)
Inductive IoError : Type :=
  | FailedToParseWire
  | FailedToParseExtension
  | ReceivedBeforeExtended
  | SentBeforeExtended
  | NoIdMapping
  | ExtensionTooShort (needed : Z)
  | UnknownExtensionId (id : Z)
  | UnknownMessageType (t : Z)
  | ParseBencode (e : BencodeParseErrorKind)
  | ConvertBencode (e : BencodeConvertErrorKind).

(** [io::Result] as a value. *)
Notation io_result A := (IoError + A)%type.
(** A parser step that may panic. *)
Notation parser A := (outcome IoError (IResult unit (io_result A))).

Definition io_map {A B} (f : A -> B) (r : io_result A) : io_result B :=
  match r with inl e => inl e | inr a => inr (f a) end.
Definition parser_map {A B} (f : A -> B) (p : parser A) : parser B :=
  r ← p; Ok (iresult_map (io_map f) r).

(** [throwaway_input!] *)
Definition throwaway_input {I O} (r : IResult I O) : IResult unit O :=
  match r with
  | Done _ o => Done tt o
  | Error => Error
  | Incomplete i => Incomplete i
  end.

(** The value an [outcome] yields as an [io::Result]; a panic stays a panic. *)
Definition as_io {A} (o : outcome IoError A) : outcome IoError (io_result A) :=
  match o with
  | Ok a => Ok (inr a)
  | Err e => Ok (inl e)
  | Panic => Panic
  | NoFuel => NoFuel
  end.

Definition u32_sub {E} (a b : Z) : outcome E Z := if (b <=? a)%Z then Ok (a - b)%Z else Panic.

Definition u32_to_usize {E} (value : Z) : outcome E Z :=
  if (to_u32 (to_u64 value) =? value)%Z then Ok value else Panic.

(** [write_length_id_pair] *)
Definition write_length_id_pair (length : Z) (opt_id : option Z) : bytes :=
  be_bytes 4 length ++ match opt_id with Some id => [id] | None => [] end.

(** * standard.rs *)

Record HaveMessage := { have_piece_index : Z }.

Definition HaveMessage_write_bytes (m : HaveMessage) : bytes :=
  write_length_id_pair HAVE_MESSAGE_LEN (Some HAVE_MESSAGE_ID) ++ be_bytes 4 (have_piece_index m).

Record BitFieldMessage := { bitfield : bytes }.

Definition BitFieldMessage_write_bytes (m : BitFieldMessage) : bytes :=
  let actual_length := to_u32 (1 + Z.of_nat (length (bitfield m))) in
  write_length_id_pair actual_length (Some BITFIELD_MESSAGE_ID) ++ bitfield m.

Definition BitFieldMessage_parse_bytes (bs : bytes) (len : Z) : parser BitFieldMessage :=
  cast_len ← u32_to_usize len;
  if (cast_len <=? Z.of_nat (length bs))%Z then
    '(front, _) ← split_to cast_len bs;
    Ok (Done tt (inr {| bitfield := front |}))
  else Ok (Incomplete (Some (cast_len - Z.of_nat (length bs))%Z)).

(** [BitFieldIter]: [next] recurses over clear bits. *)
Record BitFieldIter := { bf_bytes : bytes; cur_bit : nat }.

Definition BitFieldMessage_iter (m : BitFieldMessage) : BitFieldIter :=
  {| bf_bytes := bitfield m; cur_bit := 0 |}.

Fixpoint bitfield_next (fuel : nat) (it : BitFieldIter)
    : outcome IoError (option HaveMessage * BitFieldIter) :=
  match fuel with
  | O => NoFuel
  | S fuel =>
      let byte_in_bytes := cur_bit it / 8 in
      let bit_in_byte := cur_bit it mod 8 in
      match bf_bytes it !! byte_in_bytes with
      | None => Ok (None, it)
      | Some byte =>
          let have_message := {| have_piece_index := to_u32 (Z.of_nat (cur_bit it)) |} in
          let it' := {| bf_bytes := bf_bytes it; cur_bit := cur_bit it + 1 |} in
          if (Z.shiftr (to_u8 (Z.shiftl byte (Z.of_nat bit_in_byte))) 7 =? 1)%Z
          then Ok (Some have_message, it')
          else bitfield_next fuel it'
      end
  end.

(** The messages the iterator yields, collected. *)
Fixpoint bitfield_collect (fuel : nat) (it : BitFieldIter) : outcome IoError (list HaveMessage) :=
  match fuel with
  | O => NoFuel
  | S fuel =>
      '(o, it') ← bitfield_next (8 * length (bf_bytes it) + 1) it;
      match o with
      | None => Ok []
      | Some m => rest ← bitfield_collect fuel it'; Ok (m :: rest)
      end
  end.

Record RequestMessage :=
  { rq_piece_index : Z; rq_block_offset : Z; rq_block_length : Z }.

Definition RequestMessage_write_bytes (m : RequestMessage) : bytes :=
  write_length_id_pair REQUEST_MESSAGE_LEN (Some REQUEST_MESSAGE_ID) ++
  be_bytes 4 (rq_piece_index m) ++ be_bytes 4 (rq_block_offset m) ++
  be_bytes 4 (to_u32 (rq_block_length m)).

Record PieceMessage := { pc_piece_index : Z; pc_block_offset : Z; pc_block : bytes }.

Definition PieceMessage_write_bytes (m : PieceMessage) : bytes :=
  let actual_length := to_u32 (9 + Z.of_nat (length (pc_block m))) in
  write_length_id_pair actual_length (Some PIECE_MESSAGE_ID) ++
  be_bytes 4 (pc_piece_index m) ++ be_bytes 4 (pc_block_offset m) ++ pc_block m.

Record CancelMessage :=
  { cn_piece_index : Z; cn_block_offset : Z; cn_block_length : Z }.

Definition CancelMessage_write_bytes (m : CancelMessage) : bytes :=
  write_length_id_pair CANCEL_MESSAGE_LEN (Some CANCEL_MESSAGE_ID) ++
  be_bytes 4 (cn_piece_index m) ++ be_bytes 4 (cn_block_offset m) ++
  be_bytes 4 (to_u32 (cn_block_length m)).

Section StandardParsers.
Context `{Nom}.

Definition parse_have (bs : bytes) : IResult bytes (io_result HaveMessage) :=
  iresult_map (fun i => inr {| have_piece_index := i |}) (be_u32 bs).

(** [tuple!(be_u32, be_u32, be_u32)] *)
Definition three_u32 (bs : bytes) : IResult bytes (Z * Z * Z) :=
  iresult_bind (be_u32 bs) (fun i a => iresult_bind (be_u32 i) (fun i b =>
    iresult_bind (be_u32 i) (fun i c => Done i (a, b, c)))).

Definition parse_request (bs : bytes) : outcome IoError (IResult bytes (io_result RequestMessage)) :=
  match three_u32 bs with
  | Done i (index, offset, length) =>
      l ← u32_to_usize length;
      Ok (Done i (inr {| rq_piece_index := index; rq_block_offset := offset;
                         rq_block_length := l |}))
  | Error => Ok Error
  | Incomplete n => Ok (Incomplete n)
  end.

Definition parse_cancel (bs : bytes) : outcome IoError (IResult bytes (io_result CancelMessage)) :=
  match three_u32 bs with
  | Done i (index, offset, length) =>
      l ← u32_to_usize length;
      Ok (Done i (inr {| cn_piece_index := index; cn_block_offset := offset;
                         cn_block_length := l |}))
  | Error => Ok Error
  | Incomplete n => Ok (Incomplete n)
  end.

(** [parse_piece]: the block length is computed only once both integers are
    there. *)
Definition parse_piece (bs : bytes) (len : Z)
    : outcome IoError (IResult bytes (io_result PieceMessage)) :=
  match iresult_bind (be_u32 bs) (fun i a => iresult_bind (be_u32 i) (fun i b => Done i (a, b))) with
  | Done i (piece_index, block_offset) =>
      d ← u32_sub len 8;
      block_len ← u32_to_usize d;
      match take_bytes block_len i with
      | Done i' _ =>
          block ← slice bs 8 (8 + Z.to_nat block_len);
          Ok (Done i' (inr {| pc_piece_index := piece_index; pc_block_offset := block_offset;
                              pc_block := block |}))
      | Error => Ok Error
      | Incomplete n => Ok (Incomplete n)
      end
  | Error => Ok Error
  | Incomplete n => Ok (Incomplete n)
  end.

Definition HaveMessage_parse_bytes (bs : bytes) : parser HaveMessage :=
  Ok (throwaway_input (parse_have bs)).
Definition RequestMessage_parse_bytes (bs : bytes) : parser RequestMessage :=
  r ← parse_request bs; Ok (throwaway_input r).
Definition CancelMessage_parse_bytes (bs : bytes) : parser CancelMessage :=
  r ← parse_cancel bs; Ok (throwaway_input r).
Definition PieceMessage_parse_bytes (bs : bytes) (len : Z) : parser PieceMessage :=
  r ← parse_piece bs len; Ok (throwaway_input r).
End StandardParsers.

(** * bencode.rs *)

#[global] Instance IoErrorBencodeConvert : BConvert IoError := {| handle_error := ConvertBencode |}.

Definition key (s : String.string) : bytes := ascii_bytes s.
Arguments key s%_string_scope.

Definition ID_MAP_KEY : bytes := key "m".
Definition CLIENT_ID_KEY : bytes := key "v".
Definition CLIENT_TCP_PORT_KEY : bytes := key "p".
Definition OUR_IP_KEY : bytes := key "yourip".
Definition CLIENT_IPV6_ADDR_KEY : bytes := key "ipv6".
Definition CLIENT_IPV4_ADDR_KEY : bytes := key "ipv4".
Definition CLIENT_MAX_REQUESTS_KEY : bytes := key "reqq".
Definition METADATA_SIZE_KEY : bytes := key "metadata_size".
Definition MESSAGE_TYPE_KEY : bytes := key "msg_type".
Definition PIECE_INDEX_KEY : bytes := key "piece".
Definition TOTAL_SIZE_KEY : bytes := key "total_size".

Definition UT_METADATA_ID : bytes := key "ut_metadata".
Definition UT_PEX_ID : bytes := key "ut_pex".

(** [ExtendedType] (bits_ext/extended.rs) *)
Inductive ExtendedType : Type :=
  | UtMetadata
  | UtPex
  | Custom (id : bytes).

#[global] Instance ExtendedType_eq_dec : EqDecision ExtendedType.
Proof. solve_decision. Defined.
#[global] Instance ExtendedType_countable : Countable ExtendedType.
Proof.
  refine (inj_countable'
    (fun t => match t with UtMetadata => inl true | UtPex => inl false | Custom s => inr s end)
    (fun x => match x with inl true => UtMetadata | inl false => UtPex | inr s => Custom s end) _).
  by intros [].
Defined.

Definition from_id (id : bytes) : ExtendedType :=
  if bool_decide (id = UT_METADATA_ID) then UtMetadata
  else if bool_decide (id = UT_PEX_ID) then UtPex
  else Custom id.

Definition ext_id (t : ExtendedType) : bytes :=
  match t with
  | UtMetadata => UT_METADATA_ID
  | UtPex => UT_PEX_ID
  | Custom id => id
  end.

(** [Result::ok] *)
Definition result_ok {E A} (o : outcome E A) : option A :=
  match o with Ok a => Some a | _ => None end.

Section BencodeParsers.
Implicit Types (root : list (bytes * BencodeRef)).

Definition parse_id_map root : gmap ExtendedType Z :=
  match @lookup_and_convert_dict _ IoError _ _ root ID_MAP_KEY with
  | Ok ben_id_map =>
      fold_left (fun id_map '(id, ben_value) =>
        match from_utf8 id, @convert_int _ IoError _ _ ben_value id with
        | Some str_id, Ok value => <[from_id str_id := to_u8 value]> id_map
        | _, _ => id_map
        end) (dict_to_list ben_id_map) ∅
  | _ => ∅
  end.

Definition parse_client_id root : option bytes :=
  result_ok (@lookup_and_convert_str _ IoError _ _ root CLIENT_ID_KEY).

Definition parse_client_tcp_port root : option Z :=
  port ← result_ok (@lookup_and_convert_int _ IoError _ _ root CLIENT_TCP_PORT_KEY);
  if (to_u16 port =? port)%Z then Some (to_u16 port) else None.

Definition parse_ipv4_addr (b : bytes) : Ipv4Addr := bytes_be_to_ipv4 b.
Definition parse_ipv6_addr (b : bytes) : Ipv6Addr := bytes_be_to_ipv6 b.

Definition parse_our_ip root : option IpAddr :=
  ip_bytes ← result_ok (@lookup_and_convert_bytes _ IoError _ _ root OUR_IP_KEY);
  if length ip_bytes =? 4 then Some (IpV4 (parse_ipv4_addr ip_bytes))
  else if length ip_bytes =? 16 then Some (IpV6 (parse_ipv6_addr ip_bytes))
  else None.

Definition parse_client_ipv6_addr root : option Ipv6Addr :=
  b ← result_ok (@lookup_and_convert_bytes _ IoError _ _ root CLIENT_IPV6_ADDR_KEY);
  if length b =? 16 then Some (parse_ipv6_addr b) else None.

Definition parse_client_ipv4_addr root : option Ipv4Addr :=
  b ← result_ok (@lookup_and_convert_bytes _ IoError _ _ root CLIENT_IPV4_ADDR_KEY);
  if length b =? 4 then Some (parse_ipv4_addr b) else None.

Definition parse_client_max_requests root : option Z :=
  result_ok (@lookup_and_convert_int _ IoError _ _ root CLIENT_MAX_REQUESTS_KEY).
Definition parse_metadata_size root : option Z :=
  result_ok (@lookup_and_convert_int _ IoError _ _ root METADATA_SIZE_KEY).

Definition parse_message_type root : outcome IoError Z :=
  t ← lookup_and_convert_int root MESSAGE_TYPE_KEY; Ok (to_u8 t).
Definition parse_piece_index root : outcome IoError Z :=
  lookup_and_convert_int root PIECE_INDEX_KEY.
Definition parse_total_size root : outcome IoError Z :=
  lookup_and_convert_int root TOTAL_SIZE_KEY.
End BencodeParsers.

(** * bits_ext/extended.rs *)

Record ExtendedMessageBuilder := {
  b_id_map : gmap ExtendedType Z;
  b_our_id : option bytes;
  b_our_tcp_port : option Z;
  b_their_ip : option IpAddr;
  b_our_ipv6_addr : option Ipv6Addr;
  b_our_ipv4_addr : option Ipv4Addr;
  b_our_max_requests : option Z;
  b_metadata_size : option Z;
  b_custom_entries : gmap bytes BencodeMut;
}.

Record ExtendedMessage := {
  id_map : gmap ExtendedType Z;
  our_id : option bytes;
  our_tcp_port : option Z;
  their_ip : option IpAddr;
  our_ipv6_addr : option Ipv6Addr;
  our_ipv4_addr : option Ipv4Addr;
  our_max_requests : option Z;
  metadata_size : option Z;
  raw_bencode : bytes;
}.

(** [opt.map(|x| root.insert(key, ..))] *)
Definition insert_some {A} (k : bytes) (f : A -> BencodeMut) (o : option A)
    (d : list (bytes * BencodeMut)) : list (bytes * BencodeMut) :=
  match o with Some a => btree_insert k (f a) d | None => d end.

(** [bencode_from_builder].  The hash maps are walked in the order of
    [map_to_list]; the results land in ordered maps. *)
Definition bencode_from_builder (b : ExtendedMessageBuilder) : bytes :=
  let opt_our_ip := (fun ip => match ip with
    | IpV4 a => ipv4_to_bytes_be a
    | IpV6 a => ipv6_to_bytes_be a
    end) <$> b_their_ip b in
  let ben_id_map := fold_left (fun d '(t, value) => btree_insert (ext_id t) (new_int value) d)
    (map_to_list (b_id_map b)) [] in
  let root0 := btree_insert ID_MAP_KEY (MDict ben_id_map) [] in
  let root1 := fold_left (fun d '(k, v) => btree_insert k v d)
    (map_to_list (b_custom_entries b)) root0 in
  let root2 := insert_some CLIENT_ID_KEY new_bytes (b_our_id b) root1 in
  let root3 := insert_some CLIENT_TCP_PORT_KEY new_int (b_our_tcp_port b) root2 in
  let root4 := insert_some OUR_IP_KEY new_bytes opt_our_ip root3 in
  let root5 := insert_some CLIENT_IPV6_ADDR_KEY (fun a => new_bytes (ipv6_to_bytes_be a))
    (b_our_ipv6_addr b) root4 in
  let root6 := insert_some CLIENT_IPV4_ADDR_KEY (fun a => new_bytes (ipv4_to_bytes_be a))
    (b_our_ipv4_addr b) root5 in
  let root7 := insert_some CLIENT_MAX_REQUESTS_KEY new_int (b_our_max_requests b) root6 in
  let root8 := insert_some METADATA_SIZE_KEY new_int (b_metadata_size b) root7 in
  encode (MDict root8).

Definition from_builder (b : ExtendedMessageBuilder) : ExtendedMessage := {|
  id_map := b_id_map b; our_id := b_our_id b; our_tcp_port := b_our_tcp_port b;
  their_ip := b_their_ip b; our_ipv6_addr := b_our_ipv6_addr b;
  our_ipv4_addr := b_our_ipv4_addr b; our_max_requests := b_our_max_requests b;
  metadata_size := b_metadata_size b; raw_bencode := bencode_from_builder b;
|}.

Definition EXTENDED_ROOT_ERROR_KEY : bytes := key "ExtendedMessage".

(** The message a block of bencode describes. *)
Definition extended_of_bencode (raw : bytes) : outcome IoError ExtendedMessage :=
  bencode ← map_err ParseBencode (BencodeRef_decode raw BDecodeOpt_default);
  ben_dict ← convert_dict bencode EXTENDED_ROOT_ERROR_KEY;
  Ok {|
    id_map := parse_id_map ben_dict; our_id := parse_client_id ben_dict;
    our_tcp_port := parse_client_tcp_port ben_dict; their_ip := parse_our_ip ben_dict;
    our_ipv6_addr := parse_client_ipv6_addr ben_dict;
    our_ipv4_addr := parse_client_ipv4_addr ben_dict;
    our_max_requests := parse_client_max_requests ben_dict;
    metadata_size := parse_metadata_size ben_dict; raw_bencode := raw;
  |}.

Definition ExtendedMessage_parse_bytes (bs : bytes) (len : Z) : parser ExtendedMessage :=
  cast_len ← u32_to_usize len;
  if (cast_len <=? Z.of_nat (length bs))%Z then
    '(raw, _) ← split_to cast_len bs;
    res ← as_io (extended_of_bencode raw);
    Ok (Done tt res)
  else Ok (Incomplete (Some (cast_len - Z.of_nat (length bs))%Z)).

Definition bencode_size (m : ExtendedMessage) : nat := length (raw_bencode m).

Definition ExtendedMessage_write_bytes (m : ExtendedMessage) : bytes :=
  let real_length := Z.of_nat (2 + bencode_size m) in
  write_length_id_pair (to_u32 real_length) (Some EXTENDED_MESSAGE_ID) ++
  [EXTENDED_MESSAGE_HANDSHAKE_ID] ++ raw_bencode m.

Definition query_id (m : ExtendedMessage) (t : ExtendedType) : option Z := id_map m !! t.

(** * bits_ext/port.rs and bits_ext/mod.rs *)

Record PortMessage := { port_of : Z }.

Definition PortMessage_write_bytes (m : PortMessage) : bytes :=
  write_length_id_pair PORT_MESSAGE_LEN (Some PORT_MESSAGE_ID) ++ be_bytes 2 (port_of m).

Inductive BitsExtensionMessage : Type :=
  | Port (m : PortMessage)
  | Extended (m : ExtendedMessage).

Definition BitsExtensionMessage_write_bytes (m : BitsExtensionMessage) : bytes :=
  match m with
  | Port m => PortMessage_write_bytes m
  | Extended m => ExtendedMessage_write_bytes m
  end.

Definition BitsExtensionMessage_message_size (m : BitsExtensionMessage) : nat :=
  match m with
  | Port _ => Z.to_nat PORT_MESSAGE_LEN
  | Extended m => Z.to_nat BASE_EXTENDED_MESSAGE_LEN + bencode_size m
  end.

Section BitsExtension.
Context `{Nom}.

Definition PortMessage_parse_bytes (bs : bytes) : parser PortMessage :=
  Ok (throwaway_input (iresult_map (fun p => inr {| port_of := p |}) (be_u16 bs))).

(** [parse_extension]: two [switch!]es on the header, tried in order.  Where
    the first one splits the buffer it does not end in [Error], so the second
    sees the whole of it. *)
Definition parse_extension (bs : bytes) : parser BitsExtensionMessage :=
  first ← match header2 bs with
          | Done _ (len, id) =>
              if (len =? PORT_MESSAGE_LEN)%Z && (id =? PORT_MESSAGE_ID)%Z then
                '(tail, _) ← split_off HEADER_LEN bs;
                parser_map Port (PortMessage_parse_bytes tail)
              else Ok Error
          | Error => Ok Error
          | Incomplete n => Ok (Incomplete n)
          end;
  match first with
  | Error =>
      match header3 bs with
      | Done _ (message_len, id, ext) =>
          if (id =? EXTENDED_MESSAGE_ID)%Z && (ext =? EXTENDED_MESSAGE_HANDSHAKE_ID)%Z then
            '(tail, _) ← split_off (HEADER_LEN + 1) bs;
            len ← u32_sub message_len 2;
            parser_map Extended (ExtendedMessage_parse_bytes tail len)
          else Ok Error
      | Error => Ok Error
      | Incomplete n => Ok (Incomplete n)
      end
  | other => Ok other
  end.
End BitsExtension.

(** * prot_ext/ut_metadata.rs *)

Definition REQUEST_MESSAGE_TYPE_ID : Z := 0.
Definition DATA_MESSAGE_TYPE_ID : Z := 1.
Definition REJECT_MESSAGE_TYPE_ID : Z := 2.

Definition UT_ROOT_ERROR_KEY : bytes := key "PeerExtensionProtocolMessage".

Record UtMetadataRequestMessage := { umr_piece : Z; umr_bencode_size : nat }.
Record UtMetadataDataMessage :=
  { umd_piece : Z; umd_total_size : Z; umd_data : bytes; umd_bencode_size : nat }.
Record UtMetadataRejectMessage := { umj_piece : Z; umj_bencode_size : nat }.

Inductive UtMetadataMessage : Type :=
  | UmRequest (m : UtMetadataRequestMessage)
  | UmData (m : UtMetadataDataMessage)
  | UmReject (m : UtMetadataRejectMessage).

(** The dictionaries of the three messages. *)
Definition request_bencode (piece : Z) : BencodeMut :=
  ben_map [(MESSAGE_TYPE_KEY, new_int REQUEST_MESSAGE_TYPE_ID); (PIECE_INDEX_KEY, new_int piece)].
Definition data_bencode (piece total_size : Z) : BencodeMut :=
  ben_map [(MESSAGE_TYPE_KEY, new_int DATA_MESSAGE_TYPE_ID); (PIECE_INDEX_KEY, new_int piece);
           (TOTAL_SIZE_KEY, new_int total_size)].
Definition reject_bencode (piece : Z) : BencodeMut :=
  ben_map [(MESSAGE_TYPE_KEY, new_int REJECT_MESSAGE_TYPE_ID); (PIECE_INDEX_KEY, new_int piece)].

Definition UtMetadataRequestMessage_new (piece : Z) : UtMetadataRequestMessage :=
  {| umr_piece := piece; umr_bencode_size := length (encode (request_bencode piece)) |}.
Definition UtMetadataDataMessage_new (piece total_size : Z) (data : bytes)
    : UtMetadataDataMessage :=
  {| umd_piece := piece; umd_total_size := total_size; umd_data := data;
     umd_bencode_size := length (encode (data_bencode piece total_size)) |}.
Definition UtMetadataRejectMessage_new (piece : Z) : UtMetadataRejectMessage :=
  {| umj_piece := piece; umj_bencode_size := length (encode (reject_bencode piece)) |}.

Definition UtMetadataMessage_write_bytes (m : UtMetadataMessage) : bytes :=
  match m with
  | UmRequest m => encode (request_bencode (umr_piece m))
  | UmData m => encode (data_bencode (umd_piece m) (umd_total_size m)) ++ umd_data m
  | UmReject m => encode (reject_bencode (umj_piece m))
  end.

Definition UtMetadataMessage_message_size (m : UtMetadataMessage) : nat :=
  match m with
  | UmRequest m => umr_bencode_size m
  | UmData m => umd_bencode_size m + length (umd_data m)
  | UmReject m => umj_bencode_size m
  end.

Definition ut_decode_opts : BDecodeOpt :=
  {| max_recursion := 2; check_key_sort := false; enforce_full_decode := false |}.

Definition UtMetadataMessage_parse_bytes (bs : bytes) : outcome IoError UtMetadataMessage :=
  bencode ← map_err ParseBencode (BencodeRef_decode bs ut_decode_opts);
  bencode_dict ← convert_dict bencode UT_ROOT_ERROR_KEY;
  msg_type ← parse_message_type bencode_dict;
  piece ← parse_piece_index bencode_dict;
  '(bencode_bytes, extra_bytes) ← split_to (Z.of_nat (length (buffer bencode))) bs;
  if (msg_type =? REQUEST_MESSAGE_TYPE_ID)%Z then
    Ok (UmRequest {| umr_piece := piece; umr_bencode_size := length bencode_bytes |})
  else if (msg_type =? REJECT_MESSAGE_TYPE_ID)%Z then
    Ok (UmReject {| umj_piece := piece; umj_bencode_size := length bencode_bytes |})
  else if (msg_type =? DATA_MESSAGE_TYPE_ID)%Z then
    total_size ← parse_total_size bencode_dict;
    Ok (UmData {| umd_piece := piece; umd_total_size := total_size; umd_data := extra_bytes;
                  umd_bencode_size := length bencode_bytes |})
  else Err (UnknownMessageType msg_type).

(** * prot_ext/mod.rs, prot_ext/null.rs *)

Inductive NullProtocolMessage : Type := .

Inductive PeerExtensionProtocolMessage : Type :=
  | PeUtMetadata (m : UtMetadataMessage)
  | PeCustom (m : NullProtocolMessage).

Definition PeerExtension_message_size (m : PeerExtensionProtocolMessage) : nat :=
  match m with
  | PeUtMetadata m => UtMetadataMessage_message_size m
  | PeCustom m => match m with end
  end.

Definition PeerExtension_write_bytes (m : PeerExtensionProtocolMessage)
    (extended : option ExtendedMessage) : outcome IoError bytes :=
  match m, extended with
  | PeUtMetadata msg, Some extended_msg =>
      ext_id ← ok_or (query_id extended_msg UtMetadata) NoIdMapping;
      let total_len := to_u32 (2 + Z.of_nat (UtMetadataMessage_message_size msg)) in
      Ok (write_length_id_pair total_len (Some EXTENDED_MESSAGE_ID) ++ [ext_id] ++
          UtMetadataMessage_write_bytes msg)
  | PeUtMetadata msg, None => Err SentBeforeExtended
  | PeCustom m, _ => match m with end
  end.

(** [parse_extensions_with_id] *)
Definition parse_extensions_with_id (bs : bytes) (extended_msg : ExtendedMessage)
    (message_len message_id : Z) : parser PeerExtensionProtocolMessage :=
  msg_len ← u32_sub message_len 2;
  '(temp_bytes, _) ← split_off EXTENSION_HEADER_LEN bs;
  if (Z.of_nat (length temp_bytes) <? msg_len)%Z
  then Ok (Done tt (inl (ExtensionTooShort msg_len)))
  else
    '(msg_bytes, _) ← split_to msg_len temp_bytes;
    if bool_decide (query_id extended_msg UtMetadata = Some message_id) then
      res ← as_io (UtMetadataMessage_parse_bytes msg_bytes);
      Ok (Done tt (io_map PeUtMetadata res))
    else Ok (Done tt (inl (UnknownExtensionId message_id))).

Section PeerExtension.
Context `{Nom}.

Definition parse_extensions (bs : bytes) (extended_msg : ExtendedMessage)
    : parser PeerExtensionProtocolMessage :=
  match header3 bs with
  | Done _ (message_len, id, message_id) =>
      if (id =? EXTENDED_MESSAGE_ID)%Z
      then parse_extensions_with_id bs extended_msg message_len message_id
      else Ok Error
  | Error => Ok Error
  | Incomplete n => Ok (Incomplete n)
  end.

Definition PeerExtension_parse_bytes (bs : bytes) (extended : option ExtendedMessage)
    : outcome IoError (io_result PeerExtensionProtocolMessage) :=
  match extended with
  | Some extended_msg =>
      r ← parse_extensions bs extended_msg;
      match r with
      | Done _ result => Ok result
      | _ => Ok (inl FailedToParseExtension)
      end
  | None => Ok (inl ReceivedBeforeExtended)
  end.
End PeerExtension.

(** * message/mod.rs *)

Inductive PeerWireProtocolMessage : Type :=
  | KeepAlive
  | Choke
  | UnChoke
  | Interested
  | UnInterested
  | Have (m : HaveMessage)
  | BitField (m : BitFieldMessage)
  | Request (m : RequestMessage)
  | Piece (m : PieceMessage)
  | Cancel (m : CancelMessage)
  | BitsExtension (m : BitsExtensionMessage)
  | ProtExtension (m : PeerExtensionProtocolMessage).

Definition write_bytes (m : PeerWireProtocolMessage) (extended : option ExtendedMessage)
    : outcome IoError bytes :=
  match m with
  | KeepAlive => Ok (write_length_id_pair KEEP_ALIVE_MESSAGE_LEN None)
  | Choke => Ok (write_length_id_pair CHOKE_MESSAGE_LEN (Some CHOKE_MESSAGE_ID))
  | UnChoke => Ok (write_length_id_pair UNCHOKE_MESSAGE_LEN (Some UNCHOKE_MESSAGE_ID))
  | Interested => Ok (write_length_id_pair INTERESTED_MESSAGE_LEN (Some INTERESTED_MESSAGE_ID))
  | UnInterested =>
      Ok (write_length_id_pair UNINTERESTED_MESSAGE_LEN (Some UNINTERESTED_MESSAGE_ID))
  | Have m => Ok (HaveMessage_write_bytes m)
  | BitField m => Ok (BitFieldMessage_write_bytes m)
  | Request m => Ok (RequestMessage_write_bytes m)
  | Piece m => Ok (PieceMessage_write_bytes m)
  | Cancel m => Ok (CancelMessage_write_bytes m)
  | BitsExtension m => Ok (BitsExtensionMessage_write_bytes m)
  | ProtExtension m => PeerExtension_write_bytes m extended
  end.

Definition message_size (m : PeerWireProtocolMessage) : nat :=
  MESSAGE_LENGTH_LEN_BYTES +
  match m with
  | KeepAlive => Z.to_nat KEEP_ALIVE_MESSAGE_LEN
  | Choke => Z.to_nat CHOKE_MESSAGE_LEN
  | UnChoke => Z.to_nat UNCHOKE_MESSAGE_LEN
  | Interested => Z.to_nat INTERESTED_MESSAGE_LEN
  | UnInterested => Z.to_nat UNINTERESTED_MESSAGE_LEN
  | Have _ => Z.to_nat HAVE_MESSAGE_LEN
  | BitField m => Z.to_nat BASE_BITFIELD_MESSAGE_LEN + length (bitfield m)
  | Request _ => Z.to_nat REQUEST_MESSAGE_LEN
  | Piece m => Z.to_nat BASE_PIECE_MESSAGE_LEN + length (pc_block m)
  | Cancel _ => Z.to_nat CANCEL_MESSAGE_LEN
  | BitsExtension m => BitsExtensionMessage_message_size m
  | ProtExtension m => BASE_PROT_EXTENSION_MESSAGE_LEN + PeerExtension_message_size m
  end.

(** Equality of the optional id byte, as the patterns of the [switch!] test it. *)
Definition opt_eqb (a b : option Z) : bool :=
  match a, b with
  | Some x, Some y => (x =? y)%Z
  | None, None => true
  | _, _ => false
  end.

Section WireParser.
Context `{Nom}.

(** [bytes_needed] *)
Definition bytes_needed (bs : bytes) : outcome IoError (option Z) :=
  match be_u32 bs with
  | Done _ length =>
      l ← u32_to_usize length; Ok (Some (Z.of_nat MESSAGE_LENGTH_LEN_BYTES + l)%Z)
  | _ => Ok None
  end.

(** The arms of the [switch!] on length and id, in order. *)
Definition parse_standard (bs : bytes) : parser PeerWireProtocolMessage :=
  match header_opt bs with
  | Done _ (len, oid) =>
      let has (l : Z) (i : option Z) := (len =? l)%Z && opt_eqb oid i in
      if has KEEP_ALIVE_MESSAGE_LEN None then Ok (Done tt (inr KeepAlive))
      else if has KEEP_ALIVE_MESSAGE_LEN (Some 0%Z) then Ok (Done tt (inr KeepAlive))
      else if has CHOKE_MESSAGE_LEN (Some CHOKE_MESSAGE_ID) then Ok (Done tt (inr Choke))
      else if has UNCHOKE_MESSAGE_LEN (Some UNCHOKE_MESSAGE_ID) then Ok (Done tt (inr UnChoke))
      else if has INTERESTED_MESSAGE_LEN (Some INTERESTED_MESSAGE_ID)
      then Ok (Done tt (inr Interested))
      else if has UNINTERESTED_MESSAGE_LEN (Some UNINTERESTED_MESSAGE_ID)
      then Ok (Done tt (inr UnInterested))
      else if has HAVE_MESSAGE_LEN (Some HAVE_MESSAGE_ID) then
        '(tail, _) ← split_off HEADER_LEN bs;
        parser_map Have (HaveMessage_parse_bytes tail)
      else if opt_eqb oid (Some BITFIELD_MESSAGE_ID) then
        '(tail, _) ← split_off HEADER_LEN bs;
        l ← u32_sub len 1;
        parser_map BitField (BitFieldMessage_parse_bytes tail l)
      else if has REQUEST_MESSAGE_LEN (Some REQUEST_MESSAGE_ID) then
        '(tail, _) ← split_off HEADER_LEN bs;
        parser_map Request (RequestMessage_parse_bytes tail)
      else if opt_eqb oid (Some PIECE_MESSAGE_ID) then
        '(tail, _) ← split_off HEADER_LEN bs;
        l ← u32_sub len 1;
        parser_map Piece (PieceMessage_parse_bytes tail l)
      else if has CANCEL_MESSAGE_LEN (Some CANCEL_MESSAGE_ID) then
        '(tail, _) ← split_off HEADER_LEN bs;
        parser_map Cancel (CancelMessage_parse_bytes tail)
      else Ok Error
  | Error => Ok Error
  | Incomplete n => Ok (Incomplete n)
  end.

(** [parse_message]: the standard messages, else the extension-bit messages,
    else the extension protocol.  An arm that has split the buffer does not
    end in [Error], so each alternative sees the whole of it. *)
Definition parse_message (bs : bytes) (extended : option ExtendedMessage)
    : parser PeerWireProtocolMessage :=
  r1 ← parse_standard bs;
  match r1 with
  | Error =>
      r2 ← parser_map BitsExtension (parse_extension bs);
      match r2 with
      | Error =>
          r3 ← PeerExtension_parse_bytes bs extended;
          Ok (Done tt (io_map ProtExtension r3))
      | other => Ok other
      end
  | other => Ok other
  end.

(** [PeerWireProtocolMessage::parse_bytes] *)
Definition parse_bytes (bs : bytes) (extended : option ExtendedMessage)
    : outcome IoError PeerWireProtocolMessage :=
  r ← parse_message bs extended;
  match r with
  | Done _ (inr m) => Ok m
  | Done _ (inl e) => Err e
  | _ => Err FailedToParseWire
  end.
End WireParser.

(** * codec/codec.rs *)

Record PeerWireMessageCodec := {
  our_extended_msg : option ExtendedMessage;
  their_extended_msg : option ExtendedMessage;
}.

Definition codec_new : PeerWireMessageCodec :=
  {| our_extended_msg := None; their_extended_msg := None |}.

Definition codec_write_bytes (c : PeerWireMessageCodec) (m : PeerWireProtocolMessage)
    : outcome IoError bytes * PeerWireMessageCodec :=
  let res := write_bytes m (their_extended_msg c) in
  match res, m with
  | Ok _, BitsExtension (Extended msg) =>
      (res, {| our_extended_msg := Some msg; their_extended_msg := their_extended_msg c |})
  | _, _ => (res, c)
  end.

Section Codec.
Context `{Nom}.

Definition codec_parse_bytes (c : PeerWireMessageCodec) (bs : bytes)
    : outcome IoError PeerWireProtocolMessage * PeerWireMessageCodec :=
  let res := parse_bytes bs (our_extended_msg c) in
  match res with
  | Ok (BitsExtension (Extended msg)) =>
      (res, {| our_extended_msg := our_extended_msg c; their_extended_msg := Some msg |})
  | _ => (res, c)
  end.
End Codec.
