(* ===== verification/PeerMessageCorrect.v ===== *)
(** PeerMessageCorrect: the peer wire messages survive a trip over the wire. *)

From stdpp Require Import base list gmap.
From Stdlib Require Import ZArith Lia.
From S2P Require Import Prelude OrdMap Bencode BencodeCorrect Convert Nom PeerMessage.

(** * The frame of a message *)

(** Length prefix, id byte, body. *)
Definition frame (len id : Z) (body : bytes) : bytes := be_bytes 4 len ++ id :: body.

Arguments frame : simpl never.

Lemma length_frame len id body : length (frame len id body) = 5 + length body.
Proof. unfold frame. rewrite length_app, length_be_bytes. simpl. lia. Qed.

Lemma wire_frame_app len id body rest : frame len id body ++ rest = frame len id (body ++ rest).
Proof. unfold frame. by rewrite <- app_assoc. Qed.

Lemma be_val_one b : be_val [b] = b.
Proof. done. Qed.

Lemma to_u32_id z : is_u32 z -> to_u32 z = z.
Proof. apply Z.mod_small. Qed.

Lemma u32_to_usize_id {E} z : is_u32 z -> @u32_to_usize E z = Ok z.
Proof.
  intros Hz. unfold u32_to_usize, to_u64, to_u32, is_u32 in *.
  rewrite (Z.mod_small z) by lia. rewrite Z.mod_small by lia. by rewrite Z.eqb_refl.
Qed.

Lemma u32_sub_ok {E} a b : (b <= a)%Z -> @u32_sub E a b = Ok (a - b)%Z.
Proof. intros H. unfold u32_sub. by destruct (Z.leb_spec b a); [|lia]. Qed.

Lemma split_off_app {E} (a b : bytes) n : n = length a -> @split_off E n (a ++ b) = Ok (b, a).
Proof.
  intros ->. unfold split_off. rewrite length_app.
  destruct (Nat.leb_spec (length a) (length a + length b)); [|lia].
  by rewrite drop_app_length, take_app_length.
Qed.

Lemma split_off_header {E} len id body :
  @split_off E HEADER_LEN (frame len id body) = Ok (body, be_bytes 4 len ++ [id]).
Proof.
  unfold frame. rewrite cons_middle, app_assoc. apply split_off_app.
  by rewrite length_app, length_be_bytes.
Qed.

Lemma split_off_ext_header {E} len id e body :
  @split_off E (HEADER_LEN + 1) (frame len id (e :: body)) = Ok (body, be_bytes 4 len ++ [id; e]).
Proof.
  unfold frame. change (id :: e :: body) with ([id; e] ++ body). rewrite app_assoc.
  apply split_off_app. by rewrite length_app, length_be_bytes.
Qed.

Lemma split_to_app {E} (a b : bytes) n :
  n = Z.of_nat (length a) -> @split_to E n (a ++ b) = Ok (a, b).
Proof.
  intros ->. unfold split_to. rewrite length_app.
  destruct (Z.leb_spec (Z.of_nat (length a)) (Z.of_nat (length a + length b))); [|lia].
  by rewrite Nat2Z.id, drop_app_length, take_app_length.
Qed.

(** * Headers *)

Section Headers.
Context {N : Nom}.

Lemma header_opt_frame len id body :
  is_u32 len -> header_opt (frame len id body) = Done body (len, Some id).
Proof.
  intros Hl. unfold header_opt, frame. rewrite be_u32_app by done. simpl.
  by rewrite (opt_done _ _ _ _ (be_u8_cons id body)).
Qed.

Lemma header2_frame len id body :
  is_u32 len -> header2 (frame len id body) = Done body (len, id).
Proof.
  intros Hl. unfold header2, frame. rewrite be_u32_app by done. simpl.
  by rewrite be_u8_cons.
Qed.

Lemma header3_frame len id e body :
  is_u32 len -> header3 (frame len id (e :: body)) = Done body (len, id, e).
Proof.
  intros Hl. unfold header3, frame. rewrite be_u32_app by done. simpl.
  rewrite be_u8_cons. simpl. by rewrite be_u8_cons.
Qed.

Lemma header3_frame_short len id :
  is_u32 len -> exists n, header3 (frame len id []) = Incomplete n.
Proof.
  intros Hl. unfold header3, frame. rewrite be_u32_app by done. simpl.
  rewrite be_u8_cons. simpl. destruct (be_u8_short []) as [n ->]; [simpl; lia|]. by exists n.
Qed.

(** Fewer than four bytes, or exactly four. *)
Lemma parse_short bs ext : length bs < 4 -> parse_bytes bs ext = Err FailedToParseWire.
Proof.
  intros H. unfold parse_bytes, parse_message, parse_standard, header_opt.
  destruct (be_u32_short bs H) as [n ->]. done.
Qed.

Lemma parse_four len ext :
  is_u32 len -> len <> 0%Z -> parse_bytes (be_bytes 4 len) ext = Err FailedToParseWire.
Proof.
  intros Hl Hne. unfold parse_bytes, parse_message, parse_standard, header_opt.
  rewrite <- (app_nil_r (be_bytes 4 len)), be_u32_app by done. cbn [iresult_bind].
  destruct (be_u8_short []) as [n Hn]; [simpl; lia|].
  destruct (opt_incomplete be_u8 [] n Hn) as [->| ->]; [|done]. cbn [iresult_bind].
  destruct (Z.eqb_spec len KEEP_ALIVE_MESSAGE_LEN); [done|]. cbn [andb opt_eqb].
  rewrite !andb_false_r. cbn [mbind outcome_bind]. unfold parse_extension, header2.
  rewrite be_u32_app by done. cbn [iresult_bind]. by rewrite Hn.
Qed.
End Headers.

(** * One arm at a time: a frame with any bytes after the id *)

Section Arms.
Context {N : Nom}.

(** What [parse_bytes] makes of a parser's answer. *)
Definition finish {A} (f : A -> PeerWireProtocolMessage) (r : IResult unit (io_result A))
    : outcome IoError PeerWireProtocolMessage :=
  match r with
  | Done _ (inr m) => Ok (f m)
  | Done _ (inl e) => Err e
  | _ => Err FailedToParseWire
  end.

Lemma parse_bytes_std {A} (f : A -> PeerWireProtocolMessage) bs ext r :
  parse_standard bs = Ok (iresult_map (io_map f) r) -> r <> Error ->
  parse_bytes bs ext = finish f r.
Proof.
  intros Hs Hr. unfold parse_bytes, parse_message. rewrite Hs. cbn [mbind outcome_bind].
  destruct r as [u [e|m]| |n]; done.
Qed.

Lemma three_u32_done t :
  12 <= length t ->
  three_u32 t = Done (drop 12 t)
    (be_val (take 4 t), be_val (take 4 (drop 4 t)), be_val (take 4 (drop 8 t))).
Proof.
  intros H. unfold three_u32. rewrite be_u32_done by lia. cbn [iresult_bind].
  rewrite be_u32_done by (rewrite length_drop; lia). cbn [iresult_bind].
  rewrite be_u32_done by (rewrite !length_drop; lia). cbn [iresult_bind].
  by rewrite !drop_drop.
Qed.

Lemma three_u32_short t : length t < 12 -> exists n, three_u32 t = Incomplete n.
Proof.
  intros H. unfold three_u32. destruct (decide (length t < 4)) as [Ha|Ha].
  { destruct (be_u32_short t Ha) as [n ->]. by exists n. }
  rewrite be_u32_done by lia. cbn [iresult_bind].
  destruct (decide (length (drop 4 t) < 4)) as [Hb|Hb].
  { destruct (be_u32_short _ Hb) as [n ->]. by exists n. }
  rewrite be_u32_done by lia. cbn [iresult_bind].
  destruct (be_u32_short (drop 4 (drop 4 t))) as [n ->]; [rewrite !length_drop; lia|].
  by exists n.
Qed.

Lemma arm_have t ext :
  parse_bytes (frame HAVE_MESSAGE_LEN HAVE_MESSAGE_ID t) ext =
  if 4 <=? length t then Ok (Have {| have_piece_index := be_val (take 4 t) |})
  else Err FailedToParseWire.
Proof.
  destruct (Nat.leb_spec 4 (length t)).
  - eapply (parse_bytes_std Have _ _ (Done tt (inr _))); [|done].
    unfold parse_standard. rewrite header_opt_frame by done. cbn.
    rewrite split_off_header. cbn. unfold HaveMessage_parse_bytes, parse_have.
    by rewrite be_u32_done.
  - destruct (be_u32_short t) as [n Hn]; [done|].
    apply (parse_bytes_std Have _ _ (Incomplete n)); [|done].
    unfold parse_standard. rewrite header_opt_frame by done. cbn.
    rewrite split_off_header. cbn. unfold HaveMessage_parse_bytes, parse_have. by rewrite Hn.
Qed.

Lemma arm_request t ext :
  (12 <= length t -> is_u32 (be_val (take 4 (drop 8 t)))) ->
  parse_bytes (frame REQUEST_MESSAGE_LEN REQUEST_MESSAGE_ID t) ext =
  if 12 <=? length t then
    Ok (Request {| rq_piece_index := be_val (take 4 t);
                   rq_block_offset := be_val (take 4 (drop 4 t));
                   rq_block_length := be_val (take 4 (drop 8 t)) |})
  else Err FailedToParseWire.
Proof.
  intros Ht. destruct (Nat.leb_spec 12 (length t)).
  - eapply (parse_bytes_std Request _ _ (Done tt (inr _))); [|done].
    unfold parse_standard. rewrite header_opt_frame by done. cbn.
    rewrite split_off_header. cbn. unfold RequestMessage_parse_bytes, parse_request.
    rewrite three_u32_done by done. rewrite u32_to_usize_id by auto.
    done.
  - destruct (three_u32_short t) as [n Hn]; [done|].
    apply (parse_bytes_std Request _ _ (Incomplete n)); [|done].
    unfold parse_standard. rewrite header_opt_frame by done. cbn.
    rewrite split_off_header. cbn. unfold RequestMessage_parse_bytes, parse_request.
    by rewrite Hn.
Qed.

Lemma arm_cancel t ext :
  (12 <= length t -> is_u32 (be_val (take 4 (drop 8 t)))) ->
  parse_bytes (frame CANCEL_MESSAGE_LEN CANCEL_MESSAGE_ID t) ext =
  if 12 <=? length t then
    Ok (Cancel {| cn_piece_index := be_val (take 4 t);
                  cn_block_offset := be_val (take 4 (drop 4 t));
                  cn_block_length := be_val (take 4 (drop 8 t)) |})
  else Err FailedToParseWire.
Proof.
  intros Ht. destruct (Nat.leb_spec 12 (length t)).
  - eapply (parse_bytes_std Cancel _ _ (Done tt (inr _))); [|done].
    unfold parse_standard. rewrite header_opt_frame by done. cbn.
    rewrite split_off_header. cbn. unfold CancelMessage_parse_bytes, parse_cancel.
    rewrite three_u32_done by done. rewrite u32_to_usize_id by auto.
    done.
  - destruct (three_u32_short t) as [n Hn]; [done|].
    apply (parse_bytes_std Cancel _ _ (Incomplete n)); [|done].
    unfold parse_standard. rewrite header_opt_frame by done. cbn.
    rewrite split_off_header. cbn. unfold CancelMessage_parse_bytes, parse_cancel.
    by rewrite Hn.
Qed.

(** The tests of the other arms fail on the id alone. *)
Lemma std_bitfield len t :
  is_u32 len -> (1 <= len)%Z ->
  parse_standard (frame len BITFIELD_MESSAGE_ID t)
  = parser_map BitField (BitFieldMessage_parse_bytes t (len - 1)).
Proof.
  intros Hl H1. unfold parse_standard. rewrite header_opt_frame by done.
  cbn [opt_eqb]. change (BITFIELD_MESSAGE_ID =? BITFIELD_MESSAGE_ID)%Z with true.
  repeat match goal with |- context [(BITFIELD_MESSAGE_ID =? ?x)%Z] =>
    change (BITFIELD_MESSAGE_ID =? x)%Z with false end.
  rewrite !andb_false_r. rewrite split_off_header. cbn [mbind outcome_bind].
  by rewrite u32_sub_ok.
Qed.

Lemma arm_bitfield len t ext :
  is_u32 len -> (1 <= len)%Z ->
  parse_bytes (frame len BITFIELD_MESSAGE_ID t) ext =
  if (len - 1 <=? Z.of_nat (length t))%Z
  then Ok (BitField {| bitfield := take (Z.to_nat (len - 1)) t |})
  else Err FailedToParseWire.
Proof.
  intros Hl H1. pose proof (std_bitfield len t Hl H1) as Hs.
  unfold BitFieldMessage_parse_bytes in Hs.
  rewrite u32_to_usize_id in Hs by (unfold is_u32 in *; lia). cbn [mbind outcome_bind] in Hs.
  destruct (Z.leb_spec (len - 1) (Z.of_nat (length t))) as [Hle|Hgt].
  - unfold split_to in Hs. destruct (Z.leb_spec (len - 1) (Z.of_nat (length t))); [|lia].
    by apply (parse_bytes_std BitField _ _ (Done tt (inr _)) Hs).
  - by apply (parse_bytes_std BitField _ _ (Incomplete _) Hs).
Qed.

Lemma std_piece len t :
  is_u32 len -> (1 <= len)%Z ->
  parse_standard (frame len PIECE_MESSAGE_ID t)
  = parser_map Piece (PieceMessage_parse_bytes t (len - 1)).
Proof.
  intros Hl H1. unfold parse_standard. rewrite header_opt_frame by done.
  cbn [opt_eqb]. change (PIECE_MESSAGE_ID =? PIECE_MESSAGE_ID)%Z with true.
  repeat match goal with |- context [(PIECE_MESSAGE_ID =? ?x)%Z] =>
    change (PIECE_MESSAGE_ID =? x)%Z with false end.
  rewrite !andb_false_r. rewrite split_off_header. cbn [mbind outcome_bind].
  by rewrite u32_sub_ok.
Qed.

Lemma two_u32_done t :
  8 <= length t ->
  iresult_bind (be_u32 t) (fun i a => iresult_bind (be_u32 i) (fun i b => Done i (a, b)))
  = Done (drop 8 t) (be_val (take 4 t), be_val (take 4 (drop 4 t))).
Proof.
  intros H. rewrite be_u32_done by lia. cbn [iresult_bind].
  rewrite be_u32_done by (rewrite length_drop; lia). cbn [iresult_bind]. by rewrite drop_drop.
Qed.

Lemma arm_piece len t ext :
  is_u32 len -> (9 <= len)%Z ->
  parse_bytes (frame len PIECE_MESSAGE_ID t) ext =
  if (len - 1 <=? Z.of_nat (length t))%Z
  then Ok (Piece {| pc_piece_index := be_val (take 4 t);
                    pc_block_offset := be_val (take 4 (drop 4 t));
                    pc_block := take (Z.to_nat (len - 9)) (drop 8 t) |})
  else Err FailedToParseWire.
Proof.
  intros Hl H9. pose proof (std_piece len t Hl ltac:(lia)) as Hs.
  unfold PieceMessage_parse_bytes, parse_piece in Hs.
  destruct (decide (length t < 8)) as [H8|H8].
  { assert (Hi : exists n, iresult_bind (be_u32 t)
      (fun i a => iresult_bind (be_u32 i) (fun i b => Done i (a, b))) = Incomplete n).
    { destruct (decide (length t < 4)) as [H4|H4].
      - destruct (be_u32_short t H4) as [n ->]. by exists n.
      - rewrite be_u32_done by lia. cbn [iresult_bind].
        destruct (be_u32_short (drop 4 t)) as [n ->]; [rewrite length_drop; lia|]. by exists n. }
    destruct Hi as [n Hi]. rewrite Hi in Hs. destruct (Z.leb_spec (len - 1) (Z.of_nat (length t))); [lia|].
    by apply (parse_bytes_std Piece _ _ (Incomplete n) Hs). }
  rewrite two_u32_done, u32_sub_ok in Hs by lia. cbn [mbind outcome_bind] in Hs.
  replace (len - 1 - 8)%Z with (len - 9)%Z in Hs by lia.
  rewrite u32_to_usize_id in Hs by (unfold is_u32 in *; lia). cbn [mbind outcome_bind] in Hs.
  destruct (Z.leb_spec (len - 1) (Z.of_nat (length t))) as [Hle|Hgt].
  - rewrite take_bytes_done in Hs by (rewrite length_drop; lia).
    rewrite slice_in in Hs by lia. cbn [mbind outcome_bind] in Hs.
    rewrite Nat.add_comm, Nat.add_sub in Hs.
    by apply (parse_bytes_std Piece _ _ (Done tt (inr _)) Hs).
  - destruct (take_bytes_short (len - 9) (drop 8 t)) as [n Hn]; [rewrite length_drop; lia|].
    rewrite Hn in Hs. by apply (parse_bytes_std Piece _ _ (Incomplete n) Hs).
Qed.

(** The ids no standard message has. *)
Lemma std_none len id t :
  is_u32 len -> id = PORT_MESSAGE_ID \/ id = EXTENDED_MESSAGE_ID ->
  parse_standard (frame len id t) = Ok Error.
Proof.
  intros Hl Hid. unfold parse_standard. rewrite header_opt_frame by done.
  destruct Hid as [-> | ->]; cbn [opt_eqb];
    repeat match goal with |- context [(?i =? ?x)%Z] =>
      first [change (i =? x)%Z with false | fail 1] end; by rewrite ?andb_false_r.
Qed.

Lemma parse_bytes_ext bs ext r :
  parse_standard bs = Ok Error -> parse_extension bs = Ok r -> r <> Error ->
  parse_bytes bs ext = finish BitsExtension r.
Proof.
  intros Hs He Hr. unfold parse_bytes, parse_message. rewrite Hs. cbn [mbind outcome_bind].
  rewrite He. destruct r as [u [e|m]| |n]; done.
Qed.

Lemma arm_port t ext :
  parse_bytes (frame PORT_MESSAGE_LEN PORT_MESSAGE_ID t) ext =
  if 2 <=? length t then Ok (BitsExtension (Port {| port_of := be_val (take 2 t) |}))
  else Err FailedToParseWire.
Proof.
  assert (Hs : parse_standard (frame PORT_MESSAGE_LEN PORT_MESSAGE_ID t) = Ok Error)
    by (apply std_none; [done|by left]).
  assert (He : parse_extension (frame PORT_MESSAGE_LEN PORT_MESSAGE_ID t) =
    (r ← parser_map Port (PortMessage_parse_bytes t); match r with
     | Error => parse_extension (frame PORT_MESSAGE_LEN PORT_MESSAGE_ID t)
     | other => Ok other end)).
  { unfold parse_extension at 1. rewrite header2_frame by done. cbn [andb].
    rewrite split_off_header. cbn [mbind outcome_bind]. unfold PortMessage_parse_bytes.
    destruct (Nat.leb_spec 2 (length t)); [by rewrite be_u16_done|].
    destruct (be_u16_short t) as [n ->]; done. }
  unfold PortMessage_parse_bytes in He. destruct (Nat.leb_spec 2 (length t)).
  - rewrite be_u16_done in He by done. by rewrite (parse_bytes_ext _ _ _ Hs He).
  - destruct (be_u16_short t) as [n Hn]; [done|]. rewrite Hn in He.
    by rewrite (parse_bytes_ext _ _ _ Hs He).
Qed.

(** [parse_extension] on an extended id goes on to its second [switch!]. *)
Lemma extension_second len t :
  is_u32 len ->
  parse_extension (frame len EXTENDED_MESSAGE_ID t) =
  match header3 (frame len EXTENDED_MESSAGE_ID t) with
  | Done _ (message_len, id, e) =>
      if (id =? EXTENDED_MESSAGE_ID)%Z && (e =? EXTENDED_MESSAGE_HANDSHAKE_ID)%Z then
        '(tail, _) ← split_off (HEADER_LEN + 1) (frame len EXTENDED_MESSAGE_ID t);
        l ← u32_sub message_len 2;
        parser_map Extended (ExtendedMessage_parse_bytes tail l)
      else Ok Error
  | Error => Ok Error
  | Incomplete n => Ok (Incomplete n)
  end.
Proof.
  intros Hl. unfold parse_extension. rewrite header2_frame by done.
  change (EXTENDED_MESSAGE_ID =? PORT_MESSAGE_ID)%Z with false. by rewrite andb_false_r.
Qed.

Lemma arm_extended_empty len ext :
  is_u32 len -> parse_bytes (frame len EXTENDED_MESSAGE_ID []) ext = Err FailedToParseWire.
Proof.
  intros Hl. destruct (header3_frame_short len EXTENDED_MESSAGE_ID Hl) as [n Hn].
  pose proof (extension_second len [] Hl) as He. rewrite Hn in He.
  by rewrite (parse_bytes_ext _ ext _ (std_none _ _ _ Hl (or_intror eq_refl)) He).
Qed.

Lemma arm_extended len t ext :
  is_u32 len -> (2 <= len)%Z ->
  parse_bytes (frame len EXTENDED_MESSAGE_ID (EXTENDED_MESSAGE_HANDSHAKE_ID :: t)) ext =
  if (len - 2 <=? Z.of_nat (length t))%Z
  then m ← extended_of_bencode (take (Z.to_nat (len - 2)) t); Ok (BitsExtension (Extended m))
  else Err FailedToParseWire.
Proof.
  intros Hl H2. pose proof (extension_second len (EXTENDED_MESSAGE_HANDSHAKE_ID :: t) Hl) as He.
  rewrite header3_frame in He by done. cbn [Z.eqb andb] in He.
  rewrite split_off_ext_header in He. cbn [mbind outcome_bind] in He.
  rewrite u32_sub_ok in He by lia. cbn [mbind outcome_bind] in He.
  unfold ExtendedMessage_parse_bytes in He.
  rewrite u32_to_usize_id in He by (unfold is_u32 in *; lia). cbn [mbind outcome_bind] in He.
  pose proof (std_none len _ (EXTENDED_MESSAGE_HANDSHAKE_ID :: t) Hl (or_intror eq_refl)) as Hs.
  destruct (Z.leb_spec (len - 2) (Z.of_nat (length t))) as [Hle|Hgt].
  - unfold split_to in He. destruct (Z.leb_spec (len - 2) (Z.of_nat (length t))); [|lia].
    cbn [mbind outcome_bind] in He. unfold as_io in He.
    destruct (extended_of_bencode _) as [m|e| |]; cbn [mbind outcome_bind] in He |- *.
    + by rewrite (parse_bytes_ext _ ext _ Hs He).
    + by rewrite (parse_bytes_ext _ ext _ Hs He).
    + unfold parse_bytes, parse_message. rewrite Hs. cbn [mbind outcome_bind]. by rewrite He.
    + unfold parse_bytes, parse_message. rewrite Hs. cbn [mbind outcome_bind]. by rewrite He.
  - by rewrite (parse_bytes_ext _ ext _ Hs He).
Qed.

Lemma arm_ut_metadata len e t em :
  is_u32 len -> (2 <= len)%Z -> e <> EXTENDED_MESSAGE_HANDSHAKE_ID ->
  query_id em UtMetadata = Some e ->
  parse_bytes (frame len EXTENDED_MESSAGE_ID (e :: t)) (Some em) =
  if (Z.of_nat (length t) <? len - 2)%Z then Err (ExtensionTooShort (len - 2))
  else m ← UtMetadataMessage_parse_bytes (take (Z.to_nat (len - 2)) t);
       Ok (ProtExtension (PeUtMetadata m)).
Proof.
  intros Hl H2 Hne Hq. pose proof (extension_second len (e :: t) Hl) as He.
  rewrite header3_frame in He by done.
  destruct (Z.eqb_spec e EXTENDED_MESSAGE_HANDSHAKE_ID); [done|]. rewrite andb_false_r in He.
  unfold parse_bytes, parse_message.
  rewrite (std_none len _ (e :: t) Hl (or_intror eq_refl)). cbn [mbind outcome_bind].
  rewrite He. cbn [parser_map mbind outcome_bind iresult_map iresult_bind].
  unfold PeerExtension_parse_bytes, parse_extensions. rewrite header3_frame by done.
  change (EXTENDED_MESSAGE_ID =? EXTENDED_MESSAGE_ID)%Z with true. cbn iota.
  unfold parse_extensions_with_id. rewrite u32_sub_ok by lia. cbn [mbind outcome_bind].
  change EXTENSION_HEADER_LEN with (HEADER_LEN + 1). rewrite split_off_ext_header.
  cbn [mbind outcome_bind]. destruct (Z.ltb_spec (Z.of_nat (length t)) (len - 2)); [done|].
  unfold split_to. destruct (Z.leb_spec (len - 2) (Z.of_nat (length t))); [|lia].
  cbn [mbind outcome_bind]. rewrite bool_decide_eq_true_2 by done. unfold as_io.
  by destruct (UtMetadataMessage_parse_bytes _).
Qed.
End Arms.

(** * ut_metadata messages *)

Definition ut_ok (m : UtMetadataMessage) : Prop :=
  match m with
  | UmRequest r => is_i64 (umr_piece r) /\ r = UtMetadataRequestMessage_new (umr_piece r)
  | UmData d => is_i64 (umd_piece d) /\ is_i64 (umd_total_size d) /\
      d = UtMetadataDataMessage_new (umd_piece d) (umd_total_size d) (umd_data d)
  | UmReject r => is_i64 (umj_piece r) /\ r = UtMetadataRejectMessage_new (umj_piece r)
  end.

Lemma ut_size m : ut_ok m -> UtMetadataMessage_message_size m = length (UtMetadataMessage_write_bytes m).
Proof.
  destruct m as [r|d|r]; simpl.
  - by intros [_ ->].
  - intros (_ & _ & ->). by rewrite length_app.
  - by intros [_ ->].
Qed.

(** Decoding what was encoded, with more bytes after it. *)
Lemma ut_decode v rest :
  wf_mut v = true -> nesting v <= 2 ->
  BencodeRef_decode (encode v ++ rest) ut_decode_opts = Ok (to_ref v).
Proof.
  intros Hw Hn. unfold BencodeRef_decode. rewrite decode_encode_at by done.
  cbn [mbind outcome_bind ut_decode_opts enforce_full_decode]. by rewrite andb_false_r.
Qed.

Lemma buffer_to_ref v : buffer (to_ref v) = encode v.
Proof. by destruct v. Qed.

Lemma in_i64_true z : is_i64 z -> in_i64 z = true.
Proof. apply in_i64_spec. Qed.

Lemma request_bencode_wf t p :
  is_i64 p -> is_i64 t ->
  wf_mut (MDict [(MESSAGE_TYPE_KEY, MInt t); (PIECE_INDEX_KEY, MInt p)]) = true.
Proof. intros Hp Ht. cbn [wf_mut forallb]. by rewrite !in_i64_true. Qed.

Lemma ut_roundtrip m :
  ut_ok m -> UtMetadataMessage_parse_bytes (UtMetadataMessage_write_bytes m) = Ok m.
Proof.
  intros Hm. unfold UtMetadataMessage_parse_bytes.
  destruct m as [r|d|r]; cbn [UtMetadataMessage_write_bytes] in *.
  - destruct Hm as [Hp Hr]. set (v := request_bencode (umr_piece r)).
    rewrite <- (app_nil_r (encode v)), ut_decode; [|by apply request_bencode_wf|done].
    cbn [map_err mbind outcome_bind]. rewrite buffer_to_ref, split_to_app by done.
    rewrite Hr. done.
  - destruct Hm as (Hp & Ht & Hd). set (v := data_bencode (umd_piece d) (umd_total_size d)).
    rewrite ut_decode; [| |done].
    2:{ change v with (MDict [(MESSAGE_TYPE_KEY, MInt 1); (PIECE_INDEX_KEY, MInt (umd_piece d));
          (TOTAL_SIZE_KEY, MInt (umd_total_size d))]).
        cbn [wf_mut forallb]. by rewrite !in_i64_true. }
    cbn [map_err mbind outcome_bind]. rewrite buffer_to_ref, split_to_app by done.
    rewrite Hd. done.
  - destruct Hm as [Hp Hr]. set (v := reject_bencode (umj_piece r)).
    rewrite <- (app_nil_r (encode v)), ut_decode; [|by apply request_bencode_wf|done].
    cbn [map_err mbind outcome_bind]. rewrite buffer_to_ref, split_to_app by done.
    rewrite Hr. done.
Qed.

(** * Well-formed messages *)

(** What the Rust types and the constructors guarantee of a message, and what a
    length prefix of 32 bits can express.  An extended message carries the
    bencode its fields were read from.  A [ut_metadata] message needs the
    receiver to have announced a nonzero id for it. *)
Definition msg_ok (ext : option ExtendedMessage) (m : PeerWireProtocolMessage) : Prop :=
  match m with
  | KeepAlive | Choke | UnChoke | Interested | UnInterested => True
  | Have h => is_u32 (have_piece_index h)
  | BitField b => is_u32 (1 + Z.of_nat (length (bitfield b)))
  | Request r => is_u32 (rq_piece_index r) /\ is_u32 (rq_block_offset r) /\ is_u32 (rq_block_length r)
  | Piece p => is_u32 (pc_piece_index p) /\ is_u32 (pc_block_offset p) /\
      is_u32 (9 + Z.of_nat (length (pc_block p)))
  | Cancel r => is_u32 (cn_piece_index r) /\ is_u32 (cn_block_offset r) /\ is_u32 (cn_block_length r)
  | BitsExtension (Port p) => is_u16 (port_of p)
  | BitsExtension (Extended e) =>
      is_u32 (2 + Z.of_nat (length (raw_bencode e))) /\ extended_of_bencode (raw_bencode e) = Ok e
  | ProtExtension (PeUtMetadata u) =>
      exists em id, ext = Some em /\ query_id em UtMetadata = Some id /\ (0 < id < 256)%Z /\
        ut_ok u /\ is_u32 (2 + Z.of_nat (length (UtMetadataMessage_write_bytes u)))
  | ProtExtension (PeCustom _) => False
  end.

Section Wire.
Context {N : Nom}.

(** The bytes of a message: a frame that is parsed back, whatever follows it,
    and of which no proper prefix is parsed. *)
Definition wire_form (ext : option ExtendedMessage) (m : PeerWireProtocolMessage)
    (len id : Z) (body : bytes) : Prop :=
  write_bytes m ext = Ok (frame len id body) /\
  is_u32 len /\ len = (1 + Z.of_nat (length body))%Z /\ message_size m = 5 + length body /\
  (forall rest, parse_bytes (frame len id (body ++ rest)) ext = Ok m) /\
  (forall t k, body = t ++ k -> k <> [] -> exists e, parse_bytes (frame len id t) ext = Err e).

Lemma wire_have h ext : is_u32 (have_piece_index h) ->
  wire_form ext (Have h) HAVE_MESSAGE_LEN HAVE_MESSAGE_ID (be_bytes 4 (have_piece_index h)).
Proof.
  intros Hh. split_and!; [done|done|done|done| |].
  - intros rest. rewrite arm_have, length_app, length_be_bytes. cbn [Nat.leb Nat.add].
    rewrite take_app_length' by (by rewrite length_be_bytes). rewrite be_u32_id by done.
    by destruct h.
  - intros t k Ht Hk. rewrite arm_have. apply (f_equal length) in Ht.
    rewrite length_be_bytes, length_app in Ht. destruct k; [done|]. simpl in Ht.
    destruct (Nat.leb_spec 4 (length t)); [lia|eauto].
Qed.

Lemma three_fields a b c rest :
  is_u32 a -> is_u32 b -> is_u32 c ->
  let t := (be_bytes 4 a ++ be_bytes 4 b ++ be_bytes 4 c) ++ rest in
  12 <= length t /\ be_val (take 4 t) = a /\ be_val (take 4 (drop 4 t)) = b /\
  be_val (take 4 (drop 8 t)) = c.
Proof.
  intros Ha Hb Hc t. unfold t. rewrite <- !app_assoc. split.
  { rewrite !length_app, !length_be_bytes. lia. }
  rewrite take_app_length', be_u32_id by (done || by rewrite length_be_bytes).
  rewrite drop_app_length' by (by rewrite length_be_bytes).
  rewrite take_app_length', be_u32_id by (done || by rewrite length_be_bytes).
  split_and!; [done..|]. rewrite app_assoc.
  rewrite drop_app_length' by (by rewrite length_app, !length_be_bytes).
  by rewrite take_app_length', be_u32_id by (done || by rewrite length_be_bytes).
Qed.

Lemma prefix_shorter {A} (body t k : list A) : body = t ++ k -> k <> [] -> length t < length body.
Proof. intros -> Hk. rewrite length_app. destruct k; [done|simpl; lia]. Qed.

Lemma wire_request r ext : msg_ok ext (Request r) ->
  wire_form ext (Request r) REQUEST_MESSAGE_LEN REQUEST_MESSAGE_ID
    (be_bytes 4 (rq_piece_index r) ++ be_bytes 4 (rq_block_offset r) ++
     be_bytes 4 (rq_block_length r)).
Proof.
  intros (Ha & Hb & Hc). split_and!; [|done|done|done| |].
  - cbn [write_bytes]. unfold RequestMessage_write_bytes, write_length_id_pair.
    rewrite to_u32_id, <- app_assoc by done. done.
  - intros rest. destruct (three_fields _ _ _ rest Ha Hb Hc) as (H1 & H2 & H3 & H4).
    rewrite arm_request by (by rewrite H4). rewrite H2, H3, H4.
    destruct (Nat.leb_spec 12 (length ((be_bytes 4 (rq_piece_index r) ++
      be_bytes 4 (rq_block_offset r) ++ be_bytes 4 (rq_block_length r)) ++ rest))); [|lia].
    by destruct r.
  - intros t k Ht Hk. apply prefix_shorter in Ht; [|done]. rewrite !length_app, !length_be_bytes in Ht.
    rewrite arm_request by lia. destruct (Nat.leb_spec 12 (length t)); [lia|eauto].
Qed.

Lemma wire_cancel r ext : msg_ok ext (Cancel r) ->
  wire_form ext (Cancel r) CANCEL_MESSAGE_LEN CANCEL_MESSAGE_ID
    (be_bytes 4 (cn_piece_index r) ++ be_bytes 4 (cn_block_offset r) ++
     be_bytes 4 (cn_block_length r)).
Proof.
  intros (Ha & Hb & Hc). split_and!; [|done|done|done| |].
  - cbn [write_bytes]. unfold CancelMessage_write_bytes, write_length_id_pair.
    rewrite to_u32_id, <- app_assoc by done. done.
  - intros rest. destruct (three_fields _ _ _ rest Ha Hb Hc) as (H1 & H2 & H3 & H4).
    rewrite arm_cancel by (by rewrite H4). rewrite H2, H3, H4.
    destruct (Nat.leb_spec 12 (length ((be_bytes 4 (cn_piece_index r) ++
      be_bytes 4 (cn_block_offset r) ++ be_bytes 4 (cn_block_length r)) ++ rest))); [|lia].
    by destruct r.
  - intros t k Ht Hk. apply prefix_shorter in Ht; [|done]. rewrite !length_app, !length_be_bytes in Ht.
    rewrite arm_cancel by lia. destruct (Nat.leb_spec 12 (length t)); [lia|eauto].
Qed.

Lemma wire_bitfield b ext : msg_ok ext (BitField b) ->
  wire_form ext (BitField b) (1 + Z.of_nat (length (bitfield b))) BITFIELD_MESSAGE_ID (bitfield b).
Proof.
  intros Hb. cbn [msg_ok] in Hb. split_and!; [|done|done|done| |].
  - cbn [write_bytes]. unfold BitFieldMessage_write_bytes, write_length_id_pair.
    rewrite to_u32_id by done. by rewrite <- app_assoc.
  - intros rest. rewrite arm_bitfield by (done || lia). rewrite length_app.
    replace (1 + Z.of_nat (length (bitfield b)) - 1)%Z with (Z.of_nat (length (bitfield b))) by lia.
    destruct (Z.leb_spec (Z.of_nat (length (bitfield b)))
      (Z.of_nat (length (bitfield b) + length rest))); [|lia].
    rewrite Nat2Z.id, take_app_length. by destruct b.
  - intros t k Ht Hk. apply prefix_shorter in Ht; [|done]. rewrite arm_bitfield by (done || lia).
    destruct (Z.leb_spec (1 + Z.of_nat (length (bitfield b)) - 1) (Z.of_nat (length t))); [lia|eauto].
Qed.

Lemma wire_piece p ext : msg_ok ext (Piece p) ->
  wire_form ext (Piece p) (9 + Z.of_nat (length (pc_block p))) PIECE_MESSAGE_ID
    (be_bytes 4 (pc_piece_index p) ++ be_bytes 4 (pc_block_offset p) ++ pc_block p).
Proof.
  intros (Ha & Hb & Hl).
  assert (Hlen : length (be_bytes 4 (pc_piece_index p) ++ be_bytes 4 (pc_block_offset p) ++
    pc_block p) = 8 + length (pc_block p)) by (rewrite !length_app, !length_be_bytes; lia).
  split_and!; [|done|rewrite Hlen; lia|rewrite Hlen; done| |].
  - cbn [write_bytes]. unfold PieceMessage_write_bytes, write_length_id_pair.
    rewrite to_u32_id, <- app_assoc by done. done.
  - intros rest. rewrite arm_piece by (done || lia). rewrite length_app, Hlen.
    destruct (Z.leb_spec (9 + Z.of_nat (length (pc_block p)) - 1)
      (Z.of_nat (8 + length (pc_block p) + length rest))); [|lia].
    rewrite <- !app_assoc. rewrite take_app_length', be_u32_id by (done || by rewrite length_be_bytes).
    rewrite drop_app_length' by (by rewrite length_be_bytes).
    rewrite take_app_length', be_u32_id by (done || by rewrite length_be_bytes).
    rewrite app_assoc, drop_app_length' by (by rewrite length_app, !length_be_bytes).
    replace (9 + Z.of_nat (length (pc_block p)) - 9)%Z with (Z.of_nat (length (pc_block p))) by lia.
    rewrite Nat2Z.id, take_app_length. by destruct p.
  - intros t k Ht Hk. apply prefix_shorter in Ht; [|done]. rewrite Hlen in Ht. rewrite arm_piece by (done || lia).
    destruct (Z.leb_spec (9 + Z.of_nat (length (pc_block p)) - 1) (Z.of_nat (length t))); [lia|eauto].
Qed.

Lemma wire_port p ext : is_u16 (port_of p) ->
  wire_form ext (BitsExtension (Port p)) PORT_MESSAGE_LEN PORT_MESSAGE_ID
    (be_bytes 2 (port_of p)).
Proof.
  intros Hp. split_and!; [done|done|done|done| |].
  - intros rest. rewrite arm_port, length_app, length_be_bytes. cbn [Nat.leb Nat.add].
    rewrite take_app_length', be_u16_id by (done || by rewrite length_be_bytes). by destruct p.
  - intros t k Ht Hk. apply prefix_shorter in Ht; [|done]. rewrite length_be_bytes in Ht.
    rewrite arm_port. destruct (Nat.leb_spec 2 (length t)); [lia|eauto].
Qed.

Lemma wire_extended e ext : msg_ok ext (BitsExtension (Extended e)) ->
  wire_form ext (BitsExtension (Extended e)) (2 + Z.of_nat (length (raw_bencode e)))
    EXTENDED_MESSAGE_ID (EXTENDED_MESSAGE_HANDSHAKE_ID :: raw_bencode e).
Proof.
  intros [Hl He]. split_and!; [|done|cbn [length]; lia|done| |].
  - cbn [write_bytes BitsExtensionMessage_write_bytes].
    unfold ExtendedMessage_write_bytes, write_length_id_pair, bencode_size.
    rewrite Nat2Z.inj_add, to_u32_id by done. by rewrite <- app_assoc.
  - intros rest. cbn [app]. rewrite arm_extended by (done || lia). rewrite length_app.
    replace (2 + Z.of_nat (length (raw_bencode e)) - 2)%Z
      with (Z.of_nat (length (raw_bencode e))) by lia.
    destruct (Z.leb_spec (Z.of_nat (length (raw_bencode e)))
      (Z.of_nat (length (raw_bencode e) + length rest))); [|lia].
    by rewrite Nat2Z.id, take_app_length, He.
  - intros t k Ht Hk. destruct t as [|x t]; [rewrite arm_extended_empty by done; eauto|].
    injection Ht as <- Ht. apply prefix_shorter in Ht; [|done].
    rewrite arm_extended by (done || lia).
    destruct (Z.leb_spec (2 + Z.of_nat (length (raw_bencode e)) - 2) (Z.of_nat (length t)));
      [lia|eauto].
Qed.

Lemma wire_ut u em id :
  query_id em UtMetadata = Some id -> (0 < id < 256)%Z -> ut_ok u ->
  is_u32 (2 + Z.of_nat (length (UtMetadataMessage_write_bytes u))) ->
  wire_form (Some em) (ProtExtension (PeUtMetadata u))
    (2 + Z.of_nat (length (UtMetadataMessage_write_bytes u)))
    EXTENDED_MESSAGE_ID (id :: UtMetadataMessage_write_bytes u).
Proof.
  intros Hq Hid Hu Hl. set (w := UtMetadataMessage_write_bytes u) in *.
  assert (Hne : id <> EXTENDED_MESSAGE_HANDSHAKE_ID) by (unfold EXTENDED_MESSAGE_HANDSHAKE_ID; lia).
  split_and!; [|done|cbn [length]; lia| | |].
  - cbn [write_bytes PeerExtension_write_bytes]. rewrite Hq. cbn [ok_or mbind outcome_bind].
    unfold write_length_id_pair. rewrite ut_size, to_u32_id by done. by rewrite <- app_assoc.
  - unfold message_size. cbn [PeerExtension_message_size]. rewrite ut_size by done. done.
  - intros rest. cbn [app]. rewrite arm_ut_metadata by (done || lia). rewrite length_app.
    replace (2 + Z.of_nat (length w) - 2)%Z with (Z.of_nat (length w)) by lia.
    destruct (Z.ltb_spec (Z.of_nat (length w + length rest)) (Z.of_nat (length w))); [lia|].
    rewrite Nat2Z.id, take_app_length. unfold w. by rewrite ut_roundtrip.
  - intros t k Ht Hk. destruct t as [|x t]; [rewrite arm_extended_empty by done; eauto|].
    injection Ht as <- Ht. apply prefix_shorter in Ht; [|done].
    rewrite arm_ut_metadata by (done || lia).
    destruct (Z.ltb_spec (Z.of_nat (length t)) (2 + Z.of_nat (length w) - 2)); [eauto|lia].
Qed.

(** The messages that are an id only. *)
Lemma wire_id_only m id ext :
  (m, id) ∈ [(Choke, CHOKE_MESSAGE_ID); (UnChoke, UNCHOKE_MESSAGE_ID);
             (Interested, INTERESTED_MESSAGE_ID); (UnInterested, UNINTERESTED_MESSAGE_ID)] ->
  wire_form ext m 1 id [].
Proof.
  intros Hm. split_and!; [|done|done| | |].
  - by repeat (apply elem_of_cons in Hm as [[= -> ->]|Hm]); [..|apply elem_of_nil in Hm].
  - by repeat (apply elem_of_cons in Hm as [[= -> ->]|Hm]); [..|apply elem_of_nil in Hm].
  - intros rest. apply (parse_bytes_std (fun x => x) _ _ (Done tt (inr m))); [|done].
    unfold parse_standard. rewrite header_opt_frame by done.
    by repeat (apply elem_of_cons in Hm as [[= -> ->]|Hm]); [..|apply elem_of_nil in Hm].
  - intros t k Ht Hk. by destruct t, k.
Qed.

Lemma wire_all ext m :
  msg_ok ext m -> m <> KeepAlive -> exists len id body, wire_form ext m len id body.
Proof.
  intros Hm Hk. destruct m as [| | | | |h|b|r|p|r|[p|e]|[u|[]]]; [done|..].
  - eexists _, _, _. apply wire_id_only. left.
  - eexists _, _, _. apply wire_id_only. right. left.
  - eexists _, _, _. apply wire_id_only. do 2 right. left.
  - eexists _, _, _. apply wire_id_only. do 3 right. left.
  - eexists _, _, _. by apply wire_have.
  - eexists _, _, _. by apply wire_bitfield.
  - eexists _, _, _. by apply wire_request.
  - eexists _, _, _. by apply wire_piece.
  - eexists _, _, _. by apply wire_cancel.
  - eexists _, _, _. by apply wire_port.
  - eexists _, _, _. by apply wire_extended.
  - destruct Hm as (em & id & -> & Hq & Hid & Hu & Hl). eexists _, _, _. by eapply wire_ut.
Qed.

(** No proper prefix of a frame is taken for a message. *)
Lemma wire_prefix ext m len id body p k :
  wire_form ext m len id body -> frame len id body = p ++ k -> k <> [] ->
  exists e, parse_bytes p ext = Err e.
Proof.
  intros (_ & Hl & Hlen & _ & _ & Hp) Heq Hk.
  destruct (decide (length p < 4)) as [H4|H4]; [rewrite parse_short by done; eauto|].
  assert (Hp4 : exists t, p = be_bytes 4 len ++ t).
  { exists (drop 4 p). rewrite <- (take_drop 4 p) at 1. f_equal.
    apply (f_equal (take 4)) in Heq. unfold frame in Heq.
    rewrite take_app_length' in Heq by (by rewrite length_be_bytes).
    by rewrite take_app_le in Heq by lia. }
  destruct Hp4 as [t ->]. unfold frame in Heq. rewrite <- app_assoc in Heq.
  apply app_inv_head in Heq. destruct t as [|x t].
  - rewrite app_nil_r. rewrite parse_four by (done || lia). eauto.
  - injection Heq as <- Heq. by apply (Hp t k).
Qed.
End Wire.
