(* ===== verification/PeerTask.v ===== *)
(** PeerTask: the reading and writing loops of a peer connection
    ([btp-peer/src/handler/peer_task.rs]).

    Both loops share one codec behind a mutex.  The reading loop holds it while
    it takes all messages it can out of its buffer, the writing loop while it
    writes one message, so [on_read] and [on_write] are the atomic steps of the
    connection. *)

From stdpp Require Import base list gmap.
From Stdlib Require Import ZArith Lia.
From S2P Require Import Prelude OrdMap Bencode BencodeCorrect Convert ShaHash Nom.
From S2P Require Import PeerMessage PeerMessageCorrect.

Section ReadLoop.
Context `{Nom}.

(** The buffers of both loops; the one of the reading loop does not grow. *)
Definition BUFFER_LEN : nat := 24 * 1024.

(** The inner [while let]: messages out of the front of the data, until the
    parser refuses, each one delivered at once; then what is left of the data.
    [message_size] is at least 4, so the data's length bounds the iterations. *)
Fixpoint take_messages (fuel : nat) (codec : PeerWireMessageCodec) (data_slice : bytes)
    : list PeerWireProtocolMessage * outcome IoError (bytes * PeerWireMessageCodec) :=
  match fuel with
  | O => ([], NoFuel)
  | S fuel =>
      match codec_parse_bytes codec data_slice with
      | (Ok msg, codec') =>
          match slice_from (E := IoError) data_slice (message_size msg) with
          | Ok data' => let '(msgs, r) := take_messages fuel codec' data' in (msg :: msgs, r)
          | _ => ([], Panic)
          end
      | (Err _, codec') => ([], Ok (data_slice, codec'))
      | (Panic, _) => ([], Panic)
      | (NoFuel, _) => ([], NoFuel)
      end
  end.

(** One turn of [loop_read_msg] after [chunk] has been read behind the bytes
    already buffered: the messages delivered, and the new buffer and codec. *)
Definition on_read (codec : PeerWireMessageCodec) (buffered chunk : bytes)
    : list PeerWireProtocolMessage * outcome IoError (bytes * PeerWireMessageCodec) :=
  let data := buffered ++ chunk in
  if length data <? 4 then ([], Ok (data, codec))
  else take_messages (length data + 1) codec data.

(** A run of the reading loop over a stream, of which the reads give at most so many
    bytes and at most what fits behind the buffered ones.  A read that gives nothing is
    tried again.  What comes back is what was delivered, and the buffered and
    the unread bytes. *)
Fixpoint run_reads (codec : PeerWireMessageCodec) (buffered stream : bytes) (sizes : list nat)
    : list PeerWireProtocolMessage * outcome IoError (bytes * bytes * PeerWireMessageCodec) :=
  match sizes with
  | [] => ([], Ok (buffered, stream, codec))
  | n :: sizes =>
      let bytes_read := take (Nat.min n (BUFFER_LEN - length buffered)) stream in
      if bool_decide (bytes_read = []) then run_reads codec buffered stream sizes else
      match on_read codec buffered bytes_read with
      | (msgs, Ok (rest, codec')) =>
          let '(msgs', r) := run_reads codec' rest (drop (length bytes_read) stream) sizes in (msgs ++ msgs', r)
      | (msgs, Err e) => (msgs, Err e)
      | (msgs, Panic) => (msgs, Panic)
      | (msgs, NoFuel) => (msgs, NoFuel)
      end
  end.
End ReadLoop.

(** One [SendMessage] of [loop_write_msg]: the message is written over the start
    of the out buffer, whose first [message_size] bytes are then sent. *)
Definition on_write (codec : PeerWireMessageCodec) (out_buffer : bytes)
    (m : PeerWireProtocolMessage) : outcome IoError (bytes * bytes * PeerWireMessageCodec) :=
  let '(res, codec') := codec_write_bytes codec m in
  written ← unwrap res;
  let out_buffer' := written ++ drop (length written) out_buffer in
  sent ← slice out_buffer' 0 (message_size m);
  Ok (sent, out_buffer', codec').

(** What receiving a message does to the codec. *)
Definition received (codec : PeerWireMessageCodec) (m : PeerWireProtocolMessage)
    : PeerWireMessageCodec :=
  match m with
  | BitsExtension (Extended e) =>
      {| our_extended_msg := our_extended_msg codec; their_extended_msg := Some e |}
  | _ => codec
  end.

(** ** Taking messages out of the buffer *)

Section Reassembly.
Context {N : Nom}.

Lemma received_our codec m : our_extended_msg (received codec m) = our_extended_msg codec.
Proof. by destruct m as [| | | | | | | | | |[]|]. Qed.

Lemma codec_parse_ok codec bs m :
  parse_bytes bs (our_extended_msg codec) = Ok m ->
  codec_parse_bytes codec bs = (Ok m, received codec m).
Proof.
  intros H. unfold codec_parse_bytes. rewrite H. by destruct m as [| | | | | | | | | |[]|].
Qed.

Lemma codec_parse_err codec bs e :
  parse_bytes bs (our_extended_msg codec) = Err e -> codec_parse_bytes codec bs = (Err e, codec).
Proof. intros H. unfold codec_parse_bytes. by rewrite H. Qed.

(** [m] is written as the bytes [w]. *)
Definition encodes (ext : option ExtendedMessage) (m : PeerWireProtocolMessage) (w : bytes) : Prop :=
  exists len id body, wire_form ext m len id body /\ w = frame len id body.

Lemma encodes_parse ext m w rest :
  encodes ext m w -> parse_bytes (w ++ rest) ext = Ok m /\ message_size m = length w.
Proof.
  intros (len & id & body & (_ & _ & _ & Hs & Hp & _) & ->).
  rewrite wire_frame_app, Hp, length_frame. done.
Qed.

Lemma encodes_long ext m w : encodes ext m w -> 5 <= length w.
Proof. intros (len & id & body & _ & ->). rewrite length_frame. lia. Qed.

(** [p] is not (yet) a message: it is empty or a proper prefix of one. *)
Definition partial (ext : option ExtendedMessage) (p : bytes) : Prop :=
  p = [] \/ exists m w q, encodes ext m w /\ w = p ++ q /\ q <> [].

Lemma partial_err ext p : partial ext p -> exists e, parse_bytes p ext = Err e.
Proof.
  intros [->|(m & w & q & (len & id & body & Hw & ->) & Heq & Hq)].
  - rewrite parse_short by (simpl; lia). eauto.
  - by eapply wire_prefix.
Qed.

Lemma take_messages_spec ext ms ws p fuel codec :
  Forall2 (encodes ext) ms ws -> partial ext p -> our_extended_msg codec = ext ->
  length (concat ws ++ p) < fuel ->
  take_messages fuel codec (concat ws ++ p) = (ms, Ok (p, fold_left received ms codec)).
Proof.
  intros Hms Hp. revert fuel codec.
  induction Hms as [|m w ms ws Hm Hms IH]; intros [|fuel] codec He Hf; try lia.
  - destruct (partial_err ext p Hp) as [e Herr]. cbn [take_messages concat app].
    rewrite <- He in Herr. by rewrite (codec_parse_err _ _ _ Herr).
  - cbn [take_messages concat]. rewrite <- app_assoc.
    destruct (encodes_parse ext m w (concat ws ++ p) Hm) as [Hparse Hsize].
    rewrite <- He in Hparse. rewrite (codec_parse_ok _ _ _ Hparse), Hsize.
    pose proof (encodes_long ext m w Hm).
    rewrite slice_from_in, drop_app_length by (rewrite length_app; lia).
    rewrite IH; [done|by rewrite received_our|].
    cbn [concat] in Hf. rewrite !length_app in *. lia.
Qed.

Lemma on_read_spec ext ms ws p codec buffered chunk :
  Forall2 (encodes ext) ms ws -> partial ext p -> our_extended_msg codec = ext ->
  buffered ++ chunk = concat ws ++ p ->
  on_read codec buffered chunk = (ms, Ok (p, fold_left received ms codec)).
Proof.
  intros Hms Hp He Heq. unfold on_read. rewrite Heq.
  destruct (Nat.ltb_spec (length (concat ws ++ p)) 4) as [H4|H4].
  - destruct Hms as [|m w ms ws Hm Hms]; [done|]. apply encodes_long in Hm.
    cbn [concat] in H4. rewrite !length_app in H4. lia.
  - eapply take_messages_spec; eauto. lia.
Qed.

(** What is held back is less than the next message. *)
Definition waits (p : bytes) (ws : list bytes) : Prop := match ws with [] => p = [] | w :: _ => length p < length w end.

(** Any initial part of the stream of messages is some whole messages and a
    partial one. *)
Lemma cut_stream ext ms ws data future :
  Forall2 (encodes ext) ms ws -> data ++ future = concat ws ->
  exists ms1 ms2 ws1 ws2 p, ms = ms1 ++ ms2 /\ ws = ws1 ++ ws2 /\
    Forall2 (encodes ext) ms1 ws1 /\ Forall2 (encodes ext) ms2 ws2 /\
    data = concat ws1 ++ p /\ partial ext p /\ p ++ future = concat ws2 /\ waits p ws2.
Proof.
  intros Hms. revert data. induction Hms as [|m w ms ws Hm Hms IH]; intros data Heq.
  - apply app_eq_nil in Heq as [-> ->]. exists [], [], [], [], []. by split_and!; try left.
  - cbn [concat] in Heq. destruct (decide (length data < length w)) as [Hlt|Hge].
    + exists [], (m :: ms), [], (w :: ws), data. split_and!; auto.
      * right. exists m, w, (drop (length data) w). split; [done|].
        apply (f_equal (take (length data))) in Heq.
        rewrite take_app_length, take_app_le in Heq by lia. split.
        -- by rewrite Heq at 1; rewrite take_drop.
        -- intros Hd. apply (f_equal length) in Hd. rewrite length_drop in Hd. simpl in Hd. lia.
    + assert (Hw : data = w ++ drop (length w) data).
      { rewrite <- (take_drop (length w) data) at 1. f_equal.
        apply (f_equal (take (length w))) in Heq. by rewrite take_app_le, take_app_length in Heq by lia. }
      rewrite Hw, <- app_assoc in Heq. apply app_inv_head in Heq.
      destruct (IH _ Heq) as (ms1 & ms2 & ws1 & ws2 & p & -> & -> & H1 & H2 & H3 & H4 & H5 & H6).
      exists (m :: ms1), ms2, (w :: ws1), ws2, p. split_and!; try done; [by constructor|].
      rewrite Hw, H3. cbn [concat]. by rewrite <- app_assoc.
Qed.

Lemma waits_short ws p : Forall (fun w => length w <= BUFFER_LEN) ws -> waits p ws -> length p < BUFFER_LEN.
Proof. destruct 1 as [|w ws Hw _]; cbn [waits]; [intros ->; unfold BUFFER_LEN; cbn; lia|lia]. Qed.

Lemma fold_received_our ms codec : our_extended_msg (fold_left received ms codec) = our_extended_msg codec.
Proof. revert codec. induction ms as [|m ms IH]; intros codec; [done|]. cbn [fold_left]. by rewrite IH, received_our. Qed.

(** One read of a stream of messages. *)
Lemma read_step ext ms ws codec buffered stream k :
  Forall2 (encodes ext) ms ws -> our_extended_msg codec = ext -> buffered ++ stream = concat ws ->
  exists ms1 ms2 ws1 ws2 p, ms = ms1 ++ ms2 /\ ws = ws1 ++ ws2 /\ Forall2 (encodes ext) ms2 ws2 /\
    on_read codec buffered (take k stream) = (ms1, Ok (p, fold_left received ms1 codec)) /\
    p ++ drop k stream = concat ws2 /\ partial ext p /\ waits p ws2.
Proof.
  intros Hms He Heq. rewrite <- (take_drop k stream), app_assoc in Heq.
  destruct (cut_stream ext ms ws _ _ Hms Heq) as (ms1 & ms2 & ws1 & ws2 & p & -> & -> & H1 & H2 & Hd & Hp & Hrest & Hw).
  exists ms1, ms2, ws1, ws2, p. split_and!; try done. by apply (on_read_spec ext ms1 ws1).
Qed.

Lemma run_reads_spec ext sizes ms ws codec buffered stream :
  Forall2 (encodes ext) ms ws -> Forall (fun w => length w <= BUFFER_LEN) ws -> our_extended_msg codec = ext ->
  waits buffered ws -> buffered ++ stream = concat ws ->
  exists ms1 ms2 ws1 ws2 p unread, ms = ms1 ++ ms2 /\ ws = ws1 ++ ws2 /\ Forall2 (encodes ext) ms2 ws2 /\
    run_reads codec buffered stream sizes = (ms1, Ok (p, unread, fold_left received ms1 codec)) /\
    p ++ unread = concat ws2 /\ waits p ws2 /\ (Forall (fun n => 0 < n) sizes -> length unread <= length stream - length sizes).
Proof.
  intros Hms Hlen He Hw Heq. revert ms ws codec buffered stream Hms Hlen He Hw Heq.
  induction sizes as [|n sizes IH]; intros ms ws codec buffered stream Hms Hlen He Hw Heq; cbn [run_reads].
  { exists [], ms, [], ws, buffered, stream. split_and!; try done. cbn. lia. }
  pose proof (waits_short ws buffered Hlen Hw) as Hroom. set (k := Nat.min n _). case_bool_decide as Hk.
  - destruct (IH ms ws codec buffered stream Hms Hlen He Hw Heq) as (ms1 & ms2 & ws1 & ws2 & p & unread & H1 & H2 & H3 & H4 & H5 & H6 & H7).
    exists ms1, ms2, ws1, ws2, p, unread. split_and!; try done. intros [Hn Hs]%Forall_cons. specialize (H7 Hs).
    apply (f_equal length) in Hk. rewrite length_take in Hk. cbn [length] in *. lia.
  - destruct (read_step ext ms ws codec buffered stream k Hms He Heq) as (ms1 & ms2 & ws1 & ws2 & p & -> & -> & H2 & Hr & Hrest & Hp & Hw2).
    rewrite Hr. apply Forall_app in Hlen as [_ Hlen].
    replace (drop (length (take k stream)) stream) with (drop k stream) by (rewrite length_take; destruct (Nat.min_spec k (length stream)) as [[? ->]|[? ->]]; [done|by rewrite !drop_ge by lia]).
    destruct (IH ms2 ws2 (fold_left received ms1 codec) p (drop k stream) H2 Hlen ltac:(by rewrite fold_received_our) Hw2 Hrest)
      as (ms3 & ms4 & ws3 & ws4 & p' & unread & -> & -> & H3 & H4 & H5 & H6 & H7).
    rewrite H4. exists (ms1 ++ ms3), ms4, (ws1 ++ ws3), ws4, p', unread. rewrite fold_left_app, !app_assoc. split_and!; try done.
    intros [Hn Hs]%Forall_cons. specialize (H7 Hs). rewrite length_drop in H7. cbn [length].
    assert (0 < length (take k stream)) by (destruct (take k stream); [done|cbn; lia]). rewrite length_take in *. lia.
Qed.

(** A message that does not fit the buffer is never delivered, and neither is anything
    behind it. *)
Lemma long_message_stalls ext m w more sizes codec p unread :
  encodes ext m w -> BUFFER_LEN < length w -> our_extended_msg codec = ext -> p ++ unread = w ++ more -> length p <= BUFFER_LEN ->
  exists p' unread', run_reads codec p unread sizes = ([], Ok (p', unread', codec)) /\ p' ++ unread' = w ++ more /\ length p' <= BUFFER_LEN.
Proof.
  intros Hm Hlong He. revert p unread. induction sizes as [|n sizes IH]; intros p unread Heq Hp; cbn [run_reads].
  { by exists p, unread. }
  set (k := Nat.min n _). case_bool_decide; [by apply IH|]. set (q := p ++ take k unread).
  assert (Hq : length q <= BUFFER_LEN) by (unfold q; rewrite length_app, length_take; lia).
  assert (Hpre : w = q ++ drop (length q) w).
  { rewrite <- (take_drop (length q) w) at 1. f_equal. rewrite <- (take_drop k unread), app_assoc in Heq. fold q in Heq.
    apply (f_equal (take (length q))) in Heq. rewrite take_app_length, take_app_le in Heq by lia. done. }
  assert (Hpart : partial ext q).
  { right. exists m, w, (drop (length q) w). split_and!; try done. intros E%(f_equal length). rewrite length_drop in E. cbn in E. lia. }
  rewrite (on_read_spec ext [] [] q codec p (take k unread)) by (done || by constructor). cbn [fold_left].
  destruct (IH q (drop (length (take k unread)) unread)) as (p' & u' & -> & ? & ?); [|done|by exists p', u'].
  rewrite <- Heq. unfold q. rewrite <- app_assoc. f_equal. rewrite length_take.
  destruct (Nat.min_spec k (length unread)) as [[? ->]|[? ->]]; [by rewrite take_drop|]. rewrite drop_ge by lia. by rewrite take_ge, app_nil_r by lia.
Qed.
End Reassembly.

(** ** What the parser consumes *)

Section Consumption.
Context {N : Nom}.

Lemma frame_of bs :
  Forall is_u8 bs -> 5 <= length bs ->
  exists len id t, bs = frame len id t /\ is_u32 len.
Proof.
  intros Hu Hl. destruct (lookup_lt_is_Some_2 bs 4) as [id Hid]; [lia|].
  exists (be_val (take 4 bs)), id, (drop 5 bs). split.
  - unfold frame. rewrite <- (take_drop_middle bs 4 id Hid) at 1. f_equal.
    assert (H4 : length (take 4 bs) = 4) by (rewrite length_take; lia).
    rewrite <- H4 at 2. symmetry. apply be_bytes_be_val. by apply Forall_take.
  - apply be_val_u32; [by apply Forall_take|]. rewrite length_take. lia.
Qed.

(** The size of a message that one parser step yielded. *)
Lemma parser_map_done {A B} (f : A -> B) (p : parser A) m :
  parser_map f p = Ok (Done tt (inr m)) -> exists a, p = Ok (Done tt (inr a)) /\ m = f a.
Proof.
  unfold parser_map. destruct p as [[[] [e|a]| |n]|e| |]; simpl; intros H; try done.
  injection H as <-. eauto.
Qed.

Lemma three_u32_length t i r : three_u32 t = Done i r -> 12 <= length t.
Proof.
  intros H. destruct (decide (length t < 12)) as [Hl|]; [|lia].
  destruct (three_u32_short t Hl) as [n Hn]. congruence.
Qed.

Lemma std_consumes len id t m :
  is_u32 len -> parse_standard (frame len id t) = Ok (Done tt (inr m)) ->
  message_size m <= 5 + length t.
Proof.
  intros Hl Hs. destruct (decide (id = BITFIELD_MESSAGE_ID /\ (1 <= len)%Z)) as [[-> H1]|Hnb].
  { pose proof (arm_bitfield len t None Hl H1) as Ha. unfold parse_bytes, parse_message in Ha.
    rewrite Hs in Ha. cbn [mbind outcome_bind] in Ha.
    destruct (Z.leb_spec (len - 1) (Z.of_nat (length t))); [|done]. injection Ha as ->.
    unfold message_size. cbn [bitfield]. rewrite length_take.
    change (Z.to_nat BASE_BITFIELD_MESSAGE_LEN) with 1. unfold MESSAGE_LENGTH_LEN_BYTES. lia. }
  destruct (decide (id = PIECE_MESSAGE_ID /\ (1 <= len)%Z)) as [[-> H1]|Hnp].
  { rewrite std_piece in Hs by done. apply parser_map_done in Hs as (p & Hp & ->).
    unfold PieceMessage_parse_bytes, parse_piece in Hp.
    destruct (iresult_bind _ _) as [i [a b]| |]; try done.
    unfold u32_sub in Hp. destruct (Z.leb_spec 8 (len - 1)); [|done]. cbn [mbind outcome_bind] in Hp.
    rewrite u32_to_usize_id in Hp by (unfold is_u32 in *; lia). cbn [mbind outcome_bind] in Hp.
    destruct (take_bytes _ _); try done.
    destruct (slice t 8 _) as [blk| | |] eqn:Hb; try done. injection Hp as <-.
    apply slice_Ok in Hb as [Hb ->]. unfold message_size. cbn [pc_block].
    rewrite length_take, length_drop. change (Z.to_nat BASE_PIECE_MESSAGE_LEN) with 9.
    unfold MESSAGE_LENGTH_LEN_BYTES. lia. }
  unfold parse_standard in Hs. rewrite header_opt_frame in Hs by done. cbn [opt_eqb] in Hs.
  rewrite andb_false_r in Hs.
  repeat match type of Hs with
  | (if ?c then _ else _) = _ => destruct c eqn:?
  end; try done; try (injection Hs as <-; etrans; [|apply Nat.le_add_r]; by apply Nat.leb_le);
    rewrite split_off_header in Hs; cbn [mbind outcome_bind] in Hs.
  - apply parser_map_done in Hs as (h & Hh & ->). unfold HaveMessage_parse_bytes, parse_have in Hh.
    destruct (decide (length t < 4)) as [H4|H4].
    { destruct (be_u32_short t H4) as [n Hn]. by rewrite Hn in Hh. }
    change (message_size (Have h)) with 9. lia.
  - unfold u32_sub in Hs. destruct (Z.leb_spec 1 len); [|done].
    match goal with H : (id =? BITFIELD_MESSAGE_ID)%Z = true |- _ => apply Z.eqb_eq in H end. tauto.
  - apply parser_map_done in Hs as (r & Hr & ->).
    unfold RequestMessage_parse_bytes, parse_request in Hr.
    destruct (three_u32 t) as [i o| |] eqn:H3; try done. apply three_u32_length in H3.
    change (message_size (Request r)) with 17. lia.
  - unfold u32_sub in Hs. destruct (Z.leb_spec 1 len); [|done].
    match goal with H : (id =? PIECE_MESSAGE_ID)%Z = true |- _ => apply Z.eqb_eq in H end. tauto.
  - apply parser_map_done in Hs as (r & Hr & ->).
    unfold CancelMessage_parse_bytes, parse_cancel in Hr.
    destruct (three_u32 t) as [i o| |] eqn:H3; try done. apply three_u32_length in H3.
    change (message_size (Cancel r)) with 17. lia.
Qed.

Lemma extension_consumes len id t m :
  is_u32 len -> parse_extension (frame len id t) = Ok (Done tt (inr m)) ->
  message_size (BitsExtension m) <= 5 + length t.
Proof.
  intros Hl He. unfold parse_extension in He. rewrite header2_frame in He by done.
  destruct ((len =? PORT_MESSAGE_LEN)%Z && (id =? PORT_MESSAGE_ID)%Z).
  - rewrite split_off_header in He. cbn [mbind outcome_bind] in He.
    unfold PortMessage_parse_bytes in He. destruct (decide (length t < 2)) as [H2|H2].
    { destruct (be_u16_short t H2) as [n Hn]. by rewrite Hn in He. }
    rewrite be_u16_done in He by lia. injection He as <-.
    change (message_size (BitsExtension (Port _))) with 7. lia.
  - cbn [mbind outcome_bind] in He. destruct t as [|e t].
    { destruct (header3_frame_short len id Hl) as [n Hn]. by rewrite Hn in He. }
    rewrite header3_frame in He by done. destruct (_ && _); [|done].
    rewrite split_off_ext_header in He. cbn [mbind outcome_bind] in He.
    unfold u32_sub in He. destruct (Z.leb_spec 2 len); [|done]. cbn [mbind outcome_bind] in He.
    apply parser_map_done in He as (x & Hx & ->). unfold ExtendedMessage_parse_bytes in Hx.
    rewrite u32_to_usize_id in Hx by (unfold is_u32 in *; lia). cbn [mbind outcome_bind] in Hx.
    destruct (Z.leb_spec (len - 2) (Z.of_nat (length t))); [|done].
    unfold split_to in Hx. destruct (Z.leb_spec (len - 2) (Z.of_nat (length t))); [|lia].
    cbn [mbind outcome_bind] in Hx. set (raw := take _ t) in Hx.
    destruct (extended_of_bencode raw) as [y| | |] eqn:Hy; try done. injection Hx as <-.
    assert (Hraw : raw_bencode y = raw).
    { unfold extended_of_bencode in Hy. destruct (BencodeRef_decode _ _); try done.
      cbn [map_err mbind outcome_bind] in Hy. destruct (convert_dict _ _); try done.
      by injection Hy as <-. }
    unfold message_size. cbn [BitsExtensionMessage_message_size]. unfold bencode_size.
    rewrite Hraw. unfold raw. rewrite length_take.
    change (Z.to_nat BASE_EXTENDED_MESSAGE_LEN) with 2. unfold MESSAGE_LENGTH_LEN_BYTES.
    cbn [length]. lia.
Qed.

Lemma ut_consumes b u :
  UtMetadataMessage_parse_bytes b = Ok u -> UtMetadataMessage_message_size u <= length b.
Proof.
  unfold UtMetadataMessage_parse_bytes. intros H.
  destruct (BencodeRef_decode b ut_decode_opts) as [r| | |]; try done.
  cbn [map_err mbind outcome_bind] in H.
  destruct (convert_dict r UT_ROOT_ERROR_KEY) as [d| | |]; try done. cbn [mbind outcome_bind] in H.
  destruct (parse_message_type d) as [ty| | |]; try done. cbn [mbind outcome_bind] in H.
  destruct (parse_piece_index d) as [pc| | |]; try done. cbn [mbind outcome_bind] in H.
  unfold split_to in H. destruct (_ <=? _)%Z; [|done]. cbn [mbind outcome_bind] in H.
  destruct (ty =? _)%Z; [injection H as <-; cbn; rewrite length_take; lia|].
  destruct (ty =? _)%Z; [injection H as <-; cbn; rewrite length_take; lia|].
  destruct (ty =? _)%Z; [|done]. destruct (parse_total_size d) as [sz| | |]; try done.
  injection H as <-. cbn. rewrite length_take, length_drop. lia.
Qed.

Lemma prot_consumes len id t ext m :
  is_u32 len -> PeerExtension_parse_bytes (frame len id t) ext = Ok (inr m) ->
  message_size (ProtExtension m) <= 5 + length t.
Proof.
  intros Hl He. unfold PeerExtension_parse_bytes in He. destruct ext as [em|]; [|done].
  unfold parse_extensions in He. destruct t as [|e t].
  { destruct (header3_frame_short len id Hl) as [n Hn]. by rewrite Hn in He. }
  rewrite header3_frame in He by done. destruct (id =? EXTENDED_MESSAGE_ID)%Z; [|done].
  unfold parse_extensions_with_id, u32_sub in He. destruct (Z.leb_spec 2 len); [|done].
  change EXTENSION_HEADER_LEN with (HEADER_LEN + 1) in He.
  cbn [mbind outcome_bind] in He. rewrite split_off_ext_header in He.
  cbn [mbind outcome_bind] in He. destruct (Z.ltb_spec (Z.of_nat (length t)) (len - 2)); [done|].
  unfold split_to in He. destruct (Z.leb_spec (len - 2) (Z.of_nat (length t))); [|lia].
  cbn [mbind outcome_bind] in He. case_bool_decide; [|done].
  destruct (UtMetadataMessage_parse_bytes _) as [u| | |] eqn:Hu; try done.
  injection He as <-. apply ut_consumes in Hu. rewrite length_take in Hu.
  unfold message_size. cbn [PeerExtension_message_size].
  unfold BASE_PROT_EXTENSION_MESSAGE_LEN, MESSAGE_LENGTH_LEN_BYTES. cbn [length]. lia.
Qed.

Lemma parse_bytes_consumes bs ext m :
  Forall is_u8 bs -> parse_bytes bs ext = Ok m -> message_size m <= length bs.
Proof.
  intros Hu H. destruct (decide (length bs < 4)) as [H4|H4]; [by rewrite parse_short in H|].
  destruct (decide (length bs = 4)) as [E4|N4].
  { assert (Hbs : bs = be_bytes 4 (be_val bs)) by (rewrite <- E4; symmetry; by apply be_bytes_be_val).
    assert (Hl : is_u32 (be_val bs)) by (by apply be_val_u32).
    destruct (decide (be_val bs = 0%Z)) as [Hz|Hz].
    - rewrite Hbs, Hz in H. unfold parse_bytes, parse_message, parse_standard, header_opt in H.
      rewrite be_u32_done in H by done. cbn [iresult_bind] in H.
      destruct (be_u8_short (drop 4 (be_bytes 4 0))) as [n Hn]; [simpl; lia|].
      destruct (opt_incomplete be_u8 _ n Hn) as [Ho|Ho]; rewrite Ho in H; [|done].
      injection H as <-. rewrite E4. done.
    - rewrite Hbs, parse_four in H by done. done. }
  destruct (frame_of bs Hu ltac:(lia)) as (len & id & t & -> & Hl). rewrite length_frame.
  unfold parse_bytes, parse_message in H.
  destruct (parse_standard (frame len id t)) as [[[] [e|x]| |]| | |] eqn:Hs; try done.
  { injection H as <-. by eapply std_consumes. }
  cbn [mbind outcome_bind] in H. unfold parser_map in H.
  destruct (parse_extension (frame len id t)) as [[[] [e|x]| |]| | |] eqn:He; try done.
  { injection H as <-. by eapply extension_consumes. }
  cbn [mbind outcome_bind iresult_map iresult_bind] in H.
  destruct (PeerExtension_parse_bytes _ ext) as [[e|x]| | |] eqn:Hp; try done.
  injection H as <-. by eapply prot_consumes.
Qed.
End Consumption.

(** ** The read loop ends *)

(** A computation that never runs out of its step budget. *)
Definition ends {E A} (o : outcome E A) : Prop := o <> NoFuel.

Lemma ends_bind {E A B} (o : outcome E A) (f : A -> outcome E B) :
  ends o -> (forall a, ends (f a)) -> ends (o ≫= f).
Proof. destruct o; simpl; auto; done. Qed.

Lemma ends_Ok {E A} (a : A) : ends (@Ok E A a).
Proof. done. Qed.
Lemma ends_Err {E A} (e : E) : ends (@Err E A e).
Proof. done. Qed.
Lemma ends_Panic {E A} : ends (@Panic E A).
Proof. done. Qed.
Lemma ends_map {A B} (f : A -> B) (p : parser A) : ends p -> ends (parser_map f p).
Proof. intros H. by apply ends_bind. Qed.

#[export] Hint Resolve ends_bind ends_Ok ends_Err ends_Panic ends_map : bt.

Ltac solve_ends :=
  repeat first
    [ progress auto with bt
    | progress intros
    | apply ends_bind
    | case_match ].

Section ReadLoopEnds.
Context {N : Nom}.

Lemma ends_split_off n bs : ends (@split_off IoError n bs).
Proof. unfold split_off. solve_ends. Qed.
Lemma ends_split_to n bs : ends (@split_to IoError n bs).
Proof. unfold split_to. solve_ends. Qed.
Lemma ends_sub a b : ends (@u32_sub IoError a b).
Proof. unfold u32_sub. solve_ends. Qed.
Lemma ends_usize a : ends (@u32_to_usize IoError a).
Proof. unfold u32_to_usize. solve_ends. Qed.
Lemma ends_slice (l : bytes) i j : ends (@slice IoError _ l i j).
Proof. unfold slice. solve_ends. Qed.
Lemma ends_decode bs opts : ends (map_err ParseBencode (BencodeRef_decode bs opts)).
Proof.
  unfold BencodeRef_decode. pose proof (decode_fuel_enough bs 0 opts 0).
  destruct (decode _ _ _ _ _) as [[r n]| | |]; try done. simpl. by destruct (_ && _).
Qed.
Lemma ends_as_io {A} (o : outcome IoError A) : ends o -> ends (as_io o).
Proof. by destruct o. Qed.
Lemma ends_ok_or {A} (o : option A) (e : IoError) : ends (ok_or o e).
Proof. by destruct o. Qed.

#[local] Hint Resolve ends_split_off ends_split_to ends_sub ends_usize ends_slice ends_decode
  ends_as_io ends_ok_or : bt.

Lemma ends_ut_int (d : list (bytes * BencodeRef)) k :
  ends (@lookup_and_convert_int _ IoError _ _ d k).
Proof. unfold lookup_and_convert_int, lookup_key, convert_int. solve_ends. Qed.

#[local] Hint Resolve ends_ut_int : bt.

Lemma ends_ut b : ends (UtMetadataMessage_parse_bytes b).
Proof.
  unfold UtMetadataMessage_parse_bytes, convert_dict, parse_message_type, parse_piece_index,
    parse_total_size. solve_ends.
Qed.

Lemma ends_extended raw : ends (extended_of_bencode raw).
Proof. unfold extended_of_bencode, convert_dict. solve_ends. Qed.

#[local] Hint Resolve ends_ut ends_extended : bt.

Lemma ends_standard bs : ends (parse_standard bs).
Proof.
  unfold parse_standard, BitFieldMessage_parse_bytes, RequestMessage_parse_bytes,
    PieceMessage_parse_bytes, CancelMessage_parse_bytes, HaveMessage_parse_bytes,
    parse_request, parse_cancel, parse_piece. solve_ends.
Qed.

Lemma ends_extension bs : ends (parse_extension bs).
Proof.
  unfold parse_extension, PortMessage_parse_bytes, ExtendedMessage_parse_bytes. solve_ends.
Qed.

Lemma ends_prot bs ext : ends (PeerExtension_parse_bytes bs ext).
Proof.
  unfold PeerExtension_parse_bytes, parse_extensions, parse_extensions_with_id. solve_ends.
Qed.

Lemma ends_parse bs ext : ends (parse_bytes bs ext).
Proof.
  unfold parse_bytes, parse_message.
  pose proof (ends_standard bs). pose proof (ends_extension bs). pose proof (ends_prot bs ext).
  solve_ends.
Qed.
End ReadLoopEnds.

Section ReadLoopOutcome.
Context {N : Nom}.

Lemma codec_parse_inv codec bs r codec' :
  codec_parse_bytes codec bs = (r, codec') ->
  r = parse_bytes bs (our_extended_msg codec) /\ our_extended_msg codec' = our_extended_msg codec.
Proof.
  unfold codec_parse_bytes. intros H.
  destruct (parse_bytes bs (our_extended_msg codec)) as [[| | | | | | | | | |[]|]| | |];
    by injection H as <- <-.
Qed.

Lemma message_size_pos m : 4 <= message_size m.
Proof. unfold message_size, MESSAGE_LENGTH_LEN_BYTES. lia. Qed.

(** The inner loop returns, unless the parser panics on what is left. *)
Lemma take_messages_outcome fuel codec data :
  Forall is_u8 data -> length data < fuel ->
  (exists msgs rest codec', take_messages fuel codec data = (msgs, Ok (rest, codec')) /\
     exists used, data = used ++ rest) \/
  ((take_messages fuel codec data).2 = Panic /\
   exists used rest, data = used ++ rest /\ parse_bytes rest (our_extended_msg codec) = Panic).
Proof.
  revert codec data. induction fuel as [|fuel IH]; intros codec data Hu Hf; [lia|].
  cbn [take_messages]. destruct (codec_parse_bytes codec data) as [r codec'] eqn:Hc.
  apply codec_parse_inv in Hc as [-> Hour].
  pose proof (ends_parse data (our_extended_msg codec)) as Hend.
  destruct (parse_bytes data (our_extended_msg codec)) as [m|e| |] eqn:Hp; [| | |done].
  - pose proof (parse_bytes_consumes _ _ _ Hu Hp) as Hsz. pose proof (message_size_pos m).
    rewrite slice_from_in by done.
    destruct (IH codec' (drop (message_size m) data)) as
      [(msgs & rest & c & -> & used & Hd)|(Hr & used & rest & Hd & Hpan)].
    + by apply Forall_drop.
    + rewrite length_drop. lia.
    + left. eexists _, _, _. split; [done|].
      exists (take (message_size m) data ++ used). by rewrite <- app_assoc, <- Hd, take_drop.
    + right. split; [by destruct (take_messages _ _ _)|]. exists (take (message_size m) data ++ used), rest.
      rewrite <- app_assoc, <- Hd, take_drop. by rewrite <- Hour.
  - left. eexists _, _, _. split; [done|]. by exists [].
  - right. split; [done|]. by exists [], data.
Qed.
End ReadLoopOutcome.

(** ** Two connected codecs *)

(** The announcement in force after message [m]. *)
Definition announce (t : option ExtendedMessage) (m : PeerWireProtocolMessage)
    : option ExtendedMessage :=
  match m with BitsExtension (Extended e) => Some e | _ => t end.

(** Two ends [a] and [b] of a connection, with the messages under way from each
    to the other: what was sent, and its bytes. *)
Record Link := {
  codec_a : PeerWireMessageCodec;
  codec_b : PeerWireMessageCodec;
  a_to_b : list (PeerWireProtocolMessage * bytes);
  b_to_a : list (PeerWireProtocolMessage * bytes);
}.

Definition link_new : Link :=
  {| codec_a := codec_new; codec_b := codec_new; a_to_b := []; b_to_a := [] |}.

Definition swap_link (l : Link) : Link :=
  {| codec_a := codec_b l; codec_b := codec_a l; a_to_b := b_to_a l; b_to_a := a_to_b l |}.

Section TwoEnds.
Context {N : Nom}.

(** Either end writes a well-formed message, or parses the next one that
    reached it; in any order. *)
Inductive link_step : Link -> Link -> Prop :=
  | a_sends l m w codec' :
      msg_ok (their_extended_msg (codec_a l)) m -> m <> KeepAlive ->
      codec_write_bytes (codec_a l) m = (Ok w, codec') ->
      link_step l {| codec_a := codec'; codec_b := codec_b l;
                     a_to_b := a_to_b l ++ [(m, w)]; b_to_a := b_to_a l |}
  | b_receives l m w q r codec' :
      a_to_b l = (m, w) :: q -> codec_parse_bytes (codec_b l) w = (Ok r, codec') ->
      link_step l {| codec_a := codec_a l; codec_b := codec';
                     a_to_b := q; b_to_a := b_to_a l |}
  | other_end l l' : link_step (swap_link l) l' -> link_step l (swap_link l').

Definition sent_ok (p : PeerWireProtocolMessage * bytes) : Prop :=
  exists ext, msg_ok ext p.1 /\ p.1 <> KeepAlive /\ write_bytes p.1 ext = Ok p.2.

(** What [b] will know of [a]'s announcement once it has read everything under
    way is what [a] last announced. *)
Definition half_ok (l : Link) : Prop :=
  Forall sent_ok (a_to_b l) /\
  fold_left announce (a_to_b l).*1 (their_extended_msg (codec_b l)) = our_extended_msg (codec_a l).

Definition link_ok (l : Link) : Prop := half_ok l /\ half_ok (swap_link l).

Lemma write_codec codec m w codec' :
  codec_write_bytes codec m = (Ok w, codec') ->
  write_bytes m (their_extended_msg codec) = Ok w /\
  our_extended_msg codec' = announce (our_extended_msg codec) m /\
  their_extended_msg codec' = their_extended_msg codec.
Proof.
  unfold codec_write_bytes. intros H. destruct (write_bytes m _) as [w'| | |];
    destruct m as [| | | | | | | | | |[]|]; by simplify_eq/=.
Qed.

(** What is sent for a message that is not of the extension protocol does not
    depend on the announcements. *)
Lemma msg_ok_any ext ext' m :
  (forall u, m <> ProtExtension u) -> msg_ok ext m -> msg_ok ext' m.
Proof. intros Hm. destruct m as [| | | | | | | | | |[]|[]]; simpl; try done.
  by edestruct Hm. Qed.

Lemma write_any ext ext' m :
  (forall u, m <> ProtExtension u) -> write_bytes m ext = write_bytes m ext'.
Proof. intros Hm. destruct m as [| | | | | | | | | | |u]; try done. by destruct (Hm u). Qed.

Lemma parse_ut_not_extended len e t ext r x :
  is_u32 len -> e <> EXTENDED_MESSAGE_HANDSHAKE_ID ->
  parse_bytes (frame len EXTENDED_MESSAGE_ID (e :: t)) ext = Ok r ->
  r <> BitsExtension (Extended x).
Proof.
  intros Hl Hne. pose proof (extension_second len (e :: t) Hl) as He.
  rewrite header3_frame in He by done.
  destruct (Z.eqb_spec e EXTENDED_MESSAGE_HANDSHAKE_ID); [done|]. rewrite andb_false_r in He.
  unfold parse_bytes, parse_message.
  rewrite (std_none len _ (e :: t) Hl (or_intror eq_refl)). cbn [mbind outcome_bind].
  rewrite He. cbn [parser_map mbind outcome_bind iresult_map iresult_bind].
  destruct (PeerExtension_parse_bytes _ _) as [[y|y]| | |]; simpl; naive_solver.
Qed.

(** Receiving what was sent updates the receiver's view as the sender's. *)
Lemma receive_announce codec m w r codec' :
  sent_ok (m, w) -> codec_parse_bytes codec w = (Ok r, codec') ->
  their_extended_msg codec' = announce (their_extended_msg codec) m /\
  our_extended_msg codec' = our_extended_msg codec.
Proof.
  intros (ext & Hok & Hk & Hw) Hc. cbn [fst snd] in *.
  pose proof (codec_parse_inv _ _ _ _ Hc) as [Hr Hour]. split; [|done].
  assert (Hcase : (forall u, m <> ProtExtension u) \/
    exists u em id, m = ProtExtension (PeUtMetadata u) /\ ext = Some em /\
      query_id em UtMetadata = Some id /\ (0 < id < 256)%Z /\ ut_ok u /\
      is_u32 (2 + Z.of_nat (length (UtMetadataMessage_write_bytes u)))).
  { destruct m as [| | | | | | | | | | |[u|[]]]; try (left; congruence).
    right. destruct Hok as (em & id & -> & Hok). eauto 10. }
  destruct Hcase as [Hu|(u & em & id & -> & -> & Hq & Hid & Hut & Hl)].
  - apply (msg_ok_any _ (our_extended_msg codec)) in Hok; [|done].
    rewrite (write_any _ (our_extended_msg codec)) in Hw by done.
    destruct (wire_all _ _ Hok Hk) as (len & id & body & Hw' & _ & _ & _ & Hp & _).
    rewrite Hw' in Hw. injection Hw as <-. specialize (Hp []). rewrite app_nil_r in Hp.
    rewrite Hp in Hr. injection Hr as ->. rewrite (codec_parse_ok _ _ _ Hp) in Hc.
    injection Hc as <-. by destruct m as [| | | | | | | | | |[]|].
  - destruct (wire_ut u em id Hq Hid Hut Hl) as (Hw' & _). rewrite Hw' in Hw.
    injection Hw as <-. unfold codec_parse_bytes in Hc. rewrite <- Hr in Hc.
    assert (Hne : id <> EXTENDED_MESSAGE_HANDSHAKE_ID)
      by (unfold EXTENDED_MESSAGE_HANDSHAKE_ID; lia).
    symmetry in Hr. pose proof (fun x => parse_ut_not_extended _ _ _ _ _ x Hl Hne Hr) as Hno.
    destruct r as [| | | | | | | | | |[|x]|]; try (by injection Hc as <-). by destruct (Hno x).
Qed.

Lemma link_step_ok l l' : link_step l l' -> link_ok l -> link_ok l'.
Proof.
  induction 1 as [l m w codec' Hok Hk Hw|l m w q r codec' Hq Hc|l l' Hs IH];
    intros [[Hs1 Hf1] [Hs2 Hf2]].
  - apply write_codec in Hw as (Hw & Hour & Htheir). split; split; simpl in *; try done.
    + apply Forall_app_2; [done|]. constructor; [|done]. by eexists.
    + rewrite fmap_app, fold_left_app, Hf1. done.
    + by rewrite Htheir.
  - rewrite Hq in Hs1, Hf1. apply Forall_cons in Hs1 as [Hm Hs1].
    destruct (receive_announce _ _ _ _ _ Hm Hc) as [Ht Ho].
    split; split; simpl in *; try done; [by rewrite Ht|by rewrite Ho].
  - destruct l as [ca cb ab ba]. destruct IH as [H1 H2]; [by split|].
    destruct l' as [ca' cb' ab' ba']. by split.
Qed.

Lemma link_reachable_ok l : rtc link_step link_new l -> link_ok l.
Proof.
  intros H. assert (Hn : link_ok link_new) by (split; split; simpl; done).
  revert Hn. induction H; eauto using link_step_ok.
Qed.
End TwoEnds.

(** ** Sending *)

Lemma codec_write_fst codec m :
  (codec_write_bytes codec m).1 = write_bytes m (their_extended_msg codec).
Proof.
  unfold codec_write_bytes. destruct (write_bytes m _); by destruct m as [| | | | | | | | | |[]|].
Qed.

Lemma on_write_sends codec out m bs :
  write_bytes m (their_extended_msg codec) = Ok bs -> message_size m = length bs ->
  exists out' codec', on_write codec out m = Ok (bs, out', codec').
Proof.
  intros Hw Hs. unfold on_write. pose proof (codec_write_fst codec m) as Hf.
  destruct (codec_write_bytes codec m) as [r codec']. cbn [fst] in Hf. subst r. rewrite Hw, Hs.
  cbn [unwrap mbind outcome_bind]. rewrite slice_in by (rewrite length_app; lia).
  rewrite drop_0, Nat.sub_0_r, take_app_length. cbn [mbind outcome_bind]. eauto.
Qed.

(** ** The bits of a bitfield message *)

Lemma shifted_top_bit byte k :
  k < 8 -> (Z.shiftr (to_u8 (Z.shiftl byte (Z.of_nat k))) 7 =? 1)%Z
  = Z.testbit byte (Z.of_nat (7 - k)).
Proof.
  intros Hk. set (x := Z.shiftl byte (Z.of_nat k)).
  assert (Hx : Z.testbit x 7 = Z.testbit byte (Z.of_nat (7 - k))).
  { unfold x. rewrite Z.shiftl_spec by lia. f_equal. lia. }
  rewrite <- Hx. unfold to_u8. rewrite Z.shiftr_div_pow2 by lia. change 256%Z with (2 ^ 7 * 2)%Z.
  rewrite Z.rem_mul_r, Z.mul_comm, Z.div_add, Z.div_small by (lia || apply Z.mod_pos_bound; lia).
  rewrite Z.add_0_l. pose proof (Z.testbit_spec' x 7 ltac:(lia)) as Hb.
  change (2 ^ 7)%Z with 128%Z in *. rewrite <- Hb. by destruct (Z.testbit x 7).
Qed.

(** The set bits from position [i] on. *)
Definition set_bits_from (bs : bytes) (i : nat) : list nat :=
  filter (fun j => byte_bit bs j = true) (seq i (8 * length bs - i)).

Lemma set_bits_step bs i :
  i < 8 * length bs ->
  set_bits_from bs i = (if byte_bit bs i then [i] else []) ++ set_bits_from bs (i + 1).
Proof.
  intros Hi. unfold set_bits_from.
  replace (8 * length bs - i) with (S (8 * length bs - (i + 1))) by lia. cbn [seq].
  rewrite <- Nat.add_1_r. destruct (byte_bit bs i) eqn:Hb.
  - by rewrite filter_cons_True.
  - by rewrite filter_cons_False by congruence.
Qed.

Definition have_at (i : nat) : HaveMessage := {| have_piece_index := to_u32 (Z.of_nat i) |}.

Lemma bitfield_next_spec bs fuel i :
  8 * length bs - i < fuel ->
  match set_bits_from bs i with
  | [] => exists it, bitfield_next fuel {| bf_bytes := bs; cur_bit := i |} = Ok (None, it)
  | j :: l => bitfield_next fuel {| bf_bytes := bs; cur_bit := i |}
                = Ok (Some (have_at j), {| bf_bytes := bs; cur_bit := j + 1 |}) /\
              l = set_bits_from bs (j + 1)
  end.
Proof.
  revert i. induction fuel as [|fuel IH]; intros i Hf; [lia|].
  cbn [bitfield_next bf_bytes cur_bit].
  destruct (decide (i < 8 * length bs)) as [Hi|Hi].
  - destruct (lookup_lt_is_Some_2 bs (i / 8)) as [byte Hb].
    { apply Nat.Div0.div_lt_upper_bound. lia. }
    rewrite Hb, shifted_top_bit by (apply Nat.mod_upper_bound; lia).
    rewrite set_bits_step by done. unfold byte_bit. rewrite Hb. cbn [default from_option id].
    destruct (Z.testbit byte _); [done|]. cbn [app]. apply IH. lia.
  - unfold set_bits_from. replace (8 * length bs - i) with 0 by lia.
    rewrite (lookup_ge_None_2 bs (i / 8)); [eexists; done|].
    apply Nat.div_le_lower_bound; lia.
Qed.

Lemma bitfield_collect_spec bs fuel i :
  length (set_bits_from bs i) < fuel ->
  bitfield_collect fuel {| bf_bytes := bs; cur_bit := i |} = Ok (have_at <$> set_bits_from bs i).
Proof.
  revert i. induction fuel as [|fuel IH]; intros i Hf; [lia|]. cbn [bitfield_collect bf_bytes].
  pose proof (bitfield_next_spec bs (8 * length bs + 1) i ltac:(lia)) as Hn.
  destruct (set_bits_from bs i) as [|j l].
  - destruct Hn as [it ->]. done.
  - destruct Hn as [-> ->]. cbn [mbind outcome_bind]. cbn [length] in Hf.
    by rewrite IH by lia.
Qed.

(** * Properties *)

(** A well-formed message (other than a keep-alive) is written as exactly
    [message_size] bytes, [bytes_needed] tells that number from the first four,
    and parsing those bytes gives the message back, whatever bytes follow.  The
    writing loop sends exactly these bytes, whatever its out buffer held. *)
Theorem message_roundtrip (N : Nom) (ext : option ExtendedMessage) (m : PeerWireProtocolMessage) :
  msg_ok ext m -> m <> KeepAlive ->
  exists bs, write_bytes m ext = Ok bs /\ length bs = message_size m /\
    bytes_needed bs = Ok (Some (Z.of_nat (length bs))) /\
    (forall rest, parse_bytes (bs ++ rest) ext = Ok m) /\
    (forall codec out, their_extended_msg codec = ext ->
       exists out' codec', on_write codec out m = Ok (bs, out', codec')).
Proof.
  intros Hm Hk. destruct (wire_all ext m Hm Hk) as (len & id & body & Hw & Hl & Hlen & Hs & Hp & _).
  exists (frame len id body). rewrite length_frame. split_and!; [done|done| | |].
  - unfold bytes_needed, frame. rewrite be_u32_app, u32_to_usize_id by done.
    cbn [mbind outcome_bind]. do 2 f_equal. unfold MESSAGE_LENGTH_LEN_BYTES. lia.
  - intros rest. by rewrite wire_frame_app.
  - intros codec out <-. apply on_write_sends; [done|]. by rewrite length_frame.
Qed.

(** A keep-alive is four zero bytes.  On its own it is recognised only if
    [opt!] turns an exhausted input into [None]; followed by another byte it is
    recognised exactly when that byte is zero. *)
Theorem keep_alive_recognition (N : Nom) (ext : option ExtendedMessage) :
  write_bytes KeepAlive ext = Ok (be_bytes 4 0) /\
  (parse_bytes (be_bytes 4 0) ext = Ok KeepAlive <-> opt be_u8 [] = Done [] None) /\
  (forall b rest, parse_bytes (be_bytes 4 0 ++ b :: rest) ext = Ok KeepAlive <-> b = 0%Z).
Proof.
  split; [done|]. split.
  - unfold parse_bytes, parse_message, parse_standard, header_opt.
    rewrite be_u32_done by done. cbn [iresult_bind]. change (drop 4 (be_bytes 4 0)) with (@nil Z).
    destruct (be_u8_short []) as [n Hn]; [simpl; lia|].
    destruct (opt_incomplete be_u8 [] n Hn) as [Ho|Ho]; rewrite Ho; by split.
  - intros b rest. fold (frame 0 b rest). unfold parse_bytes, parse_message, parse_standard.
    rewrite header_opt_frame by done. cbn -[split_off u32_sub]. split; [|by intros ->].
    intros H. destruct (Z.eqb_spec b 0) as [|Hne]; [done|].
    rewrite !split_off_header in H. cbn [mbind outcome_bind] in H.
    repeat match type of H with context [if (b =? ?c)%Z then _ else _] =>
      destruct (b =? c)%Z; [done|] end.
    unfold parser_map in H.
    destruct (parse_extension _) as [[[] [|]| |]| | |]; try done.
    cbn in H. by destruct (PeerExtension_parse_bytes _ _) as [[|]| | |].
Qed.

(** A piece message whose length prefix is too small for its two integers,
    followed by at least eight more bytes, makes the parser panic (the block
    length underflows); so does a bitfield or piece id after a zero length. *)
Theorem undersized_message_panics (N : Nom) (ext : option ExtendedMessage) (len : Z) (t : bytes) :
  ((1 <= len < 9)%Z -> 8 <= length t -> parse_bytes (frame len PIECE_MESSAGE_ID t) ext = Panic) /\
  parse_bytes (frame 0 PIECE_MESSAGE_ID t) ext = Panic /\
  parse_bytes (frame 0 BITFIELD_MESSAGE_ID t) ext = Panic.
Proof.
  split_and!.
  - intros Hl Ht. unfold parse_bytes, parse_message.
    rewrite std_piece by (unfold is_u32; lia).
    unfold PieceMessage_parse_bytes, parse_piece. rewrite two_u32_done by done.
    unfold u32_sub. by destruct (Z.leb_spec 8 (len - 1)); [lia|].
  - unfold parse_bytes, parse_message, parse_standard. rewrite header_opt_frame by done.
    cbn. by rewrite split_off_header.
  - unfold parse_bytes, parse_message, parse_standard. rewrite header_opt_frame by done.
    cbn. by rewrite split_off_header.
Qed.

(** C5. Reassembly: of a stream of well-formed messages, none a keep-alive and none
    longer than the loop's buffer of 24 KiB, the reading loop delivers, however the
    bytes are cut into reads, exactly the messages that have arrived completely, in
    order, holds back less than the next one, and its codec remembers the last
    announcement among them; so after as many reads as there are bytes, all are
    delivered and the buffer is empty. *)
Theorem stream_reassembled (N : Nom) (codec : PeerWireMessageCodec)
    (ms : list PeerWireProtocolMessage) (ws : list bytes) (sizes : list nat) :
  Forall2 (fun m w => msg_ok (our_extended_msg codec) m /\ m <> KeepAlive /\
             write_bytes m (our_extended_msg codec) = Ok w /\ length w <= BUFFER_LEN) ms ws ->
  exists ms1 ms2 ws1 ws2 buffered unread, ms = ms1 ++ ms2 /\ ws = ws1 ++ ws2 /\ length ms2 = length ws2 /\
    run_reads codec [] (concat ws) sizes = (ms1, Ok (buffered, unread, fold_left received ms1 codec)) /\
    buffered ++ unread = concat ws2 /\ match ws2 with [] => buffered = [] | w :: _ => length buffered < length w end /\
    (Forall (fun n => 0 < n) sizes -> length (concat ws) <= length sizes -> ms1 = ms /\ buffered = [] /\ unread = []).
Proof.
  intros Hms. assert (He : Forall2 (encodes (our_extended_msg codec)) ms ws).
  { eapply Forall2_impl; [done|]. intros m w (Hm & Hk & Hw & _).
    destruct (wire_all _ _ Hm Hk) as (len & id & body & Hf). exists len, id, body. split; [done|]. destruct Hf as (Hw' & _). congruence. }
  assert (Hl : Forall (fun w => length w <= BUFFER_LEN) ws) by (clear He; induction Hms as [|m w ms ws (_ & _ & _ & ?)]; by constructor).
  assert (Hw : waits [] ws) by (destruct He as [|m w ms ws Hm _]; [done|]; apply encodes_long in Hm; cbn; lia).
  destruct (run_reads_spec _ sizes ms ws codec [] (concat ws) He Hl eq_refl Hw eq_refl) as (ms1 & ms2 & ws1 & ws2 & p & u & H1 & H2 & H3 & H4 & H5 & H6 & H7).
  exists ms1, ms2, ws1, ws2, p, u. split_and!; try done; [by eapply Forall2_length|]. intros Hs Hlen. specialize (H7 Hs).
  assert (u = []) as -> by (destruct u; [done|cbn in H7; lia]). rewrite app_nil_r in H5. subst p.
  destruct H3 as [|m w ms2 ws2 Hm _]; [by rewrite app_nil_r in H1|]. cbn [waits concat] in H6. rewrite length_app in H6. lia.
Qed.

(** One turn of the reading loop always returns: it never runs past the
    data it has, every message it takes out shrinks the data, and what it leaves
    buffered is the end of the data.  It panics only when the parser does. *)
Theorem read_turn_returns (N : Nom) (codec : PeerWireMessageCodec) (buffered chunk : bytes) :
  Forall is_u8 (buffered ++ chunk) ->
  (exists msgs rest codec', on_read codec buffered chunk = (msgs, Ok (rest, codec')) /\
     exists used, buffered ++ chunk = used ++ rest) \/
  ((on_read codec buffered chunk).2 = Panic /\
   exists used rest, buffered ++ chunk = used ++ rest /\
     parse_bytes rest (our_extended_msg codec) = Panic).
Proof.
  intros Hu. unfold on_read. destruct (Nat.ltb_spec (length (buffered ++ chunk)) 4).
  - left. eexists _, _, _. split; [done|]. by exists [].
  - apply take_messages_outcome; [done|lia].
Qed.

(** C33. The ends of a connection agree on announcements: in every state they
    can reach by writing messages other than keep-alives and parsing, in any order,
    once one end has read all that was sent to it, it holds the other's last
    announcement.  So when nothing is under way, any well-formed message other than a
    keep-alive that either end writes, extension messages with their negotiated ids
    included, is parsed as that message by the other.  A keep-alive, four zero bytes, is
    parsed on its own only if [opt!] turns an exhausted input into [None], and followed
    by another byte exactly if that byte is zero, as it is at the start of a message
    shorter than 2^24 bytes. *)
Theorem announcements_agree (N : Nom) (l : Link) :
  rtc link_step link_new l ->
  (a_to_b l = [] -> their_extended_msg (codec_b l) = our_extended_msg (codec_a l)) /\
  (b_to_a l = [] -> their_extended_msg (codec_a l) = our_extended_msg (codec_b l)) /\
  (b_to_a l = [] -> forall m w codec',
     msg_ok (their_extended_msg (codec_a l)) m -> m <> KeepAlive ->
     codec_write_bytes (codec_a l) m = (Ok w, codec') ->
     codec_parse_bytes (codec_b l) w = (Ok m, received (codec_b l) m)) /\
  (codec_write_bytes (codec_a l) KeepAlive).1 = Ok (be_bytes 4 0) /\
  ((codec_parse_bytes (codec_b l) (be_bytes 4 0)).1 = Ok KeepAlive <-> opt be_u8 [] = Done [] None) /\
  forall b rest, (codec_parse_bytes (codec_b l) (be_bytes 4 0 ++ b :: rest)).1 = Ok KeepAlive <-> b = 0%Z.
Proof.
  intros [[_ H1] [_ H2]]%link_reachable_ok. simpl in H1, H2.
  assert (Hf : forall bs, (codec_parse_bytes (codec_b l) bs).1 = parse_bytes bs (our_extended_msg (codec_b l))).
  { intros bs. destruct (codec_parse_bytes (codec_b l) bs) as [r c] eqn:E. by apply codec_parse_inv in E as [-> _]. }
  split_and!; [by intros E; rewrite E in H1|by intros E; rewrite E in H2| |done| |].
  - intros E m w codec' Hm Hk Hw. rewrite E in H2. simpl in H2. rewrite H2 in Hm.
    apply write_codec in Hw as (Hw & _). rewrite H2 in Hw.
    destruct (wire_all _ _ Hm Hk) as (len & id & body & Hw' & _ & _ & _ & Hp & _).
    rewrite Hw in Hw'. injection Hw' as ->. specialize (Hp []). rewrite app_nil_r in Hp.
    by apply codec_parse_ok.
  - rewrite Hf. apply keep_alive_recognition.
  - intros b rest. rewrite Hf. apply keep_alive_recognition.
Qed.

(** Iterating over a bitfield message ends, and yields one [HaveMessage] per
    set bit, in order, with the bit's position (the high bit of the first byte
    being 0) as piece index. *)
Theorem bitfield_iter_yields_set_bits (m : BitFieldMessage) :
  bitfield_collect (8 * length (bitfield m) + 1) (BitFieldMessage_iter m) =
  Ok ((fun i => {| have_piece_index := to_u32 (Z.of_nat i) |}) <$>
      filter (fun i => byte_bit (bitfield m) i = true) (seq 0 (8 * length (bitfield m)))).
Proof.
  unfold BitFieldMessage_iter.
  assert (Hs : set_bits_from (bitfield m) 0
    = filter (fun i => byte_bit (bitfield m) i = true) (seq 0 (8 * length (bitfield m)))).
  { unfold set_bits_from. by rewrite Nat.sub_0_r. }
  rewrite <- Hs. apply bitfield_collect_spec. rewrite Hs.
  pose proof (length_filter (fun i => byte_bit (bitfield m) i = true)
    (seq 0 (8 * length (bitfield m)))) as Hf. rewrite length_seq in Hf. lia.
Qed.

(** * Concrete instances *)

Definition sample_request : PeerWireProtocolMessage :=
  Request {| rq_piece_index := 1; rq_block_offset := 16384; rq_block_length := 16384 |}.

Lemma message_roundtrip_witness :
  exists bs, write_bytes sample_request None = Ok bs /\
    forall rest, @parse_bytes nom3 (bs ++ rest) None = Ok sample_request.
Proof.
  destruct (message_roundtrip nom3 None sample_request) as (bs & H1 & _ & _ & H2 & _).
  - vm_compute. repeat split; congruence.
  - discriminate.
  - exists bs. exact (conj H1 H2).
Defined.

Lemma undersized_message_panics_witness :
  @parse_bytes nom3 (frame 3 PIECE_MESSAGE_ID (replicate 8 0%Z)) None = Panic.
Proof.
  destruct (undersized_message_panics nom3 None 3 (replicate 8 0%Z)) as [H _].
  apply H; vm_compute; [split; congruence|lia].
Defined.

(** Two messages, cut in the middle of the first and of the second. *)
Lemma stream_reassembled_witness :
  @run_reads nom3 codec_new [] [0; 0; 0; 1; 0; 0; 0; 0; 5; 4; 0; 0; 0; 9]%Z [3; 7]
    = ([Choke], Ok ([0; 0; 0; 5; 4]%Z, [0; 0; 0; 9]%Z, codec_new)) /\
  exists buffered unread, @run_reads nom3 codec_new [] [0; 0; 0; 1; 0; 0; 0; 0; 5; 4; 0; 0; 0; 9]%Z (replicate 14 3)
    = ([Choke; Have {| have_piece_index := 9 |}], Ok (buffered, unread, codec_new)) /\ buffered = [] /\ unread = [].
Proof.
  split; [vm_compute; reflexivity|].
  destruct (stream_reassembled nom3 codec_new [Choke; Have {| have_piece_index := 9 |}]
    [[0; 0; 0; 1; 0]; [0; 0; 0; 5; 4; 0; 0; 0; 9]]%Z (replicate 14 3)) as (ms1 & ms2 & ws1 & ws2 & p & u & _ & _ & _ & E & _ & _ & H).
  - constructor; [|constructor; [|constructor]]; (split_and!; [vm_compute; by repeat split|discriminate|by vm_compute|by apply Nat.leb_le; vm_compute]).
  - destruct H as (-> & -> & ->); [by apply Forall_replicate; lia|cbn; lia|].
    exists [], []. split; [exact E|]. by split.
Defined.

Lemma read_turn_returns_witness :
  (exists msgs rest codec', @on_read nom3 codec_new [0]%Z [0; 0; 1; 2; 0]%Z = (msgs, Ok (rest, codec')) /\
     exists used, [0; 0; 0; 1; 2; 0]%Z = used ++ rest).
Proof.
  destruct (read_turn_returns nom3 codec_new [0]%Z [0; 0; 1; 2; 0]%Z) as [H|[H _]].
  - repeat constructor; vm_compute; congruence.
  - exact H.
  - vm_compute in H. discriminate H.
Defined.

(** "d1:md11:ut_metadatai3eee": extension 3 is ut_metadata *)
Definition sample_bencode : bytes :=
  encode (ben_map [(ID_MAP_KEY, ben_map [(UT_METADATA_ID, new_int 3)])]).
Definition sample_extended : ExtendedMessage := {|
  id_map := {[UtMetadata := 3%Z]}; our_id := None; our_tcp_port := None; their_ip := None;
  our_ipv6_addr := None; our_ipv4_addr := None; our_max_requests := None; metadata_size := None;
  raw_bencode := sample_bencode |}.
Definition announcing : PeerWireMessageCodec :=
  {| our_extended_msg := Some sample_extended; their_extended_msg := None |}.
Definition informed : PeerWireMessageCodec :=
  {| our_extended_msg := None; their_extended_msg := Some sample_extended |}.
Definition sample_ut : PeerWireProtocolMessage :=
  ProtExtension (PeUtMetadata (UmRequest (UtMetadataRequestMessage_new 0))).

Definition sample_announcement : PeerWireProtocolMessage := BitsExtension (Extended sample_extended).

Lemma sample_announcement_ok ext : msg_ok ext sample_announcement.
Proof. split; [vm_compute; split; congruence|]. vm_compute. reflexivity. Qed.

(** [b] announces, [a] has heard it. *)
Definition sample_link : Link :=
  {| codec_a := informed; codec_b := announcing; a_to_b := []; b_to_a := [] |}.

Lemma sample_link_reachable : rtc (@link_step nom3) link_new sample_link.
Proof.
  set (w := ExtendedMessage_write_bytes sample_extended).
  set (mid := {| codec_a := codec_new; codec_b := announcing; a_to_b := [];
                 b_to_a := [(sample_announcement, w)] |}).
  apply (rtc_l _ _ mid).
  - apply (other_end link_new {| codec_a := announcing; codec_b := codec_new;
      a_to_b := [(sample_announcement, w)]; b_to_a := [] |}).
    apply (a_sends (swap_link link_new) sample_announcement w announcing);
      [apply sample_announcement_ok|discriminate|reflexivity].
  - apply rtc_once.
    apply (other_end _ {| codec_a := announcing; codec_b := informed; a_to_b := []; b_to_a := [] |}).
    apply (b_receives (swap_link mid) sample_announcement w [] sample_announcement informed); [reflexivity|].
    vm_compute. reflexivity.
Qed.

Lemma announcements_agree_witness :
  exists w codec', codec_write_bytes informed sample_ut = (Ok w, codec') /\
    @codec_parse_bytes nom3 announcing w = (Ok sample_ut, announcing).
Proof.
  destruct (announcements_agree nom3 sample_link sample_link_reachable) as (_ & _ & H & _).
  eexists _, _. split; [reflexivity|]. apply (H eq_refl sample_ut _ informed).
  - exists sample_extended, 3%Z. split; [reflexivity|]. split; [reflexivity|].
    split; [lia|]. split; [vm_compute; repeat split; congruence|vm_compute; split; congruence].
  - discriminate.
  - reflexivity.
Defined.

(** A metadata request with bytes after its dictionary is delivered with a
    [message_size] below its frame, so the reading loop does not skip them. *)
Example trailing_bytes_not_skipped :
  let body := encode (request_bencode 0) ++ [1; 2; 3]%Z in
  let bs := frame (2 + Z.of_nat (length body)) EXTENDED_MESSAGE_ID (3%Z :: body) in
  @parse_bytes nom3 bs (Some sample_extended) = Ok sample_ut /\
  message_size sample_ut + 3 = length bs.
Proof. vm_compute. split; reflexivity. Qed.
