(* ===== verification/Handshake.v ===== *)
(** Handshake: [btp-handshake], the handshake message and its extension bits,
    the framed exchange over a socket, the filters, the two ends of a handshake
    and the handler that runs them.

    A socket is its unread input, its written output and two schedules that
    say how many bytes the next reads and writes move, or that they fail; when
    a schedule is used up everything moves at once.  A read at the end of the
    input returns zero bytes, as on a closed connection.  Everything below is
    for arbitrary schedules. *)

From stdpp Require Import base list.
From Stdlib Require Import ZArith Lia.
From Stdlib Require String.
From S2P Require Import Prelude Convert ShaHash Nom.
Import String.StringSyntax.

(** * message/extensions.rs *)

Definition NUM_EXTENSION_BYTES : nat := 8.

Inductive Extension : Type := ExtensionProtocol.

Definition Extension_as_usize (e : Extension) : nat :=
  match e with ExtensionProtocol => 43 end.

Record Extensions := { ext_bytes : bytes }.

#[global] Instance Extensions_eq_dec : EqDecision Extensions.
Proof. solve_decision. Defined.

Definition with_bytes (bs : bytes) : Extensions := {| ext_bytes := bs |}.
Definition Extensions_from (bs : bytes) : Extensions := {| ext_bytes := bs |}.

Definition Extensions_new : Extensions := with_bytes (replicate NUM_EXTENSION_BYTES 0%Z).

Definition ext_add (e : Extension) (x : Extensions) : Extensions :=
  let active_bit := Extension_as_usize e in
  let byte_index := active_bit / 8 in
  let bit_index := active_bit mod 8 in
  with_bytes (alter (fun b => Z.lor b (Z.shiftr 128 (Z.of_nat bit_index))) byte_index (ext_bytes x)).

Definition ext_remove (e : Extension) (x : Extensions) : Extensions :=
  let active_bit := Extension_as_usize e in
  let byte_index := active_bit / 8 in
  let bit_index := active_bit mod 8 in
  with_bytes (alter (fun b => Z.land b (255 - Z.shiftr 128 (Z.of_nat bit_index))) byte_index
                (ext_bytes x)).

Definition ext_contains (e : Extension) (x : Extensions) : bool :=
  let active_bit := Extension_as_usize e in
  let byte_index := active_bit / 8 in
  let bit_index := active_bit mod 8 in
  negb (Z.land (default 0%Z (ext_bytes x !! byte_index)) (Z.shiftr 128 (Z.of_nat bit_index)) =? 0)%Z.

Definition ext_union (x y : Extensions) : Extensions :=
  with_bytes (fold_left (fun bs index =>
      <[index := Z.land (default 0%Z (ext_bytes x !! index)) (default 0%Z (ext_bytes y !! index))]> bs)
    (seq 0 NUM_EXTENSION_BYTES) (ext_bytes Extensions_new)).

(** * message/protocol.rs *)

Definition BT_PROTOCOL : bytes := ascii_bytes "BitTorrent protocol".
Definition BT_PROTOCOL_LEN : nat := 19.

Inductive Protocol : Type :=
  | BitTorrent
  | Custom (custom : bytes).

#[global] Instance Protocol_eq_dec : EqDecision Protocol.
Proof. solve_decision. Defined.

Definition Protocol_write_len (p : Protocol) : nat :=
  match p with
  | BitTorrent => BT_PROTOCOL_LEN
  | Custom custom => length custom
  end.

Definition Protocol_write_bytes (p : Protocol) : bytes :=
  let '(len, bs) := match p with
    | BitTorrent => (BT_PROTOCOL_LEN, BT_PROTOCOL)
    | Custom prot => (length prot, prot)
    end in
  [to_u8 (Z.of_nat len)] ++ bs.

(** * message/handshake.rs *)

Definition INFO_HASH_LEN : nat := SHA_HASH_LEN.
Definition PEER_ID_LEN : nat := SHA_HASH_LEN.

Record HandshakeMessage := {
  hs_prot : Protocol;
  hs_ext : Extensions;
  hs_hash : ShaHash;
  hs_pid : ShaHash;
}.

Definition from_parts {E} (prot : Protocol) (ext : Extensions) (hash pid : ShaHash)
  : outcome E HandshakeMessage :=
  let msg := {| hs_prot := prot; hs_ext := ext; hs_hash := hash; hs_pid := pid |} in
  match prot with
  | Custom custom => if 255 <? length custom then Panic else Ok msg
  | BitTorrent => Ok msg
  end.

Definition write_len_with_protocol_len (protocol_len : Z) : nat :=
  1 + Z.to_nat protocol_len + NUM_EXTENSION_BYTES + INFO_HASH_LEN + PEER_ID_LEN.

Definition hs_write_len (m : HandshakeMessage) : nat :=
  write_len_with_protocol_len (to_u8 (Z.of_nat (Protocol_write_len (hs_prot m)))).

(** The bytes the four [write_all]s of [write_bytes] append. *)
Definition hs_write_bytes (m : HandshakeMessage) : bytes :=
  Protocol_write_bytes (hs_prot m) ++ ext_bytes (hs_ext m) ++ hash (hs_hash m) ++ hash (hs_pid m).

Definition into_parts (m : HandshakeMessage) : Protocol * Extensions * ShaHash * ShaHash :=
  (hs_prot m, hs_ext m, hs_hash m, hs_pid m).

(** * Parsing *)

Section Parse.
Context `{Nom}.

Definition parse_raw_protocol (bs : bytes) : IResult bytes bytes :=
  iresult_bind (be_u8 bs) (fun i len => take_bytes len i).

Definition parse_real_protocol (bs : bytes) : IResult bytes Protocol :=
  iresult_map (fun raw => if decide (raw = BT_PROTOCOL) then BitTorrent else Custom raw)
    (parse_raw_protocol bs).

Definition parse_extension_bits (bs : bytes) : IResult bytes Extensions :=
  iresult_map with_bytes (count_fixed_u8 NUM_EXTENSION_BYTES bs).

Definition parse_remote_hash := parse_hash_of INFO_HASH_LEN.
Definition parse_remote_pid := parse_hash_of PEER_ID_LEN.

Definition parse_remote_handshake (bs : bytes) : outcome unit (IResult bytes HandshakeMessage) :=
  then_parse (parse_real_protocol bs) (fun i prot =>
  then_parse (parse_extension_bits i) (fun i ext =>
  r ← parse_remote_hash i; then_parse r (fun i hash =>
  r ← parse_remote_pid i; then_parse r (fun i pid =>
  m ← from_parts prot ext hash pid; Ok (Done i m))))).
End Parse.

(** * Sockets ([AsyncRead] and [AsyncWrite]) *)

Record Socket := {
  incoming : bytes;
  read_sched : list (option nat);
  outgoing : bytes;
  write_sched : list (option nat);
}.

(** [read(buf)] with [n = buf.len()]: [None] is an error; [Some k] on the
    schedule lets at most [k + 1] bytes through. *)
Definition sock_read (n : nat) (s : Socket) : option bytes * Socket :=
  let go k sched := (Some (take k (incoming s)),
    {| incoming := drop k (incoming s); read_sched := sched;
       outgoing := outgoing s; write_sched := write_sched s |}) in
  match read_sched s with
  | [] => go n []
  | Some k :: sched => go (n `min` S k) sched
  | None :: sched => (None, {| incoming := incoming s; read_sched := sched;
                               outgoing := outgoing s; write_sched := write_sched s |})
  end.

(** [write(buf)]: [Some k] on the schedule accepts at most [k] bytes. *)
Definition sock_write (buf : bytes) (s : Socket) : option nat * Socket :=
  let go k sched := (Some k,
    {| incoming := incoming s; read_sched := read_sched s;
       outgoing := outgoing s ++ take k buf; write_sched := sched |}) in
  match write_sched s with
  | [] => go (length buf) []
  | Some k :: sched => go (length buf `min` k) sched
  | None :: sched => (None, {| incoming := incoming s; read_sched := read_sched s;
                               outgoing := outgoing s; write_sched := sched |})
  end.

(** * socket/framed.rs *)

Inductive HandshakeState : Type := Waiting | Length (n : Z) | Finished.

Record FramedHandshake := {
  sock : Socket;
  write_buffer : bytes;
  read_buffer : bytes;
  read_pos : nat;
  state : HandshakeState;
}.

Inductive FramedError : Type := WriteZero | InvalidData.

Definition framed_new (s : Socket) : FramedHandshake :=
  {| sock := s; write_buffer := []; read_buffer := [0%Z]; read_pos := 0; state := Waiting |}.

Definition with_sock (f : FramedHandshake) (s : Socket) : FramedHandshake :=
  {| sock := s; write_buffer := write_buffer f; read_buffer := read_buffer f;
     read_pos := read_pos f; state := state f |}.

Definition with_write (f : FramedHandshake) (s : Socket) (buf : bytes) : FramedHandshake :=
  {| sock := s; write_buffer := buf; read_buffer := read_buffer f;
     read_pos := read_pos f; state := state f |}.

(** The loop of [send]; the socket's error ends it with [Ok(())].  The future
    of the final [flush] is dropped, so it does nothing. *)
Fixpoint send_loop (fuel : nat) (f : FramedHandshake) : outcome Empty_set ((FramedError + unit) * FramedHandshake) :=
  match fuel with
  | O => NoFuel
  | S fuel =>
      let '(write_result, s) := sock_write (write_buffer f) (sock f) in
      match write_result with
      | Some O => Ok (inl WriteZero, with_sock f s)
      | Some written =>
          '(_, rest) ← split_to (Z.of_nat written) (write_buffer f);
          let f' := with_write f s rest in
          match rest with
          | [] => Ok (inr tt, f')
          | _ => send_loop fuel f'
          end
      | None => Ok (inr tt, with_sock f s)
      end
  end.

(** Every turn that goes on removes a byte from the write buffer. *)
Definition framed_send (f : FramedHandshake) (item : HandshakeMessage)
  : outcome Empty_set ((FramedError + unit) * FramedHandshake) :=
  let buf := write_buffer f ++ hs_write_bytes item in
  send_loop (S (length buf)) (with_write f (sock f) buf).

Section Read.
Context `{Nom}.

Fixpoint read_loop (fuel : nat) (f : FramedHandshake)
  : outcome Empty_set ((FramedError + option HandshakeMessage) * FramedHandshake) :=
  match fuel with
  | O => NoFuel
  | S fuel =>
      match state f with
      | Waiting =>
          let '(read_result, s) := sock_read (length (read_buffer f)) (sock f) in
          match read_result with
          | Some [] => Ok (inr None, with_sock f s)
          | Some [len] =>
              read_loop fuel
                {| sock := s; write_buffer := write_buffer f;
                   read_buffer := <[0 := len]> (replicate (write_len_with_protocol_len len) 0%Z);
                   read_pos := 1; state := Length len |}
          | Some _ => Panic
          | None => Ok (inr None, with_sock f s)
          end
      | Length len =>
          let expected_length := write_len_with_protocol_len len in
          if read_pos f =? expected_length then
            match parse_remote_handshake (read_buffer f) with
            | Ok (Done _ message) =>
                Ok (inr (Some message),
                    {| sock := sock f; write_buffer := write_buffer f; read_buffer := read_buffer f;
                       read_pos := read_pos f; state := Finished |})
            | Ok (Incomplete _) => Panic
            | Ok Error => Ok (inl InvalidData, f)
            | Err _ => Panic
            | Panic => Panic
            | NoFuel => NoFuel
            end
          else
            buf ← slice_from (read_buffer f) (read_pos f);
            let '(read_result, s) := sock_read (length buf) (sock f) in
            match read_result with
            | Some [] => Ok (inr None, with_sock f s)
            | Some data =>
                read_loop fuel
                  {| sock := s; write_buffer := write_buffer f;
                     read_buffer := take (read_pos f) (read_buffer f) ++ data ++ drop (length data) buf;
                     read_pos := read_pos f + length data; state := state f |}
            | None => Ok (inr None, with_sock f s)
            end
      | Finished => Ok (inr None, f)
      end
  end.

(** Every turn after the first moves [read_pos] on, which never exceeds
    [write_len_with_protocol_len 255 = 304]; one turn more parses. *)
Definition framed_read (f : FramedHandshake) := read_loop 306 f.
Arguments framed_read : simpl never.
End Read.

(** * filter/mod.rs *)

Inductive FilterDecision : Type := Pass | Block | NeedData | Allow.

#[global] Instance FilterDecision_eq_dec : EqDecision FilterDecision.
Proof. solve_decision. Defined.

Definition decision_as_u8 (d : FilterDecision) : Z :=
  match d with Pass => 0 | Block => 1 | NeedData => 2 | Allow => 3 end.

Definition choose (self other : FilterDecision) : FilterDecision :=
  let self_num := decision_as_u8 self in
  let other_num := decision_as_u8 other in
  if (other_num <? self_num)%Z then self else other.

(** [trait HandshakeFilter].  [F] is the disjoint union of the filter types in
    use: [as_any] and [downcast_ref] make filters of two types unequal, and two
    of one type are compared by that type's [Eq]. *)
Class HandshakeFilter (F : Type) := {
  on_addr : F -> option SocketAddr -> FilterDecision;
  on_prot : F -> option Protocol -> FilterDecision;
  on_ext : F -> option Extensions -> FilterDecision;
  on_hash : F -> option ShaHash -> FilterDecision;
  on_pid : F -> option ShaHash -> FilterDecision;
}.

(** * filter/filters.rs; the lock is taken for the whole of each operation *)

Section Filters.
Context {F : Type} `{!EqDecision F} `{!HandshakeFilter F}.

Definition check_index (ref_filters : list F) (filter : F) : option nat :=
  position (fun ref_filter => bool_decide (ref_filter = filter)) ref_filters.

Definition add_filter (filter : F) (mut_filters : list F) : list F :=
  match check_index mut_filters filter with
  | Some _ => mut_filters
  | None => mut_filters ++ [filter]
  end.

(** [Vec::swap_remove] for an index in range *)
Definition swap_remove {A} (index : nat) (l : list A) : list A :=
  match last l with
  | Some x => take (length l - 1) (<[index := x]> l)
  | None => l
  end.

Definition remove_filter (filter : F) (mut_filters : list F) : list F :=
  match check_index mut_filters filter with
  | Some index => swap_remove index mut_filters
  | None => mut_filters
  end.

Definition clear_filters (mut_filters : list F) : list F := [].

(** * handler/mod.rs: should_filter *)

Definition should_filter (addr : option SocketAddr) (prot : option Protocol)
    (ext : option Extensions) (hash pid : option ShaHash) (filters : list F) : bool :=
  let '(addr_filter, prot_filter, ext_filter, hash_filter, pid_filter) :=
    fold_left (fun '(a, p, e, h, i) ref_filter =>
      (choose a (on_addr ref_filter addr), choose p (on_prot ref_filter prot),
       choose e (on_ext ref_filter ext), choose h (on_hash ref_filter hash),
       choose i (on_pid ref_filter pid)))
      filters (Pass, Pass, Pass, Pass, Pass) in
  bool_decide (choose (choose (choose (choose addr_filter prot_filter) ext_filter) hash_filter)
                 pid_filter = Block).

(** * manager/in_msg.rs and out_msg.rs *)

Record InitiateMessage := { im_prot : Protocol; im_hash : ShaHash; im_addr : SocketAddr }.

Record CompleteMessage := {
  cm_prot : Protocol;
  cm_ext : Extensions;
  cm_hash : ShaHash;
  cm_pid : ShaHash;
  cm_addr : SocketAddr;
  cm_sock : Socket;
}.

(** * handler/handshaker.rs *)

Context `{Nom}.

(** [filters] is the filter set at the time of the check: the calls before it
    wait for the peer. The result of [send] is not looked at. *)
Definition initiate_handshake (s : Socket) (init_msg : InitiateMessage) (ext : Extensions)
    (pid : ShaHash) (filters : list F) : outcome Empty_set (unit + option CompleteMessage) :=
  let framed := framed_new s in
  let '(prot, hash, addr) := (im_prot init_msg, im_hash init_msg, im_addr init_msg) in
  handshake_msg ← from_parts prot ext hash pid;
  '(_, framed) ← framed_send framed handshake_msg;
  '(r, framed) ← framed_read framed;
  match r with
  | inr (Some msg) =>
      let '(remote_prot, remote_ext, remote_hash, remote_pid) := into_parts msg in
      if bool_decide (remote_hash = hash) && bool_decide (remote_prot = prot) &&
         negb (should_filter (Some addr) (Some remote_prot) (Some remote_ext) (Some remote_hash)
                 (Some remote_pid) filters)
      then Ok (inr (Some {| cm_prot := prot; cm_ext := ext_union ext remote_ext; cm_hash := hash;
                            cm_pid := remote_pid; cm_addr := addr; cm_sock := sock framed |}))
      else Ok (inr None)
  | _ => Ok (inr None)
  end.

Definition complete_handshake (s : Socket) (addr : SocketAddr) (ext : Extensions)
    (pid : ShaHash) (filters : list F) : outcome Empty_set (unit + option CompleteMessage) :=
  let framed := framed_new s in
  '(r, framed) ← framed_read framed;
  match r with
  | inr (Some msg) =>
      let '(remote_prot, remote_ext, remote_hash, remote_pid) := into_parts msg in
      if negb (should_filter (Some addr) (Some remote_prot) (Some remote_ext) (Some remote_hash)
                 (Some remote_pid) filters)
      then
        handshake_msg ← from_parts remote_prot ext remote_hash pid;
        '(_, framed) ← framed_send framed handshake_msg;
        Ok (inr (Some {| cm_prot := remote_prot; cm_ext := ext_union ext remote_ext;
                         cm_hash := remote_hash; cm_pid := remote_pid; cm_addr := addr;
                         cm_sock := sock framed |}))
      else Ok (inl tt)
  | _ => Ok (inr None)
  end.

(** * handler/mod.rs: HandshakeHandler *)

(** What the holders of the [Filters] handle do, at any time. *)
Inductive FilterOp : Type := FAdd (f : F) | FRemove (f : F) | FClear.

Definition filter_op (filters : list F) (op : FilterOp) : list F :=
  match op with
  | FAdd f => add_filter f filters
  | FRemove f => remove_filter f filters
  | FClear => clear_filters filters
  end.

Record HandshakeHandler := {
  is_run : bool;
  filters : list F;
  h_ext : Extensions;
  h_pid : ShaHash;
  out_msg : list CompleteMessage;
  out_open : bool;  (* the receiver of [out_msg] has not been dropped *)
}.

Definition handler_new (pid : ShaHash) (ext : Extensions) (fs : list F) : HandshakeHandler :=
  {| is_run := true; filters := fs; h_ext := ext; h_pid := pid; out_msg := []; out_open := true |}.

Definition shutdown (h : HandshakeHandler) : HandshakeHandler :=
  {| is_run := false; filters := filters h; h_ext := h_ext h; h_pid := h_pid h;
     out_msg := out_msg h; out_open := out_open h |}.

Definition set_filters (fs : list F) (h : HandshakeHandler) : HandshakeHandler :=
  {| is_run := is_run h; filters := fs; h_ext := h_ext h; h_pid := h_pid h;
     out_msg := out_msg h; out_open := out_open h |}.

(** [out_msg.send(..).expect(..)] *)
Definition emit (m : CompleteMessage) (h : HandshakeHandler) : outcome Empty_set HandshakeHandler :=
  if out_open h then
    Ok {| is_run := is_run h; filters := filters h; h_ext := h_ext h; h_pid := h_pid h;
          out_msg := out_msg h ++ [m]; out_open := true |}
  else Panic.

Inductive InHandshake : Type := Shutdown | Init (item : InitiateMessage).

(** [connected] is what [transport.connect] gave; [during] is what happens to
    the filters while the handshake waits. *)
Definition handle_command_msg (item : InitiateMessage) (connected : option Socket)
    (during : list FilterOp) (h : HandshakeHandler) : outcome Empty_set HandshakeHandler :=
  if negb (should_filter (Some (im_addr item)) (Some (im_prot item)) None (Some (im_hash item)) None
             (filters h))
  then
    let h := set_filters (fold_left filter_op during (filters h)) h in
    match connected with
    | Some socket =>
        r ← initiate_handshake socket item (h_ext h) (h_pid h) (filters h);
        match r with
        | inr (Some s) => emit s h
        | _ => Ok h
        end
    | None => Ok h
    end
  else Ok h.

Definition handle_command (item : InHandshake) (connected : option Socket)
    (during : list FilterOp) (h : HandshakeHandler) : outcome Empty_set HandshakeHandler :=
  match item with
  | Shutdown => Ok (shutdown h)
  | Init item => handle_command_msg item connected during h
  end.

Definition handle_listen (socket : Socket) (addr : SocketAddr) (during : list FilterOp)
    (h : HandshakeHandler) : outcome Empty_set HandshakeHandler :=
  if negb (should_filter (Some addr) None None None None (filters h)) then
    let h := set_filters (fold_left filter_op during (filters h)) h in
    r ← complete_handshake socket addr (h_ext h) (h_pid h) (filters h);
    match r with
    | inr (Some s) => emit s h
    | _ => Ok h
    end
  else Ok h.

(** What one turn of the handler's loop can see, and what others do to the
    shared filters and to the receiving end of [out_msg] between turns. *)
Inductive HandlerEvent : Type :=
  | EvCommand (command : option InHandshake) (connected : option Socket) (during : list FilterOp)
  | EvListen (message : option (Socket * SocketAddr)) (during : list FilterOp)
  | EvFilter (op : FilterOp)
  | EvDropReceiver.

Definition run_one (ev : HandlerEvent) (h : HandshakeHandler) : outcome Empty_set HandshakeHandler :=
  match ev with
  | EvCommand (Some command) connected during => handle_command command connected during h
  | EvCommand None _ _ => Ok (shutdown h)
  | EvListen (Some (socket, addr)) during => handle_listen socket addr during h
  | EvListen None _ => Ok h
  | EvFilter op => Ok (set_filters (filter_op (filters h) op) h)
  | EvDropReceiver =>
      Ok {| is_run := is_run h; filters := filters h; h_ext := h_ext h; h_pid := h_pid h;
            out_msg := out_msg h; out_open := false |}
  end.

(** [run], on the events that happen *)
Fixpoint run (evs : list HandlerEvent) (h : HandshakeHandler) : outcome Empty_set HandshakeHandler :=
  match evs with
  | [] => Ok h
  | ev :: evs =>
      if is_run h then h' ← run_one ev h; run evs h' else Ok h
  end.
End Filters.

Arguments HandshakeHandler : clear implicits.
Arguments FilterOp : clear implicits.
Arguments HandlerEvent : clear implicits.
