(* ===== verification/HandshakeCorrect.v ===== *)
(** HandshakeCorrect: the framed exchange moves exactly one handshake in each
    direction whatever sizes the socket's reads and writes have, two connected
    ends agree on what they negotiated, the filters behave as a set whose
    decisions are ranked across all fields, and the handler announces only
    handshakes its filters let through. *)

From stdpp Require Import base list sets.
From Stdlib Require Import ZArith Lia.
From S2P Require Import Prelude Convert ShaHash Nom Handshake.

(** * Well-formed messages *)

(** What the Rust types and [from_parts] guarantee of a protocol. *)
Definition prot_ok (p : Protocol) : Prop :=
  match p with
  | BitTorrent => True
  | Custom c => length c <= 255 /\ Forall is_u8 c
  end.

(** [Custom] with the standard name is the one protocol no parser returns. *)
Definition prot_canonical (p : Protocol) : Prop := p <> Custom BT_PROTOCOL.

Definition exts_ok (x : Extensions) : Prop :=
  length (ext_bytes x) = NUM_EXTENSION_BYTES /\ Forall is_u8 (ext_bytes x).

Definition hs_ok (m : HandshakeMessage) : Prop :=
  prot_ok (hs_prot m) /\ prot_canonical (hs_prot m) /\ exts_ok (hs_ext m) /\
  is_hash (hs_hash m) /\ is_hash (hs_pid m).

#[global] Instance prot_ok_dec p : Decision (prot_ok p).
Proof. destruct p; simpl; apply _. Defined.
#[global] Instance prot_canonical_dec p : Decision (prot_canonical p).
Proof. unfold prot_canonical. apply _. Defined.
#[global] Instance ext_ok_dec x : Decision (exts_ok x).
Proof. unfold exts_ok. apply _. Defined.
#[global] Instance hs_ok_dec m : Decision (hs_ok m).
Proof. unfold hs_ok. apply _. Defined.

(** The name a protocol has on the wire, and the protocol of a name. *)
Definition prot_name (p : Protocol) : bytes :=
  match p with BitTorrent => BT_PROTOCOL | Custom c => c end.
Definition prot_of (name : bytes) : Protocol :=
  if decide (name = BT_PROTOCOL) then BitTorrent else Custom name.

Lemma prot_of_name p : prot_canonical p -> prot_of (prot_name p) = p.
Proof.
  unfold prot_canonical, prot_of, prot_name. intros Hc.
  destruct p; [by rewrite decide_True|]. by rewrite decide_False by congruence.
Qed.

Lemma prot_name_of name : prot_name (prot_of name) = name.
Proof. unfold prot_of. by case_decide; subst. Qed.

Lemma prot_of_ok name : length name <= 255 -> Forall is_u8 name ->
  prot_ok (prot_of name) /\ prot_canonical (prot_of name).
Proof. unfold prot_of, prot_canonical. intros. case_decide; simpl; naive_solver. Qed.

Lemma prot_name_ok p : prot_ok p -> length (prot_name p) <= 255 /\ Forall is_u8 (prot_name p).
Proof.
  destruct p; simpl; [|done]. intros _. split; [vm_compute; lia|].
  apply (bool_decide_unpack _). by vm_compute.
Qed.

Lemma write_bytes_shape m :
  hs_write_bytes m = to_u8 (Z.of_nat (length (prot_name (hs_prot m)))) ::
    prot_name (hs_prot m) ++ ext_bytes (hs_ext m) ++ hash (hs_hash m) ++ hash (hs_pid m).
Proof. unfold hs_write_bytes, Protocol_write_bytes. by destruct (hs_prot m). Qed.

(** The buffer space [send] reserves is what [write_bytes] fills. *)
Lemma length_write_bytes m : hs_ok m -> length (hs_write_bytes m) = hs_write_len m.
Proof.
  intros (Hp & _ & [He _] & [Hh _] & [Hi _]). destruct (prot_name_ok _ Hp) as [Hl _].
  rewrite write_bytes_shape. cbn [length]. rewrite !length_app, He, Hh, Hi.
  unfold hs_write_len, write_len_with_protocol_len, INFO_HASH_LEN, PEER_ID_LEN.
  assert (Protocol_write_len (hs_prot m) = length (prot_name (hs_prot m))) as ->
    by (by destruct (hs_prot m)).
  rewrite to_u8_id by (unfold is_u8; lia). lia.
Qed.

(** * Parsing *)

Section Parse.
Context `{Nom}.

(** The parser on input that holds all five fields. *)
Lemma parse_fields name e h p rest :
  length name <= 255 -> length e = 8 -> length h = 20 -> length p = 20 ->
  parse_remote_handshake (Z.of_nat (length name) :: name ++ e ++ h ++ p ++ rest)
  = Ok (Done rest {| hs_prot := prot_of name; hs_ext := with_bytes e;
                     hs_hash := {| hash := h |}; hs_pid := {| hash := p |} |}).
Proof.
  intros Hn He Hh Hp. unfold parse_remote_handshake, parse_real_protocol, parse_raw_protocol.
  rewrite be_u8_cons. cbn [iresult_bind].
  rewrite take_bytes_head by done. cbn [iresult_map iresult_bind then_parse].
  unfold parse_extension_bits, NUM_EXTENSION_BYTES. rewrite <- He, count_fixed_head.
  cbn [iresult_map iresult_bind then_parse]. unfold parse_remote_hash, parse_remote_pid.
  rewrite parse_hash_head by done. cbn [mbind outcome_bind then_parse].
  rewrite parse_hash_head by done. cbn [mbind outcome_bind then_parse].
  fold (prot_of name). unfold from_parts.
  destruct (prot_of name) eqn:Hpo; [done|].
  assert (custom = name) as ->.
  { rewrite <- (prot_name_of name), Hpo. done. }
  by rewrite (proj2 (Nat.ltb_ge 255 (length name)) Hn).
Qed.

(** Input as long as its first byte announces parses to the one message that
    is written as these bytes. *)
Lemma parse_exact len body rest :
  is_u8 len -> Forall is_u8 body -> length (len :: body) = write_len_with_protocol_len len ->
  exists m, parse_remote_handshake (len :: body ++ rest) = Ok (Done rest m) /\ hs_ok m /\
    hs_write_bytes m = len :: body.
Proof.
  intros Hlen Hb Hl. set (n := Z.to_nat len).
  unfold write_len_with_protocol_len, INFO_HASH_LEN, PEER_ID_LEN, SHA_HASH_LEN, NUM_EXTENSION_BYTES in Hl.
  cbn [length] in Hl. fold n in Hl.
  assert (Hn : len = Z.of_nat n) by (unfold n, is_u8 in *; lia).
  assert (Hn255 : n <= 255) by (unfold is_u8 in *; lia).
  assert (exists name e h p, body = name ++ e ++ h ++ p /\
    length name = n /\ length e = 8 /\ length h = 20 /\ length p = 20)
    as (name & e & h & p & -> & Ln & Le & Lh & Lp).
  { exists (take n body), (take 8 (drop n body)), (take 20 (drop 8 (drop n body))),
      (drop 20 (drop 8 (drop n body))).
    rewrite !take_drop, !length_take, !length_drop. split_and!; [done|lia..]. }
  pose proof (parse_fields name e h p rest) as Hpf. rewrite Ln, <- Hn in Hpf.
  rewrite <- !app_assoc.
  rewrite !Forall_app in Hb. destruct Hb as (Hb1 & Hb2 & Hb3 & Hb4).
  eexists. split; [apply Hpf; auto; lia|]. split.
  - destruct (prot_of_ok name) as [Hp1 Hp2]; [lia|done|].
    unfold hs_ok, exts_ok, is_hash. simpl. naive_solver.
  - rewrite write_bytes_shape. simpl. rewrite prot_name_of, Ln, to_u8_id, <- Hn by
      (unfold is_u8; lia). done.
Qed.

Lemma parse_written m rest :
  hs_ok m -> parse_remote_handshake (hs_write_bytes m ++ rest) = Ok (Done rest m).
Proof.
  intros (Hp & Hc & [He He8] & [Hh Hh8] & [Hi Hi8]). destruct (prot_name_ok _ Hp) as [Hl Hn8].
  rewrite write_bytes_shape. cbn [app]. rewrite <- !app_assoc, to_u8_id by (unfold is_u8; lia).
  rewrite parse_fields by done. rewrite prot_of_name by done.
  destruct m as [? [] [] []]. done.
Qed.
End Parse.

(** * The socket *)

Lemma sock_read_spec n s r s' :
  sock_read n s = (r, s') ->
  outgoing s' = outgoing s /\ write_sched s' = write_sched s /\
  (None ∈ read_sched s' -> None ∈ read_sched s) /\
  match r with
  | None => None ∈ read_sched s
  | Some d => incoming s = d ++ incoming s' /\ length d <= n /\
      (d = [] -> n = 0 \/ incoming s = [])
  end.
Proof.
  unfold sock_read.
  assert (Htake : forall k, k <= n -> length (take k (incoming s)) <= n /\
    (take k (incoming s) = [] -> k = 0 \/ incoming s = [])).
  { intros k Hk. rewrite length_take. split; [lia|]. destruct k, (incoming s); naive_solver. }
  destruct (read_sched s) as [|[k|] sched] eqn:Hs; intros [= <- <-]; simpl;
    rewrite ?take_drop.
  - rewrite elem_of_nil. destruct (Htake n); [lia|]. naive_solver.
  - rewrite elem_of_cons. destruct (Htake (n `min` S k)) as [H1 H2]; [lia|].
    split_and!; try done; [tauto|]. intros Hd. destruct (H2 Hd); [left; lia|by right].
  - rewrite elem_of_cons. tauto.
Qed.

Definition good_writes (s : Socket) : Prop :=
  Forall (fun o => exists k, o = Some (S k)) (write_sched s).

Lemma sock_write_spec buf s r s' :
  sock_write buf s = (r, s') -> buf <> [] ->
  incoming s' = incoming s /\ read_sched s' = read_sched s /\
  match r with
  | None => outgoing s' = outgoing s /\ ~ good_writes s
  | Some k => outgoing s' = outgoing s ++ take k buf /\ k <= length buf /\
      (good_writes s -> k <> 0 /\ good_writes s')
  end.
Proof.
  unfold sock_write, good_writes. intros Hw Hb.
  assert (length buf <> 0) by (by destruct buf).
  destruct (write_sched s) as [|[k|] sched] eqn:Hs; simplify_eq/=.
  - split_and!; auto; lia.
  - split_and!; auto; [lia|]. intros [[k' [= ->]] Hg]%Forall_cons_1. split; [lia|done].
  - split_and!; auto. intros [[k' [=]] _]%Forall_cons_1.
Qed.

(** * Sending *)

Lemma split_to_in {E} n bs : n <= length bs ->
  @split_to E (Z.of_nat n) bs = Ok (take n bs, drop n bs).
Proof.
  intros Hn. unfold split_to. rewrite Nat2Z.id.
  by rewrite (proj2 (Z.leb_le _ _)) by lia.
Qed.

Lemma send_loop_spec fuel f :
  length (write_buffer f) < fuel -> write_buffer f <> [] ->
  exists r f' sent, send_loop fuel f = Ok (r, f') /\
    incoming (sock f') = incoming (sock f) /\ read_sched (sock f') = read_sched (sock f) /\
    read_buffer f' = read_buffer f /\ read_pos f' = read_pos f /\ state f' = state f /\
    outgoing (sock f') = outgoing (sock f) ++ sent /\ write_buffer f = sent ++ write_buffer f' /\
    (good_writes (sock f) -> r = inr tt /\ write_buffer f' = []).
Proof.
  revert f. induction fuel as [|fuel IH]; intros f Hfuel Hne; [lia|]. cbn [send_loop].
  destruct (sock_write (write_buffer f) (sock f)) as [r s'] eqn:Hw.
  apply sock_write_spec in Hw as (Hin & Hrs & Hr); [|done].
  destruct r as [[|k]|].
  - destruct Hr as (Ho & _ & Hg). eexists _, _, []. split; [done|]. simpl.
    rewrite Ho, take_0. split_and!; auto. intros Hgw. by destruct (Hg Hgw).
  - destruct Hr as (Ho & Hk & Hg). rewrite split_to_in by done. cbn [mbind outcome_bind].
    destruct (drop (S k) (write_buffer f)) as [|b rest] eqn:Hd.
    + eexists _, _, (take (S k) (write_buffer f)). split; [done|]. simpl.
      split_and!; auto. rewrite app_nil_r. rewrite <- (take_drop (S k) (write_buffer f)) at 1.
      by rewrite Hd, app_nil_r.
    + edestruct (IH (with_write f s' (b :: rest))) as (r & f' & sent & -> & H1 & H2 & H3 & H4 & H5 & H6 & H7 & H8).
      { cbn [write_buffer with_write]. rewrite <- Hd, length_drop. lia. }
      { done. }
      eexists _, _, (take (S k) (write_buffer f) ++ sent). split; [done|]. simpl in *.
      rewrite H6, Ho, <- !app_assoc, <- H7, <- Hd, take_drop. split_and!; try congruence.
      intros Hgw. apply H8. by apply Hg.
  - destruct Hr as [Ho Hg]. eexists _, _, []. split; [done|]. simpl.
    rewrite Ho, app_nil_r. split_and!; auto; done.
Qed.

Lemma framed_send_spec f m :
  exists r f' sent, framed_send f m = Ok (r, f') /\
    incoming (sock f') = incoming (sock f) /\ read_sched (sock f') = read_sched (sock f) /\
    read_buffer f' = read_buffer f /\ read_pos f' = read_pos f /\ state f' = state f /\
    outgoing (sock f') = outgoing (sock f) ++ sent /\
    write_buffer f ++ hs_write_bytes m = sent ++ write_buffer f' /\
    (good_writes (sock f) -> r = inr tt /\ write_buffer f' = []).
Proof.
  unfold framed_send.
  destruct (send_loop_spec (S (length (write_buffer f ++ hs_write_bytes m)))
    (with_write f (sock f) (write_buffer f ++ hs_write_bytes m))) as (r & f' & sent & Heq & Hrest).
  - simpl. lia.
  - rewrite write_bytes_shape. simpl. intros Ha%(f_equal length). rewrite length_app in Ha.
    simpl in Ha. lia.
  - exists r, f', sent. done.
Qed.

(** * Receiving *)

(** The number of bytes the message starting here has. *)
Definition needed (bs : bytes) : nat :=
  match bs with [] => 1 | len :: _ => write_len_with_protocol_len len end.

(** What a read on [bs] has returned and left, errors allowed only when the
    schedule [sched] has some. *)
Definition read_post (bs : bytes) (sched : list (option nat))
    (r : option HandshakeMessage) (left_over : bytes) : Prop :=
  match r with
  | Some m => hs_ok m /\ bs = hs_write_bytes m ++ left_over
  | None => None ∈ sched \/ length bs < needed bs
  end.

Section Read.
Context `{Nom}.

Lemma read_length_spec len fuel f body :
  state f = Length len -> is_u8 len ->
  length (read_buffer f) = write_len_with_protocol_len len ->
  take (read_pos f) (read_buffer f) = len :: body ->
  read_pos f <= write_len_with_protocol_len len ->
  write_len_with_protocol_len len - read_pos f < fuel ->
  Forall is_u8 (body ++ incoming (sock f)) ->
  exists r f', read_loop fuel f = Ok (inr r, f') /\
    outgoing (sock f') = outgoing (sock f) /\ write_sched (sock f') = write_sched (sock f) /\
    write_buffer f' = write_buffer f /\
    read_post (len :: body ++ incoming (sock f)) (read_sched (sock f)) r (incoming (sock f')).
Proof.
  revert f body. induction fuel as [|fuel IH]; intros f body Hst Hlen Hbuf Hgot Hpos Hfuel H8; [lia|].
  assert (Hn : length (len :: body) = read_pos f).
  { rewrite <- Hgot, length_take. lia. }
  cbn [read_loop]. rewrite Hst. destruct (Nat.eqb_spec (read_pos f) (write_len_with_protocol_len len)) as [Heq|Hne].
  - rewrite take_ge in Hgot by lia. rewrite Hgot. apply Forall_app in H8 as [Hb8 _].
    destruct (parse_exact len body []) as (m & Hm & Hok & Hw); [done|done|lia|].
    rewrite app_nil_r in Hm. rewrite Hm. eexists _, _. split; [done|]. simpl.
    by rewrite Hw.
  - rewrite slice_from_in by lia. cbn [mbind outcome_bind]. rewrite length_drop.
    destruct (sock_read _ (sock f)) as [r s'] eqn:Hr.
    apply sock_read_spec in Hr as (Ho & Hw & Hsched & Hr).
    destruct r as [d|].
    2:{ eexists _, _. split; [done|]. simpl. auto. }
    destruct Hr as (Hin & Hld & Hempty). destruct d as [|b d].
    + destruct Hempty as [|Hi]; [done|lia|]. eexists _, _. split; [done|]. simpl.
      split_and!; auto. right. rewrite Hi, app_nil_r. simpl in Hn. unfold needed. lia.
    + edestruct IH as (r & f' & Heq & H1 & H2 & H3 & H4); [..|
        exists r, f'; split; [exact Heq|]]; clear IH; cbn [state read_buffer read_pos sock]; try done.
      * rewrite !length_app, length_take, length_drop, length_drop. lia.
      * rewrite app_assoc, take_app_le, take_ge by
          (rewrite !length_app, length_take; lia).
        rewrite Hgot. cbn [app]. reflexivity.
      * lia.
      * simpl in *. lia.
      * by rewrite <- app_assoc, <- Hin.
      * simpl in *. rewrite H1, H2, H3. split_and!; try done.
        rewrite <- app_assoc in H4. simpl in H4. rewrite <- Hin in H4.
        unfold read_post in *. destruct r; [done|]. naive_solver.
Qed.

Lemma read_waiting_spec fuel f :
  304 <= fuel ->
  state f = Waiting -> length (read_buffer f) = 1 -> Forall is_u8 (incoming (sock f)) ->
  exists r f', read_loop (S fuel) f = Ok (inr r, f') /\
    outgoing (sock f') = outgoing (sock f) /\ write_sched (sock f') = write_sched (sock f) /\
    write_buffer f' = write_buffer f /\
    read_post (incoming (sock f)) (read_sched (sock f)) r (incoming (sock f')).
Proof.
  intros Hfuel Hst Hbuf H8. cbn [read_loop]. rewrite Hst, Hbuf.
  destruct (sock_read 1 (sock f)) as [r s'] eqn:Hr.
  apply sock_read_spec in Hr as (Ho & Hw & Hsched & Hr).
  destruct r as [d|].
  2:{ eexists _, _. split; [done|]. simpl. auto. }
  destruct Hr as (Hin & Hld & Hempty). destruct d as [|len [|]]; [| |simpl in Hld; lia].
  - destruct Hempty as [|Hi]; [done|lia|]. eexists _, _. split; [done|]. simpl.
    rewrite Hi. split_and!; auto.
  - rewrite Hin in H8. simpl in H8. apply Forall_cons in H8 as [Hlen H8].
    assert (Hbound : write_len_with_protocol_len len <= 304).
    { unfold write_len_with_protocol_len, NUM_EXTENSION_BYTES, INFO_HASH_LEN, PEER_ID_LEN, SHA_HASH_LEN, is_u8 in *. lia. }
    edestruct (read_length_spec len fuel) with (body := @nil Z) as (r & f' & Heq & H1 & H2 & H3 & H4);
      [..|exists r, f'; split; [exact Heq|]]; cbn [state read_buffer read_pos sock]; try done.
    + by rewrite length_insert, length_replicate.
    + unfold write_len_with_protocol_len. lia.
    + lia.
    + simpl in *. rewrite H1, H2, H3, Hin. split_and!; try done.
      unfold read_post in *. destruct r; [done|]. destruct H4; [left; by apply Hsched|by right].
Qed.

Lemma read_fresh_spec f :
  state f = Waiting -> length (read_buffer f) = 1 -> Forall is_u8 (incoming (sock f)) ->
  exists r f', framed_read f = Ok (inr r, f') /\
    outgoing (sock f') = outgoing (sock f) /\ write_sched (sock f') = write_sched (sock f) /\
    write_buffer f' = write_buffer f /\
    read_post (incoming (sock f)) (read_sched (sock f)) r (incoming (sock f')).
Proof. apply read_waiting_spec. lia. Qed.

Lemma written_prefix m rest m' rest' :
  hs_ok m -> hs_ok m' -> hs_write_bytes m ++ rest = hs_write_bytes m' ++ rest' ->
  m = m' /\ rest = rest'.
Proof.
  intros H1 H2 Heq. pose proof (parse_written m rest H1) as P1.
  rewrite Heq, parse_written in P1 by done. naive_solver.
Qed.

Lemma needed_written m rest : hs_ok m -> needed (hs_write_bytes m ++ rest) = length (hs_write_bytes m).
Proof.
  intros Hok. rewrite length_write_bytes by done. rewrite write_bytes_shape. simpl.
  unfold hs_write_len. by destruct (hs_prot m).
Qed.

(** A full message on an undisturbed socket is received. *)
Lemma read_post_full m rest sched r left_over :
  hs_ok m -> None ∉ sched -> read_post (hs_write_bytes m ++ rest) sched r left_over ->
  r = Some m /\ left_over = rest.
Proof.
  intros Hok Hs. destruct r as [m'|]; simpl.
  - intros [Hok' Heq]. apply written_prefix in Heq as [-> ->]; auto.
  - rewrite needed_written, length_app by done. intros [?|?]; [done|lia].
Qed.
End Read.

#[local] Strategy 1000 [framed_read framed_send].

(** * Extension bits *)

Lemma ext_union_bytes x y :
  ext_bytes (ext_union x y)
  = (fun i => Z.land (default 0%Z (ext_bytes x !! i)) (default 0%Z (ext_bytes y !! i))) <$> seq 0 8.
Proof. done. Qed.

Lemma ext_union_comm x y : ext_union x y = ext_union y x.
Proof.
  enough (ext_bytes (ext_union x y) = ext_bytes (ext_union y x)) as Hb
    by (destruct (ext_union x y), (ext_union y x); by f_equal/=).
  rewrite !ext_union_bytes. apply list_fmap_ext. intros. apply Z.land_comm.
Qed.

(** Bit [i] of the field, counted from the first byte's highest bit. *)
Definition ext_bit (i : nat) (x : Extensions) : bool := byte_bit (ext_bytes x) i.

Lemma is_u8_log2 z : is_u8 z <-> (0 <= z /\ Z.log2 z < 8)%Z.
Proof.
  unfold is_u8. destruct (decide (z = 0)%Z) as [->|]; [done|].
  split; intros [H1 H2]; (split; [done|]); apply (Z.log2_lt_pow2 _ 8); lia.
Qed.

Lemma land_u8 a b : is_u8 a -> is_u8 b -> is_u8 (Z.land a b).
Proof.
  rewrite !is_u8_log2. intros [Ha La] [Hb Lb]. split; [apply Z.land_nonneg; lia|].
  pose proof (Z.log2_land a b). lia.
Qed.

Lemma lor_u8 a b : is_u8 a -> is_u8 b -> is_u8 (Z.lor a b).
Proof.
  rewrite !is_u8_log2. intros [Ha La] [Hb Lb]. split; [apply Z.lor_nonneg; lia|].
  rewrite Z.log2_lor; lia.
Qed.

Lemma ext_alter_ok g x :
  exts_ok x -> (forall b, is_u8 b -> is_u8 (g b)) -> exts_ok (with_bytes (alter g 5 (ext_bytes x))).
Proof.
  intros [Lx Hx] Hg. split; simpl; [by rewrite length_alter|].
  apply Forall_alter; auto.
Qed.

Lemma ext_union_ok x y : exts_ok x -> exts_ok y -> exts_ok (ext_union x y).
Proof.
  intros [Lx Hx] [Ly Hy]. split; [done|]. rewrite ext_union_bytes. apply Forall_fmap, Forall_forall.
  intros i _. simpl. assert (Hd : forall bs, Forall is_u8 bs -> is_u8 (default 0%Z (bs !! i))).
  { intros bs Hb. destruct (bs !! i) eqn:Hi; [|done]. by eapply Forall_lookup_1. }
  auto using land_u8.
Qed.

Lemma byte_bit_alter g j bs i :
  j < length bs ->
  byte_bit (alter g j bs) i
  = if i / 8 =? j then Z.testbit (g (default 0%Z (bs !! (i / 8)))) (Z.of_nat (7 - i mod 8))
    else byte_bit bs i.
Proof.
  intros Hj. unfold byte_bit. destruct (Nat.eqb_spec (i / 8) j) as [->|Hne].
  - rewrite list_lookup_alter_eq. by destruct (lookup_lt_is_Some_2 bs j Hj) as [b ->].
  - by rewrite list_lookup_alter_ne.
Qed.

Lemma bit_43 i : (i =? 43) = (i / 8 =? 5) && (i mod 8 =? 3).
Proof.
  pose proof (Nat.div_mod_eq i 8). pose proof (Nat.mod_upper_bound i 8).
  destruct (Nat.eqb_spec i 43) as [->|]; [done|].
  destruct (Nat.eqb_spec (i / 8) 5), (Nat.eqb_spec (i mod 8) 3); simpl; lia.
Qed.

Lemma land_pow2 b k : (0 <= k)%Z -> Z.land b (2 ^ k) = if Z.testbit b k then (2 ^ k)%Z else 0%Z.
Proof.
  intros Hk. apply Z.bits_inj'. intros n Hn. rewrite Z.land_spec, Z.pow2_bits_eqb by done.
  destruct (Z.eqb_spec k n) as [->|Hne].
  - destruct (Z.testbit b n); [by rewrite Z.pow2_bits_true|by rewrite Z.bits_0].
  - rewrite andb_false_r. destruct (Z.testbit b k); [by rewrite Z.pow2_bits_false|by rewrite Z.bits_0].
Qed.

Lemma testbit_16 k : k < 8 ->
  Z.testbit 16 (Z.of_nat (7 - k)) = (k =? 3) /\ Z.testbit 239 (Z.of_nat (7 - k)) = negb (k =? 3).
Proof. intros Hk. do 8 (destruct k as [|k]; [done|]). lia. Qed.

(** * Filters *)

Section Filters.
Context {F : Type} `{!EqDecision F} `{!HandshakeFilter F}.
Implicit Types (fs : list F) (f g : F).

Definition decisions addr prot ext hash pid f : list FilterDecision :=
  [on_addr f addr; on_prot f prot; on_ext f ext; on_hash f hash; on_pid f pid].

(** The highest rank among [ds]. *)
Definition top_rank (ds : list FilterDecision) : Z := foldr Z.max 0%Z (decision_as_u8 <$> ds).

Lemma eq_by_bounds (m n : Z) : (forall z, m <= z <-> n <= z)%Z -> m = n.
Proof. intros H. apply Z.le_antisymm; apply H; lia. Qed.

Lemma rank_choose a b : decision_as_u8 (choose a b) = Z.max (decision_as_u8 a) (decision_as_u8 b).
Proof. by destruct a, b. Qed.

Lemma rank_nonneg d : (0 <= decision_as_u8 d)%Z.
Proof. by destruct d. Qed.

Lemma top_rank_cons d ds : top_rank (d :: ds) = Z.max (decision_as_u8 d) (top_rank ds).
Proof. done. Qed.

Lemma top_rank_nonneg ds : (0 <= top_rank ds)%Z.
Proof. induction ds as [|d ds IH]; [done|]. rewrite top_rank_cons. lia. Qed.

Lemma top_rank_app l k : top_rank (l ++ k) = Z.max (top_rank l) (top_rank k).
Proof.
  induction l as [|d l IH]; simpl.
  - pose proof (top_rank_nonneg k). change (top_rank []) with 0%Z. lia.
  - rewrite !top_rank_cons, IH. lia.
Qed.

Lemma top_rank_ge ds d : d ∈ ds -> (decision_as_u8 d <= top_rank ds)%Z.
Proof. induction 1; rewrite top_rank_cons; lia. Qed.

Lemma top_rank_in ds : ds <> [] -> exists d, d ∈ ds /\ decision_as_u8 d = top_rank ds.
Proof.
  induction ds as [|d [|d' ds] IH]; [done| |]; intros _; rewrite top_rank_cons.
  - exists d. split; [apply list_elem_of_here|]. change (top_rank []) with 0%Z.
    pose proof (rank_nonneg d). lia.
  - destruct IH as (e & He & Hr); [done|].
    destruct (Z.le_ge_cases (decision_as_u8 d) (decision_as_u8 e)).
    + exists e. split; [by apply list_elem_of_further|lia].
    + exists d. split; [apply list_elem_of_here|lia].
Qed.

Lemma block_on_top ds : top_rank ds = 1%Z <-> Block ∈ ds /\ NeedData ∉ ds /\ Allow ∉ ds.
Proof.
  split.
  - intros Ht. destruct ds as [|d ds]; [done|].
    destruct (top_rank_in (d :: ds)) as (e & He & Hr); [done|]. rewrite Ht in Hr.
    destruct e; try done. split_and!; [done| |]; intros Hd%top_rank_ge; simpl in Hd; lia.
  - intros (Hb & Hn & Ha). apply top_rank_ge in Hb as Hge.
    destruct (top_rank_in ds) as (e & He & Hr); [by intros ->; apply elem_of_nil in Hb|].
    rewrite <- Hr in *. by destruct e.
Qed.

Lemma should_filter_top addr prot ext hash pid fs :
  should_filter addr prot ext hash pid fs
  = (top_rank (fs ≫= decisions addr prot ext hash pid) =? 1)%Z.
Proof.
  unfold should_filter.
  assert (Hgen : forall a p e h i,
    let '(a', p', e', h', i') :=
      fold_left (fun '(a, p, e, h, i) f =>
        (choose a (on_addr f addr), choose p (on_prot f prot), choose e (on_ext f ext),
         choose h (on_hash f hash), choose i (on_pid f pid))) fs (a, p, e, h, i) in
    top_rank [a'; p'; e'; h'; i']
    = Z.max (top_rank [a; p; e; h; i]) (top_rank (fs ≫= decisions addr prot ext hash pid))).
  { induction fs as [|f fs IH]; intros a p e h i.
    - cbn [fold_left mbind list_bind]. pose proof (top_rank_nonneg [a; p; e; h; i]).
      change (top_rank []) with 0%Z. lia.
    - cbn [fold_left]. specialize (IH (choose a (on_addr f addr)) (choose p (on_prot f prot))
        (choose e (on_ext f ext)) (choose h (on_hash f hash)) (choose i (on_pid f pid))).
      destruct (fold_left _ fs _) as [[[[a' p'] e'] h'] i']. rewrite IH.
      cbn [mbind list_bind]. unfold decisions at 2. rewrite top_rank_app, !top_rank_cons, !rank_choose.
      apply eq_by_bounds. intros z. rewrite !Z.max_lub_iff. tauto. }
  specialize (Hgen Pass Pass Pass Pass Pass). destruct (fold_left _ fs _) as [[[[a p] e] h] i].
  pose proof (top_rank_nonneg (fs ≫= decisions addr prot ext hash pid)) as Hnn.
  replace (Z.max _ _) with (top_rank (fs ≫= decisions addr prot ext hash pid)) in Hgen
    by (rewrite !top_rank_cons; change (top_rank []) with 0%Z; simpl; lia).
  rewrite <- Hgen. set (c := choose _ i).
  assert (Hc : decision_as_u8 c = top_rank [a; p; e; h; i]).
  { unfold c. rewrite !rank_choose, !top_rank_cons. change (top_rank []) with 0%Z.
    pose proof (rank_nonneg i). lia. }
  rewrite <- Hc. by destruct c.
Qed.

Lemma should_filter_iff addr prot ext hash pid fs :
  let ds := fs ≫= decisions addr prot ext hash pid in
  should_filter addr prot ext hash pid fs = true <-> Block ∈ ds /\ NeedData ∉ ds /\ Allow ∉ ds.
Proof. intros ds. rewrite should_filter_top, Z.eqb_eq. apply block_on_top. Qed.

Lemma should_filter_same addr prot ext hash pid fs fs' :
  (forall f, f ∈ fs <-> f ∈ fs') ->
  should_filter addr prot ext hash pid fs = should_filter addr prot ext hash pid fs'.
Proof.
  intros Heq. apply eq_true_iff_eq. rewrite !should_filter_iff.
  assert (Hd : forall d, d ∈ fs ≫= decisions addr prot ext hash pid
    <-> d ∈ fs' ≫= decisions addr prot ext hash pid).
  { intros d. rewrite !list_elem_of_bind. naive_solver. }
  by rewrite !Hd.
Qed.

(** ** The filter list as a set *)

Lemma check_index_None fs f : check_index fs f = None <-> f ∉ fs.
Proof.
  unfold check_index. rewrite position_None, Forall_forall. split.
  - intros Hf Hin%Hf. by case_bool_decide.
  - intros Hf g Hg. case_bool_decide; congruence.
Qed.

Lemma check_index_Some fs f i : check_index fs f = Some i -> fs !! i = Some f.
Proof. unfold check_index. intros (x & ? & Hb & _)%position_Some. by case_bool_decide; subst. Qed.

Lemma swap_remove_perm {A} (l : list A) i x :
  l !! i = Some x -> l ≡ₚ x :: swap_remove i l.
Proof.
  intros Hi. unfold swap_remove. destruct l as [|y l _] using rev_ind; [done|].
  rewrite last_snoc, length_app, Nat.add_sub.
  destruct (decide (i = length l)) as [->|Hne].
  - rewrite lookup_app_r, Nat.sub_diag in Hi by lia. simplify_eq/=.
    rewrite take_insert_ge, take_app_length by lia. apply Permutation_app_comm.
  - assert (Hlt : i < length l).
    { apply lookup_lt_Some in Hi. rewrite length_app in Hi. simpl in Hi. lia. }
    rewrite lookup_app_l in Hi by done. rewrite insert_app_l by done.
    rewrite take_app_le, take_ge by (rewrite length_insert; lia).
    rewrite <- (take_drop_middle l i x) at 1 by done.
    rewrite insert_take_drop by done.
    rewrite <- app_assoc. cbn [app]. rewrite <- Permutation_middle. constructor.
    apply Permutation_app_head. apply Permutation_app_comm.
Qed.

Lemma remove_filter_perm fs f :
  f ∈ fs -> fs ≡ₚ f :: remove_filter f fs.
Proof.
  intros Hin. unfold remove_filter. destruct (check_index fs f) as [i|] eqn:Hi.
  - by apply swap_remove_perm, check_index_Some.
  - by apply check_index_None in Hi.
Qed.

(** The set of filters after an operation. *)
Definition set_op (S : F -> Prop) (op : FilterOp F) : F -> Prop := fun f =>
  match op with
  | FAdd g => S f \/ f = g
  | FRemove g => S f /\ f <> g
  | FClear => False
  end.

Lemma filter_op_set fs op :
  NoDup fs -> NoDup (filter_op fs op) /\ forall f, f ∈ filter_op fs op <-> set_op (.∈ fs) op f.
Proof.
  intros Hnd. destruct op as [g|g|]; simpl.
  - unfold add_filter. destruct (check_index fs g) as [i|] eqn:Hi.
    + apply check_index_Some, list_elem_of_lookup_2 in Hi. naive_solver.
    + apply check_index_None in Hi. split.
      * apply NoDup_app. split_and!; [done| |apply NoDup_singleton]. set_solver.
      * set_solver.
  - destruct (decide (g ∈ fs)) as [Hin|Hin].
    + pose proof (remove_filter_perm fs g Hin) as Hp.
      pose proof Hnd as Hnd'. rewrite Hp in Hnd'. apply NoDup_cons in Hnd' as [Hg Hnd'].
      split; [done|]. intros f. split.
      * intros Hf. split; [rewrite Hp; by apply list_elem_of_further|congruence].
      * intros [Hf Hne]. rewrite Hp in Hf. by apply elem_of_cons in Hf as [->|].
    + unfold remove_filter. rewrite (proj2 (check_index_None fs g) Hin). naive_solver.
  - split; [constructor|]. set_solver.
Qed.
End Filters.

(** * The two ends of a handshake *)

Section Ends.
Context {F : Type} `{!EqDecision F} `{!HandshakeFilter F} `{Nom}.

(** [m] carries what a peer said in [remote], vetted by the filters [fs]. *)
Definition vetted (ext : Extensions) (fs : list F) (m : CompleteMessage) (remote : HandshakeMessage) : Prop :=
  hs_ok remote /\
  cm_prot m = hs_prot remote /\ cm_hash m = hs_hash remote /\ cm_pid m = hs_pid remote /\
  cm_ext m = ext_union ext (hs_ext remote) /\
  should_filter (Some (cm_addr m)) (Some (hs_prot remote)) (Some (hs_ext remote))
    (Some (hs_hash remote)) (Some (hs_pid remote)) fs = false.

Definition overlong (p : Protocol) : bool :=
  match p with Custom c => 255 <? length c | BitTorrent => false end.

Lemma from_parts_short {E} prot ext h p :
  overlong prot = false ->
  @from_parts E prot ext h p = Ok {| hs_prot := prot; hs_ext := ext; hs_hash := h; hs_pid := p |}.
Proof. unfold from_parts, overlong. destruct prot; [done|]. by intros ->. Qed.

Lemma from_parts_overlong {E} prot ext h p :
  overlong prot = true -> @from_parts E prot ext h p = Panic.
Proof. unfold from_parts, overlong. destruct prot; [done|]. by intros ->. Qed.

Lemma hs_ok_short m : hs_ok m -> overlong (hs_prot m) = false.
Proof. intros [Hp _]. destruct (hs_prot m); [done|]. apply Nat.ltb_ge, Hp. Qed.

Lemma initiate_spec s item ext pid (fs : list F) :
  Forall is_u8 (incoming s) -> overlong (im_prot item) = false ->
  exists r, initiate_handshake s item ext pid fs = Ok (inr r) /\
  forall c, r = Some c ->
    cm_prot c = im_prot item /\ cm_hash c = im_hash item /\ cm_addr c = im_addr item /\
    outgoing s `prefix_of` outgoing (cm_sock c) /\
    exists remote, vetted ext fs c remote /\
      incoming s = hs_write_bytes remote ++ incoming (cm_sock c).
Proof.
  intros H8 Hs. unfold initiate_handshake. rewrite from_parts_short, mbind_ok by done.
  destruct (framed_send_spec (framed_new s) {| hs_prot := im_prot item; hs_ext := ext;
    hs_hash := im_hash item; hs_pid := pid |})
    as (r1 & f1 & sent & -> & Hi & Hrs & Hb & _ & Hst & Ho & _ & _).
  rewrite mbind_ok.
  destruct (read_fresh_spec f1) as (r & f' & -> & Ho' & _ & _ & Hpost); [by rewrite Hst|by rewrite Hb|by rewrite Hi|].
  rewrite mbind_ok. destruct r as [m|]; [|by exists None].
  rewrite Hi in Hpost. destruct Hpost as [Hok Hin]. unfold into_parts.
  case_bool_decide; [|by exists None]. case_bool_decide; [|by exists None].
  destruct (should_filter _ _ _ _ _ fs) eqn:Hf; [by exists None|].
  eexists. split; [done|]. intros c [= <-]. simpl. split_and!; auto.
  - rewrite Ho', Ho. by eexists.
  - exists m. unfold vetted. simpl. naive_solver.
Qed.

Lemma complete_spec s addr ext pid (fs : list F) :
  Forall is_u8 (incoming s) ->
  exists r, complete_handshake s addr ext pid fs = Ok r /\
  forall c, r = inr (Some c) -> cm_addr c = addr /\
    exists remote, vetted ext fs c remote /\
      incoming s = hs_write_bytes remote ++ incoming (cm_sock c).
Proof.
  intros H8. unfold complete_handshake.
  destruct (read_fresh_spec (framed_new s)) as (r & f' & -> & _ & _ & _ & Hpost); [done..|].
  cbn [mbind outcome_bind]. destruct r as [m|]; [|by eexists].
  destruct Hpost as [Hok Hin]. unfold into_parts.
  destruct (should_filter _ _ _ _ _ fs) eqn:Hf; [by eexists|].
  rewrite from_parts_short by (by apply hs_ok_short). cbn [mbind outcome_bind negb].
  destruct (framed_send_spec f' {| hs_prot := hs_prot m; hs_ext := ext;
    hs_hash := hs_hash m; hs_pid := pid |})
    as (r1 & f1 & sent & -> & Hi & _).
  cbn [mbind outcome_bind]. eexists. split; [done|]. intros c [= <-]. split; [done|].
  exists m. unfold vetted. simpl. rewrite Hi. naive_solver.
Qed.

Lemma initiate_full s item ext pid (fs : list F) remote rest :
  Forall is_u8 (incoming s) -> overlong (im_prot item) = false ->
  good_writes s -> None ∉ read_sched s -> hs_ok remote ->
  incoming s = hs_write_bytes remote ++ rest ->
  hs_prot remote = im_prot item -> hs_hash remote = im_hash item ->
  should_filter (Some (im_addr item)) (Some (hs_prot remote)) (Some (hs_ext remote))
    (Some (hs_hash remote)) (Some (hs_pid remote)) fs = false ->
  exists c, initiate_handshake s item ext pid fs = Ok (inr (Some c)) /\
    vetted ext fs c remote /\ incoming (cm_sock c) = rest /\
    outgoing (cm_sock c) = outgoing s ++ hs_write_bytes
      {| hs_prot := im_prot item; hs_ext := ext; hs_hash := im_hash item; hs_pid := pid |}.
Proof.
  intros H8 Hs Hg Hn Hok Hin Hp Hh Hf. unfold initiate_handshake.
  rewrite from_parts_short, mbind_ok by done.
  destruct (framed_send_spec (framed_new s) {| hs_prot := im_prot item; hs_ext := ext;
    hs_hash := im_hash item; hs_pid := pid |})
    as (r1 & f1 & sent & -> & Hi & Hrs & Hb & _ & Hst & Ho & Hsent & Hwb).
  destruct (Hwb Hg) as [-> Hnil]. rewrite Hnil, app_nil_r in Hsent. simpl in Hsent. subst sent.
  rewrite mbind_ok.
  destruct (read_fresh_spec f1) as (r & f' & -> & Ho' & _ & _ & Hpost); [by rewrite Hst|by rewrite Hb|by rewrite Hi|].
  rewrite mbind_ok. rewrite Hi, Hrs in Hpost. simpl in Hpost. rewrite Hin in Hpost.
  apply read_post_full in Hpost as [-> Hrest]; [|done..]. unfold into_parts.
  rewrite Hf, !bool_decide_eq_true_2 by done. eexists. split; [done|].
  unfold vetted. simpl. rewrite Ho', Ho. naive_solver.
Qed.

Lemma complete_full s addr ext pid (fs : list F) remote rest :
  Forall is_u8 (incoming s) -> good_writes s -> None ∉ read_sched s -> hs_ok remote ->
  incoming s = hs_write_bytes remote ++ rest ->
  should_filter (Some addr) (Some (hs_prot remote)) (Some (hs_ext remote))
    (Some (hs_hash remote)) (Some (hs_pid remote)) fs = false ->
  exists c, complete_handshake s addr ext pid fs = Ok (inr (Some c)) /\
    vetted ext fs c remote /\ incoming (cm_sock c) = rest /\
    outgoing (cm_sock c) = outgoing s ++ hs_write_bytes
      {| hs_prot := hs_prot remote; hs_ext := ext; hs_hash := hs_hash remote; hs_pid := pid |}.
Proof.
  intros H8 Hg Hn Hok Hin Hf. unfold complete_handshake.
  destruct (read_fresh_spec (framed_new s)) as (r & f1 & -> & Ho & Hws & Hwb1 & Hpost); [done..|].
  rewrite mbind_ok. simpl in Hpost. rewrite Hin in Hpost.
  apply read_post_full in Hpost as [-> Hrest]; [|done..]. unfold into_parts. rewrite Hf. cbn [negb].
  rewrite from_parts_short, mbind_ok by (by apply hs_ok_short).
  destruct (framed_send_spec f1 {| hs_prot := hs_prot remote; hs_ext := ext;
    hs_hash := hs_hash remote; hs_pid := pid |})
    as (r1 & f2 & sent & -> & Hi & _ & _ & _ & _ & Ho2 & Hsent & Hwb).
  destruct Hwb as [-> Hnil]; [unfold good_writes; by rewrite Hws|].
  rewrite Hnil, app_nil_r, Hwb1 in Hsent. simpl in Hsent. subst sent.
  rewrite mbind_ok. eexists. split; [done|]. unfold vetted. simpl.
  rewrite Ho2, Ho, Hi. naive_solver.
Qed.

(** ** One turn of the handler *)

(** The bytes a peer sends are bytes. *)
Definition event_ok (ev : HandlerEvent F) : Prop :=
  match ev with
  | EvCommand _ (Some s) _ => Forall is_u8 (incoming s)
  | EvListen (Some (s, _)) _ => Forall is_u8 (incoming s)
  | _ => True
  end.

(** The two ways a turn can panic: the receiving side is gone, or the command
    names a protocol [from_parts] refuses. *)
Definition may_panic (ev : HandlerEvent F) (h : HandshakeHandler F) : Prop :=
  out_open h = false \/
  exists item s during, ev = EvCommand (Some (Init item)) (Some s) during /\ overlong (im_prot item) = true.

(** The message a turn announces, if any, was vetted by the filters in force,
    and answers the command when there was one. *)
Definition turn_ok (ev : HandlerEvent F) (h h' : HandshakeHandler F) : Prop :=
  out_msg h' = out_msg h \/
  exists c remote, out_msg h' = out_msg h ++ [c] /\ vetted (h_ext h) (filters h') c remote /\
    match ev with
    | EvCommand (Some (Init item)) _ _ =>
        cm_prot c = im_prot item /\ cm_hash c = im_hash item /\ cm_addr c = im_addr item
    | EvListen (Some (_, addr)) _ => cm_addr c = addr
    | _ => False
    end.

Lemma command_turn item connected during (h : HandshakeHandler F) :
  let ev := EvCommand (Some (Init item)) connected during in
  event_ok ev ->
  (exists h', handle_command_msg item connected during h = Ok h' /\ turn_ok ev h h') \/
  (handle_command_msg item connected during h = Panic /\ may_panic ev h).
Proof.
  intros ev Hev. unfold handle_command_msg.
  destruct (should_filter _ _ _ _ _ (filters h)); cbn [negb]; [left; eexists; split; [done|by left]|].
  destruct connected as [s|]; [|left; eexists; split; [done|by left]].
  destruct (overlong (im_prot item)) eqn:Hlong.
  { right. unfold initiate_handshake. rewrite from_parts_overlong by done. split; [done|].
    right. eauto 6. }
  destruct (initiate_spec s item (h_ext h) (h_pid h) (fold_left filter_op during (filters h))) as (r & Heq & Hr); [done|done|]. simpl. rewrite Heq, mbind_ok.
  destruct r as [c|]; [|left; eexists; split; [done|by left]].
  destruct (Hr c eq_refl) as (Hp & Hh & Ha & _ & remote & Hv & _).
  unfold emit. simpl. destruct (out_open h) eqn:Ho; [|right; split; [done|by left]].
  left. eexists. split; [done|]. right. by exists c, remote.
Qed.

Lemma listen_turn s addr during (h : HandshakeHandler F) :
  let ev := EvListen (Some (s, addr)) during in
  event_ok ev ->
  (exists h', handle_listen s addr during h = Ok h' /\ turn_ok ev h h') \/
  (handle_listen s addr during h = Panic /\ may_panic ev h).
Proof.
  intros ev Hev. unfold handle_listen.
  destruct (should_filter _ _ _ _ _ (filters h)); cbn [negb]; [left; eexists; split; [done|by left]|].
  destruct (complete_spec s addr (h_ext h) (h_pid h) (fold_left filter_op during (filters h))) as (r & Heq & Hr); [done|]. simpl. rewrite Heq, mbind_ok.
  destruct r as [[]|[c|]]; try (left; eexists; split; [done|by left]).
  destruct (Hr c eq_refl) as (Ha & remote & Hv & _).
  unfold emit. simpl. destruct (out_open h) eqn:Ho; [|right; split; [done|by left]].
  left. eexists. split; [done|]. right. by exists c, remote.
Qed.
End Ends.

(** * Theorems *)

(** Reading a handshake from a socket always returns, whatever sizes and
    errors the socket's reads have and whatever bytes arrive: it never panics
    and never runs out of turns.  A message is returned only if it is
    well-formed and the input starts with exactly its wire form, and everything
    after it is left in the socket for the owner of the connection; [None] is
    returned only if a read failed or the input ends inside the handshake. *)
Theorem handshake_read_exact `{Nom} (s : Socket) :
  Forall is_u8 (incoming s) ->
  exists r f', framed_read (framed_new s) = Ok (inr r, f') /\
    outgoing (sock f') = outgoing s /\
    match r with
    | Some m => hs_ok m /\ incoming s = hs_write_bytes m ++ incoming (sock f')
    | None => None ∈ read_sched s \/ length (incoming s) < needed (incoming s)
    end.
Proof.
  intros H8. destruct (read_fresh_spec (framed_new s)) as (r & f' & Heq & Ho & _ & _ & Hpost); [done..|].
  exists r, f'. done.
Qed.

(** C11. An initiating and a completing end connected to each other agree.
    Given any read and write sizes, no socket errors, and filters on both sides
    that let the other's handshake through, both handshakes succeed; each end
    has written exactly what the other has read and left untouched what the
    other sends afterwards; they report the same protocol, info hash and
    common extensions, and each other's peer id. *)
Theorem handshakes_agree `{Nom} {FA FB : Type} `{!HandshakeFilter FA} `{!HandshakeFilter FB}
    (fsA : list FA) (fsB : list FB) item extA extB pidA pidB addrA rA wA rB wB restA restB :
  let mA := {| hs_prot := im_prot item; hs_ext := extA; hs_hash := im_hash item; hs_pid := pidA |} in
  let mB := {| hs_prot := im_prot item; hs_ext := extB; hs_hash := im_hash item; hs_pid := pidB |} in
  let sA := {| incoming := hs_write_bytes mB ++ restA; read_sched := rA; outgoing := []; write_sched := wA |} in
  let sB := {| incoming := hs_write_bytes mA ++ restB; read_sched := rB; outgoing := []; write_sched := wB |} in
  hs_ok mA -> hs_ok mB -> Forall is_u8 (incoming sA) -> Forall is_u8 (incoming sB) ->
  None ∉ rA -> None ∉ rB -> good_writes sA -> good_writes sB ->
  should_filter (Some (im_addr item)) (Some (im_prot item)) (Some extB) (Some (im_hash item)) (Some pidB) fsA = false ->
  should_filter (Some addrA) (Some (im_prot item)) (Some extA) (Some (im_hash item)) (Some pidA) fsB = false ->
  exists cA cB,
    initiate_handshake sA item extA pidA fsA = Ok (inr (Some cA)) /\
    complete_handshake sB addrA extB pidB fsB = Ok (inr (Some cB)) /\
    outgoing (cm_sock cA) ++ restB = incoming sB /\ outgoing (cm_sock cB) ++ restA = incoming sA /\
    incoming (cm_sock cA) = restA /\ incoming (cm_sock cB) = restB /\
    cm_prot cA = cm_prot cB /\ cm_hash cA = cm_hash cB /\ cm_ext cA = cm_ext cB /\
    cm_pid cA = pidB /\ cm_pid cB = pidA.
Proof.
  intros mA mB sA sB HmA HmB H8A H8B HrA HrB HwA HwB HfA HfB.
  destruct (initiate_full sA item extA pidA fsA mB restA) as (cA & HA & VA & IA & OA);
    try done; [by apply (hs_ok_short mA)|].
  destruct (complete_full sB addrA extB pidB fsB mA restB) as (cB & HB & VB & IB & OB); try done.
  exists cA, cB. rewrite OA, OB, IA, IB.
  destruct VA as (_ & -> & -> & -> & -> & _), VB as (_ & -> & -> & -> & -> & _).
  split_and!; try done. apply ext_union_comm.
Qed.

(** A handshake is blocked exactly if some filter blocks one of its
    fields and no filter allows, or asks for the data of, any field: the
    decisions are ranked across all fields together, so allowing one field
    overrides a block on another. *)
Theorem should_filter_ranks_all_fields {F} `{!HandshakeFilter F} addr prot ext hash pid (fs : list F) :
  should_filter addr prot ext hash pid fs = true <->
  (exists f, f ∈ fs /\ Block ∈ decisions addr prot ext hash pid f) /\
  (forall f, f ∈ fs -> NeedData ∉ decisions addr prot ext hash pid f /\
                       Allow ∉ decisions addr prot ext hash pid f).
Proof.
  etrans; [apply should_filter_iff|]. cbv zeta. rewrite !list_elem_of_bind. split.
  - intros ((f & Hb & Hf) & Hn & Ha). split; [by exists f|]. intros g Hg. split; eauto.
  - intros [(f & Hf & Hb) Hall]. split_and!; [by exists f|..]; intros (g & Hd & Hg);
      by destruct (Hall g Hg).
Qed.

(** The filter list implements a set under the three operations, in
    whatever order they come: no filter is stored twice, a filter is present
    exactly if it is in the set, and the order that removal leaves behind does
    not matter to any decision. *)
Theorem filters_implement_set {F} `{!EqDecision F} `{!HandshakeFilter F} (ops : list (FilterOp F)) (fs : list F) :
  NoDup fs ->
  let fs' := fold_left filter_op ops fs in
  NoDup fs' /\
  (forall f, f ∈ fs' <-> fold_left set_op ops (.∈ fs) f) /\
  (forall gs, (forall f, f ∈ gs <-> fold_left set_op ops (.∈ fs) f) ->
   forall addr prot ext hash pid,
     should_filter addr prot ext hash pid gs = should_filter addr prot ext hash pid fs').
Proof.
  intros Hnd fs'.
  enough (Hgen : forall S : F -> Prop, (forall f, f ∈ fs <-> S f) ->
    NoDup fs' /\ forall f, f ∈ fs' <-> fold_left set_op ops S f).
  { destruct (Hgen (.∈ fs)) as [H1 H2]; [done|]. split_and!; [done|done|].
    intros gs Hgs addr prot ext hash pid. apply should_filter_same.
    intros f. by rewrite Hgs, H2. }
  unfold fs'. clear fs'. revert fs Hnd. induction ops as [|op ops IH]; intros fs Hnd S HS; [done|].
  destruct (filter_op_set fs op Hnd) as [Hnd' Hop]. apply (IH _ Hnd'). intros f. rewrite Hop.
  destruct op; simpl; by rewrite ?HS.
Qed.

(** A turn of the handler ends in a new handler state, or panics for one
    of two reasons: the receiving end of the results is gone, or a command asks
    for a protocol name longer than 255 bytes.  A turn announces at most one
    handshake; the filters in force at its end let every field of what the peer
    sent through, and a commanded handshake has the protocol, hash and address
    of the command. *)
Theorem handler_turn {F} `{!EqDecision F} `{!HandshakeFilter F} `{Nom}
    (ev : HandlerEvent F) (h : HandshakeHandler F) :
  event_ok ev ->
  (exists h', run_one ev h = Ok h' /\ turn_ok ev h h') \/
  (run_one ev h = Panic /\ may_panic ev h).
Proof.
  intros Hev. destruct ev as [[[|item]|] connected during|[[s addr]|] during|op|]; simpl.
  - left. eexists. split; [done|by left].
  - by apply command_turn.
  - left. eexists. split; [done|by left].
  - by apply listen_turn.
  - left. eexists. split; [done|by left].
  - left. eexists. split; [done|by left].
  - left. eexists. split; [done|by left].
Qed.

(** Adding, removing and testing an extension act on its bit alone, and
    [union] keeps the bits both sides have set. *)
Theorem extension_bits (e : Extension) (x y : Extensions) (i : nat) :
  exts_ok x -> exts_ok y -> i < 64 ->
  exts_ok (ext_add e x) /\ exts_ok (ext_remove e x) /\ exts_ok (ext_union x y) /\
  ext_bit i (ext_add e x) = ext_bit i x || (i =? Extension_as_usize e) /\
  ext_bit i (ext_remove e x) = ext_bit i x && negb (i =? Extension_as_usize e) /\
  ext_bit i (ext_union x y) = ext_bit i x && ext_bit i y /\
  ext_contains e x = ext_bit (Extension_as_usize e) x.
Proof.
  intros [Lx Hx] [Ly Hy] Hi. assert (Hu : exts_ok (ext_union x y)) by (by apply ext_union_ok).
  destruct e. unfold ext_add, ext_remove, ext_contains, ext_bit.
  change (Extension_as_usize ExtensionProtocol) with 43.
  change (Z.shiftr 128 (Z.of_nat (43 mod 8))) with 16%Z. change (43 / 8) with 5.
  change (255 - 16)%Z with 239%Z. cbn [ext_bytes with_bytes].
  pose proof (Nat.mod_upper_bound i 8) as Hm. specialize (Hm ltac:(lia)).
  unfold NUM_EXTENSION_BYTES in Lx.
  split_and!; [by apply ext_alter_ok; [|intros; apply lor_u8]|
    by apply ext_alter_ok; [|intros; apply land_u8]|done| | | |].
  - rewrite byte_bit_alter, bit_43 by lia. destruct (i / 8 =? 5); [|by rewrite orb_false_r].
    by rewrite Z.lor_spec, (proj1 (testbit_16 _ Hm)).
  - rewrite byte_bit_alter, bit_43 by lia. destruct (i / 8 =? 5); [|by rewrite andb_true_r].
    by rewrite Z.land_spec, (proj2 (testbit_16 _ Hm)).
  - unfold byte_bit. rewrite ext_union_bytes, list_lookup_fmap.
    rewrite lookup_seq_lt by (apply Nat.Div0.div_lt_upper_bound; lia). cbn. by rewrite Z.land_spec.
  - unfold byte_bit. change (43 / 8) with 5. change (Z.of_nat (7 - 43 mod 8)) with 4%Z.
    destruct (ext_bytes x !! 5) as [b|]; cbn [default from_option id]; [|done].
    change 16%Z with (2 ^ 4)%Z. rewrite (land_pow2 b 4) by done. by destruct (Z.testbit b 4).
Qed.

(** * Witnesses *)

(** A filter that decides on the peer id alone. *)
#[local] Instance pid_filter : HandshakeFilter (ShaHash * FilterDecision) := {|
  on_addr _ _ := Pass; on_prot _ _ := Pass; on_ext _ _ := Pass; on_hash _ _ := Pass;
  on_pid f p := match p with
    | Some pid => if decide (pid = f.1) then f.2 else Pass
    | None => NeedData
    end;
|}.

Definition sample_sha (b : Z) : ShaHash := {| hash := replicate 20 b |}.
Definition sample_item : InitiateMessage :=
  {| im_prot := BitTorrent; im_hash := sample_sha 7;
     im_addr := SockV4 {| v4_ip := Ipv4 127 0 0 1; v4_port := 6881 |} |}.
Definition sample_ext : Extensions := ext_add ExtensionProtocol Extensions_new.
Definition sample_hs : HandshakeMessage :=
  {| hs_prot := BitTorrent; hs_ext := sample_ext; hs_hash := sample_sha 7; hs_pid := sample_sha 1 |}.
(** The handshake of [sample_hs] and three more bytes, read in uneven pieces. *)
Definition sample_socket : Socket :=
  {| incoming := hs_write_bytes sample_hs ++ [1; 2; 3]%Z; read_sched := [Some 4; Some 20; Some 0];
     outgoing := []; write_sched := [Some 3; Some 30] |}.

Lemma handshake_read_exact_witness :
  exists r f', @framed_read nom3 (framed_new sample_socket) = Ok (inr r, f') /\
    outgoing (sock f') = [] /\
    match r with
    | Some m => hs_ok m /\ incoming sample_socket = hs_write_bytes m ++ incoming (sock f')
    | None => None ∈ read_sched sample_socket \/
        length (incoming sample_socket) < needed (incoming sample_socket)
    end.
Proof.
  apply (@handshake_read_exact nom3 sample_socket).
  apply (bool_decide_unpack _). by vm_compute.
Defined.

Lemma handshakes_agree_witness :
  let sA := {| incoming := hs_write_bytes {| hs_prot := BitTorrent; hs_ext := Extensions_new;
                 hs_hash := sample_sha 7; hs_pid := sample_sha 2 |} ++ [9]%Z;
               read_sched := [Some 0; Some 30]; outgoing := []; write_sched := [Some 1] |} in
  exists cA, @initiate_handshake _ pid_filter nom3 sA sample_item sample_ext (sample_sha 1)
      [(sample_sha 3, Block)] = Ok (inr (Some cA)) /\ incoming (cm_sock cA) = [9]%Z.
Proof.
  destruct (@handshakes_agree nom3 _ _ pid_filter pid_filter [(sample_sha 3, Block)] [(sample_sha 1, Allow)]
    sample_item sample_ext Extensions_new (sample_sha 1) (sample_sha 2)
    (SockV4 {| v4_ip := Ipv4 127 0 0 1; v4_port := 4000 |}) [Some 0; Some 30] [Some 1] [] [] [9]%Z []%Z)
    as (cA & cB & HA & _ & _ & _ & HI & _).
  1-6: apply (bool_decide_unpack _); by vm_compute.
  - repeat constructor; eauto.
  - constructor.
  - by vm_compute.
  - by vm_compute.
  - exists cA. split; [exact HA|exact HI].
Defined.

Lemma filters_implement_set_witness :
  NoDup (fold_left filter_op [FAdd (sample_sha 1, Block); FAdd (sample_sha 2, Allow);
    FAdd (sample_sha 1, Block); FRemove (sample_sha 1, Block)] []).
Proof.
  apply (filters_implement_set [FAdd (sample_sha 1, Block); FAdd (sample_sha 2, Allow);
    FAdd (sample_sha 1, Block); FRemove (sample_sha 1, Block)] []). constructor.
Defined.

Lemma handler_turn_witness :
  let ev := EvListen (Some (sample_socket, im_addr sample_item)) [FAdd (sample_sha 5, Block)] in
  let h := handler_new (sample_sha 2) Extensions_new [] in
  (exists h', @run_one _ _ pid_filter nom3 ev h = Ok h' /\ turn_ok ev h h') \/
  (@run_one _ _ pid_filter nom3 ev h = Panic /\ may_panic ev h).
Proof.
  intros ev h. apply (@handler_turn _ _ pid_filter nom3 ev h).
  apply (bool_decide_unpack _). by vm_compute.
Defined.

Lemma extension_bits_witness :
  ext_bit 43 (ext_add ExtensionProtocol Extensions_new) = true.
Proof.
  destruct (extension_bits ExtensionProtocol Extensions_new Extensions_new 43) as (_ & _ & _ & H & _).
  - apply (bool_decide_unpack _). by vm_compute.
  - apply (bool_decide_unpack _). by vm_compute.
  - lia.
  - rewrite H. reflexivity.
Defined.

(** The announced handshake of a turn, evaluated. *)
Example handler_turn_announces :
  let ev := EvListen (Some (sample_socket, im_addr sample_item)) [] in
  let h := handler_new (F := ShaHash * FilterDecision) (sample_sha 2) Extensions_new [] in
  match @run_one _ _ pid_filter nom3 ev h with
  | Ok h' => (fun c => (cm_pid c, incoming (cm_sock c))) <$> out_msg h' = [(sample_sha 1, [1; 2; 3]%Z)]
  | _ => False
  end.
Proof. vm_compute. reflexivity. Qed.
