(* ===== verification/Tracker.v ===== *)
(** Tracker: [btp-utracker], the requests and responses of the UDP tracker
    protocol: announce (announce.rs), its options (option.rs), compact peers
    (contact.rs), scrape (scrape.rs), errors (error.rs), and the two envelopes
    (request.rs, response.rs).

    A [Cow] is its contents, so [to_owned] is the identity.  Writers are the
    bytes they append: the two dispatchers write to a cursor over a vector,
    which grows, so no write fails.  A [HashMap] is a [gmap]; where it is
    written out, the order of its iterator is an argument. *)

From stdpp Require Import base list gmap.
From Stdlib Require Import ZArith Lia.
From S2P Require Import Prelude Bencode Convert ShaHash Nom.

(** * lib.rs *)

Definition CONNECT_ACTION_ID : Z := 0.
Definition ANNOUNCE_IPV4_ACTION_ID : Z := 1.
Definition SCRAPE_ACTION_ID : Z := 2.
Definition ANNOUNCE_IPV6_ACTION_ID : Z := 4.

(** * announce.rs: data *)

Definition IMPLIED_IPV4_ID : bytes := replicate 4 0%Z.
Definition IMPLIED_IPV6_ID : bytes := replicate 16 0%Z.
Definition DEFAULT_NUM_WANT : Z := -1.
Definition ANNOUNCE_NONE_EVENT : Z := 0.
Definition ANNOUNCE_COMPLETED_EVENT : Z := 1.
Definition ANNOUNCE_STARTED_EVENT : Z := 2.
Definition ANNOUNCE_STOPPED_EVENT : Z := 3.

Inductive AnnounceEvent : Type := EvNone | Completed | Started | Stopped.

Record ClientState := {
  downloaded : Z;
  bytes_left : Z;
  uploaded : Z;
  event : AnnounceEvent;
}.

Inductive SourceIP : Type :=
  | ImpliedV4
  | ExplicitV4 (addr : Ipv4Addr)
  | ImpliedV6
  | ExplicitV6 (addr : Ipv6Addr).

Inductive DesiredPeers : Type := DDefault | Specified (count : Z).

Record AnnounceOptions := { raw_options : gmap Z bytes }.

Record AnnounceRequest := {
  ar_info_hash : ShaHash;
  ar_peer_id : ShaHash;
  ar_state : ClientState;
  ar_ip : SourceIP;
  ar_key : Z;
  ar_num_want : DesiredPeers;
  ar_port : Z;
  ar_options : AnnounceOptions;
}.

(** * option.rs *)

Definition END_OF_OPTIONS_BYTE : Z := 0.
Definition NO_OPERATION_BYTE : Z := 1.
Definition URL_DATA_BYTE : Z := 2.

Definition options_new : AnnounceOptions := {| raw_options := ∅ |}.

(** [slice::chunks(n)]; every turn removes [n] elements. *)
Fixpoint chunks_f {A} (fuel n : nat) (l : list A) : list (list A) :=
  match fuel, l with
  | S fuel, _ :: _ => take n l :: chunks_f fuel n (drop n l)
  | _, _ => []
  end.
Definition chunks {A} (n : nat) (l : list A) : list (list A) := chunks_f (length l) n l.

(** [order] is the sequence in which the map's iterator yields the entries. *)
Definition options_write_bytes (order : list (Z * bytes)) : bytes :=
  mjoin ((fun '(byte, content) =>
    mjoin ((fun content_chunk =>
      [byte; to_u8 (Z.of_nat (length content_chunk))] ++ content_chunk) <$> chunks 255 content))
    <$> order)
  ++ [END_OF_OPTIONS_BYTE].

(** [trait AnnounceOption]; [write_option] fills a buffer of the given length. *)
Class AnnounceOption (O : Type) := {
  option_byte : Z;
  option_length : O -> nat;
  read_option : bytes -> option O;
  write_option : O -> bytes -> outcome unit bytes;
}.

Definition insert_bytes (byte : Z) (contents : bytes) (o : AnnounceOptions) : AnnounceOptions :=
  {| raw_options := <[byte := contents]> (raw_options o) |}.

Definition options_get {O} `{!AnnounceOption O} (o : AnnounceOptions) : option O :=
  raw_options o !! option_byte ≫= read_option.

Definition options_insert {O} `{!AnnounceOption O} (opt : O) (o : AnnounceOptions)
  : outcome unit AnnounceOptions :=
  let buf := replicate (option_length opt) 0%Z in
  buf ← write_option opt buf;
  Ok (insert_bytes option_byte buf o).

Record URLDataOption := { url_data : bytes }.

#[global] Instance url_data_option : AnnounceOption URLDataOption := {|
  option_byte := URL_DATA_BYTE;
  option_length o := length (url_data o);
  read_option bs := Some {| url_data := bs |};
  write_option o buf :=
    if length (url_data o) <=? length buf
    then Ok (url_data o ++ drop (length (url_data o)) buf) else Panic;
|}.

(** Draining an iterator whose state is an offset. *)
Fixpoint drain {A} (fuel : nat) (next : nat -> outcome unit (option (A * nat))) (offset : nat)
  : outcome unit (list A) :=
  match fuel with
  | O => NoFuel
  | S fuel =>
      r ← next offset;
      match r with
      | None => Ok []
      | Some (a, offset') => l ← drain fuel next offset'; Ok (a :: l)
      end
  end.

Section Parsers.
Context `{NT : NomTracker utf8_valid}.

Definition parse_end_option (bs : bytes) : IResult bytes bool :=
  iresult_map (fun _ => true) (iresult_alt (eof bs) (fun _ => tag [END_OF_OPTIONS_BYTE] bs)).

Definition parse_no_option (bs : bytes) : IResult bytes bool :=
  iresult_map (fun _ => false) (tag [NO_OPERATION_BYTE] bs).

(** Also yields the new option map. *)
Definition parse_user_option (option_map : gmap Z bytes) (bs : bytes)
  : IResult bytes (bool * gmap Z bytes) :=
  iresult_bind (be_u8 bs) (fun i option_byte =>
  iresult_bind (be_u8 i) (fun i len =>
  iresult_bind (take_bytes len i) (fun i option_contents =>
    let option_map' := match option_map !! option_byte with
      | Some contents => <[option_byte := contents ++ option_contents]> option_map
      | None => <[option_byte := option_contents]> option_map
      end in
    Done i (false, option_map')))).

(** The loop of [parse_options]; every turn that goes on consumes a byte. *)
Fixpoint parse_options_f (fuel : nat) (option_map : gmap Z bytes) (curr_bytes : bytes)
  : outcome unit (IResult bytes (gmap Z bytes)) :=
  match fuel with
  | O => NoFuel
  | S fuel =>
      let keep := iresult_map (fun e => (e, option_map)) in
      let parse_result :=
        iresult_alt (keep (parse_end_option curr_bytes)) (fun _ =>
        iresult_alt (keep (parse_no_option curr_bytes)) (fun _ =>
          parse_user_option option_map curr_bytes)) in
      then_parse parse_result (fun new_bytes '(found_eof, option_map) =>
        if (found_eof : bool) then Ok (Done new_bytes option_map)
        else parse_options_f fuel option_map new_bytes)
  end.

Definition parse_options (bs : bytes) (option_map : gmap Z bytes) :=
  parse_options_f (S (length bs)) option_map bs.

Definition options_from_bytes (bs : bytes) : outcome unit (IResult bytes AnnounceOptions) :=
  r ← parse_options bs ∅;
  then_parse r (fun i raw => Ok (Done i {| raw_options := raw |})).

(** * announce.rs: operations *)

Definition as_id (e : AnnounceEvent) : Z :=
  match e with
  | EvNone => ANNOUNCE_NONE_EVENT
  | Completed => ANNOUNCE_COMPLETED_EVENT
  | Started => ANNOUNCE_STARTED_EVENT
  | Stopped => ANNOUNCE_STOPPED_EVENT
  end.

Definition event_write_bytes (e : AnnounceEvent) : bytes := be_bytes 4 (as_id e).

Definition parse_event (bs : bytes) : IResult bytes AnnounceEvent :=
  iresult_bind (be_i32 bs) (fun i id =>
    if (id =? ANNOUNCE_NONE_EVENT)%Z then Done i EvNone
    else if (id =? ANNOUNCE_COMPLETED_EVENT)%Z then Done i Completed
    else if (id =? ANNOUNCE_STARTED_EVENT)%Z then Done i Started
    else if (id =? ANNOUNCE_STOPPED_EVENT)%Z then Done i Stopped
    else Error).

Definition state_write_bytes (s : ClientState) : bytes :=
  be_bytes 8 (downloaded s) ++ be_bytes 8 (bytes_left s) ++ be_bytes 8 (uploaded s)
  ++ event_write_bytes (event s).

Definition parse_state (bs : bytes) : IResult bytes ClientState :=
  iresult_bind (be_i64 bs) (fun i downloaded =>
  iresult_bind (be_i64 i) (fun i left' =>
  iresult_bind (be_i64 i) (fun i uploaded =>
  iresult_bind (parse_event i) (fun i event =>
    Done i {| downloaded := downloaded; bytes_left := left'; uploaded := uploaded; event := event |})))).

Definition source_write_bytes (ip : SourceIP) : bytes :=
  match ip with
  | ImpliedV4 => IMPLIED_IPV4_ID
  | ImpliedV6 => IMPLIED_IPV6_ID
  | ExplicitV4 addr => ipv4_to_bytes_be addr
  | ExplicitV6 addr => ipv6_to_bytes_be addr
  end.

Definition is_ipv6 (ip : SourceIP) : bool :=
  match ip with ImpliedV6 | ExplicitV6 _ => true | ImpliedV4 | ExplicitV4 _ => false end.
Definition is_ipv4 (ip : SourceIP) : bool := negb (is_ipv6 ip).

Definition parse_ipv4 (bs : bytes) : IResult bytes Ipv4Addr :=
  iresult_map bytes_be_to_ipv4 (count_fixed_u8 4 bs).
Definition parse_ipv6 (bs : bytes) : IResult bytes Ipv6Addr :=
  iresult_map bytes_be_to_ipv6 (count_fixed_u8 16 bs).

Definition parse_preference_v4 (bs : bytes) : IResult bytes SourceIP :=
  iresult_alt (iresult_map (fun _ => ImpliedV4) (tag IMPLIED_IPV4_ID bs))
    (fun _ => iresult_map ExplicitV4 (parse_ipv4 bs)).
Definition parse_preference_v6 (bs : bytes) : IResult bytes SourceIP :=
  iresult_alt (iresult_map (fun _ => ImpliedV6) (tag IMPLIED_IPV6_ID bs))
    (fun _ => iresult_map ExplicitV6 (parse_ipv6 bs)).

Definition desired_write_bytes (d : DesiredPeers) : bytes :=
  let write_value := match d with DDefault => DEFAULT_NUM_WANT | Specified count => count end in
  be_bytes 4 write_value.

Definition parse_desired (bs : bytes) : IResult bytes DesiredPeers :=
  iresult_map (fun n => if (n =? DEFAULT_NUM_WANT)%Z then DDefault else Specified n) (be_i32 bs).

(** [order] as in [options_write_bytes]. *)
Definition announce_write_bytes (order : list (Z * bytes)) (r : AnnounceRequest) : bytes :=
  hash (ar_info_hash r) ++ hash (ar_peer_id r) ++ state_write_bytes (ar_state r)
  ++ source_write_bytes (ar_ip r) ++ be_bytes 4 (ar_key r) ++ desired_write_bytes (ar_num_want r)
  ++ be_bytes 2 (ar_port r) ++ options_write_bytes order.

Definition announce_parse_request (ip_type : bytes -> IResult bytes SourceIP) (bs : bytes)
  : outcome unit (IResult bytes AnnounceRequest) :=
  r ← parse_hash_of SHA_HASH_LEN bs; then_parse r (fun i info_hash =>
  r ← parse_hash_of SHA_HASH_LEN i; then_parse r (fun i peer_id =>
  then_parse (parse_state i) (fun i state =>
  then_parse (ip_type i) (fun i ip =>
  then_parse (be_u32 i) (fun i key =>
  then_parse (parse_desired i) (fun i num_want =>
  then_parse (be_u16 i) (fun i port =>
  r ← options_from_bytes i; then_parse r (fun i options =>
    Ok (Done i {| ar_info_hash := info_hash; ar_peer_id := peer_id; ar_state := state; ar_ip := ip;
                  ar_key := key; ar_num_want := num_want; ar_port := port;
                  ar_options := options |}))))))))).

(** * contact.rs *)

Definition SOCKET_ADDR_V4_BYTES : nat := 6.
Definition SOCKET_ADDR_V6_BYTES : nat := 18.

Inductive CompactPeers : Type := PeersV4 (peers : bytes) | PeersV6 (peers : bytes).

Definition peers_bytes (p : CompactPeers) : bytes :=
  match p with PeersV4 b => b | PeersV6 b => b end.

Definition peers_write_bytes (p : CompactPeers) : bytes :=
  match p with PeersV4 peers => peers | PeersV6 peers => peers end.

Definition v4_insert (peer : SocketAddrV4) (peers : bytes) : bytes := peers ++ sock_v4_to_bytes_be peer.
Definition v6_insert (peer : SocketAddrV6) (peers : bytes) : bytes := peers ++ sock_v6_to_bytes_be peer.

(** The whole input, when its length is a multiple of [n]. *)
Definition parse_records {O} (n : nat) (mk : bytes -> O) (bs : bytes) : IResult bytes O :=
  let remainder_bytes := length bs mod n in
  if negb (remainder_bytes =? 0) then Incomplete (Some (Z.of_nat (n - remainder_bytes)))
  else Done [] (mk bs).

Definition parse_peers_v4 : bytes -> IResult bytes CompactPeers :=
  parse_records SOCKET_ADDR_V4_BYTES PeersV4.
Definition parse_peers_v6 : bytes -> IResult bytes CompactPeers :=
  parse_records SOCKET_ADDR_V6_BYTES PeersV6.

(** [zip] of the peers from [offset] with a zeroed array of [n] bytes. *)
Definition sock_array (n : nat) (peers : bytes) (offset : nat) : bytes :=
  let src := take n (drop offset peers) in src ++ replicate (n - length src) 0%Z.

Definition peers_next (p : CompactPeers) (offset : nat) : option (SocketAddr * nat) :=
  if offset =? length (peers_bytes p) then None
  else match p with
  | PeersV4 peers =>
      Some (SockV4 (bytes_be_to_sock_v4 (sock_array SOCKET_ADDR_V4_BYTES peers offset)),
            offset + SOCKET_ADDR_V4_BYTES)
  | PeersV6 peers =>
      Some (SockV6 (bytes_be_to_sock_v6 (sock_array SOCKET_ADDR_V6_BYTES peers offset)),
            offset + SOCKET_ADDR_V6_BYTES)
  end.

Definition peers_iter (p : CompactPeers) : outcome unit (list SocketAddr) :=
  drain (S (length (peers_bytes p))) (fun offset => Ok (peers_next p offset)) 0.

Record AnnounceResponse := {
  interval : Z;
  leechers : Z;
  seeders : Z;
  peers : CompactPeers;
}.

Definition response_write_bytes (r : AnnounceResponse) : bytes :=
  be_bytes 4 (interval r) ++ be_bytes 4 (leechers r) ++ be_bytes 4 (seeders r)
  ++ peers_write_bytes (peers r).

Definition parse_respone (peers_type : bytes -> IResult bytes CompactPeers) (bs : bytes)
  : IResult bytes AnnounceResponse :=
  iresult_bind (be_i32 bs) (fun i interval =>
  iresult_bind (be_i32 i) (fun i leechers =>
  iresult_bind (be_i32 i) (fun i seeders =>
  iresult_bind (peers_type i) (fun i peers =>
    Done i {| interval := interval; leechers := leechers; seeders := seeders; peers := peers |})))).

(** * scrape.rs *)

Definition SCRAPE_STATS_BYTES : nat := 12.

Record ScrapeStats := { st_seeders : Z; st_downloaded : Z; st_leechers : Z }.

Definition parse_stats (bs : bytes) : IResult bytes ScrapeStats :=
  iresult_bind (be_i32 bs) (fun i seeders =>
  iresult_bind (be_i32 i) (fun i downloaded =>
  iresult_bind (be_i32 i) (fun i leechers =>
    Done i {| st_seeders := seeders; st_downloaded := downloaded; st_leechers := leechers |}))).

Record ScrapeRequest := { sr_hashes : bytes }.
Record ScrapeResponse := { sr_stats : bytes }.

Definition scrape_request_new : ScrapeRequest := {| sr_hashes := [] |}.
Definition scrape_response_new : ScrapeResponse := {| sr_stats := [] |}.

Definition scrape_insert (h : ShaHash) (r : ScrapeRequest) : ScrapeRequest :=
  {| sr_hashes := sr_hashes r ++ hash h |}.

Definition stats_insert (s : ScrapeStats) (r : ScrapeResponse) : ScrapeResponse :=
  {| sr_stats := sr_stats r ++ four_bytes_to_array (to_u32 (st_seeders s))
       ++ four_bytes_to_array (to_u32 (st_downloaded s))
       ++ four_bytes_to_array (to_u32 (st_leechers s)) |}.

Definition scrape_parse_request : bytes -> IResult bytes ScrapeRequest :=
  parse_records SHA_HASH_LEN (fun bs => {| sr_hashes := bs |}).
Definition scrape_parse_response : bytes -> IResult bytes ScrapeResponse :=
  parse_records SCRAPE_STATS_BYTES (fun bs => {| sr_stats := bs |}).

Definition hashes_next (r : ScrapeRequest) (offset : nat) : outcome unit (option (ShaHash * nat)) :=
  if offset =? length (sr_hashes r) then Ok None
  else
    let '(start, end_) := (offset, offset + SHA_HASH_LEN) in
    s ← slice (sr_hashes r) start end_;
    h ← unwrap (from_hash s);
    Ok (Some (h, end_)).

Definition stats_next (r : ScrapeResponse) (offset : nat) : outcome unit (option (ScrapeStats * nat)) :=
  if offset =? length (sr_stats r) then Ok None
  else
    let '(start, end_) := (offset, offset + SCRAPE_STATS_BYTES) in
    s ← slice (sr_stats r) start end_;
    match parse_stats s with
    | Done _ stats => Ok (Some (stats, end_))
    | _ => Panic
    end.

Definition hashes_iter (r : ScrapeRequest) := drain (S (length (sr_hashes r))) (hashes_next r) 0.
Definition stats_iter (r : ScrapeResponse) := drain (S (length (sr_stats r))) (stats_next r) 0.

(** * error.rs *)

Record ErrorResponse := { message : bytes }.

Definition error_from_bytes (bs : bytes) : IResult bytes ErrorResponse :=
  iresult_map (fun m => {| message := m |}) (take_str (length bs) bs).

(** * request.rs *)

Definition CONNECT_ID_PROTOCOL_ID : Z := 4497486125440.

Inductive RequestType : Type :=
  | RConnect
  | RAnnounce (req : AnnounceRequest)
  | RScrape (req : ScrapeRequest).

Record TrackerRequest := { rq_connection_id : Z; rq_transaction_id : Z; request_type : RequestType }.

Definition request_write_bytes (order : list (Z * bytes)) (r : TrackerRequest) : bytes :=
  be_bytes 8 (rq_connection_id r) ++
  match request_type r with
  | RConnect => be_bytes 4 CONNECT_ACTION_ID ++ be_bytes 4 (rq_transaction_id r)
  | RAnnounce req =>
      let action_id := if is_ipv4 (ar_ip req) then ANNOUNCE_IPV4_ACTION_ID else ANNOUNCE_IPV6_ACTION_ID in
      be_bytes 4 action_id ++ be_bytes 4 (rq_transaction_id r) ++ announce_write_bytes order req
  | RScrape req =>
      be_bytes 4 SCRAPE_ACTION_ID ++ be_bytes 4 (rq_transaction_id r) ++ sr_hashes req
  end.

Definition tracker_parse_request (bs : bytes) : outcome unit (IResult bytes TrackerRequest) :=
  then_parse (be_u64 bs) (fun i cid =>
  then_parse (be_u32 i) (fun i action =>
  then_parse (be_u32 i) (fun i tid =>
    let mk t := {| rq_connection_id := cid; rq_transaction_id := tid; request_type := t |} in
    if ((cid =? CONNECT_ID_PROTOCOL_ID) && (action =? CONNECT_ACTION_ID))%Z then Ok (Done i (mk RConnect))
    else if (action =? ANNOUNCE_IPV4_ACTION_ID)%Z then
      r ← announce_parse_request parse_preference_v4 i; Ok (iresult_map (fun a => mk (RAnnounce a)) r)
    else if (action =? SCRAPE_ACTION_ID)%Z then
      Ok (iresult_map (fun s => mk (RScrape s)) (scrape_parse_request i))
    else if (action =? ANNOUNCE_IPV6_ACTION_ID)%Z then
      r ← announce_parse_request parse_preference_v6 i; Ok (iresult_map (fun a => mk (RAnnounce a)) r)
    else Ok Error))).

(** * response.rs *)

Definition ERROR_ACTION_ID : Z := 3.

Inductive ResponseType : Type :=
  | SConnect (id : Z)
  | SAnnounce (res : AnnounceResponse)
  | SScrape (res : ScrapeResponse)
  | SError (err : ErrorResponse).

Record TrackerResponse := { rs_transaction_id : Z; response_type : ResponseType }.

Definition tracker_response_write_bytes (r : TrackerResponse) : bytes :=
  match response_type r with
  | SConnect id => be_bytes 4 CONNECT_ACTION_ID ++ be_bytes 4 (rs_transaction_id r) ++ be_bytes 8 id
  | SAnnounce req =>
      let action_id := match peers req with
        | PeersV4 _ => ANNOUNCE_IPV4_ACTION_ID
        | PeersV6 _ => ANNOUNCE_IPV6_ACTION_ID
        end in
      be_bytes 4 action_id ++ be_bytes 4 (rs_transaction_id r) ++ response_write_bytes req
  | SScrape req => be_bytes 4 SCRAPE_ACTION_ID ++ be_bytes 4 (rs_transaction_id r) ++ sr_stats req
  | SError err => be_bytes 4 ERROR_ACTION_ID ++ be_bytes 4 (rs_transaction_id r) ++ message err
  end.

Definition tracker_parse_response (bs : bytes) : IResult bytes TrackerResponse :=
  iresult_bind (be_u32 bs) (fun i action =>
  iresult_bind (be_u32 i) (fun i tid =>
    let mk t := {| rs_transaction_id := tid; response_type := t |} in
    if (action =? CONNECT_ACTION_ID)%Z then iresult_map (fun cid => mk (SConnect cid)) (be_u64 i)
    else if (action =? ANNOUNCE_IPV4_ACTION_ID)%Z then
      iresult_map (fun r => mk (SAnnounce r)) (parse_respone parse_peers_v4 i)
    else if (action =? SCRAPE_ACTION_ID)%Z then
      iresult_map (fun r => mk (SScrape r)) (scrape_parse_response i)
    else if (action =? ERROR_ACTION_ID)%Z then
      iresult_map (fun r => mk (SError r)) (error_from_bytes i)
    else if (action =? ANNOUNCE_IPV6_ACTION_ID)%Z then
      iresult_map (fun r => mk (SAnnounce r)) (parse_respone parse_peers_v6 i)
    else Error)).
End Parsers.
