(* ===== verification/TrackerCorrect.v ===== *)
(** TrackerCorrect: what the tracker writes is what the tracker's parsers read
    back, the parsers return on every input, and the record iterators yield
    what was inserted. *)

From stdpp Require Import base list gmap.
From Stdlib Require Import ZArith Lia.
From S2P Require Import Prelude Bencode Convert ShaHash Nom Tracker.

(** * Well-formed messages *)

Definition state_ok (s : ClientState) : Prop :=
  is_i64 (downloaded s) /\ is_i64 (bytes_left s) /\ is_i64 (uploaded s).

(** An explicit all-zero address is written like the implied one. *)
Definition source_ok (ip : SourceIP) : Prop :=
  match ip with
  | ImpliedV4 | ImpliedV6 => True
  | ExplicitV4 a => ipv4_ok a /\ octets a <> IMPLIED_IPV4_ID
  | ExplicitV6 a => ipv6_ok a /\ ipv6_to_bytes_be a <> IMPLIED_IPV6_ID
  end.

Definition desired_ok (d : DesiredPeers) : Prop :=
  match d with DDefault => True | Specified n => is_i32 n /\ n <> DEFAULT_NUM_WANT end.

(** The two reserved option bytes cannot name an option, and an option without
    contents is not written. *)
Definition option_ok (k : Z) (c : bytes) : Prop :=
  is_u8 k /\ k <> END_OF_OPTIONS_BYTE /\ k <> NO_OPERATION_BYTE /\ c <> [].

Definition announce_ok (r : AnnounceRequest) : Prop :=
  is_hash (ar_info_hash r) /\ is_hash (ar_peer_id r) /\ state_ok (ar_state r) /\
  source_ok (ar_ip r) /\ is_u32 (ar_key r) /\ desired_ok (ar_num_want r) /\ is_u16 (ar_port r) /\
  map_Forall option_ok (raw_options (ar_options r)).

Definition request_ok (r : TrackerRequest) : Prop :=
  is_u64 (rq_connection_id r) /\ is_u32 (rq_transaction_id r) /\
  match request_type r with
  | RConnect => rq_connection_id r = CONNECT_ID_PROTOCOL_ID
  | RAnnounce a => announce_ok a
  | RScrape s => length (sr_hashes s) mod SHA_HASH_LEN = 0
  end.

Definition peers_ok (p : CompactPeers) : Prop :=
  match p with
  | PeersV4 b => length b mod SOCKET_ADDR_V4_BYTES = 0
  | PeersV6 b => length b mod SOCKET_ADDR_V6_BYTES = 0
  end.

Definition response_ok (r : TrackerResponse) : Prop :=
  is_u32 (rs_transaction_id r) /\
  match response_type r with
  | SConnect id => is_u64 id
  | SAnnounce a => is_i32 (interval a) /\ is_i32 (leechers a) /\ is_i32 (seeders a) /\ peers_ok (peers a)
  | SScrape s => length (sr_stats s) mod SCRAPE_STATS_BYTES = 0
  | SError e => utf8_valid (message e) = true
  end.

Section Parsers.
Context `{NT : NomTracker utf8_valid}.

(** * Fields *)

Lemma be_i32_app z r : is_i32 z -> be_i32 (be_bytes 4 z ++ r) = Done r z.
Proof.
  intros Hz. rewrite be_i32_done by (rewrite length_app, length_be_bytes; lia).
  rewrite drop_app_length', take_app_length' by (by rewrite length_be_bytes).
  by rewrite be_i32_id.
Qed.

Lemma be_i64_app z r : is_i64 z -> be_i64 (be_bytes 8 z ++ r) = Done r z.
Proof.
  intros Hz. rewrite be_i64_done by (rewrite length_app, length_be_bytes; lia).
  rewrite drop_app_length', take_app_length' by (by rewrite length_be_bytes).
  by rewrite be_i64_id.
Qed.

Lemma be_u64_app z r : is_u64 z -> be_u64 (be_bytes 8 z ++ r) = Done r z.
Proof.
  intros Hz. rewrite be_u64_done by (rewrite length_app, length_be_bytes; lia).
  rewrite drop_app_length', take_app_length' by (by rewrite length_be_bytes).
  by rewrite be_u64_id.
Qed.

Lemma state_roundtrip s r : state_ok s -> parse_state (state_write_bytes s ++ r) = Done r s.
Proof.
  intros (H1 & H2 & H3). unfold parse_state, state_write_bytes. rewrite <- !app_assoc.
  do 3 (rewrite be_i64_app by done; cbn [iresult_bind]).
  unfold parse_event, event_write_bytes.
  rewrite be_i32_app by (by destruct (event s)).
  by destruct s as [? ? ? []].
Qed.

Lemma source_roundtrip ip r :
  source_ok ip ->
  (if is_ipv4 ip then parse_preference_v4 else parse_preference_v6) (source_write_bytes ip ++ r)
  = Done r ip.
Proof.
  assert (Hcf : forall n a, length a = n -> count_fixed_u8 n (a ++ r) = Done r a).
  { intros n a <-. apply count_fixed_head. }
  destruct ip as [|a| |a]; unfold is_ipv4; cbn [is_ipv6 negb source_write_bytes source_ok]; intros Hok.
  - unfold parse_preference_v4. by rewrite tag_match.
  - destruct Hok as [Ha Hne]. unfold parse_preference_v4, parse_ipv4.
    assert (Hl : length (ipv4_to_bytes_be a) = 4) by (by destruct a).
    rewrite tag_mismatch; [|rewrite length_app, Hl; simpl; lia|].
    + cbn [iresult_map iresult_bind iresult_alt]. rewrite Hcf by done. cbn [iresult_map iresult_bind].
      by rewrite ipv4_roundtrip.
    + change (length IMPLIED_IPV4_ID) with 4. by rewrite take_app_length'.
  - unfold parse_preference_v6. by rewrite tag_match.
  - destruct Hok as [Ha Hne]. unfold parse_preference_v6, parse_ipv6.
    assert (Hl : length (ipv6_to_bytes_be a) = 16) by done.
    rewrite tag_mismatch; [|rewrite length_app, Hl; simpl; lia|].
    + cbn [iresult_map iresult_bind iresult_alt]. rewrite Hcf by done. cbn [iresult_map iresult_bind].
      by rewrite ipv6_roundtrip.
    + change (length IMPLIED_IPV6_ID) with 16. by rewrite take_app_length'.
Qed.

Lemma desired_roundtrip d r : desired_ok d -> parse_desired (desired_write_bytes d ++ r) = Done r d.
Proof.
  unfold parse_desired, desired_write_bytes. destruct d as [|n]; cbn [desired_ok].
  - intros _. rewrite be_i32_app by (unfold is_i32, DEFAULT_NUM_WANT; lia). done.
  - intros [Hn Hne]. rewrite be_i32_app by done. cbn [iresult_map iresult_bind].
    by rewrite (proj2 (Z.eqb_neq _ _) Hne).
Qed.

Lemma records_parse {O} n (mk : bytes -> O) bs :
  length bs mod n = 0 -> parse_records n mk bs = Done [] (mk bs).
Proof. intros Hm. unfold parse_records. by rewrite Hm. Qed.

(** * Options *)

(** What reading one more piece [c] of option [k] does to the map. *)
Definition add_piece (k : Z) (c : bytes) (m : gmap Z bytes) : gmap Z bytes :=
  <[k := default [] (m !! k) ++ c]> m.

Lemma tag_one t b r : b <> t -> tag [t] (b :: r) = Error.
Proof. intros Hne. apply tag_mismatch; simpl; [lia|congruence]. Qed.

Lemma tag_one_match t r : tag [t] (t :: r) = Done r [t].
Proof. apply (tag_match [t] r). Qed.

(** One turn of the loop, by the first byte. *)
Lemma options_turn fuel m b r :
  parse_options_f (S fuel) m (b :: r) =
  if (b =? END_OF_OPTIONS_BYTE)%Z then Ok (Done r m)
  else if (b =? NO_OPERATION_BYTE)%Z then parse_options_f fuel m r
  else then_parse (parse_user_option m (b :: r)) (fun i '(e, m') =>
         if (e : bool) then Ok (Done i m') else parse_options_f fuel m' i).
Proof.
  cbn [parse_options_f]. unfold parse_end_option, parse_no_option. rewrite eof_more.
  cbn [iresult_alt]. destruct (Z.eqb_spec b END_OF_OPTIONS_BYTE) as [->|He].
  { by rewrite tag_one_match. }
  rewrite (tag_one END_OF_OPTIONS_BYTE) by done. cbn [iresult_map iresult_bind iresult_alt].
  destruct (Z.eqb_spec b NO_OPERATION_BYTE) as [->|Hn]; [by rewrite tag_one_match|].
  by rewrite (tag_one NO_OPERATION_BYTE) by done.
Qed.

Lemma options_end fuel m : parse_options_f (S fuel) m [] = Ok (Done [] m).
Proof. cbn [parse_options_f]. unfold parse_end_option. by rewrite eof_end. Qed.

Lemma options_piece fuel m k c r :
  k <> END_OF_OPTIONS_BYTE -> k <> NO_OPERATION_BYTE -> length c <= 255 ->
  parse_options_f (S fuel) m (k :: to_u8 (Z.of_nat (length c)) :: c ++ r)
  = parse_options_f fuel (add_piece k c m) r.
Proof.
  intros He Hn Hc. rewrite options_turn.
  rewrite (proj2 (Z.eqb_neq _ _) He), (proj2 (Z.eqb_neq _ _) Hn).
  unfold parse_user_option. rewrite be_u8_cons. cbn [iresult_bind].
  rewrite be_u8_cons. cbn [iresult_bind]. rewrite to_u8_id by (unfold is_u8; lia).
  rewrite take_bytes_head by done. cbn [iresult_bind then_parse]. unfold add_piece.
  by destruct (m !! k).
Qed.

(** ** What is written is read back *)

Definition write_entry (e : Z * bytes) : bytes :=
  let '(byte, content) := e in
  mjoin ((fun content_chunk =>
    [byte; to_u8 (Z.of_nat (length content_chunk))] ++ content_chunk) <$> chunks 255 content).

Lemma entry_read n k c rest m fuel res :
  length c <= n -> k <> END_OF_OPTIONS_BYTE -> k <> NO_OPERATION_BYTE ->
  (forall fuel', length rest < fuel' ->
     parse_options_f fuel' (if c then m else add_piece k c m) rest = res) ->
  let written := mjoin ((fun p => [k; to_u8 (Z.of_nat (length p))] ++ p) <$> chunks_f n 255 c) ++ rest in
  length written < fuel -> parse_options_f fuel m written = res.
Proof.
  intros Hn He Hno. revert c m fuel Hn. induction n as [|n IH]; intros c m fuel Hn Hres written Hfuel.
  - destruct c; [|simpl in Hn; lia]. by apply Hres.
  - destruct c as [|b c]; [by apply Hres|]. unfold written in *. clear written.
    remember (b :: c) as bc eqn:Hbc. assert (Hlen : 1 <= length bc) by (subst; simpl; lia).
    assert (chunks_f (S n) 255 bc = take 255 bc :: chunks_f n 255 (drop 255 bc)) as Hch by (by subst bc).
    rewrite Hch in *. cbn [fmap list_fmap mjoin list_join app] in *. rewrite <- app_assoc in Hfuel |- *.
    destruct fuel as [|fuel]; [lia|]. rewrite options_piece by (done || (rewrite length_take; lia)).
    apply IH.
    + rewrite length_drop. lia.
    + intros fuel' Hf'. rewrite <- (Hres fuel' Hf'). subst bc. f_equal.
      destruct (drop 255 (b :: c)) as [|b' c'] eqn:Hd.
      * f_equal. rewrite <- (take_drop 255 (b :: c)) at 2. by rewrite Hd, app_nil_r.
      * unfold add_piece. rewrite lookup_insert_eq, insert_insert_eq. cbn [default from_option id].
        by rewrite <- app_assoc, <- Hd, take_drop.
    + cbn [length] in Hfuel. rewrite length_app in Hfuel. 
      assert (Harith : forall a w, S (S (a + w)) < S fuel -> w < fuel) by lia. exact (Harith _ _ Hfuel).
Qed.

Lemma options_read order rest m fuel :
  NoDup order.*1 -> (forall k, k ∈ order.*1 -> m !! k = None) ->
  Forall (fun '(k, c) => option_ok k c) order ->
  let written := mjoin (write_entry <$> order) ++ [END_OF_OPTIONS_BYTE] ++ rest in
  length written < fuel ->
  parse_options_f fuel m written = Ok (Done rest (list_to_map order ∪ m)).
Proof.
  intros Hnd Hm Hok. revert m fuel Hnd Hm.
  induction Hok as [|[k c] order (_ & He & Hn & Hc) Hok IH]; intros m fuel Hnd Hm written Hfuel.
  - destruct fuel as [|fuel]; [lia|]. unfold written. cbn [fmap list_fmap mjoin list_join app].
    rewrite options_turn. simpl. by rewrite (left_id_L ∅ (∪)).
  - cbn [fmap list_fmap mjoin list_join app] in *. apply NoDup_cons in Hnd as [Hk Hnd]. cbn [fst] in *.
    unfold written in *. clear written. rewrite <- app_assoc in Hfuel |- *.
    unfold write_entry at 1. unfold write_entry at 1 in Hfuel.
    apply (entry_read (length c)); try done. intros fuel' Hf'.
    destruct c as [|b c]; [done|]. rewrite IH; try done.
    + f_equal. f_equal. unfold add_piece. rewrite (Hm k) by apply list_elem_of_here. simpl.
      rewrite <- insert_union_l, insert_union_r; [done|]. by apply not_elem_of_list_to_map_1.
    + intros k' Hk'. unfold add_piece. rewrite lookup_insert_ne by congruence.
      apply Hm. by apply list_elem_of_further.
Qed.

Lemma options_roundtrip o order rest :
  map_Forall option_ok (raw_options o) -> order ≡ₚ map_to_list (raw_options o) ->
  options_from_bytes (options_write_bytes order ++ rest) = Ok (Done rest o).
Proof.
  intros Hok Hperm. unfold options_from_bytes, parse_options, options_write_bytes.
  rewrite <- app_assoc. change (fun '(byte, content) => _) with write_entry.
  assert (Hnd : NoDup order.*1) by (rewrite Hperm; apply NoDup_fst_map_to_list).
  rewrite options_read.
  - cbn [mbind outcome_bind then_parse]. rewrite (right_id_L ∅ (∪)).
    rewrite (list_to_map_proper _ (map_to_list (raw_options o))) by done.
    rewrite list_to_map_to_list. by destruct o.
  - done.
  - intros k _. apply lookup_empty.
  - apply Forall_forall. intros [k c] Hin. rewrite Hperm in Hin.
    apply elem_of_map_to_list in Hin. by apply (Hok k c).
  - lia.
Qed.

(** * Requests and responses *)

Lemma announce_roundtrip r order rest :
  announce_ok r -> order ≡ₚ map_to_list (raw_options (ar_options r)) ->
  announce_parse_request (if is_ipv4 (ar_ip r) then parse_preference_v4 else parse_preference_v6)
    (announce_write_bytes order r ++ rest) = Ok (Done rest r).
Proof.
  intros ([Hh _] & [Hp _] & Hs & Hip & Hk & Hw & Hport & Ho) Hperm.
  unfold announce_parse_request, announce_write_bytes. rewrite <- !app_assoc.
  rewrite parse_hash_head by done. cbn [mbind outcome_bind then_parse].
  rewrite parse_hash_head by done. cbn [mbind outcome_bind then_parse].
  rewrite state_roundtrip by done. cbn [then_parse].
  rewrite source_roundtrip by done. cbn [then_parse].
  rewrite be_u32_app by done. cbn [then_parse].
  rewrite desired_roundtrip by done. cbn [then_parse].
  rewrite be_u16_app by done. cbn [then_parse].
  rewrite (options_roundtrip (ar_options r)) by done. cbn [mbind outcome_bind then_parse].
  by destruct r as [[] [] ? ? ? ? ? ?].
Qed.

Lemma request_header r order cid action tid body :
  request_write_bytes order r = be_bytes 8 cid ++ be_bytes 4 action ++ be_bytes 4 tid ++ body ->
  is_u64 cid -> is_u32 action -> is_u32 tid ->
  tracker_parse_request (request_write_bytes order r) =
    let mk t := {| rq_connection_id := cid; rq_transaction_id := tid; request_type := t |} in
    if ((cid =? CONNECT_ID_PROTOCOL_ID) && (action =? CONNECT_ACTION_ID))%Z then Ok (Done body (mk RConnect))
    else if (action =? ANNOUNCE_IPV4_ACTION_ID)%Z then
      r ← announce_parse_request parse_preference_v4 body; Ok (iresult_map (fun a => mk (RAnnounce a)) r)
    else if (action =? SCRAPE_ACTION_ID)%Z then
      Ok (iresult_map (fun s => mk (RScrape s)) (scrape_parse_request body))
    else if (action =? ANNOUNCE_IPV6_ACTION_ID)%Z then
      r ← announce_parse_request parse_preference_v6 body; Ok (iresult_map (fun a => mk (RAnnounce a)) r)
    else Ok Error.
Proof.
  intros -> Hc Ha Ht. unfold tracker_parse_request.
  rewrite be_u64_app by done. cbn [then_parse]. rewrite be_u32_app by done. cbn [then_parse].
  rewrite be_u32_app by done. done.
Qed.

Lemma request_read_back r order :
  request_ok r ->
  match request_type r with
  | RAnnounce a => order ≡ₚ map_to_list (raw_options (ar_options a))
  | _ => True
  end ->
  tracker_parse_request (request_write_bytes order r) = Ok (Done [] r).
Proof.
  destruct r as [cid tid t]. intros (Hc & Ht & Hok) Hord. cbn [rq_connection_id rq_transaction_id request_type] in *.
  destruct t as [|a|s].
  - subst cid. erewrite (request_header _ _ CONNECT_ID_PROTOCOL_ID CONNECT_ACTION_ID tid []);
      [done| |done|done|done]. unfold request_write_bytes. simpl request_type. by rewrite app_nil_r.
  - pose proof (announce_roundtrip a order [] Hok Hord) as Hrt. rewrite app_nil_r in Hrt.
    destruct (is_ipv4 (ar_ip a)) eqn:Hip.
    + erewrite (request_header _ _ cid ANNOUNCE_IPV4_ACTION_ID tid (announce_write_bytes order a));
        [|by unfold request_write_bytes; cbn [request_type]; rewrite Hip|done..].
      cbv zeta. rewrite andb_false_r. simpl Z.eqb. by rewrite Hrt.
    + erewrite (request_header _ _ cid ANNOUNCE_IPV6_ACTION_ID tid (announce_write_bytes order a));
        [|by unfold request_write_bytes; cbn [request_type]; rewrite Hip|done..].
      cbv zeta. rewrite andb_false_r. simpl Z.eqb. by rewrite Hrt.
  - erewrite (request_header _ _ cid SCRAPE_ACTION_ID tid (sr_hashes s)); [|done..].
    cbv zeta. rewrite andb_false_r. simpl Z.eqb. unfold scrape_parse_request.
    rewrite records_parse by done. by destruct s.
Qed.

Lemma announce_response_read mk_peers n a :
  peers_write_bytes (peers a) = peers_bytes (peers a) ->
  mk_peers (peers_bytes (peers a)) = peers a -> length (peers_bytes (peers a)) mod n = 0 ->
  is_i32 (interval a) -> is_i32 (leechers a) -> is_i32 (seeders a) ->
  parse_respone (parse_records n mk_peers) (response_write_bytes a) = Done [] a.
Proof.
  intros Hw Hmk Hn H1 H2 H3. unfold parse_respone, response_write_bytes.
  do 3 (rewrite be_i32_app by done; cbn [iresult_bind]).
  rewrite Hw, records_parse by done. cbn [iresult_bind]. rewrite Hmk. by destruct a.
Qed.

Lemma response_read_back r :
  response_ok r -> tracker_parse_response (tracker_response_write_bytes r) = Done [] r.
Proof.
  destruct r as [tid t]. intros [Ht Hok]. cbn [rs_transaction_id response_type] in *.
  unfold tracker_parse_response, tracker_response_write_bytes. cbn [rs_transaction_id response_type].
  destruct t as [id|a|s|e].
  - do 2 (rewrite be_u32_app by done; cbn [iresult_bind]). simpl Z.eqb. cbv zeta iota.
    rewrite <- (app_nil_r (be_bytes 8 id)), be_u64_app by done. done.
  - destruct Hok as (H1 & H2 & H3 & Hp).
    destruct (peers a) as [b|b] eqn:Hb; cbn [peers_ok] in Hp;
      do 2 (rewrite be_u32_app by done; cbn [iresult_bind]); simpl Z.eqb; cbv zeta iota;
      unfold parse_peers_v4, parse_peers_v6;
      rewrite announce_response_read by (rewrite ?Hb; done); done.
  - do 2 (rewrite be_u32_app by done; cbn [iresult_bind]). simpl Z.eqb. cbv zeta iota.
    unfold scrape_parse_response. rewrite records_parse by done. by destruct s.
  - do 2 (rewrite be_u32_app by done; cbn [iresult_bind]). simpl Z.eqb. cbv zeta iota.
    unfold error_from_bytes. rewrite <- (app_nil_r (message e)) at 2.
    rewrite take_str_valid by done. by destruct e.
Qed.

(** * The parsers return on every input *)

(** The input a parser leaves is a suffix of its input. *)
Definition leaves {O} (bs : bytes) (r : IResult bytes O) : Prop :=
  forall i o, r = Done i o -> i `suffix_of` bs.

Lemma leaves_bind {O P} bs (r : IResult bytes O) (f : bytes -> O -> IResult bytes P) :
  leaves bs r -> (forall i o, r = Done i o -> leaves i (f i o)) -> leaves bs (iresult_bind r f).
Proof.
  intros Hr Hf i o. destruct r as [i' o'| |]; cbn [iresult_bind]; try done.
  intros Hd. etrans; [by eapply Hf|by eapply Hr].
Qed.

Lemma leaves_Done {O} bs (o : O) : leaves bs (Done bs o).
Proof. by intros i o' [= <- <-]. Qed.

Lemma leaves_map {O P} bs (r : IResult bytes O) (f : O -> P) : leaves bs r -> leaves bs (iresult_map f r).
Proof. intros Hr. apply leaves_bind; [done|]. intros. apply leaves_Done. Qed.

Lemma leaves_alt {O} bs (r : IResult bytes O) f : leaves bs r -> leaves bs (f tt) -> leaves bs (iresult_alt r f).
Proof. intros Hr Hf. by destruct r. Qed.

Lemma leaves_number {O} n (p : bytes -> IResult bytes O) g bs :
  (forall bs, n <= length bs -> p bs = Done (drop n bs) (g bs)) ->
  (forall bs, length bs < n -> exists k, p bs = Incomplete k) -> leaves bs (p bs).
Proof.
  intros Hd Hs i o. destruct (Nat.le_gt_cases n (length bs)) as [Hn|Hn].
  - rewrite Hd by done. intros [= <- <-]. apply suffix_drop.
  - destruct (Hs bs Hn) as [k ->]. done.
Qed.

Lemma leaves_be_u8 bs : leaves bs (be_u8 bs).
Proof. eapply leaves_number; [apply be_u8_done|apply be_u8_short]. Qed.
Lemma leaves_be_u16 bs : leaves bs (be_u16 bs).
Proof. eapply leaves_number; [apply be_u16_done|apply be_u16_short]. Qed.
Lemma leaves_be_u32 bs : leaves bs (be_u32 bs).
Proof. eapply leaves_number; [apply be_u32_done|apply be_u32_short]. Qed.
Lemma leaves_be_i32 bs : leaves bs (be_i32 bs).
Proof. eapply leaves_number; [apply be_i32_done|apply be_i32_short]. Qed.
Lemma leaves_be_i64 bs : leaves bs (be_i64 bs).
Proof. eapply leaves_number; [apply be_i64_done|apply be_i64_short]. Qed.
Lemma leaves_be_u64 bs : leaves bs (be_u64 bs).
Proof. eapply leaves_number; [apply be_u64_done|apply be_u64_short]. Qed.

Lemma leaves_tag t bs : leaves bs (tag t bs).
Proof.
  intros i o. destruct (Nat.le_gt_cases (length t) (length bs)) as [Hn|Hn].
  - destruct (decide (take (length t) bs = t)) as [Heq|Hne]; [|by rewrite tag_mismatch].
    rewrite <- (take_drop (length t) bs) at 1. rewrite Heq, tag_match.
    intros [= <- <-]. apply suffix_drop.
  - destruct (tag_short t bs Hn) as [->|[n ->]]; done.
Qed.

Lemma leaves_take n bs : (0 <= n)%Z -> leaves bs (take_bytes n bs).
Proof.
  intros Hn i o. destruct (Z.le_gt_cases n (Z.of_nat (length bs))) as [Hl|Hl].
  - rewrite take_bytes_done by lia. intros [= <- <-]. apply suffix_drop.
  - destruct (take_bytes_short n bs Hl) as [k ->]. done.
Qed.

Lemma leaves_count n bs : leaves bs (count_fixed_u8 n bs).
Proof.
  revert bs. induction n as [|n IH]; intros bs; [apply leaves_Done|].
  apply leaves_bind; [apply leaves_be_u8|]. intros i o _. by apply leaves_map.
Qed.

Hint Resolve leaves_be_u8 leaves_be_u16 leaves_be_u32 leaves_be_i32 leaves_be_i64 leaves_be_u64
  leaves_tag leaves_count leaves_Done leaves_map leaves_alt : core.

Lemma leaves_state bs : leaves bs (parse_state bs).
Proof.
  unfold parse_state, parse_event. repeat (apply leaves_bind; [auto|intros]); auto.
  repeat (case_match; auto). done.
Qed.

Lemma leaves_preference v4 bs : leaves bs ((if v4 : bool then parse_preference_v4 else parse_preference_v6) bs).
Proof. destruct v4; unfold parse_preference_v4, parse_preference_v6, parse_ipv4, parse_ipv6; auto. Qed.

Lemma suffix_u8 i bs : i `suffix_of` bs -> Forall is_u8 bs -> Forall is_u8 i.
Proof. intros [k ->]. by intros [_ ?]%Forall_app. Qed.

(** [then_parse] hands on a suffix of byte input. *)
Lemma then_parse_total {O P} bs (r : IResult bytes O) (f : bytes -> O -> outcome unit (IResult bytes P)) :
  Forall is_u8 bs -> leaves bs r ->
  (forall i o, Forall is_u8 i -> exists r', f i o = Ok r') -> exists r', then_parse r f = Ok r'.
Proof.
  intros H8 Hl Hf. destruct r as [i o| |]; cbn [then_parse]; eauto using suffix_u8.
Qed.

Lemma parse_hash_total n bs :
  n = SHA_HASH_LEN -> exists r, parse_hash_of n bs = Ok r /\ leaves bs r.
Proof.
  intros ->. unfold parse_hash_of.
  destruct (Nat.le_gt_cases SHA_HASH_LEN (length bs)) as [Hn|Hn].
  - rewrite take_bytes_done by lia. rewrite Nat2Z.id. unfold from_hash.
    rewrite length_take, Nat.min_l by done. simpl negb. eexists. split; [done|].
    intros i o [= <- <-]. apply suffix_drop.
  - destruct (take_bytes_short (Z.of_nat SHA_HASH_LEN) bs) as [k ->]; [lia|].
    eexists. split; [done|]. done.
Qed.

Lemma options_total fuel m bs :
  Forall is_u8 bs -> length bs < fuel -> exists r, parse_options_f fuel m bs = Ok r.
Proof.
  revert m bs. induction fuel as [|fuel IH]; intros m bs H8 Hf; [lia|].
  destruct bs as [|b bs]; [rewrite options_end; eauto|]. rewrite options_turn.
  apply Forall_cons in H8 as [Hb H8]. cbn [length] in Hf.
  case_match; [eauto|]. case_match; [apply IH; [done|lia]|].
  unfold parse_user_option. rewrite be_u8_cons. cbn [iresult_bind].
  destruct bs as [|len bs].
  { destruct (be_u8_short []) as [n ->]; [simpl; lia|]. eexists. done. }
  rewrite be_u8_cons. cbn [iresult_bind]. apply Forall_cons in H8 as [Hlen H8].
  destruct (take_bytes len bs) as [i c| |] eqn:Ht; cbn [iresult_bind then_parse]; [|eauto..].
  assert (Hs : i `suffix_of` bs) by (eapply leaves_take; [by destruct Hlen|done]).
  apply IH; [by eapply suffix_u8|]. apply suffix_length in Hs. cbn [length] in Hf. lia.
Qed.

Lemma announce_total v4 bs :
  Forall is_u8 bs ->
  exists r, announce_parse_request (if v4 : bool then parse_preference_v4 else parse_preference_v6) bs = Ok r.
Proof.
  intros H8. unfold announce_parse_request.
  destruct (parse_hash_total SHA_HASH_LEN bs eq_refl) as (r1 & -> & L1). rewrite mbind_ok.
  eapply then_parse_total; [done|done|]. clear bs H8 r1 L1. intros bs ? H8.
  destruct (parse_hash_total SHA_HASH_LEN bs eq_refl) as (r2 & -> & L2). rewrite mbind_ok.
  eapply then_parse_total; [done|done|]. clear bs H8 r2 L2. intros bs ? H8.
  eapply then_parse_total; [done|apply leaves_state|]. clear bs H8. intros bs ? H8.
  eapply then_parse_total; [done|apply leaves_preference|]. clear bs H8. intros bs ? H8.
  eapply then_parse_total; [done|auto|]. clear bs H8. intros bs ? H8.
  eapply then_parse_total; [done|unfold parse_desired; auto|]. clear bs H8. intros bs ? H8.
  eapply then_parse_total; [done|auto|]. clear bs H8. intros bs ? H8.
  unfold options_from_bytes, parse_options.
  destruct (options_total (S (length bs)) ∅ bs) as [r ->]; [done|lia|]. rewrite mbind_ok.
  destruct r; cbn [then_parse]; rewrite mbind_ok; cbn [then_parse]; eauto.
Qed.

Lemma request_total bs : Forall is_u8 bs -> exists r, tracker_parse_request bs = Ok r.
Proof.
  intros H8. unfold tracker_parse_request.
  do 3 (eapply then_parse_total; [done|auto|]; clear bs H8; intros bs ? H8).
  case_match; [eauto|]. case_match.
  { destruct (announce_total true bs H8) as [r ->]. rewrite mbind_ok. eauto. }
  case_match; [eauto|]. case_match; [|eauto].
  destruct (announce_total false bs H8) as [r ->]. rewrite mbind_ok. eauto.
Qed.
End Parsers.

(** * Record iterators *)

Definition encode_all {A} (enc : A -> bytes) (l : list A) : bytes := mjoin (enc <$> l).

Lemma encode_all_cons {A} (enc : A -> bytes) a l : encode_all enc (a :: l) = enc a ++ encode_all enc l.
Proof. done. Qed.

Lemma encode_all_app {A} (enc : A -> bytes) l k :
  encode_all enc (l ++ k) = encode_all enc l ++ encode_all enc k.
Proof. unfold encode_all. by rewrite fmap_app, join_app. Qed.

Lemma length_encode_all {A} (enc : A -> bytes) n l :
  Forall (fun a => length (enc a) = n) l -> length (encode_all enc l) = n * length l.
Proof.
  induction 1 as [|a l Ha Hl IH]; [simpl; lia|].
  rewrite encode_all_cons, length_app, Ha, IH. simpl. lia.
Qed.

(** An iterator whose [next] decodes the record at its offset yields the
    records that were encoded. *)
Lemma drain_records {A} (enc : A -> bytes) n (next : nat -> outcome unit (option (A * nat))) l :
  Forall (fun a => length (enc a) = n) l ->
  (forall pre a post, encode_all enc l = pre ++ enc a ++ post -> a ∈ l ->
     next (length pre) = Ok (Some (a, length pre + n))) ->
  next (length (encode_all enc l)) = Ok None ->
  forall fuel, length l < fuel -> drain fuel next 0 = Ok l.
Proof.
  intros Hlen Hstep Hend.
  enough (Hgen : forall rest done fuel, l = done ++ rest -> length rest < fuel ->
    drain fuel next (length (encode_all enc done)) = Ok rest).
  { intros fuel Hf. by apply (Hgen l []). }
  induction rest as [|a rest IH]; intros dn fuel Hl Hf; (destruct fuel as [|fuel]; [simpl in Hf; lia|]);
    cbn [drain].
  - rewrite app_nil_r in Hl. subst dn. by rewrite Hend.
  - assert (Hsplit : encode_all enc l = encode_all enc dn ++ enc a ++ encode_all enc rest).
    { by rewrite Hl, encode_all_app. }
    assert (Ha : a ∈ l) by (rewrite Hl; set_solver).
    rewrite (Hstep _ _ _ Hsplit Ha). cbn [mbind outcome_bind].
    assert (Hn : length (enc a) = n) by (by eapply Forall_forall in Hlen).
    replace (length (encode_all enc dn) + n) with (length (encode_all enc (dn ++ [a]))).
    + rewrite IH; [done|by rewrite <- app_assoc|simpl in Hf; lia].
    + rewrite encode_all_app, encode_all_cons, !length_app. simpl. lia.
Qed.

Lemma record_slice {E} (data pre rec post : bytes) n :
  data = pre ++ rec ++ post -> length rec = n ->
  @slice E Z data (length pre) (length pre + n) = Ok rec.
Proof. intros -> <-. apply slice_app. Qed.

Lemma offset_inside (data pre rec post : bytes) n :
  data = pre ++ rec ++ post -> length rec = n -> 0 < n -> (length pre =? length data) = false.
Proof. intros -> <- Hn. apply Nat.eqb_neq. rewrite !length_app. lia. Qed.

Lemma sock_array_record (data pre rec post : bytes) n :
  data = pre ++ rec ++ post -> length rec = n -> sock_array n data (length pre) = rec.
Proof.
  intros -> <-. unfold sock_array. rewrite drop_app_length, take_app_length, Nat.sub_diag.
  apply app_nil_r.
Qed.

Lemma fold_insert {A} (enc : A -> bytes) l b :
  fold_left (fun acc a => acc ++ enc a) l b = b ++ encode_all enc l.
Proof.
  revert b. induction l as [|a l IH]; intros b; [by rewrite app_nil_r|].
  cbn [fold_left]. rewrite IH, <- app_assoc. done.
Qed.

Lemma fuel_enough {A} (enc : A -> bytes) n l :
  Forall (fun a => length (enc a) = n) l -> 0 < n -> length l < S (length (encode_all enc l)).
Proof. intros H Hn. rewrite (length_encode_all _ n) by done. nia. Qed.

Definition v6_plain (s : SocketAddrV6) : Prop :=
  ipv6_ok (v6_ip s) /\ is_u16 (v6_port s) /\ flowinfo s = 0%Z /\ scope_id s = 0%Z.

Definition stats_ok (s : ScrapeStats) : Prop :=
  is_i32 (st_seeders s) /\ is_i32 (st_downloaded s) /\ is_i32 (st_leechers s).

Lemma peers_v4_iter l :
  Forall (fun s => is_u16 (v4_port s)) l ->
  peers_iter (PeersV4 (fold_left (flip v4_insert) l [])) = Ok (SockV4 <$> l).
Proof.
  intros Hok. unfold v4_insert, flip. rewrite (fold_insert sock_v4_to_bytes_be). cbn [app].
  set (enc := fun a => match a with SockV4 s => sock_v4_to_bytes_be s | SockV6 _ => [] end).
  assert (He : encode_all sock_v4_to_bytes_be l = encode_all enc (SockV4 <$> l))
    by (unfold encode_all; by rewrite <- list_fmap_compose).
  assert (Hlen : Forall (fun a => length (enc a) = SOCKET_ADDR_V4_BYTES) (SockV4 <$> l)).
  { apply Forall_fmap, Forall_true. intros s. apply length_sock_v4_bytes. }
  rewrite He. unfold peers_iter. cbn [peers_bytes].
  apply (drain_records enc SOCKET_ADDR_V4_BYTES);
    [done| | |by apply (fuel_enough enc SOCKET_ADDR_V4_BYTES); [|unfold SOCKET_ADDR_V4_BYTES; lia]].
  - intros pre a post Hd Ha. apply list_elem_of_fmap in Ha as (s & -> & Hs).
    assert (Hl : length (enc (SockV4 s)) = SOCKET_ADDR_V4_BYTES) by apply length_sock_v4_bytes.
    unfold peers_next. cbn [peers_bytes].
    rewrite (offset_inside _ _ _ _ _ Hd Hl) by (unfold SOCKET_ADDR_V4_BYTES; lia).
    rewrite (sock_array_record _ _ _ _ _ Hd Hl). cbn [enc].
    rewrite sock_v4_roundtrip; [done|]. by eapply (proj1 (Forall_forall _ _)) in Hok.
  - unfold peers_next. cbn [peers_bytes]. by rewrite Nat.eqb_refl.
Qed.

Lemma v6_plain_roundtrip s : v6_plain s -> bytes_be_to_sock_v6 (sock_v6_to_bytes_be s) = s.
Proof.
  intros (Hip & Hp & Hf & Hs). destruct (sock_v6_roundtrip s Hip Hp) as [_ ->].
  destruct s. simpl in *. by subst.
Qed.

Lemma length_sock_v6_bytes s : length (sock_v6_to_bytes_be s) = 18.
Proof. done. Qed.

Lemma peers_v6_iter l :
  Forall v6_plain l ->
  peers_iter (PeersV6 (fold_left (flip v6_insert) l [])) = Ok (SockV6 <$> l).
Proof.
  intros Hok. unfold v6_insert, flip. rewrite (fold_insert sock_v6_to_bytes_be). cbn [app].
  set (enc := fun a => match a with SockV6 s => sock_v6_to_bytes_be s | SockV4 _ => [] end).
  assert (He : encode_all sock_v6_to_bytes_be l = encode_all enc (SockV6 <$> l))
    by (unfold encode_all; by rewrite <- list_fmap_compose).
  assert (Hlen : Forall (fun a => length (enc a) = SOCKET_ADDR_V6_BYTES) (SockV6 <$> l)).
  { apply Forall_fmap, Forall_true. intros s. apply length_sock_v6_bytes. }
  rewrite He. unfold peers_iter. cbn [peers_bytes].
  apply (drain_records enc SOCKET_ADDR_V6_BYTES);
    [done| | |by apply (fuel_enough enc SOCKET_ADDR_V6_BYTES); [|unfold SOCKET_ADDR_V6_BYTES; lia]].
  - intros pre a post Hd Ha. apply list_elem_of_fmap in Ha as (s & -> & Hs).
    assert (Hl : length (enc (SockV6 s)) = SOCKET_ADDR_V6_BYTES) by apply length_sock_v6_bytes.
    unfold peers_next. cbn [peers_bytes].
    rewrite (offset_inside _ _ _ _ _ Hd Hl) by (unfold SOCKET_ADDR_V6_BYTES; lia).
    rewrite (sock_array_record _ _ _ _ _ Hd Hl). cbn [enc].
    rewrite v6_plain_roundtrip; [done|]. by eapply (proj1 (Forall_forall _ _)) in Hok.
  - unfold peers_next. cbn [peers_bytes]. by rewrite Nat.eqb_refl.
Qed.

Lemma hashes_inserted l :
  sr_hashes (fold_left (flip scrape_insert) l scrape_request_new) = encode_all hash l.
Proof.
  assert (Hgen : forall r, sr_hashes (fold_left (flip scrape_insert) l r)
    = fold_left (fun acc a => acc ++ hash a) l (sr_hashes r)).
  { induction l as [|h l IH]; intros r; [done|]. cbn [fold_left]. by rewrite IH. }
  by rewrite Hgen, fold_insert.
Qed.

Lemma hashes_iter_encoded r l :
  sr_hashes r = encode_all hash l -> Forall (fun h => length (hash h) = SHA_HASH_LEN) l ->
  hashes_iter r = Ok l.
Proof.
  intros Hr Hlen. unfold hashes_iter. rewrite Hr.
  assert (Hpos : 0 < SHA_HASH_LEN) by (unfold SHA_HASH_LEN; lia).
  apply (drain_records hash SHA_HASH_LEN); [done| | |by apply (fuel_enough hash SHA_HASH_LEN)].
  - intros pre h post Hd Hh.
    assert (Hl : length (hash h) = SHA_HASH_LEN) by (by eapply (proj1 (Forall_forall _ _)) in Hlen).
    unfold hashes_next. rewrite Hr, (offset_inside _ _ _ _ _ Hd Hl) by done.
    rewrite (record_slice _ _ _ _ _ Hd Hl), mbind_ok. unfold from_hash. rewrite Hl. by destruct h.
  - unfold hashes_next. by rewrite Hr, Nat.eqb_refl.
Qed.

Lemma hashes_iter_inserted l :
  Forall is_hash l ->
  hashes_iter (fold_left (flip scrape_insert) l scrape_request_new) = Ok l.
Proof.
  intros Hok. apply hashes_iter_encoded; [apply hashes_inserted|].
  eapply Forall_impl; [exact Hok|]. by intros h [? _].
Qed.

(** Bytes whose length is a multiple of 20 are a sequence of hashes. *)
Lemma hashes_of_bytes k bs :
  length bs = SHA_HASH_LEN * k ->
  exists l, bs = encode_all hash l /\ Forall (fun h => length (hash h) = SHA_HASH_LEN) l.
Proof.
  revert bs. induction k as [|k IH]; intros bs Hl.
  - exists []. destruct bs; [done|simpl in Hl; lia].
  - destruct (IH (drop SHA_HASH_LEN bs)) as (l & Hd & Hf); [rewrite length_drop; lia|].
    exists ({| hash := take SHA_HASH_LEN bs |} :: l). rewrite encode_all_cons, <- Hd. simpl hash.
    split; [by rewrite take_drop|]. constructor; [|done]. simpl. rewrite length_take. lia.
Qed.

Lemma parsed_hashes_iter bs i r :
  scrape_parse_request bs = Done i r -> exists l, hashes_iter r = Ok l.
Proof.
  unfold scrape_parse_request, parse_records.
  destruct (Nat.eqb_spec (length bs mod SHA_HASH_LEN) 0) as [Hm|]; [|done]. intros [= <- <-].
  destruct (hashes_of_bytes (length bs / SHA_HASH_LEN) bs) as (l & Hl & Hf).
  { pose proof (Nat.div_mod_eq (length bs) SHA_HASH_LEN). lia. }
  exists l. by apply hashes_iter_encoded.
Qed.

Section Stats.
Context `{NT : NomTracker utf8_valid}.

Definition stats_record (s : ScrapeStats) : bytes :=
  be_bytes 4 (to_u32 (st_seeders s)) ++ be_bytes 4 (to_u32 (st_downloaded s))
  ++ be_bytes 4 (to_u32 (st_leechers s)).

Lemma be_i32_wrapped z r : is_i32 z -> be_i32 (be_bytes 4 (to_u32 z) ++ r) = Done r z.
Proof.
  intros Hz. rewrite be_i32_done by (rewrite length_app, length_be_bytes; lia).
  rewrite drop_app_length', take_app_length' by (by rewrite length_be_bytes).
  rewrite <- (be_i32_id z Hz) at 2. rewrite !be_val_be_bytes.
  change (256 ^ Z.of_nat 4)%Z with 4294967296%Z. unfold to_u32. by rewrite Z.mod_mod.
Qed.

Lemma stats_inserted l :
  sr_stats (fold_left (flip stats_insert) l scrape_response_new) = encode_all stats_record l.
Proof.
  assert (Hgen : forall r, sr_stats (fold_left (flip stats_insert) l r)
    = fold_left (fun acc a => acc ++ stats_record a) l (sr_stats r)).
  { induction l as [|h l IH]; intros r; [done|]. cbn [fold_left]. by rewrite IH. }
  by rewrite Hgen, fold_insert.
Qed.

Lemma stats_iter_inserted l :
  Forall stats_ok l ->
  stats_iter (fold_left (flip stats_insert) l scrape_response_new) = Ok l.
Proof.
  intros Hok. unfold stats_iter. rewrite stats_inserted.
  assert (Hlen : Forall (fun s => length (stats_record s) = SCRAPE_STATS_BYTES) l)
    by (by apply Forall_true).
  assert (Hpos : 0 < SCRAPE_STATS_BYTES) by (unfold SCRAPE_STATS_BYTES; lia).
  apply (drain_records stats_record SCRAPE_STATS_BYTES); [done| | |by apply (fuel_enough stats_record SCRAPE_STATS_BYTES)].
  - intros pre s post Hd Hs.
    assert (Hl : length (stats_record s) = SCRAPE_STATS_BYTES) by done.
    unfold stats_next. rewrite stats_inserted, (offset_inside _ _ _ _ _ Hd Hl) by done.
    rewrite (record_slice _ _ _ _ _ Hd Hl), mbind_ok. unfold parse_stats, stats_record.
    eapply (proj1 (Forall_forall _ _)) in Hok as (H1 & H2 & H3); [|done].
    do 2 (rewrite be_i32_wrapped by done; cbn [iresult_bind]).
    rewrite <- (app_nil_r (be_bytes 4 (to_u32 (st_leechers s)))), be_i32_wrapped by done.
    by destruct s.
  - unfold stats_next. by rewrite stats_inserted, Nat.eqb_refl.
Qed.
End Stats.

(** * Theorems *)

(** Every well-formed tracker request is read back from its bytes, in
    whatever order the hash map of its options is iterated: connection and
    transaction id, kind, and for an announce every field including options
    longer than the 255 bytes a single option field can carry. *)
Theorem tracker_request_roundtrip `{NT : NomTracker utf8_valid} (r : TrackerRequest) (order : list (Z * bytes)) :
  request_ok r ->
  match request_type r with
  | RAnnounce a => order ≡ₚ map_to_list (raw_options (ar_options a))
  | _ => True
  end ->
  tracker_parse_request (request_write_bytes order r) = Ok (Done [] r).
Proof. apply request_read_back. Qed.

(** Every well-formed tracker response is read back from its bytes. *)
Theorem tracker_response_roundtrip `{NT : NomTracker utf8_valid} (r : TrackerResponse) :
  response_ok r -> tracker_parse_response (tracker_response_write_bytes r) = Done [] r.
Proof. apply response_read_back. Qed.

(** The iterators over compact peers, scraped hashes and scrape statistics
    stay inside their buffer, end, and yield exactly what was inserted, in
    order. *)
Theorem tracker_lists_iterate `{NT : NomTracker utf8_valid}
    (v4 : list SocketAddrV4) (v6 : list SocketAddrV6) (hs : list ShaHash) (st : list ScrapeStats) :
  Forall (fun s => is_u16 (v4_port s)) v4 -> Forall v6_plain v6 -> Forall is_hash hs -> Forall stats_ok st ->
  peers_iter (PeersV4 (fold_left (flip v4_insert) v4 [])) = Ok (SockV4 <$> v4) /\
  peers_iter (PeersV6 (fold_left (flip v6_insert) v6 [])) = Ok (SockV6 <$> v6) /\
  hashes_iter (fold_left (flip scrape_insert) hs scrape_request_new) = Ok hs /\
  stats_iter (fold_left (flip stats_insert) st scrape_response_new) = Ok st.
Proof.
  intros. split_and!;
    [by apply peers_v4_iter|by apply peers_v6_iter|by apply hashes_iter_inserted|by apply stats_iter_inserted].
Qed.

(** * Witnesses *)

#[local] Existing Instance nom3.
Definition tracker_nom : @NomTracker utf8_valid nom3 := nom3_tracker utf8_valid.
#[local] Existing Instance tracker_nom.

Definition sample_announce : AnnounceRequest :=
  {| ar_info_hash := {| hash := replicate 20 9%Z |}; ar_peer_id := {| hash := replicate 20 8%Z |};
     ar_state := {| downloaded := 5; bytes_left := -1; uploaded := 0; event := Started |};
     ar_ip := ExplicitV4 (Ipv4 10 0 0 1); ar_key := 77; ar_num_want := Specified 30; ar_port := 6881;
     ar_options := {| raw_options := {[ 2%Z := replicate 300 7%Z; 5%Z := [1]%Z ]} |} |}.
Definition sample_request : TrackerRequest :=
  {| rq_connection_id := 12; rq_transaction_id := 34; request_type := RAnnounce sample_announce |}.

Lemma tracker_request_roundtrip_witness :
  let order := [(5, [1]); (2, replicate 300 7)]%Z in
  tracker_parse_request (request_write_bytes order sample_request) = Ok (Done [] sample_request).
Proof.
  intros order. apply (tracker_request_roundtrip sample_request order).
  - unfold request_ok, announce_ok, is_hash, state_ok, source_ok, ipv4_ok. simpl.
    split_and!; try (apply (bool_decide_unpack _); by vm_compute).
  - apply (bool_decide_unpack _). by vm_compute.
Defined.

Definition sample_response : TrackerResponse :=
  {| rs_transaction_id := 34; response_type := SAnnounce {| interval := 1800; leechers := -1; seeders := 3;
       peers := PeersV4 (v4_insert {| v4_ip := Ipv4 10 0 0 1; v4_port := 6881 |} []) |} |}.

Lemma tracker_response_roundtrip_witness :
  tracker_parse_response (tracker_response_write_bytes sample_response) = Done [] sample_response.
Proof.
  apply (tracker_response_roundtrip sample_response).
  unfold response_ok. simpl. split_and!; (apply (bool_decide_unpack _); by vm_compute) || done.
Defined.

Lemma tracker_lists_iterate_witness :
  hashes_iter (fold_left (flip scrape_insert) [{| hash := replicate 20 1%Z |}; {| hash := replicate 20 2%Z |}]
    scrape_request_new) = Ok [{| hash := replicate 20 1%Z |}; {| hash := replicate 20 2%Z |}].
Proof.
  apply (tracker_lists_iterate [] [] [{| hash := replicate 20 1%Z |}; {| hash := replicate 20 2%Z |}]
    [{| st_seeders := 1; st_downloaded := -1; st_leechers := 0 |}]); try constructor;
    try (apply (bool_decide_unpack _); by vm_compute).
Defined.
