(* ===== verification/TrackerServer.v ===== *)
(** TrackerServer: [btp-utracker/src/server/dispatcher.rs], the tracker that
    answers datagrams, and what it promises.

    A turn of the dispatcher takes a datagram and gives the new state and the
    datagrams handed to the sending task.  The connection id that
    [TIDGenerator] produces is an input; the order in which a [HashSet] is
    iterated is the argument [iter_set], of which only that it lists the
    elements is assumed. *)

From stdpp Require Import base list gmap.
From Stdlib Require Import ZArith Lia.
From Stdlib Require String.
From S2P Require Import Prelude Bencode Convert ShaHash Nom Tracker TrackerCorrect.
Import String.StringSyntax.

(** * The dispatcher *)

Definition NUM_PEERS_RETURNED : nat := 20.

Record ServerDispatcher := {
  srv_is_run : bool;
  cids : gset Z;
  peers_map : gmap ShaHash (gset SocketAddr);
}.

Definition server_new : ServerDispatcher := {| srv_is_run := true; cids := ∅; peers_map := ∅ |}.

Definition server_shutdown (s : ServerDispatcher) : ServerDispatcher :=
  {| srv_is_run := false; cids := cids s; peers_map := peers_map s |}.

(** The peers of a torrent, if any. *)
Definition torrent_peers (s : ServerDispatcher) (h : ShaHash) : gset SocketAddr :=
  default ∅ (peers_map s !! h).

Definition set_peers (h : ShaHash) (p : gset SocketAddr) (s : ServerDispatcher) : ServerDispatcher :=
  {| srv_is_run := srv_is_run s; cids := cids s; peers_map := <[h := p]> (peers_map s) |}.

Definition datagram : Type := bytes * SocketAddr.

Definition write_response (r : TrackerResponse) (addr : SocketAddr) : list datagram :=
  [(tracker_response_write_bytes r, addr)].

Definition invalid_connection (trans_id : Z) (addr : SocketAddr) : list datagram :=
  write_response {| rs_transaction_id := trans_id;
                    response_type := SError {| message := ascii_bytes "Connection ID Is Invalid" |} |} addr.

(** Ignores the source ip directive of the request. *)
Definition store_addr (addr : SocketAddr) (port : Z) : SocketAddr :=
  match addr with
  | SockV4 v4_addr => SockV4 {| v4_ip := v4_ip v4_addr; v4_port := port |}
  | SockV6 v6_addr => SockV6 {| v6_ip := v6_ip v6_addr; v6_port := port; flowinfo := 0; scope_id := 0 |}
  end.

Definition as_v4 (a : SocketAddr) : option SocketAddrV4 :=
  match a with SockV4 v4_addr => Some v4_addr | SockV6 _ => None end.
Definition as_v6 (a : SocketAddr) : option SocketAddrV6 :=
  match a with SockV4 _ => None | SockV6 v6_addr => Some v6_addr end.

Section Server.
Variable iter_set : gset SocketAddr -> list SocketAddr.
Context `{NT : NomTracker utf8_valid}.

Definition forward_connect (cid : Z) (trans_id : Z) (addr : SocketAddr) (s : ServerDispatcher)
  : ServerDispatcher * list datagram :=
  ({| srv_is_run := srv_is_run s; cids := {[ cid ]} ∪ cids s; peers_map := peers_map s |},
   write_response {| rs_transaction_id := trans_id; response_type := SConnect cid |} addr).

(** The loops that fill [v4_peers] and [v6_peers]. *)
Definition compact_peers (v4 : bool) (ps : gset SocketAddr) : CompactPeers :=
  if v4
  then PeersV4 (fold_left (flip v4_insert) (take NUM_PEERS_RETURNED (omap as_v4 (iter_set ps))) [])
  else PeersV6 (fold_left (flip v6_insert) (take NUM_PEERS_RETURNED (omap as_v6 (iter_set ps))) []).

Definition forward_announce (trans_id conn_id : Z) (request : AnnounceRequest) (addr : SocketAddr)
    (s : ServerDispatcher) : ServerDispatcher * list datagram :=
  if decide (conn_id ∈ cids s) then
    let ps := torrent_peers s (ar_info_hash request) in
    let stored := store_addr addr (ar_port request) in
    let ps' := match event (ar_state request) with
      | EvNone | Completed | Started => {[ stored ]} ∪ ps
      | Stopped => ps ∖ {[ stored ]}
      end in
    let n := to_i32 (Z.of_nat (size ps')) in
    let msg := SAnnounce {| interval := 1800; leechers := n; seeders := n;
                            peers := compact_peers (is_ipv4 (ar_ip request)) ps' |} in
    (set_peers (ar_info_hash request) ps' s,
     write_response {| rs_transaction_id := trans_id; response_type := msg |} addr)
  else (s, invalid_connection trans_id addr).

(** One turn of the loop over the hashes of a scrape request. *)
Definition scrape_one (acc : ServerDispatcher * ScrapeResponse) (h : ShaHash)
  : ServerDispatcher * ScrapeResponse :=
  let '(s, response) := acc in
  let ps := torrent_peers s h in
  let n := to_i32 (Z.of_nat (size ps)) in
  (set_peers h ps s,
   stats_insert {| st_seeders := n; st_downloaded := 0; st_leechers := n |} response).

Definition forward_scrape (trans_id conn_id : Z) (request : ScrapeRequest) (addr : SocketAddr)
    (s : ServerDispatcher) : outcome unit (ServerDispatcher * list datagram) :=
  if decide (conn_id ∈ cids s) then
    hashes ← hashes_iter request;
    let '(s', response) := fold_left scrape_one hashes (s, scrape_response_new) in
    Ok (s', write_response {| rs_transaction_id := trans_id; response_type := SScrape response |} addr)
  else Ok (s, invalid_connection trans_id addr).

Definition process_request (cid : Z) (request : TrackerRequest) (addr : SocketAddr) (s : ServerDispatcher)
  : outcome unit (ServerDispatcher * list datagram) :=
  let conn_id := rq_connection_id request in
  let trans_id := rq_transaction_id request in
  match request_type request with
  | RConnect =>
      if (conn_id =? CONNECT_ID_PROTOCOL_ID)%Z then Ok (forward_connect cid trans_id addr s) else Ok (s, [])
  | RAnnounce req => Ok (forward_announce trans_id conn_id req addr s)
  | RScrape req => forward_scrape trans_id conn_id req addr s
  end.

Definition incoming_in_handler (cid : Z) (message : bytes) (addr : SocketAddr) (s : ServerDispatcher)
  : outcome unit (ServerDispatcher * list datagram) :=
  r ← tracker_parse_request message;
  match r with
  | Done _ req => process_request cid req addr s
  | _ => Ok (s, [])
  end.

(** What a turn of [run_one] sees: a datagram or the failure of the socket, a
    shutdown command or the end of the command channel. *)
Inductive ServerEvent : Type :=
  | Recv (cid : Z) (message : bytes) (addr : SocketAddr)
  | RecvFailed
  | CmdShutdown
  | CmdClosed.

Definition server_run_one (ev : ServerEvent) (s : ServerDispatcher)
  : outcome unit (ServerDispatcher * list datagram) :=
  match ev with
  | Recv cid message addr => incoming_in_handler cid message addr s
  | RecvFailed | CmdShutdown | CmdClosed => Ok (server_shutdown s, [])
  end.

Fixpoint run_task (evs : list ServerEvent) (s : ServerDispatcher)
  : outcome unit (ServerDispatcher * list datagram) :=
  match evs with
  | [] => Ok (s, [])
  | ev :: evs =>
      if srv_is_run s then
        '(s', out) ← server_run_one ev s;
        '(s'', out') ← run_task evs s';
        Ok (s'', out ++ out')
      else Ok (s, [])
  end.
End Server.

(** * Specification *)

(** An accepted announcement: torrent, address, and whether it is present from
    now on. *)
Definition announcement : Type := ShaHash * SocketAddr * bool.

(** What is known of an address after a sequence of announcements. *)
Definition registered (log : list announcement) (h : ShaHash) (a : SocketAddr) : bool :=
  fold_left (fun b '(h', a', present) => if decide (h' = h /\ a' = a) then present else b) log false.

Record tracker_spec := { issued : gset Z; announced : list announcement; stopped : bool }.

Definition spec_new : tracker_spec := {| issued := ∅; announced := []; stopped := false |}.

Definition is_stop (e : AnnounceEvent) : bool :=
  match e with Stopped => true | EvNone | Completed | Started => false end.

Definition sender_ok (addr : SocketAddr) : Prop :=
  match addr with SockV4 _ => True | SockV6 v => ipv6_ok (v6_ip v) end.

(** What the operating system delivers: bytes, from a well-formed address. *)
Definition server_event_ok (ev : ServerEvent) : Prop :=
  match ev with Recv _ message addr => Forall is_u8 message /\ sender_ok addr | _ => True end.

#[global] Instance ipv6_ok_dec ip : Decision (ipv6_ok ip).
Proof. unfold ipv6_ok. apply _. Defined.
#[global] Instance sender_ok_dec addr : Decision (sender_ok addr).
Proof. destruct addr; simpl; apply _. Defined.
#[global] Instance server_event_ok_dec ev : Decision (server_event_ok ev).
Proof. destruct ev; simpl; apply _. Defined.

Section Spec.
Context `{NT : NomTracker utf8_valid}.

(** A connect request issues an id; an announce with an issued id is noted. *)
Definition spec_request (cid : Z) (r : TrackerRequest) (addr : SocketAddr) (t : tracker_spec) : tracker_spec :=
  match request_type r with
  | RConnect =>
      if (rq_connection_id r =? CONNECT_ID_PROTOCOL_ID)%Z
      then {| issued := {[ cid ]} ∪ issued t; announced := announced t; stopped := stopped t |} else t
  | RAnnounce a =>
      if decide (rq_connection_id r ∈ issued t)
      then {| issued := issued t; stopped := stopped t;
              announced := announced t ++
                [(ar_info_hash a, store_addr addr (ar_port a), negb (is_stop (event (ar_state a))))] |}
      else t
  | RScrape _ => t
  end.

Definition spec_event (t : tracker_spec) (ev : ServerEvent) : tracker_spec :=
  if stopped t then t
  else match ev with
  | Recv cid message addr =>
      match tracker_parse_request message with
      | Ok (Done _ r) => spec_request cid r addr t
      | _ => t
      end
  | _ => {| issued := issued t; announced := announced t; stopped := true |}
  end.

(** The dispatcher [s] implements the specification state [t]. *)
Definition implements (s : ServerDispatcher) (t : tracker_spec) : Prop :=
  cids s = issued t /\ srv_is_run s = negb (stopped t) /\
  forall h a, a ∈ torrent_peers s h <-> registered (announced t) h a = true.

(** Stored addresses are the kind the compact form can carry. *)
Definition peer_ok (a : SocketAddr) : Prop :=
  match a with SockV4 v => is_u16 (v4_port v) | SockV6 v => v6_plain v end.
Definition server_ok (s : ServerDispatcher) : Prop :=
  forall h a, a ∈ torrent_peers s h -> peer_ok a.

(** * Lemmas *)

Lemma registered_snoc log h a h' a' p :
  registered (log ++ [(h', a', p)]) h a = if decide (h' = h /\ a' = a) then p else registered log h a.
Proof. unfold registered. by rewrite fold_left_app. Qed.

Lemma torrent_peers_set s h p h' :
  torrent_peers (set_peers h p s) h' = if decide (h = h') then p else torrent_peers s h'.
Proof.
  unfold torrent_peers, set_peers. simpl. case_decide as Hd.
  - subst. by rewrite lookup_insert_eq.
  - by rewrite lookup_insert_ne.
Qed.

Lemma set_same_peers s h h' : torrent_peers (set_peers h (torrent_peers s h) s) h' = torrent_peers s h'.
Proof. rewrite torrent_peers_set. by case_decide; subst. Qed.

Lemma scrape_keeps hs s r :
  let s' := (fold_left scrape_one hs (s, r)).1 in
  cids s' = cids s /\ srv_is_run s' = srv_is_run s /\ forall h, torrent_peers s' h = torrent_peers s h.
Proof.
  revert s r. induction hs as [|h hs IH]; intros s r; [done|]. cbn [fold_left scrape_one].
  destruct (IH (set_peers h (torrent_peers s h) s) (stats_insert
    {| st_seeders := to_i32 (Z.of_nat (size (torrent_peers s h))); st_downloaded := 0;
       st_leechers := to_i32 (Z.of_nat (size (torrent_peers s h))) |} r)) as (H1 & H2 & H3).
  cbv zeta in *. rewrite H1, H2. split_and!; try done. intros h'. by rewrite H3, set_same_peers.
Qed.

(** ** What a parsed request guarantees *)

Lemma then_parse_inv {O P} (r : IResult bytes O) (f : bytes -> O -> outcome unit (IResult bytes P)) bs i p :
  then_parse r f = Ok (Done i p) -> Forall is_u8 bs -> leaves bs r ->
  exists i' o, r = Done i' o /\ f i' o = Ok (Done i p) /\ Forall is_u8 i'.
Proof.
  intros Ht H8 Hl. destruct r as [i' o| |]; cbn [then_parse] in Ht; try done.
  exists i', o. split_and!; [done|done|]. eapply suffix_u8; [by eapply Hl|done].
Qed.

Lemma be_u32_range bs i z : be_u32 bs = Done i z -> Forall is_u8 bs -> is_u32 z.
Proof.
  intros Hb H8. destruct (Nat.le_gt_cases 4 (length bs)) as [Hn|Hn].
  - rewrite be_u32_done in Hb by done. simplify_eq. apply be_val_u32; [by apply Forall_take|].
    rewrite length_take. lia.
  - destruct (be_u32_short bs) as [k Hk]; [done|]. congruence.
Qed.

Lemma be_u16_range bs i z : be_u16 bs = Done i z -> Forall is_u8 bs -> is_u16 z.
Proof.
  intros Hb H8. destruct (Nat.le_gt_cases 2 (length bs)) as [Hn|Hn].
  - rewrite be_u16_done in Hb by done. simplify_eq. apply be_val_u16; [by apply Forall_take|].
    rewrite length_take. lia.
  - destruct (be_u16_short bs) as [k Hk]; [done|]. congruence.
Qed.

Lemma announce_port v4 bs i a :
  announce_parse_request (if v4 : bool then parse_preference_v4 else parse_preference_v6) bs = Ok (Done i a) ->
  Forall is_u8 bs -> is_u16 (ar_port a).
Proof.
  unfold announce_parse_request. intros Hp H8.
  destruct (parse_hash_total SHA_HASH_LEN bs eq_refl) as (r1 & Hr1 & L1). rewrite Hr1, mbind_ok in Hp.
  eapply then_parse_inv in Hp as (b1 & h1 & _ & Hp & H81); [|done|done].
  destruct (parse_hash_total SHA_HASH_LEN b1 eq_refl) as (r2 & Hr2 & L2). rewrite Hr2, mbind_ok in Hp.
  eapply then_parse_inv in Hp as (b2 & h2 & _ & Hp & H82); [|done|done].
  eapply then_parse_inv in Hp as (b3 & st & _ & Hp & H83); [|done|apply leaves_state].
  eapply then_parse_inv in Hp as (b4 & ip & _ & Hp & H84); [|done|apply leaves_preference].
  eapply then_parse_inv in Hp as (b5 & key & _ & Hp & H85); [|done|apply leaves_be_u32].
  eapply then_parse_inv in Hp as (b6 & want & _ & Hp & H86);
    [|done|unfold parse_desired; apply leaves_map, leaves_be_i32].
  eapply then_parse_inv in Hp as (b7 & port & Hport & Hp & H87); [|done|apply leaves_be_u16].
  apply be_u16_range in Hport; [|done].
  destruct (options_from_bytes b7) as [r| | |]; [rewrite mbind_ok in Hp|done..].
  destruct r; cbn [then_parse] in Hp; by simplify_eq.
Qed.

(** What the handlers rely on. *)
Definition parsed_ok (r : TrackerRequest) : Prop :=
  is_u32 (rq_transaction_id r) /\
  match request_type r with
  | RConnect => True
  | RAnnounce a => is_u16 (ar_port a)
  | RScrape s => exists l, hashes_iter s = Ok l
  end.

Lemma parsed_request bs i r :
  tracker_parse_request bs = Ok (Done i r) -> Forall is_u8 bs -> parsed_ok r.
Proof.
  unfold tracker_parse_request. intros Hp H8.
  eapply then_parse_inv in Hp as (b1 & cid & _ & Hp & H81); [|done|apply leaves_be_u64].
  eapply then_parse_inv in Hp as (b2 & act & _ & Hp & H82); [|done|apply leaves_be_u32].
  eapply then_parse_inv in Hp as (b3 & tid & Ht & Hp & H83); [|done|apply leaves_be_u32].
  apply be_u32_range in Ht; [|done]. case_match; [by simplify_eq|]. case_match.
  { destruct (announce_parse_request parse_preference_v4 b3) as [r'| | |] eqn:Ha; try done.
    rewrite mbind_ok in Hp. destruct r' as [i' a| |]; try done. simplify_eq/=.
    split; [done|]. simpl. by eapply (announce_port true). }
  case_match.
  { destruct (scrape_parse_request b3) as [i' q| |] eqn:Hs; try done. simplify_eq/=.
    split; [done|]. simpl. by eapply parsed_hashes_iter. }
  case_match; [|done].
  destruct (announce_parse_request parse_preference_v6 b3) as [r'| | |] eqn:Ha; try done.
  rewrite mbind_ok in Hp. destruct r' as [i' a| |]; try done. simplify_eq/=.
  split; [done|]. simpl. by eapply (announce_port false).
Qed.

(** ** One turn implements one step of the specification *)

Variable iter_set : gset SocketAddr -> list SocketAddr.

Lemma store_addr_ok addr port : sender_ok addr -> is_u16 port -> peer_ok (store_addr addr port).
Proof. destruct addr as [v|v]; simpl; [done|]. intros. unfold v6_plain. simpl. auto. Qed.

Lemma announce_step trans_id r a addr s t cid :
  request_type r = RAnnounce a -> is_u16 (ar_port a) -> sender_ok addr ->
  implements s t -> server_ok s ->
  let s' := (forward_announce iter_set trans_id (rq_connection_id r) a addr s).1 in
  implements s' (spec_request cid r addr t) /\ server_ok s'.
Proof.
  intros Hr Hport Hs (Hc & Hrun & Hreg) Hok. unfold forward_announce, spec_request.
  rewrite Hr, Hc. case_decide as Hin; [|done]. cbn [fst]. split.
  - split_and!; [done|done|]. intros h a'. cbn [announced].
    rewrite torrent_peers_set, registered_snoc.
    destruct (decide (ar_info_hash a = h)) as [<-|Hne].
    + destruct (event (ar_state a)); cbn [is_stop negb]; case_decide as Hd;
        rewrite ?elem_of_union, ?elem_of_difference, elem_of_singleton, Hreg; naive_solver.
    + rewrite decide_False by naive_solver. apply Hreg.
  - intros h a'. rewrite torrent_peers_set. case_decide; [|apply Hok].
    pose proof (store_addr_ok addr (ar_port a) Hs Hport).
    destruct (event (ar_state a)); rewrite ?elem_of_union, ?elem_of_difference, elem_of_singleton;
      naive_solver.
Qed.

Lemma request_step cid r addr s t :
  parsed_ok r -> sender_ok addr -> implements s t -> server_ok s ->
  exists s' out, process_request iter_set cid r addr s = Ok (s', out) /\
    implements s' (spec_request cid r addr t) /\ server_ok s'.
Proof.
  intros [Ht Hp] Ha Hi Hok. unfold process_request.
  destruct (request_type r) as [|a|q] eqn:Hr.
  - unfold spec_request. rewrite Hr. case_match; [|by eauto].
    eexists _, _. split; [done|]. destruct Hi as (Hc & Hrun & Hreg). split; [|done].
    split_and!; [simpl; by rewrite Hc|done|done].
  - destruct (forward_announce _ _ _ a addr s) as [s' out] eqn:Hf. eexists _, _. split; [done|].
    pose proof (announce_step (rq_transaction_id r) r a addr s t cid) as Hst.
    rewrite Hf in Hst. auto.
  - destruct Hp as [l Hl]. unfold forward_scrape, spec_request. rewrite Hr.
    case_decide; [|by eauto]. rewrite Hl, mbind_ok.
    pose proof (scrape_keeps l s scrape_response_new) as (H1 & H2 & H3).
    destruct (fold_left scrape_one l _) as [s' resp]. cbn [fst] in *.
    eexists _, _. split; [done|]. destruct Hi as (Hc & Hrun & Hreg). split.
    + split_and!; [congruence|congruence|]. intros h a. by rewrite H3.
    + intros h a. rewrite H3. apply Hok.
Qed.

Lemma event_step ev s t :
  server_event_ok ev -> srv_is_run s = true -> implements s t -> server_ok s ->
  exists s' out, server_run_one iter_set ev s = Ok (s', out) /\
    implements s' (spec_event t ev) /\ server_ok s'.
Proof.
  intros Hev Hrun Hi Hok. pose proof Hi as (Hc & Hst & Hreg). rewrite Hrun in Hst.
  unfold spec_event. destruct (stopped t) eqn:Hstop; [done|].
  destruct ev as [cid m addr| | |]; cbn [server_run_one];
    try (eexists _, _; split; [done|]; split; [split_and!; done|done]).
  destruct Hev as [H8 Ha]. unfold incoming_in_handler.
  destruct (request_total m H8) as [res Hres]. rewrite Hres, mbind_ok.
  destruct res as [i r| |]; [|by eauto..]. apply request_step; try done.
  by eapply parsed_request.
Qed.

Lemma run_step evs s t :
  Forall server_event_ok evs -> implements s t -> server_ok s ->
  exists s' out, run_task iter_set evs s = Ok (s', out) /\
    implements s' (fold_left spec_event evs t) /\ server_ok s'.
Proof.
  intros Hev. revert s t. induction Hev as [|ev evs Hev Hevs IH]; intros s t Hi Hok; [by eexists _, _|].
  cbn [run_task fold_left]. destruct (srv_is_run s) eqn:Hrun.
  - destruct (event_step ev s t Hev Hrun Hi Hok) as (s1 & o1 & -> & Hi1 & Hok1). rewrite mbind_ok.
    destruct (IH _ _ Hi1 Hok1) as (s2 & o2 & -> & Hi2 & Hok2). rewrite mbind_ok.
    by eexists _, _.
  - eexists _, _. split; [done|]. pose proof Hi as (_ & Hst & _). rewrite Hrun in Hst.
    assert (Hs : stopped t = true) by (by destruct (stopped t)).
    assert (Hstay : forall l, fold_left spec_event l t = t).
    { induction l as [|e l IHl]; [done|]. cbn [fold_left]. unfold spec_event at 2. by rewrite Hs. }
    assert (spec_event t ev = t) as -> by (unfold spec_event; by rewrite Hs). by rewrite Hstay.
Qed.

Lemma new_implements : implements server_new spec_new /\ server_ok server_new.
Proof.
  assert (Hno : forall h a, a ∉ torrent_peers server_new h).
  { intros h a. unfold torrent_peers, server_new. simpl. rewrite lookup_empty. set_solver. }
  split; [split_and!; [done|done|]|].
  - intros h a. split; [by intros ?%Hno|done].
  - by intros h a ?%Hno.
Qed.
End Spec.

(** ** The peers in an answer *)

Section Answer.
Variable iter_set : gset SocketAddr -> list SocketAddr.
Hypothesis iter_set_elements : forall X, iter_set X ≡ₚ elements X.
Context `{NT : NomTracker utf8_valid}.

Definition of_family (v4 : bool) (a : SocketAddr) : bool :=
  match a with SockV4 _ => v4 | SockV6 _ => negb v4 end.

(** The addresses of [ps] of the wanted family. *)
Definition family (v4 : bool) (ps : gset SocketAddr) : list SocketAddr :=
  filter (fun a => of_family v4 a = true) (iter_set ps).

Lemma omap_v4 (l : list SocketAddr) : SockV4 <$> omap as_v4 l = filter (fun a => of_family true a = true) l.
Proof.
  induction l as [|[v|v] l IH]; [done| |]; simpl; rewrite ?filter_cons; simpl;
    rewrite <- IH; done.
Qed.

Lemma omap_v6 (l : list SocketAddr) : SockV6 <$> omap as_v6 l = filter (fun a => of_family false a = true) l.
Proof.
  induction l as [|[v|v] l IH]; [done| |]; simpl; rewrite ?filter_cons; simpl;
    rewrite <- IH; done.
Qed.

Lemma compact_peers_iter v4 ps :
  (forall a, a ∈ ps -> peer_ok a) ->
  peers_iter (compact_peers iter_set v4 ps) = Ok (take NUM_PEERS_RETURNED (family v4 ps)).
Proof.
  intros Hok. assert (Hit : forall a, a ∈ iter_set ps -> peer_ok a).
  { intros a. rewrite iter_set_elements, elem_of_elements. apply Hok. }
  unfold compact_peers, family. destruct v4.
  - rewrite peers_v4_iter; [by rewrite fmap_take, omap_v4|].
    apply Forall_take, Forall_forall. intros v (a & Ha & Hv)%list_elem_of_omap.
    apply Hit in Ha. by destruct a; simplify_eq/=.
  - rewrite peers_v6_iter; [by rewrite fmap_take, omap_v6|].
    apply Forall_take, Forall_forall. intros v (a & Ha & Hv)%list_elem_of_omap.
    apply Hit in Ha. by destruct a; simplify_eq/=.
Qed.

Lemma family_spec v4 ps :
  NoDup (family v4 ps) /\ forall a, a ∈ family v4 ps <-> a ∈ ps /\ of_family v4 a = true.
Proof.
  unfold family. split.
  - apply NoDup_filter. rewrite iter_set_elements. apply NoDup_elements.
  - intros a. rewrite list_elem_of_filter, iter_set_elements, elem_of_elements. tauto.
Qed.

Lemma compact_peers_ok v4 ps : peers_ok (compact_peers iter_set v4 ps).
Proof.
  unfold compact_peers. destruct v4; cbn [peers_ok]; unfold v4_insert, v6_insert, flip.
  - rewrite (fold_insert sock_v4_to_bytes_be). cbn [app].
    rewrite (length_encode_all _ 6) by (apply Forall_true; intros; apply length_sock_v4_bytes).
    unfold SOCKET_ADDR_V4_BYTES. rewrite Nat.mul_comm. apply Nat.Div0.mod_mul.
  - rewrite (fold_insert sock_v6_to_bytes_be). cbn [app].
    rewrite (length_encode_all _ 18) by (apply Forall_true; intros; apply length_sock_v6_bytes).
    unfold SOCKET_ADDR_V6_BYTES. rewrite Nat.mul_comm. apply Nat.Div0.mod_mul.
Qed.
End Answer.

(** * Theorems *)

(** C8. On any sequence of datagrams and commands the dispatcher answers
    without panicking, and its state is what the specification says: the
    connection ids in force are those it has issued, and an address is among a
    torrent's peers exactly if the last announce it made for the torrent with
    an issued connection id was not a stop. Scrapes, unparsable datagrams and
    requests with other connection ids change nothing. *)
Theorem server_tracks_announces `{NT : NomTracker utf8_valid}
    (iter_set : gset SocketAddr -> list SocketAddr) (evs : list ServerEvent) :
  Forall server_event_ok evs ->
  exists s out, run_task iter_set evs server_new = Ok (s, out) /\
    let t := fold_left spec_event evs spec_new in
    cids s = issued t /\ srv_is_run s = negb (stopped t) /\
    forall h a, a ∈ torrent_peers s h <-> registered (announced t) h a = true.
Proof.
  intros Hev. destruct new_implements as [Hi Hok].
  destruct (run_step iter_set evs server_new spec_new Hev Hi Hok) as (s & out & Hr & Hi' & _).
  by exists s, out.
Qed.

(** The answer to an announce: with a connection id that was not issued
    it is the error message and nothing changes; otherwise it can be parsed,
    reports the number of peers the torrent now has, and lists at most twenty
    of them, without repetition, all of the address family asked for, and all
    of that family when there are no more than twenty. *)
Theorem announce_answer `{NT : NomTracker utf8_valid}
    (iter_set : gset SocketAddr -> list SocketAddr) (s : ServerDispatcher) (a : AnnounceRequest)
    (trans_id conn_id : Z) (addr : SocketAddr) :
  (forall X, iter_set X ≡ₚ elements X) ->
  server_ok s -> is_u32 trans_id -> is_u16 (ar_port a) -> sender_ok addr ->
  let '(s', out) := forward_announce iter_set trans_id conn_id a addr s in
  exists reply, out = [(reply, addr)] /\
  if decide (conn_id ∈ cids s) then
    exists res l, tracker_parse_response reply
      = Done [] {| rs_transaction_id := trans_id; response_type := SAnnounce res |} /\
      let now := torrent_peers s' (ar_info_hash a) in
      seeders res = to_i32 (Z.of_nat (size now)) /\ peers_iter (peers res) = Ok l /\
      NoDup l /\ length l <= 20 /\
      (forall x, x ∈ l -> x ∈ now /\ of_family (is_ipv4 (ar_ip a)) x = true) /\
      (length l < 20 -> forall x, x ∈ now -> of_family (is_ipv4 (ar_ip a)) x = true -> x ∈ l)
  else s' = s /\ tracker_parse_response reply
      = Done [] {| rs_transaction_id := trans_id;
                   response_type := SError {| message := ascii_bytes "Connection ID Is Invalid" |} |}.
Proof.
  intros Hiter Hok Ht Hport Hs. unfold forward_announce. case_decide as Hin.
  2:{ eexists. split; [done|]. split; [done|]. apply response_read_back. split; [done|]. by vm_compute. }
  eexists. split; [done|]. set (ps := match event (ar_state a) with Stopped => _ | _ => _ end).
  assert (Hps : forall x, x ∈ ps -> peer_ok x).
  { pose proof (store_addr_ok addr (ar_port a) Hs Hport) as Hstore. intros x. unfold ps.
    destruct (event (ar_state a)); rewrite ?elem_of_union, ?elem_of_difference, elem_of_singleton;
      intros Hx; destruct_and?; destruct_or?; subst; eauto. }
  eexists _, _. split; [apply response_read_back; split; [done|]|].
  - cbn [response_type interval leechers seeders peers]. split_and!;
      [done|apply to_i32_range|apply to_i32_range|apply compact_peers_ok].
  - cbn [interval leechers seeders peers]. cbv zeta. rewrite torrent_peers_set, decide_True by done.
    split; [done|]. split; [by apply compact_peers_iter|].
    destruct (family_spec iter_set Hiter (is_ipv4 (ar_ip a)) ps) as [Hnd Hel].
    split_and!.
    + rewrite <- (take_drop NUM_PEERS_RETURNED) in Hnd. by apply NoDup_app in Hnd as [? _].
    + rewrite length_take. unfold NUM_PEERS_RETURNED. lia.
    + intros x Hx. apply Hel. rewrite <- (take_drop NUM_PEERS_RETURNED). apply elem_of_app. by left.
    + rewrite length_take. unfold NUM_PEERS_RETURNED. intros Hlt x Hx Hf.
      rewrite take_ge by lia. by apply Hel.
Qed.

(** * Witnesses *)

#[local] Existing Instance nom3.
#[local] Existing Instance tracker_nom.

Definition sample_sender : SocketAddr := SockV4 {| v4_ip := Ipv4 10 0 0 9; v4_port := 5000 |}.
(** A connect, an announce with the issued id, and one with a made-up id. *)
Definition sample_events : list ServerEvent :=
  let announce cid := request_write_bytes [(5, [1]); (2, replicate 300 7)]%Z
    {| rq_connection_id := cid; rq_transaction_id := 2; request_type := RAnnounce sample_announce |} in
  [Recv 42 (request_write_bytes [] {| rq_connection_id := CONNECT_ID_PROTOCOL_ID; rq_transaction_id := 1;
                                      request_type := RConnect |}) sample_sender;
   Recv 43 (announce 42%Z) sample_sender;
   Recv 44 (announce 41%Z) (SockV4 {| v4_ip := Ipv4 10 0 0 8; v4_port := 5000 |})].

Lemma server_tracks_announces_witness :
  exists s out, run_task elements sample_events server_new = Ok (s, out) /\
    let t := fold_left spec_event sample_events spec_new in
    cids s = issued t /\ srv_is_run s = negb (stopped t) /\
    forall h a, a ∈ torrent_peers s h <-> registered (announced t) h a = true.
Proof.
  apply (server_tracks_announces elements sample_events).
  apply (bool_decide_unpack _). by vm_compute.
Defined.

(** What the run above leaves: one peer, at the sender's address and the
    announced port. *)
Example sample_run_peers :
  match run_task elements sample_events server_new with
  | Ok (s, out) => elements (torrent_peers s (ar_info_hash sample_announce))
      = [SockV4 {| v4_ip := Ipv4 10 0 0 9; v4_port := 6881 |}] /\ length out = 3
  | _ => False
  end.
Proof. vm_compute. done. Qed.

Lemma announce_answer_witness :
  let s := {| srv_is_run := true; cids := {[ 42%Z ]}; peers_map := ∅ |} in
  let '(s', out) := forward_announce elements 7 42 sample_announce sample_sender s in
  exists reply, out = [(reply, sample_sender)] /\
    exists res l, tracker_parse_response reply
      = Done [] {| rs_transaction_id := 7; response_type := SAnnounce res |} /\
      peers_iter (peers res) = Ok l /\ length l <= 20.
Proof.
  intros s.
  pose proof (announce_answer elements s sample_announce 7 42 sample_sender) as Hans.
  destruct (forward_announce elements 7 42 sample_announce sample_sender s) as [s' out].
  destruct Hans as (reply & Ho & Hrest).
  - done.
  - intros h a. unfold torrent_peers. simpl. rewrite lookup_empty. simpl. set_solver.
  - done.
  - done.
  - done.
  - exists reply. split; [exact Ho|]. rewrite decide_True in Hrest by (simpl; set_solver).
    destruct Hrest as (res & l & Hp & _ & Hi & _ & Hl & _). exists res, l. auto.
Defined.
