(* ===== verification/Timer.v ===== *)
(** Timer: [btp-util/src/timer.rs], the queue of timeouts that the tracker
    client and the DHT worker poll, and its refinement of one sorted map.

    Instants are integers.  The sleep of the current entry is ready once its
    deadline has been reached; [now] is the time of the poll. *)

From stdpp Require Import base list.
From Stdlib Require Import ZArith Lia.
From S2P Require Import Prelude OrdMap.

(** [struct Timeout]: deadline and id, ordered in this order. *)
Notation Timeout := (Z * Z)%type.

Record Timer (T : Type) := {
  next_id : Z;
  current : option (Timeout * T);
  queue : list (Timeout * T);
}.
Arguments next_id {T} _.
Arguments current {T} _.
Arguments queue {T} _.
Arguments Build_Timer {T} _ _ _.

Inductive Poll (T : Type) : Type := Ready (v : option T) | Pending.
Arguments Ready {T} _.
Arguments Pending {T}.

Section Timer.
Context {T : Type}.
Implicit Types (t : Timer T) (v : T) (k : Timeout).

Definition timer_new : Timer T := {| next_id := 0; current := None; queue := [] |}.

Definition timer_is_empty t : bool :=
  match current t, queue t with None, [] => true | _, _ => false end.

(** [next_id]: the id handed out and the counter after it. *)
Definition take_id t : Z * Z := (next_id t, to_u64 (next_id t + 1)).

Definition schedule_at (deadline : Z) v t : Timeout * Timer T :=
  let '(cur, q) := match current t with
    | Some (key, cv) =>
        if (deadline <? key.1)%Z then (None, btree_insert key cv (queue t)) else (current t, queue t)
    | None => (current t, queue t)
    end in
  let '(id, next) := take_id t in
  let key := (deadline, id) in
  (key, {| next_id := next; current := cur; queue := btree_insert key v q |}).

Definition schedule_in (now duration : Z) v t : Timeout * Timer T :=
  schedule_at (now + duration) v t.

Definition cancel (timeout : Timeout) t : bool * Timer T :=
  let from_queue :=
    (bool_decide (is_Some (btree_get timeout (queue t))),
     {| next_id := next_id t; current := current t; queue := btree_remove timeout (queue t) |}) in
  match current t with
  | Some (key, _) =>
      if decide (key = timeout)
      then (true, {| next_id := next_id t; current := None; queue := queue t |})
      else from_queue
  | None => from_queue
  end.

(** Polling the sleep of the current entry. *)
Definition poll_current (now : Z) (key : Timeout) v t : Poll T * Timer T :=
  if (key.1 <=? now)%Z
  then (Ready (Some v), {| next_id := next_id t; current := None; queue := queue t |})
  else (Pending, t).

(** The loop of [poll_next] goes round a second time exactly when it has made
    the first entry of the queue the current one. *)
Definition poll_next (now : Z) t : Poll T * Timer T :=
  match current t with
  | Some (key, v) => poll_current now key v t
  | None =>
      match queue t with
      | [] => (Ready None, t)
      | (key, v) :: q =>
          poll_current now key v {| next_id := next_id t; current := Some (key, v); queue := q |}
      end
  end.

(** * Specification: a sorted map *)

(** The pending timeouts, earliest first. *)
Definition contents t : list (Timeout * T) := option_list (current t) ++ queue t.

Definition timer_ok t : Prop :=
  ordered (contents t) /\ Forall (fun e => e.1.2 < next_id t)%Z (contents t) /\ (0 <= next_id t)%Z.

Inductive timer_op : Type := Schedule (deadline : Z) (v : T) | Cancel (k : Timeout) | PollAt (now : Z).
Inductive timer_obs : Type := Key (k : Timeout) | Cancelled (b : bool) | Polled (p : Poll T) (empty : bool).

Definition timer_step t (op : timer_op) : timer_obs * Timer T :=
  match op with
  | Schedule deadline v => let '(k, t') := schedule_at deadline v t in (Key k, t')
  | Cancel k => let '(b, t') := cancel k t in (Cancelled b, t')
  | PollAt now => let '(p, t') := poll_next now t in (Polled p (timer_is_empty t'), t')
  end.

(** The same operations on a counter and a sorted map. *)
Definition map_step (s : Z * list (Timeout * T)) (op : timer_op) : timer_obs * (Z * list (Timeout * T)) :=
  let '(n, m) := s in
  match op with
  | Schedule deadline v => (Key (deadline, n), ((n + 1)%Z, btree_insert (deadline, n) v m))
  | Cancel k => (Cancelled (bool_decide (is_Some (btree_get k m))), (n, btree_remove k m))
  | PollAt now =>
      match m with
      | [] => (Polled (Ready None) true, s)
      | (k, v) :: m' =>
          if (k.1 <=? now)%Z then (Polled (Ready (Some v)) (bool_decide (m' = [])), (n, m'))
          else (Polled Pending false, s)
      end
  end.

Fixpoint observe {S} (step : S -> timer_op -> timer_obs * S) (ops : list timer_op) (s : S) : list timer_obs :=
  match ops with
  | [] => []
  | op :: ops => let '(o, s') := step s op in o :: observe step ops s'
  end.

(** * Lemmas *)

Lemma remove_below k (m : list (Timeout * T)) :
  Forall (fun e => kcmp k e.1 = Lt) m -> btree_remove k m = m.
Proof. destruct 1 as [|[k' v'] m Hk Hm]; [done|]. simpl in *. by rewrite Hk. Qed.

Lemma insert_below k v (m : list (Timeout * T)) :
  Forall (fun e => kcmp k e.1 = Lt) m -> btree_insert k v m = (k, v) :: m.
Proof. destruct 1 as [|[k' v'] m Hk Hm]; [done|]. simpl in *. by rewrite Hk. Qed.

Lemma get_fresh k (m : list (Timeout * T)) :
  ordered m -> Forall (fun e => e.1.2 < k.2)%Z m -> btree_get k m = None.
Proof.
  intros Ho Hm. destruct (btree_get k m) as [v|] eqn:Hg; [|done].
  apply btree_get_Some in Hg; [|done]. rewrite Forall_forall in Hm. apply Hm in Hg. simpl in Hg. lia.
Qed.

Lemma contents_current t k v q :
  ordered (contents t) -> current t = Some (k, v) -> queue t = q ->
  Forall (fun e => kcmp k e.1 = Lt) q /\ ordered q /\ contents t = (k, v) :: q.
Proof.
  unfold contents. intros Ho Hc <-. rewrite Hc in Ho |- *. simpl in *.
  by apply ordered_cons in Ho as [? ?].
Qed.

Lemma schedule_spec deadline v t :
  timer_ok t -> (next_id t + 1 < 18446744073709551616)%Z ->
  let '(k, t') := schedule_at deadline v t in
  k = (deadline, next_id t) /\ contents t' = btree_insert k v (contents t) /\
  btree_get k (contents t) = None /\ next_id t' = (next_id t + 1)%Z /\ timer_ok t'.
Proof.
  intros (Ho & Hid & Hn) Hb.
  enough (Hmain : let '(k, t') := schedule_at deadline v t in
    k = (deadline, next_id t) /\ contents t' = btree_insert k v (contents t) /\
    next_id t' = (next_id t + 1)%Z).
  { destruct (schedule_at deadline v t) as [k t']. destruct Hmain as (-> & Hc & Hnext).
    split_and!; try done; [by apply get_fresh|]. unfold timer_ok. rewrite Hc, Hnext. split_and!; [|..|lia].
    - by apply btree_insert_ordered.
    - apply btree_insert_Forall; [|simpl; lia]. eapply Forall_impl; [exact Hid|]. simpl. intros. lia. }
  assert (Hnx : to_u64 (next_id t + 1) = (next_id t + 1)%Z) by (apply Z.mod_small; lia).
  unfold schedule_at. destruct (current t) as [[ck cv]|] eqn:Hc.
  - destruct (contents_current t ck cv (queue t)) as (Hlt & Hq & Hcont); [done..|].
    destruct (Z.ltb_spec deadline ck.1) as [Hd|Hd]; simpl; split_and!; try done.
    + unfold contents at 1. simpl. rewrite Hcont. by rewrite (insert_below ck).
    + rewrite Hcont. unfold contents. simpl. rewrite ?Hc. simpl.
      assert (kcmp (deadline, next_id t) ck = Gt) as ->; [|done].
      apply kcmp_gt. apply pair_cmp_Lt. simpl. rewrite Hcont in Hid.
      apply Forall_cons in Hid as [Hid _]. simpl in Hid. lia.
  - simpl. split_and!; try done. unfold contents. simpl. by rewrite Hc.
Qed.

Lemma cancel_spec k t :
  ordered (contents t) ->
  (cancel k t).1 = bool_decide (is_Some (btree_get k (contents t))) /\
  contents (cancel k t).2 = btree_remove k (contents t) /\ next_id (cancel k t).2 = next_id t.
Proof.
  intros Ho. unfold cancel. destruct (current t) as [[ck cv]|] eqn:Hc.
  - destruct (contents_current t ck cv (queue t)) as (Hlt & Hq & Hcont); [done..|].
    rewrite Hcont. cbn [btree_get btree_remove]. case_decide as Hd.
    + subst. rewrite kcmp_refl. cbn [fst snd]. split_and!; [|done|done].
      by rewrite bool_decide_eq_true_2 by (by eexists).
    + unfold contents. simpl. destruct (kcmp k ck) eqn:Hk.
      * apply kcmp_eq in Hk. congruence.
      * assert (Hall : Forall (fun e => kcmp k e.1 = Lt) (queue t)).
        { eapply Forall_impl; [exact Hlt|]. simpl. intros e He. by eapply kcmp_trans. }
        rewrite (btree_get_below k) by done. by rewrite remove_below.
      * done.
  - unfold contents. simpl. by rewrite Hc.
Qed.

Lemma cancel_ok k t : timer_ok t -> timer_ok (cancel k t).2.
Proof.
  intros (Ho & Hid & Hn). destruct (cancel_spec k t Ho) as (_ & Hc & Hnx).
  unfold timer_ok. rewrite Hc, Hnx. split_and!; [by apply btree_remove_ordered| |done].
  apply Forall_forall. intros e He. rewrite Forall_forall in Hid. apply Hid.
  destruct e as [k' v']. apply btree_get_Some; [done|].
  assert (Hr : btree_get k' (btree_remove k (contents t)) = Some v').
  { apply btree_get_Some; [by apply btree_remove_ordered|done]. }
  destruct (decide (k' = k)) as [->|Hne]; [by rewrite btree_get_remove_eq in Hr|].
  by rewrite btree_get_remove_ne in Hr.
Qed.

Lemma poll_spec now t :
  match contents t with
  | [] => poll_next now t = (Ready None, t)
  | (k, v) :: rest =>
      if (k.1 <=? now)%Z
      then exists t', poll_next now t = (Ready (Some v), t') /\ contents t' = rest /\ next_id t' = next_id t
      else exists t', poll_next now t = (Pending, t') /\ contents t' = contents t /\ next_id t' = next_id t
  end.
Proof.
  unfold poll_next, poll_current, contents. destruct (current t) as [[ck cv]|] eqn:Hc; simpl.
  - destruct (ck.1 <=? now)%Z; eexists; (split; [done|]); simpl; [done|]. by rewrite Hc.
  - destruct (queue t) as [|[k v] q] eqn:Hq; [done|].
    destruct (k.1 <=? now)%Z; eexists; (split; [done|]); simpl; done.
Qed.

Lemma poll_ok now t : timer_ok t -> timer_ok (poll_next now t).2.
Proof.
  intros (Ho & Hid & Hn). pose proof (poll_spec now t) as Hp. unfold timer_ok.
  destruct (contents t) as [|[k v] rest] eqn:Hc; [rewrite Hp; cbn [snd]; by rewrite Hc|].
  apply ordered_cons in Ho as [? ?]. apply Forall_cons in Hid as [? ?].
  destruct (k.1 <=? now)%Z; destruct Hp as (t' & -> & Ht & Hnx); cbn [snd]; rewrite Ht, Hnx;
    split_and!; try done; [by apply ordered_cons|by constructor].
Qed.

Lemma is_empty_contents t : timer_is_empty t = bool_decide (contents t = []).
Proof. unfold timer_is_empty, contents. by destruct (current t), (queue t). Qed.

(** ** One operation *)
Lemma step_refines t op :
  timer_ok t -> (next_id t + 1 < 18446744073709551616)%Z ->
  let '(o, t') := timer_step t op in
  map_step (next_id t, contents t) op = (o, (next_id t', contents t')) /\ timer_ok t' /\
  (next_id t' <= next_id t + 1)%Z.
Proof.
  intros Hok Hb. destruct op as [d v|k|now]; cbn [timer_step map_step].
  - pose proof (schedule_spec d v t Hok Hb) as Hs.
    destruct (schedule_at d v t) as [k t']. destruct Hs as (-> & -> & _ & -> & Ht). split_and!; [done|done|lia].
  - pose proof Hok as (Ho & _ & _). pose proof (cancel_spec k t Ho) as (H1 & H2 & H3).
    pose proof (cancel_ok k t Hok) as H4.
    destruct (cancel k t) as [b t']. simpl in *. subst. rewrite H2, H3. split_and!; [done|done|lia].
  - pose proof (poll_spec now t) as Hp. pose proof (poll_ok now t Hok) as Hok'.
    destruct (contents t) as [|[k v] rest] eqn:Hc.
    + rewrite Hp in *. rewrite is_empty_contents, Hc. split_and!; [done|done|lia].
    + destruct (k.1 <=? now)%Z; destruct Hp as (t' & Heq & Ht & Hnx); rewrite Heq in *;
        rewrite is_empty_contents, Ht, Hnx; (split_and!; [done|done|lia]).
Qed.
End Timer.

Arguments timer_op : clear implicits.
Arguments timer_obs : clear implicits.

(** * Theorem *)

(** C28. The timer behaves as one sorted map from deadlines to values, as long
    as its 64-bit id counter does not wrap: the split into a current entry and
    a queue never shows. In particular a poll yields the earliest pending
    timeout, in order of scheduling among equal deadlines, as soon as its
    deadline has passed and never before, and cancelling removes exactly the
    given timeout and says whether it was still pending. *)
Theorem timer_refines_sorted_map {T} (ops : list (timer_op T)) :
  (Z.of_nat (length ops) < 18446744073709551616)%Z ->
  observe timer_step ops timer_new = observe map_step ops (0%Z, []).
Proof.
  intros Hlen.
  enough (Hgen : forall t, timer_ok t -> (next_id t + Z.of_nat (length ops) < 18446744073709551616)%Z ->
    observe timer_step ops t = observe map_step ops (next_id t, contents t)).
  { apply (Hgen timer_new); [|simpl; lia]. split_and!; [constructor|constructor|done]. }
  clear Hlen. induction ops as [|op ops IH]; intros t Hok Hb; [done|].
  cbn [length] in Hb. cbn [observe]. pose proof (step_refines t op Hok) as Hs.
  destruct (timer_step t op) as [o t']. destruct Hs as (-> & Hok' & Hn); [lia|].
  f_equal. apply IH; [done|lia].
Qed.

Lemma timer_refines_sorted_map_witness :
  let ops := [Schedule 10 1; Schedule 5 2; PollAt 7; Schedule 3 3; Cancel (10, 0)%Z; PollAt 4; PollAt 4]%Z in
  observe timer_step ops timer_new = observe map_step ops (0%Z, []).
Proof. intros ops. apply (timer_refines_sorted_map ops). simpl. lia. Defined.
