(* ===== verification/Contiguous.v ===== *)
(** Contiguous: [btp-util/src/contiguous.rs], buffers that do not reallocate, and
    many of them behind one interface.

    [ContiguousBuffer] is the trait; a read is the list of the slices that it
    passes to its closure.  The laws of the trait say that a buffer is a list with a
    fixed capacity.  [ContiguousBuffers] keeps them as long as only its last
    used part has room: a buffer with data that is packed behind one with room
    makes the next write land in front of that data. *)

From stdpp Require Import base list.
From Stdlib Require Import ZArith Lia.
From S2P Require Import Prelude.

(** A write panics on too much data. *)
Class ContiguousBuffer (B I : Type) := {
  cb_capacity : B -> nat;
  cb_length : B -> nat;
  cb_clear : B -> B;
  cb_write : list I -> B -> outcome Empty_set B;
  cb_read : B -> list (list I);
}.

(** ** [Vec<T>] *)

Record Vec (I : Type) := { vec_items : list I; vec_capacity : nat }.
Arguments vec_items {I} _.
Arguments vec_capacity {I} _.

Definition Vec_with_capacity {I} (n : nat) : Vec I := {| vec_items := []; vec_capacity := n |}.

Definition vec_write {I} (data : list I) (v : Vec I) : outcome Empty_set (Vec I) :=
  let available_space := vec_capacity v - length (vec_items v) in
  if available_space <? length data then Panic
  else Ok {| vec_items := vec_items v ++ data; vec_capacity := vec_capacity v |}.

#[export] Instance Vec_buffer I : ContiguousBuffer (Vec I) I := {|
  cb_capacity := vec_capacity;
  cb_length v := length (vec_items v);
  cb_clear v := {| vec_items := []; vec_capacity := vec_capacity v |};
  cb_write := vec_write;
  cb_read v := if 0 <? length (vec_items v) then [vec_items v] else [];
|}.

(** ** [ContiguousBuffers] *)

Record ContiguousBuffers (B : Type) := { buffers : list B }.
Arguments buffers {B} _.
Arguments Build_ContiguousBuffers {B} _.

Definition Buffers_new {B} : ContiguousBuffers B := {| buffers := [] |}.
Definition with_buffer {B} (b : B) : ContiguousBuffers B := {| buffers := [b] |}.
Definition pack {B} (more c : ContiguousBuffers B) : ContiguousBuffers B := {| buffers := buffers c ++ buffers more |}.
(** The values that [accept] is called with. *)
Definition unpack {B} (c : ContiguousBuffers B) : list (ContiguousBuffers B) := with_buffer <$> buffers c.

Section Buffers.
Context {B I : Type} `{ContiguousBuffer B I}.

Definition total (f : B -> nat) (l : list B) : nat := foldr (fun b n => f b + n) 0 l.

(** The loop of [write] over the buffers that are left. *)
Fixpoint write_loop (data : list I) (bytes_written : nat) (l : list B) : outcome Empty_set (list B * nat) :=
  match l with
  | [] => Ok ([], bytes_written)
  | b :: l' =>
      if bytes_written =? length data then Ok (l, bytes_written) else
      let available_capacity := cb_capacity b - cb_length b in
      let amount_to_write := available_capacity `min` (length data - bytes_written) in
      chunk ← slice data bytes_written (bytes_written + amount_to_write);
      b' ← cb_write chunk b;
      '(rest, written) ← write_loop data (bytes_written + amount_to_write) l';
      Ok (b' :: rest, written)
  end.

Definition buffers_write (data : list I) (c : ContiguousBuffers B) : outcome Empty_set (ContiguousBuffers B) :=
  '(l, bytes_written) ← write_loop data 0 (buffers c);
  if bytes_written =? length data then Ok {| buffers := l |} else Panic.

#[export] Instance Buffers_buffer : ContiguousBuffer (ContiguousBuffers B) I := {|
  cb_capacity c := total cb_capacity (buffers c);
  cb_length c := total cb_length (buffers c);
  cb_clear c := {| buffers := cb_clear <$> buffers c |};
  cb_write := buffers_write;
  cb_read c := mjoin (cb_read <$> buffers c);
|}.
End Buffers.

(** * The laws of the trait *)

Definition contents {B I} `{ContiguousBuffer B I} (b : B) : list I := mjoin (cb_read b).

Class BufferLaws (B I : Type) `{ContiguousBuffer B I} := {
  filled : B -> Prop;
  filled_room b : filled b -> cb_length b = length (contents b) /\ length (contents b) <= cb_capacity b;
  filled_slices b : filled b -> Forall (fun s => s <> []) (cb_read b);
  filled_clear b : filled b -> filled (cb_clear b) /\ contents (cb_clear b) = [] /\ cb_capacity (cb_clear b) = cb_capacity b;
  filled_write b data : filled b -> length data <= cb_capacity b - cb_length b ->
    exists b', cb_write data b = Ok b' /\ filled b' /\ contents b' = contents b ++ data /\ cb_capacity b' = cb_capacity b;
  filled_overflow b data : filled b -> cb_capacity b - cb_length b < length data -> cb_write data b = Panic;
}.

#[export] Program Instance Vec_laws I : BufferLaws (Vec I) I := {| filled v := length (vec_items v) <= vec_capacity v |}.
Next Obligation. intros I v Hv. unfold contents. cbn. destruct v as [[|x l] n]; cbn in *; rewrite ?app_nil_r; cbn; lia. Qed.
Next Obligation. intros I [[|x l] n] Hv; cbn; [constructor|]. by apply Forall_singleton. Qed.
Next Obligation. intros I v Hv. unfold contents. cbn. split; [lia|done]. Qed.
Next Obligation.
  intros I v data Hv Hl. cbn in *. unfold vec_write. destruct (Nat.ltb_spec (vec_capacity v - length (vec_items v)) (length data)); [lia|].
  eexists. split_and!; [done|cbn; rewrite length_app; lia| |done]. unfold contents. cbn. destruct v as [[|x l] n], data as [|y data]; cbn; by rewrite ?app_nil_r.
Qed.
Next Obligation. intros I v data Hv Hl. cbn in *. unfold vec_write. by destruct (Nat.ltb_spec (vec_capacity v - length (vec_items v)) (length data)); [|lia]. Qed.

(** * Many buffers as one *)

Section Laws.
Context {B I : Type} `{BufferLaws B I}.

(** Only the last used buffer has room. *)
Fixpoint packed (l : list B) : Prop :=
  match l with
  | [] => True
  | b :: l' => (length (contents b) = cb_capacity b \/ Forall (fun b' => contents b' = []) l') /\ packed l'
  end.

Definition data_of (l : list B) : list I := mjoin (contents <$> l).

Lemma data_of_cons b l : data_of (b :: l) = contents b ++ data_of l.
Proof. done. Qed.
Lemma data_of_empty l : Forall (fun b => contents b = []) l -> data_of l = [].
Proof. induction 1 as [|b l Hb _ IH]; [done|]. by rewrite data_of_cons, Hb, IH. Qed.
Lemma data_of_reads l : mjoin (mjoin (cb_read <$> l)) = data_of l.
Proof. induction l as [|b l IH]; [done|]. rewrite data_of_cons, <- IH. cbn. rewrite join_app. done. Qed.

Lemma total_length l : Forall filled l -> total cb_length l = length (data_of l) /\ length (data_of l) <= total cb_capacity l.
Proof.
  induction 1 as [|b l Hb _ IH]; [done|]. rewrite data_of_cons, length_app. destruct (filled_room b Hb) as [E Hle].
  unfold total in *. cbn [foldr]. lia.
Qed.

Lemma write_loop_done data l : write_loop data (length data) l = Ok (l, length data).
Proof. destruct l; cbn; [done|]. by rewrite Nat.eqb_refl. Qed.

Lemma write_loop_fills data written l : Forall filled l -> packed l -> written <= length data ->
  let amount := (length data - written) `min` (total cb_capacity l - total cb_length l) in
  exists l', write_loop data written l = Ok (l', written + amount) /\ Forall filled l' /\ packed l' /\
    data_of l' = data_of l ++ take amount (drop written data) /\ total cb_capacity l' = total cb_capacity l.
Proof.
  intros Hf. revert written. induction Hf as [|b l Hb Hf IH]; intros written Hp Hw amount.
  { exists []. subst amount. cbn. rewrite Nat.min_0_r, Nat.add_0_r. done. }
  destruct Hp as [Hp Hpl]. destruct (decide (written = length data)) as [->|Hne].
  { exists (b :: l). subst amount. rewrite Nat.sub_diag, write_loop_done, Nat.add_0_r. cbn [take Nat.min]. rewrite app_nil_r. split_and!; try done. by constructor. }
  destruct (filled_room b Hb) as [Elen Hcap]. destruct (total_length l Hf) as [Etot Htot].
  set (n := (cb_capacity b - cb_length b) `min` (length data - written)).
  destruct (filled_write b (take n (drop written data)) Hb) as (b' & Eb & Hb' & Ec & Ecap); [rewrite length_take; lia|].
  destruct (IH (written + n) Hpl ltac:(lia)) as (l' & El & Hf' & Hp' & Ed & Etc).
  cbn [write_loop]. rewrite (proj2 (Nat.eqb_neq _ _) Hne). fold n. rewrite slice_in by lia. replace (written + n - written) with n by lia.
  cbn [mbind outcome_bind]. rewrite Eb. cbn [mbind outcome_bind]. rewrite El. cbn [mbind outcome_bind].
  exists (b' :: l'). assert (Hn : n = 0 \/ data_of l = []) by (destruct Hp as [Hp|Hp]; [left; lia|right; by apply data_of_empty]).
  assert (Ha : amount = n + (length data - (written + n)) `min` (total cb_capacity l - total cb_length l)) by (subst amount; unfold total in *; cbn [foldr]; lia).
  split_and!; [|by constructor| | |unfold total in *; cbn [foldr]; by rewrite Ecap, Etc].
  - do 2 f_equal. lia.
  - cbn [packed]. split; [|done]. rewrite Ec, Ecap, length_app, length_take, length_drop.
    destruct (decide (n = cb_capacity b - cb_length b)) as [E|E]; [left; lia|right].
    assert (En : written + n = length data) by lia. rewrite En, write_loop_done in El. injection El as <-. destruct Hp as [Hp|Hp]; [lia|done].
  - replace (drop (written + n) data) with (drop n (drop written data)) in Ed by (rewrite drop_drop; f_equal; lia).
    rewrite !data_of_cons, Ec, Ed, Ha, <- !(assoc_L (++)). f_equal.
    destruct Hn as [->|Hn]; [by rewrite drop_0|]. rewrite Hn. cbn [app]. by rewrite take_take_drop.
Qed.

#[export] Program Instance Buffers_laws : BufferLaws (ContiguousBuffers B) I := {| filled c := Forall filled (buffers c) /\ packed (buffers c) |}.
Next Obligation. intros [l] [Hf _]. unfold contents. cbn in *. rewrite data_of_reads. by apply total_length. Qed.
Next Obligation. intros [l] [Hf _]. cbn in *. induction Hf as [|b l Hb _ IH]; [constructor|]. cbn. apply Forall_app. split; [by apply filled_slices|done]. Qed.
Next Obligation.
  intros [l] [Hf _]. unfold contents. cbn in *. rewrite data_of_reads.
  assert (He : Forall (fun b => contents b = []) (cb_clear <$> l)) by (apply Forall_fmap; eapply Forall_impl; [exact Hf|]; intros b Hb; by apply filled_clear).
  split_and!.
  - apply Forall_fmap. eapply Forall_impl; [exact Hf|]. intros b Hb. by apply filled_clear.
  - clear Hf. induction l as [|b l IH]; [done|]. cbn in *. apply Forall_cons in He as [_ He]. auto.
  - by apply data_of_empty.
  - clear He. unfold total. induction Hf as [|b l Hb _ IH]; [done|]. cbn. rewrite IH. f_equal. by apply filled_clear.
Qed.
Next Obligation.
  intros [l] data [Hf Hp] Hl. cbn [buffers cb_capacity cb_length cb_write Buffers_buffer] in *. destruct (write_loop_fills data 0 l Hf Hp ltac:(lia)) as (l' & El & Hf' & Hp' & Ed & Ec).
  replace ((length data - 0) `min` (total cb_capacity l - total cb_length l)) with (length data) in El, Ed by lia. unfold buffers_write. cbn [buffers]. rewrite El. cbn [mbind outcome_bind Nat.add]. rewrite Nat.eqb_refl.
  eexists. split_and!; [done|done|done| |done]. unfold contents. cbn [buffers cb_read Buffers_buffer]. by rewrite !data_of_reads, Ed, drop_0, firstn_all.
Qed.
Next Obligation.
  intros [l] data [Hf Hp] Hl. cbn [buffers cb_capacity cb_length cb_write Buffers_buffer] in *. destruct (write_loop_fills data 0 l Hf Hp ltac:(lia)) as (l' & El & _).
  unfold buffers_write. cbn [buffers]. rewrite El. cbn [mbind outcome_bind]. rewrite (proj2 (Nat.eqb_neq _ _)); [done|lia].
Qed.
End Laws.

(** ** Callers *)

Inductive BufferOp (I : Type) : Type := OpWrite (data : list I) | OpClear | OpRead | OpMeasure.
Arguments OpWrite {I} _.
Arguments OpClear {I}.
Arguments OpRead {I}.
Arguments OpMeasure {I}.

(** What a caller sees: the data that reads pass to it, capacities and lengths, until
    a write panics. *)
Fixpoint run_ops {B I} `{ContiguousBuffer B I} (ops : list (BufferOp I)) (b : B) : list (list I * nat * nat) * bool :=
  match ops with
  | [] => ([], true)
  | OpWrite data :: ops' => match cb_write data b with Ok b' => run_ops ops' b' | _ => ([], false) end
  | OpClear :: ops' => run_ops ops' (cb_clear b)
  | OpRead :: ops' => let '(seen, fine) := run_ops ops' b in ((contents b, 0, 0) :: seen, fine)
  | OpMeasure :: ops' => let '(seen, fine) := run_ops ops' b in (([], cb_capacity b, cb_length b) :: seen, fine)
  end.

(** Two buffers with the same data and capacity serve any caller alike. *)
Lemma run_ops_same {B B' I} `{BufferLaws B I} `{BufferLaws B' I} (ops : list (BufferOp I)) (b : B) (b' : B') :
  filled b -> filled b' -> contents b = contents b' -> cb_capacity b = cb_capacity b' -> run_ops ops b = run_ops ops b'.
Proof.
  revert b b'. induction ops as [|[data| | |] ops IH]; intros b b' Hb Hb' Hc Hcap; [done|..]; cbn [run_ops].
  all: destruct (filled_room b Hb) as [El _], (filled_room b' Hb') as [El' _].
  - destruct (decide (length data <= cb_capacity b - cb_length b)) as [Hle|Hgt].
    + destruct (filled_write b data Hb Hle) as (c & -> & Hf & Ec & Ecap). destruct (filled_write b' data Hb' ltac:(rewrite <- Hcap, El', <- Hc, <- El; lia)) as (c' & -> & Hf' & Ec' & Ecap').
      apply IH; congruence.
    + rewrite (filled_overflow b data Hb), (filled_overflow b' data Hb'); [done| |lia]. rewrite <- Hcap, El', <- Hc, <- El. lia.
  - destruct (filled_clear b Hb) as (? & ? & ?), (filled_clear b' Hb') as (? & ? & ?). apply IH; congruence.
  - by rewrite (IH b b'), Hc.
  - by rewrite (IH b b'), Hcap, El, El', Hc.
Qed.

(** * Properties *)

(** Many buffers of which only the last used one has room serve any sequence of
    writes, clears, reads and measurements exactly like one [Vec] with the sum of their
    capacities and the data of all in their order: the same data is read, and a
    write panics at the same point. *)
Theorem buffers_refine_one {B I} `{BufferLaws B I} (l : list B) (ops : list (BufferOp I)) : Forall filled l -> packed l ->
  run_ops ops {| buffers := l |} = run_ops ops {| vec_items := data_of l; vec_capacity := total cb_capacity l |}.
Proof.
  intros Hf Hp. apply run_ops_same; [by split|cbn; by apply total_length| |done].
  unfold contents. cbn [cb_read Buffers_buffer Vec_buffer buffers vec_items]. rewrite data_of_reads. by destruct (data_of l); cbn; rewrite ?app_nil_r.
Qed.

Definition sample_buffers : list (Vec nat) := [{| vec_items := [1; 2]; vec_capacity := 2 |}; {| vec_items := [3]; vec_capacity := 3 |}; Vec_with_capacity 2].

Lemma buffers_refine_one_witness :
  run_ops [OpWrite [4; 5; 6]; OpRead; OpClear; OpWrite [7]; OpMeasure; OpWrite (replicate 7 0)] {| buffers := sample_buffers |} =
    ([([1; 2; 3; 4; 5; 6], 0, 0); ([], 7, 1)], false) /\
  run_ops [OpWrite [4; 5; 6]; OpRead; OpClear; OpWrite [7]; OpMeasure; OpWrite (replicate 7 0)] {| buffers := sample_buffers |} =
  run_ops [OpWrite [4; 5; 6]; OpRead; OpClear; OpWrite [7]; OpMeasure; OpWrite (replicate 7 0)] {| vec_items := data_of sample_buffers; vec_capacity := total cb_capacity sample_buffers |}.
Proof.
  split; [reflexivity|]. apply buffers_refine_one.
  - repeat constructor; cbn; lia.
  - cbn. split_and!; [by left|right; by repeat constructor|by right|done].
Defined.

(** Data of a buffer that was packed behind one with room is read after what is
    written later. *)
Example packed_behind_room :
  let c := pack {| buffers := [{| vec_items := [9]; vec_capacity := 1 |}] |} (with_buffer (Vec_with_capacity 2)) in
  run_ops [OpRead; OpWrite [4; 5]; OpRead] c = ([([9], 0, 0); ([4; 5; 9], 0, 0)], true).
Proof. reflexivity. Qed.
