(* ===== verification/SplitSender.v ===== *)
(** SplitSender: [btp-util/src/send], one channel divided between two senders that
    count their unacknowledged messages.

    [TrySender] is the trait, with the two channels of the standard library.  A
    count is an atomic shared by the threads that use the sender and by those that
    acknowledge: a call counts first and sends, or takes its count back, in a later
    step, and steps of all threads come in any order. *)

From stdpp Require Import base list functions.
From Stdlib Require Import ZArith Lia.
From S2P Require Import Prelude.

(** What was not sent comes back. *)
Class TrySender (S T : Type) := { try_send : T -> S -> outcome Empty_set (option T * S) }.

(** * The channels of [std::sync::mpsc] *)

Record Channel (T : Type) := { queued : list T; bound : option nat; receiving : bool }.
Arguments queued {T} _.
Arguments bound {T} _.
Arguments receiving {T} _.
Arguments Build_Channel {T} _ _ _.

Definition channel_push {T} (x : T) (c : Channel T) : Channel T := {| queued := queued c ++ [x]; bound := bound c; receiving := receiving c |}.
Definition is_full {T} (c : Channel T) : bool := match bound c with Some n => n <=? length (queued c) | None => false end.

(** Without a bound this is [Sender], with one [SyncSender]. *)
#[export] Instance channel_sender T : TrySender (Channel T) T := {|
  try_send data c := if negb (receiving c) then Panic else if is_full c then Ok (Some data, c) else Ok (None, channel_push data c) |}.

(** * [SplitSender] *)

Definition fetch_add (n : Z) : Z := to_u64 (n + 1).
Definition fetch_sub (n : Z) : Z := to_u64 (n - 1).

(** A thread: in no call, or in a call that has counted. *)
Inductive Thread (T : Type) : Type := Idle | Counted (side : bool) (data : T) (our_count : Z).
Arguments Idle {T}.
Arguments Counted {T} _ _ _.

(** The two senders of [split_sender] and the threads that use clones of them.  A
    message is paired with the sender it came through. *)
Record System (S T : Type) := { send : S; count : bool -> Z; capacity : bool -> nat; threads : list (Thread T) }.
Arguments send {S T} _.
Arguments count {S T} _.
Arguments capacity {S T} _.
Arguments threads {S T} _.
Arguments Build_System {S T} _ _ _ _.

Definition split_sender {S T} (s : S) (cap_one cap_two : nat) (n : nat) : System S T := {|
  send := s; count := fun _ => 0%Z; capacity := fun side => if side then cap_one else cap_two; threads := replicate n Idle |}.

Section Senders.
Context {S T : Type} `{TrySender S (bool * T)}.

(** The first step of a call. *)
Definition begin_call (t : nat) (side : bool) (data : T) (s : System S T) : System S T := {|
  send := send s; count := <[side := fetch_add (count s side)]> (count s); capacity := capacity s;
  threads := <[t := Counted side data (count s side)]> (threads s) |}.

(** The second step: the rest of [try_count_increment] and of [try_send]. *)
Definition finish_call (t : nat) (side : bool) (data : T) (our_count : Z) (s : System S T) : outcome Empty_set (option T * System S T) :=
  let returned := <[t := Idle]> (threads s) in
  if (our_count <? Z.of_nat (capacity s side))%Z then
    mbind (M := outcome Empty_set) (fun r : option (bool * T) * S =>
      Ok (snd <$> r.1, {| send := r.2; count := count s; capacity := capacity s; threads := returned |})) (try_send (side, data) (send s))
  else Ok (Some data, {| send := send s; count := <[side := fetch_sub (count s side)]> (count s); capacity := capacity s; threads := returned |}).

Definition ack (side : bool) (s : System S T) : System S T := {|
  send := send s; count := <[side := fetch_sub (count s side)]> (count s); capacity := capacity s; threads := threads s |}.

(** A call of a thread without others between its steps. *)
Definition call_alone (side : bool) (data : T) (s : System S T) : outcome Empty_set (option T * System S T) :=
  finish_call 0 side data (count s side) (begin_call 0 side data s).
End Senders.

(** * The threads and the receiver *)

Section Runs.
Context {T : Type}.
Notation Split := (System (Channel (bool * T)) T).

(** The receiver takes the first message. *)
Definition receive (s : Split) : option (bool * T * Split) :=
  match queued (send s) with
  | m :: rest => Some (m, {| send := {| queued := rest; bound := bound (send s); receiving := receiving (send s) |};
                             count := count s; capacity := capacity s; threads := threads s |})
  | [] => None
  end.

(** Everything that [n] threads and a receiver that acknowledges each message it took at most
    once bring about; [unacked] counts those it is yet to acknowledge.  *)
Inductive split_runs (b : option nat) (cap_one cap_two n : nat) : Split -> (bool -> nat) -> Prop :=
  | split_start : split_runs b cap_one cap_two n (split_sender {| queued := []; bound := b; receiving := true |} cap_one cap_two n) (fun _ => 0)
  | split_call s u t side data : split_runs b cap_one cap_two n s u -> threads s !! t = Some Idle -> split_runs b cap_one cap_two n (begin_call t side data s) u
  | split_finish s u t side data our_count back s' : split_runs b cap_one cap_two n s u -> threads s !! t = Some (Counted side data our_count) ->
      finish_call t side data our_count s = Ok (back, s') -> split_runs b cap_one cap_two n s' u
  | split_receive s u side data s' : split_runs b cap_one cap_two n s u -> receive s = Some ((side, data), s') -> split_runs b cap_one cap_two n s' (<[side := S (u side)]> u)
  | split_ack s u side k : split_runs b cap_one cap_two n s u -> u side = S k -> split_runs b cap_one cap_two n (ack side s) (<[side := k]> u).

(** * Accounts *)

Definition of_side (side : bool) (m : bool * T) : bool := bool_decide (m.1 = side).
Definition in_channel (side : bool) (s : Split) : nat := length (filter (fun m => of_side side m) (queued (send s))).

Definition let_through (side : bool) (cap : nat) (th : Thread T) : bool :=
  match th with Counted side' _ our => bool_decide (side' = side) && (our <? Z.of_nat cap)%Z | Idle => false end.
Definition turned_away (side : bool) (cap : nat) (th : Thread T) : bool :=
  match th with Counted side' _ our => bool_decide (side' = side) && negb (our <? Z.of_nat cap)%Z | Idle => false end.
Definition number (p : Thread T -> bool) (l : list (Thread T)) : nat := length (filter (fun th => p th) l).

Lemma number_cons p th l : number p (th :: l) = Nat.b2n (p th) + number p l.
Proof. unfold number. rewrite filter_cons. by destruct (p th). Qed.
Lemma number_insert p l t old new : l !! t = Some old -> number p (<[t := new]> l) + Nat.b2n (p old) = number p l + Nat.b2n (p new).
Proof.
  revert t. induction l as [|th l IH]; intros t Ht; [done|]. destruct t as [|t]; cbn in Ht.
  - injection Ht as ->. change (<[0 := new]> (old :: l)) with (new :: l). rewrite !number_cons. lia.
  - change (<[S t := new]> (th :: l)) with (th :: <[t := new]> l). rewrite !number_cons. specialize (IH t Ht). lia.
Qed.
Lemma number_le p q l : (forall th, p th = true -> q th = false) -> number p l + number q l <= length l.
Proof.
  intros Hpq. induction l as [|th l IH]; [done|]. rewrite !number_cons. cbn [length]. specialize (Hpq th).
  destruct (p th), (q th); cbn [Nat.b2n] in *; [naive_solver|lia..].
Qed.

Record accounts (cap n : nat) (side : bool) (s : Split) (u : nat) : Prop := {
  ac_capacity : capacity s side = cap;
  ac_room : in_channel side s + u + number (let_through side cap) (threads s) <= cap;
  ac_count : count s side = Z.of_nat (in_channel side s + u + number (let_through side cap) (threads s) + number (turned_away side cap) (threads s));
}.

Lemma in_channel_push side m (s : Split) : length (filter (fun m => of_side side m) (queued (send s) ++ [m])) = in_channel side s + Nat.b2n (of_side side m).
Proof. unfold in_channel. rewrite list.filter_app, length_app, filter_cons, filter_nil. by destruct (of_side side m). Qed.

Lemma in_channel_total (s : Split) : length (queued (send s)) = in_channel true s + in_channel false s.
Proof.
  unfold in_channel, of_side. induction (queued (send s)) as [|[[] x] l IH]; [done|..]; rewrite !filter_cons; cbn [fst]; repeat case_decide; cbn [length]; naive_solver lia.
Qed.

Lemma number_total side cap (s : Split) n : length (threads s) = n -> number (let_through side cap) (threads s) + number (turned_away side cap) (threads s) <= n.
Proof. intros <-. apply number_le. intros [|side' x our]; cbn; [done|]. by intros [-> ->]%andb_true_iff. Qed.

Section Preserved.
Context {b : option nat} {cap_one cap_two n : nat}.
Hypothesis fits : match b with Some m => cap_one + cap_two <= m | None => True end.
Hypothesis countable : (Z.of_nat (cap_one + cap_two + n) < 18446744073709551616)%Z.
Local Notation cap side := (if side : bool then cap_one else cap_two).

Definition all_accounts (s : Split) (u : bool -> nat) : Prop :=
  length (threads s) = n /\ bound (send s) = b /\ receiving (send s) = true /\ forall side, accounts (cap side) n side s (u side).

Lemma call_accounts s u t side data : all_accounts s u -> threads s !! t = Some Idle -> all_accounts (begin_call t side data s) u.
Proof.
  intros (Hn & Hb & Ho & Ha) Ht. unfold begin_call. split_and!; cbn [threads send]; [by rewrite length_insert|done|done|].
  intros side'. destruct (Ha side') as [A1 A2 A3]. pose proof (number_total side' (cap side') (begin_call t side data s) n ltac:(cbn; by rewrite length_insert)) as Hle.
  cbn [begin_call threads] in Hle. pose proof (number_insert (let_through side' (cap side')) _ _ _ (Counted side data (count s side)) Ht) as E1.
  pose proof (number_insert (turned_away side' (cap side')) _ _ _ (Counted side data (count s side)) Ht) as E2.
  cbn [let_through turned_away Nat.b2n] in E1, E2. assert (Hcap : cap side' <= cap_one + cap_two) by (destruct side'; lia).
  destruct (decide (side = side')) as [->|Hne].
  - rewrite bool_decide_eq_true_2 in E1, E2 by done. cbn [andb] in E1, E2.
    destruct (Z.ltb_spec (count s side') (Z.of_nat (cap side'))); cbn [negb Nat.b2n] in E1, E2.
    all: split; cbn [capacity count threads send]; unfold in_channel in *; cbn [send]; [done|lia|].
    all: rewrite fn_lookup_insert; unfold fetch_add, to_u64; rewrite Z.mod_small by lia; lia.
  - rewrite bool_decide_eq_false_2 in E1, E2 by done. cbn [andb Nat.b2n] in E1, E2.
    split; cbn [capacity count threads send]; unfold in_channel in *; cbn [send]; [done|lia|]. rewrite fn_lookup_insert_ne by done. lia.
Qed.

Lemma finish_accounts s u t side data our : all_accounts s u -> threads s !! t = Some (Counted side data our) ->
  exists back s', finish_call t side data our s = Ok (back, s') /\ all_accounts s' u /\
    if (our <? Z.of_nat (cap side))%Z then back = None /\ queued (send s') = queued (send s) ++ [(side, data)] else back = Some data /\ send s' = send s.
Proof.
  intros (Hn & Hb & Ho & Ha) Ht. unfold finish_call. rewrite (ac_capacity _ _ _ _ _ (Ha side)).
  assert (Hmove : forall side', number (let_through side' (cap side')) (<[t := Idle]> (threads s)) + Nat.b2n (let_through side' (cap side') (Counted side data our)) = number (let_through side' (cap side')) (threads s) /\
    number (turned_away side' (cap side')) (<[t := Idle]> (threads s)) + Nat.b2n (turned_away side' (cap side') (Counted side data our)) = number (turned_away side' (cap side')) (threads s)).
  { intros side'. pose proof (number_insert (let_through side' (cap side')) _ _ _ Idle Ht). pose proof (number_insert (turned_away side' (cap side')) _ _ _ Idle Ht). cbn [let_through turned_away Nat.b2n] in *. lia. }
  pose proof (Hmove side) as [E1 E2]. cbn [let_through turned_away] in E1, E2. rewrite bool_decide_eq_true_2 in E1, E2 by done.
  destruct (Z.ltb_spec our (Z.of_nat (cap side))) as [Hlt|Hge].
  - cbn [andb Nat.b2n] in E1. assert (Hroom : is_full (send s) = false).
    { unfold is_full. rewrite Hb. destruct b as [m|]; [|done]. apply Nat.leb_gt. rewrite in_channel_total.
      pose proof (ac_room _ _ _ _ _ (Ha true)). pose proof (ac_room _ _ _ _ _ (Ha false)). destruct side; lia. }
    cbn [try_send channel_sender]. rewrite Ho, Hroom. eexists _, _. split; [reflexivity|]. split; [|done].
    split_and!; cbn [threads send channel_push bound receiving snd]; [by rewrite length_insert|done|done|]. intros side'. destruct (Ha side') as [A1 A2 A3], (Hmove side') as [M1 M2].
    assert (Hin : of_side side' (side, data) = let_through side' (cap side') (Counted side data our)).
    { cbn. unfold of_side. cbn. destruct (decide (side = side')) as [<-|Hne]; [rewrite (proj2 (Z.ltb_lt _ _)) by done; by rewrite andb_true_r|by rewrite !bool_decide_eq_false_2]. }
    assert (Haway : turned_away side' (cap side') (Counted side data our) = false).
    { cbn. destruct (decide (side = side')) as [<-|Hne]; [rewrite (proj2 (Z.ltb_lt _ _)) by done; by rewrite andb_false_r|by rewrite bool_decide_eq_false_2]. }
    pose proof (in_channel_push side' (side, data) s) as Hp. rewrite Hin in Hp. rewrite Haway in M2. cbn [Nat.b2n] in M2.
    split; cbn [capacity count threads send]; [done|unfold in_channel at 1|unfold in_channel at 1]; cbn [send channel_push queued]; rewrite Hp; [lia|]. rewrite A3. lia.
  - cbn [andb negb Nat.b2n] in E1, E2. eexists _, _. split; [reflexivity|]. split; [|done].
    split_and!; cbn [threads send]; [by rewrite length_insert|done|done|]. intros side'. destruct (Ha side') as [A1 A2 A3], (Hmove side') as [M1 M2].
    pose proof (number_total side' (cap side') s n Hn) as Htot. assert (Hcap : cap side' <= cap_one + cap_two) by (destruct side'; lia).
    destruct (decide (side = side')) as [<-|Hne].
    + split; cbn [capacity count threads send]; unfold in_channel in *; cbn [send]; [done|lia|].
      rewrite fn_lookup_insert. unfold fetch_sub, to_u64. rewrite Z.mod_small by lia. lia.
    + cbn [let_through turned_away] in M1, M2. rewrite bool_decide_eq_false_2 in M1, M2 by done. cbn [andb Nat.b2n] in M1, M2.
      split; cbn [capacity count threads send]; unfold in_channel in *; cbn [send]; [done|lia|]. rewrite fn_lookup_insert_ne by done. lia.
Qed.

Lemma receive_accounts s u side data s' : all_accounts s u -> receive s = Some ((side, data), s') -> all_accounts s' (<[side := S (u side)]> u).
Proof.
  intros (Hn & Hb & Ho & Ha) Hr. unfold receive in Hr. destruct (queued (send s)) as [|m rest] eqn:Hq; [done|]. injection Hr as -> <-.
  split_and!; cbn [threads send bound receiving]; [done..|]. intros side'. destruct (Ha side') as [A1 A2 A3].
  assert (E : in_channel side' s = Nat.b2n (of_side side' (side, data)) + length (filter (fun m => of_side side' m) rest)).
  { unfold in_channel. rewrite Hq, filter_cons. by destruct (of_side side' (side, data)). }
  unfold of_side in E at 1. cbn [fst] in E. destruct (decide (side = side')) as [<-|Hne].
  - rewrite bool_decide_eq_true_2 in E by done. cbn [Nat.b2n] in E.
    split; cbn [capacity count threads send]; [done|unfold in_channel at 1|unfold in_channel at 1]; cbn [send queued]; rewrite fn_lookup_insert; lia.
  - rewrite bool_decide_eq_false_2 in E by done. cbn [Nat.b2n] in E.
    split; cbn [capacity count threads send]; [done|unfold in_channel at 1|unfold in_channel at 1]; cbn [send queued]; rewrite fn_lookup_insert_ne by done; lia.
Qed.

Lemma ack_accounts s u side k : all_accounts s u -> u side = S k -> all_accounts (ack side s) (<[side := k]> u).
Proof.
  intros (Hn & Hb & Ho & Ha) Hu. unfold ack. split_and!; cbn [threads send]; [done..|]. intros side'. destruct (Ha side') as [A1 A2 A3].
  pose proof (number_total side' (cap side') s n Hn) as Htot. assert (Hcap : cap side' <= cap_one + cap_two) by (destruct side'; lia).
  split; cbn [capacity count threads send]; unfold in_channel in *; cbn [send]; [done|..];
    (destruct (decide (side = side')) as [<-|Hne]; [rewrite !fn_lookup_insert|rewrite !fn_lookup_insert_ne by done]); [lia..| |lia].
  unfold fetch_sub, to_u64. rewrite Z.mod_small by lia. lia.
Qed.

Lemma runs_accounts s u : split_runs b cap_one cap_two n s u -> all_accounts s u.
Proof.
  induction 1 as [|s u t side data _ IH Ht|s u t side data our back s' _ IH Ht Hf|s u side data s' _ IH Hr|s u side k _ IH Hu].
  - unfold split_sender. split_and!; cbn [threads send bound receiving]; [by rewrite length_replicate|done|done|]. intros side.
    assert (Hno : forall p, p Idle = false -> number p (replicate n (@Idle T)) = 0) by (intros p Hp; clear -Hp; induction n as [|k IH]; [done|]; cbn [replicate]; by rewrite number_cons, Hp, IH).
    split; cbn [capacity count threads]; [done|..]; unfold in_channel; cbn [send queued]; rewrite filter_nil, !Hno by done; cbn; lia.
  - by apply call_accounts.
  - destruct (finish_accounts s u t side data our IH Ht) as (back' & s2 & E & Ha & _). rewrite Hf in E. by injection E as _ <-.
  - by eapply receive_accounts.
  - by apply ack_accounts.
Qed.
End Preserved.

(** * Properties *)

(** Two split senders over a channel that has no bound, or one of at least the
    sum of their capacities, divide it: whatever the interleaving of their threads and the receiver, each
    has at most its capacity of messages sent and not acknowledged; a call that
    counted below the capacity is never refused by the channel and its message is queued
    once, one that counted above it sends nothing; and with no call under way a sender's
    count is exactly the number of its unacknowledged messages. *)
Theorem split_capacity (b : option nat) cap_one cap_two n (s : Split) u : split_runs b cap_one cap_two n s u ->
  (match b with Some m => cap_one + cap_two <= m | None => True end) -> (Z.of_nat (cap_one + cap_two + n) < 18446744073709551616)%Z ->
  (forall side, in_channel side s + u side <= if side : bool then cap_one else cap_two) /\
  (forall side, Forall (fun th => th = Idle) (threads s) -> count s side = Z.of_nat (in_channel side s + u side)) /\
  forall t side data our, threads s !! t = Some (Counted side data our) -> exists back s', finish_call t side data our s = Ok (back, s') /\
    if (our <? Z.of_nat (if side : bool then cap_one else cap_two))%Z then back = None /\ queued (send s') = queued (send s) ++ [(side, data)]
    else back = Some data /\ send s' = send s.
Proof.
  intros Hr Hb Hc. pose proof (runs_accounts Hb Hc s u Hr) as Ha. split_and!.
  - intros side. destruct Ha as (_ & _ & _ & Ha). destruct (Ha side) as [_ A _]. lia.
  - intros side Hidle. destruct Ha as (_ & _ & _ & Ha). destruct (Ha side) as [_ _ ->].
    assert (Hno : forall p : Thread T -> bool, p Idle = false -> number p (threads s) = 0).
    { intros p Hp. clear -Hidle Hp. induction Hidle as [|th l -> _ IH]; [done|]. by rewrite number_cons, Hp, IH. }
    rewrite !Hno by done. f_equal. lia.
  - intros t side data our Ht. destruct (finish_accounts Hb Hc s u t side data our Ha Ht) as (back & s' & E & _ & Hq). by exists back, s'.
Qed.
End Runs.

(** * Witnesses *)

(** Two threads count on a sender with one place: the second is turned away. *)
Definition sample_split : System (Channel (bool * nat)) nat :=
  begin_call 1 true 8 (begin_call 0 true 7 (split_sender {| queued := []; bound := Some 3; receiving := true |} 1 2 2)).

Lemma split_capacity_witness :
  (forall side, in_channel side sample_split + 0 <= if side : bool then 1 else 2) /\
  (forall side, ~ Forall (fun th => th = Idle) (threads sample_split) \/ count sample_split side = Z.of_nat (in_channel side sample_split + 0)) /\
  (exists s', finish_call 1 true 8 1%Z sample_split = Ok (Some 8, s') /\ send s' = send sample_split).
Proof.
  assert (Hr : split_runs (Some 3) 1 2 2 sample_split (fun _ => 0)) by (apply split_call; [apply split_call; [apply split_start|done]|done]).
  destruct (split_capacity (Some 3) 1 2 2 sample_split (fun _ => 0) Hr ltac:(cbn; lia) ltac:(reflexivity)) as (H1 & _ & H3).
  split; [exact H1|split].
  - intros side. left. intros Hf. inversion Hf as [|? ? Hi]. discriminate Hi.
  - destruct (H3 1 true 8 1%Z eq_refl) as (back & s' & E & Hb). cbn in Hb. destruct Hb as [-> Hs]. by exists s'.
Defined.

(** With a smaller channel a message that the channel refuses keeps its place: the
    sender refuses everything from then on, though nothing is left to
    acknowledge. *)
Example refused_message_counted :
  let s := split_sender {| queued := [(false, 0)]; bound := Some 1; receiving := true |} 1 1 1 in
  exists s1 s2, call_alone true 7 s = Ok (Some 7, s1) /\ (snd <$> receive s1) = Some s2 /\ queued (send s2) = [] /\
    exists s3, call_alone true 8 s2 = Ok (Some 8, s3).
Proof. do 2 eexists. split; [reflexivity|]. split; [reflexivity|]. split; [reflexivity|]. eexists. reflexivity. Qed.
