(* ===== verification/TrackerClient.v ===== *)
(** TrackerClient: [btp-utracker/src/client], the dispatcher that sends tracker
    requests, retransmits them and hands the results to the callers, on top of
    the timer of [btp-util].

    A turn of the dispatcher takes an event and gives the new state, which
    includes the datagrams handed to the sending task and the results sent to
    the callers so far.  Both clocks (the monotonic one of the timer and the
    wall clock of the connection ids), the random key of an announce and the
    iteration order of the cache are inputs. *)

From stdpp Require Import base list gmap.
From Stdlib Require Import ZArith Lia.
From S2P Require Import Prelude OrdMap Bencode Convert ShaHash Nom Tracker TrackerCorrect.
From S2P Require Import TrackerServer Timer.

(** * client/mod.rs and client/error.rs *)

Inductive ClientRequest : Type :=
  | CAnnounce (hash : ShaHash) (state : ClientState)
  | CScrape (hash : ShaHash).

Inductive ClientError : Type :=
  | MaxTimeout
  | MaxLength
  | ClientShutdown
  | ServerError
  | IPVersionMismatch
  | ServerMessage (err : ErrorResponse).

Inductive ClientResponse : Type :=
  | CRAnnounce (res : AnnounceResponse)
  | CRScrape (res : ScrapeResponse).

(** [ClientMetadata]: a token (transaction id) and its result. *)
Definition ClientMetadata : Type := Z * (ClientError + ClientResponse).

(** [RequestLimiter]; the counter is shared by the client and the dispatcher. *)
Record RequestLimiter := { limiter_active : Z; capacity : Z }.

Definition limiter_new (capacity : Z) : RequestLimiter := {| limiter_active := 0; capacity := capacity |}.
Definition acknowledge (l : RequestLimiter) : RequestLimiter :=
  {| limiter_active := to_u64 (limiter_active l - 1); capacity := capacity l |}.
Definition can_initiate (l : RequestLimiter) : bool * RequestLimiter :=
  let current_active_requests := limiter_active l in
  let l' := {| limiter_active := to_u64 (limiter_active l + 1); capacity := capacity l |} in
  if (current_active_requests <? capacity l)%Z then (true, l') else (false, acknowledge l').

(** * client/dispatcher.rs *)

Definition CONNECTION_ID_VALID_DURATION_MILLIS : Z := 60000.
Definition MAXIMUM_REQUEST_RETRANSMIT_ATTEMPTS : Z := 8.

Inductive DispatchTimeout : Type := TConnect (token : Z) | TCleanUp.

Record ConnectTimer := {
  ct_addr : SocketAddr;
  ct_attempt : Z;
  ct_request : ClientRequest;
  ct_timeout_id : option Timeout;
}.

Definition connect_timer_new (addr : SocketAddr) (request : ClientRequest) : ConnectTimer :=
  {| ct_addr := addr; ct_attempt := 0; ct_request := request; ct_timeout_id := None |}.

Definition calculate_message_timeout_millis (attempt : Z) : Z := 15 * 2 ^ attempt * 1000.

Definition current_timeout (timed_out : bool) (c : ConnectTimer) : option Z * ConnectTimer :=
  if (ct_attempt c =? MAXIMUM_REQUEST_RETRANSMIT_ATTEMPTS)%Z then (None, c)
  else
    let attempt := if timed_out then (ct_attempt c + 1)%Z else ct_attempt c in
    (Some (calculate_message_timeout_millis attempt),
     {| ct_addr := ct_addr c; ct_attempt := attempt; ct_request := ct_request c;
        ct_timeout_id := ct_timeout_id c |}).

Definition set_timeout_id (k : Timeout) (c : ConnectTimer) : ConnectTimer :=
  {| ct_addr := ct_addr c; ct_attempt := ct_attempt c; ct_request := ct_request c;
     ct_timeout_id := Some k |}.

(** [ConnectIdCache]: id and the time it was received. *)
Notation ConnectIdCache := (gmap SocketAddr (Z * Z)).

Definition is_expired (curr_time prev_time : Z) : bool :=
  (CONNECTION_ID_VALID_DURATION_MILLIS <=? curr_time - prev_time)%Z.

Definition cache_get (utc : Z) (addr : SocketAddr) (cache : ConnectIdCache) : option Z * ConnectIdCache :=
  match cache !! addr with
  | None => (None, cache)
  | Some (id, prev_time) => if is_expired utc prev_time then (None, delete addr cache) else (Some id, cache)
  end.

Definition cache_put (utc : Z) (addr : SocketAddr) (connect_id : Z) (cache : ConnectIdCache) : ConnectIdCache :=
  <[addr := (connect_id, utc)]> cache.

(** [iter_cache] is the order in which the map is iterated. *)
Fixpoint clean_loop (iter_cache : ConnectIdCache -> list (SocketAddr * (Z * Z))) (utc : Z)
    (fuel curr_index : nat) (cache : ConnectIdCache) : outcome unit ConnectIdCache :=
  match fuel with
  | O => NoFuel
  | S fuel =>
      match iter_cache cache !! curr_index with
      | Some (addr, (_, prev_time)) =>
          let cache' := if is_expired utc prev_time then delete addr cache else cache in
          clean_loop iter_cache utc fuel (S curr_index) cache'
      | None => Ok cache
      end
  end.

(** The index grows in every turn and the map does not. *)
Definition clean_expired iter_cache (utc : Z) (cache : ConnectIdCache) : outcome unit ConnectIdCache :=
  clean_loop iter_cache utc (S (length (iter_cache cache))) 0 cache.

Record ClientDispatcher := {
  bound_addr : SocketAddr;
  cl_peer_id : ShaHash;
  announce_port : Z;
  active_requests : gmap Z ConnectTimer;
  id_cache : ConnectIdCache;
  cl_is_run : bool;
  timer : Timer DispatchTimeout;
  sent : list datagram;            (* handed to the sending task *)
  notified : list ClientMetadata;  (* received by the callers *)
  closed : gset Z;                 (* tokens whose caller has dropped the receiver *)
}.

Definition client_new (bind : SocketAddr) (peer_id : ShaHash) (port : Z) : ClientDispatcher :=
  {| bound_addr := bind; cl_peer_id := peer_id; announce_port := port; active_requests := ∅;
     id_cache := ∅; cl_is_run := true; timer := timer_new; sent := []; notified := []; closed := ∅ |}.

Definition set_active (m : gmap Z ConnectTimer) (d : ClientDispatcher) : ClientDispatcher :=
  {| bound_addr := bound_addr d; cl_peer_id := cl_peer_id d; announce_port := announce_port d;
     active_requests := m; id_cache := id_cache d; cl_is_run := cl_is_run d; timer := timer d;
     sent := sent d; notified := notified d; closed := closed d |}.
Definition set_cache (c : ConnectIdCache) (d : ClientDispatcher) : ClientDispatcher :=
  {| bound_addr := bound_addr d; cl_peer_id := cl_peer_id d; announce_port := announce_port d;
     active_requests := active_requests d; id_cache := c; cl_is_run := cl_is_run d; timer := timer d;
     sent := sent d; notified := notified d; closed := closed d |}.
Definition set_timer (t : Timer DispatchTimeout) (d : ClientDispatcher) : ClientDispatcher :=
  {| bound_addr := bound_addr d; cl_peer_id := cl_peer_id d; announce_port := announce_port d;
     active_requests := active_requests d; id_cache := id_cache d; cl_is_run := cl_is_run d; timer := t;
     sent := sent d; notified := notified d; closed := closed d |}.
Definition send_datagram (g : datagram) (d : ClientDispatcher) : ClientDispatcher :=
  {| bound_addr := bound_addr d; cl_peer_id := cl_peer_id d; announce_port := announce_port d;
     active_requests := active_requests d; id_cache := id_cache d; cl_is_run := cl_is_run d; timer := timer d;
     sent := sent d ++ [g]; notified := notified d; closed := closed d |}.

(** [tx.send(ClientMetadata::new(token, result)).expect(..)] *)
Definition notify (token : Z) (r : ClientError + ClientResponse) (d : ClientDispatcher)
  : outcome unit ClientDispatcher :=
  if decide (token ∈ closed d) then Panic
  else Ok {| bound_addr := bound_addr d; cl_peer_id := cl_peer_id d; announce_port := announce_port d;
             active_requests := active_requests d; id_cache := id_cache d; cl_is_run := cl_is_run d;
             timer := timer d; sent := sent d; notified := notified d ++ [(token, r)]; closed := closed d |}.

(** The clocks and the random numbers of one turn. *)
Record Env := { now : Z; utc : Z; rand_key : Z }.

Definition resolve_request (e : Env) (d : ClientDispatcher) (addr : SocketAddr)
    (opt_conn_id : option Z) (request : ClientRequest) : Z * RequestType :=
  match opt_conn_id, request with
  | Some id, CAnnounce hash state =>
      let source_ip := match addr with SockV4 _ => ImpliedV4 | SockV6 _ => ImpliedV6 end in
      (id, RAnnounce {| ar_info_hash := hash; ar_peer_id := cl_peer_id d; ar_state := state;
                        ar_ip := source_ip; ar_key := rand_key e; ar_num_want := DDefault;
                        ar_port := announce_port d; ar_options := options_new |})
  | Some id, CScrape hash => (id, RScrape (scrape_insert hash scrape_request_new))
  | None, _ => (CONNECT_ID_PROTOCOL_ID, RConnect)
  end.

(** The option map of the request is empty, so its iteration order is [[]];
    the write to the growing vector succeeds. *)
Definition cl_process_request (e : Env) (token : Z) (timed_out : bool) (d : ClientDispatcher)
  : outcome unit ClientDispatcher :=
  match active_requests d !! token with
  | None => Ok d
  | Some conn_timer =>
      let d := set_active (delete token (active_requests d)) d in
      let '(next_timeout, conn_timer) := current_timeout timed_out conn_timer in
      match next_timeout with
      | None => notify token (inl MaxTimeout) d
      | Some next_timeout =>
          let addr := ct_addr conn_timer in
          let '(opt_conn_id, cache) := cache_get (utc e) addr (id_cache d) in
          let d := set_cache cache d in
          let '(conn_id, request_type) := resolve_request e d addr opt_conn_id (ct_request conn_timer) in
          let tracker_request := {| rq_connection_id := conn_id; rq_transaction_id := token;
                                    request_type := request_type |} in
          let d := send_datagram (request_write_bytes [] tracker_request, addr) d in
          (* [Duration::from_secs(next_timeout)] *)
          let '(k, t) := schedule_in (now e) (next_timeout * 1000) (TConnect token) (timer d) in
          let d := set_timer t d in
          Ok (set_active (<[token := set_timeout_id k conn_timer]> (active_requests d)) d)
      end
  end.

Definition same_version (a b : SocketAddr) : bool :=
  match a, b with
  | SockV4 _, SockV6 _ | SockV6 _, SockV4 _ => false
  | _, _ => true
  end.

Definition send_request (e : Env) (addr : SocketAddr) (token : Z) (request : ClientRequest)
    (d : ClientDispatcher) : outcome unit ClientDispatcher :=
  if same_version (bound_addr d) addr then
    let d := set_active (<[token := connect_timer_new addr request]> (active_requests d)) d in
    cl_process_request e token false d
  else notify token (inl IPVersionMismatch) d.

(** What a response that is no connect response makes of a request. *)
Definition match_response (request : ClientRequest) (r : ResponseType) : ClientError + ClientResponse :=
  match request, r with
  | CAnnounce _ _, SAnnounce res => inr (CRAnnounce res)
  | CScrape _, SScrape res => inr (CRScrape res)
  | _, SError err => inl (ServerMessage err)
  | _, _ => inl ServerError
  end.

Definition recv_response (e : Env) (addr : SocketAddr) (response : TrackerResponse) (d : ClientDispatcher)
  : outcome unit ClientDispatcher :=
  let token := rs_transaction_id response in
  match active_requests d !! token with
  | None => Ok d
  | Some conn_timer =>
      let d := set_active (delete token (active_requests d)) d in
      if decide (ct_addr conn_timer = addr) then
        timeout_id ← opt_unwrap (ct_timeout_id conn_timer);
        let d := set_timer (cancel timeout_id (timer d)).2 d in
        match response_type response with
        | SConnect id =>
            let d := set_cache (cache_put (utc e) addr id (id_cache d)) d in
            let d := set_active (<[token := conn_timer]> (active_requests d)) d in
            cl_process_request e token false d
        | r => notify token (match_response (ct_request conn_timer) r) d
        end
      else Ok d
  end.

(** The loop of [shutdown] over the active requests. *)
Fixpoint notify_all (tokens : list Z) (d : ClientDispatcher) : outcome unit ClientDispatcher :=
  match tokens with
  | [] => Ok d
  | token :: tokens => d ← notify token (inl ClientShutdown) d; notify_all tokens d
  end.

Definition stop (d : ClientDispatcher) : ClientDispatcher :=
  {| bound_addr := bound_addr d; cl_peer_id := cl_peer_id d; announce_port := announce_port d;
     active_requests := ∅; id_cache := id_cache d; cl_is_run := false; timer := timer d;
     sent := sent d; notified := notified d; closed := closed d |}.

Definition cl_shutdown (iter_active : gmap Z ConnectTimer -> list (Z * ConnectTimer)) (d : ClientDispatcher)
  : outcome unit ClientDispatcher :=
  d ← notify_all (iter_active (active_requests d)).*1 d; Ok (stop d).

Section Dispatcher.
Variable iter_active : gmap Z ConnectTimer -> list (Z * ConnectTimer).
Variable iter_cache : ConnectIdCache -> list (SocketAddr * (Z * Z)).
Context `{NT : NomTracker utf8_valid}.

Definition timeout_handler (e : Env) (t : DispatchTimeout) (d : ClientDispatcher)
  : outcome unit ClientDispatcher :=
  match t with
  | TConnect token => cl_process_request e token true d
  | TCleanUp =>
      cache ← clean_expired iter_cache (utc e) (id_cache d);
      let d := set_cache cache d in
      (* [Duration::from_secs(CONNECTION_ID_VALID_DURATION_MILLIS)] *)
      Ok (set_timer (schedule_in (now e) (CONNECTION_ID_VALID_DURATION_MILLIS * 1000) TCleanUp (timer d)).2 d)
  end.

Definition response_in_handler (e : Env) (message : bytes) (addr : SocketAddr) (d : ClientDispatcher)
  : outcome unit ClientDispatcher :=
  match tracker_parse_response message with
  | Done _ rsp => recv_response e addr rsp d
  | _ => Ok d
  end.

Inductive DispatchMessage : Type :=
  | Request (addr : SocketAddr) (token : Z) (req_type : ClientRequest)
  | StartTimer
  | DispatchShutdown.

Definition command_in_handler (e : Env) (m : DispatchMessage) (d : ClientDispatcher)
  : outcome unit ClientDispatcher :=
  match m with
  | Request addr token req_type => send_request e addr token req_type d
  | StartTimer => timeout_handler e TCleanUp d
  | DispatchShutdown => cl_shutdown iter_active d
  end.

(** What a turn of [run_one] sees: a datagram or the failure of the socket, a
    command or the end of the channel, or the timer when it is not empty; and
    a caller dropping the receiver of its result, between turns. *)
Inductive ClientEvent : Type :=
  | EvResponse (message : bytes) (addr : SocketAddr)
  | EvRecvFailed
  | EvCommand (command : option DispatchMessage)
  | EvTimer
  | EvDropReceiver (token : Z).

Definition cl_run_one (e : Env) (ev : ClientEvent) (d : ClientDispatcher) : outcome unit ClientDispatcher :=
  match ev with
  | EvResponse message addr => response_in_handler e message addr d
  | EvRecvFailed => cl_shutdown iter_active d
  | EvCommand (Some command) => command_in_handler e command d
  | EvCommand None => cl_shutdown iter_active d
  | EvTimer =>
      if timer_is_empty (timer d) then Ok d
      else
        let '(p, t) := poll_next (now e) (timer d) in
        let d := set_timer t d in
        match p with
        | Ready token => token ← opt_unwrap token; timeout_handler e token d
        | Pending => Ok d
        end
  | EvDropReceiver token =>
      Ok {| bound_addr := bound_addr d; cl_peer_id := cl_peer_id d; announce_port := announce_port d;
            active_requests := active_requests d; id_cache := id_cache d; cl_is_run := cl_is_run d;
            timer := timer d; sent := sent d; notified := notified d; closed := {[ token ]} ∪ closed d |}
  end.

Fixpoint cl_run_task (evs : list (Env * ClientEvent)) (d : ClientDispatcher) : outcome unit ClientDispatcher :=
  match evs with
  | [] => Ok d
  | (e, ev) :: evs => if cl_is_run d then d ← cl_run_one e ev d; cl_run_task evs d else Ok d
  end.
End Dispatcher.

(** * Invariant *)

(** The request is waiting for a timeout that the timer holds. *)
Definition armed (t : Timer DispatchTimeout) (token : Z) (c : ConnectTimer) : Prop :=
  exists k, ct_timeout_id c = Some k /\ btree_get k (contents t) = Some (TConnect token).

Definition attempt_ok (c : ConnectTimer) : Prop :=
  (0 <= ct_attempt c <= MAXIMUM_REQUEST_RETRANSMIT_ATTEMPTS)%Z.

(** Every request but the one being processed is armed. *)
Definition armed_except (token : Z) (d : ClientDispatcher) : Prop :=
  timer_ok (timer d) /\
  forall token' c, active_requests d !! token' = Some c ->
    attempt_ok c /\ (token' <> token -> armed (timer d) token' c).

Definition client_ok (d : ClientDispatcher) : Prop :=
  timer_ok (timer d) /\
  forall token c, active_requests d !! token = Some c -> attempt_ok c /\ armed (timer d) token c.

Definition u64_bound : Z := 18446744073709551616.

(** What a handler does: a well-formed state, at most one timer id further, or
    a panic because a caller is gone. *)
Definition handled (d : ClientDispatcher) (r : outcome unit ClientDispatcher) : Prop :=
  (exists d', r = Ok d' /\ client_ok d' /\ closed d' = closed d /\
     (next_id (timer d') <= next_id (timer d) + 1)%Z) \/
  (r = Panic /\ exists token, token ∈ closed d).

(** * Lemmas *)

Lemma client_ok_except token d : client_ok d -> armed_except token d.
Proof. intros [Ht Ha]. split; [done|]. intros token' c Hc. destruct (Ha _ _ Hc). auto. Qed.

Lemma schedule_keeps deadline v (t : Timer DispatchTimeout) k w :
  timer_ok t -> (next_id t + 1 < u64_bound)%Z -> btree_get k (contents t) = Some w ->
  btree_get k (contents (schedule_at deadline v t).2) = Some w.
Proof.
  intros Hok Hb Hg. pose proof (schedule_spec deadline v t Hok Hb) as Hs.
  destruct (schedule_at deadline v t) as [k' t']. cbn [snd]. destruct Hs as (-> & -> & Hfresh & _).
  rewrite btree_get_insert_ne; [done|by destruct Hok|congruence].
Qed.

Lemma schedule_armed deadline token c (t : Timer DispatchTimeout) :
  timer_ok t -> (next_id t + 1 < u64_bound)%Z ->
  let '(k, t') := schedule_at deadline (TConnect token) t in
  timer_ok t' /\ next_id t' = (next_id t + 1)%Z /\ armed t' token (set_timeout_id k c) /\ k.1 = deadline.
Proof.
  intros Hok Hb. pose proof (schedule_spec deadline (TConnect token) t Hok Hb) as Hs.
  destruct (schedule_at deadline (TConnect token) t) as [k' t']. destruct Hs as (-> & Hc & _ & Hn & Ht).
  split_and!; try done. exists (deadline, next_id t). split; [done|]. rewrite Hc. apply btree_get_insert_eq.
Qed.

Lemma notify_handled token r d d0 :
  client_ok d -> closed d = closed d0 -> (next_id (timer d) <= next_id (timer d0) + 1)%Z ->
  handled d0 (notify token r d).
Proof.
  intros Hok Hcl Hn. unfold notify. case_decide.
  - right. split; [done|]. exists token. by rewrite <- Hcl.
  - left. eexists. split; [done|]. split_and!; done.
Qed.

(** Removing the request being processed leaves a well-formed state. *)
Lemma delete_client_ok token d :
  armed_except token d -> client_ok (set_active (delete token (active_requests d)) d).
Proof.
  intros [Ht Ha]. split; [done|]. simpl. intros token' c [Hne Hc]%lookup_delete_Some.
  destruct (Ha _ _ Hc) as [H1 H2]. auto.
Qed.

Lemma process_handled e token timed_out d :
  armed_except token d -> (next_id (timer d) + 1 < u64_bound)%Z ->
  handled d (cl_process_request e token timed_out d).
Proof.
  intros Hex Hb. unfold cl_process_request.
  destruct (active_requests d !! token) as [c|] eqn:Hc.
  2:{ left. exists d. destruct Hex as [Ht Ha]. split; [done|]. split; [split; [done|]|split; [done|lia]].
      intros token' c Hc'. destruct (Ha _ _ Hc') as [H1 H2]. split; [done|]. apply H2. congruence. }
  pose proof (delete_client_ok token d Hex) as Hdel. pose proof Hex as [Ht Ha].
  destruct (Ha _ _ Hc) as [Hatt _]. unfold current_timeout.
  destruct (Z.eqb_spec (ct_attempt c) MAXIMUM_REQUEST_RETRANSMIT_ATTEMPTS) as [He|He].
  { apply notify_handled; simpl; [done|done|lia]. }
  cbn [ct_addr ct_request set_active id_cache].
  destruct (cache_get (utc e) (ct_addr c) (id_cache d)) as [o cache].
  destruct (resolve_request e _ (ct_addr c) o (ct_request c)) as [cid rt].
  cbn [set_active set_cache send_datagram timer]. unfold schedule_in.
  set (a' := if timed_out then (ct_attempt c + 1)%Z else ct_attempt c).
  set (deadline := (now e + calculate_message_timeout_millis a' * 1000)%Z).
  set (c' := {| ct_addr := ct_addr c; ct_attempt := a'; ct_request := ct_request c;
                ct_timeout_id := ct_timeout_id c |}).
  pose proof (schedule_armed deadline token c' (timer d) Ht Hb) as Hs.
  pose proof (schedule_keeps deadline (TConnect token) (timer d)) as Hk.
  destruct (schedule_at deadline (TConnect token) (timer d)) as [k t'] eqn:Hsch.
  destruct Hs as (Ht' & Hn & Harm & _). left. eexists. split; [done|].
  split; [split; [done|]|split; [done|simpl; lia]].
  simpl. intros token' c0 [[<- <-]|[Hne [_ Hc0]%lookup_delete_Some]]%lookup_insert_Some.
  - split; [|done]. unfold attempt_ok in *. simpl. unfold a'. destruct timed_out; lia.
  - destruct (Ha _ _ Hc0) as [H1 H2]. split; [done|].
    destruct H2 as (k0 & Hk0 & Hg0); [done|]. exists k0. split; [done|]. by apply Hk.
Qed.

Lemma cancel_keeps k (t : Timer DispatchTimeout) k' v :
  timer_ok t -> k' <> k -> btree_get k' (contents t) = Some v ->
  btree_get k' (contents (cancel k t).2) = Some v.
Proof.
  intros (Ho & _ & _) Hne Hg. destruct (cancel_spec k t Ho) as (_ & -> & _).
  by rewrite btree_get_remove_ne.
Qed.

(** Cancelling the timeout of a request leaves the others armed. *)
Lemma cancel_armed k d token :
  client_ok d -> btree_get k (contents (timer d)) = Some (TConnect token) ->
  armed_except token (set_timer (cancel k (timer d)).2 d).
Proof.
  intros [Ht Ha] Hk. split; [by apply cancel_ok|]. simpl. intros token' c Hc.
  destruct (Ha _ _ Hc) as [H1 (k' & Hk' & Hg')]. split; [done|]. intros Hne. exists k'.
  split; [done|]. apply cancel_keeps; [done| |done]. congruence.
Qed.

Lemma handled_from d1 d r :
  handled d1 r -> closed d1 = closed d -> next_id (timer d1) = next_id (timer d) -> handled d r.
Proof. unfold handled. by intros Hh <- <-. Qed.

Lemma delete_armed token d :
  active_requests d !! token = None -> armed_except token d -> client_ok d.
Proof.
  intros Hno [Ht Ha]. split; [done|]. intros token' c Hc. destruct (Ha _ _ Hc) as [H1 H2].
  split; [done|]. apply H2. congruence.
Qed.

Lemma recv_handled e addr response d :
  client_ok d -> (next_id (timer d) + 1 < u64_bound)%Z ->
  handled d (recv_response e addr response d).
Proof.
  intros Hok Hb. unfold recv_response. set (token := rs_transaction_id response).
  destruct (active_requests d !! token) as [c|] eqn:Hc.
  2:{ left. exists d. split; [done|]. split; [done|]. split; [done|lia]. }
  pose proof (delete_client_ok token d (client_ok_except token d Hok)) as Hdel.
  case_decide as Haddr.
  2:{ left. eexists. split; [done|]. split; [done|]. split; [done|simpl; lia]. }
  pose proof Hok as [Ht Ha]. destruct (Ha _ _ Hc) as [Hatt (k & Hk & Hg)].
  rewrite Hk. cbn [opt_unwrap]. rewrite mbind_ok.
  assert (Hnx : next_id (cancel k (timer d)).2 = next_id (timer d)).
  { destruct Ht as (Ho & _). by destruct (cancel_spec k (timer d) Ho) as (_ & _ & ?). }
  assert (Hex : armed_except token (set_timer (cancel k (timer d)).2
    (set_active (delete token (active_requests d)) d))) by (exact (cancel_armed k _ token Hdel Hg)).
  destruct (response_type response) as [id|res|res|err].
  - eapply handled_from; [apply process_handled| |].
    + destruct Hex as [Ht' Ha']. split; [done|]. simpl.
      intros token' c' [[<- <-]|[Hne Hc']]%lookup_insert_Some; [done|]. by apply Ha'.
    + simpl. by rewrite Hnx.
    + done.
    + done.
  - apply notify_handled; [|done|simpl; lia]. eapply delete_armed; [apply lookup_delete_eq|exact Hex].
  - apply notify_handled; [|done|simpl; lia]. eapply delete_armed; [apply lookup_delete_eq|exact Hex].
  - apply notify_handled; [|done|simpl; lia]. eapply delete_armed; [apply lookup_delete_eq|exact Hex].
Qed.

Lemma send_handled e addr token request d :
  client_ok d -> (next_id (timer d) + 1 < u64_bound)%Z ->
  handled d (send_request e addr token request d).
Proof.
  intros Hok Hb. unfold send_request. destruct (same_version (bound_addr d) addr).
  - eapply handled_from; [apply process_handled| |]; [|done|done|done].
    destruct Hok as [Ht Ha]. split; [done|]. simpl.
    intros token' c [[<- <-]|[Hne Hc]]%lookup_insert_Some; [|destruct (Ha _ _ Hc); auto].
    split; [|done]. unfold attempt_ok, MAXIMUM_REQUEST_RETRANSMIT_ATTEMPTS. simpl. lia.
  - apply notify_handled; [done|done|lia].
Qed.

Section Run.
Variable iter_active : gmap Z ConnectTimer -> list (Z * ConnectTimer).
Variable iter_cache : ConnectIdCache -> list (SocketAddr * (Z * Z)).
Hypothesis iter_cache_entries : forall m, iter_cache m ≡ₚ map_to_list m.
Context `{NT : NomTracker utf8_valid}.

Lemma iter_length cache : length (iter_cache cache) = size cache.
Proof. by rewrite iter_cache_entries, length_map_to_list. Qed.

(** The clean-up ends, and removes only connection ids that have expired. *)
Lemma clean_loop_spec utc fuel i cache :
  i <= size cache < fuel + i \/ (size cache < i /\ 0 < fuel) ->
  exists cache', clean_loop iter_cache utc fuel i cache = Ok cache' /\
    cache' ⊆ cache /\
    forall addr id t, cache !! addr = Some (id, t) -> is_expired utc t = false -> cache' !! addr = Some (id, t).
Proof.
  revert i cache. induction fuel as [|fuel IH]; intros i cache Hf; [lia|]. cbn [clean_loop].
  destruct (iter_cache cache !! i) as [[addr [id t]]|] eqn:Hi; [|by exists cache].
  assert (Hlt : i < size cache) by (rewrite <- iter_length; by eapply lookup_lt_Some).
  assert (Hin : cache !! addr = Some (id, t)).
  { apply elem_of_map_to_list. rewrite <- iter_cache_entries. by eapply list_elem_of_lookup_2. }
  destruct (is_expired utc t) eqn:Hexp.
  - assert (Hs : size (delete addr cache) = pred (size cache)) by (apply map_size_delete_Some; by eexists).
    destruct (IH (S i) (delete addr cache)) as (c' & -> & Hsub & Hkeep); [lia|].
    exists c'. split; [done|]. split.
    + etrans; [done|]. apply delete_subseteq.
    + intros a id' t' Ha Hne. apply (Hkeep _ _ _); [|done].
      rewrite lookup_delete_ne; [done|]. intros ->. congruence.
  - apply (IH (S i) cache). lia.
Qed.

Lemma clean_spec utc cache :
  exists cache', clean_expired iter_cache utc cache = Ok cache' /\
    cache' ⊆ cache /\
    forall addr id t, cache !! addr = Some (id, t) -> is_expired utc t = false -> cache' !! addr = Some (id, t).
Proof. unfold clean_expired. apply clean_loop_spec. rewrite iter_length. lia. Qed.

Lemma timeout_handled e t d :
  match t with TConnect token => armed_except token d | TCleanUp => client_ok d end ->
  (next_id (timer d) + 1 < u64_bound)%Z ->
  handled d (timeout_handler iter_cache e t d).
Proof.
  intros Hok Hb. destruct t as [token|]; cbn [timeout_handler]; [by apply process_handled|].
  destruct (clean_spec (utc e) (id_cache d)) as (cache & -> & _). rewrite mbind_ok. left.
  eexists. split; [done|]. destruct Hok as [Ht Ha]. unfold schedule_in. cbn [set_cache timer].
  set (dl := (now e + CONNECTION_ID_VALID_DURATION_MILLIS * 1000)%Z).
  pose proof (schedule_spec dl TCleanUp (timer d) Ht Hb) as Hs.
  pose proof (schedule_keeps dl TCleanUp (timer d)) as Hk.
  destruct (schedule_at dl TCleanUp (timer d)) as [k t']. destruct Hs as (_ & _ & _ & Hn & Ht').
  split; [split; [done|]|split; [done|simpl; lia]]. simpl. intros token c Hc.
  destruct (Ha _ _ Hc) as [H1 (k' & H2 & H3)]. split; [done|]. exists k'. split; [done|]. by apply Hk.
Qed.

Lemma notify_all_handled tokens d d0 :
  client_ok d -> closed d = closed d0 -> timer d = timer d0 ->
  (exists d', notify_all tokens d = Ok d' /\ client_ok d' /\ closed d' = closed d0 /\ timer d' = timer d0) \/
  (notify_all tokens d = Panic /\ exists token, token ∈ closed d0).
Proof.
  revert d. induction tokens as [|token tokens IH]; intros d Hok Hcl Ht; [left; by exists d|].
  cbn [notify_all]. unfold notify. case_decide as Hd.
  - right. split; [done|]. exists token. by rewrite <- Hcl.
  - rewrite mbind_ok. by apply IH.
Qed.

Lemma shutdown_handled d : client_ok d -> handled d (cl_shutdown iter_active d).
Proof.
  intros Hok. unfold cl_shutdown.
  destruct (notify_all_handled (iter_active (active_requests d)).*1 d d Hok eq_refl eq_refl)
    as [(d' & -> & [Ht _] & Hcl & Hti)|[-> Hp]]; [|by right].
  rewrite mbind_ok. left. eexists. split; [done|]. split; [|split; [done|simpl; rewrite Hti; lia]].
  split; [done|]. simpl. intros token c Hc. by rewrite lookup_empty in Hc.
Qed.

(** The timer's turn: the timeout it yields belongs to one request at most. *)
Lemma timer_handled e d :
  client_ok d -> (next_id (timer d) + 1 < u64_bound)%Z ->
  handled d (cl_run_one iter_active iter_cache e EvTimer d).
Proof.
  intros Hok Hb. cbn [cl_run_one].
  rewrite is_empty_contents. case_bool_decide as He.
  { left. exists d. split; [done|]. split; [done|split; [done|lia]]. }
  pose proof (poll_spec (now e) (timer d)) as Hp. pose proof Hok as [Ht Ha].
  pose proof (poll_ok (now e) (timer d) Ht) as Ht'.
  destruct (contents (timer d)) as [|[k v] rest] eqn:Hc; [done|].
  destruct (k.1 <=? now e)%Z; destruct Hp as (t' & Heq & Hrest & Hn); rewrite Heq in *; cbn [fst snd] in *.
  + cbn [opt_unwrap]. rewrite mbind_ok. eapply handled_from; [apply timeout_handled| |];
      [|simpl; by rewrite Hn|done|done].
    assert (Hothers : forall token c, active_requests d !! token = Some c ->
      v <> TConnect token -> armed t' token c).
    { intros token c Hact Hv. destruct (Ha _ _ Hact) as [_ (k' & Hk' & Hg')]. exists k'. split; [done|].
      rewrite Hc in Hg'. rewrite Hrest. cbn [btree_get] in Hg'.
      destruct (kcmp k' k); [congruence|done|done]. }
    destruct v as [token|].
    * split; [done|]. simpl. intros token' c Hact. destruct (Ha _ _ Hact). split; [done|].
      intros Hne. apply Hothers; [done|congruence].
    * split; [done|]. simpl. intros token' c Hact. destruct (Ha _ _ Hact). split; [done|].
      by apply Hothers.
  + left. eexists. split; [done|]. split; [|split; [done|simpl; lia]]. split; [done|]. simpl.
    intros token c Hact. destruct (Ha _ _ Hact) as [H1 (k' & Hk' & Hg')]. split; [done|].
    exists k'. split; [done|]. rewrite Hrest. by rewrite Hc in Hg'.
Qed.

Lemma event_handled e ev d :
  client_ok d -> (next_id (timer d) + 1 < u64_bound)%Z ->
  (exists token, ev = EvDropReceiver token) \/ handled d (cl_run_one iter_active iter_cache e ev d).
Proof.
  intros Hok Hb. destruct ev as [m addr| |[[addr token req| |]|]| |token]; cbn [cl_run_one command_in_handler];
    [right|right|right|right|right|right|right|left; by exists token].
  - unfold response_in_handler.
    destruct (tracker_parse_response m); [by apply recv_handled|..];
      (left; exists d; split; [done|split; [done|split; [done|lia]]]).
  - by apply shutdown_handled.
  - by apply send_handled.
  - by apply timeout_handled.
  - by apply shutdown_handled.
  - by apply shutdown_handled.
  - by apply timer_handled.
Qed.

(** ** Runs *)

Lemma run_handled evs d :
  client_ok d -> (next_id (timer d) + Z.of_nat (length evs) < u64_bound)%Z ->
  (exists d', cl_run_task iter_active iter_cache evs d = Ok d' /\ client_ok d') \/
  (cl_run_task iter_active iter_cache evs d = Panic /\
   ((exists token, token ∈ closed d) \/ exists e token, (e, EvDropReceiver token) ∈ evs)).
Proof.
  revert d. induction evs as [|[e ev] evs IH]; intros d Hok Hb; [left; by exists d|].
  cbn [cl_run_task length] in *. destruct (cl_is_run d); [|left; by exists d].
  destruct (event_handled e ev d Hok) as [[token ->]|[(d' & -> & Hok' & Hcl & Hn)|[-> Hp]]]; [lia| | |].
  - cbn [cl_run_one]. rewrite mbind_ok. set (d1 := Build_ClientDispatcher _ _ _ _ _ _ _ _ _ _).
    destruct (IH d1) as [Hl|[-> _]]; [done|simpl; lia|by left|].
    right. split; [done|]. right. exists e, token. apply list_elem_of_here.
  - rewrite mbind_ok. destruct (IH d' Hok') as [Hl|[-> [Hp|(e' & token & Hin)]]]; [lia|by left| |].
    + right. split; [done|]. left. by rewrite <- Hcl.
    + right. split; [done|]. right. exists e', token. by apply list_elem_of_further.
  - right. split; [done|]. by left.
Qed.
End Run.

Lemma client_new_ok bind peer_id port : client_ok (client_new bind peer_id port).
Proof.
  split; [split_and!; [constructor|constructor|done]|]. simpl. intros token c Hc.
  by rewrite lookup_empty in Hc.
Qed.

(** * One request *)

Definition client_request_ok (r : ClientRequest) : Prop :=
  match r with
  | CAnnounce h st => is_hash h /\ state_ok st
  | CScrape h => is_hash h
  end.

(** The connection id in force for an address. *)
Definition valid_id (utc : Z) (addr : SocketAddr) (cache : ConnectIdCache) : option Z :=
  match cache !! addr with
  | Some (id, t) => if (utc - t <? CONNECTION_ID_VALID_DURATION_MILLIS)%Z then Some id else None
  | None => None
  end.

Lemma cache_get_valid utc addr cache : (cache_get utc addr cache).1 = valid_id utc addr cache.
Proof.
  unfold cache_get, valid_id, is_expired. destruct (cache !! addr) as [[id t]|]; [|done].
  destruct (Z.leb_spec CONNECTION_ID_VALID_DURATION_MILLIS (utc - t)),
    (Z.ltb_spec (utc - t) CONNECTION_ID_VALID_DURATION_MILLIS); simpl; done || lia.
Qed.

(** What is asked of the tracker, given the connection id in force. *)
Definition asks (d : ClientDispatcher) (e : Env) (c : ConnectTimer) (req : TrackerRequest) : Prop :=
  match valid_id (utc e) (ct_addr c) (id_cache d) with
  | None => rq_connection_id req = CONNECT_ID_PROTOCOL_ID /\ request_type req = RConnect
  | Some id => rq_connection_id req = id /\
      match ct_request c, request_type req with
      | CAnnounce h st, RAnnounce a => ar_info_hash a = h /\ ar_state a = st /\
          ar_peer_id a = cl_peer_id d /\ ar_port a = announce_port d
      | CScrape h, RScrape s => hashes_iter s = Ok [h]
      | _, _ => False
      end
  end.

(** What processing a request that has attempts left does to the state. *)
Lemma process_sends e token (timed_out : bool) d c :
  active_requests d !! token = Some c -> ct_attempt c <> MAXIMUM_REQUEST_RETRANSMIT_ATTEMPTS ->
  timer_ok (timer d) -> (next_id (timer d) + 1 < u64_bound)%Z ->
  let attempt := if timed_out then (ct_attempt c + 1)%Z else ct_attempt c in
  let '(cid, rt) := resolve_request e d (ct_addr c) (valid_id (utc e) (ct_addr c) (id_cache d)) (ct_request c) in
  let req := {| rq_connection_id := cid; rq_transaction_id := token; request_type := rt |} in
  exists d' c' k, cl_process_request e token timed_out d = Ok d' /\
    sent d' = sent d ++ [(request_write_bytes [] req, ct_addr c)] /\
    notified d' = notified d /\ closed d' = closed d /\
    active_requests d' !! token = Some c' /\ ct_attempt c' = attempt /\ ct_timeout_id c' = Some k /\
    k.1 = (now e + calculate_message_timeout_millis attempt * 1000)%Z /\
    btree_get k (contents (timer d')) = Some (TConnect token) /\
    timer_ok (timer d') /\ next_id (timer d') = (next_id (timer d) + 1)%Z.
Proof.
  intros Hc Ha Ht Hb attempt. unfold cl_process_request. rewrite Hc. unfold current_timeout.
  rewrite (proj2 (Z.eqb_neq _ _) Ha). cbn [ct_addr ct_request set_active id_cache].
  rewrite <- (cache_get_valid (utc e)).
  destruct (cache_get (utc e) (ct_addr c) (id_cache d)) as [o cache]. cbn [fst].
  change (resolve_request e (set_cache cache (set_active (delete token (active_requests d)) d))
    (ct_addr c) o (ct_request c)) with (resolve_request e d (ct_addr c) o (ct_request c)).
  destruct (resolve_request e d (ct_addr c) o (ct_request c)) as [cid rt].
  cbn [set_active set_cache send_datagram timer]. unfold schedule_in. fold attempt.
  set (deadline := (now e + calculate_message_timeout_millis attempt * 1000)%Z).
  set (c' := {| ct_addr := ct_addr c; ct_attempt := attempt; ct_request := ct_request c;
                ct_timeout_id := ct_timeout_id c |}).
  pose proof (schedule_armed deadline token c' (timer d) Ht Hb) as Hs.
  destruct (schedule_at deadline (TConnect token) (timer d)) as [k t'].
  destruct Hs as (Ht' & Hn & (k' & Hk & Hg) & Hk1). simpl in Hk. injection Hk as <-.
  eexists _, (set_timeout_id k c'), k. split; [done|]. simpl. rewrite lookup_insert_eq. done.
Qed.

(** The datagram a request is sent as says what the specification asks. *)
Lemma resolved_asks `{NT : NomTracker utf8_valid} e token d c cid rt :
  is_u32 token -> is_u32 (rand_key e) -> is_hash (cl_peer_id d) -> is_u16 (announce_port d) ->
  map_Forall (fun _ v => is_u64 v.1) (id_cache d) -> client_request_ok (ct_request c) ->
  resolve_request e d (ct_addr c) (valid_id (utc e) (ct_addr c) (id_cache d)) (ct_request c) = (cid, rt) ->
  let req := {| rq_connection_id := cid; rq_transaction_id := token; request_type := rt |} in
  tracker_parse_request (request_write_bytes [] req) = Ok (Done [] req) /\ asks d e c req.
Proof.
  intros Htok Hkey Hpid Hport Hids Hreq Hres req.
  assert (Hid : forall id, valid_id (utc e) (ct_addr c) (id_cache d) = Some id -> is_u64 id).
  { intros id. unfold valid_id. destruct (id_cache d !! ct_addr c) as [[id' t]|] eqn:Hl; [|done].
    case_match; [|done]. intros [= <-]. exact (Hids _ _ Hl). }
  unfold asks. destruct (valid_id (utc e) (ct_addr c) (id_cache d)) as [id|].
  - specialize (Hid id eq_refl). destruct (ct_request c) as [h st|h]; cbn [resolve_request client_request_ok] in *;
      injection Hres as <- <-; (split; [apply request_read_back|]).
    + destruct Hreq as [Hh Hst]. unfold request_ok, announce_ok. simpl.
      split_and!; try done. by destruct (ct_addr c).
    + simpl. by rewrite map_to_list_empty.
    + done.
    + unfold request_ok. simpl. split_and!; try done. destruct Hreq as [Hl _]. by rewrite Hl.
    + done.
    + simpl. split; [done|]. by apply (hashes_iter_inserted [h]); constructor.
  - cbn [resolve_request] in Hres. injection Hres as <- <-. split; [|done].
    apply request_read_back; [|done]. unfold request_ok. simpl. done.
Qed.

(** Consecutive timeouts of one request. *)
Fixpoint timeouts (token : Z) (es : list Env) (d : ClientDispatcher) : outcome unit ClientDispatcher :=
  match es with
  | [] => Ok d
  | e :: es => d ← cl_process_request e token true d; timeouts token es d
  end.

Lemma process_gives_up e token timed_out d c :
  active_requests d !! token = Some c -> ct_attempt c = MAXIMUM_REQUEST_RETRANSMIT_ATTEMPTS ->
  cl_process_request e token timed_out d
  = notify token (inl MaxTimeout) (set_active (delete token (active_requests d)) d).
Proof. intros Hc Ha. unfold cl_process_request, current_timeout. by rewrite Hc, Ha. Qed.

(** * Theorems *)

(** C19. Whatever the client's dispatcher sees in whatever order (responses,
    other datagrams, commands, timeouts, clock values), as long as no caller
    has dropped the receiver of its result it does not panic, and at the end
    every request still active has made at most eight attempts and is waiting
    for a timeout that the timer holds. A panic needs a dropped receiver. *)
Theorem client_requests_armed `{NT : NomTracker utf8_valid} iter_active iter_cache
    (bind : SocketAddr) (peer_id : ShaHash) (port : Z) (evs : list (Env * ClientEvent)) :
  (forall m, iter_cache m ≡ₚ map_to_list m) ->
  (Z.of_nat (length evs) < 18446744073709551616)%Z ->
  (exists d, cl_run_task iter_active iter_cache evs (client_new bind peer_id port) = Ok d /\
     forall token c, active_requests d !! token = Some c ->
       (0 <= ct_attempt c <= 8)%Z /\
       exists k, ct_timeout_id c = Some k /\ btree_get k (contents (timer d)) = Some (TConnect token)) \/
  (cl_run_task iter_active iter_cache evs (client_new bind peer_id port) = Panic /\
   exists e token, (e, EvDropReceiver token) ∈ evs).
Proof.
  intros Hiter Hlen.
  destruct (run_handled iter_active iter_cache Hiter evs (client_new bind peer_id port))
    as [(d & Hr & [_ Hd])|[Hr [(token & Hcl)|Hdrop]]]; [apply client_new_ok|simpl; unfold u64_bound; lia| | |].
  - left. exists d. split; [done|]. exact Hd.
  - by apply elem_of_empty in Hcl.
  - by right.
Qed.

(** Processing an active request: after the eighth attempt it is removed
    and its caller told so; otherwise one datagram goes to the tracker, which
    reads back as a connect request if no connection id received within the
    last minute is known for the address, and as the announce or scrape of the
    request with that id otherwise; a timeout adds one attempt, and the next
    one is set to double the waiting time. *)
Theorem request_processed `{NT : NomTracker utf8_valid} (e : Env) (token : Z) (timed_out : bool)
    (d : ClientDispatcher) (c : ConnectTimer) :
  active_requests d !! token = Some c -> timer_ok (timer d) ->
  (next_id (timer d) + 1 < 18446744073709551616)%Z ->
  is_u32 token -> is_u32 (rand_key e) -> is_hash (cl_peer_id d) -> is_u16 (announce_port d) ->
  map_Forall (fun _ v => is_u64 v.1) (id_cache d) -> client_request_ok (ct_request c) ->
  if (ct_attempt c =? 8)%Z then
    cl_process_request e token timed_out d
    = notify token (inl MaxTimeout) (set_active (delete token (active_requests d)) d)
  else
    let attempt := if timed_out then (ct_attempt c + 1)%Z else ct_attempt c in
    exists d' req c' k, cl_process_request e token timed_out d = Ok d' /\
      sent d' = sent d ++ [(request_write_bytes [] req, ct_addr c)] /\
      tracker_parse_request (request_write_bytes [] req) = Ok (Done [] req) /\
      rq_transaction_id req = token /\ asks d e c req /\ notified d' = notified d /\
      active_requests d' !! token = Some c' /\ ct_attempt c' = attempt /\ ct_timeout_id c' = Some k /\
      k.1 = (now e + 15000 * 2 ^ attempt * 1000)%Z /\
      btree_get k (contents (timer d')) = Some (TConnect token).
Proof.
  intros Hc Ht Hb Htok Hkey Hpid Hport Hids Hreq. destruct (Z.eqb_spec (ct_attempt c) 8) as [Ha|Ha].
  - by apply (process_gives_up e token timed_out d c).
  - intros attempt. pose proof (process_sends e token timed_out d c Hc Ha Ht Hb) as Hp. cbv zeta in Hp.
    pose proof (resolved_asks e token d c) as Hask.
    destruct (resolve_request e d (ct_addr c) _ (ct_request c)) as [cid rt].
    destruct Hp as (d' & c' & k & Hr & Hsent & Hnot & _ & Hact & Hatt & Hk & Hk1 & Hg & _).
    destruct (Hask cid rt) as [Hparse Hasks]; try done.
    eexists d', _, c', k. split_and!; try done.
    rewrite Hk1. unfold calculate_message_timeout_millis, attempt. lia.
Qed.

(** A request whose tracker never answers ends: with [a] attempts made,
    after [9 - a] timeouts it has been sent [8 - a] more times, is no longer
    active, and its caller has been told that it timed out. *)
Theorem timeouts_end_request (token : Z) (es : list Env) (d : ClientDispatcher) (c : ConnectTimer) :
  active_requests d !! token = Some c -> timer_ok (timer d) ->
  (next_id (timer d) + 9 < 18446744073709551616)%Z -> token ∉ closed d ->
  (0 <= ct_attempt c <= 8)%Z -> Z.of_nat (length es) = (9 - ct_attempt c)%Z ->
  exists d', timeouts token es d = Ok d' /\ active_requests d' !! token = None /\
    notified d' = notified d ++ [(token, inl MaxTimeout)] /\
    Z.of_nat (length (sent d')) = (Z.of_nat (length (sent d)) + 8 - ct_attempt c)%Z.
Proof.
  intros Hc Ht Hb Hcl Ha Hlen.
  assert (Hb' : (next_id (timer d) + Z.of_nat (length es) < u64_bound)%Z) by (unfold u64_bound; lia).
  clear Hb. revert d c Hc Ht Hb' Hcl Ha Hlen.
  induction es as [|e es IH]; intros d c Hc Ht Hb Hcl Ha Hlen; [simpl in Hlen; lia|].
  cbn [timeouts length] in *. destruct (decide (ct_attempt c = 8)%Z) as [H8|H8].
  - rewrite (process_gives_up e token true d c) by done. unfold notify. simpl.
    rewrite decide_False by done. rewrite mbind_ok. destruct es; [|simpl in Hlen; lia].
    eexists. split; [done|]. simpl. rewrite lookup_delete_eq. split_and!; [done|done|lia].
  - pose proof (process_sends e token true d c Hc H8 Ht) as Hp. cbv zeta in Hp.
    destruct (resolve_request e d (ct_addr c) _ (ct_request c)) as [cid rt].
    destruct Hp as (d1 & c1 & k & -> & Hsent & Hnot & Hcl1 & Hact & Hatt & _ & _ & _ & Ht1 & Hn1); [lia|].
    rewrite mbind_ok. destruct (IH d1 c1) as (d' & -> & Hno & Hnd & Hs);
      [done|done|lia|by rewrite Hcl1|lia|lia|].
    exists d'. split_and!; [done|done|by rewrite Hnd, Hnot|].
    rewrite Hs, Hsent, length_app, Hatt. simpl. lia.
Qed.

(** * Witnesses and examples *)

#[local] Existing Instance nom3.
#[local] Existing Instance tracker_nom.

Definition tracker_addr : SocketAddr := SockV4 {| v4_ip := Ipv4 10 0 0 1; v4_port := 80 |}.
Definition sample_peer : ShaHash := {| hash := replicate 20 8%Z |}.
Definition sample_scrape : ClientRequest := CScrape {| hash := replicate 20 9%Z |}.
Definition at_time (ms : Z) : Env := {| now := ms; utc := ms; rand_key := 5 |}.

(** A scrape is requested, connected, and answered. *)
Definition sample_exchange : list (Env * ClientEvent) :=
  [(at_time 0, EvCommand (Some StartTimer));
   (at_time 1, EvCommand (Some (Request tracker_addr 7 sample_scrape)));
   (at_time 2, EvResponse (tracker_response_write_bytes
      {| rs_transaction_id := 7; response_type := SConnect 99 |}) tracker_addr);
   (at_time 3, EvResponse (tracker_response_write_bytes
      {| rs_transaction_id := 7; response_type := SScrape (stats_insert
         {| st_seeders := 1; st_downloaded := 2; st_leechers := 3 |} scrape_response_new) |}) tracker_addr)].

Definition sample_client : ClientDispatcher := client_new default_route_v4 sample_peer 6881.

Example sample_exchange_result :
  match cl_run_task map_to_list map_to_list sample_exchange sample_client with
  | Ok d => (notified d).*1 = [7%Z] /\ length (sent d) = 2 /\ active_requests d = ∅
  | _ => False
  end.
Proof. vm_compute. done. Qed.

Lemma client_requests_armed_witness :
  (exists d, cl_run_task map_to_list map_to_list sample_exchange sample_client = Ok d /\
     forall token c, active_requests d !! token = Some c ->
       (0 <= ct_attempt c <= 8)%Z /\
       exists k, ct_timeout_id c = Some k /\ btree_get k (contents (timer d)) = Some (TConnect token)) \/
  (cl_run_task map_to_list map_to_list sample_exchange sample_client = Panic /\
   exists e token, (e, EvDropReceiver token) ∈ sample_exchange).
Proof.
  apply (client_requests_armed map_to_list map_to_list default_route_v4 sample_peer 6881 sample_exchange).
  - done.
  - simpl. lia.
Defined.

(** A client with one request that has been sent once. *)
Definition waiting : ConnectTimer :=
  {| ct_addr := tracker_addr; ct_attempt := 0; ct_request := sample_scrape; ct_timeout_id := Some (15000000, 0)%Z |}.
Definition waiting_client : ClientDispatcher :=
  set_timer {| next_id := 1; current := None; queue := [((15000000, 0)%Z, TConnect 7)] |}
    (set_active {[ 7%Z := waiting ]} sample_client).

Lemma waiting_timer_ok : timer_ok (timer waiting_client).
Proof. split_and!; [repeat constructor|repeat constructor|done]. Defined.

Lemma request_processed_witness :
  exists d', cl_process_request (at_time 15000000) 7 true waiting_client = Ok d' /\ length (sent d') = 1.
Proof.
  pose proof (request_processed (at_time 15000000) 7 true waiting_client waiting) as Hp.
  destruct Hp as (d' & req & c' & k & Hr & Hs & _).
  - reflexivity.
  - exact waiting_timer_ok.
  - reflexivity.
  - done.
  - done.
  - apply (bool_decide_unpack _). by vm_compute.
  - done.
  - apply map_Forall_empty.
  - apply (bool_decide_unpack _). by vm_compute.
  - exists d'. split; [exact Hr|]. by rewrite Hs.
Defined.

Lemma timeouts_end_request_witness :
  exists d', timeouts 7 (replicate 9 (at_time 0)) waiting_client = Ok d' /\
    notified d' = [(7%Z, inl MaxTimeout)] /\ active_requests d' !! 7%Z = None.
Proof.
  destruct (timeouts_end_request 7 (replicate 9 (at_time 0)) waiting_client waiting)
    as (d' & Hr & Hno & Hn & _).
  - reflexivity.
  - exact waiting_timer_ok.
  - reflexivity.
  - simpl. set_solver.
  - simpl. lia.
  - reflexivity.
  - exists d'. split; [exact Hr|]. split; [exact Hn|exact Hno].
Defined.

(** A response with the right transaction id from any other address makes the
    request disappear: it is no longer active, nothing is sent and the caller
    is never told. *)
Lemma foreign_response_drops_request e addr response d c :
  active_requests d !! rs_transaction_id response = Some c -> ct_addr c <> addr ->
  exists d', recv_response e addr response d = Ok d' /\
    active_requests d' !! rs_transaction_id response = None /\
    notified d' = notified d /\ sent d' = sent d.
Proof.
  intros Hc Hne. unfold recv_response. rewrite Hc, decide_False by done. eexists. split; [done|].
  simpl. rewrite lookup_delete_eq. done.
Qed.

(** The limiter admits [capacity] requests without an acknowledgement, and
    then none; the dispatcher never acknowledges one. *)
Lemma limiter_saturates n l :
  (0 <= limiter_active l)%Z -> (limiter_active l + Z.of_nat n = capacity l)%Z -> (capacity l < u64_bound - 1)%Z ->
  let l' := Nat.iter n (fun l => (can_initiate l).2) l in
  limiter_active l' = capacity l /\ (can_initiate l').1 = false /\ (can_initiate l').2 = l'.
Proof.
  revert l. induction n as [|n IH]; intros l Hl Hn Hc.
  - simpl. rewrite Z.add_0_r in Hn. unfold can_initiate, acknowledge.
    rewrite (proj2 (Z.ltb_ge _ _)) by lia. simpl. split_and!; [lia|done|].
    destruct l as [a cap]. simpl in *. f_equal. unfold to_u64, u64_bound in *.
    rewrite (Z.mod_small (a + 1)) by lia. rewrite Z.add_simpl_r. apply Z.mod_small. lia.
  - assert (Hstep : (can_initiate l).2 = {| limiter_active := limiter_active l + 1; capacity := capacity l |}).
    { unfold can_initiate. rewrite (proj2 (Z.ltb_lt _ _)) by lia. simpl. f_equal.
      unfold to_u64, u64_bound in *. apply Z.mod_small. lia. }
    cbv zeta. rewrite Nat.iter_succ_r, Hstep.
    apply (IH {| limiter_active := limiter_active l + 1; capacity := capacity l |}); simpl; lia.
Qed.
