(* ===== verification/UtpPacket.v ===== *)
(** UtpPacket: the packets of the micro transport protocol ([btp-utp/src]:
    packet.rs, bit_iterator.rs, time.rs, util.rs, error.rs).

    A packet is its bytes.  The header fields are read and written through a
    cast of the buffer to a struct and converted with [from_be]/[to_be]: on
    every host this is the big-endian value at the field's offset. *)

From stdpp Require Import base list.
From Stdlib Require Import ZArith Lia.
From S2P Require Import Prelude.

(** * error.rs *)

Inductive ParseError : Type :=
  | InvalidExtensionLength
  | InvalidPacketLength
  | InvalidPacketType (n : Z)
  | UnsupportedVersion.

(** * packet.rs: types *)

Definition HEADER_SIZE : nat := 20.

Inductive PacketType : Type := Data | Fin | State | Reset | Syn.

Definition PacketType_try_from (original : Z) : outcome ParseError PacketType :=
  if (original =? 0)%Z then Ok Data
  else if (original =? 1)%Z then Ok Fin
  else if (original =? 2)%Z then Ok State
  else if (original =? 3)%Z then Ok Reset
  else if (original =? 4)%Z then Ok Syn
  else Err (InvalidPacketType original).

Definition u8_of_PacketType (t : PacketType) : Z :=
  match t with Data => 0 | Fin => 1 | State => 2 | Reset => 3 | Syn => 4 end.

Inductive ExtensionType : Type := ENone | SelectiveAck | EUnknown (n : Z).

#[global] Instance ExtensionType_eq_dec : EqDecision ExtensionType.
Proof. solve_decision. Defined.

Definition ExtensionType_from (original : Z) : ExtensionType :=
  if (original =? 0)%Z then ENone
  else if (original =? 1)%Z then SelectiveAck
  else EUnknown original.

Definition u8_of_ExtensionType (t : ExtensionType) : Z :=
  match t with ENone => 0 | SelectiveAck => 1 | EUnknown n => n end.

Definition is_none (t : ExtensionType) : bool := bool_decide (t = ENone).

Record Extension := { ext_ty : ExtensionType; ext_data : bytes }.

(** * packet.rs: header fields *)

Notation Packet := (list Z) (only parsing).

(** The struct field of [n] bytes at offset [off]. *)
Definition get_field (off n : nat) (p : Packet) : Z := be_val (take n (drop off p)).
Definition set_field (off n : nat) (v : Z) (p : Packet) : Packet :=
  take off p ++ be_bytes n v ++ drop (off + n) p.

Definition type_ver (p : Packet) : Z := get_field 0 1 p.

(** [PacketHeader::get_type]: unwraps the conversion. *)
Definition get_type (p : Packet) : outcome ParseError PacketType :=
  unwrap (PacketType_try_from (Z.shiftr (type_ver p) 4)).
Definition get_version (p : Packet) : Z := Z.land (type_ver p) 15.
Definition set_type (t : PacketType) (p : Packet) : Packet :=
  let version := Z.land 15 (type_ver p) in
  set_field 0 1 (Z.lor (to_u8 (Z.shiftl (u8_of_PacketType t) 4)) version) p.
Definition get_extension_type (p : Packet) : ExtensionType :=
  ExtensionType_from (get_field 1 1 p).

Definition connection_id (p : Packet) : Z := get_field 2 2 p.
Definition timestamp (p : Packet) : Z := get_field 4 4 p.
Definition timestamp_difference (p : Packet) : Z := get_field 8 4 p.
Definition wnd_size (p : Packet) : Z := get_field 12 4 p.
Definition seq_nr (p : Packet) : Z := get_field 16 2 p.
Definition ack_nr (p : Packet) : Z := get_field 18 2 p.

Definition set_connection_id (v : Z) (p : Packet) : Packet := set_field 2 2 v p.
Definition set_timestamp (v : Z) (p : Packet) : Packet := set_field 4 4 v p.
(** The [Delay] is cast to [u32]. *)
Definition set_timestamp_difference (v : Z) (p : Packet) : Packet := set_field 8 4 (to_u32 v) p.
Definition set_wnd_size (v : Z) (p : Packet) : Packet := set_field 12 4 v p.
Definition set_seq_nr (v : Z) (p : Packet) : Packet := set_field 16 2 v p.
Definition set_ack_nr (v : Z) (p : Packet) : Packet := set_field 18 2 v p.

(** [PacketHeader::default], [Packet::new], [Packet::with_payload] *)
Definition default_header : bytes :=
  Z.lor (Z.shiftl (u8_of_PacketType Data) 4) 1 :: replicate 19 0%Z.
Definition packet_new : Packet := default_header.
Definition with_payload (payload : bytes) : Packet := set_type Data default_header ++ payload.

(** * packet.rs: extensions and payload *)

(** The loop of [payload]: the position after the last extension.  Each turn
    moves at least two bytes on. *)
Fixpoint skip_extensions (fuel : nat) (p : Packet) (index : nat) (extension_type : ExtensionType)
    : outcome ParseError nat :=
  match fuel with
  | O => NoFuel
  | S fuel =>
      if (index <? length p) && negb (is_none extension_type) then
        len ← Prelude.index p (index + 1);
        next ← Prelude.index p index;
        skip_extensions fuel p (index + (Z.to_nat len + 2)) (ExtensionType_from next)
      else Ok index
  end.

Definition payload (p : Packet) : outcome ParseError bytes :=
  ty ← Prelude.index p 1;
  i ← skip_extensions (length p + 1) p HEADER_SIZE (ExtensionType_from ty);
  slice_from p i.

(** [ExtensionIterator] *)
Record ExtensionIterator := { raw_bytes : bytes; next_extension : ExtensionType; ei_index : nat }.

Definition extensions (p : Packet) : outcome ParseError ExtensionIterator :=
  ty ← Prelude.index p 1;
  Ok {| raw_bytes := p; next_extension := ExtensionType_from ty; ei_index := HEADER_SIZE |}.

Definition extension_next (it : ExtensionIterator)
    : outcome ParseError (option (Extension * ExtensionIterator)) :=
  if is_none (next_extension it) then Ok None
  else if ei_index it <? length (raw_bytes it) then
    len ← Prelude.index (raw_bytes it) (ei_index it + 1);
    let extension_start := ei_index it + 2 in
    let extension_end := extension_start + Z.to_nat len in
    data ← slice (raw_bytes it) extension_start extension_end;
    next ← Prelude.index (raw_bytes it) (ei_index it);
    Ok (Some ({| ext_ty := next_extension it; ext_data := data |},
              {| raw_bytes := raw_bytes it; next_extension := ExtensionType_from next;
                 ei_index := ei_index it + (Z.to_nat len + 2) |}))
  else Ok None.

Fixpoint extension_collect (fuel : nat) (it : ExtensionIterator) : outcome ParseError (list Extension) :=
  match fuel with
  | O => NoFuel
  | S fuel =>
      r ← extension_next it;
      match r with
      | None => Ok []
      | Some (e, it') => rest ← extension_collect fuel it'; Ok (e :: rest)
      end
  end.

(** The loop of [check_extensions]; answers the type left pending. *)
Fixpoint check_loop (fuel : nat) (data : bytes) (index : nat) (extension_type : ExtensionType)
    : outcome ParseError ExtensionType :=
  match fuel with
  | O => NoFuel
  | S fuel =>
      if (index <? length data) && negb (is_none extension_type) then
        if length data <? index + 2 then Err InvalidPacketLength
        else
          len ← Prelude.index data (index + 1);
          let extension_end := index + 2 + Z.to_nat len in
          if (len =? 0)%Z || negb (len mod 4 =? 0)%Z || (length data <? extension_end)
          then Err InvalidExtensionLength
          else
            next ← Prelude.index data index;
            check_loop fuel data (index + (Z.to_nat len + 2)) (ExtensionType_from next)
      else Ok extension_type
  end.

Definition check_extensions (data : bytes) : outcome ParseError unit :=
  if length data <? HEADER_SIZE then Err InvalidPacketLength
  else
    ty ← Prelude.index data 1;
    let extension_type := ExtensionType_from ty in
    if (length data =? HEADER_SIZE) && negb (is_none extension_type)
    then Err InvalidExtensionLength
    else
      pending ← check_loop (length data + 1) data HEADER_SIZE extension_type;
      if negb (is_none pending) then Err InvalidPacketLength else Ok tt.

(** The checks of [PacketHeader::try_from_type]; the header it builds is dropped. *)
Definition check_header (original : bytes) : outcome ParseError unit :=
  if length original <? HEADER_SIZE then Err InvalidPacketLength
  else
    b0 ← Prelude.index original 0;
    if negb (Z.land b0 15 =? 1)%Z then Err UnsupportedVersion
    else _ ← PacketType_try_from (Z.shiftr b0 4); Ok tt.

(** [Packet::try_from_type].  [and]'s argument is evaluated first, but it has no
    effect and the first error wins. *)
Definition Packet_try_from (original : bytes) : outcome ParseError Packet :=
  _ ← check_header original;
  _ ← check_extensions original;
  Ok original.

(** ** [Packet::set_sack] *)

(** The loop over the existing extensions, marking the last one. *)
Fixpoint sack_loop (fuel : nat) (p : Packet) (index : nat) (extension_type : ExtensionType)
    : outcome ParseError (nat * Packet) :=
  match fuel with
  | O => NoFuel
  | S fuel =>
      if (index <? length p) && negb (is_none extension_type) then
        len ← Prelude.index p (index + 1);
        next ← Prelude.index p index;
        let extension_type' := ExtensionType_from next in
        let p' := if is_none extension_type' then <[index := 1%Z]> p else p in
        sack_loop fuel p' (index + (Z.to_nat len + 2)) extension_type'
      else Ok (index, p)
  end.

(** The insertions of the values, one after the other. *)
Fixpoint insert_all (p : Packet) (at_ : nat) (bv : bytes) : outcome ParseError Packet :=
  match bv with
  | [] => Ok p
  | value :: bv => p' ← vec_insert p at_ value; insert_all p' (at_ + 1) bv
  end.

Definition set_sack (bv : bytes) (p : Packet) : outcome ParseError Packet :=
  _ ← assert_that (4 <=? length bv);
  _ ← assert_that (length bv mod 4 =? 0);
  ty ← Prelude.index p 1;
  '(i, p1) ← (if is_none (ExtensionType_from ty) then Ok (HEADER_SIZE, <[1 := 1%Z]> p)
              else sack_loop (length p + 1) p HEADER_SIZE (ExtensionType_from ty));
  p2 ← vec_insert p1 i 0%Z;
  p3 ← vec_insert p2 (i + 1) (to_u8 (Z.of_nat (length bv)));
  insert_all p3 (i + 2) bv.

(** * bit_iterator.rs *)

Record BitIterator := { object : bytes; next_index : nat; end_index : nat }.

Definition from_bytes (obj : bytes) : BitIterator :=
  {| object := obj; next_index := 0; end_index := length obj * 8 |}.

Definition bit_next (it : BitIterator) : outcome ParseError (option (bool * BitIterator)) :=
  if negb (next_index it =? end_index it) then
    byte ← Prelude.index (object it) (next_index it / 8);
    let bit := Z.land (Z.shiftr byte (Z.of_nat (next_index it mod 8))) 1 in
    Ok (Some ((bit =? 1)%Z,
      {| object := object it; next_index := next_index it + 1; end_index := end_index it |}))
  else Ok None.

Fixpoint bit_collect (fuel : nat) (it : BitIterator) : outcome ParseError (list bool) :=
  match fuel with
  | O => NoFuel
  | S fuel =>
      r ← bit_next it;
      match r with
      | None => Ok []
      | Some (b, it') => rest ← bit_collect fuel it'; Ok (b :: rest)
      end
  end.

(** [u8::count_ones] and [BitIterator::count_ones] *)
Definition u8_count_ones (b : Z) : nat :=
  length (filter (fun i => Z.testbit b (Z.of_nat i) = true) (seq 0 8)).
Definition count_ones (it : BitIterator) : nat :=
  fold_left (fun acc bv => acc + u8_count_ones bv) (object it) 0.

(** * time.rs, util.rs *)

(** [now_microseconds], of a clock showing [secs] and [nanos] since the epoch. *)
Definition now_microseconds (secs nanos : Z) : Z :=
  to_u32 (to_u32 (to_u64 (secs * 1000000)) + nanos / 1000).

(** [Timestamp - Timestamp] and [Delay - Delay] are [i64]; [u32::from(Delay)]. *)
Definition timestamp_sub (a b : Z) : Z := (a - b)%Z.
Definition u32_of_delay (d : Z) : Z := to_u32 d.

(** [abs_diff] at [u32] *)
Definition abs_diff (a b : Z) : Z := if (b <? a)%Z then (a - b)%Z else (b - a)%Z.

(** [generate_sequential_identifiers], of the random [u16] drawn. *)
Definition generate_sequential_identifiers (id : Z) : Z * Z :=
  if (id + 1 <? 65536)%Z then (id, id + 1)%Z else (id - 1, id)%Z.
