(* ===== verification/UtpPacketCorrect.v ===== *)
(** UtpPacketCorrect: the bytes of a uTP packet are a header, a chain of
    extensions and a payload, and every operation respects this structure. *)

From stdpp Require Import base list.
From Stdlib Require Import ZArith Lia.
From S2P Require Import Prelude UtpPacket.

(** * The structure of a packet *)

(** An extension: its type byte and its data. *)
Notation ext := (Z * bytes)%type.

Definition ext_ok (e : ext) : Prop :=
  (0 < e.1 < 256)%Z /\ 0 < length e.2 < 256 /\ length e.2 mod 4 = 0.

(** The type byte that announces the chain: 0 when it is empty. *)
Definition first_type (exts : list ext) : Z := match exts with [] => 0%Z | e :: _ => e.1 end.

(** Each extension: the type of the next one, the length, the data. *)
Fixpoint ext_bytes (exts : list ext) : bytes :=
  match exts with
  | [] => []
  | e :: rest => first_type rest :: Z.of_nat (length e.2) :: e.2 ++ ext_bytes rest
  end.

(** The fields of a header around its extension byte. *)
Definition header_ok (h0 : Z) (htail : bytes) : Prop :=
  length htail = 18 /\ Z.land h0 15 = 1%Z /\ (0 <= Z.shiftr h0 4 <= 4)%Z.

Definition packet_bytes (h0 : Z) (htail : bytes) (exts : list ext) (pl : bytes) : bytes :=
  (h0 :: first_type exts :: htail) ++ ext_bytes exts ++ pl.

Definition to_extension (e : ext) : Extension :=
  {| ext_ty := ExtensionType_from e.1; ext_data := e.2 |}.

(** * Types *)

Lemma is_none_from z : is_none (ExtensionType_from z) = (z =? 0)%Z.
Proof.
  unfold is_none, ExtensionType_from. destruct (Z.eqb_spec z 0); [done|].
  by destruct (Z.eqb_spec z 1).
Qed.

Lemma first_type_none exts :
  Forall ext_ok exts -> is_none (ExtensionType_from (first_type exts)) = bool_decide (exts = []).
Proof.
  intros H. rewrite is_none_from. destruct H as [|e exts [He _] _]; [done|].
  destruct (Z.eqb_spec (first_type (e :: exts)) 0); simpl in *; [lia|done].
Qed.

(** * Walking the chain *)

(** The two bytes an extension starts with, and where it ends. *)
Lemma chain_head (pre : bytes) e rest pl :
  ext_ok e ->
  let bs := pre ++ ext_bytes (e :: rest) ++ pl in
  bs !! length pre = Some (first_type rest) /\
  bs !! (length pre + 1) = Some (Z.of_nat (length e.2)) /\
  length pre + 2 + length e.2 <= length bs /\
  bs = (pre ++ first_type rest :: Z.of_nat (length e.2) :: e.2) ++ ext_bytes rest ++ pl.
Proof.
  intros He bs. unfold bs. cbn [ext_bytes]. split_and!.
  - by apply list_lookup_middle.
  - rewrite lookup_app_r by lia. by replace (length pre + 1 - length pre) with 1 by lia.
  - rewrite !length_app. cbn [length]. rewrite length_app. lia.
  - rewrite <- !app_assoc. cbn [app]. by rewrite <- !app_assoc.
Qed.

Lemma length_chain_step (pre : bytes) (e : ext) (n : Z) :
  length (pre ++ n :: Z.of_nat (length e.2) :: e.2) = length pre + (length e.2 + 2).
Proof. rewrite length_app. simpl. lia. Qed.

Lemma skip_extensions_chain exts pre pl fuel :
  Forall ext_ok exts -> length exts < fuel ->
  skip_extensions fuel (pre ++ ext_bytes exts ++ pl) (length pre)
    (ExtensionType_from (first_type exts))
  = Ok (length (pre ++ ext_bytes exts)).
Proof.
  intros He. revert pre fuel. induction He as [|e exts Hx He IH]; intros pre [|fuel] Hf;
    cbn [length] in Hf; try lia; cbn [skip_extensions].
  - rewrite first_type_none by done. rewrite andb_false_r. by rewrite app_nil_r.
  - destruct (chain_head pre e exts pl Hx) as (H1 & H2 & H3 & H4).
    rewrite first_type_none by (by constructor).
    destruct (Nat.ltb_spec (length pre) (length (pre ++ ext_bytes (e :: exts) ++ pl))); [|lia].
    rewrite (index_Some _ _ _ H2), (index_Some _ _ _ H1). cbn [andb negb mbind outcome_bind].
    rewrite Nat2Z.id, <- (length_chain_step pre e (first_type exts)), H4, IH by lia.
    f_equal. cbn [ext_bytes]. rewrite !length_app. cbn [length]. rewrite length_app. lia.
Qed.

Lemma extension_collect_chain exts pre pl fuel :
  Forall ext_ok exts -> length exts < fuel ->
  extension_collect fuel {| raw_bytes := pre ++ ext_bytes exts ++ pl;
    next_extension := ExtensionType_from (first_type exts); ei_index := length pre |}
  = Ok (to_extension <$> exts).
Proof.
  intros He. revert pre fuel. induction He as [|e exts Hx He IH]; intros pre [|fuel] Hf;
    cbn [length] in Hf; try lia; cbn [extension_collect]; unfold extension_next;
    cbn [raw_bytes next_extension ei_index].
  - by rewrite first_type_none.
  - destruct (chain_head pre e exts pl Hx) as (H1 & H2 & H3 & H4).
    rewrite first_type_none by (by constructor). rewrite bool_decide_eq_false_2 by done.
    destruct (Nat.ltb_spec (length pre) (length (pre ++ ext_bytes (e :: exts) ++ pl))); [|lia].
    rewrite (index_Some _ _ _ H2), (index_Some _ _ _ H1). cbn [mbind outcome_bind].
    rewrite Nat2Z.id, slice_in by lia. cbn [mbind outcome_bind].
    rewrite <- (length_chain_step pre e (first_type exts)), H4, IH by lia.
    cbn [mbind outcome_bind fmap list_fmap]. unfold to_extension at 2. do 3 f_equal.
    rewrite <- app_assoc, drop_app_ge by lia.
    replace (length pre + 2 - length pre) with 2 by lia.
    replace (length pre + 2 + length e.2 - (length pre + 2)) with (length e.2) by lia.
    cbn [app drop]. by rewrite drop_0, take_app_length.
Qed.

Lemma check_loop_chain exts pre pl fuel :
  Forall ext_ok exts -> length exts < fuel ->
  check_loop fuel (pre ++ ext_bytes exts ++ pl) (length pre) (ExtensionType_from (first_type exts))
  = Ok ENone.
Proof.
  intros He. revert pre fuel. induction He as [|e exts Hx He IH]; intros pre [|fuel] Hf;
    cbn [length] in Hf; try lia; cbn [check_loop].
  - rewrite first_type_none by done. by rewrite andb_false_r.
  - destruct (chain_head pre e exts pl Hx) as (H1 & H2 & H3 & H4).
    rewrite first_type_none by (by constructor).
    destruct (Nat.ltb_spec (length pre) (length (pre ++ ext_bytes (e :: exts) ++ pl))); [|lia].
    destruct (Nat.ltb_spec (length (pre ++ ext_bytes (e :: exts) ++ pl)) (length pre + 2)); [lia|].
    rewrite (index_Some _ _ _ H2), (index_Some _ _ _ H1). cbn [andb negb mbind outcome_bind].
    destruct Hx as (Ht & Hlen & Hmod). rewrite Nat2Z.id.
    destruct (Z.eqb_spec (Z.of_nat (length e.2)) 0); [lia|].
    assert (Hm : (Z.of_nat (length e.2) mod 4 = 0)%Z) by (change 4%Z with (Z.of_nat 4);
      rewrite <- Nat2Z.inj_mod, Hmod; done).
    rewrite Hm. cbn [Z.eqb negb orb].
    destruct (Nat.ltb_spec (length (pre ++ ext_bytes (e :: exts) ++ pl))
      (length pre + 2 + length e.2)); [lia|].
    rewrite <- (length_chain_step pre e (first_type exts)), H4. apply IH. lia.
Qed.

(** * What the checks accept *)

Lemma index_inv {E A} (l : list A) i o : @index E A l i = Ok o -> l !! i = Some o.
Proof. apply index_Ok. Qed.

Lemma check_loop_inv fuel pre suf ty :
  Forall is_u8 suf -> (0 <= ty < 256)%Z -> length suf < fuel ->
  check_loop fuel (pre ++ suf) (length pre) (ExtensionType_from ty) = Ok ENone ->
  exists exts pl, suf = ext_bytes exts ++ pl /\ Forall ext_ok exts /\ ty = first_type exts.
Proof.
  intros Hu Hty Hf. revert pre suf ty Hu Hty Hf.
  induction fuel as [|fuel IH]; intros pre suf ty Hu Hty Hf H; [lia|]. cbn [check_loop] in H.
  rewrite is_none_from in H. destruct (Z.eqb_spec ty 0) as [->|Hne].
  { exists [], suf. done. }
  rewrite andb_true_r, length_app in H.
  destruct (Nat.ltb_spec (length pre) (length pre + length suf)) as [Hlt|Hge].
  2:{ injection H as H. apply (f_equal is_none) in H. rewrite is_none_from in H.
      by destruct (Z.eqb_spec ty 0). }
  destruct (Nat.ltb_spec (length pre + length suf) (length pre + 2)); [done|].
  destruct suf as [|next [|len suf]]; [simpl in *; lia..|].
  rewrite (index_Some (E := ParseError) (pre ++ next :: len :: suf) (length pre + 1) len) in H
    by (rewrite lookup_app_r by lia; by replace (length pre + 1 - length pre) with 1 by lia).
  rewrite (index_Some (E := ParseError) (pre ++ next :: len :: suf) (length pre) next) in H
    by (by apply list_lookup_middle).
  cbn [mbind outcome_bind] in H.
  apply Forall_cons in Hu as [Hun Hu]. apply Forall_cons in Hu as [Hul Hu].
  destruct (Z.eqb_spec len 0); [done|]. destruct (Z.eqb_spec (len mod 4) 0) as [Hmod|]; [|done].
  cbn [negb orb] in H. cbn [length] in *.
  destruct (Nat.ltb_spec (length pre + S (S (length suf))) (length pre + 2 + Z.to_nat len)); [done|].
  set (d := take (Z.to_nat len) suf).
  assert (Hd : length d = Z.to_nat len) by (unfold d; rewrite length_take; lia).
  assert (Hdz : Z.of_nat (length d) = len) by (unfold is_u8 in Hul; lia).
  replace (length pre + (Z.to_nat len + 2)) with (length (pre ++ next :: len :: d)) in H
    by (rewrite length_app; simpl; lia).
  replace (pre ++ next :: len :: suf) with
    ((pre ++ next :: len :: d) ++ drop (Z.to_nat len) suf) in H
    by (rewrite <- app_assoc; cbn [app]; unfold d; by rewrite take_drop).
  apply IH in H as (exts & pl & Hs & Hok & ->); [|by apply Forall_drop|done|rewrite length_drop; lia].
  exists ((ty, d) :: exts), pl. split_and!; [|constructor; [|done]|done].
  - cbn [ext_bytes fst snd]. rewrite Hdz. cbn [app]. do 2 f_equal.
    rewrite <- app_assoc, <- Hs. unfold d. by rewrite take_drop.
  - unfold is_u8 in Hul. split_and!; cbn [fst snd]; [lia|lia|lia|lia|].
    apply Nat2Z.inj. rewrite Nat2Z.inj_mod, Hdz. exact Hmod.
Qed.

Lemma length_ext_bytes exts : length exts <= length (ext_bytes exts).
Proof. induction exts as [|e exts IH]; simpl; [lia|]. rewrite length_app. lia. Qed.

(** The packets the decoder accepts are the well-structured ones. *)
Lemma packet_accepted h0 htail exts pl :
  header_ok h0 htail -> Forall ext_ok exts ->
  Packet_try_from (packet_bytes h0 htail exts pl) = Ok (packet_bytes h0 htail exts pl).
Proof.
  intros (Hl & Hv & Ht) He. unfold Packet_try_from, check_header, check_extensions, packet_bytes.
  assert (Hlen : length ((h0 :: first_type exts :: htail) ++ ext_bytes exts ++ pl)
    = 20 + length (ext_bytes exts ++ pl)) by (rewrite length_app; simpl; lia).
  rewrite Hlen. destruct (Nat.ltb_spec (20 + length (ext_bytes exts ++ pl)) HEADER_SIZE) as [Hc|_];
    [unfold HEADER_SIZE in Hc; lia|].
  cbn [index lookup list_lookup opt_unwrap mbind outcome_bind app]. rewrite Hv. cbn [Z.eqb negb Pos.eqb].
  assert (Hty : exists t, PacketType_try_from (Z.shiftr h0 4) = Ok t).
  { unfold PacketType_try_from.
    repeat match goal with |- context [(?a =? ?b)%Z] => destruct (Z.eqb_spec a b); [eauto|] end. lia. }
  destruct Hty as [t ->]. cbn [mbind outcome_bind].
  rewrite first_type_none by done.
  assert (Hg : (20 + length (ext_bytes exts ++ pl) =? HEADER_SIZE) && negb (bool_decide (exts = [])) = false).
  { destruct exts as [|e exts]; [apply andb_false_r|]. apply andb_false_iff. left.
    apply Nat.eqb_neq. unfold HEADER_SIZE. rewrite length_app. pose proof (length_ext_bytes (e :: exts)).
    simpl in *. lia. }
  rewrite Hg.
  pose proof (check_loop_chain exts (h0 :: first_type exts :: htail) pl
    (20 + length (ext_bytes exts ++ pl) + 1) He) as Hc.
  replace (length (h0 :: first_type exts :: htail)) with HEADER_SIZE in Hc
    by (simpl; unfold HEADER_SIZE; lia).
  cbn [app] in Hc. rewrite Hc; [done|]. rewrite length_app. pose proof (length_ext_bytes exts). lia.
Qed.

Lemma packet_decomposed bs p :
  Forall is_u8 bs -> Packet_try_from bs = Ok p ->
  p = bs /\ exists h0 htail exts pl, header_ok h0 htail /\ Forall ext_ok exts /\
    bs = packet_bytes h0 htail exts pl.
Proof.
  intros Hu H. unfold Packet_try_from in H.
  destruct (check_header bs) as [[]| | |] eqn:Hh; try done. cbn [mbind outcome_bind] in H.
  destruct (check_extensions bs) as [[]| | |] eqn:He; try done. injection H as <-. split; [done|].
  unfold check_header in Hh. unfold check_extensions in He.
  destruct (Nat.ltb_spec (length bs) HEADER_SIZE) as [|Hlen]; [done|]. unfold HEADER_SIZE in Hlen.
  destruct bs as [|h0 [|ty bs]]; [simpl in Hlen; lia..|].
  cbn [index lookup list_lookup opt_unwrap mbind outcome_bind] in Hh, He.
  destruct (Z.eqb_spec (Z.land h0 15) 1) as [Hv|]; [|done]. cbn [negb] in Hh.
  apply Forall_cons in Hu as [Hu0 Hu]. apply Forall_cons in Hu as [Hu1 Hu].
  destruct (_ && _); [done|].
  destruct (check_loop _ _ _ _) as [pending| | |] eqn:Hc; try done. cbn [mbind outcome_bind] in He.
  destruct (is_none pending) eqn:Hp; [|done]. apply bool_decide_eq_true in Hp as ->.
  cbn [length] in *. set (htail := take 18 bs).
  assert (Hht : length htail = 18) by (unfold htail; rewrite length_take; lia).
  assert (Hbs : h0 :: ty :: bs = (h0 :: ty :: htail) ++ drop 18 bs)
    by (cbn [app]; unfold htail; by rewrite take_drop).
  rewrite Hbs in Hc. replace HEADER_SIZE with (length (h0 :: ty :: htail)) in Hc
    by (simpl; unfold HEADER_SIZE; lia).
  apply check_loop_inv in Hc as (exts & pl & Hd & Hok & ->);
    [|by apply Forall_drop|done|rewrite length_drop; lia].
  exists h0, htail, exts, pl. split_and!; [split_and!|..]; try done.
  - apply Z.shiftr_nonneg. apply Hu0.
  - unfold PacketType_try_from in Hh.
    repeat match type of Hh with context [(?a =? ?b)%Z] => destruct (Z.eqb_spec a b); [lia|] end. done.
  - rewrite Hbs, Hd. done.
Qed.

(** Reading a well-structured packet. *)
Lemma packet_read h0 htail exts pl :
  length htail = 18 -> Forall ext_ok exts ->
  let p := packet_bytes h0 htail exts pl in
  payload p = Ok pl /\
  (exists it, extensions p = Ok it /\ extension_collect (length p + 1) it = Ok (to_extension <$> exts)).
Proof.
  intros Hl He p. unfold payload, extensions.
  assert (Hi : @index ParseError _ p 1 = Ok (first_type exts)) by done. rewrite Hi.
  cbn [mbind outcome_bind].
  assert (Hh : HEADER_SIZE = length (h0 :: first_type exts :: htail)) by (simpl; unfold HEADER_SIZE; lia).
  assert (Hf : length exts < length p + 1).
  { pose proof (length_ext_bytes exts). unfold p, packet_bytes.
    rewrite (length_app (_ :: _)), (length_app (ext_bytes exts)). lia. }
  split.
  - rewrite Hh. unfold p, packet_bytes. rewrite skip_extensions_chain by done.
    cbn [mbind outcome_bind]. rewrite app_assoc, slice_from_in by (rewrite (length_app (_ ++ _) pl); lia).
    by rewrite drop_app_length.
  - eexists. split; [done|]. rewrite Hh. by apply extension_collect_chain.
Qed.

(** * [set_sack] *)

(** The chain with a given type after its last extension. *)
Fixpoint ext_bytes_then (n : Z) (exts : list ext) : bytes :=
  match exts with
  | [] => []
  | e :: rest =>
      (match rest with [] => n | e' :: _ => e'.1 end)
      :: Z.of_nat (length e.2) :: e.2 ++ ext_bytes_then n rest
  end.

Lemma ext_bytes_snoc exts e :
  ext_bytes (exts ++ [e]) = ext_bytes_then e.1 exts ++ 0%Z :: Z.of_nat (length e.2) :: e.2.
Proof.
  induction exts as [|x exts IH]; [cbn; by rewrite app_nil_r|].
  cbn [app ext_bytes ext_bytes_then]. rewrite IH. rewrite <- app_assoc. by destruct exts.
Qed.

Lemma length_ext_bytes_then n exts : length (ext_bytes_then n exts) = length (ext_bytes exts).
Proof.
  induction exts as [|e exts IH]; [done|]. cbn [ext_bytes ext_bytes_then length].
  by rewrite !length_app, IH.
Qed.

Lemma sack_loop_end fuel p i : sack_loop (S fuel) p i ENone = Ok (i, p).
Proof. cbn [sack_loop]. by rewrite andb_false_r. Qed.

Lemma sack_loop_chain exts pre pl fuel :
  Forall ext_ok exts -> exts <> [] -> length exts < fuel ->
  sack_loop fuel (pre ++ ext_bytes exts ++ pl) (length pre) (ExtensionType_from (first_type exts))
  = Ok (length (pre ++ ext_bytes exts), pre ++ ext_bytes_then 1 exts ++ pl).
Proof.
  intros He. revert pre fuel. induction He as [|e exts Hx He IH]; intros pre [|fuel] Hne Hf;
    cbn [length] in Hf; try lia; [done|]. cbn [sack_loop].
  destruct (chain_head pre e exts pl Hx) as (H1 & H2 & H3 & H4).
  rewrite first_type_none by (by constructor).
  destruct (Nat.ltb_spec (length pre) (length (pre ++ ext_bytes (e :: exts) ++ pl))); [|lia].
  rewrite (index_Some _ _ _ H2), (index_Some _ _ _ H1). cbn [andb negb mbind outcome_bind].
  rewrite Nat2Z.id, first_type_none by done. destruct exts as [|e' exts].
  - destruct fuel; [simpl in Hf; lia|].
    change (ExtensionType_from (first_type [])) with ENone.
    rewrite (bool_decide_eq_false_2 ([e] = [])), bool_decide_eq_true_2 by done.
    cbn [negb]. rewrite sack_loop_end. cbn [ext_bytes ext_bytes_then first_type].
    rewrite insert_app_r_alt, Nat.sub_diag by lia. f_equal. f_equal.
    rewrite length_app. cbn [length]. rewrite app_nil_r. lia.
  - rewrite !bool_decide_eq_false_2 by done. cbn [negb].
    rewrite <- (length_chain_step pre e (first_type (e' :: exts))), H4, IH by (done || lia).
    f_equal. f_equal.
    + f_equal. rewrite <- app_assoc. done.
    + change (ext_bytes_then 1 (e :: e' :: exts)) with
        ((first_type (e' :: exts) :: Z.of_nat (length e.2) :: e.2) ++ ext_bytes_then 1 (e' :: exts)).
      by rewrite <- !app_assoc.
Qed.

Lemma vec_insert_app {E} (a b : bytes) x :
  @vec_insert E Z (a ++ b) (length a) x = Ok (a ++ x :: b).
Proof.
  unfold vec_insert. rewrite length_app.
  destruct (Nat.leb_spec (length a) (length a + length b)); [|lia].
  by rewrite take_app_length, drop_app_length.
Qed.

Lemma insert_all_app (a b bv : bytes) : insert_all (a ++ b) (length a) bv = Ok (a ++ bv ++ b).
Proof.
  revert a. induction bv as [|x bv IH]; intros a; cbn [insert_all]; [done|].
  rewrite vec_insert_app. cbn [mbind outcome_bind].
  rewrite cons_middle, app_assoc. replace (length a + 1) with (length (a ++ [x]))
    by (rewrite length_app; done). rewrite IH. by rewrite <- app_assoc.
Qed.

Lemma insert_extension (a b bv : bytes) (l : Z) :
  (p2 ← vec_insert (a ++ b) (length a) 0%Z;
   p3 ← vec_insert p2 (length a + 1) l;
   insert_all p3 (length a + 2) bv) = Ok (a ++ (0%Z :: l :: bv) ++ b).
Proof.
  rewrite vec_insert_app. cbn [mbind outcome_bind]. rewrite cons_middle, app_assoc.
  replace (length a + 1) with (length (a ++ [0%Z])) by (rewrite length_app; done).
  rewrite vec_insert_app. cbn [mbind outcome_bind]. rewrite cons_middle, app_assoc.
  replace (length a + 2) with (length ((a ++ [0%Z]) ++ [l])) by (rewrite !length_app; simpl; lia).
  rewrite insert_all_app. by rewrite <- !app_assoc.
Qed.

Lemma set_sack_packet h0 htail exts pl bv :
  length htail = 18 -> Forall ext_ok exts -> ext_ok (1%Z, bv) ->
  set_sack bv (packet_bytes h0 htail exts pl)
  = Ok (packet_bytes h0 htail (exts ++ [(1%Z, bv)]) pl).
Proof.
  intros Hl He (_ & Hb & Hm). cbn [snd] in Hb, Hm. unfold set_sack.
  assert (H4 : 4 <= length bv).
  { destruct (decide (length bv < 4)) as [Hlt|]; [|lia]. rewrite Nat.mod_small in Hm; lia. }
  rewrite (proj2 (Nat.leb_le _ _) H4), Hm. cbn [assert_that mbind outcome_bind Nat.eqb].
  set (p := packet_bytes h0 htail exts pl).
  assert (Hi : @index ParseError _ p 1 = Ok (first_type exts)) by done. rewrite Hi.
  cbn [mbind outcome_bind]. rewrite first_type_none by done.
  assert (Hu : to_u8 (Z.of_nat (length bv)) = Z.of_nat (length bv)).
  { apply to_u8_id. unfold is_u8. lia. }
  rewrite Hu. destruct exts as [|e exts].
  - rewrite bool_decide_eq_true_2 by done. cbn [mbind outcome_bind].
    unfold p, packet_bytes. cbn [first_type ext_bytes app insert list_insert].
    change (h0 :: 1%Z :: htail ++ pl) with ((h0 :: 1%Z :: htail) ++ pl).
    replace HEADER_SIZE with (length (h0 :: 1%Z :: htail)) by (simpl; unfold HEADER_SIZE; lia).
    rewrite insert_extension. cbn [fst snd length app]. by rewrite app_nil_r.
  - rewrite bool_decide_eq_false_2 by done. unfold p, packet_bytes.
    set (pre := h0 :: first_type (e :: exts) :: htail).
    replace HEADER_SIZE with (length pre) by (simpl; unfold HEADER_SIZE; lia).
    rewrite sack_loop_chain; [|done|done|].
    2:{ rewrite !length_app. pose proof (length_ext_bytes (e :: exts)). lia. }
    cbn [mbind outcome_bind]. rewrite app_assoc.
    replace (length (pre ++ ext_bytes (e :: exts))) with (length (pre ++ ext_bytes_then 1 (e :: exts)))
      by (by rewrite !length_app, length_ext_bytes_then).
    rewrite insert_extension, ext_bytes_snoc. cbn [fst snd]. unfold pre. rewrite <- !app_assoc. done.
Qed.

(** * Header fields *)

Lemma length_set_field off n v p :
  off + n <= length p -> length (set_field off n v p) = length p.
Proof.
  intros H. unfold set_field. rewrite !length_app, length_take, length_be_bytes, length_drop. lia.
Qed.

Lemma get_set_same off n v p :
  off + n <= length p -> get_field off n (set_field off n v p) = (v mod 256 ^ Z.of_nat n)%Z.
Proof.
  intros H. unfold get_field, set_field.
  rewrite drop_app_length' by (rewrite length_take; lia).
  by rewrite take_app_length', be_val_be_bytes by (by rewrite length_be_bytes).
Qed.

Lemma get_set_other off n v off' n' p :
  off + n <= length p -> off' + n' <= off \/ off + n <= off' ->
  get_field off' n' (set_field off n v p) = get_field off' n' p.
Proof.
  intros H Hd. unfold get_field, set_field. f_equal. destruct Hd as [Hd|Hd].
  - rewrite drop_app_le, take_app_le by (rewrite ?length_drop, length_take; lia).
    rewrite <- (take_drop off p) at 2.
    by rewrite drop_app_le, take_app_le by (rewrite ?length_drop, length_take; lia).
  - rewrite app_assoc, drop_app_ge by (rewrite length_app, length_take, length_be_bytes; lia).
    rewrite length_app, length_take, length_be_bytes, drop_drop. do 2 f_equal. lia.
Qed.

Lemma drop_set_field k off n v p :
  off + n <= length p -> off + n <= k -> drop k (set_field off n v p) = drop k p.
Proof.
  intros H Hk. unfold set_field.
  rewrite app_assoc, drop_app_ge by (rewrite length_app, length_take, length_be_bytes; lia).
  rewrite length_app, length_take, length_be_bytes, drop_drop. f_equal. lia.
Qed.

(** A buffer that holds a header. *)
Definition wide (p : bytes) : Prop := HEADER_SIZE <= length p.

Lemma wide_set off n v p : wide p -> off + n <= 20 -> wide (set_field off n v p).
Proof. unfold wide, HEADER_SIZE. intros. rewrite length_set_field; lia. Qed.

Lemma get_same off n v p :
  wide p -> off + n <= 20 -> (0 <= v < 256 ^ Z.of_nat n)%Z ->
  get_field off n (set_field off n v p) = v.
Proof.
  unfold wide, HEADER_SIZE. intros. rewrite get_set_same by lia. by apply Z.mod_small.
Qed.

Lemma get_other off n v off' n' p :
  wide p -> off + n <= 20 -> off' + n' <= off \/ off + n <= off' ->
  get_field off' n' (set_field off n v p) = get_field off' n' p.
Proof. unfold wide, HEADER_SIZE. intros. apply get_set_other; lia. Qed.

Lemma drop_other off n v p :
  wide p -> off + n <= 20 -> drop HEADER_SIZE (set_field off n v p) = drop HEADER_SIZE p.
Proof. unfold wide, HEADER_SIZE. intros. apply drop_set_field; lia. Qed.

Ltac wide := repeat apply wide_set; [assumption|lia..].
Ltac read_fields :=
  repeat (rewrite get_other by (wide || lia)); rewrite ?get_same by (wide || lia || assumption).

(** The type goes to the high nibble of the first byte and leaves the low one. *)
Lemma type_nibbles t tv :
  let x := Z.lor (to_u8 (Z.shiftl (u8_of_PacketType t) 4)) (Z.land 15 tv) in
  (0 <= x < 256)%Z /\ Z.shiftr x 4 = u8_of_PacketType t /\ Z.land x 15 = Z.land tv 15.
Proof.
  cbn zeta. rewrite (Z.land_comm tv 15).
  assert (Hm : (0 <= Z.land 15 tv < 16)%Z).
  { rewrite Z.land_comm. change 15%Z with (Z.ones 4). rewrite Z.land_ones by lia.
    by apply Z.mod_pos_bound. }
  set (m := Z.land 15 tv) in *. clearbody m.
  assert (Hc : m ∈ Z.of_nat <$> seq 0 16).
  { apply list_elem_of_fmap. exists (Z.to_nat m). split; [lia|]. apply elem_of_seq. lia. }
  cbn in Hc. repeat (apply elem_of_cons in Hc as [->|Hc]);
    [destruct t; vm_compute; intuition congruence..|by apply elem_of_nil in Hc].
Qed.

Lemma PacketType_roundtrip t : PacketType_try_from (u8_of_PacketType t) = Ok t.
Proof. by destruct t. Qed.

Lemma set_type_fields t p :
  HEADER_SIZE <= length p ->
  get_type (set_type t p) = Ok t /\ get_version (set_type t p) = get_version p.
Proof.
  unfold HEADER_SIZE. intros Hp. unfold get_type, get_version, set_type, type_ver.
  destruct (type_nibbles t (get_field 0 1 p)) as (Hr & Hs & Hl).
  rewrite get_set_same by lia. change (256 ^ Z.of_nat 1)%Z with 256%Z.
  rewrite (Z.mod_small _ 256) by done. by rewrite Hs, PacketType_roundtrip, Hl.
Qed.

(** * Bits *)

Lemma bit_one z k : (Z.land (Z.shiftr z (Z.of_nat k)) 1 =? 1)%Z = Z.testbit z (Z.of_nat k).
Proof.
  change 1%Z with (Z.ones 1) at 1. rewrite Z.land_ones by lia.
  rewrite Z.shiftr_div_pow2 by lia. change (2 ^ 1)%Z with 2%Z.
  pose proof (Z.testbit_spec' z (Z.of_nat k) ltac:(lia)) as Hb. rewrite <- Hb.
  by destruct (Z.testbit z (Z.of_nat k)).
Qed.

(** Bit [i] of a byte string, least significant first. *)
Definition lsb_bit (bs : bytes) (i : nat) : bool :=
  Z.testbit (default 0%Z (bs !! (i / 8))) (Z.of_nat (i mod 8)).

Lemma bit_collect_spec bs fuel i :
  i <= length bs * 8 -> length bs * 8 - i < fuel ->
  bit_collect fuel {| object := bs; next_index := i; end_index := length bs * 8 |}
  = Ok (lsb_bit bs <$> seq i (length bs * 8 - i)).
Proof.
  revert i. induction fuel as [|fuel IH]; intros i Hi Hf; [lia|].
  cbn [bit_collect]. unfold bit_next. cbn [object next_index end_index].
  destruct (Nat.eqb_spec i (length bs * 8)) as [->|Hne]; cbn [negb].
  - by rewrite Nat.sub_diag.
  - destruct (lookup_lt_is_Some_2 bs (i / 8)) as [b Hb].
    { apply Nat.Div0.div_lt_upper_bound. lia. }
    rewrite (index_Some _ _ _ Hb). cbn [mbind outcome_bind]. rewrite IH by lia.
    replace (length bs * 8 - i) with (S (length bs * 8 - (i + 1))) by lia.
    cbn [mbind outcome_bind seq fmap list_fmap]. rewrite bit_one. unfold lsb_bit at 2.
    rewrite Hb. by rewrite Nat.add_1_r.
Qed.

(** * Properties *)

(** C32. The uTP decoder accepts exactly the byte strings that are a header of
    version 1 and a known type, a chain of extensions with nonzero lengths that
    are multiples of four, and a payload; from an accepted packet the payload
    and the extension iterator return exactly that payload and those extensions,
    so none of their unchecked accesses is out of range. *)
Theorem packet_structure (bs : bytes) :
  Forall is_u8 bs ->
  (exists p, Packet_try_from bs = Ok p) <->
  (exists h0 htail exts pl, header_ok h0 htail /\ Forall ext_ok exts /\
     bs = packet_bytes h0 htail exts pl /\ payload bs = Ok pl /\
     exists it, extensions bs = Ok it /\
       extension_collect (length bs + 1) it = Ok (to_extension <$> exts)).
Proof.
  intros Hu. split.
  - intros [p Hp]. destruct (packet_decomposed bs p Hu Hp) as (-> & h0 & htail & exts & pl & Hh & He & ->).
    exists h0, htail, exts, pl. split_and!; [done|done|done|..]; by apply packet_read; [apply Hh|].
  - intros (h0 & htail & exts & pl & Hh & He & -> & _). eexists. by apply packet_accepted.
Qed.

(** Adding a selective acknowledgement to a packet with any chain of
    extensions appends one extension of type [SelectiveAck] with the given data
    to the chain and leaves header, other extensions and payload unchanged; the
    result is a packet the decoder accepts. *)
Theorem set_sack_appends (h0 : Z) (htail : bytes) (exts : list ext) (pl bv : bytes) :
  header_ok h0 htail -> Forall ext_ok exts -> 0 < length bv < 256 -> length bv mod 4 = 0 ->
  let p' := packet_bytes h0 htail (exts ++ [(1%Z, bv)]) pl in
  set_sack bv (packet_bytes h0 htail exts pl) = Ok p' /\
  Packet_try_from p' = Ok p' /\ payload p' = Ok pl /\
  exists it, extensions p' = Ok it /\ extension_collect (length p' + 1) it =
    Ok ((to_extension <$> exts) ++ [{| ext_ty := SelectiveAck; ext_data := bv |}]).
Proof.
  intros Hh He Hb Hm p'. assert (Hx : ext_ok (1%Z, bv)) by (split_and!; cbn [fst snd]; done || lia).
  assert (He' : Forall ext_ok (exts ++ [(1%Z, bv)])) by (apply Forall_app_2; [done|by constructor]).
  split; [by apply set_sack_packet; [apply Hh|..]|]. split; [by apply packet_accepted|].
  destruct (packet_read h0 htail _ pl (proj1 Hh) He') as [Hp (it & H1 & H2)].
  split; [done|]. exists it. split; [done|]. rewrite fmap_app in H2. exact H2.
Qed.

(** The header setters and getters agree: after all fields are set, each
    getter returns the value set (a delay modulo 2^32), the version and the
    extension type are untouched, and so are all bytes after the header. *)
Theorem header_fields_set (p : bytes) (t : PacketType) (c ts d w s a : Z) :
  HEADER_SIZE <= length p ->
  is_u16 c -> is_u32 ts -> is_u32 w -> is_u16 s -> is_u16 a ->
  let q := set_type t (set_connection_id c (set_timestamp ts (set_timestamp_difference d
             (set_wnd_size w (set_seq_nr s (set_ack_nr a p)))))) in
  get_type q = Ok t /\ get_version q = get_version p /\
  get_extension_type q = get_extension_type p /\
  connection_id q = c /\ timestamp q = ts /\ timestamp_difference q = to_u32 d /\
  wnd_size q = w /\ seq_nr q = s /\ ack_nr q = a /\ drop HEADER_SIZE q = drop HEADER_SIZE p.
Proof.
  fold (wide p). intros Hp Hc Hts Hw Hs Ha q.
  assert (Hd : is_u32 (to_u32 d)) by (by apply Z.mod_pos_bound).
  unfold q, connection_id, timestamp, timestamp_difference, wnd_size, seq_nr, ack_nr,
    get_extension_type, set_connection_id, set_timestamp, set_timestamp_difference, set_wnd_size,
    set_seq_nr, set_ack_nr.
  set (p1 := set_field 2 2 c _).
  destruct (set_type_fields t p1) as [H1 H2]; [unfold p1; wide|].
  split; [done|]. split; [|unfold set_type, p1; split_and!].
  - rewrite H2. unfold get_version, type_ver, p1. by read_fields.
  - by read_fields.
  - by read_fields.
  - by read_fields.
  - by read_fields.
  - by read_fields.
  - by read_fields.
  - by read_fields.
  - by repeat (rewrite drop_other by (wide || lia)).
Qed.

Lemma lsb_bits_by_byte bs :
  lsb_bit bs <$> seq 0 (length bs * 8)
  = bs ≫= fun b => (fun k => Z.testbit b (Z.of_nat k)) <$> seq 0 8.
Proof.
  induction bs as [|b bs IH]; [done|].
  change (length (b :: bs) * 8) with (8 + length bs * 8).
  rewrite seq_app, fmap_app. cbn [mbind list_bind]. f_equal. rewrite <- IH.
  change (0 + 8) with (8 + 0). rewrite <- fmap_add_seq, <- list_fmap_compose.
  apply list_fmap_ext. intros _ i _. unfold lsb_bit, compose.
  replace (8 + i) with (i + 1 * 8) by lia. rewrite Nat.div_add, Nat.Div0.mod_add by lia.
  by rewrite Nat.add_1_r.
Qed.

Lemma count_ones_sum bs acc :
  fold_left (fun acc bv => acc + u8_count_ones bv) bs acc
  = acc + length (filter (fun b => b = true)
      (bs ≫= fun b => (fun k => Z.testbit b (Z.of_nat k)) <$> seq 0 8)).
Proof.
  revert acc. induction bs as [|b bs IH]; intros acc; cbn [fold_left mbind list_bind]; [simpl; lia|].
  rewrite IH, filter_app, length_app, Nat.add_assoc. do 2 f_equal. unfold u8_count_ones.
  generalize (seq 0 8). intros l. induction l as [|k l IHl]; [done|]. cbn [fmap list_fmap].
  destruct (Z.testbit b (Z.of_nat k)) eqn:Hb.
  - rewrite !filter_cons_True by done. simpl. by rewrite IHl.
  - rewrite !filter_cons_False by congruence. done.
Qed.

(** The bit iterator yields the bits of its bytes, the least significant bit
    of each byte first, never reads out of range, and [count_ones] is the number
    of ones it yields. *)
Theorem bit_iterator_correct (bs : bytes) :
  exists bits, bit_collect (length bs * 8 + 1) (from_bytes bs) = Ok bits /\
    bits = lsb_bit bs <$> seq 0 (length bs * 8) /\
    count_ones (from_bytes bs) = length (filter (fun b => b = true) bits).
Proof.
  eexists. split; [|split; [reflexivity|]].
  - unfold from_bytes. rewrite bit_collect_spec by lia. by rewrite Nat.sub_0_r.
  - unfold count_ones, from_bytes. cbn [object]. by rewrite count_ones_sum, lsb_bits_by_byte.
Qed.

(** The clock reading in microseconds, modulo 2^32 in spite of the intermediate
    casts. *)
Lemma now_microseconds_wraps secs nanos :
  now_microseconds secs nanos = to_u32 (secs * 1000000 + nanos / 1000).
Proof.
  unfold now_microseconds, to_u32, to_u64. rewrite Z.mod_mod_divide by (by exists 4294967296%Z).
  by rewrite Z.add_mod_idemp_l by lia.
Qed.

(** The two identifiers are consecutive and fit 16 bits for every draw. *)
Lemma sequential_identifiers_ok id :
  is_u16 id ->
  let '(a, b) := generate_sequential_identifiers id in is_u16 a /\ is_u16 b /\ b = (a + 1)%Z.
Proof.
  unfold is_u16, generate_sequential_identifiers. intros.
  destruct (Z.ltb_spec (id + 1) 65536); lia.
Qed.

(** * Concrete instances *)

Definition sample_packet : bytes := packet_bytes 17 (replicate 18 0%Z) [(2%Z, [9; 9; 9; 9]%Z)] [7; 8]%Z.

Lemma packet_structure_witness :
  exists h0 htail exts pl, header_ok h0 htail /\ Forall ext_ok exts /\
     sample_packet = packet_bytes h0 htail exts pl /\ payload sample_packet = Ok pl /\
     exists it, extensions sample_packet = Ok it /\
       extension_collect (length sample_packet + 1) it = Ok (to_extension <$> exts).
Proof.
  apply packet_structure.
  - repeat constructor; vm_compute; congruence.
  - eexists. vm_compute. reflexivity.
Defined.

Lemma set_sack_appends_witness :
  exists p', set_sack [1; 2; 3; 4]%Z sample_packet = Ok p' /\ payload p' = Ok [7; 8]%Z.
Proof.
  destruct (set_sack_appends 17 (replicate 18 0%Z) [(2%Z, [9; 9; 9; 9]%Z)] [7; 8]%Z [1; 2; 3; 4]%Z)
    as (H1 & _ & H2 & _).
  - vm_compute. repeat split; congruence.
  - repeat constructor; vm_compute; try lia; reflexivity.
  - simpl. lia.
  - reflexivity.
  - eexists. exact (conj H1 H2).
Defined.

Lemma header_fields_set_witness :
  ack_nr (set_type Syn (set_connection_id 5 (set_timestamp 6 (set_timestamp_difference (-1)
    (set_wnd_size 7 (set_seq_nr 8 (set_ack_nr 65535 packet_new))))))) = 65535%Z.
Proof.
  destruct (header_fields_set packet_new Syn 5 6 (-1) 7 8 65535) as (_ & _ & _ & _ & _ & _ & _ & _ & H & _);
    [vm_compute; lia|vm_compute; split; congruence..|exact H].
Defined.
