(* ===== verification/Effects.v ===== *)
(** Effects: the building blocks of components that mutate a large [self].

    - [St S E A]: a method on [&mut self] that may fail.  The state is kept on
      every exit: a Rust method that returns an error, or panics, has made its
      changes up to that point.
    - Record update by field name.
    - Arithmetic at a machine width under the two build profiles: with overflow
      checks a result out of range panics, without them it wraps.
    - [keeps]: the invariants of methods, with the rules to compose them. *)

From stdpp Require Import base list.
From Stdlib Require Import ZArith Lia.
From S2P Require Import Prelude.

(** * Methods that change a state and may fail *)

Definition St (S E A : Type) : Type := S -> outcome E A * S.

#[global] Instance St_ret S E : MRet (St S E) := fun A a s => (Ok a, s).
#[global] Instance St_bind S E : MBind (St S E) := fun A B f m s =>
  match m s with
  | (Ok a, s') => f a s'
  | (Err e, s') => (Err e, s')
  | (Panic, s') => (Panic, s')
  | (NoFuel, s') => (NoFuel, s')
  end.

#[global] Instance St_fmap S E : FMap (St S E) := fun A B f m => a ← m; mret (f a).

Section Operations.
Context {S E : Type}.

Definition get : St S E S := fun s => (Ok s, s).
Definition gets {A} (f : S -> A) : St S E A := fun s => (Ok (f s), s).
Definition modify (f : S -> S) : St S E unit := fun s => (Ok tt, f s).
Definition fail {A} (e : E) : St S E A := fun s => (Err e, s).

(** A computation without effect on the state; its errors are unwrapped or
    returned as they are. *)
Definition lift {A} (m : outcome E A) : St S E A := fun s => (m, s).
Definition lift_unwrap {F A} (m : outcome F A) : St S E A := lift (unwrap m).

(** [if b { m }] *)
Definition when (b : bool) (m : St S E unit) : St S E unit := if b then m else mret tt.

(** [let _ = m;]: an error is dropped, a panic is not. *)
Definition ignore {A} (m : St S E A) : St S E unit := fun s =>
  match m s with
  | (Ok _, s') | (Err _, s') => (Ok tt, s')
  | (Panic, s') => (Panic, s')
  | (NoFuel, s') => (NoFuel, s')
  end.

(** A [for] loop over a list. *)
Fixpoint for_each {A} (l : list A) (f : A -> St S E unit) : St S E unit :=
  match l with
  | [] => mret tt
  | a :: l' => _ ← f a; for_each l' f
  end.
End Operations.

(** Run the leading calls of an outcome whose results are known. *)
Ltac run_binds := repeat first [rewrite mbind_ok | progress cbn beta iota].

(** An outcome computed in two parts: both returned. *)
Lemma mbind_Ok_inv {E A B} (m : outcome E A) (f : A -> outcome E B) b :
  m ≫= f = Ok b -> exists a, m = Ok a /\ f a = Ok b.
Proof. destruct m; simpl; naive_solver. Qed.

(** * Record update

    [s <| f := v |>] is [s] with field [f] set to [v].  A record declares its
    fields once, in an eta-expansion, and gets the update of each field from
    it. *)

Class FieldUpdate {R T : Type} (proj : R -> T) := { update_field : T -> R -> R }.
Arguments update_field {R T} proj {_} v s.

Ltac field_update eta proj :=
  match type of proj with
  | ?R -> ?T =>
      exact (Build_FieldUpdate R T proj (fun (v : T) (s : R) => ltac:(
        let e := eval cbv beta delta [eta] in (eta s) in
        let g := eval pattern (proj s) in e in
        match g with ?h _ => let r := eval cbv beta in (h v) in exact r end)))
  end.

Notation "s <| f := v |>" := (update_field f v s)
  (at level 12, left associativity, format "s  <| f  :=  v |>").

(** * Build profiles and checked arithmetic *)

Class Profile := overflow_checks : bool.

Section Arithmetic.
Context `{Profile} {E : Type}.

(** The result [z] of an operation on a type with range [ok] and wrap-around
    [wrap]. *)
Definition arith (ok : Z -> Prop) `{forall z, Decision (ok z)} (wrap : Z -> Z) (z : Z) : outcome E Z :=
  if decide (ok z) then Ok z else if overflow_checks then Panic else Ok (wrap z).

Definition u16_arith : Z -> outcome E Z := arith is_u16 to_u16.
Definition u32_arith : Z -> outcome E Z := arith is_u32 to_u32.
Definition u64_arith : Z -> outcome E Z := arith is_u64 to_u64.
Definition i32_arith : Z -> outcome E Z := arith is_i32 to_i32.
Definition i64_arith : Z -> outcome E Z := arith is_i64 to_i64.
End Arithmetic.

Lemma arith_in `{Profile} {E} (ok : Z -> Prop) `{forall z, Decision (ok z)} wrap z :
  ok z -> @arith _ E ok _ wrap z = Ok z.
Proof. intros Hz. unfold arith. by rewrite decide_True. Qed.

Lemma u16_arith_in `{Profile} {E} z : is_u16 z -> @u16_arith _ E z = Ok z.
Proof. apply arith_in. Qed.
Lemma u32_arith_in `{Profile} {E} z : is_u32 z -> @u32_arith _ E z = Ok z.
Proof. apply arith_in. Qed.
Lemma u64_arith_in `{Profile} {E} z : is_u64 z -> @u64_arith _ E z = Ok z.
Proof. apply arith_in. Qed.
Lemma i32_arith_in `{Profile} {E} z : is_i32 z -> @i32_arith _ E z = Ok z.
Proof. apply arith_in. Qed.
Lemma i64_arith_in `{Profile} {E} z : is_i64 z -> @i64_arith _ E z = Ok z.
Proof. apply arith_in. Qed.

Lemma to_u16_range z : is_u16 (to_u16 z).
Proof. apply Z.mod_pos_bound. lia. Qed.
Lemma to_u32_range z : is_u32 (to_u32 z).
Proof. apply Z.mod_pos_bound. lia. Qed.
Lemma to_u64_range z : is_u64 (to_u64 z).
Proof. apply Z.mod_pos_bound. lia. Qed.
Lemma to_i64_range z : is_i64 (to_i64 z).
Proof.
  unfold is_i64, to_i64, to_u64. pose proof (Z.mod_pos_bound z 18446744073709551616).
  destruct (Z.ltb_spec (z mod 18446744073709551616) 9223372036854775808); lia.
Qed.

(** Whatever the profile, a result that is not a panic is in range and is the
    exact one modulo the width. *)
Lemma arith_Ok `{Profile} {E} (ok : Z -> Prop) `{forall z, Decision (ok z)} wrap z v :
  (forall x, ok (wrap x)) -> (forall x, ok x -> wrap x = x) ->
  @arith _ E ok _ wrap z = Ok v -> ok v /\ v = wrap z.
Proof.
  intros Hw Hid. unfold arith. destruct (decide (ok z)); [|destruct overflow_checks; [done|]];
    intros [= <-]; auto using eq_sym.
Qed.

Lemma arith_no_err `{Profile} {E} (ok : Z -> Prop) `{forall z, Decision (ok z)} wrap z e :
  @arith _ E ok _ wrap z <> Err e.
Proof. unfold arith. destruct (decide (ok z)); [done|]. by destruct overflow_checks. Qed.

Lemma u16_arith_Ok `{Profile} {E} z v : @u16_arith _ E z = Ok v -> is_u16 v /\ v = to_u16 z.
Proof. apply arith_Ok; [apply to_u16_range|]. intros x Hx. by apply Z.mod_small. Qed.
Lemma u32_arith_Ok `{Profile} {E} z v : @u32_arith _ E z = Ok v -> is_u32 v /\ v = to_u32 z.
Proof. apply arith_Ok; [apply to_u32_range|]. intros x Hx. by apply Z.mod_small. Qed.

(** * What a method keeps

    [keeps I m]: when [m] returns, with a value or an error, from a state where
    [I] holds, then [I] holds again.  A panic unwinds and leaves no claim. *)

Definition returns {E A} (r : outcome E A) : Prop :=
  match r with Ok _ | Err _ => True | Panic | NoFuel => False end.

Definition keeps {S E A} (I : S -> Prop) (m : St S E A) : Prop :=
  forall s, I s -> returns (m s).1 -> I (m s).2.

Create HintDb keeps.

Section Keeps.
Context {S E : Type} (I : S -> Prop).

Lemma keeps_apply {A} (m : St S E A) s r s' : keeps I m -> I s -> m s = (r, s') -> returns r -> I s'.
Proof. intros H Hs Hm Hr. specialize (H s Hs). rewrite Hm in H. auto. Qed.

Lemma keeps_ret {A} (a : A) : keeps I (mret a : St S E A).
Proof. by intros s Hs _. Qed.
Lemma keeps_fail {A} e : keeps I (fail e : St S E A).
Proof. by intros s Hs _. Qed.
Lemma keeps_lift {A} m : keeps I (lift m : St S E A).
Proof. by intros s Hs _. Qed.
Lemma keeps_lift_unwrap {F A} (m : outcome F A) : keeps I (lift_unwrap m : St S E A).
Proof. by intros s Hs _. Qed.
Lemma keeps_modify f : (forall s, I s -> I (f s)) -> keeps I (modify f : St S E unit).
Proof. intros H s Hs _. by apply H. Qed.

Lemma keeps_bind {A B} (m : St S E A) (f : A -> St S E B) :
  keeps I m -> (forall a, keeps I (f a)) -> keeps I (m ≫= f).
Proof.
  intros Hm Hf s Hs. unfold mbind, St_bind. specialize (Hm s Hs).
  destruct (m s) as [[a|e| |] s']; simpl in *; auto. by apply Hf, Hm.
Qed.

(** The continuation knows what was read of the state, and how a computation
    without effect came out. *)
Lemma keeps_bind_get {B} (f : S -> St S E B) :
  (forall a, I a -> keeps I (f a)) -> keeps I (get ≫= f).
Proof. intros Hf s Hs. by apply (Hf s). Qed.
Lemma keeps_bind_lift {A B} (m : outcome E A) (f : A -> St S E B) :
  (forall a, m = Ok a -> keeps I (f a)) -> keeps I (lift m ≫= f).
Proof.
  intros Hf s Hs. unfold mbind, St_bind, lift. destruct m; simpl; auto. by apply Hf.
Qed.
Lemma keeps_bind_unwrap {F A B} (m : outcome F A) (f : A -> St S E B) :
  (forall a, m = Ok a -> keeps I (f a)) -> keeps I (lift_unwrap m ≫= f).
Proof. intros Hf. apply keeps_bind_lift. intros a Ha. by apply Hf, (unwrap_Ok (F := E)). Qed.

(** The continuation may use what a returned value satisfies. *)
Lemma keeps_bind_value {A B} (m : St S E A) (f : A -> St S E B) (Q : A -> Prop) :
  keeps I m -> (forall s a s', I s -> m s = (Ok a, s') -> Q a) ->
  (forall a, Q a -> keeps I (f a)) -> keeps I (m ≫= f).
Proof.
  intros Hm HQ Hf s Hs. unfold mbind, St_bind. specialize (Hm s Hs). specialize (HQ s).
  destruct (m s) as [[a|e| |] s']; simpl in *; auto. apply Hf; eauto.
Qed.

Lemma keeps_ignore {A} (m : St S E A) : keeps I m -> keeps I (ignore m).
Proof.
  intros Hm s Hs. unfold ignore. specialize (Hm s Hs).
  by destruct (m s) as [[a|e| |] s'].
Qed.

Lemma keeps_when b (m : St S E unit) : keeps I m -> keeps I (when b m).
Proof. intros Hm. destruct b; [exact Hm|apply keeps_ret]. Qed.

Lemma keeps_fmap {A B} (f : A -> B) (m : St S E A) : keeps I m -> keeps I (f <$> m).
Proof. intros Hm. apply keeps_bind; [done|]. intros a. apply keeps_ret. Qed.

Lemma keeps_for_each {A} (l : list A) f :
  (forall a, keeps I (f a)) -> keeps I (for_each l f : St S E unit).
Proof. intros Hf. induction l; simpl; [apply keeps_ret|]. by apply keeps_bind. Qed.
End Keeps.

#[export] Hint Resolve keeps_ret keeps_fail keeps_lift keeps_lift_unwrap : keeps.

(** One step through a method: the effects of its first statement are opened,
    branches are split, known methods are found in the hint database. *)
Ltac keeps_step :=
  match goal with
  | |- keeps _ (get ≫= _) => apply keeps_bind_get; intros ? ?
  | |- keeps _ (lift _ ≫= _) => apply keeps_bind_lift; intros ? ?
  | |- keeps _ (lift_unwrap _ ≫= _) => apply keeps_bind_unwrap; intros ? ?
  | |- keeps _ (_ ≫= _) => apply keeps_bind; [|intros ?]
  | |- keeps _ (_ <$> _) => apply keeps_fmap
  | |- keeps _ (ignore _) => apply keeps_ignore
  | |- keeps _ (when _ _) => apply keeps_when
  | |- keeps _ (for_each _ _) => apply keeps_for_each; intros ?
  | |- keeps _ (match ?x with _ => _ end) => destruct x eqn:?
  | |- keeps _ (modify _) => apply keeps_modify; intros ? ?
  | |- keeps _ _ => solve [auto with keeps]
  end.
Ltac keeps_tac := repeat keeps_step.

(** Running a bind whose first part is known. *)
Lemma St_bind_ok {S E A B} (m : St S E A) (f : A -> St S E B) s a s' :
  m s = (Ok a, s') -> (m ≫= f) s = f a s'.
Proof. intros H. unfold mbind, St_bind. by rewrite H. Qed.

(** A bind that returned a value: both parts did. *)
Lemma St_bind_inv {S E A B} (m : St S E A) (f : A -> St S E B) s b s' :
  (m ≫= f) s = (Ok b, s') -> exists a s1, m s = (Ok a, s1) /\ f a s1 = (Ok b, s').
Proof.
  unfold mbind, St_bind. destruct (m s) as [[a|e| |] s1]; naive_solver.
Qed.

(** Running the first statement of a method. *)
Lemma bind_get_run {S E B} (f : S -> St S E B) s : (get ≫= f) s = f s s.
Proof. done. Qed.
Lemma bind_modify_run {S E B} g (f : unit -> St S E B) s : (modify g ≫= f) s = f tt (g s).
Proof. done. Qed.
Lemma bind_ret_run {S E A B} (a : A) (f : A -> St S E B) s : (mret a ≫= f) s = f a s.
Proof. done. Qed.
Lemma bind_lift_run {S E A B} (a : A) (f : A -> St S E B) s : (lift (Ok a) ≫= f) s = f a s.
Proof. done. Qed.
Lemma fmap_run {S E A B} (f : A -> B) (m : St S E A) s a s' :
  m s = (Ok a, s') -> (f <$> m) s = (Ok (f a), s').
Proof. intros H. unfold fmap, St_fmap. by rewrite (St_bind_ok _ _ _ _ _ H). Qed.

(** * What a method does

    [safe R m Q s]: from [s] the method returns a value and a state that satisfy
    [Q], or it panics and the reason [R] holds. *)

Definition safe {S E A} (R : Prop) (m : St S E A) (Q : A -> S -> Prop) (s : S) : Prop :=
  match m s with
  | (Ok a, s') => Q a s'
  | (Panic, _) => R
  | _ => False
  end.

Section Safe.
Context {S E : Type} (R : Prop).

Lemma safe_bind {A B} (m : St S E A) (f : A -> St S E B) Q s :
  safe R m (fun a s' => safe R (f a) Q s') s -> safe R (m ≫= f) Q s.
Proof. unfold safe, mbind, St_bind. by destruct (m s) as [[a|e| |] s']. Qed.

Lemma safe_mono {A} (m : St S E A) (Q Q' : A -> S -> Prop) (R' : Prop) s :
  safe R m Q s -> (R -> R') -> (forall a s', Q a s' -> Q' a s') -> safe R' m Q' s.
Proof. unfold safe. destruct (m s) as [[a|e| |] s']; auto. Qed.

Lemma safe_sure {A} (m : St S E A) (Q : A -> S -> Prop) s : safe False m Q s -> safe R m Q s.
Proof. unfold safe. by destruct (m s) as [[a|e| |] s']. Qed.

(** A call followed by the rest: what it does, and the rest from there. *)
Lemma safe_call {A B} (m : St S E A) (f : A -> St S E B) (Q : A -> S -> Prop) Q' s :
  safe R m Q s -> (forall a s', Q a s' -> safe R (f a) Q' s') -> safe R (m ≫= f) Q' s.
Proof. intros Hm Hf. apply safe_bind. eapply safe_mono; eauto. Qed.

Lemma safe_ret {A} (a : A) (Q : A -> S -> Prop) s : Q a s -> safe R (mret a : St S E A) Q s.
Proof. done. Qed.
Lemma safe_get_bind {B} (f : S -> St S E B) Q s : safe R (f s) Q s -> safe R (get ≫= f) Q s.
Proof. done. Qed.
Lemma safe_modify f (Q : unit -> S -> Prop) s : Q tt (f s) -> safe R (modify f : St S E unit) Q s.
Proof. done. Qed.
Lemma safe_modify_bind {B} f (g : unit -> St S E B) Q s :
  safe R (g tt) Q (f s) -> safe R (modify f ≫= g) Q s.
Proof. done. Qed.
Lemma safe_lift_bind {A B} (m : outcome E A) (a : A) (f : A -> St S E B) Q s :
  m = Ok a -> safe R (f a) Q s -> safe R (lift m ≫= f) Q s.
Proof. by intros ->. Qed.
Lemma safe_lift_or {A B} (m : outcome E A) (P : A -> Prop) (f : A -> St S E B) Q s :
  (m = Panic /\ R) \/ (exists a, m = Ok a /\ P a) -> (forall a, P a -> safe R (f a) Q s) -> safe R (lift m ≫= f) Q s.
Proof. intros [[-> HR]|(a & -> & Ha)] Hf; [done|]. by apply Hf. Qed.
Lemma safe_lift {A} (m : outcome E A) (a : A) (Q : A -> S -> Prop) s :
  m = Ok a -> Q a s -> safe R (lift m) Q s.
Proof. by intros ->. Qed.
Lemma safe_unwrap_bind {F A B} (m : outcome F A) (a : A) (f : A -> St S E B) Q s :
  m = Ok a -> safe R (f a) Q s -> safe R (lift_unwrap m ≫= f) Q s.
Proof. by intros ->. Qed.
Lemma safe_panic {A} (Q : A -> S -> Prop) s : R -> safe R (lift Panic : St S E A) Q s.
Proof. done. Qed.

Lemma safe_for_each {A} (l : list A) f (I : S -> Prop) s :
  (forall a s, a ∈ l -> I s -> safe R (f a) (fun _ => I) s) ->
  I s -> safe R (for_each l f : St S E unit) (fun _ => I) s.
Proof.
  revert s. induction l as [|a l IH]; intros s Hf Hs; [done|]. cbn [for_each].
  eapply safe_call; [apply Hf; [left|exact Hs]|]. intros ? s' Hs'. apply IH; [|exact Hs'].
  intros b s1 Hb. apply Hf. by right.
Qed.

(** Reading a returned run off. *)
Lemma safe_False {A} (m : St S E A) Q s : safe False m Q s -> exists a s', m s = (Ok a, s') /\ Q a s'.
Proof. unfold safe. destruct (m s) as [[a|e| |] s']; [eauto|done..]. Qed.
Lemma safe_run {A} (m : St S E A) Q s a s' : safe R m Q s -> m s = (Ok a, s') -> Q a s'.
Proof. unfold safe. intros H Hm. by rewrite Hm in H. Qed.
End Safe.
