(* ===== verification/Float.v ===== *)
(** Float: [f64] as the binary64 format of the Standard Library's [SpecFloat],
    rounding to nearest, with Rust's saturating casts to integers. *)

From Stdlib Require Import ZArith Lia SpecFloat.

Notation f64 := spec_float.
Definition f64_of_Z (z : Z) : f64 := binary_normalize 53 1024 z 0 false.
Definition f64_add : f64 -> f64 -> f64 := SFadd 53 1024.
Definition f64_sub : f64 -> f64 -> f64 := SFsub 53 1024.
Definition f64_mul : f64 -> f64 -> f64 := SFmul 53 1024.
Definition f64_div : f64 -> f64 -> f64 := SFdiv 53 1024.

(** A cast to an integer type with range [lo, hi]: towards zero, saturating,
    0 for NaN. *)
Definition f64_to_int (lo hi : Z) (f : f64) : Z :=
  match f with
  | S754_zero _ | S754_nan => 0
  | S754_infinity s => if s then lo else hi
  | S754_finite s m e =>
      let v := (if 0 <=? e then Z.shiftl (Z.pos m) e else Z.shiftr (Z.pos m) (- e))%Z in
      Z.max lo (Z.min hi (if s then - v else v)%Z)
  end.
Definition f64_as_u32 : f64 -> Z := f64_to_int 0 4294967295.
Definition f64_as_i64 : f64 -> Z := f64_to_int (-9223372036854775808) 9223372036854775807.
Definition f64_as_u64 : f64 -> Z := f64_to_int 0 18446744073709551615.

Lemma f64_to_int_range lo hi f : (lo <= 0 <= hi)%Z -> (lo <= f64_to_int lo hi f <= hi)%Z.
Proof.
  intros H. destruct f as [|[]| |s m e]; cbn [f64_to_int]; try lia.
Qed.
