(* ===== verification/BencodeRead.v ===== *)
(** BencodeRead: what an owned tree gives when it is encoded, decoded and looked
    up key by key, for the crates that keep their data in bencode dictionaries. *)

From stdpp Require Import base list.
From Stdlib Require Import ZArith Lia.
From S2P Require Import Prelude OrdMap Bencode BencodeCorrect Effects.

Definition sized (bs : bytes) : Prop := is_i64 (Z.of_nat (length bs)).

Lemma sized_true bs : sized bs -> in_i64 (Z.of_nat (length bs)) = true.
Proof. intros H. by apply bool_decide_eq_true_2. Qed.

(** Trees that are written and read back: well-formed and at most [n] deep. *)
Definition fits (n : nat) (v : BencodeMut) : Prop := wf_mut v = true /\ nesting v <= n.

Lemma fits_bytes n bs : sized bs -> fits (S n) (MBytes bs).
Proof. intros H. split; [by apply sized_true|cbn; lia]. Qed.
Lemma fits_int n z : is_i64 z -> fits (S n) (MInt z).
Proof. intros H. split; [by apply bool_decide_eq_true_2|cbn; lia]. Qed.
Lemma fits_empty n : fits (S n) (MDict []).
Proof. split; [done|cbn; lia]. Qed.
Lemma fits_insert n k v d :
  fits (S n) (MDict d) -> sized k -> fits n v -> fits (S n) (MDict (btree_insert k v d)).
Proof.
  intros [Hw Hn] Hk [Hvw Hvn]. apply wf_dict in Hw as [Ho Hf]. apply (nesting_dict d 0) in Hn. split.
  - cbn [wf_mut]. apply andb_true_iff. split; [by apply orderedb_spec, btree_insert_ordered|].
    apply forallb_Forall, btree_insert_Forall; [|by rewrite (sized_true _ Hk), Hvw].
    eapply Forall_impl; [exact Hf|]. intros [k' v'] [Hk' Hw']. cbn [fst snd] in *. by rewrite (sized_true _ Hk'), Hw'.
  - cbn [nesting]. apply le_n_S, list_max_le, Forall_fmap, btree_insert_Forall; [|done].
    eapply Forall_impl; [exact Hn|]. intros [k' v'] H. cbn in *. lia.
Qed.

Lemma fits_list n l : Forall (fits n) l -> fits (S n) (MList l).
Proof.
  intros Hl. split.
  - cbn [wf_mut]. apply forallb_Forall. eapply Forall_impl; [exact Hl|]. by intros v [? _].
  - cbn [nesting]. apply le_n_S, list_max_le, Forall_fmap. eapply Forall_impl; [exact Hl|]. by intros v [_ ?].
Qed.

(** A well-formed dictionary is decoded as it was built. *)
Lemma read_back v : fits 50 v -> BencodeRef_decode (encode v) BDecodeOpt_default = Ok (to_ref v).
Proof.
  intros [Hw Hn]. unfold BencodeRef_decode. pose proof (decode_encode_at v [] BDecodeOpt_default Hw Hn) as Hd.
  rewrite app_nil_r in Hd. rewrite Hd. cbn [mbind outcome_bind]. by rewrite Nat.eqb_refl.
Qed.

Create HintDb fits.
#[export] Hint Resolve fits_bytes fits_empty fits_insert fits_list : fits.
#[export] Hint Extern 1 (sized _) => solve [assumption | by apply (bool_decide_unpack _)] : fits.

(** Looking up a key in the decoded form of a dictionary. *)
Notation ref_entries d := ((fun '(k, v) => (k, to_ref v)) <$> d).

Section Lookups.
Context {Error : Type} `{!BConvert Error} (d : list (bytes * BencodeMut)) (k : bytes).

Lemma lookup_ref : dict_lookup (ref_entries d) k = to_ref <$> btree_get k d.
Proof.
  unfold dict_lookup. induction d as [|[k' v] d' IH]; [done|]. cbn [fmap list_fmap btree_get].
  by destruct (kcmp k k').
Qed.

Lemma lookup_bytes_ref b : btree_get k d = Some (MBytes b) ->
  lookup_and_convert_bytes (Error := Error) (ref_entries d) k = Ok b.
Proof. intros H. unfold lookup_and_convert_bytes, lookup_key. by rewrite lookup_ref, H. Qed.
Lemma lookup_str_ref b : btree_get k d = Some (MBytes b) -> utf8_valid b = true ->
  lookup_and_convert_str (Error := Error) (ref_entries d) k = Ok b.
Proof.
  intros H Hu. unfold lookup_and_convert_str, lookup_key. rewrite lookup_ref, H.
  change (to_ref <$> Some (MBytes b)) with (Some (to_ref (MBytes b))). run_binds.
  unfold convert_str. cbn [str BencodeRef_access to_ref BencodeRef_bytes]. unfold from_utf8. by rewrite Hu.
Qed.
Lemma lookup_int_ref n : btree_get k d = Some (MInt n) ->
  lookup_and_convert_int (Error := Error) (ref_entries d) k = Ok n.
Proof. intros H. unfold lookup_and_convert_int, lookup_key. by rewrite lookup_ref, H. Qed.
Lemma lookup_list_ref l : btree_get k d = Some (MList l) ->
  lookup_and_convert_list (Error := Error) (ref_entries d) k = Ok (to_ref <$> l).
Proof. intros H. unfold lookup_and_convert_list, lookup_key. by rewrite lookup_ref, H. Qed.
Lemma lookup_dict_ref x : btree_get k d = Some (MDict x) ->
  lookup_and_convert_dict (Error := Error) (ref_entries d) k = Ok (ref_entries x).
Proof. intros H. unfold lookup_and_convert_dict, lookup_key. by rewrite lookup_ref, H. Qed.

Lemma lookup_bytes_none : btree_get k d = None ->
  lookup_and_convert_bytes (Error := Error) (ref_entries d) k = Err (handle_error (MissingKey k)).
Proof. intros H. unfold lookup_and_convert_bytes, lookup_key. by rewrite lookup_ref, H. Qed.
Lemma lookup_list_none : btree_get k d = None ->
  lookup_and_convert_list (Error := Error) (ref_entries d) k = Err (handle_error (MissingKey k)).
Proof. intros H. unfold lookup_and_convert_list, lookup_key. by rewrite lookup_ref, H. Qed.
End Lookups.

(** * Reading always answers *)

(** A result that satisfies [P], or an error, and neither a panic nor an
    exhausted budget. *)
Definition settles {E A} (P : A -> Prop) (m : outcome E A) : Prop :=
  match m with Ok a => P a | Err _ => True | _ => False end.

Lemma settles_bind {E A B} (Q : A -> Prop) (P : B -> Prop) (m : outcome E A) (f : A -> outcome E B) :
  settles Q m -> (forall a, Q a -> settles P (f a)) -> settles P (m ≫= f).
Proof. destruct m; simpl; auto. Qed.
Lemma settles_map_err {E F A} (P : A -> Prop) (g : E -> F) (m : outcome E A) : settles P m -> settles P (map_err g m).
Proof. by destruct m. Qed.
Lemma settles_ok_or {E A} (o : option A) (e : E) : settles (fun _ => True) (ok_or o e).
Proof. by destruct o. Qed.
Lemma settles_weaken {E A} (P Q : A -> Prop) (m : outcome E A) :
  (forall a, P a -> Q a) -> settles P m -> settles Q m.
Proof. destruct m; simpl; auto. Qed.

Section Settles.
Context {B Error : Type} `{!BRefAccess B, !BConvert Error} (d : list (bytes * B)) (k : bytes).

Lemma settles_key : settles (E := Error) (fun _ => True) (lookup_key d k).
Proof. unfold lookup_key. by destruct (dict_lookup d k). Qed.
Lemma settles_bytes : settles (E := Error) (fun _ => True) (lookup_and_convert_bytes d k).
Proof. eapply settles_bind; [apply settles_key|]. intros v _. apply settles_ok_or. Qed.
Lemma settles_str : settles (E := Error) (fun _ => True) (lookup_and_convert_str d k).
Proof. eapply settles_bind; [apply settles_key|]. intros v _. apply settles_ok_or. Qed.
Lemma settles_int : settles (E := Error) (fun _ => True) (lookup_and_convert_int d k).
Proof. eapply settles_bind; [apply settles_key|]. intros v _. apply settles_ok_or. Qed.
Lemma settles_list : settles (E := Error) (fun _ => True) (lookup_and_convert_list d k).
Proof. eapply settles_bind; [apply settles_key|]. intros v _. apply settles_ok_or. Qed.
Lemma settles_dict : settles (E := Error) (fun _ => True) (lookup_and_convert_dict d k).
Proof. eapply settles_bind; [apply settles_key|]. intros v _. apply settles_ok_or. Qed.
End Settles.
