(* ===== verification/UtpSocket.v ===== *)
(** UtpSocket: the uTP socket of [btp-utp/src/socket.rs], with its listener,
    the averages of util.rs, the errors of error.rs and the stream of stream.rs.

    The UDP socket underneath, the clock and the random numbers are the
    environment: [UdpEnv] gives the outcome of the n-th receive, the n-th send,
    the n-th reading of the clock and the n-th random number, and [Udp] holds
    how many of each the socket has used and what it has sent.  A [&mut [u8]]
    that is read into is its length, and the bytes written to it are the result.

    [f64] is the binary64 format of the Standard Library's [SpecFloat]; the
    logging macros are left out. *)

From stdpp Require Import base list.
From Stdlib Require Import ZArith Lia SpecFloat.
From Stdlib Require String.
From S2P Require Import Prelude Effects Float Convert UtpPacket.
Import String.StringSyntax.
Delimit Scope string_scope with str.
Notation string := String.string.

(** * error.rs *)

Inductive ErrorKind : Type :=
  | KNotConnected | KConnectionReset | KTimedOut | KInvalidInput | KConnectionRefused
  | KOther | KWouldBlock | KUnlisted (code : Z).

#[global] Instance ErrorKind_eq_dec : EqDecision ErrorKind.
Proof. solve_decision. Defined.

(** [io::Error]: its kind and its description. *)
Record IoError := { kind : ErrorKind; description : string }.

Inductive SocketError : Type :=
  | ConnectionClosed
  | ConnectionReset
  | ConnectionTimedOut
  | InvalidAddress
  | InvalidReply
  | NotConnected
  | Other (s : string).

Definition SocketError_description (e : SocketError) : string :=
  match e with
  | ConnectionClosed => "The socket is closed"%str
  | ConnectionReset => "Connection reset by remote peer"%str
  | ConnectionTimedOut => "Connection timed out"%str
  | InvalidAddress => "Invalid address"%str
  | InvalidReply => "The remote peer sent an invalid reply"%str
  | NotConnected => "The socket is not connected"%str
  | Other s => s
  end.

(** [From<SocketError> for io::Error] *)
Definition io_of_SocketError (error : SocketError) : IoError :=
  {| kind := match error with
             | ConnectionClosed | NotConnected => KNotConnected
             | ConnectionReset => KConnectionReset
             | ConnectionTimedOut => KTimedOut
             | InvalidAddress => KInvalidInput
             | InvalidReply => KConnectionRefused
             | Other _ => KOther
             end;
     description := SocketError_description error |}.

Definition ParseError_description (e : ParseError) : string :=
  match e with
  | InvalidExtensionLength => "Invalid extension length (must be a non-zero multiple of 4)"%str
  | InvalidPacketLength => "The packet is too small"%str
  | InvalidPacketType _ => "Invalid packet type"%str
  | UnsupportedVersion => "Unsupported packet version"%str
  end.

(** [From<ParseError> for io::Error] *)
Definition io_of_ParseError (error : ParseError) : IoError :=
  {| kind := KOther; description := ParseError_description error |}.

(** * socket.rs: constants *)

Definition BUF_SIZE : nat := 1500.
Definition ALLOWED_INCREASE : Z := 1.
Definition MSS : Z := 1400.
Definition MIN_CWND : Z := 2.
Definition INIT_CWND : Z := 2.
Definition INITIAL_CONGESTION_TIMEOUT : Z := 2000.
Definition MIN_CONGESTION_TIMEOUT : Z := 500.
Definition MAX_CONGESTION_TIMEOUT : Z := 60000.
Definition BASE_HISTORY : nat := 10.
Definition MAX_SYN_RETRIES : nat := 5.
Definition MAX_RETRANSMISSION_RETRIES : Z := 5.
Definition WINDOW_SIZE : Z := 1024 * 1024.
Definition PRE_SEND_TIMEOUT : Z := 500000.
Definition MAX_BASE_DELAY_AGE : Z := 60000000.

Definition GAIN : f64 := f64_of_Z 1.
Definition TARGET : f64 := f64_of_Z 100000.

(** * socket.rs: state *)

Inductive SocketState : Type := New | Connected | SynSent | FinSent | ResetReceived | Closed.

#[global] Instance SocketState_eq_dec : EqDecision SocketState.
Proof. solve_decision. Defined.
#[global] Instance PacketType_eq_dec : EqDecision PacketType.
Proof. solve_decision. Defined.

Record DelayDifferenceSample := { received_at : Z; difference : Z }.

(** The UDP socket: the next receive, send, clock reading and random number of
    the environment, the read timeout in force and the datagrams sent. *)
Record Udp := {
  n_recv : nat; n_send : nat; n_clock : nat; n_rand : nat;
  read_timeout : option Z; sent : list (bytes * SocketAddr) }.

Record UtpSocket := {
  socket : Udp;
  connected_to : SocketAddr;
  sender_connection_id : Z;
  receiver_connection_id : Z;
  sk_seq_nr : Z;
  sk_ack_nr : Z;
  state : SocketState;
  incoming_buffer : list Packet;
  send_window : list Packet;
  unsent_queue : list Packet;
  duplicate_ack_count : Z;
  last_acked : Z;
  last_acked_timestamp : Z;
  last_dropped : Z;
  rtt : Z;
  rtt_variance : Z;
  pending_data : bytes;
  curr_window : Z;
  remote_wnd_size : Z;
  base_delays : list Z;
  current_delays : list DelayDifferenceSample;
  their_delay : Z;
  last_rollover : Z;
  congestion_timeout : Z;
  cwnd : Z;
  max_retransmission_retries : Z }.

Definition socket_eta (s : UtpSocket) : UtpSocket :=
  {| socket := socket s; connected_to := connected_to s;
     sender_connection_id := sender_connection_id s;
     receiver_connection_id := receiver_connection_id s;
     sk_seq_nr := sk_seq_nr s; sk_ack_nr := sk_ack_nr s; state := state s;
     incoming_buffer := incoming_buffer s; send_window := send_window s;
     unsent_queue := unsent_queue s; duplicate_ack_count := duplicate_ack_count s;
     last_acked := last_acked s; last_acked_timestamp := last_acked_timestamp s;
     last_dropped := last_dropped s; rtt := rtt s; rtt_variance := rtt_variance s;
     pending_data := pending_data s; curr_window := curr_window s;
     remote_wnd_size := remote_wnd_size s; base_delays := base_delays s;
     current_delays := current_delays s; their_delay := their_delay s;
     last_rollover := last_rollover s; congestion_timeout := congestion_timeout s;
     cwnd := cwnd s; max_retransmission_retries := max_retransmission_retries s |}.

#[global] Instance upd_socket : FieldUpdate socket := ltac:(field_update socket_eta socket).
#[global] Instance upd_connected_to : FieldUpdate connected_to := ltac:(field_update socket_eta connected_to).
#[global] Instance upd_sender_connection_id : FieldUpdate sender_connection_id := ltac:(field_update socket_eta sender_connection_id).
#[global] Instance upd_receiver_connection_id : FieldUpdate receiver_connection_id := ltac:(field_update socket_eta receiver_connection_id).
#[global] Instance upd_seq_nr : FieldUpdate sk_seq_nr := ltac:(field_update socket_eta sk_seq_nr).
#[global] Instance upd_ack_nr : FieldUpdate sk_ack_nr := ltac:(field_update socket_eta sk_ack_nr).
#[global] Instance upd_state : FieldUpdate state := ltac:(field_update socket_eta state).
#[global] Instance upd_incoming_buffer : FieldUpdate incoming_buffer := ltac:(field_update socket_eta incoming_buffer).
#[global] Instance upd_send_window : FieldUpdate send_window := ltac:(field_update socket_eta send_window).
#[global] Instance upd_unsent_queue : FieldUpdate unsent_queue := ltac:(field_update socket_eta unsent_queue).
#[global] Instance upd_duplicate_ack_count : FieldUpdate duplicate_ack_count := ltac:(field_update socket_eta duplicate_ack_count).
#[global] Instance upd_last_acked : FieldUpdate last_acked := ltac:(field_update socket_eta last_acked).
#[global] Instance upd_last_acked_timestamp : FieldUpdate last_acked_timestamp := ltac:(field_update socket_eta last_acked_timestamp).
#[global] Instance upd_last_dropped : FieldUpdate last_dropped := ltac:(field_update socket_eta last_dropped).
#[global] Instance upd_rtt : FieldUpdate rtt := ltac:(field_update socket_eta rtt).
#[global] Instance upd_rtt_variance : FieldUpdate rtt_variance := ltac:(field_update socket_eta rtt_variance).
#[global] Instance upd_pending_data : FieldUpdate pending_data := ltac:(field_update socket_eta pending_data).
#[global] Instance upd_curr_window : FieldUpdate curr_window := ltac:(field_update socket_eta curr_window).
#[global] Instance upd_remote_wnd_size : FieldUpdate remote_wnd_size := ltac:(field_update socket_eta remote_wnd_size).
#[global] Instance upd_base_delays : FieldUpdate base_delays := ltac:(field_update socket_eta base_delays).
#[global] Instance upd_current_delays : FieldUpdate current_delays := ltac:(field_update socket_eta current_delays).
#[global] Instance upd_their_delay : FieldUpdate their_delay := ltac:(field_update socket_eta their_delay).
#[global] Instance upd_last_rollover : FieldUpdate last_rollover := ltac:(field_update socket_eta last_rollover).
#[global] Instance upd_congestion_timeout : FieldUpdate congestion_timeout := ltac:(field_update socket_eta congestion_timeout).
#[global] Instance upd_cwnd : FieldUpdate cwnd := ltac:(field_update socket_eta cwnd).
#[global] Instance upd_max_retransmission_retries : FieldUpdate max_retransmission_retries := ltac:(field_update socket_eta max_retransmission_retries).

(** * The environment *)

Inductive RecvEvent : Type := Datagram (data : bytes) (src : SocketAddr) | RecvFailed (e : IoError).

Class UdpEnv := {
  env_recv : nat -> RecvEvent;
  env_send : nat -> option IoError;
  env_clock : nat -> Z * Z;
  env_rand : nat -> Z;
  (** [Delay::to_f64], the method [num_traits::ToPrimitive] provides. *)
  delay_to_f64 : Z -> option f64 }.

Notation M := (St UtpSocket IoError).

Section Udp.
Context `{UdpEnv}.

(** [now_microseconds] *)
Definition now : M Z := fun s =>
  let u := socket s in
  let '(secs, nanos) := env_clock (n_clock u) in
  (Ok (now_microseconds secs nanos),
   s <| socket := {| n_recv := n_recv u; n_send := n_send u; n_clock := S (n_clock u);
                     n_rand := n_rand u; read_timeout := read_timeout u; sent := sent u |} |>).

(** [rand::random::<u16>] *)
Definition random_u16 : M Z := fun s =>
  let u := socket s in
  (Ok (to_u16 (env_rand (n_rand u))),
   s <| socket := {| n_recv := n_recv u; n_send := n_send u; n_clock := n_clock u;
                     n_rand := S (n_rand u); read_timeout := read_timeout u; sent := sent u |} |>).

(** [UdpSocket::send_to] *)
Definition udp_send (data : bytes) (to : SocketAddr) : M unit := fun s =>
  let u := socket s in
  let u' log := {| n_recv := n_recv u; n_send := S (n_send u); n_clock := n_clock u;
                   n_rand := n_rand u; read_timeout := read_timeout u; sent := log |} in
  match env_send (n_send u) with
  | None => (Ok tt, s <| socket := u' (sent u ++ [(data, to)]) |>)
  | Some e => (Err e, s <| socket := u' (sent u) |>)
  end.

(** [UdpSocket::set_read_timeout]: a zero duration is an error, which the
    callers [expect] away. *)
Definition set_read_timeout (t : option Z) : M unit :=
  match t with
  | Some 0%Z => lift Panic
  | _ => modify (fun s =>
      let u := socket s in
      s <| socket := {| n_recv := n_recv u; n_send := n_send u; n_clock := n_clock u;
                        n_rand := n_rand u; read_timeout := t; sent := sent u |} |>)
  end.

(** [UdpSocket::recv_from] into a buffer of [size] bytes: what does not fit is
    cut off. *)
Definition udp_recv (size : nat) : M (bytes * SocketAddr + IoError) := fun s =>
  let u := socket s in
  (Ok match env_recv (n_recv u) with
      | Datagram data src => inl (take size data, src)
      | RecvFailed e => inr e
      end,
   s <| socket := {| n_recv := S (n_recv u); n_send := n_send u; n_clock := n_clock u;
                     n_rand := n_rand u; read_timeout := read_timeout u; sent := sent u |} |>).
End Udp.

Definition socket_fail {A} (e : SocketError) : M A := fail (io_of_SocketError e).

(** The kinds a receive that timed out answers with. *)
Definition is_timeout (e : IoError) : bool :=
  bool_decide (kind e = KWouldBlock) || bool_decide (kind e = KTimedOut).

Section Socket.
Context `{UdpEnv} `{Profile}.

(** * util.rs *)

(** [ewma]; an element without an [f64] panics. *)
Definition ewma (samples : list Z) (alpha : f64) : outcome IoError f64 :=
  match samples with
  | [] => Ok (f64_of_Z 0)
  | v :: rest =>
      first ← opt_unwrap (delay_to_f64 v);
      fold_left (fun acc v =>
        avg ← acc;
        sample ← opt_unwrap (delay_to_f64 v);
        Ok (f64_add (f64_mul alpha sample) (f64_mul (f64_sub (f64_of_Z 1) alpha) avg)))
        rest (Ok first)
  end.

(** * Construction *)

(** [UtpSocket::from_raw_parts]; [id] is the random number drawn. *)
Definition from_raw_parts (s : Udp) (src : SocketAddr) (id : Z) : UtpSocket :=
  let '(receiver_id, sender_id) := generate_sequential_identifiers id in
  {| socket := s; connected_to := src; receiver_connection_id := receiver_id;
     sender_connection_id := sender_id; sk_seq_nr := 1; sk_ack_nr := 0; state := New;
     incoming_buffer := []; send_window := []; unsent_queue := []; duplicate_ack_count := 0;
     last_acked := 0; last_acked_timestamp := 0; last_dropped := 0; rtt := 0;
     rtt_variance := 0; pending_data := []; curr_window := 0; remote_wnd_size := 0;
     current_delays := []; base_delays := []; their_delay := 0; last_rollover := 0;
     congestion_timeout := INITIAL_CONGESTION_TIMEOUT; cwnd := INIT_CWND * MSS;
     max_retransmission_retries := MAX_RETRANSMISSION_RETRIES |}.

Definition udp_new : Udp :=
  {| n_recv := 0; n_send := 0; n_clock := 0; n_rand := 0; read_timeout := None; sent := [] |}.

(** [take_address], of the addresses the argument resolves to. *)
Definition take_address (addrs : outcome IoError (list SocketAddr)) : outcome IoError SocketAddr :=
  it ← addrs; ok_or (head it) (io_of_SocketError InvalidAddress).

(** [UtpSocket::bind]; [bound] is the outcome of [UdpSocket::bind]. *)
Definition bind (addrs : outcome IoError (list SocketAddr)) (bound : outcome IoError unit) (id : Z)
    : outcome IoError UtpSocket :=
  a ← take_address addrs; _ ← bound; Ok (from_raw_parts udp_new a id).

Definition peer_addr (s : UtpSocket) : outcome IoError SocketAddr :=
  if bool_decide (state s = Connected) || bool_decide (state s = FinSent)
  then Ok (connected_to s) else Err (io_of_SocketError NotConnected).

(** * Receiving *)

(** [advance_incoming_buffer] *)
Definition advance_incoming_buffer : M (option Packet) :=
  s ← get;
  match incoming_buffer s with
  | [] => mret None
  | packet :: rest =>
      _ ← modify (fun s => s <| incoming_buffer := rest |> <| sk_ack_nr := seq_nr packet |>
                             <| last_dropped := seq_nr packet |>);
      mret (Some packet)
  end.

(** [flush_incoming_buffer] with a buffer of [size] bytes. *)
Definition flush_incoming_buffer (size : nat) : M bytes :=
  s ← get;
  if negb (bool_decide (pending_data s = [])) then
    let flushed := min (length (pending_data s)) size in
    let out := take flushed (pending_data s) in
    _ ← (if flushed =? length (pending_data s) then
           _ ← modify (fun s => s <| pending_data := [] |>);
           package ← advance_incoming_buffer;
           match package with
           | Some package =>
               pl ← lift_unwrap (payload package);
               modify (fun s => s <| pending_data := pl |>)
           | None => mret tt
           end
         else modify (fun s => s <| pending_data := drop flushed (pending_data s) |>));
    mret out
  else
    match incoming_buffer s with
    | [] => mret []
    | first :: _ =>
        next ← (if (sk_ack_nr s =? seq_nr first)%Z then mret true
                else n ← lift (u16_arith (sk_ack_nr s + 1)); mret (n =? seq_nr first)%Z);
        if next : bool then
          pl ← lift_unwrap (payload first);
          let flushed := min (length pl) size in
          _ ← (if flushed =? length pl then mret tt
               else modify (fun s => s <| pending_data := drop flushed pl |>));
          _ ← advance_incoming_buffer;
          mret (take flushed pl)
        else mret []
    end.

(** [insert_into_buffer] *)
Definition insert_into_buffer (packet : Packet) : M unit :=
  s ← get;
  let buf := incoming_buffer s in
  if match last buf with Some p => (seq_nr p <? seq_nr packet)%Z | None => false end then
    modify (fun s => s <| incoming_buffer := buf ++ [packet] |>)
  else
    let i := length (filter (fun p => (seq_nr p < seq_nr packet)%Z) buf) in
    if match buf !! i with Some p => negb (seq_nr p =? seq_nr packet)%Z | None => true end then
      buf' ← lift (vec_insert buf i packet);
      modify (fun s => s <| incoming_buffer := buf' |>)
    else mret tt.

(** [build_selective_ack]: the loop that makes room for a byte, *)
Fixpoint sack_grow (fuel byte : nat) (sack : bytes) : outcome IoError bytes :=
  match fuel with
  | O => NoFuel
  | S fuel =>
      if (length sack <=? byte) || negb (length sack mod 4 =? 0)
      then sack_grow fuel byte (sack ++ [0%Z]) else Ok sack
  end.

(** one stashed packet, *)
Definition sack_mark (ack : Z) (sack : bytes) (pkt : Packet) : outcome IoError bytes :=
  next ← u16_arith (ack + 1);
  if (next <? seq_nr pkt)%Z then
    d1 ← u16_arith (seq_nr pkt - ack);
    d2 ← u16_arith (d1 - 2);
    let diff := Z.to_nat d2 in
    let byte := diff / 8 in
    let bit := diff mod 8 in
    sack ← sack_grow (byte + 5) byte sack;
    b ← index sack byte;
    Ok (<[byte := Z.lor b (Z.shiftl 1 (Z.of_nat bit))]> sack)
  else Ok sack.

(** and the whole vector. *)
Definition build_selective_ack (s : UtpSocket) : outcome IoError bytes :=
  fold_left (fun acc pkt => sack ← acc; sack_mark (sk_ack_nr s) sack pkt)
    (incoming_buffer s) (Ok []).

(** * Packets of the socket *)

(** [prepare_reply] *)
Definition prepare_reply (original : Packet) (t : PacketType) : M Packet :=
  self_t_micro ← now;
  s ← get;
  let time_difference := abs_diff self_t_micro (timestamp original) in
  mret (set_ack_nr (sk_ack_nr s) (set_seq_nr (sk_seq_nr s)
         (set_connection_id (sender_connection_id s)
           (set_timestamp_difference time_difference
             (set_timestamp self_t_micro (set_type t packet_new)))))).

(** The FIN packet that [close] and [handle_receive_timeout] build. *)
Definition fin_packet : M Packet :=
  s ← get;
  let p := set_ack_nr (sk_ack_nr s) (set_seq_nr (sk_seq_nr s)
             (set_connection_id (sender_connection_id s) packet_new)) in
  t ← now;
  mret (set_type Fin (set_timestamp t p)).

(** [send_fast_resend_request] *)
Definition send_fast_resend_request : M unit :=
  for_each [0; 1; 2] (fun _ =>
    self_t_micro ← now;
    s ← get;
    let packet := set_ack_nr (sk_ack_nr s) (set_seq_nr (sk_seq_nr s)
                    (set_connection_id (sender_connection_id s)
                      (set_timestamp_difference (their_delay s)
                        (set_timestamp self_t_micro (set_type State packet_new))))) in
    ignore (udp_send packet (connected_to s))).

(** [handle_receive_timeout] *)
Definition handle_receive_timeout : M unit :=
  s ← get;
  timeout ← lift (u64_arith (congestion_timeout s * 2));
  _ ← modify (fun s => s <| congestion_timeout := timeout |> <| cwnd := MSS |>);
  match send_window s with
  | [] =>
      if bool_decide (state s = FinSent) then
        packet ← fin_packet;
        udp_send packet (connected_to s)
      else when (negb (bool_decide (state s = New))) send_fast_resend_request
  | _ :: _ =>
      t ← now;
      _ ← modify (fun s => s <| send_window := alter (set_timestamp t) 0 (send_window s) |>);
      s ← get;
      packet ← lift (index (send_window s) 0);
      udp_send packet (connected_to s)
  end.

(** * Delays and the congestion window *)

(** [update_base_delay] *)
Definition update_base_delay (base_delay now : Z) : M unit :=
  s ← get;
  if bool_decide (base_delays s = []) || (MAX_BASE_DELAY_AGE <? timestamp_sub now (last_rollover s))%Z then
    let kept := if length (base_delays s) =? BASE_HISTORY then tail (base_delays s) else base_delays s in
    modify (fun s => s <| last_rollover := now |> <| base_delays := kept ++ [base_delay] |>)
  else
    let last_idx := length (base_delays s) - 1 in
    newest ← lift (index (base_delays s) last_idx);
    when (base_delay <? newest)%Z
      (modify (fun s => s <| base_delays := <[last_idx := base_delay]> (base_delays s) |>)).

(** [update_current_delay]: the loop that drops the samples older than one RTT, *)
Fixpoint drop_old_delays (now rtt : Z) (delays : list DelayDifferenceSample)
    : list DelayDifferenceSample :=
  match delays with
  | [] => []
  | d :: rest =>
      if (rtt <? timestamp_sub now (received_at d))%Z then drop_old_delays now rtt rest else delays
  end.

(** and the new measurement. *)
Definition update_current_delay (v now : Z) : M unit :=
  modify (fun s =>
    s <| current_delays := drop_old_delays now (rtt s * 100) (current_delays s)
                             ++ [{| received_at := now; difference := v |}] |>).

(** [update_congestion_timeout]; division truncates, [as u64] sign-extends. *)
Definition update_congestion_timeout (current_delay : Z) : M unit :=
  s ← get;
  delta ← lift (i32_arith (rtt s - current_delay));
  abs_delta ← lift (i32_arith (Z.abs delta));
  d1 ← lift (i32_arith (abs_delta - rtt_variance s));
  variance ← lift (i32_arith (rtt_variance s + Z.quot d1 4));
  _ ← modify (fun s => s <| rtt_variance := variance |>);
  d2 ← lift (i32_arith (current_delay - rtt s));
  rtt' ← lift (i32_arith (rtt s + Z.quot d2 8));
  _ ← modify (fun s => s <| rtt := rtt' |>);
  v4 ← lift (i32_arith (variance * 4));
  t ← lift (i32_arith (rtt' + v4));
  modify (fun s => s <| congestion_timeout :=
    Z.min (Z.max (to_u64 t) MIN_CONGESTION_TIMEOUT) MAX_CONGESTION_TIMEOUT |>).

(** [filtered_current_delay]; the smoothing factor is the [f64] next to 0.333. *)
Definition filtered_current_delay (s : UtpSocket) : outcome IoError Z :=
  avg ← ewma (difference <$> current_delays s) (f64_div (f64_of_Z 333) (f64_of_Z 1000));
  Ok (f64_as_i64 avg).

(** [min_base_delay] *)
Definition min_base_delay (s : UtpSocket) : Z :=
  match base_delays s with [] => 0 | d :: rest => fold_left Z.min rest d end.

(** [queuing_delay] *)
Definition queuing_delay (s : UtpSocket) : outcome IoError Z :=
  filtered ← filtered_current_delay s;
  i64_arith (filtered - min_base_delay s).

(** [update_congestion_window] *)
Definition update_congestion_window (off_target : f64) (bytes_newly_acked : Z) : M unit :=
  s ← get;
  let flightsize := curr_window s in
  let cwnd_increase := f64_mul (f64_mul (f64_mul GAIN off_target) (f64_of_Z bytes_newly_acked))
                         (f64_of_Z MSS) in
  let cwnd_increase := f64_div cwnd_increase (f64_of_Z (cwnd s)) in
  let cwnd1 := f64_as_u32 (f64_add (f64_of_Z (cwnd s)) cwnd_increase) in
  _ ← modify (fun s => s <| cwnd := cwnd1 |>);
  max_allowed_cwnd ← lift (u32_arith (flightsize + ALLOWED_INCREASE * MSS));
  modify (fun s => s <| cwnd := Z.max (Z.min cwnd1 max_allowed_cwnd) (MIN_CWND * MSS) |>).

(** [advance_send_window] removes one packet at a time. *)
Fixpoint remove_acked (n : nat) : M unit :=
  match n with
  | O => mret tt
  | S n =>
      s ← get;
      match send_window s with
      | [] => lift Panic
      | packet :: rest =>
          _ ← modify (fun s => s <| send_window := rest |>);
          w ← lift (u32_arith (curr_window s - to_u32 (Z.of_nat (length packet))));
          _ ← modify (fun s => s <| curr_window := w |>);
          remove_acked n
      end
  end.

Definition advance_send_window : M unit :=
  s ← get;
  match position (fun packet => (seq_nr packet =? last_acked s)%Z) (send_window s) with
  | Some position => remove_acked (position + 1)
  | None => mret tt
  end.

(** * Handling packets

    Handling a state packet can resend a packet, and sending can wait for
    packets to be handled: the methods up to [recv] take [send_packet] as an
    argument, and [send_packet] ties the knot. *)

Section Handling.
Context (send_packet : Packet -> M Packet).

(** [resend_lost_packet] *)
Definition resend_lost_packet (lost_packet_nr : Z) : M unit :=
  s ← get;
  match position (fun pkt => (seq_nr pkt =? lost_packet_nr)%Z) (send_window s) with
  | None => mret tt
  | Some position =>
      packet ← lift (index (send_window s) position);
      ignore (send_packet packet)
  end.

(** The loop over the packets that a selective acknowledgement reports missing;
    answers whether there was one. *)
Fixpoint resend_sack_lost (ack last_seq_nr : Z) (idx : nat) (bits : list bool) (loss : bool) : M bool :=
  match bits with
  | [] => mret loss
  | true :: bits => resend_sack_lost ack last_seq_nr (S idx) bits loss
  | false :: bits =>
      a2 ← lift (u16_arith (ack + 2));
      seq_nr ← lift (u16_arith (a2 + to_u16 (Z.of_nat idx)));
      if (seq_nr <? last_seq_nr)%Z then
        _ ← resend_lost_packet seq_nr;
        resend_sack_lost ack last_seq_nr (S idx) bits true
      else mret loss
  end.

(** The loop over the extensions. *)
Fixpoint process_extensions (ack : Z) (exts : list Extension) (loss : bool) : M bool :=
  match exts with
  | [] => mret loss
  | extension :: exts =>
      if bool_decide (ext_ty extension = SelectiveAck) then
        loss ← (if 3 <=? count_ones (from_bytes (ext_data extension)) then
                  n ← lift (u16_arith (ack + 1));
                  _ ← resend_lost_packet n;
                  mret true
                else mret loss);
        s ← get;
        loss ← match last (send_window s) with
               | Some p =>
                   bits ← lift_unwrap (bit_collect (8 * length (ext_data extension) + 1)
                                         (from_bytes (ext_data extension)));
                   resend_sack_lost ack (seq_nr p) 0 bits loss
               | None => mret loss
               end;
        process_extensions ack exts loss
      else process_extensions ack exts loss
  end.

(** The first part of [handle_state_packet]: the count of duplicates. *)
Definition count_duplicate_acks (packet : Packet) : M unit :=
  s ← get;
  if (ack_nr packet =? last_acked s)%Z then
    n ← lift (u32_arith (duplicate_ack_count s + 1));
    modify (fun s => s <| duplicate_ack_count := n |>)
  else
    _ ← modify (fun s => s <| last_acked := ack_nr packet |>);
    t ← now;
    modify (fun s => s <| last_acked_timestamp := t |> <| duplicate_ack_count := 1%Z |>).

(** The second part: an acknowledged packet at [index] of the window updates
    delays, window and timeout. *)
Definition measure_acked (index : nat) : M unit :=
  s ← get;
  let bytes_newly_acked := fold_left (fun acc p => acc + Z.of_nat (length p))%Z
                             (take (index + 1) (send_window s)) 0%Z in
  now ← now;
  acked ← lift (Prelude.index (send_window s) index);
  let our_delay := timestamp_sub now (timestamp acked) in
  _ ← update_base_delay our_delay now;
  _ ← update_current_delay our_delay now;
  s ← get;
  qd ← lift (queuing_delay s);
  let off_target := f64_div (f64_sub TARGET (f64_of_Z (u32_of_delay qd))) TARGET in
  _ ← update_congestion_window off_target (to_u32 bytes_newly_acked);
  s ← get;
  qd ← lift (queuing_delay s);
  d ← lift (i64_arith (our_delay - qd));
  update_congestion_timeout (to_i32 (u32_of_delay d / 1000)).

(** [handle_state_packet] *)
Definition handle_state_packet (packet : Packet) : M unit :=
  _ ← count_duplicate_acks packet;
  s ← get;
  _ ← match position (fun p => (ack_nr packet =? seq_nr p)%Z) (send_window s) with
      | Some index => measure_acked index
      | None => mret tt
      end;
  s ← get;
  let loss := negb (bool_decide (send_window s = [])) && (duplicate_ack_count s =? 3)%Z in
  exts ← lift_unwrap (it ← extensions packet; extension_collect (length packet + 1) it);
  loss ← process_extensions (ack_nr packet) exts loss;
  s ← get;
  _ ← (if negb (bool_decide (send_window s = [])) && (duplicate_ack_count s =? 3)%Z &&
          negb (existsb (fun ext => bool_decide (ext_ty ext = SelectiveAck)) exts) then
         n ← lift (u16_arith (ack_nr packet + 1));
         resend_lost_packet n
       else mret tt);
  _ ← when loss (modify (fun s => s <| cwnd := Z.max (cwnd s / 2) (MIN_CWND * MSS) |>));
  advance_send_window.

(** The selective acknowledgement that the replies to data and FIN packets
    carry when the packet is out of order. *)
Definition attach_sack (packet reply : Packet) : M Packet :=
  s ← get;
  if (1 <? to_u16 (seq_nr packet - sk_ack_nr s))%Z then
    sack ← lift (build_selective_ack s);
    if negb (bool_decide (sack = [])) then lift_unwrap (set_sack sack reply) else mret reply
  else mret reply.

(** [handle_data_packet] *)
Definition handle_data_packet (packet : Packet) : M Packet :=
  s ← get;
  reply ← prepare_reply packet (if bool_decide (state s = FinSent) then Fin else UtpPacket.State);
  attach_sack packet reply.

(** [{:?}] of the states and the packet types. *)
Definition SocketState_debug (s : SocketState) : string :=
  match s with
  | New => "New"%str | Connected => "Connected"%str | SynSent => "SynSent"%str
  | FinSent => "FinSent"%str | ResetReceived => "ResetReceived"%str | Closed => "Closed"%str
  end.
Definition PacketType_debug (t : PacketType) : string :=
  match t with
  | Data => "Data"%str | Fin => "Fin"%str | State => "State"%str | Reset => "Reset"%str
  | Syn => "Syn"%str
  end.

(** The [match] of [handle_packet] on the state and the type. *)
Definition dispatch (packet : Packet) (src : SocketAddr) (st : SocketState) (ty : PacketType)
    : M (option Packet) :=
  match st, ty with
  | New, Syn =>
      _ ← modify (fun s => s <| connected_to := src |> <| sk_ack_nr := seq_nr packet |>);
      r ← random_u16;
      _ ← modify (fun s => s <| sk_seq_nr := r |>);
      rid ← lift (u16_arith (connection_id packet + 1));
      _ ← modify (fun s => s <| receiver_connection_id := rid |>
                             <| sender_connection_id := connection_id packet |>
                             <| state := Connected |> <| last_dropped := sk_ack_nr s |>);
      Some <$> prepare_reply packet State
  | _, Syn => Some <$> prepare_reply packet Reset
  | SynSent, State =>
      _ ← modify (fun s => s <| connected_to := src |>);
      a ← lift (u16_arith (seq_nr packet - 1));
      _ ← modify (fun s => s <| sk_ack_nr := a |>);
      s ← get;
      n ← lift (u16_arith (sk_seq_nr s + 1));
      _ ← modify (fun s => s <| sk_seq_nr := n |> <| state := Connected |>
                             <| last_acked := ack_nr packet |>);
      t ← now;
      _ ← modify (fun s => s <| last_acked_timestamp := t |>);
      mret None
  | SynSent, _ => socket_fail InvalidReply
  | Connected, Data | FinSent, Data => Some <$> handle_data_packet packet
  | Connected, State => _ ← handle_state_packet packet; mret None
  | Connected, Fin | FinSent, Fin =>
      reply ← prepare_reply packet State;
      reply ← attach_sack packet reply;
      _ ← modify (fun s => s <| state := Closed |>);
      mret (Some reply)
  | Closed, Fin => Some <$> prepare_reply packet State
  | FinSent, State =>
      s ← get;
      _ ← (if (ack_nr packet =? sk_seq_nr s)%Z then modify (fun s => s <| state := Closed |>)
           else handle_state_packet packet);
      mret None
  | _, Reset =>
      _ ← modify (fun s => s <| state := ResetReceived |>);
      socket_fail ConnectionReset
  | st, ty =>
      socket_fail (Other (String.concat String.EmptyString
        ["Unimplemented handling for ("%str; SocketState_debug st; ","%str; PacketType_debug ty; ")"%str]))
  end.

(** [handle_packet] *)
Definition handle_packet (packet : Packet) (src : SocketAddr) : M (option Packet) :=
  s ← get;
  _ ← when (to_u16 (seq_nr packet - sk_ack_nr s) =? 1)%Z
        (modify (fun s => s <| sk_ack_nr := seq_nr packet |>));
  ty ← lift_unwrap (get_type packet);
  if negb (bool_decide (ty = Syn)) && negb (bool_decide (state s = SynSent)) &&
     negb ((connection_id packet =? sender_connection_id s)%Z ||
           (connection_id packet =? receiver_connection_id s)%Z)
  then Some <$> prepare_reply packet Reset
  else
    _ ← modify (fun s => s <| remote_wnd_size := wnd_size packet |>);
    now ← now;
    _ ← modify (fun s => s <| their_delay := abs_diff now (timestamp packet) |>);
    dispatch packet src (state s) ty.

(** The loop of [recv] that waits for a datagram.  At most one turn per allowed
    retry and one to give up. *)
Fixpoint recv_wait (fuel : nat) (retries : Z) : M (bytes * SocketAddr) :=
  match fuel with
  | O => lift NoFuel
  | S fuel =>
      s ← get;
      if (max_retransmission_retries s <=? retries)%Z then
        _ ← modify (fun s => s <| state := Closed |>);
        socket_fail ConnectionTimedOut
      else
        _ ← set_read_timeout (if bool_decide (state s = New) then None
                              else Some (congestion_timeout s));
        r ← udp_recv (BUF_SIZE + HEADER_SIZE);
        match r with
        | inl (read, src) => mret (read, src)
        | inr e =>
            if is_timeout e then
              _ ← handle_receive_timeout;
              retries ← lift (u32_arith (retries + 1));
              recv_wait fuel retries
            else fail e
        end
  end.

(** The last part of [recv]: a data packet that is not the last one dropped is
    buffered. *)
Definition buffer_data (packet : Packet) : M unit :=
  s ← get;
  ty ← lift_unwrap (get_type packet);
  when (bool_decide (ty = Data) && (0 <? to_u16 (seq_nr packet - last_dropped s))%Z)
    (insert_into_buffer packet).

(** The part of [recv] after a packet was decoded. *)
Definition recv_packet (packet : Packet) (src : SocketAddr) (size : nat) : M (bytes * SocketAddr) :=
  reply ← handle_packet packet src;
  _ ← match reply with
      | Some pkt => udp_send (set_wnd_size WINDOW_SIZE pkt) src
      | None => mret tt
      end;
  _ ← buffer_data packet;
  read ← flush_incoming_buffer size;
  mret (read, src).

(** [recv] into a buffer of [size] bytes. *)
Definition recv (size : nat) : M (bytes * SocketAddr) :=
  s ← get;
  '(b, src) ← recv_wait (Z.to_nat (max_retransmission_retries s) + 1) 0;
  match Packet_try_from b with
  | Panic => lift Panic
  | NoFuel => lift NoFuel
  | Err _ => s ← get; mret ([], connected_to s)
  | Ok packet => recv_packet packet src size
  end.
End Handling.

(** * Sending *)

(** The loop of [send_packet] that waits for the window to open.  What it
    receives meanwhile goes to a buffer of its own. *)
Fixpoint wait_window (recv : nat -> M (bytes * SocketAddr)) (fuel : nat) (max_inflight start : Z) : M unit :=
  match fuel with
  | O => lift NoFuel
  | S fuel =>
      s ← get;
      if (max_inflight <=? curr_window s)%Z then
        t ← now;
        if (timestamp_sub t start <? PRE_SEND_TIMEOUT)%Z then
          _ ← recv BUF_SIZE;
          wait_window recv fuel max_inflight start
        else mret tt
      else mret tt
  end.

(** [send_packet]; answers the packet with its timestamps set.  [fuel] bounds
    the turns of the waiting loops and how deep they nest. *)
Fixpoint send_packet (fuel : nat) (packet : Packet) : M Packet :=
  match fuel with
  | O => lift NoFuel
  | S fuel =>
      s ← get;
      let max_inflight := Z.max (MIN_CWND * MSS) (Z.min (cwnd s) (remote_wnd_size s)) in
      start ← now;
      _ ← wait_window (recv (send_packet fuel)) (S fuel) max_inflight start;
      t ← now;
      s ← get;
      let packet := set_timestamp_difference (their_delay s) (set_timestamp t packet) in
      _ ← udp_send packet (connected_to s);
      mret packet
  end.

(** [send], one turn per queued packet. *)
Fixpoint send_queue (fuel turns : nat) : M unit :=
  match turns with
  | O => lift NoFuel
  | S turns =>
      s ← get;
      match unsent_queue s with
      | [] => mret tt
      | packet :: rest =>
          _ ← modify (fun s => s <| unsent_queue := rest |>);
          packet ← send_packet fuel packet;
          s ← get;
          w ← lift (u32_arith (curr_window s + to_u32 (Z.of_nat (length packet))));
          _ ← modify (fun s => s <| curr_window := w |> <| send_window := send_window s ++ [packet] |>);
          send_queue fuel turns
      end
  end.

Definition send (fuel : nat) : M unit :=
  s ← get; send_queue fuel (length (unsent_queue s) + 1).

(** [slice::chunks]: pieces of [n] elements, the last one possibly shorter. *)
Fixpoint chunks_of (fuel n : nat) (l : bytes) : list bytes :=
  match fuel, l with
  | S fuel, _ :: _ => take n l :: chunks_of fuel n (drop n l)
  | _, _ => []
  end.
Definition chunks (n : nat) (l : bytes) : list bytes := chunks_of (length l) n l.

(** The loop of [send_to] that queues a chunk. *)
Definition queue_chunk (chunk : bytes) : M unit :=
  s ← get;
  w ← lift (u32_arith (WINDOW_SIZE - to_u32 (Z.of_nat (length (send_window s)))));
  let packet := set_connection_id (sender_connection_id s)
                  (set_ack_nr (sk_ack_nr s) (set_seq_nr (sk_seq_nr s)
                    (set_wnd_size w (with_payload chunk)))) in
  modify (fun s => s <| unsent_queue := unsent_queue s ++ [packet] |>
                     <| sk_seq_nr := to_u16 (sk_seq_nr s + 1) |>).

(** [send_to] *)
Definition send_to (fuel : nat) (buf : bytes) : M nat :=
  s ← get;
  if bool_decide (state s = Closed) then socket_fail ConnectionClosed
  else
    _ ← for_each (chunks (Z.to_nat MSS - HEADER_SIZE) buf) queue_chunk;
    _ ← send fuel;
    mret (length buf).

(** [flush] *)
Fixpoint flush (fuel : nat) : M unit :=
  match fuel with
  | O => lift NoFuel
  | S fuel =>
      s ← get;
      if negb (bool_decide (send_window s = [])) then
        _ ← recv (send_packet fuel) 0;
        flush fuel
      else mret tt
  end.

(** * Opening and closing *)

(** The loop of [close] that waits for the connection to end. *)
Fixpoint await_closed (fuel : nat) : M unit :=
  match fuel with
  | O => lift NoFuel
  | S fuel =>
      s ← get;
      if negb (bool_decide (state s = Closed)) then
        _ ← recv (send_packet fuel) BUF_SIZE;
        await_closed fuel
      else mret tt
  end.

(** [close], and [Drop], which ignores its result. *)
Definition close (fuel : nat) : M unit :=
  s ← get;
  if bool_decide (state s = Closed) || bool_decide (state s = New) || bool_decide (state s = SynSent)
  then mret tt
  else
    _ ← flush fuel;
    packet ← fin_packet;
    s ← get;
    _ ← udp_send packet (connected_to s);
    _ ← modify (fun s => s <| state := FinSent |>);
    await_closed fuel.
Definition socket_drop (fuel : nat) : M unit := ignore (close fuel).

(** The loop of [recv_from], and [recv_from] with a buffer of [size] bytes. *)
Fixpoint recv_loop (fuel size : nat) : M (bytes * SocketAddr) :=
  match fuel with
  | O => lift NoFuel
  | S fuel =>
      s ← get;
      if bool_decide (state s = Closed) then mret ([], connected_to s)
      else
        '(data, src) ← recv (send_packet fuel) size;
        if bool_decide (data = []) then recv_loop fuel size else mret (data, src)
  end.

Definition recv_from (fuel size : nat) : M (bytes * SocketAddr) :=
  read ← flush_incoming_buffer size;
  s ← get;
  if negb (bool_decide (read = [])) then mret (read, connected_to s)
  else if bool_decide (state s = ResetReceived) then socket_fail ConnectionReset
  else recv_loop fuel size.

(** The SYN attempts of [connect]: the reply, or nothing when none came. *)
Fixpoint syn_loop (retries : nat) (packet : Packet) (syn_timeout : Z) : M bytes :=
  match retries with
  | O => mret []
  | S retries =>
      t ← now;
      let packet := set_timestamp t packet in
      s ← get;
      _ ← udp_send packet (connected_to s);
      _ ← modify (fun s => s <| state := SynSent |>);
      _ ← set_read_timeout (Some syn_timeout);
      r ← udp_recv BUF_SIZE;
      match r with
      | inl (read, src) => _ ← modify (fun s => s <| connected_to := src |>); mret read
      | inr e =>
          if is_timeout e then
            syn_timeout ← lift (u64_arith (syn_timeout * 2));
            syn_loop retries packet syn_timeout
          else fail e
      end
  end.

(** [connect], on the socket that it has bound. *)
Definition connect (fuel : nat) (addr : SocketAddr) : M unit :=
  _ ← modify (fun s => s <| connected_to := addr |>);
  s ← get;
  let packet := set_seq_nr (sk_seq_nr s)
                  (set_connection_id (receiver_connection_id s) (set_type Syn packet_new)) in
  buf ← syn_loop MAX_SYN_RETRIES packet (congestion_timeout s);
  s ← get;
  packet ← lift (map_err io_of_ParseError (Packet_try_from buf));
  _ ← handle_packet (send_packet fuel) packet (connected_to s);
  mret tt.

(** [UtpListener::accept], of a datagram received: the new socket, on a UDP
    socket of its own ([bound]), and the address. *)
Definition accept (fuel : nat) (data : bytes) (src : SocketAddr) (bound : outcome IoError unit) (id : Z)
    : outcome IoError (UtpSocket * SocketAddr) :=
  packet ← map_err io_of_ParseError (Packet_try_from (take BUF_SIZE data));
  ty ← unwrap (get_type packet);
  if negb (bool_decide (ty = Syn)) then
    Err (io_of_SocketError (Other (String.concat String.EmptyString
      ["Expected SYN packet, got "%str; PacketType_debug ty; " instead"%str])))
  else
    _ ← bound;
    match handle_packet (send_packet fuel) packet src (from_raw_parts udp_new src id) with
    | (Ok (Some reply), s) =>
        match udp_send reply src s with
        | (Ok _, s) => Ok (s, src)
        | (Err e, _) => Err e
        | (Panic, _) => Panic
        | (NoFuel, _) => NoFuel
        end
    | (Ok None, _) | (Err _, _) =>
        Err (io_of_SocketError (Other "Reached unreachable statement"%str))
    | (Panic, _) => Panic
    | (NoFuel, _) => NoFuel
    end.

(** [try_clone] copies every field; the two sockets share the UDP socket. *)
Definition try_clone (s : UtpSocket) : UtpSocket := socket_eta s.

(** * stream.rs: a stream is its socket *)

Definition stream_read (fuel size : nat) : M bytes := fst <$> recv_from fuel size.
Definition stream_write (fuel : nat) (buf : bytes) : M nat := send_to fuel buf.
Definition stream_flush (fuel : nat) : M unit := flush fuel.
Definition stream_close (fuel : nat) : M unit := close fuel.
Definition set_max_retransmission_retries (n : Z) : M unit :=
  modify (fun s => s <| max_retransmission_retries := n |>).
End Socket.
