(* ===== verification/UtpSocketInv.v ===== *)
(** UtpSocketInv: the invariant of the uTP socket.

    [sock_ok] collects what holds of every socket that was bound and used
    through its public methods, whatever arrives from the network: fields stay
    in the range of their types, the receive buffer is strictly ordered by
    sequence number and holds decoded data packets, the count of bytes in flight
    is that of the send window, and the congestion window and the delay history
    stay within their limits.  The receive buffer's insertion is proved equal
    to an ordered insertion on the way. *)

From stdpp Require Import base list sorting sets.
From Stdlib Require Import ZArith Lia SpecFloat.
From S2P Require Import Prelude Effects Float Convert UtpPacket UtpPacketCorrect UtpSocket.

(** * Ranges *)

Lemma get_field_range off n p : Forall is_u8 p -> (0 <= get_field off n p < 256 ^ Z.of_nat n)%Z.
Proof.
  intros Hp. unfold get_field.
  assert (Hu : Forall is_u8 (take n (drop off p))) by auto using Forall_take, Forall_drop.
  pose proof (be_val_bound _ Hu) as [? Hlt]. split; [done|].
  eapply Z.lt_le_trans; [exact Hlt|]. apply Z.pow_le_mono_r; [lia|].
  rewrite length_take. lia.
Qed.

Lemma field_u16 off p : Forall is_u8 p -> is_u16 (get_field off 2 p).
Proof. apply (get_field_range off 2). Qed.
Lemma field_u32 off p : Forall is_u8 p -> is_u32 (get_field off 4 p).
Proof. apply (get_field_range off 4). Qed.

Lemma now_microseconds_range secs nanos : is_u32 (now_microseconds secs nanos).
Proof. apply to_u32_range. Qed.

Lemma f64_as_u32_range f : is_u32 (f64_as_u32 f).
Proof.
  unfold f64_as_u32, f64_to_int, is_u32.
  destruct f as [s|s| |s m e]; [lia|destruct s; lia|lia|].
  generalize (if s then (- (if (0 <=? e)%Z then Z.shiftl (Z.pos m) e else Z.shiftr (Z.pos m) (- e)))%Z
              else (if (0 <=? e)%Z then Z.shiftl (Z.pos m) e else Z.shiftr (Z.pos m) (- e))).
  intros z. lia.
Qed.

(** * The invariant *)

Definition window_bytes (w : list bytes) : Z := foldr (fun p acc => Z.of_nat (length p) + acc)%Z 0%Z w.

(** A packet of the receive buffer: it came from the decoder and carries data. *)
Definition data_packet (p : bytes) : Prop :=
  Forall is_u8 p /\ Packet_try_from p = Ok p /\ get_type p = Ok Data.

Definition seq_lt (p q : bytes) : Prop := (seq_nr p < seq_nr q)%Z.

Record sock_ok (s : UtpSocket) : Prop := {
  ok_u16 : Forall is_u16 [sender_connection_id s; receiver_connection_id s; sk_seq_nr s; sk_ack_nr s;
                          last_acked s; last_dropped s];
  ok_u32 : Forall is_u32 [duplicate_ack_count s; last_acked_timestamp s; remote_wnd_size s;
                          last_rollover s; cwnd s; max_retransmission_retries s];
  ok_i32 : Forall is_i32 [rtt s; rtt_variance s];
  ok_timeout : is_u64 (congestion_timeout s);
  ok_sorted : StronglySorted seq_lt (incoming_buffer s);
  ok_data : Forall data_packet (incoming_buffer s);
  ok_window : curr_window s = to_u32 (window_bytes (send_window s));
  ok_wide : Forall wide (send_window s ++ unsent_queue s);
  ok_cwnd : (MSS <= cwnd s)%Z;
  ok_history : length (base_delays s) <= BASE_HISTORY }.

(** Reads off what the invariant says of the fields and rebuilds it. *)
Ltac ok_destruct :=
  repeat match goal with
  | H : sock_ok _ |- _ => destruct H
  end;
  rewrite ?Forall_app, ?Forall_cons in *; destruct_and?.
Ltac ok_tac := ok_destruct; split; simpl; rewrite ?Forall_app, ?Forall_cons; split_and?; auto.

Lemma data_packet_seq p : data_packet p -> is_u16 (seq_nr p).
Proof. intros [Hp _]. by apply field_u16. Qed.
#[export] Hint Resolve data_packet_seq : bt.

(** * The receive buffer as an ordered insertion *)

(** The reference: insertion into an ordered list without duplicates. *)
Fixpoint buffer_insert (p : bytes) (buf : list bytes) : list bytes :=
  match buf with
  | [] => [p]
  | q :: rest =>
      if (seq_nr p <? seq_nr q)%Z then p :: buf
      else if (seq_nr p =? seq_nr q)%Z then buf else q :: buffer_insert p rest
  end.

Lemma buffer_insert_last p buf :
  StronglySorted seq_lt buf -> (exists q, last buf = Some q /\ seq_nr q < seq_nr p)%Z ->
  buffer_insert p buf = buf ++ [p].
Proof.
  induction 1 as [|q rest Hs IH Hq]; intros (l & Hl & Hp); [done|]. simpl.
  destruct rest as [|r rest].
  - injection Hl as ->. destruct (Z.ltb_spec (seq_nr p) (seq_nr l)); [lia|].
    destruct (Z.eqb_spec (seq_nr p) (seq_nr l)); [lia|]. done.
  - assert (seq_nr q < seq_nr p)%Z.
    { rewrite last_cons_cons in Hl. apply last_Some_elem_of in Hl.
      rewrite Forall_forall in Hq. specialize (Hq l Hl). unfold seq_lt in Hq. lia. }
    destruct (Z.ltb_spec (seq_nr p) (seq_nr q)); [lia|].
    destruct (Z.eqb_spec (seq_nr p) (seq_nr q)); [lia|].
    f_equal. apply IH. exists l. by rewrite last_cons_cons in Hl.
Qed.

(** Where the scan of the source puts a packet. *)
Lemma buffer_insert_scan p buf :
  StronglySorted seq_lt buf ->
  let i := length (filter (fun q => (seq_nr q < seq_nr p)%Z) buf) in
  i <= length buf /\
  buffer_insert p buf =
    if match buf !! i with Some q => negb (seq_nr q =? seq_nr p)%Z | None => true end
    then take i buf ++ p :: drop i buf else buf.
Proof.
  induction 1 as [|q rest Hs IH Hq]; [by split|]. cbn zeta in *.
  destruct IH as [Hi IH]. destruct (Z.lt_ge_cases (seq_nr q) (seq_nr p)).
  - rewrite filter_cons_True by done. cbn [length]. split; [simpl; lia|]. cbn [buffer_insert].
    destruct (Z.ltb_spec (seq_nr p) (seq_nr q)); [lia|].
    destruct (Z.eqb_spec (seq_nr p) (seq_nr q)); [lia|]. rewrite IH. cbn [lookup list_lookup].
    destruct (rest !! _) as [r|]; [destruct (negb _)|]; done.
  - rewrite filter_cons_False by lia. rewrite filter_none.
    2:{ eapply Forall_impl; [exact Hq|]. unfold seq_lt. intros r Hr. simpl. lia. }
    split; [simpl; lia|]. cbn [buffer_insert length lookup list_lookup].
    destruct (Z.ltb_spec (seq_nr p) (seq_nr q)), (Z.eqb_spec (seq_nr q) (seq_nr p));
      destruct (Z.eqb_spec (seq_nr p) (seq_nr q)); try lia; done.
Qed.

Lemma upd_incoming_id s : s <| incoming_buffer := incoming_buffer s |> = s.
Proof. by destruct s. Qed.

Lemma insert_into_buffer_run p s :
  StronglySorted seq_lt (incoming_buffer s) ->
  insert_into_buffer p s = (Ok tt, s <| incoming_buffer := buffer_insert p (incoming_buffer s) |>).
Proof.
  intros Hs. unfold insert_into_buffer. rewrite (St_bind_ok _ _ s s s) by done.
  destruct (last (incoming_buffer s)) as [l|] eqn:Hl; [destruct (Z.ltb_spec (seq_nr l) (seq_nr p))|].
  - rewrite (buffer_insert_last p _ Hs) by eauto. done.
  - destruct (buffer_insert_scan p _ Hs) as [Hi Heq]. rewrite Heq. cbn zeta.
    destruct (incoming_buffer s !! _) as [q|] eqn:Hq; [destruct (negb _)|];
      try (unfold vec_insert; rewrite (proj2 (Nat.leb_le _ _) Hi); reflexivity).
    unfold mret, St_ret. by rewrite upd_incoming_id.
  - apply last_None in Hl. rewrite Hl. done.
Qed.

Lemma buffer_insert_elem p buf q :
  q ∈ buffer_insert p buf -> q = p \/ q ∈ buf.
Proof.
  induction buf as [|r rest IH]; simpl; [set_solver|].
  destruct (_ <? _)%Z; [set_solver|]. destruct (_ =? _)%Z; [set_solver|]. set_solver.
Qed.

Lemma buffer_insert_sorted p buf :
  StronglySorted seq_lt buf -> StronglySorted seq_lt (buffer_insert p buf).
Proof.
  induction 1 as [|q rest Hs IH Hq]; [repeat constructor|]. simpl.
  destruct (Z.ltb_spec (seq_nr p) (seq_nr q)).
  - repeat constructor; try done. eapply Forall_impl; [exact Hq|]. unfold seq_lt. simpl. lia.
  - destruct (Z.eqb_spec (seq_nr p) (seq_nr q)); [by constructor|].
    constructor; [done|]. apply Forall_forall. intros r [->|Hr]%buffer_insert_elem.
    + unfold seq_lt. lia.
    + by apply (proj1 (Forall_forall _ _) Hq).
Qed.

Lemma buffer_insert_data p buf :
  data_packet p -> Forall data_packet buf -> Forall data_packet (buffer_insert p buf).
Proof.
  intros Hp Hb. apply Forall_forall. intros r [->|Hr]%buffer_insert_elem; [done|].
  by apply (proj1 (Forall_forall _ _) Hb).
Qed.

(** * Every method keeps the invariant *)

Section Invariant.
Context `{HE : UdpEnv} `{HP : Profile}.

(** What arrives on the network is bytes. *)
Definition bytes_env : Prop := forall n data src, env_recv n = Datagram data src -> Forall is_u8 data.

Lemma sock_ok_udp s u : sock_ok s -> sock_ok (s <| socket := u |>).
Proof. intros H. by ok_tac. Qed.

Lemma keeps_now : keeps sock_ok now.
Proof. intros s Hs _. unfold now. destruct (env_clock _). by apply sock_ok_udp. Qed.
Lemma keeps_random : keeps sock_ok random_u16.
Proof. intros s Hs _. by apply sock_ok_udp. Qed.
Lemma keeps_udp_send d a : keeps sock_ok (udp_send d a).
Proof. intros s Hs _. unfold udp_send. destruct (env_send _); by apply sock_ok_udp. Qed.
Lemma keeps_set_read_timeout t : keeps sock_ok (set_read_timeout t).
Proof.
  destruct t as [[]|]; simpl; try apply keeps_lift; intros s Hs _; by apply sock_ok_udp.
Qed.
Lemma keeps_udp_recv n : keeps sock_ok (udp_recv n).
Proof. intros s Hs _. by apply sock_ok_udp. Qed.
#[local] Hint Resolve keeps_now keeps_random keeps_udp_send keeps_set_read_timeout keeps_udp_recv : keeps.

(** The value of the clock and of a random number is in range. *)
Lemma keeps_bind_now {B} (f : Z -> M B) :
  (forall t, is_u32 t -> keeps sock_ok (f t)) -> keeps sock_ok (now ≫= f).
Proof.
  apply keeps_bind_value; [apply keeps_now|]. intros s a s' _. unfold now.
  destruct (env_clock _) as [x y]. intros [= <- _]. apply now_microseconds_range.
Qed.
Lemma keeps_bind_random {B} (f : Z -> M B) :
  (forall t, is_u16 t -> keeps sock_ok (f t)) -> keeps sock_ok (random_u16 ≫= f).
Proof.
  apply keeps_bind_value; [apply keeps_random|]. intros s a s' _ [= <- _]. apply to_u16_range.
Qed.

(** Results of checked arithmetic are in range. *)
Lemma arith_range_u16 z v : u16_arith (E := IoError) z = Ok v -> is_u16 v.
Proof. by intros [? _]%u16_arith_Ok. Qed.
Lemma arith_range_u32 z v : u32_arith (E := IoError) z = Ok v -> is_u32 v.
Proof. by intros [? _]%u32_arith_Ok. Qed.
Lemma arith_range_u64 z v : u64_arith (E := IoError) z = Ok v -> is_u64 v.
Proof. intros [? _]%arith_Ok; [done|apply to_u64_range|]. intros x Hx. by apply Z.mod_small. Qed.
Lemma arith_range_i32 z v : i32_arith (E := IoError) z = Ok v -> is_i32 v.
Proof.
  intros [? _]%arith_Ok; [done|apply to_i32_range|]. intros x Hx.
  pose proof (be_i32_id x Hx) as Hb. rewrite be_val_be_bytes in Hb.
  unfold to_i32, to_u32 in Hb |- *. change (256 ^ Z.of_nat 4)%Z with 4294967296%Z in Hb.
  rewrite Z.mod_mod in Hb by lia. exact Hb.
Qed.
#[local] Hint Resolve arith_range_u16 arith_range_u32 arith_range_u64 arith_range_i32 : bt.

Ltac sock_step :=
  match goal with
  | |- keeps _ (now ≫= _) => apply keeps_bind_now; intros ? ?
  | |- keeps _ (random_u16 ≫= _) => apply keeps_bind_random; intros ? ?
  | |- keeps _ _ => keeps_step
  end.
Ltac sock_tac := repeat sock_step;
  try match goal with |- sock_ok _ => ok_tac; eauto with bt end.

Lemma keeps_socket_fail {A} e : keeps sock_ok (socket_fail e : M A).
Proof. apply keeps_fail. Qed.
#[local] Hint Resolve keeps_socket_fail : keeps.

Lemma keeps_advance : keeps sock_ok advance_incoming_buffer.
Proof.
  intros s Hs _. unfold advance_incoming_buffer. rewrite (St_bind_ok _ _ s s s) by done.
  destruct (incoming_buffer s) as [|p rest] eqn:E; [done|]. simpl.
  pose proof (ok_data _ Hs) as Hd. pose proof (ok_sorted _ Hs) as Ho. rewrite E in Hd, Ho.
  apply StronglySorted_inv in Ho as [Ho _]. apply Forall_cons in Hd as [Hp Hd].
  ok_tac; auto with bt.
Qed.
#[local] Hint Resolve keeps_advance : keeps.

Lemma keeps_flush_incoming n : keeps sock_ok (flush_incoming_buffer n).
Proof. unfold flush_incoming_buffer. sock_tac. Qed.

Lemma keeps_insert p : data_packet p -> keeps sock_ok (insert_into_buffer p).
Proof.
  intros Hp s Hs _. rewrite insert_into_buffer_run by apply Hs. simpl.
  pose proof (buffer_insert_sorted p _ (ok_sorted _ Hs)).
  pose proof (buffer_insert_data p _ Hp (ok_data _ Hs)). by ok_tac.
Qed.

Lemma keeps_prepare_reply p t : keeps sock_ok (prepare_reply p t).
Proof. unfold prepare_reply. sock_tac. Qed.
Lemma keeps_fin_packet : keeps sock_ok fin_packet.
Proof. unfold fin_packet. sock_tac. Qed.
Lemma keeps_fast_resend : keeps sock_ok send_fast_resend_request.
Proof. unfold send_fast_resend_request. sock_tac. Qed.
#[local] Hint Resolve keeps_flush_incoming keeps_prepare_reply keeps_fin_packet keeps_fast_resend : keeps.

Lemma length_set_timestamp t p : wide p -> length (set_timestamp t p) = length p.
Proof. intros Hp. apply length_set_field. unfold wide, HEADER_SIZE in Hp. lia. Qed.

Lemma wide_set_timestamp t p : wide p -> wide (set_timestamp t p).
Proof. intros Hp. unfold wide. by rewrite length_set_timestamp. Qed.
#[local] Hint Resolve wide_set_timestamp : bt.

Lemma retimed_window t w :
  Forall wide w ->
  Forall wide (alter (set_timestamp t) 0 w) /\
  window_bytes (alter (set_timestamp t) 0 w) = window_bytes w.
Proof.
  destruct 1 as [|p w Hp Hw]; simpl; [done|]. rewrite length_set_timestamp by done.
  auto with bt.
Qed.

Lemma keeps_receive_timeout : keeps sock_ok handle_receive_timeout.
Proof.
  unfold handle_receive_timeout. sock_tac; unfold MSS, is_u32 in *; try lia.
  - destruct (retimed_window t (send_window s)); [done|congruence].
  - by apply retimed_window.
Qed.
#[local] Hint Resolve keeps_receive_timeout : keeps.

Lemma keeps_base_delay d t : is_u32 t -> keeps sock_ok (update_base_delay d t).
Proof.
  intros Ht. unfold update_base_delay. sock_tac; unfold BASE_HISTORY in *.
  - rewrite length_app. simpl. destruct (Nat.eqb_spec (length (base_delays a)) 10); [|lia].
    destruct (base_delays a); simpl in *; lia.
  - by rewrite length_insert.
Qed.

Lemma keeps_current_delay d t : keeps sock_ok (update_current_delay d t).
Proof. unfold update_current_delay. sock_tac. Qed.

Lemma keeps_congestion_timeout d : keeps sock_ok (update_congestion_timeout d).
Proof.
  unfold update_congestion_timeout. sock_tac.
  unfold is_u64, MIN_CONGESTION_TIMEOUT, MAX_CONGESTION_TIMEOUT. lia.
Qed.

(** The congestion window after an update, whatever the floating-point increase. *)
Lemma update_congestion_window_run f n s r s' :
  (0 <= curr_window s)%Z -> update_congestion_window f n s = (r, s') -> returns r ->
  exists w, r = Ok tt /\ s' = s <| cwnd := w |> /\ is_u32 w /\
    (MIN_CWND * MSS <= w <= Z.max (MIN_CWND * MSS) (curr_window s + MSS))%Z.
Proof.
  intros H0. unfold update_congestion_window. rewrite (St_bind_ok _ _ s s s) by done.
  rewrite (St_bind_ok _ _ _ tt _) by reflexivity. unfold mbind at 1, St_bind at 1, lift.
  destruct (u32_arith _) as [m|e| |] eqn:E; intros [= <- <-]; try done;
    [|by apply arith_no_err in E]. intros _. cbn zeta.
  match goal with |- context [f64_as_u32 ?x] => pose proof (f64_as_u32_range x) as Hc;
    set (c := f64_as_u32 x) in * end.
  exists (Z.max (Z.min c m) (MIN_CWND * MSS)). split; [done|]. split; [by destruct s|].
  apply u32_arith_Ok in E as [Hm Em].
  assert (m <= curr_window s + MSS)%Z.
  { rewrite Em. unfold ALLOWED_INCREASE. rewrite Z.mul_1_l. apply Z.mod_le; unfold MSS; lia. }
  unfold is_u32, MIN_CWND, MSS, ALLOWED_INCREASE in *. lia.
Qed.

Lemma ok_curr_window s : sock_ok s -> is_u32 (curr_window s).
Proof. intros []. rewrite ok_window0. apply to_u32_range. Qed.

Lemma keeps_congestion_window f n : keeps sock_ok (update_congestion_window f n).
Proof.
  intros s Hs Hr. destruct (update_congestion_window f n s) as [r s'] eqn:E. simpl in *.
  destruct (update_congestion_window_run f n s r s') as (w & -> & -> & Hw & Hl); try done.
  { by apply ok_curr_window in Hs as [? _]. }
  unfold MIN_CWND, MSS in *. ok_tac; unfold MSS; lia.
Qed.
#[local] Hint Resolve keeps_base_delay keeps_current_delay keeps_congestion_timeout
  keeps_congestion_window : keeps.

Lemma keeps_measure i : keeps sock_ok (measure_acked i).
Proof. unfold measure_acked. sock_tac. Qed.

Lemma keeps_count_duplicates p : Forall is_u8 p -> keeps sock_ok (count_duplicate_acks p).
Proof.
  intros Hp. unfold count_duplicate_acks. sock_tac; unfold is_u32; try lia. by apply field_u16.
Qed.

(** Removing the first [n] packets of the window takes their bytes off it. *)
Lemma window_bytes_nonneg w : (0 <= window_bytes w)%Z.
Proof. induction w; simpl; lia. Qed.

Lemma keeps_remove_acked n : keeps sock_ok (remove_acked n).
Proof.
  induction n as [|n IH]; simpl; [apply keeps_ret|].
  intros s Hs. rewrite (St_bind_ok _ _ s s s) by done.
  destruct (send_window s) as [|p rest] eqn:E; [done|].
  rewrite (St_bind_ok _ _ _ tt _) by reflexivity. unfold mbind at 1, St_bind at 1, lift.
  destruct (u32_arith _) as [w|e| |] eqn:Ew; try done;
    [|by apply arith_no_err in Ew].
  rewrite (St_bind_ok _ _ _ tt _) by reflexivity. apply IH.
  apply u32_arith_Ok in Ew as [Hw Ew]. pose proof (ok_window _ Hs) as Hc.
  pose proof (ok_wide _ Hs) as Hd. rewrite E in Hd, Hc. apply Forall_app in Hd as [[_ Hd]%Forall_cons _].
  ok_tac. rewrite Ew, Hc. cbn [window_bytes foldr]. fold (window_bytes rest).
  unfold to_u32. rewrite Zminus_mod_idemp_l, Zminus_mod_idemp_r. f_equal. lia.
Qed.
#[local] Hint Resolve keeps_measure keeps_count_duplicates keeps_remove_acked : keeps.

Lemma keeps_advance_window : keeps sock_ok advance_send_window.
Proof. unfold advance_send_window. sock_tac. Qed.
#[local] Hint Resolve keeps_advance_window : keeps.

Section Handling.
Context (sp : bytes -> M bytes) (Hsp : forall p, wide p -> keeps sock_ok (sp p)).

Lemma keeps_resend n : keeps sock_ok (resend_lost_packet sp n).
Proof.
  unfold resend_lost_packet. sock_tac. apply Hsp.
  match goal with H : index _ _ = Ok _ |- _ => apply index_Ok, list_elem_of_lookup_2 in H end.
  ok_destruct. match goal with H : Forall wide (send_window _) |- _ => by apply (proj1 (Forall_forall _ _) H) end.
Qed.
#[local] Hint Resolve keeps_resend : keeps.

Lemma keeps_resend_sack a l bits : forall i loss, keeps sock_ok (resend_sack_lost sp a l i bits loss).
Proof. induction bits as [|[] bits IH]; intros i loss; simpl; sock_tac. Qed.
#[local] Hint Resolve keeps_resend_sack : keeps.

Lemma keeps_extensions a exts : forall loss, keeps sock_ok (process_extensions sp a exts loss).
Proof. induction exts as [|e exts IH]; intros loss; simpl; sock_tac. Qed.
#[local] Hint Resolve keeps_extensions : keeps.

Lemma keeps_handle_state p : Forall is_u8 p -> keeps sock_ok (handle_state_packet sp p).
Proof.
  intros Hp. unfold handle_state_packet. sock_tac; unfold MIN_CWND, MSS, is_u32 in *; try lia.
  all: pose proof (Z.div_le_upper_bound (cwnd s) 2 (cwnd s)); lia.
Qed.
#[local] Hint Resolve keeps_handle_state : keeps.

Lemma keeps_attach_sack p r : keeps sock_ok (attach_sack p r).
Proof. unfold attach_sack. sock_tac. Qed.
#[local] Hint Resolve keeps_attach_sack : keeps.

Lemma keeps_handle_data p : keeps sock_ok (handle_data_packet p).
Proof. unfold handle_data_packet. sock_tac. Qed.
#[local] Hint Resolve keeps_handle_data : keeps.

Lemma keeps_dispatch p src st ty : Forall is_u8 p -> keeps sock_ok (dispatch sp p src st ty).
Proof.
  intros Hp. assert (is_u16 (seq_nr p) /\ is_u16 (ack_nr p) /\ is_u16 (connection_id p)) as (? & ? & ?)
    by (split_and!; by apply field_u16).
  unfold dispatch. destruct st, ty; sock_tac.
Qed.

Lemma keeps_handle_packet p src : Forall is_u8 p -> keeps sock_ok (handle_packet sp p src).
Proof.
  intros Hp. assert (is_u16 (seq_nr p)) by (by apply field_u16).
  assert (is_u32 (wnd_size p)) by (by apply field_u32).
  unfold handle_packet. sock_tac. by apply keeps_dispatch.
Qed.
#[local] Hint Resolve keeps_handle_packet : keeps.

Lemma keeps_recv_wait fuel : forall n, keeps sock_ok (recv_wait fuel n).
Proof. induction fuel as [|fuel IH]; intros n; simpl; sock_tac. Qed.
#[local] Hint Resolve keeps_recv_wait : keeps.

Context (Henv : bytes_env).

Lemma recv_wait_bytes fuel : forall n s r s',
  recv_wait fuel n s = (Ok r, s') -> Forall is_u8 r.1.
Proof.
  induction fuel as [|fuel IH]; intros n s r s'; [done|]. simpl.
  rewrite (St_bind_ok _ _ s s s) by done. destruct (_ <=? _)%Z; [done|].
  intros (? & s1 & _ & H)%St_bind_inv. apply St_bind_inv in H as (ev & s2 & Hev & H).
  unfold udp_recv in Hev. injection Hev as <- _.
  destruct (env_recv (n_recv (socket s1))) as [data src|e] eqn:Ev.
  - injection H as <- _. by apply Forall_take, (Henv _ _ _ Ev).
  - destruct (is_timeout e); [|done]. apply St_bind_inv in H as (? & s3 & _ & H).
    apply St_bind_inv in H as (m & s4 & _ & H). by apply IH in H.
Qed.

Lemma parsed_data p q : Packet_try_from p = Ok q -> p = q.
Proof.
  unfold Packet_try_from. intros (? & _ & H)%bind_Ok. apply bind_Ok in H as (? & _ & H). congruence.
Qed.

Lemma keeps_buffer_data p :
  Forall is_u8 p -> Packet_try_from p = Ok p -> keeps sock_ok (buffer_data p).
Proof.
  intros Hp Hd. unfold buffer_data. apply keeps_bind_get. intros s Hs.
  apply keeps_bind_unwrap. intros ty Hty.
  destruct (bool_decide_reflect (ty = Data)) as [->|]; [|apply keeps_ret].
  apply keeps_when, keeps_insert. done.
Qed.

Lemma keeps_recv n : keeps sock_ok (recv sp n).
Proof.
  unfold recv. apply keeps_bind_get. intros s0 _.
  eapply keeps_bind_value; [apply keeps_recv_wait|intros s r s' _; apply recv_wait_bytes|].
  intros [b src] Hb. simpl in Hb. destruct (Packet_try_from b) as [p|e| |] eqn:Ep; [|sock_tac..].
  pose proof (parsed_data _ _ Ep) as ->. pose proof (keeps_buffer_data _ Hb Ep).
  unfold recv_packet. sock_tac.
Qed.
End Handling.
#[local] Hint Resolve keeps_recv keeps_handle_packet : keeps.

Context (Henv : bytes_env).

Lemma wide_set_delay d p : wide p -> wide (set_timestamp_difference d p).
Proof. intros Hp. apply wide_set; [done|lia]. Qed.
#[local] Hint Resolve wide_set_delay : bt.

Lemma keeps_wait_window r fuel : (forall n, keeps sock_ok (r n)) ->
  forall m t, keeps sock_ok (wait_window r fuel m t).
Proof. intros Hr. induction fuel as [|fuel IH]; intros m t; simpl; sock_tac. Qed.

Lemma keeps_send_packet fuel : forall p, wide p -> keeps sock_ok (send_packet fuel p).
Proof.
  induction fuel as [|fuel IH]; intros p Hp; [apply keeps_lift|]. cbn [send_packet].
  apply keeps_bind_get. intros s _. apply keeps_bind_now. intros t _. apply keeps_bind.
  - apply keeps_wait_window. intros n. by apply keeps_recv.
  - intros _. sock_tac.
Qed.
#[local] Hint Resolve keeps_send_packet : keeps.

Lemma send_packet_wide fuel p s q s' :
  wide p -> send_packet fuel p s = (Ok q, s') -> wide q.
Proof.
  intros Hp. destruct fuel as [|fuel]; [done|]. cbn [send_packet].
  intros (? & ? & _ & H)%St_bind_inv. apply St_bind_inv in H as (? & ? & _ & H).
  apply St_bind_inv in H as (? & ? & _ & H). apply St_bind_inv in H as (t & ? & _ & H).
  apply St_bind_inv in H as (? & ? & _ & H). apply St_bind_inv in H as (? & ? & _ & H).
  injection H as <- _. auto with bt.
Qed.

Lemma window_bytes_app v w : window_bytes (v ++ w) = (window_bytes v + window_bytes w)%Z.
Proof. induction v; simpl; lia. Qed.

Lemma keeps_send_queue fuel turns : keeps sock_ok (send_queue fuel turns).
Proof.
  induction turns as [|turns IH]; [apply keeps_lift|]. cbn [send_queue].
  apply keeps_bind_get. intros s Hs. destruct (unsent_queue s) as [|p rest] eqn:E; [apply keeps_ret|].
  pose proof (ok_wide _ Hs) as Hw. rewrite E in Hw. apply Forall_app in Hw as [_ [Hp Hrest]%Forall_cons].
  apply keeps_bind; [sock_tac|intros _].
  eapply keeps_bind_value; [by apply keeps_send_packet|intros ???? H; by apply send_packet_wide in H|].
  intros q Hq s1 Hs1. rewrite (St_bind_ok _ _ s1 s1 s1) by done. unfold mbind at 1, St_bind at 1, lift.
  destruct (u32_arith _) as [w|e| |] eqn:Ew; try done.
  rewrite (St_bind_ok _ _ _ tt _) by reflexivity. apply IH.
  apply u32_arith_Ok in Ew as [Hw Ew]. pose proof (ok_window _ Hs1) as Hc. ok_tac.
  rewrite window_bytes_app, Ew, Hc. cbn [window_bytes foldr]. rewrite Z.add_0_r.
  unfold to_u32. by rewrite <- Zplus_mod.
Qed.
#[local] Hint Resolve keeps_send_queue : keeps.

Lemma keeps_send fuel : keeps sock_ok (send fuel).
Proof. unfold send. sock_tac. Qed.

Lemma wide_with_payload c : wide (with_payload c).
Proof.
  unfold wide, with_payload, set_type. rewrite length_app, length_set_field; simpl; unfold HEADER_SIZE; lia.
Qed.

Lemma keeps_queue_chunk c : keeps sock_ok (queue_chunk c).
Proof.
  unfold queue_chunk. sock_tac; try apply to_u16_range.
  repeat (apply wide_set; [|lia]). apply wide_with_payload.
Qed.
#[local] Hint Resolve keeps_send keeps_queue_chunk : keeps.

Lemma keeps_send_to fuel buf : keeps sock_ok (send_to fuel buf).
Proof. unfold send_to. sock_tac. Qed.
Lemma keeps_flush fuel : keeps sock_ok (flush fuel).
Proof. induction fuel as [|fuel IH]; simpl; sock_tac. Qed.
Lemma keeps_await_closed fuel : keeps sock_ok (await_closed fuel).
Proof. induction fuel as [|fuel IH]; simpl; sock_tac. Qed.
#[local] Hint Resolve keeps_flush keeps_await_closed : keeps.
Lemma keeps_close fuel : keeps sock_ok (close fuel).
Proof. unfold close. sock_tac. Qed.
Lemma keeps_recv_loop fuel n : keeps sock_ok (recv_loop fuel n).
Proof. induction fuel as [|fuel IH]; simpl; sock_tac. Qed.
#[local] Hint Resolve keeps_recv_loop : keeps.
Lemma keeps_recv_from fuel n : keeps sock_ok (recv_from fuel n).
Proof. unfold recv_from. sock_tac. Qed.
#[local] Hint Resolve keeps_send_to keeps_flush keeps_close keeps_recv_from : keeps.

Lemma keeps_syn_loop n : forall p t, keeps sock_ok (syn_loop n p t).
Proof. induction n as [|n IH]; intros p t; simpl; sock_tac. Qed.
#[local] Hint Resolve keeps_syn_loop : keeps.

Lemma syn_loop_bytes n : forall p t s b s',
  syn_loop n p t s = (Ok b, s') -> Forall is_u8 b.
Proof.
  induction n as [|n IH]; intros p t s b s'; [by intros [= <- _]|]. cbn [syn_loop].
  intros (? & ? & _ & H)%St_bind_inv. apply St_bind_inv in H as (? & ? & _ & H).
  apply St_bind_inv in H as (? & ? & _ & H). apply St_bind_inv in H as (? & ? & _ & H).
  apply St_bind_inv in H as (? & s1 & _ & H). apply St_bind_inv in H as (ev & s2 & Hev & H).
  unfold udp_recv in Hev. injection Hev as <- _.
  destruct (env_recv (n_recv (socket s1))) as [data src|e] eqn:Ev.
  - apply St_bind_inv in H as (? & ? & _ & [= <- _]). by apply Forall_take, (Henv _ _ _ Ev).
  - destruct (is_timeout e); [|done]. apply St_bind_inv in H as (? & ? & _ & H). by apply IH in H.
Qed.

Lemma keeps_connect fuel a : keeps sock_ok (connect fuel a).
Proof.
  unfold connect. apply keeps_bind; [sock_tac|intros _]. apply keeps_bind_get. intros s _.
  eapply keeps_bind_value; [apply keeps_syn_loop|intros ???? H; by apply syn_loop_bytes in H|].
  intros b Hb. apply keeps_bind_get. intros s1 _. apply keeps_bind_lift. intros p Hp.
  destruct (Packet_try_from b) eqn:Ep; try done. injection Hp as ->.
  apply parsed_data in Ep as ->. sock_tac.
Qed.

Lemma from_raw_parts_ok u a id : is_u16 id -> sock_ok (from_raw_parts u a id).
Proof.
  intros Hid. destruct (generate_sequential_identifiers id) as [r i] eqn:E.
  assert (is_u16 r /\ is_u16 i) as [Hr Hi].
  { unfold generate_sequential_identifiers, is_u16 in *.
    destruct (Z.ltb_spec (id + 1) 65536); injection E as <- <-; lia. }
  unfold from_raw_parts. rewrite E.
  split; simpl; rewrite ?Forall_cons; split_and?; try done; try apply Forall_nil; try constructor.
  unfold BASE_HISTORY. lia.
Qed.

(** The public methods of a socket; [set_max_retransmission_retries] takes a [u32]. *)
Inductive call : Type :=
  | CConnect (a : SocketAddr) | CSend (buf : bytes) | CRecv (size : nat) | CFlush | CClose
  | CSetRetries (n : Z).

Definition run_call (fuel : nat) (c : call) : M unit :=
  match c with
  | CConnect a => connect fuel a
  | CSend buf => _ ← send_to fuel buf; mret tt
  | CRecv size => _ ← recv_from fuel size; mret tt
  | CFlush => flush fuel
  | CClose => close fuel
  | CSetRetries n => set_max_retransmission_retries (to_u32 n)
  end.

(** A socket that was bound and used: every call so far returned. *)
Inductive reachable : UtpSocket -> Prop :=
  | reach_bound u a id : is_u16 id -> reachable (from_raw_parts u a id)
  | reach_call s fuel c r s' :
      reachable s -> run_call fuel c s = (r, s') -> returns r -> reachable s'.

Lemma keeps_call fuel c : keeps sock_ok (run_call fuel c).
Proof.
  destruct c; simpl; [apply keeps_connect|..]; sock_tac. unfold set_max_retransmission_retries.
  sock_tac. apply to_u32_range.
Qed.

Lemma socket_reachable_ok s : reachable s -> sock_ok s.
Proof.
  induction 1 as [u a id Hid|s fuel c r s' Hs IH Hc Hr]; [by apply from_raw_parts_ok|].
  eapply keeps_apply; eauto using keeps_call.
Qed.
End Invariant.
