(* ===== verification/UtpSocketCorrect.v ===== *)
(** UtpSocketCorrect: what the uTP socket delivers.

    Selective acknowledgements describe the receive buffer, packets that arrive
    in any order are delivered in order, outgoing data is split into consecutive
    packets, the congestion window and timeout stay within their limits, and a
    silent peer is given up.  Two places where the receiver goes wrong are
    exhibited. *)

From stdpp Require Import base list sorting sets.
From Stdlib Require Import ZArith Lia SpecFloat.
From S2P Require Import Prelude Effects Float Convert UtpPacket UtpPacketCorrect UtpSocket UtpSocketInv.

(** * Replies *)

(** A packet that is only a header, of type [t] and without extensions. *)
Definition bare_header (t : PacketType) (r : bytes) : Prop :=
  length r = HEADER_SIZE /\ get_field 1 1 r = 0%Z /\ get_type r = Ok t /\ get_version r = 1%Z /\
  Forall is_u8 r.

Lemma be_val_byte b : be_val [b] = b.
Proof. unfold be_val. simpl. done. Qed.

Lemma PacketType_inv v t : PacketType_try_from v = Ok t -> (0 <= v <= 4)%Z.
Proof.
  unfold PacketType_try_from.
  repeat match goal with |- context [(v =? ?k)%Z] => destruct (Z.eqb_spec v k); [lia|] end. done.
Qed.

Lemma bare_header_shape t r :
  bare_header t r -> exists h0 htail, header_ok h0 htail /\ r = packet_bytes h0 htail [] [].
Proof.
  intros (Hl & He & Ht & Hv & _). destruct r as [|h0 [|e htail]]; try done.
  exists h0, htail. change (be_val [e] = 0%Z) in He. rewrite be_val_byte in He. subst e.
  unfold packet_bytes. cbn [first_type ext_bytes app]. rewrite app_nil_r.
  split; [|done]. unfold header_ok. split; [injection Hl; lia|].
  change (Z.land (be_val [h0]) 15 = 1%Z) in Hv. rewrite be_val_byte in Hv. split; [done|].
  change (unwrap (PacketType_try_from (Z.shiftr (be_val [h0]) 4)) = @Ok ParseError _ t) in Ht.
  rewrite be_val_byte in Ht. apply (proj1 (unwrap_Ok _ _)) in Ht.
  exact (PacketType_inv _ _ Ht).
Qed.

(** Setting a header field other than the first two bytes keeps a bare header. *)
Lemma bare_header_set t off n v r :
  2 <= off -> off + n <= 20 -> bare_header t r -> bare_header t (set_field off n v r).
Proof.
  intros Ho Hn (Hl & He & Ht & Hv & Hu). unfold HEADER_SIZE in Hl.
  split_and!; [rewrite length_set_field; unfold HEADER_SIZE; lia|..].
  - by rewrite get_set_other by lia.
  - unfold get_type, type_ver. rewrite get_set_other by lia. exact Ht.
  - unfold get_version, type_ver. rewrite get_set_other by lia. exact Hv.
  - unfold set_field. apply Forall_app_2; [by apply Forall_take|].
    apply Forall_app_2; [apply be_bytes_u8|by apply Forall_drop].
Qed.

Lemma bare_header_type t : bare_header t (set_type t packet_new).
Proof.
  split_and!; try (by destruct t; vm_compute).
  apply (bool_decide_unpack _). by destruct t; vm_compute.
Qed.

(** [s'] is [s] up to the state of the UDP socket. *)
Definition same_but_udp (s s' : UtpSocket) : Prop := exists u, s' = s <| socket := u |>.

Section Replies.
Context `{HE : UdpEnv} `{HP : Profile}.

Lemma now_run s : exists t u, now s = (Ok t, s <| socket := u |>) /\ sent u = sent (socket s).
Proof. unfold now. destruct (env_clock _). eauto. Qed.

Lemma prepare_reply_run p t s :
  exists r u, prepare_reply p t s = (Ok r, s <| socket := u |>) /\ bare_header t r /\
    (is_u16 (sk_ack_nr s) -> ack_nr r = sk_ack_nr s) /\
    (is_u16 (sk_seq_nr s) -> seq_nr r = sk_seq_nr s) /\ sent u = sent (socket s).
Proof.
  unfold prepare_reply. destruct (now_run s) as (n & u & Hn & Es). rewrite (St_bind_ok _ _ _ _ _ Hn).
  rewrite bind_get_run. match goal with |- context [mret ?r] => set (r0 := r) end.
  assert (Hb : bare_header t r0).
  { unfold r0. repeat (apply bare_header_set; [lia|lia|]). apply bare_header_type. }
  exists r0, u. split; [done|]. split; [done|].
  assert (Hw : wide packet_new) by (apply Nat.leb_le; by vm_compute).
  assert (Hws : forall v, wide (set_seq_nr v (set_connection_id (sender_connection_id (s <| socket := u |>))
    (set_timestamp_difference (abs_diff n (timestamp p)) (set_timestamp n (set_type t packet_new))))))
    by (intros v; repeat (apply wide_set; [|lia]); done).
  unfold r0. split; [|split; [|done]]; intros Ha.
  - by apply get_same; [apply Hws|lia|].
  - unfold seq_nr, set_ack_nr. rewrite get_other by (apply Hws || lia).
    apply get_same; [repeat (apply wide_set; [|lia]); done|lia|done].
Qed.

(** * Selective acknowledgements *)

Lemma sack_grow_to byte k fuel : forall sack,
  4 * k <= byte < 4 * k + 4 -> length sack <= 4 * k + 4 -> 4 * k + 4 - length sack < fuel ->
  sack_grow fuel byte sack = Ok (sack ++ replicate (4 * k + 4 - length sack) 0%Z).
Proof.
  induction fuel as [|fuel IH]; intros sack Hb Hl Hf; [lia|]. cbn [sack_grow].
  destruct (decide (length sack = 4 * k + 4)) as [He|Hne].
  - rewrite He, (proj2 (Nat.leb_gt _ _)), Nat.sub_diag, app_nil_r by lia.
    replace ((4 * k + 4) mod 4) with 0; [done|].
    replace (4 * k + 4) with ((k + 1) * 4) by lia. by rewrite Nat.Div0.mod_mul.
  - assert (Hc : (length sack <=? byte) || negb (length sack mod 4 =? 0) = true).
    { destruct (Nat.leb_spec (length sack) byte); [done|]. cbn [orb].
      replace (length sack) with (length sack - 4 * k + k * 4) by lia.
      rewrite Nat.Div0.mod_add, Nat.mod_small by lia.
      by rewrite (proj2 (Nat.eqb_neq _ _)) by lia. }
    rewrite Hc, IH by (rewrite ?length_app; simpl; lia).
    replace (4 * k + 4 - length sack) with (S (4 * k + 4 - length (sack ++ [0%Z])))
      by (rewrite length_app; simpl; lia).
    by rewrite <- app_assoc.
Qed.

(** Room is made for a byte by appending zeros. *)
Lemma sack_grow_run byte sack :
  length sack mod 4 = 0 ->
  exists z, sack_grow (byte + 5) byte sack = Ok (sack ++ replicate z 0%Z) /\
    byte < length sack + z <= Nat.max (length sack) (byte + 4) /\ (length sack + z) mod 4 = 0.
Proof.
  intros Hm. pose proof (Nat.div_mod_eq byte 4) as Hd. pose proof (Nat.mod_upper_bound byte 4 ltac:(lia)).
  destruct (decide (byte < length sack)).
  - exists 0. rewrite app_nil_r, Nat.add_0_r. rewrite Nat.add_comm. cbn [Nat.add sack_grow].
    rewrite (proj2 (Nat.leb_gt _ _)), Hm by lia. split; [done|]. split; [lia|done].
  - set (k := byte / 4) in *. exists (4 * k + 4 - length sack).
    rewrite (sack_grow_to byte k) by lia. split; [done|].
    replace (length sack + (4 * k + 4 - length sack)) with ((k + 1) * 4) by lia.
    split; [lia|]. apply Nat.Div0.mod_mul.
Qed.

Lemma lsb_bit_zeros sack z i : lsb_bit (sack ++ replicate z 0%Z) i = lsb_bit sack i.
Proof.
  unfold lsb_bit. f_equal. destruct (decide (i / 8 < length sack)).
  - by rewrite lookup_app_l by lia.
  - rewrite lookup_app_r, (lookup_ge_None_2 sack) by lia.
    destruct (replicate z 0%Z !! (i / 8 - length sack)) eqn:E; [|done].
    by apply lookup_replicate in E as [-> _].
Qed.

(** Setting bit [d] of the vector. *)
Lemma lsb_bit_set sack d b i :
  sack !! (d / 8) = Some b ->
  lsb_bit (<[d / 8 := Z.lor b (Z.shiftl 1 (Z.of_nat (d mod 8)))]> sack) i
  = lsb_bit sack i || (i =? d).
Proof.
  intros Hb. unfold lsb_bit. pose proof (Nat.div_mod_eq i 8) as Hi. pose proof (Nat.div_mod_eq d 8) as Hd.
  pose proof (lookup_lt_Some _ _ _ Hb). destruct (decide (i / 8 = d / 8)) as [E|E].
  - rewrite E, list_lookup_insert_eq, Hb by done. cbn [from_option id]. rewrite Z.lor_spec. f_equal.
    rewrite Z.shiftl_spec by lia.
    destruct (Nat.eqb_spec i d) as [->|Hne]; [by rewrite Z.sub_diag|].
    assert (i mod 8 <> d mod 8) by lia.
    destruct (Z.lt_ge_cases (Z.of_nat (i mod 8) - Z.of_nat (d mod 8)) 0).
    + by rewrite Z.testbit_neg_r.
    + change 1%Z with (2 ^ 0)%Z. apply Z.pow2_bits_false. lia.
  - rewrite list_lookup_insert_ne by done.
    destruct (Nat.eqb_spec i d) as [->|]; [done|]. by rewrite orb_false_r.
Qed.

(** The vector describes the packets [ps]: its length is a multiple of four,
    bit [i] stands for the packet [ack + 2 + i], and it is not longer than the
    furthest packet needs. *)
Record sack_describes (ack : Z) (ps : list bytes) (sack : bytes) : Prop := {
  sd_mult : length sack mod 4 = 0;
  sd_bits : forall i, lsb_bit sack i = true <-> exists p, p ∈ ps /\ seq_nr p = (ack + 2 + Z.of_nat i)%Z;
  sd_len : forall d, (forall p, p ∈ ps -> seq_nr p <= ack + 2 + Z.of_nat d)%Z -> length sack <= d / 8 + 4 }.

Lemma sack_mark_run ack ps sack p :
  (0 <= ack)%Z -> is_u16 (ack + 1) -> is_u16 (seq_nr p) -> sack_describes ack ps sack ->
  exists sack', sack_mark ack sack p = Ok sack' /\ sack_describes ack (ps ++ [p]) sack'.
Proof.
  intros H0 Ha Hp Hs. unfold sack_mark. rewrite (u16_arith_in (ack + 1)), mbind_ok by done.
  destruct (Z.ltb_spec (ack + 1) (seq_nr p)) as [Hlt|Hge].
  2:{ exists sack. split; [done|]. destruct Hs as [Hm Hb Hl]. split; [done|..].
      - intros i. rewrite Hb. setoid_rewrite elem_of_app. split; [naive_solver|].
        intros (q & [Hq|Hq%list_elem_of_singleton] & Hi); [eauto|subst q; lia].
      - intros d Hd. apply Hl. intros q Hq. apply Hd. apply elem_of_app. auto. }
  unfold is_u16 in *. rewrite (u16_arith_in (seq_nr p - ack)), mbind_ok by (unfold is_u16; lia).
  rewrite (u16_arith_in (seq_nr p - ack - 2)), mbind_ok by (unfold is_u16; lia).
  set (d := Z.to_nat (seq_nr p - ack - 2)). cbn zeta.
  destruct Hs as [Hm Hb Hl]. destruct (sack_grow_run (d / 8) sack Hm) as (z & Hz & Hzl & Hzm).
  rewrite Hz, mbind_ok. destruct (lookup_lt_is_Some_2 (sack ++ replicate z 0%Z) (d / 8)) as [b Hbv].
  { rewrite length_app, length_replicate. lia. }
  rewrite (index_Some _ _ _ Hbv), mbind_ok. eexists. split; [done|]. split.
  - by rewrite length_insert, length_app, length_replicate.
  - intros i. rewrite (lsb_bit_set _ _ _ _ Hbv), lsb_bit_zeros, orb_true_iff, Hb, Nat.eqb_eq.
    setoid_rewrite elem_of_app. setoid_rewrite list_elem_of_singleton. split.
    + intros [(q & ? & ?)| ->]; [eauto|]. exists p. split; [auto|]. lia.
    + intros (q & [Hq| ->] & Hi); [eauto|]. right. lia.
  - intros d' Hd'. rewrite length_insert, length_app, length_replicate.
    assert (length sack <= d' / 8 + 4). { apply Hl. intros q Hq. apply Hd'. apply elem_of_app. auto. }
    assert (seq_nr p <= ack + 2 + Z.of_nat d')%Z by (apply Hd'; set_solver). assert (d <= d') by lia.
    pose proof (Nat.Div0.div_le_mono d d' 8). lia.
Qed.

Lemma build_selective_ack_run s :
  is_u16 (sk_ack_nr s) -> (sk_ack_nr s < 65535)%Z -> Forall data_packet (incoming_buffer s) ->
  exists sack, build_selective_ack s = Ok sack /\ sack_describes (sk_ack_nr s) (incoming_buffer s) sack.
Proof.
  intros Ha Hlt Hd. unfold build_selective_ack.
  assert (Hg : forall ps qs sack, sack_describes (sk_ack_nr s) ps sack -> Forall data_packet qs ->
    exists sack', fold_left (fun acc pkt => sack ← acc; sack_mark (sk_ack_nr s) sack pkt) qs (Ok sack)
                  = Ok sack' /\ sack_describes (sk_ack_nr s) (ps ++ qs) sack').
  { intros ps qs. revert ps. induction qs as [|q qs IH]; intros ps sack Hs Hq.
    { exists sack. by rewrite app_nil_r. }
    apply Forall_cons in Hq as [Hq Hqs]. cbn [fold_left]. rewrite mbind_ok.
    destruct (sack_mark_run (sk_ack_nr s) ps sack q) as (sack' & -> & Hs');
      [unfold is_u16 in *; lia..|by apply data_packet_seq|done|].
    destruct (IH (ps ++ [q]) sack' Hs' Hqs) as (r & Hr & Hrd). exists r.
    by rewrite cons_middle, app_assoc. }
  apply (Hg [] (incoming_buffer s) []); [|done]. split; [done|..].
  - intros i. unfold lsb_bit. rewrite lookup_nil. simpl. rewrite Z.bits_0. set_solver.
  - intros d _. simpl. lia.
Qed.

Lemma set_sack_bare t r bv :
  bare_header t r -> bv <> [] -> length bv mod 4 = 0 -> exists r', set_sack bv r = Ok r'.
Proof.
  intros Hr Hn Hm. destruct (bare_header_shape t r Hr) as (h0 & htail & [Hl _] & ->).
  assert (H4 : 4 <= length bv).
  { destruct (decide (length bv < 4)) as [Hlt|]; [|lia]. rewrite Nat.mod_small in Hm by lia.
    by destruct bv. }
  unfold set_sack. rewrite (proj2 (Nat.leb_le _ _) H4), Hm. cbn [assert_that Nat.eqb].
  rewrite !mbind_ok. unfold packet_bytes. cbn [first_type ext_bytes app]. rewrite app_nil_r.
  change (@index ParseError _ (h0 :: 0%Z :: htail) 1) with (@Ok ParseError _ 0%Z). rewrite mbind_ok.
  change (is_none (ExtensionType_from 0)) with true. cbn [insert list_insert]. rewrite mbind_ok.
  rewrite <- (app_nil_r (h0 :: 1%Z :: htail)).
  replace HEADER_SIZE with (length (h0 :: 1%Z :: htail)) by (simpl; unfold HEADER_SIZE; lia).
  rewrite insert_extension. eauto.
Qed.

Lemma attach_sack_run p r t s :
  bare_header t r -> is_u16 (sk_ack_nr s) -> (sk_ack_nr s < 65535)%Z ->
  Forall data_packet (incoming_buffer s) -> exists r', attach_sack p r s = (Ok r', s).
Proof.
  intros Hr Ha Hlt Hd. unfold attach_sack. rewrite bind_get_run.
  destruct (1 <? _)%Z; [|by exists r].
  destruct (build_selective_ack_run s Ha Hlt Hd) as (sack & -> & Hs). rewrite bind_lift_run.
  destruct (bool_decide_reflect (sack = [])); cbn [negb]; [by exists r|].
  destruct (set_sack_bare t r sack Hr) as [r' Hr']; [done|apply Hs|].
  exists r'. unfold lift_unwrap, lift. by rewrite Hr'.
Qed.

Lemma handle_data_run p s :
  is_u16 (sk_ack_nr s) -> (sk_ack_nr s < 65535)%Z -> Forall data_packet (incoming_buffer s) ->
  exists r u, handle_data_packet p s = (Ok r, s <| socket := u |>).
Proof.
  intros Ha Hlt Hd. unfold handle_data_packet. rewrite bind_get_run.
  destruct (prepare_reply_run p (if bool_decide (state s = FinSent) then Fin else UtpPacket.State) s)
    as (r & u & Hr & Hb & _). rewrite (St_bind_ok _ _ _ _ _ Hr).
  destruct (attach_sack_run p r _ (s <| socket := u |>) Hb) as (r' & Hr'); [done..|].
  exists r', u. exact Hr'.
Qed.

(** What the reply to an out-of-order packet says, as its receiver reads it. *)
Lemma sack_reply_run p s sack :
  is_u16 (sk_ack_nr s) -> (1 < to_u16 (seq_nr p - sk_ack_nr s))%Z ->
  build_selective_ack s = Ok sack -> sack <> [] -> length sack < 256 -> length sack mod 4 = 0 ->
  exists r u it, handle_data_packet p s = (Ok r, s <| socket := u |>) /\
    Packet_try_from r = Ok r /\ ack_nr r = sk_ack_nr s /\ extensions r = Ok it /\
    extension_collect (length r + 1) it = Ok [{| ext_ty := SelectiveAck; ext_data := sack |}].
Proof.
  intros Ha Hooo Hsack Hne Hlen Hm. unfold handle_data_packet. rewrite bind_get_run.
  set (t := if bool_decide (state s = FinSent) then Fin else UtpPacket.State).
  destruct (prepare_reply_run p t s) as (r & u & Hr & Hb & Hack & _). rewrite (St_bind_ok _ _ _ _ _ Hr).
  unfold attach_sack. rewrite bind_get_run.
  change (sk_ack_nr (s <| socket := u |>)) with (sk_ack_nr s). rewrite (proj2 (Z.ltb_lt _ _) Hooo).
  change (build_selective_ack (s <| socket := u |>)) with (build_selective_ack s).
  rewrite Hsack, bind_lift_run, bool_decide_eq_false_2 by done. cbn [negb].
  destruct (bare_header_shape t r Hb) as (h0 & htail & Hh & ->).
  assert (Hx : ext_ok (1%Z, sack)).
  { split_and!; simpl; try lia; try done. destruct sack; [done|simpl; lia]. }
  assert (He : Forall ext_ok ([] ++ [(1%Z, sack)])) by (by apply Forall_singleton).
  destruct (packet_read h0 htail _ [] (proj1 Hh) He) as [_ (it & H1 & H2)].
  exists (packet_bytes h0 htail [(1%Z, sack)] []), u, it. split_and!; [|by apply packet_accepted| |done|done].
  - unfold lift_unwrap, lift. rewrite set_sack_packet; [done|apply Hh|done|done].
  - rewrite <- (Hack Ha). unfold ack_nr, get_field, packet_bytes. destruct Hh as [Hl _].
    do 18 (destruct htail as [|? htail]; [done|]). destruct htail; [|done]. done.
Qed.
End Replies.

(** * In-order delivery

    Packets [stream] with consecutive sequence numbers after [a] arrive in any
    order, possibly repeated while they wait, and are read into buffers that are
    large enough for any of them. *)

(** The payload of a data packet. *)
Definition chunk_of (p : bytes) : bytes := match payload p with Ok c => c | _ => [] end.

Lemma data_packet_payload p : data_packet p -> payload p = Ok (chunk_of p).
Proof.
  intros (Hu & Hp & _). destruct (packet_decomposed p p Hu Hp) as (_ & h0 & htail & exts & pl & Hh & He & ->).
  unfold chunk_of. by destruct (packet_read h0 htail exts pl (proj1 Hh) He) as [-> _].
Qed.

(** What the receiving side of the socket looks at. *)
Record rx_view := View {
  v_ack : Z; v_dropped : Z; v_pending : bytes; v_buffer : list bytes }.
Definition view (s : UtpSocket) : rx_view :=
  View (sk_ack_nr s) (last_dropped s) (pending_data s) (incoming_buffer s).

Section Reassembly.
Context `{HE : UdpEnv} `{HP : Profile} (sp : bytes -> M bytes).
Context (Hsend : forall n, env_send n = None).
Context (a d0 conn : Z) (src : SocketAddr) (stream : list bytes).
Context (Ha : (0 <= a)%Z) (Hn : (a + Z.of_nat (length stream) < 65535)%Z).
Context (Hdata : Forall data_packet stream).
Context (Hseq : forall j p, stream !! j = Some p -> seq_nr p = (a + 1 + Z.of_nat j)%Z).
Context (Hconn : Forall (fun p => connection_id p = conn) stream).
(** Before anything was delivered, the record of the last packet delivered is
    none of the stream. *)
Context (Hd0 : is_u16 d0) (Hd0' : (d0 <= a \/ a + Z.of_nat (length stream) < d0)%Z).

(** ** The specification: how many packets were delivered, and which wait *)

Definition rx_spec : Type := nat * list nat.

Fixpoint ins (j : nat) (I : list nat) : list nat :=
  match I with
  | [] => [j]
  | i :: rest => if j <? i then j :: I else if j =? i then I else i :: ins j rest
  end.

Definition deliver (st : rx_spec) : option nat * rx_spec :=
  match st with
  | (k, j :: rest) => if j =? k then (Some j, (S k, rest)) else (None, st)
  | (k, []) => (None, st)
  end.

Inductive rx_event : Type := Arrive (j size : nat) | ReadBuf (size : nat).

(** A copy of the packet delivered last is ignored. *)
Definition spec_event (st : rx_spec) (e : rx_event) : option nat * rx_spec :=
  match e with
  | Arrive j _ => deliver (st.1, if S j =? st.1 then st.2 else ins j st.2)
  | ReadBuf _ => deliver st
  end.

Definition size_of (e : rx_event) : nat := match e with Arrive _ n | ReadBuf n => n end.

(** The buffer given is large enough, and an arriving packet was not delivered
    before, unless it is the last one. *)
Definition event_ok (st : rx_spec) (e : rx_event) : Prop :=
  Forall (fun p => length (chunk_of p) <= size_of e) stream /\
  match e with Arrive j _ => st.1 <= S j /\ j < length stream | ReadBuf _ => True end.

Fixpoint events_ok (st : rx_spec) (es : list rx_event) : Prop :=
  match es with
  | [] => True
  | e :: es => event_ok st e /\ events_ok (spec_event st e).2 es
  end.

(** ** The socket *)

Definition run_event (e : rx_event) : M bytes :=
  match e with
  | Arrive j size => fst <$> recv_packet sp (stream !!! j) src size
  | ReadBuf size => flush_incoming_buffer size
  end.

Fixpoint run_events (es : list rx_event) : M (list bytes) :=
  match es with
  | [] => mret []
  | e :: es => out ← run_event e; rest ← run_events es; mret (out :: rest)
  end.

Definition dropped (k : nat) : Z := match k with O => d0 | _ => (a + Z.of_nat k)%Z end.
Definition pkts (I : list nat) : list bytes := (fun j => stream !!! j) <$> I.
Definition chunks_at (o : option nat) : bytes := match o with Some j => chunk_of (stream !!! j) | None => [] end.

Definition spec_wf (st : rx_spec) : Prop :=
  StronglySorted lt st.2 /\ Forall (fun j => st.1 <= j < length stream) st.2 /\ st.1 <= length stream.

Record rx (s : UtpSocket) (st : rx_spec) : Prop := {
  rx_wf : spec_wf st;
  rx_state : state s = Connected;
  rx_conn : receiver_connection_id s = conn;
  rx_seen : view s = View (a + Z.of_nat st.1) (dropped st.1) [] (pkts st.2) }.

(** ** Facts on the specification *)

Lemma ins_elem j I i : i ∈ ins j I <-> i = j \/ i ∈ I.
Proof.
  induction I as [|x I IH]; simpl; [set_solver|].
  destruct (Nat.ltb_spec j x); [set_solver|]. destruct (Nat.eqb_spec j x); set_solver.
Qed.

Lemma ins_sorted j I : StronglySorted lt I -> StronglySorted lt (ins j I).
Proof.
  induction 1 as [|x I Hs IH Hx]; simpl; [repeat constructor|].
  destruct (Nat.ltb_spec j x).
  - constructor; [by constructor|]. constructor; [done|]. eapply Forall_impl; [exact Hx|]. simpl. lia.
  - destruct (Nat.eqb_spec j x); [by constructor|]. constructor; [done|].
    apply Forall_forall. intros y [->|Hy]%ins_elem; [lia|]. by apply (proj1 (Forall_forall _ _) Hx).
Qed.

Lemma ins_wf k I j : spec_wf (k, I) -> k <= j < length stream -> spec_wf (k, ins j I).
Proof.
  intros (Hs & Hb & Hk) Hj. split_and!; simpl in *; [by apply ins_sorted| |done].
  apply Forall_forall. intros y [->|Hy]%ins_elem; [done|]. by apply (proj1 (Forall_forall _ _) Hb).
Qed.

Lemma deliver_wf st : spec_wf st -> spec_wf (deliver st).2.
Proof.
  destruct st as [k [|j rest]]; [done|]. simpl. intros (Hs & Hb & Hk). simpl in *.
  destruct (Nat.eqb_spec j k) as [->|]; [|done].
  apply StronglySorted_inv in Hs as [Hs Hlt]. apply Forall_cons in Hb as [Hj Hb].
  split_and!; simpl; [done| |lia]. apply Forall_forall. intros y Hy.
  rewrite Forall_forall in Hlt, Hb. specialize (Hlt y Hy). specialize (Hb y Hy). lia.
Qed.

Lemma stream_at j : j < length stream ->
  data_packet (stream !!! j) /\ seq_nr (stream !!! j) = (a + 1 + Z.of_nat j)%Z /\
  connection_id (stream !!! j) = conn.
Proof.
  intros Hj. pose proof (list_lookup_lookup_total_lt stream j Hj) as Hl.
  split_and!; [exact (Forall_lookup_1 _ _ _ _ Hdata Hl)|by apply Hseq|].
  exact (Forall_lookup_1 _ _ _ _ Hconn Hl).
Qed.

(** ** The socket implements the specification *)

Lemma pkts_insert k I j :
  spec_wf (k, I) -> j < length stream -> buffer_insert (stream !!! j) (pkts I) = pkts (ins j I).
Proof.
  intros (_ & Hb & _) Hj. simpl in Hb. induction I as [|i I IH]; [done|].
  apply Forall_cons in Hb as [[_ Hi] Hb]. cbn [pkts fmap list_fmap buffer_insert ins].
  destruct (stream_at j Hj) as (_ & Sj & _). destruct (stream_at i Hi) as (_ & Si & _).
  rewrite Si, Sj. destruct (Nat.ltb_spec j i), (Nat.eqb_spec j i);
    destruct (Z.ltb_spec (a + 1 + Z.of_nat j) (a + 1 + Z.of_nat i)); try lia; try done;
    destruct (Z.eqb_spec (a + 1 + Z.of_nat j) (a + 1 + Z.of_nat i)); try lia; try done.
  cbn [fmap list_fmap]. f_equal. by apply IH.
Qed.

Lemma pkts_sorted st : spec_wf st -> StronglySorted seq_lt (pkts st.2) /\ Forall data_packet (pkts st.2).
Proof.
  intros (Hs & Hb & _). destruct st as [k I]. simpl in *. induction Hs as [|i I Hs IH Hi].
  { split; constructor. }
  apply Forall_cons in Hb as [[_ Hi'] Hb]. destruct (IH Hb) as [Hs' Hd'].
  destruct (stream_at i Hi') as (Hd & Si & _). split; constructor; try done.
  apply Forall_forall. intros q (y & -> & Hy)%list_elem_of_fmap.
  rewrite Forall_forall in Hi, Hb. specialize (Hi y Hy). destruct (Hb y Hy) as [_ Hy'].
  destruct (stream_at y Hy') as (_ & Sy & _). unfold seq_lt. lia.
Qed.

(** The test for the next packet in sequence. *)
Lemma next_in_sequence ack k j (s : UtpSocket) :
  (k <= j)%nat -> (a + Z.of_nat j < 65535)%Z ->
  (ack = a + Z.of_nat k \/ ack = a + 1 + Z.of_nat k /\ j = k)%Z ->
  (if (ack =? a + 1 + Z.of_nat j)%Z then mret true
   else n ← lift (u16_arith (ack + 1)); mret (n =? a + 1 + Z.of_nat j)%Z : M bool) s
  = (Ok (j =? k), s).
Proof.
  intros Hkj Hlt Hack. destruct (Z.eqb_spec ack (a + 1 + Z.of_nat j)) as [E|E].
  - by rewrite (proj2 (Nat.eqb_eq j k)) by lia.
  - rewrite u16_arith_in, bind_lift_run by (unfold is_u16; lia).
    unfold mret, St_ret. f_equal. f_equal.
    destruct (Nat.eqb_spec j k), (Z.eqb_spec (ack + 1) (a + 1 + Z.of_nat j)); try lia; done.
Qed.

(** Reading the buffer; the last packet acknowledged is the last one delivered,
    or the first one that waits. *)
Lemma rx_flush size s k I :
  Forall (fun p => length (chunk_of p) <= size) stream ->
  spec_wf (k, I) -> state s = Connected -> receiver_connection_id s = conn ->
  (exists ack, view s = View ack (dropped k) [] (pkts I) /\
     (ack = a + Z.of_nat k \/ ack = a + 1 + Z.of_nat k /\ head I = Some k)%Z) ->
  exists s', flush_incoming_buffer size s = (Ok (chunks_at (deliver (k, I)).1), s') /\ rx s' (deliver (k, I)).2.
Proof.
  intros Hbig Hwf Hst Hc (ack & Hv & Hack). injection Hv as Eack Edr Epd Ebuf.
  pose proof Hwf as (Hs & Hb & Hk). simpl in Hb, Hk.
  unfold flush_incoming_buffer. rewrite bind_get_run, Epd, bool_decide_eq_true_2 by done.
  cbn [negb]. rewrite Ebuf. destruct I as [|j I].
  { exists s. split; [done|]. destruct Hack as [->|[_ [=]]]. split; [done|done|done|].
    unfold view. by rewrite Eack, Edr, Epd, Ebuf. }
  apply Forall_cons in Hb as [[Hkj Hj] Hb]. destruct (stream_at j Hj) as (Hd & Sj & _).
  cbn [pkts fmap list_fmap]. rewrite Sj, Eack.
  rewrite (St_bind_ok _ _ _ _ _ (next_in_sequence ack k j s Hkj ltac:(lia) ltac:(naive_solver))).
  pose proof (deliver_wf _ Hwf) as Hwf'. cbn [deliver] in *. destruct (Nat.eqb_spec j k) as [->|Hne]; cbn [snd fst] in *.
  - unfold lift_unwrap. rewrite (data_packet_payload _ Hd). cbn [unwrap]. rewrite bind_lift_run.
    set (c := chunk_of (stream !!! k)) in *.
    assert (Hle : length c <= size).
    { apply (Forall_lookup_1 _ _ _ _ Hbig (list_lookup_lookup_total_lt stream k Hj)). }
    rewrite Nat.min_l, Nat.eqb_refl, bind_ret_run, firstn_all by done.
    unfold advance_incoming_buffer. eexists. split.
    + unfold mbind at 1, St_bind at 1. rewrite bind_get_run, Ebuf. reflexivity.
    + split; [done|done|done|]. unfold view. cbn. rewrite Sj, Epd.
      replace (a + 1 + Z.of_nat k)%Z with (a + Z.of_nat (S k))%Z by lia. done.
  - exists s. split; [done|]. split; [done|done|done|]. destruct Hack as [->|[_ Hh]].
    + unfold view. by rewrite Eack, Edr, Epd, Ebuf.
    + simpl in Hh. congruence.
Qed.

(** A data packet of the connection is answered, and acknowledged when it is the
    next one. *)
Lemma handle_data_connected p s :
  let ack := (if to_u16 (seq_nr p - sk_ack_nr s) =? 1 then seq_nr p else sk_ack_nr s)%Z in
  state s = Connected -> receiver_connection_id s = connection_id p -> get_type p = Ok Data ->
  is_u16 ack -> (ack < 65535)%Z -> Forall data_packet (incoming_buffer s) ->
  exists r s', handle_packet sp p src s = (Ok (Some r), s') /\ state s' = Connected /\
    receiver_connection_id s' = connection_id p /\
    view s' = View ack (last_dropped s) (pending_data s) (incoming_buffer s).
Proof.
  intros ack Hst Hc Hty Hu Hlt Hd. unfold handle_packet. rewrite bind_get_run.
  set (s1 := s <| sk_ack_nr := ack |>).
  assert (H1 : when (to_u16 (seq_nr p - sk_ack_nr s) =? 1)%Z
                 (modify (fun s => s <| sk_ack_nr := seq_nr p |>)) s = (@Ok IoError _ tt, s1)).
  { unfold s1, ack. destruct (_ =? 1)%Z; [done|]. unfold when, mret, St_ret. by destruct s. }
  rewrite (St_bind_ok _ _ _ _ _ H1). unfold lift_unwrap. rewrite Hty. cbn [unwrap]. rewrite bind_lift_run.
  rewrite Hst, Hc, Z.eqb_refl, orb_true_r, andb_false_r, bind_modify_run.
  set (s2 := s1 <| remote_wnd_size := wnd_size p |>).
  destruct (now_run s2) as (t & u & Hnow & _). rewrite (St_bind_ok _ _ _ _ _ Hnow), bind_modify_run.
  cbn [dispatch]. set (s3 := s2 <| socket := u |> <| their_delay := abs_diff t (timestamp p) |>).
  destruct (handle_data_run p s3) as (r & u' & Hr); [done..|].
  exists r, (s3 <| socket := u' |>). by rewrite (fmap_run _ _ _ _ _ Hr).
Qed.

Lemma udp_send_run data to s :
  exists u, udp_send data to s = (Ok tt, s <| socket := u |>).
Proof. unfold udp_send. rewrite Hsend. eauto. Qed.

(** How far a packet is ahead of the last one delivered. *)
Lemma ahead j k :
  k <= S j -> j < length stream ->
  to_u16 (seq_nr (stream !!! j) - (a + Z.of_nat k)) = if S j =? k then 0%Z else Z.of_nat (S j - k).
Proof.
  intros Hkj Hj. destruct (stream_at j Hj) as (_ & -> & _).
  destruct (Nat.eqb_spec (S j) k) as [<-|].
  - by replace (a + 1 + Z.of_nat j - (a + Z.of_nat (S j)))%Z with 0%Z by lia.
  - unfold to_u16. rewrite Z.mod_small; lia.
Qed.

Lemma not_dropped j k :
  k <= S j -> j < length stream ->
  (0 <? to_u16 (seq_nr (stream !!! j) - dropped k))%Z = negb (S j =? k).
Proof.
  intros Hkj Hj. destruct k as [|k].
  - destruct (stream_at j Hj) as (_ & -> & _). cbn [dropped Nat.eqb negb]. apply Z.ltb_lt.
    unfold to_u16, is_u16 in *. destruct Hd0'.
    + rewrite Z.mod_small by lia. lia.
    + rewrite <- (Z.mod_unique (a + 1 + Z.of_nat j - d0) 65536 (-1) (a + 1 + Z.of_nat j - d0 + 65536)); lia.
  - unfold dropped. rewrite ahead by done. destruct (Nat.eqb_spec (S j) (S k)); [done|].
    cbn [negb]. apply Z.ltb_lt. lia.
Qed.

(** Buffering: everything but a copy of the last packet. *)
Lemma buffer_data_run s k I j ack :
  spec_wf (k, I) -> k <= S j -> j < length stream ->
  view s = View ack (dropped k) [] (pkts I) ->
  exists s', buffer_data (stream !!! j) s = (Ok tt, s') /\ state s' = state s /\
    receiver_connection_id s' = receiver_connection_id s /\
    view s' = View ack (dropped k) [] (pkts (if S j =? k then I else ins j I)).
Proof.
  intros Hwf Hkj Hj Hv. injection Hv as Eack Edr Epd Ebuf.
  destruct (stream_at j Hj) as ((_ & _ & Hty) & _ & _).
  unfold buffer_data, lift_unwrap. rewrite bind_get_run, Hty. cbn [unwrap].
  rewrite bind_lift_run, Edr, not_dropped, bool_decide_eq_true_2 by done. cbn [andb].
  destruct (Nat.eqb_spec (S j) k); cbn [negb].
  - exists s. split_and!; try done. unfold view. by rewrite Eack, Edr, Epd, Ebuf.
  - unfold when. rewrite insert_into_buffer_run by (rewrite Ebuf; apply (pkts_sorted _ Hwf)).
    eexists. split_and!; [done..|]. unfold view. cbn.
    by rewrite Eack, Edr, Epd, Ebuf, (pkts_insert k).
Qed.

Lemma head_ins k I : Forall (fun j => k <= j < length stream) I -> head (ins k I) = Some k.
Proof.
  destruct 1 as [|i I [Hi _] _]; [done|]. simpl. destruct (Nat.ltb_spec k i); [done|].
  assert (i = k) as -> by lia. by rewrite Nat.eqb_refl.
Qed.

Lemma rx_arrive s k I j size :
  rx s (k, I) -> event_ok (k, I) (Arrive j size) ->
  exists s', run_event (Arrive j size) s = (Ok (chunks_at (spec_event (k, I) (Arrive j size)).1), s') /\
    rx s' (spec_event (k, I) (Arrive j size)).2.
Proof.
  intros [Hwf Hst Hc Hv] [Hbig [Hkj Hj]]. cbn [size_of fst snd] in *.
  destruct (stream_at j Hj) as (Hd & Sj & Cj). destruct (pkts_sorted _ Hwf) as [Hso Hpd].
  pose proof Hwf as (_ & Hb & Hk). cbn [fst snd] in *. injection Hv as Eack Edr Epd Ebuf.
  pose proof (ahead j k Hkj Hj) as Eu.
  destruct (handle_data_connected (stream !!! j) s) as (r & s1 & H1 & Hst1 & Hc1 & Hv1);
    rewrite ?Eack, ?Eu, ?Ebuf; [done|congruence|apply Hd| | |done|].
  1,2: destruct (_ =? 1)%Z; rewrite ?Sj; unfold is_u16; lia.
  destruct (udp_send_run (set_wnd_size WINDOW_SIZE r) src s1) as (u & H2).
  rewrite Eack, Edr, Epd, Ebuf, Eu in Hv1.
  set (s2 := s1 <| socket := u |>) in *. change (view s1) with (view s2) in Hv1.
  destruct (buffer_data_run s2 k I j _ Hwf Hkj Hj Hv1) as (s3 & H3 & Hst3 & Hc3 & Hv3).
  destruct (rx_flush size s3 k (if S j =? k then I else ins j I)) as (s4 & H4 & Hrx);
    [done| |by rewrite Hst3|rewrite Hc3; simpl; congruence| |].
  - destruct (Nat.eqb_spec (S j) k); [done|]. apply ins_wf; [done|lia].
  - eexists. split; [exact Hv3|]. destruct (Nat.eqb_spec (S j) k); [by left|].
    destruct (Z.eqb_spec (Z.of_nat (S j - k)) 1); [|by left].
    right. assert (j = k) as -> by lia. split; [lia|by apply head_ins].
  - exists s4. split; [|done]. unfold run_event, recv_packet.
    erewrite fmap_run; [|rewrite (St_bind_ok _ _ _ _ _ H1), (St_bind_ok _ _ _ _ _ H2),
      (St_bind_ok _ _ _ _ _ H3), (St_bind_ok _ _ _ _ _ H4); reflexivity]. done.
Qed.

Lemma rx_event_run s st e :
  rx s st -> event_ok st e ->
  exists s', run_event e s = (Ok (chunks_at (spec_event st e).1), s') /\ rx s' (spec_event st e).2.
Proof.
  destruct st as [k I], e as [j size|size]; [apply rx_arrive|].
  intros [Hwf Hst Hc Hv] [Hbig _]. apply rx_flush; eauto.
Qed.

(** ** Runs of events *)

Fixpoint spec_run (st : rx_spec) (es : list rx_event) : list (option nat) * rx_spec :=
  match es with
  | [] => ([], st)
  | e :: es => let r := spec_run (spec_event st e).2 es in ((spec_event st e).1 :: r.1, r.2)
  end.

Lemma rx_events_run es : forall s st,
  rx s st -> events_ok st es ->
  exists s', run_events es s = (Ok (chunks_at <$> (spec_run st es).1), s') /\ rx s' (spec_run st es).2.
Proof.
  induction es as [|e es IH]; intros s st Hs Hes; [by exists s|]. destruct Hes as [He Hes].
  destruct (rx_event_run s st e Hs He) as (s1 & H1 & Hs1).
  destruct (IH s1 _ Hs1 Hes) as (s2 & H2 & Hs2). exists s2. split; [|done].
  cbn [run_events]. rewrite (St_bind_ok _ _ _ _ _ H1), (St_bind_ok _ _ _ _ _ H2). done.
Qed.

(** What was delivered is a prefix of the stream. *)
Lemma spec_event_advance st e :
  spec_wf st -> event_ok st e ->
  spec_wf (spec_event st e).2 /\
  ((spec_event st e).1 = None /\ (spec_event st e).2.1 = st.1 \/
   (spec_event st e).1 = Some st.1 /\ (spec_event st e).2.1 = S st.1 /\ st.1 < length stream).
Proof.
  intros Hwf He. assert (Hd : forall st', spec_wf st' ->
    (deliver st').1 = None /\ (deliver st').2.1 = st'.1 \/
    (deliver st').1 = Some st'.1 /\ (deliver st').2.1 = S st'.1 /\ st'.1 < length stream).
  { intros [k [|j I]] (_ & Hb & _); [by left|]. simpl in *. apply Forall_cons in Hb as [[_ Hj] _].
    destruct (Nat.eqb_spec j k) as [->|]; [by right|by left]. }
  destruct st as [k I], e as [j size|size]; cbn [spec_event fst snd]; [|by split; [apply deliver_wf|apply Hd]].
  destruct He as [_ [Hkj Hj]]. cbn [fst] in Hkj.
  assert (spec_wf (k, if S j =? k then I else ins j I)).
  { destruct (Nat.eqb_spec (S j) k); [done|]. apply ins_wf; [done|lia]. }
  split; [by apply deliver_wf|]. by apply (Hd (k, _)).
Qed.

Lemma spec_run_prefix es : forall st,
  spec_wf st -> events_ok st es ->
  spec_wf (spec_run st es).2 /\ st.1 <= (spec_run st es).2.1 /\
  concat (chunks_at <$> (spec_run st es).1)
  = concat (chunk_of <$> take ((spec_run st es).2.1 - st.1) (drop st.1 stream)).
Proof.
  induction es as [|e es IH]; intros st Hwf Hes; [by rewrite Nat.sub_diag|]. destruct Hes as [He Hes].
  destruct (spec_event_advance st e Hwf He) as [Hwf1 Hadv].
  destruct (IH _ Hwf1 Hes) as (Hwf2 & Hle & Heq). cbn [spec_run fst snd fmap list_fmap concat].
  rewrite Heq. destruct Hadv as [[-> Hk]|(-> & Hk & Hlt)]; rewrite Hk in *.
  - by split_and!.
  - split_and!; [done|lia|]. cbn [chunks_at].
    rewrite (drop_S stream (stream !!! st.1) st.1) by (by apply list_lookup_lookup_total_lt).
    replace ((spec_run (spec_event st e).2 es).2.1 - st.1)
      with (S ((spec_run (spec_event st e).2 es).2.1 - S st.1)) by lia. done.
Qed.

(** What arrived was delivered or waits. *)
Lemma spec_run_keeps es j size : forall st,
  spec_wf st -> events_ok st es -> Arrive j size ∈ es \/ j < st.1 \/ j ∈ st.2 ->
  j < (spec_run st es).2.1 \/ j ∈ (spec_run st es).2.2.
Proof.
  assert (Hd : forall k I, j < k \/ j ∈ I -> j < (deliver (k, I)).2.1 \/ j ∈ (deliver (k, I)).2.2).
  { intros k [|i I]; simpl; [done|]. destruct (Nat.eqb_spec i k) as [->|]; [|done]. simpl.
    rewrite elem_of_cons. intros [?|[->|?]]; auto with lia. }
  induction es as [|e es IH]; intros st Hwf Hes Hj; [simpl; set_solver|]. destruct Hes as [He Hes].
  destruct (spec_event_advance st e Hwf He) as [Hwf1 _]. cbn [spec_run snd].
  apply IH; [done|done|]. destruct st as [k I]. rewrite elem_of_cons in Hj.
  destruct Hj as [[<-|Hj]|Hj]; [right|by left|right].
  - cbn [spec_event fst snd]. apply Hd. destruct (Nat.eqb_spec (S j) k); [lia|].
    right. apply ins_elem. auto.
  - destruct e as [i n|n]; cbn [spec_event fst snd]; apply Hd; [|done].
    destruct Hj as [Hj|Hj]; [auto|]. destruct (S i =? k); [auto|]. right. apply ins_elem. auto.
Qed.

(** Once everything has arrived, each read delivers a packet. *)
Lemma spec_reads size m : forall k I,
  Forall (fun p => length (chunk_of p) <= size) stream ->
  spec_wf (k, I) -> (forall j, j < length stream -> j < k \/ j ∈ I) ->
  events_ok (k, I) (replicate m (ReadBuf size)) /\
  (spec_run (k, I) (replicate m (ReadBuf size))).2.1 = Nat.min (length stream) (k + m).
Proof.
  induction m as [|m IH]; intros k I Hbig Hwf Hall; pose proof Hwf as (Hs & Hb & Hk); cbn [fst snd] in *.
  { split; [done|]. simpl. lia. }
  cbn [replicate events_ok spec_run snd]. destruct (decide (k < length stream)) as [Hlt|Hge].
  - destruct (Hall k Hlt) as [|HkI]; [lia|]. destruct I as [|i I]; [set_solver|].
    assert (i = k) as ->.
    { apply elem_of_cons in HkI as [->|HkI]; [done|]. apply StronglySorted_inv in Hs as [_ Hs].
      rewrite Forall_forall in Hs. specialize (Hs k HkI). apply Forall_cons in Hb as [Hb _]. lia. }
    pose proof (deliver_wf _ Hwf) as Hwf1. cbn [spec_event deliver] in *. rewrite Nat.eqb_refl in *.
    cbn [snd] in *. destruct (IH (S k) I Hbig Hwf1) as [He Hr].
    { intros j Hj. destruct (Hall j Hj) as [|[->|]%elem_of_cons]; auto with lia. }
    split; [by repeat split|]. rewrite Hr. lia.
  - assert (I = []) as ->. { destruct I as [|i I]; [done|]. apply Forall_cons in Hb as [Hb _]. lia. }
    cbn [spec_event deliver snd]. destruct (IH k [] Hbig Hwf Hall) as [He Hr].
    split; [by repeat split|]. rewrite Hr. lia.
Qed.

(** Whatever the interleaving of arrivals and reads, what the socket hands out
    is a prefix of the stream, and once every packet has arrived the remaining
    reads hand out the rest. *)
Lemma stream_delivered_in_order (es : list rx_event) (s : UtpSocket) :
  view s = View a d0 [] [] -> state s = Connected -> receiver_connection_id s = conn ->
  events_ok (0, []) es ->
  exists outs s' k,
    run_events es s = (Ok outs, s') /\
    concat outs = concat (chunk_of <$> take k stream) /\
    sk_ack_nr s' = (a + Z.of_nat k)%Z /\
    ((forall j, j < length stream -> exists size, Arrive j size ∈ es) ->
     forall size, Forall (fun p => length (chunk_of p) <= size) stream ->
     exists outs2 s2,
       run_events (replicate (length stream) (ReadBuf size)) s' = (Ok outs2, s2) /\
       concat (outs ++ outs2) = concat (chunk_of <$> stream)).
Proof.
  intros Hv Hst Hc Hes.
  assert (Hwf : spec_wf (0, [])) by (split_and!; simpl; [constructor|constructor|lia]).
  assert (Hrx : rx s (0, [])) by (split; [done|done|done|by rewrite Z.add_0_r]).
  destruct (rx_events_run es s _ Hrx Hes) as (s' & Hrun & Hs').
  destruct (spec_run_prefix es _ Hwf Hes) as (Hwf' & _ & Hpre). cbn [fst] in Hpre.
  rewrite Nat.sub_0_r, drop_0 in Hpre.
  eexists _, s', (spec_run (0, []) es).2.1. split_and!; [exact Hrun|exact Hpre| |].
  { by destruct Hs' as [_ _ _ [= -> _ _ _]]. }
  intros Hall size Hbig. destruct (spec_run (0, []) es) as [os [k I]] eqn:Er. cbn [fst snd] in *.
  destruct (spec_reads size (length stream) k I Hbig Hwf') as [Hok Hend].
  { intros j Hj. destruct (Hall j Hj) as [n Hin].
    pose proof (spec_run_keeps es j n (0, []) Hwf Hes (or_introl Hin)) as Hk. by rewrite Er in Hk. }
  destruct (rx_events_run _ _ _ Hs' Hok) as (s2 & Hrun2 & _).
  destruct (spec_run_prefix _ _ Hwf' Hok) as (_ & _ & Hpre2). cbn [fst] in Hpre2.
  eexists _, s2. split; [exact Hrun2|]. rewrite concat_app, Hpre, Hpre2, Hend.
  rewrite <- concat_app, <- fmap_app. do 2 f_equal.
  destruct Hwf' as (_ & _ & Hk). cbn [fst] in Hk.
  rewrite Nat.min_l by lia. rewrite (take_ge (drop k stream)) by (rewrite length_drop; lia).
  apply take_drop.
Qed.

(** ** A packet that arrives again after a later one was delivered *)

Section Stale.
Context (p0 : bytes) (Hp0 : data_packet p0) (Hold : (seq_nr p0 < a)%Z) (Hc0 : connection_id p0 = conn).

(** The old packet sits in front of the buffer. *)
Definition stalled (s : UtpSocket) : Prop :=
  state s = Connected /\ receiver_connection_id s = conn /\
  exists ack I, (a <= ack <= a + Z.of_nat (length stream))%Z /\ spec_wf (0, I) /\
    view s = View ack a [] (p0 :: pkts I).

Lemma stalled_flush size s : stalled s -> flush_incoming_buffer size s = (Ok [], s).
Proof.
  intros (_ & _ & ack & I & Hack & _ & Hv). injection Hv as Eack _ Epd Ebuf.
  unfold flush_incoming_buffer. rewrite bind_get_run, Epd, bool_decide_eq_true_2 by done.
  cbn [negb]. rewrite Ebuf, Eack. rewrite (proj2 (Z.eqb_neq _ _)) by lia.
  unfold mbind at 1, St_bind at 1. rewrite u16_arith_in, bind_lift_run by (unfold is_u16; lia).
  by rewrite (proj2 (Z.eqb_neq _ _)) by lia.
Qed.

(** The part of [recv_packet] after the reply, when the packet is buffered. *)
Lemma recv_buffered p size s s1 r :
  handle_packet sp p src s = (Ok (Some r), s1) -> get_type p = Ok Data ->
  (0 < to_u16 (seq_nr p - last_dropped s1))%Z -> StronglySorted seq_lt (incoming_buffer s1) ->
  (forall u, stalled (s1 <| socket := u |> <| incoming_buffer := buffer_insert p (incoming_buffer s1) |>)) ->
  exists s', recv_packet sp p src size s = (Ok ([], src), s') /\ stalled s'.
Proof.
  intros H1 Hty Hpos Hsort Hst. destruct (udp_send_run (set_wnd_size WINDOW_SIZE r) src s1) as (u & H2).
  unfold recv_packet. rewrite (St_bind_ok _ _ _ _ _ H1), (St_bind_ok _ _ _ _ _ H2).
  set (s2 := s1 <| socket := u |>) in *.
  assert (H3 : buffer_data p s2 = (Ok tt, s2 <| incoming_buffer := buffer_insert p (incoming_buffer s1) |>)).
  { unfold buffer_data, lift_unwrap. rewrite bind_get_run, Hty. cbn [unwrap].
    rewrite bind_lift_run, bool_decide_eq_true_2 by done. change (last_dropped s2) with (last_dropped s1).
    rewrite (proj2 (Z.ltb_lt _ _) Hpos). cbn [andb when]. by rewrite insert_into_buffer_run. }
  rewrite (St_bind_ok _ _ _ _ _ H3), (St_bind_ok _ _ _ _ _ (stalled_flush size _ (Hst u))).
  eexists. split; [reflexivity|]. apply Hst.
Qed.

Lemma p0_front I : spec_wf (0, I) ->
  StronglySorted seq_lt (p0 :: pkts I) /\ Forall data_packet (p0 :: pkts I).
Proof.
  intros Hwf. destruct (pkts_sorted _ Hwf) as [Hs Hd]. cbn [snd] in *. split; [|by constructor].
  constructor; [done|]. apply Forall_forall. intros q (j & -> & Hj)%list_elem_of_fmap.
  destruct Hwf as (_ & Hb & _). cbn [fst snd] in Hb. rewrite Forall_forall in Hb.
  destruct (stream_at j (proj2 (Hb j Hj))) as (_ & Sj & _). unfold seq_lt. lia.
Qed.

Lemma stalled_arrive j size s :
  j < length stream -> stalled s -> exists s', run_event (Arrive j size) s = (Ok [], s') /\ stalled s'.
Proof.
  intros Hj (Hst & Hc & ack & I & Hack & Hwf & Hv). pose proof Hv as Hv'. injection Hv' as Eack Edr Epd Ebuf.
  destruct (stream_at j Hj) as (Hd & Sj & Cj). destruct (p0_front I Hwf) as [Hso Hda].
  destruct (handle_data_connected (stream !!! j) s) as (r & s1 & H1 & Hst1 & Hc1 & Hv1);
    rewrite ?Ebuf; [done|congruence|apply Hd| | |done|].
  1,2: rewrite Eack, Sj; destruct (_ =? 1)%Z; unfold is_u16; lia.
  injection Hv1 as Ea1 Ed1 Ep1 Eb1. rewrite Ebuf in Eb1.
  destruct (recv_buffered (stream !!! j) size s s1 r) as (s' & Hr & Hs'); [done|apply Hd| |by rewrite Eb1| |].
  - rewrite Ed1, Edr, Sj. unfold to_u16. rewrite Z.mod_small by lia. lia.
  - intros u. split; [done|]. split; [cbn; congruence|].
    exists (sk_ack_nr s1), (ins j I). split; [rewrite Eack, Sj in Ea1; destruct (_ =? 1)%Z; lia|].
    split; [by apply ins_wf; [|lia]|]. unfold view. cbn. rewrite Ed1, Edr, Ep1, Epd, Eb1.
    cbn [buffer_insert]. rewrite (proj2 (Z.ltb_ge _ _)), (proj2 (Z.eqb_neq _ _)) by lia.
    by rewrite (pkts_insert 0).
  - exists s'. unfold run_event. split; [|done]. by rewrite (fmap_run _ _ _ _ _ Hr).
Qed.

(** An old packet goes to the front of an empty buffer. *)
Lemma stale_arrives size s :
  view s = View a a [] [] -> state s = Connected -> receiver_connection_id s = conn ->
  exists s', recv_packet sp p0 src size s = (Ok ([], src), s') /\ stalled s'.
Proof.
  intros Hv Hst Hc. injection Hv as Eack Edr Epd Ebuf. pose proof (data_packet_seq _ Hp0) as Hs0.
  assert (Eu : to_u16 (seq_nr p0 - a) = (seq_nr p0 - a + 65536)%Z).
  { unfold to_u16, is_u16 in *. symmetry. apply (Z.mod_unique _ _ (-1)); [left|]; lia. }
  unfold is_u16 in Hs0.
  destruct (handle_data_connected p0 s) as (r & s1 & H1 & Hst1 & Hc1 & Hv1); rewrite ?Eack, ?Ebuf, ?Eu.
  1-3: first [done|congruence|apply Hp0].
  1,2: rewrite (proj2 (Z.eqb_neq _ _)) by lia; unfold is_u16; lia.
  1: constructor.
  injection Hv1 as Ea1 Ed1 Ep1 Eb1. rewrite Eack, Eu, (proj2 (Z.eqb_neq _ _)) in Ea1 by lia.
  apply (recv_buffered p0 size s s1 r); [done|apply Hp0|rewrite Ed1, Edr, Eu; lia|rewrite Eb1, Ebuf; constructor|].
  intros u. split; [done|]. split; [cbn; congruence|]. exists a, []. split; [lia|].
  split; [split_and!; cbn; [constructor|constructor|lia]|].
  unfold view. cbn. by rewrite Ea1, Ed1, Edr, Ep1, Epd, Eb1, Ebuf.
Qed.

Lemma stalled_forever es : forall s,
  stalled s -> Forall (fun e => match e with Arrive j _ => j < length stream | ReadBuf _ => True end) es ->
  exists s', run_events es s = (Ok (replicate (length es) []), s') /\ stalled s'.
Proof.
  induction es as [|e es IH]; intros s Hs He; [by exists s|]. apply Forall_cons in He as [He Hes].
  assert (exists s1, run_event e s = (Ok [], s1) /\ stalled s1) as (s1 & H1 & Hs1).
  { destruct e as [j n|n]; [by apply stalled_arrive|]. exists s. split; [by apply stalled_flush|done]. }
  destruct (IH s1 Hs1 Hes) as (s' & H2 & Hs'). exists s'. split; [|done].
  cbn [run_events]. by rewrite (St_bind_ok _ _ _ _ _ H1), (St_bind_ok _ _ _ _ _ H2).
Qed.
End Stale.
End Reassembly.


(** * Splitting outgoing data *)

Lemma length_set_20 off n v (h : bytes) : length h = 20 -> off + n <= 20 -> length (set_field off n v h) = 20.
Proof. intros Hl Hn. rewrite length_set_field; lia. Qed.
Ltac header_len := repeat (apply length_set_20; [|lia]); assumption.

(** A header followed by a payload. *)
Lemma set_field_app off n v (h c : bytes) :
  length h = 20 -> off + n <= 20 -> set_field off n v (h ++ c) = set_field off n v h ++ c.
Proof.
  intros Hl Hn. unfold set_field. rewrite take_app_le, drop_app_le by lia. by rewrite <- !app_assoc.
Qed.

Lemma get_field_app off n (h c : bytes) :
  length h = 20 -> off + n <= 20 -> get_field off n (h ++ c) = get_field off n h.
Proof.
  intros Hl Hn. unfold get_field. rewrite drop_app_le, take_app_le by (rewrite ?length_drop; lia). done.
Qed.

Lemma bare_header_data h c :
  bare_header Data h -> Forall is_u8 c -> data_packet (h ++ c) /\ chunk_of (h ++ c) = c.
Proof.
  intros Hb Hc. pose proof Hb as (Hl & _ & Ht & _ & Hu).
  destruct (bare_header_shape _ _ Hb) as (h0 & htail & Hh & ->).
  assert (Ep : packet_bytes h0 htail [] [] ++ c = packet_bytes h0 htail [] c).
  { unfold packet_bytes. cbn [ext_bytes app]. by rewrite app_nil_r. }
  rewrite Ep. split; [split_and!|].
  - rewrite <- Ep. by apply Forall_app_2.
  - by apply packet_accepted.
  - rewrite <- Ep. unfold get_type, type_ver. rewrite get_field_app; [exact Ht|exact Hl|lia].
  - unfold chunk_of. by destruct (packet_read h0 htail [] c (proj1 Hh) (Forall_nil_2 _)) as [-> _].
Qed.

(** [p] is the packet with chunk [c], [i] after the next sequence number. *)
Definition carries (s : UtpSocket) (i : nat) (c p : bytes) : Prop :=
  exists h, p = h ++ c /\ bare_header Data h /\
    seq_nr p = to_u16 (sk_seq_nr s + Z.of_nat i) /\ ack_nr p = sk_ack_nr s /\
    connection_id p = sender_connection_id s.

(** Changing the timestamps keeps what a packet carries. *)
Lemma carries_retimed s i c p t d :
  carries s i c p -> carries s i c (set_timestamp_difference d (set_timestamp t p)).
Proof.
  intros (h & -> & Hb & Hs & Ha & Hc). pose proof Hb as (Hl & _). unfold HEADER_SIZE in Hl.
  exists (set_timestamp_difference d (set_timestamp t h)).
  unfold set_timestamp_difference, set_timestamp in *.
  rewrite !set_field_app by (header_len || lia). split; [done|].
  split; [do 2 (apply bare_header_set; [lia|lia|]); done|].
  unfold seq_nr, ack_nr, connection_id in *.
  rewrite get_field_app in Hs, Ha, Hc by lia.
  rewrite !get_field_app by (header_len || lia).
  rewrite !get_set_other by (rewrite ?length_set_field; lia). done.
Qed.

Section Sending.
Context `{HE : UdpEnv} `{HP : Profile}.

Lemma bare_header_with_payload c : exists h, with_payload c = h ++ c /\ bare_header Data h.
Proof. exists (set_type Data default_header). split; [done|apply bare_header_type]. Qed.

Lemma queue_chunk_run c s :
  is_u16 (sk_seq_nr s) -> is_u16 (sk_ack_nr s) -> is_u16 (sender_connection_id s) ->
  (Z.of_nat (length (send_window s)) <= WINDOW_SIZE)%Z ->
  exists p, carries s 0 c p /\
    queue_chunk c s = (Ok tt, s <| unsent_queue := unsent_queue s ++ [p] |>
                                <| sk_seq_nr := to_u16 (sk_seq_nr s + 1) |>).
Proof.
  intros Hq Ha Hc Hw. unfold queue_chunk. rewrite bind_get_run. unfold WINDOW_SIZE in *.
  replace (to_u32 (Z.of_nat (length (send_window s)))) with (Z.of_nat (length (send_window s)))
    by (unfold to_u32; rewrite Z.mod_small; lia).
  rewrite u32_arith_in, bind_lift_run by (unfold is_u32; lia).
  match goal with |- context [modify (fun s => s <| unsent_queue := _ ++ [?p] |> <| sk_seq_nr := _ |>)] =>
    exists p end.
  split; [|done]. destruct (bare_header_with_payload c) as (h & -> & Hb).
  pose proof Hb as (Hl & _). unfold HEADER_SIZE in Hl.
  unfold set_connection_id, set_ack_nr, set_seq_nr, set_wnd_size.
  rewrite !set_field_app by (header_len || lia).
  eexists. split; [done|]. split; [repeat (apply bare_header_set; [lia|lia|]); done|].
  assert (Hwide : wide h) by (unfold wide, HEADER_SIZE; lia).
  unfold seq_nr, ack_nr, connection_id. rewrite !get_field_app by (header_len || lia).
  replace (to_u16 (sk_seq_nr s + Z.of_nat 0)) with (sk_seq_nr s)
    by (rewrite Z.add_0_r; symmetry; by apply Z.mod_small).
  split_and!; read_fields; done.
Qed.

Lemma carries_shift s s' i c p :
  sk_ack_nr s' = sk_ack_nr s -> sender_connection_id s' = sender_connection_id s ->
  sk_seq_nr s' = to_u16 (sk_seq_nr s + 1) -> carries s' i c p -> carries s (S i) c p.
Proof.
  intros Ha Hc Hs (h & -> & Hb & Es & Ea & Ec). exists h. split_and!; [done|done| |congruence|congruence].
  rewrite Es, Hs. unfold to_u16. rewrite Zplus_mod_idemp_l. f_equal. lia.
Qed.

(** The chunks are queued one after the other. *)
Lemma queue_chunks_run cs : forall s,
  is_u16 (sk_seq_nr s) -> is_u16 (sk_ack_nr s) -> is_u16 (sender_connection_id s) ->
  (Z.of_nat (length (send_window s)) <= WINDOW_SIZE)%Z ->
  exists ps, length ps = length cs /\
    (forall i c p, cs !! i = Some c -> ps !! i = Some p -> carries s i c p) /\
    for_each cs queue_chunk s
    = (Ok tt, s <| unsent_queue := unsent_queue s ++ ps |>
                <| sk_seq_nr := to_u16 (sk_seq_nr s + Z.of_nat (length cs)) |>).
Proof.
  induction cs as [|c cs IH]; intros s Hq Ha Hc Hw.
  { exists []. split; [done|]. split; [done|]. cbn [for_each length]. rewrite app_nil_r, Z.add_0_r.
    unfold to_u16. rewrite Z.mod_small by done. by destruct s. }
  destruct (queue_chunk_run c s Hq Ha Hc Hw) as (p & Hp & Hrun). cbn [for_each].
  rewrite (St_bind_ok _ _ _ _ _ Hrun).
  set (s1 := s <| unsent_queue := unsent_queue s ++ [p] |> <| sk_seq_nr := to_u16 (sk_seq_nr s + 1) |>).
  destruct (IH s1) as (ps & Hl & Hcar & Hr); [apply to_u16_range|done..|].
  exists (p :: ps). split; [simpl; by rewrite Hl|]. split.
  - intros [|i] c' p' Hc' Hp'; simpl in Hc', Hp'; [naive_solver|].
    eapply carries_shift; [..|by eapply Hcar]; done.
  - rewrite Hr. f_equal. unfold s1. cbn. rewrite <- app_assoc. f_equal.
    unfold to_u16. rewrite Zplus_mod_idemp_l. f_equal. lia.
Qed.

Lemma chunks_of_spec n fuel : forall l,
  0 < n -> length l <= fuel ->
  concat (chunks_of fuel n l) = l /\ Forall (fun c => 0 < length c <= n) (chunks_of fuel n l).
Proof.
  induction fuel as [|fuel IH]; intros l Hn Hl; [destruct l; [done|simpl in Hl; lia]|].
  destruct l as [|x l]; [done|]. cbn [chunks_of].
  destruct (IH (drop n (x :: l))) as [Hc Hf]; [done|rewrite length_drop; simpl in *; lia|].
  cbn [concat]. rewrite Hc, take_drop. split; [done|]. constructor; [|done].
  rewrite length_take. simpl. lia.
Qed.

Lemma chunks_spec n l :
  0 < n -> concat (chunks n l) = l /\ Forall (fun c => 0 < length c <= n) (chunks n l).
Proof. intros Hn. by apply chunks_of_spec. Qed.

Context (Hsend : forall n, env_send n = None).

(** What may be in flight. *)
Definition max_inflight (s : UtpSocket) : Z := Z.max (MIN_CWND * MSS) (Z.min (cwnd s) (remote_wnd_size s)).

(** The packet as it goes out: with the time and the peer's delay. *)
Definition retimed (q p : bytes) : Prop :=
  exists t d, p = set_timestamp_difference d (set_timestamp t q).

Lemma retimed_length q p : wide q -> retimed q p -> length p = length q /\ wide p.
Proof.
  intros Hq (t & d & ->). assert (Hl : length (set_timestamp_difference d (set_timestamp t q)) = length q).
  { unfold set_timestamp_difference, set_timestamp, wide, HEADER_SIZE in *.
    rewrite length_set_field; rewrite length_set_field; lia. }
  split; [done|]. unfold wide in *. lia.
Qed.

(** With room in the window a packet is sent at once. *)
Lemma send_packet_run fuel q s :
  (curr_window s < max_inflight s)%Z ->
  exists p u, send_packet (S fuel) q s = (Ok p, s <| socket := u |>) /\ retimed q p /\
    sent u = sent (socket s) ++ [(p, connected_to s)].
Proof.
  intros Hw. cbn [send_packet]. rewrite bind_get_run.
  destruct (now_run s) as (t0 & u0 & Hn0 & Es0). rewrite (St_bind_ok _ _ _ _ _ Hn0).
  fold (max_inflight s). set (s0 := s <| socket := u0 |>).
  assert (Hopen : forall r, wait_window r (S fuel) (max_inflight s) t0 s0 = (Ok tt, s0)).
  { intros r. cbn [wait_window]. rewrite bind_get_run. change (curr_window s0) with (curr_window s).
    by rewrite (proj2 (Z.leb_gt _ _) Hw). }
  rewrite (St_bind_ok _ _ _ _ _ (Hopen _)).
  destruct (now_run s0) as (t1 & u1 & Hn1 & Es1). rewrite (St_bind_ok _ _ _ _ _ Hn1), bind_get_run.
  match goal with |- context [udp_send ?p ?a] => exists p end.
  unfold mbind at 1, St_bind at 1, udp_send. rewrite Hsend. eexists. split; [reflexivity|].
  split; [by eexists _, _|]. cbn. rewrite Es1. unfold s0. cbn. by rewrite Es0.
Qed.

Lemma send_queue_run fuel qs : forall s,
  unsent_queue s = qs -> Forall wide qs -> (0 <= curr_window s)%Z ->
  (curr_window s + window_bytes qs < max_inflight s)%Z -> is_u32 (max_inflight s) ->
  exists ps s', send_queue (S fuel) (length qs + 1) s = (Ok tt, s') /\ Forall2 retimed qs ps /\
    send_window s' = send_window s ++ ps /\ unsent_queue s' = [] /\
    curr_window s' = (curr_window s + window_bytes ps)%Z /\
    sent (socket s') = sent (socket s) ++ ((fun p => (p, connected_to s)) <$> ps).
Proof.
  induction qs as [|q qs IH]; intros s Eq Hwide H0 Hw Hm.
  { exists [], s. cbn [length Nat.add send_queue]. rewrite bind_get_run, Eq.
    split_and!; cbn; rewrite ?app_nil_r; try done; lia. }
  apply Forall_cons in Hwide as [Hq Hwide]. cbn [window_bytes foldr] in Hw. fold (window_bytes qs) in Hw.
  pose proof (window_bytes_nonneg qs).
  cbn [length Nat.add send_queue]. rewrite bind_get_run, Eq, bind_modify_run.
  set (s1 := s <| unsent_queue := qs |>).
  destruct (send_packet_run fuel q s1) as (p & u & Hp & Hrt & Es); [cbn; unfold max_inflight in *; simpl; lia|].
  rewrite (St_bind_ok _ _ _ _ _ Hp), bind_get_run.
  destruct (retimed_length q p Hq Hrt) as [El Hpw]. rewrite El.
  change (curr_window (s1 <| socket := u |>)) with (curr_window s).
  unfold is_u32 in Hm. unfold to_u32. rewrite (Z.mod_small (Z.of_nat _)) by lia.
  rewrite u32_arith_in, bind_lift_run, bind_modify_run by (unfold is_u32; lia).
  match goal with |- context [send_queue (S fuel) _ ?x] => set (s2 := x) end.
  destruct (IH s2) as (ps & s' & Hr & Hf & Ew & Eu & Ec & Et); try done.
  { cbn. lia. }
  { change (max_inflight s2) with (max_inflight s). cbn. lia. }
  exists (p :: ps), s'. split_and!; [done|by constructor| |done| |].
  - rewrite Ew. cbn. by rewrite <- app_assoc.
  - rewrite Ec. change (window_bytes (p :: ps)) with (Z.of_nat (length p) + window_bytes ps)%Z.
    change (curr_window s2) with (curr_window s + Z.of_nat (length q))%Z. lia.
  - rewrite Et. cbn. rewrite Es. cbn. by rewrite <- app_assoc.
Qed.

(** The size of the packets [send_to] queues. *)
Lemma carried_bytes s cs ps :
  length ps = length cs -> (forall i c p, cs !! i = Some c -> ps !! i = Some p -> carries s i c p) ->
  Forall wide ps /\ window_bytes ps = (Z.of_nat (length (concat cs)) + 20 * Z.of_nat (length cs))%Z.
Proof.
  assert (Hg : forall k, length ps = length cs ->
    (forall i c p, cs !! i = Some c -> ps !! i = Some p -> carries s (k + i) c p) ->
    Forall wide ps /\ window_bytes ps = (Z.of_nat (length (concat cs)) + 20 * Z.of_nat (length cs))%Z);
    [|by apply (Hg 0)].
  revert ps. induction cs as [|c cs IH]; intros [|p ps] k Hl Hc; try done.
  destruct (IH ps (S k)) as [Hw Hb]; [simpl in Hl; lia| |].
  { intros i c' p' H1 H2. specialize (Hc (S i) c' p' H1 H2). by rewrite Nat.add_succ_r in Hc. }
  destruct (Hc 0 c p eq_refl eq_refl) as (h & -> & (Hh & _) & _).
  split; [constructor; [unfold wide; rewrite length_app; lia|done]|].
  change (window_bytes ((h ++ c) :: ps)) with (Z.of_nat (length (h ++ c)) + window_bytes ps)%Z.
  rewrite Hb, length_app, Hh. cbn [concat length]. rewrite length_app. unfold HEADER_SIZE. lia.
Qed.

Definition packet_chunks (buf : bytes) : list bytes := chunks (Z.to_nat MSS - HEADER_SIZE) buf.

Lemma send_to_run fuel buf s :
  sock_ok s -> state s <> Closed -> unsent_queue s = [] ->
  (Z.of_nat (length (send_window s)) <= WINDOW_SIZE)%Z ->
  (curr_window s + Z.of_nat (length buf) + 20 * Z.of_nat (length (packet_chunks buf)) < max_inflight s)%Z ->
  exists ps s', send_to (S fuel) buf s = (Ok (length buf), s') /\
    length ps = length (packet_chunks buf) /\
    (forall i c p, packet_chunks buf !! i = Some c -> ps !! i = Some p -> carries s i c p) /\
    send_window s' = send_window s ++ ps /\
    sent (socket s') = sent (socket s) ++ ((fun p => (p, connected_to s)) <$> ps).
Proof.
  intros Hok Hst Hu Hwin Hroom. destruct (chunks_spec (Z.to_nat MSS - HEADER_SIZE) buf) as [Hcat _];
    [by vm_compute; lia|]. fold (packet_chunks buf) in Hcat.
  pose proof (ok_curr_window _ Hok) as [Hc0 _].
  assert (Hm : is_u32 (max_inflight s)).
  { ok_destruct. unfold max_inflight, MIN_CWND, MSS, is_u32 in *. lia. }
  unfold send_to. rewrite bind_get_run, bool_decide_eq_false_2 by done. fold (packet_chunks buf).
  destruct (queue_chunks_run (packet_chunks buf) s) as (qs & Hl & Hcar & Hq); [ok_destruct; done..|].
  rewrite (St_bind_ok _ _ _ _ _ Hq), Hu, app_nil_l.
  set (s1 := s <| unsent_queue := qs |>
               <| sk_seq_nr := to_u16 (sk_seq_nr s + Z.of_nat (length (packet_chunks buf))) |>).
  destruct (carried_bytes s _ qs Hl Hcar) as [Hwide Hbytes]. rewrite Hcat in Hbytes.
  destruct (send_queue_run fuel qs s1) as (ps & s' & Hr & Hf & Ew & _ & _ & Et); try done.
  { change (curr_window s1) with (curr_window s). change (max_inflight s1) with (max_inflight s). lia. }
  exists ps, s'. pose proof (Forall2_length _ _ _ Hf) as Hlp. split_and!; [|lia| |done|done].
  - unfold send. unfold mbind at 1, St_bind at 1. rewrite bind_get_run. change (unsent_queue s1) with qs.
    by rewrite Hr.
  - intros i c p Hc Hp. destruct (Forall2_lookup_r _ _ _ _ _ Hf Hp) as (q & Hqi & t & d & ->).
    apply carries_retimed. by eapply Hcar.
Qed.
End Sending.

(** * A silent peer *)

Section Silence.
Context `{HE : UdpEnv} `{HP : Profile}.
Context (Hsend : forall n, env_send n = None).
Context (Hsilent : forall n, exists e, env_recv n = RecvFailed e /\ is_timeout e = true).

(** What waiting leaves as it is. *)
Definition waits (s s' : UtpSocket) : Prop :=
  state s' = state s /\ max_retransmission_retries s' = max_retransmission_retries s /\
  n_recv (socket s') = n_recv (socket s).

Lemma now_waits s : exists t u, now s = (Ok t, s <| socket := u |>) /\ n_recv u = n_recv (socket s).
Proof. unfold now. destruct (env_clock _). eauto. Qed.
Lemma send_waits d a s :
  exists u, udp_send d a s = (Ok tt, s <| socket := u |>) /\ n_recv u = n_recv (socket s).
Proof. unfold udp_send. rewrite Hsend. eauto. Qed.

Lemma fin_packet_waits s :
  exists p u, fin_packet s = (Ok p, s <| socket := u |>) /\ n_recv u = n_recv (socket s).
Proof.
  unfold fin_packet. rewrite bind_get_run. destruct (now_waits s) as (t & u & Hn & Eu).
  rewrite (St_bind_ok _ _ _ _ _ Hn). by eexists _, u.
Qed.

Lemma fast_resend_waits s :
  exists u, send_fast_resend_request s = (Ok tt, s <| socket := u |>) /\ n_recv u = n_recv (socket s).
Proof.
  unfold send_fast_resend_request.
  assert (Hg : forall l s, exists u, for_each (l : list nat) (fun _ =>
    self_t_micro ← now; s ← get;
    let packet := set_ack_nr (sk_ack_nr s) (set_seq_nr (sk_seq_nr s)
                    (set_connection_id (sender_connection_id s)
                      (set_timestamp_difference (their_delay s)
                        (set_timestamp self_t_micro (set_type UtpPacket.State packet_new))))) in
    ignore (udp_send packet (connected_to s))) s = (Ok tt, s <| socket := u |>) /\
    n_recv u = n_recv (socket s)); [|apply (Hg [0; 1; 2])].
  induction l as [|x l IH]; intros s0; [exists (socket s0); by destruct s0|].
  destruct (now_waits s0) as (t & u & Hn & Eu). cbn [for_each].
  unfold mbind at 1, St_bind at 1. rewrite (St_bind_ok _ _ _ _ _ Hn), bind_get_run. cbn zeta.
  match goal with |- context [udp_send ?p ?a] =>
    destruct (send_waits p a (s0 <| socket := u |>)) as (u' & Hs & Eu') end.
  unfold ignore. rewrite Hs. destruct (IH (s0 <| socket := u |> <| socket := u' |>)) as (u'' & H & Eu'').
  exists u''. split; [exact H|]. cbn in *. congruence.
Qed.

Lemma receive_timeout_waits s :
  is_u64 (congestion_timeout s * 2) ->
  exists s', handle_receive_timeout s = (Ok tt, s') /\ waits s s' /\
    congestion_timeout s' = (congestion_timeout s * 2)%Z.
Proof.
  intros Ht. unfold handle_receive_timeout. rewrite bind_get_run, u64_arith_in, bind_lift_run by done.
  rewrite bind_modify_run. set (s1 := s <| congestion_timeout := (congestion_timeout s * 2)%Z |> <| cwnd := MSS |>).
  destruct (send_window s) as [|p rest] eqn:Ew.
  - destruct (bool_decide_reflect (state s = FinSent)).
    + destruct (fin_packet_waits s1) as (p & u & Hn & Eu). rewrite (St_bind_ok _ _ _ _ _ Hn).
      match goal with |- context [udp_send ?p ?a] =>
        destruct (send_waits p a (s1 <| socket := u |>)) as (u' & Hs & Eu') end.
      eexists. split; [exact Hs|]. unfold waits. cbn in *. split; [|done]. by rewrite Eu', Eu.
    + destruct (bool_decide_reflect (state s = New)); unfold when; cbn [negb].
      { by exists s1. }
      destruct (fast_resend_waits s1) as (u & H & Eu). eexists. split; [exact H|]. by split.
  - destruct (now_waits s1) as (t & u & Hn & Eu). rewrite (St_bind_ok _ _ _ _ _ Hn), bind_modify_run, bind_get_run.
    match goal with |- context [index ?w 0] => replace (index w 0) with (@Ok IoError _ (set_timestamp t p)) end.
    2:{ cbn. by rewrite Ew. }
    rewrite bind_lift_run. match goal with |- context [udp_send ?p ?a ?x] =>
      destruct (send_waits p a x) as (u' & Hs & Eu') end.
    eexists. split; [exact Hs|]. unfold waits. cbn in *. split; [|done]. by rewrite Eu', Eu.
Qed.

Lemma recv_wait_silent m : forall retries s,
  (0 <= retries)%Z -> is_u32 (max_retransmission_retries s) ->
  (max_retransmission_retries s = retries + Z.of_nat m)%Z -> state s <> New ->
  (0 < congestion_timeout s)%Z -> (congestion_timeout s * 2 ^ Z.of_nat m < 18446744073709551616)%Z ->
  exists s', recv_wait (m + 1) retries s = (Err (io_of_SocketError ConnectionTimedOut), s') /\
    state s' = Closed /\ n_recv (socket s') = n_recv (socket s) + m /\
    congestion_timeout s' = (congestion_timeout s * 2 ^ Z.of_nat m)%Z.
Proof.
  induction m as [|m IH]; intros retries s Hr Hm Em Hst Ht Hb; cbn [Nat.add recv_wait]; rewrite bind_get_run.
  { rewrite (proj2 (Z.leb_le _ _)) by lia. rewrite bind_modify_run. eexists. split; [reflexivity|].
    cbn. split; [done|]. split; lia. }
  rewrite (proj2 (Z.leb_gt _ _)) by lia. rewrite bool_decide_eq_false_2 by done.
  rewrite Nat2Z.inj_succ, Z.pow_succ_r in Hb by lia.
  assert (0 < 2 ^ Z.of_nat m)%Z by (apply Z.pow_pos_nonneg; lia).
  assert (Hset : exists s1, set_read_timeout (Some (congestion_timeout s)) s = (Ok tt, s1) /\ waits s s1 /\
    congestion_timeout s1 = congestion_timeout s).
  { destruct (congestion_timeout s) eqn:E; [lia| |lia]. cbn. by eexists. }
  destruct Hset as (s1 & H1 & (W1 & W2 & W3) & T1). rewrite (St_bind_ok _ _ _ _ _ H1).
  unfold udp_recv. destruct (Hsilent (n_recv (socket s1))) as (e & He & Hte).
  unfold mbind at 1, St_bind at 1. rewrite He, Hte.
  match goal with |- context [(handle_receive_timeout ≫= _) ?x] => set (s2 := x) end.
  destruct (receive_timeout_waits s2) as (s3 & H3 & (X1 & X2 & X3) & T3).
  { cbn. unfold is_u64. rewrite T1. nia. }
  rewrite (St_bind_ok _ _ _ _ _ H3), u32_arith_in, bind_lift_run by (unfold is_u32 in *; lia).
  change (congestion_timeout s2) with (congestion_timeout s1) in T3.
  change (state s2) with (state s1) in X1. change (n_recv (socket s2)) with (S (n_recv (socket s1))) in X3.
  change (max_retransmission_retries s2) with (max_retransmission_retries s1) in X2.
  destruct (IH (retries + 1)%Z s3) as (s' & Hrun & Hcl & En & Ec);
    [lia|by rewrite X2, W2|lia|congruence|lia|nia|].
  exists s'. split; [exact Hrun|]. split; [done|]. split; [lia|]. rewrite Ec, T3, T1, Nat2Z.inj_succ, Z.pow_succ_r by lia. lia.
Qed.
End Silence.
