(* ===== verification/UtpSocketProps.v ===== *)
(** UtpSocketProps: the properties of the uTP socket, with concrete instances
    of each.  The lemmas they rest on are in UtpSocketInv and UtpSocketCorrect. *)

From stdpp Require Import base list sorting sets.
From Stdlib Require Import ZArith Lia SpecFloat.
From S2P Require Import Prelude Effects Float Convert UtpPacket UtpPacketCorrect UtpSocket UtpSocketInv.
From S2P Require Import UtpSocketCorrect.

(** * The handshake *)

Section Handshake.
Context `{HP : Profile}.

Lemma bare_header_accepted t r : bare_header t r -> Packet_try_from r = Ok r.
Proof.
  intros Hb. destruct (bare_header_shape t r Hb) as (h0 & htail & Hh & ->).
  by apply packet_accepted.
Qed.

(** The SYN packet of a socket made with the random number [id], at time [t]. *)
Definition syn_packet (id t : Z) : bytes :=
  set_timestamp t (set_seq_nr 1 (set_connection_id (generate_sequential_identifiers id).1
    (set_type Syn packet_new))).

Lemma syn_packet_fields id t :
  is_u16 id -> is_u32 t ->
  bare_header Syn (syn_packet id t) /\ seq_nr (syn_packet id t) = 1%Z /\
  connection_id (syn_packet id t) = (generate_sequential_identifiers id).1 /\
  (0 <= (generate_sequential_identifiers id).1 < 65535)%Z /\
  (generate_sequential_identifiers id).2 = ((generate_sequential_identifiers id).1 + 1)%Z.
Proof.
  intros Hid Ht.
  assert (Hr : (0 <= (generate_sequential_identifiers id).1 < 65535)%Z /\
    (generate_sequential_identifiers id).2 = ((generate_sequential_identifiers id).1 + 1)%Z).
  { unfold generate_sequential_identifiers, is_u16 in *. destruct (Z.ltb_spec (id + 1) 65536); cbn; lia. }
  unfold syn_packet. set (rid := (generate_sequential_identifiers id).1) in *.
  assert (Hw : wide (set_type Syn packet_new)) by (apply Nat.leb_le; by vm_compute).
  assert (is_u16 rid) by (unfold is_u16; lia).
  assert (is_u16 1) by (unfold is_u16; lia).
  split; [repeat (apply bare_header_set; [lia|lia|]); apply bare_header_type|].
  unfold seq_nr, connection_id, set_timestamp, set_seq_nr, set_connection_id.
  split; [read_fields; done|]. split; [read_fields; done|]. done.
Qed.

(** The first statement of [handle_packet] only touches the acknowledgement number. *)
Lemma ack_step p s :
  exists x, when (to_u16 (seq_nr p - sk_ack_nr s) =? 1)%Z
    (modify (fun s => s <| sk_ack_nr := seq_nr p |>)) s = (@Ok IoError _ tt, s <| sk_ack_nr := x |>).
Proof.
  destruct (_ =? 1)%Z; [by eexists|]. exists (sk_ack_nr s). by destruct s.
Qed.

(** A SYN makes a new socket: connected, with the identifiers of the packet. *)
Lemma syn_accepted `{HE : UdpEnv} fuel p src s :
  bare_header Syn p -> is_u16 (seq_nr p) -> is_u16 (connection_id p + 1) -> state s = New ->
  exists r s', handle_packet (send_packet fuel) p src s = (Ok (Some r), s') /\
    bare_header UtpPacket.State r /\ state s' = Connected /\ connected_to s' = src /\
    receiver_connection_id s' = (connection_id p + 1)%Z /\ sender_connection_id s' = connection_id p /\
    view s' = View (seq_nr p) (seq_nr p) (pending_data s) (incoming_buffer s) /\
    seq_nr r = sk_seq_nr s' /\ is_u16 (sk_seq_nr s') /\ sent (socket s') = sent (socket s) /\
    sk_seq_nr s' = to_u16 (env_rand (n_rand (socket s))).
Proof.
  intros Hb Hs Hc Hst. pose proof Hb as (_ & _ & Hty & _). unfold handle_packet. rewrite bind_get_run.
  destruct (ack_step p s) as [x H1]. rewrite (St_bind_ok _ _ _ _ _ H1).
  unfold lift_unwrap. rewrite Hty. cbn [unwrap]. rewrite bind_lift_run, bool_decide_eq_true_2 by done.
  cbn [negb andb]. rewrite bind_modify_run, Hst.
  match goal with |- context [(now ≫= _) ?z] => set (s2 := z) end.
  unfold now at 1. unfold mbind at 1, St_bind at 1. destruct (env_clock _) as [sec ns].
  rewrite bind_modify_run. cbn [dispatch]. rewrite bind_modify_run.
  unfold random_u16. unfold mbind at 1, St_bind at 1. rewrite bind_modify_run.
  rewrite u16_arith_in, bind_lift_run, bind_modify_run by done.
  match goal with |- context [(Some <$> prepare_reply _ _) ?z] => set (s3 := z) end.
  destruct (prepare_reply_run p UtpPacket.State s3) as (r & u & Hr & Hbr & _ & Hseq & Hsent).
  exists r, (s3 <| socket := u |>). rewrite (fmap_run _ _ _ _ _ Hr).
  assert (is_u16 (sk_seq_nr s3)) by apply to_u16_range.
  split_and!; try done; by apply Hseq.
Qed.

(** The answer to a SYN opens the connection, unless its sequence number is 0. *)
Lemma syn_answered `{HE : UdpEnv} fuel p src s :
  bare_header UtpPacket.State p -> is_u16 (seq_nr p) -> (seq_nr p <> 0)%Z -> is_u16 (sk_seq_nr s + 1) ->
  state s = SynSent ->
  exists s', handle_packet (send_packet fuel) p src s = (Ok None, s') /\ state s' = Connected /\
    receiver_connection_id s' = receiver_connection_id s /\
    sender_connection_id s' = sender_connection_id s /\
    view s' = View (seq_nr p - 1) (last_dropped s) (pending_data s) (incoming_buffer s) /\
    sk_seq_nr s' = (sk_seq_nr s + 1)%Z /\ sent (socket s') = sent (socket s).
Proof.
  intros Hb Hs Hnz Hq Hst. pose proof Hb as (_ & _ & Hty & _). unfold handle_packet. rewrite bind_get_run.
  destruct (ack_step p s) as [x H1]. rewrite (St_bind_ok _ _ _ _ _ H1).
  unfold lift_unwrap. rewrite Hty. cbn [unwrap]. rewrite bind_lift_run, Hst.
  rewrite (bool_decide_eq_true_2 (SynSent = SynSent)) by done. rewrite andb_false_r. cbn [andb].
  rewrite bind_modify_run. unfold now at 1. unfold mbind at 1, St_bind at 1.
  destruct (env_clock _) as [sec ns]. rewrite bind_modify_run. cbn [dispatch]. rewrite bind_modify_run.
  rewrite u16_arith_in, bind_lift_run, bind_modify_run, bind_get_run by (unfold is_u16 in *; lia).
  rewrite u16_arith_in, bind_lift_run, bind_modify_run by done.
  match goal with |- context [(now ≫= _) ?z] => set (s3 := z) end.
  destruct (now_run s3) as (t & u & Hn & Es). rewrite (St_bind_ok _ _ _ _ _ Hn), bind_modify_run.
  eexists. split; [reflexivity|]. by split_and!; [..|cbn; rewrite Es].
Qed.

(** The n-th reading of the clock. *)
Definition clock_at `{HE : UdpEnv} (n : nat) : Z := now_microseconds (env_clock n).1 (env_clock n).2.

(** The first attempt of [connect] is answered. *)
Lemma syn_loop_answered `{HE : UdpEnv} n p t s data src :
  (forall n, env_send n = None) -> env_recv (n_recv (socket s)) = Datagram data src -> t <> 0%Z ->
  exists s', syn_loop (S n) p t s = (Ok (take BUF_SIZE data), s') /\
    s' = s <| state := SynSent |> <| connected_to := src |> <| socket := socket s' |> /\
    sent (socket s') = sent (socket s) ++ [(set_timestamp (clock_at (n_clock (socket s))) p, connected_to s)].
Proof.
  intros Hsend Hrecv Ht. cbn [syn_loop]. unfold now at 1. unfold mbind at 1, St_bind at 1.
  unfold clock_at. destruct (env_clock _) as [sec ns]. rewrite bind_get_run. unfold udp_send.
  unfold mbind at 1, St_bind at 1. rewrite Hsend, bind_modify_run.
  match goal with |- context [(set_read_timeout _ ≫= _) ?z] => set (s1 := z) end.
  assert (Hset : exists u, set_read_timeout (Some t) s1 = (Ok tt, s1 <| socket := u |>) /\
    n_recv u = n_recv (socket s) /\ sent u = sent (socket s1)).
  { destruct t; [done| |]; cbn; eexists; (split; [reflexivity|]); done. }
  destruct Hset as (u & Hset & Er & Es). rewrite (St_bind_ok _ _ _ _ _ Hset).
  unfold udp_recv. unfold mbind at 1, St_bind at 1. cbn [socket update_field upd_socket]. rewrite Er, Hrecv.
  rewrite bind_modify_run. eexists. split; [reflexivity|]. split; [done|]. cbn. by rewrite Es.
Qed.

Lemma fresh_socket u a id :
  let s := from_raw_parts u a id in
  state s = New /\ socket s = u /\ view s = View 0 0 [] [] /\ sk_seq_nr s = 1%Z /\
  congestion_timeout s = INITIAL_CONGESTION_TIMEOUT /\
  receiver_connection_id s = (generate_sequential_identifiers id).1 /\
  sender_connection_id s = (generate_sequential_identifiers id).2.
Proof. unfold from_raw_parts. by destruct (generate_sequential_identifiers id). Qed.

Lemma accept_run `{HE : UdpEnv} fuel p src id :
  (forall n, env_send n = None) -> bare_header Syn p -> is_u16 (seq_nr p) -> is_u16 (connection_id p + 1) ->
  exists srv r, accept fuel p src (Ok tt) id = Ok (srv, src) /\ sent (socket srv) = [(r, src)] /\
    bare_header UtpPacket.State r /\ seq_nr r = sk_seq_nr srv /\
    sk_seq_nr srv = to_u16 (env_rand 0) /\ state srv = Connected /\
    view srv = View (seq_nr p) (seq_nr p) [] [] /\
    receiver_connection_id srv = (connection_id p + 1)%Z /\ sender_connection_id srv = connection_id p.
Proof.
  intros Hsend Hb Hs Hc. pose proof Hb as (Hlen & _ & Hty & _).
  destruct (fresh_socket udp_new src id) as (F1 & F2 & [= F3 F4 F5 F6] & _).
  destruct (syn_accepted fuel p src (from_raw_parts udp_new src id) Hb Hs Hc F1)
    as (r & s1 & H1 & Hbr & St1 & _ & R1 & S1 & V1 & Q1 & U1 & L1 & E1).
  rewrite F5, F6 in V1. rewrite F2 in L1, E1. unfold accept.
  rewrite take_ge by (rewrite Hlen; unfold HEADER_SIZE, BUF_SIZE; lia).
  rewrite (bare_header_accepted _ _ Hb). cbn [map_err]. rewrite mbind_ok, Hty. cbn [unwrap].
  rewrite !mbind_ok, bool_decide_eq_true_2 by done. cbn [negb]. rewrite H1. unfold udp_send. rewrite Hsend.
  eexists _, r. split; [reflexivity|]. split_and!; try done. cbn. by rewrite L1.
Qed.

Lemma connect_run `{HE : UdpEnv} fuel local addr id reply src :
  (forall n, env_send n = None) -> env_recv 0 = Datagram reply src -> is_u16 id ->
  bare_header UtpPacket.State reply -> is_u16 (seq_nr reply) -> (seq_nr reply <> 0)%Z ->
  exists c, connect fuel addr (from_raw_parts udp_new local id) = (Ok tt, c) /\
    sent (socket c) = [(syn_packet id (clock_at 0), addr)] /\ state c = Connected /\
    sender_connection_id c = (generate_sequential_identifiers id).2 /\
    receiver_connection_id c = (generate_sequential_identifiers id).1 /\
    sk_seq_nr c = 2%Z /\ view c = View (seq_nr reply - 1) 0 [] [].
Proof.
  intros Hsend Hrecv Hid Hb Hs Hnz. pose proof Hb as (Hlen & _).
  destruct (fresh_socket udp_new local id) as (F1 & F2 & [= F3 F4 F5 F6] & F7 & F8 & F9 & F10).
  set (s0 := from_raw_parts udp_new local id) in *.
  unfold connect. rewrite bind_modify_run, bind_get_run. set (s1 := s0 <| connected_to := addr |>).
  change (sk_seq_nr s1) with (sk_seq_nr s0). change (receiver_connection_id s1) with (receiver_connection_id s0).
  change (congestion_timeout s1) with (congestion_timeout s0). rewrite F7, F8, F9. cbn zeta.
  match goal with |- context [syn_loop _ ?p _] =>
    destruct (syn_loop_answered 4 p INITIAL_CONGESTION_TIMEOUT s1 reply src) as (s2 & H2 & E2 & L2) end;
    [done|change (socket s1) with (socket s0); by rewrite F2|done|].
  change MAX_SYN_RETRIES with 5. rewrite (St_bind_ok _ _ _ _ _ H2), bind_get_run.
  rewrite take_ge by (rewrite Hlen; unfold HEADER_SIZE, BUF_SIZE; lia).
  rewrite (bare_header_accepted _ _ Hb). cbn [map_err]. rewrite bind_lift_run.
  change (socket s1) with (socket s0) in L2. rewrite F2 in L2. cbn in L2.
  destruct (syn_answered fuel reply (connected_to s2) s2) as (s3 & H3 & St3 & R3 & S3 & V3 & Q3 & L3);
    [done|done|done|rewrite E2; cbn; by rewrite F7|by rewrite E2|].
  rewrite (St_bind_ok _ _ _ _ _ H3). exists s3. split; [done|].
  rewrite E2 in R3, S3, V3, Q3. cbn in R3, S3, V3, Q3.
  split_and!; [by rewrite L3, L2|done|congruence|congruence|by rewrite Q3, F7|by rewrite V3, F4, F5, F6].
Qed.
End Handshake.

(** C31. A connection attempt that reaches a listener opens a connection whose
    two ends agree: the listener's new socket answers with one packet, and when
    that packet comes back the connecting socket is connected too, each end
    sends with the identifier the other expects, and each end's next sequence
    number is the one the other waits for.  The listener's random initial
    sequence number is assumed not to be 0, where the connecting end's
    subtraction underflows. *)
Theorem handshake_establishes (HE1 HE2 : UdpEnv) (HP : Profile) (fuel : nat) (id1 id2 : Z)
    (local caddr saddr saddr' : SocketAddr) :
  is_u16 id1 -> (forall n, @env_send HE1 n = None) -> (forall n, @env_send HE2 n = None) ->
  to_u16 (@env_rand HE2 0) <> 0%Z ->
  let syn := syn_packet id1 (@clock_at HE1 0) in
  exists srv reply,
    @accept HE2 HP fuel syn caddr (Ok tt) id2 = Ok (srv, caddr) /\
    sent (socket srv) = [(reply, caddr)] /\ state srv = Connected /\ view srv = View 1 1 [] [] /\
    (@env_recv HE1 0 = Datagram reply saddr' ->
     exists c, @connect HE1 HP fuel saddr (from_raw_parts udp_new local id1) = (Ok tt, c) /\
       sent (socket c) = [(syn, saddr)] /\ state c = Connected /\
       sender_connection_id c = receiver_connection_id srv /\
       receiver_connection_id c = sender_connection_id srv /\
       sk_seq_nr c = 2%Z /\ view c = View (sk_seq_nr srv - 1) 0 [] []).
Proof.
  intros Hid Hs1 Hs2 Hr syn.
  destruct (syn_packet_fields id1 (@clock_at HE1 0) Hid (now_microseconds_range _ _))
    as (Hb & Hseq & Hcid & Hrid & Hsid). fold syn in Hb, Hseq, Hcid.
  destruct (accept_run (HE := HE2) fuel syn caddr id2 Hs2 Hb)
    as (srv & r & Ha & Hsent & Hbr & Hq & Eq & St & V & R & S); [by rewrite Hseq|rewrite Hcid; unfold is_u16; lia|].
  rewrite Hseq in V. exists srv, r. split_and!; [done..|]. intros Hrecv.
  destruct (connect_run (HE := HE1) fuel local saddr id1 r saddr') as (c & Hc & Lc & Sc & Ic & Rc & Qc & Vc);
    [done|done|done|done|rewrite Hq, Eq; apply to_u16_range|by rewrite Hq, Eq|].
  exists c. split_and!; [done|done|done| | |done|by rewrite Vc, Hq].
  - by rewrite Ic, R, Hcid, Hsid.
  - by rewrite Rc, S, Hcid.
Qed.

(** The packets of [send_to] as a stream. *)
Lemma carried_stream s buf ps a :
  Forall is_u8 buf -> sk_seq_nr s = (a + 1)%Z -> (0 <= a)%Z ->
  (a + Z.of_nat (length (packet_chunks buf)) < 65535)%Z -> length ps = length (packet_chunks buf) ->
  (forall i c p, packet_chunks buf !! i = Some c -> ps !! i = Some p -> carries s i c p) ->
  Forall data_packet ps /\ (forall j p, ps !! j = Some p -> seq_nr p = (a + 1 + Z.of_nat j)%Z) /\
  Forall (fun p => connection_id p = sender_connection_id s) ps /\ chunk_of <$> ps = packet_chunks buf.
Proof.
  intros Hbuf Hseq Ha Hn Hl Hcar.
  destruct (chunks_spec (Z.to_nat MSS - HEADER_SIZE) buf) as [Hcat _]; [by vm_compute; lia|].
  fold (packet_chunks buf) in Hcat.
  assert (Hu : Forall (Forall is_u8) (packet_chunks buf)) by (apply Forall_concat; by rewrite Hcat).
  assert (Hg : forall j p, ps !! j = Some p -> exists c, packet_chunks buf !! j = Some c /\
    data_packet p /\ chunk_of p = c /\ seq_nr p = (a + 1 + Z.of_nat j)%Z /\
    connection_id p = sender_connection_id s).
  { intros j p Hp. pose proof (lookup_lt_Some _ _ _ Hp) as Hj.
    destruct (lookup_lt_is_Some_2 (packet_chunks buf) j ltac:(lia)) as [c Hc]. exists c. split; [done|].
    destruct (Hcar j c p Hc Hp) as (h & -> & Hb & Es & _ & Ec).
    destruct (bare_header_data h c Hb (Forall_lookup_1 _ _ _ _ Hu Hc)) as [Hd Hch].
    split_and!; [done|done| |done]. rewrite Es, Hseq. apply Z.mod_small. lia. }
  split_and!.
  - apply Forall_lookup. intros j p Hp. by destruct (Hg j p Hp) as (? & ? & ? & _).
  - intros j p Hp. by destruct (Hg j p Hp) as (? & ? & ? & ? & ? & _).
  - apply Forall_lookup. intros j p Hp. by destruct (Hg j p Hp) as (? & ? & ? & ? & ? & ?).
  - apply list_eq. intros j. rewrite list_lookup_fmap. destruct (ps !! j) as [p|] eqn:Hp.
    + destruct (Hg j p Hp) as (c & -> & _ & <- & _). done.
    + symmetry. apply lookup_ge_None_2. apply lookup_ge_None_1 in Hp. lia.
Qed.

(** C34. Every socket that was bound and used through its public methods is
    well-formed, whatever datagrams, timeouts and errors the network produces
    and in both build profiles: its fields are in the range of their types, the
    receive buffer is strictly ordered by sequence number and holds decoded
    data packets, the bytes in flight are those of the send window modulo 2^32,
    the congestion window is at least one segment and at most ten base delays
    are kept. *)
Theorem socket_invariant (HE : UdpEnv) (HP : Profile) (s : UtpSocket) :
  bytes_env -> reachable s -> sock_ok s.
Proof. intros Henv Hs. by apply socket_reachable_ok. Qed.

(** C2. Data written on one end is read on the other, complete and in order:
    [send_to] splits it into packets that leave in order with consecutive
    sequence numbers; when these packets arrive at the other end in any order,
    interleaved with reads, what is handed out at any time is a prefix of the
    data, and once all have arrived the following reads hand out all of it.
    The window has room for the data, reads are into buffers of at least a
    packet's payload, no packet arrives again after a later one was delivered,
    and sequence numbers do not wrap around. *)
Theorem transfer_in_order (HE1 HE2 : UdpEnv) (HP : Profile) (fuel : nat) (buf : bytes)
    (s r : UtpSocket) (sp : bytes -> M bytes) (a d0 : Z) (src : SocketAddr) :
  (forall n, @env_send HE1 n = None) -> (forall n, @env_send HE2 n = None) -> Forall is_u8 buf ->
  sock_ok s -> state s <> Closed -> unsent_queue s = [] ->
  (Z.of_nat (length (send_window s)) <= WINDOW_SIZE)%Z ->
  (curr_window s + Z.of_nat (length buf) + 20 * Z.of_nat (length (packet_chunks buf)) < max_inflight s)%Z ->
  (0 <= a)%Z -> (a + Z.of_nat (length (packet_chunks buf)) < 65535)%Z -> sk_seq_nr s = (a + 1)%Z ->
  is_u16 d0 -> (d0 <= a \/ a + Z.of_nat (length (packet_chunks buf)) < d0)%Z ->
  state r = Connected -> view r = View a d0 [] [] ->
  receiver_connection_id r = sender_connection_id s ->
  exists ps s',
    @send_to HE1 HP (S fuel) buf s = (Ok (length buf), s') /\
    sent (socket s') = sent (socket s) ++ ((fun p => (p, connected_to s)) <$> ps) /\
    forall es, events_ok ps (0, []) es ->
    exists outs r',
      @run_events HE2 HP sp src ps es r = (Ok outs, r') /\
      (exists rest, buf = concat outs ++ rest) /\
      ((forall j, j < length ps -> exists size, Arrive j size ∈ es) ->
       forall size, 1380 <= size ->
       exists outs2 r2,
         @run_events HE2 HP sp src ps (replicate (length ps) (ReadBuf size)) r' = (Ok outs2, r2) /\
         concat (outs ++ outs2) = buf).
Proof.
  intros Hs1 Hs2 Hbuf Hok Hst Hu Hwin Hroom Ha Hn Hseq Hd0 Hd0' Hrst Hrv Hrc.
  destruct (chunks_spec (Z.to_nat MSS - HEADER_SIZE) buf) as [Hcat Hsize]; [by vm_compute; lia|].
  fold (packet_chunks buf) in Hcat, Hsize.
  destruct (send_to_run (HE := HE1) Hs1 fuel buf s Hok Hst Hu Hwin Hroom) as (ps & s' & Hrun & Hl & Hcar & _ & Hsent).
  destruct (carried_stream s buf ps a Hbuf Hseq) as (Hdata & Hsq & Hconn & Hch); try done.
  rewrite <- Hl in Hn, Hd0'. exists ps, s'. split; [done|]. split; [done|]. intros es Hes.
  destruct (stream_delivered_in_order (HE := HE2) sp Hs2 a d0 (sender_connection_id s) src ps)
    with (es := es) (s := r) as (outs & r' & k & H1 & Hpre & _ & Hrest); try done.
  exists outs, r'. split; [done|]. rewrite Hch, Hcat in Hrest. split.
  - exists (concat (drop k (packet_chunks buf))). rewrite Hpre, fmap_take, Hch.
    by rewrite <- concat_app, take_drop.
  - intros Hall size Hbig. apply Hrest; [done|].
    assert (Hf : Forall (fun c : bytes => length c <= size) (chunk_of <$> ps)).
    { rewrite Hch. eapply Forall_impl; [exact Hsize|]. intros c [_ Hc].
      eapply Nat.le_trans; [exact Hc|exact Hbig]. }
    rewrite Forall_fmap in Hf. exact Hf.
Qed.

(** The reply to an out-of-order data packet tells the sender exactly what
    the receiver holds: it is a packet the decoder accepts, acknowledges the
    last packet in order, and has one extension, a selective acknowledgement
    whose bit [i] is set exactly when the packet [ack + 2 + i] is in the receive
    buffer.  The buffered packets are within the 2016 that one extension can
    describe. *)
Theorem sack_describes_buffer (HE : UdpEnv) (HP : Profile) (s : UtpSocket) (p q : bytes) :
  sock_ok s -> (sk_ack_nr s < 65535)%Z -> (1 < to_u16 (seq_nr p - sk_ack_nr s))%Z ->
  q ∈ incoming_buffer s -> (sk_ack_nr s + 1 < seq_nr q)%Z ->
  (forall x, x ∈ incoming_buffer s -> seq_nr x <= sk_ack_nr s + 2 + 2015)%Z ->
  exists reply s' it sack bits,
    handle_data_packet p s = (Ok reply, s') /\ Packet_try_from reply = Ok reply /\
    ack_nr reply = sk_ack_nr s /\ extensions reply = Ok it /\
    extension_collect (length reply + 1) it = Ok [{| ext_ty := SelectiveAck; ext_data := sack |}] /\
    bit_collect (8 * length sack + 1) (from_bytes sack) = Ok bits /\
    forall i, bits !! i = Some true <->
      exists x, x ∈ incoming_buffer s /\ seq_nr x = (sk_ack_nr s + 2 + Z.of_nat i)%Z.
Proof.
  intros Hok Hlt Hooo Hq Hqs Hall. pose proof Hok as [Hu16 _ _ _ _ Hd _ _ _ _].
  rewrite !Forall_cons in Hu16. destruct Hu16 as (_ & _ & _ & Ha & _).
  destruct (build_selective_ack_run s Ha Hlt Hd) as (sack & Hs & [Hm Hb Hl]).
  assert (Hlen : length sack < 256). { specialize (Hl 2015 Hall). change (2015 / 8) with 251 in Hl.
    destruct (decide (length sack = 255)) as [E|]; [rewrite E in Hm; done|lia]. }
  assert (Hbit : forall i, lsb_bit sack i = true -> i < length sack * 8).
  { intros i Hi. unfold lsb_bit in Hi. destruct (sack !! (i / 8)) eqn:E; [|simpl in Hi; by rewrite Z.bits_0 in Hi].
    apply lookup_lt_Some in E. pose proof (Nat.div_mod_eq i 8). pose proof (Nat.mod_upper_bound i 8). lia. }
  assert (Hne : sack <> []).
  { intros ->. assert (Hz : lsb_bit [] (Z.to_nat (seq_nr q - sk_ack_nr s - 2)) = true).
    { apply Hb. exists q. split; [done|]. lia. } apply Hbit in Hz. simpl in Hz. lia. }
  destruct (sack_reply_run p s sack Ha Hooo Hs Hne Hlen Hm) as (r & u & it & H1 & H2 & H3 & H4 & H5).
  exists r, (s <| socket := u |>), it, sack, (lsb_bit sack <$> seq 0 (length sack * 8)).
  split_and!; [exact H1|done..| |].
  - unfold from_bytes. rewrite bit_collect_spec by lia. by rewrite Nat.sub_0_r.
  - intros i. rewrite list_lookup_fmap, <- Hb. split.
    + intros (j & Hj & Hi)%fmap_Some. apply lookup_seq in Hj as [-> _]. done.
    + intros Hi. apply fmap_Some. exists i. split; [|done]. apply lookup_seq. split; [lia|]. by apply Hbit.
Qed.

(** C35. Congestion control keeps to its limits whatever the measured delays and
    the floating-point arithmetic give: an update leaves the congestion window
    between two segments and one segment more than what is in flight, and the
    congestion timeout between half a second and a minute. *)
Theorem congestion_bounds (HP : Profile) (s s' : UtpSocket) (f : f64) (n d : Z) :
  sock_ok s ->
  (update_congestion_window f n s = (Ok tt, s') ->
     is_u32 (cwnd s') /\ (2800 <= cwnd s' <= Z.max 2800 (curr_window s + 1400))%Z) /\
  (update_congestion_timeout d s = (Ok tt, s') -> (500 <= congestion_timeout s' <= 60000)%Z).
Proof.
  intros Hok. split.
  - intros H. destruct (update_congestion_window_run f n s (Ok tt) s') as (w & _ & -> & Hw & Hb); [|done|done|].
    + by apply ok_curr_window in Hok as [? _].
    + split; [done|]. exact Hb.
  - intros H. unfold update_congestion_timeout in H.
    repeat (apply St_bind_inv in H as (? & ? & _ & H)). injection H as <-. cbn.
    unfold MIN_CONGESTION_TIMEOUT, MAX_CONGESTION_TIMEOUT. lia.
Qed.

(** A peer that stays silent is given up: a receive returns after exactly
    the allowed number of retries, each with twice the timeout of the one
    before, with a timeout error and the socket closed. *)
Theorem silent_peer_given_up (HE : UdpEnv) (HP : Profile) (sp : bytes -> M bytes) (size : nat) (s : UtpSocket) :
  (forall n, env_send n = None) ->
  (forall n, exists e, env_recv n = RecvFailed e /\ is_timeout e = true) ->
  sock_ok s -> state s <> New -> (0 < congestion_timeout s)%Z ->
  (congestion_timeout s * 2 ^ max_retransmission_retries s < 18446744073709551616)%Z ->
  exists s', recv sp size s = (Err (io_of_SocketError ConnectionTimedOut), s') /\ state s' = Closed /\
    n_recv (socket s') = n_recv (socket s) + Z.to_nat (max_retransmission_retries s) /\
    congestion_timeout s' = (congestion_timeout s * 2 ^ max_retransmission_retries s)%Z.
Proof.
  intros Hsend Hsil Hok Hst Ht Hb. assert (Hm : is_u32 (max_retransmission_retries s)) by (ok_destruct; done).
  assert (Ez : Z.of_nat (Z.to_nat (max_retransmission_retries s)) = max_retransmission_retries s)
    by (unfold is_u32 in Hm; lia).
  destruct (recv_wait_silent Hsend Hsil (Z.to_nat (max_retransmission_retries s)) 0 s)
    as (s' & Hr & Hc & En & Ec); rewrite ?Ez; try done.
  exists s'. rewrite Ez in Ec. split; [|done]. unfold recv. rewrite bind_get_run.
  unfold mbind at 1, St_bind at 1. by rewrite Hr.
Qed.

(** One packet that arrives again after a later one was delivered stops the
    receiver for good: the old packet is buffered in front of everything else
    and is never taken out, so that no read ever returns data again, whatever
    packets of the connection arrive afterwards. *)
Theorem stale_packet_stalls (HE : UdpEnv) (HP : Profile) (sp : bytes -> M bytes) (a conn : Z)
    (src : SocketAddr) (stream : list bytes) (p0 : bytes) (size : nat) (es : list rx_event) (s : UtpSocket) :
  (forall n, env_send n = None) ->
  (0 <= a)%Z -> (a + Z.of_nat (length stream) < 65535)%Z -> Forall data_packet stream ->
  (forall j p, stream !! j = Some p -> seq_nr p = (a + 1 + Z.of_nat j)%Z) ->
  Forall (fun p => connection_id p = conn) stream ->
  data_packet p0 -> (seq_nr p0 < a)%Z -> connection_id p0 = conn ->
  view s = View a a [] [] -> state s = Connected -> receiver_connection_id s = conn ->
  Forall (fun e => match e with Arrive j _ => j < length stream | ReadBuf _ => True end) es ->
  exists s1 s2, recv_packet sp p0 src size s = (Ok ([], src), s1) /\
    run_events sp src stream es s1 = (Ok (replicate (length es) []), s2).
Proof.
  intros Hsend Ha Hn Hdata Hseq Hconn Hp0 Hold Hc0 Hv Hst Hc Hes.
  assert (Hu : is_u16 a) by (unfold is_u16; lia).
  destruct (stale_arrives sp Hsend a a conn src stream Ha Hn Hu p0 Hp0 Hold Hc0 size s Hv Hst Hc) as (s1 & H1 & Hs1).
  destruct (stalled_forever sp Hsend a a conn src stream) with (p0 := p0) (es := es) (s := s1)
    as (s2 & H2 & _); try done; [by left|]. eauto.
Qed.

(** * Concrete instances *)

Definition sample_addr : SocketAddr :=
  SockV4 {| v4_ip := Ipv4 127 0 0 1; v4_port := 6881 |}.
Definition time_out : IoError := {| kind := KTimedOut; description := String.EmptyString |}.

(** An environment in which sends succeed, the clock stands still and the n-th
    receive is [ev n]. *)
Definition sample_env (ev : nat -> RecvEvent) : UdpEnv :=
  {| env_recv := ev; env_send := fun _ => None; env_clock := fun _ => (1%Z, 0%Z);
     env_rand := fun _ => 300%Z; delay_to_f64 := fun d => Some (f64_of_Z d) |}.
Definition silent_env : UdpEnv := sample_env (fun _ => RecvFailed time_out).

Definition sample_bound : UtpSocket := from_raw_parts udp_new sample_addr 7.
Definition sample_connected : UtpSocket :=
  sample_bound <| state := Connected |> <| remote_wnd_size := 100000%Z |> <| cwnd := 100000%Z |>.

Lemma sample_connected_ok : sock_ok sample_connected.
Proof.
  pose proof (from_raw_parts_ok udp_new sample_addr 7 ltac:(unfold is_u16; lia)) as H.
  unfold sample_connected, sample_bound. ok_tac; unfold is_u32, MSS; lia.
Qed.

(** A data packet of the connection that [sample_connected] receives on. *)
Definition sample_data (seq : Z) (c : bytes) : bytes :=
  set_connection_id 7 (set_seq_nr seq (with_payload c)).

Lemma socket_invariant_witness : sock_ok (@run_call silent_env true 2 (CSend [1; 2; 3]%Z) sample_bound).2.
Proof.
  apply (socket_invariant silent_env true); [by intros n data src|].
  eapply (@reach_call silent_env true sample_bound 2 (CSend [1; 2; 3]%Z) (Ok tt));
    [apply reach_bound; unfold is_u16; lia|vm_compute; reflexivity|exact I].
Defined.

Definition sample_sender : UtpSocket := sample_connected <| sk_seq_nr := 2%Z |>.
Definition sample_receiver : UtpSocket :=
  sample_connected <| sk_ack_nr := 1%Z |> <| last_dropped := 1%Z |> <| receiver_connection_id := 8%Z |>.

(** The packets it sends, and an order of arrival with a repetition. *)
Definition sample_ps : list bytes :=
  fst <$> sent (socket (@send_to silent_env true 1 [10; 20; 30]%Z sample_sender).2).
Definition sample_events : list rx_event := [ReadBuf 1500; Arrive 0 1500; Arrive 0 1500; ReadBuf 1500].

Lemma transfer_in_order_witness :
  exists s' outs r' outs2 r2,
    @send_to silent_env true 1 [10; 20; 30]%Z sample_sender = (Ok 3, s') /\
    @run_events silent_env true (fun p => mret p) sample_addr sample_ps sample_events sample_receiver
      = (Ok outs, r') /\
    @run_events silent_env true (fun p => mret p) sample_addr sample_ps [ReadBuf 1500] r' = (Ok outs2, r2) /\
    concat (outs ++ outs2) = [10; 20; 30]%Z.
Proof.
  destruct (transfer_in_order silent_env silent_env true 0 [10; 20; 30]%Z sample_sender sample_receiver
    (fun p => mret p) 1 1 sample_addr) as (ps & s' & H1 & Hps & H2);
    try done; try (apply (bool_decide_unpack _); by vm_compute).
  - pose proof sample_connected_ok. unfold sample_sender. ok_tac.
  - assert (ps = sample_ps) as ->.
    { apply (f_equal (fmap fst)) in Hps. rewrite fmap_app, <- list_fmap_compose in Hps.
      unfold sample_ps. rewrite H1. cbn [snd]. rewrite Hps. symmetry. apply list_fmap_id. }
    destruct (H2 sample_events) as (outs & r' & H3 & _ & H4).
    { apply (bool_decide_unpack _). by vm_compute. }
    assert (Hl : length sample_ps = 1) by (by vm_compute).
    assert (Hall : forall j, j < length sample_ps -> exists size, Arrive j size ∈ sample_events).
    { intros j Hj. rewrite Hl in Hj. assert (j = 0) as -> by lia.
      exists 1500. apply list_elem_of_further, list_elem_of_here. }
    destruct (H4 Hall 1500) as (outs2 & r2 & H5 & H6);
      [apply Nat.leb_le; by vm_compute|]. rewrite Hl in H5.
    exists s', outs, r', outs2, r2. split; [exact H1|]. split; [exact H3|]. split; [exact H5|exact H6].
Defined.

(** A receiver that holds packet 5 and waits for packet 3. *)
Definition sample_gap : UtpSocket :=
  sample_connected <| sk_ack_nr := 2%Z |> <| incoming_buffer := [sample_data 5 [9%Z]] |>.

Lemma sample_data_ok : data_packet (sample_data 5 [9%Z]).
Proof.
  split; [apply (bool_decide_unpack _); by vm_compute|]. split; by vm_compute.
Qed.

Lemma sack_describes_buffer_witness :
  exists reply s' it sack bits,
    @handle_data_packet silent_env true (sample_data 6 [8%Z]) sample_gap = (Ok reply, s') /\
    extensions reply = Ok it /\
    extension_collect (length reply + 1) it = Ok [{| ext_ty := SelectiveAck; ext_data := sack |}] /\
    bit_collect (8 * length sack + 1) (from_bytes sack) = Ok bits /\ bits !! 1 = Some true.
Proof.
  destruct (sack_describes_buffer silent_env true sample_gap (sample_data 6 [8%Z]) (sample_data 5 [9%Z]))
    as (reply & s' & it & sack & bits & H1 & _ & _ & H2 & H3 & H4 & H5).
  - pose proof sample_connected_ok. pose proof sample_data_ok. unfold sample_gap. ok_tac; repeat constructor; done.
  - by vm_compute.
  - by vm_compute.
  - apply list_elem_of_here.
  - by vm_compute.
  - intros x ->%list_elem_of_singleton. by vm_compute.
  - exists reply, s', it, sack, bits. split_and!; try done. apply H5. exists (sample_data 5 [9%Z]).
    split; [apply list_elem_of_here|by vm_compute].
Defined.

Lemma congestion_bounds_witness :
  let s' := (@update_congestion_window true (f64_of_Z 1) 500 sample_connected).2 in
  is_u32 (cwnd s') /\ (2800 <= cwnd s' <= Z.max 2800 (curr_window sample_connected + 1400))%Z.
Proof.
  intros s'. apply (congestion_bounds true sample_connected s' (f64_of_Z 1) 500 20 sample_connected_ok).
  by vm_compute.
Defined.

Lemma silent_peer_given_up_witness :
  exists s', @recv silent_env true (fun p => mret p) 1500 sample_connected
    = (Err (io_of_SocketError ConnectionTimedOut), s') /\ state s' = Closed /\
    n_recv (socket s') = 5 /\ congestion_timeout s' = 64000%Z.
Proof.
  apply (silent_peer_given_up silent_env true (fun p => mret p) 1500 sample_connected); try done.
  - intros n. by exists time_out.
  - apply sample_connected_ok.
Defined.

(** A connection that has delivered up to packet 5. *)
Definition sample_at_5 : UtpSocket := sample_connected <| sk_ack_nr := 5%Z |> <| last_dropped := 5%Z |>.

Lemma stale_packet_stalls_witness :
  exists s1 s2,
    @recv_packet silent_env true (fun p => mret p) (sample_data 3 [1%Z]) sample_addr 1500 sample_at_5
      = (Ok ([], sample_addr), s1) /\
    @run_events silent_env true (fun p => mret p) sample_addr [sample_data 6 [2%Z]]
      [Arrive 0 1500; ReadBuf 1500] s1 = (Ok [[]; []], s2).
Proof.
  apply (stale_packet_stalls silent_env true (fun p => mret p) 5 7 sample_addr [sample_data 6 [2%Z]]
    (sample_data 3 [1%Z]) 1500 [Arrive 0 1500; ReadBuf 1500] sample_at_5); try done; try (by vm_compute).
  - constructor; [|constructor]. split; [apply (bool_decide_unpack _); by vm_compute|split; by vm_compute].
  - intros [|j] p Hp; simplify_eq/=. by vm_compute.
  - constructor; [by vm_compute|constructor].
  - split; [apply (bool_decide_unpack _); by vm_compute|split; by vm_compute].
  - repeat constructor.
Defined.

(** The answer of a listener to the SYN of [sample_bound]. *)
Definition sample_reply : bytes :=
  match @accept silent_env true 1 (syn_packet 7 (@clock_at silent_env 0)) sample_addr (Ok tt) 9 with
  | Ok (srv, _) => match sent (socket srv) with (r, _) :: _ => r | [] => [] end
  | _ => []
  end.
Definition answering_env : UdpEnv := sample_env (fun _ => Datagram sample_reply sample_addr).

Lemma handshake_establishes_witness :
  exists srv c,
    @accept silent_env true 1 (syn_packet 7 (@clock_at answering_env 0)) sample_addr (Ok tt) 9
      = Ok (srv, sample_addr) /\
    @connect answering_env true 1 sample_addr sample_bound = (Ok tt, c) /\ state c = Connected /\
    sender_connection_id c = receiver_connection_id srv.
Proof.
  destruct (handshake_establishes answering_env silent_env true 1 7 9 sample_addr sample_addr sample_addr
    sample_addr) as (srv & reply & H1 & H2 & _ & _ & H3); try done; try (by vm_compute).
  assert (reply = sample_reply) as ->.
  { unfold sample_reply. change (@clock_at silent_env 0) with (@clock_at answering_env 0). by rewrite H1, H2. }
  destruct (H3 eq_refl) as (c & Hc & _ & Hst & Hid & _). exists srv, c. done.
Defined.

(** When the pending rest of a packet is used up, the next buffered packet is
    taken whatever its sequence number: here packet 7 follows packet 5, and
    packet 6, still missing, is acknowledged. *)
Example drained_pending_skips_gap :
  let s := sample_at_5 <| pending_data := [1%Z] |> <| incoming_buffer := [sample_data 7 [2%Z]] |> in
  let r := @flush_incoming_buffer true 1500 s in
  r.1 = Ok [1%Z] /\ sk_ack_nr r.2 = 7%Z /\ pending_data r.2 = [2%Z].
Proof. by vm_compute. Qed.

(** The answer to a SYN with sequence number 0 panics with overflow checks. *)
Example syn_answer_zero_panics :
  (@handle_packet silent_env true (fun p => mret p)
     (set_type UtpPacket.State (sample_data 0 [])) sample_addr (sample_bound <| state := SynSent |>)).1 = Panic.
Proof. by vm_compute. Qed.
