(* ===== verification/TransIds.v ===== *)
(** TransIds: transaction identifiers.

    The shuffle of [btp-util/src/lib.rs], the generators of
    [btp-util/src/trans] and the two-level identifiers of
    [btp-dht/src/transaction.rs].  A function that draws random numbers takes
    them as an argument: [rng i] is the i-th number it draws. *)

From stdpp Require Import base list sorting.
From Stdlib Require Import ZArith Lia.
From S2P Require Import Prelude Effects Convert.

(** * [fisher_shuffle] *)

Section Shuffle.
Context {E A : Type}.

(** One turn of [fisher_shuffle]: the two elements are moved out, leaving the
    default value behind, and put back exchanged. *)
Definition shuffle_swap (dflt : A) (rng : nat -> Z) (l : list A) (i : nat) : outcome E (list A) :=
  let swap_index := Z.to_nat (rng i mod Z.of_nat (length l - i)) + i in
  src_val ← index l i;
  let l := <[i := dflt]> l in
  dst_val ← index l swap_index;
  let l := <[swap_index := dflt]> l in
  let l := <[i := dst_val]> l in
  Ok (<[swap_index := src_val]> l).

Definition fisher_shuffle (dflt : A) (rng : nat -> Z) (l : list A) : outcome E (list A) :=
  fold_left (fun acc i => l ← acc; shuffle_swap dflt rng l i) (seq 0 (length l)) (Ok l).

(** One turn of [fisher_shuffle_copy]. *)
Definition shuffle_copy_swap (rng : nat -> Z) (l : list A) (i : nat) : outcome E (list A) :=
  let swap_index := Z.to_nat (rng i mod Z.of_nat (length l - i)) + i in
  temp ← index l i;
  v ← index l swap_index;
  Ok (<[swap_index := temp]> (<[i := v]> l)).

Definition fisher_shuffle_copy (rng : nat -> Z) (l : list A) : outcome E (list A) :=
  fold_left (fun acc i => l ← acc; shuffle_copy_swap rng l i) (seq 0 (length l)) (Ok l).
End Shuffle.

(** * Generators of [btp-util/src/trans]

    [T] is an integer type with the values from [min_value] to [max_value]. *)

Record IntType := { min_value : Z; max_value : Z }.
Definition wrap (T : IntType) (z : Z) : Z :=
  (min_value T + (z - min_value T) mod (max_value T - min_value T + 1))%Z.
Definition U8 : IntType := {| min_value := 0; max_value := 255 |}.
Definition U32 : IntType := {| min_value := 0; max_value := 4294967295 |}.
Definition U64 : IntType := {| min_value := 0; max_value := 18446744073709551615 |}.

Definition TRANSACTION_ID_PREALLOC_LEN : nat := 2048.

(** The trait [TransactionIds]. *)
Class TransactionIds (G : Type) := {
  ids_generate : forall (E : Type) (T : IntType) (rng : nat -> Z), G -> outcome E (Z * G)
}.

Record SequentialIds := { next_id : Z }.
Definition SequentialIds_start_at (start : Z) : SequentialIds := {| next_id := start |}.
Definition SequentialIds_new : SequentialIds := SequentialIds_start_at 0.
Definition sequential_generate (T : IntType) (s : SequentialIds) : Z * SequentialIds :=
  (next_id s, {| next_id := wrap T (next_id s + 1) |}).

Record LocallyShuffledIds := { sequential : SequentialIds; stored_ids : list Z }.
Definition LocallyShuffledIds_start_at (start : Z) : LocallyShuffledIds :=
  {| sequential := SequentialIds_start_at start; stored_ids := [] |}.
Definition LocallyShuffledIds_new : LocallyShuffledIds := LocallyShuffledIds_start_at 0.

(** The loop of [refill_stored_ids], with [n] identifiers left to generate. *)
Fixpoint refill_loop (T : IntType) (n : nat) (contains_min_value contains_max_value : bool)
    (s : SequentialIds) (stored : list Z) : list Z * SequentialIds :=
  match n with
  | 0 => (stored, s)
  | S n' =>
      if negb contains_min_value || negb contains_max_value then
        let (next_id, s) := sequential_generate T s in
        refill_loop T n' (contains_min_value || (next_id =? min_value T)%Z)
          (contains_max_value || (next_id =? max_value T)%Z) s (stored ++ [next_id])
      else (stored, s)
  end.

Definition refill_stored_ids {E} (T : IntType) (rng : nat -> Z) (l : LocallyShuffledIds)
    : outcome E LocallyShuffledIds :=
  let (stored, s) := refill_loop T TRANSACTION_ID_PREALLOC_LEN false false (sequential l) [] in
  stored ← fisher_shuffle 0%Z rng stored;
  Ok {| sequential := s; stored_ids := stored |}.

(** [generate] of the shuffled generator: the last stored identifier, after a
    refill if there is none. *)
Fixpoint shuffled_generate {E} (fuel : nat) (T : IntType) (rng : nat -> Z) (l : LocallyShuffledIds)
    : outcome E (Z * LocallyShuffledIds) :=
  match fuel with
  | 0 => NoFuel
  | S fuel =>
      match last (stored_ids l) with
      | Some id => Ok (id, {| sequential := sequential l; stored_ids := take (length (stored_ids l) - 1) (stored_ids l) |})
      | None => l ← refill_stored_ids T rng l; shuffled_generate fuel T rng l
      end
  end.

#[global] Instance SequentialIds_ids : TransactionIds SequentialIds :=
  {| ids_generate := fun E T _ s => Ok (sequential_generate T s) |}.
#[global] Instance LocallyShuffledIds_ids : TransactionIds LocallyShuffledIds :=
  {| ids_generate := fun E T rng l => shuffled_generate 2 T rng l |}.

(** ** [trans/old.rs] *)

Record TIDGenerator := { tid_next_alloc : Z; tid_curr_index : nat; trans_ids : list Z }.

(** The loop over the slots: consecutive identifiers from [next_tid]. *)
Fixpoint tid_block (T : IntType) (n : nat) (next_tid : Z) : list Z :=
  match n with
  | 0 => []
  | S n' => next_tid :: tid_block T n' (wrap T (next_tid + 1))
  end.

(** [NumCast::from(TRANSACTION_ID_PREALLOC_LEN)] *)
Definition cast_prealloc (T : IntType) : option Z :=
  let len := Z.of_nat TRANSACTION_ID_PREALLOC_LEN in
  if (len <=? max_value T)%Z then Some len else None.

Definition generate_tids (T : IntType) (curr_alloc : Z) : Z * list Z :=
  let '(next_alloc_start, next_alloc_end) :=
    match cast_prealloc T with
    | Some alloc_len =>
        if (curr_alloc =? max_value T)%Z then (min_value T, alloc_len)
        else (curr_alloc, wrap T (curr_alloc + alloc_len))
    | None => (curr_alloc, curr_alloc)
    end in
  (next_alloc_end, tid_block T TRANSACTION_ID_PREALLOC_LEN next_alloc_start).

Definition TIDGenerator_new {E} (T : IntType) (rng : nat -> Z) : outcome E TIDGenerator :=
  let (next_alloc, ids) := generate_tids T (min_value T) in
  ids ← fisher_shuffle_copy rng ids;
  Ok {| tid_next_alloc := next_alloc; tid_curr_index := 0; trans_ids := ids |}.

Fixpoint tid_generate {E} (fuel : nat) (T : IntType) (rng : nat -> Z) (g : TIDGenerator)
    : outcome E (Z * TIDGenerator) :=
  match fuel with
  | 0 => NoFuel
  | S fuel =>
      match trans_ids g !! tid_curr_index g with
      | Some id => Ok (id, {| tid_next_alloc := tid_next_alloc g; tid_curr_index := S (tid_curr_index g);
                              trans_ids := trans_ids g |})
      | None =>
          let (next_alloc, ids) := generate_tids T (tid_next_alloc g) in
          ids ← fisher_shuffle_copy rng ids;
          tid_generate fuel T rng {| tid_next_alloc := next_alloc; tid_curr_index := 0; trans_ids := ids |}
      end
  end.

(** * [btp-dht/src/transaction.rs] *)

Definition ACTION_ID_BYTES : nat := 5.
Definition MESSAGE_ID_BYTES : nat := 3.
Definition TRANSACTION_ID_BYTES : nat := ACTION_ID_BYTES + MESSAGE_ID_BYTES.
Definition ACTION_ID_SHIFT : Z := 40.
Definition MAX_ACTION_ID : Z := 1099511627776.
Definition MESSAGE_ID_SHIFT : Z := 24.
Definition MAX_MESSAGE_ID : Z := 16777216.
Definition ID_PREALLOC_LEN : nat := 2048.

Record ActionID := { act_id : Z }.
Record MessageID := { message_id : Z }.
Record TransactionID := { trans_id : Z; trans_id_bytes : bytes }.

Definition ActionID_from_transaction_id (trans_id : Z) : ActionID :=
  {| act_id := Z.shiftr trans_id MESSAGE_ID_SHIFT |}.
Definition MessageID_from_transaction_id (trans_id : Z) : MessageID :=
  {| message_id := Z.land trans_id (MAX_MESSAGE_ID - 1) |}.

Definition TransactionID_new (trans_id : Z) : TransactionID :=
  {| trans_id := trans_id; trans_id_bytes := eight_bytes_to_array trans_id |}.
Definition TransactionID_from_bytes (bs : bytes) : option TransactionID :=
  if length bs =? TRANSACTION_ID_BYTES then
    Some (TransactionID_new (fold_left (fun trans_id byte => Z.lor (to_u64 (Z.shiftl trans_id 8)) byte) bs 0%Z))
  else None.
Definition action_id (t : TransactionID) : ActionID := ActionID_from_transaction_id (trans_id t).
Definition TransactionID_message_id (t : TransactionID) : MessageID :=
  MessageID_from_transaction_id (trans_id t).

(** The block of preallocated identifiers that both generators keep, with the
    index of the next one and the allocation marker. *)
Record IdBlock := { next_alloc : Z; curr_index : nat; block_ids : list Z }.

(** The [for] loop of [generate_aids] and [generate_mids]. *)
Fixpoint fill_slots {E} (arr : list Z) (index : nat) (ids : list Z) : outcome E (list Z) :=
  match ids with
  | [] => Ok arr
  | id :: ids =>
      if index <? length arr then fill_slots (<[index := id]> arr) (S index) ids else Panic
  end.

Section Generators.
Context `{Profile} {E : Type}.

(** [generate_aids] and [generate_mids], which differ in the maximum only. *)
Definition generate_ids (max next_alloc : Z) : outcome E (Z * list Z) :=
  '(next_alloc_start, next_alloc_end) ←
    (if (next_alloc =? max)%Z then Ok (0, Z.of_nat ID_PREALLOC_LEN)%Z
     else e ← u64_arith (next_alloc + Z.of_nat ID_PREALLOC_LEN); Ok (next_alloc, e));
  ids ← fill_slots (replicate ID_PREALLOC_LEN 0%Z) 0 (seqZ next_alloc_start (next_alloc_end - next_alloc_start));
  Ok (next_alloc_end, ids).
Definition generate_aids : Z -> outcome E (Z * list Z) := generate_ids MAX_ACTION_ID.
Definition generate_mids : Z -> outcome E (Z * list Z) := generate_ids MAX_MESSAGE_ID.

(** The body that [AIDGenerator::generate] and [MIDGenerator::generate] share:
    the next identifier of the block, or a new block. *)
Fixpoint block_generate (fuel : nat) (gen : Z -> outcome E (Z * list Z)) (rng : nat -> Z) (b : IdBlock)
    : outcome E (Z * IdBlock) :=
  match fuel with
  | 0 => NoFuel
  | S fuel =>
      match block_ids b !! curr_index b with
      | Some id =>
          Ok (id, {| next_alloc := next_alloc b; curr_index := S (curr_index b); block_ids := block_ids b |})
      | None =>
          '(next_alloc, ids) ← gen (next_alloc b);
          ids ← fisher_shuffle 0%Z rng ids;
          block_generate fuel gen rng {| next_alloc := next_alloc; curr_index := 0; block_ids := ids |}
      end
  end.

Definition AIDGenerator : Type := IdBlock.
Record MIDGenerator := { mid_action_id : Z; mid_block : IdBlock }.

Definition AIDGenerator_new (rng : nat -> Z) : outcome E AIDGenerator :=
  '(next_alloc, action_ids) ← generate_aids 0;
  action_ids ← fisher_shuffle 0%Z rng action_ids;
  Ok {| next_alloc := next_alloc; curr_index := 0; block_ids := action_ids |}.

Definition MIDGenerator_new (action_id : Z) : MIDGenerator :=
  {| mid_action_id := action_id;
     mid_block := {| next_alloc := 0; curr_index := ID_PREALLOC_LEN; block_ids := replicate ID_PREALLOC_LEN 0%Z |} |}.
Definition MIDGenerator_action_id (g : MIDGenerator) : ActionID := ActionID_from_transaction_id (mid_action_id g).

Definition aid_generate (rng : nat -> Z) (g : AIDGenerator) : outcome E (MIDGenerator * AIDGenerator) :=
  '(action_id, g) ← block_generate 2 generate_aids rng g;
  Ok (MIDGenerator_new (to_u64 (Z.shiftl action_id MESSAGE_ID_SHIFT)), g).

Definition mid_generate (rng : nat -> Z) (g : MIDGenerator) : outcome E (TransactionID * MIDGenerator) :=
  '(message_id, b) ← block_generate 2 generate_mids rng (mid_block g);
  Ok (TransactionID_new (Z.lor (mid_action_id g) message_id), {| mid_action_id := mid_action_id g; mid_block := b |}).
End Generators.

(** * Shuffling permutes *)

Section ShuffleLemmas.
Context {E A : Type}.

Lemma swap_index_lt (r : Z) (n i : nat) : i < n -> Z.to_nat (r mod Z.of_nat (n - i)) + i < n.
Proof. intros Hi. pose proof (Z.mod_pos_bound r (Z.of_nat (n - i))). lia. Qed.

Lemma shuffle_swap_perm (dflt : A) rng l i :
  i < length l -> exists l', @shuffle_swap E A dflt rng l i = Ok l' /\ l' ≡ₚ l.
Proof.
  intros Hi. unfold shuffle_swap. pose proof (swap_index_lt (rng i) (length l) i Hi) as Hj.
  set (j := _ + i) in *. destruct (lookup_lt_is_Some_2 l i Hi) as [a Ha].
  destruct (lookup_lt_is_Some_2 l j Hj) as [b Hb].
  rewrite (index_Some _ _ _ Ha), mbind_ok. destruct (decide (i = j)) as [<-|Hij].
  - rewrite (index_Some _ _ dflt) by (by apply list_lookup_insert_eq). rewrite mbind_ok.
    eexists. split; [done|]. rewrite !list_insert_insert_eq, (list_insert_id l i a Ha). done.
  - rewrite (index_Some _ _ b) by (by rewrite list_lookup_insert_ne). rewrite mbind_ok.
    eexists. split; [done|].
    rewrite (list_insert_insert_ne (<[i:=dflt]> l) i j), list_insert_insert_eq by done.
    rewrite list_insert_insert_eq. by apply Permutation_insert_swap.
Qed.

Lemma shuffle_copy_swap_perm rng (l : list A) i :
  i < length l -> exists l', @shuffle_copy_swap E A rng l i = Ok l' /\ l' ≡ₚ l.
Proof.
  intros Hi. unfold shuffle_copy_swap. pose proof (swap_index_lt (rng i) (length l) i Hi) as Hj.
  destruct (lookup_lt_is_Some_2 l i Hi) as [a Ha]. destruct (lookup_lt_is_Some_2 l _ Hj) as [b Hb].
  rewrite (index_Some _ _ _ Ha), mbind_ok, (index_Some _ _ _ Hb), mbind_ok.
  eexists. split; [done|]. by apply Permutation_insert_swap.
Qed.

(** A loop of turns that each permute the list permutes it. *)
Lemma turns_perm (f : list A -> nat -> outcome E (list A)) (idx : list nat) (l : list A) :
  (forall l i, i < length l -> exists l', f l i = Ok l' /\ l' ≡ₚ l) ->
  (forall i, i ∈ idx -> i < length l) ->
  exists l', fold_left (fun acc i => l ← acc; f l i) idx (Ok l) = Ok l' /\ l' ≡ₚ l.
Proof.
  intros Hf. revert l. induction idx as [|i idx IH]; intros l Hi; simpl; [by exists l|].
  destruct (Hf l i) as (l1 & -> & Hp); [apply Hi, list_elem_of_here|].
  destruct (IH l1) as (l2 & H2 & Hp2).
  - intros j Hj. rewrite Hp. apply Hi. by apply list_elem_of_further.
  - exists l2. split; [done|]. by rewrite Hp2.
Qed.

Lemma fisher_shuffle_perm (dflt : A) rng l :
  exists l', @fisher_shuffle E A dflt rng l = Ok l' /\ l' ≡ₚ l.
Proof.
  apply turns_perm; [intros; by apply shuffle_swap_perm|]. intros i Hi%elem_of_seq. lia.
Qed.

Lemma fisher_shuffle_copy_perm rng (l : list A) :
  exists l', @fisher_shuffle_copy E A rng l = Ok l' /\ l' ≡ₚ l.
Proof.
  apply turns_perm; [intros; by apply shuffle_copy_swap_perm|]. intros i Hi%elem_of_seq. lia.
Qed.
End ShuffleLemmas.

(** * The blocks of the DHT generators *)

Lemma fill_slots_app {E} (pre rest ids : list Z) :
  length ids = length rest -> @fill_slots E (pre ++ rest) (length pre) ids = Ok (pre ++ ids).
Proof.
  revert pre rest. induction ids as [|id ids IH]; intros pre rest Hl.
  - destruct rest; [done|discriminate].
  - destruct rest as [|x rest]; [discriminate|]. simpl. rewrite length_app. simpl.
    destruct (Nat.ltb_spec (length pre) (length pre + S (length rest))); [|lia].
    rewrite insert_app_r_alt, Nat.sub_diag by lia. simpl.
    specialize (IH (pre ++ [id]) rest). rewrite length_app, <- !app_assoc in IH. simpl in IH.
    rewrite Nat.add_1_r in IH. apply IH. simpl in Hl. lia.
Qed.

Lemma generate_ids_run `{Profile} {E} (max a : Z) :
  (0 <= a <= max)%Z -> is_u64 (max + Z.of_nat ID_PREALLOC_LEN) ->
  let start := if (a =? max)%Z then 0%Z else a in
  @generate_ids _ E max a =
    Ok (start + Z.of_nat ID_PREALLOC_LEN, seqZ start (Z.of_nat ID_PREALLOC_LEN))%Z.
Proof.
  intros Ha Hmax start. unfold generate_ids, start. unfold is_u64 in Hmax.
  assert (Hfill : forall s, @fill_slots E (replicate ID_PREALLOC_LEN 0%Z) 0
    (seqZ s (Z.of_nat ID_PREALLOC_LEN)) = Ok (seqZ s (Z.of_nat ID_PREALLOC_LEN))).
  { intros s. apply (fill_slots_app [] (replicate ID_PREALLOC_LEN 0%Z)).
    rewrite length_seqZ, length_replicate, Nat2Z.id. done. }
  destruct (Z.eqb_spec a max) as [->|Hne].
  - rewrite mbind_ok. cbn beta iota. rewrite Z.sub_0_r, Hfill. done.
  - rewrite u64_arith_in by (unfold is_u64; lia). cbn beta iota. rewrite !mbind_ok. cbn beta iota.
    replace (a + Z.of_nat ID_PREALLOC_LEN - a)%Z with (Z.of_nat ID_PREALLOC_LEN) by lia.
    rewrite Hfill. done.
Qed.

(** The identifiers handed out and those still in the block are the ones below
    the allocation marker. *)
Record block_inv (max : Z) (b : IdBlock) (used : list Z) : Prop := {
  bi_ids : used ++ drop (curr_index b) (block_ids b) ≡ₚ seqZ 0 (next_alloc b);
  bi_range : (0 <= next_alloc b <= max)%Z;
  bi_aligned : (Z.of_nat ID_PREALLOC_LEN | next_alloc b)%Z
}.

Definition max_ok (max : Z) : Prop :=
  (0 < max)%Z /\ (Z.of_nat ID_PREALLOC_LEN | max)%Z /\ is_u64 (max + Z.of_nat ID_PREALLOC_LEN).

Section BlockLemmas.
Context `{Profile} {E : Type} (max : Z) (Hmax : max_ok max).

Lemma block_inv_facts b used :
  block_inv max b used -> NoDup used /\ Forall (fun id => 0 <= id < max)%Z used /\
    Z.of_nat (length used) = (next_alloc b - Z.of_nat (length (drop (curr_index b) (block_ids b))))%Z.
Proof.
  intros [Hp Hr _]. pose proof (NoDup_seqZ 0 (next_alloc b)) as Hn. rewrite <- Hp in Hn.
  apply NoDup_app in Hn as (Hn & _ & _). split_and!; [done| |].
  - apply Forall_forall. intros id Hid.
    assert (Hi : id ∈ seqZ 0 (next_alloc b)) by (rewrite <- Hp; apply elem_of_app; by left).
    apply elem_of_seqZ in Hi. lia.
  - apply Permutation_length in Hp. rewrite length_app, length_seqZ in Hp. lia.
Qed.

Lemma block_next fuel gen rng b id rest used :
  block_inv max b used -> drop (curr_index b) (block_ids b) = id :: rest ->
  exists b', @block_generate E (S fuel) gen rng b = Ok (id, b') /\ block_inv max b' (used ++ [id]).
Proof.
  intros [Hp Hr Ha] Hd. simpl.
  assert (Hid : block_ids b !! curr_index b = Some id).
  { rewrite <- (Nat.add_0_r (curr_index b)), <- lookup_drop, Hd. done. }
  rewrite Hid. eexists. split; [done|]. split; simpl; [|done..].
  rewrite <- app_assoc. by rewrite (drop_S _ _ _ Hid) in Hp.
Qed.

Lemma block_refill rng b used :
  block_inv max b used -> block_ids b !! curr_index b = None -> (Z.of_nat (length used) < max)%Z ->
  exists b', @block_generate E 2 (generate_ids max) rng b = @block_generate E 1 (generate_ids max) rng b' /\
    block_inv max b' used /\ drop (curr_index b') (block_ids b') <> [].
Proof.
  intros Hb Hnone Hlt. destruct (block_inv_facts b used Hb) as (_ & _ & Hlen).
  destruct Hb as [Hp Hr Ha]. pose proof Hmax as (Hpos & Hdiv & Hu).
  apply lookup_ge_None in Hnone. rewrite drop_ge in Hp, Hlen by done. simpl in Hlen. rewrite app_nil_r in Hp.
  unfold block_generate at 1. rewrite (lookup_ge_None_2 _ _ Hnone).
  rewrite generate_ids_run by done. rewrite mbind_ok. cbn beta iota.
  destruct (Z.eqb_spec (next_alloc b) max) as [Hm|]; [exfalso; clear - Hlt Hlen Hm; lia|].
  destruct (fisher_shuffle_perm (E := E) 0%Z rng (seqZ (next_alloc b) (Z.of_nat ID_PREALLOC_LEN))) as (ids & -> & Hids).
  rewrite mbind_ok. eexists. split; [reflexivity|]. cbn [curr_index block_ids next_alloc].
  assert (Hle : (next_alloc b + Z.of_nat ID_PREALLOC_LEN <= max)%Z).
  { destruct Ha as [x Hx], Hdiv as [y Hy]. set (k := Z.of_nat ID_PREALLOC_LEN) in *.
    assert (0 < k)%Z by done. assert (x < y)%Z by nia. nia. }
  split; [split; cbn [curr_index block_ids next_alloc]|].
  - rewrite drop_0, Hp, Hids, seqZ_app by lia. by rewrite Z.add_0_l.
  - lia.
  - by apply Z.divide_add_r.
  - rewrite drop_0. intros ->. apply Permutation_length in Hids. rewrite length_seqZ in Hids. done.
Qed.

(** A generator that has handed out fewer identifiers than there are hands out
    one that it has not handed out before. *)
Lemma block_generate_fresh rng b used :
  block_inv max b used -> (Z.of_nat (length used) < max)%Z ->
  exists id b', @block_generate E 2 (generate_ids max) rng b = Ok (id, b') /\
    block_inv max b' (used ++ [id]).
Proof.
  intros Hb Hlt. destruct (block_ids b !! curr_index b) as [id|] eqn:Hid.
  - destruct (block_next 1 (generate_ids max) rng b id (drop (S (curr_index b)) (block_ids b)) used Hb)
      as (b' & H1 & H2); [by apply drop_S|]. eauto.
  - destruct (block_refill rng b used Hb Hid Hlt) as (b1 & -> & Hb1 & Hd).
    destruct (drop (curr_index b1) (block_ids b1)) as [|id rest] eqn:E1; [done|].
    destruct (block_next 0 (generate_ids max) rng b1 id rest used Hb1 E1) as (b' & H1 & H2). eauto.
Qed.

Lemma fresh_block (b : IdBlock) :
  next_alloc b = 0%Z -> drop (curr_index b) (block_ids b) = [] -> block_inv max b [].
Proof.
  intros E0 Hd. split; rewrite ?Hd, E0; [done| |by apply Z.divide_0_r]. destruct Hmax. lia.
Qed.
End BlockLemmas.

Lemma max_action_ok : max_ok MAX_ACTION_ID.
Proof. split; [done|]. split; [|done]. by exists 536870912%Z. Qed.
Lemma max_message_ok : max_ok MAX_MESSAGE_ID.
Proof. split; [done|]. split; [|done]. by exists 8192%Z. Qed.

(** * Transaction identifiers of a node

    A node starts actions, each with a generator of its own, and sends messages
    for them in any order. *)

Inductive id_event : Type :=
  | NewAction (rng : nat -> Z)
  | NewMessage (action : nat) (rng : nat -> Z).

Record IdWorld := { w_aid : AIDGenerator; w_mids : list MIDGenerator }.

Section World.
Context `{Profile} {E : Type}.

Definition id_step (e : id_event) (w : IdWorld) : outcome E (list (nat * TransactionID) * IdWorld) :=
  match e with
  | NewAction rng =>
      '(m, a) ← aid_generate rng (w_aid w);
      Ok ([], {| w_aid := a; w_mids := w_mids w ++ [m] |})
  | NewMessage i rng =>
      m ← index (w_mids w) i;
      '(t, m) ← mid_generate rng m;
      Ok ([(i, t)], {| w_aid := w_aid w; w_mids := <[i := m]> (w_mids w) |})
  end.

Fixpoint run_ids (es : list id_event) (w : IdWorld) : outcome E (list (nat * TransactionID) * IdWorld) :=
  match es with
  | [] => Ok ([], w)
  | e :: es =>
      '(out, w) ← id_step e w;
      '(outs, w) ← run_ids es w;
      Ok (out ++ outs, w)
  end.

(** The numbers of actions and of messages for action [i]. *)
Fixpoint actions_of (es : list id_event) : nat :=
  match es with
  | [] => 0
  | NewAction _ :: es => S (actions_of es)
  | NewMessage _ _ :: es => actions_of es
  end.
Fixpoint messages_of (i : nat) (es : list id_event) : nat :=
  match es with
  | [] => 0
  | NewMessage j _ :: es => (if decide (j = i) then 1 else 0) + messages_of i es
  | NewAction _ :: es => messages_of i es
  end.

(** Events in order: a message belongs to an action started before. *)
Fixpoint events_in_order (n : nat) (es : list id_event) : Prop :=
  match es with
  | [] => True
  | NewAction _ :: es => events_in_order (S n) es
  | NewMessage i _ :: es => i < n /\ events_in_order n es
  end.

(** The message numbers used for action [i]. *)
Definition used_of (i : nat) (outs : list (nat * TransactionID)) : list Z :=
  (fun o => (trans_id o.2 mod MAX_MESSAGE_ID)%Z) <$> filter (fun o => o.1 = i) outs.

Definition shifted (a : Z) : Z := (a * MAX_MESSAGE_ID)%Z.

Record world_inv (w : IdWorld) (aids : list Z) (outs : list (nat * TransactionID)) : Prop := {
  wi_aid : block_inv MAX_ACTION_ID (w_aid w) aids;
  wi_len : length aids = length (w_mids w);
  wi_mid : forall i g, w_mids w !! i = Some g -> exists a, aids !! i = Some a /\
    mid_action_id g = shifted a /\ block_inv MAX_MESSAGE_ID (mid_block g) (used_of i outs);
  wi_outs : forall i t, (i, t) ∈ outs -> exists a m, aids !! i = Some a /\
    (0 <= m < MAX_MESSAGE_ID)%Z /\ t = TransactionID_new (shifted a + m);
  wi_nodup : NoDup (trans_id ∘ snd <$> outs)
}.

Lemma aids_facts w aids outs : world_inv w aids outs ->
  NoDup aids /\ Forall (fun a => 0 <= a < MAX_ACTION_ID)%Z aids.
Proof. intros [Hb _ _ _ _]. by destruct (block_inv_facts _ _ _ Hb) as (? & ? & _). Qed.

(** The two parts of an identifier do not overlap. *)
Lemma lor_shifted a m : (0 <= m < MAX_MESSAGE_ID)%Z -> Z.lor (shifted a) m = (shifted a + m)%Z.
Proof.
  intros Hm. unfold shifted, MAX_MESSAGE_ID in *. symmetry. apply Z.add_nocarry_lor.
  change 16777216%Z with (2 ^ 24)%Z in *. apply Z.bits_inj'. intros n Hn. rewrite Z.land_spec, Z.bits_0.
  destruct (Z.ltb_spec n 24).
  - by rewrite Z.mul_pow2_bits_low.
  - rewrite (Z.bits_above_log2 m n); [by rewrite andb_false_r|lia|].
    destruct (decide (m = 0)%Z) as [->|]; [simpl; lia|].
    apply Z.lt_le_trans with 24%Z; [|done]. apply Z.log2_lt_pow2; lia.
Qed.

Lemma shl_action a : (0 <= a < MAX_ACTION_ID)%Z -> to_u64 (Z.shiftl a MESSAGE_ID_SHIFT) = shifted a.
Proof.
  intros Ha. unfold shifted, to_u64, MESSAGE_ID_SHIFT, MAX_MESSAGE_ID, MAX_ACTION_ID in *.
  rewrite Z.shiftl_mul_pow2 by lia. change (2 ^ 24)%Z with 16777216%Z. apply Z.mod_small. lia.
Qed.

Lemma shifted_mod a m : (0 <= m < MAX_MESSAGE_ID)%Z -> ((shifted a + m) mod MAX_MESSAGE_ID)%Z = m.
Proof. intros Hm. unfold shifted. rewrite Z.add_comm, Z_mod_plus_full. by apply Z.mod_small. Qed.

Lemma shifted_div a m : (0 <= m < MAX_MESSAGE_ID)%Z ->
  ActionID_from_transaction_id (shifted a + m) = {| act_id := a |}.
Proof.
  intros Hm. unfold ActionID_from_transaction_id, shifted, MESSAGE_ID_SHIFT, MAX_MESSAGE_ID in *. f_equal.
  rewrite Z.shiftr_div_pow2 by lia. change (2 ^ 24)%Z with 16777216%Z.
  symmetry. apply (Z.div_unique _ _ _ m); lia.
Qed.

Lemma shifted_action a : ActionID_from_transaction_id (shifted a) = {| act_id := a |}.
Proof. rewrite <- (Z.add_0_r (shifted a)). apply shifted_div. unfold MAX_MESSAGE_ID. lia. Qed.

Lemma used_of_snoc i outs j t :
  used_of i (outs ++ [(j, t)]) =
    used_of i outs ++ (if decide (j = i) then [(trans_id t mod MAX_MESSAGE_ID)%Z] else []).
Proof.
  unfold used_of. rewrite filter_app, fmap_app. f_equal. rewrite filter_cons.
  destruct (decide _), (decide (j = i)); done.
Qed.

Lemma world_new_action rng w aids outs :
  world_inv w aids outs -> (Z.of_nat (length aids) < MAX_ACTION_ID)%Z ->
  exists a w', id_step (NewAction rng) w = Ok ([], w') /\ world_inv w' (aids ++ [a]) outs /\
    length (w_mids w') = S (length (w_mids w)).
Proof.
  intros Hw Hlt. destruct (block_generate_fresh MAX_ACTION_ID max_action_ok (E := E) rng (w_aid w) aids)
    as (a & b & Hg & Hb); [by destruct Hw|done|].
  simpl. unfold aid_generate, generate_aids. rewrite Hg. run_binds.
  exists a. eexists. split; [reflexivity|]. cbn [w_mids]. split; [|rewrite length_app; simpl; lia].
  assert (Ha : (0 <= a < MAX_ACTION_ID)%Z).
  { destruct (block_inv_facts _ _ _ Hb) as (_ & Hf & _). rewrite Forall_app, Forall_singleton in Hf. tauto. }
  destruct Hw as [_ Hl Hm Ho Hn]. split; cbn [w_aid w_mids]; [done|rewrite !length_app; simpl; lia| | |done].
  - intros i g Hi. apply lookup_app_Some in Hi as [Hi|[Hge Hi]].
    + destruct (Hm i g Hi) as (a' & Ha' & ?). exists a'. split; [by apply lookup_app_l_Some|done].
    + destruct (decide (i = length (w_mids w))) as [->|]; [|rewrite lookup_ge_None_2 in Hi by (simpl; lia); done].
      rewrite Nat.sub_diag in Hi. injection Hi as <-. exists a. split_and!.
      * rewrite <- Hl. by apply list_lookup_middle.
      * by apply shl_action.
      * replace (used_of (length (w_mids w)) outs) with (@nil Z).
        { apply fresh_block; [apply max_message_ok|done|by vm_compute]. }
        unfold used_of. rewrite filter_none; [done|]. apply Forall_forall. intros [j t] Ho'. simpl.
        destruct (Ho j t Ho') as (a' & _ & Ha' & _). apply lookup_lt_Some in Ha'. lia.
  - intros i t Hit. destruct (Ho i t Hit) as (a' & m & Ha' & ?). exists a', m.
    split; [by apply lookup_app_l_Some|done].
Qed.

Lemma world_new_message i rng w aids outs :
  world_inv w aids outs -> i < length (w_mids w) ->
  (Z.of_nat (length (used_of i outs)) < MAX_MESSAGE_ID)%Z ->
  exists t w', id_step (NewMessage i rng) w = Ok ([(i, t)], w') /\
    world_inv w' aids (outs ++ [(i, t)]) /\ length (w_mids w') = length (w_mids w).
Proof.
  intros [Hb Hl Hm Ho Hn] Hi Hlt. destruct (lookup_lt_is_Some_2 _ _ Hi) as [g Hg].
  destruct (Hm i g Hg) as (a & Ha & Hga & Hgb).
  destruct (block_generate_fresh MAX_MESSAGE_ID max_message_ok (E := E) rng (mid_block g) (used_of i outs) Hgb Hlt)
    as (m & b & Hgen & Hb').
  destruct (block_inv_facts _ _ _ Hb') as (Hnd & Hf & _). rewrite Forall_app, Forall_singleton in Hf.
  destruct Hf as [_ Hmr]. apply NoDup_app in Hnd as (_ & Hnew & _).
  simpl. rewrite (index_Some _ _ _ Hg), mbind_ok. unfold mid_generate, generate_mids.
  rewrite Hgen. run_binds.
  rewrite Hga, lor_shifted by done. eexists _, _. split; [reflexivity|]. cbn [w_mids w_aid].
  split; [|apply length_insert]. split; cbn [w_mids w_aid]; [done|by rewrite length_insert| | |].
  - intros j g' Hj. rewrite used_of_snoc. destruct (decide (i = j)) as [<-|Hij].
    + rewrite list_lookup_insert_eq in Hj by done. injection Hj as <-. exists a. cbn [mid_action_id mid_block].
      split_and!; [done|done|]. cbn [TransactionID_new trans_id]. by rewrite shifted_mod.
    + rewrite list_lookup_insert_ne in Hj by done. rewrite app_nil_r. auto.
  - intros j t [Hj|Hj]%elem_of_app; [auto|]. apply list_elem_of_singleton in Hj as [= -> ->]. eauto.
  - rewrite fmap_app. apply NoDup_app. split_and!; [done| |apply NoDup_singleton].
    intros x ([j t] & -> & Hjt)%list_elem_of_fmap Hx. apply list_elem_of_singleton in Hx. cbn in Hx.
    destruct (Ho j t Hjt) as (a' & m' & Ha' & Hm' & ->). cbn [trans_id TransactionID_new snd] in Hx.
    assert (Hmm : m' = m) by (apply (f_equal (fun z => z mod MAX_MESSAGE_ID)%Z) in Hx; by rewrite !shifted_mod in Hx).
    subst m'. assert (Haa : a' = a) by (unfold shifted, MAX_MESSAGE_ID in Hx; lia). subst a'.
    destruct (block_inv_facts _ _ _ Hb) as (Hand & _ & _). pose proof (NoDup_lookup _ _ _ _ Hand Ha Ha'). subst j.
    apply (Hnew m); [|apply list_elem_of_singleton; done]. apply list_elem_of_fmap.
    exists (i, TransactionID_new (shifted a + m)). cbn [snd TransactionID_new trans_id]. rewrite shifted_mod by done.
    split; [done|]. apply list_elem_of_filter. done.
Qed.

Lemma run_ids_ok es w aids outs :
  world_inv w aids outs -> events_in_order (length (w_mids w)) es ->
  (Z.of_nat (length aids + actions_of es) <= MAX_ACTION_ID)%Z ->
  (forall i, Z.of_nat (length (used_of i outs) + messages_of i es) <= MAX_MESSAGE_ID)%Z ->
  exists outs' w' aids', run_ids es w = Ok (outs', w') /\ world_inv w' aids' (outs ++ outs').
Proof.
  revert w aids outs. induction es as [|e es IH]; intros w aids outs Hw Hord Ha Hm.
  { exists [], w, aids. by rewrite app_nil_r. }
  destruct e as [rng|i rng]; cbn [run_ids actions_of messages_of events_in_order] in *.
  - destruct (world_new_action rng w aids outs Hw) as (a & w1 & H1 & Hw1 & Hl); [lia|].
    rewrite H1. run_binds. destruct (IH w1 (aids ++ [a]) outs) as (outs' & w' & aids' & Hr & Hw'); [done|..].
    + by rewrite Hl.
    + rewrite length_app. simpl. lia.
    + done.
    + rewrite Hr. run_binds. eauto.
  - destruct Hord as [Hi Hord]. specialize (Hm i) as Hmi. rewrite decide_True in Hmi by done.
    destruct (world_new_message i rng w aids outs Hw Hi) as (t & w1 & H1 & Hw1 & Hl); [lia|].
    rewrite H1. run_binds. destruct (IH w1 aids (outs ++ [(i, t)])) as (outs' & w' & aids' & Hr & Hw'); [done|..].
    + by rewrite Hl.
    + done.
    + intros j. specialize (Hm j). rewrite used_of_snoc, length_app. destruct (decide (i = j)); simpl; lia.
    + rewrite Hr. run_binds. rewrite <- app_assoc in Hw'. eauto.
Qed.

Lemma AIDGenerator_new_ok rng :
  exists g, @AIDGenerator_new _ E rng = Ok g /\ block_inv MAX_ACTION_ID g [] /\ curr_index g = 0.
Proof.
  unfold AIDGenerator_new, generate_aids. pose proof max_action_ok as (_ & _ & Hu).
  rewrite generate_ids_run by done. run_binds. change (0 =? MAX_ACTION_ID)%Z with false. cbn match.
  destruct (fisher_shuffle_perm (E := E) 0%Z rng (seqZ 0 (Z.of_nat ID_PREALLOC_LEN))) as (ids & -> & Hids).
  run_binds. eexists. split; [done|]. split; [|done].
  split; cbn [next_alloc curr_index block_ids]; [|done|by exists 1%Z].
  by rewrite drop_0.
Qed.
End World.

(** Reading eight bytes never overflows. *)
Lemma from_bytes_be_val bs acc :
  Forall is_u8 bs -> (0 <= acc)%Z -> (acc * 256 ^ Z.of_nat (length bs) + 256 ^ Z.of_nat (length bs) <= 18446744073709551616)%Z ->
  fold_left (fun trans_id byte => Z.lor (to_u64 (Z.shiftl trans_id 8)) byte) bs acc =
  fold_left (fun acc b => Z.lor (Z.shiftl acc 8) b) bs acc.
Proof.
  intros Hbs. revert acc. induction Hbs as [|b bs Hb Hbs IH]; intros acc Hacc Hle; [done|].
  cbn [fold_left length] in *. rewrite Nat2Z.inj_succ, Z.pow_succ_r in Hle by lia.
  assert (Hp : (0 < 256 ^ Z.of_nat (length bs))%Z) by (apply Z.pow_pos_nonneg; lia).
  assert (Hs : Z.shiftl acc 8 = (acc * 256)%Z) by (rewrite Z.shiftl_mul_pow2; lia).
  assert (He : to_u64 (Z.shiftl acc 8) = Z.shiftl acc 8).
  { unfold to_u64. apply Z.mod_small. rewrite Hs. unfold is_u8 in Hb. nia. }
  rewrite He. apply IH; rewrite (be_step acc b Hb); unfold is_u8 in Hb; nia.
Qed.

Lemma TransactionID_bytes_roundtrip z :
  is_u64 z -> TransactionID_from_bytes (trans_id_bytes (TransactionID_new z)) = Some (TransactionID_new z).
Proof.
  intros Hz. unfold TransactionID_from_bytes. cbn [trans_id_bytes TransactionID_new].
  rewrite eight_bytes_be, length_be_bytes. cbn match. do 2 f_equal.
  rewrite from_bytes_be_val; [|apply be_bytes_u8|done|by rewrite length_be_bytes].
  by apply be_u64_id.
Qed.

(** C36. Transaction identifiers are unique over the whole life of a node: in any
    order in which actions are started and messages sent for them, up to 2^40
    actions and 2^24 messages for each, all identifiers handed out differ, and
    so do the action identifiers; each identifier is read back from its bytes
    and leads to the action it was made for. *)
Theorem transaction_ids_unique (HP : Profile) (E : Type) (rng : nat -> Z) (es : list id_event) :
  events_in_order 0 es -> (Z.of_nat (actions_of es) <= MAX_ACTION_ID)%Z ->
  (forall i, Z.of_nat (messages_of i es) <= MAX_MESSAGE_ID)%Z ->
  exists g outs w,
    @AIDGenerator_new _ E rng = Ok g /\ @run_ids _ E es {| w_aid := g; w_mids := [] |} = Ok (outs, w) /\
    NoDup (trans_id_bytes ∘ snd <$> outs) /\ NoDup (MIDGenerator_action_id <$> w_mids w) /\
    forall i t, (i, t) ∈ outs ->
      TransactionID_from_bytes (trans_id_bytes t) = Some t /\
      exists m, w_mids w !! i = Some m /\ action_id t = MIDGenerator_action_id m.
Proof.
  intros Hord Ha Hm. destruct (AIDGenerator_new_ok (E := E) rng) as (g & Hg & Hinv & _).
  destruct (run_ids_ok (E := E) es {| w_aid := g; w_mids := [] |} [] []) as (outs & w & aids & Hr & Hw).
  { split; cbn [w_aid w_mids].
    - exact Hinv.
    - reflexivity.
    - intros i m Hi. exfalso. by rewrite lookup_nil in Hi.
    - intros i t Hi. exfalso. by apply elem_of_nil in Hi.
    - apply NoDup_nil_2. }
  { exact Hord. } { exact Ha. } { exact Hm. }
  exists g, outs, w. split_and!; [done|done|..].
  all: destruct (aids_facts _ _ _ Hw) as [Hand Har]; destruct Hw as [_ Hl Hmid Ho Hn]; cbn [app] in *.
  - assert (Hround : forall i t, (i, t) ∈ outs -> trans_id t = be_val (trans_id_bytes t)).
    { intros i t Hit. destruct (Ho i t Hit) as (a & m & Haa & Hm' & ->). symmetry. cbn [trans_id trans_id_bytes TransactionID_new]. rewrite eight_bytes_be.
      apply be_u64_id. apply (Forall_lookup_1 _ _ _ _ Har) in Haa. cbn beta in Haa.
      unfold is_u64, shifted, MAX_ACTION_ID, MAX_MESSAGE_ID in *. lia. }
    apply (NoDup_fmap_1 be_val). rewrite <- list_fmap_compose. replace (be_val ∘ (trans_id_bytes ∘ snd) <$> outs)
      with (trans_id ∘ snd <$> outs); [done|].
    apply list_fmap_ext. intros k [i t] Hk. by apply (Hround i t), list_elem_of_lookup_2 with k.
  - assert (Hmids : MIDGenerator_action_id <$> w_mids w = Build_ActionID <$> aids).
    { apply list_eq. intros i. rewrite !list_lookup_fmap. destruct (w_mids w !! i) as [m|] eqn:Hi.
      - destruct (Hmid i m Hi) as (a & -> & Hga & _). simpl. unfold MIDGenerator_action_id.
        by rewrite Hga, shifted_action.
      - apply lookup_ge_None in Hi. rewrite (lookup_ge_None_2 aids i) by lia. done. }
    rewrite Hmids. apply NoDup_fmap_2; [|done]. by intros ? ? [= ->].
  - intros i t Hit. destruct (Ho i t Hit) as (a & m & Haa & Hm' & ->). split.
    + apply TransactionID_bytes_roundtrip. apply (Forall_lookup_1 _ _ _ _ Har) in Haa. cbn beta in Haa.
      unfold is_u64, shifted, MAX_ACTION_ID, MAX_MESSAGE_ID in *. lia.
    + destruct (lookup_lt_is_Some_2 (w_mids w) i) as [x Hx]; [apply lookup_lt_Some in Haa; lia|].
      exists x. split; [done|]. destruct (Hmid i x Hx) as (a' & Ha' & Hga & _).
      rewrite Haa in Ha'. injection Ha' as <-. unfold action_id, MIDGenerator_action_id. cbn [trans_id TransactionID_new].
      by rewrite Hga, shifted_action, shifted_div.
Qed.

Definition sample_events : list id_event :=
  [NewAction (fun i => Z.of_nat i); NewMessage 0 (fun i => 7 * Z.of_nat i)%Z;
   NewAction (fun _ => 3%Z); NewMessage 1 (fun _ => 5%Z); NewMessage 0 (fun _ => 0%Z)].

Lemma transaction_ids_unique_witness :
  exists g outs w,
    @AIDGenerator_new true unit (fun i => 11 * Z.of_nat i)%Z = Ok g /\
    @run_ids true unit sample_events {| w_aid := g; w_mids := [] |} = Ok (outs, w) /\
    NoDup (trans_id_bytes ∘ snd <$> outs).
Proof.
  destruct (transaction_ids_unique true unit (fun i => 11 * Z.of_nat i)%Z sample_events) as (g & outs & w & H1 & H2 & H3 & _).
  - split_and!; by apply (bool_decide_unpack _); vm_compute.
  - by vm_compute.
  - intros i. unfold sample_events. simpl. unfold MAX_MESSAGE_ID.
    destruct (decide (0 = i)), (decide (1 = i)); lia.
  - exists g, outs, w. auto.
Defined.

(** * The shuffled generator of btp-util

    A refill stores a block of consecutive identifiers in some order, and stops
    before it would repeat one, whatever the size of the type. *)

Section ShuffledBlocks.
Context (T : IntType) (HT : (min_value T <= max_value T)%Z).

Definition size : Z := (max_value T - min_value T + 1)%Z.
Definition in_type (z : Z) : Prop := (min_value T <= z <= max_value T)%Z.
Definition consecutive (start : Z) (n : nat) : list Z :=
  (fun k => wrap T (start + Z.of_nat k)) <$> seq 0 n.

Lemma wrap_in z : in_type (wrap T z).
Proof. unfold in_type, wrap. pose proof (Z.mod_pos_bound (z - min_value T) (max_value T - min_value T + 1)). lia. Qed.

Lemma wrap_id z : in_type z -> wrap T z = z.
Proof. unfold in_type, wrap. intros Hz. rewrite Z.mod_small; lia. Qed.

Lemma wrap_wrap a b : wrap T (wrap T a + b) = wrap T (a + b).
Proof.
  unfold wrap. f_equal. set (n := (max_value T - min_value T + 1)%Z).
  replace (min_value T + (a - min_value T) mod n + b - min_value T)%Z with ((a - min_value T) mod n + b)%Z by lia.
  rewrite Zplus_mod_idemp_l. f_equal. lia.
Qed.

Lemma consecutive_S start n :
  consecutive start (S n) = consecutive start n ++ [wrap T (start + Z.of_nat n)].
Proof. unfold consecutive. by rewrite seq_S, fmap_app. Qed.

Lemma consecutive_NoDup start n : (Z.of_nat n <= size)%Z -> NoDup (consecutive start n).
Proof.
  intros Hn. apply NoDup_fmap_2_strong; [|apply NoDup_seq].
  intros x y Hx%elem_of_seq Hy%elem_of_seq Heq. unfold wrap in Heq. fold size in Heq.
  assert (Hm : ((start + Z.of_nat x - min_value T) mod size = (start + Z.of_nat y - min_value T) mod size)%Z) by lia.
  assert (Hs : (0 < size)%Z) by (unfold size; lia).
  pose proof (Z.div_mod (start + Z.of_nat x - min_value T) size ltac:(lia)) as Hx'.
  pose proof (Z.div_mod (start + Z.of_nat y - min_value T) size ltac:(lia)) as Hy'.
  set (q1 := (_ / size)%Z) in Hx'. set (q2 := (_ / size)%Z) in Hy'.
  assert (Hd : (size * (q1 - q2) = Z.of_nat x - Z.of_nat y)%Z) by lia.
  assert (q1 - q2 = 0)%Z by nia. lia.
Qed.

(** As many identifiers as the type has contain every value. *)
Lemma consecutive_all start n z : (size <= Z.of_nat n)%Z -> in_type z -> z ∈ consecutive start n.
Proof.
  intros Hn Hz. apply list_elem_of_fmap. exists (Z.to_nat ((z - start) mod size)).
  assert (Hs : (0 < size)%Z) by (unfold size; lia). pose proof (Z.mod_pos_bound (z - start) size Hs).
  split; [|apply elem_of_seq; lia]. rewrite Z2Nat.id by lia.
  rewrite Z.mod_eq by lia. replace (start + (z - start - size * ((z - start) / size)))%Z
    with (z + (- ((z - start) / size)) * size)%Z by lia.
  unfold wrap. fold size. replace (z + (- ((z - start) / size)) * size - min_value T)%Z
    with (z - min_value T + (- ((z - start) / size)) * size)%Z by lia.
  rewrite Z_mod_plus_full. unfold in_type, size in *. rewrite Z.mod_small; lia.
Qed.

Lemma refill_loop_run n j start :
  in_type start -> (Z.of_nat j <= size)%Z ->
  exists c, j <= c /\ (0 < n -> j = 0 -> 0 < c) /\ c <= j + n /\ (Z.of_nat c <= size)%Z /\
    refill_loop T n (bool_decide (min_value T ∈ consecutive start j))
      (bool_decide (max_value T ∈ consecutive start j)) {| next_id := wrap T (start + Z.of_nat j) |}
      (consecutive start j) =
    (consecutive start c, {| next_id := wrap T (start + Z.of_nat c) |}).
Proof.
  intros Hs. revert j. induction n as [|n IH]; intros j Hj; cbn [refill_loop].
  { exists j. split_and!; [lia..|done]. }
  destruct (negb _ || negb _) eqn:Hflags.
  - assert (Hlt : (Z.of_nat (S j) <= size)%Z).
    { destruct (decide (Z.of_nat j = size)%Z) as [He|]; [|lia]. exfalso.
      rewrite !bool_decide_eq_true_2 in Hflags; [done|apply consecutive_all; unfold in_type; lia..]. }
    destruct (IH (S j) Hlt) as (c & H1 & _ & H2 & H3 & Hrun). exists c.
    split_and!; [lia|lia|lia|done|]. rewrite <- Hrun, consecutive_S. cbn [sequential_generate next_id]. f_equal.
    + rewrite (bool_decide_ext _ _ (elem_of_app _ _ _)), bool_decide_or. f_equal.
      apply eq_true_iff_eq. rewrite Z.eqb_eq, bool_decide_eq_true, list_elem_of_singleton. naive_solver.
    + rewrite (bool_decide_ext _ _ (elem_of_app _ _ _)), bool_decide_or. f_equal.
      apply eq_true_iff_eq. rewrite Z.eqb_eq, bool_decide_eq_true, list_elem_of_singleton. naive_solver.
    + f_equal. rewrite wrap_wrap. f_equal. lia.
  - exists j. split_and!; [lia| |lia|done|done]. intros _ ->. done.
Qed.

(** A refill stores at least one identifier and no identifier twice, and the
    next refill goes on after them. *)
Lemma refill_distinct {E} rng l :
  in_type (next_id (sequential l)) ->
  exists c l', @refill_stored_ids E T rng l = Ok l' /\ 0 < c <= TRANSACTION_ID_PREALLOC_LEN /\
    stored_ids l' ≡ₚ consecutive (next_id (sequential l)) c /\ NoDup (stored_ids l') /\
    next_id (sequential l') = wrap T (next_id (sequential l) + Z.of_nat c).
Proof.
  intros Hs. unfold refill_stored_ids.
  destruct (refill_loop_run TRANSACTION_ID_PREALLOC_LEN 0 (next_id (sequential l)) Hs)
    as (c & _ & H1 & H2 & H3 & Hrun); [unfold size; lia|].
  rewrite Z.add_0_r, wrap_id in Hrun by done. destruct (sequential l) as [s] eqn:El. cbn [next_id] in *.
  rewrite !bool_decide_eq_false_2 in Hrun by apply not_elem_of_nil.
  change (consecutive s 0) with (@nil Z) in Hrun. rewrite Hrun.
  destruct (fisher_shuffle_perm (E := E) 0%Z rng (consecutive s c)) as (ids & -> & Hp). run_binds.
  eexists c, _. split; [done|]. cbn [stored_ids sequential next_id]. split_and!; [|lia|done| |done].
  - apply H1; [|done]. unfold TRANSACTION_ID_PREALLOC_LEN. lia.
  - rewrite Hp. by apply consecutive_NoDup.
Qed.

(** So a call of the generator always returns an identifier of the type. *)
Lemma shuffled_generate_total {E} rng l :
  in_type (next_id (sequential l)) -> Forall in_type (stored_ids l) ->
  exists id l', @shuffled_generate E 2 T rng l = Ok (id, l') /\ in_type id /\
    in_type (next_id (sequential l')) /\ Forall in_type (stored_ids l').
Proof.
  intros Hs Hl. assert (Hgen : forall fuel l, in_type (next_id (sequential l)) -> Forall in_type (stored_ids l) ->
    stored_ids l <> [] -> exists id l', @shuffled_generate E (S fuel) T rng l = Ok (id, l') /\ in_type id /\
    in_type (next_id (sequential l')) /\ Forall in_type (stored_ids l')).
  { clear. intros fuel l Hs Hl Hne. cbn [shuffled_generate].
    destruct (last (stored_ids l)) as [id|] eqn:Hlast; [|by apply last_None in Hlast].
    eexists _, _. split; [done|]. cbn [sequential stored_ids]. split_and!; [|done|by apply Forall_take].
    apply last_Some in Hlast as [k Hk]. rewrite Hk, Forall_app, Forall_singleton in Hl. tauto. }
  destruct (decide (stored_ids l = [])) as [Hnil|]; [|by apply Hgen].
  destruct (refill_distinct (E := E) rng l Hs) as (c & l1 & Hr & Hc & Hp & _ & Hn).
  cbn [shuffled_generate]. rewrite Hnil. cbn [last]. rewrite Hr. run_binds. apply (Hgen 0).
  - rewrite Hn. apply wrap_in.
  - rewrite Hp. apply Forall_fmap, Forall_forall. intros k _. apply wrap_in.
  - intros E0. rewrite E0 in Hp. apply Permutation_length in Hp. unfold consecutive in Hp.
    rewrite length_fmap, length_seq in Hp. simpl in Hp. lia.
Qed.
End ShuffledBlocks.

Example u8_cycle : exists l, @refill_stored_ids unit U8 (fun _ => 1%Z) LocallyShuffledIds_new = Ok l /\
  length (stored_ids l) = 256.
Proof. eexists. split; [vm_compute; reflexivity|reflexivity]. Qed.
