(* ===== verification/DhtToken.v ===== *)
(** DhtToken: [btp-dht/src/token.rs], the tokens a node hands to those that ask
    for peers and wants back with an announce.

    Times are nanoseconds.  A call of the store takes a [Tick], what it reads
    from the clock and the random numbers it draws. *)

From stdpp Require Import base list.
From Stdlib Require Import ZArith Lia.
From S2P Require Import Prelude Convert ShaHash.

Definition REFRESH_INTERVAL_MINS : Z := 10.
Definition IPV4_SECRET_BUFFER_LEN : nat := 4 + 4.
Definition IPV6_SECRET_BUFFER_LEN : nat := 16 + 4.

Record Token := { token : bytes }.

#[global] Instance Token_eq_dec : EqDecision Token.
Proof. solve_decision. Defined.

Definition Token_new (bs : bytes) : outcome LengthError Token :=
  if negb (length bs =? SHA_HASH_LEN) then Err (LengthError_new LengthExpected SHA_HASH_LEN)
  else Ok {| token := bs |}.

Record TokenStore := { curr_secret : Z; last_secret : Z; last_refresh : Z }.

(** What one call of the store sees: the clock when it counts the intervals and
    when it notes the refresh, and two random secrets. *)
Record Tick := { checked_at : Z; refreshed_at : Z; rand_one : Z; rand_two : Z }.

Definition TokenStore_new (t : Tick) : TokenStore :=
  {| curr_secret := rand_one t; last_secret := rand_two t; last_refresh := checked_at t |}.

(** [Duration::num_minutes] *)
Definition NANOS_PER_MINUTE : Z := 60000000000.
Definition num_minutes (d : Z) : Z := Z.quot d NANOS_PER_MINUTE.

Definition intervals_passed (last_refresh now : Z) : Z :=
  Z.quot (num_minutes (now - last_refresh)) REFRESH_INTERVAL_MINS.

(** [iter_mut().zip]: the bytes of [src] over those of [buffer]. *)
Fixpoint copy_over (buffer src : bytes) : bytes :=
  match buffer, src with
  | _ :: buffer, s :: src => s :: copy_over buffer src
  | _, _ => buffer
  end.

Section Tokens.
Context `{Sha1}.

Definition generate_token_from_addr_v4 (v4_addr : Ipv4Addr) (secret : Z) : Token :=
  let buffer := copy_over (replicate IPV4_SECRET_BUFFER_LEN 0%Z)
    (ipv4_to_bytes_be v4_addr ++ four_bytes_to_array secret) in
  {| token := hash (ShaHash_from_bytes buffer) |}.
Definition generate_token_from_addr_v6 (v6_addr : Ipv6Addr) (secret : Z) : Token :=
  let buffer := copy_over (replicate IPV6_SECRET_BUFFER_LEN 0%Z)
    (ipv6_to_bytes_be v6_addr ++ four_bytes_to_array secret) in
  {| token := hash (ShaHash_from_bytes buffer) |}.
Definition generate_token_from_addr (addr : IpAddr) (secret : Z) : Token :=
  match addr with
  | IpV4 v4 => generate_token_from_addr_v4 v4 secret
  | IpV6 v6 => generate_token_from_addr_v6 v6 secret
  end.

Definition validate_token_from_addr_v4 (v4_addr : Ipv4Addr) (t : Token) (secret : Z) : bool :=
  bool_decide (generate_token_from_addr_v4 v4_addr secret = t).
Definition validate_token_from_addr_v6 (v6_addr : Ipv6Addr) (t : Token) (secret : Z) : bool :=
  bool_decide (generate_token_from_addr_v6 v6_addr secret = t).
Definition validate_token_from_addr (addr : IpAddr) (t : Token) (secret_one secret_two : Z) : bool :=
  match addr with
  | IpV4 v4 => validate_token_from_addr_v4 v4 t secret_one || validate_token_from_addr_v4 v4 t secret_two
  | IpV6 v6 => validate_token_from_addr_v6 v6 t secret_one || validate_token_from_addr_v6 v6 t secret_two
  end.

Definition refresh_check (t : Tick) (s : TokenStore) : TokenStore :=
  match intervals_passed (last_refresh s) (checked_at t) with
  | 0%Z => s
  | 1%Z => {| curr_secret := rand_one t; last_secret := curr_secret s; last_refresh := refreshed_at t |}
  | _ => {| curr_secret := rand_two t; last_secret := rand_one t; last_refresh := refreshed_at t |}
  end.

Definition checkout (t : Tick) (addr : IpAddr) (s : TokenStore) : Token * TokenStore :=
  let s := refresh_check t s in
  (generate_token_from_addr addr (curr_secret s), s).
Definition checkin (t : Tick) (addr : IpAddr) (tok : Token) (s : TokenStore) : bool * TokenStore :=
  let s := refresh_check t s in
  (validate_token_from_addr addr tok (curr_secret s) (last_secret s), s).

(** ** Calls of the store, in the order of time *)

Inductive token_call : Type :=
  | Checkout (addr : IpAddr)
  | Checkin (addr : IpAddr) (tok : Token).
Definition token_step (c : Tick * token_call) (s : TokenStore) : TokenStore :=
  match c.2 with
  | Checkout addr => (checkout c.1 addr s).2
  | Checkin addr tok => (checkin c.1 addr tok s).2
  end.
Definition run_tokens (cs : list (Tick * token_call)) (s : TokenStore) : TokenStore :=
  fold_left (fun s c => token_step c s) cs s.

(** The clock does not go back: every reading is at or after the one before. *)
Fixpoint ticks_from (t0 : Z) (ts : list Tick) : Prop :=
  match ts with
  | [] => True
  | t :: ts => (t0 <= checked_at t)%Z /\ (checked_at t <= refreshed_at t)%Z /\ ticks_from (refreshed_at t) ts
  end.

Definition minutes (n : Z) : Z := (n * NANOS_PER_MINUTE)%Z.

Lemma token_step_refresh c s : token_step c s = refresh_check c.1 s.
Proof. by destruct c as [t []]. Qed.

Lemma validates addr tok one two :
  validate_token_from_addr addr tok one two = true <->
  generate_token_from_addr addr one = tok \/ generate_token_from_addr addr two = tok.
Proof.
  destruct addr; cbn; rewrite orb_true_iff; unfold validate_token_from_addr_v4, validate_token_from_addr_v6;
    by rewrite !bool_decide_eq_true.
Qed.

(** Which branch is taken, in minutes since the last refresh. *)
Lemma refresh_cases t s :
  (last_refresh s <= checked_at t)%Z ->
  ((checked_at t < last_refresh s + minutes 10)%Z /\ refresh_check t s = s) \/
  ((last_refresh s + minutes 10 <= checked_at t < last_refresh s + minutes 20)%Z /\
     refresh_check t s =
       {| curr_secret := rand_one t; last_secret := curr_secret s; last_refresh := refreshed_at t |}) \/
  ((last_refresh s + minutes 20 <= checked_at t)%Z /\
     refresh_check t s =
       {| curr_secret := rand_two t; last_secret := rand_one t; last_refresh := refreshed_at t |}).
Proof.
  intros Ht. unfold refresh_check, intervals_passed, num_minutes, minutes, REFRESH_INTERVAL_MINS, NANOS_PER_MINUTE.
  set (d := (checked_at t - last_refresh s)%Z).
  rewrite !Z.quot_div_nonneg by (try apply Z.quot_pos; unfold d; lia).
  rewrite Z.div_div by lia. change (60000000000 * 10)%Z with 600000000000%Z.
  pose proof (Z.div_mod d 600000000000 ltac:(lia)) as Hd.
  pose proof (Z.mod_pos_bound d 600000000000 ltac:(lia)) as Hm.
  assert (0 <= d / 600000000000)%Z by (apply Z.div_pos; unfold d; lia).
  destruct (d / 600000000000)%Z as [|[p|p|]|p] eqn:Hq; [left|right; right..|right; left|]; try lia;
    (split; [unfold d in *; lia|done]).
Qed.
End Tokens.

(** * How long a token is accepted *)

Section Lifetime.
Context `{Sha1} (addr : IpAddr) (tok : Token) (L : Z).

Notation matches secret := (generate_token_from_addr addr secret = tok).

(** The secret of the token is current, or it is the last one and the store was
    refreshed late enough. *)
Definition held (s : TokenStore) : Prop :=
  (matches (curr_secret s) /\ last_refresh s = L) \/
  (matches (last_secret s) /\ (L + minutes 10 <= last_refresh s)%Z).

Lemma held_step t s :
  held s -> (last_refresh s <= checked_at t)%Z -> (checked_at t <= refreshed_at t)%Z ->
  (checked_at t < L + minutes 20)%Z -> held (refresh_check t s) /\ (last_refresh (refresh_check t s) <= refreshed_at t)%Z.
Proof.
  intros Hs Hmono Hr Ht. unfold minutes, NANOS_PER_MINUTE in *.
  destruct (refresh_cases t s Hmono) as [(Hc & ->)|[(Hc & ->)|(Hc & ->)]];
    unfold minutes, NANOS_PER_MINUTE in *; cbn [last_refresh].
  - split; [done|lia].
  - split; [|lia]. destruct Hs as [[Hm HL]|[_ HL]]; [|unfold minutes, NANOS_PER_MINUTE in *; lia].
    right. cbn [last_secret last_refresh]. unfold minutes, NANOS_PER_MINUTE. split; [done|lia].
  - exfalso. destruct Hs as [[_ HL]|[_ HL]]; unfold minutes, NANOS_PER_MINUTE in *; lia.
Qed.

(** All calls of a run come before its last one. *)
Lemma ticks_from_last t0 ts t :
  ticks_from t0 (ts ++ [t]) -> (t0 <= checked_at t)%Z /\ Forall (fun u => checked_at u <= checked_at t)%Z ts.
Proof.
  revert t0. induction ts as [|u ts IH]; intros t0; simpl; [by intros (? & _)|].
  intros (H1 & H2 & H3). destruct (IH _ H3) as [H4 H5]. split; [lia|]. constructor; [lia|done].
Qed.

Lemma held_run cs t0 t s :
  held s -> (last_refresh s <= t0)%Z -> ticks_from t0 ((fst <$> cs) ++ [t]) ->
  (checked_at t < L + minutes 20)%Z -> (checkin t addr tok (run_tokens cs s)).1 = true.
Proof.
  revert t0 s. induction cs as [|c cs IH]; intros t0 s Hs Hl Hts Ht; cbn [run_tokens fold_left fmap list_fmap app] in *.
  - destruct Hts as (H1 & H2 & _). destruct (held_step t s) as [Hh _]; [done|lia|done|done|].
    unfold checkin. cbn [fst]. apply validates. destruct Hh as [[? _]|[? _]]; auto.
  - rewrite token_step_refresh. destruct Hts as (H1 & H2 & H3).
    destruct (ticks_from_last _ _ _ H3) as [Hlast _].
    destruct (held_step c.1 s) as [Hh Hr]; [done|lia|done|lia|]. by apply (IH (refreshed_at c.1)).
Qed.

(** The secret is current since [L], or it was replaced in time, or it is gone. *)
Definition fades (delta : Z) (s : TokenStore) : Prop :=
  last_refresh s = L \/
  (~ matches (curr_secret s) /\ (last_refresh s <= L + minutes 20 + delta)%Z) \/
  (~ matches (curr_secret s) /\ ~ matches (last_secret s)).

Lemma fades_step delta t s :
  fades delta s -> (last_refresh s <= checked_at t <= refreshed_at t)%Z -> (refreshed_at t <= checked_at t + delta)%Z ->
  ~ matches (rand_one t) -> ~ matches (rand_two t) ->
  fades delta (refresh_check t s) /\ (last_refresh (refresh_check t s) <= refreshed_at t)%Z.
Proof.
  intros Hs [Hm Hr] Hd H1 H2. destruct (refresh_cases t s Hm) as [(Hc & ->)|[(Hc & ->)|(Hc & ->)]]; cbn [last_refresh].
  - split; [done|lia].
  - split; [|lia]. destruct Hs as [HL|[[Hcur HL]|[Hcur Hlast]]].
    + right. left. cbn. split; [done|lia].
    + right. right. done.
    + right. right. done.
  - split; [|lia]. right. right. done.
Qed.

Lemma fades_run delta cs t0 t s :
  fades delta s -> (last_refresh s <= t0)%Z -> ticks_from t0 ((fst <$> cs) ++ [t]) ->
  Forall (fun u => refreshed_at u <= checked_at u + delta /\ ~ matches (rand_one u) /\ ~ matches (rand_two u))%Z
    ((fst <$> cs) ++ [t]) ->
  (L + minutes 30 + delta <= checked_at t)%Z -> (checkin t addr tok (run_tokens cs s)).1 = false.
Proof.
  revert t0 s. induction cs as [|c cs IH]; intros t0 s Hs Hl Hts Hf Ht;
    cbn [run_tokens fold_left fmap list_fmap app] in *; rewrite Forall_cons in Hf; destruct Hf as [(Hd & H1 & H2) Hf].
  - destruct Hts as (Ha & Hb & _). unfold checkin. cbn [fst]. apply not_true_iff_false. rewrite validates.
    unfold minutes, NANOS_PER_MINUTE in *.
    destruct (refresh_cases t s) as [(Hc & ->)|[(Hc & ->)|(Hc & ->)]]; [lia|..];
      unfold minutes, NANOS_PER_MINUTE in *; cbn [curr_secret last_secret]; [..|tauto].
    + destruct Hs as [HL|[[_ HL]|?]]; [|unfold minutes, NANOS_PER_MINUTE in *|tauto]; lia.
    + destruct Hs as [HL|[[? _]|?]]; [lia|tauto|tauto].
  - rewrite token_step_refresh. destruct Hts as (Ha & Hb & Hc).
    destruct (fades_step delta c.1 s) as [Hh Hr]; [done|lia|done|done|done|]. by apply (IH (refreshed_at c.1)).
Qed.
End Lifetime.

(** A token is accepted from the address it was given to for at least ten
    minutes, whatever calls the store serves in between, and is refused
    everywhere after thirty minutes, as long as no secret drawn since happens to
    give the same token.  [delta] bounds the time between the two readings of
    the clock in one call. *)
Theorem token_lifetime (HS : Sha1) (addr : IpAddr) (s : TokenStore) (t t' : Tick)
    (cs : list (Tick * token_call)) (delta : Z) :
  (last_refresh s <= checked_at t <= refreshed_at t)%Z ->
  ticks_from (refreshed_at t) ((fst <$> cs) ++ [t']) ->
  let '(tok, s1) := checkout t addr s in
  ((checked_at t' <= checked_at t + minutes 10)%Z -> (checkin t' addr tok (run_tokens cs s1)).1 = true) /\
  ((refreshed_at t + minutes 30 + delta <= checked_at t')%Z ->
   Forall (fun u => refreshed_at u <= checked_at u + delta /\
     generate_token_from_addr addr (rand_one u) <> tok /\ generate_token_from_addr addr (rand_two u) <> tok)%Z
     ((fst <$> cs) ++ [t']) ->
   (checkin t' addr tok (run_tokens cs s1)).1 = false).
Proof.
  intros [Hl Hr] Hts. cbn [checkout]. set (s1 := refresh_check t s).
  set (tok := generate_token_from_addr addr (curr_secret s1)).
  assert (Hs1 : (last_refresh s1 <= refreshed_at t)%Z /\ (checked_at t < last_refresh s1 + minutes 10)%Z).
  { unfold s1, minutes, NANOS_PER_MINUTE. destruct (refresh_cases t s Hl) as [(Hc & ->)|[(_ & ->)|(_ & ->)]];
      unfold minutes, NANOS_PER_MINUTE in *; cbn [last_refresh]; lia. }
  unfold minutes, NANOS_PER_MINUTE in *. split.
  - intros Ht. apply (held_run addr tok (last_refresh s1) cs (refreshed_at t)); [by left|tauto|done|].
    unfold minutes, NANOS_PER_MINUTE. lia.
  - intros Ht Hf. apply (fades_run addr tok (last_refresh s1) delta cs (refreshed_at t)); [by left|tauto|done|done|].
    unfold minutes, NANOS_PER_MINUTE. lia.
Qed.

(** * Concrete instances *)

(** A stand-in for the digest: the first twenty bytes. *)
Definition prefix_digest (bs : bytes) : bytes := to_u8 <$> take SHA_HASH_LEN (bs ++ replicate SHA_HASH_LEN 0%Z).

Lemma prefix_digest_is_hash bs : length (prefix_digest bs) = SHA_HASH_LEN /\ Forall is_u8 (prefix_digest bs).
Proof.
  unfold prefix_digest. split.
  - rewrite length_fmap, length_take, length_app, length_replicate. lia.
  - apply Forall_fmap, Forall_forall. intros x _. apply to_u8_u8.
Qed.
Definition sample_sha1 : Sha1 := {| sha1 := prefix_digest; sha1_is_hash := prefix_digest_is_hash |}.

Definition tick_at (m r : Z) : Tick :=
  {| checked_at := minutes m; refreshed_at := minutes m; rand_one := r; rand_two := r + 1 |}.
Definition sample_ip : IpAddr := IpV4 (Ipv4 10 0 0 7).
Definition other_call (m r : Z) : Tick * token_call := (tick_at m r, Checkout (IpV4 (Ipv4 10 0 0 8))).

Lemma token_lifetime_witness :
  let store := TokenStore_new (tick_at 0 1) in
  let '(tok, s1) := @checkout sample_sha1 (tick_at 3 5) sample_ip store in
  (@checkin sample_sha1 (tick_at 13 20) sample_ip tok (@run_tokens sample_sha1 [other_call 11 9] s1)).1 = true /\
  (@checkin sample_sha1 (tick_at 33 30) sample_ip tok (@run_tokens sample_sha1 [other_call 19 9] s1)).1 = false.
Proof.
  split.
  - apply (token_lifetime sample_sha1 sample_ip (TokenStore_new (tick_at 0 1)) (tick_at 3 5) (tick_at 13 20) [other_call 11 9] 0);
      vm_compute; intuition discriminate.
  - apply (token_lifetime sample_sha1 sample_ip (TokenStore_new (tick_at 0 1)) (tick_at 3 5) (tick_at 33 30) [other_call 19 9] 0).
    + vm_compute; intuition discriminate.
    + vm_compute; intuition discriminate.
    + vm_compute; intuition discriminate.
    + repeat constructor; vm_compute; intuition discriminate.
Defined.

(** The bound of thirty minutes is nearly reached: refreshing is lazy, so a
    token can outlive the twenty minutes that the comments promise. *)
Example token_accepted_after_28_minutes :
  let '(tok, s1) := @checkout sample_sha1 (tick_at 0 5) sample_ip (TokenStore_new (tick_at 0 1)) in
  (@checkin sample_sha1 (tick_at 28 30) sample_ip tok (@run_tokens sample_sha1 [other_call 19 9] s1)).1 = true.
Proof. vm_compute. reflexivity. Qed.
