(* ===== verification/DhtStorage.v ===== *)
(** DhtStorage: [btp-dht/src/storage.rs], the contacts announced to a node.

    Times are nanoseconds.  The store keeps the contacts per torrent and, in
    the order of insertion, when each was inserted; it is proved to implement a
    finite map from contacts to their time of insertion, bounded in size and
    cleared of what is older than a day. *)

From stdpp Require Import base list sorting gmap.
From Stdlib Require Import ZArith Lia.
From S2P Require Import Prelude Convert ShaHash.

Definition MAX_ITEMS_STORED : nat := 500.
Definition EXPIRATION_TIME_HOURS : Z := 24.
Definition NANOS_PER_HOUR : Z := 3600000000000.

Record ItemExpiration := { exp_address : SocketAddr; inserted : Z; exp_info_hash : ShaHash }.

Definition ItemExpiration_new (info_hash : ShaHash) (address : SocketAddr) (now : Z) : ItemExpiration :=
  {| exp_address := address; inserted := now; exp_info_hash := info_hash |}.
Definition item_is_expired (e : ItemExpiration) (now : Z) : bool :=
  (EXPIRATION_TIME_HOURS * NANOS_PER_HOUR <=? now - inserted e)%Z.

(** [PartialEq] leaves the time out. *)
Definition expiration_eqb (a b : ItemExpiration) : bool :=
  bool_decide (exp_address a = exp_address b) && bool_decide (exp_info_hash a = exp_info_hash b).

Record AnnounceItem := { expiration : ItemExpiration }.
Definition AnnounceItem_new (info_hash : ShaHash) (address : SocketAddr) (now : Z) : AnnounceItem :=
  {| expiration := ItemExpiration_new info_hash address now |}.
Definition item_address (i : AnnounceItem) : SocketAddr := exp_address (expiration i).
Definition item_info_hash (i : AnnounceItem) : ShaHash := exp_info_hash (expiration i).
Definition announce_item_eqb (a b : AnnounceItem) : bool := expiration_eqb (expiration a) (expiration b).

Record AnnounceStorage := { storage : gmap ShaHash (list AnnounceItem); expires : list ItemExpiration }.
Definition AnnounceStorage_new : AnnounceStorage := {| storage := ∅; expires := [] |}.

Fixpoint take_while {A} (p : A -> bool) (l : list A) : list A :=
  match l with
  | [] => []
  | a :: l => if p a then a :: take_while p l else []
  end.

(** One turn of the loop in [remove_expired_items]. *)
Definition remove_expiration (m : gmap ShaHash (list AnnounceItem)) (e : ItemExpiration)
    : gmap ShaHash (list AnnounceItem) :=
  let info_hash := exp_info_hash e in
  match m !! info_hash with
  | Some items =>
      let items := filter (fun a => expiration_eqb (expiration a) e = false) items in
      if bool_decide (items = []) then delete info_hash m else <[info_hash := items]> m
  | None => m
  end.

Definition remove_expired_items (curr_time : Z) (s : AnnounceStorage) : AnnounceStorage :=
  let num_expired_items := length (take_while (fun i => item_is_expired i curr_time) (expires s)) in
  {| storage := fold_left remove_expiration (take num_expired_items (expires s)) (storage s);
     expires := drop num_expired_items (expires s) |}.

Definition insert_contact (item : AnnounceItem) (s : AnnounceStorage) : option bool * AnnounceStorage :=
  let info_hash := item_info_hash item in
  let already_in_list :=
    match storage s !! info_hash with
    | Some items => existsb (fun a => announce_item_eqb a item) items
    | None => false
    end in
  match already_in_list, length (expires s) <? MAX_ITEMS_STORED with
  | false, true =>
      let items := match storage s !! info_hash with Some items => items ++ [item] | None => [item] end in
      (Some false, {| storage := <[info_hash := items]> (storage s); expires := expires s |})
  | false, false => (None, s)
  | true, _ => (Some true, s)
  end.

(** [add] reads the clock again for the time of insertion. *)
Definition storage_add (info_hash : ShaHash) (address : SocketAddr) (curr_time now : Z) (s : AnnounceStorage)
    : bool * AnnounceStorage :=
  let s := remove_expired_items curr_time s in
  let item := AnnounceItem_new info_hash address now in
  let item_expiration := expiration item in
  let '(r, s) := insert_contact item s in
  match r with
  | Some true =>
      (true, {| storage := storage s;
                expires := filter (fun i => expiration_eqb i item_expiration = false) (expires s) ++ [item_expiration] |})
  | Some false => (true, {| storage := storage s; expires := expires s ++ [item_expiration] |})
  | None => (false, s)
  end.

(** [find], with the addresses that the closure is called with. *)
Definition storage_find (info_hash : ShaHash) (curr_time : Z) (s : AnnounceStorage)
    : list SocketAddr * AnnounceStorage :=
  let s := remove_expired_items curr_time s in
  (match storage s !! info_hash with Some items => item_address <$> items | None => [] end, s).

(** * The specification *)

Notation contact := (ShaHash * SocketAddr)%type.
Notation contacts := (gmap contact Z).

Definition live (now : Z) (m : contacts) : contacts :=
  filter (fun kt => (now - kt.2 < EXPIRATION_TIME_HOURS * NANOS_PER_HOUR)%Z) m.

Definition spec_add (k : contact) (curr_time now : Z) (m : contacts) : bool * contacts :=
  let m := live curr_time m in
  if bool_decide (is_Some (m !! k)) || (size m <? MAX_ITEMS_STORED) then (true, <[k := now]> m) else (false, m).

Inductive store_op : Type :=
  | OpAdd (info_hash : ShaHash) (address : SocketAddr) (curr_time now : Z)
  | OpFind (info_hash : ShaHash) (curr_time : Z).

(** What an operation gives back: whether a contact is stored, or contacts. *)
Inductive store_result : Type := Added (b : bool) | Found (l : list SocketAddr).

Definition store_step (o : store_op) (s : AnnounceStorage) : store_result * AnnounceStorage :=
  match o with
  | OpAdd h a t n => let '(b, s) := storage_add h a t n s in (Added b, s)
  | OpFind h t => let '(l, s) := storage_find h t s in (Found l, s)
  end.
Definition spec_step (o : store_op) (m : contacts) : bool * contacts :=
  match o with
  | OpAdd h a t n => spec_add (h, a) t n m
  | OpFind h t => (true, live t m)
  end.

(** The answer agrees with the specification's state after the operation. *)
Definition answers (o : store_op) (r : store_result) (spec : bool * contacts) : Prop :=
  match o, r with
  | OpAdd _ _ _ _, Added b => b = spec.1
  | OpFind h _, Found l => NoDup l /\ forall a, a ∈ l <-> is_Some (spec.2 !! (h, a))
  | _, _ => False
  end.

Fixpoint store_run (os : list store_op) (s : AnnounceStorage) (m : contacts) : Prop :=
  match os with
  | [] => True
  | o :: os =>
      let '(r, s) := store_step o s in
      let spec := spec_step o m in
      answers o r spec /\ size spec.2 <= MAX_ITEMS_STORED /\ store_run os s spec.2
  end.

(** The clock does not go back. *)
Fixpoint ops_from (t : Z) (os : list store_op) : Prop :=
  match os with
  | [] => True
  | OpAdd _ _ c n :: os => (t <= c <= n)%Z /\ ops_from n os
  | OpFind _ c :: os => (t <= c)%Z /\ ops_from c os
  end.

(** * Simulation *)

Definition key (e : ItemExpiration) : contact := (exp_info_hash e, exp_address e).
Definition entry (e : ItemExpiration) : contact * Z := (key e, inserted e).
Definition addresses (m : gmap ShaHash (list AnnounceItem)) (h : ShaHash) : list SocketAddr :=
  match m !! h with Some items => item_address <$> items | None => [] end.

Lemma expiration_eqb_spec a b : expiration_eqb a b = true <-> key a = key b.
Proof.
  unfold expiration_eqb, key. rewrite andb_true_iff, !bool_decide_eq_true. split; [by intros [-> ->]|by intros [= -> ->]].
Qed.
Lemma expiration_eqb_false a b : expiration_eqb a b = false <-> key a <> key b.
Proof. rewrite <- expiration_eqb_spec. by destruct (expiration_eqb a b). Qed.

(** The stored contacts [ks], each list without repetitions and not empty. *)
Record stored (m : gmap ShaHash (list AnnounceItem)) (ks : list contact) : Prop := {
  st_items : forall h items, m !! h = Some items -> items <> [] /\ Forall (fun i => item_info_hash i = h) items;
  st_nodup : forall h, NoDup (addresses m h);
  st_keys : forall h a, a ∈ addresses m h <-> (h, a) ∈ ks
}.

Record store_rel (t : Z) (s : AnnounceStorage) (m : contacts) : Prop := {
  sr_nodup : NoDup (key <$> expires s);
  sr_sorted : StronglySorted Z.le (inserted <$> expires s);
  sr_past : Forall (fun e => inserted e <= t)%Z (expires s);
  sr_size : length (expires s) <= MAX_ITEMS_STORED;
  sr_map : m = list_to_map (entry <$> expires s);
  sr_stored : stored (storage s) (key <$> expires s)
}.

Lemma remove_expiration_addresses m e h ks :
  stored m ks -> addresses (remove_expiration m e) h =
    if decide (h = exp_info_hash e) then filter (fun a => a <> exp_address e) (addresses m h) else addresses m h.
Proof.
  intros [Hi _ _]. unfold remove_expiration, addresses.
  destruct (m !! exp_info_hash e) as [items|] eqn:Hm.
  - set (kept := filter _ items).
    assert (Hk : item_address <$> kept = filter (fun a => a <> exp_address e) (item_address <$> items)).
    { destruct (Hi _ _ Hm) as [_ Hf]. unfold kept. clear Hm kept. induction Hf as [|i items Hh Hf IH]; [done|].
      cbn [fmap list_fmap]. rewrite !filter_cons. fold (fmap (M:=list) item_address items). rewrite <- IH.
      assert (Hb : expiration_eqb (expiration i) e = false <-> item_address i <> exp_address e).
      { rewrite expiration_eqb_false. unfold key, item_address, item_info_hash in *. rewrite Hh.
        split; [intros Hne Heq; apply Hne; by rewrite Heq|by intros Hne [= ?]]. }
      destruct (decide (item_address i <> exp_address e)) as [Hd|Hd].
      - by rewrite decide_True by (by apply Hb).
      - by rewrite decide_False by (by rewrite Hb). }
    destruct (decide (h = exp_info_hash e)) as [->|Hne].
    + rewrite Hm, <- Hk. case_bool_decide as Hempty.
      * by rewrite lookup_delete_eq, Hempty.
      * by rewrite lookup_insert_eq.
    + case_bool_decide; [by rewrite lookup_delete_ne|by rewrite lookup_insert_ne].
  - destruct (decide (h = exp_info_hash e)) as [->|]; [|done]. by rewrite Hm.
Qed.

Lemma remove_expiration_stored m e ks :
  stored m ks -> stored (remove_expiration m e) (filter (fun k => k <> key e) ks).
Proof.
  intros Hs. pose proof (fun h => remove_expiration_addresses m e h ks Hs) as Ha. destruct Hs as [Hi Hn Hk]. split.
  - intros h items. unfold remove_expiration. destruct (m !! exp_info_hash e) as [its|] eqn:Hm; [|apply Hi].
    case_bool_decide as Hempty.
    + intros [Hne Hl]%lookup_delete_Some. by apply Hi.
    + intros [[<- <-]|[Hne Hl]]%lookup_insert_Some; [|by apply Hi]. split; [done|].
      destruct (Hi _ _ Hm) as [_ Hf]. rewrite Forall_forall in *. intros i [_ Hin]%list_elem_of_filter. auto.
  - intros h. rewrite Ha. destruct (decide _); [by apply NoDup_filter|done].
  - intros h a. rewrite Ha, list_elem_of_filter, <- Hk. unfold key.
    destruct (decide _) as [->|Hne]; [rewrite list_elem_of_filter|]; naive_solver.
Qed.

Lemma remove_all_stored m es ks :
  stored m ks -> stored (fold_left remove_expiration es m) (filter (fun k => k ∉ key <$> es) ks).
Proof.
  revert m ks. induction es as [|e es IH]; intros m ks Hs; cbn [fold_left fmap list_fmap].
  - rewrite filter_all; [done|]. apply Forall_forall. intros k _. apply not_elem_of_nil.
  - specialize (IH _ _ (remove_expiration_stored m e ks Hs)). destruct IH as [Hi Hn Hk]. split; [done..|].
    intros h a. rewrite Hk, !list_elem_of_filter, not_elem_of_cons. tauto.
Qed.

(** The expired items are those at the head, because the list is in the order
    of insertion. *)
Lemma take_while_split {A} (p : A -> bool) l :
  exists pre post, l = pre ++ post /\ take_while p l = pre /\ Forall (fun a => p a = true) pre /\
    (forall a post', post = a :: post' -> p a = false).
Proof.
  induction l as [|a l IH]; [by exists [], []|]. destruct IH as (pre & post & Hl & Hp & Hf & Hn). simpl.
  destruct (p a) eqn:Hpa.
  - exists (a :: pre), post. rewrite Hp, Hl. split_and!; [done|done|by constructor|done].
  - exists [], (a :: l). split_and!; [done|done|constructor|]. by intros ? ? [= <- _].
Qed.

Lemma list_to_map_size (l : list (contact * Z)) : NoDup (l.*1) -> size (list_to_map l : gmap contact Z) = length l.
Proof.
  intros Hn. rewrite <- length_map_to_list. apply Permutation_length. by apply map_to_list_to_map.
Qed.

Lemma entry_keys es : (entry <$> es).*1 = key <$> es.
Proof. by rewrite <- list_fmap_compose. Qed.

Lemma rel_lookup t s m k x : store_rel t s m ->
  m !! k = Some x <-> exists e, e ∈ expires s /\ key e = k /\ inserted e = x.
Proof.
  intros [Hn _ _ _ -> _]. rewrite <- elem_of_list_to_map by (by rewrite entry_keys).
  rewrite list_elem_of_fmap. unfold entry. naive_solver.
Qed.
Lemma rel_is_Some t s m k : store_rel t s m -> is_Some (m !! k) <-> k ∈ key <$> expires s.
Proof.
  intros Hr. rewrite list_elem_of_fmap. split.
  - intros [x Hx]. apply (rel_lookup _ _ _ _ _ Hr) in Hx as (e & ? & <- & _). eauto.
  - intros (e & -> & He). exists (inserted e). apply (rel_lookup _ _ _ _ _ Hr). eauto.
Qed.
Lemma rel_size t s m : store_rel t s m -> size m = length (expires s).
Proof. intros [Hn _ _ _ -> _]. rewrite list_to_map_size, length_fmap; [done|by rewrite entry_keys]. Qed.

(** Clearing what is expired. *)
Lemma remove_expired_rel t now s m :
  store_rel t s m -> (t <= now)%Z -> store_rel now (remove_expired_items now s) (live now m).
Proof.
  intros Hr Hle. pose proof (rel_lookup t s m) as Hlook. unfold remove_expired_items.
  destruct (take_while_split (fun i => item_is_expired i now) (expires s)) as (pre & post & He & -> & Hpre & Hpost).
  pose proof Hr as [Hn Hs Hp Hsz Hm Hst]. rewrite He in Hn, Hs, Hp, Hsz, Hst.
  rewrite He, take_app_length, drop_app_length. rewrite fmap_app in Hn. rewrite fmap_app in Hs. apply NoDup_app in Hn as (Hn1 & Hn12 & Hn2).
  assert (Hlive : Forall (fun e => item_is_expired e now = false) post).
  { apply StronglySorted_app_1_r in Hs. destruct post as [|e post]; [done|].
    specialize (Hpost e post eq_refl). constructor; [done|].
    inversion Hs as [|? ? _ Hf]; subst. rewrite Forall_fmap in Hf. eapply Forall_impl; [exact Hf|].
    intros x Hx. unfold item_is_expired in *. cbn in Hx. apply Z.leb_gt. apply Z.leb_gt in Hpost. lia. }
  split; cbn [storage expires].
  - done.
  - by apply StronglySorted_app_1_r in Hs.
  - apply Forall_app in Hp as [_ Hp]. eapply Forall_impl; [exact Hp|]. intros e ?. cbn in *. lia.
  - rewrite length_app in Hsz. lia.
  - apply map_eq. intros k. apply option_eq. intros x. unfold live.
    rewrite map_lookup_filter_Some, (Hlook k x Hr), <- elem_of_list_to_map, list_elem_of_fmap by (by rewrite entry_keys).
    unfold entry. cbn [snd]. split.
    + intros [(e & Hin & <- & <-) Hlt]. exists e. split; [done|].
      rewrite He in Hin. apply elem_of_app in Hin as [Hin|]; [|done].
      rewrite Forall_forall in Hpre. apply Hpre in Hin. unfold item_is_expired in Hin. apply Z.leb_le in Hin. lia.
    + intros (e & [= -> ->] & Hin). split; [exists e; split; [rewrite He; by apply elem_of_app; right|done]|].
      rewrite Forall_forall in Hlive. apply Hlive in Hin. unfold item_is_expired in Hin. by apply Z.leb_gt in Hin.
  - pose proof (remove_all_stored _ pre _ Hst) as [Hi Hnd Hk]. split; [done..|].
    intros h a. rewrite Hk, list_elem_of_filter, fmap_app, elem_of_app. split; [tauto|].
    intros Hin. split; [|tauto]. intros Hin'. by apply (Hn12 (h, a)).
Qed.

Lemma already_in_list_iff m ks item : stored m ks ->
  match m !! item_info_hash item with
  | Some items => existsb (fun a => announce_item_eqb a item) items
  | None => false
  end = true <-> key (expiration item) ∈ ks.
Proof.
  intros [Hi _ Hk]. unfold key. fold (item_info_hash item) (item_address item). rewrite <- Hk. unfold addresses.
  destruct (m !! item_info_hash item) as [items|] eqn:Hm; [|split; [done|by intros ?%elem_of_nil]].
  destruct (Hi _ _ Hm) as [_ Hf]. rewrite Forall_forall in Hf. rewrite existsb_exists, list_elem_of_fmap. split.
  - intros (a & Hin & Heq). exists a. apply expiration_eqb_spec in Heq. injection Heq as _ Ha.
    split; [done|by apply list_elem_of_In].
  - intros (a & Ha & Hin). exists a. split; [by apply list_elem_of_In|]. apply expiration_eqb_spec. unfold key.
    specialize (Hf a Hin). unfold item_info_hash, item_address in *. by rewrite Hf, Ha.
Qed.

Lemma insert_item_stored m ks item :
  stored m ks -> key (expiration item) ∉ ks ->
  stored (<[item_info_hash item := match m !! item_info_hash item with Some items => items ++ [item] | None => [item] end]> m)
    (ks ++ [key (expiration item)]).
Proof.
  intros [Hi Hn Hk] Hnew. set (items' := match _ with Some _ => _ | None => _ end).
  assert (Hadd : item_address <$> items' = addresses m (item_info_hash item) ++ [item_address item]).
  { unfold items', addresses. destruct (m !! _); [by rewrite fmap_app|done]. }
  assert (Ha : forall h, addresses (<[item_info_hash item := items']> m) h =
    if decide (h = item_info_hash item) then addresses m h ++ [item_address item] else addresses m h).
  { intros h. unfold addresses at 1. destruct (decide _) as [->|Hne].
    - by rewrite lookup_insert_eq.
    - by rewrite lookup_insert_ne. }
  split.
  - intros h items [[<- <-]|[Hne Hl]]%lookup_insert_Some; [|by apply Hi]. unfold items'.
    destruct (m !! item_info_hash item) as [its|] eqn:Hm; [|by split; [|repeat constructor]].
    split; [by destruct its|]. apply Forall_app. split; [by apply (Hi _ _ Hm)|by repeat constructor].
  - intros h. rewrite Ha. destruct (decide _) as [->|]; [|done]. apply NoDup_app. split_and!; [done| |apply NoDup_singleton].
    intros a Hin Ha'. apply list_elem_of_singleton in Ha' as ->. by apply Hnew, Hk.
  - intros h a. rewrite Ha, elem_of_app, list_elem_of_singleton, <- Hk. unfold key. fold (item_info_hash item) (item_address item).
    destruct (decide _) as [->|Hne]; [rewrite elem_of_app, list_elem_of_singleton|]; naive_solver.
Qed.

Lemma stored_ext m ks ks' : (forall k, k ∈ ks <-> k ∈ ks') -> stored m ks -> stored m ks'.
Proof. intros He [Hi Hn Hk]. split; [done..|]. intros h a. by rewrite Hk. Qed.

Lemma sorted_snoc l x : StronglySorted Z.le l -> Forall (fun y => y <= x)%Z l -> StronglySorted Z.le (l ++ [x]).
Proof.
  intros Hs Hf. apply StronglySorted_app_2; [|done|repeat constructor].
  intros y z Hy Hz. apply list_elem_of_singleton in Hz as ->. rewrite Forall_forall in Hf. auto.
Qed.

Lemma sorted_filter (P : ItemExpiration -> Prop) `{forall e, Decision (P e)} es :
  StronglySorted Z.le (inserted <$> es) -> StronglySorted Z.le (inserted <$> filter P es).
Proof.
  induction es as [|e es IH]; intros Hs; [done|]. inversion Hs as [|? ? Hs' Hf]; subst.
  rewrite filter_cons. destruct (decide (P e)); [|by apply IH]. constructor; [by apply IH|].
  change (Forall (Z.le (inserted e)) (inserted <$> filter P es)).
  change (Forall (Z.le (inserted e)) (inserted <$> es)) in Hf.
  rewrite Forall_fmap, Forall_forall in *. intros x [_ Hx]%list_elem_of_filter. by apply Hf.
Qed.

Lemma keys_without k (es : list ItemExpiration) :
  key <$> filter (fun i => key i <> k) es = filter (fun x => x <> k) (key <$> es).
Proof.
  induction es as [|e es IH]; [done|]. cbn [fmap list_fmap]. rewrite !filter_cons.
  destruct (decide (key e <> k)); [cbn [fmap list_fmap]; f_equal|]; exact IH.
Qed.

(** A contact at the end of the list, after it was taken out. *)
Lemma renew_rel t now s m e (P : ItemExpiration -> Prop) `{forall i, Decision (P i)} st :
  store_rel t s m -> (t <= now)%Z -> inserted e = now -> (forall i, P i <-> key i <> key e) ->
  (is_Some (m !! key e) \/ size m < MAX_ITEMS_STORED) ->
  stored st (key <$> filter P (expires s) ++ [e]) ->
  store_rel now {| storage := st; expires := filter P (expires s) ++ [e] |} (<[key e := now]> m).
Proof.
  intros Hr Hle <- HP Hroom Hst. pose proof (rel_size _ _ _ Hr) as Hsize. pose proof Hr as [Hn Hs Hp Hsz Hm _].
  assert (Hf : filter P (expires s) = filter (fun i => key i <> key e) (expires s)) by (by apply list_filter_iff).
  assert (Hkeys : key <$> filter P (expires s) = filter (fun x => x <> key e) (key <$> expires s))
    by (rewrite Hf; apply keys_without).
  assert (Hnew : key e ∉ key <$> filter P (expires s)) by (rewrite Hkeys, list_elem_of_filter; tauto).
  assert (Hnd : NoDup (key <$> filter P (expires s) ++ [e])).
  { rewrite fmap_app. apply NoDup_app. split_and!; [rewrite Hkeys; by apply NoDup_filter| |apply NoDup_singleton].
    intros k Hk Hk'. by apply list_elem_of_singleton in Hk' as ->. }
  assert (Hmap : <[key e := inserted e]> m = list_to_map (entry <$> filter P (expires s) ++ [e])).
  { rewrite fmap_app. cbn [fmap list_fmap]. unfold entry at 2.
    rewrite list_to_map_snoc by (by rewrite entry_keys). rewrite <- insert_delete_eq. f_equal.
    apply map_eq. intros k. apply option_eq. intros x.
    rewrite lookup_delete_Some, (rel_lookup _ _ _ _ _ Hr), <- elem_of_list_to_map, list_elem_of_fmap
      by (rewrite entry_keys, Hkeys; by apply NoDup_filter).
    unfold entry. setoid_rewrite list_elem_of_filter. setoid_rewrite HP. split.
    - intros [Hne (i & Hi & <- & <-)]. exists i. split_and!; [done|by intros ?; apply Hne|done].
    - intros (i & [= -> ->] & Hne & Hi). split; [by intros ?; apply Hne|eauto]. }
  split; cbn [storage expires]; [done| | | |done|done].
  - rewrite fmap_app. apply sorted_snoc; [by apply sorted_filter|]. rewrite Forall_fmap, Forall_forall in *.
    intros i [_ Hi]%list_elem_of_filter. cbn. specialize (Hp i Hi). cbn in Hp. lia.
  - apply Forall_app. split; [|repeat constructor; lia]. rewrite Forall_forall in *.
    intros i [_ Hi]%list_elem_of_filter. specialize (Hp i Hi). cbn in Hp. lia.
  - apply (f_equal size) in Hmap. rewrite list_to_map_size, length_fmap in Hmap by (by rewrite entry_keys).
    rewrite <- Hmap. destruct Hroom as [[x Hx]|Hlt].
    + rewrite map_size_insert, Hx. cbn. lia.
    + rewrite map_size_insert. destruct (m !! key e); cbn; lia.
Qed.

Lemma storage_add_rel t c now s m h a :
  store_rel t s m -> (t <= c <= now)%Z ->
  let '(b, s') := storage_add h a c now s in
  let '(b', m') := spec_add (h, a) c now m in
  b = b' /\ store_rel now s' m'.
Proof.
  intros Hr [H1 H2]. unfold storage_add, spec_add. pose proof (remove_expired_rel t c s m Hr H1) as Hr1.
  set (s1 := remove_expired_items c s) in *. set (m1 := live c m) in *. set (item := AnnounceItem_new h a now).
  pose proof (rel_size _ _ _ Hr1) as Hsize. pose proof (rel_is_Some _ _ _ (h, a) Hr1) as Hsome.
  pose proof Hr1 as [_ _ _ Hmax _ Hst]. pose proof (already_in_list_iff _ _ item Hst) as Hin.
  change (key (expiration item)) with (h, a) in Hin. unfold insert_contact. rewrite Hsize.
  set (inb := match _ !! item_info_hash item with Some _ => _ | None => false end) in *. destruct inb.
  - rewrite bool_decide_eq_true_2 by (by apply Hsome, Hin). cbn [orb]. split; [done|]. cbn [storage].
    apply (renew_rel c now s1 m1 (expiration item) (fun i => expiration_eqb i (expiration item) = false)); try done.
    + intros i. apply expiration_eqb_false.
    + left. by apply Hsome, Hin.
    + eapply stored_ext; [|exact Hst]. intros k. rewrite fmap_app, elem_of_app. cbn [fmap list_fmap].
      rewrite list_elem_of_singleton, !list_elem_of_fmap. setoid_rewrite list_elem_of_filter.
      setoid_rewrite expiration_eqb_false. split.
      * intros (i & -> & Hi). destruct (decide (key i = key (expiration item))); [by right|left; eauto].
      * intros [(i & -> & _ & Hi)| -> ]; [eauto|]. by apply list_elem_of_fmap, Hin.
  - assert (Hni : (h, a) ∉ key <$> expires s1) by (intros Hx; by apply Hin in Hx).
    rewrite bool_decide_eq_false_2 by (by rewrite Hsome). cbn [orb].
    destruct (Nat.ltb_spec (length (expires s1)) MAX_ITEMS_STORED) as [Hlt|Hge].
    + split; [done|]. cbn [storage expires].
      assert (Hall : filter (fun i => key i <> (h, a)) (expires s1) = expires s1).
      { apply filter_all, Forall_forall. intros i Hi Hk. apply Hni. rewrite <- Hk. by apply list_elem_of_fmap_2. }
      rewrite <- Hall. apply (renew_rel c now s1 m1 (expiration item) (fun i => key i <> (h, a))); try done.
      * right. lia.
      * rewrite Hall, fmap_app. apply (insert_item_stored _ _ item); done.
    + split; [done|]. destruct Hr1 as [A1 A2 A3 A4 A5 A6]. split; try done.
      eapply Forall_impl; [exact A3|]. intros i Hi. cbn in *. lia.
Qed.

Lemma storage_find_rel t c s m h :
  store_rel t s m -> (t <= c)%Z ->
  let '(l, s') := storage_find h c s in
  store_rel c s' (live c m) /\ NoDup l /\ forall a, a ∈ l <-> is_Some (live c m !! (h, a)).
Proof.
  intros Hr H1. unfold storage_find. pose proof (remove_expired_rel t c s m Hr H1) as Hr1.
  split; [done|]. pose proof (fun a => rel_is_Some _ _ _ (h, a) Hr1) as Hsome.
  destruct Hr1 as [_ _ _ _ _ [_ Hn Hk]]. split; [by apply (Hn h)|]. intros a. rewrite Hsome. by apply (Hk h).
Qed.

Lemma empty_store_rel t : store_rel t AnnounceStorage_new ∅.
Proof.
  split; cbn; [apply NoDup_nil_2|constructor|constructor|lia|done|].
  split; unfold addresses; intros h; [intros items|..]; rewrite lookup_empty.
  - done.
  - apply NoDup_nil_2.
  - intros a. by rewrite !elem_of_nil.
Qed.

Lemma store_run_ok os t s m : store_rel t s m -> ops_from t os -> store_run os s m.
Proof.
  revert t s m. induction os as [|o os IH]; intros t s m Hr Hts; [done|].
  destruct o as [h a c n|h c]; cbn [store_run store_step spec_step ops_from answers] in *; destruct Hts as [Ht Hts].
  - pose proof (storage_add_rel t c n s m h a Hr Ht) as Hadd.
    destruct (storage_add h a c n s) as [b s'], (spec_add (h, a) c n m) as [b' m']. destruct Hadd as [-> Hr'].
    split_and!; [done| |by apply (IH n)]. cbn [snd]. rewrite (rel_size _ _ _ Hr'). by destruct Hr'.
  - pose proof (storage_find_rel t c s m h Hr Ht) as Hfind. destruct (storage_find h c s) as [l s'].
    destruct Hfind as (Hr' & Hl). split; [done|]. split; [|by apply (IH c)]. cbn [snd].
    rewrite (rel_size _ _ _ Hr'). by destruct Hr'.
Qed.

(** C20. The announce store implements a bounded map of contacts: on any sequence
    of operations with a clock that does not go back, an announce is stored or
    renewed exactly if the contact is already there or fewer than 500 contacts
    of the last day are, and a search yields, each once, exactly the contacts of
    that torrent announced within the last day. *)
Theorem storage_refines_map (t : Z) (os : list store_op) :
  ops_from t os -> store_run os AnnounceStorage_new ∅.
Proof.
  intros Hts. apply (store_run_ok os t); [apply empty_store_rel|done].
Qed.

Definition sample_hash (b : Z) : ShaHash := {| hash := replicate 20 b |}.
Definition sample_contact (p : Z) : SocketAddr := SockV4 {| v4_ip := Ipv4 10 0 0 1; v4_port := p |}.
Definition hours (n : Z) : Z := (n * NANOS_PER_HOUR)%Z.
Definition sample_ops : list store_op :=
  [OpAdd (sample_hash 1) (sample_contact 80) 0 1; OpAdd (sample_hash 1) (sample_contact 81) (hours 1) (hours 1);
   OpAdd (sample_hash 1) (sample_contact 80) (hours 20) (hours 20); OpFind (sample_hash 1) (hours 26)].

Lemma storage_refines_map_witness :
  store_run sample_ops AnnounceStorage_new ∅ /\
  (storage_find (sample_hash 1) (hours 26)
    (fold_left (fun s o => (store_step o s).2) (take 3 sample_ops) AnnounceStorage_new)).1 = [sample_contact 80].
Proof.
  split; [|by vm_compute]. apply (storage_refines_map 0 sample_ops). vm_compute. intuition discriminate.
Defined.
