(* ===== verification/DhtMessage.v ===== *)
(** DhtMessage: the KRPC messages of [btp-dht/src/message] and the errors of
    [btp-dht/src/error.rs], on top of the bencode model.

    A message holds the bytes of its parts; [from_parts] reads it from a decoded
    dictionary, [encode] builds the dictionary and encodes it.  Strings are
    their UTF-8 bytes. *)

From stdpp Require Import base list.
From Stdlib Require Import ZArith Lia.
From Stdlib Require String.
From S2P Require Import Prelude OrdMap Bencode Convert ShaHash.
Import String.StringSyntax.

(** * Keys *)

Definition TRANSACTION_ID_KEY : bytes := Eval vm_compute in ascii_bytes "t".
Definition MESSAGE_TYPE_KEY : bytes := Eval vm_compute in ascii_bytes "y".
Definition REQUEST_TYPE_KEY : bytes := Eval vm_compute in ascii_bytes "q".
Definition RESPONSE_TYPE_KEY : bytes := Eval vm_compute in ascii_bytes "r".
Definition ERROR_TYPE_KEY : bytes := Eval vm_compute in ascii_bytes "e".
Definition ROOT_ID_KEY : bytes := Eval vm_compute in ascii_bytes "root".
Definition NODE_ID_KEY : bytes := Eval vm_compute in ascii_bytes "id".
Definition NODES_KEY : bytes := Eval vm_compute in ascii_bytes "nodes".
Definition VALUES_KEY : bytes := Eval vm_compute in ascii_bytes "values".
Definition TARGET_ID_KEY : bytes := Eval vm_compute in ascii_bytes "target".
Definition INFO_HASH_KEY : bytes := Eval vm_compute in ascii_bytes "info_hash".
Definition TOKEN_KEY : bytes := Eval vm_compute in ascii_bytes "token".
Definition REQUEST_ARGS_KEY : bytes := Eval vm_compute in ascii_bytes "a".
Definition PING_TYPE_KEY : bytes := Eval vm_compute in ascii_bytes "ping".
Definition FIND_NODE_TYPE_KEY : bytes := Eval vm_compute in ascii_bytes "find_node".
Definition GET_PEERS_TYPE_KEY : bytes := Eval vm_compute in ascii_bytes "get_peers".
Definition ANNOUNCE_PEER_TYPE_KEY : bytes := Eval vm_compute in ascii_bytes "announce_peer".
Definition RESPONSE_ARGS_KEY : bytes := Eval vm_compute in ascii_bytes "r".
Definition ERROR_ARGS_KEY : bytes := Eval vm_compute in ascii_bytes "e".
Definition PORT_KEY : bytes := Eval vm_compute in ascii_bytes "port".
Definition IMPLIED_PORT_KEY : bytes := Eval vm_compute in ascii_bytes "implied_port".

(** * Errors *)

Inductive ErrorCode : Type := GenericError | ServerError | ProtocolError | MethodUnknown.

Record ErrorMessage := { err_trans_id : bytes; err_code : ErrorCode; err_message : bytes }.

Inductive DhtError : Type :=
  | DhtBencode (e : BencodeConvertErrorKind)
  | InvalidMessage (code : bytes)
  | InvalidResponse (details : bytes)
  | UnsolicitedResponse
  | InvalidRequest (msg : ErrorMessage).

Notation dht A := (outcome DhtError A).

(** [error.into()], the conversion of all the validators. *)
#[global] Instance DhtConvert : BConvert DhtError := {| handle_error := DhtBencode |}.

(** [{:?}] of a byte slice. *)
Definition debug_bytes (bs : bytes) : bytes :=
  ascii_bytes "[" ++
  match bs with
  | [] => []
  | b :: bs => to_string b ++ concat ((fun b => ascii_bytes ", " ++ to_string b) <$> bs)
  end ++ ascii_bytes "]".

Definition ErrorCode_new (code : Z) : dht ErrorCode :=
  if (code =? 201)%Z then Ok GenericError
  else if (code =? 202)%Z then Ok ServerError
  else if (code =? 203)%Z then Ok ProtocolError
  else if (code =? 204)%Z then Ok MethodUnknown
  else Err (InvalidResponse (ascii_bytes "Error Message Invalid Error Code " ++ to_string code)).

Definition ErrorCode_into (c : ErrorCode) : Z :=
  match c with
  | GenericError => 201
  | ServerError => 202
  | ProtocolError => 203
  | MethodUnknown => 204
  end.

Definition NUM_ERROR_ARGS : nat := 2.

Definition extract_error_args (args : list BencodeRef) : dht (Z * bytes) :=
  if negb (length args =? NUM_ERROR_ARGS) then
    Err (InvalidResponse (ascii_bytes "Error Message Invalid Number Of Error Args: "
      ++ to_string (Z.of_nat (length args))))
  else
    a0 ← opt_unwrap (args !! 0);
    code ← convert_int a0 (ERROR_ARGS_KEY ++ ascii_bytes "[0]");
    a1 ← opt_unwrap (args !! 1);
    message ← convert_str a1 (ERROR_ARGS_KEY ++ ascii_bytes "[1]");
    Ok (to_u8 code, message).

Definition ErrorMessage_new (trans_id : bytes) (code : ErrorCode) (message : bytes) : ErrorMessage :=
  {| err_trans_id := trans_id; err_code := code; err_message := message |}.

Definition ErrorMessage_from_parts (root : list (bytes * BencodeRef)) (trans_id : bytes) : dht ErrorMessage :=
  error_args ← lookup_and_convert_list root ERROR_ARGS_KEY;
  '(code, message) ← extract_error_args error_args;
  error_code ← ErrorCode_new code;
  Ok {| err_trans_id := trans_id; err_code := error_code; err_message := message |}.

Definition ErrorMessage_encode (m : ErrorMessage) : bytes :=
  encode (ben_map [
    (TRANSACTION_ID_KEY, new_bytes (err_trans_id m));
    (MESSAGE_TYPE_KEY, new_bytes ERROR_TYPE_KEY);
    (ERROR_TYPE_KEY, ben_list [new_int (ErrorCode_into (err_code m)); new_bytes (err_message m)])]).

(** * Compact node and peer lists (compact_info.rs) *)

Definition BYTES_PER_COMPACT_IP : nat := 6.
Definition BYTES_PER_COMPACT_NODE_INFO : nat := 26.
Definition NODE_ID_LEN : nat := SHA_HASH_LEN.

Definition socket_v4_from_bytes_be (bs : bytes) : outcome LengthError SocketAddrV4 :=
  if negb (length bs =? BYTES_PER_COMPACT_IP) then Err (LengthError_new LengthExpected BYTES_PER_COMPACT_IP)
  else
    oc_one ← index bs 0; oc_two ← index bs 1; oc_three ← index bs 2; oc_four ← index bs 3;
    b4 ← index bs 4;
    let port := to_u16 (Z.shiftl (Z.lor 0 b4) 8) in
    b5 ← index bs 5;
    Ok {| v4_ip := Ipv4 oc_one oc_two oc_three oc_four; v4_port := Z.lor port b5 |}.

Definition parts_from_compact_info (compact_info : bytes) : outcome LengthError (ShaHash * SocketAddrV4) :=
  id_bytes ← slice compact_info 0 NODE_ID_LEN;
  node_id ← unwrap (from_hash id_bytes);
  let compact_ip_offset := NODE_ID_LEN + BYTES_PER_COMPACT_IP in
  ip_bytes ← slice compact_info NODE_ID_LEN compact_ip_offset;
  socket ← unwrap (socket_v4_from_bytes_be ip_bytes);
  Ok (node_id, socket).

Record CompactNodeInfo := { nodes : bytes }.
Definition CompactNodeInfo_new (nodes : bytes) : outcome LengthError CompactNodeInfo :=
  if negb (length nodes mod BYTES_PER_COMPACT_NODE_INFO =? 0)
  then Err (LengthError_new LengthMultipleExpected BYTES_PER_COMPACT_NODE_INFO)
  else Ok {| nodes := nodes |}.

Record CompactNodeInfoIter := { ni_nodes : bytes; ni_pos : nat }.
Definition node_info_iter (c : CompactNodeInfo) : CompactNodeInfoIter := {| ni_nodes := nodes c; ni_pos := 0 |}.
Definition node_info_next (it : CompactNodeInfoIter)
    : outcome LengthError (option (ShaHash * SocketAddrV4) * CompactNodeInfoIter) :=
  if ni_pos it =? length (ni_nodes it) then Ok (None, it)
  else
    let compact_info_offset := ni_pos it + BYTES_PER_COMPACT_NODE_INFO in
    compact_info ← slice (ni_nodes it) (ni_pos it) compact_info_offset;
    parts ← parts_from_compact_info compact_info;
    Ok (Some parts, {| ni_nodes := ni_nodes it; ni_pos := ni_pos it + BYTES_PER_COMPACT_NODE_INFO |}).

Record CompactValueInfo := { values : list bytes }.

(** The [for] loop of [CompactValueInfo::new]. *)
Fixpoint check_values (index : nat) (values : list bytes) : outcome LengthError unit :=
  match values with
  | [] => Ok tt
  | node :: values =>
      if negb (length node =? BYTES_PER_COMPACT_IP)
      then Err (LengthError_with_index LengthExpected BYTES_PER_COMPACT_IP index)
      else check_values (S index) values
  end.
Definition CompactValueInfo_new (values : list bytes) : outcome LengthError CompactValueInfo :=
  _ ← check_values 0 values; Ok {| values := values |}.

Record CompactValueInfoIter := { vi_values : list bytes; vi_pos : nat }.
Definition value_info_iter (c : CompactValueInfo) : CompactValueInfoIter := {| vi_values := values c; vi_pos := 0 |}.
Definition value_info_next (it : CompactValueInfoIter)
    : outcome LengthError (option SocketAddrV4 * CompactValueInfoIter) :=
  if vi_pos it =? length (vi_values it) then Ok (None, it)
  else
    compact_info ← opt_unwrap (vi_values it !! vi_pos it);
    addr ← unwrap (socket_v4_from_bytes_be compact_info);
    Ok (Some addr, {| vi_values := vi_values it; vi_pos := vi_pos it + 1 |}).

(** [collect] over an iterator. *)
Fixpoint collect_iter {E It A} (next : It -> outcome E (option A * It)) (fuel : nat) (it : It) : outcome E (list A) :=
  match fuel with
  | 0 => NoFuel
  | S fuel =>
      '(o, it) ← next it;
      match o with
      | None => Ok []
      | Some a => rest ← collect_iter next fuel it; Ok (a :: rest)
      end
  end.
Definition collect_nodes (c : CompactNodeInfo) : outcome LengthError (list (ShaHash * SocketAddrV4)) :=
  collect_iter node_info_next (length (nodes c) + 1) (node_info_iter c).
Definition collect_values (c : CompactValueInfo) : outcome LengthError (list SocketAddrV4) :=
  collect_iter value_info_next (length (values c) + 1) (value_info_iter c).

(** * Validation (request.rs, response.rs) *)

Definition RequestValidate_node_id (trans_id node_id : bytes) : dht ShaHash :=
  map_err (fun _ => InvalidRequest (ErrorMessage_new trans_id ProtocolError
      (ascii_bytes "Node ID With Length " ++ to_string (Z.of_nat (length node_id)) ++ ascii_bytes " Is Not Valid")))
    (from_hash node_id).
Definition RequestValidate_info_hash (trans_id info_hash : bytes) : dht ShaHash :=
  map_err (fun _ => InvalidRequest (ErrorMessage_new trans_id ProtocolError
      (ascii_bytes "InfoHash With Length " ++ to_string (Z.of_nat (length info_hash)) ++ ascii_bytes " Is Not Valid")))
    (from_hash info_hash).

Definition ResponseValidate_node_id (trans_id node_id : bytes) : dht ShaHash :=
  map_err (fun _ => InvalidResponse (ascii_bytes "TID " ++ debug_bytes trans_id
      ++ ascii_bytes " Found Node ID With Invalid Length " ++ to_string (Z.of_nat (length node_id))))
    (from_hash node_id).
Definition validate_nodes (trans_id nodes : bytes) : dht CompactNodeInfo :=
  map_err (fun _ => InvalidResponse (ascii_bytes "TID " ++ debug_bytes trans_id
      ++ ascii_bytes " Found Nodes Structure With " ++ to_string (Z.of_nat (length nodes))
      ++ ascii_bytes " Number Of Bytes Instead Of Correct Multiple"))
    (CompactNodeInfo_new nodes).

(** The [for] loop of [validate_values]. *)
Fixpoint value_bytes (trans_id : bytes) (values : list BencodeRef) : dht (list bytes) :=
  match values with
  | [] => Ok []
  | bencode :: values =>
      match bytes_of bencode with
      | Some peer => peers ← value_bytes trans_id values; Ok (peer :: peers)
      | None => Err (InvalidResponse (ascii_bytes "TID " ++ debug_bytes trans_id
                  ++ ascii_bytes " Found Values Structure As Non Bytes Type"))
      end
  end.
Definition validate_values (trans_id : bytes) (values : list BencodeRef) : dht CompactValueInfo :=
  peers ← value_bytes trans_id values;
  map_err (fun _ => InvalidResponse (ascii_bytes "TID " ++ debug_bytes trans_id
      ++ ascii_bytes " Found Values Structrue With Wrong Number Of Bytes"))
    (CompactValueInfo_new peers).

(** * Requests *)

Section Requests.
Notation dict := (list (bytes * BencodeRef)).

Record PingRequest := { pq_trans_id : bytes; pq_node_id : ShaHash }.
Definition PingRequest_from_parts (rqst_root : dict) (trans_id : bytes) : dht PingRequest :=
  node_id_bytes ← lookup_and_convert_bytes rqst_root NODE_ID_KEY;
  node_id ← RequestValidate_node_id trans_id node_id_bytes;
  Ok {| pq_trans_id := trans_id; pq_node_id := node_id |}.
Definition PingRequest_encode (m : PingRequest) : bytes :=
  encode (ben_map [
    (TRANSACTION_ID_KEY, new_bytes (pq_trans_id m));
    (MESSAGE_TYPE_KEY, new_bytes REQUEST_TYPE_KEY);
    (REQUEST_TYPE_KEY, new_bytes PING_TYPE_KEY);
    (REQUEST_ARGS_KEY, ben_map [(NODE_ID_KEY, new_bytes (hash (pq_node_id m)))])]).

Record FindNodeRequest := { fq_trans_id : bytes; fq_node_id : ShaHash; fq_target_id : ShaHash }.
Definition FindNodeRequest_from_parts (rqst_root : dict) (trans_id target_key : bytes) : dht FindNodeRequest :=
  node_id_bytes ← lookup_and_convert_bytes rqst_root NODE_ID_KEY;
  node_id ← RequestValidate_node_id trans_id node_id_bytes;
  target_id_bytes ← lookup_and_convert_bytes rqst_root target_key;
  target_id ← RequestValidate_node_id trans_id target_id_bytes;
  Ok {| fq_trans_id := trans_id; fq_node_id := node_id; fq_target_id := target_id |}.
Definition FindNodeRequest_encode (m : FindNodeRequest) : bytes :=
  encode (ben_map [
    (TRANSACTION_ID_KEY, new_bytes (fq_trans_id m));
    (MESSAGE_TYPE_KEY, new_bytes REQUEST_TYPE_KEY);
    (REQUEST_TYPE_KEY, new_bytes FIND_NODE_TYPE_KEY);
    (REQUEST_ARGS_KEY, ben_map [
      (NODE_ID_KEY, new_bytes (hash (fq_node_id m)));
      (TARGET_ID_KEY, new_bytes (hash (fq_target_id m)))])]).

Record GetPeersRequest := { gq_trans_id : bytes; gq_node_id : ShaHash; gq_info_hash : ShaHash }.
Definition GetPeersRequest_from_parts (rqst_root : dict) (trans_id : bytes) : dht GetPeersRequest :=
  node_id_bytes ← lookup_and_convert_bytes rqst_root NODE_ID_KEY;
  node_id ← RequestValidate_node_id trans_id node_id_bytes;
  info_hash_bytes ← lookup_and_convert_bytes rqst_root INFO_HASH_KEY;
  info_hash ← RequestValidate_info_hash trans_id info_hash_bytes;
  Ok {| gq_trans_id := trans_id; gq_node_id := node_id; gq_info_hash := info_hash |}.
Definition GetPeersRequest_encode (m : GetPeersRequest) : bytes :=
  encode (ben_map [
    (TRANSACTION_ID_KEY, new_bytes (gq_trans_id m));
    (MESSAGE_TYPE_KEY, new_bytes REQUEST_TYPE_KEY);
    (REQUEST_TYPE_KEY, new_bytes GET_PEERS_TYPE_KEY);
    (REQUEST_ARGS_KEY, ben_map [
      (NODE_ID_KEY, new_bytes (hash (gq_node_id m)));
      (INFO_HASH_KEY, new_bytes (hash (gq_info_hash m)))])]).

Inductive ConnectPort : Type := Implied | Explicit (port : Z).

Record AnnouncePeerRequest := {
  aq_trans_id : bytes; aq_node_id : ShaHash; aq_info_hash : ShaHash; aq_token : bytes; aq_port : ConnectPort
}.
Definition AnnouncePeerRequest_from_parts (rqst_root : dict) (trans_id : bytes) : dht AnnouncePeerRequest :=
  node_id_bytes ← lookup_and_convert_bytes rqst_root NODE_ID_KEY;
  node_id ← RequestValidate_node_id trans_id node_id_bytes;
  info_hash_bytes ← lookup_and_convert_bytes rqst_root INFO_HASH_KEY;
  info_hash ← RequestValidate_info_hash trans_id info_hash_bytes;
  token ← lookup_and_convert_bytes rqst_root TOKEN_KEY;
  let port : dht Z := lookup_and_convert_int rqst_root PORT_KEY in
  response_port ←
    match int <$> dict_lookup rqst_root IMPLIED_PORT_KEY with
    | Some (Some n) => if negb (n =? 0)%Z then Ok Implied else p ← port; Ok (Explicit (to_u16 p))
    | _ => p ← port; Ok (Explicit (to_u16 p))
    end;
  Ok {| aq_trans_id := trans_id; aq_node_id := node_id; aq_info_hash := info_hash;
        aq_token := token; aq_port := response_port |}.
Definition AnnouncePeerRequest_encode (m : AnnouncePeerRequest) : bytes :=
  let '(displayed_port, implied_value) :=
    match aq_port m with Implied => (0, 1)%Z | Explicit n => (n, 0%Z) end in
  encode (ben_map [
    (TRANSACTION_ID_KEY, new_bytes (aq_trans_id m));
    (MESSAGE_TYPE_KEY, new_bytes REQUEST_TYPE_KEY);
    (REQUEST_TYPE_KEY, new_bytes ANNOUNCE_PEER_TYPE_KEY);
    (REQUEST_ARGS_KEY, ben_map [
      (NODE_ID_KEY, new_bytes (hash (aq_node_id m)));
      (IMPLIED_PORT_KEY, new_int implied_value);
      (INFO_HASH_KEY, new_bytes (hash (aq_info_hash m)));
      (PORT_KEY, new_int displayed_port);
      (TOKEN_KEY, new_bytes (aq_token m))])]).

Inductive RequestType : Type :=
  | RqPing (m : PingRequest)
  | RqFindNode (m : FindNodeRequest)
  | RqGetPeers (m : GetPeersRequest)
  | RqAnnouncePeer (m : AnnouncePeerRequest).

Definition forward_compatible_find_node (rqst_root : dict) : option bytes :=
  match dict_lookup rqst_root TARGET_ID_KEY, dict_lookup rqst_root INFO_HASH_KEY with
  | Some _, _ => Some TARGET_ID_KEY
  | _, Some _ => Some INFO_HASH_KEY
  | None, None => None
  end.

Definition RequestType_from_parts (root : dict) (trans_id rqst_type : bytes) : dht RequestType :=
  rqst_root ← lookup_and_convert_dict root REQUEST_ARGS_KEY;
  if bool_decide (rqst_type = PING_TYPE_KEY) then
    m ← PingRequest_from_parts rqst_root trans_id; Ok (RqPing m)
  else if bool_decide (rqst_type = FIND_NODE_TYPE_KEY) then
    m ← FindNodeRequest_from_parts rqst_root trans_id TARGET_ID_KEY; Ok (RqFindNode m)
  else if bool_decide (rqst_type = GET_PEERS_TYPE_KEY) then
    m ← GetPeersRequest_from_parts rqst_root trans_id; Ok (RqGetPeers m)
  else if bool_decide (rqst_type = ANNOUNCE_PEER_TYPE_KEY) then
    m ← AnnouncePeerRequest_from_parts rqst_root trans_id; Ok (RqAnnouncePeer m)
  else
    match forward_compatible_find_node rqst_root with
    | Some target_key => m ← FindNodeRequest_from_parts rqst_root trans_id target_key; Ok (RqFindNode m)
    | None =>
        Err (InvalidRequest (ErrorMessage_new trans_id MethodUnknown
          (ascii_bytes "Received Unknown Request Method: " ++ rqst_type)))
    end.

(** * Responses *)

(** [ActingResponse], which is also [PingResponse] and [AnnouncePeerResponse]. *)
Record ActingResponse := { ar_trans_id : bytes; ar_node_id : ShaHash }.
Definition ActingResponse_from_parts (rqst_root : dict) (trans_id : bytes) : dht ActingResponse :=
  node_id_bytes ← lookup_and_convert_bytes rqst_root NODE_ID_KEY;
  node_id ← RequestValidate_node_id trans_id node_id_bytes;
  Ok {| ar_trans_id := trans_id; ar_node_id := node_id |}.
Definition ActingResponse_encode (m : ActingResponse) : bytes :=
  encode (ben_map [
    (TRANSACTION_ID_KEY, new_bytes (ar_trans_id m));
    (MESSAGE_TYPE_KEY, new_bytes RESPONSE_TYPE_KEY);
    (RESPONSE_TYPE_KEY, ben_map [(NODE_ID_KEY, new_bytes (hash (ar_node_id m)))])]).

Record FindNodeResponse := { fr_trans_id : bytes; fr_node_id : ShaHash; fr_nodes : CompactNodeInfo }.
Definition FindNodeResponse_new (trans_id : bytes) (node_id : ShaHash) (nodes : bytes) : dht FindNodeResponse :=
  compact_nodes ← validate_nodes trans_id nodes;
  Ok {| fr_trans_id := trans_id; fr_node_id := node_id; fr_nodes := compact_nodes |}.
Definition FindNodeResponse_from_parts (rsp_root : dict) (trans_id : bytes) : dht FindNodeResponse :=
  node_id_bytes ← lookup_and_convert_bytes rsp_root NODE_ID_KEY;
  node_id ← ResponseValidate_node_id trans_id node_id_bytes;
  nodes ← lookup_and_convert_bytes rsp_root NODES_KEY;
  FindNodeResponse_new trans_id node_id nodes.
Definition FindNodeResponse_encode (m : FindNodeResponse) : bytes :=
  encode (ben_map [
    (TRANSACTION_ID_KEY, new_bytes (fr_trans_id m));
    (MESSAGE_TYPE_KEY, new_bytes RESPONSE_TYPE_KEY);
    (RESPONSE_TYPE_KEY, ben_map [
      (NODE_ID_KEY, new_bytes (hash (fr_node_id m)));
      (NODES_KEY, new_bytes (nodes (fr_nodes m)))])]).

Inductive CompactInfoType : Type :=
  | Nodes (n : CompactNodeInfo)
  | Values (v : CompactValueInfo)
  | Both (n : CompactNodeInfo) (v : CompactValueInfo).

Record GetPeersResponse := {
  gr_trans_id : bytes; gr_node_id : ShaHash; gr_token : option bytes; gr_info_type : CompactInfoType
}.
Definition GetPeersResponse_from_parts (rsp_root : dict) (trans_id : bytes) : dht GetPeersResponse :=
  node_id_bytes ← lookup_and_convert_bytes rsp_root NODE_ID_KEY;
  node_id ← ResponseValidate_node_id trans_id node_id_bytes;
  let token := match lookup_and_convert_bytes (Error := DhtError) rsp_root TOKEN_KEY with
               | Ok t => Some t
               | _ => None
               end in
  let maybe_nodes : dht bytes := lookup_and_convert_bytes rsp_root NODES_KEY in
  let maybe_values : dht (list BencodeRef) := lookup_and_convert_list rsp_root VALUES_KEY in
  info_type ←
    match maybe_nodes, maybe_values with
    | Ok nodes, Ok values =>
        nodes_info ← validate_nodes trans_id nodes;
        values_info ← validate_values trans_id values;
        Ok (Both nodes_info values_info)
    | Ok nodes, _ => nodes_info ← validate_nodes trans_id nodes; Ok (Nodes nodes_info)
    | _, Ok values => values_info ← validate_values trans_id values; Ok (Values values_info)
    | _, _ => Err (InvalidResponse (ascii_bytes "Failed To Find nodes Or values In Node Response"))
    end;
  Ok {| gr_trans_id := trans_id; gr_node_id := node_id; gr_token := token; gr_info_type := info_type |}.

(** The [push] loops over the values. *)
Definition values_list (v : CompactValueInfo) : BencodeMut :=
  MList (fold_left (fun l x => list_push l (new_bytes x)) (values v) []).
Definition GetPeersResponse_encode (m : GetPeersResponse) : bytes :=
  let d := (dict_insert [] NODE_ID_KEY (new_bytes (hash (gr_node_id m)))).2 in
  let d := match gr_token m with
           | Some token => (dict_insert d TOKEN_KEY (new_bytes token)).2
           | None => d
           end in
  let d := match gr_info_type m with
           | Nodes n => (dict_insert d NODES_KEY (new_bytes (nodes n))).2
           | Values v => (dict_insert d VALUES_KEY (values_list v)).2
           | Both n v =>
               let d := (dict_insert d NODES_KEY (new_bytes (nodes n))).2 in
               (dict_insert d VALUES_KEY (values_list v)).2
           end in
  encode (ben_map [
    (TRANSACTION_ID_KEY, new_bytes (gr_trans_id m));
    (MESSAGE_TYPE_KEY, new_bytes RESPONSE_TYPE_KEY);
    (RESPONSE_ARGS_KEY, MDict d)]).

Inductive ExpectedResponse : Type := ExFindNode | ExGetPeers | ExActing | ExGetData | ExPutData | ExNone.

Inductive ResponseType : Type :=
  | RsPing (m : ActingResponse)
  | RsFindNode (m : FindNodeResponse)
  | RsGetPeers (m : GetPeersResponse)
  | RsAnnouncePeer (m : ActingResponse)
  | RsActing (m : ActingResponse).

(** The kind of a response is guessed from the keys it has. *)
Definition response_kind (rqst_root : dict) : ExpectedResponse :=
  if bool_decide (is_Some (dict_lookup rqst_root TOKEN_KEY)) then ExGetPeers
  else if bool_decide (is_Some (dict_lookup rqst_root NODES_KEY)) then ExFindNode
  else ExActing.
Definition ResponseType_from_parts (root : dict) (trans_id : bytes) : dht ResponseType :=
  rqst_root ← lookup_and_convert_dict root RESPONSE_ARGS_KEY;
  match response_kind rqst_root with
  | ExFindNode => m ← FindNodeResponse_from_parts rqst_root trans_id; Ok (RsFindNode m)
  | ExGetPeers => m ← GetPeersResponse_from_parts rqst_root trans_id; Ok (RsGetPeers m)
  | ExActing => m ← ActingResponse_from_parts rqst_root trans_id; Ok (RsActing m)
  | ExGetData | ExPutData => Panic
  | ExNone => Err UnsolicitedResponse
  end.

(** * All messages (mod.rs) *)

Inductive MessageType : Type :=
  | Request (m : RequestType)
  | Response (m : ResponseType)
  | MsgError (m : ErrorMessage).

Definition MessageType_new (message : BencodeRef) : dht MessageType :=
  msg_root ← convert_dict message ROOT_ID_KEY;
  trans_id ← lookup_and_convert_bytes msg_root TRANSACTION_ID_KEY;
  msg_type ← lookup_and_convert_str msg_root MESSAGE_TYPE_KEY;
  if bool_decide (msg_type = REQUEST_TYPE_KEY) then
    rqst_type ← lookup_and_convert_str msg_root REQUEST_TYPE_KEY;
    rqst_msg ← RequestType_from_parts msg_root trans_id rqst_type;
    Ok (Request rqst_msg)
  else if bool_decide (msg_type = RESPONSE_TYPE_KEY) then
    rsp_message ← ResponseType_from_parts msg_root trans_id;
    Ok (Response rsp_message)
  else if bool_decide (msg_type = ERROR_TYPE_KEY) then
    err_message ← ErrorMessage_from_parts msg_root trans_id;
    Ok (MsgError err_message)
  else Err (InvalidMessage msg_type).
End Requests.
