(* ===== verification/DhtMessageCorrect.v ===== *)
(** DhtMessageCorrect: KRPC messages are read back from their bytes, parsing
    never panics, and the compact lists of accepted messages can be iterated. *)

From stdpp Require Import base list.
From Stdlib Require Import ZArith Lia.
From S2P Require Import Prelude OrdMap Bencode BencodeCorrect BencodeRead Convert ShaHash Effects DhtMessage.

(** * Compact lists *)

Definition node_bytes (p : ShaHash * SocketAddrV4) : bytes := hash p.1 ++ sock_v4_to_bytes_be p.2.

Lemma six_bytes (bs : bytes) : length bs = 6 ->
  exists a b c d e f, bs = [a; b; c; d; e; f].
Proof.
  intros Hl. do 6 (destruct bs as [|? bs]; [discriminate|]). destruct bs; [|discriminate]. eauto 10.
Qed.

Lemma socket_v4_total bs :
  length bs = BYTES_PER_COMPACT_IP ->
  exists s, socket_v4_from_bytes_be bs = Ok s /\ (Forall is_u8 bs -> sock_v4_to_bytes_be s = bs).
Proof.
  intros Hl. destruct (six_bytes bs Hl) as (a & b & c & d & e & f & ->). eexists. split; [reflexivity|].
  intros Hu. rewrite !Forall_cons in Hu. destruct Hu as (_ & _ & _ & _ & He & Hf & _).
  unfold sock_v4_to_bytes_be, ipv4_to_bytes_be. cbn [v4_ip v4_port octets app]. do 4 f_equal.
  assert (Hef : Forall is_u8 [e; f]) by (by rewrite !Forall_cons, Forall_nil).
  rewrite Z.lor_0_l, port_bytes_be.
  replace (Z.lor (to_u16 (Z.shiftl e 8)) f) with (be_val [e; f]).
  - by apply (be_bytes_be_val [e; f]).
  - symmetry. by apply (bytes_be_to_port_be_val [e; f]).
Qed.

Lemma parts_total x :
  length x = BYTES_PER_COMPACT_NODE_INFO ->
  exists p, parts_from_compact_info x = Ok p /\ (Forall is_u8 x -> node_bytes p = x).
Proof.
  intros Hl. unfold parts_from_compact_info. rewrite (slice_in x 0 NODE_ID_LEN) by (rewrite Hl; by vm_compute; lia).
  run_binds. rewrite drop_0, Nat.sub_0_r. unfold from_hash. rewrite length_take, Hl. cbn [negb]. change (_ =? _) with true. cbn [negb unwrap].
  run_binds. rewrite slice_in by (rewrite Hl; by vm_compute; lia). run_binds.
  destruct (socket_v4_total (take (NODE_ID_LEN + BYTES_PER_COMPACT_IP - NODE_ID_LEN) (drop NODE_ID_LEN x)))
    as (s & -> & Hs).
  { rewrite length_take, length_drop, Hl. done. }
  cbn [unwrap]. run_binds. eexists. split; [reflexivity|]. intros Hu. unfold node_bytes. cbn [fst snd hash].
  rewrite Hs by (by apply Forall_take, Forall_drop). rewrite (take_ge (drop NODE_ID_LEN x)).
  - apply take_drop.
  - rewrite length_drop, Hl. by vm_compute; lia.
Qed.

(** One step of the iterator, at the end and at position [26 * k]. *)
Lemma node_next_end bs :
  node_info_next {| ni_nodes := bs; ni_pos := length bs |} = Ok (None, {| ni_nodes := bs; ni_pos := length bs |}).
Proof. unfold node_info_next. cbn [ni_nodes ni_pos]. by rewrite Nat.eqb_refl. Qed.

Lemma node_next_entry bs k :
  26 * S k <= length bs ->
  exists p, node_info_next {| ni_nodes := bs; ni_pos := 26 * k |} =
      Ok (Some p, {| ni_nodes := bs; ni_pos := 26 * S k |}) /\
    (Forall is_u8 bs -> drop (26 * k) bs = node_bytes p ++ drop (26 * S k) bs).
Proof.
  intros Hk. unfold node_info_next. cbn [ni_nodes ni_pos]. unfold BYTES_PER_COMPACT_NODE_INFO.
  destruct (Nat.eqb_spec (26 * k) (length bs)); [lia|]. rewrite slice_in by lia. run_binds.
  replace (26 * k + 26 - 26 * k) with 26 by lia.
  destruct (parts_total (take 26 (drop (26 * k) bs))) as (p & -> & Hp).
  { rewrite length_take, length_drop. unfold BYTES_PER_COMPACT_NODE_INFO. lia. }
  run_binds. exists p. replace (26 * k + 26) with (26 * S k) by lia. split; [done|]. intros Hu.
  rewrite Hp by (by apply Forall_take, Forall_drop). replace (26 * S k) with (26 * k + 26) by lia.
  by rewrite <- drop_drop, take_drop.
Qed.

(** The iterator on a list with [n] entries left. *)
Lemma node_iter_total bs n k fuel :
  length bs = 26 * (k + n) -> n < fuel ->
  exists l, collect_iter node_info_next fuel {| ni_nodes := bs; ni_pos := 26 * k |} = Ok l /\
    length l = n /\ (Forall is_u8 bs -> concat (node_bytes <$> l) = drop (26 * k) bs).
Proof.
  revert k fuel. induction n as [|n IH]; intros k fuel Hl Hf; (destruct fuel as [|fuel]; [lia|]); cbn [collect_iter].
  - rewrite Nat.add_0_r in Hl. rewrite <- Hl, node_next_end. run_binds. exists []. split_and!; [done|done|].
    intros _. by rewrite drop_ge.
  - destruct (node_next_entry bs k) as (p & -> & Hp); [lia|]. run_binds.
    destruct (IH (S k) fuel) as (l & -> & Hll & Hc); [lia|lia|]. run_binds. exists (p :: l).
    split_and!; [done|simpl; lia|]. intros Hu. cbn [fmap list_fmap concat]. rewrite Hp by done. f_equal. by apply Hc.
Qed.

Lemma collect_nodes_total bs c :
  CompactNodeInfo_new bs = Ok c ->
  exists l, collect_nodes c = Ok l /\ length l * BYTES_PER_COMPACT_NODE_INFO = length bs /\
    (Forall is_u8 bs -> concat (node_bytes <$> l) = bs).
Proof.
  unfold CompactNodeInfo_new, BYTES_PER_COMPACT_NODE_INFO.
  destruct (Nat.eqb_spec (length bs mod 26) 0) as [Hm|]; [|done].
  intros [= <-]. unfold collect_nodes, node_info_iter. cbn [nodes].
  pose proof (Nat.div_mod_eq (length bs) 26) as Hd. rewrite Hm in Hd.
  destruct (node_iter_total bs (length bs / 26) 0 (length bs + 1)) as (l & H1 & H2 & H3); [lia|lia|].
  rewrite Nat.mul_0_r in H1, H3. exists l. split_and!; [done|lia|done].
Qed.

(** The ids of a compact list have twenty bytes. *)
Lemma parts_id x p :
  parts_from_compact_info x = Ok p -> length (hash p.1) = SHA_HASH_LEN /\ (Forall is_u8 x -> is_hash p.1).
Proof.
  intros Hp. unfold parts_from_compact_info in Hp.
  apply mbind_Ok_inv in Hp as (ib & Hib & Hp). apply mbind_Ok_inv in Hp as (id & Hid & Hp).
  apply mbind_Ok_inv in Hp as (ip & Hip & Hp). apply mbind_Ok_inv in Hp as (so & Hso & [= <-]). cbn [fst].
  unfold slice in Hib. case_match; [|done]. injection Hib as <-.
  apply (unwrap_Ok (F := LengthError)) in Hid. unfold from_hash in Hid. case_match eqn:Hl; [done|]. apply negb_false_iff, Nat.eqb_eq in Hl.
  injection Hid as <-. split; [exact Hl|]. intros Hu. split; [exact Hl|]. by apply Forall_take, Forall_drop.
Qed.

Lemma node_iter_ids fuel it l :
  collect_iter node_info_next fuel it = Ok l ->
  Forall (fun p => length (hash p.1) = SHA_HASH_LEN) l /\ (Forall is_u8 (ni_nodes it) -> Forall (fun p => is_hash p.1) l).
Proof.
  revert it l. induction fuel as [|fuel IH]; intros it l Hc; [done|]. cbn [collect_iter] in Hc.
  apply mbind_Ok_inv in Hc as ([[p|] it'] & Hn & Hc); [|injection Hc as <-; split; [constructor|intros _; constructor]].
  apply mbind_Ok_inv in Hc as (rest & Hr & [= <-]). unfold node_info_next in Hn. case_match; [done|].
  apply mbind_Ok_inv in Hn as (x & Hx & Hn). apply mbind_Ok_inv in Hn as (p' & Hp & [= <- <-]).
  apply parts_id in Hp as [Hlen Hhash]. apply IH in Hr as [Hr1 Hr2]. split; [by constructor|]. intros Hu.
  constructor; [|by apply Hr2]. apply Hhash. unfold slice in Hx. case_match; [|done]. injection Hx as <-.
  by apply Forall_take, Forall_drop.
Qed.

Lemma check_values_ok i vs : check_values i vs = Ok tt <-> Forall (fun v => length v = BYTES_PER_COMPACT_IP) vs.
Proof.
  revert i. induction vs as [|v vs IH]; intros i; cbn [check_values]; [by split; [constructor|]|].
  rewrite Forall_cons. destruct (Nat.eqb_spec (length v) BYTES_PER_COMPACT_IP); cbn [negb]; [rewrite IH|]; naive_solver.
Qed.

Lemma value_next_end vs :
  value_info_next {| vi_values := vs; vi_pos := length vs |} = Ok (None, {| vi_values := vs; vi_pos := length vs |}).
Proof. unfold value_info_next. cbn [vi_values vi_pos]. by rewrite Nat.eqb_refl. Qed.

Lemma value_next_entry vs k v :
  vs !! k = Some v -> length v = BYTES_PER_COMPACT_IP ->
  exists s, value_info_next {| vi_values := vs; vi_pos := k |} = Ok (Some s, {| vi_values := vs; vi_pos := S k |}) /\
    (Forall is_u8 v -> sock_v4_to_bytes_be s = v).
Proof.
  intros Hv Hl. unfold value_info_next. cbn [vi_values vi_pos]. pose proof (lookup_lt_Some _ _ _ Hv).
  destruct (Nat.eqb_spec k (length vs)); [lia|]. rewrite Hv. cbn [opt_unwrap]. run_binds.
  destruct (socket_v4_total v Hl) as (s & -> & Hs). cbn [unwrap]. run_binds. rewrite Nat.add_1_r. eauto.
Qed.

Lemma value_iter_total vs n k fuel :
  Forall (fun v => length v = BYTES_PER_COMPACT_IP) vs -> length vs = k + n -> n < fuel ->
  exists l, collect_iter value_info_next fuel {| vi_values := vs; vi_pos := k |} = Ok l /\
    length l = n /\ (Forall (Forall is_u8) vs -> sock_v4_to_bytes_be <$> l = drop k vs).
Proof.
  intros Hv. revert k fuel. induction n as [|n IH]; intros k fuel Hl Hf; (destruct fuel as [|fuel]; [lia|]);
    cbn [collect_iter].
  - rewrite Nat.add_0_r in Hl. rewrite <- Hl, value_next_end. run_binds. exists []. split_and!; [done|done|].
    intros _. by rewrite drop_ge.
  - destruct (lookup_lt_is_Some_2 vs k) as [v Hvk]; [lia|].
    destruct (value_next_entry vs k v Hvk (Forall_lookup_1 _ _ _ _ Hv Hvk)) as (s & -> & Hs). run_binds.
    destruct (IH (S k) fuel) as (l & -> & Hll & Hc); [lia|lia|]. run_binds. exists (s :: l).
    split_and!; [done|simpl; lia|]. intros Hu. cbn [fmap list_fmap].
    rewrite Hs by (by apply (Forall_lookup_1 _ _ _ _ Hu Hvk)). rewrite (drop_S _ _ _ Hvk). f_equal. by apply Hc.
Qed.

Lemma collect_values_total vs c :
  CompactValueInfo_new vs = Ok c ->
  exists l, collect_values c = Ok l /\ length l = length vs /\
    (Forall (Forall is_u8) vs -> sock_v4_to_bytes_be <$> l = vs).
Proof.
  unfold CompactValueInfo_new. intros H. destruct (check_values 0 vs) as [[]| | |] eqn:Hm; try discriminate H. injection H as <-.
  apply check_values_ok in Hm.
  destruct (value_iter_total vs (length vs) 0 (length vs + 1) Hm) as (l & H1 & H2 & H3); [lia|lia|].
  exists l. rewrite drop_0 in H3. split_and!; [done|lia|done].
Qed.

(** * Parsing always answers *)

Definition node_info_ok (c : CompactNodeInfo) : Prop := exists bs, CompactNodeInfo_new bs = Ok c.
Definition value_info_ok (c : CompactValueInfo) : Prop := exists vs, CompactValueInfo_new vs = Ok c.

Lemma settles_from_hash {F} (g : LengthError -> F) bs : settles (fun _ => True) (map_err g (from_hash bs)).
Proof. unfold from_hash. by case_match. Qed.

Lemma settles_node_id {F} (g : LengthError -> F) bs :
  settles (fun h => length (hash h) = SHA_HASH_LEN) (map_err g (from_hash bs)).
Proof. unfold from_hash. case_match eqn:Hl; [done|]. by apply negb_false_iff, Nat.eqb_eq in Hl. Qed.

Lemma settles_nodes t bs : settles node_info_ok (validate_nodes t bs).
Proof.
  apply settles_map_err. destruct (CompactNodeInfo_new bs) eqn:H; cbn; [by exists bs|done|..];
    unfold CompactNodeInfo_new in H; by case_match.
Qed.

Lemma settles_check i vs : settles (fun _ => True) (check_values i vs).
Proof. revert i. induction vs; intros i; cbn; [done|]. by case_match. Qed.

Lemma settles_value_bytes t vs : settles (fun _ => True) (value_bytes t vs).
Proof.
  induction vs as [|v vs IH]; cbn [value_bytes]; [done|]. case_match; [|done].
  eapply settles_bind; [exact IH|]. done.
Qed.

Lemma settles_values t vs : settles value_info_ok (validate_values t vs).
Proof.
  eapply settles_bind; [apply settles_value_bytes|]. intros ps _. apply settles_map_err.
  unfold value_info_ok, CompactValueInfo_new. destruct (check_values 0 ps) eqn:H.
  - cbn. exists ps. by rewrite H.
  - done.
  - pose proof (settles_check 0 ps) as Hs. by rewrite H in Hs.
  - pose proof (settles_check 0 ps) as Hs. by rewrite H in Hs.
Qed.

Create HintDb settle.
#[export] Hint Resolve settles_bytes settles_str settles_int settles_list settles_dict settles_from_hash
  settles_nodes settles_values settles_ok_or : settle.

(** Go through the binds of a parser. *)
Ltac settle :=
  repeat first
    [ solve [auto with settle]
    | rewrite mbind_ok
    | eapply settles_bind; [solve [auto with settle]|intros ? ?]
    | eapply (settles_bind (fun _ => True)); [|intros ? ?]
    | case_match
    | done ].

Lemma settles_error root t : settles (fun _ => True) (ErrorMessage_from_parts root t).
Proof.
  unfold ErrorMessage_from_parts. eapply settles_bind; [auto with settle|]. intros args _.
  eapply settles_bind with (Q := fun _ => True).
  - unfold extract_error_args, convert_int, convert_str, NUM_ERROR_ARGS.
    destruct args as [|a0 [|a1 [|]]]; cbn [length Nat.eqb negb lookup list_lookup opt_unwrap]; try done.
    run_binds. settle.
  - intros [code msg] _. eapply settles_bind with (Q := fun _ => True); [|done].
    unfold ErrorCode_new. by repeat case_match.
Qed.

Lemma settles_request root t ty : settles (fun _ => True) (RequestType_from_parts root t ty).
Proof.
  unfold RequestType_from_parts, PingRequest_from_parts, FindNodeRequest_from_parts, GetPeersRequest_from_parts,
    AnnouncePeerRequest_from_parts, RequestValidate_node_id, RequestValidate_info_hash.
  eapply settles_bind; [auto with settle|]. intros d _.
  repeat case_match; try done; eapply settles_bind with (Q := fun _ => True); try done; settle.
Qed.

(** What the handler relies on: lists of whole entries, and ids of full length. *)
Definition info_ok (i : CompactInfoType) : Prop :=
  match i with
  | Nodes n => node_info_ok n
  | Values v => value_info_ok v
  | Both n v => node_info_ok n /\ value_info_ok v
  end.
Definition response_ok (r : ResponseType) : Prop :=
  match r with
  | RsFindNode f => length (hash (fr_node_id f)) = SHA_HASH_LEN /\ node_info_ok (fr_nodes f)
  | RsGetPeers g => length (hash (gr_node_id g)) = SHA_HASH_LEN /\ info_ok (gr_info_type g)
  | RsActing a => length (hash (ar_node_id a)) = SHA_HASH_LEN
  | _ => True
  end.

Lemma settles_get_peers d t :
  settles (fun g => length (hash (gr_node_id g)) = SHA_HASH_LEN /\ info_ok (gr_info_type g)) (GetPeersResponse_from_parts d t).
Proof.
  unfold GetPeersResponse_from_parts, ResponseValidate_node_id. eapply settles_bind; [auto with settle|]. intros b _.
  eapply settles_bind; [apply settles_node_id|]. intros id Hid. cbv zeta.
  eapply settles_bind with (Q := info_ok); [|done].
  destruct (lookup_and_convert_bytes d NODES_KEY), (lookup_and_convert_list d VALUES_KEY);
    try done; eapply settles_bind; try apply settles_nodes; try apply settles_values; intros x Hx; try done.
  eapply settles_bind; [apply settles_values|]. intros y Hy. done.
Qed.

Lemma settles_response root t : settles response_ok (ResponseType_from_parts root t).
Proof.
  unfold ResponseType_from_parts. eapply settles_bind; [auto with settle|]. intros d _.
  unfold response_kind. repeat case_match; try done.
  - unfold FindNodeResponse_from_parts, FindNodeResponse_new, ResponseValidate_node_id.
    eapply settles_bind with (Q := fun f => length (hash (fr_node_id f)) = SHA_HASH_LEN /\ node_info_ok (fr_nodes f)); [|done].
    eapply settles_bind; [auto with settle|]. intros b _. eapply settles_bind; [apply settles_node_id|]. intros id Hid.
    eapply settles_bind; [auto with settle|]. intros ns _. eapply settles_bind; [apply settles_nodes|]. done.
  - eapply settles_bind; [apply settles_get_peers|]. done.
  - unfold ActingResponse_from_parts, RequestValidate_node_id.
    eapply settles_bind with (Q := fun a => length (hash (ar_node_id a)) = SHA_HASH_LEN); [|done].
    eapply settles_bind; [auto with settle|]. intros b _. eapply settles_bind; [apply settles_node_id|]. done.
Qed.

Definition message_ok (m : MessageType) : Prop := match m with Response r => response_ok r | _ => True end.

Lemma settles_message r : settles message_ok (MessageType_new r).
Proof.
  unfold MessageType_new. eapply settles_bind; [apply settles_ok_or|]. intros d _.
  eapply settles_bind; [auto with settle|]. intros t _. eapply settles_bind; [auto with settle|]. intros y _.
  repeat case_match; try done.
  - eapply settles_bind; [auto with settle|]. intros q _. eapply settles_bind; [apply settles_request|]. done.
  - eapply settles_bind; [apply settles_response|]. done.
  - eapply settles_bind; [apply settles_error|]. done.
Qed.

(** * Messages are read back *)

Definition message_encode (m : MessageType) : bytes :=
  match m with
  | Request (RqPing p) => PingRequest_encode p
  | Request (RqFindNode f) => FindNodeRequest_encode f
  | Request (RqGetPeers g) => GetPeersRequest_encode g
  | Request (RqAnnouncePeer a) => AnnouncePeerRequest_encode a
  | Response (RsPing a) | Response (RsAnnouncePeer a) | Response (RsActing a) => ActingResponse_encode a
  | Response (RsFindNode f) => FindNodeResponse_encode f
  | Response (RsGetPeers g) => GetPeersResponse_encode g
  | MsgError e => ErrorMessage_encode e
  end.

(** Byte strings of a length that bencode can write. *)
Definition port_wf (p : ConnectPort) : Prop := match p with Implied => True | Explicit n => is_u16 n end.
Definition info_wf (i : CompactInfoType) : Prop :=
  match i with
  | Nodes n => node_info_ok n /\ sized (nodes n)
  | Values v => value_info_ok v
  | Both n v => node_info_ok n /\ sized (nodes n) /\ value_info_ok v
  end.

(** The values that the program builds: identifiers are hashes, ports are
    [u16], texts are UTF-8; a response to [get_peers] has a token, and the
    answers to a ping and an announce are acting responses. *)
Definition message_wf (m : MessageType) : Prop :=
  match m with
  | Request (RqPing p) => sized (pq_trans_id p) /\ is_hash (pq_node_id p)
  | Request (RqFindNode f) => sized (fq_trans_id f) /\ is_hash (fq_node_id f) /\ is_hash (fq_target_id f)
  | Request (RqGetPeers g) => sized (gq_trans_id g) /\ is_hash (gq_node_id g) /\ is_hash (gq_info_hash g)
  | Request (RqAnnouncePeer a) =>
      sized (aq_trans_id a) /\ is_hash (aq_node_id a) /\ is_hash (aq_info_hash a) /\ sized (aq_token a) /\
      port_wf (aq_port a)
  | Response (RsActing a) => sized (ar_trans_id a) /\ is_hash (ar_node_id a)
  | Response (RsFindNode f) =>
      sized (fr_trans_id f) /\ is_hash (fr_node_id f) /\ node_info_ok (fr_nodes f) /\ sized (nodes (fr_nodes f))
  | Response (RsGetPeers g) =>
      sized (gr_trans_id g) /\ is_hash (gr_node_id g) /\ (exists t, gr_token g = Some t /\ sized t) /\
      info_wf (gr_info_type g)
  | Response _ => False
  | MsgError e => sized (err_trans_id e) /\ sized (err_message e) /\ utf8_valid (err_message e) = true
  end.

Lemma hash_sized h : is_hash h -> in_i64 (Z.of_nat (length (hash h))) = true.
Proof. intros [-> _]. done. Qed.
Lemma hash_read {F} (g : LengthError -> F) h : is_hash h -> map_err g (from_hash (hash h)) = Ok h.
Proof. intros [Hl _]. unfold from_hash. rewrite Hl. cbn. by destruct h. Qed.
Lemma u16_in_i64 n : is_u16 n -> in_i64 n = true.
Proof. intros H. apply bool_decide_eq_true_2. unfold is_u16, is_i64 in *. lia. Qed.
Lemma nodes_read t c : node_info_ok c -> validate_nodes t (nodes c) = Ok c.
Proof.
  intros [bs H]. unfold validate_nodes. pose proof H as H'. unfold CompactNodeInfo_new in H'.
  case_match; [done|]. injection H' as <-. cbn [nodes]. by rewrite H.
Qed.

Lemma values_list_eq v : values_list v = MList (MBytes <$> values v).
Proof.
  unfold values_list, list_push. f_equal.
  assert (Hf : forall acc, fold_left (fun l x => l ++ [new_bytes x]) (values v) acc = acc ++ (MBytes <$> values v)).
  { induction (values v) as [|x vs IH]; intros acc; cbn; [by rewrite app_nil_r|]. by rewrite IH, <- app_assoc. }
  apply (Hf []).
Qed.

Lemma values_read t c : value_info_ok c -> validate_values t (to_ref <$> (MBytes <$> values c)) = Ok c.
Proof.
  intros [vs H]. unfold validate_values. pose proof H as H'. unfold CompactValueInfo_new in H'.
  destruct (check_values 0 vs) eqn:Hc; try discriminate. injection H' as <-. cbn [values].
  assert (Hb : value_bytes t (to_ref <$> (MBytes <$> vs)) = Ok vs).
  { clear. induction vs as [|v vs IH]; [done|]. cbn [fmap list_fmap value_bytes to_ref bytes_of BencodeRef_access BencodeRef_bytes].
    change (list_fmap _ _ to_ref (list_fmap _ _ MBytes vs)) with (to_ref <$> (MBytes <$> vs)). by rewrite IH. }
  rewrite Hb. run_binds. by rewrite H.
Qed.

Lemma values_wf c : value_info_ok c -> forallb wf_mut (MBytes <$> values c) = true.
Proof.
  intros [vs H]. unfold CompactValueInfo_new in H. destruct (check_values 0 vs) as [[]| | |] eqn:Hc; try discriminate.
  injection H as <-. cbn [values]. apply check_values_ok in Hc. apply forallb_Forall, Forall_fmap.
  eapply Forall_impl; [exact Hc|]. intros v Hv. cbn. by rewrite Hv.
Qed.

Lemma values_nesting (vs : list bytes) : list_max (nesting <$> (MBytes <$> vs)) <= 1.
Proof.
  induction vs as [|v vs IH]; [cbn; lia|].
  change (list_max (nesting <$> (MBytes <$> v :: vs))) with (Nat.max 1 (list_max (nesting <$> (MBytes <$> vs)))). lia.
Qed.

Lemma fits_hash n h : is_hash h -> fits (S n) (MBytes (hash h)).
Proof. intros H. split; [by apply hash_sized|cbn; lia]. Qed.
Lemma fits_values n c : value_info_ok c -> fits (S (S n)) (values_list c).
Proof.
  intros H. rewrite values_list_eq. split; [by apply values_wf|]. cbn [nesting].
  pose proof (values_nesting (values c)). lia.
Qed.
#[export] Hint Resolve fits_hash fits_values : fits.
#[export] Hint Extern 1 (fits _ (MInt _)) =>
  apply fits_int; solve [by apply (bool_decide_unpack _) | unfold is_i64, is_u16 in *; lia] : fits.

(** The three kinds of message, from the keys of their dictionary. *)
Section Roots.
Context (d : list (bytes * BencodeMut)) (t : bytes).
Hypothesis Ht : btree_get TRANSACTION_ID_KEY d = Some (MBytes t).

Lemma root_request q m :
  btree_get MESSAGE_TYPE_KEY d = Some (MBytes REQUEST_TYPE_KEY) ->
  btree_get REQUEST_TYPE_KEY d = Some (MBytes q) -> utf8_valid q = true ->
  RequestType_from_parts (ref_entries d) t q = Ok m -> MessageType_new (to_ref (MDict d)) = Ok (Request m).
Proof.
  intros Hy Hq Hu Hm. unfold MessageType_new. cbn [to_ref convert_dict dict_of BencodeRef_access ok_or].
  run_binds. rewrite (lookup_bytes_ref _ _ _ Ht). run_binds. rewrite (lookup_str_ref _ _ _ Hy) by done. run_binds.
  rewrite bool_decide_eq_true_2 by done. rewrite (lookup_str_ref _ _ _ Hq) by done. run_binds. by rewrite Hm.
Qed.
Lemma root_response m :
  btree_get MESSAGE_TYPE_KEY d = Some (MBytes RESPONSE_TYPE_KEY) ->
  ResponseType_from_parts (ref_entries d) t = Ok m -> MessageType_new (to_ref (MDict d)) = Ok (Response m).
Proof.
  intros Hy Hm. unfold MessageType_new. cbn [to_ref convert_dict dict_of BencodeRef_access ok_or].
  run_binds. rewrite (lookup_bytes_ref _ _ _ Ht). run_binds. rewrite (lookup_str_ref _ _ _ Hy) by done. run_binds.
  rewrite bool_decide_eq_false_2, bool_decide_eq_true_2 by done. by rewrite Hm.
Qed.
Lemma root_error m :
  btree_get MESSAGE_TYPE_KEY d = Some (MBytes ERROR_TYPE_KEY) ->
  ErrorMessage_from_parts (ref_entries d) t = Ok m -> MessageType_new (to_ref (MDict d)) = Ok (MsgError m).
Proof.
  intros Hy Hm. unfold MessageType_new. cbn [to_ref convert_dict dict_of BencodeRef_access ok_or].
  run_binds. rewrite (lookup_bytes_ref _ _ _ Ht). run_binds. rewrite (lookup_str_ref _ _ _ Hy) by done. run_binds.
  rewrite !bool_decide_eq_false_2, bool_decide_eq_true_2 by done. by rewrite Hm.
Qed.
End Roots.

(** Step through a parser applied to a literal dictionary. *)
Ltac read_keys :=
  repeat first
    [ erewrite lookup_bytes_ref by reflexivity
    | erewrite lookup_int_ref by reflexivity
    | erewrite lookup_list_ref by reflexivity
    | erewrite lookup_dict_ref by reflexivity
    | rewrite hash_read by assumption
    | rewrite nodes_read by assumption
    | progress run_binds ].

Ltac fits_message := apply read_back; unfold ben_map; cbn [fold_left]; eauto 20 with fits.

Definition reads (bs : bytes) (m : MessageType) : Prop :=
  exists r, BencodeRef_decode bs BDecodeOpt_default = Ok r /\ MessageType_new r = Ok m.

Lemma ping_read p : message_wf (Request (RqPing p)) -> reads (PingRequest_encode p) (Request (RqPing p)).
Proof.
  intros [Ht Hn]. eexists. split; [fits_message|].
  eapply root_request with (q := PING_TYPE_KEY); [reflexivity..|]. unfold RequestType_from_parts. read_keys.
  rewrite bool_decide_eq_true_2 by done. unfold PingRequest_from_parts, RequestValidate_node_id. read_keys. by destruct p.
Qed.

Lemma find_node_read f : message_wf (Request (RqFindNode f)) -> reads (FindNodeRequest_encode f) (Request (RqFindNode f)).
Proof.
  intros (Ht & Hn & Hg). eexists. split; [fits_message|].
  eapply root_request with (q := FIND_NODE_TYPE_KEY); [reflexivity..|]. unfold RequestType_from_parts. read_keys.
  rewrite bool_decide_eq_false_2, bool_decide_eq_true_2 by done.
  unfold FindNodeRequest_from_parts, RequestValidate_node_id. read_keys. by destruct f.
Qed.

Lemma get_peers_read g : message_wf (Request (RqGetPeers g)) -> reads (GetPeersRequest_encode g) (Request (RqGetPeers g)).
Proof.
  intros (Ht & Hn & Hg). eexists. split; [fits_message|].
  eapply root_request with (q := GET_PEERS_TYPE_KEY); [reflexivity..|]. unfold RequestType_from_parts. read_keys.
  rewrite !bool_decide_eq_false_2, bool_decide_eq_true_2 by done.
  unfold GetPeersRequest_from_parts, RequestValidate_node_id, RequestValidate_info_hash. read_keys. by destruct g.
Qed.

Lemma announce_peer_read a :
  message_wf (Request (RqAnnouncePeer a)) -> reads (AnnouncePeerRequest_encode a) (Request (RqAnnouncePeer a)).
Proof.
  intros (Ht & Hn & Hg & Hk & Hp). unfold AnnouncePeerRequest_encode.
  destruct a as [t n h k p]; cbn [aq_trans_id aq_node_id aq_info_hash aq_token aq_port] in *. destruct p as [|port].
  - eexists. split; [fits_message|]. eapply root_request with (q := ANNOUNCE_PEER_TYPE_KEY); [reflexivity..|].
    unfold RequestType_from_parts. read_keys. rewrite !bool_decide_eq_false_2, bool_decide_eq_true_2 by done.
    unfold AnnouncePeerRequest_from_parts, RequestValidate_node_id, RequestValidate_info_hash. read_keys.
    by rewrite lookup_ref.
  - assert (Hi : is_i64 port) by (cbn in Hp; unfold is_u16, is_i64 in *; lia).
    eexists. split; [apply read_back; unfold ben_map; cbn [fold_left]; eauto 20 using fits_int with fits|].
    eapply root_request with (q := ANNOUNCE_PEER_TYPE_KEY); [reflexivity..|].
    unfold RequestType_from_parts. read_keys. rewrite !bool_decide_eq_false_2, bool_decide_eq_true_2 by done.
    unfold AnnouncePeerRequest_from_parts, RequestValidate_node_id, RequestValidate_info_hash. read_keys.
    rewrite lookup_ref. read_keys. change (to_u16 port) with (port mod 65536)%Z. by rewrite Z.mod_small.
Qed.

Lemma acting_read a : message_wf (Response (RsActing a)) -> reads (ActingResponse_encode a) (Response (RsActing a)).
Proof.
  intros (Ht & Hn). eexists. split; [fits_message|]. eapply root_response; [reflexivity..|].
  unfold ResponseType_from_parts. read_keys. unfold response_kind. rewrite !lookup_ref.
  rewrite !bool_decide_eq_false_2 by (intros [? [=]]).
  unfold ActingResponse_from_parts, RequestValidate_node_id. read_keys. by destruct a.
Qed.

Lemma find_node_response_read f :
  message_wf (Response (RsFindNode f)) -> reads (FindNodeResponse_encode f) (Response (RsFindNode f)).
Proof.
  intros (Ht & Hn & Hi & Hs). eexists. split; [fits_message|]. eapply root_response; [reflexivity..|].
  unfold ResponseType_from_parts. read_keys. unfold response_kind. rewrite !lookup_ref.
  rewrite bool_decide_eq_false_2 by (intros [? [=]]). rewrite bool_decide_eq_true_2 by (eexists; reflexivity).
  unfold FindNodeResponse_from_parts, FindNodeResponse_new, ResponseValidate_node_id. read_keys. by destruct f.
Qed.

Lemma get_peers_response_read g :
  message_wf (Response (RsGetPeers g)) -> reads (GetPeersResponse_encode g) (Response (RsGetPeers g)).
Proof.
  intros (Ht & Hn & (k & Hk & Hks) & Hi). unfold GetPeersResponse_encode.
  destruct g as [t n tok i]; cbn [gr_trans_id gr_node_id gr_token gr_info_type] in *. subst tok.
  destruct i as [c|v|c v]; cbn [info_wf] in Hi; unfold dict_insert; cbn [snd];
    [destruct Hi as [Hc Hcs]|rename Hi into Hv|destruct Hi as (Hc & Hcs & Hv)];
    (eexists; split; [fits_message|eapply root_response; [reflexivity..|]]); rewrite ?values_list_eq;
    unfold ResponseType_from_parts; read_keys; unfold response_kind; rewrite lookup_ref;
    rewrite bool_decide_eq_true_2 by (eexists; reflexivity);
    unfold GetPeersResponse_from_parts, ResponseValidate_node_id.
  - rewrite (lookup_list_none _ VALUES_KEY) by reflexivity. read_keys. done.
  - rewrite (lookup_bytes_none _ NODES_KEY) by reflexivity. read_keys. rewrite values_read by done. done.
  - read_keys. rewrite values_read by done. done.
Qed.

Lemma error_read e : message_wf (MsgError e) -> reads (ErrorMessage_encode e) (MsgError e).
Proof.
  intros (Ht & Hm & Hu). unfold ErrorMessage_encode, ben_list. cbn [fold_left app].
  destruct e as [t c m]; cbn [err_trans_id err_code err_message] in *.
  eexists. split.
  - apply read_back. unfold ben_map. cbn [fold_left].
    assert (Hl : fits 49 (MList [new_int (ErrorCode_into c); new_bytes m])).
    { split; [|cbn; lia]. cbn [wf_mut forallb new_int new_bytes]. rewrite (sized_true _ Hm). by destruct c. }
    eauto 20 with fits.
  - eapply root_error; [reflexivity..|]. unfold ErrorMessage_from_parts. read_keys.
    unfold extract_error_args. cbn [fmap list_fmap length Nat.eqb negb NUM_ERROR_ARGS lookup list_lookup opt_unwrap to_ref new_int new_bytes].
    run_binds. unfold convert_int, convert_str. cbn [int str BencodeRef_access BencodeRef_bytes ok_or]. run_binds.
    unfold BencodeRef_bytes, from_utf8. rewrite Hu. cbn [ok_or]. run_binds. by destruct c.
Qed.

(** * Properties *)

(** C30. Every message the program builds is read back from its bytes, decoded
    with the default options, as the same message. *)
Theorem krpc_roundtrip (m : MessageType) :
  message_wf m ->
  exists r, BencodeRef_decode (message_encode m) BDecodeOpt_default = Ok r /\ MessageType_new r = Ok m.
Proof.
  destruct m as [[p|f|g|a]|[a|f|g|a|a]|e]; try (by intros []); cbn [message_encode].
  - apply ping_read.
  - apply find_node_read.
  - apply get_peers_read.
  - apply announce_peer_read.
  - apply find_node_response_read.
  - apply get_peers_response_read.
  - apply acting_read.
  - apply error_read.
Qed.

(** Parsing a message always answers, with the message or an error, whatever
    bencode value it is given; and the compact lists of an accepted response
    can be iterated to their end without a panic, with one item for each 26
    bytes of nodes and each value. *)
Theorem krpc_parse_answers (r : BencodeRef) :
  ((exists m, MessageType_new r = Ok m) \/ (exists e, MessageType_new r = Err e)) /\
  (forall f, MessageType_new r = Ok (Response (RsFindNode f)) ->
     exists l, collect_nodes (fr_nodes f) = Ok l /\ length l * 26 = length (nodes (fr_nodes f))) /\
  (forall g, MessageType_new r = Ok (Response (RsGetPeers g)) ->
     (forall n, gr_info_type g = Nodes n \/ (exists v, gr_info_type g = Both n v) ->
        exists l, collect_nodes n = Ok l /\ length l * 26 = length (nodes n)) /\
     (forall v, gr_info_type g = Values v \/ (exists n, gr_info_type g = Both n v) ->
        exists l, collect_values v = Ok l /\ length l = length (values v))).
Proof.
  pose proof (settles_message r) as Hs.
  assert (Hnodes : forall c, node_info_ok c -> exists l, collect_nodes c = Ok l /\ length l * 26 = length (nodes c)).
  { intros c [bs Hc]. destruct (collect_nodes_total bs c Hc) as (l & H1 & H2 & _). exists l. split; [done|].
    unfold CompactNodeInfo_new in Hc. case_match; [done|]. by injection Hc as <-. }
  assert (Hvalues : forall c, value_info_ok c -> exists l, collect_values c = Ok l /\ length l = length (values c)).
  { intros c [vs Hc]. destruct (collect_values_total vs c Hc) as (l & H1 & H2 & _). exists l. split; [done|].
    unfold CompactValueInfo_new in Hc. destruct (check_values 0 vs); try discriminate Hc. by injection Hc as <-. }
  split_and!.
  - destruct (MessageType_new r); eauto; done.
  - intros f Hf. rewrite Hf in Hs. by apply Hnodes, Hs.
  - intros g Hg. rewrite Hg in Hs. destruct Hs as [_ Hs]. split; intros x [Hx|[y Hx]]; rewrite Hx in Hs; cbn in Hs;
      [apply Hnodes|apply Hnodes|apply Hvalues|apply Hvalues]; tauto.
Qed.

Definition sample_response : MessageType :=
  Response (RsGetPeers {| gr_trans_id := [1; 2]%Z; gr_node_id := {| hash := replicate 20 7%Z |};
    gr_token := Some [9%Z]; gr_info_type := Both {| nodes := replicate 26 3%Z |} {| values := [replicate 6 4%Z] |} |}).

Lemma krpc_roundtrip_witness :
  exists r, BencodeRef_decode (message_encode sample_response) BDecodeOpt_default = Ok r /\
    MessageType_new r = Ok sample_response.
Proof.
  apply (krpc_roundtrip sample_response). unfold sample_response, message_wf. split_and!.
  - by apply (bool_decide_unpack _); vm_compute.
  - by apply (bool_decide_unpack _); vm_compute.
  - exists [9%Z]. split; [reflexivity|]. by apply (bool_decide_unpack _); vm_compute.
  - split_and!; [by exists (replicate 26 3%Z)|by apply (bool_decide_unpack _); vm_compute|by exists [replicate 6 4%Z]].
Defined.

Lemma krpc_parse_answers_witness :
  exists l, collect_nodes {| nodes := replicate 26 3%Z |} = Ok l /\ length l * 26 = 26.
Proof.
  destruct (krpc_parse_answers (match BencodeRef_decode (message_encode sample_response) BDecodeOpt_default with
    Ok r => r | _ => RInt 0 [] end)) as (_ & _ & Hg).
  edestruct Hg as [Hn _]; [vm_compute; reflexivity|].
  apply (Hn {| nodes := replicate 26 3%Z |}). right. eexists. reflexivity.
Defined.

(** A response to [get_peers] without a token, which the message type allows,
    is taken for a response to [find_node], and without nodes for an acting
    response. *)
Example tokenless_response_misread :
  (match BencodeRef_decode (GetPeersResponse_encode
      {| gr_trans_id := [1%Z]; gr_node_id := {| hash := replicate 20 7%Z |}; gr_token := None;
         gr_info_type := Values {| values := [replicate 6 4%Z] |} |}) BDecodeOpt_default with
   | Ok r => MessageType_new r
   | _ => Panic
   end) = Ok (Response (RsActing {| ar_trans_id := [1%Z]; ar_node_id := {| hash := replicate 20 7%Z |} |})).
Proof. vm_compute. reflexivity. Qed.
