(* ===== verification/DhtSecurity.v ===== *)
(** DhtSecurity: [btp-dht/src/security.rs], node ids bound to an address.

    The CRC-32C checksum is the crate crc's and the random bytes are arguments;
    [fill] gives the bytes 2 (its low bits) to 18 of the id. *)

From stdpp Require Import base list.
From Stdlib Require Import ZArith Lia.
From S2P Require Import Prelude Effects Convert ShaHash.

Local Open Scope Z_scope.

Definition IPV4_MASK : Z := 0x030F3FFF.
Definition CRC32C_ARG_SLICE_SIZE : nat := 8.

Section Security.
Context {E : Type} (checksum_castagnoli : bytes -> Z).

(** [Into::<u32>::into(addr)] *)
Definition ipv4_to_u32 (addr : Ipv4Addr) : Z := be_val (octets addr).
Definition mask_ipv4_be (addr : Ipv4Addr) : Z := Z.land (ipv4_to_u32 addr) IPV4_MASK.

Definition generate_compliant_id (masked_ip_be : Z) (num_octets : nat) (rand : Z) (fill : nat -> Z)
    : outcome E bytes :=
  let r := Z.land rand 7 in
  let masked_ip_bytes := eight_bytes_to_array masked_ip_be in
  let starting_byte := (length masked_ip_bytes - num_octets)%nat in
  b ← index masked_ip_bytes starting_byte;
  let masked_ip_bytes := <[starting_byte := Z.lor b (to_u8 (Z.shiftl r 5))]> masked_ip_bytes in
  arg ← slice_from masked_ip_bytes starting_byte;
  let crc32c_result := checksum_castagnoli arg in
  Ok ([to_u8 (Z.shiftr crc32c_result 24); to_u8 (Z.shiftr crc32c_result 16);
       Z.lor (to_u8 (Z.land (Z.shiftr crc32c_result 8) 248)) (Z.land (fill 2%nat) 7)]
      ++ (fill <$> seq 3 16) ++ [rand]).
Definition generate_compliant_id_ipv4 (addr : Ipv4Addr) (rand : Z) (fill : nat -> Z) : outcome E ShaHash :=
  id ← generate_compliant_id (mask_ipv4_be addr) 4 rand fill;
  Ok {| hash := id |}.

Definition is_compliant_id (crc32c_result : Z) (id_bytes : bytes) : outcome E bool :=
  b0 ← index id_bytes 0;
  let is_compliant := b0 =? to_u8 (Z.shiftr crc32c_result 24) in
  b1 ← index id_bytes 1;
  let is_compliant := is_compliant && (b1 =? to_u8 (Z.shiftr crc32c_result 16)) in
  b2 ← index id_bytes 2;
  let mid_id_bits := Z.land (Z.shiftr b2 0) 248 in
  let mid_hash_bits := Z.land (to_u8 (Z.shiftr crc32c_result 8)) 248 in
  Ok (is_compliant && (mid_id_bits =? mid_hash_bits)).

(** The checksum is always taken of the last four bytes. *)
Definition is_compliant_addr (masked_ip_be : Z) (num_octets : nat) (id : ShaHash) : outcome E bool :=
  if (CRC32C_ARG_SLICE_SIZE <? num_octets)%nat then Panic
  else
    rand ← index (hash id) 19;
    let r := Z.land rand 7 in
    let ip_bits_used := Z.of_nat (num_octets * 8) in
    let rand_masked_ip := Z.lor masked_ip_be (to_u64 (Z.shiftl r (ip_bits_used - 3))) in
    let rand_masked_ip_bytes := eight_bytes_to_array rand_masked_ip in
    arg ← slice_from rand_masked_ip_bytes 4;
    is_compliant_id (checksum_castagnoli arg) (hash id).

Definition is_security_compliant_ipv4_exempt (addr : Ipv4Addr) : bool := false.
Definition is_compliant_ipv4_addr (addr : Ipv4Addr) (id : ShaHash) : outcome E bool :=
  if is_security_compliant_ipv4_exempt addr then Ok true
  else is_compliant_addr (mask_ipv4_be addr) 4 id.

Lemma to_u8_land z : to_u8 z = Z.land z 255.
Proof. unfold to_u8. change 255 with (Z.ones 8). by rewrite Z.land_ones by lia. Qed.

Lemma low_bits_cases z : exists r, Z.land z 7 = r /\ (r = 0 \/ r = 1 \/ r = 2 \/ r = 3 \/ r = 4 \/ r = 5 \/ r = 6 \/ r = 7).
Proof.
  exists (Z.land z 7). split; [done|]. change 7 with (Z.ones 3) at 1 2 3 4 5 6 7 8. rewrite Z.land_ones by lia.
  pose proof (Z.mod_pos_bound z (2 ^ 3)). change (2 ^ 3) with 8 in *. lia.
Qed.

(** The three random bits do not meet the address: setting them in the first
    byte or in the number gives the same bytes. *)
Lemma rand_bits_bytes m rand :
  let r := Z.land rand 7 in
  drop 4 (eight_bytes_to_array (Z.lor m (to_u64 (Z.shiftl r 29)))) =
  drop 4 (<[4%nat := Z.lor (to_u8 (Z.shiftr m 24)) (to_u8 (Z.shiftl r 5))]> (eight_bytes_to_array m)).
Proof.
  intros r. unfold r. destruct (low_bits_cases rand) as (x & -> & Hx).
  unfold eight_bytes_to_array. cbn [drop insert list_insert].
  rewrite !to_u8_land, !Z.shiftr_lor, !Z.land_lor_distr_l.
  assert (Hlist : forall a b c d b' c' d' : Z, b = b' -> c = c' -> d = d' -> [a; b; c; d] = [a; b'; c'; d']) by congruence.
  repeat (destruct Hx as [->|Hx]); try rewrite Hx; apply Hlist; (etransitivity; [|apply Z.lor_0_r]; reflexivity).
Qed.

Lemma mid_bits c f :
  Z.land (Z.shiftr (Z.lor (to_u8 (Z.land (Z.shiftr c 8) 248)) (Z.land f 7)) 0) 248 =
  Z.land (to_u8 (Z.shiftr c 8)) 248.
Proof.
  rewrite Z.shiftr_0_r, !to_u8_land, Z.land_lor_distr_l, <- !Z.land_assoc.
  change (Z.land 248 (Z.land 255 248)) with 248. change (Z.land 7 248) with 0. change (Z.land 255 248) with 248.
  by rewrite Z.land_0_r, Z.lor_0_r.
Qed.

(** An id generated for an address is compliant with it, whatever the checksum
    and the random bytes are. *)
Lemma generated_id_compliant addr rand fill :
  exists id, generate_compliant_id_ipv4 addr rand fill = Ok id /\ length (hash id) = 20%nat /\
    is_compliant_ipv4_addr addr id = Ok true.
Proof.
  unfold generate_compliant_id_ipv4, generate_compliant_id. set (m := mask_ipv4_be addr).
  change (length (eight_bytes_to_array m) - 4)%nat with 4%nat.
  rewrite (index_Some _ _ (to_u8 (Z.shiftr m 24))) by done. run_binds.
  rewrite slice_from_in by (rewrite length_insert; cbn; lia). run_binds.
  pose proof (rand_bits_bytes m rand) as Hb. cbv zeta in Hb.
  set (bs := drop 4 (<[4%nat := _]> (eight_bytes_to_array m))) in *.
  eexists. split; [reflexivity|]. cbn [hash]. split; [rewrite !length_app, length_fmap, length_seq; done|].
  unfold is_compliant_ipv4_addr, is_compliant_addr. cbn [is_security_compliant_ipv4_exempt hash].
  change (CRC32C_ARG_SLICE_SIZE <? 4)%nat with false. cbn match.
  rewrite (index_Some _ 19%nat rand) by reflexivity. run_binds.
  change (Z.of_nat (4 * 8) - 3) with 29. fold m.
  rewrite slice_from_in by (cbn; lia). run_binds. rewrite Hb.
  unfold is_compliant_id. do 3 (erewrite index_Some by reflexivity; run_binds). rewrite !Z.eqb_refl.
  rewrite mid_bits, Z.eqb_refl. done.
Qed.
End Security.
