(* ===== verification/DhtWork.v ===== *)
(** DhtWork: what the actions of the DHT worker share
    ([btp-dht/src/worker/mod.rs]): the routing table, the channel of outgoing
    messages and the timer, which a lookup, a bootstrap and a refresh are handed
    by the worker on every call.

    One turn of the worker reads its clocks once; random numbers, the iteration
    order of a hash set, name resolution and whether the clients' receivers
    still exist are given by the turn's environment. *)

From stdpp Require Import base list gmap.
From Stdlib Require Import ZArith Lia.
From S2P Require Import Prelude OrdMap Convert ShaHash Effects Routing RoutingCorrect Timer.
From S2P Require Import TransIds DhtToken.

#[global] Instance ActionID_eq_dec : EqDecision ActionID.
Proof. solve_decision. Defined.
#[global] Instance ActionID_countable : Countable ActionID.
Proof. by apply (inj_countable' act_id (fun z => {| act_id := z |})); intros []. Defined.
#[global] Instance TransactionID_eq_dec : EqDecision TransactionID.
Proof. solve_decision. Defined.
#[global] Instance TransactionID_countable : Countable TransactionID.
Proof.
  by apply (inj_countable' (fun t => (trans_id t, trans_id_bytes t))
    (fun p => {| trans_id := p.1; trans_id_bytes := p.2 |})); intros [].
Defined.
#[global] Instance NodeHandle_countable : Countable NodeHandle.
Proof.
  by apply (inj_countable' (fun h => (nh_id h, nh_addr h)) (fun p => {| nh_id := p.1; nh_addr := p.2 |}));
    intros [].
Defined.

(** * Shared state *)

Inductive ScheduledTask : Type :=
  | CheckTableRefresh (t : TransactionID)
  | CheckBootstrapTimeout (t : TransactionID)
  | CheckLookupTimeout (t : TransactionID)
  | CheckLookupEndGame (t : TransactionID).

Definition task_id (s : ScheduledTask) : TransactionID :=
  match s with
  | CheckTableRefresh t | CheckBootstrapTimeout t | CheckLookupTimeout t | CheckLookupEndGame t => t
  end.

(** The environment of one turn.  [env_rng k] are the numbers drawn by the k-th
    shuffle since the start. *)
Class DhtEnv := {
  env_now : Z;
  env_oldest : Z;
  env_tick : Tick;
  env_utc_found : Z;
  env_utc_added : Z;
  env_rng : nat -> nat -> Z;
  env_order : list SocketAddr -> list SocketAddr;
  env_resolve : bytes -> Z -> option (list SocketAddr);
  env_alive : nat -> bool;
}.

(** The messages the channel has taken, and after how many of them its receiver
    is gone; [peers_found] is what lookups have handed to their clients'
    channels, [draws] counts the identifiers drawn. *)
Record Work := {
  routing_table : RoutingTable;
  message_out : list (bytes * SocketAddr);
  out_closed : option nat;
  timer : Timer ScheduledTask;
  peers_found : list (nat * SocketAddr);
  draws : nat;
}.

Definition work_eta (w : Work) : Work := {|
  routing_table := routing_table w; message_out := message_out w; out_closed := out_closed w;
  timer := timer w; peers_found := peers_found w; draws := draws w |}.
#[global] Instance upd_routing_table : FieldUpdate routing_table := ltac:(field_update work_eta routing_table).
#[global] Instance upd_message_out : FieldUpdate message_out := ltac:(field_update work_eta message_out).
#[global] Instance upd_timer : FieldUpdate timer := ltac:(field_update work_eta timer).
#[global] Instance upd_peers_found : FieldUpdate peers_found := ltac:(field_update work_eta peers_found).
#[global] Instance upd_draws : FieldUpdate draws := ltac:(field_update work_eta draws).

(** Methods of the actions have no error value: they answer a status. *)
Notation WorkM := (St Work Empty_set).

Definition millis (ms : Z) : Z := (ms * 1000000)%Z.

Section Operations.
Context `{Profile} `{DhtEnv}.

(** [id_generator.generate()] *)
Definition next_mid (g : MIDGenerator) : WorkM (TransactionID * MIDGenerator) :=
  w ← get;
  r ← lift (mid_generate (env_rng (draws w)) g);
  _ ← modify (fun w => w <| draws := S (draws w) |>);
  mret r.

(** [timer.schedule_in(duration, task)] *)
Definition schedule (duration : Z) (task : ScheduledTask) : WorkM Timeout :=
  w ← get;
  let '(k, t) := schedule_in env_now duration task (timer w) in
  _ ← modify (fun w => w <| timer := t |>);
  mret k.

Definition cancel_timeout (k : Timeout) : WorkM unit :=
  modify (fun w => w <| timer := (cancel k (timer w)).2 |>).

(** [out.send((msg, addr)).await]; answers whether the channel took it. *)
Definition send_out (msg : bytes) (addr : SocketAddr) : WorkM bool :=
  w ← get;
  if match out_closed w with Some n => length (message_out w) <? n | None => true end then
    _ ← modify (fun w => w <| message_out := message_out w ++ [(msg, addr)] |>);
    mret true
  else mret false.

(** [table.find_node_mut(node).map(|n| n.local_request())] and its like. *)
Definition touch_node (k : Touch) (h : NodeHandle) : WorkM unit :=
  w ← get;
  o ← lift (find_node_mut env_now (routing_table w) h);
  match o with
  | Some (i, slot) =>
      modify (fun w => w <| routing_table := update_at (routing_table w) i slot (touch k env_now) |>)
  | None => mret tt
  end.

(** [table.add_node(node)] *)
Definition add_node (n : Node) : WorkM unit :=
  w ← get;
  t ← lift (table_add_node env_now (routing_table w) n);
  modify (fun w => w <| routing_table := t |>).

(** All that [table.closest_nodes(target)] yields. *)
Definition closest (target : ShaHash) : WorkM (list Node) :=
  w ← get;
  lift (closest_collect (MAX_BUCKETS * MAX_BUCKET_SIZE + 1) env_now
    (closest_nodes env_now (routing_table w) target)).
End Operations.
