(* ===== verification/DhtLookup.v ===== *)
(** DhtLookup: the iterative peer search of [btp-dht/src/worker/lookup.rs].

    A method on [&mut self] takes the lookup and answers the new one with its
    result.  [binary_search_by] is known by its documentation only: which of
    several equal elements it finds is left open. *)

From stdpp Require Import base list gmap.
From Stdlib Require Import ZArith Lia.
From S2P Require Import Prelude OrdMap Convert ShaHash Effects Routing RoutingCorrect Timer.
From S2P Require Import TransIds DhtToken DhtMessage DhtWork.

Definition LOOKUP_TIMEOUT_MS : Z := millis 1500.
Definition ENDGAME_TIMEOUT_MS : Z := millis 1500.
Definition INITIAL_PICK_NUM : nat := 4.
Definition ITERATIVE_PICK_NUM : nat := 3.
Definition ANNOUNCE_PICK_NUM : nat := 8.

Inductive LookupStatus : Type := LkSearching | LkCompleted | LkFailed | LkAnnounceFailed.

#[global] Instance LookupStatus_eq_dec : EqDecision LookupStatus.
Proof. solve_decision. Defined.

Notation Distance := ShaHash (only parsing).
Notation SortedNode := (ShaHash * NodeHandle * bool)%type.

Record TableLookup := {
  lk_table_id : ShaHash;
  target_id : ShaHash;
  in_endgame : bool;
  recv_values : bool;
  lk_generator : MIDGenerator;
  will_announce : bool;
  active_lookups : gmap TransactionID (ShaHash * Timeout);
  announce_tokens : gmap NodeHandle bytes;
  requested_nodes : gset NodeHandle;
  all_sorted_nodes : list SortedNode;
  tx : option nat;
}.

Definition lookup_eta (l : TableLookup) : TableLookup := {|
  lk_table_id := lk_table_id l; target_id := target_id l; in_endgame := in_endgame l;
  recv_values := recv_values l; lk_generator := lk_generator l; will_announce := will_announce l;
  active_lookups := active_lookups l; announce_tokens := announce_tokens l;
  requested_nodes := requested_nodes l; all_sorted_nodes := all_sorted_nodes l; tx := tx l |}.
#[global] Instance upd_in_endgame : FieldUpdate in_endgame := ltac:(field_update lookup_eta in_endgame).
#[global] Instance upd_recv_values : FieldUpdate recv_values := ltac:(field_update lookup_eta recv_values).
#[global] Instance upd_lk_generator : FieldUpdate lk_generator := ltac:(field_update lookup_eta lk_generator).
#[global] Instance upd_active_lookups : FieldUpdate active_lookups := ltac:(field_update lookup_eta active_lookups).
#[global] Instance upd_announce_tokens : FieldUpdate announce_tokens := ltac:(field_update lookup_eta announce_tokens).
#[global] Instance upd_requested_nodes : FieldUpdate requested_nodes := ltac:(field_update lookup_eta requested_nodes).
#[global] Instance upd_all_sorted_nodes : FieldUpdate all_sorted_nodes := ltac:(field_update lookup_eta all_sorted_nodes).

(** * Distances *)

(** The derived order of [ShaHash]: by bytes. *)
Definition hash_cmp (a b : ShaHash) : comparison := bytes_cmp (hash a) (hash b).
Definition hash_lt (a b : ShaHash) : bool :=
  match hash_cmp a b with Lt => true | _ => false end.

(** [slice::binary_search_by] on a sorted slice: an index that compares equal,
    or the place to insert at. *)
Class BinarySearch := {
  binary_search_by : forall A : Type, (A -> comparison) -> list A -> nat + nat;
  binary_search_found : forall (A : Type) (f : A -> comparison) (l : list A) (i : nat),
    (forall i j x y, i < j -> l !! i = Some x -> l !! j = Some y -> f y <> Gt -> f x <> Gt) ->
    (forall i j x y, i < j -> l !! i = Some x -> l !! j = Some y -> f x <> Lt -> f y <> Lt) ->
    binary_search_by A f l = inl i -> exists x, l !! i = Some x /\ f x = Eq;
  binary_search_absent : forall (A : Type) (f : A -> comparison) (l : list A) (i : nat),
    (forall i j x y, i < j -> l !! i = Some x -> l !! j = Some y -> f y <> Gt -> f x <> Gt) ->
    (forall i j x y, i < j -> l !! i = Some x -> l !! j = Some y -> f x <> Lt -> f y <> Lt) ->
    binary_search_by A f l = inr i ->
    i <= length l /\ (forall j x, l !! j = Some x -> f x = if j <? i then Lt else Gt);
}.
Arguments binary_search_by {_ A} f l.

Section Sorted.
Context `{BinarySearch} {E : Type}.

Definition insert_sorted_node (nodes : list SortedNode) (target : ShaHash) (node : NodeHandle) (pinged : bool)
    : outcome E (list SortedNode) :=
  let node_dist := bitxor target (nh_id node) in
  match binary_search_by (fun n : SortedNode => hash_cmp n.1.1 node_dist) nodes with
  | inl dup_index =>
      dup ← index nodes dup_index;
      if bool_decide (dup.1.2 <> node) then vec_insert nodes dup_index (node_dist, node, pinged) else Ok nodes
  | inr ins_index => vec_insert nodes ins_index (node_dist, node, pinged)
  end.

(** A loop of insertions. *)
Definition insert_sorted_nodes (target : ShaHash) (entries : list (NodeHandle * bool)) (nodes : list SortedNode)
    : outcome E (list SortedNode) :=
  fold_left (fun acc e => nodes ← acc; insert_sorted_node nodes target e.1 e.2) entries (Ok nodes).
End Sorted.

Definition dummy_handle : NodeHandle :=
  {| nh_id := {| hash := replicate SHA_HASH_LEN 0%Z |}; nh_addr := SockV4 {| v4_ip := Ipv4 0 0 0 0; v4_port := 0 |} |}.

(** [pick_initial_nodes]: the picks, and the entries with the picked ones
    marked. *)
Definition pick_initial_nodes (sorted_nodes : list SortedNode) : list (NodeHandle * bool) * list SortedNode :=
  let picked := (fun n : SortedNode => (n.1.2, true)) <$> take INITIAL_PICK_NUM sorted_nodes in
  (picked ++ replicate (INITIAL_PICK_NUM - length picked) (dummy_handle, false),
   ((fun n : SortedNode => (n.1, true)) <$> take INITIAL_PICK_NUM sorted_nodes) ++ drop INITIAL_PICK_NUM sorted_nodes).

Fixpoint insert_closest_nodes (nodes : list (NodeHandle * bool)) (target : ShaHash) (new_node : NodeHandle)
    : list (NodeHandle * bool) :=
  match nodes with
  | [] => []
  | (old_node, used) :: rest =>
      if negb used then (new_node, true) :: rest
      else if hash_lt (bitxor target (nh_id new_node)) (bitxor target (nh_id old_node))
      then (new_node, used) :: rest
      else (old_node, used) :: insert_closest_nodes rest target new_node
  end.

Definition pick_iterate_nodes (unsorted_nodes : list NodeHandle) (target : ShaHash) : list (NodeHandle * bool) :=
  fold_left (fun picks n => insert_closest_nodes picks target n) unsorted_nodes
    (replicate ITERATIVE_PICK_NUM (dummy_handle, false)).

(** The picks that are in use. *)
Definition used_picks (picks : list (NodeHandle * bool)) : list NodeHandle :=
  fst <$> filter (fun p => p.2 = true) picks.

(** The distance to beat after a response: the smallest among the new nodes. *)
Definition closest_distance (target start : ShaHash) (nodes : list NodeHandle) : ShaHash :=
  fold_left (fun closest n =>
    let distance := bitxor target (nh_id n) in
    if hash_lt distance closest then distance else closest) nodes start.

(** * The lookup *)

Definition current_lookup_status (l : TableLookup) : LookupStatus :=
  if in_endgame l || negb (bool_decide (active_lookups l = ∅)) then LkSearching else LkCompleted.

Section Lookup.
Context `{Profile} `{BinarySearch} `{DhtEnv}.

Definition get_peers_msg (l : TableLookup) (t : TransactionID) : bytes :=
  GetPeersRequest_encode {| gq_trans_id := trans_id_bytes t; gq_node_id := lk_table_id l; gq_info_hash := target_id l |}.

(** The [for] loop of [start_request_round] and its end. *)
Fixpoint request_round (nodes : list (NodeHandle * ShaHash)) (messages_sent : nat) (l : TableLookup)
    : WorkM (LookupStatus * TableLookup) :=
  match nodes with
  | [] =>
      if messages_sent =? 0 then mret (LkCompleted, l <| active_lookups := ∅ |>) else mret (LkSearching, l)
  | (node, dist_to_beat) :: nodes =>
      '(trans_id, g) ← next_mid (lk_generator l);
      timeout ← schedule LOOKUP_TIMEOUT_MS (CheckLookupTimeout trans_id);
      let l := l <| lk_generator := g |>
                 <| active_lookups := <[trans_id := (dist_to_beat, timeout)]> (active_lookups l) |> in
      sent ← send_out (get_peers_msg l trans_id) (nh_addr node);
      if sent : bool then
        let l := l <| requested_nodes := {[node]} ∪ requested_nodes l |> in
        _ ← touch_node TLocalRequest node;
        request_round nodes (S messages_sent) l
      else mret (LkFailed, l)
  end.

Definition start_request_round (nodes : list (NodeHandle * ShaHash)) (l : TableLookup)
    : WorkM (LookupStatus * TableLookup) := request_round nodes 0 l.

(** The loop of [start_endgame_round] over the sorted nodes: [seen] have been
    visited. *)
Fixpoint endgame_loop (timeout : Timeout) (seen todo : list SortedNode) (l : TableLookup)
    : WorkM (LookupStatus * TableLookup) :=
  match todo with
  | [] => mret (LkSearching, l <| all_sorted_nodes := seen |>)
  | (dist, node, req) :: rest =>
      if req then endgame_loop timeout (seen ++ [(dist, node, req)]) rest l
      else
        '(trans_id, g) ← next_mid (lk_generator l);
        let l := l <| lk_generator := g |>
                   <| active_lookups := <[trans_id := (dist, timeout)]> (active_lookups l) |> in
        sent ← send_out (get_peers_msg l trans_id) (nh_addr node);
        if sent : bool then
          _ ← touch_node TLocalRequest node;
          endgame_loop timeout (seen ++ [(dist, node, true)]) rest l
        else mret (LkFailed, l <| all_sorted_nodes := seen ++ (dist, node, req) :: rest |>)
  end.

Definition start_endgame_round (l : TableLookup) : WorkM (LookupStatus * TableLookup) :=
  let l := l <| in_endgame := true |> in
  '(trans_id, g) ← next_mid (lk_generator l);
  timeout ← schedule ENDGAME_TIMEOUT_MS (CheckLookupEndGame trans_id);
  let l := l <| lk_generator := g |> in
  if negb (recv_values l) then endgame_loop timeout [] (all_sorted_nodes l) l
  else mret (LkCompleted, l).

(** [TableLookup::new]; [None] if the first round could not be sent. *)
Definition TableLookup_new (table_id target_id : ShaHash) (id_generator : MIDGenerator) (will_announce : bool)
    (tx : option nat) : WorkM (option TableLookup) :=
  nodes ← closest target_id;
  let good := take MAX_BUCKET_SIZE (filter (fun n => status env_now n = Good) nodes) in
  sorted ← lift (insert_sorted_nodes target_id ((fun n => (handle n, false)) <$> good) []);
  let '(picks, sorted) := pick_initial_nodes sorted in
  '(st, l) ← start_request_round ((fun n => (n, bitxor (nh_id n) target_id)) <$> used_picks picks)
    {| lk_table_id := table_id; target_id := target_id; in_endgame := false; recv_values := false;
       lk_generator := id_generator; will_announce := will_announce; active_lookups := ∅;
       announce_tokens := ∅; requested_nodes := ∅; all_sorted_nodes := sorted; tx := tx |};
  mret (if bool_decide (st = LkSearching) then Some l else None).

(** The nodes of a response that have not been asked yet. *)
Definition new_handles (l : TableLookup) (opt_nodes : option CompactNodeInfo) : outcome LengthError (list NodeHandle) :=
  match opt_nodes with
  | None => Ok []
  | Some nodes =>
      ns ← collect_nodes nodes;
      let handles : list NodeHandle :=
        (fun p : ShaHash * SocketAddrV4 => {| nh_id := p.1; nh_addr := SockV4 p.2 |}) <$> ns in
      Ok (filter (fun h => h ∉ requested_nodes l) handles)
  end.

(** What a response's nodes change: the picks to ask next, if any is closer than
    the distance to beat, with the new distance. *)
Definition take_nodes (dist_to_beat : ShaHash) (handles : list NodeHandle) (l : TableLookup)
    : outcome Empty_set (option (list (NodeHandle * bool)) * ShaHash * TableLookup) :=
  if length handles =? 0 then Ok (None, dist_to_beat, l)
  else
    let next := closest_distance (target_id l) dist_to_beat handles in
    if negb (hash_lt next dist_to_beat) then
      sorted ← insert_sorted_nodes (target_id l) ((fun h => (h, false)) <$> handles) (all_sorted_nodes l);
      Ok (None, dist_to_beat, l <| all_sorted_nodes := sorted |>)
    else
      let iterate_nodes := pick_iterate_nodes handles (target_id l) in
      let will_ping h := existsb (fun p : NodeHandle * bool => bool_decide (p.1 = h)) iterate_nodes in
      sorted ← insert_sorted_nodes (target_id l) ((fun h => (h, will_ping h)) <$> handles) (all_sorted_nodes l);
      Ok (Some iterate_nodes, next, l <| all_sorted_nodes := sorted |>).

(** The values and the nodes of a response. *)
Definition split_info (i : CompactInfoType) : option CompactValueInfo * option CompactNodeInfo :=
  match i with
  | Nodes n => (None, Some n)
  | Values v => (Some v, None)
  | Both n v => (Some v, Some n)
  end.

(** The rounds started after a response, unless in the endgame. *)
Definition continue_lookup (iterate : option (list (NodeHandle * bool))) (dist : ShaHash) (l : TableLookup)
    : WorkM (LookupStatus * TableLookup) :=
  if in_endgame l then mret (LkSearching, l)
  else
    '(st, l) ← match iterate with
               | Some nodes => start_request_round ((fun n => (n, dist)) <$> used_picks nodes) l
               | None => mret (LkSearching, l)
               end;
    if bool_decide (st = LkFailed) then mret (LkFailed, l)
    else if bool_decide (active_lookups l = ∅) then start_endgame_round l
    else mret (LkSearching, l).

(** The nodes are taken in, then the rounds are started. *)
Definition answer_rounds (dist_to_beat : ShaHash) (handles : list NodeHandle) (l : TableLookup)
    : WorkM (LookupStatus * TableLookup) :=
  '(iterate, dist, l) ← lift (take_nodes dist_to_beat handles l);
  continue_lookup iterate dist l.

Definition hand_over (values : list SocketAddrV4) (l : TableLookup) : WorkM unit :=
  match tx l with
  | Some send => modify (fun w => w <| peers_found := peers_found w ++ ((fun a => (send, SockV4 a)) <$> values) |>)
  | None => mret tt
  end.

Definition recv_response (node : Node) (trans_id : TransactionID) (msg : GetPeersResponse) (l : TableLookup)
    : WorkM (LookupStatus * TableLookup) :=
  match active_lookups l !! trans_id with
  | None => mret (current_lookup_status l, l)
  | Some (dist_to_beat, timeout) =>
      let l := l <| active_lookups := delete trans_id (active_lookups l) |> in
      _ ← when (negb (in_endgame l)) (cancel_timeout timeout);
      let l := match gr_token msg with
               | Some token => l <| announce_tokens := <[handle node := token]> (announce_tokens l) |>
               | None => l
               end in
      let l := match gr_info_type msg with Values _ => l <| recv_values := true |> | _ => l end in
      let '(opt_values, opt_nodes) := split_info (gr_info_type msg) in
      values ← lift_unwrap (match opt_values with Some v => collect_values v | None => Ok [] end);
      handles ← lift_unwrap (new_handles l opt_nodes);
      '(st, l) ← answer_rounds dist_to_beat handles l;
      if bool_decide (st = LkFailed) then mret (LkFailed, l)
      else
        _ ← hand_over values l;
        mret (current_lookup_status l, l)
  end.

Definition recv_timeout (trans_id : TransactionID) (l : TableLookup) : WorkM (LookupStatus * TableLookup) :=
  match active_lookups l !! trans_id with
  | None => mret (current_lookup_status l, l)
  | Some _ =>
      let l := l <| active_lookups := delete trans_id (active_lookups l) |> in
      '(st, l) ← (if negb (in_endgame l) && bool_decide (active_lookups l = ∅)
                  then start_endgame_round l else mret (LkSearching, l));
      if bool_decide (st = LkFailed) then mret (LkFailed, l) else mret (current_lookup_status l, l)
  end.

(** The announce loop of [recv_finished]; answers [fatal_error]. *)
Fixpoint announce_loop (port : Z) (nodes : list NodeHandle) (l : TableLookup) : WorkM (bool * TableLookup) :=
  match nodes with
  | [] => mret (false, l)
  | node :: nodes =>
      '(trans_id, g) ← next_mid (lk_generator l);
      let l := l <| lk_generator := g |> in
      token ← lift (opt_unwrap (announce_tokens l !! node));
      sent ← send_out (AnnouncePeerRequest_encode {| aq_trans_id := trans_id_bytes trans_id;
          aq_node_id := lk_table_id l; aq_info_hash := target_id l; aq_token := token; aq_port := Explicit port |})
        (nh_addr node);
      if sent : bool then _ ← touch_node TLocalRequest node; announce_loop port nodes l
      else mret (true, l)
  end.

Definition announce_targets (l : TableLookup) : list NodeHandle :=
  take ANNOUNCE_PICK_NUM (filter (fun h => is_Some (announce_tokens l !! h))
    ((fun n : SortedNode => n.1.2) <$> all_sorted_nodes l)).

Definition recv_finished (announce_port : option Z) (l : TableLookup) : WorkM (LookupStatus * TableLookup) :=
  '(fatal_error, l) ← match announce_port with
                      | Some port => if will_announce l then announce_loop port (announce_targets l) l
                                     else mret (false, l)
                      | None => mret (false, l)
                      end;
  mret (if fatal_error : bool then LkAnnounceFailed else LkCompleted, l).
End Lookup.
