(* ===== verification/DhtBootstrap.v ===== *)
(** DhtBootstrap: filling and refreshing the routing table
    ([btp-dht/src/worker/bootstrap.rs] and [refresh.rs]).

    The set of routers is kept in the order in which it is iterated, which the
    environment chooses when it is built. *)

From stdpp Require Import base list gmap.
From Stdlib Require Import ZArith Lia.
From S2P Require Import Prelude OrdMap Convert ShaHash Effects Routing RoutingCorrect Timer.
From S2P Require Import TransIds DhtToken DhtMessage DhtWork.

(** * bootstrap.rs *)

Definition BOOTSTRAP_INITIAL_TIMEOUT : Z := millis 2500.
Definition BOOTSTRAP_NODE_TIMEOUT : Z := millis 500.
Definition PINGS_PER_BUCKET : nat := 8.

Inductive BootstrapStatus : Type := BsBootstrapping | BsCompleted | BsFailed.

#[global] Instance BootstrapStatus_eq_dec : EqDecision BootstrapStatus.
Proof. solve_decision. Defined.

Record TableBootstrap := {
  bs_table_id : ShaHash;
  bs_generator : MIDGenerator;
  starting_nodes : list SocketAddr;
  starting_routers : list SocketAddr;
  active_messages : gmap TransactionID Timeout;
  messages_sent_num : Z;
  curr_bootstrap_bucket : nat;
  is_completed : bool;
}.

Definition bootstrap_eta (b : TableBootstrap) : TableBootstrap := {|
  bs_table_id := bs_table_id b; bs_generator := bs_generator b; starting_nodes := starting_nodes b;
  starting_routers := starting_routers b; active_messages := active_messages b;
  messages_sent_num := messages_sent_num b; curr_bootstrap_bucket := curr_bootstrap_bucket b;
  is_completed := is_completed b |}.
#[global] Instance upd_bs_generator : FieldUpdate bs_generator := ltac:(field_update bootstrap_eta bs_generator).
#[global] Instance upd_active_messages : FieldUpdate active_messages := ltac:(field_update bootstrap_eta active_messages).
#[global] Instance upd_messages_sent_num : FieldUpdate messages_sent_num := ltac:(field_update bootstrap_eta messages_sent_num).
#[global] Instance upd_curr_bootstrap_bucket : FieldUpdate curr_bootstrap_bucket := ltac:(field_update bootstrap_eta curr_bootstrap_bucket).
#[global] Instance upd_is_completed : FieldUpdate is_completed := ltac:(field_update bootstrap_eta is_completed).

(** Panics if the index is out of bounds. *)
Definition flip_id_bit_at_index {E} (node_id : ShaHash) (i : nat) : outcome E ShaHash :=
  let byte_index := i / 8 in
  let actual_bit_index := 7 - i mod 8 in
  byte ← index (hash node_id) byte_index;
  Ok {| hash := <[byte_index := Z.lxor byte (Z.shiftl 1 (Z.of_nat actual_bit_index))]> (hash node_id) |}.

Definition current_bootstrap_status (b : TableBootstrap) : BootstrapStatus :=
  if is_completed b && bool_decide (active_messages b = ∅) then BsCompleted else BsBootstrapping.

Definition is_router (b : TableBootstrap) (addr : SocketAddr) : bool := bool_decide (addr ∈ starting_routers b).

(** The nodes of the bucket at [i], those of an empty bucket if there is none. *)
Definition bucket_nodes {E} (t : RoutingTable) (i : nat) : outcome E (list Node) :=
  o ← buckets_nth i (buckets_iter t);
  Ok match o with
     | Some (BSorted b) | Some (BAssorted b) => b
     | _ => bucket_new
     end.

Section Bootstrap.
Context `{Profile} `{DhtEnv}.

Definition TableBootstrap_new (table_id : ShaHash) (id_generator : MIDGenerator) (nodes routers : list SocketAddr)
    : TableBootstrap := {|
  bs_table_id := table_id; bs_generator := id_generator; starting_nodes := nodes;
  starting_routers := env_order (remove_dups routers); active_messages := ∅; messages_sent_num := 0;
  curr_bootstrap_bucket := 0; is_completed := false |}.

Definition find_node_msg (table_id target : ShaHash) (t : TransactionID) : bytes :=
  FindNodeRequest_encode {| fq_trans_id := trans_id_bytes t; fq_node_id := table_id; fq_target_id := target |}.

(** Sending one message to several addresses; answers whether all were taken. *)
Fixpoint send_all (msg : bytes) (addrs : list SocketAddr) : WorkM bool :=
  match addrs with
  | [] => mret true
  | addr :: addrs => sent ← send_out msg addr; if sent : bool then send_all msg addrs else mret false
  end.

Definition start_bootstrap (b : TableBootstrap) : WorkM (BootstrapStatus * TableBootstrap) :=
  let b := b <| active_messages := ∅ |> <| curr_bootstrap_bucket := 0 |> <| is_completed := false |> in
  '(trans_id, g) ← next_mid (bs_generator b);
  timeout ← schedule BOOTSTRAP_INITIAL_TIMEOUT (CheckBootstrapTimeout trans_id);
  let b := b <| bs_generator := g |> <| active_messages := <[trans_id := timeout]> (active_messages b) |> in
  sent ← send_all (find_node_msg (bs_table_id b) (bs_table_id b) trans_id) (starting_routers b ++ starting_nodes b);
  mret (if sent : bool then current_bootstrap_status b else BsFailed, b).

(** The [for] loop of [send_bootstrap_requests]. *)
Fixpoint bootstrap_requests (nodes : list NodeHandle) (target : ShaHash) (b : TableBootstrap)
    : WorkM (BootstrapStatus * TableBootstrap) :=
  match nodes with
  | [] => mret (BsBootstrapping, b)
  | node :: nodes =>
      '(trans_id, g) ← next_mid (bs_generator b);
      let b := b <| bs_generator := g |> in
      timeout ← schedule BOOTSTRAP_NODE_TIMEOUT (CheckBootstrapTimeout trans_id);
      sent ← send_out (find_node_msg (bs_table_id b) target trans_id) (nh_addr node);
      if sent : bool then
        _ ← touch_node TLocalRequest node;
        n ← lift (u32_arith (messages_sent_num b + 1));
        bootstrap_requests nodes target
          (b <| active_messages := <[trans_id := timeout]> (active_messages b) |> <| messages_sent_num := n |>)
      else mret (BsFailed, b)
  end.

Definition send_bootstrap_requests (nodes : list NodeHandle) (target : ShaHash) (b : TableBootstrap)
    : WorkM (BootstrapStatus * TableBootstrap) :=
  bootstrap_requests nodes target (b <| messages_sent_num := 0%Z |>).

(** The first questionable nodes among [nodes]. *)
Definition questionable (n : nat) (nodes : list Node) : list NodeHandle :=
  handle <$> take n (filter (fun x => status env_now x = Questionable) nodes).

Definition bootstrap_next_bucket (b : TableBootstrap) : WorkM (BootstrapStatus * TableBootstrap) :=
  let i := curr_bootstrap_bucket b in
  target ← lift (flip_id_bit_at_index (bs_table_id b) i);
  nodes ← (if (i =? 0) || (i =? 1) then closest target
           else
             w ← get;
             percent_25_bucket ← lift (bucket_nodes (routing_table w) (i - 2));
             percent_50_bucket ← lift (bucket_nodes (routing_table w) (i - 1));
             percent_100_bucket ← lift (bucket_nodes (routing_table w) i);
             mret (percent_25_bucket ++ percent_50_bucket ++ percent_100_bucket));
  send_bootstrap_requests (questionable PINGS_PER_BUCKET nodes) target b.

(** The [loop] of [recv_response] and [recv_timeout]: buckets are gone through
    until a message could be sent; one turn per bucket left. *)
Fixpoint next_buckets (turns : nat) (b : TableBootstrap) : WorkM (BootstrapStatus * TableBootstrap) :=
  match turns with
  | 0 => lift NoFuel
  | S turns =>
      '(st, b) ← bootstrap_next_bucket b;
      if bool_decide (st = BsFailed) then mret (BsFailed, b)
      else
        let b := b <| curr_bootstrap_bucket := curr_bootstrap_bucket b + 1 |> in
        if curr_bootstrap_bucket b =? MAX_BUCKETS then
          let b := b <| is_completed := true |> in mret (current_bootstrap_status b, b)
        else if negb (messages_sent_num b =? 0)%Z then mret (BsBootstrapping, b)
        else next_buckets turns b
  end.

Definition continue_bootstrap (b : TableBootstrap) : WorkM (BootstrapStatus * TableBootstrap) :=
  if negb (is_completed b) && bool_decide (active_messages b = ∅) then next_buckets MAX_BUCKETS b
  else mret (current_bootstrap_status b, b).

Definition bs_recv_response (trans_id : TransactionID) (b : TableBootstrap)
    : WorkM (BootstrapStatus * TableBootstrap) :=
  match active_messages b !! trans_id with
  | None => mret (current_bootstrap_status b, b)
  | Some timeout =>
      if negb (curr_bootstrap_bucket b =? 0) then
        _ ← cancel_timeout timeout;
        continue_bootstrap (b <| active_messages := delete trans_id (active_messages b) |>)
      else continue_bootstrap b
  end.

Definition bs_recv_timeout (trans_id : TransactionID) (b : TableBootstrap)
    : WorkM (BootstrapStatus * TableBootstrap) :=
  match active_messages b !! trans_id with
  | None => mret (current_bootstrap_status b, b)
  | Some _ => continue_bootstrap (b <| active_messages := delete trans_id (active_messages b) |>)
  end.
End Bootstrap.

(** * refresh.rs *)

Definition REFRESH_INTERVAL_TIMEOUT : Z := millis 6000.
Definition REFRESH_0_TIMEOUT : Z := millis 3000.
Definition REFRESH_CONCURRENCY : nat := 4.

Inductive RefreshStatus : Type := RfRefreshing | RfFailed.

#[global] Instance RefreshStatus_eq_dec : EqDecision RefreshStatus.
Proof. solve_decision. Defined.

Record TableRefresh := { rf_generator : MIDGenerator; curr_refresh_bucket : nat; send_message_num : Z }.

Definition TableRefresh_new (id_generator : MIDGenerator) : TableRefresh :=
  {| rf_generator := id_generator; curr_refresh_bucket := 0; send_message_num := 0 |}.

Section Refresh.
Context `{Profile} `{DhtEnv}.

(** The [for] loop of [refresh_next_bucket]. *)
Fixpoint refresh_round (nodes : list NodeHandle) (target : ShaHash) (r : TableRefresh)
    : WorkM (RefreshStatus * TableRefresh) :=
  match nodes with
  | [] => mret (RfRefreshing, r)
  | node :: nodes =>
      '(trans_id, g) ← next_mid (rf_generator r);
      let r := {| rf_generator := g; curr_refresh_bucket := curr_refresh_bucket r;
                  send_message_num := send_message_num r |} in
      w ← get;
      sent ← send_out (find_node_msg (table_id (routing_table w)) target trans_id) (nh_addr node);
      if sent : bool then
        _ ← touch_node TLocalRequest node;
        n ← lift (arith is_u8 to_u8 (send_message_num r + 1));
        refresh_round nodes target
          {| rf_generator := rf_generator r; curr_refresh_bucket := curr_refresh_bucket r; send_message_num := n |}
      else mret (RfFailed, r)
  end.

(** [.filter(|n| !n.recently_requested_from()).take(count)], which looks at no more nodes
    than it needs. *)
Fixpoint pick_unrequested (count : nat) (nodes : list Node) : outcome Empty_set (list NodeHandle) :=
  match count, nodes with
  | S count', n :: nodes =>
      recent ← recently_requested_from env_oldest env_now n;
      if recent : bool then pick_unrequested count nodes
      else picked ← pick_unrequested count' nodes; Ok (handle n :: picked)
  | _, _ => Ok []
  end.

Definition refresh_next_bucket (r : TableRefresh) : WorkM (RefreshStatus * TableRefresh) :=
  let i := if curr_refresh_bucket r =? MAX_BUCKETS then 0 else curr_refresh_bucket r in
  w ← get;
  target ← lift (flip_id_bit_at_index (table_id (routing_table w)) i);
  nodes ← closest target;
  picked ← lift (pick_unrequested REFRESH_CONCURRENCY (filter (fun n => status env_now n = Questionable) nodes));
  refresh_round picked target {| rf_generator := rf_generator r; curr_refresh_bucket := i; send_message_num := 0 |}.

Definition continue_refresh (r : TableRefresh) : WorkM (RefreshStatus * TableRefresh) :=
  '(st, r) ← refresh_next_bucket r;
  if bool_decide (st = RfFailed) then mret (RfFailed, r)
  else
    '(trans_id, g) ← next_mid (rf_generator r);
    let r := {| rf_generator := g; curr_refresh_bucket := curr_refresh_bucket r + 1;
                send_message_num := send_message_num r |} in
    _ ← schedule (if negb (send_message_num r =? 0)%Z then REFRESH_INTERVAL_TIMEOUT else REFRESH_0_TIMEOUT)
          (CheckTableRefresh trans_id);
    mret (RfRefreshing, r).
End Refresh.
