(* ===== verification/DhtHandler.v ===== *)
(** DhtHandler: the DHT worker ([btp-dht/src/worker/handler.rs], the types of
    [worker/mod.rs] and [router.rs]).

    A turn handles one command, one datagram or one timeout.  Channels to
    clients are numbers; what is handed to them is collected in [clients_out].
    A client whose receiver is gone is one for which [env_alive] is false. *)

From stdpp Require Import base list gmap.
From Stdlib Require Import ZArith Lia.
From Stdlib Require String.
From S2P Require Import Prelude OrdMap Bencode Convert ShaHash Effects Routing RoutingCorrect Timer.
From S2P Require Import TransIds DhtToken DhtStorage DhtMessage DhtWork DhtLookup DhtBootstrap.
Import String.StringSyntax.

(** * router.rs *)

Inductive Router : Type := uTorrent | BitTorrent | BitComet | Transmission | Custom (addr : SocketAddr).

Definition UTORRENT_DHT : bytes * Z := (ascii_bytes "router.utorrent.com", 6881%Z).
Definition BITTORRENT_DHT : bytes * Z := (ascii_bytes "router.bittorrent.com", 6881%Z).
Definition BITCOMET_DHT : bytes * Z := (ascii_bytes "router.bitcomet.com", 6881%Z).
Definition TRANSMISSION_DHT : bytes * Z := (ascii_bytes "dht.transmissionbt.com", 6881%Z).

Definition map_ipv4 (addr : SocketAddr) : option SocketAddrV4 :=
  match addr with SockV4 n => Some n | SockV6 _ => None end.
Definition map_ipv6 (addr : SocketAddr) : option SocketAddrV6 :=
  match addr with SockV4 _ => None | SockV6 n => Some n end.

Section Router.
Context `{DhtEnv}.

(** [None] is an error of the resolver. *)
Definition socket_addrs (r : Router) : option (list SocketAddr) :=
  match r with
  | uTorrent => env_resolve UTORRENT_DHT.1 UTORRENT_DHT.2
  | BitTorrent => env_resolve BITTORRENT_DHT.1 BITTORRENT_DHT.2
  | BitComet => env_resolve BITCOMET_DHT.1 BITCOMET_DHT.2
  | Transmission => env_resolve TRANSMISSION_DHT.1 TRANSMISSION_DHT.2
  | Custom addr => Some [addr]
  end.
Definition ipv4_addr (r : Router) : option SocketAddrV4 :=
  addrs ← socket_addrs r; head (omap map_ipv4 addrs).
Definition ipv6_addr (r : Router) : option SocketAddrV6 :=
  addrs ← socket_addrs r; head (omap map_ipv6 addrs).
Definition router_socket_addr (r : Router) : option SocketAddr :=
  addrs ← socket_addrs r; head addrs.
End Router.

(** * worker/mod.rs *)

Inductive ShutdownCause : Type := BootstrapFailed | ClientInitiated | Unspecified.

Inductive DhtEvent : Type :=
  | BootstrapCompleted
  | LookupCompleted (info_hash : ShaHash)
  | LookupAnFail (info_hash : ShaHash)
  | ShuttingDown (cause : ShutdownCause).

Inductive DhtStatus : Type := StInit | StBootStrapIng | StFail | StCompleted.

#[global] Instance DhtStatus_eq_dec : EqDecision DhtStatus.
Proof. solve_decision. Defined.

Record DhtValues := {
  dht_id : ShaHash; dht_address : SocketAddr; values_status : DhtStatus;
  good_node_count : nat; questionable_node_count : nat; bucket_count : nat
}.

Inductive OneshotTask : Type :=
  | RegisterSender (client : nat)
  | GetBootstrapStatus (client : nat)
  | GetDhtValues (client : nat)
  | StartBootstrap (routers : list Router) (nodes : list SocketAddr)
  | StartLookup (info_hash : ShaHash) (should_announce : bool) (client : option nat)
  | SelfLookup
  | Shutdown (cause : ShutdownCause).

(** * State *)

Definition MAX_BOOTSTRAP_ATTEMPTS : nat := 3.
Definition BOOTSTRAP_GOOD_NODE_THRESHOLD : nat := 10.

Inductive TableAction : Type :=
  | TaLookup (l : TableLookup)
  | TaRefresh (r : TableRefresh)
  | TaBootstrap (b : TableBootstrap) (attempts : nat).

Inductive PostBootstrapAction : Type :=
  | PbLookup (info_hash : ShaHash) (should_announce : bool) (client : option nat)
  | PbRefresh (r : TableRefresh) (t : TransactionID).

(** What is handed to a client. *)
Inductive ClientMessage : Type :=
  | ToEvents (e : DhtEvent)
  | ToStatus (completed : bool)
  | ToValues (v : DhtValues).

(** [DhtHandler] with its [DetachedDhtHandler]. *)
Record DhtHandler := {
  dht_status : DhtStatus;
  status_tx : list nat;
  read_only : bool;
  local_addr : SocketAddr;
  announce_port : option Z;
  token_store : TokenStore;
  aid_generator : AIDGenerator;
  active_stores : AnnounceStorage;
  future_actions : list PostBootstrapAction;
  event_notifiers : list nat;
  table_actions : gmap ActionID TableAction;
  work : Work;
  clients_out : list (nat * ClientMessage);
}.

Definition handler_eta (h : DhtHandler) : DhtHandler := {|
  dht_status := dht_status h; status_tx := status_tx h; read_only := read_only h; local_addr := local_addr h;
  announce_port := announce_port h; token_store := token_store h; aid_generator := aid_generator h;
  active_stores := active_stores h; future_actions := future_actions h; event_notifiers := event_notifiers h;
  table_actions := table_actions h; work := work h; clients_out := clients_out h |}.
#[global] Instance upd_dht_status : FieldUpdate dht_status := ltac:(field_update handler_eta dht_status).
#[global] Instance upd_status_tx : FieldUpdate status_tx := ltac:(field_update handler_eta status_tx).
#[global] Instance upd_token_store : FieldUpdate token_store := ltac:(field_update handler_eta token_store).
#[global] Instance upd_aid_generator : FieldUpdate aid_generator := ltac:(field_update handler_eta aid_generator).
#[global] Instance upd_active_stores : FieldUpdate active_stores := ltac:(field_update handler_eta active_stores).
#[global] Instance upd_future_actions : FieldUpdate future_actions := ltac:(field_update handler_eta future_actions).
#[global] Instance upd_event_notifiers : FieldUpdate event_notifiers := ltac:(field_update handler_eta event_notifiers).
#[global] Instance upd_table_actions : FieldUpdate table_actions := ltac:(field_update handler_eta table_actions).
#[global] Instance upd_work : FieldUpdate work := ltac:(field_update handler_eta work).
#[global] Instance upd_clients_out : FieldUpdate clients_out := ltac:(field_update handler_eta clients_out).

Notation HandlerM := (St DhtHandler Empty_set).

(** A call on the parts that the actions share. *)
Definition on_work {A} (m : WorkM A) : HandlerM A := fun h =>
  let (r, w) := m (work h) in (r, h <| work := w |>).

Definition set_action (a : ActionID) (act : TableAction) : HandlerM unit :=
  modify (fun h => h <| table_actions := <[a := act]> (table_actions h) |>).
Definition remove_action (a : ActionID) : HandlerM unit :=
  modify (fun h => h <| table_actions := delete a (table_actions h) |>).

Section Handler.
Context `{Profile} `{BinarySearch} `{Sha1} `{DhtEnv}.

(** [aid_generator.generate()] *)
Definition next_aid : HandlerM MIDGenerator :=
  h ← get;
  '(g, aids) ← lift (aid_generate (env_rng (draws (work h))) (aid_generator h));
  _ ← modify (fun h => h <| aid_generator := aids |> <| work := work h <| draws := S (draws (work h)) |> |>);
  mret g.

Definition DhtHandler_new (table : RoutingTable) (out_closed : option nat) (local_addr : SocketAddr)
    (read_only : bool) (announce_port : option Z) : outcome Empty_set DhtHandler :=
  aids ← AIDGenerator_new (env_rng 0);
  '(g, aids) ← aid_generate (env_rng 1) aids;
  '(refresh_trans_id, g) ← mid_generate (env_rng 2) g;
  Ok {| dht_status := StInit; status_tx := []; read_only := read_only; local_addr := local_addr;
        announce_port := announce_port; token_store := TokenStore_new env_tick; aid_generator := aids;
        active_stores := AnnounceStorage_new;
        future_actions := [PbLookup (table_id table) false None; PbRefresh (TableRefresh_new g) refresh_trans_id];
        event_notifiers := []; table_actions := ∅;
        work := {| routing_table := table; message_out := []; out_closed := out_closed; timer := timer_new;
                   peers_found := []; draws := 3 |};
        clients_out := [] |}.

(** * Clients *)

Definition send_client (client : nat) (m : ClientMessage) : HandlerM unit :=
  modify (fun h => h <| clients_out := clients_out h ++ [(client, m)] |>).

(** [tx.send(m).expect(..)] *)
Definition send_expect (client : nat) (m : ClientMessage) : HandlerM unit :=
  if env_alive client then send_client client m else lift Panic.

Definition broadcast_dht_event (e : DhtEvent) : HandlerM unit :=
  h ← get;
  let alive := filter (fun c => env_alive c = true) (event_notifiers h) in
  _ ← for_each alive (fun c => send_client c (ToEvents e));
  modify (fun h => h <| event_notifiers := alive |>).

(** [self.status_tx.retain(..)]: every waiting client is told and dropped. *)
Definition answer_status (completed : bool) : HandlerM unit :=
  h ← get;
  _ ← for_each (status_tx h) (fun c => send_expect c (ToStatus completed));
  modify (fun h => h <| status_tx := [] |>).

Definition shutdown : HandlerM unit := modify (fun h => h <| dht_status := StFail |>).

Definition handle_command_shutdown (cause : ShutdownCause) : HandlerM unit :=
  _ ← answer_status false;
  _ ← broadcast_dht_event (ShuttingDown cause);
  shutdown.

Definition handle_register_sender (client : nat) : HandlerM unit :=
  modify (fun h => h <| event_notifiers := event_notifiers h ++ [client] |>).

Definition handle_get_bootstrapped (client : nat) : HandlerM unit :=
  h ← get;
  match dht_status h with
  | StFail => send_expect client (ToStatus false)
  | StCompleted => send_expect client (ToStatus true)
  | _ => modify (fun h => h <| status_tx := status_tx h ++ [client] |>)
  end.

Definition count_status (s : NodeStatus) : HandlerM nat :=
  h ← get;
  lift (num_with_status (MAX_BUCKETS * MAX_BUCKET_SIZE + 1) env_now (routing_table (work h)) s).

Definition handle_get_dht_values (client : nat) : HandlerM unit :=
  good ← count_status Good;
  questionable ← count_status Questionable;
  h ← get;
  send_expect client (ToValues {|
    dht_id := table_id (routing_table (work h)); dht_address := local_addr h; values_status := dht_status h;
    good_node_count := good; questionable_node_count := questionable;
    bucket_count := length (buckets (routing_table (work h))) |}).

Definition nood_to_less : HandlerM bool :=
  good ← count_status Good; mret (good <=? BOOTSTRAP_GOOD_NODE_THRESHOLD).

(** * Starting actions *)

Definition handle_start_bootstrap (routers : list Router) (nodes : list SocketAddr) : HandlerM unit :=
  g ← next_aid;
  let a := MIDGenerator_action_id g in
  h ← get;
  let b := TableBootstrap_new (table_id (routing_table (work h))) g nodes (SockV4 <$> omap ipv4_addr routers) in
  _ ← when (bool_decide (dht_status h <> StCompleted)) (modify (fun h => h <| dht_status := StBootStrapIng |>));
  '(st, b) ← on_work (start_bootstrap b);
  if bool_decide (st = BsFailed) then handle_command_shutdown Unspecified
  else set_action a (TaBootstrap b 0).

Definition handle_start_lookup (info_hash : ShaHash) (should_announce : bool) (client : option nat) : HandlerM unit :=
  g ← next_aid;
  let a := MIDGenerator_action_id g in
  h ← get;
  if bool_decide (dht_status h <> StCompleted) then
    modify (fun h => h <| future_actions := future_actions h ++ [PbLookup info_hash should_announce client] |>)
  else
    o ← on_work (TableLookup_new (table_id (routing_table (work h))) info_hash g should_announce client);
    match o with
    | Some l => set_action a (TaLookup l)
    | None => handle_command_shutdown Unspecified
    end.

(** * Timeouts *)

Definition handle_check_table_refresh (t : TransactionID) : HandlerM unit :=
  h ← get;
  match table_actions h !! action_id t with
  | Some (TaRefresh r) =>
      '(st, r) ← on_work (continue_refresh r);
      _ ← set_action (action_id t) (TaRefresh r);
      if bool_decide (st = RfFailed) then handle_command_shutdown Unspecified else mret tt
  | _ => mret tt
  end.

(** [attempt_rebootstrap] *)
Definition attempt_rebootstrap (b : TableBootstrap) (attempts : nat) (t : TransactionID) : HandlerM (option bool) :=
  let attempts := attempts + 1 in
  if MAX_BOOTSTRAP_ATTEMPTS <=? attempts then
    good ← count_status Good;
    if good =? 0 then _ ← handle_command_shutdown BootstrapFailed; mret None
    else mret (Some true)
  else
    '(st, b) ← on_work (start_bootstrap b);
    _ ← set_action (action_id t) (TaBootstrap b attempts);
    if bool_decide (st = BsFailed) then _ ← handle_command_shutdown Unspecified; mret None
    else mret (Some false).

Definition start_future_action (p : PostBootstrapAction) : HandlerM unit :=
  match p with
  | PbLookup info_hash should_announce client => handle_start_lookup info_hash should_announce client
  | PbRefresh r t => _ ← set_action (action_id t) (TaRefresh r); handle_check_table_refresh t
  end.

Definition broadcast_bootstrap_completed (a : ActionID) : HandlerM unit :=
  _ ← modify (fun h => h <| dht_status := StCompleted |>);
  _ ← answer_status true;
  _ ← broadcast_dht_event BootstrapCompleted;
  _ ← remove_action a;
  h ← get;
  _ ← modify (fun h => h <| future_actions := [] |>);
  for_each (future_actions h) start_future_action.

(** What follows a step of a bootstrap, on a response as on a timeout. *)
Definition after_bootstrap (st : BootstrapStatus) (t : TransactionID) : HandlerM unit :=
  complete ← match st with
             | BsBootstrapping => mret false
             | BsFailed => _ ← handle_command_shutdown Unspecified; mret false
             | BsCompleted =>
                 less ← nood_to_less;
                 if less : bool then
                   h ← get;
                   let old := table_actions h !! action_id t in
                   _ ← remove_action (action_id t);
                   match old with
                   | Some (TaBootstrap b attempts) =>
                       o ← attempt_rebootstrap b attempts t;
                       mret (bool_decide (o = Some true))
                   | _ => mret false
                   end
                 else mret true
             end;
  when complete (broadcast_bootstrap_completed (action_id t)).

Definition handle_check_bootstrap_timeout (t : TransactionID) : HandlerM unit :=
  h ← get;
  match table_actions h !! action_id t with
  | Some (TaBootstrap b attempts) =>
      '(st, b) ← on_work (bs_recv_timeout t b);
      _ ← set_action (action_id t) (TaBootstrap b attempts);
      after_bootstrap st t
  | _ => mret tt
  end.

(** What follows a step of a lookup. *)
Definition after_lookup (st : LookupStatus) (info_hash : ShaHash) : HandlerM unit :=
  match st with
  | LkCompleted => broadcast_dht_event (LookupCompleted info_hash)
  | LkFailed => handle_command_shutdown Unspecified
  | _ => mret tt
  end.

Definition handle_check_lookup_timeout (t : TransactionID) : HandlerM unit :=
  h ← get;
  match table_actions h !! action_id t with
  | Some (TaLookup l) =>
      '(st, l) ← on_work (recv_timeout t l);
      _ ← set_action (action_id t) (TaLookup l);
      after_lookup st (target_id l)
  | _ => mret tt
  end.

Definition handle_check_lookup_endgame (t : TransactionID) : HandlerM unit :=
  h ← get;
  let old := table_actions h !! action_id t in
  _ ← remove_action (action_id t);
  match old with
  | Some (TaLookup l) =>
      '(st, l) ← on_work (recv_finished (announce_port h) l);
      match st with
      | LkCompleted => broadcast_dht_event (LookupCompleted (target_id l))
      | LkAnnounceFailed =>
          _ ← broadcast_dht_event (LookupAnFail (target_id l)); handle_command_shutdown Unspecified
      | _ => mret tt
      end
  | _ => mret tt
  end.

Definition handle_timeout (task : ScheduledTask) : HandlerM unit :=
  match task with
  | CheckTableRefresh t => handle_check_table_refresh t
  | CheckBootstrapTimeout t => handle_check_bootstrap_timeout t
  | CheckLookupTimeout t => handle_check_lookup_timeout t
  | CheckLookupEndGame t => handle_check_lookup_endgame t
  end.

(** * Incoming messages *)

(** A response goes out; when the channel is closed the worker shuts down. *)
Definition reply (msg : bytes) (addr : SocketAddr) : HandlerM unit :=
  sent ← on_work (send_out msg addr);
  if sent : bool then mret tt else handle_command_shutdown Unspecified.

Definition saw_request (id : ShaHash) (addr : SocketAddr) : HandlerM unit :=
  on_work (touch_node TRemoteRequest {| nh_id := id; nh_addr := addr |}).

(** The bytes of the nodes one after the other. *)
Fixpoint encode_nodes (ns : list Node) : outcome Empty_set bytes :=
  match ns with
  | [] => Ok []
  | n :: ns => b ← node_encode n; bs ← encode_nodes ns; Ok (b ++ bs)
  end.

Definition closest_nodes_bytes (target : ShaHash) : HandlerM bytes :=
  ns ← on_work (closest target);
  lift (encode_nodes (take 8 ns)).

(** The closure given to [find_items]. *)
Definition contact_bytes (addr : SocketAddr) : bytes :=
  match addr with
  | SockV4 v4 => ipv4_to_bytes_be (v4_ip v4) ++ [to_u8 (Z.shiftr (v4_port v4) 8); Z.land (v4_port v4) 255]
  | SockV6 _ => []
  end.

(** The slices of six bytes; they are in range by the bound of the loop. *)
Definition contact_chunks (bs : bytes) : list bytes :=
  (fun chunk_index => take 6 (drop (chunk_index * 6) bs)) <$> seq 0 (length bs / 6).

Definition answer_get_peers (g : GetPeersRequest) (addr : SocketAddr) : HandlerM unit :=
  h ← get;
  let '(contacts, stores) := storage_find (gq_info_hash g) env_utc_found (active_stores h) in
  _ ← modify (fun h => h <| active_stores := stores |>);
  let contact_info := contact_chunks (concat (contact_bytes <$> contacts)) in
  nodes_bytes ← closest_nodes_bytes (gq_info_hash g);
  h ← get;
  let '(tok, tokens) := checkout env_tick (from_socket_addr addr) (token_store h) in
  _ ← modify (fun h => h <| token_store := tokens |>);
  nodes_info ← lift_unwrap (CompactNodeInfo_new nodes_bytes);
  info_type ← (if bool_decide (contact_info <> []) then
                 values_info ← lift_unwrap (CompactValueInfo_new contact_info);
                 mret (Both nodes_info values_info)
               else mret (Nodes nodes_info));
  h ← get;
  reply (GetPeersResponse_encode {| gr_trans_id := gq_trans_id g; gr_node_id := table_id (routing_table (work h));
    gr_token := Some (token tok); gr_info_type := info_type |}) addr.

Definition connect_addr (p : ConnectPort) (addr : SocketAddr) : SocketAddr :=
  match p, addr with
  | Implied, _ => addr
  | Explicit port, SockV4 v4 => SockV4 {| v4_ip := v4_ip v4; v4_port := port |}
  | Explicit port, SockV6 v6 => SockV6 {| v6_ip := v6_ip v6; v6_port := port;
      flowinfo := flowinfo v6; scope_id := scope_id v6 |}
  end.

(** The validity of the token of an announce. *)
Definition check_token (bs : bytes) (addr : SocketAddr) : HandlerM bool :=
  match Token_new bs with
  | Ok t =>
      h ← get;
      let '(valid, tokens) := checkin env_tick (from_socket_addr addr) t (token_store h) in
      _ ← modify (fun h => h <| token_store := tokens |>);
      mret valid
  | _ => mret false
  end.

Definition answer_announce (a : AnnouncePeerRequest) (addr : SocketAddr) : HandlerM unit :=
  is_valid ← check_token (aq_token a) addr;
  response_msg ←
    (if negb is_valid then
       mret (ErrorMessage_encode (ErrorMessage_new (aq_trans_id a) ProtocolError (ascii_bytes "Received An Invalid Token")))
     else
       h ← get;
       let '(added, stores) := storage_add (aq_info_hash a) (connect_addr (aq_port a) addr)
         env_utc_found env_utc_added (active_stores h) in
       _ ← modify (fun h => h <| active_stores := stores |>);
       if added : bool then
         mret (ActingResponse_encode {| ar_trans_id := aq_trans_id a; ar_node_id := table_id (routing_table (work h)) |})
       else
         mret (ErrorMessage_encode (ErrorMessage_new (aq_trans_id a) ServerError (ascii_bytes "Announce Storage Is Full"))));
  reply response_msg addr.

Definition handle_incoming_request (request : DhtMessage.RequestType) (addr : SocketAddr) : HandlerM unit :=
  match request with
  | RqPing p =>
      _ ← saw_request (pq_node_id p) addr;
      h ← get;
      reply (ActingResponse_encode {| ar_trans_id := pq_trans_id p; ar_node_id := table_id (routing_table (work h)) |}) addr
  | RqFindNode f =>
      _ ← saw_request (fq_node_id f) addr;
      nodes_bytes ← closest_nodes_bytes (fq_target_id f);
      h ← get;
      rsp ← lift_unwrap (FindNodeResponse_new (fq_trans_id f) (table_id (routing_table (work h))) nodes_bytes);
      reply (FindNodeResponse_encode rsp) addr
  | RqGetPeers g => _ ← saw_request (gq_node_id g) addr; answer_get_peers g addr
  | RqAnnouncePeer a => _ ← saw_request (aq_node_id a) addr; answer_announce a addr
  end.

(** [TransactionID::from_bytes(..).unwrap()] *)
Definition read_trans_id (bs : bytes) : HandlerM TransactionID := lift (opt_unwrap (TransactionID_from_bytes bs)).

Definition handle_incoming_response (response : DhtMessage.ResponseType) (addr : SocketAddr) : HandlerM unit :=
  match response with
  | RsFindNode f =>
      t ← read_trans_id (fr_trans_id f);
      let node := as_good env_now (fr_node_id f) addr in
      ns ← lift_unwrap (collect_nodes (fr_nodes f));
      _ ← for_each ns (fun p =>
        node ← lift (as_questionable env_oldest env_now p.1 (SockV4 p.2)); on_work (add_node node));
      h ← get;
      match table_actions h !! action_id t with
      | Some (TaRefresh _) => on_work (add_node node)
      | Some (TaBootstrap b attempts) =>
          _ ← when (negb (is_router b (node_addr node))) (on_work (add_node node));
          '(st, b) ← on_work (bs_recv_response t b);
          _ ← set_action (action_id t) (TaBootstrap b attempts);
          after_bootstrap st t
      | _ => mret tt
      end
  | RsGetPeers g =>
      t ← read_trans_id (gr_trans_id g);
      let node := as_good env_now (gr_node_id g) addr in
      _ ← on_work (add_node node);
      h ← get;
      match table_actions h !! action_id t with
      | Some (TaLookup l) =>
          '(st, l) ← on_work (recv_response node t g l);
          _ ← set_action (action_id t) (TaLookup l);
          after_lookup st (target_id l)
      | _ => mret tt
      end
  | RsPing _ | RsAnnouncePeer _ => mret tt
  | RsActing a => on_work (add_node (as_good env_now (ar_node_id a) addr))
  end.

Definition handle_incoming_preprocess (message : outcome DhtError DhtMessage.MessageType) (read_only : bool) : bool :=
  match message with
  | Ok (Request _) => negb read_only
  | _ => true
  end.

Definition handle_incoming (buffer : bytes) (addr : SocketAddr) : HandlerM unit :=
  match BencodeRef_decode buffer BDecodeOpt_default with
  | Ok bencode =>
      let message := MessageType_new bencode in
      h ← get;
      if negb (handle_incoming_preprocess message (read_only h)) then mret tt
      else
        match message with
        | Err _ | Ok (MsgError _) => mret tt
        | Ok (Request request) => handle_incoming_request request addr
        | Ok (Response response) => handle_incoming_response response addr
        | Panic => lift Panic
        | NoFuel => lift NoFuel
        end
  | Err _ => mret tt
  | Panic => lift Panic
  | NoFuel => lift NoFuel
  end.

Definition handle_command (c : OneshotTask) : HandlerM unit :=
  match c with
  | Shutdown cause => handle_command_shutdown cause
  | RegisterSender client => handle_register_sender client
  | GetBootstrapStatus client => handle_get_bootstrapped client
  | GetDhtValues client => handle_get_dht_values client
  | StartBootstrap routers nodes => handle_start_bootstrap routers nodes
  | StartLookup info_hash should_announce client => handle_start_lookup info_hash should_announce client
  | SelfLookup => h ← get; handle_start_lookup (table_id (routing_table (work h))) false None
  end.

(** * The loop *)

(** What [select!] can find ready. *)
Inductive DhtInput : Type :=
  | InCommand (c : OneshotTask)
  | InCommandsClosed
  | InDatagram (buffer : bytes) (addr : SocketAddr)
  | InRecvError
  | InTimer.

Definition run_one (i : DhtInput) : HandlerM unit :=
  match i with
  | InCommand c => handle_command c
  | InCommandsClosed => shutdown
  | InDatagram buffer addr => handle_incoming buffer addr
  | InRecvError => mret tt
  | InTimer =>
      h ← get;
      if timer_is_empty (timer (work h)) then mret tt
      else
        let '(p, t) := poll_next env_now (timer (work h)) in
        _ ← modify (fun h => h <| work := work h <| timer := t |> |>);
        match p with
        | Pending => mret tt
        | Ready o => task ← lift (opt_unwrap o); handle_timeout task
        end
  end.
End Handler.

(** [run]: the loop over turns, each with its environment, as long as the worker
    has not shut down. *)
Fixpoint dht_run `{Profile} `{BinarySearch} `{Sha1} (inputs : list (DhtEnv * DhtInput)) : HandlerM unit :=
  match inputs with
  | [] => mret tt
  | (e, i) :: inputs =>
      h ← get;
      if bool_decide (dht_status h = StFail) then mret tt
      else _ ← @run_one _ _ _ e i; dht_run inputs
  end.
