(* ===== verification/DhtWorkCorrect.v ===== *)
(** DhtWorkCorrect: what the calls of an action on the shared parts do.

    [work_ok] is the invariant of the shared parts, [progress a] bounds what the
    methods of action [a] may change: the other actions keep their timeouts.
    Timeout keys are 64-bit counters; every timeout is scheduled right after an
    identifier was drawn, so the statements about the timer are made as long as
    fewer than 2^64 identifiers have been drawn ([bounded]). *)

From stdpp Require Import base list gmap.
From Stdlib Require Import ZArith Lia.
From S2P Require Import Prelude OrdMap Convert ShaHash Effects Routing RoutingCorrect RoutingClosest Timer.
From S2P Require Import TransIds DhtToken DhtMessage DhtWork.

(** * Identifier generators *)

(** A block of identifiers below [max]; its allocation may have wrapped. *)
Record block_ok (max : Z) (b : IdBlock) : Prop := {
  bk_ids : Forall (fun id => 0 <= id < max)%Z (block_ids b);
  bk_range : (0 <= next_alloc b <= max)%Z;
  bk_aligned : (Z.of_nat ID_PREALLOC_LEN | next_alloc b)%Z
}.

Section Blocks.
Context `{Profile} {E : Type} (max : Z) (Hmax : max_ok max).

Lemma block_ok_take fuel gen rng b id :
  block_ok max b -> block_ids b !! curr_index b = Some id ->
  exists b', @block_generate E (S fuel) gen rng b = Ok (id, b') /\ block_ok max b' /\ (0 <= id < max)%Z.
Proof.
  intros [Hi Hr Ha] Hid. cbn [block_generate]. rewrite Hid. eexists. split; [done|]. split; [by split|].
  by apply (Forall_lookup_1 _ _ _ _ Hi Hid).
Qed.

Lemma block_generate_ok rng b :
  block_ok max b -> exists id b', @block_generate E 2 (generate_ids max) rng b = Ok (id, b') /\
    block_ok max b' /\ (0 <= id < max)%Z.
Proof.
  intros Hb. destruct (block_ids b !! curr_index b) as [id|] eqn:Hid.
  { destruct (block_ok_take 1 (generate_ids max) rng b id Hb Hid) as (b' & ? & ?). eauto. }
  destruct Hb as [_ Hr Ha]. pose proof Hmax as (Hpos & Hdiv & Hu).
  unfold block_generate at 1. rewrite Hid, generate_ids_run by done. rewrite mbind_ok. cbn beta iota.
  set (start := if (_ =? _)%Z then 0%Z else next_alloc b).
  assert (Hs : (0 <= start)%Z /\ (start + Z.of_nat ID_PREALLOC_LEN <= max)%Z /\ (Z.of_nat ID_PREALLOC_LEN | start)%Z).
  { assert (0 < Z.of_nat ID_PREALLOC_LEN)%Z by done. set (k := Z.of_nat ID_PREALLOC_LEN) in *.
    destruct Ha as [x Hx], Hdiv as [y Hy]. unfold start. destruct (Z.eqb_spec (next_alloc b) max) as [|Hne].
    - split_and!; [lia| |by exists 0%Z]. assert (1 <= y)%Z by nia. nia.
    - split_and!; [lia| |by exists x]. assert (x < y)%Z by nia. nia. }
  destruct Hs as (Hs0 & Hs1 & Hs2).
  destruct (fisher_shuffle_perm (E := E) 0%Z rng (seqZ start (Z.of_nat ID_PREALLOC_LEN))) as (ids & -> & Hids).
  rewrite mbind_ok. set (b1 := Build_IdBlock _ _ _).
  assert (Hb1 : block_ok max b1).
  { split; unfold b1; cbn [block_ids next_alloc].
    - apply Forall_forall. intros id Hin. rewrite Hids in Hin. apply elem_of_seqZ in Hin. lia.
    - lia.
    - by apply Z.divide_add_r. }
  destruct (block_ids b1 !! 0) as [id|] eqn:H0.
  - destruct (block_ok_take 0 (generate_ids max) rng b1 id Hb1 H0) as (b' & ? & ?). eauto.
  - exfalso. apply lookup_ge_None in H0. unfold b1 in H0. cbn [block_ids] in H0.
    apply Permutation_length in Hids. rewrite length_seqZ, Nat2Z.id in Hids. rewrite Hids in H0.
    unfold ID_PREALLOC_LEN in H0. lia.
Qed.
End Blocks.

(** A generator of message identifiers for action [a]. *)
Record gen_ok (a : ActionID) (g : MIDGenerator) : Prop := {
  gn_action : mid_action_id g = shifted (act_id a);
  gn_block : block_ok MAX_MESSAGE_ID (mid_block g)
}.

Lemma gen_ok_action_id a g : gen_ok a g -> MIDGenerator_action_id g = a.
Proof. intros [Ha _]. unfold MIDGenerator_action_id. rewrite Ha, shifted_action. by destruct a. Qed.

Lemma mid_generate_ok `{Profile} {E} rng a g :
  gen_ok a g -> exists t g', @mid_generate _ E rng g = Ok (t, g') /\ gen_ok a g' /\ action_id t = a.
Proof.
  intros [Ha Hb]. unfold mid_generate, generate_mids.
  destruct (block_generate_ok (E := E) MAX_MESSAGE_ID max_message_ok rng (mid_block g) Hb) as (m & b & -> & Hb' & Hm).
  rewrite mbind_ok. cbn beta iota. eexists _, _. split; [reflexivity|]. split; [by split|].
  unfold action_id. cbn [TransactionID_new trans_id]. rewrite Ha, lor_shifted, shifted_div by done. by destruct a.
Qed.

Lemma aid_generate_ok `{Profile} {E} rng g :
  block_ok MAX_ACTION_ID g ->
  exists m g', @aid_generate _ E rng g = Ok (m, g') /\ block_ok MAX_ACTION_ID g' /\
    gen_ok (MIDGenerator_action_id m) m.
Proof.
  intros Hb. unfold aid_generate, generate_aids.
  destruct (block_generate_ok (E := E) MAX_ACTION_ID max_action_ok rng g Hb) as (a & b & -> & Hb' & Ha).
  rewrite mbind_ok. cbn beta iota. eexists _, _. split; [reflexivity|]. split; [done|].
  unfold MIDGenerator_action_id. cbn [MIDGenerator_new mid_action_id]. rewrite shl_action, shifted_action by done.
  split; cbn [MIDGenerator_new mid_action_id mid_block act_id]; [done|].
  split; cbn [block_ids next_alloc]; [|unfold MAX_MESSAGE_ID; lia|by exists 0%Z].
  apply Forall_replicate. unfold MAX_MESSAGE_ID. lia.
Qed.

(** * Invariant of the shared parts *)

Definition bounded (w : Work) : Prop := (Z.of_nat (draws w) < 18446744073709551616)%Z.

(** Timeout [k] is pending, for task [s]. *)
Definition pending_at (w : Work) (k : Timeout) (s : ScheduledTask) : Prop :=
  btree_get k (contents (timer w)) = Some s.

Definition is_v4 (addr : SocketAddr) : Prop := match addr with SockV4 _ => True | SockV6 _ => False end.
(** What the worker puts into its table. *)
Definition v4_node (n : Node) : Prop := is_v4 (node_addr n) /\ length (hash (node_id n)) = SHA_HASH_LEN.

Record work_ok (w : Work) : Prop := {
  wk_table : table_ok (routing_table w);
  wk_v4 : table_all v4_node (routing_table w);
  wk_timer : bounded w -> timer_ok (timer w) /\ (Timer.next_id (timer w) <= Z.of_nat (draws w))%Z
}.

Lemma fresh_work_ok table closed n :
  table_ok table -> table_all v4_node table ->
  work_ok {| routing_table := table; message_out := []; out_closed := closed; timer := timer_new; peers_found := []; draws := n |}.
Proof.
  intros Ht Hv. split; [done|done|]. intros _. cbn [timer draws]. split; [|apply Nat2Z.is_nonneg].
  split_and!; [constructor|constructor|done].
Qed.

(** What the methods of action [a] may do to the shared parts. *)
Record progress (a : ActionID) (w w' : Work) : Prop := {
  pg_draws : draws w <= draws w';
  pg_id : table_id (routing_table w') = table_id (routing_table w);
  pg_others : bounded w' -> forall k s, pending_at w k s -> action_id (task_id s) <> a -> pending_at w' k s
}.

(** What a method that cancels nothing does. *)
Record extends (w w' : Work) : Prop := {
  ex_draws : draws w <= draws w';
  ex_id : table_id (routing_table w') = table_id (routing_table w);
  ex_pending : bounded w' -> forall k s, pending_at w k s -> pending_at w' k s
}.

Lemma bounded_le w w' : draws w <= draws w' -> bounded w' -> bounded w.
Proof. unfold bounded. lia. Qed.

#[global] Instance extends_preorder : PreOrder extends.
Proof.
  split.
  - intros w. by split.
  - intros w1 w2 w3 [D1 I1 P1] [D2 I2 P2]. split; [lia|congruence|].
    intros Hb k s Hk. apply P2; [done|]. apply P1; [|done]. by apply (bounded_le w2 w3).
Qed.

#[global] Instance progress_preorder a : PreOrder (progress a).
Proof.
  split.
  - intros w. by split.
  - intros w1 w2 w3 [D1 I1 P1] [D2 I2 P2]. split; [lia|congruence|].
    intros Hb k s Hk Hne. apply P2; [done| |done]. apply P1; [|done..]. by apply (bounded_le w2 w3).
Qed.

Lemma extends_progress a w w' : extends w w' -> progress a w w'.
Proof. intros [D I P]. split; auto. Qed.
#[export] Hint Resolve extends_progress : core.

Lemma progress_extends a w1 w2 w3 : progress a w1 w2 -> extends w2 w3 -> progress a w1 w3.
Proof. intros H1 H2. etrans; [exact H1|]. by apply extends_progress. Qed.
Lemma extends_then_progress a w1 w2 w3 : extends w1 w2 -> progress a w2 w3 -> progress a w1 w3.
Proof. intros H1 H2. etrans; [apply extends_progress, H1|done]. Qed.

Section WorkLemmas.
Context `{Profile} `{DhtEnv}.

Lemma next_mid_safe a g w :
  work_ok w -> gen_ok a g ->
  safe False (next_mid g) (fun r w' => work_ok w' /\ extends w w' /\ gen_ok a r.2 /\ action_id r.1 = a /\
    timer w' = timer w /\ routing_table w' = routing_table w /\
    (bounded w' -> Timer.next_id (timer w') < Z.of_nat (draws w'))%Z) w.
Proof.
  intros [Ht Hv Hm] Hg. unfold next_mid. apply safe_get_bind.
  destruct (mid_generate_ok (E := Empty_set) (env_rng (draws w)) a g Hg) as (t & g' & Hgen & Hg' & Ha).
  eapply safe_lift_bind; [exact Hgen|]. apply safe_modify_bind, safe_ret.
  assert (Hb : bounded (w <| draws := S (draws w) |>) -> bounded w) by (unfold bounded; simpl; lia).
  split_and!; try done.
  - split; [done..|]. simpl. intros B. destruct (Hm (Hb B)). split; [done|]. lia.
  - split; simpl; [lia|done|done].
  - simpl. intros B. destruct (Hm (Hb B)). lia.
Qed.

Lemma schedule_safe d s w :
  work_ok w -> (bounded w -> Timer.next_id (timer w) < Z.of_nat (draws w))%Z ->
  safe False (schedule d s) (fun k w' => work_ok w' /\ extends w w' /\ routing_table w' = routing_table w /\
    (bounded w' -> pending_at w' k s)) w.
Proof.
  intros [Ht Hv Hm] Hn. unfold schedule, schedule_in. apply safe_get_bind.
  destruct (schedule_at (env_now + d) s (timer w)) as [k t] eqn:Hs. apply safe_modify_bind, safe_ret.
  assert (Hok : bounded w -> contents t = btree_insert k s (contents (timer w)) /\
    btree_get k (contents (timer w)) = None /\ timer_ok t /\ Timer.next_id t = (Timer.next_id (timer w) + 1)%Z /\
    ordered (contents (timer w))).
  { intros B. destruct (Hm B) as [Hto _]. specialize (Hn B).
    pose proof (schedule_spec (env_now + d) s (timer w) Hto) as Hsp. rewrite Hs in Hsp.
    unfold bounded in B. destruct Hsp as (_ & ? & ? & ? & ?); [lia|]. split_and!; try done. apply Hto. }
  split_and!; [|split; [done|done|]|done|].
  - split; [done..|]. simpl. intros B. destruct (Hok B) as (_ & _ & Hto & Hnx & _). specialize (Hn B).
    split; [done|lia].
  - unfold pending_at. simpl. intros B k' s' Hk. destruct (Hok B) as (-> & Hno & _ & _ & Ho).
    destruct (decide (k' = k)) as [->|Hne]; [congruence|]. by rewrite btree_get_insert_ne.
  - unfold pending_at. simpl. intros B. destruct (Hok B) as (-> & _ & _ & _ & Ho). by rewrite btree_get_insert_eq.
Qed.

(** Cancelling a timeout of action [a], if it is one. *)
Lemma cancel_safe a k w :
  work_ok w -> (bounded w -> forall s, pending_at w k s -> action_id (task_id s) = a) ->
  safe False (cancel_timeout k) (fun _ w' => work_ok w' /\ progress a w w' /\ draws w' = draws w /\
    routing_table w' = routing_table w /\
    (bounded w' -> forall k' s, k' <> k -> pending_at w k' s -> pending_at w' k' s)) w.
Proof.
  intros [Ht Hv Hm] Ha. apply safe_modify.
  assert (Hrest : bounded w -> forall k' s, k' <> k -> pending_at w k' s ->
    pending_at (w <| timer := (cancel k (timer w)).2 |>) k' s).
  { intros B k' s Hne Hk. destruct (Hm B) as [(Ho & _) _]. destruct (cancel_spec k (timer w) Ho) as (_ & Hc & _).
    unfold pending_at. simpl. rewrite Hc, btree_get_remove_ne by done. done. }
  split_and!; [| |done|done|done].
  - split; [done..|]. simpl. intros B. destruct (Hm B) as [Hto Hn]. split; [by apply cancel_ok|].
    destruct Hto as (Ho & _). destruct (cancel_spec k (timer w) Ho) as (_ & _ & ->). done.
  - split; [done|done|]. intros B k' s Hk Hne. apply Hrest; [done| |done]. intros ->. by apply Hne, Ha.
Qed.

Lemma send_safe msg addr w :
  work_ok w -> safe False (send_out msg addr) (fun _ w' => work_ok w' /\ extends w w' /\
    routing_table w' = routing_table w) w.
Proof.
  intros Hw. unfold send_out. apply safe_get_bind.
  match goal with |- safe _ (if ?c then _ else _) _ _ => destruct c end.
  - apply safe_modify_bind, safe_ret. destruct Hw as [Ht Hv Hm]. split_and!; [by split|by split|done].
  - by apply safe_ret.
Qed.

Lemma touch_v4 k now n : v4_node n -> v4_node (touch k now n).
Proof. unfold v4_node, node_addr, node_id. by rewrite touch_handle. Qed.

Lemma touch_safe k h w :
  work_ok w -> safe False (touch_node k h) (fun _ w' => work_ok w' /\ extends w w') w.
Proof.
  intros [Ht Hv Hm]. unfold touch_node. apply safe_get_bind.
  destruct (find_node_mut_total (E := Empty_set) env_now (routing_table w) h Ht) as (r & Hr & Hb).
  eapply safe_lift_bind; [exact Hr|]. destruct r as [[i slot]|]; [|by apply safe_ret].
  destruct (Hb i slot eq_refl) as (b & n & Hi & Hs & Hp%pingable_responded & _).
  apply safe_modify. split; [split|by split]; [|apply update_at_all; auto using touch_v4|done].
  by apply (update_at_ok _ i slot b n).
Qed.

Lemma add_node_safe n w :
  work_ok w -> v4_node n -> safe False (add_node n) (fun _ w' => work_ok w' /\ extends w w') w.
Proof.
  intros [Ht Hv Hm] Hn. unfold add_node. apply safe_get_bind.
  destruct (add_node_ok (E := Empty_set) env_now (routing_table w) n Ht) as (t & Ha & Htok & Hid & _).
  eapply safe_lift_bind; [exact Ha|]. apply safe_modify.
  split; [split|by split]; [done| |done]. eapply add_node_all; [|exact Hn|exact Hv|exact Ha]. done.
Qed.

Lemma closest_safe target w :
  work_ok w -> safe False (closest target) (fun ns w' => w' = w /\ Forall v4_node ns) w.
Proof.
  intros [Ht Hv Hm]. unfold closest. apply safe_get_bind.
  destruct (closest_collect_all (E := Empty_set) env_now (routing_table w) target Ht) as (o & l & _ & _ & Hl & _ & Hp).
  eapply safe_lift; [exact Hl|]. split; [done|]. apply Forall_forall. intros n Hn. rewrite Hp in Hn.
  apply list_elem_of_filter in Hn as [_ (b & Hnb & Hb)%list_elem_of_join].
  unfold table_all in Hv. rewrite Forall_forall in Hv. specialize (Hv b Hb). rewrite Forall_forall in Hv. auto.
Qed.
End WorkLemmas.

(** * Samples *)

(** An environment at a given time, in which all clients are alive. *)
Definition sample_env (now : Z) : DhtEnv := {|
  env_now := now; env_oldest := (- secs 86400)%Z; env_tick := {| checked_at := now; refreshed_at := now; rand_one := 5; rand_two := 6 |};
  env_utc_found := now; env_utc_added := now; env_rng := fun k i => Z.of_nat (k + i); env_order := id;
  env_resolve := fun _ _ => None; env_alive := fun _ => true |}.

Definition sample_peer (b : Z) : Node :=
  as_good 0 {| hash := b :: replicate 19 0%Z |} (SockV4 {| v4_ip := Ipv4 10 0 0 b; v4_port := 6881 |}).

(** The worker's shared parts at the start. *)
Definition empty_work : Work := {|
  routing_table := table_new zero_hash; message_out := []; out_closed := None; timer := timer_new;
  peers_found := []; draws := 0 |}.

Lemma empty_work_ok : work_ok empty_work.
Proof.
  apply fresh_work_ok; [by apply table_new_ok|]. repeat constructor; by apply Forall_replicate.
Qed.

(** A generator with three identifiers left in its block. *)
Definition sample_generator : MIDGenerator :=
  {| mid_action_id := shifted 3; mid_block := {| next_alloc := 2048; curr_index := 0; block_ids := [5; 2; 9]%Z |} |}.

Lemma sample_generator_ok : gen_ok {| act_id := 3 |} sample_generator.
Proof. split; [done|]. split; [|done|by exists 1%Z]. by repeat (apply List.Forall_cons; [done|]). Qed.
