(* ===== verification/DhtLookupCorrect.v ===== *)
(** DhtLookupCorrect: the invariant of a lookup and its termination.

    A lookup that is not in its endgame waits for the answer to at least one
    request, and each of these has its timeout pending; a lookup in its endgame
    has the endgame's timeout pending ([armed]). *)

From stdpp Require Import base list gmap sorting.
From Stdlib Require Import ZArith Lia.
From S2P Require Import Prelude OrdMap Convert ShaHash Effects Routing RoutingCorrect Timer.
From S2P Require Import TransIds DhtToken DhtMessage DhtMessageCorrect DhtWork DhtWorkCorrect DhtLookup.

(** * The sorted list of nodes *)

Definition dist_le (a b : ShaHash) : Prop := hash_cmp a b <> Gt.

Lemma hash_cmp_antisym a b : hash_cmp b a = CompOpp (hash_cmp a b).
Proof. apply bytes_cmp_antisym. Qed.

Lemma hash_cmp_eq a b : hash_cmp a b = Eq <-> a = b.
Proof. unfold hash_cmp. rewrite bytes_cmp_eq. destruct a, b. simpl. split; congruence. Qed.

#[global] Instance dist_le_trans : Transitive dist_le.
Proof.
  intros a b c. unfold dist_le. intros H1 H2 H3.
  rewrite hash_cmp_antisym in H3. destruct (hash_cmp c a) eqn:Hca; try done. clear H3.
  destruct (hash_cmp a b) eqn:Hab; [apply hash_cmp_eq in Hab as ->|..|done].
  - apply H2. rewrite hash_cmp_antisym, Hca. done.
  - apply H2. rewrite hash_cmp_antisym. unfold hash_cmp in *. by rewrite (bytes_cmp_trans _ _ _ Hca Hab).
Qed.

Lemma dist_le_refl a : dist_le a a.
Proof. unfold dist_le. by rewrite (proj2 (hash_cmp_eq a a) eq_refl). Qed.

(** The nodes come by increasing distance, each with its distance. *)
Record nodes_ok (target : ShaHash) (nodes : list SortedNode) : Prop := {
  nd_sorted : StronglySorted dist_le (fst ∘ fst <$> nodes);
  nd_dist : Forall (fun n : SortedNode => n.1.1 = bitxor target (nh_id n.1.2)) nodes
}.

Lemma sorted_lookup (nodes : list SortedNode) i j x y :
  StronglySorted dist_le (fst ∘ fst <$> nodes) -> i < j ->
  nodes !! i = Some x -> nodes !! j = Some y -> dist_le x.1.1 y.1.1.
Proof.
  intros Hs. revert i j. induction nodes as [|z nodes IH]; intros i j Hij Hx Hy; [done|].
  cbn [fmap list_fmap] in Hs. inversion Hs as [|? ? Hs' Hz]; subst. destruct j as [|j]; [lia|].
  destruct i as [|i]; [|apply (IH Hs' i j); [lia|done..]]. injection Hx as <-.
  rewrite Forall_fmap in Hz. by apply (Forall_lookup_1 _ _ _ _ Hz Hy).
Qed.

(** The insertion point of a distance. *)
Lemma sorted_insert (nodes : list SortedNode) i e :
  StronglySorted dist_le (fst ∘ fst <$> nodes) -> i <= length nodes ->
  (forall j x, nodes !! j = Some x -> j < i -> dist_le x.1.1 e.1.1) ->
  (forall j x, nodes !! j = Some x -> i <= j -> dist_le e.1.1 x.1.1) ->
  StronglySorted dist_le (fst ∘ fst <$> take i nodes ++ e :: drop i nodes).
Proof.
  revert i. induction nodes as [|z nodes IH]; intros i Hs Hi Hb Ha.
  - rewrite take_nil, drop_nil. simpl. repeat constructor.
  - destruct i as [|i].
    + rewrite take_0, drop_0. simpl in *. constructor; [done|]. change (Forall (dist_le e.1.1) (fst ∘ fst <$> z :: nodes)).
      rewrite Forall_fmap. apply Forall_lookup. intros j x Hx. apply (Ha j x Hx). lia.
    + cbn [take drop app fmap list_fmap] in *. inversion Hs as [|? ? Hs' Hz]; subst. constructor.
      * apply IH; [done|simpl in Hi; lia| |]; intros j x Hx Hj; [apply (Hb (S j))|apply (Ha (S j))]; done || lia.
      * fold (fmap (M := list) (fst ∘ fst) (take i nodes ++ e :: drop i nodes)). rewrite fmap_app. cbn [fmap list_fmap].
        rewrite Forall_app, Forall_cons, fmap_take, fmap_drop. split_and!; [by apply Forall_take| |by apply Forall_drop].
        apply (Hb 0 z eq_refl). lia.
Qed.

Section SortedLemmas.
Context `{BinarySearch} {E : Type}.

Lemma insert_sorted_node_ok target nodes h pinged :
  nodes_ok target nodes ->
  exists nodes', @insert_sorted_node _ E nodes target h pinged = Ok nodes' /\ nodes_ok target nodes'.
Proof.
  intros [Hs Hd]. unfold insert_sorted_node. set (d := bitxor target (nh_id h)).
  set (f := fun n : SortedNode => hash_cmp n.1.1 d).
  assert (H1 : forall i j x y, i < j -> nodes !! i = Some x -> nodes !! j = Some y -> f y <> Gt -> f x <> Gt).
  { intros i j x y Hij Hx Hy Hf. pose proof (sorted_lookup nodes i j x y Hs Hij Hx Hy). by apply (transitivity (R := dist_le)) with y.1.1. }
  assert (H2 : forall i j x y, i < j -> nodes !! i = Some x -> nodes !! j = Some y -> f x <> Lt -> f y <> Lt).
  { intros i j x y Hij Hx Hy Hf Hlt. pose proof (sorted_lookup nodes i j x y Hs Hij Hx Hy) as Hle.
    unfold f in *. destruct (hash_cmp x.1.1 d) eqn:Hxd; [|done|].
    - apply hash_cmp_eq in Hxd. rewrite Hxd in Hle. apply Hle. by rewrite hash_cmp_antisym, Hlt.
    - apply Hle. rewrite hash_cmp_antisym. unfold hash_cmp in *.
      rewrite (bytes_cmp_trans _ (hash d) _ Hlt); [done|]. by rewrite bytes_cmp_antisym, Hxd. }
  assert (Hins : forall i, i <= length nodes ->
    (forall j x, nodes !! j = Some x -> j < i -> dist_le x.1.1 d) ->
    (forall j x, nodes !! j = Some x -> i <= j -> dist_le d x.1.1) ->
    exists nodes', @vec_insert E _ nodes i (d, h, pinged) = Ok nodes' /\ nodes_ok target nodes').
  { intros i Hi Hb Ha. unfold vec_insert. rewrite (proj2 (Nat.leb_le _ _) Hi). eexists. split; [done|]. split.
    - by apply sorted_insert.
    - apply Forall_app. split; [by apply Forall_take|]. constructor; [done|]. by apply Forall_drop. }
  destruct (binary_search_by f nodes) as [i|i] eqn:Hsearch.
  - destruct (binary_search_found _ f nodes i H1 H2 Hsearch) as (x & Hx & Hfx). rewrite (index_Some _ _ _ Hx), mbind_ok.
    case_bool_decide; [|by exists nodes]. apply hash_cmp_eq in Hfx. apply Hins.
    + apply lookup_lt_Some in Hx. lia.
    + intros j y Hy Hji. rewrite <- Hfx. by apply (sorted_lookup nodes j i y x).
    + intros j y Hy Hij. rewrite <- Hfx. destruct (decide (i = j)) as [<-|]; [|apply (sorted_lookup nodes i j x y); done || lia].
      rewrite Hx in Hy. injection Hy as <-. apply dist_le_refl.
  - destruct (binary_search_absent _ f nodes i H1 H2 Hsearch) as (Hi & Hf). apply Hins; [done|..].
    + intros j x Hx Hj. specialize (Hf j x Hx). unfold f in Hf. rewrite (proj2 (Nat.ltb_lt _ _) Hj) in Hf.
      unfold dist_le. by rewrite Hf.
    + intros j x Hx Hj. specialize (Hf j x Hx). unfold f in Hf. rewrite (proj2 (Nat.ltb_ge _ _) Hj) in Hf.
      unfold dist_le. by rewrite hash_cmp_antisym, Hf.
Qed.

Lemma insert_sorted_nodes_ok target es nodes :
  nodes_ok target nodes ->
  exists nodes', @insert_sorted_nodes _ E target es nodes = Ok nodes' /\ nodes_ok target nodes'.
Proof.
  unfold insert_sorted_nodes. revert nodes. induction es as [|e es IH]; intros nodes Hn; simpl; [eauto|].
  destruct (insert_sorted_node_ok target nodes e.1 e.2 Hn) as (n' & -> & Hn'). by apply IH.
Qed.
End SortedLemmas.

Lemma nodes_ok_marks target (nodes nodes' : list SortedNode) :
  fst <$> nodes' = fst <$> nodes -> nodes_ok target nodes -> nodes_ok target nodes'.
Proof.
  intros He [Hs Hd]. split.
  - by rewrite (list_fmap_compose fst fst), He, <- (list_fmap_compose fst fst).
  - set (Q := fun p : ShaHash * NodeHandle => p.1 = bitxor target (nh_id p.2)).
    assert (Hq : Forall Q (fst <$> nodes)) by (by apply Forall_fmap). rewrite <- He in Hq.
    by apply Forall_fmap in Hq.
Qed.

Lemma nodes_ok_nil target : nodes_ok target [].
Proof. by split; constructor. Qed.

(** * Picks *)

Lemma insert_closest_used picks target h :
  picks <> [] -> used_picks (insert_closest_nodes picks target h) <> [].
Proof.
  intros Hp. destruct picks as [|[old used] rest]; [done|]. unfold used_picks. cbn [insert_closest_nodes].
  destruct used; cbn [negb].
  - destruct (hash_lt _ _); by rewrite filter_cons_True.
  - by rewrite filter_cons_True.
Qed.

Lemma length_insert_closest picks target h : length (insert_closest_nodes picks target h) = length picks.
Proof.
  induction picks as [|[old used] rest IH]; simpl; [done|].
  destruct (negb used); simpl; [done|]. destruct (hash_lt (bitxor target (nh_id h)) _); simpl; lia.
Qed.

Lemma insert_closest_elem picks target h x u :
  (x, u) ∈ insert_closest_nodes picks target h -> (x, u) ∈ picks \/ x = h.
Proof.
  induction picks as [|[old used] rest IH]; cbn [insert_closest_nodes]; [by intros ?%elem_of_nil|].
  destruct (negb used); [|destruct (hash_lt _ _)]; rewrite !elem_of_cons; [naive_solver..|].
  intros [|]; naive_solver.
Qed.

(** The picks among the nodes of a response: some of them, three at most. *)
Lemma pick_iterate_used nodes target :
  nodes <> [] -> used_picks (pick_iterate_nodes nodes target) <> [] /\
  length (used_picks (pick_iterate_nodes nodes target)) <= ITERATIVE_PICK_NUM.
Proof.
  intros Hn.
  assert (Hgen : forall picks, length picks = ITERATIVE_PICK_NUM ->
    (nodes <> [] \/ used_picks picks <> []) ->
    let r := fold_left (fun picks n => insert_closest_nodes picks target n) nodes picks in
    length r = ITERATIVE_PICK_NUM /\ used_picks r <> []).
  { clear Hn. induction nodes as [|h nodes IH]; intros picks Hl Hor; simpl; [naive_solver|].
    apply IH; [by rewrite length_insert_closest|]. right. apply insert_closest_used. by destruct picks. }
  destruct (Hgen (replicate ITERATIVE_PICK_NUM (dummy_handle, false))) as [Hl Hu]; [done|by left|].
  split; [exact Hu|]. unfold used_picks. rewrite length_fmap.
  etrans; [apply length_filter|]. change (length (pick_iterate_nodes nodes target) <= ITERATIVE_PICK_NUM).
  unfold pick_iterate_nodes. by rewrite Hl.
Qed.

Lemma pick_initial_used nodes :
  length (used_picks (pick_initial_nodes nodes).1) = Nat.min INITIAL_PICK_NUM (length nodes) /\
  fst <$> (pick_initial_nodes nodes).2 = fst <$> nodes.
Proof.
  split; cbn [pick_initial_nodes fst snd].
  - unfold used_picks. rewrite length_fmap, filter_app, filter_all, filter_none, app_nil_r, length_fmap, length_take; [done| |].
    + by apply Forall_replicate.
    + apply Forall_fmap, Forall_true. done.
  - rewrite fmap_app. rewrite <- (take_drop INITIAL_PICK_NUM nodes) at 3. rewrite fmap_app. f_equal.
    rewrite <- list_fmap_compose. apply list_fmap_ext. done.
Qed.

(** * Rounds *)

(** Every request has its timeout pending. *)
Definition all_armed (a : ActionID) (l : TableLookup) (w : Work) : Prop :=
  forall t d k, active_lookups l !! t = Some (d, k) -> action_id t = a /\ pending_at w k (CheckLookupTimeout t).

Definition armed (a : ActionID) (l : TableLookup) (w : Work) : Prop :=
  if in_endgame l then exists k t, pending_at w k (CheckLookupEndGame t) /\ action_id t = a
  else active_lookups l <> ∅ /\ all_armed a l w.

(** What holds of a lookup at any time, apart from its timeouts. *)
Record lookup_wf (a : ActionID) (l : TableLookup) : Prop := {
  lw_nodes : nodes_ok (target_id l) (all_sorted_nodes l);
  lw_gen : gen_ok a (lk_generator l)
}.

Record lookup_ok (a : ActionID) (l : TableLookup) (w : Work) : Prop := {
  lo_wf : lookup_wf a l;
  lo_armed : bounded w -> armed a l w
}.

Lemma all_armed_extends a l w w' :
  extends w w' -> (bounded w -> all_armed a l w) -> bounded w' -> all_armed a l w'.
Proof.
  intros Hx Ha B t d k Ht. destruct (Ha (bounded_le _ _ (ex_draws _ _ Hx) B) t d k Ht). split; [done|].
  by apply (ex_pending _ _ Hx).
Qed.

(** The total weight of the requests a lookup waits for: an answer to a request
    leads to three requests at most, all with a smaller distance to beat. *)
Definition weight (d : ShaHash) : Z := (4 ^ be_val (hash d))%Z.
Definition potential (l : TableLookup) : Z :=
  map_fold (fun _ (e : ShaHash * Timeout) s => weight e.1 + s)%Z 0%Z (active_lookups l).

Lemma weight_pos d : (0 <= weight d)%Z.
Proof. apply Z.pow_nonneg. lia. Qed.

Lemma potential_insert (m : gmap TransactionID (ShaHash * Timeout)) t e :
  m !! t = None ->
  map_fold (fun _ (e : ShaHash * Timeout) s => weight e.1 + s)%Z 0%Z (<[t := e]> m) =
  (weight e.1 + map_fold (fun _ (e : ShaHash * Timeout) s => weight e.1 + s) 0 m)%Z.
Proof. intros Hm. apply (map_fold_insert_L (fun _ (e : ShaHash * Timeout) s => weight e.1 + s)%Z); [intros; lia|done]. Qed.

Lemma fold_nonneg (m : gmap TransactionID (ShaHash * Timeout)) :
  (0 <= map_fold (fun _ (e : ShaHash * Timeout) s => weight e.1 + s) 0 m)%Z.
Proof.
  induction m as [|t e m Hm IH] using map_ind; [by rewrite map_fold_empty|].
  rewrite potential_insert by done. pose proof (weight_pos e.1). lia.
Qed.

Lemma fold_delete (m : gmap TransactionID (ShaHash * Timeout)) t e :
  m !! t = Some e ->
  map_fold (fun _ (e : ShaHash * Timeout) s => weight e.1 + s)%Z 0%Z m =
  (weight e.1 + map_fold (fun _ (e : ShaHash * Timeout) s => weight e.1 + s) 0 (delete t m))%Z.
Proof. intros Hm. rewrite <- (potential_insert (delete t m) t e) by apply lookup_delete_eq. by rewrite insert_delete_id. Qed.

Lemma fold_insert_le (m : gmap TransactionID (ShaHash * Timeout)) t e :
  (map_fold (fun _ (e : ShaHash * Timeout) s => weight e.1 + s) 0 (<[t := e]> m) <=
   weight e.1 + map_fold (fun _ (e : ShaHash * Timeout) s => weight e.1 + s) 0 m)%Z.
Proof.
  destruct (m !! t) as [e'|] eqn:Hm; [|by rewrite potential_insert].
  rewrite (fold_delete m t e' Hm), <- (insert_delete_eq m t e), (potential_insert (delete t m) t e) by apply lookup_delete_eq.
  pose proof (weight_pos e'.1). lia.
Qed.

(** The distances to beat come from [l] or are among [ds]. *)
Definition dists_from (l : TableLookup) (ds : list ShaHash) (l' : TableLookup) : Prop :=
  forall t d k, active_lookups l' !! t = Some (d, k) ->
    d ∈ ds \/ exists t0 k0, active_lookups l !! t0 = Some (d, k0).

Lemma dists_from_eq l ds l' : active_lookups l' = active_lookups l -> dists_from l ds l'.
Proof. intros E t d k Ht. rewrite E in Ht. eauto. Qed.

Definition round_weight (nodes : list (NodeHandle * ShaHash)) : Z :=
  foldr (fun n s => weight n.2 + s)%Z 0%Z nodes.

Section Rounds.
Context {HP : Profile} {HB : BinarySearch} {HE : DhtEnv}.

(** The state of a lookup in its search, with its requests armed. *)
Record searching (a : ActionID) (l : TableLookup) (w : Work) : Prop := {
  se_work : work_ok w;
  se_wf : lookup_wf a l;
  se_search : in_endgame l = false;
  se_armed : bounded w -> all_armed a l w
}.

Definition after_round (a : ActionID) (l : TableLookup) (w : Work) (extra : Z) (ds : list ShaHash) (r : LookupStatus * TableLookup)
    (w' : Work) : Prop :=
  searching a r.2 w' /\ extends w w' /\ target_id r.2 = target_id l /\ tx r.2 = tx l /\
  dists_from l ds r.2 /\ (potential r.2 <= extra + potential l)%Z /\ (r.1 = LkFailed \/ r.1 = LkSearching /\ active_lookups r.2 <> ∅).

Lemma request_round_safe a nodes n l w :
  searching a l w -> (n = 0 -> nodes <> []) -> (n <> 0 -> active_lookups l <> ∅) ->
  safe False (request_round nodes n l) (after_round a l w (round_weight nodes) (snd <$> nodes)) w.
Proof.
  revert n l w. induction nodes as [|[h d] nodes IH]; intros n l w Hs Hn Ha.
  { cbn [request_round]. destruct (Nat.eqb_spec n 0) as [->|Hne]; [by destruct (Hn eq_refl)|].
    apply safe_ret. unfold after_round. cbn [fst snd round_weight foldr]. split_and!; [done|done|done|done|by apply dists_from_eq|lia|auto]. }
  destruct Hs as [Hw [Hnd Hg] He Hr]. cbn [request_round].
  eapply safe_call; [by apply (next_mid_safe a)|]. intros [t g] w1 (Hw1 & Hx1 & Hg1 & Hta & _ & _ & Hlt). cbn [fst snd] in *.
  eapply safe_call; [by apply schedule_safe|]. intros k w2 (Hw2 & Hx2 & _ & Hk). cbv zeta.
  eapply safe_call; [by apply send_safe|]. intros sent w3 (Hw3 & Hx3 & _).
  set (l1 := (l <| lk_generator := g |>) <| active_lookups := _ |>).
  assert (Hx : extends w w3) by (etrans; [exact Hx1|]; by etrans).
  assert (Hs1 : searching a l1 w3).
  { split; [done|by split|done|]. intros B t' d' k' Ht'. change (<[t := (d, k)]> (active_lookups l) !! t' = Some (d', k')) in Ht'.
    apply lookup_insert_Some in Ht' as [(<- & [= <- <-])|[_ Ht']].
    - split; [done|]. apply (ex_pending _ _ Hx3 B), Hk, (bounded_le _ _ (ex_draws _ _ Hx3) B).
    - exact (all_armed_extends a l w w3 Hx Hr B t' d' k' Ht'). }
  assert (Hpot : (potential l1 <= weight d + potential l)%Z) by apply (fold_insert_le (active_lookups l) t (d, k)).
  assert (Hne : active_lookups l1 <> ∅) by apply insert_non_empty.
  assert (Hds : dists_from l (d :: (snd <$> nodes)) l1).
  { intros t' d' k' Ht'. change (<[t := (d, k)]> (active_lookups l) !! t' = Some (d', k')) in Ht'.
    apply lookup_insert_Some in Ht' as [(_ & [= <- <-])|[_ Ht']]; [left; left|eauto]. }
  destruct sent; [|apply safe_ret; unfold after_round; cbn [fst snd round_weight foldr]].
  - eapply safe_call; [by apply touch_safe|]. intros [] w4 [Hw4 Hx4].
    set (l2 := l1 <| requested_nodes := _ |>).
    assert (Hs2 : searching a l2 w4).
    { destruct Hs1 as [_ [? ?] ? Hr1]. split; [done|by split|done|]. by apply (all_armed_extends a l1 w3 w4). }
    eapply safe_mono; [by apply (IH (S n) l2 w4)|done|]. intros r w5 (H1 & H2 & H3 & H3' & H6 & H4 & H5). unfold after_round.
    cbn [round_weight foldr]. change (potential l2) with (potential l1) in H4. fold (round_weight nodes).
    cbn [snd]. split_and!; [done|by do 2 (etrans; [eassumption|])|done|done| |lia|done].
    intros t' d' k' Ht'. destruct (H6 t' d' k' Ht') as [Hd|(t0 & k0 & H0)]; [left; by right|exact (Hds t0 d' k0 H0)].
  - fold (round_weight nodes). split_and!; try done; [|by left].
    assert (0 <= round_weight nodes)%Z; [|cbn [snd]; lia]. clear. induction nodes as [|n nodes IH]; cbn [round_weight foldr]; [done|].
    fold (round_weight nodes). pose proof (weight_pos n.2). lia.
Qed.

(** The endgame: its timeout is pending, whether all messages could be sent or
    not. *)
Lemma endgame_loop_safe a k seen todo l w :
  work_ok w -> gen_ok a (lk_generator l) -> nodes_ok (target_id l) (seen ++ todo) ->
  safe False (endgame_loop k seen todo l) (fun r w' => work_ok w' /\ extends w w' /\ lookup_wf a r.2 /\
    in_endgame r.2 = in_endgame l /\ target_id r.2 = target_id l /\ tx r.2 = tx l /\
    (r.1 = LkFailed \/ r.1 = LkSearching)) w.
Proof.
  revert seen l w. induction todo as [|[[d h] req] todo IH]; intros seen l w Hw Hg Hn; cbn [endgame_loop].
  { apply safe_ret. rewrite app_nil_r in Hn. split_and!; [done|done|by split|done|done|done|by right]. }
  destruct req.
  { apply IH; [done|done|]. by rewrite <- app_assoc. }
  eapply safe_call; [by apply (next_mid_safe a)|]. intros [t g] w1 (Hw1 & Hx1 & Hg1 & _). cbn [fst snd] in *. cbv zeta.
  eapply safe_call; [by apply send_safe|]. intros sent w2 (Hw2 & Hx2 & _). destruct sent.
  - eapply safe_call; [by apply touch_safe|]. intros [] w3 [Hw3 Hx3].
    eapply safe_mono; [apply IH; [done|done|]|done|].
    + eapply nodes_ok_marks; [|exact Hn]. by rewrite <- app_assoc, !fmap_app.
    + intros r w4 (H1 & H2 & H3 & H4 & H5 & H6 & H7). split_and!; try done. by do 3 (etrans; [eassumption|]).
  - apply safe_ret. split_and!; [done|by etrans|by split|done|done|done|by left].
Qed.

Lemma start_endgame_safe a l w :
  work_ok w -> lookup_wf a l ->
  safe False (start_endgame_round l) (fun r w' => work_ok w' /\ extends w w' /\ lookup_ok a r.2 w' /\
    in_endgame r.2 = true /\ target_id r.2 = target_id l /\ tx r.2 = tx l) w.
Proof.
  intros Hw [Hn Hg]. unfold start_endgame_round. cbv zeta.
  eapply safe_call; [by apply (next_mid_safe a)|]. intros [t g] w1 (Hw1 & Hx1 & Hg1 & Hta & _ & _ & Hlt). cbn [fst snd] in *.
  eapply safe_call; [by apply schedule_safe|]. intros k w2 (Hw2 & Hx2 & _ & Hk).
  assert (Hx : extends w w2) by (by etrans).
  assert (Harm : forall l' w', extends w2 w' -> in_endgame l' = true -> bounded w' -> armed a l' w').
  { intros l' w' Hx' He B. unfold armed. rewrite He. exists k, t. split; [|done].
    apply (ex_pending _ _ Hx' B), Hk, (bounded_le _ _ (ex_draws _ _ Hx') B). }
  set (l1 := (l <| in_endgame := true |>) <| lk_generator := g |>). change (recv_values l1) with (recv_values l).
  destruct (recv_values l); cbn [negb].
  - apply safe_ret. split_and!; try done. split; [by split|]. by apply Harm.
  - eapply safe_mono; [by apply (endgame_loop_safe a k [] (all_sorted_nodes l) l1 w2)|done|].
    intros r w3 (H1 & H2 & H3 & H4 & H5 & H6 & H7). split_and!; try done; [by etrans|]. split; [done|]. by apply Harm.
Qed.

(** * The methods of a lookup *)

Lemma TableLookup_new_safe a table_id target g ann client w :
  work_ok w -> gen_ok a g ->
  safe False (TableLookup_new table_id target g ann client) (fun o w' => work_ok w' /\ extends w w' /\
    forall l, o = Some l -> lookup_ok a l w' /\ target_id l = target /\ in_endgame l = false) w.
Proof.
  intros Hw Hg. unfold TableLookup_new.
  eapply safe_call; [by apply closest_safe|]. intros ns ? [-> _]. cbv zeta.
  set (es := (fun n => (handle n, false)) <$> _).
  destruct (insert_sorted_nodes_ok (E := Empty_set) target es [] (nodes_ok_nil target)) as (sorted & Hins & Hn).
  eapply safe_lift_bind; [exact Hins|]. pose proof (pick_initial_used sorted) as [Hlen Hmarks].
  destruct (pick_initial_nodes sorted) as [picks sorted'] eqn:Hp. cbn [fst snd] in *.
  set (l0 := Build_TableLookup _ _ _ _ _ _ _ _ _ _ _). set (round := (fun n => _) <$> used_picks picks).
  assert (Hs : searching a l0 w).
  { split; [done| |done|by intros _ t d k Ht]. split; [|done]. by eapply nodes_ok_marks. }
  unfold start_request_round. destruct (decide (round = [])) as [->|Hne].
  - cbn [request_round Nat.eqb]. apply safe_bind, safe_ret. cbn beta iota. apply safe_ret. by split_and!.
  - eapply safe_call; [by apply (request_round_safe a round 0 l0)|].
    intros [st l] w' (Hs' & Hx & Ht & _ & _ & _ & Hst). cbn [fst snd] in *. apply safe_ret.
    split_and!; [by destruct Hs'|done|]. intros l' Hl'. case_bool_decide as Hst'; [|done]. injection Hl' as <-.
    destruct Hs' as [? ? Hsearch ?]. split_and!; [|done|done]. split; [done|]. intros B. unfold armed. rewrite Hsearch.
    destruct Hst as [->|[_ ?]]; [done|]. auto.
Qed.

(** What the nodes of a response change. *)
Lemma take_nodes_ok a d handles l :
  lookup_wf a l ->
  exists it d' l', take_nodes d handles l = Ok (it, d', l') /\ lookup_wf a l' /\
    in_endgame l' = in_endgame l /\ target_id l' = target_id l /\ tx l' = tx l /\
    active_lookups l' = active_lookups l /\
    match it with
    | None => d' = d
    | Some picks => d' = closest_distance (target_id l) d handles /\ hash_lt d' d = true /\
        used_picks picks <> [] /\ length (used_picks picks) <= ITERATIVE_PICK_NUM
    end.
Proof.
  intros [Hn Hg]. unfold take_nodes. destruct (Nat.eqb_spec (length handles) 0) as [|Hne].
  { eexists _, _, _. split; [reflexivity|]. by split_and!. }
  set (d' := closest_distance _ _ _). cbv zeta. destruct (hash_lt d' d) eqn:Hlt; cbn [negb].
  - match goal with |- context [insert_sorted_nodes _ ?es _] =>
      destruct (insert_sorted_nodes_ok (E := Empty_set) (target_id l) es _ Hn) as (sorted & -> & Hs) end.
    rewrite mbind_ok. eexists _, _, _. split; [reflexivity|].
    assert (handles <> []) by (by destruct handles).
    destruct (pick_iterate_used handles (target_id l)) as [? ?]; [done|].
    split_and!; try done; by split.
  - match goal with |- context [insert_sorted_nodes _ ?es _] =>
      destruct (insert_sorted_nodes_ok (E := Empty_set) (target_id l) es _ Hn) as (sorted & -> & Hs) end.
    rewrite mbind_ok. eexists _, _, _. split; [reflexivity|]. split_and!; try done; by split.
Qed.

(** The weight of the requests that the nodes of a response can lead to. *)
Definition next_weight (target d : ShaHash) (handles : list NodeHandle) : Z :=
  let d' := closest_distance target d handles in
  if hash_lt d' d then (3 * weight d')%Z else 0%Z.

Lemma round_weight_const (d : ShaHash) (hs : list NodeHandle) :
  round_weight ((fun n => (n, d)) <$> hs) = (Z.of_nat (length hs) * weight d)%Z.
Proof.
  induction hs as [|h hs IH]; [done|]. cbn [fmap list_fmap round_weight foldr snd length].
  fold (fmap (M := list) (fun n : NodeHandle => (n, d)) hs).
  fold (round_weight ((fun n => (n, d)) <$> hs)). rewrite IH. lia.
Qed.

Definition step_ok (a : ActionID) (l : TableLookup) (r : LookupStatus * TableLookup) (w' : Work) : Prop :=
  work_ok w' /\ lookup_wf a r.2 /\ target_id r.2 = target_id l /\ tx r.2 = tx l /\
    (r.1 <> LkFailed -> lookup_ok a r.2 w').

(** The rounds after a response or a timeout of a searching lookup. *)
Lemma continue_safe a it d l w :
  searching a l w ->
  (forall picks, it = Some picks -> used_picks picks <> [] /\ length (used_picks picks) <= ITERATIVE_PICK_NUM) ->
  safe False (continue_lookup it d l) (fun r w' => step_ok a l r w' /\ extends w w' /\
    (in_endgame r.2 = false -> dists_from l [d] r.2 /\
      potential r.2 <= (if it then 3 * weight d else 0) + potential l)%Z) w.
Proof.
  intros Hs Hit. unfold continue_lookup. rewrite (se_search _ _ _ Hs).
  assert (Hrest : forall l1 w1, searching a l1 w1 -> target_id l1 = target_id l -> tx l1 = tx l -> extends w w1 ->
    dists_from l [d] l1 -> (potential l1 <= (if it then 3 * weight d else 0) + potential l)%Z ->
    safe False (if bool_decide (active_lookups l1 = ∅) then start_endgame_round l1 else mret (LkSearching, l1))
      (fun r w' => step_ok a l r w' /\ extends w w' /\
        (in_endgame r.2 = false -> dists_from l [d] r.2 /\
          potential r.2 <= (if it then 3 * weight d else 0) + potential l)%Z) w1).
  { intros l1 w1 [Hw1 Hwf He Ha] Ht Htx Hx Hds Hpot. case_bool_decide as Hemp.
    - eapply safe_mono; [by apply (start_endgame_safe a)|done|]. intros [st l2] w2 (H1 & H2 & H3 & H4 & H5 & H6).
      cbn [fst snd] in *. split_and!; [|by etrans|by rewrite H4]. unfold step_ok. cbn [fst snd].
      split_and!; [done|by destruct H3|congruence|congruence|done].
    - apply safe_ret. split_and!; [|done|done]. split_and!; try done. intros _. split; [done|].
      intros B. unfold armed. cbn [snd]. rewrite He. auto. }
  destruct it as [picks|].
  - destruct (Hit picks eq_refl) as [Hne Hlen].
    eapply safe_call.
    { apply (request_round_safe a ((fun n => (n, d)) <$> used_picks picks) 0); [done| |done].
      intros _. by destruct (used_picks picks). }
    intros [st l1] w1 (Hs1 & Hx1 & Ht1 & Htx1 & Hds & Hp1 & Hst). cbn [fst snd] in *. rewrite round_weight_const in Hp1.
    assert (Hd1 : dists_from l [d] l1).
    { intros t' d' k' Ht'. destruct (Hds t' d' k' Ht') as [Hd|?]; [left|by right].
      rewrite <- list_fmap_compose in Hd. apply list_elem_of_fmap in Hd as (? & -> & _). by left. }
    assert (Hp : (potential l1 <= 3 * weight d + potential l)%Z).
    { pose proof (weight_pos d). unfold ITERATIVE_PICK_NUM in Hlen. nia. }
    case_bool_decide as Hf; [|by apply Hrest]. subst st.
    apply safe_ret. destruct Hs1 as [? ? ? ?]. by split_and!.
  - apply safe_bind, safe_ret. cbn beta iota. rewrite bool_decide_eq_false_2 by done. apply Hrest; try done.
    by apply dists_from_eq.
Qed.

(** The nodes and values of a well-formed response. *)
Lemma split_info_ok i :
  info_ok i -> (exists vs, match (split_info i).1 with Some v => collect_values v | None => Ok [] end = Ok vs) /\
    (forall l, exists hs, new_handles l (split_info i).2 = Ok hs).
Proof.
  assert (Hn : forall n l, node_info_ok n -> exists hs, new_handles l (Some n) = Ok hs).
  { intros n l [bs Hn]. destruct (collect_nodes_total bs n Hn) as (ns & Hc & _). cbn [new_handles].
    rewrite Hc, mbind_ok. by eexists. }
  assert (Hv : forall v, value_info_ok v -> exists vs, collect_values v = Ok vs).
  { intros v [bs Hv]. destruct (collect_values_total bs v Hv) as (vs & Hc & _). eauto. }
  destruct i; cbn; naive_solver.
Qed.

(** The nodes of a response that a lookup has not asked. *)
Definition response_handles (msg : GetPeersResponse) (l : TableLookup) : list NodeHandle :=
  match new_handles l (split_info (gr_info_type msg)).2 with Ok hs => hs | _ => [] end.

(** The token and the kind of a response are noted. *)
Definition noted (node : Node) (msg : GetPeersResponse) (l : TableLookup) : TableLookup :=
  let l := match gr_token msg with
           | Some token => l <| announce_tokens := <[handle node := token]> (announce_tokens l) |>
           | None => l
           end in
  match gr_info_type msg with Values _ => l <| recv_values := true |> | _ => l end.

Lemma noted_same node msg l :
  in_endgame (noted node msg l) = in_endgame l /\ target_id (noted node msg l) = target_id l /\
  tx (noted node msg l) = tx l /\ active_lookups (noted node msg l) = active_lookups l /\
  requested_nodes (noted node msg l) = requested_nodes l /\
  all_sorted_nodes (noted node msg l) = all_sorted_nodes l /\ lk_generator (noted node msg l) = lk_generator l.
Proof. unfold noted. destruct (gr_token msg), (gr_info_type msg); by split_and!. Qed.

(** A request is taken off, its timeout cancelled. *)
Lemma take_request_safe a t d k l w :
  work_ok w -> lookup_ok a l w -> active_lookups l !! t = Some (d, k) ->
  safe False (when (negb (in_endgame l)) (cancel_timeout k)) (fun _ w1 => work_ok w1 /\ progress a w w1 /\
    (in_endgame l = true -> w1 = w) /\
    (in_endgame l = false -> bounded w1 -> forall t' d' k', delete t (active_lookups l) !! t' = Some (d', k') ->
      action_id t' = a /\ pending_at w1 k' (CheckLookupTimeout t'))) w.
Proof.
  intros Hw [_ Ha] Ht. destruct (in_endgame l) eqn:He; cbn [when negb]; [apply safe_ret; by split_and!|].
  assert (Hk : bounded w -> all_armed a l w) by (intros B; specialize (Ha B); unfold armed in Ha; rewrite He in Ha; tauto).
  eapply safe_mono; [apply (cancel_safe a k); [done|]|done|].
  - intros B s Hs. destruct (Hk B t d k Ht) as [Hta Hp]. unfold pending_at in *. rewrite Hs in Hp. by injection Hp as ->.
  - intros [] w1 (H1 & H2 & Hd & _ & H3). split_and!; [done|done|done|]. intros _ B t' d' k' [Hne Ht']%lookup_delete_Some.
    assert (B0 : bounded w) by (unfold bounded in *; by rewrite <- Hd). destruct (Hk B0 t' d' k' Ht') as [Hta Hp].
    split; [done|]. apply H3; [done| |done]. intros ->. destruct (Hk B0 t d k Ht) as [_ Hp2]. unfold pending_at in *. congruence.
Qed.

(** The rounds after a response, [l1] being the lookup with the request taken
    off and the response noted. *)
Lemma answer_rounds_safe a t d k hs l l1 w w1 :
  lookup_ok a l w -> active_lookups l !! t = Some (d, k) ->
  work_ok w1 -> progress a w w1 -> (in_endgame l = true -> w1 = w) ->
  (in_endgame l = false -> bounded w1 -> all_armed a l1 w1) ->
  lookup_wf a l1 -> in_endgame l1 = in_endgame l -> target_id l1 = target_id l -> tx l1 = tx l ->
  active_lookups l1 = delete t (active_lookups l) ->
  safe False (answer_rounds d hs l1)
    (fun r w2 => step_ok a l r w2 /\ progress a w w2 /\
    (in_endgame l = false -> in_endgame r.2 = false ->
      dists_from l [closest_distance (target_id l) d hs] r.2 /\
      potential r.2 + weight d <= next_weight (target_id l) d hs + potential l)%Z) w1.
Proof.
  intros [_ Ha] Ht Hw1 Hx1 Hend Hsearch Hwf1 E1 E2 E3 E4.
  destruct (take_nodes_ok a d hs l1 Hwf1) as (it & d' & l2 & Htake & Hwf2 & F1 & F2 & F3 & F4 & Hit).
  unfold answer_rounds. eapply safe_lift_bind; [exact Htake|]. cbn beta iota. destruct (in_endgame l) eqn:He.
  - unfold continue_lookup. rewrite F1, E1. apply safe_ret.
    split_and!; [|done|done]. unfold step_ok. cbn [fst snd]. split_and!; [done|done|congruence|congruence|].
    intros _. split; [done|]. intros B. rewrite (Hend eq_refl) in *. specialize (Ha B). unfold armed in *.
    rewrite F1, E1. by rewrite He in Ha.
  - eapply safe_mono; [apply (continue_safe a it d' l2 w1)|done|].
    + split; [done|done|congruence|]. intros B t' d'' k' Ht'. rewrite F4 in Ht'. exact (Hsearch eq_refl B t' d'' k' Ht').
    + intros picks ->. tauto.
    + intros [st l3] w2 ((? & ? & ? & ? & ?) & Hx2 & Hpot). cbn [fst snd] in *. split_and!.
      * unfold step_ok. cbn [fst snd]. split_and!; [done|done|congruence|congruence|done].
      * by eapply progress_extends.
      * intros _ He3. destruct (Hpot He3) as [Hds Hpot']. clear Hpot. rename Hpot' into Hpot. split.
        { intros t' d0 k0 Ht'. destruct (Hds t' d0 k0 Ht') as [->%list_elem_of_singleton|(t1 & k1 & Hl1)].
          - destruct it; [destruct Hit as (-> & _); rewrite E2; left; by left|]. rewrite Hit. right. eauto.
          - rewrite F4, E4 in Hl1. apply lookup_delete_Some in Hl1 as [_ Hl1]. eauto. }
        unfold potential in Hpot at 2. rewrite F4, E4 in Hpot.
        pose proof (fold_delete _ _ _ Ht) as Hdel. unfold potential at 2. rewrite Hdel. cbn [fst].
        assert (Hnw : ((if it then 3 * weight d' else 0) <= next_weight (target_id l) d hs)%Z); [|lia].
        unfold next_weight. destruct it as [picks|].
        -- destruct Hit as (-> & Hlt & _). rewrite E2 in *. rewrite Hlt. lia.
        -- case_match; [|lia]. match goal with |- (0 <= 3 * weight ?x)%Z => pose proof (weight_pos x) end. lia.
Qed.

(** The peers found go to the client; nothing else changes. *)
Lemma hand_over_safe a l r w w2 values :
  step_ok a l r w2 -> progress a w w2 ->
  safe False (hand_over values r.2) (fun _ w3 => step_ok a l r w3 /\ progress a w w3) w2.
Proof.
  intros Hst Hx. unfold hand_over. destruct (tx r.2); [|by apply safe_ret]. apply safe_modify.
  destruct Hst as ([? ? ?] & ? & ? & ? & Hok), Hx as [? ? ?]. split; [|by split].
  split_and!; [by split|done|done|done|]. intros Hf. destruct (Hok Hf) as [? ?]. by split.
Qed.

Lemma status_searching a l w : lookup_ok a l w -> bounded w -> current_lookup_status l = LkSearching.
Proof.
  intros [_ Ha] B. specialize (Ha B). unfold armed, current_lookup_status in *.
  destruct (in_endgame l); [done|]. by rewrite bool_decide_eq_false_2 by tauto.
Qed.

(** A lookup that has not failed goes on: it is still armed, and as long as the
    timer counter lasts the status is [Searching]. *)
Definition step_result (a : ActionID) (l : TableLookup) (r : LookupStatus * TableLookup) (w' : Work) : Prop :=
  step_ok a l r w' /\ (r.1 <> LkFailed -> bounded w' -> r.1 = LkSearching).

Lemma step_status a l r w :
  step_ok a l r w -> r.1 <> LkFailed -> step_result a l (current_lookup_status r.2, r.2) w.
Proof.
  intros (? & ? & ? & ? & Hok) Hf. specialize (Hok Hf). split; [by split_and!|].
  cbn [fst]. intros _ B. by eapply status_searching.
Qed.

Lemma recv_response_safe a node t msg l w :
  work_ok w -> lookup_ok a l w -> info_ok (gr_info_type msg) ->
  safe False (recv_response node t msg l) (fun r w' => step_result a l r w' /\ progress a w w' /\
    (forall d k, active_lookups l !! t = Some (d, k) -> in_endgame l = false -> in_endgame r.2 = false ->
      let hs := response_handles msg l in
      dists_from l [closest_distance (target_id l) d hs] r.2 /\
      potential r.2 + weight d <= next_weight (target_id l) d hs + potential l)%Z) w.
Proof.
  intros Hw Hl Hi. unfold recv_response. destruct (active_lookups l !! t) as [[d k]|] eqn:Ht.
  2:{ apply safe_ret. split; [|by split]. apply (step_status a l (LkSearching, l) w); [|done].
      destruct Hl as [? ?]. by split_and!. }
  cbv zeta. fold (noted node msg (l <| active_lookups := delete t (active_lookups l) |>)).
  set (l0 := l <| active_lookups := _ |>). set (l1 := noted node msg l0).
  destruct (noted_same node msg l0) as (E1 & E2 & E3 & E4 & E5 & E6 & E7). fold l1 in E1, E2, E3, E4, E5, E6, E7.
  destruct (split_info_ok _ Hi) as [[vs Hvs] Hhs]. destruct (Hhs l1) as [hs Hl1].
  assert (Hresp : response_handles msg l = hs).
  { unfold response_handles. replace (new_handles l _) with (new_handles l1 (split_info (gr_info_type msg)).2); [by rewrite Hl1|].
    unfold new_handles. by rewrite E5. }
  eapply safe_call; [by apply (take_request_safe a t d k l w)|].
  intros [] w1 (Hw1 & Hx1 & Hend & Hsearch). rewrite (surjective_pairing (split_info (gr_info_type msg))).
  eapply safe_unwrap_bind; [exact Hvs|]. eapply safe_unwrap_bind; [exact Hl1|].
  eapply safe_call; [apply (answer_rounds_safe a t d k hs l l1 w w1); try done|].
  - intros He B t' d' k' Ht'. rewrite E4 in Ht'. exact (Hsearch He B t' d' k' Ht').
  - destruct Hl as [[? ?] _]. split; [rewrite E2, E6|rewrite E7]; done.
  - intros [st l3] w2 (Hst & Hx2 & Hpot). rewrite Hresp. case_bool_decide as Hf.
    + apply safe_ret. split_and!; [|done|]; [|intros d0 k0 [= <- <-]; exact Hpot]. split; [by rewrite <- Hf|done].
    + eapply safe_call; [by apply (hand_over_safe a l (st, l3) w)|]. intros [] w3 [Hst3 Hx3]. apply safe_ret.
      split_and!; [|done|intros d0 k0 [= <- <-]; exact Hpot]. by apply (step_status a l (st, l3)).
Qed.

Lemma recv_timeout_safe a t l w :
  work_ok w -> lookup_wf a l -> (forall d k, active_lookups l !! t = Some (d, k) -> in_endgame l = false ->
    bounded w -> forall t' d' k', t' <> t -> active_lookups l !! t' = Some (d', k') ->
      action_id t' = a /\ pending_at w k' (CheckLookupTimeout t')) ->
  (active_lookups l !! t = None \/ in_endgame l = true -> lookup_ok a l w) ->
  safe False (recv_timeout t l) (fun r w' => step_result a l r w' /\ extends w w' /\
    (forall d k, active_lookups l !! t = Some (d, k) -> in_endgame r.2 = false ->
      dists_from l [] r.2 /\ potential r.2 + weight d <= potential l)%Z) w.
Proof.
  intros Hw Hwf Hrest Hok. unfold recv_timeout. destruct (active_lookups l !! t) as [[d k]|] eqn:Ht.
  2:{ apply safe_ret. split; [|by split]. apply (step_status a l (LkSearching, l) w); [|done].
      split_and!; try done. intros _. apply Hok. by left. }
  cbv zeta. set (l0 := l <| active_lookups := _ |>).
  change (in_endgame l0) with (in_endgame l). change (active_lookups l0) with (delete t (active_lookups l)).
  assert (Hwf0 : lookup_wf a l0) by (destruct Hwf; by split).
  assert (Hpot : forall l', active_lookups l' = delete t (active_lookups l) ->
    dists_from l [] l' /\ (potential l' + weight d <= potential l)%Z).
  { intros l' E. split; [intros t' d' k' Ht'; rewrite E in Ht'; apply lookup_delete_Some in Ht' as [_ ?]; eauto|]. unfold potential. rewrite E, (fold_delete _ _ _ Ht). cbn [fst]. lia. }
  destruct (in_endgame l) eqn:He; cbn [negb andb].
  - apply safe_bind, safe_ret. cbn beta iota. rewrite bool_decide_eq_false_2 by done. apply safe_ret.
    split_and!; [|done|intros d0 k0 [= <- <-] _; by apply Hpot]. apply (step_status a l (LkSearching, l0) w); [|done].
    split_and!; try done. intros _. split; [done|]. intros B. destruct (Hok (or_intror eq_refl)) as [_ Ha].
    specialize (Ha B). unfold armed in *. cbn [snd]. change (in_endgame l0) with (in_endgame l). by rewrite He in *.
  - case_bool_decide as Hemp.
    + eapply safe_call; [by apply (start_endgame_safe a l0)|]. intros [st l1] w1 (H1 & H2 & H3 & H4 & H5 & H6). cbn [fst snd] in *.
      assert (Hso : step_ok a l (st, l1) w1) by (split_and!; [done|by destruct H3|done|done|done]).
      case_bool_decide as Hf; apply safe_ret; (split_and!; [|done|cbn [snd]; by rewrite H4]).
      * split; [by rewrite <- Hf|done].
      * by apply (step_status a l (st, l1)).
    + apply safe_bind, safe_ret. cbn beta iota. rewrite bool_decide_eq_false_2 by done. apply safe_ret.
      split_and!; [|done|intros d0 k0 [= <- <-] _; by apply Hpot]. apply (step_status a l (LkSearching, l0) w); [|done].
      split_and!; try done. intros _. split; [done|]. intros B. unfold armed. cbn [snd].
      change (in_endgame l0) with (in_endgame l). rewrite He. split; [done|].
      intros t' d' k' Ht'. change (delete t (active_lookups l) !! t' = Some (d', k')) in Ht'.
      apply lookup_delete_Some in Ht' as [? ?]. by eapply Hrest.
Qed.

Lemma announce_loop_safe a port nodes l w :
  work_ok w -> gen_ok a (lk_generator l) -> Forall (fun h => is_Some (announce_tokens l !! h)) nodes ->
  safe False (announce_loop port nodes l) (fun r w' => work_ok w' /\ extends w w' /\ target_id r.2 = target_id l) w.
Proof.
  revert l w. induction nodes as [|h nodes IH]; intros l w Hw Hg Hn; cbn [announce_loop]; [by apply safe_ret|].
  apply Forall_cons in Hn as [[tok Htok] Hn].
  eapply safe_call; [by apply (next_mid_safe a)|]. intros [t g] w1 (Hw1 & Hx1 & Hg1 & _). cbn [fst snd] in *. cbv zeta.
  eapply safe_lift_bind; [exact (f_equal (opt_unwrap (E := Empty_set)) Htok)|].
  eapply safe_call; [by apply send_safe|]. intros sent w2 (Hw2 & Hx2 & _). destruct sent.
  - eapply safe_call; [by apply touch_safe|]. intros [] w3 [Hw3 Hx3].
    eapply safe_mono; [by apply IH|done|]. intros r w4 (H1 & H2 & H3). split_and!; [done| |done].
    by do 3 (etrans; [eassumption|]).
  - apply safe_ret. split_and!; [done|by etrans|done].
Qed.

Lemma recv_finished_safe a port l w :
  work_ok w -> lookup_wf a l ->
  safe False (recv_finished port l) (fun r w' => work_ok w' /\ extends w w' /\ target_id r.2 = target_id l) w.
Proof.
  intros Hw [_ Hg]. unfold recv_finished.
  destruct port as [port|]; [destruct (will_announce l)|]; [|by apply safe_bind, safe_ret..].
  eapply safe_call; [by apply (announce_loop_safe a); [..|apply Forall_take, Forall_forall; intros h [? _]%list_elem_of_filter]|].
  intros [fatal l'] w' H. by apply safe_ret.
Qed.
End Rounds.

(** * Failures *)

(** The worker's channel takes no more messages. *)
Definition channel_closed (w : Work) : Prop := exists n, out_closed w = Some n /\ n <= length (message_out w).

(** A step that fails leaves the channel closed. *)
Definition fails_closed (m : WorkM (LookupStatus * TableLookup)) : Prop :=
  forall w l' w', m w = (Ok (LkFailed, l'), w') -> channel_closed w'.

Lemma fails_bind {A} (m : WorkM A) f : (forall a, fails_closed (f a)) -> fails_closed (m ≫= f).
Proof. intros Hf w l' w' (a & w1 & _ & H)%St_bind_inv. by eapply Hf. Qed.

Lemma fails_ret st l : st <> LkFailed -> fails_closed (mret (st, l)).
Proof. intros Hst w l' w' [= -> _ _]. done. Qed.

(** A call whose failure is passed on. *)
Lemma fails_call (m : WorkM (LookupStatus * TableLookup)) f :
  fails_closed m -> (forall l, exists l', f (LkFailed, l) = mret (LkFailed, l')) ->
  (forall st l, st <> LkFailed -> fails_closed (f (st, l))) -> fails_closed (m ≫= f).
Proof.
  intros Hm Hfail Hf w l' w' ([st l] & w1 & H1 & H2)%St_bind_inv. destruct (decide (st = LkFailed)) as [->|Hst].
  - destruct (Hfail l) as [l2 E]. rewrite E in H2. injection H2 as _ <-. by eapply Hm.
  - by eapply Hf.
Qed.

Lemma fails_send msg addr (f : bool -> WorkM (LookupStatus * TableLookup)) r :
  f false = mret r -> fails_closed (f true) -> fails_closed (send_out msg addr ≫= f).
Proof.
  intros Hfalse Htrue w l' w' (sent & w1 & H1 & H2)%St_bind_inv. destruct sent; [by eapply Htrue|].
  rewrite Hfalse in H2. injection H2 as _ <-. unfold send_out in H1. apply St_bind_inv in H1 as (w0 & ? & [= <- <-] & H1).
  destruct (out_closed w) as [n|] eqn:Hn; [destruct (Nat.ltb_spec (length (message_out w)) n)|].
  - by apply St_bind_inv in H1 as (? & ? & _ & [=]).
  - injection H1 as <-. by exists n.
  - by apply St_bind_inv in H1 as (? & ? & _ & [=]).
Qed.

Section Failures.
Context {HP : Profile} {HB : BinarySearch} {HE : DhtEnv}.

Lemma fails_request_round nodes n l : fails_closed (request_round nodes n l).
Proof.
  revert n l. induction nodes as [|[h d] nodes IH]; intros n l; cbn [request_round].
  - destruct (n =? 0); by apply fails_ret.
  - apply fails_bind. intros [t g]. apply fails_bind. intros k. cbv zeta. eapply fails_send; [done|].
    apply fails_bind. intros []. apply IH.
Qed.

Lemma fails_endgame_loop k seen todo l : fails_closed (endgame_loop k seen todo l).
Proof.
  revert seen l. induction todo as [|[[d h] req] todo IH]; intros seen l; cbn [endgame_loop]; [by apply fails_ret|].
  destruct req; [apply IH|]. apply fails_bind. intros [t g]. cbv zeta. eapply fails_send; [done|].
  apply fails_bind. intros []. apply IH.
Qed.

Lemma fails_start_endgame l : fails_closed (start_endgame_round l).
Proof.
  unfold start_endgame_round. cbv zeta. apply fails_bind. intros [t g]. apply fails_bind. intros k.
  match goal with |- fails_closed (if ?c then _ else _) => destruct c end; [apply fails_endgame_loop|by apply fails_ret].
Qed.

Lemma status_not_failed l : current_lookup_status l <> LkFailed.
Proof. unfold current_lookup_status. by case_match. Qed.

Lemma fails_continue it d l : fails_closed (continue_lookup it d l).
Proof.
  unfold continue_lookup. case_match; [by apply fails_ret|]. apply fails_call.
  - destruct it; [apply fails_request_round|by apply fails_ret].
  - intros l'. eexists. by rewrite bool_decide_eq_true_2.
  - intros st l' Hst. rewrite bool_decide_eq_false_2 by done. case_bool_decide; [apply fails_start_endgame|by apply fails_ret].
Qed.

Lemma fails_recv_response node t msg l : fails_closed (recv_response node t msg l).
Proof.
  unfold recv_response. destruct (active_lookups l !! t) as [[d k]|]; [|by apply fails_ret, status_not_failed].
  cbv zeta. apply fails_bind. intros []. rewrite (surjective_pairing (split_info _)). apply fails_bind. intros vs.
  apply fails_bind. intros hs. apply fails_call.
  - unfold answer_rounds. apply fails_bind. intros [[it d'] l']. apply fails_continue.
  - intros l'. eexists. by rewrite bool_decide_eq_true_2.
  - intros st l' Hst. rewrite bool_decide_eq_false_2 by done. apply fails_bind. intros []. by apply fails_ret, status_not_failed.
Qed.

Lemma fails_recv_timeout t l : fails_closed (recv_timeout t l).
Proof.
  unfold recv_timeout. destruct (active_lookups l !! t) as [?|]; [|by apply fails_ret, status_not_failed]. cbv zeta.
  apply fails_call.
  - case_match; [apply fails_start_endgame|by apply fails_ret].
  - intros l'. eexists. by rewrite bool_decide_eq_true_2.
  - intros st l' Hst. rewrite bool_decide_eq_false_2 by done. by apply fails_ret, status_not_failed.
Qed.
End Failures.

(** * Termination *)

(** The order of hashes is that of the numbers they are. *)
Lemma bytes_cmp_be_val (xs ys : bytes) :
  length xs = length ys -> Forall is_u8 xs -> Forall is_u8 ys -> bytes_cmp xs ys = Lt -> (be_val xs < be_val ys)%Z.
Proof.
  revert ys. induction xs as [|x xs IH]; intros [|y ys] Hl Hx Hy Hc; try done. cbn [length] in Hl.
  apply Forall_cons in Hx as [Hx Hxs], Hy as [Hy Hys]. rewrite !be_val_cons by done.
  pose proof (be_val_bound xs Hxs). pose proof (be_val_bound ys Hys). cbn [bytes_cmp] in Hc.
  assert (Hl' : length xs = length ys) by lia. rewrite Hl' in H |- *.
  destruct (Z.compare_spec x y) as [->|Hlt|]; [|nia|done].
  pose proof (IH ys Hl' Hxs Hys Hc). nia.
Qed.

Lemma weight_decreases d d' : is_hash d -> is_hash d' -> hash_lt d' d = true -> (3 * weight d' + 1 <= weight d)%Z.
Proof.
  intros [Hl Hu] [Hl' Hu'] Hlt. unfold hash_lt, hash_cmp in Hlt. destruct (bytes_cmp _ _) eqn:Hc; try done.
  apply bytes_cmp_be_val in Hc; [|congruence|done..]. unfold weight. pose proof (be_val_bound _ Hu') as Hb.
  set (m := be_val (hash d')) in *. replace (be_val (hash d)) with (m + 1 + (be_val (hash d) - m - 1))%Z by lia.
  rewrite !Z.pow_add_r by lia.
  assert (0 < 4 ^ m)%Z by (apply Z.pow_pos_nonneg; lia).
  assert (0 < 4 ^ (be_val (hash d) - m - 1))%Z by (apply Z.pow_pos_nonneg; lia). nia.
Qed.

Lemma weight_positive d : is_hash d -> (1 <= weight d)%Z.
Proof.
  intros [_ Hu]. pose proof (be_val_bound _ Hu). unfold weight.
  assert (0 < 4 ^ be_val (hash d))%Z by (apply Z.pow_pos_nonneg; lia). lia.
Qed.

(** The identifiers in a compact list of bytes are hashes. *)
(** What happens to a searching lookup: an answer to one of its requests, or the
    timeout of one.  A timeout handed out by the timer is not pending any more. *)
Inductive lookup_event : Type :=
  | Answered (node : Node) (t : TransactionID) (msg : GetPeersResponse)
  | TimedOut (t : TransactionID).

Definition event_request (e : lookup_event) : TransactionID :=
  match e with Answered _ t _ => t | TimedOut t => t end.

Definition lookup_step {HP : Profile} {HB : BinarySearch} {HE : DhtEnv} (e : lookup_event) (l : TableLookup)
    : WorkM (LookupStatus * TableLookup) :=
  match e with
  | Answered node t msg => recv_response node t msg l
  | TimedOut t =>
      _ ← match active_lookups l !! t with Some (_, k) => cancel_timeout k | None => mret tt end;
      recv_timeout t l
  end.

(** The messages are made of bytes, and their lists have passed validation. *)
Definition event_wf (e : lookup_event) : Prop :=
  match e with
  | Answered _ _ msg =>
      info_ok (gr_info_type msg) /\
      forall n, (split_info (gr_info_type msg)).2 = Some n -> Forall is_u8 (nodes n)
  | TimedOut _ => True
  end.

(** A sequence of events that a searching lookup goes through, each about an open
    request: it leads to the status [st'], and is over when the lookup fails or has
    gone into its endgame. *)
Fixpoint searches {HP : Profile} {HB : BinarySearch} (es : list (DhtEnv * lookup_event)) (l : TableLookup) (w : Work)
    (st' : LookupStatus) (l' : TableLookup) (w' : Work) : Prop :=
  match es with
  | [] => st' = LkSearching /\ l' = l /\ w' = w
  | (env, e) :: es =>
      in_endgame l = false /\ is_Some (active_lookups l !! event_request e) /\ event_wf e /\
      exists st l1 w1, @lookup_step HP HB env e l w = (Ok (st, l1), w1) /\
        if bool_decide (st = LkFailed) then es = [] /\ st' = LkFailed /\ l' = l1 /\ w' = w1
        else searches es l1 w1 st' l' w'
  end.

Definition hashes_ok (l : TableLookup) : Prop :=
  is_hash (target_id l) /\ forall t d k, active_lookups l !! t = Some (d, k) -> is_hash d.

Lemma response_handles_hash msg l :
  info_ok (gr_info_type msg) -> (forall n, (split_info (gr_info_type msg)).2 = Some n -> Forall is_u8 (nodes n)) ->
  Forall (fun h => is_hash (nh_id h)) (response_handles msg l).
Proof.
  intros Hi Hu. unfold response_handles. destruct (split_info (gr_info_type msg)).2 as [n|]; [|constructor].
  specialize (Hu n eq_refl). destruct (new_handles l (Some n)) as [hs|e| |] eqn:Hn; try constructor.
  cbn [new_handles] in Hn. apply mbind_Ok_inv in Hn as (ns & Hc & [= <-]).
  apply node_iter_ids in Hc as [_ Hc]. specialize (Hc Hu). apply Forall_forall. intros h [_ Hh]%list_elem_of_filter.
  apply list_elem_of_fmap in Hh as (p & -> & Hp). rewrite Forall_forall in Hc. by apply Hc.
Qed.

Lemma closest_distance_hash target d hs :
  is_hash target -> is_hash d -> Forall (fun h => is_hash (nh_id h)) hs -> is_hash (closest_distance target d hs).
Proof.
  intros Ht Hd Hhs. unfold closest_distance. revert d Hd. induction Hhs as [|h hs Hh Hhs IH]; intros d Hd; [done|].
  cbn [fold_left]. apply IH. case_match; [by apply is_hash_xor|done].
Qed.

Section Termination.
Context {HP : Profile} {HB : BinarySearch}.

(** One event: it returns, the invariants are kept and the weight goes down. *)
Lemma lookup_step_safe (env : DhtEnv) a e l w :
  work_ok w -> lookup_ok a l w -> hashes_ok l -> in_endgame l = false ->
  is_Some (active_lookups l !! event_request e) -> event_wf e ->
  safe False (@lookup_step HP HB env e l) (fun r w' => work_ok w' /\ (r.1 <> LkFailed -> lookup_ok a r.2 w') /\
    (in_endgame r.2 = false -> hashes_ok r.2 /\ potential r.2 + 1 <= potential l)%Z) w.
Proof.
  intros Hw Hl [Hth Hdh] He [[d k] Ht] Hwf. destruct e as [node t msg|t]; cbn [event_request lookup_step] in *.
  - destruct Hwf as [Hi Hu]. eapply safe_mono; [by apply (recv_response_safe a node t msg l w)|done|].
    intros [st l'] w' (((Hw' & _ & Htid & _ & Hok) & _) & _ & Hdec). cbn [fst snd] in *. split_and!; [done|done|]. intros He'.
    destruct (Hdec d k Ht He He') as [Hds Hpot]. set (hs := response_handles msg l) in *.
    assert (Hd' : is_hash (closest_distance (target_id l) d hs)).
    { apply closest_distance_hash; [done|by eapply Hdh|by apply response_handles_hash]. }
    split.
    + split; [by rewrite Htid|]. intros t' d' k' [->%list_elem_of_singleton|(t0 & k0 & H0)]%Hds; [done|by eapply Hdh].
    + unfold next_weight in Hpot. case_match eqn:Hlt.
      * pose proof (weight_decreases d _ (Hdh _ _ _ Ht) Hd' Hlt). lia.
      * pose proof (weight_positive d (Hdh _ _ _ Ht)). lia.
  - rewrite Ht. pose proof (take_request_safe a t d k l w Hw Hl Ht) as Hs1. rewrite He in Hs1. cbn [negb when] in Hs1.
    eapply safe_call; [exact Hs1|]. intros [] w1 (Hw1 & _ & _ & Hrest).
    eapply safe_mono; [apply (recv_timeout_safe a)|done|].
    + done.
    + by destruct Hl.
    + intros d0 k0 _ _ B t' d' k' Hne Ht'. apply (Hrest eq_refl B t' d' k'). by apply lookup_delete_Some.
    + rewrite Ht, He. by intros [|].
    + intros [st l'] w' (((Hw' & _ & Htid & _ & Hok) & _) & _ & Hdec). cbn [fst snd] in *. split_and!; [done|done|]. intros He'.
      destruct (Hdec d k Ht He') as [Hds Hpot]. pose proof (weight_positive d (Hdh _ _ _ Ht)). split; [|lia].
      split; [by rewrite Htid|]. intros t' d' k' [?%elem_of_nil|(t0 & k0 & H0)]%Hds; [done|by eapply Hdh].
Qed.

Lemma lookup_step_fails (env : DhtEnv) e l : fails_closed (@lookup_step HP HB env e l).
Proof. destruct e; [apply fails_recv_response|]. apply fails_bind. intros []. apply fails_recv_timeout. Qed.

(** The lookup still searches: it waits for an answer to at least one request,
    each with its timeout pending, and any further answer or timeout is dealt
    with. *)
Definition still_searching (a : ActionID) (l : TableLookup) (w : Work) : Prop :=
  in_endgame l = false /\ (bounded w -> active_lookups l <> ∅ /\ all_armed a l w) /\
  forall (env : DhtEnv) e, is_Some (active_lookups l !! event_request e) -> event_wf e ->
    exists r w', @lookup_step HP HB env e l w = (Ok r, w').

(** The lookup is in its endgame, whose timeout is pending. *)
Definition in_last_round (a : ActionID) (l : TableLookup) (w : Work) : Prop :=
  in_endgame l = true /\ (bounded w -> exists k t, pending_at w k (CheckLookupEndGame t) /\ action_id t = a).

Lemma armed_phase a l w : work_ok w -> lookup_ok a l w -> hashes_ok l \/ in_endgame l = true ->
  still_searching a l w \/ in_last_round a l w.
Proof.
  intros Hw Hl Hh. pose proof Hl as [_ Ha]. unfold armed in Ha. destruct (in_endgame l) eqn:He; [by right|]. left.
  destruct Hh as [Hh|]; [|done]. split_and!; [done|done|]. intros env e Ht Hwf.
  destruct (safe_False _ _ _ (lookup_step_safe env a e l w Hw Hl Hh He Ht Hwf)) as (r & w' & E & _). eauto.
Qed.

Lemma potential_positive (l : TableLookup) t d k :
  hashes_ok l -> active_lookups l !! t = Some (d, k) -> (1 <= potential l)%Z.
Proof.
  intros [_ Hd] Ht. unfold potential. rewrite (fold_delete _ _ _ Ht). cbn [fst].
  pose proof (weight_positive d (Hd _ _ _ Ht)). pose proof (fold_nonneg (delete t (active_lookups l))). lia.
Qed.

(** C9. A search ends: whatever nodes answer and in whatever order answers and
    timeouts come, no more than [potential l] of them are needed until the lookup
    has gone into its endgame, with the endgame's timeout pending, or has failed
    because the worker's channel is closed.  Until then it waits for at least one
    request, each with its timeout pending, and each further answer or timeout is
    dealt with and brings the bound down: an answer replaces a request by at most
    three, each with a strictly smaller distance to beat.  (What is pending is
    known as long as the timer has given out fewer than 2^64 timeouts.) *)
Theorem lookup_search_ends (a : ActionID) (es : list (DhtEnv * lookup_event)) (l : TableLookup) (w : Work) st' l' w' :
  work_ok w -> lookup_ok a l w -> hashes_ok l -> in_endgame l = false ->
  searches es l w st' l' w' ->
  (Z.of_nat (length es) <= potential l)%Z /\
  ((still_searching a l' w' /\ (Z.of_nat (length es) + potential l' <= potential l)%Z) \/
   in_last_round a l' w' \/ (st' = LkFailed /\ channel_closed w')).
Proof.
  revert l w. induction es as [|[env e] es IH]; intros l w Hw Hl Hh He Hrun.
  { destruct Hrun as (-> & -> & ->). cbn [length]. split; [apply fold_nonneg|].
    destruct (armed_phase a l w) as [?|?]; auto. left. by split. }
  destruct Hrun as (_ & Ht & Hwf & st & l1 & w1 & Hstep & Hrun).
  pose proof (safe_run _ _ _ _ _ _ (lookup_step_safe env a e l w Hw Hl Hh He Ht Hwf) Hstep) as (Hw1 & Hl1 & Hdec).
  cbn [fst snd] in *. destruct Ht as [[d k] Ht]. pose proof (potential_positive l _ d k Hh Ht) as Hpos. cbn [length].
  case_bool_decide as Hst.
  { destruct Hrun as (-> & -> & -> & ->). subst st. split; [cbn [length]; lia|]. right. right. split; [done|].
    by eapply lookup_step_fails. }
  specialize (Hl1 Hst). destruct (in_endgame l1) eqn:He1.
  - destruct es as [|[env' e'] es]; [|by destruct Hrun as (? & _); congruence].
    destruct Hrun as (-> & -> & ->). split; [cbn [length]; lia|]. right. left.
    destruct (armed_phase a l1 w1) as [[? _]|?]; [done|done|by right|congruence|done].
  - destruct (Hdec eq_refl) as [Hh1 Hpot]. destruct (IH l1 w1 Hw1 Hl1 Hh1 He1 Hrun) as (Hlen & Hor). split; [lia|].
    destruct Hor as [[? ?]|?]; [left|by right]. split; [done|lia].
Qed.
End Termination.

(** * Samples *)

(** A binary search that looks at the elements in order. *)
Definition linear_search (A : Type) (f : A -> comparison) (l : list A) : nat + nat :=
  match position (fun x => match f x with Eq => true | _ => false end) l with
  | Some i => inl i
  | None => inr match position (fun x => match f x with Gt => true | _ => false end) l with
                | Some i => i
                | None => length l
                end
  end.

Lemma linear_search_found (A : Type) (f : A -> comparison) l i :
  linear_search A f l = inl i -> exists x, l !! i = Some x /\ f x = Eq.
Proof.
  unfold linear_search. destruct (position _ l) as [j|] eqn:Hp; [|done]. intros [= <-].
  apply position_Some in Hp as (x & Hx & Hf & _). exists x. split; [done|]. by destruct (f x).
Qed.

Lemma linear_search_absent (A : Type) (f : A -> comparison) l i :
  (forall i j x y, i < j -> l !! i = Some x -> l !! j = Some y -> f x <> Lt -> f y <> Lt) ->
  linear_search A f l = inr i ->
  i <= length l /\ (forall j x, l !! j = Some x -> f x = if j <? i then Lt else Gt).
Proof.
  intros Hmono. unfold linear_search. destruct (position _ l) as [?|] eqn:Hne; [done|]. intros [= Hi].
  apply position_None in Hne. rewrite Forall_lookup in Hne.
  destruct (position (fun x => match f x with Gt => true | _ => false end) l) as [k|] eqn:Hp; subst i.
  - apply position_Some in Hp as (y & Hy & Hg & Hbefore). pose proof (lookup_lt_Some _ _ _ Hy). split; [lia|].
    intros j x Hx. specialize (Hne j x Hx). destruct (Nat.ltb_spec j k) as [Hjk|Hjk].
    + assert (Hn : (match f x with Gt => true | _ => false end) = false).
      { rewrite Forall_lookup in Hbefore. apply (Hbefore j x). by rewrite lookup_take_lt. }
      by destruct (f x).
    + destruct (decide (j = k)) as [->|]; [rewrite Hy in Hx; injection Hx as <-; by destruct (f y)|].
      assert (f x <> Lt) by (apply (Hmono k j y x); [lia|done|done|by destruct (f y)]). by destruct (f x).
  - apply position_None in Hp. rewrite Forall_lookup in Hp. split; [done|]. intros j x Hx.
    rewrite (proj2 (Nat.ltb_lt _ _) (lookup_lt_Some _ _ _ Hx)). specialize (Hp j x Hx). specialize (Hne j x Hx).
    by destruct (f x).
Qed.

Definition sample_search : BinarySearch := {|
  binary_search_by := linear_search;
  binary_search_found := fun A f l i _ _ => linear_search_found A f l i;
  binary_search_absent := fun A f l i _ => linear_search_absent A f l i
|}.

(** A lookup whose first round goes to two nodes. *)
Definition sample_target : ShaHash := {| hash := 200%Z :: replicate 19 0%Z |}.
Definition sample_fresh : TableLookup := {|
  lk_table_id := zero_hash; target_id := sample_target; in_endgame := false; recv_values := false;
  lk_generator := sample_generator; will_announce := true; active_lookups := ∅; announce_tokens := ∅;
  requested_nodes := ∅; all_sorted_nodes := []; tx := Some 0 |}.
Definition sample_round : list (NodeHandle * ShaHash) :=
  (fun b => (handle (sample_peer b), bitxor (nh_id (handle (sample_peer b))) sample_target)) <$> [64; 128]%Z.
Notation sample_start :=
  (@start_request_round true (sample_env 0) sample_round sample_fresh empty_work).
Definition sample_lookup : TableLookup :=
  match sample_start.1 with Ok (_, l) => l | _ => sample_fresh end.

Lemma sample_fresh_ok : searching {| act_id := 3 |} sample_fresh empty_work.
Proof.
  split; [apply empty_work_ok| |done|by intros _ t d k Ht].
  split; [apply nodes_ok_nil|apply sample_generator_ok].
Qed.

Lemma sample_start_run : sample_start = (Ok (LkSearching, sample_lookup), sample_start.2).
Proof. by vm_compute. Qed.

Lemma sample_start_ok l w :
  sample_start = (Ok (LkSearching, l), w) -> work_ok w /\ lookup_ok {| act_id := 3 |} l w /\ in_endgame l = false.
Proof.
  intros E. assert (Hne : sample_round <> []) by discriminate.
  pose proof (@request_round_safe true (sample_env 0) {| act_id := 3 |} sample_round 0 sample_fresh empty_work
    sample_fresh_ok (fun _ => Hne) (fun H => False_ind _ (H eq_refl))) as Hs.
  destruct (safe_run _ _ _ _ _ _ Hs E) as ([Hw Hwf He Ha] & _ & _ & _ & _ & _ & Hst). cbn [fst snd] in *.
  split_and!; [done| |done]. split; [done|]. intros B. unfold armed. rewrite He. destruct Hst as [|[_ ?]]; [done|]. auto.
Qed.

Lemma sample_lookup_ok :
  work_ok sample_start.2 /\ lookup_ok {| act_id := 3 |} sample_lookup sample_start.2 /\ in_endgame sample_lookup = false.
Proof. exact (sample_start_ok _ _ sample_start_run). Qed.

Definition hash_check (d : ShaHash) : bool :=
  (length (hash d) =? SHA_HASH_LEN) && forallb (fun b => (0 <=? b) && (b <? 256))%Z (hash d).

Lemma hash_check_ok d : hash_check d = true -> is_hash d.
Proof.
  unfold hash_check. intros [Hl%Nat.eqb_eq Hb]%andb_prop. split; [exact Hl|].
  apply Forall_forall. intros b Hin. apply list_elem_of_In in Hin.
  eapply forallb_forall in Hb; [|exact Hin]. unfold is_u8. lia.
Qed.

Lemma hashes_check l :
  hash_check (target_id l) = true ->
  forallb (fun e => hash_check e.2.1) (map_to_list (active_lookups l)) = true -> hashes_ok l.
Proof.
  intros Ht Hall. split; [by apply hash_check_ok|]. intros t d k Hk. apply hash_check_ok.
  rewrite forallb_forall in Hall. apply (Hall (t, (d, k))). by apply list_elem_of_In, elem_of_map_to_list.
Qed.

Lemma sample_lookup_hashes : hashes_ok sample_lookup.
Proof. apply hashes_check; by vm_compute. Qed.

(** Both requests run into their timeouts. *)
Definition sample_timeout (l : TableLookup) : DhtEnv * lookup_event :=
  (sample_env 2, TimedOut match map_to_list (active_lookups l) with (t, _) :: _ => t | [] => TransactionID_new 0 end).
Definition sample_step (l : TableLookup) (w : Work) : (LookupStatus * TableLookup) * Work :=
  match @lookup_step true sample_search (sample_env 2) (sample_timeout l).2 l w with
  | (Ok r, w') => (r, w')
  | (_, w') => (LkFailed, l, w')
  end.
Definition sample_first := sample_step sample_lookup sample_start.2.
Definition sample_second := sample_step sample_first.1.2 sample_first.2.
Notation sample_run :=
  (searches (HP := true) (HB := sample_search) [sample_timeout sample_lookup; sample_timeout sample_first.1.2] sample_lookup
    sample_start.2 LkSearching sample_second.1.2 sample_second.2).

Lemma sample_steps : sample_run.
Proof.
  split; [by vm_compute|]. split; [by vm_compute; eexists|]. split; [done|].
  exists LkSearching, sample_first.1.2, sample_first.2. split; [by vm_compute|]. rewrite bool_decide_eq_false_2 by done.
  split; [by vm_compute|]. split; [by vm_compute; eexists|]. split; [done|].
  exists LkSearching, sample_second.1.2, sample_second.2. split; [by vm_compute|]. by rewrite bool_decide_eq_false_2.
Qed.

Lemma lookup_search_ends_witness : (Z.of_nat 2 <= potential sample_lookup)%Z /\ in_endgame sample_second.1.2 = true.
Proof.
  destruct sample_lookup_ok as (H1 & H2 & H3). split; [|by vm_compute].
  exact (proj1 (@lookup_search_ends true sample_search {| act_id := 3 |} [sample_timeout sample_lookup; sample_timeout sample_first.1.2]
    sample_lookup sample_start.2 LkSearching sample_second.1.2 sample_second.2 H1 H2 sample_lookup_hashes H3 sample_steps)).
Defined.
