(* ===== verification/DhtBootstrapCorrect.v ===== *)
(** DhtBootstrapCorrect: bootstraps and refreshes keep their requests armed.

    [boot_wf] and [armed_messages] are the invariant of a bootstrap; every method
    returns, whatever the table holds, and an open request that ends brings the
    bootstrap closer to its last bucket ([remaining]). *)

From stdpp Require Import base list gmap.
From Stdlib Require Import ZArith Lia.
From S2P Require Import Prelude OrdMap Convert ShaHash Effects Routing RoutingCorrect RoutingClosest Timer.
From S2P Require Import TransIds DhtToken DhtMessage DhtWork DhtBootstrap DhtWorkCorrect.

(** * Invariant *)

Record boot_wf (a : ActionID) (b : TableBootstrap) : Prop := {
  bw_gen : gen_ok a (bs_generator b);
  bw_id : length (hash (bs_table_id b)) = SHA_HASH_LEN;
  bw_bucket : curr_bootstrap_bucket b <= MAX_BUCKETS;
  bw_open : is_completed b = false -> curr_bootstrap_bucket b < MAX_BUCKETS
}.

Definition armed_messages (a : ActionID) (m : gmap TransactionID Timeout) (w : Work) : Prop :=
  forall t k, m !! t = Some k -> action_id t = a /\ pending_at w k (CheckBootstrapTimeout t).

Lemma armed_messages_extends a m w w' :
  extends w w' -> (bounded w -> armed_messages a m w) -> bounded w' -> armed_messages a m w'.
Proof.
  intros Hx Ha B t k Ht. destruct (Ha (bounded_le _ _ (ex_draws _ _ Hx) B) t k Ht) as [? ?].
  split; [done|]. by apply (ex_pending _ _ Hx B).
Qed.

Lemma armed_messages_insert a m t k w :
  armed_messages a m w -> action_id t = a -> pending_at w k (CheckBootstrapTimeout t) ->
  armed_messages a (<[t := k]> m) w.
Proof. intros Hm Ht Hk t' k' [(<- & <-)|[_ ?]]%lookup_insert_Some; auto. Qed.

(** Open requests, and nine for each bucket that is left. *)
Definition remaining (b : TableBootstrap) : nat :=
  base.size (active_messages b) + 9 * (MAX_BUCKETS - curr_bootstrap_bucket b).

Lemma flip_total {E} (id : ShaHash) i :
  length (hash id) = SHA_HASH_LEN -> i < MAX_BUCKETS -> exists id', @flip_id_bit_at_index E id i = Ok id'.
Proof.
  intros Hl Hi. unfold flip_id_bit_at_index.
  destruct (@index_lt E _ (hash id) (i / 8)) as [b ->]; [|eexists; reflexivity].
  rewrite Hl. apply Nat.Div0.div_lt_upper_bound. exact Hi.
Qed.

Lemma bucket_nodes_total {E} t i : i < MAX_BUCKETS -> exists b, @bucket_nodes E t i = Ok b.
Proof.
  intros Hi. unfold bucket_nodes, buckets_iter. rewrite buckets_nth_in by done. cbn [Nat.add].
  destruct ((i + 1 <? length (buckets t)) || (length (buckets t) =? MAX_BUCKETS)) eqn:Hc; [|eexists; reflexivity].
  destruct (@index_lt E _ (buckets t) i) as [b ->]; [|eexists; reflexivity].
  apply orb_true_iff in Hc as [Hc%Nat.ltb_lt|Hc%Nat.eqb_eq]; lia.
Qed.

Section Bootstrap.
Context {HP : Profile} {HE : DhtEnv}.

Lemma send_all_safe msg addrs w :
  work_ok w -> safe False (send_all msg addrs) (fun _ w' => work_ok w' /\ extends w w') w.
Proof.
  revert w. induction addrs as [|addr addrs IH]; intros w Hw; cbn [send_all]; [by apply safe_ret|].
  eapply safe_call; [by apply send_safe|]. intros sent w1 (Hw1 & Hx1 & _). destruct sent; [|by apply safe_ret].
  eapply safe_mono; [by apply IH|done|]. intros ? w2 [? ?]. split; [done|by etrans].
Qed.

(** What a method leaves: it has failed, or the bootstrap is complete, or it
    waits for an answer. *)
Record boot_step (a : ActionID) (r : BootstrapStatus * TableBootstrap) (w' : Work) : Prop := {
  st_work : work_ok w';
  st_wf : boot_wf a r.2;
  st_armed : bounded w' -> armed_messages a (active_messages r.2) w';
  st_status : r.1 = BsFailed \/ r.1 = BsBootstrapping /\ active_messages r.2 <> ∅ \/
    r.1 = BsCompleted /\ active_messages r.2 = ∅ /\ is_completed r.2 = true
}.

Lemma start_bootstrap_safe a b w :
  work_ok w -> gen_ok a (bs_generator b) -> length (hash (bs_table_id b)) = SHA_HASH_LEN ->
  safe False (start_bootstrap b) (fun r w' => boot_step a r w' /\ extends w w' /\ r.1 <> BsCompleted /\
    active_messages r.2 <> ∅ /\ remaining r.2 = 1 + 9 * MAX_BUCKETS) w.
Proof.
  intros Hw Hg Hid. unfold start_bootstrap. cbv zeta.
  eapply safe_call; [by apply (next_mid_safe a)|]. intros [t g] w1 (Hw1 & Hx1 & Hg1 & Hta & _ & _ & Hlt). cbn [fst snd] in *.
  eapply safe_call; [by apply schedule_safe|]. intros k w2 (Hw2 & Hx2 & _ & Hk).
  eapply safe_call; [by apply send_all_safe|]. intros sent w3 [Hw3 Hx3]. apply safe_ret.
  set (b1 := _ <| active_messages := <[t := k]> _ |>).
  assert (Hne : active_messages b1 <> ∅) by apply insert_non_empty.
  assert (Hst : current_bootstrap_status b1 = BsBootstrapping) by done.
  split_and!; [split; cbn [fst snd]|etrans; [exact Hx1|]; by etrans|cbn [fst]; destruct sent; [by rewrite Hst|done]|done|].
  - done.
  - split; [done|done|cbn; lia|intros _; change (0 < MAX_BUCKETS); by apply Nat.ltb_lt].
  - apply (armed_messages_extends a _ w2 w3 Hx3). intros B. apply armed_messages_insert; [by intros ? ? ?|done|by apply Hk].
  - destruct sent; [|by left]. right. left. by rewrite Hst.
  - change (base.size (<[t := k]> (∅ : gmap TransactionID Timeout)) + 9 * (MAX_BUCKETS - 0) = 1 + 9 * MAX_BUCKETS).
    rewrite map_size_insert_None, map_size_empty by done. lia.
Qed.

(** What sending requests for one bucket does. *)
Record sent_requests (a : ActionID) (b : TableBootstrap) (n : nat) (r : BootstrapStatus * TableBootstrap)
    (w' : Work) : Prop := {
  sr_work : work_ok w';
  sr_wf : boot_wf a r.2;
  sr_armed : bounded w' -> armed_messages a (active_messages r.2) w';
  sr_bucket : curr_bootstrap_bucket r.2 = curr_bootstrap_bucket b;
  sr_completed : is_completed r.2 = is_completed b;
  sr_size : base.size (active_messages r.2) <= base.size (active_messages b) + n;
  sr_status : r.1 = BsFailed \/ r.1 = BsBootstrapping /\
    (messages_sent_num r.2 = messages_sent_num b + Z.of_nat n)%Z /\
    (n <> 0 \/ active_messages b <> ∅ -> active_messages r.2 <> ∅)
}.

Lemma bootstrap_requests_safe a nodes target b w :
  work_ok w -> boot_wf a b -> (bounded w -> armed_messages a (active_messages b) w) ->
  (0 <= messages_sent_num b)%Z -> (messages_sent_num b + Z.of_nat (length nodes) < 4294967296)%Z ->
  safe False (bootstrap_requests nodes target b)
    (fun r w' => sent_requests a b (length nodes) r w' /\ extends w w') w.
Proof.
  revert b w. induction nodes as [|h nodes IH]; intros b w Hw Hb Ha H0 Hn; cbn [bootstrap_requests length] in *.
  { apply safe_ret. split; [|done]. split; cbn [fst snd]; try done; [lia|]. right. split_and!; [done|lia|]. by intros [?|?]. }
  destruct Hb as [Hg Hid Hle Hop].
  eapply safe_call; [by apply (next_mid_safe a)|]. intros [t g] w1 (Hw1 & Hx1 & Hg1 & Hta & _ & _ & Hlt). cbn [fst snd] in *.
  cbv zeta. eapply safe_call; [by apply schedule_safe|]. intros k w2 (Hw2 & Hx2 & _ & Hk).
  eapply safe_call; [by apply send_safe|]. intros sent w3 (Hw3 & Hx3 & _).
  assert (Hx : extends w w3) by (etrans; [exact Hx1|]; by etrans).
  destruct sent.
  2:{ apply safe_ret. split; [|done]. split; cbn [fst snd]; [done|by split| |done|done| |by left].
      - by apply (armed_messages_extends a _ w w3).
      - change (base.size (active_messages b) <= base.size (active_messages b) + S (length nodes)). lia. }
  eapply safe_call; [by apply touch_safe|]. intros [] w4 [Hw4 Hx4]. cbn beta.
  eapply safe_lift_bind. { apply u32_arith_in. unfold is_u32. simpl. lia. }
  set (b1 := _ <| messages_sent_num := _ |>).
  assert (Hne : active_messages b1 <> ∅) by apply insert_non_empty.
  assert (Hsz : base.size (active_messages b1) <= S (base.size (active_messages b))).
  { change (base.size (<[t := k]> (active_messages b)) <= S (base.size (active_messages b))). rewrite map_size_insert. destruct (_ !! t); simpl; lia. }
  eapply safe_mono; [apply (IH b1 w4)|done|].
  - done.
  - by split.
  - intros B. apply armed_messages_insert; [by apply (armed_messages_extends a _ w w4); [etrans|..]|done|].
    apply (ex_pending _ _ Hx4 B), (ex_pending _ _ Hx3); [by apply (bounded_le _ _ (ex_draws _ _ Hx4))|].
    apply Hk. apply (bounded_le w2 w4); [|done]. etrans; [apply Hx3|apply Hx4].
  - simpl. lia.
  - simpl. lia.
  - intros r w5 [[G1 G2 G3 G4 G5 G6 G7] Hx5]. split; [|by etrans; [exact Hx|]; etrans]. split; try done; [lia|].
    destruct G7 as [?|(? & Hm & Hv)]; [by left|right]. split_and!; [done| |auto]. change (messages_sent_num b1) with (messages_sent_num b + 1)%Z in Hm. lia.
Qed.

Lemma bootstrap_next_bucket_safe a b w :
  work_ok w -> boot_wf a b -> (bounded w -> armed_messages a (active_messages b) w) ->
  curr_bootstrap_bucket b < MAX_BUCKETS ->
  safe False (bootstrap_next_bucket b) (fun r w' => extends w w' /\ exists n, n <= PINGS_PER_BUCKET /\
    sent_requests a (b <| messages_sent_num := 0%Z |>) n r w') w.
Proof.
  intros Hw Hb Ha Hc. unfold bootstrap_next_bucket. cbv zeta. set (i := curr_bootstrap_bucket b) in *.
  destruct (flip_total (E := Empty_set) (bs_table_id b) i (bw_id _ _ Hb) Hc) as [target Ht].
  eapply safe_lift_bind; [exact Ht|].
  eapply (safe_call _ _ _ (fun _ w' => w' = w)).
  { destruct ((i =? 0) || (i =? 1)) eqn:Hi.
    - eapply safe_mono; [by apply closest_safe|done|]. by intros ? ? [? _].
    - apply orb_false_iff in Hi as [?%Nat.eqb_neq ?%Nat.eqb_neq]. apply safe_get_bind.
      destruct (bucket_nodes_total (E := Empty_set) (routing_table w) (i - 2)) as [b1 H1]; [lia|].
      destruct (bucket_nodes_total (E := Empty_set) (routing_table w) (i - 1)) as [b2 H2]; [lia|].
      destruct (bucket_nodes_total (E := Empty_set) (routing_table w) i) as [b3 H3]; [lia|].
      eapply safe_lift_bind; [exact H1|]. eapply safe_lift_bind; [exact H2|]. eapply safe_lift_bind; [exact H3|].
      by apply safe_ret. }
  intros nodes ? ->. unfold send_bootstrap_requests. set (hs := questionable _ nodes).
  assert (Hlen : length hs <= PINGS_PER_BUCKET) by (unfold hs, questionable; rewrite length_fmap, length_take; lia).
  eapply safe_mono; [apply (bootstrap_requests_safe a)|done|].
  - done.
  - destruct Hb. by split.
  - done.
  - done.
  - simpl. unfold PINGS_PER_BUCKET in Hlen. lia.
  - intros r w' [Hr Hx]. split; [done|]. by exists (length hs).
Qed.

(** The loop over the buckets ends, at the latest with the last bucket. *)
Lemma next_buckets_safe a turns b w :
  work_ok w -> boot_wf a b -> (bounded w -> armed_messages a (active_messages b) w) ->
  curr_bootstrap_bucket b < MAX_BUCKETS -> MAX_BUCKETS <= turns + curr_bootstrap_bucket b ->
  safe False (next_buckets turns b) (fun r w' => boot_step a r w' /\ extends w w' /\
    (r.1 <> BsFailed -> remaining r.2 < remaining b)) w.
Proof.
  revert b w. induction turns as [|turns IH]; intros b w Hw Hb Ha Hc Ht; [lia|]. cbn [next_buckets].
  eapply safe_call; [by apply (bootstrap_next_bucket_safe a)|].
  intros [st b1] w1 (Hx1 & n & Hn & [G1 [W1 W2 W3 W4] G3 G4 G5 G6 G7]). cbn [fst snd] in *.
  change (curr_bootstrap_bucket b1 = curr_bootstrap_bucket b) in G4. change (is_completed b1 = is_completed b) in G5.
  change (base.size (active_messages b1) <= base.size (active_messages b) + n) in G6.
  case_bool_decide as Hst.
  { apply safe_ret. split_and!; [|done|done]. split; cbn [fst snd]; [done|by split|done|by left]. }
  destruct G7 as [->|(-> & Hm & Hact)]; [done|]. cbv zeta.
  set (b2 := b1 <| curr_bootstrap_bucket := _ |>).
  assert (Hcur : curr_bootstrap_bucket b2 = S (curr_bootstrap_bucket b)) by (simpl; rewrite G4; lia).
  assert (Hrem : base.size (active_messages b1) + 9 * (MAX_BUCKETS - S (curr_bootstrap_bucket b)) < remaining b).
  { unfold remaining, PINGS_PER_BUCKET in *. lia. }
  rewrite Hcur. destruct (Nat.eqb_spec (S (curr_bootstrap_bucket b)) MAX_BUCKETS) as [He|Hne].
  - apply safe_ret. split_and!; [|done|].
    + split; cbn [fst snd]; [done| |done|].
      * split; [done|done|change (curr_bootstrap_bucket b2 <= MAX_BUCKETS); lia|done].
      * unfold current_bootstrap_status. change (is_completed _) with true. cbn [andb].
        change (active_messages _) with (active_messages b1).
        case_bool_decide; [by right; right|by right; left].
    + intros _. change (base.size (active_messages b1) + 9 * (MAX_BUCKETS - curr_bootstrap_bucket b2) < remaining b).
      by rewrite Hcur.
  - change (messages_sent_num b2) with (messages_sent_num b1). change (messages_sent_num b1 = 0 + Z.of_nat n)%Z in Hm.
    destruct (Z.eqb_spec (messages_sent_num b1) 0) as [Hz|Hnz]; cbn [negb].
    + eapply safe_mono; [apply (IH b2 w1)|done|].
      * done.
      * split; [done|done|lia|lia].
      * done.
      * lia.
      * lia.
      * intros r w2 (Hs & Hx2 & Hr). split_and!; [done|by etrans|]. intros Hf. specialize (Hr Hf).
        unfold remaining in Hr at 2. rewrite Hcur in Hr. change (active_messages b2) with (active_messages b1) in Hr. lia.
    + apply safe_ret. split_and!; [|done|].
      * split; cbn [fst snd]; [done|split; [done|done|lia|lia]|done|]. right. left. split; [done|].
        change (active_messages b1 <> ∅). apply Hact. left. lia.
      * intros _. cbn [snd]. unfold remaining. rewrite Hcur. exact Hrem.
Qed.

Lemma continue_bootstrap_safe a b w :
  work_ok w -> boot_wf a b -> (bounded w -> armed_messages a (active_messages b) w) ->
  safe False (continue_bootstrap b) (fun r w' => boot_step a r w' /\ extends w w' /\
    (r.1 <> BsFailed -> remaining r.2 <= remaining b)) w.
Proof.
  intros Hw Hb Ha. unfold continue_bootstrap. destruct (is_completed b) eqn:Hc; cbn [negb andb].
  - apply safe_ret. split_and!; [|done|done]. split; cbn [fst snd]; try done.
    unfold current_bootstrap_status. rewrite Hc. cbn [andb]. case_bool_decide; [by right; right|by right; left].
  - case_bool_decide as Hemp.
    + eapply safe_mono; [apply (next_buckets_safe a)|done|].
      * done.
      * done.
      * done.
      * by apply Hb.
      * lia.
      * intros r w' (? & ? & Hr). split_and!; [done|done|]. intros Hf. specialize (Hr Hf). lia.
    + apply safe_ret. split_and!; [|done|done]. split; cbn [fst snd]; try done.
      unfold current_bootstrap_status. rewrite Hc. cbn [andb]. by right; left.
Qed.

(** A request is taken off the list. *)
Lemma boot_wf_delete a b t : boot_wf a b -> boot_wf a (b <| active_messages := delete t (active_messages b) |>).
Proof. intros []. by split. Qed.

Lemma remaining_delete b t k :
  active_messages b !! t = Some k -> S (remaining (b <| active_messages := delete t (active_messages b) |>)) = remaining b.
Proof.
  intros Ht. unfold remaining.
  change (S (base.size (delete t (active_messages b)) + 9 * (MAX_BUCKETS - curr_bootstrap_bucket b)) =
    base.size (active_messages b) + 9 * (MAX_BUCKETS - curr_bootstrap_bucket b)).
  rewrite map_size_delete, Ht. simpl. assert (base.size (active_messages b) <> 0); [|lia].
  apply map_size_non_empty_iff. intros E. by rewrite E in Ht.
Qed.

Lemma bs_recv_response_safe a t b w :
  work_ok w -> boot_wf a b -> (bounded w -> armed_messages a (active_messages b) w) -> active_messages b <> ∅ ->
  safe False (bs_recv_response t b) (fun r w' => boot_step a r w' /\ progress a w w' /\
    (is_Some (active_messages b !! t) -> curr_bootstrap_bucket b <> 0 -> r.1 <> BsFailed -> remaining r.2 < remaining b)) w.
Proof.
  intros Hw Hb Ha Hne. unfold bs_recv_response.
  assert (Hcur : boot_step a (current_bootstrap_status b, b) w).
  { split; cbn [fst snd]; try done. unfold current_bootstrap_status. right. left.
    rewrite bool_decide_eq_false_2 by done. by rewrite andb_false_r. }
  destruct (active_messages b !! t) as [k|] eqn:Ht; [|apply safe_ret; split_and!; [done|done|by intros [? ?]]].
  destruct (Nat.eqb_spec (curr_bootstrap_bucket b) 0) as [H0|H0]; cbn [negb].
  { eapply safe_mono; [by apply (continue_bootstrap_safe a)|done|]. intros r w' (? & ? & _). by split_and!; auto. }
  eapply safe_call.
  { apply (cancel_safe a k); [done|]. intros B s Hs. destruct (Ha B t k Ht) as [Hta Hk].
    unfold pending_at in Hk, Hs. rewrite Hk in Hs. by injection Hs as <-. }
  intros [] w1 (Hw1 & Hp & Hdr & _ & Hrest). set (b1 := b <| active_messages := _ |>).
  eapply safe_mono; [apply (continue_bootstrap_safe a b1 w1)|done|].
  - done.
  - by apply boot_wf_delete.
  - intros B t' k' Ht'. change (delete t (active_messages b) !! t' = Some k') in Ht'.
    assert (Hw0 : bounded w) by (unfold bounded in *; by rewrite <- Hdr).
    apply lookup_delete_Some in Ht' as [Hnt Ht']. destruct (Ha Hw0 t' k' Ht') as [Ht1 Hk']. split; [done|].
    apply Hrest; [done| |done]. intros ->. destruct (Ha Hw0 t k Ht) as [_ Hk]. unfold pending_at in *.
    rewrite Hk in Hk'. by injection Hk'.
  - intros r w' (? & Hx & Hr). split_and!; [done|by eapply progress_extends|]. intros _ _ Hf. specialize (Hr Hf).
    pose proof (remaining_delete b t k Ht). unfold b1 in Hr. lia.
Qed.

(** The timeout of request [t] has just been taken from the timer. *)
Lemma bs_recv_timeout_safe a t b w :
  work_ok w -> boot_wf a b -> (bounded w -> armed_messages a (delete t (active_messages b)) w) -> active_messages b <> ∅ ->
  safe False (bs_recv_timeout t b) (fun r w' => boot_step a r w' /\ extends w w' /\
    (is_Some (active_messages b !! t) -> r.1 <> BsFailed -> remaining r.2 < remaining b)) w.
Proof.
  intros Hw Hb Ha Hne. unfold bs_recv_timeout. destruct (active_messages b !! t) as [k|] eqn:Ht.
  - eapply safe_mono; [apply (continue_bootstrap_safe a)|done|].
    + done.
    + by apply boot_wf_delete.
    + done.
    + intros r w' (? & Hx & Hr). split_and!; [done|done|]. intros _ Hf. specialize (Hr Hf).
      pose proof (remaining_delete b t k Ht). lia.
  - rewrite delete_id in Ha by done. apply safe_ret. split_and!; [|done|by intros [? ?]].
    split; cbn [fst snd]; try done. unfold current_bootstrap_status. right. left.
    rewrite bool_decide_eq_false_2 by done. by rewrite andb_false_r.
Qed.
End Bootstrap.

(** * Refreshes *)

Record refresh_wf (a : ActionID) (r : TableRefresh) : Prop := {
  rw_gen : gen_ok a (rf_generator r);
  rw_bucket : curr_refresh_bucket r <= MAX_BUCKETS
}.

(** The next refresh is scheduled. *)
Definition refresh_armed (a : ActionID) (w : Work) : Prop :=
  exists k t, pending_at w k (CheckTableRefresh t) /\ action_id t = a.

Section Refresh.
Context {HP : Profile} {HE : DhtEnv}.

Lemma refresh_round_safe a nodes target r w :
  work_ok w -> gen_ok a (rf_generator r) -> (0 <= send_message_num r)%Z ->
  (send_message_num r + Z.of_nat (length nodes) < 256)%Z ->
  safe False (refresh_round nodes target r) (fun s w' => work_ok w' /\ extends w w' /\
    gen_ok a (rf_generator s.2) /\ curr_refresh_bucket s.2 = curr_refresh_bucket r) w.
Proof.
  revert r w. induction nodes as [|h nodes IH]; intros r w Hw Hg H0 Hn; cbn [refresh_round length] in *.
  { by apply safe_ret. }
  eapply safe_call; [by apply (next_mid_safe a)|]. intros [t g] w1 (Hw1 & Hx1 & Hg1 & _). cbn [fst snd] in *. cbv zeta.
  apply safe_get_bind. eapply safe_call; [by apply send_safe|]. intros sent w2 (Hw2 & Hx2 & _).
  destruct sent; [|apply safe_ret; split_and!; [done|by etrans|done|done]].
  eapply safe_call; [by apply touch_safe|]. intros [] w3 [Hw3 Hx3]. cbn beta.
  eapply safe_lift_bind; [apply arith_in; unfold is_u8; simpl; lia|].
  eapply safe_mono; [apply IH|done|]; simpl; try done; try lia.
  intros s w4 (? & Hx4 & ? & ?). split_and!; [done| |done|done]. etrans; [exact Hx1|]. etrans; [exact Hx2|]. by etrans.
Qed.

(** The clock cannot go back by a quarter of an hour: the platform has no instant for
    that. *)
Definition clock_short {HE : DhtEnv} : Prop := (env_now - secs (MAX_LAST_SEEN_MINS * 60) < env_oldest)%Z.

Lemma instant_sub_back {E} d : (0 <= d <= secs (MAX_LAST_SEEN_MINS * 60))%Z ->
  (@instant_sub E env_oldest env_now d = Panic /\ clock_short) \/ @instant_sub E env_oldest env_now d = Ok (env_now - d)%Z.
Proof. intros Hd. unfold instant_sub, clock_short. destruct (Z.leb_spec env_oldest (env_now - d)); [by right|left; split; [done|lia]]. Qed.

Lemma pick_safe count nodes :
  (pick_unrequested count nodes = Panic /\ clock_short) \/ exists l, pick_unrequested count nodes = Ok l /\ length l <= count.
Proof.
  revert count. induction nodes as [|n nodes IH]; intros [|count]; cbn [pick_unrequested]; try (right; exists []; by split_and!; cbn; try lia).
  assert (Hn : (@recently_requested_from Empty_set env_oldest env_now n = Panic /\ clock_short) \/
    exists b, @recently_requested_from Empty_set env_oldest env_now n = Ok b).
  { unfold recently_requested_from. destruct (last_local_request n); [|right; by eexists].
    destruct (instant_sub_back (E := Empty_set) (secs 30)) as [[-> ?]| ->]; [by vm_compute; split|by left|right; by eexists]. }
  destruct Hn as [[-> ?]|[b ->]]; [by left|]. rewrite mbind_ok. destruct b.
  - apply IH.
  - destruct (IH count) as [[-> ?]|(l & -> & Hl)]; [by left|]. right. rewrite mbind_ok. eexists. split; [done|]. cbn. lia.
Qed.

Lemma continue_refresh_safe (R : Prop) a r w :
  (clock_short -> R) -> work_ok w -> refresh_wf a r ->
  safe R (continue_refresh r) (fun s w' => work_ok w' /\ extends w w' /\
    (s.1 <> RfFailed -> refresh_wf a s.2 /\ (bounded w' -> refresh_armed a w'))) w.
Proof.
  intros HR Hw [Hg Hc]. unfold continue_refresh, refresh_next_bucket. cbv zeta. apply safe_bind, safe_get_bind.
  set (i := if _ =? _ then 0 else _).
  assert (Hi : i < MAX_BUCKETS).
  { unfold i. destruct (Nat.eqb_spec (curr_refresh_bucket r) MAX_BUCKETS); [by apply Nat.ltb_lt|lia]. }
  destruct (flip_total (E := Empty_set) (table_id (routing_table w)) i (proj1 (wk_table _ Hw)) Hi) as [target Ht].
  eapply safe_lift_bind; [exact Ht|]. eapply safe_call; [by apply safe_sure, closest_safe|]. intros nodes ? [-> _].
  apply (safe_lift_or _ _ (fun l => length l <= REFRESH_CONCURRENCY)); [edestruct pick_safe as [[? ?]|?]; [left; split; [eassumption|auto]|right; eassumption]|].
  intros picked Hlen.
  eapply safe_mono; [apply (refresh_round_safe a)|done|].
  - done.
  - done.
  - done.
  - cbn [send_message_num]. unfold REFRESH_CONCURRENCY in Hlen. lia.
  - intros [st r1] w1 (Hw1 & Hx1 & Hg1 & Hc1). cbn [fst snd] in *. case_bool_decide as Hf; [by apply safe_ret|].
    eapply safe_call; [by apply safe_sure, (next_mid_safe a)|]. intros [t g] w2 (Hw2 & Hx2 & Hg2 & Hta & _ & _ & Hlt). cbn [fst snd] in *.
    eapply safe_call; [by apply safe_sure, schedule_safe|]. intros k w3 (Hw3 & Hx3 & _ & Hk). apply safe_ret. cbn [fst snd].
    split_and!; [done|etrans; [exact Hx1|]; by etrans|]. intros _. split.
    + split; [done|]. simpl. rewrite Hc1. simpl. lia.
    + intros B. exists k, t. split; [by apply Hk|done].
Qed.
End Refresh.

(** * A bootstrap ends *)

(** What can happen to an open request: the answer of a node, or its timeout. *)
Inductive boot_event : Type := BootAnswered (t : TransactionID) | BootTimedOut (t : TransactionID).

Definition boot_request (e : boot_event) : TransactionID :=
  match e with BootAnswered t | BootTimedOut t => t end.

Definition boot_turn {HP : Profile} {HE : DhtEnv} (e : boot_event) (b : TableBootstrap)
    : WorkM (BootstrapStatus * TableBootstrap) :=
  match e with
  | BootAnswered t => bs_recv_response t b
  | BootTimedOut t =>
      _ ← match active_messages b !! t with Some k => cancel_timeout k | None => mret tt end;
      bs_recv_timeout t b
  end.

(** The bootstrap goes on through a sequence of events about open requests.
    Answers to the first message leave it where it is: the first bucket is begun
    by its timeout. *)
Definition boot_open (e : boot_event) (b : TableBootstrap) : Prop :=
  is_Some (active_messages b !! boot_request e) /\
  (forall t, e = BootAnswered t -> curr_bootstrap_bucket b <> 0).

Inductive bootstraps {HP : Profile} : TableBootstrap -> Work -> list (DhtEnv * boot_event) -> TableBootstrap -> Work -> Prop :=
  | bootstraps_nil b w : bootstraps b w [] b w
  | bootstraps_cons b w env e b1 w1 es b2 w2 :
      boot_open e b -> @boot_turn HP env e b w = (Ok (BsBootstrapping, b1), w1) ->
      bootstraps b1 w1 es b2 w2 -> bootstraps b w ((env, e) :: es) b2 w2.

Section Ends.
Context {HP : Profile}.

Lemma boot_turn_safe (env : DhtEnv) a e b w :
  work_ok w -> boot_wf a b -> (bounded w -> armed_messages a (active_messages b) w) -> boot_open e b ->
  safe False (@boot_turn HP env e b) (fun r w' => boot_step a r w' /\ (r.1 <> BsFailed -> remaining r.2 < remaining b)) w.
Proof.
  intros Hw Hb Ha [[k Ht] H0]. assert (Hne : active_messages b <> ∅) by (intros E; by rewrite E in Ht).
  destruct e as [t|t]; cbn [boot_request boot_turn] in *.
  - eapply safe_mono; [by apply (bs_recv_response_safe a t b w)|done|]. intros r w' (? & _ & Hr).
    split; [done|]. apply Hr; [by eexists|by eapply H0].
  - rewrite Ht. eapply safe_call.
    { apply (cancel_safe a k w Hw). intros B s Hs. destruct (Ha B t k Ht) as [Hta Hk].
      unfold pending_at in Hk, Hs. rewrite Hk in Hs. by injection Hs as <-. }
    intros [] w1 (Hw1 & _ & Hdr & _ & Hrest).
    eapply safe_mono; [apply (bs_recv_timeout_safe a t b w1); [done|done| |done]|done|].
    + intros B t' k' [Hnt Ht']%lookup_delete_Some. assert (Hw0 : bounded w) by (unfold bounded in *; by rewrite <- Hdr).
      destruct (Ha Hw0 t' k' Ht') as [? Hk']. split; [done|]. apply Hrest; [done| |done]. intros ->.
      destruct (Ha Hw0 t k Ht) as [_ Hk]. unfold pending_at in *. rewrite Hk in Hk'. by injection Hk'.
    + intros r w' (? & _ & Hr). split; [done|]. apply Hr. by eexists.
Qed.

Lemma bootstraps_bounded a b w es b' w' :
  bootstraps b w es b' w' ->
  work_ok w -> boot_wf a b -> (bounded w -> armed_messages a (active_messages b) w) ->
  work_ok w' /\ boot_wf a b' /\ (bounded w' -> armed_messages a (active_messages b') w') /\
  length es + remaining b' <= remaining b.
Proof.
  induction 1 as [b w|b w env e b1 w1 es b2 w2 Ho Hstep Hrun IH]; intros Hw Hb Ha; [by split_and!|].
  destruct (safe_run _ _ _ _ _ _ (boot_turn_safe env a e b w Hw Hb Ha Ho) Hstep) as [[G1 G2 G3 _] Hr].
  destruct (IH G1 G2 G3) as (? & ? & ? & ?). specialize (Hr ltac:(done)). cbn [snd length] in *. split_and!; try done. lia.
Qed.

(** C22. A bootstrap ends: once its first messages are sent, whatever is answered
    or timed out and in whatever order, it has gone on through at most 1441 ends
    of open requests.  Every such event is handled without a panic, whatever the
    table holds, and as long as the bootstrap goes on a request is open. *)
Theorem bootstrap_ends (a : ActionID) (env : DhtEnv) (b b1 b2 : TableBootstrap) (w w1 w2 : Work) (st : BootstrapStatus)
    (es : list (DhtEnv * boot_event)) :
  work_ok w -> gen_ok a (bs_generator b) -> length (hash (bs_table_id b)) = SHA_HASH_LEN ->
  @start_bootstrap HP env b w = (Ok (st, b1), w1) -> bootstraps b1 w1 es b2 w2 ->
  length es <= 1441 /\
  (forall env' e, boot_open e b2 -> exists st' b3 w3, @boot_turn HP env' e b2 w2 = (Ok (st', b3), w3) /\
    (st' = BsBootstrapping -> active_messages b3 <> ∅)).
Proof.
  intros Hw Hg Hid Hstart Hrun.
  destruct (safe_run _ _ _ _ _ _ (start_bootstrap_safe a b w Hw Hg Hid) Hstart) as ([G1 G2 G3 _] & _ & _ & _ & Hrem).
  destruct (bootstraps_bounded a _ _ _ _ _ Hrun G1 G2 G3) as (Hw2 & Hb2 & Ha2 & Hlen). cbn [snd] in *. split.
  - change MAX_BUCKETS with 160 in Hrem. lia.
  - intros env' e Ho. destruct (safe_False _ _ _ (boot_turn_safe env' a e b2 w2 Hw2 Hb2 Ha2 Ho)) as ([st' b3] & w3 & E & [_ _ _ Hst] & _).
    exists st', b3, w3. split; [done|]. cbn [fst snd] in Hst. intros ->. by destruct Hst as [?|[[_ ?]|[? _]]].
Qed.
End Ends.

(** * Sample *)

(** A bootstrap from one node, with a questionable node in the table; its first
    request times out. *)
Definition sample_boot_work : Work :=
  match @as_questionable Empty_set (- secs 86400) 0 {| hash := 128%Z :: replicate 19 0%Z |} (SockV4 {| v4_ip := Ipv4 10 0 0 7; v4_port := 6881 |}) with
  | Ok n => (@add_node (sample_env 0) n empty_work).2
  | _ => empty_work
  end.
Definition sample_boot : TableBootstrap :=
  @TableBootstrap_new (sample_env 0) zero_hash sample_generator
    [SockV4 {| v4_ip := Ipv4 10 0 0 9; v4_port := 6881 |}] [].
Notation sample_boot_start := (@start_bootstrap true (sample_env 0) sample_boot sample_boot_work).
Definition sample_booted : TableBootstrap := match sample_boot_start.1 with Ok (_, b) => b | _ => sample_boot end.
Definition sample_boot_event : boot_event :=
  BootTimedOut match map_to_list (active_messages sample_booted) with (t, _) :: _ => t | [] => TransactionID_new 0 end.
Notation sample_boot_turn := (@boot_turn true (sample_env 3000000000) sample_boot_event sample_booted sample_boot_start.2).
Definition sample_boot_next : TableBootstrap := match sample_boot_turn.1 with Ok (_, b) => b | _ => sample_boot end.

Lemma sample_boot_work_ok : work_ok sample_boot_work.
Proof.
  unfold sample_boot_work. cbn [as_questionable]. set (r := as_questionable _ _ _ _). vm_compute in r. subst r. cbv beta iota. set (n := {| handle := _ |}).
  destruct (safe_False _ _ _ (@add_node_safe (sample_env 0) n empty_work empty_work_ok (conj I eq_refl))) as ([] & w & E & Hw & _).
  by rewrite E.
Qed.

Lemma sample_boot_runs :
  sample_boot_start = (Ok (BsBootstrapping, sample_booted), sample_boot_start.2) /\
  bool_decide (is_Some (active_messages sample_booted !! boot_request sample_boot_event)) = true /\
  sample_boot_turn = (Ok (BsBootstrapping, sample_boot_next), sample_boot_turn.2).
Proof. by vm_compute. Qed.

Lemma bootstrap_ends_witness :
  length [(sample_env 3000000000, sample_boot_event)] <= 1441 /\
  (forall env' e, boot_open e sample_boot_next -> exists st' b3 w3,
    @boot_turn true env' e sample_boot_next sample_boot_turn.2 = (Ok (st', b3), w3) /\
    (st' = BsBootstrapping -> active_messages b3 <> ∅)).
Proof.
  destruct sample_boot_runs as (H1 & H2 & H3).
  refine (@bootstrap_ends true {| act_id := 3 |} (sample_env 0) sample_boot sample_booted sample_boot_next sample_boot_work
    sample_boot_start.2 sample_boot_turn.2 BsBootstrapping [(sample_env 3000000000, sample_boot_event)]
    sample_boot_work_ok sample_generator_ok eq_refl H1 _).
  refine (bootstraps_cons _ _ _ _ _ _ _ _ _ (conj (bool_decide_eq_true_1 _ H2) _) H3 (bootstraps_nil _ _)).
  intros t Ht. discriminate Ht.
Defined.
