(* ===== verification/DhtHandlerCorrect.v ===== *)
(** DhtHandlerCorrect: the DHT worker keeps its actions alive.

    [handler_ok] is the invariant of the worker: the shared parts are well formed
    and, unless it has shut down, every lookup, bootstrap and refresh has a
    timeout pending.  Every turn keeps it; the reasons for which a turn can panic
    are [turn_panics]. *)

From stdpp Require Import base list gmap.
From Stdlib Require Import ZArith Lia.
From S2P Require Import Prelude OrdMap Bencode BencodeCorrect Convert ShaHash Effects Routing RoutingCorrect RoutingClosest Timer.
From S2P Require Import TransIds DhtToken DhtStorage DhtMessage DhtMessageCorrect DhtWork DhtLookup DhtBootstrap DhtHandler.
From S2P Require Import DhtWorkCorrect DhtLookupCorrect DhtBootstrapCorrect.

(** * Invariant *)

Definition action_ok (a : ActionID) (act : TableAction) (w : Work) : Prop :=
  match act with
  | TaLookup l => lookup_ok a l w
  | TaRefresh r => refresh_wf a r /\ (bounded w -> refresh_armed a w)
  | TaBootstrap b _ =>
      boot_wf a b /\ (bounded w -> armed_messages a (active_messages b) w) /\ active_messages b <> ∅
  end.

Definition future_ok (p : PostBootstrapAction) : Prop :=
  match p with PbLookup _ _ _ => True | PbRefresh r t => refresh_wf (action_id t) r end.

Record base_ok (h : DhtHandler) : Prop := {
  hk_work : work_ok (work h);
  hk_aids : block_ok MAX_ACTION_ID (aid_generator h);
  hk_future : Forall future_ok (future_actions h)
}.

(** The actions other than [a] are in order. *)
Definition others_ok (a : ActionID) (h : DhtHandler) : Prop :=
  forall b act, b <> a -> table_actions h !! b = Some act -> action_ok b act (work h).
Definition actions_ok (h : DhtHandler) : Prop :=
  forall b act, table_actions h !! b = Some act -> action_ok b act (work h).

Record handler_ok (h : DhtHandler) : Prop := {
  hk_base : base_ok h;
  hk_actions : dht_status h <> StFail -> actions_ok h
}.

(** The timeouts of action [b] stay pending. *)
Record keeps_timeouts (b : ActionID) (w w' : Work) : Prop := {
  kt_draws : draws w <= draws w';
  kt_pending : bounded w' -> forall k s, pending_at w k s -> action_id (task_id s) = b -> pending_at w' k s
}.

Lemma extends_keeps b w w' : extends w w' -> keeps_timeouts b w w'.
Proof. intros [D _ P]. split; auto. Qed.
Lemma progress_keeps a b w w' : progress a w w' -> b <> a -> keeps_timeouts b w w'.
Proof. intros [D _ P] Hne. split; [done|]. intros B k s Hk Hs. apply P; [done|done|congruence]. Qed.

Lemma action_ok_keeps b act w w' : keeps_timeouts b w w' -> action_ok b act w -> action_ok b act w'.
Proof.
  intros [D P]. assert (HB : bounded w' -> bounded w) by (apply bounded_le, D). destruct act as [l|r|m n]; cbn [action_ok].
  - intros [Hwf Ha]. split; [done|]. intros B. specialize (Ha (HB B)). unfold armed in *. destruct (in_endgame l).
    + destruct Ha as (k & t & ? & ?). exists k, t. split; [|done]. by apply P.
    + destruct Ha as [? Ha]. split; [done|]. intros t d k Ht. destruct (Ha t d k Ht). split; [done|]. by apply P.
  - intros [? Ha]. split; [done|]. intros B. destruct (Ha (HB B)) as (k & t & ? & ?). exists k, t. split; [|done]. by apply P.
  - intros (? & Ha & ?). split_and!; [done| |done]. intros B t k Ht. destruct (Ha (HB B) t k Ht). split; [done|]. by apply P.
Qed.

Lemma actions_ok_extends h h' :
  table_actions h' = table_actions h -> extends (work h) (work h') -> actions_ok h -> actions_ok h'.
Proof.
  intros Ht Hx Ha b act Hb. rewrite Ht in Hb. eapply action_ok_keeps; [by apply extends_keeps|by apply Ha].
Qed.

Lemma others_ok_progress a h h' :
  table_actions h' = table_actions h -> progress a (work h) (work h') -> others_ok a h -> others_ok a h'.
Proof.
  intros Ht Hx Ha b act Hne Hb. rewrite Ht in Hb. eapply action_ok_keeps; [by eapply progress_keeps|by apply Ha].
Qed.

(** Setting or removing the action that was left out. *)
Lemma set_action_ok a act h : others_ok a h -> action_ok a act (work h) ->
  actions_ok (h <| table_actions := <[a := act]> (table_actions h) |>).
Proof.
  intros Ho Ha b act' Hb. change (<[a := act]> (table_actions h) !! b = Some act') in Hb.
  apply lookup_insert_Some in Hb as [(<- & <-)|[? ?]]; [done|]. by apply Ho.
Qed.
Lemma remove_action_ok a h : others_ok a h -> actions_ok (h <| table_actions := delete a (table_actions h) |>).
Proof.
  intros Ho b act Hb. change (delete a (table_actions h) !! b = Some act) in Hb.
  apply lookup_delete_Some in Hb as [? ?]. by apply Ho.
Qed.
Lemma actions_others a h : actions_ok h -> others_ok a h.
Proof. intros Ha b act _. apply Ha. Qed.

(** What telling clients leaves alone. *)
Record quiet (h h' : DhtHandler) : Prop := {
  qt_work : work h' = work h;
  qt_aids : aid_generator h' = aid_generator h;
  qt_future : future_actions h' = future_actions h;
  qt_table : table_actions h' = table_actions h;
  qt_status : dht_status h' = dht_status h
}.

#[global] Instance quiet_preorder : PreOrder quiet.
Proof. split; [by intros h|]. intros h1 h2 h3 [] []. split; congruence. Qed.

Lemma quiet_base h h' : quiet h h' -> base_ok h -> base_ok h'.
Proof. intros [Hw Ha Hf _ _] []. split; congruence. Qed.
Lemma quiet_others a h h' : quiet h h' -> others_ok a h -> others_ok a h'.
Proof. intros [Hw _ _ Ht _] Ho b act. rewrite Hw, Ht. apply Ho. Qed.
Lemma quiet_ok h h' : quiet h h' -> handler_ok h -> handler_ok h'.
Proof.
  intros Hq [Hb Ha]. split; [by eapply quiet_base|]. destruct Hq as [Hw _ _ Ht Hs]. rewrite Hs. intros Hst b act.
  rewrite Ht, Hw. by apply Ha.
Qed.

(** What a turn can fail at from outside. *)
Definition env_fails {HE : DhtEnv} : Prop := (exists c, env_alive c = false) \/ clock_short.

(** * Telling clients *)

Section Handler.
Context {HP : Profile} {HB : BinarySearch} {HS : Sha1} {HE : DhtEnv}.
Context (R : Prop) (HR : env_fails -> R).

Lemma safe_on_work {A} (m : WorkM A) (Q : A -> DhtHandler -> Prop) h :
  safe R m (fun a w => Q a (h <| work := w |>)) (work h) -> safe R (on_work m) Q h.
Proof. unfold safe, on_work. destruct (m (work h)) as [[a|e| |] w]; try done. Qed.

Lemma send_client_safe c m h : safe R (send_client c m) (fun _ => quiet h) h.
Proof. by apply safe_modify. Qed.

Lemma send_expect_safe c m h : safe R (send_expect c m) (fun _ => quiet h) h.
Proof.
  unfold send_expect. destruct (env_alive c) eqn:Hc; [apply send_client_safe|]. apply safe_panic, HR. left. by exists c.
Qed.

Lemma answer_status_safe b h : safe R (answer_status b) (fun _ => quiet h) h.
Proof.
  unfold answer_status. apply safe_get_bind. eapply (safe_call _ _ _ (fun _ => quiet h)).
  - apply (safe_for_each _ _ _ (quiet h)); [|done]. intros c s _ Hs.
    eapply safe_mono; [apply send_expect_safe|done|]. intros ? s' Hs'. by etrans.
  - intros [] h1 Hq. apply safe_modify. by destruct Hq.
Qed.

Lemma broadcast_safe e h : safe R (broadcast_dht_event e) (fun _ => quiet h) h.
Proof.
  unfold broadcast_dht_event. apply safe_get_bind. cbv zeta. eapply (safe_call _ _ _ (fun _ => quiet h)).
  - apply (safe_for_each _ _ _ (quiet h)); [|done]. intros c s _ Hs.
    eapply safe_mono; [apply send_client_safe|done|]. intros ? s' Hs'. by etrans.
  - intros [] h1 Hq. apply safe_modify. by destruct Hq.
Qed.

Lemma shutdown_safe cause h :
  base_ok h -> safe R (handle_command_shutdown cause) (fun _ h' => handler_ok h' /\ dht_status h' = StFail) h.
Proof.
  intros Hb. unfold handle_command_shutdown. eapply safe_call; [apply answer_status_safe|]. intros [] h1 Q1.
  eapply safe_call; [apply broadcast_safe|]. intros [] h2 Q2. apply safe_modify.
  assert (Hb2 : base_ok h2) by (eapply quiet_base; [etrans; [exact Q1|exact Q2]|done]).
  split; [|done]. split; [by destruct Hb2|]. intros Hf. by destruct (Hf eq_refl).
Qed.

Lemma shutdown_ok cause h : base_ok h -> safe R (handle_command_shutdown cause) (fun _ => handler_ok) h.
Proof. intros Hb. eapply safe_mono; [by apply shutdown_safe|done|]. by intros ? ? []. Qed.

Lemma count_status_safe s h : base_ok h -> safe R (count_status s) (fun _ h' => h' = h) h.
Proof.
  intros [Hw _ _]. unfold count_status, num_with_status. apply safe_get_bind.
  destruct (closest_collect_all (E := Empty_set) env_now (routing_table (work h)) (table_id (routing_table (work h)))
    (wk_table _ Hw)) as (o & l & _ & _ & Hl & _).
  eapply safe_lift; [by rewrite Hl|done].
Qed.

Lemma next_aid_safe h :
  base_ok h -> safe R next_aid (fun g h' => base_ok h' /\ extends (work h) (work h') /\
    gen_ok (MIDGenerator_action_id g) g /\ routing_table (work h') = routing_table (work h) /\
    table_actions h' = table_actions h /\ dht_status h' = dht_status h /\ future_actions h' = future_actions h) h.
Proof.
  intros [[Ht Hv Hm] Ha Hf]. unfold next_aid. apply safe_get_bind.
  destruct (aid_generate_ok (E := Empty_set) (env_rng (draws (work h))) (aid_generator h) Ha) as (g & aids & Hg & Ha' & Hgo).
  eapply safe_lift_bind; [exact Hg|]. cbn beta iota. apply safe_modify_bind, safe_ret.
  assert (HB' : bounded (work h <| draws := S (draws (work h)) |>) -> bounded (work h)) by (unfold bounded; simpl; lia).
  split_and!; try done.
  - split; [|done|done]. split; [done..|]. simpl. intros B. destruct (Hm (HB' B)). split; [done|lia].
  - split; simpl; [lia|done|done].
Qed.

(** * Starting actions *)

Lemma start_lookup_safe info_hash ann c h :
  handler_ok h -> safe R (handle_start_lookup info_hash ann c) (fun _ => handler_ok) h.
Proof.
  intros [Hb Ha]. unfold handle_start_lookup.
  eapply safe_call; [by apply next_aid_safe|]. intros g h1 (Hb1 & Hx & Hg & _ & Ht & Hst & Hf). cbv zeta.
  assert (Ha1 : dht_status h1 <> StFail -> actions_ok h1).
  { rewrite Hst. intros Hne. by apply (actions_ok_extends h); auto. }
  apply safe_get_bind. case_bool_decide as Hc.
  - apply safe_modify. destruct Hb1 as [? ? Hfu]. split; [|done]. split; [done|done|].
    apply Forall_app. split; [done|]. by repeat constructor.
  - assert (Hne : dht_status h1 <> StFail) by (intros E; by rewrite E in Hc).
    eapply safe_call.
    { apply (safe_on_work _ (fun o h2 => work_ok (work h2) /\ extends (work h1) (work h2) /\
        (forall l, o = Some l -> lookup_ok (MIDGenerator_action_id g) l (work h2)) /\
        h2 = h1 <| work := work h2 |>)).
      eapply safe_mono; [apply (TableLookup_new_safe (MIDGenerator_action_id g)); [apply Hb1|done]|done|].
      intros o w2 (Hw2 & Hx2 & Hl). split_and!; [done|done| |done]. intros l Ho. by apply Hl. }
    intros o h2 (Hw2 & Hx2 & Hl & E2). assert (Hb2 : base_ok h2) by (rewrite E2; destruct Hb1; by split).
    destruct o as [l|]; [|by apply shutdown_ok]. apply safe_modify. split; [by destruct Hb2|]. intros _.
    apply set_action_ok; [|by apply Hl]. apply actions_others. apply (actions_ok_extends h1); [by rewrite E2|done|auto].
Qed.

Lemma start_bootstrap_command_safe routers nodes h :
  handler_ok h -> dht_status h <> StFail -> safe R (handle_start_bootstrap routers nodes) (fun _ => handler_ok) h.
Proof.
  intros [Hb Ha] Hne. unfold handle_start_bootstrap.
  eapply safe_call; [by apply next_aid_safe|]. intros g h1 (Hb1 & Hx & Hg & _ & Ht & Hst & Hf). cbv zeta.
  apply safe_get_bind. set (b := TableBootstrap_new _ _ _ _).
  eapply (safe_call _ _ _ (fun _ h2 => base_ok h2 /\ work h2 = work h1 /\ table_actions h2 = table_actions h1)).
  { unfold when. case_bool_decide; [apply safe_modify|apply safe_ret]; split_and!; try done. by destruct Hb1. }
  intros [] h2 (Hb2 & Hw2 & Ht2). eapply safe_call.
  { apply (safe_on_work _ (fun r h3 => boot_step (MIDGenerator_action_id g) r (work h3) /\ extends (work h2) (work h3) /\
      active_messages r.2 <> ∅ /\ h3 = h2 <| work := work h3 |>)).
    eapply safe_mono; [apply (start_bootstrap_safe (MIDGenerator_action_id g) b)|done|].
    - apply Hb2.
    - done.
    - apply (wk_table _ (hk_work _ Hb1)).
    - by intros r w3 (? & ? & ? & ? & _). }
  intros [st b3] h3 (Hs & Hx3 & Hne3 & E3). cbn [fst snd] in *.
  assert (Hb3 : base_ok h3) by (rewrite E3; destruct Hb2, Hs; by split).
  case_bool_decide as Hf3; [by apply shutdown_ok|]. apply safe_modify. split; [by destruct Hb3|]. intros _.
  destruct Hs as [_ Hwf Harm _]. apply set_action_ok; [|by split_and!].
  apply actions_others, (actions_ok_extends h2); [by rewrite E3|done|].
  apply (actions_ok_extends h1); [done|by rewrite Hw2|]. apply (actions_ok_extends h); auto.
Qed.

(** * Refreshes *)

Lemma table_refresh_safe t r h :
  base_ok h -> (dht_status h <> StFail -> others_ok (action_id t) h) ->
  table_actions h !! action_id t = Some (TaRefresh r) -> refresh_wf (action_id t) r ->
  safe R (handle_check_table_refresh t) (fun _ => handler_ok) h.
Proof.
  intros Hb Ho Ht Hr. unfold handle_check_table_refresh. apply safe_get_bind. rewrite Ht. eapply safe_call.
  { apply (safe_on_work _ (fun s h1 => work_ok (work h1) /\ extends (work h) (work h1) /\
      (s.1 <> RfFailed -> refresh_wf (action_id t) s.2 /\ (bounded (work h1) -> refresh_armed (action_id t) (work h1))) /\
      h1 = h <| work := work h1 |>)).
    eapply safe_mono; [apply (continue_refresh_safe R (action_id t)); [intros ?; apply HR; by right|apply Hb|done]|done|].
    by intros s w1 (? & ? & ?). }
  intros [st r1] h1 (Hw1 & Hx & Hs & E1). cbn [fst snd] in *. apply safe_modify_bind.
  assert (Hb1 : base_ok h1) by (rewrite E1; destruct Hb; by split).
  case_bool_decide as Hf; [apply shutdown_ok; by destruct Hb1|]. apply safe_ret. destruct (Hs Hf) as [Hwf Harm].
  split; [by destruct Hb1|]. intros Hst. apply set_action_ok; [|by split].
  apply (others_ok_progress _ h); [by rewrite E1|by apply extends_progress|]. apply Ho. rewrite E1 in Hst. exact Hst.
Qed.

(** * Bootstraps *)

Lemma start_future_safe p h :
  future_ok p -> handler_ok h -> safe R (start_future_action p) (fun _ => handler_ok) h.
Proof.
  intros Hp Hh. destruct p as [ih ann c|r t]; cbn [start_future_action]; [by apply start_lookup_safe|].
  apply safe_modify_bind. destruct Hh as [[? ? ?] Ha].
  apply (table_refresh_safe t r); [by split| |apply lookup_insert_eq|done].
  intros Hst b act Hne Hb. change (<[action_id t := TaRefresh r]> (table_actions h) !! b = Some act) in Hb.
  rewrite lookup_insert_ne in Hb by done. by apply Ha.
Qed.

Lemma completed_safe a h :
  base_ok h -> others_ok a h -> safe R (broadcast_bootstrap_completed a) (fun _ => handler_ok) h.
Proof.
  intros Hb Ho. unfold broadcast_bootstrap_completed. apply safe_modify_bind.
  set (h0 := h <| dht_status := StCompleted |>).
  assert (Hb0 : base_ok h0) by (destruct Hb; by split). assert (Ho0 : others_ok a h0) by exact Ho.
  eapply safe_call; [apply answer_status_safe|]. intros [] h1 Q1.
  eapply safe_call; [apply broadcast_safe|]. intros [] h2 Q2. assert (Q : quiet h0 h2) by (by etrans).
  apply safe_modify_bind. set (h3 := h2 <| table_actions := _ |>). apply safe_get_bind, safe_modify_bind.
  assert (Hb2 : base_ok h2) by (by eapply quiet_base). destruct Hb2 as [? ? Hfu].
  apply (safe_for_each _ _ _ handler_ok).
  - intros p s Hp Hs. apply start_future_safe; [|done]. rewrite Forall_forall in Hfu. by apply Hfu.
  - split; [by split|]. intros _. apply (remove_action_ok a h2). by eapply quiet_others.
Qed.

Lemma rebootstrap_safe t b n h :
  base_ok h -> others_ok (action_id t) h -> table_actions h !! action_id t = None ->
  boot_wf (action_id t) b -> dht_status h <> StFail ->
  safe R (attempt_rebootstrap b n t) (fun o h' => handler_ok h' /\
    (o = Some true -> base_ok h' /\ others_ok (action_id t) h')) h.
Proof.
  intros Hb Ho Hnone Hwf Hst. unfold attempt_rebootstrap. cbv zeta.
  match goal with |- safe _ (if ?c then _ else _) _ _ => destruct c end.
  - eapply safe_call; [by apply count_status_safe|]. intros good ? ->. destruct (good =? 0).
    + eapply safe_call; [by apply shutdown_ok|]. intros [] h1 Hh. by apply safe_ret.
    + apply safe_ret. split; [|done]. split; [done|]. intros _ b' act Hb'. apply Ho; [|done].
      intros ->. by rewrite Hnone in Hb'.
  - eapply safe_call.
    { apply (safe_on_work _ (fun r h1 => boot_step (action_id t) r (work h1) /\ extends (work h) (work h1) /\
        active_messages r.2 <> ∅ /\ h1 = h <| work := work h1 |>)).
      eapply safe_mono; [apply (start_bootstrap_safe (action_id t) b)|done|].
      - apply Hb.
      - apply Hwf.
      - apply Hwf.
      - by intros r w3 (? & ? & ? & ? & _). }
    intros [st b1] h1 (Hs & Hx & Hne & E1). cbn [fst snd] in *. apply safe_modify_bind.
    assert (Hb1 : base_ok h1) by (rewrite E1; destruct Hb, Hs; by split).
    set (h2 := h1 <| table_actions := _ |>). assert (Hb2 : base_ok h2) by (by destruct Hb1).
    case_bool_decide as Hf.
    + eapply safe_call; [by apply shutdown_ok|]. intros [] h3 Hh. by apply safe_ret.
    + apply safe_ret. split; [|done]. split; [done|]. intros _. destruct Hs as [_ ? ? _].
      apply set_action_ok; [|by split_and!]. apply (others_ok_progress _ h); [by rewrite E1|by apply extends_progress|done].
Qed.

(** After a step of the bootstrap under the action of [t]. *)
Lemma after_bootstrap_safe st t b n h :
  base_ok h -> others_ok (action_id t) h -> dht_status h <> StFail ->
  table_actions h !! action_id t = Some (TaBootstrap b n) -> boot_step (action_id t) (st, b) (work h) ->
  safe R (after_bootstrap st t) (fun _ => handler_ok) h.
Proof.
  intros Hb Ho Hst Ht [_ Hwf Harm Hs]. cbn [fst snd] in *. unfold after_bootstrap.
  eapply (safe_call _ _ _ (fun c h1 => if c : bool then base_ok h1 /\ others_ok (action_id t) h1 else handler_ok h1)).
  2:{ intros c h1 Hc. unfold when. destruct c; [|by apply safe_ret]. destruct Hc. by apply completed_safe. }
  destruct st.
  - apply safe_ret. split; [done|]. intros _ b' act Hb'. destruct (decide (b' = action_id t)) as [->|Hne]; [|by apply Ho].
    rewrite Ht in Hb'. injection Hb' as <-. split_and!; [done|done|]. by destruct Hs as [?|[[_ ?]|[? _]]].
  - eapply (safe_call _ _ _ (fun _ h1 => h1 = h)).
    { unfold nood_to_less. eapply safe_call; [by apply count_status_safe|]. intros good ? ->. by apply safe_ret. }
    intros less ? ->. destruct less; [|by apply safe_ret].
    apply safe_get_bind. cbv zeta. rewrite Ht. apply safe_modify_bind.
    eapply safe_call.
    { apply (rebootstrap_safe t b n); [by destruct Hb| |apply lookup_delete_eq|done|done].
      apply actions_others. by apply remove_action_ok. }
    intros o h1 [Hh1 Hr]. apply safe_ret. case_bool_decide as Ho1; [by apply Hr|done].
  - eapply safe_call; [by apply shutdown_ok|]. intros [] h1 Hh. by apply safe_ret.
Qed.

(** * Timeouts *)

(** Task [s] has been taken from the timer. *)
Record popped (s : ScheduledTask) (w w' : Work) : Prop := {
  pp_draws : draws w' = draws w;
  pp_rest : bounded w -> forall k s', pending_at w k s' -> pending_at w' k s' \/ s' = s
}.

(** The task is a timeout of an action of this kind. *)
Definition serves (s : ScheduledTask) (act : TableAction) : Prop :=
  match s, act with
  | CheckTableRefresh _, TaRefresh _ | CheckBootstrapTimeout _, TaBootstrap _ _
  | CheckLookupTimeout _, TaLookup _ | CheckLookupEndGame _, TaLookup _ => True
  | _, _ => False
  end.

Lemma popped_bounded s w w' : popped s w w' -> bounded w' -> bounded w.
Proof. intros [Hd _]. unfold bounded. by rewrite Hd. Qed.

Lemma popped_other s w w' b act :
  popped s w w' -> b <> action_id (task_id s) -> action_ok b act w -> action_ok b act w'.
Proof.
  intros Hp Hne. apply action_ok_keeps. destruct Hp as [Hd Hr]. split; [lia|]. intros B k s' Hk Hs.
  unfold bounded in B. rewrite Hd in B. destruct (Hr B k s' Hk) as [?| ->]; [done|]. congruence.
Qed.

Lemma popped_unserved s w w' b act :
  popped s w w' -> ~ serves s act -> action_ok b act w -> action_ok b act w'.
Proof.
  intros Hp Hns. pose proof (popped_bounded s w w' Hp) as HBw. destruct Hp as [_ Hr].
  assert (Hk : bounded w' -> forall k s', pending_at w k s' -> s' <> s -> pending_at w' k s').
  { intros B k s' Hk Hne. by destruct (Hr (HBw B) k s' Hk). }
  destruct act as [l|r|m n]; cbn [action_ok].
  - intros [Hwf Ha]. split; [done|]. intros B. specialize (Ha (HBw B)). unfold armed in *. destruct (in_endgame l).
    + destruct Ha as (k & t & ? & ?). exists k, t. split; [|done]. apply Hk; [done..|]. by intros <-.
    + destruct Ha as [? Ha]. split; [done|]. intros t d k Ht. destruct (Ha t d k Ht). split; [done|]. apply Hk; [done..|]. by intros <-.
  - intros [? Ha]. split; [done|]. intros B. destruct (Ha (HBw B)) as (k & t & ? & ?). exists k, t. split; [|done].
    apply Hk; [done..|]. by intros <-.
  - intros (? & Ha & ?). split_and!; [done| |done]. intros B t k Ht. destruct (Ha (HBw B) t k Ht). split; [done|].
    apply Hk; [done..|]. by intros <-.
Qed.

Lemma poll_safe w s t' :
  work_ok w -> poll_next env_now (timer w) = (Ready (Some s), t') ->
  work_ok (w <| timer := t' |>) /\ popped s w (w <| timer := t' |>).
Proof.
  intros [Ht Hv Hm] Hp. pose proof (poll_spec env_now (timer w)) as Hs. rewrite Hp in Hs.
  destruct (contents (timer w)) as [|[k v] rest] eqn:Hc; [done|].
  destruct (k.1 <=? env_now)%Z; destruct Hs as (t1 & [= <- <-] & Hrest & Hn).
  split; [split; [done..|]|split; [done|]].
  - simpl. intros B. destruct (Hm B) as [Hok Hle]. split; [|by rewrite Hn].
    pose proof (poll_ok env_now (timer w) Hok) as Hok'. by rewrite Hp in Hok'.
  - intros B k' s' Hk. unfold pending_at in *. simpl. destruct (Hm B) as [(Ho & _) _]. rewrite Hc in Ho, Hk.
    apply btree_get_Some in Hk; [|done]. apply ordered_cons in Ho as [_ Ho].
    apply elem_of_cons in Hk as [[= -> ->]|Hk]; [by right|]. left. rewrite Hrest. by apply btree_get_Some.
Qed.

Lemma poll_pending_safe w t' :
  work_ok w -> poll_next env_now (timer w) = (Pending, t') ->
  work_ok (w <| timer := t' |>) /\ extends w (w <| timer := t' |>).
Proof.
  intros [Ht Hv Hm] Hp. pose proof (poll_spec env_now (timer w)) as Hs. rewrite Hp in Hs.
  destruct (contents (timer w)) as [|[k v] rest] eqn:Hc; [done|].
  destruct (k.1 <=? env_now)%Z; destruct Hs as (t1 & Ht1 & Hrest & Hn); [done|]. injection Ht1 as <-.
  split; [split; [done..|]|split; [done|done|]].
  - simpl. intros B. destruct (Hm B) as [Hok Hle]. split; [|by rewrite Hn].
    pose proof (poll_ok env_now (timer w) Hok) as Hok'. by rewrite Hp in Hok'.
  - intros B k' s' Hk. unfold pending_at in *. simpl. by rewrite Hrest, <- Hc.
Qed.

(** The state in which a timeout is handled: [w0] is what the shared parts were
    before it was taken from the timer. *)
Record due (s : ScheduledTask) (w0 : Work) (h : DhtHandler) : Prop := {
  du_base : base_ok h;
  du_status : dht_status h <> StFail;
  du_popped : popped s w0 (work h);
  du_actions : forall b act, table_actions h !! b = Some act -> action_ok b act w0
}.

Lemma due_others s w0 h : due s w0 h -> others_ok (action_id (task_id s)) h.
Proof. intros [_ _ Hp Ha] b act Hne Hb. eapply popped_other; [exact Hp|done|by apply Ha]. Qed.

(** No action of the right kind: nothing is done. *)
Lemma due_unserved s w0 h :
  due s w0 h -> (forall act, table_actions h !! action_id (task_id s) = Some act -> ~ serves s act) -> handler_ok h.
Proof.
  intros Hd Hn. split; [apply Hd|]. intros _ b act Hb. destruct (decide (b = action_id (task_id s))) as [->|Hne].
  - eapply popped_unserved; [apply Hd|by apply Hn|by apply Hd].
  - by eapply due_others.
Qed.

Lemma due_wrong s w0 h act :
  due s w0 h -> table_actions h !! action_id (task_id s) = Some act -> ~ serves s act -> handler_ok h.
Proof. intros Hd Ht Hn. eapply due_unserved; [exact Hd|]. intros act' Ha. rewrite Ht in Ha. by injection Ha as <-. Qed.

Lemma bootstrap_timeout_safe t w0 h :
  due (CheckBootstrapTimeout t) w0 h -> safe R (handle_check_bootstrap_timeout t) (fun _ => handler_ok) h.
Proof.
  intros Hd. unfold handle_check_bootstrap_timeout. apply safe_get_bind.
  destruct (table_actions h !! action_id t) as [act|] eqn:Ht.
  2:{ apply safe_ret. eapply due_unserved; [exact Hd|]. cbn [task_id]. intros act Ha. by rewrite Ht in Ha. }
  pose proof (due_others _ _ _ Hd) as Ho. cbn [task_id] in Ho.
  destruct act as [l|r|b n];
    [apply safe_ret; apply (due_wrong _ _ _ _ Hd Ht); intros []..|].
  destruct Hd as [Hb Hst Hp Ha]. specialize (Ha _ _ Ht) as (Hwf & Harm & Hne). eapply safe_call.
  { apply (safe_on_work _ (fun r h1 => boot_step (action_id t) r (work h1) /\ extends (work h) (work h1) /\
      h1 = h <| work := work h1 |>)).
    eapply safe_mono; [apply (bs_recv_timeout_safe (action_id t) t b); [apply Hb|done| |done]|done|].
    - intros B t' k' [Hnt Ht']%lookup_delete_Some.
      destruct (Harm (popped_bounded _ _ _ Hp B) t' k' Ht') as [? Hk]. split; [done|].
      destruct (pp_rest _ _ _ Hp (popped_bounded _ _ _ Hp B) _ _ Hk) as [?|[= ->]]; done.
    - by intros r w1 (? & ? & _). }
  intros [st b1] h1 (Hs & Hx & E1). cbn [fst snd] in *. apply safe_modify_bind.
  assert (Hb1 : base_ok h1) by (rewrite E1; destruct Hb, Hs; by split).
  apply (after_bootstrap_safe st t b1 n); [by destruct Hb1| |rewrite E1; exact Hst|apply lookup_insert_eq|exact Hs].
  intros b' act Hne' Hb'. change (<[action_id t := TaBootstrap b1 n]> (table_actions h1) !! b' = Some act) in Hb'.
  rewrite lookup_insert_ne in Hb' by done.
  apply (others_ok_progress (action_id t) h h1); [by rewrite E1|by apply extends_progress|done..].
Qed.

Lemma after_lookup_safe a st l n h :
  base_ok h -> others_ok a h -> table_actions h !! a = Some (TaLookup l) ->
  (st <> LkFailed -> lookup_ok a l (work h)) -> safe R (after_lookup st n) (fun _ => handler_ok) h.
Proof.
  intros Hb Ho Ht Hl. assert (Hh : st <> LkFailed -> handler_ok h).
  { intros Hst. split; [done|]. intros _ b act Hb'. destruct (decide (b = a)) as [->|Hne]; [|by apply Ho].
    rewrite Ht in Hb'. injection Hb' as <-. by apply Hl. }
  destruct st; cbn [after_lookup]; [apply safe_ret; by apply Hh| |by apply shutdown_ok|apply safe_ret; by apply Hh].
  eapply safe_mono; [apply broadcast_safe|done|]. intros ? h1 Q. eapply quiet_ok; [exact Q|]. by apply Hh.
Qed.

Lemma lookup_timeout_safe t w0 h :
  due (CheckLookupTimeout t) w0 h -> safe R (handle_check_lookup_timeout t) (fun _ => handler_ok) h.
Proof.
  intros Hd. unfold handle_check_lookup_timeout. apply safe_get_bind.
  destruct (table_actions h !! action_id t) as [act|] eqn:Ht.
  2:{ apply safe_ret. eapply due_unserved; [exact Hd|]. cbn [task_id]. intros act Ha. by rewrite Ht in Ha. }
  pose proof (due_others _ _ _ Hd) as Ho. cbn [task_id] in Ho.
  destruct act as [l|r|b n];
    [|apply safe_ret; apply (due_wrong _ _ _ _ Hd Ht); intros []..].
  destruct Hd as [Hb Hst Hp Ha]. specialize (Ha _ _ Ht) as [Hwf Harm].
  assert (Hrest : in_endgame l = false -> bounded (work h) -> forall t' d' k', t' <> t ->
    active_lookups l !! t' = Some (d', k') -> action_id t' = action_id t /\ pending_at (work h) k' (CheckLookupTimeout t')).
  { intros He B t' d' k' Hnt Ht'. specialize (Harm (popped_bounded _ _ _ Hp B)). unfold armed in Harm. rewrite He in Harm.
    destruct Harm as [_ Harm]. destruct (Harm t' d' k' Ht') as [? Hk]. split; [done|].
    destruct (pp_rest _ _ _ Hp (popped_bounded _ _ _ Hp B) _ _ Hk) as [?|[= ->]]; done. }
  eapply safe_call.
  { apply (safe_on_work _ (fun r h1 => step_ok (action_id t) l r (work h1) /\ extends (work h) (work h1) /\
      h1 = h <| work := work h1 |>)).
    eapply safe_mono; [apply (recv_timeout_safe (action_id t) t l); [apply Hb|done|by intros d k _; apply Hrest|]|done|].
    - intros Hc. split; [done|]. intros B. specialize (Harm (popped_bounded _ _ _ Hp B)). unfold armed in *.
      destruct (in_endgame l) eqn:He.
      + destruct Harm as (k & t' & Hk & ?). exists k, t'. split; [|done].
        by destruct (pp_rest _ _ _ Hp (popped_bounded _ _ _ Hp B) _ _ Hk).
      + destruct Harm as [? _]. split; [done|]. intros t' d' k' Ht'. eapply (Hrest eq_refl B); [|exact Ht'].
        intros ->. destruct Hc as [Hc|?]; [by rewrite Hc in Ht'|done].
    - by intros r w1 ([? _] & ? & _). }
  intros [st l1] h1 (Hs & Hx & E1). cbn [fst snd] in *. apply safe_modify_bind.
  destruct Hs as (Hw1 & _ & _ & _ & Hlo). cbn [fst snd] in *.
  assert (Hb1 : base_ok h1) by (rewrite E1; destruct Hb; by split).
  apply (after_lookup_safe (action_id t) st l1); [by destruct Hb1| |apply lookup_insert_eq|exact Hlo].
  intros b' act Hne' Hb'. change (<[action_id t := TaLookup l1]> (table_actions h1) !! b' = Some act) in Hb'.
  rewrite lookup_insert_ne in Hb' by done.
  apply (others_ok_progress (action_id t) h h1); [by rewrite E1|by apply extends_progress|done..].
Qed.

Lemma lookup_endgame_safe t w0 h :
  due (CheckLookupEndGame t) w0 h -> safe R (handle_check_lookup_endgame t) (fun _ => handler_ok) h.
Proof.
  intros Hd. unfold handle_check_lookup_endgame. apply safe_get_bind. cbv zeta. apply safe_modify_bind.
  pose proof (due_others _ _ _ Hd) as Ho. cbn [task_id] in Ho. destruct Hd as [Hb Hst Hp Ha].
  set (h1 := h <| table_actions := _ |>).
  assert (Hb1 : base_ok h1) by (by destruct Hb). assert (Ha1 : actions_ok h1) by (by apply remove_action_ok).
  destruct (table_actions h !! action_id t) as [[l|r|b n]|] eqn:Ht; try (apply safe_ret; by split).
  specialize (Ha _ _ Ht) as [Hwf _]. eapply safe_call.
  { apply (safe_on_work _ (fun r h2 => work_ok (work h2) /\ extends (work h1) (work h2) /\ h2 = h1 <| work := work h2 |>)).
    eapply safe_mono; [apply (recv_finished_safe (action_id t)); [apply Hb1|done]|done|]. by intros r w1 (? & ? & _). }
  intros [st l1] h2 (Hw2 & Hx & E2). cbn [fst snd] in *.
  assert (Hb2 : base_ok h2) by (rewrite E2; destruct Hb1; by split).
  assert (Hh2 : handler_ok h2) by (split; [done|]; intros _; apply (actions_ok_extends h1); [by rewrite E2|done..]).
  destruct st; try (by apply safe_ret).
  - eapply safe_mono; [apply broadcast_safe|done|]. intros ? h3 Q. by apply (quiet_ok h2).
  - eapply safe_call; [apply broadcast_safe|]. intros [] h3 Q. apply shutdown_ok. by apply (quiet_base h2).
Qed.

Lemma handle_timeout_safe s w0 h : due s w0 h -> safe R (handle_timeout s) (fun _ => handler_ok) h.
Proof.
  intros Hd. destruct s as [t|t|t|t]; cbn [handle_timeout].
  - destruct (table_actions h !! action_id t) as [act|] eqn:Ht.
    + destruct act as [l|r|b n].
      * unfold handle_check_table_refresh. apply safe_get_bind. rewrite Ht. apply safe_ret, (due_wrong _ _ _ _ Hd Ht). intros [].
      * apply (table_refresh_safe t r); [apply Hd| |done|apply (du_actions _ _ _ Hd _ _ Ht)].
        intros _. apply (due_others _ _ _ Hd).
      * unfold handle_check_table_refresh. apply safe_get_bind. rewrite Ht. apply safe_ret, (due_wrong _ _ _ _ Hd Ht). intros [].
    + unfold handle_check_table_refresh. apply safe_get_bind. rewrite Ht. apply safe_ret.
      apply (due_unserved _ _ _ Hd). cbn [task_id]. intros act Ha. by rewrite Ht in Ha.
  - by eapply bootstrap_timeout_safe.
  - by eapply lookup_timeout_safe.
  - by eapply lookup_endgame_safe.
Qed.

(** * Incoming messages *)

(** What a call that only extends the shared parts does. *)
Record steady (h h' : DhtHandler) : Prop := {
  sd_base : base_ok h';
  sd_extends : extends (work h) (work h');
  sd_table : table_actions h' = table_actions h;
  sd_status : dht_status h' = dht_status h
}.

Lemma steady_refl h : base_ok h -> steady h h.
Proof. by split. Qed.
Lemma steady_trans h1 h2 h3 : steady h1 h2 -> steady h2 h3 -> steady h1 h3.
Proof. intros [] []. split; [done|by etrans|congruence|congruence]. Qed.
Lemma steady_ok h h' : handler_ok h -> steady h h' -> handler_ok h'.
Proof.
  intros [Hb Ha] [Hb' Hx Ht Hs]. split; [done|]. rewrite Hs. intros Hst. apply (actions_ok_extends h); auto.
Qed.

Lemma on_work_steady {A} (m : WorkM A) (Q : A -> Work -> Prop) h :
  base_ok h -> safe False m (fun a w' => Q a w' /\ work_ok w' /\ extends (work h) w') (work h) ->
  safe R (on_work m) (fun a h' => Q a (work h') /\ steady h h') h.
Proof.
  intros Hb Hm. apply safe_on_work. eapply safe_mono; [exact Hm|done|]. intros a w' (HQ & Hw & Hx).
  split; [exact HQ|]. destruct Hb. by split; [split|..].
Qed.

Lemma add_steady n h : base_ok h -> v4_node n -> safe R (on_work (add_node n)) (fun _ => steady h) h.
Proof.
  intros Hb Hn. eapply safe_mono; [apply (on_work_steady _ (fun _ _ => True)); [done|]|done|by intros ? ? []].
  eapply safe_mono; [apply add_node_safe; [apply Hb|done]|done|]. by intros ? ? [].
Qed.

Lemma saw_steady id addr h : base_ok h -> safe R (saw_request id addr) (fun _ => steady h) h.
Proof.
  intros Hb. eapply safe_mono; [apply (on_work_steady _ (fun _ _ => True)); [done|]|done|by intros ? ? []].
  eapply safe_mono; [apply touch_safe; apply Hb|done|]. by intros ? ? [].
Qed.

Lemma reply_safe msg addr h : handler_ok h -> safe R (reply msg addr) (fun _ => handler_ok) h.
Proof.
  intros Hh. unfold reply. eapply safe_call.
  { apply (on_work_steady _ (fun _ _ => True)); [apply Hh|].
    eapply safe_mono; [apply send_safe; apply Hh|done|]. by intros ? ? (? & ? & _). }
  intros sent h1 [_ Hs]. destruct sent; [apply safe_ret; by eapply steady_ok|apply shutdown_ok, Hs].
Qed.

Lemma encode_nodes_ok ns :
  Forall v4_node ns -> exists bs, encode_nodes ns = Ok bs /\ length bs = length ns * BYTES_PER_COMPACT_NODE_INFO.
Proof.
  induction 1 as [|n ns [Ha Hl] _ (bs & IH & Hlen)]; [by exists []|]. cbn [encode_nodes]. unfold node_encode.
  destruct (node_addr n) as [[[a b c d] p]|]; [|done]. rewrite mbind_ok. cbn beta. rewrite IH, mbind_ok.
  eexists. split; [done|]. rewrite !length_app, Hl, Hlen. cbn [length octets v4_ip]. unfold SHA_HASH_LEN, BYTES_PER_COMPACT_NODE_INFO. lia.
Qed.

Lemma closest_bytes_safe target h :
  base_ok h -> safe R (closest_nodes_bytes target) (fun bs h' => h' = h /\ CompactNodeInfo_new bs = Ok {| nodes := bs |}) h.
Proof.
  intros Hb. unfold closest_nodes_bytes. eapply safe_call.
  { apply (safe_on_work _ (fun ns h' => h' = h /\ Forall v4_node ns)).
    eapply safe_mono; [apply closest_safe, Hb|done|]. intros ns w' [-> Hns]. split; [by destruct h|done]. }
  intros ns ? [-> Hns]. destruct (encode_nodes_ok (take 8 ns)) as (bs & He & Hl); [by apply Forall_take|].
  eapply safe_lift; [exact He|]. split; [done|]. unfold CompactNodeInfo_new. by rewrite Hl, Nat.Div0.mod_mul.
Qed.

Lemma contact_chunks_ok bs : CompactValueInfo_new (contact_chunks bs) = Ok {| values := contact_chunks bs |}.
Proof.
  assert (Hall : Forall (fun v => length v = BYTES_PER_COMPACT_IP) (contact_chunks bs)).
  { unfold contact_chunks. apply Forall_forall. intros v (i & -> & Hi)%list_elem_of_fmap. apply elem_of_seq in Hi.
    rewrite length_take, length_drop. unfold BYTES_PER_COMPACT_IP. pose proof (Nat.Div0.div_mod (length bs) 6). lia. }
  unfold CompactValueInfo_new. by rewrite (proj2 (check_values_ok 0 _) Hall).
Qed.

Lemma modify_steady f h :
  base_ok h -> work (f h) = work h -> aid_generator (f h) = aid_generator h -> future_actions (f h) = future_actions h ->
  table_actions (f h) = table_actions h -> dht_status (f h) = dht_status h -> steady h (f h).
Proof. intros [] Hw Ha Hf Ht Hs. split; [split; congruence|by rewrite Hw|done|done]. Qed.

Lemma get_peers_safe g addr h : handler_ok h -> safe R (answer_get_peers g addr) (fun _ => handler_ok) h.
Proof.
  intros Hh. unfold answer_get_peers. apply safe_get_bind.
  destruct (storage_find (gq_info_hash g) env_utc_found (active_stores h)) as [contacts stores]. apply safe_modify_bind. cbv zeta.
  set (h1 := h <| active_stores := stores |>).
  assert (Hs1 : steady h h1) by (by apply (modify_steady (fun h => h <| active_stores := stores |>)); [apply Hh|..]).
  eapply safe_call; [apply closest_bytes_safe, Hs1|]. intros bs ? [-> Hbs]. apply safe_get_bind.
  destruct (checkout env_tick (from_socket_addr addr) (token_store h1)) as [tok tokens]. apply safe_modify_bind.
  set (h2 := h1 <| token_store := tokens |>).
  assert (Hs2 : steady h1 h2) by (by apply (modify_steady (fun h => h <| token_store := tokens |>)); [apply Hs1|..]).
  eapply safe_unwrap_bind; [exact Hbs|]. eapply (safe_call _ _ _ (fun _ h' => h' = h2)).
  { case_bool_decide; [|by apply safe_ret]. eapply safe_unwrap_bind; [apply contact_chunks_ok|]. by apply safe_ret. }
  intros info ? ->. apply safe_get_bind, reply_safe. eapply steady_ok; [exact Hh|]. by eapply steady_trans.
Qed.

Lemma announce_safe a addr h : handler_ok h -> safe R (answer_announce a addr) (fun _ => handler_ok) h.
Proof.
  intros Hh. unfold answer_announce.
  eapply (safe_call _ _ _ (fun _ => steady h)).
  { unfold check_token. destruct (Token_new (aq_token a)); try (apply safe_ret, steady_refl, Hh).
    apply safe_get_bind. destruct (checkin _ _ _ _) as [valid tokens]. apply safe_modify_bind, safe_ret.
    by apply (modify_steady (fun h => h <| token_store := tokens |>)); [apply Hh|..]. }
  intros valid h1 Hs1. eapply (safe_call _ _ _ (fun _ => steady h1)).
  { destruct valid; cbn [negb]; [|apply safe_ret, steady_refl, Hs1]. apply safe_get_bind.
    destruct (storage_add _ _ _ _ _) as [added stores]. apply safe_modify_bind.
    assert (Hs2 : steady h1 (h1 <| active_stores := stores |>))
      by (by apply (modify_steady (fun h => h <| active_stores := stores |>)); [apply Hs1|..]).
    destruct added; by apply safe_ret. }
  intros msg h2 Hs2. apply reply_safe. eapply steady_ok; [exact Hh|]. by eapply steady_trans.
Qed.

Lemma request_safe q addr h : handler_ok h -> safe R (handle_incoming_request q addr) (fun _ => handler_ok) h.
Proof.
  intros Hh. destruct q as [p|f|g|a]; cbn [handle_incoming_request];
    (eapply safe_call; [apply saw_steady, Hh|]; intros [] h1 Hs; pose proof (steady_ok _ _ Hh Hs) as Hh1).
  - apply safe_get_bind. by apply reply_safe.
  - eapply safe_call; [apply closest_bytes_safe, Hh1|]. intros bs ? [-> Hbs]. apply safe_get_bind.
    eapply safe_unwrap_bind; [unfold FindNodeResponse_new, validate_nodes; by rewrite Hbs|]. by apply reply_safe.
  - by apply get_peers_safe.
  - by apply announce_safe.
Qed.

(** A response carries a transaction id that is not one of ours. *)
Definition foreign_id (r : DhtMessage.ResponseType) : Prop :=
  match r with
  | RsFindNode f => length (fr_trans_id f) <> TRANSACTION_ID_BYTES
  | RsGetPeers g => length (gr_trans_id g) <> TRANSACTION_ID_BYTES
  | _ => False
  end.

Lemma read_trans_id_safe bs h :
  (length bs <> TRANSACTION_ID_BYTES -> R) -> safe R (read_trans_id bs) (fun _ h' => h' = h) h.
Proof.
  intros Hbs. unfold read_trans_id, TransactionID_from_bytes. destruct (Nat.eqb_spec (length bs) TRANSACTION_ID_BYTES); [done|].
  apply safe_panic. auto.
Qed.

Lemma others_set a act h h1 :
  h1 = h <| work := work h1 |> -> progress a (work h) (work h1) -> others_ok a h ->
  others_ok a (h1 <| table_actions := <[a := act]> (table_actions h1) |>).
Proof.
  intros E Hp Ho b act' Hne Hb. change (<[a := act]> (table_actions h1) !! b = Some act') in Hb.
  rewrite lookup_insert_ne in Hb by done. apply (others_ok_progress a h h1); [by rewrite E|done..].
Qed.

Lemma find_node_response_safe f addr h :
  handler_ok h -> dht_status h <> StFail -> is_v4 addr -> response_ok (RsFindNode f) -> (foreign_id (RsFindNode f) -> R) ->
  safe R (handle_incoming_response (RsFindNode f) addr) (fun _ => handler_ok) h.
Proof.
  intros Hh Hst Hv4 [Hid [bs Hn]] Hr. cbn [handle_incoming_response].
  eapply safe_call; [by apply read_trans_id_safe|]. intros t ? ->. cbv zeta. set (node := as_good _ _ _).
  assert (Hnode : v4_node node) by (by split).
  destruct (collect_nodes_total bs (fr_nodes f) Hn) as (ns & Hns & _). eapply safe_unwrap_bind; [exact Hns|].
  apply node_iter_ids in Hns as [Hlen _]. eapply (safe_call _ _ _ (fun _ => steady h)).
  { apply (safe_for_each _ _ _ (steady h)); [|apply steady_refl, Hh]. intros p s Hp Hs.
    apply (safe_lift_or _ _ (fun q => handle q = {| nh_id := p.1; nh_addr := SockV4 p.2 |})).
    { unfold as_questionable. destruct (instant_sub_back (E := Empty_set) (secs (MAX_LAST_SEEN_MINS * 60))) as [[-> ?]| ->];
        [by vm_compute; split|left; split; [done|apply HR; by right]|right; by eexists]. }
    intros q Hq.
    eapply safe_mono; [apply add_steady; [apply Hs|]|done|intros ? s' Hs'; by eapply steady_trans].
    rewrite Forall_forall in Hlen. unfold v4_node, node_addr, node_id. rewrite Hq. split; [done|]. by apply Hlen. }
  intros [] h1 Hs1. pose proof (steady_ok _ _ Hh Hs1) as Hh1.
  assert (Hst1 : dht_status h1 <> StFail) by (by rewrite (sd_status _ _ Hs1)).
  apply safe_get_bind. destruct (table_actions h1 !! action_id t) as [[l|r|b n]|] eqn:Ht; try by apply safe_ret.
  { eapply safe_mono; [apply add_steady; [apply Hh1|done]|done|]. intros ? h2 Hs2. by eapply steady_ok. }
  eapply (safe_call _ _ _ (fun _ => steady h1)).
  { unfold when. match goal with |- safe _ (if ?c then _ else _) _ _ => destruct c end; [apply add_steady; [apply Hh1|done]|].
    apply safe_ret, steady_refl, Hh1. }
  intros [] h2 Hs2. pose proof (steady_ok _ _ Hh1 Hs2) as Hh2.
  assert (Hst2 : dht_status h2 <> StFail) by (by rewrite (sd_status _ _ Hs2)).
  rewrite <- (sd_table _ _ Hs2) in Ht. destruct (hk_actions _ Hh2 Hst2 _ _ Ht) as (Hwf & Harm & Hne). eapply safe_call.
  { apply (safe_on_work _ (fun r h3 => boot_step (action_id t) r (work h3) /\ progress (action_id t) (work h2) (work h3) /\
      h3 = h2 <| work := work h3 |>)).
    eapply safe_mono; [apply (bs_recv_response_safe (action_id t) t b); [apply Hh2|done..]|done|].
    by intros r w3 (? & ? & _). }
  intros [st b3] h3 (Hb3 & Hx & E3). cbn [fst snd] in *. apply safe_modify_bind.
  assert (Hbase : base_ok h3) by (rewrite E3; destruct Hh2 as [[] _], Hb3; by split).
  apply (after_bootstrap_safe st t b3 n); [by destruct Hbase| |rewrite E3; exact Hst2|apply lookup_insert_eq|exact Hb3].
  apply (others_set _ _ h2); [done|done|]. apply actions_others. by apply Hh2.
Qed.

Lemma get_peers_response_safe g addr h :
  handler_ok h -> dht_status h <> StFail -> is_v4 addr -> response_ok (RsGetPeers g) -> (foreign_id (RsGetPeers g) -> R) ->
  safe R (handle_incoming_response (RsGetPeers g) addr) (fun _ => handler_ok) h.
Proof.
  intros Hh Hst Hv4 [Hid Hi] Hr. cbn [handle_incoming_response].
  eapply safe_call; [by apply read_trans_id_safe|]. intros t ? ->. cbv zeta. set (node := as_good _ _ _).
  eapply safe_call; [apply add_steady; [apply Hh|by split]|]. intros [] h1 Hs1. pose proof (steady_ok _ _ Hh Hs1) as Hh1.
  assert (Hst1 : dht_status h1 <> StFail) by (by rewrite (sd_status _ _ Hs1)).
  apply safe_get_bind. destruct (table_actions h1 !! action_id t) as [[l|r|b n]|] eqn:Ht; try by apply safe_ret.
  pose proof (hk_actions _ Hh1 Hst1 _ _ Ht) as Hl. eapply safe_call.
  { apply (safe_on_work _ (fun r h2 => step_ok (action_id t) l r (work h2) /\ progress (action_id t) (work h1) (work h2) /\
      h2 = h1 <| work := work h2 |>)).
    eapply safe_mono; [apply (recv_response_safe (action_id t) node t g l); [apply Hh1|done..]|done|].
    by intros r w2 ([? _] & ? & _). }
  intros [st l2] h2 (Hs2 & Hx & E2). cbn [fst snd] in *. apply safe_modify_bind.
  destruct Hs2 as (Hw2 & _ & _ & _ & Hlo). cbn [fst snd] in *.
  assert (Hbase : base_ok h2) by (rewrite E2; destruct Hh1 as [[] _]; by split).
  apply (after_lookup_safe (action_id t) st l2); [by destruct Hbase| |apply lookup_insert_eq|exact Hlo].
  apply (others_set _ _ h1); [done|done|]. apply actions_others. by apply Hh1.
Qed.

Lemma response_safe r addr h :
  handler_ok h -> dht_status h <> StFail -> is_v4 addr -> response_ok r -> (foreign_id r -> R) ->
  safe R (handle_incoming_response r addr) (fun _ => handler_ok) h.
Proof.
  intros Hh Hst Hv4 Hr Hf. destruct r as [a|f|g|a|a]; try by apply safe_ret.
  - by apply find_node_response_safe.
  - by apply get_peers_response_safe.
  - cbn [handle_incoming_response]. eapply safe_mono; [apply add_steady; [apply Hh|by split]|done|].
    intros ? h1 Hs1. by eapply steady_ok.
Qed.

(** * Turns *)

Lemma command_safe c h :
  handler_ok h -> dht_status h <> StFail -> safe R (handle_command c) (fun _ => handler_ok) h.
Proof.
  intros Hh Hst. destruct c as [c|c|c|routers nodes|ih ann c| |cause]; cbn [handle_command].
  - apply safe_modify. by eapply quiet_ok; [|exact Hh].
  - unfold handle_get_bootstrapped. apply safe_get_bind.
    assert (Hq : forall m, safe R (send_expect c m) (fun _ => handler_ok) h).
    { intros m. eapply safe_mono; [apply send_expect_safe|done|]. intros ? h1 Q. by eapply quiet_ok; [exact Q|]. }
    destruct (dht_status h); try apply Hq; apply safe_modify; by eapply quiet_ok; [|exact Hh].
  - unfold handle_get_dht_values. eapply safe_call; [apply count_status_safe, Hh|]. intros good ? ->.
    eapply safe_call; [apply count_status_safe, Hh|]. intros questionable ? ->. apply safe_get_bind.
    eapply safe_mono; [apply send_expect_safe|done|]. intros ? h1 Q. by eapply quiet_ok; [exact Q|].
  - by apply start_bootstrap_command_safe.
  - by apply start_lookup_safe.
  - apply safe_get_bind. by apply start_lookup_safe.
  - apply shutdown_ok, Hh.
Qed.

(** Why the handling of a datagram can panic. *)
Definition datagram_panics (buffer : bytes) : Prop :=
  BencodeRef_decode buffer BDecodeOpt_default = Panic \/
  exists b r, BencodeRef_decode buffer BDecodeOpt_default = Ok b /\ MessageType_new b = Ok (Response r) /\ foreign_id r.

Lemma incoming_safe buffer addr h :
  handler_ok h -> dht_status h <> StFail -> is_v4 addr -> (datagram_panics buffer -> R) ->
  safe R (handle_incoming buffer addr) (fun _ => handler_ok) h.
Proof.
  intros Hh Hst Hv4 HD. unfold handle_incoming.
  destruct (BencodeRef_decode buffer BDecodeOpt_default) as [b|e| |] eqn:Hdec.
  - pose proof (settles_message b) as Hs. cbv zeta. apply safe_get_bind.
    match goal with |- safe _ (if ?c then _ else _) _ _ => destruct c end; [by apply safe_ret|].
    destruct (MessageType_new b) as [[q|r|e]|e| |] eqn:Hm; try done; try by apply safe_ret.
    + by apply request_safe.
    + apply response_safe; [done..|]. intros Hf. apply HD. right. by exists b, r.
  - by apply safe_ret.
  - apply safe_panic, HD. by left.
  - exfalso. unfold BencodeRef_decode in Hdec. pose proof (decode_fuel_enough buffer 0 BDecodeOpt_default 0) as Hf.
    destruct (decode _ _ _ _ _) as [[v n]|e| |]; try done. rewrite mbind_ok in Hdec. cbn beta iota in Hdec. by case_match.
Qed.

Definition turn_panics (i : DhtInput) : Prop :=
  env_fails \/ match i with InDatagram buffer _ => datagram_panics buffer | _ => False end.

Definition input_ok (i : DhtInput) : Prop := match i with InDatagram _ addr => is_v4 addr | _ => True end.

Lemma turn_safe i h :
  handler_ok h -> dht_status h <> StFail -> input_ok i -> (turn_panics i -> R) ->
  safe R (run_one i) (fun _ => handler_ok) h.
Proof.
  intros Hh Hst Hi HT. destruct i as [c| |buffer addr| |]; cbn [run_one].
  - by apply command_safe.
  - apply safe_modify. split; [by destruct Hh as [[] _]|]. intros Hf. by destruct (Hf eq_refl).
  - apply incoming_safe; [done..|]. intros Hd. apply HT. by right.
  - by apply safe_ret.
  - apply safe_get_bind. destruct (timer_is_empty (timer (work h))) eqn:He; [by apply safe_ret|].
    destruct (poll_next env_now (timer (work h))) as [p t'] eqn:Hp. apply safe_modify_bind.
    destruct Hh as [Hb Ha]. destruct p as [[s|]|].
    + destruct (poll_safe (work h) s t' (hk_work _ Hb) Hp) as [Hw Hpop]. eapply safe_lift_bind; [done|].
      apply (handle_timeout_safe s (work h)). split; [destruct Hb; by split|done|exact Hpop|exact (Ha Hst)].
    + exfalso. rewrite is_empty_contents in He. apply bool_decide_eq_false in He. pose proof (poll_spec env_now (timer (work h))) as Hs.
      rewrite Hp in Hs. destruct (contents _) as [|[k v] rest]; [done|]. by destruct (k.1 <=? env_now)%Z; destruct Hs as (? & ? & _).
    + destruct (poll_pending_safe (work h) t' (hk_work _ Hb) Hp) as [Hw Hx]. apply safe_ret.
      split; [destruct Hb; by split|]. intros _. by apply (actions_ok_extends h); [..|apply Ha].
Qed.
End Handler.

(** * The worker *)

Section Worker.
Context {HP : Profile} {HB : BinarySearch} {HS : Sha1}.

Lemma new_aids_ok {E} rng : exists g, @AIDGenerator_new _ E rng = Ok g /\ block_ok MAX_ACTION_ID g.
Proof.
  destruct (AIDGenerator_new_ok (E := E) rng) as (g & Hg & [Hp Hr Ha] & H0). exists g. split; [done|].
  rewrite H0, drop_0 in Hp. split; [|done|done].
  apply Forall_forall. intros id Hid. cbn [app] in Hp. rewrite Hp in Hid. apply elem_of_seqZ in Hid. lia.
Qed.

Lemma initial_ok status stx ro addr port tokens aids stores ih g t notifiers table closed n out :
  table_ok table -> table_all v4_node table -> block_ok MAX_ACTION_ID aids -> gen_ok (action_id t) g ->
  handler_ok {| dht_status := status; status_tx := stx; read_only := ro; local_addr := addr; announce_port := port;
    token_store := tokens; aid_generator := aids; active_stores := stores;
    future_actions := [PbLookup ih false None; PbRefresh (TableRefresh_new g) t]; event_notifiers := notifiers;
    table_actions := ∅;
    work := {| routing_table := table; message_out := []; out_closed := closed; timer := timer_new;
               peers_found := []; draws := n |};
    clients_out := out |}.
Proof.
  intros Ht Hv Ha Hg. split; [split; cbn [work aid_generator future_actions]|].
  - by apply fresh_work_ok.
  - exact Ha.
  - apply Forall_cons. split; [exact I|]. apply Forall_cons. split; [|by apply Forall_nil].
    split; [done|apply Nat.le_0_l].
  - intros _ a act Hact. cbn [table_actions] in Hact. by rewrite lookup_empty in Hact.
Qed.

Lemma new_handler_ok {HE : DhtEnv} table closed addr ro port :
  table_ok table -> table_all v4_node table ->
  exists h, DhtHandler_new table closed addr ro port = Ok h /\ handler_ok h.
Proof.
  intros Ht Hv. unfold DhtHandler_new.
  destruct (new_aids_ok (E := Empty_set) (env_rng 0)) as (aids & Haids & Ha). rewrite Haids, mbind_ok.
  destruct (aid_generate_ok (E := Empty_set) (env_rng 1) aids Ha) as (g & aids' & Hgen & Ha' & Hg). rewrite Hgen, mbind_ok.
  destruct (mid_generate_ok (E := Empty_set) (env_rng 2) _ g Hg) as (t & g' & Hmid & Hg' & Hta).
  cbn beta iota. rewrite Hmid, mbind_ok. cbn beta iota. rewrite <- Hta in Hg'.
  eexists. split; [reflexivity|]. by apply initial_ok.
Qed.

Lemma run_safe (R : Prop) inputs h :
  handler_ok h -> Forall (fun p => input_ok p.2) inputs ->
  (forall env i, (env, i) ∈ inputs -> @turn_panics env i -> R) ->
  safe R (dht_run inputs) (fun _ => handler_ok) h.
Proof.
  revert h. induction inputs as [|[env i] inputs IH]; intros h Hh Hin HR; cbn [dht_run]; [by apply safe_ret|].
  apply Forall_cons in Hin as [Hi Hin]. apply safe_get_bind. case_bool_decide as Hst; [by apply safe_ret|].
  eapply safe_call.
  - apply (turn_safe R); [|done|done|exact Hi|].
    + intros Hc. apply (HR env i); [left|by left].
    + apply HR. left.
  - intros [] h1 Hh1. apply IH; [done|done|]. intros env' i' Hi'. apply HR. by right.
Qed.

(** Every action that the worker keeps will be looked at again. *)
Definition actions_waited_for (h : DhtHandler) : Prop :=
  forall a act, table_actions h !! a = Some act -> exists k s, pending_at (work h) k s /\ action_id (task_id s) = a.

Lemma ok_waited_for h : handler_ok h -> dht_status h <> StFail -> bounded (work h) -> actions_waited_for h.
Proof.
  intros [_ Ha] Hst B a act Hact. specialize (Ha Hst a act Hact). destruct act as [l|r|b n]; cbn [action_ok] in Ha.
  - destruct Ha as [_ Ha]. specialize (Ha B). unfold armed in Ha. destruct (in_endgame l).
    + destruct Ha as (k & t & ? & ?). by exists k, (CheckLookupEndGame t).
    + destruct Ha as [Hne Ha]. apply map_choose in Hne as (t & [d k] & Ht). destruct (Ha t d k Ht).
      by exists k, (CheckLookupTimeout t).
  - destruct Ha as [_ Ha]. destruct (Ha B) as (k & t & ? & ?). by exists k, (CheckTableRefresh t).
  - destruct Ha as (_ & Ha & Hne). apply map_choose in Hne as (t & k & Ht). destruct (Ha B t k Ht).
    by exists k, (CheckBootstrapTimeout t).
Qed.

(** C7. The worker can be started on every well-formed table, and whatever
    commands, datagrams and timeouts it handles, in whatever order, either it has
    shut down, or every lookup, bootstrap and refresh it keeps has a timeout
    pending, by which it will be looked at again.  A turn comes to an end, and it
    panics only if a client has dropped a receiver, if the platform's clock cannot
    go back fifteen minutes from now, if the bencode decoder panics, or if a
    response carries a transaction id that is not eight bytes. *)
Theorem worker_actions_waited_for (env0 : DhtEnv) table closed addr ro port (inputs : list (DhtEnv * DhtInput)) :
  table_ok table -> table_all v4_node table -> Forall (fun p => input_ok p.2) inputs ->
  exists h0, @DhtHandler_new _ env0 table closed addr ro port = Ok h0 /\
    safe (exists env i, (env, i) ∈ inputs /\ @turn_panics env i) (dht_run inputs)
      (fun _ h => dht_status h <> StFail -> bounded (work h) -> actions_waited_for h) h0.
Proof.
  intros Ht Hv Hin. destruct (@new_handler_ok env0 table closed addr ro port Ht Hv) as (h0 & Hnew & Hh).
  exists h0. split; [done|]. eapply safe_mono; [apply (run_safe _ inputs h0 Hh Hin)|done|].
  - intros env i Hi Hp. exact (ex_intro _ env (ex_intro _ i (conj Hi Hp))).
  - intros ? h Hh'. apply ok_waited_for. exact Hh'.
Qed.
End Worker.

(** * Concrete instances *)

(** A bootstrap from one node, a lookup while it runs, and its first timeout. *)
Definition sample_inputs : list (DhtEnv * DhtInput) :=
  [(sample_env 0, InCommand (StartBootstrap [] [nh_addr (handle (sample_peer 1))]));
   (sample_env 1, InCommand (StartLookup zero_hash true None)); (sample_env 1, InTimer)].

Lemma worker_actions_waited_for_witness :
  exists h0, @DhtHandler_new true (sample_env 0) (table_new zero_hash) None (nh_addr (handle (sample_peer 2))) false None = Ok h0 /\
    safe (exists env i, (env, i) ∈ sample_inputs /\ @turn_panics env i) (@dht_run true sample_search sample_sha1 sample_inputs)
      (fun _ h => dht_status h <> StFail -> bounded (work h) -> actions_waited_for h) h0.
Proof.
  apply (@worker_actions_waited_for true sample_search sample_sha1 (sample_env 0)); [by apply table_new_ok| |].
  - repeat constructor; by apply Forall_replicate.
  - by repeat (apply List.Forall_cons; [done|]).
Defined.
