(* ===== verification/DhtService.v ===== *)
(** DhtService: what the DHT worker does for other nodes.

    An end-to-end property of the worker with its messages, tokens and announce
    store: the peer that announces itself with the token it was given is found
    by the nodes that ask for the torrent.  The rest of the worker leaves tokens
    and store alone ([turn_touched]), so that any other turns may come in
    between. *)

From stdpp Require Import base list gmap.
From Stdlib Require Import ZArith Lia.
From Stdlib Require String.
From S2P Require Import Prelude OrdMap Bencode BencodeCorrect Convert ShaHash Effects Routing RoutingCorrect RoutingClosest Timer.
From S2P Require Import TransIds DhtToken DhtStorage DhtMessage DhtMessageCorrect DhtWork DhtLookup DhtBootstrap DhtHandler.
From S2P Require Import DhtWorkCorrect DhtLookupCorrect DhtBootstrapCorrect DhtHandlerCorrect.
Import String.StringSyntax.

(** * What a turn does to tokens and contacts *)

Definition stores (h : DhtHandler) : TokenStore * AnnounceStorage * bool := (token_store h, active_stores h, read_only h).

Section Frame.
Context {HP : Profile} {HB : BinarySearch} {HS : Sha1} {HE : DhtEnv} (x : TokenStore * AnnounceStorage * bool).

Notation same := (fun h => stores h = x).

Lemma keeps_on_work {A} (m : WorkM A) : keeps same (on_work m).
Proof. intros h Hh _. unfold on_work. by destruct (m (work h)). Qed.
Lemma keeps_set_action a act : keeps same (set_action a act).
Proof. by apply keeps_modify. Qed.
Lemma keeps_remove_action a : keeps same (remove_action a).
Proof. by apply keeps_modify. Qed.
Lemma keeps_send_client c m : keeps same (send_client c m).
Proof. by apply keeps_modify. Qed.
#[local] Hint Resolve keeps_on_work keeps_set_action keeps_remove_action keeps_send_client : keeps.

Lemma keeps_next_aid : keeps same next_aid.
Proof. unfold next_aid. keeps_tac. done. Qed.
Lemma keeps_send_expect c m : keeps same (send_expect c m).
Proof. unfold send_expect. keeps_tac. Qed.
#[local] Hint Resolve keeps_next_aid keeps_send_expect : keeps.
Lemma keeps_broadcast e : keeps same (broadcast_dht_event e).
Proof. unfold broadcast_dht_event. keeps_tac. done. Qed.
Lemma keeps_answer_status b : keeps same (answer_status b).
Proof. unfold answer_status. keeps_tac. done. Qed.
#[local] Hint Resolve keeps_broadcast keeps_answer_status : keeps.
Lemma keeps_shutdown cause : keeps same (handle_command_shutdown cause).
Proof. unfold handle_command_shutdown, shutdown. keeps_tac. done. Qed.
Lemma keeps_count_status s : keeps same (count_status s).
Proof. unfold count_status. keeps_tac. Qed.
#[local] Hint Resolve keeps_shutdown keeps_count_status : keeps.
Lemma keeps_start_lookup ih ann c : keeps same (handle_start_lookup ih ann c).
Proof. unfold handle_start_lookup. keeps_tac. done. Qed.
Lemma keeps_table_refresh t : keeps same (handle_check_table_refresh t).
Proof. unfold handle_check_table_refresh. keeps_tac. Qed.
#[local] Hint Resolve keeps_start_lookup keeps_table_refresh : keeps.
Lemma keeps_start_future p : keeps same (start_future_action p).
Proof. unfold start_future_action. keeps_tac. Qed.
#[local] Hint Resolve keeps_start_future : keeps.
Lemma keeps_completed a : keeps same (broadcast_bootstrap_completed a).
Proof. unfold broadcast_bootstrap_completed. keeps_tac; done. Qed.
Lemma keeps_rebootstrap b n t : keeps same (attempt_rebootstrap b n t).
Proof. unfold attempt_rebootstrap. keeps_tac. Qed.
#[local] Hint Resolve keeps_completed keeps_rebootstrap : keeps.
Lemma keeps_after_bootstrap st t : keeps same (after_bootstrap st t).
Proof. unfold after_bootstrap, nood_to_less. keeps_tac. Qed.
Lemma keeps_after_lookup st ih : keeps same (after_lookup st ih).
Proof. unfold after_lookup. keeps_tac. Qed.
#[local] Hint Resolve keeps_after_bootstrap keeps_after_lookup : keeps.

Lemma keeps_timeout s : keeps same (handle_timeout s).
Proof.
  unfold handle_timeout, handle_check_bootstrap_timeout, handle_check_lookup_timeout, handle_check_lookup_endgame. keeps_tac.
Qed.
Lemma keeps_command c : keeps same (handle_command c).
Proof.
  unfold handle_command, handle_register_sender, handle_get_bootstrapped, handle_get_dht_values, handle_start_bootstrap.
  keeps_tac; done.
Qed.
Lemma keeps_response r addr : keeps same (handle_incoming_response r addr).
Proof. unfold handle_incoming_response, read_trans_id. keeps_tac. Qed.
Lemma keeps_reply msg addr : keeps same (reply msg addr).
Proof. unfold reply. keeps_tac. Qed.
Lemma keeps_saw id addr : keeps same (saw_request id addr).
Proof. unfold saw_request. keeps_tac. Qed.
Lemma keeps_closest_bytes target : keeps same (closest_nodes_bytes target).
Proof. unfold closest_nodes_bytes. keeps_tac. Qed.
End Frame.

Definition tokens_moved `{Sha1} `{DhtEnv} (s s' : TokenStore) : Prop := s' = s \/ s' = refresh_check env_tick s.
Definition contacts_moved `{DhtEnv} (s s' : AnnounceStorage) : Prop :=
  s' = s \/ (exists ih, s' = (storage_find ih env_utc_found s).2) \/
  (exists ih a, s' = (storage_add ih a env_utc_found env_utc_added s).2).

(** Each turn calls the token store and the announce store at most once. *)
Record touched `{Sha1} `{DhtEnv} (h h' : DhtHandler) : Prop := {
  to_tokens : tokens_moved (token_store h) (token_store h');
  to_contacts : contacts_moved (active_stores h) (active_stores h');
  to_read_only : read_only h' = read_only h
}.

Section Touched.
Context {HP : Profile} {HB : BinarySearch} {HS : Sha1} {HE : DhtEnv}.

Lemma touched_same h h' : stores h' = stores h -> touched h h'.
Proof. unfold stores. intros [= E1 E2 E3]. split; [by left|by left|done]. Qed.

Lemma keeps_touched {A} (m : HandlerM A) h a h' :
  keeps (fun s => stores s = stores h) m -> m h = (Ok a, h') -> stores h' = stores h.
Proof. intros Hk Hm. exact (keeps_apply _ _ _ _ _ Hk eq_refl Hm I). Qed.

(** The stores after a [get_peers] and an announce, with the steps before their
    reply. *)
Lemma get_peers_touched g addr h h' :
  answer_get_peers g addr h = (Ok tt, h') ->
  token_store h' = refresh_check env_tick (token_store h) /\
  active_stores h' = (storage_find (gq_info_hash g) env_utc_found (active_stores h)).2 /\ read_only h' = read_only h.
Proof.
  unfold answer_get_peers. rewrite bind_get_run. destruct (storage_find _ _ _) as [contacts stores'] eqn:Hf.
  rewrite bind_modify_run. cbv zeta. set (h1 := h <| active_stores := stores' |>). intros H.
  apply St_bind_inv in H as (bs & h2 & Hb & H). apply (keeps_touched _ _ _ _ (keeps_closest_bytes _ _)) in Hb.
  rewrite bind_get_run in H. destruct (checkout _ _ _) as [tok tokens] eqn:Hc. rewrite bind_modify_run in H.
  injection Hc as _ <-. set (h3 := h2 <| token_store := _ |>) in H.
  apply St_bind_inv in H as (ni & h4 & Hn & H). assert (h4 = h3) as -> by (unfold lift_unwrap, lift in Hn; by injection Hn).
  apply St_bind_inv in H as (info & h5 & Hi & H). rewrite bind_get_run in H.
  assert (E5 : stores h5 = stores h3) by (eapply keeps_touched; [|exact Hi]; keeps_tac).
  apply (keeps_touched _ _ _ _ (keeps_reply _ _ _)) in H. rewrite E5 in H.
  injection Hb as T1 T2 T3. injection H as U1 U2 U3. rewrite U1, U2, U3. unfold h3. simpl. by rewrite T1, T2, T3.
Qed.

Lemma announce_touched a addr h h' :
  answer_announce a addr h = (Ok tt, h') ->
  tokens_moved (token_store h) (token_store h') /\ contacts_moved (active_stores h) (active_stores h') /\
  read_only h' = read_only h.
Proof.
  unfold answer_announce. intros H. apply St_bind_inv in H as (valid & h1 & Hv & H).
  assert (H1 : tokens_moved (token_store h) (token_store h1) /\ active_stores h1 = active_stores h /\ read_only h1 = read_only h).
  { unfold check_token in Hv. destruct (Token_new (aq_token a)) as [tok|e| |]; try (injection Hv as _ <-; by split_and!; [left|..]).
    rewrite bind_get_run in Hv. destruct (checkin _ _ _ _) as [v tokens] eqn:Hc. rewrite bind_modify_run in Hv.
    injection Hv as _ <-. injection Hc as _ <-. split_and!; [by right|done|done]. }
  apply St_bind_inv in H as (msg & h2 & Hm & H). apply (keeps_touched _ _ _ _ (keeps_reply _ _ _)) in H. injection H as U1 U2 U3.
  rewrite U1, U2, U3. destruct H1 as (T1 & T2 & T3). rewrite <- T2. destruct valid; cbn [negb] in Hm.
  - rewrite bind_get_run in Hm. destruct (storage_add _ _ _ _ _) as [added stores'] eqn:Hs. rewrite bind_modify_run in Hm.
    assert (E : h2 = h1 <| active_stores := stores' |>) by (destruct added; by injection Hm). rewrite E. simpl.
    split_and!; [done| |done]. right. right. eexists _, _. by rewrite Hs.
  - injection Hm as _ <-. split_and!; [done|by left|done].
Qed.

Lemma request_touched q addr h h' : handle_incoming_request q addr h = (Ok tt, h') -> touched h h'.
Proof.
  intros H. destruct q as [p|f|g|a]; cbn [handle_incoming_request] in H; apply St_bind_inv in H as ([] & h1 & Hs & H);
    apply (keeps_touched _ _ _ _ (keeps_saw _ _ _)) in Hs.
  - apply touched_same. rewrite <- Hs. rewrite bind_get_run in H. by apply (keeps_touched _ _ _ _ (keeps_reply _ _ _)) in H.
  - apply touched_same. rewrite <- Hs. eapply keeps_touched; [|exact H].
    apply keeps_bind; [apply keeps_closest_bytes|]. intros bs. apply keeps_bind_get. intros ? ?. apply keeps_bind_unwrap.
    intros ? ?. apply keeps_reply.
  - apply get_peers_touched in H as (H1 & H2 & H3). injection Hs as T1 T2 T3. rewrite T1 in H1. rewrite T2 in H2. rewrite T3 in H3.
    split; [by right|right; left; eauto|done].
  - apply announce_touched in H as (H1 & H2 & H3). injection Hs as T1 T2 T3. rewrite T1 in H1. rewrite T2 in H2. rewrite T3 in H3.
    by split.
Qed.

Lemma incoming_touched buffer addr h h' : handle_incoming buffer addr h = (Ok tt, h') -> touched h h'.
Proof.
  unfold handle_incoming. destruct (BencodeRef_decode _ _) as [b|e| |]; try done.
  2:{ intros [= <-]. by apply touched_same. }
  cbv zeta. rewrite bind_get_run. destruct (negb _); [intros [= <-]; by apply touched_same|].
  destruct (MessageType_new b) as [[q|r|e]|e| |]; try done; try (intros [= <-]; by apply touched_same).
  - apply request_touched.
  - intros H. apply touched_same. eapply keeps_touched; [apply keeps_response|exact H].
Qed.

Lemma turn_touched i h h' : run_one i h = (Ok tt, h') -> touched h h'.
Proof.
  destruct i as [c| |buffer addr| |]; cbn [run_one].
  - intros H. apply touched_same. eapply keeps_touched; [apply keeps_command|exact H].
  - intros [= <-]. by apply touched_same.
  - apply incoming_touched.
  - intros [= <-]. by apply touched_same.
  - rewrite bind_get_run. destruct (timer_is_empty _); [intros [= <-]; by apply touched_same|].
    destruct (poll_next _ _) as [p t]. rewrite bind_modify_run. destruct p as [[s|]|]; try done.
    + intros H. apply touched_same. set (h1 := h <| work := _ |>) in H. change (stores h) with (stores h1).
      eapply keeps_touched; [apply keeps_timeout|exact H].
    + intros [= <-]. by apply touched_same.
Qed.
End Touched.

(** * Replies *)

(** Compact contacts are cut out of their concatenation again. *)
Lemma contact_chunks_cons b bs : length b = 6 -> contact_chunks (b ++ bs) = b :: contact_chunks bs.
Proof.
  intros Hb. unfold contact_chunks. rewrite length_app, Hb.
  replace ((6 + length bs) / 6) with (S (length bs / 6)) by (rewrite <- (Nat.div_add_l 1) by lia; f_equal; lia).
  cbn [seq fmap list_fmap]. rewrite Nat.mul_0_l, drop_0, take_app_length' by done. f_equal.
  rewrite <- seq_shift, <- list_fmap_compose. apply list_fmap_ext. intros i j _. unfold compose.
  replace (S j * 6) with (length b + j * 6) by lia. by rewrite <- drop_drop, drop_app_length.
Qed.

Lemma contact_in_chunks contacts addr :
  SockV4 addr ∈ contacts -> contact_bytes (SockV4 addr) ∈ contact_chunks (concat (contact_bytes <$> contacts)).
Proof.
  induction contacts as [|c contacts IH]; intros Hin; [by apply elem_of_nil in Hin|]. cbn [fmap list_fmap concat].
  assert (Hlen : forall a, length (contact_bytes (SockV4 a)) = 6) by (by intros [[] ?]).
  apply elem_of_cons in Hin as [<-|Hin]; [rewrite contact_chunks_cons by done; left|].
  destruct c as [a|a]; [rewrite contact_chunks_cons by done; right; auto|]. cbn [contact_bytes app]. auto.
Qed.

Section Replies.
Context {HP : Profile} {HB : BinarySearch} {HS : Sha1} {HE : DhtEnv}.

Lemma reply_run msg addr h :
  out_closed (work h) = None ->
  reply msg addr h = (Ok tt, h <| work := work h <| message_out := message_out (work h) ++ [(msg, addr)] |> |>).
Proof.
  intros Ho. unfold reply. assert (E : on_work (send_out msg addr) h =
    (Ok true, h <| work := work h <| message_out := message_out (work h) ++ [(msg, addr)] |> |>)).
  { unfold on_work, send_out. by rewrite bind_get_run, Ho. }
  by rewrite (St_bind_ok _ _ _ _ _ E).
Qed.

Lemma saw_run id addr h h1 :
  saw_request id addr h = (Ok tt, h1) ->
  message_out (work h1) = message_out (work h) /\ out_closed (work h1) = out_closed (work h).
Proof.
  unfold saw_request, on_work, touch_node. rewrite bind_get_run. unfold mbind, St_bind, lift.
  destruct (find_node_mut _ _ _) as [[[i slot]|]|e| |]; intros [= <-]; done.
Qed.

(** The reply to a [get_peers]: a token for the sender, the closest nodes, and
    the contacts of the torrent that are known. *)
Definition served (g : GetPeersRequest) (addr : SocketAddr) (h : DhtHandler) (r : GetPeersResponse) : Prop :=
  gr_trans_id r = gq_trans_id g /\
  gr_token r = Some (token (generate_token_from_addr (from_socket_addr addr) (curr_secret (refresh_check env_tick (token_store h))))) /\
  forall c, SockV4 c ∈ (storage_find (gq_info_hash g) env_utc_found (active_stores h)).1 ->
    exists ns vs, gr_info_type r = Both ns vs /\ contact_bytes (SockV4 c) ∈ values vs.

Lemma get_peers_reply g addr h h' :
  base_ok h -> out_closed (work h) = None -> answer_get_peers g addr h = (Ok tt, h') ->
  exists r, message_out (work h') = message_out (work h) ++ [(GetPeersResponse_encode r, addr)] /\ served g addr h r.
Proof.
  intros Hb Ho. unfold answer_get_peers, served. rewrite bind_get_run.
  destruct (storage_find _ _ _) as [contacts stores'] eqn:Hf. rewrite bind_modify_run. cbv zeta.
  set (h1 := h <| active_stores := stores' |>). intros H. apply St_bind_inv in H as (bs & h2 & Hbs & H).
  assert (Hb1 : base_ok h1) by (by destruct Hb).
  destruct (safe_run _ _ _ _ _ _ (closest_bytes_safe False (gq_info_hash g) h1 Hb1) Hbs) as [-> Hn].
  rewrite bind_get_run in H. destruct (checkout _ _ _) as [tok tokens] eqn:Hc. rewrite bind_modify_run in H.
  set (h3 := h1 <| token_store := tokens |>) in H. injection Hc as Htok _.
  set (info := if bool_decide (contact_chunks (concat (contact_bytes <$> contacts)) <> [])
    then Both {| nodes := bs |} {| values := contact_chunks (concat (contact_bytes <$> contacts)) |} else Nodes {| nodes := bs |}).
  rewrite Hn in H. change (lift_unwrap (Ok ?x)) with (lift (Ok x) : HandlerM _) in H. rewrite bind_lift_run in H.
  apply St_bind_inv in H as (i & h4 & Hi & H). rewrite bind_get_run in H.
  assert (Hi' : i = info /\ h4 = h3).
  { unfold info. case_bool_decide.
    - rewrite contact_chunks_ok in Hi. change (lift_unwrap (Ok ?x)) with (lift (Ok x) : HandlerM _) in Hi.
      rewrite bind_lift_run in Hi. by injection Hi as <- <-.
    - by injection Hi as <- <-. }
  destruct Hi' as [-> ->]. rewrite reply_run in H by exact Ho. injection H as <-. eexists. split; [reflexivity|].
  split_and!; [done|by rewrite <- Htok|]. cbn [fst gr_info_type]. intros c Hin. apply contact_in_chunks in Hin.
  unfold info. rewrite bool_decide_eq_true_2 by (intros E; rewrite E in Hin; by apply elem_of_nil in Hin). eauto.
Qed.

Lemma announce_reply a addr h h' :
  base_ok h -> out_closed (work h) = None -> Token_new (aq_token a) = Ok {| token := aq_token a |} ->
  (checkin env_tick (from_socket_addr addr) {| token := aq_token a |} (token_store h)).1 = true ->
  answer_announce a addr h = (Ok tt, h') ->
  let '(added, stores') := storage_add (aq_info_hash a) (connect_addr (aq_port a) addr) env_utc_found env_utc_added (active_stores h) in
  active_stores h' = stores' /\
  message_out (work h') = message_out (work h) ++
    [(if added then ActingResponse_encode {| ar_trans_id := aq_trans_id a; ar_node_id := table_id (routing_table (work h)) |}
      else ErrorMessage_encode (ErrorMessage_new (aq_trans_id a) ServerError (ascii_bytes "Announce Storage Is Full")), addr)].
Proof.
  intros Hb Ho Htok Hin. unfold answer_announce, check_token. rewrite Htok. intros H.
  apply St_bind_inv in H as (valid & h1 & Hv & H). rewrite bind_get_run in Hv.
  destruct (checkin _ _ _ _) as [v tokens] eqn:Hc. rewrite bind_modify_run in Hv. injection Hv as <- <-. cbn [fst] in Hin. subst v.
  cbn [negb] in H. apply St_bind_inv in H as (msg & h2 & Hm & H). rewrite bind_get_run in Hm.
  change (active_stores (h <| token_store := tokens |>)) with (active_stores h) in Hm.
  destruct (storage_add _ _ _ _ _) as [added stores']. rewrite bind_modify_run in Hm.
  assert (E : msg = (if added then ActingResponse_encode {| ar_trans_id := aq_trans_id a; ar_node_id := table_id (routing_table (work h)) |}
      else ErrorMessage_encode (ErrorMessage_new (aq_trans_id a) ServerError (ascii_bytes "Announce Storage Is Full"))) /\
    h2 = h <| token_store := tokens |> <| active_stores := stores' |>) by (destruct added; injection Hm as <- <-; done).
  destruct E as [-> ->]. rewrite reply_run in H by exact Ho. injection H as <-. done.
Qed.
End Replies.

(** * Time *)

(** The clocks of a turn, after times [t] of the token store's clock and [u] of
    the announce store's. *)
Definition clock_ok (env : DhtEnv) (t u : Z) : Prop :=
  (t <= checked_at env_tick <= refreshed_at env_tick)%Z /\ (u <= env_utc_found <= env_utc_added)%Z.

Fixpoint clocks_from (t u : Z) (inputs : list (DhtEnv * DhtInput)) : Prop :=
  match inputs with
  | [] => True
  | (env, _) :: inputs => clock_ok env t u /\ clocks_from (refreshed_at (@env_tick env)) (@env_utc_added env) inputs
  end.

(** No turn of a sequence is later than the one that follows it. *)
Lemma clocks_before t u mid env i rest :
  clocks_from t u (mid ++ (env, i) :: rest) ->
  Forall (fun p => checked_at (@env_tick p.1) <= checked_at (@env_tick env) /\ @env_utc_found p.1 <= @env_utc_found env)%Z mid /\
  (t <= checked_at (@env_tick env) /\ u <= @env_utc_found env)%Z.
Proof.
  revert t u. induction mid as [|[e j] mid IH]; intros t u; cbn [app clocks_from]; unfold clock_ok.
  - intros [? _]. split; [constructor|lia].
  - intros [? Hc]. apply IH in Hc as [Hf ?]. split; [constructor; [cbn [fst]; lia|done]|lia].
Qed.

Section Run.
Context {HP : Profile} {HB : BinarySearch} {HS : Sha1}.

(** What every turn at an admissible time keeps holds after a run. *)
Lemma run_keeps (P : Z -> Z -> DhtHandler -> Prop) (ok : DhtEnv -> Prop) mid rest :
  (forall t t' u u' h, (t <= t')%Z -> (u <= u')%Z -> P t u h -> P t' u' h) ->
  (forall env i t u h h', ok env -> clock_ok env t u -> P t u h -> @run_one _ _ _ env i h = (Ok tt, h') ->
    P (refreshed_at (@env_tick env)) (@env_utc_added env) h') ->
  forall t u h h', Forall (fun p => ok p.1) mid -> clocks_from t u (mid ++ rest) -> P t u h ->
    dht_run mid h = (Ok tt, h') -> exists t' u', clocks_from t' u' rest /\ P t' u' h'.
Proof.
  intros Hmono Hstep. induction mid as [|[env i] mid IH]; intros t u h h' Hok Hc HP' Hrun; cbn [app clocks_from] in *.
  { injection Hrun as <-. eauto. }
  apply Forall_cons in Hok as [Ho Hok]. destruct Hc as [Hc Hcs]. cbn [dht_run] in Hrun. rewrite bind_get_run in Hrun.
  case_bool_decide.
  - injection Hrun as <-. destruct Hc as [Hc1 Hc2]. apply (Hmono _ (refreshed_at (@env_tick env)) _ (@env_utc_added env)) in HP'; [|lia..].
    clear -Hmono Hcs HP'. revert Hcs HP'. generalize (refreshed_at (@env_tick env)) (@env_utc_added env).
    induction mid as [|[e j] mid IH]; intros t u Hcs HP'; [eauto|]. cbn [app clocks_from] in Hcs. destruct Hcs as [[? ?] Hcs].
    apply (IH _ _ Hcs). eapply Hmono; [| |exact HP']; lia.
  - apply St_bind_inv in Hrun as ([] & h1 & H1 & Hrun). eapply IH; [done|exact Hcs| |exact Hrun]. by eapply Hstep.
Qed.

(** The worker at times [t] and [u]. *)
Definition node_at (t u : Z) (h : DhtHandler) : Prop :=
  read_only h = false /\ (last_refresh (token_store h) <= t)%Z /\ exists m, store_rel u (active_stores h) m.

(** The token that was given out with secret refreshed at [L] is still held. *)
Definition token_at (addr : IpAddr) (tok : Token) (L t u : Z) (h : DhtHandler) : Prop :=
  node_at t u h /\ held addr tok L (token_store h).

(** Contact [k], announced at [x0] or later, is stored. *)
Definition contact_at (k : contact) (x0 t u : Z) (h : DhtHandler) : Prop :=
  read_only h = false /\ (last_refresh (token_store h) <= t)%Z /\
  exists m x, store_rel u (active_stores h) m /\ m !! k = Some x /\ (x0 <= x)%Z.

Lemma store_rel_later u u' s m : store_rel u s m -> (u <= u')%Z -> store_rel u' s m.
Proof. intros [H1 H2 H3 H4 H5 H6] Hu. split; try done. eapply Forall_impl; [exact H3|]. intros e He. cbv beta in *. lia. Qed.

Section Turn.
Context {HE : DhtEnv}.

Lemma refresh_later t s :
  (last_refresh s <= t)%Z -> (t <= checked_at env_tick <= refreshed_at env_tick)%Z ->
  (last_refresh (refresh_check env_tick s) <= refreshed_at env_tick)%Z.
Proof.
  intros Hl Hc. assert (Hm : (last_refresh s <= checked_at env_tick)%Z) by lia.
  destruct (refresh_cases env_tick s Hm) as [(_ & ->)|[(_ & ->)|(_ & ->)]]; cbn [last_refresh]; lia.
Qed.

Lemma tokens_turn t s s' :
  tokens_moved s s' -> (last_refresh s <= t)%Z -> (t <= checked_at env_tick <= refreshed_at env_tick)%Z ->
  (last_refresh s' <= refreshed_at env_tick)%Z.
Proof. intros [->| ->] Hl Hc; [lia|by eapply refresh_later]. Qed.

Lemma contacts_turn u s s' m :
  contacts_moved s s' -> store_rel u s m -> (u <= env_utc_found <= env_utc_added)%Z ->
  exists m', store_rel env_utc_added s' m' /\
    (forall k x, m !! k = Some x -> (env_utc_found - x < EXPIRATION_TIME_HOURS * NANOS_PER_HOUR)%Z ->
      exists x', m' !! k = Some x' /\ (x <= x')%Z).
Proof.
  intros Hm Hr Hu.
  assert (Hlive : forall k x, m !! k = Some x -> (env_utc_found - x < EXPIRATION_TIME_HOURS * NANOS_PER_HOUR)%Z ->
    live env_utc_found m !! k = Some x) by (intros k x Hk Hx; by apply map_lookup_filter_Some).
  destruct Hm as [->|[[ih ->]|(ih & a & ->)]].
  - exists m. split; [eapply store_rel_later; [done|lia]|]. intros k x Hk _. by exists x.
  - assert (Hle : (u <= env_utc_found)%Z) by lia. pose proof (storage_find_rel u env_utc_found s m ih Hr Hle) as Hf.
    destruct (storage_find ih env_utc_found s) as [l s']. destruct Hf as [Hf _]. exists (live env_utc_found m).
    split; [eapply store_rel_later; [exact Hf|lia]|]. intros k x Hk Hx. exists x. split; [by apply Hlive|done].
  - pose proof (storage_add_rel u env_utc_found env_utc_added s m ih a Hr Hu) as Ha. unfold spec_add in Ha.
    destruct (storage_add ih a env_utc_found env_utc_added s) as [b s'].
    match type of Ha with context [if ?c then _ else _] => destruct c end; destruct Ha as [_ Ha];
      (eexists; split; [exact Ha|]); intros k x Hk Hx; [|by exists x; split; [apply Hlive|]].
    destruct (decide (k = (ih, a))) as [->|Hne].
    + exists env_utc_added. split; [apply lookup_insert_eq|]. apply (rel_lookup _ _ _ _ _ Hr) in Hk as (e & He & _ & <-).
      destruct Hr as [_ _ Hp _ _ _]. rewrite Forall_forall in Hp. specialize (Hp e He). cbv beta in Hp. lia.
    + exists x. split; [|done]. rewrite lookup_insert_ne by done. by apply Hlive.
Qed.

Lemma node_turn t u h h' :
  touched h h' -> clock_ok HE t u -> node_at t u h -> node_at (refreshed_at env_tick) env_utc_added h'.
Proof.
  intros [Ht Hc Hr] [C1 C2] (Hro & Hl & m & Hm). split_and!; [congruence|by eapply tokens_turn|].
  destruct (contacts_turn u _ _ m Hc Hm C2) as (m' & Hm' & _). eauto.
Qed.

Lemma token_turn addr tok L t u h h' :
  touched h h' -> clock_ok HE t u -> (checked_at env_tick < L + minutes 20)%Z ->
  token_at addr tok L t u h -> token_at addr tok L (refreshed_at env_tick) env_utc_added h'.
Proof.
  intros Ht C Hlt [Hn Hh]. split; [by eapply node_turn|]. destruct Ht as [[-> | ->] _ _]; [done|].
  destruct C as [C1 _]. destruct Hn as (_ & Hl & _). apply held_step; [done|lia|lia|done].
Qed.

Lemma contact_turn k x0 t u h h' :
  touched h h' -> clock_ok HE t u -> (env_utc_found - x0 < EXPIRATION_TIME_HOURS * NANOS_PER_HOUR)%Z ->
  contact_at k x0 t u h -> contact_at k x0 (refreshed_at env_tick) env_utc_added h'.
Proof.
  intros [Ht Hc Hr] [C1 C2] Hx (Hro & Hl & m & x & Hm & Hk & Hle). split_and!; [congruence|by eapply tokens_turn|].
  destruct (contacts_turn u _ _ m Hc Hm C2) as (m' & Hm' & Hkeep). destruct (Hkeep k x Hk) as (x' & Hk' & Hx'); [lia|].
  exists m', x'. split_and!; [done|done|lia].
Qed.

(** A request arrives from [addr] while the outgoing channel is open. *)
Record request_turn (q : DhtMessage.RequestType) (addr : SocketAddr) (h h' : DhtHandler) : Prop := {
  rt_wf : message_wf (Request q);
  rt_open : out_closed (work h) = None;
  rt_run : run_one (InDatagram (message_encode (Request q)) addr) h = (Ok tt, h')
}.

Lemma datagram_request buffer q addr h :
  reads buffer (Request q) -> read_only h = false ->
  run_one (InDatagram buffer addr) h = handle_incoming_request q addr h.
Proof.
  intros (r & Hdec & Hm) Hro. cbn [run_one]. unfold handle_incoming. rewrite Hdec. cbv zeta. rewrite bind_get_run, Hm.
  cbn [handle_incoming_preprocess]. by rewrite Hro.
Qed.

Lemma request_turn_ok q addr h h' : handler_ok h -> handle_incoming_request q addr h = (Ok tt, h') -> handler_ok h'.
Proof. intros Hh Hr. exact (safe_run _ _ _ _ _ _ (request_safe True (fun _ => I) q addr h Hh) Hr). Qed.

(** The two requests, from a worker in order. *)
Lemma get_peers_turn g addr t u h h' :
  handler_ok h -> node_at t u h -> request_turn (RqGetPeers g) addr h h' ->
  handler_ok h' /\ touched h h' /\ token_store h' = refresh_check env_tick (token_store h) /\
  exists r, last (message_out (work h')) = Some (GetPeersResponse_encode r, addr) /\ served g addr h r.
Proof.
  intros Hh (Hro & _) [Hwf Hop Hrun]. cbn [message_encode] in Hrun.
  pose proof (turn_touched _ _ _ Hrun) as Ht. rewrite (datagram_request _ _ _ _ (get_peers_read g Hwf) Hro) in Hrun.
  split; [by eapply request_turn_ok|]. split; [done|]. cbn [handle_incoming_request] in Hrun.
  apply St_bind_inv in Hrun as ([] & h1 & Hs & Hrun). destruct (saw_run _ _ _ _ Hs) as [Hm1 Ho1].
  destruct (safe_run _ _ _ _ _ _ (saw_steady False (gq_node_id g) addr h (hk_base _ Hh)) Hs) as [Hb1 _ _ _].
  pose proof (keeps_touched _ _ _ _ (keeps_saw _ _ _) Hs) as E. injection E as E1 E2 E3.
  rewrite <- Ho1 in Hop. destruct (get_peers_reply g addr h1 h' Hb1 Hop Hrun) as (r & Hout & Hserved).
  apply get_peers_touched in Hrun as (T1 & _ & _). rewrite E1 in T1. split; [done|]. exists r.
  rewrite Hout, last_snoc. split; [done|]. unfold served in *. by rewrite E1, E2 in Hserved.
Qed.

Lemma announce_turn a addr h h' :
  handler_ok h -> read_only h = false -> request_turn (RqAnnouncePeer a) addr h h' ->
  Token_new (aq_token a) = Ok {| token := aq_token a |} ->
  (checkin env_tick (from_socket_addr addr) {| token := aq_token a |} (token_store h)).1 = true ->
  let '(added, stores') := storage_add (aq_info_hash a) (connect_addr (aq_port a) addr) env_utc_found env_utc_added (active_stores h) in
  handler_ok h' /\ touched h h' /\ active_stores h' = stores' /\ exists id,
  last (message_out (work h')) = Some
    (if added then ActingResponse_encode {| ar_trans_id := aq_trans_id a; ar_node_id := id |}
     else ErrorMessage_encode (ErrorMessage_new (aq_trans_id a) ServerError (ascii_bytes "Announce Storage Is Full")), addr).
Proof.
  intros Hh Hro [Hwf Hop Hrun] Htok Hin. cbn [message_encode] in Hrun.
  pose proof (turn_touched _ _ _ Hrun) as Ht. rewrite (datagram_request _ _ _ _ (announce_peer_read a Hwf) Hro) in Hrun.
  pose proof (request_turn_ok _ _ _ _ Hh Hrun) as Hh'. cbn [handle_incoming_request] in Hrun.
  apply St_bind_inv in Hrun as ([] & h1 & Hs & Hrun). destruct (saw_run _ _ _ _ Hs) as [Hm1 Ho1].
  destruct (safe_run _ _ _ _ _ _ (saw_steady False (aq_node_id a) addr h (hk_base _ Hh)) Hs) as [Hb1 _ _ _].
  pose proof (keeps_touched _ _ _ _ (keeps_saw _ _ _) Hs) as E. injection E as E1 E2 E3.
  rewrite <- Ho1 in Hop. rewrite <- E1 in Hin. pose proof (announce_reply a addr h1 h' Hb1 Hop Htok Hin Hrun) as Hr. rewrite E2 in Hr.
  destruct (storage_add _ _ _ _ _) as [added stores']. destruct Hr as [Hst Hout]. split_and!; [done|done|done|].
  rewrite Hout, last_snoc. eauto.
Qed.
End Turn.

Lemma run_ok mid h h' : handler_ok h -> Forall (fun p => input_ok p.2) mid -> dht_run mid h = (Ok tt, h') -> handler_ok h'.
Proof.
  intros Hh Hin Hrun. exact (safe_run _ _ _ _ _ _ (run_safe True mid h Hh Hin (fun _ _ _ _ => I)) Hrun).
Qed.

(** * From the token to the answer *)

Definition token_of (addr : SocketAddr) (s : TokenStore) : Token :=
  generate_token_from_addr (from_socket_addr addr) (curr_secret s).

Lemma token_of_new addr s : Token_new (token (token_of addr s)) = Ok (token_of addr s).
Proof.
  unfold token_of, Token_new. assert (Hl : length (token (generate_token_from_addr (from_socket_addr addr) (curr_secret s))) = SHA_HASH_LEN)
    by (destruct (from_socket_addr addr); apply sha1_is_hash).
  rewrite Hl, Nat.eqb_refl. cbn [negb]. by destruct (generate_token_from_addr _ _).
Qed.

(** A token given out now is held, and was made from a secret of the last ten
    minutes. *)
Lemma token_given (env : DhtEnv) g addr t u h h' :
  handler_ok h -> node_at t u h -> clock_ok env t u -> request_turn (RqGetPeers g) addr h h' ->
  (checked_at env_tick < last_refresh (token_store h') + minutes 10)%Z /\
  token_at (from_socket_addr addr) (token_of addr (token_store h')) (last_refresh (token_store h'))
    (refreshed_at env_tick) env_utc_added h'.
Proof.
  intros Hh Hn Hc Hrt. destruct (get_peers_turn g addr t u h h' Hh Hn Hrt) as (_ & Ht & Hs & _).
  split; [|split; [by eapply node_turn|by left]]. destruct Hn as (_ & Hl & _). destruct Hc as [Hc _]. rewrite Hs.
  assert (Hm : (last_refresh (token_store h) <= checked_at env_tick)%Z) by lia. unfold minutes, NANOS_PER_MINUTE.
  destruct (refresh_cases env_tick (token_store h) Hm) as [(? & ->)|[(_ & ->)|(_ & ->)]];
    unfold minutes, NANOS_PER_MINUTE in *; cbn [last_refresh]; lia.
Qed.

(** Five hundred other contacts are known: each is in the answer to a search for its
    torrent. *)
Definition store_full (now : Z) (k : contact) (s : AnnounceStorage) : Prop :=
  exists ks : list contact, NoDup ks /\ length ks = MAX_ITEMS_STORED /\ k ∉ ks /\
    forall h a, (h, a) ∈ ks -> a ∈ (storage_find h now s).1.

Lemma refused_full t c now s m h a s' :
  store_rel t s m -> (t <= c <= now)%Z -> storage_add h a c now s = (false, s') -> store_full c (h, a) s.
Proof.
  intros Hr Hc E. pose proof (storage_add_rel t c now s m h a Hr Hc) as Ha. rewrite E in Ha. unfold spec_add in Ha.
  destruct (bool_decide_reflect (is_Some (live c m !! (h, a)))) as [|Hno]; [by destruct Ha|]. cbn [orb] in Ha.
  destruct (Nat.ltb_spec (base.size (live c m)) MAX_ITEMS_STORED) as [|Hsize]; [by destruct Ha|]. destruct Ha as [_ Ha].
  exists (map_to_list (live c m)).*1. split_and!.
  - apply NoDup_fst_map_to_list.
  - rewrite length_fmap, length_map_to_list. pose proof (rel_size _ _ _ Ha). pose proof (DhtStorage.sr_size _ _ _ Ha). lia.
  - rewrite list_elem_of_fmap. intros ([k x] & E' & Hin). cbn in E'. subst k. apply elem_of_map_to_list in Hin. apply Hno. by exists x.
  - intros h' a' Hin. apply list_elem_of_fmap in Hin as ([k x] & E' & Hin). cbn in E'. subst k. apply elem_of_map_to_list in Hin.
    assert (Ht : (t <= c)%Z) by lia. pose proof (storage_find_rel t c s m h' Hr Ht) as Hf. destruct (storage_find h' c s) as [l s2].
    destruct Hf as (_ & _ & Hf). apply Hf. by exists x.
Qed.

(** An announce with a token that is held is refused only for want of room. *)
Lemma announce_accepted (env : DhtEnv) a addr L t u h h' :
  handler_ok h -> token_at (from_socket_addr addr) {| token := aq_token a |} L t u h ->
  Token_new (aq_token a) = Ok {| token := aq_token a |} ->
  clock_ok env t u -> (checked_at env_tick < L + minutes 20)%Z -> request_turn (RqAnnouncePeer a) addr h h' ->
  handler_ok h' /\
  (last (message_out (work h')) = Some (ErrorMessage_encode
     (ErrorMessage_new (aq_trans_id a) ServerError (ascii_bytes "Announce Storage Is Full")), addr) /\
     store_full env_utc_found (aq_info_hash a, connect_addr (aq_port a) addr) (active_stores h) \/
   (exists id, last (message_out (work h')) =
     Some (ActingResponse_encode {| ar_trans_id := aq_trans_id a; ar_node_id := id |}, addr)) /\
   contact_at (aq_info_hash a, connect_addr (aq_port a) addr) env_utc_added (refreshed_at env_tick) env_utc_added h').
Proof.
  intros Hh [Hn Hheld] Htok Hc HL Hrt. pose proof Hn as (Hro & Hl & m & Hm). pose proof Hc as [Hc1 Hc2].
  destruct (held_step (from_socket_addr addr) {| token := aq_token a |} L env_tick (token_store h) Hheld) as [Hh2 _]; [lia..|].
  assert (Hin : (checkin env_tick (from_socket_addr addr) {| token := aq_token a |} (token_store h)).1 = true)
    by (apply validates; destruct Hh2 as [[? _]|[? _]]; auto).
  pose proof (announce_turn a addr h h' Hh Hro Hrt Htok Hin) as Hat.
  pose proof (storage_add_rel u env_utc_found env_utc_added _ m (aq_info_hash a) (connect_addr (aq_port a) addr) Hm Hc2) as Ha.
  pose proof (refused_full u env_utc_found env_utc_added (active_stores h) m (aq_info_hash a) (connect_addr (aq_port a) addr)) as Hfull.
  destruct (storage_add _ _ _ _ _) as [added stores']. destruct Hat as (Hh' & Ht & Hst & id & Hlast). split; [done|].
  destruct added; [right|left; split; [done|by apply (Hfull stores')]]. split; [eauto|]. destruct (node_turn t u h h' Ht Hc Hn) as (Hro' & Hl' & _).
  split_and!; [done|done|]. unfold spec_add in Ha. rewrite Hst.
  match type of Ha with context [if ?c then _ else _] => destruct c end; destruct Ha as [Hb Ha]; [|done].
  eexists _, env_utc_added. split_and!; [exact Ha|apply lookup_insert_eq|done].
Qed.

(** A contact of the last day is in the answer to who asks for its torrent. *)
Lemma contact_found (env : DhtEnv) q asker k x0 t u h h' :
  handler_ok h -> contact_at (gq_info_hash q, SockV4 k) x0 t u h -> clock_ok env t u ->
  (env_utc_found - x0 < EXPIRATION_TIME_HOURS * NANOS_PER_HOUR)%Z -> request_turn (RqGetPeers q) asker h h' ->
  exists r ns vs, last (message_out (work h')) = Some (GetPeersResponse_encode r, asker) /\
    gr_info_type r = Both ns vs /\ contact_bytes (SockV4 k) ∈ values vs.
Proof.
  intros Hh (Hro & Hl & m & x & Hm & Hk & Hx) [_ Hc] He Hrt.
  assert (Hn : node_at t u h) by (split_and!; eauto).
  destruct (get_peers_turn q asker t u h h' Hh Hn Hrt) as (_ & _ & _ & r & Hlast & _ & _ & Hs).
  assert (Hu : (u <= env_utc_found)%Z) by lia.
  pose proof (storage_find_rel u env_utc_found _ m (gq_info_hash q) Hm Hu) as Hf.
  destruct (storage_find _ _ _) as [l s']. destruct Hf as (_ & _ & Hf). destruct (Hs k) as (ns & vs & ? & ?).
  - apply Hf. exists x. apply map_lookup_filter_Some. split; [done|]. cbn [snd]. lia.
  - by exists r, ns, vs.
Qed.

Lemma node_at_later t t' u u' h : (t <= t')%Z -> (u <= u')%Z -> node_at t u h -> node_at t' u' h.
Proof. intros Ht Hu (? & ? & m & Hm). split_and!; [done|lia|]. exists m. by eapply store_rel_later. Qed.

Lemma token_keeps addr tok L mid env i rest t u h h' :
  clocks_from t u (mid ++ (env, i) :: rest) -> (checked_at (@env_tick env) < L + minutes 20)%Z ->
  token_at addr tok L t u h -> dht_run mid h = (Ok tt, h') ->
  exists t' u', clocks_from t' u' ((env, i) :: rest) /\ token_at addr tok L t' u' h'.
Proof.
  intros Hc HL Hh Hrun. destruct (clocks_before _ _ _ _ _ _ Hc) as [Hb _].
  refine (run_keeps (token_at addr tok L) (fun e => checked_at (@env_tick e) < L + minutes 20)%Z mid _ _ _ t u h h' _ Hc Hh Hrun).
  - intros ????? ? ? [Hn ?]. split; [by eapply node_at_later|done].
  - intros e j ? ? ? ? Ho Hck Ht Hr. apply turn_touched in Hr. by eapply token_turn.
  - eapply Forall_impl; [exact Hb|]. cbv beta. intros p [? _]. lia.
Qed.

Lemma contact_keeps k x0 mid env i rest t u h h' :
  clocks_from t u (mid ++ (env, i) :: rest) -> (@env_utc_found env - x0 < EXPIRATION_TIME_HOURS * NANOS_PER_HOUR)%Z ->
  contact_at k x0 t u h -> dht_run mid h = (Ok tt, h') ->
  exists t' u', clocks_from t' u' ((env, i) :: rest) /\ contact_at k x0 t' u' h'.
Proof.
  intros Hc Hx Hh Hrun. destruct (clocks_before _ _ _ _ _ _ Hc) as [Hb _].
  refine (run_keeps (contact_at k x0) (fun e => @env_utc_found e - x0 < EXPIRATION_TIME_HOURS * NANOS_PER_HOUR)%Z mid _ _ _ t u h h'
    _ Hc Hh Hrun).
  - intros ????? ? ? (? & ? & m & x & ? & ? & ?). split_and!; [done|lia|]. exists m, x. split_and!; [by eapply store_rel_later|done|done].
  - intros e j ? ? ? ? Ho Hck Ht Hr. apply turn_touched in Hr. by eapply contact_turn.
  - eapply Forall_impl; [exact Hb|]. cbv beta. intros p [_ ?]. lia.
Qed.

(** The input of a request's turn. *)
Definition asks (q : DhtMessage.RequestType) (addr : SocketAddr) : DhtInput := InDatagram (message_encode (Request q)) addr.

(** C1. End to end: a peer asks for the peers of a torrent, announces itself with
    the token it was given, within ten minutes and from the same IP address, and
    some node asks for the peers of that torrent within a day.  Whatever else
    the worker handles between these three turns, the first answer has a token,
    the announce is acknowledged, unless five hundred other contacts of the last day
    are stored and the answer says that the store is full, and the
    last answer has the address the peer announced. *)
Theorem announced_peer_found (env1 env2 env3 : DhtEnv) g a q from from' asker mid1 mid2 t u h0 h1 h2 h3 h4 h5 :
  handler_ok h0 -> node_at t u h0 -> Forall (fun p => input_ok p.2) mid1 -> Forall (fun p => input_ok p.2) mid2 ->
  clocks_from t u ((env1, asks (RqGetPeers g) (SockV4 from)) :: mid1 ++
    (env2, asks (RqAnnouncePeer a) (SockV4 from')) :: mid2 ++ [(env3, asks (RqGetPeers q) asker)]) ->
  @request_turn env1 (RqGetPeers g) (SockV4 from) h0 h1 -> dht_run mid1 h1 = (Ok tt, h2) ->
  @request_turn env2 (RqAnnouncePeer a) (SockV4 from') h2 h3 -> dht_run mid2 h3 = (Ok tt, h4) ->
  @request_turn env3 (RqGetPeers q) asker h4 h5 ->
  v4_ip from' = v4_ip from -> gq_info_hash q = aq_info_hash a ->
  (checked_at (@env_tick env2) <= checked_at (@env_tick env1) + minutes 10)%Z ->
  (@env_utc_found env3 - @env_utc_added env2 < EXPIRATION_TIME_HOURS * NANOS_PER_HOUR)%Z ->
  exists r tok, last (message_out (work h1)) = Some (GetPeersResponse_encode r, SockV4 from) /\ gr_token r = Some tok /\
    (aq_token a = tok ->
     last (message_out (work h3)) = Some (ErrorMessage_encode
       (ErrorMessage_new (aq_trans_id a) ServerError (ascii_bytes "Announce Storage Is Full")), SockV4 from') /\
       store_full (@env_utc_found env2) (aq_info_hash a, connect_addr (aq_port a) (SockV4 from')) (active_stores h2) \/
     (exists id, last (message_out (work h3)) =
       Some (ActingResponse_encode {| ar_trans_id := aq_trans_id a; ar_node_id := id |}, SockV4 from')) /\
     (exists r' ns vs, last (message_out (work h5)) = Some (GetPeersResponse_encode r', asker) /\
       gr_info_type r' = Both ns vs /\ contact_bytes (connect_addr (aq_port a) (SockV4 from')) ∈ values vs)).
Proof.
  intros Hh0 Hn Hi1 Hi2 [Hc Hcs] Hr1 Hm1 Hr2 Hm2 Hr3 Hip Hih Hten Hday.
  destruct (get_peers_turn g (SockV4 from) t u h0 h1 Hh0 Hn Hr1) as (Hh1 & _ & Hs1 & r & Hl1 & _ & Htok & _).
  rewrite <- Hs1 in Htok. exists r, (token (token_of (SockV4 from) (token_store h1))). split_and!; [done|done|]. intros Ha.
  destruct (token_given env1 g _ t u h0 h1 Hh0 Hn Hc Hr1) as [Hfresh Hat]. pose proof (run_ok mid1 h1 h2 Hh1 Hi1 Hm1) as Hh2.
  set (L := last_refresh (token_store h1)) in *.
  assert (HL : (checked_at (@env_tick env2) < L + minutes 20)%Z) by (unfold minutes, NANOS_PER_MINUTE in *; lia).
  destruct (token_keeps _ _ L mid1 env2 _ _ _ _ h1 h2 Hcs HL Hat Hm1) as (t2 & u2 & [Hc2 Hcs2] & Hat2).
  assert (Hnew : Token_new (aq_token a) = Ok {| token := aq_token a |})
    by (rewrite Ha, token_of_new; by destruct (token_of _ _)).
  assert (Hfrom : from_socket_addr (SockV4 from) = from_socket_addr (SockV4 from')) by (cbn [from_socket_addr]; by rewrite Hip).
  assert (Etok : token_of (SockV4 from) (token_store h1) = {| token := aq_token a |}) by (rewrite Ha; by destruct (token_of _ _)).
  rewrite Hfrom, Etok in Hat2.
  destruct (announce_accepted env2 a _ L t2 u2 h2 h3 Hh2 Hat2 Hnew Hc2 HL Hr2) as [Hh3 [Hfull|[Hack Hcon]]]; [by left|right].
  split; [done|]. pose proof (run_ok mid2 h3 h4 Hh3 Hi2 Hm2) as Hh4.
  destruct (contact_keeps _ _ mid2 env3 _ [] _ _ h3 h4 Hcs2 Hday Hcon Hm2) as (t4 & u4 & [Hc4 _] & Hcon4).
  rewrite <- Hih in Hcon4. by destruct (aq_port a); apply (contact_found env3 q asker _ _ t4 u4 h4 h5 Hh4 Hcon4 Hc4 Hday Hr3).
Qed.
End Run.

(** * A worker that serves requests *)

Section Open.
Context {HP : Profile} {HB : BinarySearch} {HS : Sha1} {HE : DhtEnv}.

(** The worker keeps the channel open. *)
Definition open (h : DhtHandler) : Prop := out_closed (work h) = None.

Lemma keeps_open_work {A} (m : WorkM A) : keeps (fun w => out_closed w = None) m -> keeps open (on_work m).
Proof. intros Hm h Hh. unfold on_work, open. specialize (Hm (work h) Hh). by destruct (m (work h)). Qed.

Lemma keeps_open_reply msg addr : keeps open (reply msg addr).
Proof.
  intros h Hh. rewrite reply_run by exact Hh. done.
Qed.
Lemma keeps_open_saw id addr : keeps open (saw_request id addr).
Proof. apply keeps_open_work. unfold touch_node. keeps_tac. done. Qed.
Lemma keeps_open_closest target : keeps open (closest_nodes_bytes target).
Proof. unfold closest_nodes_bytes. keeps_tac. apply keeps_open_work. unfold closest. keeps_tac. Qed.
#[local] Hint Resolve keeps_open_reply keeps_open_saw keeps_open_closest : keeps.

Lemma keeps_open_request q addr : keeps open (handle_incoming_request q addr).
Proof.
  destruct q; cbn [handle_incoming_request]; unfold answer_get_peers, answer_announce, check_token; keeps_tac; done.
Qed.

(** It takes every request. *)
Lemma request_runs q addr t u h :
  message_wf (Request q) -> reads (message_encode (Request q)) (Request q) -> handler_ok h -> node_at t u h -> clock_ok HE t u ->
  ~ env_fails -> open h -> exists h', request_turn q addr h h' /\ handler_ok h' /\ node_at (refreshed_at env_tick) env_utc_added h' /\ open h'.
Proof.
  intros Hwf Hread Hh Hn Hc Ha Ho. pose proof Hn as (Hro & _).
  destruct (safe_False _ _ _ (request_safe False Ha q addr h Hh)) as ([] & h' & Hr & Hh').
  exists h'. pose proof Hr as Hrun. rewrite <- (datagram_request _ _ _ _ Hread Hro) in Hrun. split_and!; [by split|done| |].
  - eapply node_turn; [|done|done]. by eapply turn_touched.
  - exact (keeps_apply _ _ _ _ _ (keeps_open_request q addr) Ho Hr I).
Qed.
End Open.

(** * Concrete instances *)

Definition sample_handler : DhtHandler := {|
  dht_status := StCompleted; status_tx := []; read_only := false; local_addr := sample_contact 6881; announce_port := None;
  token_store := TokenStore_new (tick_at 0 1); aid_generator := {| next_alloc := 2048; curr_index := 0; block_ids := [5; 2; 9]%Z |};
  active_stores := AnnounceStorage_new; future_actions := []; event_notifiers := []; table_actions := ∅; work := empty_work;
  clients_out := [] |}.

Lemma sample_env_fine now : (0 <=? now)%Z = true -> ~ @env_fails (sample_env now).
Proof.
  intros Hn%Z.leb_le [[c Hc]|Hc]; [done|]. unfold clock_short in Hc. cbn [env_now env_oldest sample_env] in Hc.
  revert Hc. generalize (eq_refl : (secs (MAX_LAST_SEEN_MINS * 60) <? secs 86400)%Z = true). intros ?%Z.ltb_lt. lia.
Qed.

Lemma sample_handler_ok : handler_ok sample_handler.
Proof.
  split; [split|intros _ b act Hb; change ((∅ : gmap ActionID TableAction) !! b = Some act) in Hb; by rewrite lookup_empty in Hb].
  - exact empty_work_ok.
  - split; [by repeat (apply List.Forall_cons; [done|])|done|by exists 1%Z].
  - by apply List.Forall_nil.
Qed.

Lemma sample_handler_node : node_at 0 0 sample_handler.
Proof. split_and!; [done|by vm_compute|]. exists ∅. apply empty_store_rel. Qed.

Definition sample_from : SocketAddrV4 := {| v4_ip := Ipv4 10 0 0 7; v4_port := 50000 |}.
Definition sample_ask : GetPeersRequest :=
  {| gq_trans_id := [97; 97]%Z; gq_node_id := sample_hash 1; gq_info_hash := sample_hash 9 |}.
Definition sample_announce : AnnouncePeerRequest := {|
  aq_trans_id := [98; 98]%Z; aq_node_id := sample_hash 1; aq_info_hash := sample_hash 9;
  aq_token := token (@token_of sample_sha1 (SockV4 sample_from) (TokenStore_new (tick_at 0 1))); aq_port := Explicit 6881 |}.

(** The peer asks after one minute, announces itself after five and is found
    twenty-three hours later. *)
Lemma announced_peer_found_witness :
  exists h1 h3 h5 r tok, last (message_out (work h1)) = Some (GetPeersResponse_encode r, SockV4 sample_from) /\ gr_token r = Some tok /\
    (aq_token sample_announce = tok ->
     last (message_out (work h3)) = Some (ErrorMessage_encode
       (ErrorMessage_new (aq_trans_id sample_announce) ServerError (ascii_bytes "Announce Storage Is Full")), SockV4 sample_from) /\
       store_full (minutes 5) (sample_hash 9, SockV4 {| v4_ip := Ipv4 10 0 0 7; v4_port := 6881 |}) (active_stores h1) \/
     (exists id, last (message_out (work h3)) =
       Some (ActingResponse_encode {| ar_trans_id := aq_trans_id sample_announce; ar_node_id := id |}, SockV4 sample_from)) /\
     (exists r' ns vs, last (message_out (work h5)) = Some (GetPeersResponse_encode r', sample_contact 7) /\
       gr_info_type r' = Both ns vs /\ [10; 0; 0; 7; 26; 225]%Z ∈ values vs)).
Proof.
  assert (W1 : message_wf (Request (RqGetPeers sample_ask))) by (split_and!; by apply (bool_decide_unpack _); vm_compute).
  assert (W2 : message_wf (Request (RqAnnouncePeer sample_announce))) by (split_and!; by apply (bool_decide_unpack _); vm_compute).
  destruct (@request_runs true sample_search sample_sha1 (sample_env (minutes 1)) (RqGetPeers sample_ask) (SockV4 sample_from) 0 0
    sample_handler W1 (get_peers_read _ W1) sample_handler_ok sample_handler_node ltac:(done) ltac:(by apply sample_env_fine) eq_refl)
    as (h1 & R1 & Hh1 & Hn1 & Ho1).
  destruct (@request_runs true sample_search sample_sha1 (sample_env (minutes 5)) (RqAnnouncePeer sample_announce) (SockV4 sample_from) _ _
    h1 W2 (announce_peer_read _ W2) Hh1 Hn1 ltac:(done) ltac:(by apply sample_env_fine) Ho1) as (h3 & R2 & Hh3 & Hn3 & Ho3).
  destruct (@request_runs true sample_search sample_sha1 (sample_env (hours 23)) (RqGetPeers sample_ask) (sample_contact 7) _ _
    h3 W1 (get_peers_read _ W1) Hh3 Hn3 ltac:(done) ltac:(by apply sample_env_fine) Ho3) as (h5 & R3 & _).
  exists h1, h3, h5.
  exact (@announced_peer_found true sample_search sample_sha1 (sample_env (minutes 1)) (sample_env (minutes 5)) (sample_env (hours 23))
    sample_ask sample_announce sample_ask sample_from sample_from (sample_contact 7) [] [] 0 0 sample_handler h1 h1 h3 h3 h5
    sample_handler_ok sample_handler_node (List.Forall_nil _) (List.Forall_nil _) ltac:(by vm_compute) R1 eq_refl R2 eq_refl R3
    eq_refl eq_refl ltac:(by vm_compute) ltac:(by vm_compute)).
Defined.
