(* ===== verification/Metainfo.v ===== *)
(** Metainfo: torrent files, [btp-metainfo/src] (parse.rs, metainfo.rs, error.rs,
    accessor.rs, builder/mod.rs and builder/buffer.rs).

    A [str] and a [Path] are their bytes; a path is a Unix path.  A builder keeps
    the entries of its bencode dictionary, which the source reaches through
    [dict_mut().unwrap()].  An accessor is what it hands to its callbacks; the one
    that walks the file system is not modelled.  The hashing threads of
    builder/worker.rs are in Hasher; [build_with_accessor] takes their result. *)

From stdpp Require Import base list.
From Stdlib Require Import ZArith Lia SpecFloat.
From Stdlib Require String.
From S2P Require Import Prelude OrdMap Bencode ShaHash Effects Float.
Import String.StringSyntax.

(** * Paths *)

Notation Path := (list Z).
Definition SLASH : Z := 47.
Definition CUR_DIR : Path := [46]%Z.

Fixpoint split_slash (p : Path) : list Path :=
  match p with
  | [] => [[]]
  | c :: p =>
      if (c =? SLASH)%Z then [] :: split_slash p
      else match split_slash p with
           | [] => [[c]]
           | h :: t => (c :: h) :: t
           end
  end.

Definition is_absolute (p : Path) : bool := match p with c :: _ => (c =? SLASH)%Z | [] => false end.

(** [PathBuf::push] *)
Definition path_push (buf p : Path) : Path :=
  if is_absolute p then p
  else match last buf with
       | Some c => if (c =? SLASH)%Z then buf ++ p else buf ++ [SLASH] ++ p
       | None => p
       end.

(** [Path::iter]: repeated separators and inner "." are dropped. *)
Definition path_iter (p : Path) : list Path :=
  (if is_absolute p then [[SLASH]]
   else match split_slash p with c :: _ => if bool_decide (c = CUR_DIR) then [CUR_DIR] else [] | [] => [] end)
  ++ filter (fun c => c <> [] /\ c <> CUR_DIR) (split_slash p).

(** * error.rs *)

Inductive ParseError : Type :=
  | ParseIo
  | BencodeConvert (e : BencodeConvertErrorKind)
  | BencodeParse (e : BencodeParseErrorKind)
  | MissingData (details : bytes).

Notation parsed A := (outcome ParseError A).

(** * parse.rs *)

#[global] Instance MetainfoConverter : BConvert ParseError := {| handle_error := BencodeConvert |}.

Definition ROOT_ERROR_KEY : bytes := ascii_bytes "root".
Definition ANNOUNCE_LIST_KEY : bytes := ascii_bytes "announce-list".
Definition ANNOUNCE_URL_KEY : bytes := ascii_bytes "announce".
Definition CREATION_DATE_KEY : bytes := ascii_bytes "creation date".
Definition COMMENT_KEY : bytes := ascii_bytes "comment".
Definition CREATED_BY_KEY : bytes := ascii_bytes "created by".
Definition ENCODING_KEY : bytes := ascii_bytes "encoding".
Definition INFO_KEY : bytes := ascii_bytes "info".
Definition PIECE_LENGTH_KEY : bytes := ascii_bytes "piece length".
Definition PIECES_KEY : bytes := ascii_bytes "pieces".
Definition PRIVATE_KEY : bytes := ascii_bytes "private".
Definition NAME_KEY : bytes := ascii_bytes "name".
Definition FILES_KEY : bytes := ascii_bytes "files".
Definition LENGTH_KEY : bytes := ascii_bytes "length".
Definition MD5SUM_KEY : bytes := ascii_bytes "md5sum".
Definition PATH_KEY : bytes := ascii_bytes "path".

(** [Result::ok], of results that do not panic. *)
Definition res_ok {E A} (m : outcome E A) : option A := match m with Ok a => Some a | _ => None end.

Section Parse.
Context {B : Type} `{!BRefAccess B}.
Implicit Types (d : list (bytes * B)) (b : B).

Definition parse_root_dict b : parsed (list (bytes * B)) := convert_dict b ROOT_ERROR_KEY.
Definition parse_announce_list d : option (list B) := res_ok (lookup_and_convert_list (Error := ParseError) d ANNOUNCE_LIST_KEY).
Definition convert_announce_list (l : list B) : list (list bytes) := omap str <$> omap list_of l.
Definition parse_announce_url d : option bytes := res_ok (lookup_and_convert_str (Error := ParseError) d ANNOUNCE_URL_KEY).
Definition parse_creation_date d : option Z := res_ok (lookup_and_convert_int (Error := ParseError) d CREATION_DATE_KEY).
Definition parse_comment d : option bytes := res_ok (lookup_and_convert_str (Error := ParseError) d COMMENT_KEY).
Definition parse_created_by d : option bytes := res_ok (lookup_and_convert_str (Error := ParseError) d CREATED_BY_KEY).
Definition parse_encoding d : option bytes := res_ok (lookup_and_convert_str (Error := ParseError) d ENCODING_KEY).
Definition parse_info_bencode d : parsed B := lookup_key d INFO_KEY.

Definition parse_piece_length d : parsed Z := len ← lookup_and_convert_int d PIECE_LENGTH_KEY; Ok (to_u64 len).
Definition parse_pieces d : parsed bytes := lookup_and_convert_bytes d PIECES_KEY.
Definition parse_private d : option bool :=
  (fun p => (p =? 1)%Z) <$> res_ok (lookup_and_convert_int (Error := ParseError) d PRIVATE_KEY).
Definition parse_name d : parsed bytes := lookup_and_convert_str d NAME_KEY.
Definition parse_files_list d : parsed (list B) := lookup_and_convert_list d FILES_KEY.

Definition parse_file_dict b : parsed (list (bytes * B)) := convert_dict b FILES_KEY.
Definition parse_length d : parsed Z := len ← lookup_and_convert_int d LENGTH_KEY; Ok (to_u64 len).
Definition parse_md5sum d : option bytes := res_ok (lookup_and_convert_bytes (Error := ParseError) d MD5SUM_KEY).
Definition parse_path_list d : parsed (list B) := lookup_and_convert_list d PATH_KEY.
Definition parse_path_str b : parsed bytes := convert_str b PATH_KEY.

(** * metainfo.rs *)

Definition is_multi_file_torrent d : bool := match parse_length d with Err _ => true | _ => false end.
End Parse.

Record File := { f_len : Z; f_path : Path; f_md5sum : option bytes }.

Record Info := {
  info_hash : ShaHash;
  files : list File;
  pieces : list bytes;
  piece_len : Z;
  is_private : option bool;
  file_directory : option Path;
}.

Record Metainfo := {
  comment : option bytes;
  announce : option bytes;
  announce_list : option (list (list bytes));
  encoding : option bytes;
  created_by : option bytes;
  creation_date : option Z;
  info : Info;
}.

Section Files.
Context {B : Type} `{!BRefAccess B}.

Definition as_single_file (info_dict : list (bytes * B)) : parsed File :=
  length ← parse_length info_dict;
  let md5sum := parse_md5sum info_dict in
  name ← parse_name info_dict;
  Ok {| f_len := length; f_path := name; f_md5sum := md5sum |}.

(** The loop over the elements of a path. *)
Fixpoint push_paths (path_buf : Path) (path_list : list B) : parsed Path :=
  match path_list with
  | [] => Ok path_buf
  | b :: path_list => path ← parse_path_str b; push_paths (path_push path_buf path) path_list
  end.

Definition as_multi_file (file_dict : list (bytes * B)) : parsed File :=
  length ← parse_length file_dict;
  let md5sum := parse_md5sum file_dict in
  path_list ← parse_path_list file_dict;
  path_buf ← push_paths [] path_list;
  Ok {| f_len := length; f_path := path_buf; f_md5sum := md5sum |}.

(** The loop over the files. *)
Fixpoint multi_files (files_bencode : list B) : parsed (list File) :=
  match files_bencode with
  | [] => Ok []
  | b :: files_bencode =>
      file_dict ← parse_file_dict b;
      file ← as_multi_file file_dict;
      files ← multi_files files_bencode;
      Ok (file :: files)
  end.
End Files.

(** [<[u8]>::chunks] *)
Definition chunks {A} (n : nat) (l : list A) : list (list A) :=
  (fun i => take n (drop (i * n) l)) <$> seq 0 ((length l + n - 1) / n).

(** [src] copied over [dst] from [at_] on. *)
Definition overwrite {A} (at_ : nat) (dst src : list A) : list A := take at_ dst ++ src ++ drop (at_ + length src) dst.

(** The loop over the chunks; [hash_bytes] is reused. *)
Fixpoint hash_buffers (hash_bytes : bytes) (cs : list bytes) : list bytes :=
  match cs with
  | [] => []
  | chunk :: cs => let hash_bytes := overwrite 0 hash_bytes chunk in hash_bytes :: hash_buffers hash_bytes cs
  end.

Definition allocate_pieces (ps : bytes) : parsed (list bytes) :=
  if negb (length ps mod SHA_HASH_LEN =? 0) then
    Err (MissingData (ascii_bytes "Piece Hash Length Of " ++ to_string (Z.of_nat (length ps)) ++ ascii_bytes " Is Invalid"))
  else Ok (hash_buffers (replicate SHA_HASH_LEN 0%Z) (chunks SHA_HASH_LEN ps)).

Section Reading.
Context `{Sha1}.

Definition parse_info_dictionary (info_bencode : BencodeRef) : parsed Info :=
  let info_hash := ShaHash_from_bytes (buffer info_bencode) in
  info_dict ← parse_root_dict info_bencode;
  piece_len ← parse_piece_length info_dict;
  let is_private := parse_private info_dict in
  ps ← parse_pieces info_dict;
  piece_buffers ← allocate_pieces ps;
  if is_multi_file_torrent info_dict then
    file_directory ← parse_name info_dict;
    files_bencode ← parse_files_list info_dict;
    files_list ← multi_files files_bencode;
    Ok {| info_hash := info_hash; files := files_list; pieces := piece_buffers; piece_len := piece_len;
          is_private := is_private; file_directory := Some (path_push [] file_directory) |}
  else
    file ← as_single_file info_dict;
    Ok {| info_hash := info_hash; files := [file]; pieces := piece_buffers; piece_len := piece_len;
          is_private := is_private; file_directory := None |}.

Definition Info_from_bytes (bs : bytes) : parsed Info :=
  info_bencode ← map_err BencodeParse (BencodeRef_decode bs BDecodeOpt_default);
  parse_info_dictionary info_bencode.

Definition Metainfo_from_bytes (bs : bytes) : parsed Metainfo :=
  root_bencode ← map_err BencodeParse (BencodeRef_decode bs BDecodeOpt_default);
  root_dict ← parse_root_dict root_bencode;
  info_bencode ← parse_info_bencode root_dict;
  i ← parse_info_dictionary info_bencode;
  Ok {| comment := parse_comment root_dict; announce := parse_announce_url root_dict;
        announce_list := convert_announce_list <$> parse_announce_list root_dict;
        encoding := parse_encoding root_dict; created_by := parse_created_by root_dict;
        creation_date := parse_creation_date root_dict; info := i |}.
End Reading.

(** [From<Info>] *)
Definition Metainfo_from (i : Info) : Metainfo :=
  {| comment := None; announce := None; announce_list := None; encoding := None; created_by := None;
     creation_date := None; info := i |}.

(** [Files] and [Pieces]: an index into a slice. *)
Definition slice_next {A} (l : list A) (index : nat) : option A * nat :=
  match l !! index with Some x => (Some x, index + 1) | None => (None, index) end.

(** * accessor.rs *)

(** A [Read]: its bytes and a schedule; [Some k] lets at most [k + 1] bytes
    through, [None] is an error. *)
Record Reader := { rd_data : bytes; rd_sched : list (option nat) }.

(** [read(buf)] with [n = buf.len()]; [None] is an error. *)
Definition reader_read (n : nat) (r : Reader) : option bytes * Reader :=
  match rd_sched r with
  | [] => (Some (take n (rd_data r)), {| rd_data := drop n (rd_data r); rd_sched := [] |})
  | Some k :: sched =>
      let n := n `min` S k in (Some (take n (rd_data r)), {| rd_data := drop n (rd_data r); rd_sched := sched |})
  | None :: sched => (None, {| rd_data := rd_data r; rd_sched := sched |})
  end.

(** [Cursor] over a slice. *)
Definition cursor (bs : bytes) : Reader := {| rd_data := bs; rd_sched := [] |}.

Inductive PieceAccess : Type :=
  | Compute (region : Reader)
  | PreComputed (h : ShaHash).

(** What an accessor hands to the callbacks of its three methods. *)
Record Accessor := {
  access_directory : option Path;
  access_metadata : list (Z * Path);
  access_pieces : list PieceAccess;
}.

(** [Accessor for Info]; a piece is an array of twenty bytes. *)
Definition Info_accessor (i : Info) : Accessor :=
  {| access_directory := file_directory i;
     access_metadata := (fun f => (f_len f, f_path f)) <$> files i;
     access_pieces := (fun p => PreComputed {| hash := p |}) <$> pieces i |}.

(** [Accessor for DirectAccessor] *)
Definition DirectAccessor (file_name file_contents : bytes) : Accessor :=
  {| access_directory := None;
     access_metadata := [(Z.of_nat (length file_contents), file_name)];
     access_pieces := [Compute (cursor file_contents)] |}.

(** * builder/mod.rs *)

Definition ALL_OPT_MAX_PIECE_LENGTH : Z := 16 * 1024 * 1024.
Definition BALANCED_MAX_PIECES_SIZE : Z := 40000.
Definition BALANCED_MIN_PIECE_LENGTH : Z := 512 * 1024.
Definition FILE_SIZE_MAX_PIECES_SIZE : Z := 20000.
Definition FILE_SIZE_MIN_PIECE_LENGTH : Z := 1 * 1024 * 1024.
Definition TRANSFER_MAX_PIECES_SIZE : Z := 60000.
Definition TRANSFER_MIN_PIECE_LENGTH : Z := 1 * 1024.

Inductive PieceLength : Type := OptBalanced | OptFileSize | OptTransfer | Custom (len : Z).

Notation mdict := (list (list Z * BencodeMut)).

Record InfoBuilder := { ib_info : mdict; ib_piece_length : PieceLength }.
Record MetainfoBuilder := { mb_root : mdict; mb_info : InfoBuilder }.

Definition InfoBuilder_new : InfoBuilder := {| ib_info := []; ib_piece_length := OptBalanced |}.
Definition MetainfoBuilder_new : MetainfoBuilder := {| mb_root := []; mb_info := InfoBuilder_new |}.

(** Set a key of the root, or remove it. *)
Definition set_root (key : bytes) (v : option BencodeMut) (b : MetainfoBuilder) : MetainfoBuilder :=
  {| mb_root := match v with
                | Some v => (dict_insert (mb_root b) key v).2
                | None => (dict_remove (mb_root b) key).2
                end;
     mb_info := mb_info b |}.

Definition tracker_groups (groups : list (list bytes)) : BencodeMut :=
  MList ((fun group => MList (new_bytes <$> group)) <$> groups).

Definition set_trackers (o : option (list (list bytes))) (b : MetainfoBuilder) : MetainfoBuilder :=
  set_root ANNOUNCE_LIST_KEY (tracker_groups <$> o) b.
Definition set_main_tracker (o : option bytes) (b : MetainfoBuilder) : MetainfoBuilder :=
  set_root ANNOUNCE_URL_KEY (new_bytes <$> o) b.
Definition set_creation_date (o : option Z) (b : MetainfoBuilder) : MetainfoBuilder :=
  set_root CREATION_DATE_KEY (new_int <$> o) b.
Definition set_comment (o : option bytes) (b : MetainfoBuilder) : MetainfoBuilder :=
  set_root COMMENT_KEY (new_bytes <$> o) b.
Definition set_created_by (o : option bytes) (b : MetainfoBuilder) : MetainfoBuilder :=
  set_root CREATED_BY_KEY (new_bytes <$> o) b.

(** [opt.and_then(|n| insert(KEY, n)).or_else(|| remove(KEY))]: [insert] gives the
    value that was there before. *)
Definition ib_set_private_flag (o : option bool) (b : InfoBuilder) : InfoBuilder :=
  let '(old, d) :=
    match o with
    | Some p => dict_insert (ib_info b) PRIVATE_KEY (new_int (if p : bool then 1 else 0))
    | None => (None, ib_info b)
    end in
  {| ib_info := match old with Some _ => d | None => (dict_remove d PRIVATE_KEY).2 end;
     ib_piece_length := ib_piece_length b |}.

Definition ib_set_piece_length (l : PieceLength) (b : InfoBuilder) : InfoBuilder :=
  {| ib_info := ib_info b; ib_piece_length := l |}.

Definition set_private_flag (o : option bool) (b : MetainfoBuilder) : MetainfoBuilder :=
  {| mb_root := mb_root b; mb_info := ib_set_private_flag o (mb_info b) |}.
Definition set_piece_length (l : PieceLength) (b : MetainfoBuilder) : MetainfoBuilder :=
  {| mb_root := mb_root b; mb_info := ib_set_piece_length l (mb_info b) |}.

Definition get_trackers (b : MetainfoBuilder) : option (list (list bytes)) :=
  convert_announce_list <$> parse_announce_list (mb_root b).
Definition get_main_tracker (b : MetainfoBuilder) : option bytes := parse_announce_url (mb_root b).
Definition get_creation_date (b : MetainfoBuilder) : option Z := parse_creation_date (mb_root b).
Definition get_comment (b : MetainfoBuilder) : option bytes := parse_comment (mb_root b).
Definition get_created_by (b : MetainfoBuilder) : option bytes := parse_created_by (mb_root b).

Section Build.
Context `{Profile}.

(** [usize::next_power_of_two] *)
Definition next_power_of_two {E} (n : Z) : outcome E Z :=
  u64_arith (if (n <=? 1)%Z then 1 else 2 ^ Z.log2_up n)%Z.

Definition calculate_piece_length {E} (total_file_size max_pieces_size min_piece_length : Z) : outcome E Z :=
  let num_pieces := f64_div (f64_of_Z max_pieces_size) (f64_of_Z (Z.of_nat SHA_HASH_LEN)) in
  let piece_length := f64_as_u64 (f64_add (f64_div (f64_of_Z total_file_size) num_pieces) (f64_div (f64_of_Z 1) (f64_of_Z 2))) in
  pot_piece_length ← next_power_of_two piece_length;
  Ok match (min_piece_length <? pot_piece_length)%Z, (pot_piece_length <? ALL_OPT_MAX_PIECE_LENGTH)%Z with
     | true, true => pot_piece_length
     | false, _ => min_piece_length
     | _, false => ALL_OPT_MAX_PIECE_LENGTH
     end.

Definition determine_piece_length {E} (total_file_size : Z) (l : PieceLength) : outcome E Z :=
  match l with
  | Custom len => Ok len
  | OptBalanced => calculate_piece_length total_file_size BALANCED_MAX_PIECES_SIZE BALANCED_MIN_PIECE_LENGTH
  | OptFileSize => calculate_piece_length total_file_size FILE_SIZE_MAX_PIECES_SIZE FILE_SIZE_MIN_PIECE_LENGTH
  | OptTransfer => calculate_piece_length total_file_size TRANSFER_MAX_PIECES_SIZE TRANSFER_MIN_PIECE_LENGTH
  end.

Definition map_pieces_list (ps : list ShaHash) : bytes := concat (hash <$> ps).

(** The sum of the lengths of the files. *)
Fixpoint total_len {E} (acc : Z) (fs : list (Z * list Path)) : outcome E Z :=
  match fs with
  | [] => Ok acc
  | (len, _) :: fs => acc ← u64_arith (acc + len); total_len acc fs
  end.

(** The entry of a file in a torrent with several of them. *)
Definition bencode_file (f : Z * list Path) : BencodeMut :=
  ben_map [(LENGTH_KEY, new_int (to_i64 f.1)); (PATH_KEY, MList (new_bytes <$> f.2))].

(** [build_with_accessor]; [hasher] is [worker::start_hasher_workers] at a piece
    length. *)
Definition build_with_accessor (hasher : Z -> parsed (list (nat * ShaHash))) (threads : nat) (acc : Accessor)
    (opt_root : option mdict) (info : mdict) (piece_length : PieceLength) : parsed bytes :=
  if threads =? 0 then Panic
  else
    let files_info := (fun f : Z * Path => (f.1, path_iter f.2)) <$> access_metadata acc in
    total_files_len ← total_len 0 files_info;
    piece_length ← determine_piece_length total_files_len piece_length;
    pieces_list ← hasher piece_length;
    let ps := map_pieces_list (snd <$> pieces_list) in
    let info := (dict_insert info PIECE_LENGTH_KEY (new_int (to_i64 piece_length))).2 in
    let info := (dict_insert info PIECES_KEY (new_bytes ps)).2 in
    info ←
      match access_directory acc, 1 <? length files_info with
      | Some directory, _ =>
          let info := (dict_insert info NAME_KEY (new_bytes directory)).2 in
          Ok (dict_insert info FILES_KEY (MList (bencode_file <$> files_info))).2
      | None, true =>
          let info := (dict_insert info NAME_KEY (new_bytes [])).2 in
          Ok (dict_insert info FILES_KEY (MList (bencode_file <$> files_info))).2
      | None, false =>
          '(len, name) ← index files_info 0;
          let info := (dict_insert info LENGTH_KEY (new_int (to_i64 len))).2 in
          Ok (dict_insert info NAME_KEY (new_bytes (concat name))).2
      end;
    match opt_root with
    | Some root => Ok (encode (MDict (dict_insert root INFO_KEY (MDict info)).2))
    | None => Ok (encode (MDict info))
    end.

Definition MetainfoBuilder_build hasher threads acc (b : MetainfoBuilder) : parsed bytes :=
  build_with_accessor hasher threads acc (Some (mb_root b)) (ib_info (mb_info b)) (ib_piece_length (mb_info b)).
Definition InfoBuilder_build hasher threads acc (b : InfoBuilder) : parsed bytes :=
  build_with_accessor hasher threads acc None (ib_info b) (ib_piece_length b).

(** [Metainfo::to_bytes] and [Info::to_bytes] *)
Definition Metainfo_to_bytes hasher (m : Metainfo) : outcome Empty_set bytes :=
  unwrap (MetainfoBuilder_build hasher 1 (Info_accessor (info m))
    (set_piece_length (Custom (piece_len (info m))) (set_private_flag (is_private (info m))
      (set_created_by (created_by m) (set_comment (comment m) (set_creation_date (creation_date m)
        (set_main_tracker (announce m) MetainfoBuilder_new))))))).
Definition Info_to_bytes hasher (i : Info) : outcome Empty_set bytes :=
  unwrap (InfoBuilder_build hasher 1 (Info_accessor i)
    (ib_set_piece_length (Custom (piece_len i)) (ib_set_private_flag (is_private i) InfoBuilder_new))).
End Build.

(** * builder/buffer.rs *)

Record PieceBuffer := { pb_buffer : bytes; bytes_read : nat }.

Definition PieceBuffer_new (piece_length : nat) : PieceBuffer :=
  {| pb_buffer := replicate piece_length 0%Z; bytes_read := 0 |}.

(** [write_bytes] with [read] as its callback: the bytes that were read, [None] if
    the read fails. *)
Definition pb_write (read : nat -> option bytes * Reader) (b : PieceBuffer) : option nat * Reader * PieceBuffer :=
  match read (length (pb_buffer b) - bytes_read b) with
  | (Some new, r) =>
      (Some (length new), r,
       {| pb_buffer := overwrite (bytes_read b) (pb_buffer b) new; bytes_read := bytes_read b + length new |})
  | (None, r) => (None, r, b)
  end.

Definition is_whole (b : PieceBuffer) : bool := bytes_read b =? length (pb_buffer b).
Definition is_empty (b : PieceBuffer) : bool := bytes_read b =? 0.
Definition as_slice (b : PieceBuffer) : bytes := take (bytes_read b) (pb_buffer b).

Definition TOTAL_BUFFERS_MULTIPLICATIVE : nat := 2.
Definition TOTAL_BUFFERS_ADDITIVE : nat := 0.
Definition calculate_total_buffers (num_workers : nat) : nat :=
  num_workers * TOTAL_BUFFERS_MULTIPLICATIVE + TOTAL_BUFFERS_ADDITIVE.

(** [PieceBuffers]: a queue. *)
Definition PieceBuffers_new (piece_length num_workers : nat) : list PieceBuffer :=
  replicate (calculate_total_buffers num_workers) (PieceBuffer_new piece_length).
Definition buffers_checkin (q : list PieceBuffer) (b : PieceBuffer) : list PieceBuffer :=
  q ++ [{| pb_buffer := pb_buffer b; bytes_read := 0 |}].
Definition buffers_checkout (q : list PieceBuffer) : option PieceBuffer * list PieceBuffer :=
  match q with b :: q => (Some b, q) | [] => (None, []) end.
