(* ===== verification/Hasher.v ===== *)
(** Hasher: the threads that hash the pieces of a torrent,
    [btp-metainfo/src/builder/worker.rs].

    The master cuts the files into pieces and hands them to the workers through a
    queue, in buffers that the workers give back; the workers send the hashes
    over a channel.  A state holds the queues and where each thread stands, a
    step is one access of a thread to what the threads share ([master_step],
    [worker_step]), and a run is any interleaving of them ([hstep]).  A thread
    that polls an empty queue takes no step.  The progress updater only calls
    back to the user and is left out. *)

From stdpp Require Import base list sorting relations.
From Stdlib Require Import ZArith Lia.
From S2P Require Import Prelude ShaHash Effects Metainfo.

Inductive MasterMessage : Type :=
  | AcceptPiece (index : nat) (h : ShaHash)
  | WorkerFinished.

Inductive WorkerMessage : Type :=
  | HashPiece (index : nat) (b : PieceBuffer)
  | Finish.

(** Where a worker stands: about to pop; about to hash and send what it has
    popped; about to check the buffer in; about to say that it has finished;
    gone; or dead because the master's end of the channel is closed. *)
Inductive Worker : Type :=
  | WLoop
  | WHash (index : nat) (b : PieceBuffer)
  | WCheckin (b : PieceBuffer)
  | WStopping
  | WExited
  | WPanicked.

(** Where the master stands: between two regions; in the loop over a region;
    waiting for a buffer after a whole piece; pushing [k] more [Finish]; waiting
    for the workers, [finished] of which are; returned. *)
Inductive Master : Type :=
  | MAccess (calls : list PieceAccess) (opt_piece_buffer : option PieceBuffer)
  | MRegion (region : Reader) (curr : PieceBuffer) (calls : list PieceAccess)
  | MRefill (end_of_region : bool) (region : Reader) (calls : list PieceAccess)
  | MFinish (k : nat)
  | MCollect (workers_finished : nat)
  | MDone (result : list (nat * ShaHash))
  | MFailed.

Record Hashing := {
  master : Master;
  hashed : list (nat * ShaHash);
  piece_index : nat;
  work_queue : list WorkerMessage;
  buffers : list PieceBuffer;
  to_master : list MasterMessage;
  workers : list Worker;
}.

Definition hashing_eta (s : Hashing) : Hashing := {|
  master := master s; hashed := hashed s; piece_index := piece_index s; work_queue := work_queue s; buffers := buffers s; to_master := to_master s; workers := workers s |}.
#[global] Instance upd_hash_master : FieldUpdate master := ltac:(field_update hashing_eta master).
#[global] Instance upd_hashed : FieldUpdate hashed := ltac:(field_update hashing_eta hashed).
#[global] Instance upd_piece_index : FieldUpdate piece_index := ltac:(field_update hashing_eta piece_index).
#[global] Instance upd_work_queue : FieldUpdate work_queue := ltac:(field_update hashing_eta work_queue).
#[global] Instance upd_buffers : FieldUpdate buffers := ltac:(field_update hashing_eta buffers).
#[global] Instance upd_to_master : FieldUpdate to_master := ltac:(field_update hashing_eta to_master).
#[global] Instance upd_workers : FieldUpdate workers := ltac:(field_update hashing_eta workers).

(** The master's end of the channel is dropped when it returns. *)
Definition receiver_gone (s : Hashing) : bool :=
  match master s with MDone _ | MFailed => true | _ => false end.

Definition index_le : relation (nat * ShaHash) := fun one two => one.1 <= two.1.
#[global] Instance index_le_dec : RelDecision index_le.
Proof. intros one two. unfold index_le. apply _. Defined.

Section Steps.
Context `{Sha1} (num_workers : nat).

Definition set_worker (i : nat) (w : Worker) (s : Hashing) : Hashing := s <| workers := <[i := w]> (workers s) |>.

(** One turn of [start_hash_worker] of worker [i]. *)
Definition worker_step (i : nat) (s : Hashing) : option Hashing :=
  match workers s !! i with
  | Some WLoop =>
      match work_queue s with
      | [] => None
      | HashPiece index b :: q => Some (set_worker i (WHash index b) (s <| work_queue := q |>))
      | Finish :: q => Some (set_worker i WStopping (s <| work_queue := q |>))
      end
  | Some (WHash index b) =>
      if receiver_gone s then Some (set_worker i WPanicked s)
      else Some (set_worker i (WCheckin b)
             (s <| to_master := to_master s ++ [AcceptPiece index (ShaHash_from_bytes (as_slice b))] |>))
  | Some (WCheckin b) => Some (set_worker i WLoop (s <| buffers := buffers_checkin (buffers s) b |>))
  | Some WStopping =>
      if receiver_gone s then Some (set_worker i WPanicked s)
      else Some (set_worker i WExited (s <| to_master := to_master s ++ [WorkerFinished] |>))
  | _ => None
  end.

Definition push_work (m : WorkerMessage) (s : Hashing) : Hashing := s <| work_queue := work_queue s ++ [m] |>.
Definition push_piece (b : PieceBuffer) (s : Hashing) : Hashing :=
  (push_work (HashPiece (piece_index s) b) s) <| piece_index := piece_index s + 1 |>.

(** One step of [start_hash_master]. *)
Definition master_step (s : Hashing) : option Hashing :=
  match master s with
  | MAccess [] opt =>
      let s := match opt with Some b => if is_empty b then s else push_piece b s | None => s end in
      Some (s <| master := MFinish num_workers |>)
  | MAccess (PreComputed h :: calls) opt =>
      Some (s <| hashed := hashed s ++ [(piece_index s, h)] |> <| piece_index := piece_index s + 1 |>
              <| master := MAccess calls opt |>)
  | MAccess (Compute region :: calls) (Some b) => Some (s <| master := MRegion region b calls |>)
  | MAccess (Compute region :: calls) None =>
      match buffers_checkout (buffers s) with
      | (Some b, q) => Some (s <| buffers := q |> <| master := MRegion region b calls |>)
      | (None, _) => None
      end
  | MRegion region curr calls =>
      match pb_write (fun n => reader_read n region) curr with
      | (None, _, _) => Some (s <| master := MFailed |>)
      | (Some n, region, curr) =>
          let end_of_region := n =? 0 in
          if is_whole curr then Some ((push_piece curr s) <| master := MRefill end_of_region region calls |>)
          else if end_of_region then Some (s <| master := MAccess calls (Some curr) |>)
          else Some (s <| master := MRegion region curr calls |>)
      end
  | MRefill end_of_region region calls =>
      match buffers_checkout (buffers s) with
      | (Some b, q) =>
          Some (s <| buffers := q |>
                  <| master := if end_of_region then MAccess calls (Some b) else MRegion region b calls |>)
      | (None, _) => None
      end
  | MFinish (S k) => Some ((push_work Finish s) <| master := MFinish k |>)
  | MFinish 0 => Some (s <| master := MCollect 0 |>)
  | MCollect n =>
      if n <? num_workers then
        match to_master s with
        | AcceptPiece index h :: q => Some (s <| to_master := q |> <| hashed := hashed s ++ [(index, h)] |>)
        | WorkerFinished :: q => Some (s <| to_master := q |> <| master := MCollect (S n) |>)
        | [] => None
        end
      else Some (s <| master := MDone (merge_sort index_le (hashed s)) |>)
  | MDone _ | MFailed => None
  end.

Definition hstep (s s' : Hashing) : Prop := master_step s = Some s' \/ exists i, worker_step i s = Some s'.

(** [start_hasher_workers] before the first step. *)
Definition start_hasher_workers (piece_length : nat) (calls : list PieceAccess) : Hashing := {|
  master := MAccess calls None; hashed := []; piece_index := 0; work_queue := [];
  buffers := PieceBuffers_new piece_length num_workers; to_master := []; workers := replicate num_workers WLoop |}.
End Steps.

(** * What the hashes are to be *)

Section Spec.
Context `{Sha1} (piece_length : nat).

(** The pieces of the regions one after the other, [carry] bytes of a piece being
    left over so far.  Given hashes are taken as they come. *)
Fixpoint spec_pieces (carry : bytes) (calls : list PieceAccess) : list ShaHash :=
  match calls with
  | [] => if bool_decide (carry = []) then [] else [ShaHash_from_bytes carry]
  | PreComputed h :: calls => h :: spec_pieces carry calls
  | Compute region :: calls =>
      let data := carry ++ rd_data region in
      let whole := length data / piece_length in
      (ShaHash_from_bytes <$> chunks piece_length (take (whole * piece_length) data))
      ++ spec_pieces (drop (whole * piece_length) data) calls
  end.
End Spec.
