(* ===== verification/HasherCorrect.v ===== *)
(** HasherCorrect: whatever the interleaving of the hashing threads, they come to
    an end, and what they return are the hashes of the pieces in order. *)

From stdpp Require Import base list sorting relations.
From Stdlib Require Import ZArith Lia.
From Stdlib Require Permutation.
From S2P Require Import Prelude ShaHash Effects DhtToken Metainfo Hasher.

(** The fields of an updated state. *)
Ltac fields :=
  cbv beta iota delta [push_work push_piece set_worker update_field upd_hash_master upd_hashed upd_piece_index upd_work_queue
    upd_buffers upd_to_master upd_workers];
  cbn [master hashed piece_index work_queue buffers to_master workers].

(** * Lists *)

Lemma sum_insert {A} (f : A -> nat) l i x y :
  l !! i = Some x -> sum_list_with f (<[i := y]> l) + f x = sum_list_with f l + f y.
Proof.
  revert i. induction l as [|a l IH]; intros [|i] Hi; [done..| |].
  - injection Hi as ->. simpl. lia.
  - simpl. specialize (IH i Hi). lia.
Qed.

Lemma bind_insert {A B} (f : A -> list B) l i x y :
  l !! i = Some x -> (<[i := y]> l ≫= f) ++ f x ≡ₚ (l ≫= f) ++ f y.
Proof.
  revert i. induction l as [|a l IH]; intros [|i] Hi; [done..| |].
  - injection Hi as ->. simpl. rewrite (Permutation_app_comm (f y ++ _)), (Permutation_app_comm (f y)). by rewrite app_assoc.
  - simpl. rewrite <- !app_assoc. by rewrite (IH i Hi).
Qed.

Lemma swap_parts {A} `{EqDecision A} (a a' b b' c c' x x' : list A) :
  b' ++ x ≡ₚ b ++ x' -> a' ++ x' ++ c' ≡ₚ a ++ x ++ c -> a' ++ b' ++ c' ≡ₚ a ++ b ++ c.
Proof.
  assert (D : forall u v : A, {u = v} + {u <> v}) by apply EqDecision0.
  rewrite !(Permutation_count_occ D). intros H1 H2 u. specialize (H1 u). specialize (H2 u).
  rewrite !count_occ_app in *. lia.
Qed.

Lemma sum_pos {A} (f : A -> nat) l : 0 < sum_list_with f l -> exists i x, l !! i = Some x /\ 0 < f x.
Proof.
  induction l as [|a l IH]; simpl; [lia|]. destruct (f a) eqn:Ha.
  - intros Hs. destruct IH as (i & x & ? & ?); [lia|]. by exists (S i), x.
  - intros _. exists 0, a. split; [done|lia].
Qed.

Lemma sum_le {A} (f g : A -> nat) l : (forall x, f x <= g x) -> sum_list_with f l <= sum_list_with g l.
Proof. intros Hfg. induction l as [|a l IH]; simpl; [lia|]. specialize (Hfg a). lia. Qed.

Lemma sum_app {A} (f : A -> nat) l k : sum_list_with f (l ++ k) = sum_list_with f l + sum_list_with f k.
Proof. induction l as [|a l IH]; simpl; [done|]. lia. Qed.

Lemma sum_replicate {A} (f : A -> nat) m x : sum_list_with f (replicate m x) = m * f x.
Proof. induction m as [|m IH]; simpl; lia. Qed.

(** A list sorted by index that holds the entries of [xs] with their positions. *)
Lemma sorted_indices {A} (l : list (nat * A)) xs :
  l ≡ₚ imap pair xs -> Sorted (fun a b => a.1 <= b.1) l -> l = imap pair xs.
Proof.
  intros Hp Hs. assert (Hfst : forall ys : list A, (imap pair ys).*1 = seq 0 (length ys)).
  { intros ys. rewrite fmap_imap. apply list_eq. intros i. rewrite list_lookup_imap. destruct (ys !! i) eqn:Hi.
    - symmetry. apply lookup_seq. split; [done|]. by eapply lookup_lt_Some.
    - symmetry. apply lookup_ge_None. rewrite length_seq. by apply lookup_ge_None. }
  assert (Hl : l.*1 = seq 0 (length xs)).
  { apply (Sorted_unique (≤)).
    - clear Hp. induction Hs as [|a l _ IH Hd]; [constructor|]. constructor; [done|]. by destruct Hd; constructor.
    - apply StronglySorted_Sorted. generalize 0. induction (length xs) as [|m IH]; intros k; [constructor|]. cbn. constructor; [done|].
      apply Forall_seq. lia.
    - by rewrite Hp, Hfst. }
  apply list_eq. intros i. rewrite list_lookup_imap. pose proof (f_equal (.!! i) Hl) as Hi. cbv beta in Hi. rewrite list_lookup_fmap in Hi.
  destruct (l !! i) as [[k x]|] eqn:Hx; cbn in Hi.
  - symmetry in Hi. apply lookup_seq in Hi as [-> Hi]. apply list_elem_of_lookup_2 in Hx. rewrite Hp in Hx.
    apply elem_of_lookup_imap in Hx as (j & y & [= -> ->] & Hy). by rewrite Hy.
  - symmetry in Hi. apply lookup_ge_None in Hi. rewrite length_seq in Hi. by rewrite (proj2 (lookup_ge_None xs i) Hi).
Qed.

#[export] Instance index_le_total : Total index_le.
Proof. intros a b. unfold index_le. lia. Qed.

(** * Chunks *)

Section Chunks.
Context {A : Type} (n : nat) (Hn : 0 < n).
Implicit Types l : list A.

Lemma chunks_nil : chunks n ([] : list A) = [].
Proof. unfold chunks. cbn [length]. rewrite Nat.div_small by lia. done. Qed.

Lemma chunks_cons l k : length l = n -> chunks n (l ++ k) = l :: chunks n k.
Proof.
  intros Hl. unfold chunks. rewrite length_app, Hl.
  replace (n + length k + n - 1) with (1 * n + (length k + n - 1)) by lia. rewrite Nat.div_add_l by lia.
  cbn [Nat.add seq fmap list_fmap]. rewrite Nat.mul_0_l, drop_0, take_app_length' by done. f_equal.
  rewrite <- seq_shift, <- list_fmap_compose. apply list_fmap_ext. intros i j _. unfold compose.
  replace (S j * n) with (length l + j * n) by lia. by rewrite <- drop_drop, drop_app_length.
Qed.

Lemma chunks_short l : l <> [] -> length l < n -> chunks n l = [l].
Proof.
  intros Hne Hl. destruct l as [|a l]; [done|]. unfold chunks.
  replace ((length (a :: l) + n - 1) / n) with 1; [|cbn [length] in *; apply (Nat.div_unique _ _ _ (length l)); lia].
  cbn [seq fmap list_fmap]. by rewrite drop_0, take_ge by lia.
Qed.

(** What is left after the whole chunks are taken off. *)
Lemma chunks_split l w : w * n <= length l -> chunks n l = chunks n (take (w * n) l) ++ chunks n (drop (w * n) l).
Proof.
  revert l. induction w as [|w IH]; intros l Hl; cbn [Nat.mul] in *; [by rewrite take_0, chunks_nil, drop_0|].
  rewrite <- (take_drop n l) at 1 2 3. assert (Hlen : length (take n l) = n) by (rewrite length_take; lia).
  assert (E : take (n + w * n) (take n l ++ drop n l) = take n l ++ take (w * n) (drop n l))
    by (rewrite take_app_ge by lia; do 2 f_equal; lia).
  assert (E' : drop (n + w * n) (take n l ++ drop n l) = drop (w * n) (drop n l))
    by (rewrite drop_app_ge by lia; f_equal; lia).
  rewrite E, E', !chunks_cons by done. cbn [app]. f_equal. apply IH. rewrite length_drop. lia.
Qed.
End Chunks.

(** * The specification *)

Section Spec.
Context `{Sha1} (pl : nat) (Hpl : 0 < pl).

Definition region_of (bs : bytes) : Reader := {| rd_data := bs; rd_sched := [] |}.

(** Only the bytes of a region matter. *)
Lemma spec_data carry r carry' r' calls :
  carry ++ rd_data r = carry' ++ rd_data r' -> spec_pieces pl carry (Compute r :: calls) = spec_pieces pl carry' (Compute r' :: calls).
Proof. intros E. cbn [spec_pieces]. by rewrite E. Qed.

Lemma spec_cut piece r calls :
  length piece = pl ->
  spec_pieces pl piece (Compute r :: calls) = ShaHash_from_bytes piece :: spec_pieces pl [] (Compute r :: calls).
Proof.
  intros Hl. cbn [spec_pieces app]. rewrite length_app, Hl. replace (pl + length (rd_data r)) with (1 * pl + length (rd_data r)) by lia.
  rewrite Nat.div_add_l by lia. set (w := length (rd_data r) / pl). replace ((1 + w) * pl) with (length piece + w * pl) by lia.
  rewrite take_app_add, drop_app_add. by rewrite chunks_cons.
Qed.

Lemma spec_end carry r calls :
  rd_data r = [] -> length carry < pl -> spec_pieces pl carry (Compute r :: calls) = spec_pieces pl carry calls.
Proof.
  intros E Hl. cbn [spec_pieces]. rewrite E, app_nil_r, Nat.div_small by done. by rewrite take_0, chunks_nil, drop_0.
Qed.

(** Regions that are all hashed: the chunks of their concatenation. *)
Lemma spec_computed carry rs :
  length carry < pl ->
  spec_pieces pl carry (Compute <$> rs) = ShaHash_from_bytes <$> chunks pl (carry ++ concat (rd_data <$> rs)).
Proof.
  revert carry. induction rs as [|r rs IH]; intros carry Hl; cbn [fmap list_fmap concat spec_pieces].
  - rewrite app_nil_r. case_bool_decide as Hc; [by rewrite Hc, chunks_nil|]. by rewrite chunks_short.
  - rewrite app_assoc. set (data := carry ++ rd_data r). set (w := length data / pl).
    assert (Hw : w * pl <= length data) by (unfold w; rewrite Nat.mul_comm; apply Nat.Div0.mul_div_le).
    assert (Hr : length data < w * pl + pl)
      by (pose proof (Nat.div_mod_eq (length data) pl); pose proof (Nat.mod_upper_bound (length data) pl); unfold w; lia).
    rewrite IH by (rewrite length_drop; lia). rewrite <- fmap_app. f_equal.
    rewrite (chunks_split pl Hpl (data ++ _) w) by (rewrite length_app; lia).
    by rewrite take_app_le, drop_app_le by done.
Qed.

Lemma spec_given hs : spec_pieces pl [] (PreComputed <$> hs) = hs.
Proof. induction hs as [|h hs IH]; [done|]. cbn [fmap list_fmap spec_pieces]. f_equal. exact IH. Qed.
End Spec.

(** * Invariant *)

Section Run.
Context `{Sha1} (n pl : nat) (calls0 : list PieceAccess).

Definition sized_buffer (b : PieceBuffer) : Prop := length (pb_buffer b) = pl.
Definition fresh (b : PieceBuffer) : Prop := sized_buffer b /\ bytes_read b = 0.
Definition partial (b : PieceBuffer) : Prop := sized_buffer b /\ bytes_read b < pl.

(** The region can be read to its end. *)
Definition readable (a : PieceAccess) : Prop := match a with Compute r => None ∉ rd_sched r | PreComputed _ => True end.

Definition work_ok (m : WorkerMessage) : Prop := match m with HashPiece _ b => sized_buffer b | Finish => True end.
Definition worker_ok (w : Worker) : Prop :=
  match w with WHash _ b | WCheckin b => sized_buffer b | WPanicked => False | _ => True end.
Definition master_ok (m : Master) : Prop :=
  match m with
  | MAccess calls o => Forall readable calls /\ match o with Some b => partial b | None => True end
  | MRegion r b calls => readable (Compute r) /\ Forall readable calls /\ partial b
  | MRefill e r calls => e = false /\ readable (Compute r) /\ Forall readable calls
  | MFailed => False
  | _ => True
  end.

(** The hashes that are made or whose bytes are on their way to be hashed. *)
Definition hash_of (i : nat) (b : PieceBuffer) : nat * ShaHash := (i, ShaHash_from_bytes (as_slice b)).
Definition queued (m : WorkerMessage) : list (nat * ShaHash) := match m with HashPiece i b => [hash_of i b] | Finish => [] end.
Definition in_work (w : Worker) : list (nat * ShaHash) := match w with WHash i b => [hash_of i b] | _ => [] end.
Definition accepted (m : MasterMessage) : list (nat * ShaHash) := match m with AcceptPiece i h => [(i, h)] | _ => [] end.
Definition on_the_way (s : Hashing) : list (nat * ShaHash) :=
  hashed s ++ (to_master s ≫= accepted) ++ (workers s ≫= in_work) ++ (work_queue s ≫= queued).

(** The hashes still to be assigned. *)
Definition rest (m : Master) : list ShaHash :=
  match m with
  | MAccess calls o => spec_pieces pl (match o with Some b => as_slice b | None => [] end) calls
  | MRegion r b calls => spec_pieces pl (as_slice b) (Compute r :: calls)
  | MRefill _ r calls => spec_pieces pl [] (Compute r :: calls)
  | _ => []
  end.

Definition is_piece (m : WorkerMessage) : Prop := match m with HashPiece _ _ => True | Finish => False end.
Definition pieces_in (q : list WorkerMessage) : nat := sum_list_with (fun m => match m with HashPiece _ _ => 1 | Finish => 0 end) q.
Definition busy (w : Worker) : nat := match w with WHash _ _ | WCheckin _ => 1 | _ => 0 end.
Definition stopped (w : Worker) : nat := match w with WStopping | WExited => 1 | _ => 0 end.
Definition exited (w : Worker) : nat := match w with WExited => 1 | _ => 0 end.
Definition finishes (c : list MasterMessage) : nat := sum_list_with (fun m => match m with WorkerFinished => 1 | _ => 0 end) c.

(** Buffers in the master's hands, while it needs any. *)
Definition in_hand (m : Master) : option nat :=
  match m with
  | MAccess _ (Some _) | MRegion _ _ _ => Some 1
  | MAccess _ None | MRefill _ _ _ => Some 0
  | _ => None
  end.
(** The [Finish] messages that are still to be pushed, and the workers known to be done. *)
Definition to_push (m : Master) : nat := match m with MFinish k => k | MCollect _ | MDone _ => 0 | _ => n end.
Definition known (m : Master) : nat := match m with MCollect f => f | MDone _ => n | _ => 0 end.

Record hashing_ok (s : Hashing) : Prop := {
  hk_workers : length (workers s) = n /\ Forall worker_ok (workers s);
  hk_buffers : Forall fresh (buffers s);
  hk_master : master_ok (master s);
  hk_queue : exists q m, work_queue s = q ++ replicate m Finish /\ Forall is_piece q /\ Forall work_ok q /\
    m + to_push (master s) + sum_list_with stopped (workers s) = n /\ (0 < sum_list_with stopped (workers s) -> q = []);
  hk_known : known (master s) + finishes (to_master s) = sum_list_with exited (workers s) /\ known (master s) <= n;
  hk_last : sum_list_with exited (workers s) = n -> to_master s = [] \/ last (to_master s) = Some WorkerFinished;
  hk_pieces : exists assigned, length assigned = piece_index s /\ assigned ++ rest (master s) = spec_pieces pl [] calls0 /\
    on_the_way s ≡ₚ imap pair assigned;
  hk_count : forall h, in_hand (master s) = Some h ->
    length (buffers s) + pieces_in (work_queue s) + sum_list_with busy (workers s) + h = 2 * n;
  hk_result : forall r, master s = MDone r -> r = imap pair (spec_pieces pl [] calls0)
}.

Lemma start_ok : Forall readable calls0 -> hashing_ok (start_hasher_workers n pl calls0).
Proof.
  intros Hr. assert (Hz : forall f : Worker -> nat, f WLoop = 0 -> sum_list_with f (replicate n WLoop) = 0)
    by (intros f Hf; rewrite sum_replicate, Hf; lia).
  split; cbn [workers buffers master work_queue to_master piece_index start_hasher_workers to_push known rest in_hand].
  - split; [apply length_replicate|by apply Forall_replicate].
  - apply Forall_replicate. split; [by unfold sized_buffer; cbn; rewrite length_replicate|done].
  - done.
  - exists [], 0. rewrite Hz by done. split_and!; [done..|lia|done].
  - rewrite Hz by done. split; [done|lia].
  - by left.
  - exists []. split_and!; [done..|]. unfold on_the_way. cbn [hashed to_master workers work_queue start_hasher_workers mbind list_bind app].
    assert (E : forall k, replicate k WLoop ≫= in_work = []) by (by induction k). by rewrite E.
  - intros h [= <-]. unfold PieceBuffers_new, calculate_total_buffers, TOTAL_BUFFERS_MULTIPLICATIVE, TOTAL_BUFFERS_ADDITIVE.
    rewrite Hz, length_replicate by done. cbn. lia.
  - done.
Qed.

(** * Steps of a worker *)

Lemma sum_exited_le ws : sum_list_with exited ws <= length ws.
Proof. induction ws as [|[] ws IH]; simpl; lia. Qed.

(** A worker that has not exited keeps the others from being all. *)
Lemma exited_lt ws i w : ws !! i = Some w -> exited w = 0 -> sum_list_with exited ws < length ws.
Proof.
  intros Hi Hw. pose proof (sum_insert exited ws i w WExited Hi) as E. rewrite Hw in E.
  pose proof (sum_exited_le (<[i := WExited]> ws)) as Hle. rewrite length_insert in Hle. simpl in E. lia.
Qed.

(** A step in which worker [i] goes from [w] to [w'] and the master stands still. *)
Lemma worker_frame s s' i w w' :
  hashing_ok s -> workers s !! i = Some w ->
  master s' = master s -> hashed s' = hashed s -> piece_index s' = piece_index s -> workers s' = <[i := w']> (workers s) ->
  worker_ok w' -> Forall fresh (buffers s') ->
  (exists q m, work_queue s' = q ++ replicate m Finish /\ Forall is_piece q /\ Forall work_ok q /\
    m + to_push (master s) + sum_list_with stopped (<[i := w']> (workers s)) = n /\
    (0 < sum_list_with stopped (<[i := w']> (workers s)) -> q = [])) ->
  finishes (to_master s') + exited w = finishes (to_master s) + exited w' ->
  (exited w' = 0 \/ last (to_master s') = Some WorkerFinished) ->
  (to_master s' ≫= accepted) ++ in_work w' ++ (work_queue s' ≫= queued)
    ≡ₚ (to_master s ≫= accepted) ++ in_work w ++ (work_queue s ≫= queued) ->
  length (buffers s') + pieces_in (work_queue s') + busy w' = length (buffers s) + pieces_in (work_queue s) + busy w ->
  hashing_ok s'.
Proof.
  intros [[Hl Hw] Hb Hm Hq [Hk Hkn] Hlast (asg & Ha & Hr & Hp) Hc Hres] Hi E1 E2 E3 E4 Hw' Hb' Hq' Hf Hx Hperm Hcount.
  pose proof (sum_insert exited (workers s) i w w' Hi) as Se. pose proof (sum_insert busy (workers s) i w w' Hi) as Sb.
  pose proof (bind_insert in_work (workers s) i w w' Hi) as Sp. split; rewrite ?E1, ?E2, ?E3, ?E4; try done.
  - split; [by rewrite length_insert|by apply Forall_insert].
  - split; [lia|done].
  - intros He. destruct Hx as [Hx|Hx]; [|by right].
    assert (Hi' : <[i := w']> (workers s) !! i = Some w') by (apply list_lookup_insert_eq; by eapply lookup_lt_Some).
    pose proof (exited_lt _ _ _ Hi' Hx) as Hlt. rewrite length_insert in Hlt. lia.
  - exists asg. split_and!; [done|done|]. rewrite <- Hp. unfold on_the_way. rewrite E2, E4. apply Permutation_app_head.
    by apply (swap_parts _ _ _ _ _ _ (in_work w) (in_work w')).
  - intros h Hh. specialize (Hc h Hh). lia.
Qed.

Lemma finishes_app c m : finishes (c ++ [m]) = finishes c + finishes [m].
Proof. apply sum_app. Qed.

(** A queue of pieces and then [Finish]es, taken from the front. *)
Lemma queue_piece q m i b q' :
  Forall is_piece q -> q ++ replicate m Finish = HashPiece i b :: q' ->
  exists q1, q = HashPiece i b :: q1 /\ q' = q1 ++ replicate m Finish.
Proof. destruct q as [|x q]; [by destruct m|]. intros _ [= -> <-]. eauto. Qed.
Lemma queue_finish q m q' :
  Forall is_piece q -> q ++ replicate m Finish = Finish :: q' -> q = [] /\ exists m', m = S m' /\ q' = replicate m' Finish.
Proof. destruct q as [|x q]; intros Hq E; [destruct m; by inversion E; eauto|]. injection E as -> _. by apply Forall_cons in Hq as [[] _]. Qed.

(** A worker that has not exited is there to receive. *)
Lemma receiver_there s i w : hashing_ok s -> workers s !! i = Some w -> exited w = 0 -> receiver_gone s = false.
Proof.
  intros [[Hl _] _ Hm _ [Hk _] _ _ _ _] Hi Hw. pose proof (exited_lt _ _ _ Hi Hw). unfold receiver_gone.
  destruct (master s) eqn:E; try done. cbn [known] in Hk. lia.
Qed.

Lemma pop_ok s i s' : hashing_ok s -> workers s !! i = Some WLoop -> worker_step i s = Some s' -> hashing_ok s'.
Proof.
  intros Hs Hi. unfold worker_step. rewrite Hi. pose proof Hs as [_ Hb _ (q & m & Eq & Hq & Hok & Hm & Hz) _ _ _ _ _].
  pose proof (fun w' => sum_insert stopped (workers s) i WLoop w' Hi) as Ss. rewrite Eq.
  destruct (q ++ replicate m Finish) as [|[j b|] q'] eqn:E; [done|intros [= <-]..].
  - apply queue_piece in E as (q1 & -> & ->); [|done]. apply Forall_cons in Hok as [Hb1 Hok]. apply Forall_cons in Hq as [_ Hq].
    assert (H0 : sum_list_with stopped (workers s) <= 0) by (apply not_gt; intros Hgt; discriminate (Hz Hgt)).
    specialize (Ss (WHash j b)). simpl in Ss. apply (worker_frame s _ i WLoop (WHash j b) Hs Hi); [done..| | | | | | |].
    + done.
    + done.
    + exists q1, m. split_and!; [done..|lia|lia].
    + done.
    + by left.
    + cbn [work_queue set_worker to_master in_work]. rewrite Eq. by simpl.
    + rewrite Eq. unfold pieces_in. simpl. lia.
  - apply queue_finish in E as (-> & m' & -> & ->); [|done]. specialize (Ss WStopping). simpl in Ss.
    apply (worker_frame s _ i WLoop WStopping Hs Hi); [done..| | | | | | |].
    + done.
    + done.
    + exists [], m'. split_and!; [done..|lia|done].
    + done.
    + by left.
    + cbn [work_queue set_worker to_master in_work]. rewrite Eq. by simpl.
    + rewrite Eq. unfold pieces_in. by simpl.
Qed.

Lemma worker_step_ok s i s' : hashing_ok s -> worker_step i s = Some s' -> hashing_ok s'.
Proof.
  intros Hs. destruct (workers s !! i) as [w|] eqn:Hi; [|by unfold worker_step; rewrite Hi].
  destruct w as [|j b|b| | |] eqn:Ew; [by apply pop_ok|..]; unfold worker_step; rewrite Hi; try done;
    try (rewrite (receiver_there s i w) by (by rewrite ?Ew)); intros [= <-]; subst w;
    pose proof Hs as [[_ Hw] Hb _ (q & m & Eq & Hq & Hok & Hm & Hz) _ _ _ _ _];
    pose proof (fun w' => sum_insert stopped (workers s) i _ w' Hi) as Ss; pose proof (Forall_lookup_1 _ _ _ _ Hw Hi) as Hwi.
  - specialize (Ss (WCheckin b)). simpl in Ss.
    apply (worker_frame s _ i _ (WCheckin b) Hs Hi); [done..| | | | | | |]; try done.
    + exists q, m. split_and!; [done..|lia|]. intros ?. apply Hz. lia.
    + change (finishes (to_master s ++ [AcceptPiece j (ShaHash_from_bytes (as_slice b))]) + 0 = finishes (to_master s) + 0). by rewrite finishes_app.
    + by left.
    + change (((to_master s ++ [AcceptPiece j (ShaHash_from_bytes (as_slice b))]) ≫= accepted) ++ (work_queue s ≫= queued)
        ≡ₚ (to_master s ≫= accepted) ++ hash_of j b :: (work_queue s ≫= queued)). by rewrite bind_app, <- app_assoc.
  - specialize (Ss WLoop). simpl in Ss.
    apply (worker_frame s _ i _ WLoop Hs Hi); [done..| | | | | | |]; try done.
    + apply Forall_app. split; [done|]. by apply Forall_singleton.
    + exists q, m. split_and!; [done..|lia|]. intros ?. apply Hz. lia.
    + by left.
    + change (length (buffers_checkin (buffers s) b) + pieces_in (work_queue s) + 0 = length (buffers s) + pieces_in (work_queue s) + 1).
      unfold buffers_checkin. rewrite length_app. simpl. lia.
  - specialize (Ss WExited). simpl in Ss.
    apply (worker_frame s _ i _ WExited Hs Hi); [done..| | | | | | |]; try done.
    + exists q, m. split_and!; [done..|lia|]. intros ?. apply Hz. lia.
    + change (finishes (to_master s ++ [WorkerFinished]) + 0 = finishes (to_master s) + 1). by rewrite finishes_app.
    + right. apply last_snoc.
    + change (((to_master s ++ [WorkerFinished]) ≫= accepted) ++ (work_queue s ≫= queued)
        ≡ₚ (to_master s ≫= accepted) ++ (work_queue s ≫= queued)). by rewrite bind_app, app_nil_r.
Qed.

(** * Steps of the master *)

(** Reading into a buffer that has room. *)
Lemma pb_write_ok r b :
  readable (Compute r) -> partial b ->
  exists new r' b', pb_write (fun k => reader_read k r) b = (Some (length new), r', b') /\
    rd_data r = new ++ rd_data r' /\ as_slice b' = as_slice b ++ new /\ sized_buffer b' /\ bytes_read b' <= pl /\
    bytes_read b' = bytes_read b + length new /\ readable (Compute r') /\ (new = [] -> rd_data r = []).
Proof.
  intros Hr [Hsz Hlt]. unfold sized_buffer in Hsz. set (room := length (pb_buffer b) - bytes_read b).
  assert (E : exists k, 0 < k <= room /\ reader_read room r =
    (Some (take k (rd_data r)), {| rd_data := drop k (rd_data r); rd_sched := tail (rd_sched r) |})).
  { unfold reader_read. destruct r as [data [|[k|] sched]]; cbn [rd_sched rd_data tail].
    - exists room. split; [lia|done].
    - exists (room `min` S k). split; [lia|done].
    - exfalso. apply Hr. cbn. by left. }
  destruct E as (k & Hk & E). set (new := take k (rd_data r)) in E.
  assert (Hnew : length new <= room) by (unfold new; rewrite length_take; lia). eexists new, _, _. split.
  { unfold pb_write. fold room. by rewrite E. } cbn [rd_data as_slice pb_buffer bytes_read]. split_and!.
  - symmetry. apply take_drop.
  - unfold as_slice, overwrite. cbn [pb_buffer bytes_read]. rewrite app_assoc.
    apply take_app_length'. rewrite length_app, length_take. lia.
  - unfold sized_buffer, overwrite. cbn [pb_buffer]. rewrite !length_app, length_take, length_drop. lia.
  - lia.
  - done.
  - cbn [readable rd_sched] in *. intros Hin. apply Hr. destruct (rd_sched r); [done|by right].
  - intros Hnil. unfold new in Hnil. apply (f_equal length) in Hnil. rewrite length_take in Hnil. cbn in Hnil.
    apply nil_length_inv. lia.
Qed.

Lemma partial_slice b : partial b -> length (as_slice b) = bytes_read b.
Proof. intros [Hs Hlt]. unfold as_slice, sized_buffer in *. rewrite length_take. lia. Qed.

(** A step of the master, while it cuts pieces, that assigns the hashes [ext]: the
    workers stand still, the messages [gq] are pushed and the hashes [gh] noted. *)
Lemma master_frame s s' ext gq gh :
  hashing_ok s -> workers s' = workers s -> to_master s' = to_master s ->
  to_push (master s) = n -> to_push (master s') = n -> known (master s) = 0 -> known (master s') = 0 ->
  (forall r, master s' <> MDone r) ->
  work_queue s' = work_queue s ++ gq -> Forall is_piece gq -> Forall work_ok gq -> hashed s' = hashed s ++ gh ->
  gh ++ (gq ≫= queued) = imap (fun k h => (piece_index s + k, h)) ext -> piece_index s' = piece_index s + length ext ->
  ext ++ rest (master s') = rest (master s) -> Forall fresh (buffers s') -> master_ok (master s') ->
  (forall h', in_hand (master s') = Some h' -> exists h, in_hand (master s) = Some h /\
    length (buffers s') + length gq + h' = length (buffers s) + h) ->
  hashing_ok s'.
Proof.
  intros [Hw Hb Hm (q & m & Eq & Hq & Hok & Hsum & Hz) [Hk Hkn] Hlast (asg & Ha & Hr & Hp) Hc Hres]
    E1 E2 T1 T2 K1 K2 Hnd Eq' Hgq Hgok Eh Hext Hi Hrest Hb' Hm' Hcount.
  split; rewrite ?E1, ?E2, ?T2, ?K2; try done.
  - rewrite T1 in Hsum. assert (m = 0 /\ sum_list_with stopped (workers s) = 0) as [-> H0] by lia. rewrite app_nil_r in Eq.
    exists (q ++ gq), 0. rewrite Eq', Eq, app_nil_r. split_and!; [done|by apply Forall_app|by apply Forall_app|lia|lia].
  - rewrite K1 in Hk. split; [lia|lia].
  - exists (asg ++ ext). rewrite length_app, <- app_assoc, Hrest. split_and!; [lia|done|]. 
    assert (Ei : imap pair (asg ++ ext) = imap pair asg ++ gh ++ (gq ≫= queued))
      by (rewrite imap_app, Hext; f_equal; apply imap_ext; intros k h _; by rewrite <- Ha).
    rewrite Ei, <- Hp. unfold on_the_way. rewrite E1, E2, Eq', Eh, bind_app. clear. set (a := hashed s). set (b := to_master s ≫= accepted). set (c := workers s ≫= in_work).
    set (d := work_queue s ≫= queued). set (e := gq ≫= queued).
    rewrite <- !app_assoc. apply Permutation_app_head. rewrite !(app_assoc b), !(app_assoc (b ++ c)), app_assoc.
    rewrite (app_assoc (_ ++ d)). apply Permutation_app_tail, Permutation_app_comm.
  - intros h' Hh'. destruct (Hcount h' Hh') as (h & Hh & E). specialize (Hc h Hh). rewrite Eq'. unfold pieces_in in *. rewrite sum_app.
    assert (Hg : sum_list_with (fun m => match m with HashPiece _ _ => 1 | Finish => 0 end) gq = length gq).
    { clear -Hgq. induction Hgq as [|[]]; simpl; [done|lia|done]. }
    lia.
  - intros r Hr'. by destruct (Hnd r).
Qed.

(** Steps of the master that assign nothing. *)
Lemma master_quiet s s' :
  hashing_ok s -> workers s' = workers s -> to_master s' = to_master s -> work_queue s' = work_queue s -> hashed s' = hashed s ->
  piece_index s' = piece_index s ->
  to_push (master s) = n -> to_push (master s') = n -> known (master s) = 0 -> known (master s') = 0 ->
  (forall r, master s' <> MDone r) -> rest (master s') = rest (master s) -> Forall fresh (buffers s') -> master_ok (master s') ->
  (forall h', in_hand (master s') = Some h' -> exists h, in_hand (master s) = Some h /\
    length (buffers s') + h' = length (buffers s) + h) ->
  hashing_ok s'.
Proof.
  intros Hs E1 E2 E3 E4 E5 T1 T2 K1 K2 Hnd Hr Hb Hm Hc.
  apply (master_frame s s' [] [] []); rewrite ?app_nil_r; try done; [simpl; lia|].
  intros h' Hh'. destruct (Hc h' Hh') as (h & ? & ?). exists h. split; [done|]. simpl. lia.
Qed.

Lemma pushed_ok s s' b calls' :
  hashing_ok s -> to_push (master s) = n -> known (master s) = 0 -> workers s' = workers s -> to_master s' = to_master s ->
  to_push (master s') = n -> known (master s') = 0 -> (forall r, master s' <> MDone r) ->
  work_queue s' = work_queue s ++ [HashPiece (piece_index s) b] -> hashed s' = hashed s -> piece_index s' = piece_index s + 1 ->
  buffers s' = buffers s -> sized_buffer b -> rest (master s) = ShaHash_from_bytes (as_slice b) :: calls' -> rest (master s') = calls' ->
  master_ok (master s') ->
  (forall h', in_hand (master s') = Some h' -> in_hand (master s) = Some (h' + 1)) ->
  hashing_ok s'.
Proof.
  intros Hs T1 K1 E1 E2 T2 K2 Hnd Eq Eh Ei Eb Hb R1 R2 Hm Hc.
  apply (master_frame s s' [ShaHash_from_bytes (as_slice b)] [HashPiece (piece_index s) b] []); rewrite ?app_nil_r; try done.
  - by apply Forall_singleton.
  - by apply Forall_singleton.
  - cbn. by rewrite Nat.add_0_r.
  - by rewrite R1, R2.
  - rewrite Eb. by destruct Hs.
  - intros h' Hh'. exists (h' + 1). rewrite Eb. split; [by apply Hc|]. simpl. lia.
Qed.

Lemma access_end_ok s o :
  hashing_ok s -> master s = MAccess [] o ->
  hashing_ok ((match o with Some b => if is_empty b then s else push_piece b s | None => s end) <| master := MFinish n |>).
Proof.
  intros Hs E. pose proof Hs as [_ Hb Hm _ _ _ _ _ _]. rewrite E in Hm. destruct Hm as [_ Hm].
  assert (Hquiet : rest (master s) = [] -> hashing_ok (s <| master := MFinish n |>)).
  { intros Hr. rewrite E in Hr. by apply (master_quiet s); rewrite ?E, ?Hr. }
  destruct o as [b|]; [|apply Hquiet; by rewrite E]. pose proof (partial_slice b Hm) as Hlen. unfold is_empty.
  destruct (Nat.eqb_spec (bytes_read b) 0) as [Hz|Hz].
  - apply Hquiet. rewrite E. cbn [rest spec_pieces]. rewrite bool_decide_eq_true_2; [done|]. apply nil_length_inv. lia.
  - apply (pushed_ok s _ b []); rewrite ?E; try done; [apply Hm|]. cbn [rest spec_pieces].
    rewrite bool_decide_eq_false_2; [done|]. intros Hnil. rewrite Hnil in Hlen. cbn in Hlen. lia.
Qed.

Lemma access_given_ok s h calls o :
  hashing_ok s -> master s = MAccess (PreComputed h :: calls) o ->
  hashing_ok (s <| hashed := hashed s ++ [(piece_index s, h)] |> <| piece_index := piece_index s + 1 |> <| master := MAccess calls o |>).
Proof.
  intros Hs E. pose proof Hs as [_ Hb Hm _ _ _ _ _ _]. rewrite E in Hm. destruct Hm as [Hc Hm]. apply Forall_cons in Hc as [_ Hc].
  apply (master_frame s _ [h] [] [(piece_index s, h)]); rewrite ?E; try done.
  - by rewrite app_nil_r.
  - cbn. by rewrite Nat.add_0_r.
  - intros h' Hh'. exists h'. by split; [destruct o|]; cbn; rewrite ?Nat.add_0_r.
Qed.

(** Taking a buffer from the queue. *)
Lemma checkout_ok s b q m' :
  hashing_ok s -> to_push (master s) = n -> known (master s) = 0 -> in_hand (master s) = Some 0 -> buffers s = b :: q ->
  to_push m' = n -> known m' = 0 -> in_hand m' = Some 1 -> rest m' = rest (master s) ->
  (partial b -> 0 < pl -> master_ok m') -> 0 < pl -> (forall r, m' <> MDone r) ->
  hashing_ok (s <| buffers := q |> <| master := m' |>).
Proof.
  intros Hs T1 K1 I1 Eb T2 K2 I2 R Hok Hpl Hnd. pose proof Hs as [_ Hb _ _ _ _ _ _ _]. rewrite Eb in Hb.
  apply Forall_cons in Hb as [[Hb1 Hb2] Hb]. apply (master_quiet s); try done.
  - apply Hok; [|done]. split; [done|]. lia.
  - intros h' Hh'. exists 0. split; [done|]. change (length q + h' = length (buffers s) + 0). rewrite Eb. simpl.
    change (in_hand m' = Some h') in Hh'. rewrite I2 in Hh'. injection Hh' as <-. lia.
Qed.

Lemma region_ok s s' r b calls :
  0 < pl -> hashing_ok s -> master s = MRegion r b calls -> master_step n s = Some s' -> hashing_ok s'.
Proof.
  intros Hpl Hs E. pose proof Hs as [_ Hb Hm _ _ _ _ _ _]. rewrite E in Hm. destruct Hm as (Hr & Hc & Hp).
  destruct (pb_write_ok r b Hr Hp) as (new & r' & b' & Ew & Hd & Hsl & Hsz & Hle & Hbr & Hr' & Hnil).
  unfold master_step. rewrite E, Ew.
  assert (Hrest : rest (master s) = spec_pieces pl (as_slice b') (Compute r' :: calls)).
  { rewrite E. cbn [rest]. apply spec_data. by rewrite Hsl, <- app_assoc, <- Hd. }
  assert (Hpart : length new = 0 -> new = []) by apply nil_length_inv. destruct Hp as [Hp1 Hp2]. unfold is_whole, sized_buffer in *. rewrite Hsz.
  destruct (Nat.eqb_spec (bytes_read b') pl) as [Hw|Hw]; [|destruct (Nat.eqb_spec (length new) 0) as [H0|H0]]; intros [= <-].
  - assert (Hl : length (as_slice b') = pl) by (unfold as_slice; rewrite length_take; lia).
    assert (Hf : (length new =? 0) = false) by (apply Nat.eqb_neq; lia). rewrite Hf.
    rewrite spec_cut in Hrest by done. eapply (pushed_ok s _ b' _ Hs); rewrite ?E; try done; [rewrite <- E; exact Hrest|].
    by intros h' [= <-].
  - assert (Hl : length (as_slice b') < pl) by (rewrite (partial_slice b'); [lia|by split; [|lia]]).
    rewrite (Hpart H0) in Hd. rewrite (Hnil (Hpart H0)) in Hd. rewrite spec_end in Hrest by done.
    apply (master_quiet s); rewrite ?E; try done; [by rewrite <- E, Hrest|by split; [|split; [|lia]]|].
    intros h' [= <-]. by exists 1.
  - apply (master_quiet s); rewrite ?E; try done; [by rewrite <- E, Hrest|by split; [|split; [|split; [|lia]]]|].
    intros h' [= <-]. by exists 1.
Qed.

Lemma push_finish_ok s k : hashing_ok s -> master s = MFinish (S k) -> hashing_ok ((push_work Finish s) <| master := MFinish k |>).
Proof.
  intros [Hw Hb Hm (q & m & Eq & Hq & Hok & Hsum & Hz) Hk Hlast Hp Hc Hres] E. rewrite E in *. split; try done.
  - exists q, (S m). fields. rewrite Eq. split_and!; [|done|done| |done].
    + rewrite <- app_assoc. f_equal. change [Finish] with (replicate 1 Finish). rewrite <- replicate_add. f_equal. lia.
    + cbn [to_push] in *. lia.
  - destruct Hp as (asg & Ha & Hr & Hp). exists asg. split_and!; [done|done|]. rewrite <- Hp. unfold on_the_way. fields.
    rewrite bind_app, app_nil_r. done.
Qed.

Lemma receive_ok s f m c :
  hashing_ok s -> master s = MCollect f -> f < n -> to_master s = m :: c ->
  hashing_ok (match m with
              | AcceptPiece index h => s <| to_master := c |> <| hashed := hashed s ++ [(index, h)] |>
              | WorkerFinished => s <| to_master := c |> <| master := MCollect (S f) |>
              end).
Proof.
  intros [Hw Hb Hm (q & k & Eq & Hq & Hok & Hsum & Hz) [Hk Hkn] Hlast (asg & Ha & Hr & Hp) Hc Hres] E Hf Em.
  rewrite E, Em in *. cbn [to_push known rest] in *.
  assert (Hlast' : sum_list_with exited (workers s) = n -> c = [] \/ last c = Some WorkerFinished).
  { intros He. destruct (Hlast He) as [|Hl]; [done|]. destruct c as [|m' c]; [by left|right; exact Hl]. }
  destruct m as [j h|]; (split; try done).
  - change (master_ok (master s)). by rewrite E.
  - exists q, k. fields. rewrite E. done.
  - fields. rewrite E. split; [|done]. rewrite <- Hk. done.
  - exists asg. fields. rewrite E. split_and!; [done|done|]. rewrite <- Hp. unfold on_the_way. fields.
    rewrite Em. rewrite <- app_assoc. done.
  - fields. by rewrite E.
  - intros r Hr'. change (master s = MDone r) in Hr'. by rewrite E in Hr'.
  - exists q, k. done.
  - split; [|exact Hf]. fields. cbn [known]. rewrite <- Hk. unfold finishes. simpl. lia.
  - exists asg. split_and!; [done|done|]. rewrite <- Hp. unfold on_the_way. fields. by rewrite Em.
Qed.

(** When all workers are known to be done, nothing is left on the way. *)
Lemma all_done s f :
  0 < n -> hashing_ok s -> master s = MCollect f -> ~ f < n -> hashed s ≡ₚ imap pair (spec_pieces pl [] calls0).
Proof.
  intros Hn [[Hl Hw] Hb Hm (q & k & Eq & Hq & Hok & Hsum & Hz) [Hk Hkn] Hlast (asg & Ha & Hr & Hp) Hc Hres] E Hf.
  rewrite E in *. cbn [to_push known rest] in *. rewrite app_nil_r in Hr. subst asg.
  pose proof (sum_exited_le (workers s)) as Hle. assert (Hex : sum_list_with exited (workers s) = n) by lia.
  assert (Hst : sum_list_with exited (workers s) <= sum_list_with stopped (workers s)) by (apply sum_le; by intros []; simpl; lia).
  assert (k = 0) as -> by lia. rewrite app_nil_r in Eq.
  assert (Hqn : q = []) by (apply Hz; lia).
  assert (Hch : to_master s = []).
  { destruct (Hlast Hex) as [|Hlw]; [done|]. apply last_Some in Hlw as [c' E']. rewrite E', finishes_app in Hk. simpl in Hk. lia. }
  assert (Hwk : workers s ≫= in_work = []).
  { clear -Hl Hex. revert n Hl Hex. induction (workers s) as [|w ws IH]; intros k Hl Hex; [done|].
    pose proof (sum_exited_le ws). destruct k as [|k]; [done|]. injection Hl as Hl. destruct w; simpl in *; try lia.
    apply (IH k); [done|lia]. }
  rewrite <- Hp. unfold on_the_way. by rewrite Hch, Hwk, Eq, Hqn, app_nil_r.
Qed.

Lemma collected_ok s f :
  0 < n -> hashing_ok s -> master s = MCollect f -> ~ f < n ->
  hashing_ok (s <| master := MDone (merge_sort index_le (hashed s)) |>).
Proof.
  intros Hn Hs E Hf. pose proof (all_done s f Hn Hs E Hf) as Hd.
  destruct Hs as [Hw Hb Hm (q & k & Eq & Hq & Hok & Hsum & Hz) [Hk Hkn] Hlast (asg & Ha & Hr & Hp) Hc Hres].
  rewrite E in *. cbn [to_push known rest] in *. split; try done.
  - by exists q, k.
  - split; [|done]. fields. cbn [known]. lia.
  - by exists asg.
  - intros r. fields. intros [= <-]. apply sorted_indices; [by rewrite merge_sort_Permutation|].
    apply (Sorted_merge_sort index_le).
Qed.

Lemma master_step_ok s s' : 0 < n -> 0 < pl -> hashing_ok s -> master_step n s = Some s' -> hashing_ok s'.
Proof.
  intros Hn Hpl Hs Hst. pose proof (hk_master _ Hs) as Hm. destruct (master s) as [calls o|r b calls|e r calls|k|f|res|] eqn:E.
  2: by eapply region_ok.
  all: unfold master_step in Hst; rewrite E in Hst; try done.
  - destruct Hm as [Hc Hm]. destruct calls as [|[r|h] calls]; [injection Hst as <-; by apply access_end_ok| |injection Hst as <-; by apply access_given_ok].
    apply Forall_cons in Hc as [Hr Hc]. destruct o as [b|].
    + injection Hst as <-. apply (master_quiet s); rewrite ?E; try done; [by destruct Hs|]. intros h' [= <-]. by exists 1.
    + unfold buffers_checkout in Hst. destruct (buffers s) as [|b q] eqn:Eb; [done|]. injection Hst as <-.
      apply (checkout_ok s b q); rewrite ?E; try done. cbn [rest]. apply spec_data. f_equal. unfold as_slice.
      pose proof (hk_buffers _ Hs) as Hb. rewrite Eb in Hb. apply Forall_cons in Hb as [[_ ->] _]. apply take_0.
  - destruct Hm as (-> & Hr & Hc). unfold buffers_checkout in Hst. destruct (buffers s) as [|b q] eqn:Eb; [done|]. injection Hst as <-.
    apply (checkout_ok s b q); rewrite ?E; try done. cbn [rest]. apply spec_data. f_equal. unfold as_slice.
    pose proof (hk_buffers _ Hs) as Hb. rewrite Eb in Hb. apply Forall_cons in Hb as [[_ ->] _]. apply take_0.
  - destruct k as [|k]; injection Hst as <-; [|by apply push_finish_ok].
    destruct Hs as [Hw Hb _ Hq Hk Hlast Hp Hc Hres]. rewrite E in *. by split.
  - destruct (Nat.ltb_spec f n) as [Hf|Hf]; [|injection Hst as <-; apply (collected_ok s f); [done..|lia]].
    destruct (to_master s) as [|m c] eqn:Em; [done|]. pose proof (receive_ok s f m c Hs E Hf Em) as Hrec. by destruct m; injection Hst as <-.
Qed.

Lemma hstep_ok s s' : 0 < n -> 0 < pl -> hashing_ok s -> hstep n s s' -> hashing_ok s'.
Proof. intros Hn Hpl Hs [Hm|[i Hw]]; [by eapply master_step_ok|by eapply worker_step_ok]. Qed.

(** * Termination *)

(** Steps that are left at most. *)
Definition call_cost (a : PieceAccess) : nat := match a with Compute r => 10 * length (rd_data r) + 2 | PreComputed _ => 1 end.
Definition master_cost (m : Master) : nat :=
  match m with
  | MAccess calls _ => sum_list_with call_cost calls + (4 * n + 7)
  | MRegion r _ calls => 10 * length (rd_data r) + 1 + sum_list_with call_cost calls + (4 * n + 7)
  | MRefill _ r calls => 10 * length (rd_data r) + 2 + sum_list_with call_cost calls + (4 * n + 7)
  | MFinish k => 4 * k + 2
  | MCollect _ => 1
  | MDone _ | MFailed => 0
  end.
Definition work_cost (m : WorkerMessage) : nat := match m with HashPiece _ _ => 4 | Finish => 3 end.
Definition worker_cost (w : Worker) : nat := match w with WHash _ _ => 3 | WCheckin _ => 1 | WStopping => 2 | _ => 0 end.
Definition cost (s : Hashing) : nat :=
  master_cost (master s) + sum_list_with work_cost (work_queue s) + sum_list_with worker_cost (workers s) + length (to_master s).

Lemma worker_step_cost s i s' : worker_step i s = Some s' -> cost s' < cost s.
Proof.
  unfold worker_step. destruct (workers s !! i) as [w|] eqn:Hi; [|done]. pose proof (fun w' => sum_insert worker_cost (workers s) i w w' Hi) as Sw.
  unfold cost. destruct w as [|j b|b| | |]; try done.
  - destruct (work_queue s) as [|[j b|] q] eqn:Eq; [done|intros [= <-]; fields..].
    + specialize (Sw (WHash j b)). simpl in *. lia.
    + specialize (Sw WStopping). simpl in *. lia.
  - destruct (receiver_gone s); intros [= <-]; fields.
    + specialize (Sw WPanicked). simpl in *. lia.
    + specialize (Sw (WCheckin b)). rewrite length_app. simpl in *. lia.
  - intros [= <-]. fields. specialize (Sw WLoop). simpl in *. lia.
  - destruct (receiver_gone s); intros [= <-]; fields.
    + specialize (Sw WPanicked). simpl in *. lia.
    + specialize (Sw WExited). rewrite length_app. simpl in *. lia.
Qed.

Lemma region_cost s s' r b calls : hashing_ok s -> master s = MRegion r b calls -> master_step n s = Some s' -> cost s' < cost s.
Proof.
  intros Hs E. pose proof (hk_master _ Hs) as Hm. rewrite E in Hm. destruct Hm as (Hr & Hc & Hp).
  destruct (pb_write_ok r b Hr Hp) as (new & r' & b' & Ew & Hd & _ & Hsz & _ & Hbr & _). unfold master_step, cost. rewrite E, Ew.
  apply (f_equal length) in Hd. rewrite length_app in Hd. destruct Hp as [_ Hlt]. unfold is_whole, sized_buffer in *. rewrite Hsz.
  destruct (Nat.eqb_spec (bytes_read b') pl); [|destruct (Nat.eqb_spec (length new) 0)]; intros [= <-]; fields; cbn [master_cost];
    rewrite ?sum_app; simpl; lia.
Qed.

Lemma master_step_cost s s' : hashing_ok s -> master_step n s = Some s' -> cost s' < cost s.
Proof.
  intros Hs Hst. destruct (master s) as [calls o|r b calls|e r calls|k|f|res|] eqn:E; [|by eapply region_cost|..];
    unfold master_step in Hst; rewrite E in Hst; unfold cost; rewrite E; try done.
  - destruct calls as [|[r|h] calls].
    + injection Hst as <-. destruct o as [b|]; [destruct (is_empty b)|]; fields; cbn [master_cost]; rewrite ?sum_app; simpl; lia.
    + destruct o as [b|]; [injection Hst as <-; fields; simpl; lia|]. destruct (buffers_checkout _) as [[b|] q]; [|done].
      injection Hst as <-. fields. simpl. lia.
    + injection Hst as <-. fields. simpl. lia.
  - destruct (buffers_checkout _) as [[b|] q]; [|done]. injection Hst as <-. fields. destruct e; simpl; lia.
  - destruct k as [|k]; injection Hst as <-; fields; cbn [master_cost]; rewrite ?sum_app; simpl; lia.
  - destruct (f <? n); [|injection Hst as <-; fields; simpl; lia]. destruct (to_master s) as [|[j h|] c]; [done|..]; injection Hst as <-;
      fields; rewrite ?E; simpl; lia.
Qed.

Lemma hstep_cost s s' : hashing_ok s -> hstep n s s' -> cost s' < cost s.
Proof. intros Hs [Hm|[i Hw]]; [by apply master_step_cost|by eapply worker_step_cost]. Qed.

Lemma run_keeps_ok s s' : 0 < n -> 0 < pl -> hashing_ok s -> rtc (hstep n) s s' -> hashing_ok s'.
Proof. intros Hn Hpl Hs Hr. induction Hr as [s|s s1 s' Hst _ IH]; [done|]. apply IH. by eapply hstep_ok. Qed.

Lemma run_bounded k s s' : 0 < n -> 0 < pl -> hashing_ok s -> nsteps (hstep n) k s s' -> k + cost s' <= cost s.
Proof.
  intros Hn Hpl Hs Hr. induction Hr as [s|k s s1 s' Hst _ IH]; [done|]. pose proof (hstep_cost _ _ Hs Hst).
  specialize (IH (hstep_ok _ _ Hn Hpl Hs Hst)). lia.
Qed.

(** Workers that cannot take a step are gone or wait for work. *)
Lemma workers_stuck s :
  (forall i, worker_step i s = None) -> Forall worker_ok (workers s) ->
  Forall (fun w => w = WExited \/ (w = WLoop /\ work_queue s = [])) (workers s).
Proof.
  intros Hst Hok. apply Forall_lookup_2. intros i w Hi. specialize (Hst i). pose proof (Forall_lookup_1 _ _ _ _ Hok Hi) as Hw.
  unfold worker_step in Hst. rewrite Hi in Hst. destruct w; try done; try (by destruct (receiver_gone s)); [|by left].
  right. by destruct (work_queue s) as [|[]].
Qed.

Lemma stuck_sums s (f : Worker -> nat) :
  Forall (fun w => w = WExited \/ (w = WLoop /\ work_queue s = [])) (workers s) -> f WLoop = 0 ->
  sum_list_with f (workers s) = f WExited * sum_list_with exited (workers s).
Proof. intros Hf Hz. induction Hf as [|w ws [-> |[-> _]] _ IH]; simpl; lia. Qed.

Lemma stuck_queue s :
  Forall (fun w => w = WExited \/ (w = WLoop /\ work_queue s = [])) (workers s) ->
  sum_list_with exited (workers s) < length (workers s) -> work_queue s = [].
Proof. intros Hf. induction Hf as [|w ws [-> |[-> ?]] _ IH]; simpl; [lia|intros ?; apply IH; lia|done]. Qed.

Lemma progress s : 0 < n -> hashing_ok s -> nf (hstep n) s -> exists r, master s = MDone r.
Proof.
  intros Hn Hs Hnf. assert (Hms : master_step n s = None)
    by (destruct (master_step n s) as [s'|] eqn:E; [destruct Hnf; exists s'; by left|done]).
  assert (Hws : forall i, worker_step i s = None)
    by (intros i; destruct (worker_step i s) as [s'|] eqn:E; [destruct Hnf; exists s'; by right; exists i|done]).
  destruct Hs as [[Hl Hw] Hb Hm (q & m & Eq & Hq & _ & Hsum & _) [Hk _] _ _ Hc _].
  pose proof (workers_stuck s Hws Hw) as Hst. pose proof (stuck_sums s stopped Hst eq_refl) as Ss. pose proof (stuck_sums s busy Hst eq_refl) as Sb.
  simpl in Ss, Sb.
  assert (Hwait : to_push (master s) = n -> in_hand (master s) = Some 0 -> buffers s = [] -> False).
  { intros T I B. specialize (Hc 0 I). rewrite B, (stuck_queue s Hst) in Hc by lia. simpl in Hc. lia. }
  unfold master_step in Hms. destruct (master s) as [calls o|r b calls|e r calls|k|f|res|] eqn:E; try done; [..|by exists res].
  - destruct calls as [|[r|h] calls]; [done| |done]. destruct o as [b|]; [done|].
    destruct (buffers s) as [|b l]; [by destruct Hwait|done].
  - destruct (pb_write _ b) as [[[k|] r'] b']; [|done]. by destruct (is_whole b'), (k =? 0).
  - destruct (buffers s) as [|b l]; [by destruct Hwait|done].
  - by destruct k.
  - cbn [to_push known] in *. destruct (Nat.ltb_spec f n) as [Hf|Hf]; [|done]. destruct (to_master s) as [|[] c]; try done.
    simpl in Hk. assert (E' : work_queue s = []) by (apply stuck_queue; [done|lia]). rewrite E' in Eq.
    destruct q; [|done]. destruct m; [lia|done].
Qed.
End Run.

(** C10. Hashing with any number of workers: every interleaving of the master and
    its workers comes to an end, after at most [cost] steps, and it ends with the
    master returning, for every piece in order, its index and its hash.  When
    all regions are hashed, the pieces are the consecutive chunks of their
    concatenation. *)
Theorem hashing_ends `{Sha1} (num_workers piece_length : nat) (calls : list PieceAccess) (s : Hashing) :
  0 < num_workers -> 0 < piece_length -> Forall readable calls ->
  rtc (hstep num_workers) (start_hasher_workers num_workers piece_length calls) s ->
  (forall k s', nsteps (hstep num_workers) k s s' -> k <= cost num_workers s) /\
  (nf (hstep num_workers) s -> master s = MDone (imap pair (spec_pieces piece_length [] calls))) /\
  (forall regions, calls = Compute <$> regions ->
    spec_pieces piece_length [] calls = ShaHash_from_bytes <$> chunks piece_length (concat (rd_data <$> regions))).
Proof.
  intros Hn Hpl Hr Hrun. pose proof (run_keeps_ok _ _ _ _ _ Hn Hpl (start_ok _ piece_length _ Hr) Hrun) as Hs. split_and!.
  - intros k s' Hk. pose proof (run_bounded _ _ _ _ _ _ Hn Hpl Hs Hk). lia.
  - intros Hnf. destruct (progress _ _ _ _ Hn Hs Hnf) as [r Hd]. rewrite Hd. f_equal. by eapply hk_result.
  - intros regions ->. by rewrite spec_computed.
Qed.

(** * Concrete instances *)

Definition sample_regions : list Reader :=
  [{| rd_data := [1; 2; 3]%Z; rd_sched := [Some 0; Some 4] |}; {| rd_data := [4; 5]%Z; rd_sched := [] |}].

(** Two workers and pieces of two bytes, before the first step. *)
Lemma hashing_ends_witness :
  let s := start_hasher_workers 2 2 (Compute <$> sample_regions) in
  (forall k s', nsteps (@hstep sample_sha1 2) k s s' -> k <= cost 2 s) /\
  (nf (@hstep sample_sha1 2) s -> master s = MDone (imap pair (@spec_pieces sample_sha1 2 [] (Compute <$> sample_regions)))) /\
  (forall regions, Compute <$> sample_regions = Compute <$> regions ->
    @spec_pieces sample_sha1 2 [] (Compute <$> sample_regions) =
      @ShaHash_from_bytes sample_sha1 <$> chunks 2 (concat (rd_data <$> regions))).
Proof.
  intros s. apply (@hashing_ends sample_sha1 2 2 (Compute <$> sample_regions) s); [lia|lia| |apply rtc_refl].
  repeat (apply List.Forall_cons; [by apply (bool_decide_unpack _)|]). apply List.Forall_nil.
Defined.
