(* ===== verification/MetainfoCorrect.v ===== *)
(** MetainfoCorrect: what parsing a torrent file gives, and what is left of one
    that is written and read again. *)

From stdpp Require Import base list.
From Stdlib Require Import ZArith Lia.
From Stdlib Require String.
From S2P Require Import Prelude OrdMap Bencode BencodeCorrect BencodeRead ShaHash Effects DhtToken Metainfo Hasher HasherCorrect.

Import String.StringSyntax.

(** * Paths *)

(** A component of a path: a name. *)
Definition component (c : Path) : Prop := c <> [] /\ c <> CUR_DIR /\ SLASH ∉ c.

Lemma split_slash_name c : SLASH ∉ c -> split_slash c = [c].
Proof.
  induction c as [|x c IH]; intros Hc; [done|]. cbn [split_slash]. apply not_elem_of_cons in Hc as [Hx Hc].
  destruct (Z.eqb_spec x SLASH) as [->|_]; [done|]. by rewrite IH.
Qed.

Lemma split_slash_app p c : split_slash (p ++ SLASH :: c) = split_slash p ++ split_slash c.
Proof.
  induction p as [|x p IH]; [done|]. cbn [app split_slash]. rewrite IH. destruct (x =? SLASH)%Z; [done|].
  by destruct (split_slash p) eqn:E; [destruct p; cbn in E; repeat case_match|].
Qed.

Lemma component_relative c : component c -> is_absolute c = false.
Proof.
  intros (_ & _ & Hs). destruct c as [|x c]; [done|]. cbn. apply Z.eqb_neq. intros ->. apply Hs. by left.
Qed.

(** The path of some components is cut into them again. *)
Definition joined (cs : list Path) : Path := fold_left path_push cs [].

Lemma joined_one c : component c -> joined [c] = c.
Proof. intros Hc. unfold joined, path_push. simpl. by rewrite (component_relative c Hc). Qed.

Lemma last_not_slash (c : Path) : SLASH ∉ c -> match last c with Some x => (x =? SLASH)%Z | None => false end = false.
Proof.
  intros Hc. destruct (last c) as [x|] eqn:E; [|done]. apply Z.eqb_neq. intros ->. apply Hc.
  apply last_Some in E as [c' ->]. apply elem_of_app. right. by left.
Qed.

Lemma joined_snoc cs c :
  cs <> [] -> Forall component cs -> component c -> joined (cs ++ [c]) = joined cs ++ SLASH :: c /\
    (joined cs <> [] /\ is_absolute (joined cs) = false /\ match last (joined cs) with Some x => (x =? SLASH)%Z | None => false end = false).
Proof.
  intros Hne Hcs. revert c. induction cs as [|c0 cs IH] using rev_ind; [done|]. intros c Hc. clear Hne.
  apply Forall_app in Hcs as [Hcs Hc0]. rewrite Forall_singleton in Hc0.
  assert (H0 : joined (cs ++ [c0]) <> [] /\ is_absolute (joined (cs ++ [c0])) = false /\
    match last (joined (cs ++ [c0])) with Some x => (x =? SLASH)%Z | None => false end = false).
  { destruct cs as [|c1 cs].
    - cbn [app]. rewrite joined_one by done. split_and!; [apply Hc0|by apply component_relative|]. apply last_not_slash, Hc0.
    - destruct (IH ltac:(done) Hcs c0 Hc0) as (-> & Hn & Ha & _). set (p := joined (c1 :: cs)) in *.
      split_and!; [by destruct p|by destruct p|]. rewrite last_app_cons. destruct Hc0 as (Hn0 & _ & Hs0).
      rewrite last_cons. pose proof (last_not_slash c0 Hs0) as Hl. destruct (last c0) eqn:E; [done|]. by apply last_None in E. }
  split; [|exact H0]. destruct H0 as (Hn & _ & Hl). unfold joined at 1. rewrite fold_left_app. cbn [fold_left]. fold (joined (cs ++ [c0])).
  unfold path_push. rewrite component_relative by done. destruct (last (joined (cs ++ [c0]))) eqn:E; [by rewrite Hl|].
  by apply last_None in E.
Qed.

Lemma split_joined cs : cs <> [] -> Forall component cs -> split_slash (joined cs) = cs /\ is_absolute (joined cs) = false.
Proof.
  induction cs as [|c cs IH] using rev_ind; [done|]. intros _ Hf. apply Forall_app in Hf as [Hf Hc]. rewrite Forall_singleton in Hc.
  destruct cs as [|c1 cs].
  - cbn [app]. rewrite joined_one by done. split; [apply split_slash_name, Hc|by apply component_relative].
  - destruct (joined_snoc (c1 :: cs) c) as (-> & Hn & Ha & _); [done..|]. destruct IH as [E _]; [done..|].
    rewrite split_slash_app, E, split_slash_name by apply Hc. split; [done|]. by destruct (joined (c1 :: cs)).
Qed.

Lemma path_iter_joined cs : cs <> [] -> Forall component cs -> path_iter (joined cs) = cs.
Proof.
  intros Hne Hf. destruct (split_joined cs Hne Hf) as [E Ha]. unfold path_iter. rewrite E, Ha.
  destruct cs as [|c cs]; [done|]. pose proof Hf as Hf'. apply Forall_cons in Hf' as [(_ & Hc & _) _].
  rewrite bool_decide_eq_false_2 by done. apply filter_all. eapply Forall_impl; [exact Hf|]. by intros x (? & ? & _).
Qed.

(** * Writing and reading *)

Lemma to_u64_i64 z : is_u64 z -> to_u64 (to_i64 z) = z /\ is_i64 (to_i64 z).
Proof.
  unfold is_u64, to_u64, to_i64, is_i64. intros Hz. unfold to_u64. rewrite (Z.mod_small z) by lia.
  destruct (Z.ltb_spec z 9223372036854775808); [rewrite Z.mod_small by lia; lia|]. split; [|lia].
  replace (z - 18446744073709551616)%Z with (z + (-1) * 18446744073709551616)%Z by lia.
  by rewrite Z.mod_add, Z.mod_small by lia.
Qed.

Definition text_ok (b : bytes) : Prop := utf8_valid b = true /\ sized b.

(** A file with a path of names. *)
Definition file_ok (f : File) : Prop :=
  is_u64 (f_len f) /\ exists cs, cs <> [] /\ Forall component cs /\ Forall text_ok cs /\ f_path f = joined cs.

(** A torrent that the builder can write: texts are UTF-8, sizes are in the range
    of their types, pieces are hashes, and a file's path is made of names.  With a
    single file the path is one name. *)
Record info_ok (i : Info) : Prop := {
  io_files : Forall file_ok (files i);
  io_total : is_u64 (foldr (fun f t => f_len f + t)%Z 0%Z (files i));
  io_pieces : Forall (fun p => length p = SHA_HASH_LEN) (pieces i) /\ sized (concat (pieces i));
  io_piece_len : is_u64 (piece_len i);
  io_name : match file_directory i with
            | Some dir => text_ok dir
            | None => exists f, files i = [f] /\ component (f_path f) /\ text_ok (f_path f)
            end
}.

Record metainfo_ok (m : Metainfo) : Prop := {
  mo_info : info_ok (info m);
  mo_comment : forall c, comment m = Some c -> text_ok c;
  mo_announce : forall a, announce m = Some a -> text_ok a;
  mo_created_by : forall c, created_by m = Some c -> text_ok c;
  mo_date : forall d, creation_date m = Some d -> is_i64 d
}.

(** What is left of a file and of the info dictionary. *)
Definition plain_file (f : File) : File := {| f_len := f_len f; f_path := f_path f; f_md5sum := None |}.
Definition rewritten (h : ShaHash) (i : Info) : Info :=
  {| info_hash := h; files := plain_file <$> files i; pieces := pieces i; piece_len := piece_len i; is_private := None;
     file_directory := file_directory i |}.

Lemma push_paths_written cs buf :
  Forall text_ok cs -> push_paths buf (to_ref <$> (new_bytes <$> cs)) = Ok (fold_left path_push cs buf).
Proof.
  intros Hc. revert buf. induction Hc as [|c cs [Hu _] _ IH]; intros buf; [done|]. cbn [fmap list_fmap push_paths fold_left].
  unfold parse_path_str, convert_str. cbn [str BencodeRef_access to_ref new_bytes BencodeRef_bytes]. unfold from_utf8. rewrite Hu.
  cbn [ok_or]. run_binds. apply IH.
Qed.

Lemma file_entries f cs :
  file_ok f -> f_path f = joined cs -> cs <> [] -> Forall component cs -> path_iter (f_path f) = cs.
Proof. intros _ -> Hne Hc. by apply path_iter_joined. Qed.

Lemma file_written f : file_ok f ->
  let v := bencode_file (f_len f, path_iter (f_path f)) in
  fits 3 v /\ exists d, parse_file_dict (to_ref v) = Ok d /\ as_multi_file d = Ok (plain_file f).
Proof.
  intros (Hl & cs & Hne & Hc & Ht & Hp). destruct (to_u64_i64 _ Hl) as [Hl' Hi]. rewrite Hp, path_iter_joined by done. cbn zeta. split.
  - unfold bencode_file, ben_map. cbn [fold_left fst snd]. apply fits_insert; [apply fits_insert; [apply fits_empty|by apply (bool_decide_unpack _)|by apply fits_int]|
      by apply (bool_decide_unpack _)|].
    apply fits_list, Forall_fmap. eapply Forall_impl; [exact Ht|]. intros c [_ Hs]. by apply fits_bytes.
  - eexists. split; [reflexivity|]. change (list_fmap _ _ _ _) with (ref_entries [(LENGTH_KEY, new_int (to_i64 (f_len f))); (PATH_KEY, MList (new_bytes <$> cs))]).
    unfold as_multi_file, parse_length, parse_path_list, parse_md5sum. erewrite lookup_int_ref by reflexivity. run_binds.
    erewrite lookup_list_ref by reflexivity. run_binds. rewrite push_paths_written by done. run_binds.
    rewrite (lookup_bytes_none (Error := ParseError) _ MD5SUM_KEY) by reflexivity. unfold plain_file. cbn [fst snd]. by rewrite Hp, Hl'.
Qed.

Lemma files_written fs : Forall file_ok fs ->
  let vs := bencode_file <$> ((fun f => (f_len f, path_iter (f_path f))) <$> fs) in
  Forall (fits 3) vs /\ multi_files (to_ref <$> vs) = Ok (plain_file <$> fs).
Proof.
  cbn zeta. induction 1 as [|f fs Hf _ [IHf IH]]; [done|]. destruct (file_written f Hf) as (Hv & d & Hd & Hm). split.
  - by apply Forall_cons.
  - cbn [fmap list_fmap multi_files]. rewrite Hd. run_binds. rewrite Hm. run_binds.
    change (list_fmap _ _ to_ref ?l) with (to_ref <$> l) in *. cbn [fmap] in *. rewrite IH. by run_binds.
Qed.

Lemma chunks_concat (ps : list bytes) n : 0 < n -> Forall (fun p => length p = n) ps -> chunks n (concat ps) = ps.
Proof.
  intros Hn Hp. induction Hp as [|p ps Hp _ IH]; cbn [concat]; [by apply chunks_nil|]. by rewrite chunks_cons, IH.
Qed.

Lemma allocate_written ps : Forall (fun p => length p = SHA_HASH_LEN) ps -> allocate_pieces (concat ps) = Ok ps.
Proof.
  intros Hp. unfold allocate_pieces. rewrite (chunks_concat ps SHA_HASH_LEN ltac:(unfold SHA_HASH_LEN; lia) Hp).
  assert (Hl : length (concat ps) mod SHA_HASH_LEN = 0).
  { assert (E : length (concat ps) = length ps * SHA_HASH_LEN)
      by (clear -Hp; induction Hp as [|p ps Hp _ IH]; cbn [concat length]; [done|]; rewrite length_app, Hp, IH; lia).
    rewrite E. apply Nat.Div0.mod_mul. }
  rewrite Hl. cbn [negb Nat.eqb]. f_equal. clear Hl. assert (H0 : length (replicate SHA_HASH_LEN 0%Z) = SHA_HASH_LEN) by apply length_replicate.
  revert H0. generalize (replicate SHA_HASH_LEN 0%Z). induction Hp as [|p ps Hp _ IH]; intros hb Hb; [done|]. cbn [hash_buffers].
  assert (E : overwrite 0 hb p = p) by (unfold overwrite; rewrite take_0, drop_ge by lia; apply app_nil_r). rewrite E. f_equal. by apply IH.
Qed.

Lemma total_len_ok `{Profile} E acc fs :
  (0 <= acc)%Z -> Forall (fun f => is_u64 (f_len f)) fs -> is_u64 (acc + foldr (fun f t => f_len f + t)%Z 0%Z fs) ->
  total_len (E := E) acc ((fun f => (f_len f, path_iter (f_path f))) <$> fs) = Ok (acc + foldr (fun f t => f_len f + t)%Z 0%Z fs)%Z.
Proof.
  intros Ha Hf. revert acc Ha. induction Hf as [|f fs Hl Hf IH]; intros acc Ha Hs; cbn [fmap list_fmap total_len foldr] in *; [by rewrite Z.add_0_r|].
  assert (H0 : forall l, Forall (fun f => is_u64 (f_len f)) l -> (0 <= foldr (fun f t => f_len f + t) 0 l)%Z)
    by (clear; induction 1 as [|g l Hg _ IHl]; cbn [foldr]; unfold is_u64 in *; lia).
  specialize (H0 fs Hf). unfold u64_arith. rewrite arith_in by (unfold is_u64 in *; lia). run_binds.
  specialize (IH (acc + f_len f)%Z). rewrite <- Z.add_assoc in IH. apply IH; [unfold is_u64 in *; lia|exact Hs].
Qed.

Lemma private_flag_lost o : ib_info (ib_set_private_flag o InfoBuilder_new) = [].
Proof. by destruct o as [[]|]. Qed.

(** The hashing threads at work for an accessor ([hashing_ends]). *)
Definition hashing `{Sha1} (a : Accessor) (piece_length : Z) : parsed (list (nat * ShaHash)) :=
  Ok (imap pair (spec_pieces (Z.to_nat piece_length) [] (access_pieces a))).

Lemma pieces_written `{Sha1} i pl :
  map_pieces_list (snd <$> imap pair (spec_pieces pl [] (access_pieces (Info_accessor i)))) = concat (pieces i).
Proof.
  cbn [access_pieces Info_accessor]. change (fun p => PreComputed {| hash := p |}) with (PreComputed ∘ Build_ShaHash).
  rewrite list_fmap_compose, spec_given. unfold map_pieces_list.
  assert (E : forall (hs : list ShaHash), snd <$> imap pair hs = hs) by (intros hs; rewrite fmap_imap; apply imap_const_id || (apply list_eq; intros k; rewrite list_lookup_imap; by destruct (hs !! k))).
  rewrite E, <- list_fmap_compose. f_equal. induction (pieces i) as [|p ps IH]; [done|]. cbn [fmap list_fmap]. by f_equal.
Qed.

(** The info dictionary that is written. *)
Definition written (i : Info) : mdict :=
  match file_directory i with
  | Some dir =>
      [(FILES_KEY, MList (bencode_file <$> ((fun f => (f_len f, path_iter (f_path f))) <$> files i))); (NAME_KEY, new_bytes dir);
       (PIECE_LENGTH_KEY, new_int (to_i64 (piece_len i))); (PIECES_KEY, new_bytes (concat (pieces i)))]
  | None =>
      match files i with
      | f :: _ => [(LENGTH_KEY, new_int (to_i64 (f_len f))); (NAME_KEY, new_bytes (f_path f));
                   (PIECE_LENGTH_KEY, new_int (to_i64 (piece_len i))); (PIECES_KEY, new_bytes (concat (pieces i)))]
      | [] => []
      end
  end.

Section RoundTrip.
Context `{Sha1} `{Profile}.

Lemma info_built i opt_root :
  info_ok i ->
  build_with_accessor (hashing (Info_accessor i)) 1 (Info_accessor i) opt_root [] (Custom (piece_len i)) =
    Ok (encode (MDict (match opt_root with Some root => (dict_insert root INFO_KEY (MDict (written i))).2 | None => written i end))).
Proof.
  intros [Hf Ht _ _ Hn]. unfold build_with_accessor. cbn [Nat.eqb access_metadata Info_accessor access_directory].
  assert (Efi : (fun f : Z * Path => (f.1, path_iter f.2)) <$> ((fun f => (f_len f, f_path f)) <$> files i)
    = (fun f => (f_len f, path_iter (f_path f))) <$> files i) by (by rewrite <- list_fmap_compose).
  cbv zeta. rewrite Efi.
  rewrite total_len_ok; [|lia|by eapply Forall_impl; [exact Hf|by intros f []]|exact Ht]. run_binds.
  cbn [determine_piece_length]. run_binds. unfold hashing. run_binds. rewrite pieces_written. unfold written.
  destruct (file_directory i) as [dir|].
  - run_binds. destruct opt_root; reflexivity.
  - destruct Hn as (f & E & Hc & Htx). rewrite E. cbn [fmap list_fmap length Nat.ltb Nat.leb]. assert (Ei : index (E := ParseError) [(f_len f, path_iter (f_path f))] 0 = Ok (f_len f, path_iter (f_path f))) by done.
    rewrite Ei. run_binds. rewrite <- (joined_one (f_path f) Hc), path_iter_joined by (done || by apply Forall_singleton).
    cbn [concat]. rewrite app_nil_r, joined_one by done. destruct opt_root; reflexivity.
Qed.

Lemma written_insert i : info_ok i -> exists name files_or_len,
  MDict (written i) = ben_map [(PIECE_LENGTH_KEY, new_int (to_i64 (piece_len i))); (PIECES_KEY, new_bytes (concat (pieces i)));
    (NAME_KEY, new_bytes name); files_or_len] /\ sized name /\ sized files_or_len.1 /\ fits 4 files_or_len.2.
Proof.
  intros [Hf _ _ _ Hn]. unfold written. destruct (file_directory i) as [dir|].
  - exists dir, (FILES_KEY, MList (bencode_file <$> ((fun f => (f_len f, path_iter (f_path f))) <$> files i))). split_and!; [done|apply Hn|by apply (bool_decide_unpack _)|].
    apply fits_list. apply (files_written _ Hf).
  - destruct Hn as (f & E & Hc & Htx). rewrite E in *. exists (f_path f), (LENGTH_KEY, new_int (to_i64 (f_len f))).
    split_and!; [done|apply Htx|by apply (bool_decide_unpack _)|]. apply fits_int. apply Forall_cons in Hf as [[Hl _] _]. by apply to_u64_i64.
Qed.

Lemma written_fits i : info_ok i -> fits 5 (MDict (written i)).
Proof.
  intros Hi. destruct (written_insert i Hi) as (name & [k v] & E & Hn & Hk & Hv). rewrite E. destruct Hi as [_ _ [_ Hp] Hl _].
  destruct (to_u64_i64 _ Hl) as [_ Hli]. unfold ben_map. cbn [fold_left]. eauto 20 using fits_int with fits.
Qed.

Lemma info_parsed i :
  info_ok i -> parse_info_dictionary (to_ref (MDict (written i))) = Ok (rewritten (ShaHash_from_bytes (encode (MDict (written i)))) i).
Proof.
  intros Hi. pose proof Hi as [Hf _ [Hp _] Hl Hn]. destruct (to_u64_i64 _ Hl) as [Hl' _].
  unfold parse_info_dictionary. change (parse_root_dict (to_ref (MDict (written i)))) with (Ok (ref_entries (written i)) : parsed _).
  run_binds. assert (G1 : btree_get PIECE_LENGTH_KEY (written i) = Some (MInt (to_i64 (piece_len i))) /\
    btree_get PIECES_KEY (written i) = Some (MBytes (concat (pieces i))) /\ btree_get PRIVATE_KEY (written i) = None).
  { unfold written. destruct (file_directory i); [done|]. destruct Hn as (f & -> & _). done. }
  destruct G1 as (G1 & G2 & G3). unfold parse_piece_length. erewrite lookup_int_ref by exact G1. run_binds. rewrite Hl'.
  unfold parse_pieces. erewrite lookup_bytes_ref by exact G2. run_binds. rewrite allocate_written by done. run_binds.
  assert (Gp : parse_private (ref_entries (written i)) = None).
  { unfold parse_private, lookup_and_convert_int, lookup_key. by rewrite lookup_ref, G3. } rewrite Gp.
  change (buffer (to_ref (MDict (written i)))) with (encode (MDict (written i))).
  unfold written, rewritten. destruct (file_directory i) as [dir|] eqn:Ed.
  - destruct Hn as [Hu _]. unfold is_multi_file_torrent, parse_length.
    assert (Em : forall d : list (bytes * BencodeMut), btree_get LENGTH_KEY d = None ->
      lookup_and_convert_int (Error := ParseError) (ref_entries d) LENGTH_KEY = Err (BencodeConvert (MissingKey LENGTH_KEY))).
    { intros d Hd. unfold lookup_and_convert_int, lookup_key. by rewrite lookup_ref, Hd. } rewrite Em by done. cbn [mbind outcome_bind].
    unfold parse_name. erewrite lookup_str_ref by done. run_binds. unfold parse_files_list. erewrite lookup_list_ref by done. run_binds.
    destruct (files_written _ Hf) as [_ Hm]. rewrite Hm. run_binds. unfold path_push at 1. by destruct (is_absolute dir).
  - destruct Hn as (f & E & Hc & Hu & _). rewrite E in *. apply Forall_cons in Hf as [[Hfl _] _]. destruct (to_u64_i64 _ Hfl) as [Hfl' _].
    unfold is_multi_file_torrent, as_single_file, parse_length. erewrite lookup_int_ref by done. run_binds.
    unfold parse_name. erewrite lookup_str_ref by done. run_binds. unfold parse_md5sum.
    rewrite (lookup_bytes_none (Error := ParseError) _ MD5SUM_KEY) by done. rewrite Hfl'. done.
Qed.

(** The root dictionary, as its entries are set one after the other; a removed key
    was not there. *)
Definition set_entry (k : bytes) (o : option BencodeMut) (d : mdict) : mdict :=
  match o with Some v => btree_insert k v d | None => d end.
Definition root_of (m : Metainfo) : mdict :=
  btree_insert INFO_KEY (MDict (written (info m))) (set_entry CREATED_BY_KEY (new_bytes <$> created_by m)
    (set_entry COMMENT_KEY (new_bytes <$> comment m) (set_entry CREATION_DATE_KEY (new_int <$> creation_date m)
      (set_entry ANNOUNCE_URL_KEY (new_bytes <$> announce m) [])))).

Lemma metainfo_written m :
  info_ok (info m) -> Metainfo_to_bytes (hashing (Info_accessor (info m))) m = Ok (encode (MDict (root_of m))).
Proof.
  intros Hi. unfold Metainfo_to_bytes, MetainfoBuilder_build.
  set (b := set_created_by _ _). assert (Eb : mb_root b = set_entry CREATED_BY_KEY (new_bytes <$> created_by m)
    (set_entry COMMENT_KEY (new_bytes <$> comment m) (set_entry CREATION_DATE_KEY (new_int <$> creation_date m)
      (set_entry ANNOUNCE_URL_KEY (new_bytes <$> announce m) [])))) by (unfold b; by destruct (created_by m), (comment m), (creation_date m), (announce m)).
  assert (Ei : ib_info (mb_info b) = []) by done.
  change (mb_root (set_piece_length _ _)) with (mb_root b).
  change (ib_piece_length _) with (Custom (piece_len (info m))).
  change (ib_info (mb_info (set_piece_length _ _))) with (ib_info (ib_set_private_flag (is_private (info m)) (mb_info b))).
  assert (Ep : ib_info (ib_set_private_flag (is_private (info m)) (mb_info b)) = []).
  { unfold ib_set_private_flag. rewrite Ei. by destruct (is_private (info m)) as [[]|]. }
  rewrite Ep, info_built by done. by rewrite Eb.
Qed.

Lemma set_entry_fits n k o d :
  fits (S n) (MDict d) -> sized k -> (forall v, o = Some v -> fits n v) -> fits (S n) (MDict (set_entry k o d)).
Proof.
  intros Hd Hk Ho. destruct o as [v|]; [by apply fits_insert; [..|apply Ho]|done].
Qed.

Lemma root_fits m : metainfo_ok m -> fits 50 (MDict (root_of m)).
Proof.
  intros [Hi Hc Ha Hb Hd]. assert (Ht : forall o : option bytes, (forall b, o = Some b -> text_ok b) -> forall v, new_bytes <$> o = Some v -> fits 49 v).
  { intros [b|] Ho v Hv; [|done]. injection Hv as <-. apply fits_bytes. by apply Ho. }
  apply fits_insert; [|by apply (bool_decide_unpack _)|].
  - repeat (apply set_entry_fits; [|by apply (bool_decide_unpack _)|]); try (by apply Ht); [apply fits_empty|].
    intros v Hv. destruct (creation_date m) as [z|] eqn:E; [|done]. injection Hv as <-. by apply fits_int, Hd.
  - destruct (written_fits _ Hi) as [? ?]. split; [done|lia].
Qed.

(** Reading the root dictionary. *)
Lemma text_read (d : mdict) k o :
  btree_get k d = new_bytes <$> o -> (forall b, o = Some b -> text_ok b) ->
  res_ok (lookup_and_convert_str (Error := ParseError) (ref_entries d) k) = o.
Proof.
  intros Hg Ho. destruct o as [b|]; [by erewrite lookup_str_ref by (done || by apply Ho)|].
  unfold lookup_and_convert_str, lookup_key. by rewrite lookup_ref, Hg.
Qed.

Lemma root_parsed m :
  metainfo_ok m ->
  (root_dict ← parse_root_dict (to_ref (MDict (root_of m)));
   info_bencode ← parse_info_bencode root_dict;
   i ← parse_info_dictionary info_bencode;
   Ok {| comment := parse_comment root_dict; announce := parse_announce_url root_dict;
         announce_list := convert_announce_list <$> parse_announce_list root_dict;
         encoding := parse_encoding root_dict; created_by := parse_created_by root_dict;
         creation_date := parse_creation_date root_dict; info := i |}) =
  Ok {| comment := comment m; announce := announce m; announce_list := None; encoding := None;
        created_by := created_by m; creation_date := creation_date m;
        info := rewritten (ShaHash_from_bytes (encode (MDict (written (info m))))) (info m) |}.
Proof.
  intros [Hi Hc Ha Hb _]. change (parse_root_dict (to_ref (MDict (root_of m)))) with (Ok (ref_entries (root_of m)) : parsed _). run_binds.
  assert (G : btree_get INFO_KEY (root_of m) = Some (MDict (written (info m))) /\ btree_get COMMENT_KEY (root_of m) = new_bytes <$> comment m /\
    btree_get ANNOUNCE_URL_KEY (root_of m) = new_bytes <$> announce m /\ btree_get CREATED_BY_KEY (root_of m) = new_bytes <$> created_by m /\
    btree_get CREATION_DATE_KEY (root_of m) = new_int <$> creation_date m /\ btree_get ENCODING_KEY (root_of m) = None /\
    btree_get ANNOUNCE_LIST_KEY (root_of m) = None) by (unfold root_of; by destruct (created_by m), (comment m), (creation_date m), (announce m)).
  destruct G as (G1 & G2 & G3 & G4 & G5 & G6 & G7).
  assert (Gi : parse_info_bencode (ref_entries (root_of m)) = Ok (to_ref (MDict (written (info m)))))
    by (unfold parse_info_bencode, lookup_key; by rewrite lookup_ref, G1).
  rewrite Gi. run_binds. rewrite info_parsed by done. run_binds. unfold parse_comment, parse_announce_url, parse_encoding, parse_created_by.
  rewrite (text_read _ _ _ G2 Hc), (text_read _ _ _ G3 Ha), (text_read _ _ _ G4 Hb), (text_read _ _ None G6) by done.
  unfold parse_announce_list. rewrite (lookup_list_none (Error := ParseError) _ _ G7). cbn [res_ok fmap option_fmap option_map].
  unfold parse_creation_date. destruct (creation_date m) as [z|]; [by erewrite lookup_int_ref by exact G5|].
  unfold lookup_and_convert_int, lookup_key. by rewrite lookup_ref, G5.
Qed.

(** C12. A torrent that is written by [to_bytes] is read back by [from_bytes], with its
    files, piece hashes, piece length, tracker, comment, author and date; the
    announce list, the encoding, the md5 sums and the private flag are lost, and
    the info hash is that of the dictionary that was written.  The same holds of
    the info dictionary alone. *)
Theorem metainfo_rewritten (m : Metainfo) :
  metainfo_ok m ->
  exists bs info_bs,
    Metainfo_to_bytes (hashing (Info_accessor (info m))) m = Ok bs /\
    Info_to_bytes (hashing (Info_accessor (info m))) (info m) = Ok info_bs /\
    Metainfo_from_bytes bs =
      Ok {| comment := comment m; announce := announce m; announce_list := None; encoding := None;
            created_by := created_by m; creation_date := creation_date m;
            info := rewritten (ShaHash_from_bytes info_bs) (info m) |} /\
    Info_from_bytes info_bs = Ok (rewritten (ShaHash_from_bytes info_bs) (info m)).
Proof.
  intros Hm. pose proof Hm as [Hi _ _ _ _]. exists (encode (MDict (root_of m))), (encode (MDict (written (info m)))).
  split_and!.
  - by apply metainfo_written.
  - unfold Info_to_bytes, InfoBuilder_build. change (ib_info (ib_set_piece_length _ ?b)) with (ib_info b).
    rewrite private_flag_lost. by rewrite info_built.
  - unfold Metainfo_from_bytes. rewrite read_back by (by apply root_fits). cbn [map_err]. run_binds.
    by apply root_parsed.
  - unfold Info_from_bytes. destruct (written_fits _ Hi) as [Hw Hn]. rewrite read_back by (split; [done|lia]). cbn [map_err]. run_binds.
    by apply info_parsed.
Qed.
End RoundTrip.

(** * Reading any file *)

(** What every info dictionary that is accepted gives: sizes in range, pieces of
    twenty bytes, and a single file unless there is a directory. *)
Record accepted_info (i : Info) : Prop := {
  ai_pieces : Forall (fun p => length p = SHA_HASH_LEN) (pieces i);
  ai_piece_len : is_u64 (piece_len i);
  ai_files : Forall (fun f => is_u64 (f_len f)) (files i);
  ai_single : file_directory i = None -> exists f, files i = [f]
}.

Section Accepted.
Context {B : Type} `{!BRefAccess B}.

Lemma settles_length (d : list (bytes * B)) : settles is_u64 (parse_length d).
Proof. eapply settles_bind; [apply settles_int|]. intros z _. apply to_u64_range. Qed.
Lemma settles_piece_length (d : list (bytes * B)) : settles is_u64 (parse_piece_length d).
Proof. eapply settles_bind; [apply settles_int|]. intros z _. apply to_u64_range. Qed.

Lemma settles_paths buf (l : list B) : settles (fun _ => True) (push_paths buf l).
Proof.
  revert buf. induction l as [|b l IH]; intros buf; [done|]. cbn [push_paths]. eapply settles_bind; [apply settles_ok_or|]. intros p _. apply IH.
Qed.

Lemma settles_single (d : list (bytes * B)) : settles (fun f => is_u64 (f_len f)) (as_single_file d).
Proof.
  eapply settles_bind; [apply settles_length|]. intros l Hl. eapply settles_bind; [apply settles_str|]. by intros n _.
Qed.
Lemma settles_multi (d : list (bytes * B)) : settles (fun f => is_u64 (f_len f)) (as_multi_file d).
Proof.
  eapply settles_bind; [apply settles_length|]. intros l Hl. eapply settles_bind; [apply settles_list|]. intros p _.
  eapply settles_bind; [apply settles_paths|]. by intros b _.
Qed.
Lemma settles_files (l : list B) : settles (Forall (fun f => is_u64 (f_len f))) (multi_files l).
Proof.
  induction l as [|b l IH]; cbn [multi_files]; [apply List.Forall_nil|]. eapply settles_bind; [apply settles_ok_or|]. intros d _.
  eapply settles_bind; [apply settles_multi|]. intros f Hf. eapply settles_bind; [exact IH|]. intros fs Hfs. by apply List.Forall_cons.
Qed.
End Accepted.

(** The hash buffers keep the length of an array. *)
Lemma hash_buffers_length hb cs :
  length hb = SHA_HASH_LEN -> Forall (fun c => length c <= SHA_HASH_LEN) cs ->
  Forall (fun p => length p = SHA_HASH_LEN) (hash_buffers hb cs).
Proof.
  intros Hb Hc. revert hb Hb. induction Hc as [|c cs Hc _ IH]; intros hb Hb; [apply List.Forall_nil|]. cbn [hash_buffers].
  assert (Hl : length (overwrite 0 hb c) = SHA_HASH_LEN) by (unfold overwrite; rewrite take_0, !length_app, length_drop; simpl; lia).
  apply List.Forall_cons; auto.
Qed.

Lemma settles_allocate ps : settles (Forall (fun p => length p = SHA_HASH_LEN)) (allocate_pieces ps).
Proof.
  unfold allocate_pieces. case_match; [done|]. apply hash_buffers_length; [apply length_replicate|].
  unfold chunks. apply Forall_fmap, Forall_forall. intros i _. unfold compose. rewrite length_take. lia.
Qed.

Section Accepting.
Context `{Sha1}.

Lemma settles_info r :
  settles (fun i => accepted_info i /\ info_hash i = ShaHash_from_bytes (buffer r)) (parse_info_dictionary r).
Proof.
  unfold parse_info_dictionary. eapply settles_bind; [apply settles_ok_or|]. intros d _.
  eapply settles_bind; [apply settles_piece_length|]. intros pl Hpl. eapply settles_bind; [apply settles_bytes|]. intros ps _.
  eapply settles_bind; [apply settles_allocate|]. intros bufs Hbufs. destruct (is_multi_file_torrent d).
  - eapply settles_bind; [apply settles_str|]. intros dir _. eapply settles_bind; [apply settles_list|]. intros fb _.
    eapply settles_bind; [apply settles_files|]. intros fs Hfs. by split; [split|].
  - eapply settles_bind; [apply settles_single|]. intros f Hf. split; [split|done]; try done; [by apply Forall_singleton|]. by exists f.
Qed.

Lemma dict_value (d : list (bytes * BencodeRef)) k v : btree_get k d = Some v -> exists k', (k', v) ∈ d.
Proof.
  induction d as [|[k' v'] d IH]; cbn [btree_get]; [done|]. destruct (kcmp k k'); [intros [= ->]; exists k'; by left|done|].
  intros Hg. destruct (IH Hg) as [k2 ?]. exists k2. by right.
Qed.

Lemma decoder_answers bs : BencodeRef_decode bs BDecodeOpt_default <> NoFuel.
Proof.
  unfold BencodeRef_decode. pose proof (decode_fuel_enough bs 0 BDecodeOpt_default 0) as Hn.
  destruct (decode _ _ _ _ _) as [[r l]| | |]; try done. cbn [mbind outcome_bind]. by case_match.
Qed.

(** The decoder reads [r] from the position [pos] of [bs] on, up to [next]. *)
Definition reads_from (bs : bytes) (r : BencodeRef) (pos next : nat) : Prop :=
  exists fuel depth, decode fuel bs pos BDecodeOpt_default depth = Ok (r, next).

Lemma entries_read fuel bs pos depth acc d next :
  decode_dict fuel bs pos BDecodeOpt_default depth acc = Ok (d, next) ->
  Forall (fun e : bytes * BencodeRef => exists pos next, reads_from bs e.2 pos next) acc ->
  Forall (fun e : bytes * BencodeRef => exists pos next, reads_from bs e.2 pos next) d.
Proof.
  revert pos acc. induction fuel as [|fuel IH]; [done|]. intros pos acc E Hacc. cbn [decode_dict] in E. parse_inv E; [done|].
  eapply IH; [exact E|]. apply btree_insert_Forall; [exact Hacc|]. eexists _, _, _, _. rewrite unwrap_Ok in Hm1. exact Hm1.
Qed.

(** The values of the root dictionary are read from the file. *)
Lemma root_entry_read bs d buf key r :
  BencodeRef_decode bs BDecodeOpt_default = Ok (RDict d buf) -> dict_lookup d key = Some r ->
  exists pos next, reads_from bs r pos next /\ buffer r = take (next - pos) (drop pos bs).
Proof.
  intros E [k Hk]%dict_value. unfold BencodeRef_decode in E. parse_inv E.
  assert (Hall : Forall (fun e : bytes * BencodeRef => exists pos next, reads_from bs e.2 pos next) d).
  { destruct (decode_fuel bs) as [|fuel]; [done|]. cbn [decode] in Hm. parse_inv Hm. by eapply entries_read. }
  rewrite Forall_forall in Hall. destruct (Hall _ Hk) as (pos & next & Hr). exists pos, next. split; [done|].
  destruct Hr as (fuel & depth & Hr). cbn [snd] in Hr. by apply decode_bounds in Hr as [_ ->].
Qed.

(** C37. Reading a torrent file always comes to an answer when the bencode decoder
    does.  What is accepted has pieces of twenty bytes, sizes in range and at
    least a directory or exactly one file, and its info hash is the digest of the
    very bytes of the file that the decoder reads as the value of the root
    dictionary's entry [info]. *)
Theorem torrent_accepted (bs : bytes) :
  BencodeRef_decode bs BDecodeOpt_default <> Panic ->
  settles (fun m => accepted_info (info m) /\
    exists d buf dict pos next, BencodeRef_decode bs BDecodeOpt_default = Ok (RDict d buf) /\ dict_lookup d INFO_KEY = Some dict /\
      reads_from bs dict pos next /\ info_hash (info m) = ShaHash_from_bytes (take (next - pos) (drop pos bs))) (Metainfo_from_bytes bs).
Proof.
  intros Hp. pose proof (decoder_answers bs) as Hf. unfold Metainfo_from_bytes. destruct (BencodeRef_decode bs BDecodeOpt_default) as [r|e| |] eqn:Hd; try done.
  cbn [map_err]. run_binds. unfold parse_root_dict, convert_dict. destruct r as [| | |d buf]; try done. cbn [dict_of BencodeRef_access ok_or]. run_binds.
  unfold parse_info_bencode, lookup_key. destruct (dict_lookup d INFO_KEY) as [r|] eqn:Hg; [|done]. run_binds.
  eapply settles_bind; [apply settles_info|]. intros i [Hi Hh]. split; [done|].
  destruct (root_entry_read bs d buf INFO_KEY r Hd Hg) as (pos & next & Hr & Eb). exists d, buf, r, pos, next. cbn [info]. by rewrite <- Eb.
Qed.
End Accepting.

(** * Concrete instances *)

Definition sample_file : File := {| f_len := 5; f_path := ascii_bytes "a.txt"; f_md5sum := Some [1; 2]%Z |}.
Definition sample_info : Info := {|
  info_hash := {| hash := replicate 20 0%Z |}; files := [sample_file]; pieces := [replicate 20 7%Z; replicate 20 9%Z]; piece_len := 4;
  is_private := Some true; file_directory := None |}.
Definition sample_metainfo : Metainfo := {|
  comment := Some (ascii_bytes "c"); announce := Some (ascii_bytes "udp://t"); announce_list := Some [[ascii_bytes "udp://u"]];
  encoding := Some (ascii_bytes "UTF-8"); created_by := None; creation_date := Some 12%Z; info := sample_info |}.

Lemma metainfo_rewritten_witness :
  exists bs info_bs,
    @Metainfo_to_bytes true (@hashing sample_sha1 (Info_accessor sample_info)) sample_metainfo = Ok bs /\
    @Info_to_bytes true (@hashing sample_sha1 (Info_accessor sample_info)) sample_info = Ok info_bs /\
    @Metainfo_from_bytes sample_sha1 bs =
      Ok {| comment := Some (ascii_bytes "c"); announce := Some (ascii_bytes "udp://t"); announce_list := None; encoding := None;
            created_by := None; creation_date := Some 12%Z; info := rewritten (@ShaHash_from_bytes sample_sha1 info_bs) sample_info |} /\
    @Info_from_bytes sample_sha1 info_bs = Ok (rewritten (@ShaHash_from_bytes sample_sha1 info_bs) sample_info).
Proof.
  apply (@metainfo_rewritten sample_sha1 true sample_metainfo).
  split; [split| | | |].
  - repeat constructor; [by apply (bool_decide_unpack _)..|]. exists [ascii_bytes "a.txt"].
    split_and!; [done|by repeat constructor; apply (bool_decide_unpack _)|by repeat constructor; apply (bool_decide_unpack _)|done].
  - by apply (bool_decide_unpack _).
  - split; [by repeat constructor|by apply (bool_decide_unpack _)].
  - by apply (bool_decide_unpack _).
  - exists sample_file. split_and!; [done|by repeat constructor; apply (bool_decide_unpack _)|by apply (bool_decide_unpack _)].
  - intros c [= <-]. by apply (bool_decide_unpack _).
  - intros c [= <-]. by apply (bool_decide_unpack _).
  - done.
  - intros d [= <-]. by apply (bool_decide_unpack _).
Defined.

(** The file that is written for the sample. *)
Definition sample_file_bytes : bytes := encode (MDict (root_of sample_metainfo)).

Lemma torrent_accepted_witness :
  settles (fun m => accepted_info (info m) /\
    exists d buf dict pos next, BencodeRef_decode sample_file_bytes BDecodeOpt_default = Ok (RDict d buf) /\
      dict_lookup d INFO_KEY = Some dict /\ reads_from sample_file_bytes dict pos next /\
      info_hash (info m) = @ShaHash_from_bytes sample_sha1 (take (next - pos) (drop pos sample_file_bytes)))
    (@Metainfo_from_bytes sample_sha1 sample_file_bytes).
Proof.
  apply (@torrent_accepted sample_sha1); by vm_compute.
Defined.

(** An absolute element of a path discards what comes before it. *)
Example absolute_path_kept :
  push_paths [] [RBytes (ascii_bytes "a") []; RBytes (ascii_bytes "/etc/x") []] = Ok (ascii_bytes "/etc/x").
Proof. reflexivity. Qed.
