(* ===== verification/FileSystem.v ===== *)
(** FileSystem: [btp-disk/src/fs] (mod.rs, native.rs, cache/file_handle.rs).

    The trait [FileSystem] is a class of operations over a state [F], which holds
    what the implementations reach behind [&self], with handles [H].  What its
    documentation promises is the class [FileSystemLaws]; FileSystemCorrect shows
    that the two implementations keep it.

    [NativeFileSystem] runs on the calls it makes to [std::fs]: a store of files,
    a table of open descriptors with their positions, and a list of answers, one
    for each call, with which a call can fail or move fewer bytes than asked for.
    The crate lru_cache is the parameter [LruCache]. *)

From stdpp Require Import base list gmap.
From Stdlib Require Import ZArith Lia.
From Stdlib Require String.
From S2P Require Import Prelude Effects Metainfo.
Import String.StringSyntax.

Inductive IoError : Type := OsError (code : Z) | InvalidInput (msg : bytes).

Notation io S A := (St S IoError A).

(** * trait FileSystem *)

(** [read_file] gets the buffer it fills, and returns how much of it was filled
    and the buffer after it. *)
Class FileSystem (F H : Type) := {
  open_file : Path -> io F H;
  sync_file : Path -> io F unit;
  file_size : H -> io F Z;
  read_file : H -> Z -> bytes -> io F (nat * bytes);
  write_file : H -> Z -> bytes -> io F nat;
}.

(** The contents [c] of a file after [data] was written at [offset]; a gap is
    filled with zeroes. *)
Definition overwrite (c : bytes) (offset : nat) (data : bytes) : bytes :=
  match data with
  | [] => c
  | _ => take offset c ++ replicate (offset - length c) 0%Z ++ data ++ drop (offset + length data) c
  end.

(** Opening a file creates it. *)
Definition created (i : Path) (m : gmap Path bytes) : gmap Path bytes :=
  match m !! i with Some _ => m | None => <[i := []]> m end.

(** What an implementation promises: [locate] is the file that a path names,
    [view] the contents of the files, [refers s h i] says that the handle [h] is
    one of the file [i]. *)
Class FileSystemLaws (F H : Type) `{FileSystem F H} := {
  locate : Path -> Path;
  view : F -> gmap Path bytes;
  fs_ok : F -> Prop;
  refers : F -> H -> Path -> Prop;
  locate_iter p q : path_iter p = path_iter q -> locate p = locate q;
  refers_exists s h i : fs_ok s -> refers s h i -> is_Some (view s !! i);
  open_law s p : fs_ok s ->
    exists r s', open_file p s = (r, s') /\ fs_ok s' /\ (forall h i, refers s h i -> refers s' h i) /\
    match r with
    | Ok h => view s' = created (locate p) (view s) /\ refers s' h (locate p)
    | Err _ => view s' = view s
    | _ => False
    end;
  sync_law s p : fs_ok s ->
    exists r s', sync_file p s = (r, s') /\ fs_ok s' /\ (forall h i, refers s h i -> refers s' h i) /\
    view s' = view s /\ match r with Ok _ | Err _ => True | _ => False end;
  size_law s h i c : fs_ok s -> refers s h i -> view s !! i = Some c ->
    exists r s', file_size h s = (r, s') /\ fs_ok s' /\ (forall h i, refers s h i -> refers s' h i) /\
    view s' = view s /\
    match r with Ok n => n = Z.of_nat (length c) | Err _ => True | _ => False end;
  read_law s h i c offset buf : fs_ok s -> refers s h i -> view s !! i = Some c -> (0 <= offset)%Z ->
    exists r s', read_file h offset buf s = (r, s') /\ fs_ok s' /\ (forall h i, refers s h i -> refers s' h i) /\
    view s' = view s /\
    match r with
    | Ok (n, buf') =>
        n <= length buf /\ n <= length c - Z.to_nat offset /\
        buf' = take n (drop (Z.to_nat offset) c) ++ drop n buf
    | Err _ => True
    | _ => False
    end;
  write_law s h i c offset data : fs_ok s -> refers s h i -> view s !! i = Some c -> (0 <= offset)%Z ->
    exists r s', write_file h offset data s = (r, s') /\ fs_ok s' /\ (forall h i, refers s h i -> refers s' h i) /\
    match r with
    | Ok n => n <= length data /\ view s' = <[i := overwrite c (Z.to_nat offset) (take n data)]> (view s)
    | Err _ => view s' = view s
    | _ => False
    end;
}.

(** Where nothing goes wrong, the calls succeed and move as much as they can. *)
Class FileSystemSteady (F H : Type) `{FileSystemLaws F H} := {
  steady : F -> Prop;
  openable : Path -> Prop;
  steady_open s p : fs_ok s -> steady s -> openable p ->
    exists h s', open_file p s = (Ok h, s') /\ steady s';
  steady_sync s p : fs_ok s -> steady s ->
    exists s', sync_file p s = (Ok tt, s') /\ steady s';
  steady_size s h i : fs_ok s -> steady s -> refers s h i ->
    exists n s', file_size h s = (Ok n, s') /\ steady s';
  steady_read s h i c offset buf : fs_ok s -> steady s -> refers s h i -> view s !! i = Some c ->
    (0 <= offset < 9223372036854775808)%Z ->
    exists buf' s',
      read_file h offset buf s = (Ok (Nat.min (length buf) (length c - Z.to_nat offset), buf'), s') /\ steady s';
  steady_write s h i offset data : fs_ok s -> steady s -> refers s h i ->
    (0 <= offset < 9223372036854775808)%Z ->
    exists s', write_file h offset data s = (Ok (length data), s') /\ steady s';
}.

(** * std::fs *)

(** Which file the operating system finds under an absolute or relative path;
    separators may be repeated and "." stands for the directory. *)
Class Os := {
  os_resolve : Path -> Path;
  os_resolve_iter p q : path_iter p = path_iter q -> os_resolve p = os_resolve q;
}.

(** How a call goes: it fails, or moves at most [n] bytes. *)
Inductive Answer : Type := Fails (code : Z) | Moves (n : nat).

Record OsState := {
  os_files : gmap Path bytes;
  os_open : list (Path * Z);
  os_answers : list Answer;
}.

Definition OsState_eta (s : OsState) : OsState :=
  {| os_files := os_files s; os_open := os_open s; os_answers := os_answers s |}.
#[global] Instance up_os_files : FieldUpdate os_files := ltac:(field_update OsState_eta os_files).
#[global] Instance up_os_open : FieldUpdate os_open := ltac:(field_update OsState_eta os_open).
#[global] Instance up_os_answers : FieldUpdate os_answers := ltac:(field_update OsState_eta os_answers).

Definition EBADF : Z := 9.
Definition EINVAL : Z := 22.

(** How much the next call moves when it could move [want] bytes. *)
Definition os_call (want : nat) : io OsState nat := fun s =>
  match os_answers s with
  | [] => (Ok want, s)
  | Fails code :: a => (Err (OsError code), s <| os_answers := a |>)
  | Moves n :: a => (Ok (Nat.min n want), s <| os_answers := a |>)
  end.

Definition os_handle (fd : nat) : io OsState (Path * Z) := fun s =>
  match os_open s !! fd with
  | Some e => (Ok e, s)
  | None => (Err (OsError EBADF), s)
  end.

Definition os_contents (i : Path) (s : OsState) : bytes := default [] (os_files s !! i).

Definition create_dir_all (p : Path) : io OsState unit := _ ← os_call 0; mret tt.

Section Native.
Context `{Os}.

(** [OpenOptions::new().read(true).write(true).create(true).open(path)] *)
Definition open_rw_create (p : Path) : io OsState nat :=
  _ ← os_call 0;
  s ← get;
  _ ← modify (fun s => s <| os_files := created (os_resolve p) (os_files s) |>
                         <| os_open := os_open s ++ [(os_resolve p, 0%Z)] |>);
  mret (length (os_open s)).

(** [File::seek(SeekFrom::Start(offset))]: the system takes a signed offset. *)
Definition os_seek (fd : nat) (offset : Z) : io OsState unit :=
  '(i, _) ← os_handle fd;
  _ ← os_call 0;
  if (9223372036854775808 <=? offset)%Z then fail (OsError EINVAL)
  else modify (fun s => s <| os_open := <[fd := (i, offset)]> (os_open s) |>).

(** [File::read] *)
Definition os_read (fd : nat) (buf : bytes) : io OsState (nat * bytes) :=
  '(i, pos) ← os_handle fd;
  c ← gets (os_contents i);
  n ← os_call (Nat.min (length buf) (length c - Z.to_nat pos));
  _ ← modify (fun s => s <| os_open := <[fd := (i, pos + Z.of_nat n)%Z]> (os_open s) |>);
  mret (n, take n (drop (Z.to_nat pos) c) ++ drop n buf).

(** [File::write] *)
Definition os_write (fd : nat) (data : bytes) : io OsState nat :=
  '(i, pos) ← os_handle fd;
  n ← os_call (length data);
  _ ← modify (fun s =>
    s <| os_files := <[i := overwrite (os_contents i s) (Z.to_nat pos) (take n data)]> (os_files s) |>
      <| os_open := <[fd := (i, pos + Z.of_nat n)%Z]> (os_open s) |>);
  mret n.

(** [File::metadata] and its length. *)
Definition os_len (fd : nat) : io OsState Z :=
  '(i, _) ← os_handle fd;
  _ ← os_call 0;
  gets (fun s => Z.of_nat (length (os_contents i s))).

(** [Path::parent], up to the equality of paths, which is that of their
    components. *)
Definition parent (p : Path) : option Path :=
  match rev (path_iter p) with
  | [] => None
  | c :: r => if bool_decide (c = [SLASH]) then None else Some (fold_left path_push (rev r) [])
  end.

(** * native.rs *)

Definition create_new_file (p : Path) : io OsState nat :=
  match parent p with
  | Some parent_dir => _ ← create_dir_all parent_dir; open_rw_create p
  | None => fail (InvalidInput (ascii_bytes "File Path Has No Parent"))
  end.

Definition combine_user_path (user_path current_dir : Path) : Path :=
  if is_absolute user_path then user_path
  else fold_left path_push (path_iter user_path) current_dir.

(** [impl FileSystem for NativeFileSystem] *)
#[global] Instance NativeFileSystem (current_dir : Path) : FileSystem OsState nat := {|
  open_file path := create_new_file (combine_user_path path current_dir);
  sync_file _ := mret tt;
  file_size file := os_len file;
  read_file file offset buffer := _ ← os_seek file offset; os_read file buffer;
  write_file file offset buffer := _ ← os_seek file offset; os_write file buffer;
|}.
End Native.

(** * cache/file_handle.rs *)

(** [LruCache] of the crate lru_cache: it may drop entries at any time, and keys
    are compared as paths are. *)
Class LruCache (V C : Type) := {
  lru_new : nat -> C;
  lru_get_mut : Path -> C -> option V * C;
  lru_insert : Path -> V -> C -> C;
  lru_clear : C -> C;
}.

Class LruCacheLaws (V C : Type) `{LruCache V C} := {
  lru_entries : C -> list (Path * V);
  lru_new_entries n : lru_entries (lru_new n) = [];
  lru_get_entry p c v c' : lru_get_mut p c = (Some v, c') ->
    exists q, path_iter q = path_iter p /\ (q, v) ∈ lru_entries c;
  lru_get_keeps p c o c' : lru_get_mut p c = (o, c') -> lru_entries c' ⊆ lru_entries c;
  lru_insert_entries p v c : lru_entries (lru_insert p v c) ⊆ (p, v) :: lru_entries c;
  lru_clear_entries c : lru_entries (lru_clear c) = [];
}.

Record FileHandleCache (F C : Type) := { cache : C; inner : F }.
Arguments cache {F C} _.
Arguments inner {F C} _.
Arguments Build_FileHandleCache {F C} _ _.

Section Cache.
Context {F V C : Type} `{FileSystem F V} `{LruCache V C}.

Definition FileHandleCache_new (fs : F) (capacity : nat) : FileHandleCache F C :=
  {| cache := lru_new capacity; inner := fs |}.

(** A call of the inner file system; the cache keeps the handles, so that those
    it gives out are shared. *)
Definition on_inner {A} (m : io F A) : io (FileHandleCache F C) A := fun s =>
  let '(r, fs) := m (inner s) in (r, {| cache := cache s; inner := fs |}).

Definition cached_open (path : Path) : io (FileHandleCache F C) V := fun s =>
  let '(entry, c) := lru_get_mut path (cache s) in
  let s := {| cache := c; inner := inner s |} in
  match entry with
  | Some entry => (Ok entry, s)
  | None =>
      (file ← on_inner (open_file path);
       _ ← modify (fun s => {| cache := lru_insert path file (cache s); inner := inner s |});
       mret file) s
  end.

Definition cached_sync (path : Path) : io (FileHandleCache F C) unit :=
  _ ← modify (fun s => {| cache := lru_clear (cache s); inner := inner s |});
  on_inner (sync_file path).

#[global] Instance FileHandleCache_FileSystem : FileSystem (FileHandleCache F C) V := {|
  open_file := cached_open;
  sync_file := cached_sync;
  file_size file := on_inner (file_size file);
  read_file file offset buffer := on_inner (read_file file offset buffer);
  write_file file offset buffer := on_inner (write_file file offset buffer);
|}.
End Cache.
