(* ===== verification/FileSystemCorrect.v ===== *)
(** FileSystemCorrect: the native file system and the cache of handles keep the
    promises of the trait, and a store of files as their specification. *)

From stdpp Require Import base list gmap.
From Stdlib Require Import ZArith Lia.
From Stdlib Require String.
From S2P Require Import Prelude Effects Metainfo FileSystem.
Import String.StringSyntax.

(** * Contents of files *)

Lemma lookup_overwrite c o data i :
  overwrite c o data !! i =
    if bool_decide (o <= i < o + length data) then data !! (i - o)
    else if bool_decide (length c <= i < o /\ data <> []) then Some 0%Z else c !! i.
Proof.
  unfold overwrite. destruct data as [|x data'] eqn:Hd.
  { rewrite !bool_decide_eq_false_2; [done|naive_solver|simpl; lia]. }
  rewrite <- Hd in *. assert (data <> []) by (by rewrite Hd). clear x data' Hd.
  case_bool_decide as H1; [|case_bool_decide as H2].
  - rewrite app_assoc, lookup_app_r; rewrite length_app, length_take, length_replicate; [|lia].
    rewrite lookup_app_l by lia. f_equal. lia.
  - rewrite lookup_app_r; rewrite length_take; [|lia]. rewrite lookup_app_l by (rewrite length_replicate; lia).
    apply lookup_replicate_2. lia.
  - destruct (decide (i < o)) as [Hi|Hi].
    + assert (i < length c) by (destruct (decide (length c <= i)); [naive_solver|lia]).
      rewrite lookup_app_l by (rewrite length_take; lia). by apply lookup_take_lt.
    + rewrite !app_assoc, lookup_app_r; rewrite !length_app, length_take, length_replicate; [|lia].
      rewrite lookup_drop. f_equal. lia.
Qed.

Lemma length_overwrite c o data :
  length (overwrite c o data) = if bool_decide (data = []) then length c else Nat.max (length c) (o + length data).
Proof.
  unfold overwrite. destruct data as [|x data]; [done|]. rewrite bool_decide_eq_false_2 by done.
  rewrite !length_app, length_take, length_replicate, length_drop. lia.
Qed.

(** * Paths *)

Lemma split_no_slash p : Forall (fun c => SLASH ∉ c) (split_slash p).
Proof.
  induction p as [|x p IH]; simpl; [repeat constructor; by apply not_elem_of_nil|].
  destruct (Z.eqb_spec x SLASH); [constructor; [by apply not_elem_of_nil|done]|].
  destruct (split_slash p) as [|h t]; [repeat constructor; set_solver|].
  apply Forall_cons in IH as [Hh Ht]. constructor; [|done]. rewrite not_elem_of_cons. by split; [intros ?; subst|].
Qed.

Lemma absolute_iter p : is_absolute p = bool_decide (head (path_iter p) = Some [SLASH]).
Proof.
  unfold path_iter. destruct (is_absolute p); [done|]. symmetry. apply bool_decide_eq_false_2. intros Hh.
  assert ([SLASH] ∈ split_slash p) as Hin.
  { assert (exists l, [SLASH] :: l = (match split_slash p with c :: _ => if bool_decide (c = CUR_DIR) then [CUR_DIR] else [] | [] => [] end)
      ++ filter (fun c => c <> [] /\ c <> CUR_DIR) (split_slash p)) as [l Hl].
    { destruct (_ ++ _) as [|x l] eqn:E; [done|]. injection Hh as ->. by exists l. }
    assert ([SLASH] ∈ [SLASH] :: l) as H by set_solver. rewrite Hl in H. apply elem_of_app in H as [H|H].
    - destruct (split_slash p) as [|c t]; [by apply not_elem_of_nil in H|]. case_bool_decide; [|by apply not_elem_of_nil in H].
      by apply list_elem_of_singleton in H.
    - apply list_elem_of_filter in H. tauto. }
  pose proof (split_no_slash p) as Hs. rewrite Forall_forall in Hs. apply Hs in Hin. set_solver.
Qed.

(** * The native file system *)

(** Run the calls of the operating system that have an answer. *)
Ltac fields := cbv [update_field up_os_files up_os_open up_os_answers]; cbn [os_files os_open os_answers].

Section Native.
Context `{Os} (current_dir : Path).
#[local] Existing Instance NativeFileSystem.

Definition native_locate (p : Path) : Path := os_resolve (combine_user_path p current_dir).
Definition native_ok (s : OsState) : Prop := Forall (fun e => is_Some (os_files s !! e.1) /\ 0 <= e.2)%Z (os_open s).
Definition native_refers (s : OsState) (fd : nat) (i : Path) : Prop := exists pos, os_open s !! fd = Some (i, pos).

Lemma native_locate_iter p q : path_iter p = path_iter q -> native_locate p = native_locate q.
Proof.
  intros Hp. unfold native_locate, combine_user_path. rewrite !absolute_iter, Hp.
  destruct (bool_decide _); [by apply os_resolve_iter|done].
Qed.

(** A call consumes an answer and changes nothing else. *)
Lemma os_call_cases want s :
  exists r s', os_call want s = (r, s') /\ os_files s' = os_files s /\ os_open s' = os_open s /\
    match r with Ok n => n <= want | Err _ => True | _ => False end /\
    (os_answers s = [] -> r = Ok want /\ os_answers s' = []).
Proof.
  unfold os_call. destruct (os_answers s) as [|[code|n] a] eqn:Ea; (eexists _, _; split; [done|]; fields; split_and!; try done; lia).
Qed.

(** Moving the position of a descriptor. *)
Definition moved (fd : nat) (i : Path) (pos : Z) (s s' : OsState) : Prop :=
  os_open s' = <[fd := (i, pos)]> (os_open s) /\ dom (os_files s) ⊆ dom (os_files s').

Lemma moved_keeps fd i pos s s' :
  native_ok s -> native_refers s fd i -> (0 <= pos)%Z -> moved fd i pos s s' ->
  native_ok s' /\ (forall fd i, native_refers s fd i -> native_refers s' fd i).
Proof.
  intros Hok [p0 Hfd] Hpos [Ho Hd]. unfold native_ok, native_refers in *. rewrite Ho.
  assert (forall j, is_Some (os_files s !! j) -> is_Some (os_files s' !! j)) as Hs.
  { intros j. rewrite <- !elem_of_dom. set_solver. }
  split.
  - apply Forall_insert.
    + eapply Forall_impl; [exact Hok|]. intros [j q] [? ?]. split; [|done]. by apply Hs.
    + split; [|done]. apply Hs. eapply Forall_lookup_1 in Hok; [|exact Hfd]. apply Hok.
  - intros fd' j [q Hq]. destruct (decide (fd = fd')) as [<-|].
    + exists pos. rewrite list_lookup_insert_eq by (by eapply lookup_lt_Some). congruence.
    + exists q. by rewrite list_lookup_insert_ne.
Qed.

Lemma native_exists s fd i : native_ok s -> native_refers s fd i -> is_Some (os_files s !! i).
Proof. intros Hok [pos Hfd]. by apply (Forall_lookup_1 _ _ _ _ Hok Hfd). Qed.

Lemma created_dom i m : dom (created i m) = {[i]} ∪ dom m.
Proof.
  unfold created. destruct (m !! i) as [c|] eqn:E; [|by rewrite dom_insert_L].
  assert (i ∈ dom m) by (apply elem_of_dom; by exists c). set_solver.
Qed.

(** Two states with the same files and descriptors. *)
Lemma same_state s s' :
  os_files s' = os_files s -> os_open s' = os_open s ->
  native_ok s -> native_ok s' /\ (forall fd i, native_refers s fd i -> native_refers s' fd i).
Proof. unfold native_ok, native_refers. intros -> ->. naive_solver. Qed.

Lemma native_open s p : native_ok s ->
  exists r s', open_file (FileSystem := NativeFileSystem current_dir) p s = (r, s') /\ native_ok s' /\
    (forall fd i, native_refers s fd i -> native_refers s' fd i) /\
    match r with
    | Ok h => os_files s' = created (native_locate p) (os_files s) /\ native_refers s' h (native_locate p)
    | Err _ => os_files s' = os_files s
    | _ => False
    end /\
    (os_answers s = [] -> parent (combine_user_path p current_dir) <> None ->
      (exists h, r = Ok h) /\ os_answers s' = []).
Proof.
  intros Hok. simpl. unfold create_new_file. fold (native_locate p). destruct (parent _) as [d|]; [|by eexists _, _].
  unfold create_dir_all, open_rw_create, mbind, St_bind, get, modify, mret, St_ret.
  destruct (os_call_cases 0 s) as (r & s1 & -> & Hf & Ho & Hr & Hs).
  destruct r as [n| | |]; try done; [|exists (Err e), s1; split; [done|]; destruct (same_state s s1); naive_solver].
  destruct (os_call_cases 0 s1) as (r' & s2 & -> & Hf' & Ho' & Hr' & Hs').
  assert (os_files s2 = os_files s) as Hf2 by congruence. assert (os_open s2 = os_open s) as Ho2 by congruence.
  destruct r' as [n'| | |]; try done; [|exists (Err e), s2; split; [done|]; destruct (same_state s s2); naive_solver].
  eexists _, _. split; [done|]. fields. unfold native_ok, native_refers. fields. rewrite Hf2, Ho2. split_and!.
  - apply Forall_app. split.
    + eapply Forall_impl; [exact Hok|]. intros [j q] [Hj ?]. split; [|done]. apply elem_of_dom.
      rewrite created_dom. apply elem_of_dom in Hj. set_solver.
    + rewrite Forall_singleton. split; [|done]. apply elem_of_dom. rewrite created_dom. set_solver.
  - intros fd i [pos Hfd]. exists pos. by apply lookup_app_l_Some.
  - done.
  - exists 0%Z. rewrite lookup_app_r by done. by rewrite Nat.sub_diag.
  - intros Ha _. apply Hs in Ha as [_ Ha]. apply Hs' in Ha as [_ Ha]. split; [by eexists|done].
Qed.

Lemma os_handle_refers s fd i pos : os_open s !! fd = Some (i, pos) -> os_handle fd s = (Ok (i, pos), s).
Proof. unfold os_handle. by intros ->. Qed.

Lemma native_seek s fd i offset : native_ok s -> native_refers s fd i -> (0 <= offset)%Z ->
  exists r s', os_seek fd offset s = (r, s') /\ native_ok s' /\ (forall fd i, native_refers s fd i -> native_refers s' fd i) /\
    os_files s' = os_files s /\
    match r with Ok _ => os_open s' !! fd = Some (i, offset) | Err _ => True | _ => False end /\
    (os_answers s = [] -> (offset < 9223372036854775808)%Z -> r = Ok tt /\ os_answers s' = []).
Proof.
  intros Hok Hr Ho. pose proof Hr as [pos Hfd]. unfold os_seek, mbind, St_bind. rewrite (os_handle_refers _ _ _ _ Hfd).
  destruct (os_call_cases 0 s) as (r & s1 & -> & Hf & Hop & Hrr & Hs).
  destruct r as [n| | |]; try done; [|exists (Err e), s1; split; [done|]; destruct (same_state s s1); naive_solver].
  unfold fail, modify. case_match.
  - exists (Err (OsError EINVAL)), s1. split; [done|]. destruct (same_state s s1); [done..|]. split_and!; [done..|]. lia.
  - eexists (Ok tt), _. split; [done|]. match goal with |- native_ok ?t /\ _ => set (s2 := t) end.
    assert (moved fd i offset s s2) as Hm by (unfold s2; split; fields; [by rewrite Hop|by rewrite Hf]).
    destruct (moved_keeps _ _ _ _ _ Hok Hr Ho Hm) as [Hok' Hr']. split_and!; [done..| |].
    + unfold s2. fields. apply list_lookup_insert_eq. rewrite Hop. by eapply lookup_lt_Some.
    + intros Ha _. apply Hs in Ha as [_ Ha]. done.
Qed.

Lemma native_read s fd i c offset buf : native_ok s -> native_refers s fd i -> os_files s !! i = Some c -> (0 <= offset)%Z ->
  exists r s', read_file (FileSystem := NativeFileSystem current_dir) fd offset buf s = (r, s') /\ native_ok s' /\
    (forall fd i, native_refers s fd i -> native_refers s' fd i) /\ os_files s' = os_files s /\
    match r with
    | Ok (n, buf') => n <= length buf /\ n <= length c - Z.to_nat offset /\ buf' = take n (drop (Z.to_nat offset) c) ++ drop n buf
    | Err _ => True
    | _ => False
    end /\
    (os_answers s = [] -> (offset < 9223372036854775808)%Z ->
      (exists buf', r = Ok (Nat.min (length buf) (length c - Z.to_nat offset), buf')) /\ os_answers s' = []).
Proof.
  intros Hok Hr Hc Ho. simpl. unfold mbind, St_bind. destruct (native_seek s fd i offset) as (r & s1 & -> & Hok1 & Hr1 & Hf & Hp & Hs); [done..|].
  destruct r as [[]| | |]; try done; [|exists (Err e), s1; split_and!; naive_solver].
  unfold os_read, mbind, St_bind. rewrite (os_handle_refers _ _ _ _ Hp). unfold gets, os_contents. rewrite Hf, Hc. simpl.
  destruct (os_call_cases (Nat.min (length buf) (length c - Z.to_nat offset)) s1) as (r & s2 & -> & Hf2 & Hop2 & Hn & Hs2).
  destruct (same_state s1 s2 Hf2 Hop2 Hok1) as [Hok2 Hr2].
  destruct r as [n| | |]; try done; [|exists (Err e), s2; split_and!; [done..| | | |]; try naive_solver congruence].
  unfold modify, mret, St_ret. eexists _, _. split; [done|]. match goal with |- native_ok ?t /\ _ => set (s3 := t) end.
  assert (moved fd i (offset + Z.of_nat n) s2 s3) as Hm by (unfold s3; by split; fields).
  destruct (moved_keeps fd i (offset + Z.of_nat n) s2 s3 Hok2 (Hr2 _ _ (Hr1 _ _ Hr)) ltac:(lia) Hm) as [Hok3 Hr3].
  split_and!; [done|naive_solver|unfold s3; fields; congruence|lia|lia|done|].
  intros Ha Hlt. destruct (Hs Ha Hlt) as [_ Ha1]. destruct (Hs2 Ha1) as [[= ->] Ha2]. split; [by eexists|done].
Qed.

Lemma native_write s fd i c offset data : native_ok s -> native_refers s fd i -> os_files s !! i = Some c -> (0 <= offset)%Z ->
  exists r s', write_file (FileSystem := NativeFileSystem current_dir) fd offset data s = (r, s') /\ native_ok s' /\
    (forall fd i, native_refers s fd i -> native_refers s' fd i) /\
    match r with
    | Ok n => n <= length data /\ os_files s' = <[i := overwrite c (Z.to_nat offset) (take n data)]> (os_files s)
    | Err _ => os_files s' = os_files s
    | _ => False
    end /\
    (os_answers s = [] -> (offset < 9223372036854775808)%Z -> r = Ok (length data) /\ os_answers s' = []).
Proof.
  intros Hok Hr Hc Ho. simpl. unfold mbind, St_bind. destruct (native_seek s fd i offset) as (r & s1 & -> & Hok1 & Hr1 & Hf & Hp & Hs); [done..|].
  destruct r as [[]| | |]; try done; [|exists (Err e), s1; split_and!; naive_solver].
  unfold os_write, mbind, St_bind. rewrite (os_handle_refers _ _ _ _ Hp).
  destruct (os_call_cases (length data) s1) as (r & s2 & -> & Hf2 & Hop2 & Hn & Hs2).
  destruct (same_state s1 s2 Hf2 Hop2 Hok1) as [Hok2 Hr2].
  destruct r as [n| | |]; try done; [|exists (Err e), s2; split_and!; [done..| | |]; try naive_solver congruence].
  unfold modify, mret, St_ret. eexists _, _. split; [done|]. match goal with |- native_ok ?t /\ _ => set (s3 := t) end.
  assert (os_contents i s2 = c) as Hcs by (unfold os_contents; by rewrite Hf2, Hf, Hc).
  assert (moved fd i (offset + Z.of_nat n) s2 s3) as Hm by (unfold s3; split; fields; [done|set_solver]).
  destruct (moved_keeps fd i (offset + Z.of_nat n) s2 s3 Hok2 (Hr2 _ _ (Hr1 _ _ Hr)) ltac:(lia) Hm) as [Hok3 Hr3].
  split_and!; [done|naive_solver|lia|unfold s3; fields; congruence|].
  intros Ha Hlt. destruct (Hs Ha Hlt) as [_ Ha1]. destruct (Hs2 Ha1) as [[= ->] Ha2]. done.
Qed.

Lemma native_size s fd i c : native_ok s -> native_refers s fd i -> os_files s !! i = Some c ->
  exists r s', file_size (FileSystem := NativeFileSystem current_dir) fd s = (r, s') /\ native_ok s' /\
    (forall fd i, native_refers s fd i -> native_refers s' fd i) /\ os_files s' = os_files s /\
    match r with Ok n => n = Z.of_nat (length c) | Err _ => True | _ => False end /\
    (os_answers s = [] -> (exists n, r = Ok n) /\ os_answers s' = []).
Proof.
  intros Hok [pos Hfd] Hc. simpl. unfold os_len, mbind, St_bind. rewrite (os_handle_refers _ _ _ _ Hfd).
  destruct (os_call_cases 0 s) as (r & s1 & -> & Hf & Ho & Hn & Hs). destruct (same_state s s1 Hf Ho Hok) as [Hok1 Hr1].
  destruct r as [n| | |]; try done; [|exists (Err e), s1; naive_solver].
  unfold gets, os_contents. rewrite Hf, Hc. eexists _, _. split; [done|]. split_and!; [done..|]. intros Ha. apply Hs in Ha as [_ Ha]. split; [by eexists|done].
Qed.

#[global] Instance Native_laws : @FileSystemLaws OsState nat (NativeFileSystem current_dir).
Proof.
  refine {| locate := native_locate; view := os_files; fs_ok := native_ok; refers := native_refers;
            locate_iter := native_locate_iter; refers_exists := native_exists |}.
  - intros s p Hok. destruct (native_open s p Hok) as (r & s' & ?). exists r, s'. naive_solver.
  - intros s p Hok. by eexists (Ok tt), s.
  - intros s h i c Hok Hr Hc. destruct (native_size s h i c Hok Hr Hc) as (r & s' & ?). exists r, s'. naive_solver.
  - intros s h i c o buf Hok Hr Hc Ho. destruct (native_read s h i c o buf Hok Hr Hc Ho) as (r & s' & ?). exists r, s'. naive_solver.
  - intros s h i c o data Hok Hr Hc Ho. destruct (native_write s h i c o data Hok Hr Hc Ho) as (r & s' & ?). exists r, s'. naive_solver.
Defined.

#[global] Instance Native_steady : @FileSystemSteady OsState nat (NativeFileSystem current_dir) Native_laws.
Proof.
  refine (Build_FileSystemSteady _ _ _ _ (fun s => os_answers s = []) (fun p => parent (combine_user_path p current_dir) <> None) _ _ _ _ _).
  - intros s p Hok Ha Hp. destruct (native_open s p Hok) as (r & s' & Hx & _ & _ & _ & Hs). destruct (Hs Ha Hp) as [[h ->] Ha']. by exists h, s'.
  - intros s p Hok Ha. by exists s.
  - intros s h i Hok Ha Hr. destruct (native_exists _ _ _ Hok Hr) as [c Hc].
    destruct (native_size s h i c Hok Hr Hc) as (r & s' & Hx & _ & _ & _ & _ & Hs). destruct (Hs Ha) as [[n ->] Ha']. by exists n, s'.
  - intros s h i c o buf Hok Ha Hr Hc Ho. destruct (native_read s h i c o buf Hok Hr Hc ltac:(lia)) as (r & s' & Hx & _ & _ & _ & _ & Hs).
    destruct (Hs Ha ltac:(lia)) as [[b ->] Ha']. by exists b, s'.
  - intros s h i o data Hok Ha Hr Ho. destruct (native_exists _ _ _ Hok Hr) as [c Hc].
    destruct (native_write s h i c o data Hok Hr Hc ltac:(lia)) as (r & s' & Hx & _ & _ & _ & Hs). destruct (Hs Ha ltac:(lia)) as [-> Ha']. by exists s'.
Defined.
End Native.

(** * The cache of handles *)

Section Cache.
Context {F V C : Type} `{FileSystemLaws F V} `{LruCacheLaws V C}.
Notation CF := (FileHandleCache F C).

(** Every handle in the cache is one of the file it is kept for. *)
Definition cache_ok (s : CF) : Prop :=
  fs_ok (inner s) /\ forall p v, (p, v) ∈ lru_entries (cache s) -> refers (inner s) v (locate p).

Lemma cache_moves (c : C) (fs fs' : F) (c' : C) :
  cache_ok {| cache := c; inner := fs |} -> fs_ok fs' -> (forall h i, refers fs h i -> refers fs' h i) ->
  lru_entries c' ⊆ lru_entries c -> cache_ok {| cache := c'; inner := fs' |}.
Proof. intros [_ Hc] Hf Hr Hs. split; [done|]. simpl in *. intros p v Hp. by apply Hr, Hc, Hs. Qed.

(** A call that goes to the inner file system. *)
Lemma inner_call {A} (m : io F A) (P : F -> outcome IoError A -> F -> Prop) s :
  cache_ok s ->
  (exists r fs', m (inner s) = (r, fs') /\ fs_ok fs' /\ (forall h i, refers (inner s) h i -> refers fs' h i) /\ P (inner s) r fs') ->
  exists r s', on_inner m s = (r, s') /\ cache_ok s' /\ (forall h i, refers (inner s) h i -> refers (inner s') h i) /\ P (inner s) r (inner s').
Proof.
  intros Hok (r & fs' & Hm & Hf & Hr & HP). unfold on_inner. rewrite Hm. exists r, {| cache := cache s; inner := fs' |}.
  split_and!; [done| |done..]. destruct s as [c fs]. eapply cache_moves; [exact Hok|done..].
Qed.

Lemma cached_open_law s p : cache_ok s ->
  exists r s', cached_open p s = (r, s') /\ cache_ok s' /\ (forall h i, refers (inner s) h i -> refers (inner s') h i) /\
  match r with
  | Ok h => view (inner s') = created (locate p) (view (inner s)) /\ refers (inner s') h (locate p)
  | Err _ => view (inner s') = view (inner s)
  | _ => False
  end.
Proof.
  intros Hok. unfold cached_open. destruct (lru_get_mut p (cache s)) as [o c] eqn:Hg.
  pose proof (lru_get_keeps _ _ _ _ Hg) as Hk.
  assert (cache_ok {| cache := c; inner := inner s |}) as Hok1 by (destruct s; eapply cache_moves; [exact Hok|by destruct Hok|done..]).
  destruct o as [v|].
  - apply lru_get_entry in Hg as (q & Hq & Hin). destruct Hok as [Hf Hc]. apply Hc in Hin. rewrite (locate_iter _ _ Hq) in Hin.
    eexists _, _. split; [done|]. split_and!; [done|done| |done]. simpl. unfold created.
    destruct (refers_exists _ _ _ Hf Hin) as [x ->]. done.
  - destruct (open_law (inner s) p) as (r & fs' & Ho & Hf' & Hr' & Hr); [by destruct Hok|].
    unfold mbind, St_bind, on_inner, modify, mret, St_ret. simpl. rewrite Ho. destruct r as [h|e| |]; try done.
    + eexists _, _. split; [done|]. simpl. split_and!; [|done|naive_solver..]. split; [done|]. simpl. intros q v Hqv.
      apply lru_insert_entries, elem_of_cons in Hqv as [[= -> ->]|Hqv]; [naive_solver|]. by apply Hr', Hok1.
    + eexists _, _. split; [done|]. split_and!; [|done..]. eapply cache_moves; [exact Hok1|done..].
Qed.

#[global] Instance Cache_laws : FileSystemLaws CF V.
Proof.
  refine {| locate := locate; view s := view (inner s); fs_ok := cache_ok; refers s := refers (inner s); locate_iter := locate_iter |}.
  - intros s h i [Hf _]. by apply refers_exists.
  - apply cached_open_law.
  - intros s p Hok. simpl. unfold cached_sync, mbind, St_bind, modify.
    set (s1 := {| cache := lru_clear (cache s); inner := inner s |}).
    assert (cache_ok s1) as Hok1 by (destruct Hok; split; [done|]; simpl; rewrite lru_clear_entries; intros ?? Hn; by apply not_elem_of_nil in Hn).
    apply (inner_call (sync_file p) (fun fs r fs' => view fs' = view fs /\ match r with Ok _ | Err _ => True | _ => False end) s1 Hok1).
    apply sync_law. by destruct Hok.
  - intros s h i c Hok Hr Hc. apply (inner_call (file_size h) (fun fs r fs' => view fs' = view fs /\
      match r with Ok n => n = Z.of_nat (length c) | Err _ => True | _ => False end) s Hok).
    eapply size_law; [by destruct Hok|done..].
  - intros s h i c o buf Hok Hr Hc Ho. apply (inner_call (read_file h o buf) (fun fs r fs' => view fs' = view fs /\
      match r with Ok (n, buf') => n <= length buf /\ n <= length c - Z.to_nat o /\ buf' = take n (drop (Z.to_nat o) c) ++ drop n buf
      | Err _ => True | _ => False end) s Hok).
    eapply read_law; [by destruct Hok|done..].
  - intros s h i c o data Hok Hr Hc Ho. apply (inner_call (write_file h o data) (fun fs r fs' =>
      match r with Ok n => n <= length data /\ view fs' = <[i := overwrite c (Z.to_nat o) (take n data)]> (view fs)
      | Err _ => view fs' = view fs | _ => False end) s Hok).
    eapply write_law; [by destruct Hok|done..].
Defined.

Lemma on_inner_ok {A} (m : io F A) (a : A) fs' (s : CF) : m (inner s) = (Ok a, fs') -> on_inner m s = (Ok a, {| cache := cache s; inner := fs' |}).
Proof. unfold on_inner. by intros ->. Qed.

#[global] Instance Cache_steady `{!FileSystemSteady F V} : FileSystemSteady CF V.
Proof.
  refine (Build_FileSystemSteady _ _ _ _ (fun s => steady (inner s)) openable _ _ _ _ _).
  - intros s p [Hf Hc] Hs Hp. simpl. unfold cached_open. destruct (lru_get_mut p (cache s)) as [[v|] c]; [by eexists _, _|].
    destruct (steady_open (inner s) p) as (h & fs' & Ho & Hs'); [done..|]. unfold mbind, St_bind.
    erewrite on_inner_ok by exact Ho. by eexists _, _.
  - intros s p [Hf _] Hs. simpl. unfold cached_sync, mbind, St_bind, modify. destruct (steady_sync (inner s) p) as (fs' & Ho & Hs'); [done..|].
    erewrite on_inner_ok by exact Ho. by eexists.
  - intros s h i [Hf _] Hs Hr. simpl. destruct (steady_size (inner s) h i) as (n & fs' & Ho & Hs'); [done..|].
    erewrite on_inner_ok by exact Ho. by eexists _, _.
  - intros s h i c o buf [Hf _] Hs Hr Hc Ho. simpl. destruct (steady_read (inner s) h i c o buf) as (b & fs' & Hx & Hs'); [done..|].
    erewrite on_inner_ok by exact Hx. by eexists _, _.
  - intros s h i o data [Hf _] Hs Hr Ho. simpl. destruct (steady_write (inner s) h i o data) as (fs' & Hx & Hs'); [done..|].
    erewrite on_inner_ok by exact Hx. by eexists.
Defined.
End Cache.

(** * A store of files *)

Inductive fs_op : Type :=
  | FWrite (p : Path) (offset : Z) (data : bytes)
  | FRead (p : Path) (offset : Z) (buf : bytes)
  | FSize (p : Path)
  | FSync (p : Path).

Inductive fs_obs : Type := Wrote (n : nat) | DataRead (n : nat) (buf : bytes) | Size (n : Z) | Synced.

Definition fs_run_op {F H} `{FileSystem F H} (op : fs_op) : io F fs_obs :=
  match op with
  | FWrite p offset data => h ← open_file p; n ← write_file h offset data; mret (Wrote n)
  | FRead p offset buf => h ← open_file p; '(n, buf) ← read_file h offset buf; mret (DataRead n buf)
  | FSize p => h ← open_file p; n ← file_size h; mret (Size n)
  | FSync p => _ ← sync_file p; mret Synced
  end.

Fixpoint fs_run {F H} `{FileSystem F H} (ops : list fs_op) : io F (list fs_obs) :=
  match ops with
  | [] => mret []
  | op :: ops => o ← fs_run_op op; os ← fs_run ops; mret (o :: os)
  end.

(** The same on a map from files to their bytes. *)
Section Store.
Context (locate : Path -> Path).

Definition store_step (op : fs_op) (m : gmap Path bytes) : fs_obs * gmap Path bytes :=
  match op with
  | FWrite p offset data =>
      let c := default [] (m !! locate p) in
      (Wrote (length data), <[locate p := overwrite c (Z.to_nat offset) data]> m)
  | FRead p offset buf =>
      let c := default [] (m !! locate p) in
      let n := Nat.min (length buf) (length c - Z.to_nat offset) in
      (DataRead n (take n (drop (Z.to_nat offset) c) ++ drop n buf), created (locate p) m)
  | FSize p => (Size (Z.of_nat (length (default [] (m !! locate p)))), created (locate p) m)
  | FSync p => (Synced, m)
  end.

Fixpoint store_run (ops : list fs_op) (m : gmap Path bytes) : list fs_obs * gmap Path bytes :=
  match ops with
  | [] => ([], m)
  | op :: ops => let '(o, m) := store_step op m in let '(os, m) := store_run ops m in (o :: os, m)
  end.
End Store.

Definition op_path (op : fs_op) : Path :=
  match op with FWrite p _ _ | FRead p _ _ | FSize p | FSync p => p end.
Definition op_offset (op : fs_op) : Z :=
  match op with FWrite _ o _ | FRead _ o _ => o | _ => 0 end.

Lemma created_lookup i m : created i m !! i = Some (default [] (m !! i)).
Proof. unfold created. destruct (m !! i) eqn:E; [done|]. by rewrite lookup_insert_eq. Qed.

Lemma created_insert i c m : <[i := c]> (created i m) = <[i := c]> m.
Proof. unfold created. destruct (m !! i); [done|]. by rewrite insert_insert_eq. Qed.

Section Refinement.
Context {F H : Type} `{FileSystemSteady F H}.

Definition op_ok (op : fs_op) : Prop := openable (op_path op) /\ (0 <= op_offset op < 9223372036854775808)%Z.

Lemma open_steady s p : fs_ok s -> steady s -> openable p ->
  exists h s', open_file p s = (Ok h, s') /\ fs_ok s' /\ steady s' /\ refers s' h (locate p) /\
    view s' = created (locate p) (view s) /\ (forall h i, refers s h i -> refers s' h i).
Proof.
  intros Hf Hs Hp. destruct (steady_open s p Hf Hs Hp) as (h & s' & Ho & Hs').
  destruct (open_law s p Hf) as (r & s'' & Ho' & Hf' & Hr & Hv). rewrite Ho in Ho'. injection Ho' as <- <-. exists h, s'. naive_solver.
Qed.

Lemma read_steady s h i c offset buf : fs_ok s -> steady s -> refers s h i -> view s !! i = Some c ->
  (0 <= offset < 9223372036854775808)%Z ->
  exists s', read_file h offset buf s =
      (let n := Nat.min (length buf) (length c - Z.to_nat offset) in Ok (n, take n (drop (Z.to_nat offset) c) ++ drop n buf), s') /\
    fs_ok s' /\ steady s' /\ view s' = view s /\ (forall h i, refers s h i -> refers s' h i).
Proof.
  intros Hf Hs Hr Hc Ho. destruct (steady_read s h i c offset buf) as (b & s' & Hx & Hs'); [done..|].
  destruct (read_law s h i c offset buf) as (r & s'' & Hx' & Hf' & Hr' & Hv & Hb); [done..|lia|].
  rewrite Hx in Hx'. injection Hx' as <- <-. exists s'. rewrite Hx. naive_solver.
Qed.

Lemma write_steady s h i c offset data : fs_ok s -> steady s -> refers s h i -> view s !! i = Some c ->
  (0 <= offset < 9223372036854775808)%Z ->
  exists s', write_file h offset data s = (Ok (length data), s') /\ fs_ok s' /\ steady s' /\
    view s' = <[i := overwrite c (Z.to_nat offset) data]> (view s) /\ (forall h i, refers s h i -> refers s' h i).
Proof.
  intros Hf Hs Hr Hc Ho. destruct (steady_write s h i offset data) as (s' & Hx & Hs'); [done..|].
  destruct (write_law s h i c offset data) as (r & s'' & Hx' & Hf' & Hr' & Hb); [done..|lia|].
  rewrite Hx in Hx'. injection Hx' as <- <-. exists s'. destruct Hb as [_ Hb]. by rewrite take_ge in Hb by done.
Qed.

Lemma op_refines s op : fs_ok s -> steady s -> op_ok op ->
  exists o s', fs_run_op op s = (Ok o, s') /\ store_step locate op (view s) = (o, view s') /\ fs_ok s' /\ steady s'.
Proof.
  intros Hf Hs [Hp Ho]. destruct op as [p o d|p o b|p|p]; simpl in Hp, Ho; simpl;
    [| | |destruct (steady_sync s p Hf Hs) as (s' & Hx & Hs'); destruct (sync_law s p Hf) as (r & s'' & Hx' & Hf' & _ & Hv & _);
          rewrite Hx in Hx'; injection Hx' as <- <-; exists Synced, s'; unfold mbind, St_bind; rewrite Hx, Hv; naive_solver];
    destruct (open_steady s p Hf Hs Hp) as (h & s1 & Ho1 & Hf1 & Hs1 & Hr1 & Hv1 & _);
    assert (view s1 !! locate p = Some (default [] (view s !! locate p))) as Hc by (rewrite Hv1; apply created_lookup);
    unfold mbind, St_bind; rewrite Ho1.
  - destruct (write_steady s1 h _ _ o d Hf1 Hs1 Hr1 Hc Ho) as (s2 & Hx & Hf2 & Hs2 & Hv2 & _). rewrite Hx.
    eexists _, _. split; [done|]. rewrite Hv2, Hv1, created_insert. done.
  - destruct (read_steady s1 h _ _ o b Hf1 Hs1 Hr1 Hc Ho) as (s2 & Hx & Hf2 & Hs2 & Hv2 & _). rewrite Hx.
    eexists _, _. split; [done|]. rewrite Hv2, Hv1. done.
  - destruct (steady_size s1 h _ Hf1 Hs1 Hr1) as (n & s2 & Hx & Hs2).
    destruct (size_law s1 h _ _ Hf1 Hr1 Hc) as (r & s2' & Hx' & Hf2 & _ & Hv2 & Hn). rewrite Hx in Hx'. injection Hx' as <- <-.
    rewrite Hx. eexists _, _. split; [done|]. rewrite Hv2, Hv1, Hn. done.
Qed.

Lemma run_refines s ops : fs_ok s -> steady s -> Forall op_ok ops ->
  exists os s', fs_run ops s = (Ok os, s') /\ store_run locate ops (view s) = (os, view s').
Proof.
  intros Hf Hs Hops. revert s Hf Hs. induction Hops as [|op ops Hop _ IH]; intros s Hf Hs; simpl; [by eexists _, _|].
  destruct (op_refines s op Hf Hs Hop) as (o & s1 & Ho & Hv & Hf1 & Hs1). destruct (IH s1 Hf1 Hs1) as (os & s2 & Hos & Hv2).
  unfold mbind, St_bind. rewrite Ho, Hos, Hv, Hv2. by eexists _, _.
Qed.
End Refinement.

(** C38. The cache of file handles is invisible: on a file system that works, any
    sequence of writes, reads, size queries and syncs through a cache of any
    capacity, which drops handles as it likes, gives what it gives without the
    cache, and both give what a map from files to bytes gives. *)
Theorem cache_transparent {F H C : Type} `{FileSystemSteady F H} `{LruCacheLaws H C} (capacity : nat) (s : F) (ops : list fs_op) :
  fs_ok s -> steady s -> Forall op_ok ops ->
  exists os s' (c' : FileHandleCache F C),
    fs_run ops s = (Ok os, s') /\
    fs_run ops (FileHandleCache_new s capacity) = (Ok os, c') /\
    store_run locate ops (view s) = (os, view s') /\ view (inner c') = view s'.
Proof.
  intros Hf Hs Hops. destruct (run_refines s ops Hf Hs Hops) as (os & s' & Hr & Hv).
  destruct (run_refines (FileHandleCache_new s capacity : FileHandleCache F C) ops) as (os' & c' & Hr' & Hv').
  - split; [done|]. simpl. rewrite lru_new_entries. intros p v Hn. by apply not_elem_of_nil in Hn.
  - done.
  - exact Hops.
  - exists os, s', c'. change (locate (F := FileHandleCache F C)) with (locate (F := F) (H := H)) in Hv'.
    change (view (FileHandleCache_new s capacity)) with (view s) in Hv'. rewrite Hv in Hv'. injection Hv' as <- Hv'. done.
Qed.

(** * Concrete instances *)

(** A cache that keeps the most recent entries in a list. *)
Record lru_list (V : Type) := { lru_capacity : nat; lru_list_entries : list (Path * V) }.
Arguments lru_capacity {V} _.
Arguments lru_list_entries {V} _.
Arguments Build_lru_list {V} _ _.

Definition lru_others {V} (p : Path) (l : list (Path * V)) : list (Path * V) := filter (fun e => path_iter e.1 <> path_iter p) l.

#[global] Instance lru_list_cache V : LruCache V (lru_list V) := {|
  lru_new n := {| lru_capacity := n; lru_list_entries := [] |};
  lru_get_mut p c :=
    match list_find (fun e => path_iter e.1 = path_iter p) (lru_list_entries c) with
    | Some (_, e) =>
        (Some e.2, {| lru_capacity := lru_capacity c; lru_list_entries := e :: lru_others p (lru_list_entries c) |})
    | None => (None, c)
    end;
  lru_insert p v c :=
    {| lru_capacity := lru_capacity c; lru_list_entries := take (lru_capacity c) ((p, v) :: lru_others p (lru_list_entries c)) |};
  lru_clear c := {| lru_capacity := lru_capacity c; lru_list_entries := [] |};
|}.

Lemma lru_others_sub {V} p (l : list (Path * V)) : lru_others p l ⊆ l.
Proof. intros e He. by apply list_elem_of_filter in He as [_ He]. Qed.

#[global] Instance lru_list_laws V : LruCacheLaws V (lru_list V).
Proof.
  refine {| lru_entries := lru_list_entries |}; simpl.
  - done.
  - intros p c v c'. destruct (list_find _ _) as [[k [q w]]|] eqn:E; intros [= <- <-].
    apply list_find_Some in E as (Hk & Hq & _). exists q. split; [done|]. by eapply list_elem_of_lookup_2.
  - intros p c o c'. destruct (list_find _ _) as [[k e]|] eqn:E; intros [= <- <-]; [|done]. simpl.
    apply list_find_Some in E as (Hk & _). intros x Hx. apply elem_of_cons in Hx as [->|Hx]; [by eapply list_elem_of_lookup_2|].
    by apply lru_others_sub in Hx.
  - intros p v c x Hx. apply elem_of_take in Hx as (k & Hx & _). apply list_elem_of_lookup_2, elem_of_cons in Hx as [->|Hx]; [by left|].
    right. by apply lru_others_sub in Hx.
  - done.
Defined.

(** An operating system without links. *)
#[global] Instance plain_os : Os := {|
  os_resolve p := fold_left path_push (path_iter p) [];
  os_resolve_iter p q e := f_equal (fun l => fold_left path_push l []) e;
|}.

Definition empty_disk : OsState := {| os_files := ∅; os_open := []; os_answers := [] |}.

Definition sample_ops : list fs_op :=
  [FWrite (ascii_bytes "a") 2 [1; 2]%Z; FSync (ascii_bytes "b"); FRead (ascii_bytes "a") 1 [9; 9; 9]%Z; FSize (ascii_bytes "a")].

Lemma cache_transparent_witness :
  exists os s' (c' : FileHandleCache OsState (lru_list nat)),
    @fs_run _ _ (NativeFileSystem (ascii_bytes "/d")) sample_ops empty_disk = (Ok os, s') /\
    @fs_run _ _ (@FileHandleCache_FileSystem _ _ _ (NativeFileSystem (ascii_bytes "/d")) _) sample_ops (FileHandleCache_new empty_disk 1) = (Ok os, c') /\
    store_run (native_locate (ascii_bytes "/d")) sample_ops ∅ = (os, os_files s') /\ os_files (inner c') = os_files s'.
Proof.
  apply (@cache_transparent OsState nat (lru_list nat) (NativeFileSystem (ascii_bytes "/d")) (Native_laws (ascii_bytes "/d"))
    (Native_steady (ascii_bytes "/d")) _ _ 1 empty_disk sample_ops).
  - by constructor.
  - done.
  - repeat constructor; done.
Defined.

Example sample_observed :
  (store_run (native_locate (ascii_bytes "/d")) sample_ops ∅).1 =
    [Wrote 2; Synced; DataRead 3 [0; 1; 2]%Z; Size 4].
Proof. reflexivity. Qed.
