(* ===== verification/Disk.v ===== *)
(** Disk: [btp-disk/src] (memory/block.rs, message/mod.rs, error.rs,
    tasks/helpers, tasks/context.rs and tasks/mod.rs): storing blocks in the files
    of a torrent, checking pieces, and the tasks of the disk manager.

    A piece index, an offset and a length are [Z].  A hash map is a finite map; the
    order in which it is iterated is an argument.  A task that the handler spawns
    runs in sections, each between taking a lock of the shared context and
    releasing it; sections of different tasks interleave in any order. *)

From stdpp Require Import base list gmap.
From Stdlib Require Import ZArith Lia SpecFloat.
From S2P Require Import Prelude Effects Float ShaHash Metainfo FileSystem Timer.

(** * memory/block.rs *)

Record BlockMetadata := {
  bm_info_hash : ShaHash;
  bm_piece_index : Z;
  bm_block_offset : Z;
  bm_block_length : Z;
}.
#[global] Instance BlockMetadata_eq_dec : EqDecision BlockMetadata.
Proof. solve_decision. Defined.

(** [[0u8; 20].into()] *)
Definition default_hash : ShaHash := {| hash := replicate SHA_HASH_LEN 0%Z |}.

Definition with_default_hash (piece_index block_offset block_length : Z) : BlockMetadata :=
  {| bm_info_hash := default_hash; bm_piece_index := piece_index;
     bm_block_offset := block_offset; bm_block_length := block_length |}.

(** [Block] and [BlockMut] *)
Record Block := { b_metadata : BlockMetadata; b_data : bytes }.

(** * error.rs *)

Inductive BlockError : Type := BlockInfoHashNotFound (hash : ShaHash).
Inductive TorrentError : Type :=
  | TorrentIo (e : IoError)
  | ExistingFileSizeCheck (file_path : Path) (expected_size actual_size : Z)
  | ExistingInfoHash (hash : ShaHash)
  | InfoHashNotFound (hash : ShaHash).

(** * message/mod.rs *)

Inductive IDiskMessage : Type :=
  | AddTorrent (file : Metainfo)
  | RemoveTorrent (hash : ShaHash)
  | SyncTorrent (hash : ShaHash)
  | LoadBlock (block : Block)
  | ProcessBlock (block : Block)
  | CheckTorrent (hash : ShaHash).

Inductive ODiskMessage : Type :=
  | TorrentAdded (hash : ShaHash)
  | TorrentRemoved (hash : ShaHash)
  | TorrentSynced (hash : ShaHash)
  | FoundGoodPiece (hash : ShaHash) (index : Z)
  | FoundBadPiece (hash : ShaHash) (index : Z)
  | BlockLoaded (block : Block)
  | BlockProcessed (block : Block)
  | DownloadPace (hash : ShaHash) (pace : f64)
  | CheckPace (hash : ShaHash) (pace : f64)
  | CheckTorrented (hash : ShaHash)
  | TorrentFailed (hash : ShaHash) (e : TorrentError)
  | LoadBlockError (block : Block) (e : BlockError)
  | ProcessBlockError (block : Block) (e : BlockError)
  | CheckTorrentError (hash : ShaHash).

(** An unbounded channel: what was sent, and whether its receiver is there. *)
Record Channel (M : Type) := { sent : list M; listening : bool }.
Arguments sent {M} _.
Arguments listening {M} _.
Arguments Build_Channel {M} _ _.

(** [send(..).expect(..)] and [send(..)] with its result dropped. *)
Definition channel_send {M} (m : M) (c : Channel M) : outcome IoError (Channel M) :=
  if listening c then Ok {| sent := sent c ++ [m]; listening := true |} else Panic.
Definition channel_try {M} (m : M) (c : Channel M) : Channel M :=
  if listening c then {| sent := sent c ++ [m]; listening := true |} else c.

(** * tasks/helpers/mod.rs *)

Definition build_path (parent_directory : option Path) (file : File) : Path :=
  match parent_directory with
  | Some dir => path_push dir (f_path file)
  | None => f_path file
  end.

(** * tasks/helpers/piece_accessor.rs *)

Section Disk.
Context {F H : Type} `{FileSystem F H} `{Profile} `{Sha1}.

(** The loop over the files: [skip] bytes are still to be skipped, [accessed]
    were accessed. *)
Fixpoint file_regions {S} (opener : Path -> io S H) (callback : H -> Z -> nat -> nat -> io S unit)
    (dir : option Path) (total_block_length : Z) (fs : list File) (skip accessed : Z) : io S unit :=
  match fs with
  | [] => mret tt
  | file :: fs =>
      let total_file_size := f_len file in
      let min_bytes_to_skip := Z.min skip total_file_size in
      let skip := (skip - min_bytes_to_skip)%Z in
      let bytes_to_access := (total_file_size - min_bytes_to_skip)%Z in
      if (0 <? bytes_to_access)%Z && (accessed <? total_block_length)%Z then
        fs_file ← opener (build_path dir file);
        let actual_bytes_to_access := Z.min (total_block_length - accessed) bytes_to_access in
        let offset := (total_file_size - bytes_to_access)%Z in
        _ ← callback fs_file offset (Z.to_nat accessed) (Z.to_nat (accessed + actual_bytes_to_access));
        file_regions opener callback dir total_block_length fs skip (accessed + actual_bytes_to_access)
      else file_regions opener callback dir total_block_length fs skip accessed
  end.

Definition run_with_file_regions {S} (opener : Path -> io S H) (callback : H -> Z -> nat -> nat -> io S unit)
    (info_dict : Info) (message : BlockMetadata) : io S unit :=
  start ← lift (u64_arith (bm_piece_index message * piece_len info_dict));
  total_bytes_to_skip ← lift (u64_arith (start + bm_block_offset message));
  file_regions opener callback (file_directory info_dict) (bm_block_length message) (files info_dict) total_bytes_to_skip 0.

(** A call of the file system next to a buffer. *)
Definition beside {B A} (m : io F A) : io (F * B) A := fun s =>
  let '(r, fs) := m s.1 in (r, (fs, s.2)).

Definition read_region (file : H) (offset : Z) (b e : nat) : io (F * bytes) unit :=
  buffer ← gets snd;
  part ← lift (slice buffer b e);
  '(bytes_read, part) ← beside (read_file file offset part);
  _ ← modify (fun s => (s.1, take b buffer ++ part ++ drop e buffer));
  lift (assert_that (bytes_read =? e - b)).

Definition read_piece (info_dict : Info) (message : BlockMetadata) : io (F * bytes) unit :=
  run_with_file_regions (fun p => beside (open_file p)) read_region info_dict message.

Definition write_region (piece_buffer : bytes) (file : H) (offset : Z) (b e : nat) : io F unit :=
  part ← lift (slice piece_buffer b e);
  bytes_written ← write_file file offset part;
  lift (assert_that (bytes_written =? e - b)).

Definition write_piece (info_dict : Info) (piece_buffer : bytes) (message : BlockMetadata) : io F unit :=
  run_with_file_regions open_file (write_region piece_buffer) info_dict message.

(** * tasks/helpers/piece_checker.rs *)

Inductive PieceState : Type := Good (index : Z) | Bad (index : Z).
#[global] Instance PieceState_eq_dec : EqDecision PieceState.
Proof. solve_decision. Defined.
#[global] Instance PieceState_countable : Countable PieceState.
Proof.
  refine (inj_countable' (fun s => match s with Good i => inl i | Bad i => inr i end)
    (fun e => match e with inl i => Good i | inr i => Bad i end) _). by intros [].
Defined.

Definition get_index (s : PieceState) : Z := match s with Good index | Bad index => index end.

Record PieceStateChecker := {
  new_states : list PieceState;
  old_states : gset PieceState;
  pending_blocks : gmap Z (list BlockMetadata);
  total_pieces : Z;
  last_block_size : Z;
  is_complete : bool;
  complete_num : Z;
  check_num : Z;
}.

Definition PieceStateChecker_eta (s : PieceStateChecker) : PieceStateChecker :=
  {| new_states := new_states s; old_states := old_states s; pending_blocks := pending_blocks s;
     total_pieces := total_pieces s; last_block_size := last_block_size s; is_complete := is_complete s;
     complete_num := complete_num s; check_num := check_num s |}.
#[global] Instance up_new_states : FieldUpdate new_states := ltac:(field_update PieceStateChecker_eta new_states).
#[global] Instance up_old_states : FieldUpdate old_states := ltac:(field_update PieceStateChecker_eta old_states).
#[global] Instance up_pending_blocks : FieldUpdate pending_blocks := ltac:(field_update PieceStateChecker_eta pending_blocks).
#[global] Instance up_is_complete : FieldUpdate is_complete := ltac:(field_update PieceStateChecker_eta is_complete).
#[global] Instance up_complete_num : FieldUpdate complete_num := ltac:(field_update PieceStateChecker_eta complete_num).
#[global] Instance up_check_num : FieldUpdate check_num := ltac:(field_update PieceStateChecker_eta check_num).

Definition PieceStateChecker_new (total_pieces last_block_size : Z) : PieceStateChecker :=
  {| new_states := []; old_states := ∅; pending_blocks := ∅; total_pieces := total_pieces;
     last_block_size := last_block_size; is_complete := false; complete_num := 0; check_num := 0 |}.

Definition complete_pace (s : PieceStateChecker) : f64 := f64_div (f64_of_Z (complete_num s)) (f64_of_Z (total_pieces s)).
Definition check_pace (s : PieceStateChecker) : f64 := f64_div (f64_of_Z (check_num s)) (f64_of_Z (total_pieces s)).

Definition pending_of (index : Z) (s : PieceStateChecker) : list BlockMetadata := default [] (pending_blocks s !! index).

Definition add_pending_block (msg : BlockMetadata) (s : PieceStateChecker) : PieceStateChecker :=
  s <| pending_blocks := <[bm_piece_index msg := pending_of (bm_piece_index msg) s ++ [msg]]> (pending_blocks s) |>.

Definition run_with_diff (callback : PieceState -> bool) (s : PieceStateChecker) : list Z * PieceStateChecker :=
  (get_index <$> filter (fun p => callback p) (new_states s),
   s <| new_states := [] |> <| old_states := list_to_set (new_states s) ∪ old_states s |>).

(** The sum of the lengths of the files. *)
Definition total_bytes (info_dict : Info) : outcome IoError Z :=
  total_len 0 ((fun f => (f_len f, [])) <$> files info_dict).

Definition last_piece_size (info_dict : Info) : outcome IoError Z :=
  total ← total_bytes info_dict;
  if (piece_len info_dict =? 0)%Z then Panic else Ok (total mod piece_len info_dict)%Z.

(** The check of one file in [validate_files_sizes]. *)
Definition validate_file (info_dict : Info) (f : File) : St F TorrentError unit := fun s =>
  let file_path := build_path (file_directory info_dict) f in
  let expected_size := f_len f in
  match (file ← open_file file_path; n ← file_size file; mret (file, n)) s with
  | (Ok (file, actual_size), s) =>
      let size_matches := (actual_size =? expected_size)%Z in
      let size_is_zero := (actual_size =? 0)%Z in
      if negb size_matches && size_is_zero then
        let '(r, s) := write_file file (expected_size - 1) [0%Z] s in
        (_ ← unwrap r; Ok tt, s)
      else if negb size_matches then (Err (ExistingFileSizeCheck file_path expected_size actual_size), s)
      else (Ok tt, s)
  | (r, s) => (_ ← map_err TorrentIo r; Ok tt, s)
  end.

Definition validate_files_sizes (info_dict : Info) : St F TorrentError unit :=
  for_each (files info_dict) (validate_file info_dict).

Definition init_state_checker (info_dict : Info) : St F TorrentError PieceStateChecker :=
  last ← lift (map_err TorrentIo (last_piece_size info_dict));
  _ ← validate_files_sizes info_dict;
  mret (PieceStateChecker_new (Z.of_nat (length (pieces info_dict))) last).

Definition fill_checker_state (info_dict : Info) (s : PieceStateChecker) : outcome IoError PieceStateChecker :=
  total ← total_bytes info_dict;
  if (piece_len info_dict =? 0)%Z then Panic
  else
    let full_pieces := (total / piece_len info_dict)%Z in
    last ← last_piece_size info_dict;
    let s := fold_left (fun s index => add_pending_block (with_default_hash index 0 (piece_len info_dict)) s)
               (seqZ 0 full_pieces) s in
    Ok (if negb (last =? piece_len info_dict)%Z
        then add_pending_block (with_default_hash full_pieces 0 last) s else s).

(** The differences cannot underflow: in both cases the end that is taken is at
    least the end of the block whose range the other starts in. *)
Definition merge_piece_messages (message_a message_b : BlockMetadata) : outcome IoError (option BlockMetadata) :=
  if negb (bool_decide (bm_info_hash message_a = bm_info_hash message_b))
     || negb (bm_piece_index message_a =? bm_piece_index message_b)%Z then Ok None
  else
    let start_a := bm_block_offset message_a in
    end_a ← u64_arith (start_a + bm_block_length message_a);
    let start_b := bm_block_offset message_b in
    end_b ← u64_arith (start_b + bm_block_length message_b);
    let merged start :=
      Ok (Some {| bm_info_hash := bm_info_hash message_a; bm_piece_index := bm_piece_index message_a;
                  bm_block_offset := start; bm_block_length := (Z.max end_a end_b - start)%Z |}) in
    if (start_a <=? start_b)%Z && (start_b <=? end_a)%Z then merged start_a
    else if (start_b <=? start_a)%Z && (start_a <=? end_b)%Z then merged start_b
    else Ok None.

(** The stable [sort_by] on block offsets. *)
Fixpoint insert_by_offset (m : BlockMetadata) (l : list BlockMetadata) : list BlockMetadata :=
  match l with
  | [] => [m]
  | m' :: l' => if (bm_block_offset m <=? bm_block_offset m')%Z then m :: l else m' :: insert_by_offset m l'
  end.
Definition sort_by_offset (l : list BlockMetadata) : list BlockMetadata := foldr insert_by_offset [] l.

(** The loop that merges the last two messages; [rest] holds the others, the last
    of them first. *)
Fixpoint merge_loop (actual_last : BlockMetadata) (rest : list BlockMetadata) : outcome IoError (list BlockMetadata) :=
  match rest with
  | [] => Ok [actual_last]
  | second_last :: rest' =>
      opt_merged ← merge_piece_messages second_last actual_last;
      match opt_merged with
      | Some merged => merge_loop merged rest'
      | None => Ok (actual_last :: rest)
      end
  end.

Definition merge_messages (messages : list BlockMetadata) : outcome IoError (list BlockMetadata) :=
  match rev (sort_by_offset messages) with
  | [] => Ok []
  | actual_last :: rest => l ← merge_loop actual_last rest; Ok (rev l)
  end.

Fixpoint merge_entries (l : list (Z * list BlockMetadata)) : outcome IoError (list (Z * list BlockMetadata)) :=
  match l with
  | [] => Ok []
  | (k, messages) :: l => m ← merge_messages messages; r ← merge_entries l; Ok ((k, m) :: r)
  end.

Definition merge_pieces (s : PieceStateChecker) : outcome IoError PieceStateChecker :=
  l ← merge_entries (map_to_list (pending_blocks s));
  Ok (s <| pending_blocks := list_to_map l |>).

Definition piece_is_complete (total_blocks last_block_size piece_length : Z) (messages : list BlockMetadata) : outcome IoError bool :=
  match messages with
  | [] => Ok false
  | message :: others =>
      last_index ← u64_arith (total_blocks - 1);
      Ok (bool_decide (others = []) &&
          ((bm_block_length message =? piece_length)%Z
           || ((bm_piece_index message =? last_index)%Z && (bm_block_length message =? last_block_size)%Z)))
  end.

(** What a check of pieces works on: the file system, the checker, the channel
    to the user and the buffer. *)
Record Checking := {
  ck_fs : F;
  ck_state : PieceStateChecker;
  ck_out : Channel ODiskMessage;
  ck_buffer : bytes;
}.

Definition Checking_eta (s : Checking) : Checking :=
  {| ck_fs := ck_fs s; ck_state := ck_state s; ck_out := ck_out s; ck_buffer := ck_buffer s |}.
#[global] Instance up_ck_fs : FieldUpdate ck_fs := ltac:(field_update Checking_eta ck_fs).
#[global] Instance up_ck_state : FieldUpdate ck_state := ltac:(field_update Checking_eta ck_state).
#[global] Instance up_ck_out : FieldUpdate ck_out := ltac:(field_update Checking_eta ck_out).
#[global] Instance up_ck_buffer : FieldUpdate ck_buffer := ltac:(field_update Checking_eta ck_buffer).

Definition ck_send (m : ODiskMessage) : io Checking unit := fun s =>
  match channel_send m (ck_out s) with
  | Ok out => (Ok tt, s <| ck_out := out |>)
  | _ => (Panic, s)
  end.

(** [piece_accessor.read_piece(&mut piece_buffer[..n], message)] *)
Definition ck_read (info_dict : Info) (message : BlockMetadata) : io Checking bytes :=
  buffer ← gets ck_buffer;
  part ← lift (slice buffer 0 (Z.to_nat (bm_block_length message)));
  _ ← (fun s : Checking =>
         let '(r, (fs, part)) := read_piece info_dict message (ck_fs s, part) in
         (r, s <| ck_fs := fs |> <| ck_buffer := part ++ drop (length part) buffer |>));
  gets (fun s => take (length part) (ck_buffer s)).

(** The body of the loop over complete pieces. *)
Definition check_piece (info_dict : Info) (key : Z) (message : BlockMetadata) : io Checking unit :=
  let index := bm_piece_index message in
  data ← ck_read info_dict message;
  let calculated_hash := ShaHash_from_bytes data in
  expected ← lift (opt_unwrap (pieces info_dict !! Z.to_nat index));
  expected_hash ← lift_unwrap (from_hash expected);
  _ ← (if bool_decide (calculated_hash = expected_hash) then
         n ← gets (fun s => complete_num (ck_state s));
         n ← lift (u64_arith (n + 1));
         _ ← modify (fun s => s <| ck_state := ck_state s <| new_states := new_states (ck_state s) ++ [Good index] |> <| complete_num := n |> |>);
         ck_send (FoundGoodPiece (info_hash info_dict) index)
       else
         _ ← modify (fun s => s <| ck_state := ck_state s <| new_states := new_states (ck_state s) ++ [Bad index] |> |>);
         ck_send (FoundBadPiece (info_hash info_dict) index));
  n ← gets (fun s => check_num (ck_state s));
  n ← lift (u64_arith (n + 1));
  _ ← modify (fun s => s <| ck_state := ck_state s <| check_num := n |> |>);
  pace ← gets (fun s => check_pace (ck_state s));
  _ ← ck_send (CheckPace (info_hash info_dict) pace);
  modify (fun s => s <| ck_state := ck_state s <| pending_blocks := <[key := []]> (pending_blocks (ck_state s)) |> |>).

(** One entry of the map, with the two filters. *)
Definition check_entry (info_dict : Info) (key : Z) : io Checking unit :=
  s ← get;
  let st := ck_state s in
  let messages := pending_of key st in
  complete ← lift (piece_is_complete (total_pieces st) (last_block_size st) (piece_len info_dict) messages);
  match messages with
  | message :: _ =>
      if complete && negb (bool_decide (Good (bm_piece_index message) ∈ old_states st))
      then check_piece info_dict key message else mret tt
  | [] => mret tt
  end.

(** [order] is the order in which the map is iterated; a vector cannot be longer
    than [isize::MAX]. *)
Definition run_with_whole_pieces (order : list Z) (info_dict : Info) : io Checking unit :=
  st ← gets ck_state;
  st ← lift (merge_pieces st);
  _ ← modify (fun s => s <| ck_state := st |>);
  if (9223372036854775808 <=? piece_len info_dict)%Z then lift Panic
  else
    _ ← modify (fun s => s <| ck_buffer := replicate (Z.to_nat (piece_len info_dict)) 0%Z |>);
    _ ← for_each order (check_entry info_dict);
    modify (fun s =>
      if (complete_num (ck_state s) =? total_pieces (ck_state s))%Z
      then s <| ck_state := ck_state s <| is_complete := true |> |> else s).

(** * tasks/context.rs *)

(** [RwLock<MetainfoState>]: a lock is poisoned when a writer panics. *)
Record MetainfoState := { ms_file : Metainfo; ms_state : PieceStateChecker; ms_poisoned : bool }.

Inductive Task : Type := RemoveDownload (hash : ShaHash) | ShutDown.

(** What the tasks share: the context, and the ends of the two channels. *)
Record Shared := {
  torrent_contexts : gmap ShaHash MetainfoState;
  sh_fs : F;
  sh_out : Channel ODiskMessage;
  sh_commands : Channel Task;
}.

Definition Shared_eta (s : Shared) : Shared :=
  {| torrent_contexts := torrent_contexts s; sh_fs := sh_fs s; sh_out := sh_out s; sh_commands := sh_commands s |}.
#[global] Instance up_torrent_contexts : FieldUpdate torrent_contexts := ltac:(field_update Shared_eta torrent_contexts).
#[global] Instance up_sh_fs : FieldUpdate sh_fs := ltac:(field_update Shared_eta sh_fs).
#[global] Instance up_sh_out : FieldUpdate sh_out := ltac:(field_update Shared_eta sh_out).
#[global] Instance up_sh_commands : FieldUpdate sh_commands := ltac:(field_update Shared_eta sh_commands).

Definition insert_torrent (file : Metainfo) (state : PieceStateChecker) : io Shared bool := fun s =>
  let hash := info_hash (info file) in
  match torrent_contexts s !! hash with
  | Some _ => (Ok false, s)
  | None =>
      (Ok true, s <| torrent_contexts :=
         <[hash := {| ms_file := file; ms_state := state; ms_poisoned := false |}]> (torrent_contexts s) |>)
  end.

(** [call] works on the checker under the write lock; the result is [None] when
    there is no such torrent. *)
Definition update_torrent_context {A} (hash : ShaHash) (call : Metainfo -> io Checking A) : io Shared (option A) := fun s =>
  match torrent_contexts s !! hash with
  | None => (Ok None, s)
  | Some c =>
      if ms_poisoned c then (Panic, s)
      else
        let '(r, k) := call (ms_file c) {| ck_fs := sh_fs s; ck_state := ms_state c; ck_out := sh_out s; ck_buffer := [] |} in
        let s poisoned := s <| sh_fs := ck_fs k |> <| sh_out := ck_out k |>
          <| torrent_contexts := <[hash := {| ms_file := ms_file c; ms_state := ck_state k; ms_poisoned := poisoned |}]> (torrent_contexts s) |> in
        match r with
        | Ok a => (Ok (Some a), s false)
        | Err e => (Err e, s false)
        | Panic => (Panic, s true)
        | NoFuel => (NoFuel, s false)
        end
  end.

(** Under the read lock the checker is not changed, and a panic does not poison. *)
Definition use_torrent_context {A} (hash : ShaHash) (call : Metainfo -> PieceStateChecker -> io Shared A) : io Shared (option A) := fun s =>
  match torrent_contexts s !! hash with
  | None => (Ok None, s)
  | Some c =>
      if ms_poisoned c then (Panic, s)
      else (Some <$> call (ms_file c) (ms_state c)) s
  end.

Definition remove_torrent (hash : ShaHash) : io Shared bool := fun s =>
  match torrent_contexts s !! hash with
  | None => (Ok false, s)
  | Some _ => (Ok true, s <| torrent_contexts := delete hash (torrent_contexts s) |>)
  end.

(** * tasks/mod.rs *)

(** The tasks that the handler spawns, by the section they run next. *)
Inductive Job : Type :=
  | JAdd (file : Metainfo)
  | JInsert (file : Metainfo) (state : PieceStateChecker)
  | JRemove (hash : ShaHash)
  | JSync (hash : ShaHash)
  | JLoad (block : Block)
  | JProcess (block : Block)
  | JProcessed (block : Block) (found_hash : bool)
  | JCheckTorrent (hash : ShaHash)
  | JCheckedTorrent (hash : ShaHash) (result : bool)
  | JPieceCheck (hash : ShaHash)
  | JPieceChecked (hash : ShaHash).

(** [out_message.send(..).expect(..)], and the same without [expect]. *)
Definition out_send (m : ODiskMessage) : io Shared unit := fun s =>
  match channel_send m (sh_out s) with
  | Ok out => (Ok tt, s <| sh_out := out |>)
  | _ => (Panic, s)
  end.
Definition out_try (m : ODiskMessage) : io Shared unit := modify (fun s => s <| sh_out := channel_try m (sh_out s) |>).
Definition command_send (t : Task) : io Shared unit := fun s =>
  match channel_send t (sh_commands s) with
  | Ok c => (Ok tt, s <| sh_commands := c |>)
  | _ => (Panic, s)
  end.

(** A method of the file system, its error turned into a value. *)
Definition on_fs {E A} (m : St F E A) : io Shared (outcome E A) := fun s =>
  let '(r, fs) := m (sh_fs s) in
  (match r with Panic => Panic | NoFuel => NoFuel | r => Ok r end, s <| sh_fs := fs |>).

Definition execute_add_torrent (file : Metainfo) : io Shared (option Job) :=
  r ← on_fs (init_state_checker (info file));
  st ← lift_unwrap r;
  mret (Some (JInsert file st)).

Definition execute_insert (file : Metainfo) (state : PieceStateChecker) : io Shared (option Job) :=
  let info_hash := info_hash (info file) in
  inserted ← insert_torrent file state;
  _ ← (if inserted : bool then out_send (TorrentAdded info_hash)
       else out_send (TorrentFailed info_hash (ExistingInfoHash info_hash)));
  mret None.

Definition execute_remove_torrent (hash : ShaHash) : io Shared (option Job) :=
  removed ← remove_torrent hash;
  _ ← (if removed : bool then out_send (TorrentRemoved hash)
       else out_send (TorrentFailed hash (InfoHashNotFound hash)));
  mret None.

(** The result of each call is overwritten by that of the next, and the last one
    is not used. *)
Definition execute_sync_torrent (hash : ShaHash) : io Shared (option Job) :=
  found_hash ← update_torrent_context hash (fun file =>
    for_each (files (info file)) (fun f (s : Checking) =>
      let '(r, fs) := sync_file (build_path (file_directory (info file)) f) (ck_fs s) in
      (match r with Panic => Panic | NoFuel => NoFuel | _ => Ok tt end, s <| ck_fs := fs |>)));
  _ ← (match found_hash with
       | Some _ => out_send (TorrentSynced hash)
       | None => out_send (TorrentFailed hash (InfoHashNotFound hash))
       end);
  mret None.

Definition execute_load_block (block : Block) : io Shared (option Job) :=
  let metadata := b_metadata block in
  let info_hash := bm_info_hash metadata in
  found ← use_torrent_context info_hash (fun file _ s =>
    let '(r, (fs, data)) := read_piece (info file) metadata (sh_fs s, b_data block) in
    (match r with Panic => Panic | NoFuel => NoFuel | _ => Ok data end, s <| sh_fs := fs |>));
  _ ← (match found with
       | Some data => out_send (BlockLoaded {| b_metadata := metadata; b_data := data |})
       | None => out_send (LoadBlockError block (BlockInfoHashNotFound info_hash))
       end);
  mret None.

Definition execute_process_block (block : Block) : io Shared (option Job) :=
  let metadata := b_metadata block in
  found ← use_torrent_context (bm_info_hash metadata) (fun file _ =>
    r ← on_fs (write_piece (info file) (b_data block) metadata);
    mret (match r with Ok _ => true | _ => false end));
  mret (Some (JProcessed block (default false found))).

Definition execute_processed (block : Block) (found_hash : bool) : io Shared (option Job) :=
  let metadata := b_metadata block in
  let info_hash := bm_info_hash metadata in
  _ ← (if found_hash then
         _ ← update_torrent_context info_hash (fun _ => modify (fun s => s <| ck_state := add_pending_block metadata (ck_state s) |>));
         out_send (BlockProcessed block)
       else out_send (ProcessBlockError block (BlockInfoHashNotFound info_hash)));
  mret None.

(** A check under the write lock, its error turned into a value. *)
Definition checking {A} (m : io Checking A) : io Checking bool := fun s =>
  let '(r, s) := m s in
  (match r with Ok _ => Ok true | Err _ => Ok false | Panic => Panic | NoFuel => NoFuel end, s).

Definition execute_check_torrent (order : list Z) (hash : ShaHash) : io Shared (option Job) :=
  result ← update_torrent_context hash (fun file =>
    st ← gets ck_state;
    st ← lift (fill_checker_state (info file) st);
    _ ← modify (fun s => s <| ck_state := st |>);
    checking (run_with_whole_pieces order (info file)));
  mret (Some (JCheckedTorrent hash (default false result))).

(** The second section of both checks: a torrent that is complete is not to be
    checked any more. *)
Definition report_pace (hash : ShaHash) : io Shared unit :=
  _ ← use_torrent_context hash (fun _ state =>
    _ ← (if is_complete state then command_send (RemoveDownload hash) else mret tt);
    out_try (DownloadPace hash (complete_pace state)));
  mret tt.

Definition execute_checked_torrent (hash : ShaHash) (result : bool) : io Shared (option Job) :=
  _ ← report_pace hash;
  _ ← out_send (if result then CheckTorrented hash else CheckTorrentError hash);
  mret None.

Definition execute_piece_check (order : list Z) (token : ShaHash) : io Shared (option Job) :=
  _ ← update_torrent_context token (fun file => checking (run_with_whole_pieces order (info file)));
  mret (Some (JPieceChecked token)).

Definition execute_piece_checked (token : ShaHash) : io Shared (option Job) :=
  _ ← report_pace token; mret None.

(** [send_piece_diff] is not called any more. *)
Definition send_piece_diff (hash : ShaHash) (include_bad : bool) : io Checking unit :=
  s ← get;
  let '(index_vec, st) := run_with_diff (fun p => match p with Good _ => true | Bad _ => include_bad end) (ck_state s) in
  _ ← modify (fun s => s <| ck_state := st |>);
  for_each index_vec (fun index => ck_send (FoundGoodPiece hash index)).

(** A section of a task; a panic ends the task, and nothing else. *)
Definition run_job (order : list Z) (j : Job) : io Shared (option Job) :=
  match j with
  | JAdd file => execute_add_torrent file
  | JInsert file st => execute_insert file st
  | JRemove hash => execute_remove_torrent hash
  | JSync hash => execute_sync_torrent hash
  | JLoad block => execute_load_block block
  | JProcess block => execute_process_block block
  | JProcessed block found => execute_processed block found
  | JCheckTorrent hash => execute_check_torrent order hash
  | JCheckedTorrent hash result => execute_checked_torrent hash result
  | JPieceCheck hash => execute_piece_check order hash
  | JPieceChecked hash => execute_piece_checked hash
  end.

(** [TaskHandler] and the tasks it has spawned.  The commands that were sent are
    taken off in order. *)
Record TaskHandler := {
  is_run : bool;
  shared : Shared;
  timer : Timer ShaHash;
  download_active : gset ShaHash;
  jobs : list Job;
}.

Definition TaskHandler_eta (s : TaskHandler) : TaskHandler :=
  {| is_run := is_run s; shared := shared s; timer := timer s; download_active := download_active s; jobs := jobs s |}.
#[global] Instance up_is_run : FieldUpdate is_run := ltac:(field_update TaskHandler_eta is_run).
#[global] Instance up_shared : FieldUpdate shared := ltac:(field_update TaskHandler_eta shared).
#[global] Instance up_timer : FieldUpdate timer := ltac:(field_update TaskHandler_eta timer).
#[global] Instance up_download_active : FieldUpdate download_active := ltac:(field_update TaskHandler_eta download_active).
#[global] Instance up_jobs : FieldUpdate jobs := ltac:(field_update TaskHandler_eta jobs).

(** Instants are in milliseconds. *)
Definition FIRST_CHECK : Z := 2000.
Definition CHECK_INTERVAL : Z := 1800.

(** [TaskHandler::new] and the first lines of [run_task]. *)
Definition TaskHandler_new (now : Z) (fs : F) : TaskHandler :=
  {| is_run := true;
     shared := {| torrent_contexts := ∅; sh_fs := fs; sh_out := {| sent := []; listening := true |};
                  sh_commands := {| sent := []; listening := true |} |};
     timer := (schedule_in now FIRST_CHECK default_hash timer_new).2;
     download_active := {[default_hash]};
     jobs := [] |}.

(** The handler drops its end of the channel of commands with itself. *)
Definition shutdown (s : TaskHandler) : TaskHandler :=
  s <| is_run := false |> <| shared := shared s <| sh_commands := {| sent := []; listening := false |} |> |>.

Definition spawn (j : Job) (s : TaskHandler) : TaskHandler := s <| jobs := jobs s ++ [j] |>.
Definition schedule_check (now : Z) (hash : ShaHash) (s : TaskHandler) : TaskHandler :=
  s <| timer := (schedule_in now CHECK_INTERVAL hash (timer s)).2 |>.

Definition message_in_ex (now : Z) (msg : IDiskMessage) (s : TaskHandler) : TaskHandler :=
  match msg with
  | AddTorrent metainfo =>
      let hash := info_hash (info metainfo) in
      let s := schedule_check now hash s in
      spawn (JAdd metainfo) (s <| download_active := {[hash]} ∪ download_active s |>)
  | RemoveTorrent hash => spawn (JRemove hash) (s <| download_active := download_active s ∖ {[hash]} |>)
  | SyncTorrent hash => spawn (JSync hash) s
  | LoadBlock block => spawn (JLoad block) s
  | ProcessBlock block => spawn (JProcess block) s
  | CheckTorrent hash => spawn (JCheckTorrent hash) s
  end.

Definition timeout_ex (now : Z) (token : ShaHash) (s : TaskHandler) : TaskHandler :=
  if decide (token ∈ download_active s) then spawn (JPieceCheck token) (schedule_check now token s) else s.

Definition command_ex (cmd : Task) (s : TaskHandler) : TaskHandler :=
  match cmd with
  | ShutDown => shutdown s
  | RemoveDownload info_hash => s <| download_active := download_active s ∖ {[info_hash]} |>
  end.

(** What the branches of [select!] in [run_one] can see: a message (or that the
    user is gone), a timeout, a command of a task. *)
Inductive Ready_branch : Type := InMessage (msg : option IDiskMessage) | TimerNext | CommandRecv.

Definition run_one (now : Z) (branch : Ready_branch) (s : TaskHandler) : TaskHandler :=
  match branch with
  | InMessage (Some message) => message_in_ex now message s
  | InMessage None => shutdown s
  | TimerNext =>
      if timer_is_empty (timer s) then s
      else
        let '(p, t) := poll_next now (timer s) in
        let s := s <| timer := t |> in
        match p with Ready (Some token) => timeout_ex now token s | _ => s end
  | CommandRecv =>
      match sent (sh_commands (shared s)) with
      | [] => s
      | cmd :: rest => command_ex cmd (s <| shared := shared s <| sh_commands := {| sent := rest; listening := true |} |> |>)
      end
  end.

(** What happens next: a turn of the handler, a section of a task, or the user
    dropping the receiver. *)
Inductive event : Type :=
  | Turn (now : Z) (branch : Ready_branch)
  | RunJob (i : nat) (order : list Z)
  | ReceiverDropped.

Definition disk_step (e : event) (s : TaskHandler) : TaskHandler :=
  match e with
  | Turn now branch => if is_run s then run_one now branch s else s
  | RunJob i order =>
      match jobs s !! i with
      | None => s
      | Some j =>
          let '(r, sh) := run_job order j (shared s) in
          let others := take i (jobs s) ++ drop (S i) (jobs s) in
          s <| shared := sh |>
            <| jobs := match r with Ok (Some j) => others ++ [j] | _ => others end |>
      end
  | ReceiverDropped => s <| shared := shared s <| sh_out := {| sent := sent (sh_out (shared s)); listening := false |} |> |>
  end.

Definition disk_run (es : list event) (s : TaskHandler) : TaskHandler := fold_left (fun s e => disk_step e s) es s.
End Disk.
Arguments Checking : clear implicits.
Arguments Shared : clear implicits.
Arguments TaskHandler : clear implicits.
