(* ===== verification/DiskAccess.v ===== *)
(** DiskAccess: what reading and writing a block does to the bytes of a torrent.

    The files of a torrent, one after the other, are a range of bytes;
    [torrent_byte] is the byte at a position.  A block that is read is the range
    from its start, and a block that is written replaces that range and nothing
    else, for any file system that keeps its promises. *)

From stdpp Require Import base list gmap.
From Stdlib Require Import ZArith Lia.
From Stdlib Require String.
From S2P Require Import Prelude Effects ShaHash Metainfo FileSystem FileSystemCorrect Timer Disk.
Import String.StringSyntax.

(** The byte of a file at an offset. *)
Definition file_byte (m : gmap Path bytes) (i : Path) (o : Z) : option Z := c ← m !! i; c !! Z.to_nat o.

(** Two views in which every file has the same bytes; one may have more empty
    files. *)
Definition same_bytes (m m' : gmap Path bytes) : Prop := forall i o, file_byte m' i o = file_byte m i o.

#[global] Instance same_bytes_preorder : PreOrder same_bytes.
Proof. split; unfold same_bytes; [done|]. intros x y z Hx Hy i o. by rewrite Hy, Hx. Qed.

Lemma created_same i m : same_bytes m (created i m).
Proof.
  intros j o. unfold created, file_byte. destruct (m !! i) eqn:E; [done|].
  destruct (decide (i = j)) as [<-|]; [by rewrite lookup_insert_eq, E|by rewrite lookup_insert_ne].
Qed.

Section Access.
Context {F H : Type} `{FileSystemLaws F H} `{Profile}.
Variable dir : option Path.

Definition place (f : File) : Path := locate (build_path dir f).

(** The file and the offset of a position among files. *)
Fixpoint address (fs : list File) (pos : Z) : option (Path * Z) :=
  match fs with
  | [] => None
  | f :: fs => if (pos <? f_len f)%Z then Some (place f, pos) else address fs (pos - f_len f)
  end.

Definition files_byte (m : gmap Path bytes) (fs : list File) (pos : Z) : option Z :=
  '(i, o) ← address fs pos; file_byte m i o.

Lemma files_byte_cons m f fs pos :
  files_byte m (f :: fs) pos = if (pos <? f_len f)%Z then file_byte m (place f) pos else files_byte m fs (pos - f_len f).
Proof. unfold files_byte. simpl. by case_match. Qed.

Lemma files_byte_same m m' fs pos : same_bytes m m' -> files_byte m' fs pos = files_byte m fs pos.
Proof. intros Hm. unfold files_byte. destruct (address fs pos) as [[i o]|]; [|done]. apply Hm. Qed.

(** The state after a call of the file system. *)
Definition after (s s' : F) : Prop := fs_ok s' /\ forall h i, refers s h i -> refers s' h i.

Lemma after_trans s1 s2 s3 : after s1 s2 -> after s2 s3 -> after s1 s3.
Proof. unfold after. naive_solver. Qed.

Lemma read_region_spec s h i c offset b e buf :
  fs_ok s -> refers s h i -> view s !! i = Some c -> (0 <= offset)%Z -> b < e ->
  exists r s' buf', read_region h offset b e (s, buf) = (r, (s', buf')) /\ after s s' /\ view s' = view s /\
    length buf' = length buf /\
    match r with
    | Ok _ => e <= length buf /\ Z.to_nat offset + (e - b) <= length c /\
        buf' = take b buf ++ take (e - b) (drop (Z.to_nat offset) c) ++ drop e buf
    | NoFuel => False
    | _ => True
    end.
Proof.
  intros Hf Hr Hc Ho Hbe. unfold read_region, mbind, St_bind, gets, lift, beside. simpl.
  unfold slice. rewrite (proj2 (Nat.leb_le b e)) by lia. simpl. destruct (Nat.leb_spec e (length buf)); simpl;
    [|exists Panic, s, buf; by repeat split].
  destruct (read_law s h i c offset (take (e - b) (drop b buf)) Hf Hr Hc Ho) as (r & s' & -> & Hf' & Hr' & Hv & Hx).
  destruct r as [[n part]|e0| |]; try done; [|exists (Err e0), s', buf; by repeat split].
  destruct Hx as (Hn & Hn' & ->). rewrite length_take, length_drop in Hn. unfold modify, assert_that. simpl.
  eexists _, s', _. split; [done|]. split; [by split|]. split; [done|]. split.
  - repeat (rewrite length_app || rewrite length_take || rewrite length_drop). lia.
  - destruct (Nat.eqb_spec n (e - b)) as [->|]; [|done]. split; [lia|]. split; [lia|].
    rewrite (drop_ge (take _ _)) by (rewrite length_take, length_drop; lia). by rewrite app_nil_r.
Qed.

(** Bytes of a buffer in which a range was replaced. *)
Lemma lookup_spliced (buf part : bytes) b e j :
  b + length part = e -> e <= length buf ->
  (take b buf ++ part ++ drop e buf) !! j = if bool_decide (b <= j < e) then part !! (j - b) else buf !! j.
Proof.
  intros Hl He. case_bool_decide.
  - rewrite lookup_app_r; rewrite length_take; [|lia]. rewrite lookup_app_l by lia. f_equal. lia.
  - destruct (decide (j < b)).
    + rewrite lookup_app_l by (rewrite length_take; lia). by apply lookup_take_lt.
    + rewrite app_assoc, lookup_app_r; rewrite length_app, length_take; [|lia]. rewrite lookup_drop. f_equal. lia.
Qed.

Lemma read_regions total fs : Forall (fun f => 0 <= f_len f)%Z fs ->
  forall skip acc s buf, fs_ok s -> (0 <= skip)%Z -> (0 <= acc)%Z ->
  exists r s' buf', file_regions (fun p => beside (open_file p)) read_region dir total fs skip acc (s, buf) = (r, (s', buf')) /\
    after s s' /\ same_bytes (view s) (view s') /\ length buf' = length buf /\
    match r with
    | Ok _ => forall j : nat, buf' !! j =
        if bool_decide (acc <= Z.of_nat j < total)%Z
        then match address fs (skip + (Z.of_nat j - acc)) with
             | Some (i, o) => file_byte (view s) i o
             | None => buf !! j
             end
        else buf !! j
    | NoFuel => False
    | _ => True
    end.
Proof.
  induction 1 as [|f fs Hl Hfs IH]; intros skip acc s buf Hf Hs Ha.
  { exists (Ok tt), s, buf. split_and!; [done|by split|done|done|]. intros j. by destruct (bool_decide _). }
  cbn [file_regions address]. set (mn := Z.min skip (f_len f)). destruct (_ && _) eqn:Hcond.
  2: { destruct (IH (skip - mn)%Z acc s buf Hf ltac:(lia) Ha) as (r & s' & buf' & Hx & Haf & Hv & Hlen & Hr).
    exists r, s', buf'. split_and!; try done. destruct r; try done. intros j. rewrite Hr. case_bool_decide as Hj; [|done].
    apply andb_false_iff in Hcond. destruct (Z.ltb_spec (skip + (Z.of_nat j - acc)) (f_len f)); [lia|].
    replace (skip - mn + (Z.of_nat j - acc))%Z with (skip + (Z.of_nat j - acc) - f_len f)%Z by lia. done. }
  apply andb_true_iff in Hcond as [Hc1 Hc2].
  set (act := Z.min (total - acc) (f_len f - mn)). set (off := (f_len f - (f_len f - mn))%Z).
  unfold mbind, St_bind at 1. unfold beside at 1. simpl.
  destruct (open_law s (build_path dir f) Hf) as (r & s1 & -> & Hf1 & Hr1 & Hx). simpl.
  destruct r as [h|e| |]; try done; [|exists (Err e), s1, buf; split_and!; [done|by split|by rewrite Hx|done..]].
  destruct Hx as [Hv1 Hh]. assert (view s1 !! place f = Some (default [] (view s !! place f))) as Hc by (rewrite Hv1; apply created_lookup).
  set (c := default [] (view s !! place f)) in *.
  destruct (read_region_spec s1 h (place f) c off (Z.to_nat acc) (Z.to_nat (acc + act)) buf)
    as (r & s2 & buf2 & Hx & Haf2 & Hv2 & Hlen2 & Hr); [done..|lia|lia|]. unfold mbind, St_bind. rewrite Hx.
  destruct r as [[]|e| |]; try done; [|exists (Err e), s2, buf2; split_and!; [done|by eapply after_trans|rewrite Hv2, Hv1; apply created_same|done..]
    |exists Panic, s2, buf2; split_and!; [done|by eapply after_trans|rewrite Hv2, Hv1; apply created_same|done..]].
  destruct Hr as (He & Hco & Hbuf2).
  destruct (IH (skip - mn)%Z (acc + act)%Z s2 buf2 ltac:(apply Haf2) ltac:(lia) ltac:(lia)) as (r & s' & buf' & Hy & Haf & Hv & Hlen & Hr).
  assert (same_bytes (view s) (view s2)) as Hsv by (rewrite Hv2, Hv1; apply created_same).
  exists r, s', buf'. split_and!; [exact Hy|eapply after_trans; [by split|by eapply after_trans]|by etrans|lia|].
  destruct r; try done. intros j. rewrite Hr, Hbuf2.
  rewrite lookup_spliced by (rewrite ?length_take, ?length_drop; lia).
  case_bool_decide as Hj1; case_bool_decide as Hj2; case_bool_decide as Hj3; try lia.
  - destruct (Z.ltb_spec (skip + (Z.of_nat j - acc)) (f_len f)); [lia|].
    replace (skip - mn + (Z.of_nat j - (acc + act)))%Z with (skip + (Z.of_nat j - acc) - f_len f)%Z by lia.
    destruct (address fs _) as [[i o]|]; [by apply Hsv|done].
  - rewrite lookup_take_lt by lia. rewrite lookup_drop.
    destruct (Z.ltb_spec (skip + (Z.of_nat j - acc)) (f_len f)); [|lia]. unfold file_byte.
    fold (place f). unfold c in *. destruct (view s !! place f) as [c'|]; simpl in *; [f_equal; lia|lia].
  - done.
Qed.

(** What a write may do to the bytes that were there: a byte stays unless it is
    in the range, and files that are not named are left alone. *)
Definition kept (lo hi : Z) (fs : list File) (m m' : gmap Path bytes) : Prop :=
  (forall pos b, (0 <= pos)%Z -> ~ (lo <= pos < hi)%Z -> files_byte m fs pos = Some b -> files_byte m' fs pos = Some b) /\
  (forall i o b, i ∉ place <$> fs -> file_byte m i o = Some b -> file_byte m' i o = Some b) /\
  (forall i c, m !! i = Some c -> exists c', m' !! i = Some c' /\ length c <= length c').

Lemma kept_same lo hi fs m m' : same_bytes m m' -> (forall i c, m !! i = Some c -> m' !! i = Some c) -> kept lo hi fs m m'.
Proof.
  intros Hm Hl. split_and!.
  - intros pos b _ _ Hb. by rewrite (files_byte_same m).
  - intros i o b _ Hb. by rewrite Hm.
  - intros i c Hc. exists c. by split; [apply Hl|].
Qed.

Lemma created_keeps i j c m : m !! j = Some c -> created i m !! j = Some c.
Proof.
  intros Hc. unfold created. destruct (m !! i) eqn:E; [done|]. rewrite lookup_insert_ne; [done|]. intros ->. congruence.
Qed.

(** The bytes of the files after the first do not depend on it. *)
Lemma files_byte_other m m' fs pos i :
  i ∉ place <$> fs -> (forall j o, j <> i -> file_byte m' j o = file_byte m j o) ->
  files_byte m' fs pos = files_byte m fs pos.
Proof.
  intros Hi Hm. unfold files_byte. destruct (address fs pos) as [[j o]|] eqn:Ha; [|done]. apply Hm. intros ->. apply Hi. clear Hi.
  revert pos Ha. induction fs as [|f fs IH]; intros pos; simpl; [done|]. case_match.
  - intros [= <- <-]. set_solver.
  - intros Ha. apply IH in Ha. set_solver.
Qed.

Lemma write_region_spec s h i c offset b e data :
  fs_ok s -> refers s h i -> view s !! i = Some c -> (0 <= offset)%Z -> b < e ->
  exists r s' n, write_region data h offset b e s = (r, s') /\ after s s' /\
    (view s' = view s \/ n <= e - b /\ e <= length data /\
       view s' = <[i := overwrite c (Z.to_nat offset) (take n (take (e - b) (drop b data)))]> (view s)) /\
    match r with
    | Ok _ => e <= length data /\ view s' = <[i := overwrite c (Z.to_nat offset) (take (e - b) (drop b data))]> (view s)
    | NoFuel => False
    | _ => True
    end.
Proof.
  intros Hf Hr Hc Ho Hbe. unfold write_region, mbind, St_bind, lift. simpl.
  unfold slice. rewrite (proj2 (Nat.leb_le b e)) by lia. simpl. destruct (Nat.leb_spec e (length data)); simpl;
    [|exists Panic, s, 0; by repeat split; try left].
  destruct (write_law s h i c offset (take (e - b) (drop b data)) Hf Hr Hc Ho) as (r & s' & -> & Hf' & Hr' & Hx).
  destruct r as [n|e0| |]; try done; [|exists (Err e0), s', 0; repeat split; [done..|by left]].
  destruct Hx as (Hn & Hv). rewrite length_take, length_drop in Hn. unfold assert_that.
  eexists _, s', n. split; [done|]. split; [by split|]. split; [right; split_and!; [lia|done|done]|].
  destruct (Nat.eqb_spec n (e - b)) as [->|]; [|done]. split; [done|]. rewrite Hv. by rewrite take_take, Nat.min_id.
Qed.

(** The bytes of a file after a write of at least a byte. *)
Lemma file_byte_overwrite m i c o data j p :
  m !! i = Some c ->
  file_byte (<[i := overwrite c o data]> m) j p =
    if decide (i = j) then overwrite c o data !! Z.to_nat p else file_byte m j p.
Proof.
  intros Hc. unfold file_byte. destruct (decide (i = j)) as [<-|]; [by rewrite lookup_insert_eq|by rewrite lookup_insert_ne].
Qed.

Lemma overwrite_keeps c o data p b :
  ~ (o <= p < o + length data) -> c !! p = Some b -> overwrite c o data !! p = Some b.
Proof.
  intros Hp Hb. rewrite lookup_overwrite, bool_decide_eq_false_2 by done. rewrite bool_decide_eq_false_2; [done|].
  apply lookup_lt_Some in Hb. lia.
Qed.

(** One file is written to at an offset. *)
Lemma kept_first lo hi f fs m m' c off d :
  place f ∉ place <$> fs -> m !! place f = Some c -> m' = <[place f := overwrite c (Z.to_nat off) d]> m ->
  (0 <= off)%Z -> (lo <= off)%Z -> (off + Z.of_nat (length d) <= hi)%Z -> (off + Z.of_nat (length d) <= f_len f)%Z ->
  kept lo hi (f :: fs) m m'.
Proof.
  intros Hn Hc -> Ho Hlo Hhi Hlen. split_and!.
  - intros pos b Hpos Hout. rewrite !files_byte_cons. case_match eqn:E.
    + rewrite (file_byte_overwrite _ _ c) by done. rewrite decide_True by done. unfold file_byte. rewrite Hc. simpl.
      apply overwrite_keeps. lia.
    + intros Hb. rewrite <- Hb. apply (files_byte_other _ _ _ _ (place f)); [done|]. intros j p Hj.
      rewrite (file_byte_overwrite _ _ c) by done. by rewrite decide_False.
  - intros i o b Hi Hb. rewrite (file_byte_overwrite _ _ c) by done. rewrite decide_False; [done|]. set_solver.
  - intros i c' Hc'. destruct (decide (place f = i)) as [<-|].
    + rewrite lookup_insert_eq. eexists. split; [done|]. rewrite length_overwrite. assert (c = c') as <- by congruence. case_bool_decide; lia.
    + exists c'. by rewrite lookup_insert_ne.
Qed.

Lemma kept_trans lo hi fs m1 m2 m3 : kept lo hi fs m1 m2 -> kept lo hi fs m2 m3 -> kept lo hi fs m1 m3.
Proof.
  intros (A1 & B1 & C1) (A2 & B2 & C2). split_and!; [naive_solver..|].
  intros i c Hc. destruct (C1 _ _ Hc) as (c1 & Hc1 & ?). destruct (C2 _ _ Hc1) as (c2 & Hc2 & ?). exists c2. split; [done|lia].
Qed.

(** A write to the files after the first. *)
Lemma kept_later lo hi f fs m m' : place f ∉ place <$> fs -> (0 <= lo)%Z ->
  kept lo hi fs m m' -> kept (lo + f_len f) (hi + f_len f) (f :: fs) m m'.
Proof.
  intros Hn Hlo (A & B & C). split_and!; [| |done].
  - intros pos b Hpos Hout. rewrite !files_byte_cons. destruct (Z.ltb_spec pos (f_len f)); [by apply B|].
    apply A; lia.
  - intros i o b Hi. apply B. set_solver.
Qed.

Lemma kept_wider lo hi lo' hi' fs m m' : (lo' <= lo)%Z -> (hi <= hi')%Z -> kept lo hi fs m m' -> kept lo' hi' fs m m'.
Proof. intros Hl Hh (A & B & C). split_and!; [|done..]. intros pos b Hpos Hout. apply A; [done|lia]. Qed.

Lemma kept_within lo hi lo' hi' fs m m' : (hi <= lo \/ lo' <= lo /\ hi <= hi')%Z -> kept lo hi fs m m' -> kept lo' hi' fs m m'.
Proof. intros Hl (A & B & C). split_and!; [|done..]. intros pos b Hpos Hout. apply A; [done|lia]. Qed.

(** What was written to the first file is there. *)
Lemma first_written m c i off d p :
  m !! i = Some c -> (0 <= off <= p)%Z -> (p < off + Z.of_nat (length d))%Z ->
  file_byte (<[i := overwrite c (Z.to_nat off) d]> m) i p = d !! Z.to_nat (p - off).
Proof.
  intros Hc Ho Hp. rewrite (file_byte_overwrite _ _ c) by done. rewrite decide_True by done.
  rewrite lookup_overwrite, bool_decide_eq_true_2 by lia. f_equal. lia.
Qed.

Lemma write_regions total data fs : Forall (fun f => 0 <= f_len f)%Z fs -> NoDup (place <$> fs) ->
  forall skip acc s, fs_ok s -> (0 <= skip)%Z -> (0 <= acc)%Z ->
  exists r s', file_regions open_file (write_region data) dir total fs skip acc s = (r, s') /\
    after s s' /\ kept skip (skip + (total - acc)) fs (view s) (view s') /\
    match r with
    | Ok _ => forall j : nat, (acc <= Z.of_nat j < total)%Z -> address fs (skip + (Z.of_nat j - acc)) <> None ->
        files_byte (view s') fs (skip + (Z.of_nat j - acc)) = data !! j
    | NoFuel => False
    | _ => True
    end.
Proof.
  induction 1 as [|f fs Hl Hfs IH]; intros Hnd skip acc s Hf Hs Ha.
  { exists (Ok tt), s. split_and!; [done|by split|by apply kept_same|done]. }
  rewrite fmap_cons in Hnd. apply NoDup_cons in Hnd as [Hni Hnd]. specialize (IH Hnd).
  cbn [file_regions]. set (mn := Z.min skip (f_len f)). destruct (_ && _) eqn:Hcond.
  2: { destruct (IH (skip - mn)%Z acc s Hf ltac:(lia) Ha) as (r & s' & Hx & Haf & Hk & Hr). apply andb_false_iff in Hcond.
    exists r, s'. split_and!; [done|done| |].
    - apply (kept_later _ _ f) in Hk; [|done|lia]. eapply kept_within; [|exact Hk]. lia.
    - destruct r; try done. intros j Hj. rewrite files_byte_cons. cbn [address].
      destruct (Z.ltb_spec (skip + (Z.of_nat j - acc)) (f_len f)); [lia|].
      replace (skip + (Z.of_nat j - acc) - f_len f)%Z with (skip - mn + (Z.of_nat j - acc))%Z by lia. by apply Hr. }
  apply andb_true_iff in Hcond as [Hc1 Hc2].
  set (act := Z.min (total - acc) (f_len f - mn)). set (off := (f_len f - (f_len f - mn))%Z).
  unfold mbind, St_bind at 1. destruct (open_law s (build_path dir f) Hf) as (r & s1 & -> & Hf1 & Hr1 & Hx).
  destruct r as [h|e| |]; try done; [|exists (Err e), s1; split_and!; [done|by split|rewrite Hx; by apply kept_same|done]].
  destruct Hx as [Hv1 Hh]. assert (view s1 !! place f = Some (default [] (view s !! place f))) as Hc by (rewrite Hv1; apply created_lookup).
  set (c := default [] (view s !! place f)) in *.
  assert (kept skip (skip + (total - acc)) (f :: fs) (view s) (view s1)) as Hk1.
  { rewrite Hv1. apply kept_same; [apply created_same|]. intros i c'. apply created_keeps. }
  destruct (write_region_spec s1 h (place f) c off (Z.to_nat acc) (Z.to_nat (acc + act)) data)
    as (r & s2 & n & Hx & Haf2 & Hv2 & Hr); [done..|lia|lia|]. unfold mbind, St_bind. rewrite Hx.
  assert (after s s2) as Hs2 by (eapply after_trans; [by split|done]).
  assert (kept skip (skip + (total - acc)) (f :: fs) (view s) (view s2)) as Hk2.
  { eapply kept_trans; [exact Hk1|]. destruct Hv2 as [->|(Hn & He & Hv2)]; [by apply kept_same|].
    eapply kept_first; [done|exact Hc|exact Hv2|lia|lia|rewrite !length_take; lia..]. }
  destruct r as [[]|e| |]; try done; [|by exists (Err e), s2|by exists Panic, s2]. clear Hv2. destruct Hr as (He & Hv2).
  destruct (IH (skip - mn)%Z (acc + act)%Z s2 ltac:(apply Haf2) ltac:(lia) ltac:(lia)) as (r & s' & Hy & Haf & Hk & Hr).
  exists r, s'. split_and!; [exact Hy|by eapply after_trans| |].
  - eapply kept_trans; [exact Hk2|]. apply (kept_later _ _ f) in Hk; [|done|lia]. eapply kept_within; [|exact Hk]. lia.
  - destruct r; try done. intros j Hj. rewrite files_byte_cons. cbn [address]. destruct (Z.ltb_spec (skip + (Z.of_nat j - acc)) (f_len f)).
    + intros _. destruct (lookup_lt_is_Some_2 data j ltac:(lia)) as [x Hjx]. rewrite Hjx. apply Hk; [done|].
      rewrite Hv2, first_written by (try done; rewrite ?length_take, ?length_drop; lia).
      rewrite lookup_take_lt by lia. rewrite lookup_drop, <- Hjx. f_equal. lia.
    + replace (skip + (Z.of_nat j - acc) - f_len f)%Z with (skip - mn + (Z.of_nat j - (acc + act)))%Z by lia. apply Hr. lia.
Qed.
End Access.

(** * On a file system that works *)

Section Steady.
Context {F H : Type} `{FileSystemSteady F H} `{Profile}.
Variable dir : option Path.

(** The file is there with its full length. *)
Definition allocated (m : gmap Path bytes) (f : File) : Prop :=
  exists c, m !! place dir f = Some c /\ (f_len f <= Z.of_nat (length c))%Z.
Definition file_ok (f : File) : Prop := (0 <= f_len f < 9223372036854775808)%Z /\ openable (build_path dir f).

Lemma created_there i c m : m !! i = Some c -> created i m = m.
Proof. unfold created. by intros ->. Qed.

Lemma read_regions_steady total fs : Forall file_ok fs ->
  forall skip acc s buf, fs_ok s -> steady s -> Forall (allocated (view s)) fs -> (0 <= skip)%Z -> (0 <= acc)%Z ->
  (total <= Z.of_nat (length buf))%Z ->
  exists s' buf', file_regions (fun p => beside (open_file p)) read_region dir total fs skip acc (s, buf) = (Ok tt, (s', buf')) /\
    steady s' /\ view s' = view s.
Proof.
  induction 1 as [|f fs [Hl Hop] Hfs IH]; intros skip acc s buf Hf Hst Hal Hs Ha Hb; [by exists s, buf|].
  cbn [file_regions]. set (mn := Z.min skip (f_len f)). apply Forall_cons in Hal as [(c & Hc & Hlc) Hal].
  destruct (_ && _) eqn:Hcond; [|apply IH; try done; lia]. apply andb_true_iff in Hcond as [Hc1 Hc2].
  set (act := Z.min (total - acc) (f_len f - mn)). set (off := (f_len f - (f_len f - mn))%Z).
  unfold mbind, St_bind at 1. unfold beside at 1. simpl.
  destruct (open_steady s (build_path dir f) Hf Hst Hop) as (h & s1 & -> & Hf1 & Hst1 & Hh & Hv1 & _). simpl.
  fold (place dir f) in Hh, Hv1. rewrite (created_there _ c) in Hv1 by done.
  assert (exists s2 buf2, read_region h off (Z.to_nat acc) (Z.to_nat (acc + act)) (s1, buf) = (Ok tt, (s2, buf2)) /\
    fs_ok s2 /\ steady s2 /\ view s2 = view s1 /\ length buf2 = length buf) as (s2 & buf2 & Hx & Hf2 & Hst2 & Hv2 & Hb2).
  { unfold read_region, mbind, St_bind, gets, lift, beside. simpl. rewrite slice_in by lia. simpl.
    destruct (read_steady s1 h (place dir f) c off (take (Z.to_nat (acc + act) - Z.to_nat acc) (drop (Z.to_nat acc) buf)))
      as (s2 & -> & Hf2 & Hst2 & Hv2 & _); [done..|by rewrite Hv1|lia|]. cbv zeta. rewrite length_take, length_drop. unfold modify, assert_that. simpl.
    rewrite (proj2 (Nat.eqb_eq _ _)) by lia. eexists s2, _. split_and!; [done..|].
    repeat (rewrite length_app || rewrite length_take || rewrite length_drop). lia. }
  unfold mbind, St_bind. rewrite Hx. destruct (IH (skip - mn)%Z (acc + act)%Z s2 buf2) as (s' & buf' & Hy & Hst' & Hv');
    [done|done|by rewrite Hv2, Hv1|lia|lia|lia|]. exists s', buf'. split_and!; [done..|congruence].
Qed.

Lemma write_regions_steady total data fs : Forall file_ok fs ->
  forall skip acc s, fs_ok s -> steady s -> (0 <= skip)%Z -> (0 <= acc)%Z -> (total <= Z.of_nat (length data))%Z ->
  exists s', file_regions open_file (write_region data) dir total fs skip acc s = (Ok tt, s') /\ steady s'.
Proof.
  induction 1 as [|f fs [Hl Hop] Hfs IH]; intros skip acc s Hf Hst Hs Ha Hb; [by exists s|].
  cbn [file_regions]. set (mn := Z.min skip (f_len f)). destruct (_ && _) eqn:Hcond; [|apply IH; try done; lia].
  apply andb_true_iff in Hcond as [Hc1 Hc2].
  set (act := Z.min (total - acc) (f_len f - mn)). set (off := (f_len f - (f_len f - mn))%Z).
  unfold mbind, St_bind at 1. destruct (open_steady s (build_path dir f) Hf Hst Hop) as (h & s1 & -> & Hf1 & Hst1 & Hh & Hv1 & _).
  destruct (refers_exists _ _ _ Hf1 Hh) as [c Hc].
  assert (exists s2, write_region data h off (Z.to_nat acc) (Z.to_nat (acc + act)) s1 = (Ok tt, s2) /\ fs_ok s2 /\ steady s2)
    as (s2 & Hx & Hf2 & Hst2).
  { unfold write_region, mbind, St_bind, lift. rewrite slice_in by lia.
    destruct (write_steady s1 h (locate (build_path dir f)) c off (take (Z.to_nat (acc + act) - Z.to_nat acc) (drop (Z.to_nat acc) data)))
      as (s2 & -> & Hf2 & Hst2 & _ & _); [done..|lia|]. unfold assert_that. rewrite length_take, length_drop.
    rewrite (proj2 (Nat.eqb_eq _ _)) by lia. by exists s2. }
  unfold mbind, St_bind. rewrite Hx. apply IH; try done; lia.
Qed.
End Steady.

(** * Blocks of a torrent *)

Section Blocks.
Context {F H : Type} `{FileSystemLaws F H} `{Profile}.

Definition torrent_byte (m : gmap Path bytes) (info : Info) (pos : Z) : option Z :=
  files_byte (file_directory info) m (files info) pos.
Definition torrent_places (info : Info) : list Path := place (file_directory info) <$> files info.
Definition torrent_size (info : Info) : Z := foldr Z.add 0%Z (f_len <$> files info).

(** The sizes are those of a torrent that can be read, and no two files are the
    same. *)
Record torrent_ok (info : Info) : Prop := {
  to_lens : Forall (fun f => 0 <= f_len f < 9223372036854775808)%Z (files info);
  to_size : is_u64 (torrent_size info);
  to_piece_len : (0 < piece_len info)%Z;
  to_distinct : NoDup (torrent_places info);
}.

Definition block_start (info : Info) (message : BlockMetadata) : Z :=
  (bm_piece_index message * piece_len info + bm_block_offset message)%Z.

(** The block is in the torrent. *)
Record block_in (info : Info) (message : BlockMetadata) : Prop := {
  bi_index : (0 <= bm_piece_index message)%Z;
  bi_offset : (0 <= bm_block_offset message)%Z;
  bi_length : (0 <= bm_block_length message)%Z;
  bi_end : (block_start info message + bm_block_length message <= torrent_size info)%Z;
}.

Lemma address_in dir fs pos : Forall (fun f => 0 <= f_len f)%Z fs -> (0 <= pos < foldr Z.add 0 (f_len <$> fs))%Z ->
  address dir fs pos <> None.
Proof.
  induction 1 as [|f fs Hf _ IH] in pos |- *; [simpl; lia|]. rewrite fmap_cons. cbn [foldr address]. intros Hp.
  destruct (Z.ltb_spec pos (f_len f)); [done|]. apply IH. lia.
Qed.

Lemma lens_nonneg info : torrent_ok info -> Forall (fun f => 0 <= f_len f)%Z (files info).
Proof. intros Ho. eapply Forall_impl; [exact (to_lens _ Ho)|]. simpl. lia. Qed.

Lemma region_start {S A} info message (k : Z -> io S A) : torrent_ok info -> block_in info message ->
  (start ← lift (u64_arith (bm_piece_index message * piece_len info));
   total_bytes_to_skip ← lift (u64_arith (start + bm_block_offset message)); k total_bytes_to_skip) = k (block_start info message).
Proof.
  intros [_ Hs Hp _] [? ? ? ?]. unfold is_u64, block_start in *. unfold mbind, St_bind, lift.
  rewrite u64_arith_in by (unfold is_u64; nia). rewrite u64_arith_in by (unfold is_u64; nia). done.
Qed.

Lemma start_nonneg info message : torrent_ok info -> block_in info message -> (0 <= block_start info message)%Z.
Proof. intros [_ _ ? _] [? ? ? ?]. unfold block_start. nia. Qed.

Lemma read_piece_spec info message s buf :
  torrent_ok info -> block_in info message -> fs_ok s ->
  exists r s' buf', read_piece info message (s, buf) = (r, (s', buf')) /\ after s s' /\ same_bytes (view s) (view s') /\
    length buf' = length buf /\
    match r with
    | Ok _ => forall j : nat, buf' !! j =
        if bool_decide (Z.of_nat j < bm_block_length message)%Z
        then torrent_byte (view s) info (block_start info message + Z.of_nat j) else buf !! j
    | NoFuel => False
    | _ => True
    end.
Proof.
  intros Hi Hb Hf. unfold read_piece, run_with_file_regions. rewrite region_start by done.
  destruct (read_regions (file_directory info) (bm_block_length message) (files info) (lens_nonneg _ Hi) (block_start info message) 0 s buf)
    as (r & s' & buf' & Hx & Ha & Hv & Hl & Hr); [done|by apply start_nonneg|done|]. exists r, s', buf'. split_and!; try done.
  destruct r; try done. intros j. rewrite Hr, Z.sub_0_r. unfold torrent_byte, files_byte.
  case_bool_decide as Hj1; case_bool_decide as Hj2; try lia; [|done].
  pose proof (address_in (file_directory info) _ (block_start info message + Z.of_nat j) (lens_nonneg _ Hi)) as Hn.
  destruct (address _ _ _) as [[i o]|]; [done|]. exfalso. apply Hn; [|done]. pose proof (start_nonneg _ _ Hi Hb). destruct Hb. unfold torrent_size in *. lia.
Qed.

Lemma write_piece_spec info message data s :
  torrent_ok info -> block_in info message -> fs_ok s ->
  exists r s', write_piece info data message s = (r, s') /\ after s s' /\
    kept (file_directory info) (block_start info message) (block_start info message + bm_block_length message) (files info) (view s) (view s') /\
    match r with
    | Ok _ => forall j : nat, (Z.of_nat j < bm_block_length message)%Z ->
        torrent_byte (view s') info (block_start info message + Z.of_nat j) = data !! j
    | NoFuel => False
    | _ => True
    end.
Proof.
  intros Hi Hb Hf. unfold write_piece, run_with_file_regions. rewrite region_start by done.
  destruct (write_regions (file_directory info) (bm_block_length message) data (files info) (lens_nonneg _ Hi) (to_distinct _ Hi) (block_start info message) 0 s)
    as (r & s' & Hx & Ha & Hk & Hr); [done|by apply start_nonneg|done|]. rewrite Z.sub_0_r in Hk. exists r, s'. split_and!; try done.
  destruct r; try done. intros j Hj. specialize (Hr j ltac:(lia)). rewrite Z.sub_0_r in Hr. apply Hr. apply address_in; [by apply lens_nonneg|].
  pose proof (start_nonneg _ _ Hi Hb). destruct Hb. unfold torrent_size in *. lia.
Qed.
End Blocks.

Section Stored.
Context {F H : Type} `{FileSystemSteady F H} `{Profile}.

Lemma read_piece_steady info message s buf :
  torrent_ok info -> block_in info message -> fs_ok s -> steady s ->
  Forall (file_ok (file_directory info)) (files info) -> Forall (allocated (file_directory info) (view s)) (files info) ->
  (bm_block_length message <= Z.of_nat (length buf))%Z ->
  exists s' buf', read_piece info message (s, buf) = (Ok tt, (s', buf')) /\ fs_ok s' /\ steady s' /\ view s' = view s /\
    length buf' = length buf /\
    forall j : nat, (Z.of_nat j < bm_block_length message)%Z ->
      buf' !! j = torrent_byte (view s) info (block_start info message + Z.of_nat j).
Proof.
  intros Hi Hb Hf Hs Hfs Hal Hl. destruct (read_piece_spec info message s buf Hi Hb Hf) as (r & s' & buf' & Hx & [Hf' _] & _ & Hl' & Hr).
  destruct (read_regions_steady (file_directory info) (bm_block_length message) (files info) Hfs (block_start info message) 0 s buf)
    as (s2 & buf2 & Hy & Hs2 & Hv2); [done..|by apply start_nonneg|done|done|].
  unfold read_piece, run_with_file_regions in *. rewrite region_start in * by done. rewrite Hy in Hx. injection Hx as <- <- <-.
  exists s2, buf2. split_and!; try done. intros j Hj. by rewrite Hr, bool_decide_eq_true_2.
Qed.

Lemma write_piece_steady info message data s :
  torrent_ok info -> block_in info message -> fs_ok s -> steady s -> Forall (file_ok (file_directory info)) (files info) ->
  (bm_block_length message <= Z.of_nat (length data))%Z ->
  exists s', write_piece info data message s = (Ok tt, s') /\ steady s'.
Proof.
  intros Hi Hb Hf Hs Hfs Hl. unfold write_piece, run_with_file_regions. rewrite region_start by done.
  apply write_regions_steady; try done. by apply start_nonneg.
Qed.

Lemma kept_allocated dir lo hi fs fl m m' : kept dir lo hi fs m m' -> Forall (allocated dir m) fl -> Forall (allocated dir m') fl.
Proof.
  intros (_ & _ & Hk) Hal. eapply Forall_impl; [exact Hal|]. intros f (c & Hc & Hl). destruct (Hk _ _ Hc) as (c' & Hc' & ?).
  exists c'. split; [done|lia].
Qed.

(** C18. A block is written to the bytes of the torrent that it is a block of, over as
    many files as it spans: bytes outside of it and other files are left as they
    are, even when the file system fails half-way.  Once it is written, reading
    it gives its data or an error; on a file system that works, with the files
    at their sizes, both succeed. *)
Theorem blocks_stored (info : Info) (message : BlockMetadata) (data buf : bytes) (s : F) :
  torrent_ok info -> block_in info message -> fs_ok s ->
  Z.of_nat (length data) = bm_block_length message -> length buf = length data ->
  exists r s', write_piece info data message s = (r, s') /\ fs_ok s' /\
    kept (file_directory info) (block_start info message) (block_start info message + bm_block_length message) (files info) (view s) (view s') /\
    (r = Ok tt -> exists r2 s2 buf', read_piece info message (s', buf) = (r2, (s2, buf')) /\ r2 <> NoFuel /\ (r2 = Ok tt -> buf' = data)) /\
    (steady s -> Forall (file_ok (file_directory info)) (files info) -> Forall (allocated (file_directory info) (view s)) (files info) ->
      r = Ok tt /\ exists s2, read_piece info message (s', buf) = (Ok tt, (s2, data))).
Proof.
  intros Hi Hb Hf Hl Hl2. destruct (write_piece_spec info message data s Hi Hb Hf) as (r & s' & Hx & [Hf' _] & Hk & Hr).
  exists r, s'. split_and!; [done..| |].
  - intros ->. destruct (read_piece_spec info message s' buf Hi Hb Hf') as (r2 & s2 & buf' & Hy & _ & _ & Hlb & Hr2).
    exists r2, s2, buf'. split_and!; [done|by intros ->|]. intros ->. apply list_eq_same_length with (length data); [done|lia|].
    intros j x y Hj Hx1 Hx2. rewrite Hr2, bool_decide_eq_true_2, Hr in Hx1 by lia. congruence.
  - intros Hs Hfs Hal. destruct (write_piece_steady info message data s) as (s1 & Hx1 & Hs1); [done..|lia|].
    rewrite Hx1 in Hx. injection Hx as <- <-. split; [done|].
    destruct (read_piece_steady info message s1 buf) as (s2 & buf' & Hy & _ & _ & _ & Hlb & Hr2); [done..|by eapply kept_allocated|lia|].
    exists s2. rewrite Hy. do 3 f_equal. apply list_eq_same_length with (length data); [done|lia|].
    intros j x y Hj Hx1' Hx2. rewrite Hr2, Hr in Hx1' by lia. congruence.
Qed.
End Stored.

(** * A concrete torrent *)

(** Two files of three bytes in a directory, and two pieces of four and two. *)
Definition sample_torrent : Info := {|
  info_hash := {| hash := replicate 20 3%Z |};
  files := [{| f_len := 3; f_path := ascii_bytes "a"; f_md5sum := None |}; {| f_len := 3; f_path := ascii_bytes "b"; f_md5sum := None |}];
  pieces := [[10; 11; 12; 13] ++ replicate 16 0; [14; 15] ++ replicate 18 0]%Z;
  piece_len := 4; is_private := None; file_directory := Some (ascii_bytes "d") |}.

Definition sample_disk : OsState := {|
  os_files := {[ascii_bytes "/x/d/a" := [0; 0; 0]%Z; ascii_bytes "/x/d/b" := [0; 0; 0]%Z]};
  os_open := []; os_answers := [] |}.

Definition sample_dir : Path := ascii_bytes "/x".
Definition sample_block (offset len : Z) : BlockMetadata := {|
  bm_info_hash := info_hash sample_torrent; bm_piece_index := 0; bm_block_offset := offset; bm_block_length := len |}.

#[local] Existing Instances NativeFileSystem Native_laws Native_steady.

Lemma sample_torrent_ok : @torrent_ok OsState nat (NativeFileSystem sample_dir) (Native_laws sample_dir) sample_torrent.
Proof. split; [by repeat constructor|by split|done|]. by apply (bool_decide_unpack _). Qed.

Lemma sample_files_ok :
  Forall (@file_ok OsState nat (NativeFileSystem sample_dir) (Native_laws sample_dir) (Native_steady sample_dir) (file_directory sample_torrent)) (files sample_torrent).
Proof. by repeat constructor. Qed.

Lemma sample_allocated :
  Forall (@allocated OsState nat (NativeFileSystem sample_dir) (Native_laws sample_dir) (file_directory sample_torrent) (os_files sample_disk)) (files sample_torrent).
Proof. repeat constructor; by eexists. Qed.

(** A block over both files. *)
Lemma blocks_stored_witness :
  exists r s', @write_piece _ _ (NativeFileSystem sample_dir) true sample_torrent [7; 8; 9]%Z (sample_block 1 3) sample_disk = (r, s') /\
    r = Ok tt /\ exists s2, @read_piece _ _ (NativeFileSystem sample_dir) true sample_torrent (sample_block 1 3) (s', [0; 0; 0]%Z) = (Ok tt, (s2, [7; 8; 9]%Z)).
Proof.
  destruct (@blocks_stored OsState nat (NativeFileSystem sample_dir) (Native_laws sample_dir) (Native_steady sample_dir) true
    sample_torrent (sample_block 1 3) [7; 8; 9]%Z [0; 0; 0]%Z sample_disk sample_torrent_ok) as (r & s' & Hw & _ & _ & _ & Hs).
  - by split.
  - by constructor.
  - done.
  - done.
  - exists r, s'. split; [done|]. apply Hs; [done|apply sample_files_ok|apply sample_allocated].
Defined.
