(* ===== verification/DiskChecker.v ===== *)
(** DiskChecker: merging the blocks of a piece, and what a check of pieces finds.

    Merging keeps what the blocks cover; blocks that tile a piece, in any order and
    with repetitions, merge to the piece.  A piece that is reported as good has
    bytes on disk whose digest is the one of the torrent. *)

From stdpp Require Import base list gmap sorting.
From Stdlib Require Import ZArith Lia.
From S2P Require Import Prelude Effects Float ShaHash Metainfo FileSystem FileSystemCorrect Timer Disk DiskAccess.

(** * Running a method to any end

    [always I m Q s]: from [s] the method returns and [Q] holds, or it fails or
    panics and leaves a state with [I]. *)

Definition always {S E A} (I : S -> Prop) (m : St S E A) (Q : A -> S -> Prop) (s : S) : Prop :=
  match m s with
  | (Ok a, s') => Q a s'
  | (NoFuel, _) => False
  | (_, s') => I s'
  end.

Section Always.
Context {S E : Type} (I : S -> Prop).

Lemma always_bind {A B} (m : St S E A) (f : A -> St S E B) Q Q' s :
  always I m Q' s -> (forall a s', Q' a s' -> always I (f a) Q s') -> always I (m ≫= f) Q s.
Proof. intros Hm Hf. unfold always, mbind, St_bind in *. destruct (m s) as [[a|e| |] s']; [by apply Hf|done..]. Qed.

Lemma always_lift {A B} (m : outcome E A) (f : A -> St S E B) Q s :
  I s -> m <> NoFuel -> (forall a, m = Ok a -> always I (f a) Q s) -> always I (lift m ≫= f) Q s.
Proof. intros Hs Hm Hf. unfold always, mbind, St_bind, lift. destruct m; [by apply Hf|done..]. Qed.

Lemma always_modify {B} g (f : unit -> St S E B) Q s : always I (f tt) Q (g s) -> always I (modify g ≫= f) Q s.
Proof. done. Qed.
Lemma always_gets {A B} (g : S -> A) (f : A -> St S E B) Q s : always I (f (g s)) Q s -> always I (gets g ≫= f) Q s.
Proof. done. Qed.

Lemma always_for_each {A} (J : S -> Prop) (l : list A) f s :
  (forall a s, a ∈ l -> J s -> always I (f a) (fun _ => J) s) -> J s -> always I (for_each l f : St S E unit) (fun _ => J) s.
Proof.
  revert s. induction l as [|a l IH]; intros s Hf Hs; [done|]. cbn [for_each].
  eapply always_bind; [apply Hf; [left|done]|]. intros ? s' Hs'. apply IH; [|done]. intros b s1 Hb. apply Hf. by right.
Qed.
End Always.

Lemma arith_fuel `{Profile} {E} (ok : Z -> Prop) `{forall z, Decision (ok z)} wrap z : @arith _ E ok _ wrap z <> NoFuel.
Proof. unfold arith. destruct (decide (ok z)); [done|]. by destruct overflow_checks. Qed.

(** * Blocks of a piece *)

Definition piece_size (info : Info) (k : Z) : Z := Z.min (piece_len info) (torrent_size info - k * piece_len info).

(** A pending block of piece [k]. *)
Record block_ok (info : Info) (k : Z) (m : BlockMetadata) : Prop := {
  bo_index : bm_piece_index m = k;
  bo_piece : (0 <= k)%Z;
  bo_offset : (0 <= bm_block_offset m)%Z;
  bo_length : (0 <= bm_block_length m)%Z;
  bo_end : (bm_block_offset m + bm_block_length m <= piece_size info k)%Z;
  bo_empty : (0 < bm_block_length m \/ piece_size info k = 0)%Z;
}.

(** The blocks cover a position of their piece. *)
Definition covered (l : list BlockMetadata) (pos : Z) : Prop :=
  exists m, m ∈ l /\ (bm_block_offset m <= pos < bm_block_offset m + bm_block_length m)%Z.

Lemma covered_perm l l' pos : l ≡ₚ l' -> covered l pos <-> covered l' pos.
Proof. intros Hp. unfold covered. by setoid_rewrite Hp. Qed.

Lemma covered_cons m l pos :
  covered (m :: l) pos <-> (bm_block_offset m <= pos < bm_block_offset m + bm_block_length m)%Z \/ covered l pos.
Proof. unfold covered. setoid_rewrite elem_of_cons. naive_solver. Qed.

(** ** Sorting *)

Lemma insert_by_offset_perm m l : insert_by_offset m l ≡ₚ m :: l.
Proof. induction l as [|x l IH]; simpl; [done|]. case_match; [done|]. rewrite IH. apply Permutation_swap. Qed.

Lemma sort_by_offset_perm l : sort_by_offset l ≡ₚ l.
Proof. induction l as [|m l IH]; simpl; [done|]. by rewrite insert_by_offset_perm, IH. Qed.

Definition before (a b : BlockMetadata) : Prop := (bm_block_offset a <= bm_block_offset b)%Z.

Lemma insert_by_offset_sorted m l : StronglySorted before l -> StronglySorted before (insert_by_offset m l).
Proof.
  induction 1 as [|x l Hs IH Hx]; simpl; [repeat constructor|]. destruct (Z.leb_spec (bm_block_offset m) (bm_block_offset x)).
  - constructor; [by constructor|]. constructor; [done|]. eapply Forall_impl; [exact Hx|]. unfold before. intros y. lia.
  - constructor; [done|]. rewrite insert_by_offset_perm. constructor; [unfold before; lia|done].
Qed.

Lemma sort_by_offset_sorted l : StronglySorted before (sort_by_offset l).
Proof. induction l; simpl; [constructor|]. by apply insert_by_offset_sorted. Qed.

(** ** Merging two blocks *)

Section Merge.
Context `{Profile} (info : Info).
Hypothesis Hsize : is_u64 (torrent_size info).
Hypothesis Hlen : (0 < piece_len info)%Z.

Lemma merge_two k a b : block_ok info k a -> block_ok info k b ->
  merge_piece_messages a b = Ok None \/
  exists m, merge_piece_messages a b = Ok (Some m) /\ block_ok info k m /\ bm_info_hash m = bm_info_hash a /\
    bm_info_hash b = bm_info_hash a /\ bm_block_offset m = Z.min (bm_block_offset a) (bm_block_offset b) /\
    forall pos, covered [m] pos <-> covered [a; b] pos.
Proof.
  intros [Ea ? Ha1 Ha2 Ha3 Ha4] [Eb ? Hb1 Hb2 Hb3 Hb4]. unfold merge_piece_messages. case_bool_decide as Eh; simpl; [|by left].
  rewrite Ea, Eb, Z.eqb_refl. simpl. unfold is_u64, piece_size in *.
  rewrite u64_arith_in by (unfold is_u64; nia). cbn [mbind outcome_bind]. rewrite u64_arith_in by (unfold is_u64; nia). cbn [mbind outcome_bind].
  repeat case_match; [right|right|by left]; (eexists; split; [done|]; split; [by split; simpl; unfold piece_size; lia|];
    simpl; split_and!; [done|done|lia|]; intros pos; rewrite !covered_cons; simpl; unfold covered; setoid_rewrite elem_of_nil; intuition lia).
Qed.

(** Blocks that touch, the first before the second. *)
Lemma merge_linked k a b : block_ok info k a -> block_ok info k b -> bm_info_hash a = bm_info_hash b ->
  (bm_block_offset a <= bm_block_offset b <= bm_block_offset a + bm_block_length a)%Z ->
  merge_piece_messages a b <> Ok None.
Proof.
  intros [Ea ? Ha1 Ha2 Ha3 Ha4] [Eb ? Hb1 Hb2 Hb3 Hb4] Eh Hl. unfold merge_piece_messages.
  rewrite bool_decide_eq_true_2, Ea, Eb, Z.eqb_refl by done. simpl. unfold is_u64, piece_size in *.
  rewrite u64_arith_in by (unfold is_u64; nia). cbn [mbind outcome_bind]. rewrite u64_arith_in by (unfold is_u64; nia). cbn [mbind outcome_bind].
  rewrite !(proj2 (Z.leb_le _ _)) by lia. done.
Qed.

(** ** Merging the blocks of a piece *)

Lemma merge_loop_ok k last rest : Forall (block_ok info k) (last :: rest) ->
  exists l, merge_loop last rest = Ok l /\ Forall (block_ok info k) l /\ forall pos, covered l pos <-> covered (last :: rest) pos.
Proof.
  revert last. induction rest as [|second rest IH]; intros last Hf; cbn [merge_loop]; [by exists [last]|].
  apply Forall_cons in Hf as [Hl Hf]. apply Forall_cons in Hf as [Hs Hf].
  destruct (merge_two k second last Hs Hl) as [->|(m & -> & Hm & _ & _ & _ & Hc)]; cbn [mbind outcome_bind].
  - exists (last :: second :: rest). split; [done|]. split; [constructor; [done|by constructor]|]. tauto.
  - destruct (IH m) as (l & -> & Hf' & Hc'); [by constructor|]. exists l. split_and!; [done..|]. intros pos. rewrite Hc'.
    specialize (Hc pos). rewrite !covered_cons in *. unfold covered at 1 in Hc. unfold covered at 1 in Hc. setoid_rewrite elem_of_nil in Hc.
    naive_solver.
Qed.

Lemma merge_messages_ok k messages : Forall (block_ok info k) messages ->
  exists l, merge_messages messages = Ok l /\ Forall (block_ok info k) l /\ (forall pos, covered l pos <-> covered messages pos).
Proof.
  intros Hf. unfold merge_messages. assert (rev (sort_by_offset messages) ≡ₚ messages) as Hp by (by rewrite <- Permutation_rev, sort_by_offset_perm).
  destruct (rev (sort_by_offset messages)) as [|last rest].
  - apply Permutation_nil_l in Hp. subst. by exists [].
  - destruct (merge_loop_ok k last rest) as (l & -> & Hl & Hc); [by rewrite Hp|]. exists (rev l). cbn [mbind outcome_bind]. split_and!; [done| |].
    + by rewrite <- Permutation_rev.
    + intros pos. rewrite (covered_perm (rev l) l) by (by rewrite <- Permutation_rev). rewrite Hc. by apply covered_perm.
Qed.

(** Sorted blocks of which each begins where the one before has not ended. *)
Fixpoint linked (l : list BlockMetadata) : Prop :=
  match l with
  | a :: (b :: _) as l' =>
      bm_info_hash a = bm_info_hash b /\
      (bm_block_offset a <= bm_block_offset b <= bm_block_offset a + bm_block_length a)%Z /\ linked l'
  | _ => True
  end.

Lemma linked_last l a b : linked (l ++ [a; b]) ->
  linked (l ++ [a]) /\ bm_info_hash a = bm_info_hash b /\ (bm_block_offset a <= bm_block_offset b <= bm_block_offset a + bm_block_length a)%Z.
Proof. induction l as [|x [|y l] IH]; simpl in *; naive_solver. Qed.

Lemma linked_replace l a m : linked (l ++ [a]) -> bm_info_hash m = bm_info_hash a -> bm_block_offset m = bm_block_offset a -> linked (l ++ [m]).
Proof. intros Hl Hh Ho. induction l as [|x [|y l] IH]; simpl in *; [done| |naive_solver]. rewrite Ho, Hh. naive_solver. Qed.

Lemma merge_loop_linked k last rest : Forall (block_ok info k) (last :: rest) -> linked (rev rest ++ [last]) ->
  exists m, merge_loop last rest = Ok [m] /\ bm_info_hash m = bm_info_hash last.
Proof.
  revert last. induction rest as [|second rest IH]; intros last Hf Hk; cbn [merge_loop]; [by exists last|].
  apply Forall_cons in Hf as [Hl Hf]. apply Forall_cons in Hf as [Hs Hf]. simpl in Hk. rewrite <- app_assoc in Hk.
  apply linked_last in Hk as (Hk & Hh & Ho). pose proof (merge_linked k second last Hs Hl Hh Ho) as Hn.
  destruct (merge_two k second last Hs Hl) as [|(m & -> & Hm & Hmh & _ & Hmo & _)]; [done|]. cbn [mbind outcome_bind].
  destruct (IH m) as (m' & -> & Hm'); [by constructor|eapply linked_replace; [exact Hk|done|lia]|]. exists m'. split; [done|congruence].
Qed.

(** ** Tilings *)

(** Consecutive ranges from [lo] with the given lengths. *)
Fixpoint tiles (lo : Z) (lens : list Z) : list (Z * Z) :=
  match lens with
  | [] => []
  | n :: lens => (lo, n) :: tiles (lo + n) lens
  end.

Definition tile_of (m : BlockMetadata) : Z * Z := (bm_block_offset m, bm_block_length m).

Lemma tiles_from lo lens t : Forall (fun n => 0 < n)%Z lens -> t ∈ tiles lo lens -> (lo <= t.1)%Z.
Proof.
  intros Hl. revert lo. induction Hl as [|n lens Hn _ IH]; intros lo; simpl; [by intros ?%not_elem_of_nil|].
  intros [->|Ht]%elem_of_cons; [done|]. apply IH in Ht. lia.
Qed.

Lemma tiles_positive lo lens t : Forall (fun n => 0 < n)%Z lens -> t ∈ tiles lo lens -> (0 < t.2)%Z.
Proof.
  intros Hl. revert lo. induction Hl as [|n lens Hn _ IH]; intros lo; simpl; [by intros ?%not_elem_of_nil|].
  intros [->|Ht]%elem_of_cons; [done|]. by apply IH in Ht.
Qed.

(** Of two tiles, the second is the same, the next, or there is one between. *)
Lemma tiles_next lo lens t t' : Forall (fun n => 0 < n)%Z lens -> t ∈ tiles lo lens -> t' ∈ tiles lo lens -> (t.1 <= t'.1)%Z ->
  t' = t \/ t'.1 = (t.1 + t.2)%Z \/ exists u, u ∈ tiles lo lens /\ (t.1 < u.1 < t'.1)%Z.
Proof.
  intros Hl. revert lo. induction Hl as [|n lens Hn Hl IH]; intros lo; simpl; [by intros ?%not_elem_of_nil|].
  intros [->|Ht]%elem_of_cons [->|Ht']%elem_of_cons Hle; simpl in *.
  - by left.
  - right. destruct lens as [|n2 lens]; [by apply not_elem_of_nil in Ht'|]. apply elem_of_cons in Ht' as [->|Ht']; [by left|].
    right. exists ((lo + n)%Z, n2). apply Forall_cons in Hl as [Hn2 Hl]. apply tiles_from in Ht'; [|done]. simpl. split; [set_solver|lia].
  - apply tiles_from in Ht; [|done]. lia.
  - destruct (IH _ Ht Ht' Hle) as [?|[?|(u & Hu & ?)]]; [by left|by right; left|]. right; right. exists u. split; [set_solver|done].
Qed.

Lemma tiles_cover lo lens pos : Forall (fun n => 0 < n)%Z lens ->
  (lo <= pos < lo + foldr Z.add 0 lens)%Z <-> exists t, t ∈ tiles lo lens /\ (t.1 <= pos < t.1 + t.2)%Z.
Proof.
  intros Hl. revert lo. induction Hl as [|n lens Hn Hl IH]; intros lo; simpl.
  - split; [lia|]. intros (t & Ht%not_elem_of_nil & _). done.
  - setoid_rewrite elem_of_cons. assert (0 <= foldr Z.add 0 lens)%Z by (clear -Hl; induction Hl; simpl; lia).
    specialize (IH (lo + n)%Z). split.
    + intros Hp. destruct (decide (pos < lo + n)%Z); [exists (lo, n); simpl; split; [by left|lia]|].
      destruct (proj1 IH ltac:(lia)) as (t & Ht & ?). exists t. auto.
    + intros (t & [->|Ht] & Hp); simpl in *; [lia|]. assert (lo + n <= pos < lo + n + foldr Z.add 0 lens)%Z by (apply IH; by exists t). lia.
Qed.

(** The blocks tile the piece: each is a tile, and each tile is among them. *)
Record tiling (lens : list Z) (messages : list BlockMetadata) : Prop := {
  tl_lens : Forall (fun n => 0 < n)%Z lens;
  tl_blocks : Forall (fun m => tile_of m ∈ tiles 0 lens) messages;
  tl_tiles : Forall (fun t => t ∈ tile_of <$> messages) (tiles 0 lens);
}.

Lemma tiling_linked h lens pre l : Forall (fun m => bm_info_hash m = h) (pre ++ l) -> StronglySorted before (pre ++ l) ->
  tiling lens (pre ++ l) -> linked l.
Proof.
  intros Hh Hs Ht. revert pre Hh Hs Ht. induction l as [|a [|b l] IH]; intros pre Hh Hs Ht; [done|done|].
  assert (linked (b :: l)) as Hl by (apply (IH (pre ++ [a])); rewrite <- app_assoc; done).
  split; [|split; [|exact Hl]].
  - apply Forall_app in Hh as [_ Hh]. apply Forall_cons in Hh as [-> Hh]. by apply Forall_cons in Hh as [-> _].
  - assert (before a b) as Hab.
    { apply StronglySorted_app_1_r, StronglySorted_inv in Hs as [_ Hs]. by apply Forall_cons in Hs as [? _]. }
    destruct Ht as [Hlens Hb Htl]. rewrite Forall_forall in Hb. rewrite Forall_forall in Htl.
    destruct (tiles_next 0 lens (tile_of a) (tile_of b) Hlens) as [He|[He|(u & Hu & Hlt)]].
    + apply Hb. set_solver.
    + apply Hb. set_solver.
    + exact Hab.
    + unfold tile_of in He. injection He as -> _. assert (tile_of a ∈ tiles 0 lens) as Ha by (apply Hb; set_solver).
      apply tiles_positive in Ha; [|done]. simpl in *. lia.
    + simpl in He. unfold before in Hab. lia.
    + exfalso. apply Htl, list_elem_of_fmap in Hu as (m & -> & Hm). simpl in Hlt. apply elem_of_app in Hm as [Hm|Hm].
      * apply StronglySorted_app_1_elem_of with (x1 := m) (x2 := a) in Hs; [|done|set_solver]. unfold before in Hs. lia.
      * apply StronglySorted_app_1_r in Hs. apply elem_of_cons in Hm as [->|Hm]; [lia|]. apply StronglySorted_inv in Hs as [Hs _].
        apply elem_of_cons in Hm as [->|Hm]; [lia|]. apply StronglySorted_inv in Hs as [_ Hs]. rewrite Forall_forall in Hs.
        apply Hs in Hm. unfold before in Hm. lia.
Qed.

Lemma tiling_perm lens l l' : l ≡ₚ l' -> tiling lens l -> tiling lens l'.
Proof.
  intros Hp [? Hb Ht]. split; [done|by rewrite <- Hp|]. eapply Forall_impl; [exact Ht|]. intros t. simpl.
  rewrite !list_elem_of_fmap. intros (m & -> & Hm). exists m. by rewrite <- Hp.
Qed.

(** Blocks that tile the piece, in any order and however often, merge to it. *)
Lemma merge_tiling h k lens messages : Forall (block_ok info k) messages -> Forall (fun m => bm_info_hash m = h) messages ->
  tiling lens messages -> foldr Z.add 0%Z lens = piece_size info k -> (0 < piece_size info k)%Z ->
  exists m, merge_messages messages = Ok [m] /\ block_ok info k m /\ bm_block_offset m = 0%Z /\ bm_block_length m = piece_size info k.
Proof.
  intros Hok Hh Ht Hsum Hpos. destruct (merge_messages_ok k messages Hok) as (l & Hm & Hl & Hc).
  assert (Hcov : forall pos, covered messages pos <-> (0 <= pos < piece_size info k)%Z).
  { intros pos. rewrite <- Hsum, <- (Z.add_0_l (foldr _ _ _)), tiles_cover by apply Ht. destruct Ht as [_ Hb Htl].
    rewrite Forall_forall in Hb. rewrite Forall_forall in Htl. split.
    - intros (m & Hin & ?). exists (tile_of m). auto.
    - intros (t & Hin & ?). apply Htl, list_elem_of_fmap in Hin as (m & -> & ?). by exists m. }
  unfold merge_messages in Hm. pose proof (sort_by_offset_perm messages) as Hp. pose proof (sort_by_offset_sorted messages) as Hs.
  destruct (rev (sort_by_offset messages)) as [|last rest] eqn:Hr.
  { injection Hm as <-. destruct (proj2 (Hc 0%Z)) as (m & Hin & _); [by apply Hcov|]. by apply not_elem_of_nil in Hin. }
  assert (sort_by_offset messages = rev rest ++ [last]) as Hsr by (rewrite <- (rev_involutive (sort_by_offset _)), Hr; done).
  destruct (merge_loop_linked k last rest) as (m & Hx & _).
  { rewrite <- Hr, <- Permutation_rev. by rewrite Hp. }
  { rewrite <- Hsr. apply (tiling_linked h lens []); simpl; [by rewrite Hp|done|by eapply tiling_perm]. }
  rewrite Hx in Hm. injection Hm as <-. exists m. unfold merge_messages. rewrite Hr, Hx. simpl in *. rewrite Forall_singleton in Hl. split_and!; [done..| |];
    pose proof (Hc 0%Z) as H0; pose proof (Hc (piece_size info k - 1)%Z) as H1; pose proof (Hc (piece_size info k)) as H2;
    pose proof (Hc (bm_block_offset m)) as H3; destruct Hl;
    rewrite Hcov, covered_cons in H0, H1, H2, H3; unfold covered in H0, H1, H2, H3; setoid_rewrite elem_of_nil in H0; setoid_rewrite elem_of_nil in H1;
    setoid_rewrite elem_of_nil in H2; setoid_rewrite elem_of_nil in H3; naive_solver lia.
Qed.
End Merge.

(** * The checker of a torrent *)

Section Checker.
Context {F H : Type} `{FileSystemLaws F H} `{Profile} `{Sha1}.

(** A torrent with as many pieces as its size asks for. *)
Record torrent_valid (info : Info) : Prop := {
  tv_ok : torrent_ok info;
  tv_size : (0 < torrent_size info)%Z;
  tv_pieces : ((Z.of_nat (length (pieces info)) - 1) * piece_len info < torrent_size info
               <= Z.of_nat (length (pieces info)) * piece_len info)%Z;
  tv_len : (piece_len info < 9223372036854775808)%Z;
}.

Record checker_ok (info : Info) (st : PieceStateChecker) : Prop := {
  co_total : total_pieces st = Z.of_nat (length (pieces info));
  co_last : last_block_size st = (torrent_size info mod piece_len info)%Z;
  co_pending : forall k, Forall (block_ok info k) (pending_of k st);
}.

Variable info : Info.
Hypothesis Hv : torrent_valid info.

Lemma valid_size : is_u64 (torrent_size info).
Proof. apply Hv. Qed.
Lemma valid_len : (0 < piece_len info)%Z.
Proof. apply Hv. Qed.

Lemma sum_nonneg fs : Forall (fun f => 0 <= f_len f)%Z fs -> (0 <= foldr Z.add 0 (f_len <$> fs))%Z.
Proof. induction 1; [done|]. rewrite fmap_cons. cbn [foldr]. lia. Qed.

Lemma total_bytes_size : total_bytes info = Ok (torrent_size info).
Proof.
  unfold total_bytes, torrent_size. pose proof valid_size as Hs. pose proof (lens_nonneg _ (tv_ok _ Hv)) as Hl. unfold torrent_size in Hs.
  enough (forall acc, (0 <= acc)%Z -> is_u64 (acc + foldr Z.add 0%Z (f_len <$> files info)) ->
    total_len acc ((fun f => (f_len f, [])) <$> files info) = @Ok IoError _ (acc + foldr Z.add 0%Z (f_len <$> files info))%Z) as HE
    by (rewrite HE; [done..|by rewrite Z.add_0_l]).
  clear Hs. induction Hl as [|f fs Hf Hl IH]; intros acc Ha Hs; [simpl; by rewrite Z.add_0_r|].
  pose proof (sum_nonneg _ Hl). rewrite !fmap_cons in *. cbn [foldr total_len] in *. unfold is_u64 in *.
  rewrite u64_arith_in by (unfold is_u64; lia). cbn [mbind outcome_bind]. rewrite IH by lia. f_equal. lia.
Qed.

Lemma last_piece_size_mod : last_piece_size info = Ok (torrent_size info mod piece_len info)%Z.
Proof.
  unfold last_piece_size. rewrite total_bytes_size. cbn [mbind outcome_bind]. pose proof valid_len.
  by rewrite (proj2 (Z.eqb_neq _ _)) by lia.
Qed.

Lemma checker_ok_new : checker_ok info (PieceStateChecker_new (Z.of_nat (length (pieces info))) (torrent_size info mod piece_len info)).
Proof. split; [done..|]. intros k. unfold pending_of. simpl. by rewrite lookup_empty. Qed.

Ltac checker_fields := cbv [update_field up_new_states up_old_states up_pending_blocks up_is_complete up_complete_num up_check_num];
  cbn [new_states old_states pending_blocks total_pieces last_block_size is_complete complete_num check_num].

Lemma pending_of_insert k k' l st :
  default [] (<[k := l]> (pending_blocks st) !! k') = if decide (k = k') then l else pending_of k' st.
Proof. destruct (decide (k = k')) as [<-|]; [by rewrite lookup_insert_eq|by rewrite lookup_insert_ne]. Qed.

Lemma checker_ok_pending k l st : checker_ok info st -> Forall (block_ok info k) l ->
  checker_ok info (st <| pending_blocks := <[k := l]> (pending_blocks st) |>).
Proof.
  intros [Ht Hl Hp] Hf. split; [done..|]. intros k'. unfold pending_of. checker_fields. rewrite pending_of_insert.
  destruct (decide (k = k')) as [<-|]; [done|apply Hp].
Qed.

Lemma checker_ok_add m st : checker_ok info st -> block_ok info (bm_piece_index m) m -> checker_ok info (add_pending_block m st).
Proof.
  intros Hc Hm. apply checker_ok_pending; [done|]. apply Forall_app. split; [apply Hc|by apply Forall_singleton].
Qed.

Lemma fill_ok st : checker_ok info st -> exists st', fill_checker_state info st = Ok st' /\ checker_ok info st'.
Proof.
  intros Hc. unfold fill_checker_state. rewrite total_bytes_size, last_piece_size_mod. cbn [mbind outcome_bind]. pose proof valid_len as Hl.
  pose proof (tv_size _ Hv) as Hs. rewrite (proj2 (Z.eqb_neq _ _)) by lia. pose proof (Z.div_mod (torrent_size info) (piece_len info) ltac:(lia)) as Hd.
  pose proof (Z.mod_pos_bound (torrent_size info) (piece_len info) ltac:(lia)) as Hm.
  set (q := (torrent_size info / piece_len info)%Z) in *. set (r := (torrent_size info mod piece_len info)%Z) in *.
  assert (0 <= q)%Z by (unfold q; apply Z.div_pos; lia). eexists. split; [done|].
  rewrite (proj2 (Z.eqb_neq r (piece_len info))) by lia. simpl. apply checker_ok_add.
  - assert (forall l, Forall (fun k => 0 <= k < q)%Z l ->
      forall st, checker_ok info st -> checker_ok info (fold_left (fun s index => add_pending_block (with_default_hash index 0 (piece_len info)) s) l st)) as HF.
    { induction 1 as [|k l Hk _ IH]; intros st' Hst'; simpl; [done|]. apply IH, checker_ok_add; [done|].
      split; simpl; unfold piece_size; try lia; nia. }
    apply HF; [|done]. apply Forall_forall. intros k Hk. apply elem_of_seqZ in Hk. lia.
  - split; simpl; unfold piece_size; try lia; nia.
Qed.

(** Merging the pending blocks. *)
Lemma merge_entries_ok l : (forall k ms, (k, ms) ∈ l -> Forall (block_ok info k) ms) ->
  exists l', merge_entries l = Ok l' /\ l'.*1 = l.*1 /\
    forall k ms, (k, ms) ∈ l' -> exists ms0, (k, ms0) ∈ l /\ merge_messages ms0 = Ok ms /\ Forall (block_ok info k) ms.
Proof.
  induction l as [|[k ms] l IH]; intros Hl; simpl; [exists []; split_and!; [done..|]; by intros ?? ?%not_elem_of_nil|].
  destruct (merge_messages_ok info valid_size valid_len k ms) as (m & Hm & Hmo & _); [apply Hl; set_solver|].
  destruct IH as (l' & Hl' & Hk & Hin); [intros; apply Hl; set_solver|]. rewrite Hm, Hl'. cbn [mbind outcome_bind].
  eexists. split; [done|]. simpl. split; [by f_equal|]. intros k' ms' [[= -> ->]|Hx]%elem_of_cons; [exists ms; split; [set_solver|done]|].
  destruct (Hin _ _ Hx) as (ms0 & ? & ?). exists ms0. split; [set_solver|done].
Qed.

Lemma merge_pieces_ok st : checker_ok info st ->
  exists st', merge_pieces st = Ok st' /\ checker_ok info st' /\
    old_states st' = old_states st /\ complete_num st' = complete_num st /\ check_num st' = check_num st /\
    dom (pending_blocks st') = dom (pending_blocks st) /\
    forall k, merge_messages (pending_of k st) = Ok (pending_of k st').
Proof.
  intros [Ht Hl Hp]. unfold merge_pieces.
  destruct (merge_entries_ok (map_to_list (pending_blocks st))) as (l & -> & Hk & Hin).
  { intros k ms Hkm. apply elem_of_map_to_list in Hkm. specialize (Hp k). unfold pending_of in Hp. by rewrite Hkm in Hp. }
  cbn [mbind outcome_bind]. eexists. split; [done|]. checker_fields.
  assert (NoDup l.*1) as Hnd by (rewrite Hk; apply NoDup_fst_map_to_list).
  assert (Hdom : forall k, is_Some (pending_blocks st !! k) <-> k ∈ l.*1).
  { intros k. rewrite Hk, list_elem_of_fmap. split.
    - intros [ms Hms]. exists (k, ms). split; [done|]. by apply elem_of_map_to_list.
    - intros ([k' ms] & -> & Hx). apply elem_of_map_to_list in Hx. by exists ms. }
  assert (Hlook : forall k, merge_messages (pending_of k st) = Ok (default [] ((list_to_map l : gmap Z _) !! k)) /\
    Forall (block_ok info k) (default [] ((list_to_map l : gmap Z _) !! k))).
  { intros k. destruct ((list_to_map l : gmap Z _) !! k) as [ms|] eqn:E; simpl.
    - apply elem_of_list_to_map_2 in E. destruct (Hin _ _ E) as (ms0 & H0' & Hm & Hf). apply elem_of_map_to_list in H0'.
      unfold pending_of. by rewrite H0'.
    - apply not_elem_of_list_to_map in E. rewrite <- Hdom in E. apply eq_None_not_Some in E. unfold pending_of. by rewrite E. }
  split_and!; try done; [split; [done..|]; intros k; apply Hlook| |intros k; apply Hlook].
  apply set_eq. intros k. rewrite !elem_of_dom, Hdom, <- not_eq_None_Some, <- not_elem_of_list_to_map.
  destruct (decide (k ∈ l.*1)); tauto.
Qed.

(** ** Complete pieces *)

Lemma pieces_pos : (1 <= Z.of_nat (length (pieces info)))%Z.
Proof. pose proof (tv_pieces _ Hv). pose proof (tv_size _ Hv). pose proof valid_len. nia. Qed.

Lemma last_index_ok : u64_arith (Z.of_nat (length (pieces info)) - 1) = @Ok IoError _ (Z.of_nat (length (pieces info)) - 1)%Z.
Proof.
  apply u64_arith_in. pose proof (tv_pieces _ Hv). pose proof valid_size. pose proof valid_len. pose proof pieces_pos. unfold is_u64 in *. nia.
Qed.

Lemma complete_fuel a b c ms : piece_is_complete a b c ms <> NoFuel.
Proof.
  unfold piece_is_complete. destruct ms; [done|]. pose proof (arith_fuel (E := IoError) is_u64 to_u64 (a - 1)) as Hn. unfold u64_arith.
  by destruct (arith _ _ _).
Qed.

Lemma complete_whole st k ms :
  checker_ok info st -> Forall (block_ok info k) ms ->
  piece_is_complete (total_pieces st) (last_block_size st) (piece_len info) ms = Ok true ->
  exists m, ms = [m] /\ bm_piece_index m = k /\ block_in info m /\ bm_block_offset m = 0%Z /\ bm_block_length m = piece_size info k /\ (0 < piece_size info k)%Z.
Proof.
  intros [-> -> _] Hf. unfold piece_is_complete. destruct ms as [|m others]; [done|]. rewrite last_index_ok. cbn [mbind outcome_bind].
  intros [= Hc]. apply andb_true_iff in Hc as [Ho%bool_decide_eq_true Hc]. subst others. rewrite Forall_singleton in Hf. destruct Hf as [Hi Hk Ho1 Hl He Hemp].
  exists m. pose proof valid_len as Hlen. pose proof (tv_pieces _ Hv) as Hn.
  pose proof (Z.div_mod (torrent_size info) (piece_len info) ltac:(lia)) as Hd. pose proof (Z.mod_pos_bound (torrent_size info) (piece_len info) ltac:(lia)) as Hm.
  assert (bm_block_offset m = 0 /\ bm_block_length m = piece_size info k /\ 0 < piece_size info k)%Z as (? & ? & ?).
  { apply orb_true_iff in Hc as [Hc|Hc]; [apply Z.eqb_eq in Hc; unfold piece_size in *; lia|].
    apply andb_true_iff in Hc as [Hki Hc]. apply Z.eqb_eq in Hki, Hc. rewrite Hi in Hki.
    set (n := (Z.of_nat (length (pieces info)) - 1)%Z) in *. set (q := (torrent_size info / piece_len info)%Z) in *.
    set (r := (torrent_size info mod piece_len info)%Z) in *. subst k. unfold piece_size in *.
    assert (q = n \/ q = n + 1)%Z as [Hq|Hq] by nia; rewrite Hq in Hd; lia. }
  split_and!; try done. split; try lia. unfold block_start, piece_size in *. rewrite Hi. lia.
Qed.

(** What the disk holds of a piece. *)
Definition piece_data (m : gmap Path bytes) (k : Z) (data : bytes) : Prop :=
  Z.of_nat (length data) = piece_size info k /\
  forall j : nat, j < length data -> data !! j = torrent_byte m info (k * piece_len info + Z.of_nat j).

Definition message_ok (m : gmap Path bytes) (msg : ODiskMessage) : Prop :=
  match msg with
  | FoundGoodPiece h k =>
      h = info_hash info /\ exists data, piece_data m k data /\ pieces info !! Z.to_nat k = Some (hash (ShaHash_from_bytes data))
  | FoundBadPiece h k =>
      h = info_hash info /\ exists data, piece_data m k data /\ pieces info !! Z.to_nat k <> Some (hash (ShaHash_from_bytes data))
  | CheckPace h _ => h = info_hash info
  | _ => False
  end.

(** During a check: the bytes on disk stay, and what is sent is right. *)
Record ck_inv (m0 : gmap Path bytes) (out0 : list ODiskMessage) (s : Checking F) : Prop := {
  ci_fs : fs_ok (ck_fs s);
  ci_view : same_bytes m0 (view (ck_fs s));
  ci_state : checker_ok info (ck_state s);
  ci_sent : exists msgs, sent (ck_out s) = out0 ++ msgs /\ Forall (message_ok m0) msgs;
}.

Ltac ck_fields := cbv [update_field up_ck_fs up_ck_state up_ck_out up_ck_buffer];
  cbn [ck_fs ck_state ck_out ck_buffer].

Lemma ck_inv_state m0 out0 s st : ck_inv m0 out0 s -> checker_ok info st -> ck_inv m0 out0 (s <| ck_state := st |>).
Proof. intros [? ? ? ?] Hst. by split. Qed.

Lemma ck_inv_buffer m0 out0 s b : ck_inv m0 out0 s -> ck_inv m0 out0 (s <| ck_buffer := b |>).
Proof. intros [? ? ? ?]. by split. Qed.

Lemma ck_send_ok m0 out0 msg s : ck_inv m0 out0 s -> message_ok m0 msg ->
  always (ck_inv m0 out0) (ck_send msg) (fun _ s' => ck_inv m0 out0 s' /\ ck_state s' = ck_state s /\ ck_buffer s' = ck_buffer s) s.
Proof.
  intros [Hf Hvw Hst (msgs & Hs & Hm)] Hmsg. unfold always, ck_send, channel_send. destruct (listening (ck_out s)); [|by split; eauto].
  split; [|by ck_fields]. split; ck_fields; [done..|]. simpl. exists (msgs ++ [msg]). rewrite Hs, app_assoc. split; [done|].
  apply Forall_app. split; [done|by apply Forall_singleton].
Qed.

Lemma ck_read_ok m0 out0 message s : ck_inv m0 out0 s -> block_in info message ->
  (bm_block_length message <= piece_len info)%Z -> length (ck_buffer s) = Z.to_nat (piece_len info) ->
  always (ck_inv m0 out0) (ck_read info message) (fun data s' => ck_inv m0 out0 s' /\ ck_state s' = ck_state s /\ length (ck_buffer s') = length (ck_buffer s) /\
    Z.of_nat (length data) = bm_block_length message /\
    forall j : nat, j < length data -> data !! j = torrent_byte m0 info (block_start info message + Z.of_nat j)) s.
Proof.
  intros Hi Hb Hl Hbuf. pose proof (bi_length _ _ Hb). unfold ck_read. apply always_gets. apply always_lift; [done|by rewrite slice_in by lia|].
  intros part Hp. rewrite slice_in in Hp by lia. injection Hp as <-. rewrite drop_0, Nat.sub_0_r.
  set (n := Z.to_nat (bm_block_length message)). assert (length (take n (ck_buffer s)) = n) as Hn by (rewrite length_take; lia).
  destruct (read_piece_spec info message (ck_fs s) (take n (ck_buffer s)) (tv_ok _ Hv) Hb (ci_fs _ _ _ Hi)) as (r & fs' & part' & Hx & [Hf' _] & Hvw & Hlen & Hr).
  unfold always, mbind, St_bind. rewrite Hx. assert (ck_inv m0 out0 (s <| ck_fs := fs' |> <| ck_buffer := part' ++ drop (length part') (ck_buffer s) |>)) as Hi'.
  { destruct Hi as [? ? ? ?]. split; ck_fields; [done|by etrans|done..]. }
  destruct r; try done. unfold gets. ck_fields. split; [done|]. rewrite take_app_length' by lia. split_and!; [done| |lia|].
  - rewrite length_app, length_drop. lia.
  - intros j Hj. rewrite Hr, bool_decide_eq_true_2 by lia. unfold torrent_byte. rewrite (files_byte_same _ m0); [done|apply Hi].
Qed.

(** In the loop, the buffer has the length of a piece. *)
Definition ck_loop m0 out0 (s : Checking F) : Prop := ck_inv m0 out0 s /\ length (ck_buffer s) = Z.to_nat (piece_len info).

Lemma ck_loop_state m0 out0 s st : ck_loop m0 out0 s -> checker_ok info st -> ck_loop m0 out0 (s <| ck_state := st |>).
Proof. intros [? ?] ?. split; [by apply ck_inv_state|done]. Qed.

Lemma ck_loop_send m0 out0 msg s : ck_loop m0 out0 s -> message_ok m0 msg ->
  always (ck_inv m0 out0) (ck_send msg) (fun _ => ck_loop m0 out0) s.
Proof.
  intros [Hi Hb] Hm. pose proof (ck_send_ok m0 out0 msg s Hi Hm) as Hs. unfold always in *. destruct (ck_send msg s) as [[[]| | |] s']; try done.
  destruct Hs as (? & _ & Hb'). split; [done|]. by rewrite Hb'.
Qed.

Lemma from_hash_Ok (bs : bytes) h : from_hash bs = Ok h -> h = {| hash := bs |}.
Proof. unfold from_hash. case_match; [done|]. by intros [= <-]. Qed.

(** Only the counters and the list of states change. *)
Lemma checker_ok_counts st st' : checker_ok info st ->
  total_pieces st' = total_pieces st -> last_block_size st' = last_block_size st -> pending_blocks st' = pending_blocks st ->
  checker_ok info st'.
Proof. intros [Ht Hl Hp] E1 E2 E3. split; [congruence..|]. intros k. unfold pending_of. rewrite E3. apply Hp. Qed.

(** The verdict on the data of a piece. *)
Lemma verdict_ok m0 out0 k data expected s : ck_loop m0 out0 s -> piece_data m0 k data -> pieces info !! Z.to_nat k = Some expected ->
  always (ck_inv m0 out0)
    (if bool_decide (ShaHash_from_bytes data = {| hash := expected |}) then
       n ← gets (fun s => complete_num (ck_state s));
       n ← lift (u64_arith (n + 1));
       _ ← modify (fun s => s <| ck_state := ck_state s <| new_states := new_states (ck_state s) ++ [Good k] |> <| complete_num := n |> |>);
       ck_send (FoundGoodPiece (info_hash info) k)
     else
       _ ← modify (fun s => s <| ck_state := ck_state s <| new_states := new_states (ck_state s) ++ [Bad k] |> |>);
       ck_send (FoundBadPiece (info_hash info) k)) (fun _ => ck_loop m0 out0) s.
Proof.
  intros Hs Hd Hp. pose proof (proj1 Hs) as Hi. case_bool_decide as Hh.
  - apply always_gets, always_lift; [done|apply arith_fuel|]. intros n _. apply always_modify, ck_loop_send.
    + apply ck_loop_state; [done|]. by eapply checker_ok_counts; [apply Hi|..].
    + split; [done|]. exists data. split; [done|]. by rewrite Hp, Hh.
  - apply always_modify, ck_loop_send.
    + apply ck_loop_state; [done|]. by eapply checker_ok_counts; [apply Hi|..].
    + split; [done|]. exists data. split; [done|]. rewrite Hp. intros [= He]. apply Hh. by rewrite He.
Qed.

Lemma check_piece_ok m0 out0 k message s :
  ck_loop m0 out0 s -> bm_piece_index message = k -> block_in info message -> bm_block_offset message = 0%Z ->
  bm_block_length message = piece_size info k ->
  always (ck_inv m0 out0) (check_piece info k message) (fun _ => ck_loop m0 out0) s.
Proof.
  intros [Hi Hb] Hk Hin Ho Hl. unfold check_piece. eapply always_bind.
  { apply ck_read_ok; [done..|unfold piece_size in Hl; lia|done]. }
  intros data s1 (Hi1 & _ & Hb1 & Hlen & Hdata). rewrite Hk.
  assert (piece_data m0 k data) as Hpd.
  { split; [lia|]. intros j Hj. rewrite Hdata by done. unfold block_start. rewrite Hk, Ho, Z.add_0_r. done. }
  apply always_lift; [done|unfold opt_unwrap; by destruct (_ !! _)|]. intros expected He.
  assert (pieces info !! Z.to_nat k = Some expected) as Hp by (unfold opt_unwrap in He; destruct (_ !! _); [by injection He as ->|done]).
  apply always_lift; [done|unfold from_hash; by destruct (negb _)|]. intros eh Heh. apply (unwrap_Ok (F := IoError)), from_hash_Ok in Heh as ->.
  eapply always_bind; [apply verdict_ok; [|done..]; split; [done|lia]|]. intros [] s2 Hs2. pose proof (proj1 Hs2) as Hi2.
  apply always_gets, always_lift; [done|apply arith_fuel|]. intros n _. apply always_modify, always_gets.
  eapply always_bind; [apply ck_loop_send; [|done]; apply ck_loop_state; [done|]; by eapply checker_ok_counts; [apply Hi2|..]|].
  intros [] s3 Hs3. apply ck_loop_state; [done|]. apply checker_ok_pending; [apply Hs3|done].
Qed.

Lemma check_entry_ok m0 out0 k s : ck_loop m0 out0 s -> always (ck_inv m0 out0) (check_entry info k) (fun _ => ck_loop m0 out0) s.
Proof.
  intros Hs. pose proof (proj1 Hs) as Hi. pose proof (ci_state _ _ _ Hi) as Hc. unfold check_entry. unfold always. rewrite bind_get_run. cbv zeta.
  fold (always (ck_inv m0 out0) (lift (piece_is_complete (total_pieces (ck_state s)) (last_block_size (ck_state s)) (piece_len info) (pending_of k (ck_state s))) ≫=
    fun complete => match pending_of k (ck_state s) with
      | message :: _ => if complete && negb (bool_decide (Good (bm_piece_index message) ∈ old_states (ck_state s))) then check_piece info k message else mret tt
      | [] => mret tt end) (fun _ => ck_loop m0 out0) s).
  apply always_lift; [done|apply complete_fuel|]. intros complete Hcomp. destruct (pending_of k (ck_state s)) as [|message others] eqn:Hp; [done|].
  destruct complete; [|done]. destruct (negb _); [|done]. simpl.
  destruct (complete_whole (ck_state s) k (message :: others)) as (m & [= -> ->] & ? & ? & ? & ? & ?); [done|rewrite <- Hp; apply Hc|done|].
  by apply check_piece_ok.
Qed.

(** A check of the pending pieces, however it ends: nothing on disk changes, and
    each piece that is reported has been read whole and compared. *)
Lemma run_with_whole_pieces_ok order m0 out0 s : ck_inv m0 out0 s ->
  always (ck_inv m0 out0) (run_with_whole_pieces order info) (fun _ => ck_inv m0 out0) s.
Proof.
  intros Hi. unfold run_with_whole_pieces. apply always_gets. destruct (merge_pieces_ok (ck_state s)) as (st & -> & Hst & _); [apply Hi|].
  apply always_lift; [done..|]. intros ? [= <-]. apply always_modify. rewrite (proj2 (Z.leb_gt _ _)) by apply Hv. apply always_modify.
  eapply always_bind; [apply (always_for_each _ (ck_loop m0 out0)); [intros; by apply check_entry_ok|]|].
  - split; [by apply ck_inv_buffer, ck_inv_state|]. ck_fields. by rewrite length_replicate.
  - intros _ s' [Hi' _]. unfold always, modify. case_match; [|done]. apply ck_inv_state; [done|]. by eapply checker_ok_counts; [apply Hi'|..].
Qed.
End Checker.
