(* ===== verification/DiskDownload.v ===== *)
(** DiskDownload: a piece that is stored block by block is found good.

    On a file system that works, the blocks of a piece, processed in any order and
    with repetitions, are on disk afterwards, and the next check reports the
    piece. *)

From stdpp Require Import base list gmap sorting.
From Stdlib Require Import ZArith Lia.
From Stdlib Require String.
From S2P Require Import Prelude Effects Float ShaHash Metainfo FileSystem FileSystemCorrect Timer Disk DhtToken DiskAccess DiskChecker.
Import String.StringSyntax.

Definition u64_bound : Z := 18446744073709551616.

Section Download.
Context {F H : Type} `{FileSystemSteady F H} `{Profile} `{Sha1}.
Variable info : Info.
Hypothesis Hv : torrent_valid info.
Hypothesis Hhash : Forall (fun p => length p = SHA_HASH_LEN) (pieces info).
Hypothesis Hfiles : Forall (file_ok (file_directory info)) (files info).

(** ** A check on a file system that works *)

(** [a] and [b] are how much more the counters can count. *)
Record ck_steady (a b : Z) (m0 : gmap Path bytes) (s : Checking F) : Prop := {
  cs_fs : fs_ok (ck_fs s);
  cs_steady : steady (ck_fs s);
  cs_view : view (ck_fs s) = m0;
  cs_state : checker_ok info (ck_state s);
  cs_listening : listening (ck_out s) = true;
  cs_complete : (0 <= complete_num (ck_state s) /\ complete_num (ck_state s) + a < u64_bound)%Z;
  cs_check : (0 <= check_num (ck_state s) /\ check_num (ck_state s) + b < u64_bound)%Z;
  cs_buffer : length (ck_buffer s) = Z.to_nat (piece_len info);
}.

(** What a step may change of the checker: the pending blocks of [k]; messages are
    added. *)
Definition grows (k : Z) (s s' : Checking F) : Prop :=
  old_states (ck_state s') = old_states (ck_state s) /\
  (forall j, j <> k -> pending_of j (ck_state s') = pending_of j (ck_state s)) /\
  sent (ck_out s) ⊆ sent (ck_out s').

Lemma piece_data_unique m k d d' : piece_data info m k d -> piece_data info m k d' -> d = d'.
Proof.
  intros [Hl Hd] [Hl' Hd']. apply list_eq_same_length with (length d'); [done|lia|]. intros j x y Hj Hx Hy.
  rewrite Hd in Hx by lia. rewrite Hd' in Hy by lia. congruence.
Qed.

Lemma ck_read_steady a b m0 message s : ck_steady a b m0 s -> Forall (allocated (file_directory info) m0) (files info) ->
  block_in info message -> (bm_block_length message <= piece_len info)%Z ->
  exists data fs' buf', ck_read info message s = (Ok data, s <| ck_fs := fs' |> <| ck_buffer := buf' |>) /\
    fs_ok fs' /\ steady fs' /\ view fs' = m0 /\ length buf' = length (ck_buffer s) /\
    Z.of_nat (length data) = bm_block_length message /\
    forall j : nat, j < length data -> data !! j = torrent_byte m0 info (block_start info message + Z.of_nat j).
Proof.
  intros [Hf Hs Hvw _ _ _ _ Hb] Hal Hin Hl. pose proof (bi_length _ _ Hin). unfold ck_read, mbind, St_bind, gets, lift.
  rewrite slice_in by lia. rewrite drop_0, Nat.sub_0_r. set (w := Z.to_nat (bm_block_length message)).
  assert (length (take w (ck_buffer s)) = w) as Hw by (rewrite length_take; lia).
  destruct (read_piece_steady info message (ck_fs s) (take w (ck_buffer s))) as (fs' & part & -> & Hf' & Hs' & Hv' & Hlp & Hd);
    [apply Hv|done..|by rewrite Hvw|lia|].
  eexists _, fs', (part ++ drop (length part) (ck_buffer s)). split; [done|]. cbn [ck_buffer update_field up_ck_fs up_ck_buffer].
  rewrite take_app_length' by lia. split; [done|]. split; [done|]. split; [congruence|].
  split; [|split; [lia|]].
  - rewrite length_app, length_drop. lia.
  - intros j Hj. rewrite Hd, Hvw by lia. done.
Qed.

(** The piece exists in the list of hashes. *)
Lemma piece_listed k : (0 <= k)%Z -> (0 < piece_size info k)%Z ->
  exists p, pieces info !! Z.to_nat k = Some p /\ from_hash p = Ok {| hash := p |}.
Proof.
  intros Hk Hs. pose proof (tv_pieces _ Hv). pose proof (valid_len _ Hv). unfold piece_size in Hs.
  destruct (lookup_lt_is_Some_2 (pieces info) (Z.to_nat k)) as [p Hp]; [nia|]. exists p. split; [done|].
  unfold from_hash. rewrite (Forall_lookup_1 _ _ _ _ Hhash Hp). done.
Qed.

Ltac disk_fields := cbv [update_field up_ck_fs up_ck_state up_ck_out up_ck_buffer up_new_states up_old_states up_pending_blocks up_is_complete up_complete_num up_check_num];
  cbn [ck_fs ck_state ck_out ck_buffer new_states old_states pending_blocks total_pieces last_block_size is_complete complete_num check_num].

Lemma send_steady a b m0 k msg s : ck_steady a b m0 s ->
  safe False (ck_send msg) (fun _ s' => ck_steady a b m0 s' /\ grows k s s' /\ ck_state s' = ck_state s /\ msg ∈ sent (ck_out s')) s.
Proof.
  intros [? ? ? ? Hls ? ? ?]. unfold safe, ck_send, channel_send. rewrite Hls.
  split; [by split|]. split; [split_and!; [done..|]|split; [done|]]; simpl; set_solver.
Qed.

Lemma grows_trans k s1 s2 s3 : grows k s1 s2 -> grows k s2 s3 -> grows k s1 s3.
Proof. intros (A1 & B1 & C1) (A2 & B2 & C2). split_and!; [congruence| |set_solver]. intros j Hj. by rewrite B2, B1. Qed.

Lemma grows_same k s s' : old_states (ck_state s') = old_states (ck_state s) -> pending_blocks (ck_state s') = pending_blocks (ck_state s) ->
  ck_out s' = ck_out s -> grows k s s'.
Proof. intros Ho Hp Hs. unfold grows, pending_of. rewrite Ho, Hp, Hs. done. Qed.

Lemma count_in z : (0 <= z)%Z -> (z + 1 < u64_bound)%Z -> @u64_arith _ IoError (z + 1) = Ok (z + 1)%Z.
Proof. intros ? ?. apply u64_arith_in. unfold is_u64, u64_bound in *. lia. Qed.

Lemma verdict_steady a b m0 k data expected s : ck_steady (a + 1) b m0 s -> (0 <= a)%Z ->
  safe False
    (if bool_decide (ShaHash_from_bytes data = {| hash := expected |}) then
       n ← gets (fun s => complete_num (ck_state s));
       n ← lift (u64_arith (n + 1));
       _ ← modify (fun s => s <| ck_state := ck_state s <| new_states := new_states (ck_state s) ++ [Good k] |> <| complete_num := n |> |>);
       ck_send (FoundGoodPiece (info_hash info) k)
     else
       _ ← modify (fun s => s <| ck_state := ck_state s <| new_states := new_states (ck_state s) ++ [Bad k] |> |>);
       ck_send (FoundBadPiece (info_hash info) k))
    (fun _ s' => ck_steady a b m0 s' /\ grows k s s' /\ pending_of k (ck_state s') = pending_of k (ck_state s) /\
       (hash (ShaHash_from_bytes data) = expected -> FoundGoodPiece (info_hash info) k ∈ sent (ck_out s'))) s.
Proof.
  intros [? ? ? Hst ? Hco Hch ?] Ha. case_bool_decide as Hh.
  - unfold gets. eapply safe_bind. cbv [safe]. eapply safe_lift_bind; [apply count_in; lia|]. apply safe_modify_bind.
    eapply safe_mono; [eapply (send_steady a b m0 k)|done|].
    + split; disk_fields; try done; [by eapply checker_ok_counts|lia].
    + intros [] s' (Hs' & Hg & Hck & Hm). split_and!; [done| |by rewrite Hck|done]. eapply grows_trans; [|exact Hg]. by apply grows_same.
  - apply safe_modify_bind. eapply safe_mono; [eapply (send_steady a b m0 k)|done|].
    + split; disk_fields; try done; [by eapply checker_ok_counts|lia].
    + intros [] s' (Hs' & Hg & Hck & Hm). split_and!; [done| |by rewrite Hck|].
      * eapply grows_trans; [|exact Hg]. by apply grows_same.
      * intros He. destruct Hh. rewrite <- He. by destruct (ShaHash_from_bytes data).
Qed.

(** A whole piece is read and judged. *)
Lemma check_piece_steady a m0 k message s : ck_steady (a + 1) (a + 1) m0 s -> (0 <= a)%Z -> Forall (allocated (file_directory info) m0) (files info) ->
  bm_piece_index message = k -> block_in info message -> bm_block_offset message = 0%Z -> bm_block_length message = piece_size info k ->
  (0 < piece_size info k)%Z ->
  safe False (check_piece info k message) (fun _ s' => ck_steady a a m0 s' /\ grows k s s' /\
    forall data, piece_data info m0 k data -> pieces info !! Z.to_nat k = Some (hash (ShaHash_from_bytes data)) ->
      FoundGoodPiece (info_hash info) k ∈ sent (ck_out s')) s.
Proof.
  intros Hs Ha Hal Hk Hin Ho Hl Hpos. destruct (ck_read_steady _ _ m0 message s Hs Hal Hin) as (data & fs' & buf' & Hr & Hf' & Hs' & Hv' & Hb' & Hlen & Hd);
    [unfold piece_size in Hl; lia|].
  destruct (piece_listed k) as (expected & He & Hfh); [rewrite <- Hk; apply Hin|done|].
  assert (piece_data info m0 k data) as Hpd.
  { split; [lia|]. intros j Hj. rewrite Hd by done. unfold block_start. rewrite Hk, Ho, Z.add_0_r. done. }
  unfold check_piece. rewrite Hk. eapply safe_bind. unfold safe at 1. rewrite Hr.
  eapply safe_lift_bind; [by rewrite He|]. eapply safe_unwrap_bind; [exact Hfh|].
  set (s1 := s <| ck_fs := fs' |> <| ck_buffer := buf' |>). assert (ck_steady (a + 1) (a + 1) m0 s1) as Hs1.
  { destruct Hs. unfold s1. split; disk_fields; try done. lia. }
  eapply safe_call; [by apply verdict_steady|]. intros [] s2 ([? ? ? ? ? Hco Hch ?] & Hg2 & Hp2 & Hm2). unfold gets. eapply safe_bind. cbv [safe].
  eapply safe_lift_bind; [apply count_in; lia|]. apply safe_modify_bind. eapply safe_bind. cbv [safe].
  eapply safe_call; [apply (send_steady a a m0 k); split; disk_fields; try done; [by eapply checker_ok_counts|lia]|].
  intros [] s3 (Hs3 & Hg3 & Hck3 & _). apply safe_modify. split; [|split].
  - destruct Hs3. split; disk_fields; try done. by apply checker_ok_pending.
  - eapply grows_trans; [|eapply grows_trans; [exact Hg2|eapply grows_trans; [|eapply grows_trans; [exact Hg3|]]]]; try by apply grows_same.
    split_and!; disk_fields; [done| |done]. intros j Hj. unfold pending_of. disk_fields. by rewrite lookup_insert_ne.
  - intros data' Hd' Hp'. rewrite <- (piece_data_unique _ _ _ _ Hpd Hd') in Hp'. disk_fields.
    apply Hg3. disk_fields. apply Hm2. congruence.
Qed.

Lemma ck_steady_less a m0 s : ck_steady (a + 1) (a + 1) m0 s -> ck_steady a a m0 s.
Proof. intros []. split; try done; lia. Qed.

(** The piece [k] is pending as one block, its bytes have the right hash, and it
    was not found good before. *)
Definition ready (m0 : gmap Path bytes) (k : Z) (s : Checking F) : Prop :=
  (exists m, pending_of k (ck_state s) = [m] /\ bm_block_length m = piece_size info k) /\
  Good k ∉ old_states (ck_state s) /\
  exists data, piece_data info m0 k data /\ pieces info !! Z.to_nat k = Some (hash (ShaHash_from_bytes data)).

Lemma complete_whole_length st k m : checker_ok info st -> block_ok info k m -> bm_block_length m = piece_size info k -> (0 < piece_size info k)%Z ->
  piece_is_complete (total_pieces st) (last_block_size st) (piece_len info) [m] = Ok true.
Proof.
  intros [-> -> _] [Hi Hk _ _ _ _] Hl Hpos. unfold piece_is_complete. rewrite (last_index_ok _ Hv). cbn [mbind outcome_bind]. do 2 f_equal.
  pose proof (valid_len _ Hv). pose proof (tv_pieces _ Hv). rewrite Hl, Hi. unfold piece_size in *.
  destruct (decide (torrent_size info - k * piece_len info < piece_len info)%Z) as [Hlt|].
  - apply orb_true_iff. right. apply andb_true_iff. rewrite !Z.eqb_eq. split; [nia|]. rewrite Z.min_r by lia.
    replace (torrent_size info) with (k * piece_len info + (torrent_size info - k * piece_len info))%Z at 2 by lia.
    rewrite Z.add_comm, Z_mod_plus_full. symmetry. apply Z.mod_small. lia.
  - apply orb_true_iff. left. rewrite Z.eqb_eq. lia.
Qed.

Lemma entry_steady a m0 k s : ck_steady (a + 1) (a + 1) m0 s -> (0 <= a)%Z -> Forall (allocated (file_directory info) m0) (files info) ->
  safe False (check_entry info k) (fun _ s' => ck_steady a a m0 s' /\ grows k s s' /\
    ((0 < piece_size info k)%Z -> ready m0 k s -> FoundGoodPiece (info_hash info) k ∈ sent (ck_out s'))) s.
Proof.
  intros Hs Ha Hal. pose proof (cs_state _ _ _ _ Hs) as Hc. unfold check_entry. apply safe_get_bind. cbv zeta.
  assert (exists b, piece_is_complete (total_pieces (ck_state s)) (last_block_size (ck_state s)) (piece_len info) (pending_of k (ck_state s)) = Ok b) as [b Hb].
  { unfold piece_is_complete. destruct (pending_of _ _); [by exists false|]. rewrite (co_total _ _ Hc), (last_index_ok _ Hv). by eexists. }
  rewrite Hb. eapply safe_lift_bind; [done|].
  assert ((0 < piece_size info k)%Z -> ready m0 k s -> b = true) as Hready.
  { intros Hpos ((m & Hp & Hl) & _). pose proof (co_pending _ _ Hc k) as Hf. rewrite Hp in Hf, Hb. rewrite Forall_singleton in Hf.
    rewrite (complete_whole_length _ k) in Hb by done. by injection Hb. }
  destruct (pending_of k (ck_state s)) as [|message others] eqn:Hp.
  { apply safe_ret. split; [by apply ck_steady_less|]. split; [by apply grows_same|]. intros _ ((m & Hp' & _) & _). congruence. }
  destruct b; [|apply safe_ret; split; [by apply ck_steady_less|]; split; [by apply grows_same|]; intros Hpos Hr; by apply Hready in Hr].
  destruct (complete_whole _ Hv (ck_state s) k (message :: others)) as (m & [= -> ->] & Hi & ? & ? & ? & ?); [done|rewrite <- Hp; apply Hc|done|].
  rewrite Hi. case_bool_decide as Hold; simpl.
  - apply safe_ret. split; [by apply ck_steady_less|]. split; [by apply grows_same|]. intros _ (_ & Hn & _). done.
  - eapply safe_mono; [by apply check_piece_steady|done|]. intros [] s' (? & ? & Hg). split_and!; [done..|].
    intros _ (_ & _ & data & Hd & Hpc). by eapply Hg.
Qed.

Lemma loop_steady m0 k order s : ck_steady (Z.of_nat (length order)) (Z.of_nat (length order)) m0 s ->
  Forall (allocated (file_directory info) m0) (files info) ->
  safe False (for_each order (check_entry info)) (fun _ s' => ck_steady 0 0 m0 s' /\ sent (ck_out s) ⊆ sent (ck_out s') /\
    ((0 < piece_size info k)%Z -> ready m0 k s -> k ∈ order -> FoundGoodPiece (info_hash info) k ∈ sent (ck_out s'))) s.
Proof.
  intros Hs Hal. revert s Hs. induction order as [|k' order IH]; intros s Hs.
  { apply safe_ret. split_and!; [done..|]. by intros _ _ ?%not_elem_of_nil. }
  cbn [for_each length] in *. replace (Z.of_nat (S (length order))) with (Z.of_nat (length order) + 1)%Z in Hs by lia.
  eapply safe_call; [apply entry_steady; [done|lia|done]|]. intros [] s1 (Hs1 & (Hold & Hpend & Hsent) & Hg).
  eapply safe_mono; [by apply IH|done|]. intros [] s2 (Hs2 & Hsent2 & Hg2). split_and!; [done|set_solver|].
  intros Hpos Hr Hk. destruct (decide (k = k')) as [->|Hne]; [by apply Hsent2, Hg|].
  apply Hg2; [done| |set_solver]. destruct Hr as (Hm & Hn & Hd). split_and!; [by rewrite Hpend|by rewrite Hold|done].
Qed.

(** The check of a piece that is pending as one block. *)
Lemma whole_pieces_steady m0 k order s :
  ck_steady (Z.of_nat (length order)) (Z.of_nat (length order)) m0 (s <| ck_buffer := replicate (Z.to_nat (piece_len info)) 0%Z |>) ->
  Forall (allocated (file_directory info) m0) (files info) ->
  (exists m, merge_messages (pending_of k (ck_state s)) = Ok [m] /\ bm_block_length m = piece_size info k) ->
  Good k ∉ old_states (ck_state s) -> (0 < piece_size info k)%Z -> k ∈ order ->
  (exists data, piece_data info m0 k data /\ pieces info !! Z.to_nat k = Some (hash (ShaHash_from_bytes data))) ->
  safe False (run_with_whole_pieces order info) (fun _ s' => ck_steady 0 0 m0 s' /\ FoundGoodPiece (info_hash info) k ∈ sent (ck_out s')) s.
Proof.
  intros [? ? ? Hst ? Hco Hch ?] Hal (m & Hm & Hl) Hold Hpos Hk Hd. unfold run_with_whole_pieces, gets. eapply safe_bind. cbv [safe].
  destruct (merge_pieces_ok info Hv (ck_state s) Hst) as (st & Hmp & Hst' & E1 & E2 & E3 & _ & Hpend).
  eapply safe_lift_bind; [exact Hmp|]. apply safe_modify_bind. rewrite (proj2 (Z.leb_gt _ _)) by apply Hv. apply safe_modify_bind.
  eapply safe_call; [apply (loop_steady m0 k)|].
  - split; disk_fields; try done; rewrite ?E2, ?E3; done.
  - done.
  - intros [] s' (Hs' & _ & Hg). apply safe_modify. assert (FoundGoodPiece (info_hash info) k ∈ sent (ck_out s')) as Hgood.
    { apply Hg; [done| |done]. split_and!; disk_fields; [|by rewrite E1|done]. exists m. split; [|done]. specialize (Hpend k). rewrite Hm in Hpend.
      by injection Hpend. }
    case_match; [|done]. split; [|done]. destruct Hs'. split; disk_fields; try done. by eapply checker_ok_counts.
Qed.

(** ** Storing the blocks of a piece *)

(** A task from its first section to its end. *)
Definition run_whole (order : list Z) (j : Job) : io (Shared F) unit :=
  o ← run_job order j;
  match o with
  | Some j => _ ← run_job order j; mret tt
  | None => mret tt
  end.

Variable file : Metainfo.
Hypothesis Hfile : Metainfo.info file = info.
Variables (k : Z) (data : bytes).
Hypothesis Hlen : Z.of_nat (length data) = piece_size info k.

(** A block of the piece with its part of the data. *)
Record part_of (b : Block) : Prop := {
  po_hash : bm_info_hash (b_metadata b) = info_hash info;
  po_block : block_ok info k (b_metadata b);
  po_data : b_data b = take (Z.to_nat (bm_block_length (b_metadata b))) (drop (Z.to_nat (bm_block_offset (b_metadata b))) data);
}.

(** The blocks [done] were stored; the checker can count [n] more pieces. *)
Record downloading (n : Z) (done : list Block) (st : PieceStateChecker) (s : Shared F) : Prop := {
  dl_context : torrent_contexts s !! info_hash info = Some {| ms_file := file; ms_state := st; ms_poisoned := false |};
  dl_checker : checker_ok info st;
  dl_pending : pending_of k st = b_metadata <$> done;
  dl_old : Good k ∉ old_states st;
  dl_complete : (0 <= complete_num st /\ complete_num st + n < u64_bound)%Z;
  dl_check : (0 <= check_num st /\ check_num st + n < u64_bound)%Z;
  dl_fs : fs_ok (sh_fs s);
  dl_steady : steady (sh_fs s);
  dl_allocated : Forall (allocated (file_directory info) (view (sh_fs s))) (files info);
  dl_out : listening (sh_out s) = true;
  dl_commands : listening (sh_commands s) = true;
  dl_bytes : forall j : nat, covered (b_metadata <$> done) (Z.of_nat j) ->
    torrent_byte (view (sh_fs s)) info (k * piece_len info + Z.of_nat j) = data !! j;
}.

Lemma part_block_in b : part_of b -> block_in info (b_metadata b).
Proof.
  intros [_ [Hi ? ? ? ? ?] _]. pose proof (valid_len _ Hv). split; [lia..|]. unfold block_start, piece_size in *. lia.
Qed.

Lemma part_length b : part_of b -> Z.of_nat (length (b_data b)) = bm_block_length (b_metadata b).
Proof. intros [_ [_ _ ? ? ? _] ->]. rewrite length_take, length_drop. lia. Qed.

(** The bytes after a block was written. *)
Lemma bytes_written b m m' ms : part_of b ->
  kept (file_directory info) (block_start info (b_metadata b)) (block_start info (b_metadata b) + bm_block_length (b_metadata b)) (files info) m m' ->
  (forall j : nat, (Z.of_nat j < bm_block_length (b_metadata b))%Z ->
     torrent_byte m' info (block_start info (b_metadata b) + Z.of_nat j) = b_data b !! j) ->
  (forall j : nat, covered ms (Z.of_nat j) -> torrent_byte m info (k * piece_len info + Z.of_nat j) = data !! j) ->
  Forall (block_ok info k) ms ->
  forall j : nat, covered (ms ++ [b_metadata b]) (Z.of_nat j) -> torrent_byte m' info (k * piece_len info + Z.of_nat j) = data !! j.
Proof.
  intros Hb (Hk & _) Hw Hm Hms j Hj. destruct (po_block _ Hb) as [Hi Hk0 Ho Hl He _]. pose proof (valid_len _ Hv).
  destruct (decide (bm_block_offset (b_metadata b) <= Z.of_nat j < bm_block_offset (b_metadata b) + bm_block_length (b_metadata b))%Z) as [Hin|Hout].
  - specialize (Hw (j - Z.to_nat (bm_block_offset (b_metadata b))) ltac:(lia)). unfold block_start in Hw. rewrite Hi in Hw.
    replace (k * piece_len info + Z.of_nat j)%Z with (k * piece_len info + bm_block_offset (b_metadata b) + Z.of_nat (j - Z.to_nat (bm_block_offset (b_metadata b))))%Z by lia.
    rewrite Hw, (po_data _ Hb), lookup_take_lt, lookup_drop by lia. f_equal. lia.
  - assert (covered ms (Z.of_nat j)) as Hc.
    { destruct Hj as (m0 & Hin & Hr). apply elem_of_app in Hin as [Hin|Hin%list_elem_of_singleton]; [by exists m0|]. subst. lia. }
    destruct Hc as (m0 & Hin & Hr). rewrite Forall_forall in Hms. destruct (Hms _ Hin) as [_ _ ? ? ? _].
    destruct (lookup_lt_is_Some_2 data j ltac:(lia)) as [x Hx]. rewrite Hx. apply Hk; [nia|unfold block_start; rewrite Hi; lia|].
    rewrite <- Hx. apply Hm. by exists m0.
Qed.

Ltac shared_fields := cbv [update_field up_torrent_contexts up_sh_fs up_sh_out up_sh_commands];
  cbn [torrent_contexts sh_fs sh_out sh_commands].

(** A section under a lock that can be taken. *)
Lemma use_steady {A} (call : Metainfo -> PieceStateChecker -> io (Shared F) A) st (s : Shared F) Q :
  torrent_contexts s !! info_hash info = Some {| ms_file := file; ms_state := st; ms_poisoned := false |} -> safe False (call file st) (fun a => Q (Some a)) s ->
  safe False (use_torrent_context (info_hash info) call) Q s.
Proof.
  intros Hs Hc. unfold safe, use_torrent_context. rewrite Hs. cbn [ms_poisoned ms_file ms_state]. unfold fmap, St_fmap, mbind, St_bind.
  unfold safe in Hc. by destruct (call file st s) as [[a|e| |] s'].
Qed.

Lemma update_steady {A} (call : Metainfo -> io (Checking F) A) n done st s Q :
  downloading n done st s ->
  safe False (call file) (fun a c => Q (Some a) (s <| sh_fs := ck_fs c |> <| sh_out := ck_out c |>
      <| torrent_contexts := <[info_hash info := {| ms_file := file; ms_state := ck_state c; ms_poisoned := false |}]> (torrent_contexts s) |>))
    {| ck_fs := sh_fs s; ck_state := st; ck_out := sh_out s; ck_buffer := [] |} ->
  safe False (update_torrent_context (info_hash info) call) Q s.
Proof.
  intros Hs Hc. unfold safe, update_torrent_context. rewrite (dl_context _ _ _ _ Hs). cbn [ms_poisoned ms_file ms_state].
  unfold safe in Hc. by destruct (call file _) as [[a|e| |] c].
Qed.

Lemma process_steady n done st b s : downloading n done st s -> part_of b ->
  safe False (run_whole [] (JProcess b)) (fun _ s' => downloading n (done ++ [b]) (add_pending_block (b_metadata b) st) s') s.
Proof.
  intros Hs Hb. pose proof (part_block_in _ Hb) as Hin. pose proof (part_length _ Hb) as Hl. pose proof Hs as [Hctx Hck Hpe Hold Hco Hch Hf Hst Hal Hout Hcm Hby].
  destruct (write_piece_spec info (b_metadata b) (b_data b) (sh_fs s) (tv_ok _ Hv) Hin Hf) as (r & fs' & Hw & [Hf' _] & Hk & Hr).
  destruct (write_piece_steady info (b_metadata b) (b_data b) (sh_fs s)) as (fs2 & Hw2 & Hst2); [apply Hv|done..|lia|].
  rewrite Hw2 in Hw. injection Hw as <- <-.
  set (s1 := s <| sh_fs := fs2 |>). unfold run_whole. cbn [run_job]. unfold execute_process_block.
  apply (safe_call False _ _ (fun o s' => o = Some (JProcessed b true) /\ s' = s1)).
  - apply (safe_call False _ _ (fun o s' => o = Some true /\ s' = s1)); [|by intros o s' [-> ->]].
    rewrite (po_hash _ Hb). eapply use_steady; [exact Hctx|]. rewrite Hfile. eapply safe_bind. unfold safe at 1, on_fs. rewrite Hw2. by apply safe_ret.
  - intros o s' [-> ->]. cbn [run_job]. unfold execute_processed. rewrite (po_hash _ Hb).
    set (D := fun s' => downloading n (done ++ [b]) (add_pending_block (b_metadata b) st) s').
    apply (safe_call False _ _ (fun _ => D)); [|by intros]. apply (safe_call False _ _ (fun _ => D)); [|by intros].
    apply (safe_call False _ _ (fun _ s' => s' = s1 <| torrent_contexts := <[info_hash info := {| ms_file := file;
      ms_state := add_pending_block (b_metadata b) st; ms_poisoned := false |}]> (torrent_contexts s1) |>)).
    + unfold safe, update_torrent_context. change (torrent_contexts s1) with (torrent_contexts s). rewrite Hctx. done.
    + intros o s' ->. unfold safe, out_send, channel_send. unfold s1. shared_fields. rewrite Hout. split; shared_fields; try done.
      * by rewrite lookup_insert_eq.
      * apply checker_ok_add; [done|]. rewrite (bo_index _ _ _ (po_block _ Hb)). apply Hb.
      * unfold add_pending_block, pending_of. disk_fields. rewrite (bo_index _ _ _ (po_block _ Hb)), lookup_insert_eq. simpl.
        rewrite fmap_app. f_equal. exact Hpe.
      * by eapply kept_allocated.
      * rewrite fmap_app. eapply bytes_written; [done|exact Hk|exact Hr|exact Hby|]. rewrite <- Hpe. apply Hck.
Qed.

Lemma process_all_steady n blocks : Forall part_of blocks -> forall done st s, downloading n done st s ->
  safe False (for_each blocks (fun b => run_whole [] (JProcess b))) (fun _ s' => exists st', downloading n (done ++ blocks) st' s') s.
Proof.
  induction 1 as [|b blocks Hb _ IH]; intros done st s Hs; [apply safe_ret; exists st; by rewrite app_nil_r|].
  cbn [for_each]. eapply safe_call; [by eapply process_steady|]. intros [] s1 Hs1. eapply safe_mono; [by eapply IH|done|].
  intros [] s2 [st2 Hs2]. exists st2. by rewrite <- app_assoc in Hs2.
Qed.

Lemma pace_run st (s : Shared F) : torrent_contexts s !! info_hash info = Some {| ms_file := file; ms_state := st; ms_poisoned := false |} ->
  listening (sh_commands s) = true ->
  safe False (report_pace (info_hash info)) (fun _ s' => sent (sh_out s) ⊆ sent (sh_out s') /\ sh_fs s' = sh_fs s) s.
Proof.
  intros Hs Hc. unfold report_pace. apply (safe_call False _ _ (fun _ s' => sent (sh_out s) ⊆ sent (sh_out s') /\ sh_fs s' = sh_fs s)); [|by intros].
  eapply use_steady; [exact Hs|]. apply (safe_call False _ _ (fun _ s' => sh_out s' = sh_out s /\ sh_fs s' = sh_fs s)).
  - destruct (is_complete st); [|by apply safe_ret]. unfold safe, command_send, channel_send. by rewrite Hc.
  - intros [] s' [E1 E2]. apply safe_modify. shared_fields. rewrite E1. unfold channel_try. split; [|done].
    destruct (listening (sh_out s)); [|done]. intros x Hx. apply elem_of_app. by left.
Qed.

(** The check that follows when the stored blocks tile the piece. *)
Lemma check_steady lens done st s order :
  downloading (Z.of_nat (length order)) done st s -> Forall part_of done -> tiling lens (b_metadata <$> done) ->
  foldr Z.add 0%Z lens = piece_size info k -> (0 < piece_size info k)%Z ->
  pieces info !! Z.to_nat k = Some (hash (ShaHash_from_bytes data)) -> k ∈ order ->
  safe False (run_whole order (JPieceCheck (info_hash info)))
    (fun _ s' => FoundGoodPiece (info_hash info) k ∈ sent (sh_out s') /\ piece_data info (view (sh_fs s')) k data) s.
Proof.
  intros Hs Hparts Ht Hsum Hpos Hh Hk. pose proof Hs as [Hctx Hck Hpe Hold Hco Hch Hf Hst Hal Hout Hcm Hby].
  assert (Forall (block_ok info k) (b_metadata <$> done)) as Hok by (rewrite <- Hpe; apply Hck).
  destruct (merge_tiling info (valid_size _ Hv) (valid_len _ Hv) (info_hash info) k lens (b_metadata <$> done)) as (m & Hm & Hbm & Hmo & Hml); try done.
  { rewrite Forall_fmap. eapply Forall_impl; [exact Hparts|]. by intros b []. }
  assert (piece_data info (view (sh_fs s)) k data) as Hpd.
  { split; [done|]. intros j Hj. symmetry. apply Hby. destruct Ht as [Hlens _ Htl].
    destruct (proj1 (tiles_cover 0 lens (Z.of_nat j) Hlens)) as (t & Hin & Hr); [lia|]. rewrite Forall_forall in Htl.
    apply Htl, list_elem_of_fmap in Hin as (m' & -> & Hin). by exists m'. }
  pose (c0 := {| ck_fs := sh_fs s; ck_state := st; ck_out := sh_out s; ck_buffer := [] |}).
  assert (safe False (run_with_whole_pieces order info) (fun _ c => ck_steady 0 0 (view (sh_fs s)) c /\ FoundGoodPiece (info_hash info) k ∈ sent (ck_out c)) c0) as Hrun.
  { apply whole_pieces_steady; try done; [|cbn; rewrite Hpe; by exists m|by exists data].
    split; unfold c0; disk_fields; try done. by rewrite length_replicate. }
  unfold safe in Hrun. destruct (run_with_whole_pieces order info c0) as [[[]| | |] c] eqn:Hc; try done. destruct Hrun as [[Cf Cs Cv Cst Cl Cco Cch Cb] Hgood].
  set (s1 := s <| sh_fs := ck_fs c |> <| sh_out := ck_out c |> <| torrent_contexts := <[info_hash info :=
    {| ms_file := file; ms_state := ck_state c; ms_poisoned := false |}]> (torrent_contexts s) |>).
  unfold run_whole. cbn [run_job]. apply (safe_call False _ _ (fun o s' => o = Some (JPieceChecked (info_hash info)) /\ s' = s1)).
  - unfold execute_piece_check. apply (safe_call False _ _ (fun _ s' => s' = s1)); [|by intros o s' ->].
    eapply update_steady; [exact Hs|]. unfold safe, checking. rewrite Hfile. fold c0. by rewrite Hc.
  - intros o s' [-> ->]. cbn [run_job]. unfold execute_piece_checked.
    apply (safe_call False _ _ (fun _ s' => FoundGoodPiece (info_hash info) k ∈ sent (sh_out s') /\ piece_data info (view (sh_fs s')) k data)); [|by intros].
    eapply safe_call; [apply (pace_run (ck_state c)); [unfold s1; shared_fields; by rewrite lookup_insert_eq|done]|].
    intros [] s' [Hsub Hfs]. apply safe_ret. split; [by apply Hsub|]. rewrite Hfs. unfold s1. shared_fields. by rewrite Cv.
Qed.

(** C3. End to end, on a file system that works: when the blocks of a piece are
    processed, in any order and however often each of them, and together they tile
    the piece with data of the torrent's hash, then every task returns, the next
    check reports the piece as good, and its data is on disk. *)
Theorem downloaded_piece_found (lens : list Z) (blocks : list Block) (order : list Z) (st : PieceStateChecker) (s : Shared F) :
  downloading (Z.of_nat (length order)) [] st s -> Forall part_of blocks -> tiling lens (b_metadata <$> blocks) ->
  foldr Z.add 0%Z lens = piece_size info k -> (0 < piece_size info k)%Z ->
  pieces info !! Z.to_nat k = Some (hash (ShaHash_from_bytes data)) -> k ∈ order ->
  exists s', (_ ← for_each blocks (fun b => run_whole [] (JProcess b)); run_whole order (JPieceCheck (info_hash info))) s = (Ok tt, s') /\
    FoundGoodPiece (info_hash info) k ∈ sent (sh_out s') /\ piece_data info (view (sh_fs s')) k data.
Proof.
  intros Hs Hb Ht Hsum Hpos Hh Hk.
  destruct (safe_False (_ ← for_each blocks (fun b => run_whole [] (JProcess b)); run_whole order (JPieceCheck (info_hash info)))
    (fun _ s' => FoundGoodPiece (info_hash info) k ∈ sent (sh_out s') /\ piece_data info (view (sh_fs s')) k data) s) as ([] & s' & Hx & Hr); [|by exists s'].
  eapply safe_call; [by eapply process_all_steady|]. intros [] s1 [st1 Hs1]. by eapply check_steady.
Qed.
End Download.

(** * A concrete download *)

Definition sample_file : Metainfo := {| comment := None; announce := None; announce_list := None; encoding := None;
  created_by := None; creation_date := None; info := sample_torrent |}.
Definition sample_data : bytes := [10; 11; 12; 13]%Z.
Definition sample_part (offset len : Z) : Block :=
  {| b_metadata := sample_block offset len; b_data := take (Z.to_nat len) (drop (Z.to_nat offset) sample_data) |}.
Definition sample_checker : PieceStateChecker := PieceStateChecker_new 2 2.
Definition sample_shared : Shared OsState := {|
  torrent_contexts := {[info_hash sample_torrent := {| ms_file := sample_file; ms_state := sample_checker; ms_poisoned := false |}]};
  sh_fs := sample_disk; sh_out := {| sent := []; listening := true |}; sh_commands := {| sent := []; listening := true |} |}.

Lemma sample_torrent_valid : @torrent_valid OsState nat (NativeFileSystem sample_dir) (Native_laws sample_dir) sample_torrent.
Proof. split; [apply sample_torrent_ok|done|done|done]. Qed.

(** The blocks in reverse order, the last one twice. *)
Definition sample_blocks : list Block := [sample_part 2 2; sample_part 0 2; sample_part 2 2].

Lemma downloaded_piece_found_witness :
  exists s', (_ ← for_each sample_blocks (fun b => @run_whole _ _ (NativeFileSystem sample_dir) true sample_sha1 [] (JProcess b));
              @run_whole _ _ (NativeFileSystem sample_dir) true sample_sha1 [0%Z] (JPieceCheck (info_hash sample_torrent))) sample_shared = (Ok tt, s') /\
    FoundGoodPiece (info_hash sample_torrent) 0 ∈ sent (sh_out s') /\
    @piece_data OsState nat (NativeFileSystem sample_dir) (Native_laws sample_dir) sample_torrent (os_files (sh_fs s')) 0 sample_data.
Proof.
  apply (@downloaded_piece_found OsState nat (NativeFileSystem sample_dir) (Native_laws sample_dir) (Native_steady sample_dir) true sample_sha1
    sample_torrent sample_torrent_valid ltac:(by repeat constructor) sample_files_ok sample_file eq_refl 0%Z sample_data eq_refl
    [2; 2]%Z sample_blocks [0%Z] sample_checker sample_shared).
  - split; try done.
    + by constructor.
    + apply sample_allocated.
    + intros j (m & Hm & _). by apply not_elem_of_nil in Hm.
  - repeat constructor; simpl; try done; by left.
  - split; [by repeat constructor| |]; by apply (bool_decide_unpack _).
  - done.
  - done.
  - done.
  - by left.
Defined.

(** Blocks that [fill_checker_state] adds have another hash than those that were
    processed, so they do not merge: the piece stays pending for ever. *)
Example filled_blocks_never_merge :
  @merge_messages true [sample_block 0 2; with_default_hash 0 0 4; sample_block 2 2] =
    Ok [sample_block 0 2; with_default_hash 0 0 4; sample_block 2 2].
Proof. reflexivity. Qed.
