(* ===== verification/DiskCorrect.v ===== *)
(** DiskCorrect: the disk manager as a whole, under every interleaving of its
    handler with the tasks it has spawned. *)

From stdpp Require Import base list gmap sorting.
From Stdlib Require Import ZArith Lia.
From S2P Require Import Prelude Effects OrdMap ShaHash Metainfo FileSystem FileSystemCorrect Timer Disk DhtToken DiskAccess DiskChecker DiskDownload.

Section Tasks.
Context {F H : Type} `{FileSystemLaws F H} `{Profile} `{Sha1}.

(** The torrents there are, by their info hash. *)
Variable catalogue : gmap ShaHash Info.

Definition known (file : Metainfo) : Prop :=
  catalogue !! info_hash (info file) = Some (info file) /\ torrent_valid (info file).

Definition context_ok (h : ShaHash) (c : MetainfoState) : Prop :=
  info_hash (info (ms_file c)) = h /\ known (ms_file c) /\ (ms_poisoned c = false -> checker_ok (info (ms_file c)) (ms_state c)).

Definition shared_ok (s : Shared F) : Prop :=
  fs_ok (sh_fs s) /\ map_Forall context_ok (torrent_contexts s).

(** A block that is to be stored belongs to its torrent. *)
Definition block_known (b : Block) : Prop :=
  forall i, catalogue !! bm_info_hash (b_metadata b) = Some i ->
    block_ok i (bm_piece_index (b_metadata b)) (b_metadata b).

Definition job_ok (j : Job) : Prop :=
  match j with
  | JAdd file => known file
  | JInsert file st => known file /\ checker_ok (info file) st
  | JProcess b | JProcessed b _ => block_known b
  | _ => True
  end.

(** What is said of a piece is true of the bytes on disk. *)
Definition report_ok (m : gmap Path bytes) (msg : ODiskMessage) : Prop :=
  match msg with
  | FoundGoodPiece h k => exists i data, catalogue !! h = Some i /\ piece_data i m k data /\
      pieces i !! Z.to_nat k = Some (hash (ShaHash_from_bytes data))
  | FoundBadPiece h k => exists i data, catalogue !! h = Some i /\ piece_data i m k data /\
      pieces i !! Z.to_nat k <> Some (hash (ShaHash_from_bytes data))
  | _ => True
  end.

Definition section_ok (m0 : gmap Path bytes) (out0 : list ODiskMessage) (s : Shared F) : Prop :=
  shared_ok s /\ exists msgs, sent (sh_out s) = out0 ++ msgs /\ Forall (report_ok m0) msgs.

Lemma section_start s : shared_ok s -> section_ok (view (sh_fs s)) (sent (sh_out s)) s.
Proof. intros Hs. split; [done|]. exists []. by rewrite app_nil_r. Qed.

Lemma message_report i m msg : catalogue !! info_hash i = Some i -> message_ok i m msg -> report_ok m msg.
Proof. intros Hc. destruct msg; simpl; try done; intros (-> & data & ? & ?); by exists i, data. Qed.

Ltac sh_fields := cbv [update_field up_torrent_contexts up_sh_fs up_sh_out up_sh_commands];
  cbn [torrent_contexts sh_fs sh_out sh_commands].

Lemma send_section m0 out0 msg s : report_ok m0 msg -> section_ok m0 out0 s ->
  always (section_ok m0 out0) (out_send msg) (fun _ => section_ok m0 out0) s.
Proof.
  intros Hr [Hs (msgs & Hm & Hf)]. unfold always, out_send, channel_send. destruct (listening _); [|by split; [|exists msgs]].
  split; [done|]. sh_fields. simpl. exists (msgs ++ [msg]). rewrite Hm, app_assoc. split; [done|]. by apply Forall_app; split; [|constructor].
Qed.

Lemma command_section m0 out0 t s : section_ok m0 out0 s -> always (section_ok m0 out0) (command_send t) (fun _ => section_ok m0 out0) s.
Proof. intros Hs. unfold always, command_send, channel_send. by destruct (listening _). Qed.

Lemma try_section m0 out0 msg s : report_ok m0 msg -> section_ok m0 out0 s ->
  always (section_ok m0 out0) (out_try msg) (fun _ => section_ok m0 out0) s.
Proof.
  intros Hr [Hs (msgs & Hm & Hf)]. unfold always, out_try, modify. split; [done|]. sh_fields. unfold channel_try. destruct (listening _).
  - simpl. exists (msgs ++ [msg]). rewrite Hm, app_assoc. split; [done|]. by apply Forall_app; split; [|constructor].
  - by exists msgs.
Qed.

(** A section under the write lock of a torrent. *)
Lemma update_section {A} h (call : Metainfo -> io (Checking F) A) s :
  let m0 := view (sh_fs s) in let out0 := sent (sh_out s) in
  shared_ok s ->
  (forall file k, known file -> info_hash (info file) = h -> ck_inv (info file) m0 out0 k ->
    always (ck_inv (info file) m0 out0) (call file) (fun _ => ck_inv (info file) m0 out0) k) ->
  always (section_ok m0 out0) (update_torrent_context h call) (fun _ => section_ok m0 out0) s.
Proof.
  intros m0 out0 Hs Hcall. unfold always, update_torrent_context. destruct (torrent_contexts s !! h) as [c|] eqn:Hc; [|by apply section_start].
  destruct (ms_poisoned c) eqn:Hpo; [by apply section_start|]. pose proof Hs as [Hf Hctx]. destruct (Hctx _ _ Hc) as (Hh & Hk & Hck).
  specialize (Hcall (ms_file c) {| ck_fs := sh_fs s; ck_state := ms_state c; ck_out := sh_out s; ck_buffer := [] |} Hk Hh).
  assert (forall k p, ck_inv (info (ms_file c)) m0 out0 k -> section_ok m0 out0 (s <| sh_fs := ck_fs k |> <| sh_out := ck_out k |>
    <| torrent_contexts := <[h := {| ms_file := ms_file c; ms_state := ck_state k; ms_poisoned := p |}]> (torrent_contexts s) |>)) as HE.
  { intros k p [Hkf Hkv Hks (msgs & Hm & Hmf)]. split; [split; [done|]; sh_fields; by apply map_Forall_insert_2|].
    sh_fields. exists msgs. split; [done|]. eapply Forall_impl; [exact Hmf|]. intros msg. apply message_report, Hk. }
  unfold always in Hcall. destruct (call _ _) as [[a|e| |] k]; (lapply Hcall; [by auto|]);
    (split; simpl; [done|done|by apply Hck|exists []; by rewrite app_nil_r]).
Qed.

Lemma use_section {A} h (call : Metainfo -> PieceStateChecker -> io (Shared F) A) m0 out0 s :
  section_ok m0 out0 s ->
  (forall file st, known file -> info_hash (info file) = h -> always (section_ok m0 out0) (call file st) (fun _ => section_ok m0 out0) s) ->
  always (section_ok m0 out0) (use_torrent_context h call) (fun _ => section_ok m0 out0) s.
Proof.
  intros Hs Hcall. unfold always, use_torrent_context. destruct (torrent_contexts s !! h) as [c|] eqn:Hc; [|done].
  destruct (ms_poisoned c); [done|]. destruct (proj2 (proj1 Hs) _ _ Hc) as (Hh & Hk & _). specialize (Hcall _ (ms_state c) Hk Hh).
  unfold always, fmap, St_fmap, mbind, St_bind in *. by destruct (call _ _ s) as [[a|e| |] s'].
Qed.

(** ** What the tasks do to the file system *)

Lemma validate_file_ok i f s : (0 <= f_len f)%Z -> fs_ok s -> always fs_ok (validate_file i f) (fun _ => fs_ok) s.
Proof.
  intros Hl Hf. unfold always, validate_file, mbind, St_bind.
  destruct (open_law s (build_path (file_directory i) f) Hf) as (r & s1 & -> & Hf1 & _ & Hr). destruct r as [h|e| |]; try done.
  destruct Hr as [_ Hh]. destruct (refers_exists _ _ _ Hf1 Hh) as [c Hc].
  destruct (size_law s1 h _ c Hf1 Hh Hc) as (r & s2 & -> & Hf2 & Hr2 & Hv2 & Hn). destruct r as [n|e| |]; try done. cbn [mret St_ret].
  destruct (Z.eqb_spec n (f_len f)); simpl; [done|]. destruct (Z.eqb_spec n 0); simpl; [|done].
  destruct (write_law s2 h (locate (build_path (file_directory i) f)) c (f_len f - 1) [0%Z]) as (r & s3 & -> & Hf3 & _ & Hw);
    [done|by apply Hr2|by rewrite Hv2|lia|]. by destruct r.
Qed.

Lemma init_state_ok i s : torrent_valid i -> fs_ok s ->
  always fs_ok (init_state_checker i) (fun st s' => fs_ok s' /\ checker_ok i st) s.
Proof.
  intros Hv Hf. unfold init_state_checker. rewrite (last_piece_size_mod i Hv). simpl. apply always_lift; [done..|]. intros ? [= <-].
  eapply always_bind; [apply (always_for_each _ fs_ok); [|done]|].
  - intros f s' Hin Hf'. apply validate_file_ok; [|done]. pose proof (lens_nonneg _ (tv_ok _ Hv)) as Hl. rewrite Forall_forall in Hl. by apply Hl.
  - intros [] s' Hf'. split; [done|]. by apply checker_ok_new.
Qed.

(** Reading changes no byte, whatever block is asked for. *)
Lemma read_piece_any i message s buf : torrent_ok i -> fs_ok s ->
  exists r s' buf', read_piece i message (s, buf) = (r, (s', buf')) /\ fs_ok s' /\ r <> NoFuel.
Proof.
  intros Hi Hf. unfold read_piece, run_with_file_regions, mbind, St_bind, lift.
  pose proof (arith_fuel (E := IoError) is_u64 to_u64 (bm_piece_index message * piece_len i)) as Hn1. unfold u64_arith.
  destruct (arith _ _ (_ * _)) as [start| | |] eqn:E1; try done; [|by eexists _, _, _..].
  pose proof (arith_fuel (E := IoError) is_u64 to_u64 (start + bm_block_offset message)) as Hn2.
  destruct (arith _ _ (_ + _)) as [skip| | |] eqn:E2; try done; [|by eexists _, _, _..].
  apply arith_Ok in E2 as [Hs _]; [|apply to_u64_range|intros; by apply Z.mod_small].
  destruct (read_regions (file_directory i) (bm_block_length message) (files i) (lens_nonneg _ Hi) skip 0 s buf)
    as (r & s' & buf' & Hx & [Hf' _] & _ & _ & Hr); [done|unfold is_u64 in Hs; lia|done|]. rewrite Hx. eexists _, _, _. split; [done|]. split; [done|].
  by intros ->.
Qed.

Lemma block_in_torrent i b : catalogue !! bm_info_hash (b_metadata b) = Some i -> torrent_valid i -> block_known b -> block_in i (b_metadata b).
Proof.
  intros Hc Hv Hb. destruct (Hb i Hc) as [Hi ? ? ? ? ?]. pose proof (to_piece_len _ (tv_ok _ Hv)).
  split; [lia..|]. unfold block_start, piece_size in *. lia.
Qed.

(** ** The sections *)

Lemma section_fs m0 out0 s fs' : section_ok m0 out0 s -> fs_ok fs' -> section_ok m0 out0 (s <| sh_fs := fs' |>).
Proof. intros [[_ Hc] Hm] Hf. by split. Qed.

Lemma on_fs_section {E A} (m : St F E A) m0 out0 (Q : A -> Prop) s :
  section_ok m0 out0 s -> always fs_ok m (fun a s' => fs_ok s' /\ Q a) (sh_fs s) ->
  always (section_ok m0 out0) (on_fs m) (fun r s' => section_ok m0 out0 s' /\ r <> NoFuel /\ forall a, r = Ok a -> Q a) s.
Proof.
  intros Hs Hm. unfold always, on_fs in *. destruct (m (sh_fs s)) as [[a|e| |] fs']; try done.
  - destruct Hm as [Hf HQ]. split; [by apply section_fs|]. split; [done|]. by intros ? [= <-].
  - split; [by apply section_fs|]. by split.
  - by apply section_fs.
Qed.

Lemma section_end m0 out0 (s : Shared F) : section_ok m0 out0 s ->
  always (section_ok m0 out0) (mret None : io (Shared F) (option Job)) (fun o s' => section_ok m0 out0 s' /\ forall j, o = Some j -> job_ok j) s.
Proof. by intros Hs. Qed.

Ltac then_send := eapply always_bind; [repeat case_match; (apply send_section; [done|assumption])|intros [] ? ?; by apply section_end].

(** A section of a task: the shared state stays well formed, what is reported of
    pieces is true, and the task goes on with a section that is in order. *)
Definition section_run (j : io (Shared F) (option Job)) (s : Shared F) : Prop :=
  let I := section_ok (view (sh_fs s)) (sent (sh_out s)) in
  always I j (fun o s' => I s' /\ forall j', o = Some j' -> job_ok j') s.

Lemma add_run file s : known file -> shared_ok s -> section_run (execute_add_torrent file) s.
Proof.
  intros [Hc Hv] Hs. unfold section_run, execute_add_torrent. eapply always_bind.
  - apply (on_fs_section _ _ _ (checker_ok (info file))); [by apply section_start|]. apply init_state_ok; [done|apply Hs].
  - intros r s' (Hs' & Hn & Hr). apply always_lift; [done|by destruct r|]. intros st Hst. split; [done|]. intros ? [= <-]. split; [done|].
    apply Hr. by destruct r; try discriminate Hst; injection Hst as ->.
Qed.

Lemma insert_run file st s : known file -> checker_ok (info file) st -> shared_ok s -> section_run (execute_insert file st) s.
Proof.
  intros Hk Hst Hs. pose proof (section_start s Hs) as Hss. unfold section_run, execute_insert.
  eapply (always_bind _ _ _ _ (fun _ => section_ok (view (sh_fs s)) (sent (sh_out s)))).
  - unfold always, insert_torrent. destruct (_ !! _) eqn:E; [done|]. destruct Hss as [[Hf Hctx] Hm]. split; [|done]. split; [done|].
    sh_fields. apply map_Forall_insert_2; [|done]. by split.
  - intros b s' Hs'. then_send.
Qed.

Lemma remove_run h s : shared_ok s -> section_run (execute_remove_torrent h) s.
Proof.
  intros Hs. pose proof (section_start s Hs) as Hss. unfold section_run, execute_remove_torrent.
  eapply (always_bind _ _ _ _ (fun _ => section_ok (view (sh_fs s)) (sent (sh_out s)))).
  - unfold always, remove_torrent. destruct (_ !! _) eqn:E; [|done]. destruct Hss as [[Hf Hctx] Hm]. split; [|done]. split; [done|].
    sh_fields. by apply map_Forall_delete.
  - intros b s' Hs'. then_send.
Qed.

Lemma ck_inv_fs i m0 out0 (k : Checking F) fs' : ck_inv i m0 out0 k -> fs_ok fs' -> view fs' = view (ck_fs k) -> ck_inv i m0 out0 (k <| ck_fs := fs' |>).
Proof. intros [Hf Hv Hst Hm] Hf' Hv'. split; try done. cbn. by rewrite Hv'. Qed.

Lemma sync_run h s : shared_ok s -> section_run (execute_sync_torrent h) s.
Proof.
  intros Hs. unfold section_run, execute_sync_torrent. eapply always_bind.
  - apply update_section; [done|]. intros file k Hk Hh Hi. apply always_for_each; [|done]. intros f k' _ Hi'. unfold always.
    destruct (sync_law (ck_fs k') (build_path (file_directory (info file)) f) (ci_fs _ _ _ _ Hi')) as (r & fs' & -> & Hf' & _ & Hv & Hr).
    pose proof (ck_inv_fs _ _ _ _ _ Hi' Hf' Hv). by destruct r.
  - intros o s' Hs'. then_send.
Qed.

Lemma load_run b s : shared_ok s -> section_run (execute_load_block b) s.
Proof.
  intros Hs. pose proof (section_start s Hs) as Hss. unfold section_run, execute_load_block. eapply always_bind.
  - apply use_section; [done|]. intros file st [Hc Hv] Hh. unfold always.
    destruct (read_piece_any (info file) (b_metadata b) (sh_fs s) (b_data b)) as (r & fs' & buf' & -> & Hf' & Hr); [apply Hv|apply Hs|].
    pose proof (section_fs _ _ _ _ Hss Hf'). by destruct r.
  - intros o s' Hs'. then_send.
Qed.

Lemma process_run b s : block_known b -> shared_ok s -> section_run (execute_process_block b) s.
Proof.
  intros Hb Hs. pose proof (section_start s Hs) as Hss. unfold section_run, execute_process_block. eapply always_bind.
  - apply use_section; [done|]. intros file st [Hc Hv] Hh. eapply always_bind.
    + apply (on_fs_section _ _ _ (fun _ => True)); [done|]. unfold always.
      destruct (write_piece_spec (info file) (b_metadata b) (b_data b) (sh_fs s)) as (r & fs' & -> & [Hf' _] & _ & Hr);
        [apply Hv| |apply Hs|by destruct r]. apply block_in_torrent; [by rewrite <- Hh|done..].
    + intros r s' [Hs' _]. exact Hs'.
  - intros o s' Hs'. split; [done|]. by intros ? [= <-].
Qed.

Lemma processed_run b found s : block_known b -> shared_ok s -> section_run (execute_processed b found) s.
Proof.
  intros Hb Hs. pose proof (section_start s Hs) as Hss. unfold section_run, execute_processed.
  eapply (always_bind _ _ _ _ (fun _ => section_ok (view (sh_fs s)) (sent (sh_out s)))); [|intros [] s' Hs'; by apply section_end].
  destruct found; [|by apply send_section]. eapply always_bind; [apply update_section; [done|]|intros o s' Hs'; by apply send_section].
  intros file k [Hc Hv] Hh Hi. unfold always, modify. apply ck_inv_state; [done|].
  apply checker_ok_add; [apply Hi|]. apply Hb. by rewrite <- Hh.
Qed.

Lemma checking_ok i order m0 out0 (k : Checking F) : torrent_valid i -> ck_inv i m0 out0 k ->
  always (ck_inv i m0 out0) (checking (run_with_whole_pieces order i)) (fun _ => ck_inv i m0 out0) k.
Proof.
  intros Hv Hk. pose proof (run_with_whole_pieces_ok i Hv order m0 out0 k Hk) as Hr. unfold always, checking in *.
  by destruct (run_with_whole_pieces order i k) as [[a|e| |] k'].
Qed.

Lemma pace_section h m0 out0 s : section_ok m0 out0 s -> always (section_ok m0 out0) (report_pace h) (fun _ => section_ok m0 out0) s.
Proof.
  intros Hs. unfold report_pace. eapply always_bind; [apply use_section; [done|]|intros o s' Hs'; exact Hs']. intros file st _ _.
  eapply (always_bind _ _ _ _ (fun _ => section_ok m0 out0)).
  - destruct (is_complete st); [by apply command_section|done].
  - intros [] s' Hs'. by apply try_section.
Qed.

Lemma job_run order j s : job_ok j -> shared_ok s -> section_run (run_job order j) s.
Proof.
  intros Hj Hs. pose proof (section_start s Hs) as Hss. destruct j as [file|file st|h|h|b|b|b found|h|h r|h|h]; simpl in *.
  - by apply add_run.
  - destruct Hj. by apply insert_run.
  - by apply remove_run.
  - by apply sync_run.
  - by apply load_run.
  - by apply process_run.
  - by apply processed_run.
  - unfold section_run, execute_check_torrent. eapply always_bind; [apply update_section; [done|]|intros o s' Hs'; split; [exact Hs'|by intros ? [= <-]]].
    intros file k [Hc Hv] Hh Hi. apply always_gets. destruct (fill_ok _ Hv (ck_state k)) as (st & -> & Hst); [apply Hi|].
    apply always_lift; [done..|]. intros ? [= <-]. apply always_modify, checking_ok; [done|]. by apply ck_inv_state.
  - unfold section_run, execute_checked_torrent. eapply always_bind; [by apply pace_section|]. intros [] s' Hs'.
    eapply always_bind; [by apply send_section; [destruct r|]|]. intros [] s2 Hs2. by apply section_end.
  - unfold section_run, execute_piece_check. eapply always_bind; [apply update_section; [done|]|intros o s' Hs'; split; [exact Hs'|by intros ? [= <-]]].
    intros file k [Hc Hv] Hh Hi. by apply checking_ok.
  - unfold section_run, execute_piece_checked. eapply always_bind; [by apply pace_section|]. intros [] s' Hs'. by apply section_end.
Qed.
End Tasks.

(** * The handler with its tasks *)

Section Handler.
Context {F H : Type} `{FileSystemLaws F H} `{Profile} `{Sha1}.
Variable catalogue : gmap ShaHash Info.

(** Torrents that are added are those of the catalogue, and blocks that are sent
    to be stored are blocks of their torrents. *)
Definition event_ok (e : event) : Prop :=
  match e with
  | Turn _ (InMessage (Some (AddTorrent file))) => known catalogue file
  | Turn _ (InMessage (Some (ProcessBlock b))) => block_known catalogue b
  | _ => True
  end.

Definition handler_ok (s : TaskHandler F) : Prop := shared_ok catalogue (shared s) /\ Forall (job_ok catalogue) (jobs s).

Lemma spawn_ok j s : job_ok catalogue j -> handler_ok s -> handler_ok (spawn j s).
Proof. intros Hj [Hs Hf]. split; [done|]. by apply Forall_app; split; [|constructor]. Qed.

Lemma disk_turn_ok now branch s : event_ok (Turn now branch) -> handler_ok s ->
  handler_ok (run_one now branch s) /\ sent (sh_out (shared (run_one now branch s))) = sent (sh_out (shared s)).
Proof.
  intros He Hs. destruct branch as [[msg|]| |]; simpl.
  - destruct msg; (split; [|done]); (apply spawn_ok; [exact He || exact I|exact Hs]).
  - by split.
  - destruct (timer_is_empty _); [by split|]. destruct (poll_next now (timer s)) as [[[token|]|] t]; [|by split..].
    unfold timeout_ex. case_decide; [|by split]. split; [|done]. by apply spawn_ok.
  - destruct (sent (sh_commands (shared s))) as [|[hash|] rest]; by split.
Qed.

Lemma disk_step_ok e s : event_ok e -> handler_ok s ->
  handler_ok (disk_step e s) /\
  exists msgs, sent (sh_out (shared (disk_step e s))) = sent (sh_out (shared s)) ++ msgs /\
    Forall (report_ok catalogue (view (sh_fs (shared s)))) msgs.
Proof.
  intros He Hs. destruct e as [now branch|i order|]; simpl.
  - destruct (is_run s); [|split; [done|exists []; by rewrite app_nil_r]]. destruct (disk_turn_ok now branch s He Hs) as [Hs' ->].
    split; [done|]. exists []. by rewrite app_nil_r.
  - destruct (jobs s !! i) as [j|] eqn:Hj; [|split; [done|exists []; by rewrite app_nil_r]]. destruct Hs as [Hsh Hjobs].
    pose proof (job_run catalogue order j (shared s) (Forall_lookup_1 _ _ _ _ Hjobs Hj) Hsh) as Hr. unfold section_run, always in Hr.
    assert (Forall (job_ok catalogue) (take i (jobs s) ++ drop (S i) (jobs s))) as Ho by (apply Forall_app; split; [by apply Forall_take|by apply Forall_drop]).
    destruct (run_job order j (shared s)) as [[[j'|]|e| |] sh]; [|destruct Hr as [[Hsh' Hm] _]|destruct Hr as [Hsh' Hm]..|done]; try by split.
    destruct Hr as [[Hsh' Hm] Hj']. split; [|done]. split; [done|]. apply Forall_app. split; [done|]. constructor; [by apply Hj'|done].
  - split; [done|]. exists []. by rewrite app_nil_r.
Qed.

Lemma disk_run_ok es s : Forall event_ok es -> handler_ok s -> handler_ok (disk_run es s).
Proof. intros Hes. revert s. induction Hes as [|e es He _ IH]; intros s Hs; [done|]. apply IH. by apply disk_step_ok. Qed.
End Handler.

(** C6. Whatever the handler and its tasks do in whatever order, and however the
    file system fails: when a piece is reported as good, the bytes that are on
    disk for it at that time have the hash that the torrent gives for the
    piece, and when it is reported as bad they do not. *)
Theorem pieces_reported_truly {F H : Type} `{FileSystemLaws F H} `{Profile} `{Sha1}
    (catalogue : gmap ShaHash Info) (now : Z) (fs : F) (es : list event) (e : event) :
  fs_ok fs -> Forall (event_ok catalogue) (es ++ [e]) ->
  let s := disk_run es (TaskHandler_new now fs) in
  exists msgs, sent (sh_out (shared (disk_step e s))) = sent (sh_out (shared s)) ++ msgs /\
    forall h k,
      (FoundGoodPiece h k ∈ msgs -> exists i data, catalogue !! h = Some i /\ piece_data i (view (sh_fs (shared s))) k data /\
        pieces i !! Z.to_nat k = Some (hash (ShaHash_from_bytes data))) /\
      (FoundBadPiece h k ∈ msgs -> exists i data, catalogue !! h = Some i /\ piece_data i (view (sh_fs (shared s))) k data /\
        pieces i !! Z.to_nat k <> Some (hash (ShaHash_from_bytes data))).
Proof.
  intros Hf Hes s. apply Forall_app in Hes as [Hes He]. apply Forall_cons in He as [He _].
  destruct (disk_step_ok catalogue e s He) as [_ (msgs & Hm & Hr)].
  { apply disk_run_ok; [done|]. split; [|done]. split; [done|]. apply map_Forall_empty. }
  exists msgs. split; [done|]. rewrite Forall_forall in Hr. intros h k. split; intros Hin; exact (Hr _ Hin).
Qed.

(** * Checks of active downloads *)

Section Active.
Context {F H : Type} `{FileSystem F H} `{Profile} `{Sha1}.

(** Every active download has a timeout pending; [n] bounds the timeouts made. *)
Definition armed (n : Z) (s : TaskHandler F) : Prop :=
  timer_ok (timer s) /\ (next_id (timer s) <= n)%Z /\
  (is_run s = true -> forall h, h ∈ download_active s -> exists k, (k, h) ∈ contents (timer s)).

Lemma btree_insert_keeps {V} k (v : V) (m : list (Timeout * V)) e : ordered m -> btree_get k m = None -> e ∈ m -> e ∈ btree_insert k v m.
Proof.
  intros Ho Hn He. destruct e as [k' v']. apply btree_get_Some; [by apply btree_insert_ordered|]. apply btree_get_Some in He; [|done].
  rewrite btree_get_insert_ne; [done|done|congruence].
Qed.

Lemma timeout_made n now d (h : ShaHash) t0 : (n + 1 < 18446744073709551616)%Z -> timer_ok t0 -> (next_id t0 <= n)%Z ->
  let t := (schedule_in now d h t0).2 in
  timer_ok t /\ (next_id t <= n + 1)%Z /\ (exists k, (k, h) ∈ contents t) /\ (forall e, e ∈ contents t0 -> e ∈ contents t).
Proof.
  intros Hn Ht Hid. unfold schedule_in. pose proof (schedule_spec (now + d) h t0 Ht ltac:(lia)) as Hs.
  destruct (schedule_at _ _ _) as [k t]. destruct Hs as (_ & Hc & Hfr & Hnx & Ht'). simpl. split_and!; [done|lia| |].
  - exists k. rewrite Hc. apply btree_get_Some; [apply btree_insert_ordered, Ht|apply btree_get_insert_eq].
  - intros e He. rewrite Hc. apply btree_insert_keeps; [apply Ht|done|done].
Qed.

Lemma armed_mono n s : armed n s -> armed (n + 1) s.
Proof. intros (? & ? & ?). split_and!; [done|lia|done]. Qed.

(** Activating a download when its timeout is made. *)
Lemma armed_schedule n now h s : (n + 1 < 18446744073709551616)%Z -> armed n s ->
  timer_ok (timer (schedule_check now h s)) /\ (next_id (timer (schedule_check now h s)) <= n + 1)%Z /\
  (is_run s = true -> forall h', h' ∈ {[h]} ∪ download_active s -> exists k, (k, h') ∈ contents (timer (schedule_check now h s))).
Proof.
  intros Hn (Ht & Hid & Ha). destruct (timeout_made n now CHECK_INTERVAL h (timer s) Hn Ht Hid) as (Ht' & Hid' & [k Hk] & Hkeep).
  split_and!; [done..|]. intros Hr h' [->%elem_of_singleton|Hh']%elem_of_union; [by exists k|]. destruct (Ha Hr _ Hh') as [k' Hk']. exists k'. by apply Hkeep.
Qed.

Lemma turn_armed n now branch s : (n + 1 < 18446744073709551616)%Z -> armed n s -> armed (n + 1) (run_one now branch s).
Proof.
  intros Hn Hs. pose proof Hs as (Ht & Hid & Ha). destruct branch as [[msg|]| |]; simpl.
  - destruct msg; try (apply armed_mono; exact Hs).
    + exact (armed_schedule n now (info_hash (info file)) s Hn Hs).
    + split_and!; [done|simpl; lia|]. intros Hr h Hh. apply Ha; [done|]. simpl in Hh. set_solver.
  - by split_and!; [|simpl; lia|].
  - destruct (timer_is_empty (timer s)); [by apply armed_mono|]. pose proof (poll_ok now (timer s) Ht) as Hpo. pose proof (poll_spec now (timer s)) as Hp.
    destruct (contents (timer s)) as [|[k v] rest] eqn:Hc; [rewrite Hp; by apply armed_mono|].
    destruct (k.1 <=? now)%Z; destruct Hp as (t' & Hx & Hct & Hnx); rewrite Hx in Hpo |- *; simpl in Hpo.
    + unfold timeout_ex. case_decide as Hact.
      * destruct (timeout_made n now CHECK_INTERVAL v t' Hn Hpo ltac:(lia)) as (Ht1 & Hid1 & [k1 Hk1] & Hkeep).
        split_and!; [done..|]. intros Hr h Hh. destruct (decide (h = v)) as [->|Hne]; [by exists k1|].
        destruct (Ha Hr h Hh) as [k2 Hk2]. exists k2. apply Hkeep. simpl. rewrite Hct. by apply elem_of_cons in Hk2 as [[= -> ->]|Hk2].
      * split_and!; [done|simpl; lia|]. intros Hr h Hh. destruct (Ha Hr h Hh) as [k2 Hk2]. exists k2. simpl. rewrite Hct.
        by apply elem_of_cons in Hk2 as [[= -> ->]|Hk2].
    + split_and!; [done|simpl; lia|]. intros Hr h Hh. simpl. rewrite Hct. by apply Ha.
  - destruct (sent (sh_commands (shared s))) as [|[h|] rest]; [by apply armed_mono| |by split_and!; [|simpl; lia|]].
    split_and!; [done|simpl; lia|]. intros Hr h' Hh. apply Ha; [done|]. simpl in Hh. set_solver.
Qed.

Lemma step_armed n e s : (n + 1 < 18446744073709551616)%Z -> armed n s -> armed (n + 1) (disk_step e s).
Proof.
  intros Hn Hs. destruct e as [now branch|i order|]; simpl.
  - destruct (is_run s); [by apply turn_armed|by apply armed_mono].
  - destruct (jobs s !! i); [|by apply armed_mono]. destruct (run_job _ _ _) as [r sh]. by apply armed_mono in Hs.
  - by apply armed_mono in Hs.
Qed.

Lemma run_armed es n s : (n + Z.of_nat (length es) < 18446744073709551616)%Z -> armed n s -> armed (n + Z.of_nat (length es)) (disk_run es s).
Proof.
  revert n s. induction es as [|e es IH]; intros n s Hn Hs; cbn [length] in *; [by rewrite Z.add_0_r|].
  replace (n + Z.of_nat (S (length es)))%Z with (n + 1 + Z.of_nat (length es))%Z by lia. apply IH; [lia|]. apply step_armed; [lia|done].
Qed.
End Active.

(** However the handler's turns and its tasks interleave, as long as it runs every
    active download has a timeout pending in the timer, so that its pieces will be
    checked: a download is dropped only by its removal or when it is complete. *)
Theorem downloads_stay_armed {F H : Type} `{FileSystem F H} `{Profile} `{Sha1} (now : Z) (fs : F) (es : list event) :
  (Z.of_nat (length es) + 1 < 18446744073709551616)%Z ->
  let s := disk_run es (TaskHandler_new now fs) in
  is_run s = true -> forall h, h ∈ download_active s -> exists k, (k, h) ∈ contents (timer s).
Proof.
  intros Hl s Hr. destruct (run_armed es 1 (TaskHandler_new now fs)) as (_ & _ & Ha); [lia| |by apply Ha].
  destruct (timeout_made 0 now FIRST_CHECK default_hash timer_new)
    as (Ht & Hid & Hk & _); [lia|by split_and!; [constructor|constructor|]|done|]. split_and!; [done..|]. simpl. intros _ h ->%elem_of_singleton. exact Hk.
Qed.

(** * A concrete run *)

(** A torrent is added, two blocks of it come in and are stored, and the timeout of
    its check passes. *)
Definition sample_events : list event :=
  [Turn 0 (InMessage (Some (AddTorrent sample_file))); RunJob 0 []; RunJob 0 [];
   Turn 5 (InMessage (Some (ProcessBlock (sample_part 2 2)))); RunJob 0 [];
   Turn 6 (InMessage (Some (ProcessBlock (sample_part 0 2)))); RunJob 0 []; RunJob 0 []; RunJob 0 [];
   Turn 1800 TimerNext].

Definition sample_catalogue : gmap ShaHash Info := {[info_hash sample_torrent := sample_torrent]}.

Lemma sample_known : @known OsState nat (NativeFileSystem sample_dir) (Native_laws sample_dir) sample_catalogue sample_file.
Proof. split; [done|apply sample_torrent_valid]. Qed.

Lemma sample_block_known o : (0 <= o <= 2)%Z -> block_known sample_catalogue (sample_part o 2).
Proof.
  intros Ho i Hi. unfold sample_catalogue in Hi. apply lookup_singleton_Some in Hi as [_ <-]. split; simpl; try done; unfold piece_size, torrent_size; simpl; lia.
Qed.

Lemma pieces_reported_truly_witness :
  let s := @disk_run OsState nat (NativeFileSystem sample_dir) true sample_sha1 sample_events (TaskHandler_new 0 sample_disk) in
  exists msgs, sent (sh_out (shared (@disk_step OsState nat (NativeFileSystem sample_dir) true sample_sha1 (RunJob 0 [0%Z]) s))) = sent (sh_out (shared s)) ++ msgs /\
    forall h k,
      (FoundGoodPiece h k ∈ msgs -> exists i data, sample_catalogue !! h = Some i /\
        @piece_data OsState nat (NativeFileSystem sample_dir) (Native_laws sample_dir) i (@view OsState nat (NativeFileSystem sample_dir) (Native_laws sample_dir) (sh_fs (shared s))) k data /\
        pieces i !! Z.to_nat k = Some (hash (@ShaHash_from_bytes sample_sha1 data))) /\
      (FoundBadPiece h k ∈ msgs -> exists i data, sample_catalogue !! h = Some i /\
        @piece_data OsState nat (NativeFileSystem sample_dir) (Native_laws sample_dir) i (@view OsState nat (NativeFileSystem sample_dir) (Native_laws sample_dir) (sh_fs (shared s))) k data /\
        pieces i !! Z.to_nat k <> Some (hash (@ShaHash_from_bytes sample_sha1 data))).
Proof.
  refine (@pieces_reported_truly OsState nat (NativeFileSystem sample_dir) (Native_laws sample_dir) true sample_sha1 sample_catalogue 0
    sample_disk sample_events (RunJob 0 [0%Z]) _ _).
  - by constructor.
  - repeat (apply Forall_cons; split); try exact I; [apply sample_known|by apply sample_block_known..|constructor].
Defined.

Lemma downloads_stay_armed_witness :
  let s := @disk_run OsState nat (NativeFileSystem sample_dir) true sample_sha1 (take 1 sample_events) (TaskHandler_new 0 sample_disk) in
  (is_run s = true /\ info_hash sample_torrent ∈ download_active s) /\ exists k, (k, info_hash sample_torrent) ∈ contents (timer s).
Proof.
  refine ((fun R => conj R (@downloads_stay_armed OsState nat (NativeFileSystem sample_dir) true sample_sha1 0 sample_disk
    (take 1 sample_events) _ (proj1 R) _ (proj2 R))) _); [done|].
  split; [reflexivity|]. apply (bool_decide_eq_true_1 _). reflexivity.
Defined.
