(* ===== verification/PeerInfo.v ===== *)
(** PeerInfo: the identity of a peer ([btp-peer/src/handler/peer_info.rs]) and the
    builder of its extended message ([btp-peer/src/message/bits_ext/extended.rs]).

    A set of peers is a map from what identifies a peer to the value that was
    inserted first. *)

From stdpp Require Import base list gmap.
From Stdlib Require Import ZArith Lia.
From S2P Require Import Prelude Effects Bencode Convert ShaHash Handshake PeerMessage.

(** * Walking a hash map

    The order is not known, only that it lists the entries. *)

Class HashOrder := {
  entries : forall {K A : Type} `{Countable K}, gmap K A -> list (K * A);
  entries_perm : forall {K A : Type} `{Countable K} (m : gmap K A), entries m ≡ₚ map_to_list m;
}.

(** * handler/peer_info.rs *)

Record PeerInfo := { addr : SocketAddr; pid : ShaHash; peer_hash : ShaHash; ext : Extensions }.

Definition PeerInfo_new (a : SocketAddr) (p h : ShaHash) (extensions : Extensions) : PeerInfo :=
  {| addr := a; pid := p; peer_hash := h; ext := extensions |}.

(** What [PartialEq] and [Hash] look at. *)
Definition peer_key : Type := SocketAddr * ShaHash * ShaHash.
Definition key_of (i : PeerInfo) : peer_key := (addr i, pid i, peer_hash i).
Definition PeerInfo_eq (i j : PeerInfo) : bool :=
  bool_decide (addr i = addr j) && bool_decide (pid i = pid j) && bool_decide (peer_hash i = peer_hash j).

(** [HashSet<PeerInfo>]: inserting a peer that is there keeps the old value. *)
Notation peer_set := (gmap peer_key PeerInfo).
Definition peers_insert (i : PeerInfo) (s : peer_set) : peer_set :=
  match s !! key_of i with Some _ => s | None => <[key_of i := i]> s end.
Definition peers_remove (i : PeerInfo) (s : peer_set) : peer_set := delete (key_of i) s.

(** * The builder of an extended message *)

Definition ExtendedMessageBuilder_new : ExtendedMessageBuilder := {|
  b_id_map := ∅; b_our_id := None; b_our_tcp_port := None; b_their_ip := None; b_our_ipv6_addr := None;
  b_our_ipv4_addr := None; b_our_max_requests := None; b_metadata_size := None; b_custom_entries := ∅ |}.

Definition ExtendedMessageBuilder_eta (b : ExtendedMessageBuilder) : ExtendedMessageBuilder := {|
  b_id_map := b_id_map b; b_our_id := b_our_id b; b_our_tcp_port := b_our_tcp_port b; b_their_ip := b_their_ip b;
  b_our_ipv6_addr := b_our_ipv6_addr b; b_our_ipv4_addr := b_our_ipv4_addr b; b_our_max_requests := b_our_max_requests b;
  b_metadata_size := b_metadata_size b; b_custom_entries := b_custom_entries b |}.
#[global] Instance up_b_id_map : FieldUpdate b_id_map := ltac:(field_update ExtendedMessageBuilder_eta b_id_map).
#[global] Instance up_b_our_id : FieldUpdate b_our_id := ltac:(field_update ExtendedMessageBuilder_eta b_our_id).
#[global] Instance up_b_our_tcp_port : FieldUpdate b_our_tcp_port := ltac:(field_update ExtendedMessageBuilder_eta b_our_tcp_port).
#[global] Instance up_b_their_ip : FieldUpdate b_their_ip := ltac:(field_update ExtendedMessageBuilder_eta b_their_ip).
#[global] Instance up_b_our_ipv6_addr : FieldUpdate b_our_ipv6_addr := ltac:(field_update ExtendedMessageBuilder_eta b_our_ipv6_addr).
#[global] Instance up_b_our_ipv4_addr : FieldUpdate b_our_ipv4_addr := ltac:(field_update ExtendedMessageBuilder_eta b_our_ipv4_addr).
#[global] Instance up_b_our_max_requests : FieldUpdate b_our_max_requests := ltac:(field_update ExtendedMessageBuilder_eta b_our_max_requests).
#[global] Instance up_b_metadata_size : FieldUpdate b_metadata_size := ltac:(field_update ExtendedMessageBuilder_eta b_metadata_size).
#[global] Instance up_b_custom_entries : FieldUpdate b_custom_entries := ltac:(field_update ExtendedMessageBuilder_eta b_custom_entries).

Definition with_our_id (id : option bytes) (b : ExtendedMessageBuilder) : ExtendedMessageBuilder := b <| b_our_id := id |>.
Definition with_extended_type (ext_type : ExtendedType) (opt_value : option Z) (b : ExtendedMessageBuilder) : ExtendedMessageBuilder :=
  match opt_value with
  | Some value => b <| b_id_map := <[ext_type := value]> (b_id_map b) |>
  | None => b <| b_id_map := delete ext_type (b_id_map b) |>
  end.
Definition with_our_tcp_port (tcp : option Z) (b : ExtendedMessageBuilder) : ExtendedMessageBuilder := b <| b_our_tcp_port := tcp |>.
Definition with_their_ip (ip : option IpAddr) (b : ExtendedMessageBuilder) : ExtendedMessageBuilder := b <| b_their_ip := ip |>.
Definition with_our_ipv6_addr (ip : option Ipv6Addr) (b : ExtendedMessageBuilder) : ExtendedMessageBuilder := b <| b_our_ipv6_addr := ip |>.
Definition with_our_ipv4_addr (ip : option Ipv4Addr) (b : ExtendedMessageBuilder) : ExtendedMessageBuilder := b <| b_our_ipv4_addr := ip |>.
Definition with_max_requests (n : option Z) (b : ExtendedMessageBuilder) : ExtendedMessageBuilder := b <| b_our_max_requests := n |>.
Definition with_metadata_size (n : option Z) (b : ExtendedMessageBuilder) : ExtendedMessageBuilder := b <| b_metadata_size := n |>.
Definition with_custom_entry (k : bytes) (opt_value : option BencodeMut) (b : ExtendedMessageBuilder) : ExtendedMessageBuilder :=
  match opt_value with
  | Some value => b <| b_custom_entries := <[k := value]> (b_custom_entries b) |>
  | None => b <| b_custom_entries := delete k (b_custom_entries b) |>
  end.
Definition ext_build (b : ExtendedMessageBuilder) : ExtendedMessage := from_builder b.
