(* ===== verification/Select.v ===== *)
(** Select: [btp-select], the modules that decide what to tell peers.

    - discovery/ut_metadata.rs: downloading the info dictionary of a torrent
      from peers in pieces of 16 KiB, and serving it.
    - extended/mod.rs: the extended handshake with each peer, which the discovery
      modules take part in.
    - revelation/honest.rs: telling peers which pieces we have.
    - uber.rs: the module that hands messages to all of the others.

    Hash maps and sets are finite maps; the order in which Rust walks one is the
    class [HashOrder], and it may differ from one call to the next.  Times are in
    nanoseconds. *)

From stdpp Require Import base list gmap.
From Stdlib Require Import ZArith Lia.
From Stdlib Require String.
From S2P Require Import Prelude Effects OrdMap Bencode Convert ShaHash Handshake Tracker Metainfo MetainfoCorrect PeerMessage PeerInfo.

(** A [for] loop that collects whether some turn answered [true]. *)
Fixpoint for_any {S E A} (l : list A) (f : A -> St S E bool) : St S E bool :=
  match l with
  | [] => mret false
  | a :: l' => b ← f a; r ← for_any l' f; mret (b || r)
  end.

(** [let r = m; k; r]: the second part runs whether the first failed or not. *)
Definition finally {S E A} (m : St S E A) (k : St S E unit) : St S E A := fun s =>
  let '(r, s1) := m s in
  match r with
  | Ok _ | Err _ =>
      match k s1 with
      | (Ok _, s2) => (r, s2)
      | (Err e, s2) => (Err e, s2)
      | (Panic, s2) => (Panic, s2)
      | (NoFuel, s2) => (NoFuel, s2)
      end
  | Panic => (Panic, s1)
  | NoFuel => (NoFuel, s1)
  end.

(** [m.or_else(k)] on an [Option] *)
Definition or_else {S E A} (m k : St S E (option A)) : St S E (option A) :=
  r ← m; match r with Some a => mret (Some a) | None => k end.

(** * base/mod.rs and discovery/mod.rs *)

Inductive ControlMessage : Type :=
  | AddTorrent (metainfo : Metainfo)
  | RemoveTorrent (metainfo : Metainfo)
  | PeerConnected (info : PeerInfo)
  | PeerDisconnected (info : PeerInfo)
  | Tick (duration : Z).

Inductive IDiscoveryMessage : Type :=
  | IControl (m : ControlMessage)
  | DownloadMetainfo (hash : ShaHash)
  | ReceivedUtMetadataMessage (info : PeerInfo) (m : UtMetadataMessage).

Inductive ODiscoveryMessage : Type :=
  | SendDhtAnnounce (hash : ShaHash)
  | SendUdpTrackerAnnounce (hash : ShaHash) (a : SocketAddr) (state : ClientState)
  | SendUtMetadataMessage (info : PeerInfo) (m : UtMetadataMessage)
  | DownloadedMetainfo (metainfo : Metainfo).

(** discovery/error.rs *)
Inductive DiscoveryError : Type :=
  | DInvalidMessage (info : PeerInfo) (message : bytes)
  | DInvalidMetainfoExists (hash : ShaHash)
  | DInvalidMetainfoNotExists (hash : ShaHash).

(** extended/mod.rs: both sides of the extended handshake with a peer. *)
Record ExtendedPeerInfo := { ours : option ExtendedMessage; theirs : option ExtendedMessage }.

Definition ExtendedPeerInfo_new (o t : option ExtendedMessage) : ExtendedPeerInfo := {| ours := o; theirs := t |}.
Definition update_ours (m : ExtendedMessage) (i : ExtendedPeerInfo) : ExtendedPeerInfo := {| ours := Some m; theirs := theirs i |}.
Definition update_theirs (m : ExtendedMessage) (i : ExtendedPeerInfo) : ExtendedPeerInfo := {| ours := ours i; theirs := Some m |}.
Definition our_message (i : ExtendedPeerInfo) : option ExtendedMessage := ours i.
Definition their_message (i : ExtendedPeerInfo) : option ExtendedMessage := theirs i.

(** What the other modules know of a discovery module: [ExtendedListener] and
    [Run].  [on_update] has no error to return, but may panic. *)
Class DiscoveryTrait (D : Type) := {
  extend : D -> PeerInfo -> ExtendedMessageBuilder -> ExtendedMessageBuilder;
  on_update : PeerInfo -> ExtendedPeerInfo -> St D Empty_set unit;
  run_send : IDiscoveryMessage -> St D DiscoveryError (option IDiscoveryMessage);
  run_poll : St D DiscoveryError (option ODiscoveryMessage);
}.

(** * discovery/ut_metadata.rs *)

Definition REQUEST_TIMEOUT_MILLIS : Z := 5000.
Definition MAX_REQUEST_SIZE : Z := 16 * 1024.
Definition MAX_ACTIVE_REQUESTS : nat := 100.
Definition MAX_PEER_REQUESTS : nat := 100.
Definition NANOS_PER_MILLI : Z := 1000000.

Record PendingInfo := { messages : list UtMetadataRequestMessage; left : Z; pending_bytes : bytes }.
Record ActiveRequest := { ar_left : Z; ar_message : UtMetadataRequestMessage; sent_to : PeerInfo }.
Record PeerRequest := { send_to : PeerInfo; request : UtMetadataRequestMessage }.
Record ActivePeers := { peers : peer_set; ap_metadata_size : Z }.

Record UtMetadataModule := {
  completed_map : gmap ShaHash bytes;
  pending_map : gmap ShaHash (option PendingInfo);
  active_requests : list ActiveRequest;
  active_peers : gmap ShaHash ActivePeers;
  peer_requests : list PeerRequest;
}.

Definition UtMetadataModule_eta (s : UtMetadataModule) : UtMetadataModule := {|
  completed_map := completed_map s; pending_map := pending_map s; active_requests := active_requests s;
  active_peers := active_peers s; peer_requests := peer_requests s |}.
#[global] Instance up_completed_map : FieldUpdate completed_map := ltac:(field_update UtMetadataModule_eta completed_map).
#[global] Instance up_pending_map : FieldUpdate pending_map := ltac:(field_update UtMetadataModule_eta pending_map).
#[global] Instance up_active_requests : FieldUpdate active_requests := ltac:(field_update UtMetadataModule_eta active_requests).
#[global] Instance up_active_peers : FieldUpdate active_peers := ltac:(field_update UtMetadataModule_eta active_peers).
#[global] Instance up_peer_requests : FieldUpdate peer_requests := ltac:(field_update UtMetadataModule_eta peer_requests).

Ltac ut_fields := cbn [update_field up_completed_map up_pending_map up_active_requests up_active_peers up_peer_requests
  completed_map pending_map active_requests active_peers peer_requests] in *.

Definition UtMetadataModule_new : UtMetadataModule :=
  {| completed_map := ∅; pending_map := ∅; active_requests := []; active_peers := ∅; peer_requests := [] |}.

(** The largest allocation: more bytes than [isize::MAX] is a capacity overflow. *)
Definition ISIZE_MAX : Z := 9223372036854775807.

(** [pending_info_from_metadata_size] *)
Definition pending_info_from_metadata_size {E} (metadata_size : Z) : outcome E PendingInfo :=
  let cast_metadata_size := to_u64 metadata_size in
  if (ISIZE_MAX <? cast_metadata_size)%Z then Panic else
  let bytes := replicate (Z.to_nat cast_metadata_size) 0%Z in
  let num_pieces := (if negb (cast_metadata_size mod MAX_REQUEST_SIZE =? 0) then cast_metadata_size / MAX_REQUEST_SIZE + 1
                     else cast_metadata_size / MAX_REQUEST_SIZE)%Z in
  Ok {| messages := (fun index => UtMetadataRequestMessage_new (to_i64 (Z.of_nat index))) <$> seq 0 (Z.to_nat num_pieces);
        left := num_pieces; pending_bytes := bytes |}.

Definition generate_active_request (message : UtMetadataRequestMessage) (peer : PeerInfo) : ActiveRequest :=
  {| ar_left := REQUEST_TIMEOUT_MILLIS * NANOS_PER_MILLI; ar_message := message; sent_to := peer |}.

Section UtMetadata.
Context `{Sha1} `{Profile} `{HashOrder}.

Definition UtM : Type -> Type := St UtMetadataModule DiscoveryError.

Definition ut_add_torrent (metainfo : Metainfo) : UtM (option IDiscoveryMessage) :=
  s ← get;
  let h := info_hash (info metainfo) in
  match completed_map s !! h with
  | Some _ => fail (DInvalidMetainfoExists h)
  | None =>
      info_bytes ← lift_unwrap (Info_to_bytes (hashing (Info_accessor (info metainfo))) (info metainfo));
      _ ← modify (fun s => s <| completed_map := <[h := info_bytes]> (completed_map s) |>);
      mret None
  end.

Definition ut_remove_torrent (metainfo : Metainfo) : UtM (option IDiscoveryMessage) :=
  s ← get;
  let h := info_hash (info metainfo) in
  _ ← modify (fun s => s <| completed_map := delete h (completed_map s) |>);
  match completed_map s !! h with
  | None => fail (DInvalidMetainfoNotExists h)
  | Some _ => mret None
  end.

Definition ut_add_peer (info : PeerInfo) (ext_info : ExtendedPeerInfo) : UtM (option IDiscoveryMessage) :=
  let our_support := our_message ext_info ≫= fun msg => query_id msg UtMetadata in
  let they_support := their_message ext_info ≫= fun msg => query_id msg UtMetadata in
  let opt_metadata_size := their_message ext_info ≫= metadata_size in
  _ ← match our_support, they_support, opt_metadata_size with
      | Some _, Some _, Some metadata_size =>
          modify (fun s =>
            let active := default {| peers := ∅; ap_metadata_size := metadata_size |} (active_peers s !! peer_hash info) in
            s <| active_peers := <[peer_hash info :=
                   {| peers := peers_insert info (peers active); ap_metadata_size := ap_metadata_size active |}]> (active_peers s) |>)
      | _, _, _ => mret tt
      end;
  mret None.

Definition ut_remove_peer (info : PeerInfo) : UtM (option IDiscoveryMessage) :=
  s ← get;
  _ ← match active_peers s !! peer_hash info with
      | Some active =>
          let left_over := peers_remove info (peers active) in
          _ ← modify (fun s => s <| active_peers :=
                <[peer_hash info := {| peers := left_over; ap_metadata_size := ap_metadata_size active |}]> (active_peers s) |>);
          when (bool_decide (left_over = ∅)) (modify (fun s => s <| active_peers := delete (peer_hash info) (active_peers s) |>))
      | None => mret tt
      end;
  mret None.

(** The closure of [retain] for a request that expired. *)
Definition expire (r : ActiveRequest) (s : UtMetadataModule) : UtMetadataModule :=
  let h := peer_hash (sent_to r) in
  s <| active_peers := alter (fun active =>
         {| peers := peers_remove (sent_to r) (peers active); ap_metadata_size := ap_metadata_size active |}) h (active_peers s) |>
    <| pending_map := alter (fun opt_pending => (fun pending =>
         {| messages := messages pending ++ [ar_message r]; left := left pending; pending_bytes := pending_bytes pending |}) <$> opt_pending) h (pending_map s) |>.

Fixpoint retain_active (duration : Z) (requests : list ActiveRequest) : UtM (list ActiveRequest) :=
  match requests with
  | [] => mret []
  | r :: rest =>
      let is_expired := (ar_left r <? duration)%Z in
      _ ← when is_expired (modify (expire r));
      kept ← retain_active duration rest;
      mret (if negb is_expired then r :: kept else kept)
  end.

(** [active_request.left -= duration]: subtracting a longer duration panics. *)
Fixpoint subtract_all (duration : Z) (requests : list ActiveRequest) : outcome DiscoveryError (list ActiveRequest) :=
  match requests with
  | [] => Ok []
  | r :: rest =>
      if (ar_left r <? duration)%Z then Panic else
      rest' ← subtract_all duration rest;
      Ok ({| ar_left := ar_left r - duration; ar_message := ar_message r; sent_to := sent_to r |} :: rest')
  end.

Definition apply_tick (duration : Z) : UtM (option IDiscoveryMessage) :=
  s ← get;
  kept ← retain_active duration (active_requests s);
  _ ← modify (fun s => s <| active_requests := kept |>);
  lefts ← lift (subtract_all duration kept);
  _ ← modify (fun s => s <| active_requests := lefts |>);
  mret None.

Definition download_metainfo (h : ShaHash) : UtM (option IDiscoveryMessage) :=
  s ← get;
  _ ← when (negb (bool_decide (is_Some (pending_map s !! h))))
        (modify (fun s => s <| pending_map := <[h := None]> (pending_map s) |>));
  mret None.

Definition recv_request (info : PeerInfo) (r : UtMetadataRequestMessage) : UtM (option IDiscoveryMessage) :=
  s ← get;
  if length (peer_requests s) =? MAX_PEER_REQUESTS then mret (Some (ReceivedUtMetadataMessage info (UmRequest r)))
  else
    _ ← modify (fun s => s <| peer_requests := peer_requests s ++ [{| send_to := info; request := r |}] |>);
    mret None.

(** [write] into the tail of a buffer: what does not fit is left out. *)
Definition write_at (offset : nat) (data buf : bytes) : bytes := overwrite offset buf (take (length buf - offset) data).

Definition recv_data (info : PeerInfo) (data : UtMetadataDataMessage) : UtM (option IDiscoveryMessage) :=
  s ← get;
  _ ← match position (fun r => PeerInfo_eq (sent_to r) info && (umr_piece (ar_message r) =? umd_piece data)%Z) (active_requests s) with
      | Some index =>
          _ ← modify (fun s => s <| active_requests := swap_remove index (active_requests s) |>);
          match pending_map s !! peer_hash info with
          | Some (Some pending) =>
              data_offset ← lift (u64_arith (to_u64 (umd_piece data) * MAX_REQUEST_SIZE));
              left' ← lift (u64_arith (left pending - 1));
              _ ← lift (slice_from (pending_bytes pending) (Z.to_nat data_offset));
              modify (fun s => s <| pending_map := <[peer_hash info := Some {|
                messages := messages pending; left := left';
                pending_bytes := write_at (Z.to_nat data_offset) (umd_data data) (pending_bytes pending) |}]> (pending_map s) |>)
          | _ => mret tt
          end
      | None => mret tt
      end;
  mret None.

Definition recv_reject (info : PeerInfo) (reject : UtMetadataRejectMessage) : UtM (option IDiscoveryMessage) := mret None.

(** Whether a download has all of its pieces. *)
Definition is_complete_download (opt_pending : option PendingInfo) : bool :=
  match opt_pending with Some pending => (left pending =? 0)%Z | None => false end.

(** [retrieve_completed_download] calls itself after it removed a download: the
    fuel is the number of downloads. *)
Fixpoint retrieve_completed (fuel : nat) : UtM (option ODiscoveryMessage) :=
  match fuel with
  | O => lift NoFuel
  | S fuel' =>
      s ← get;
      match find (fun e => is_complete_download e.2) (entries (pending_map s)) with
      | None => mret None
      | Some (completed_hash, _) =>
          completed ← lift (opt_unwrap (mjoin (pending_map s !! completed_hash)));
          _ ← modify (fun s => s <| pending_map := delete completed_hash (pending_map s) |>);
          _ ← modify (fun s => s <| active_peers := delete completed_hash (active_peers s) |>);
          match Info_from_bytes (pending_bytes completed) with
          | Ok i => mret (Some (DownloadedMetainfo (Metainfo_from i)))
          | Err _ => retrieve_completed fuel'
          | Panic => lift Panic
          | NoFuel => lift NoFuel
          end
      end
  end.

Definition retrieve_completed_download : UtM (option ODiscoveryMessage) :=
  s ← get; retrieve_completed (S (size (pending_map s))).

Definition has_ready_requests (opt_pending : option PendingInfo) : bool :=
  match opt_pending with Some pending => negb (bool_decide (messages pending = [])) | None => false end.
Definition has_active_peers (s : UtMetadataModule) (h : ShaHash) : bool :=
  match active_peers s !! h with Some active => negb (bool_decide (peers active = ∅)) | None => false end.

(** [rng] is the [u32] the thread's generator gives. *)
Definition retrieve_piece_request (rng : Z) : UtM (option ODiscoveryMessage) :=
  s ← get;
  match find (fun e => has_ready_requests e.2 && has_active_peers s e.1) (entries (pending_map s)) with
  | None => mret None
  | Some (h, opt_pending) =>
      pending ← lift (opt_unwrap opt_pending);
      active ← lift (opt_unwrap (active_peers s !! h));
      let candidates := snd <$> entries (peers active) in
      let num_active_peers := Z.of_nat (length candidates) in
      selected_peer_num ← lift (if (num_active_peers =? 0)%Z then Panic else Ok (rng mod num_active_peers)%Z);
      selected_peer ← lift (index candidates (Z.to_nat selected_peer_num));
      selected_message ← lift (opt_unwrap (last (messages pending)));
      _ ← modify (fun s => s <| pending_map := <[h := Some {|
            messages := take (length (messages pending) - 1) (messages pending); left := left pending;
            pending_bytes := pending_bytes pending |}]> (pending_map s) |>);
      _ ← modify (fun s => s <| active_requests := active_requests s ++ [generate_active_request selected_message selected_peer] |>);
      mret (Some (SendUtMetadataMessage selected_peer (UmRequest selected_message)))
  end.

(** [while let Some(request) = self.peer_requests.pop_front()] *)
Fixpoint answer_requests (requests : list PeerRequest) : UtM (option ODiscoveryMessage) :=
  match requests with
  | [] => mret None
  | r :: rest =>
      _ ← modify (fun s => s <| peer_requests := rest |>);
      s ← get;
      let piece := umr_piece (request r) in
      start ← lift (u64_arith (to_u64 piece * MAX_REQUEST_SIZE));
      end_ ← lift (u64_arith (start + MAX_REQUEST_SIZE));
      match completed_map s !! peer_hash (send_to r) with
      | Some data =>
          let len := Z.of_nat (length data) in
          if ((start <=? len) && (end_ <=? len))%Z then
            info_slice ← lift (slice data (Z.to_nat start) (Z.to_nat end_));
            mret (Some (SendUtMetadataMessage (send_to r)
              (UmData (UtMetadataDataMessage_new piece (Z.of_nat (length info_slice)) info_slice))))
          else answer_requests rest
      | None => answer_requests rest
      end
  end.

Definition retrieve_piece_response : UtM (option ODiscoveryMessage) := s ← get; answer_requests (peer_requests s).

Definition initialize_pending : UtM bool :=
  s ← get;
  for_any (entries (pending_map s)) (fun '(h, opt_pending) =>
    opt_pending' ← match opt_pending, active_peers s !! h with
                   | None, Some active => Some <$> lift (pending_info_from_metadata_size (ap_metadata_size active))
                   | _, _ => mret opt_pending
                   end;
    _ ← modify (fun s => s <| pending_map := <[h := opt_pending']> (pending_map s) |>);
    mret (has_ready_requests opt_pending')).

Definition validate_downloaded : UtM bool :=
  s ← get;
  for_any (entries (pending_map s)) (fun '(expected_hash, opt_pending) =>
    let needs_reset := match opt_pending with
                       | Some pending => negb (bool_decide (ShaHash_from_bytes (pending_bytes pending) = expected_hash))
                       | None => false
                       end in
    let should_reset := is_complete_download opt_pending && needs_reset in
    _ ← when should_reset (modify (fun s => s <| pending_map := <[expected_hash := None]> (pending_map s) |>));
    mret (is_complete_download opt_pending && negb needs_reset)).

(** The flags it computes are not used. *)
Definition check_stream_unblock : UtM unit :=
  _ ← initialize_pending;
  _ ← validate_downloaded;
  mret tt.

Definition ut_dispatch (item : IDiscoveryMessage) : UtM (option IDiscoveryMessage) :=
  match item with
  | IControl (AddTorrent metainfo) => ut_add_torrent metainfo
  | IControl (RemoveTorrent metainfo) => ut_remove_torrent metainfo
  | IControl (PeerConnected _) => mret None
  | IControl (PeerDisconnected info) => ut_remove_peer info
  | IControl (Tick duration) => apply_tick duration
  | DownloadMetainfo h => download_metainfo h
  | ReceivedUtMetadataMessage info (UmRequest msg) => recv_request info msg
  | ReceivedUtMetadataMessage info (UmData msg) => recv_data info msg
  | ReceivedUtMetadataMessage info (UmReject msg) => recv_reject info msg
  end.

Definition ut_send (item : IDiscoveryMessage) : UtM (option IDiscoveryMessage) :=
  finally (ut_dispatch item) check_stream_unblock.

Definition ut_poll (rng : Z) : UtM (option ODiscoveryMessage) :=
  or_else (or_else retrieve_completed_download (retrieve_piece_request rng)) retrieve_piece_response.

(** [impl ExtendedListener] *)
Definition ut_extend (builder : ExtendedMessageBuilder) : ExtendedMessageBuilder :=
  with_extended_type UtMetadata (Some 5%Z) builder.

Definition ut_on_update (info : PeerInfo) (extended : ExtendedPeerInfo) : St UtMetadataModule Empty_set unit := fun s =>
  let '(r, s') := ut_add_peer info extended s in (_ ← unwrap r; Ok tt, s').

Definition UtMetadata_discovery (rng : Z) : DiscoveryTrait UtMetadataModule := {|
  extend := fun _ _ => ut_extend;
  on_update := ut_on_update;
  run_send := ut_send;
  run_poll := ut_poll rng;
|}.
End UtMetadata.

(** * extended/mod.rs *)

Inductive IExtendedMessage : Type :=
  | EControl (m : ControlMessage)
  | RecievedExtendedMessage (info : PeerInfo) (m : ExtendedMessage).

Inductive OExtendedMessage : Type :=
  | SendExtendedMessage (info : PeerInfo) (m : ExtendedMessage).

Record ExtendedModule := {
  ext_builder : ExtendedMessageBuilder;
  ext_peers : gmap peer_key ExtendedPeerInfo;
  ext_out_queue : list OExtendedMessage;
}.

Definition ExtendedModule_new (b : ExtendedMessageBuilder) : ExtendedModule :=
  {| ext_builder := b; ext_peers := ∅; ext_out_queue := [] |}.

Section ExtendedModule.
Context {D : Type} `{DiscoveryTrait D}.

(** [for d_module in d_modules { d_module.on_update(..) }] *)
Fixpoint update_modules (info : PeerInfo) (i : ExtendedPeerInfo) (ds : list D) : outcome Empty_set unit * list D :=
  match ds with
  | [] => (Ok tt, [])
  | d :: ds' =>
      match on_update info i d with
      | (Ok _, d') => let '(r, ds'') := update_modules info i ds' in (r, d' :: ds'')
      | (r, d') => (r, d' :: ds')
      end
  end.

Definition process_message (message : IExtendedMessage) : St (ExtendedModule * list D) Empty_set unit := fun '(m, ds) =>
  match message with
  | EControl (PeerConnected info) =>
      let builder := fold_left (fun b d => extend d info b) ds (ext_builder m) in
      let ext_message := ext_build builder in
      let ext_peer_info := ExtendedPeerInfo_new (Some ext_message) None in
      match update_modules info ext_peer_info ds with
      | (Ok _, ds') =>
          (Ok tt, ({| ext_builder := ext_builder m; ext_peers := <[key_of info := ext_peer_info]> (ext_peers m);
                      ext_out_queue := ext_out_queue m ++ [SendExtendedMessage info ext_message] |}, ds'))
      | (r, ds') => (r, (m, ds'))
      end
  | EControl (PeerDisconnected info) =>
      (Ok tt, ({| ext_builder := ext_builder m; ext_peers := delete (key_of info) (ext_peers m); ext_out_queue := ext_out_queue m |}, ds))
  | RecievedExtendedMessage info ext_message =>
      match ext_peers m !! key_of info with
      | Some i =>
          let ext_peer_info := update_theirs ext_message i in
          let m' := {| ext_builder := ext_builder m; ext_peers := <[key_of info := ext_peer_info]> (ext_peers m);
                       ext_out_queue := ext_out_queue m |} in
          let '(r, ds') := update_modules info ext_peer_info ds in (r, (m', ds'))
      | None => (Ok tt, (m, ds))
      end
  | _ => (Ok tt, (m, ds))
  end.
End ExtendedModule.

(** error.rs *)
Inductive UberError : Type := UDiscovery (e : DiscoveryError).

(** [ExtendedModule::poll] *)
Definition ext_poll : St ExtendedModule UberError (option OExtendedMessage) := fun m =>
  (Ok (head (ext_out_queue m)),
   {| ext_builder := ext_builder m; ext_peers := ext_peers m; ext_out_queue := tail (ext_out_queue m) |}).

(** * uber.rs *)

Inductive IUberMessage : Type :=
  | UControl (m : ControlMessage)
  | UExtended (m : IExtendedMessage)
  | UDiscover (m : IDiscoveryMessage).

Inductive OUberMessage : Type :=
  | OExtended (m : OExtendedMessage)
  | ODiscover (m : ODiscoveryMessage).

Inductive ModuleState : Type := StExtended | StDiscovery (index : nat).

Record UberModuleBuilder (D : Type) := { ub_ext_builder : option ExtendedMessageBuilder; ub_discovery : list D }.
Arguments ub_ext_builder {D} u.
Arguments ub_discovery {D} u.

Record UberModule (D : Type) := {
  extended : option ExtendedModule;
  discovery : list D;
  last_sink_state : option ModuleState;
  last_stream_state : option ModuleState;
}.
Arguments extended {D} u.
Arguments discovery {D} u.
Arguments last_sink_state {D} u.
Arguments last_stream_state {D} u.

Section Builder.
Context {D : Type}.
Definition UberModuleBuilder_new : UberModuleBuilder D := {| ub_ext_builder := None; ub_discovery := [] |}.
Definition with_extended_builder (b : option ExtendedMessageBuilder) (u : UberModuleBuilder D) : UberModuleBuilder D :=
  {| ub_ext_builder := b; ub_discovery := ub_discovery u |}.
Definition with_discovery_module (d : D) (u : UberModuleBuilder D) : UberModuleBuilder D :=
  {| ub_ext_builder := ub_ext_builder u; ub_discovery := ub_discovery u ++ [d] |}.
Definition uber_from_builder (u : UberModuleBuilder D) : UberModule D :=
  {| extended := ExtendedModule_new <$> ub_ext_builder u; discovery := ub_discovery u; last_sink_state := None; last_stream_state := None |}.
Definition uber_build (u : UberModuleBuilder D) : UberModule D := uber_from_builder u.

Definition next_state (u : UberModule D) (state : option ModuleState) : option ModuleState :=
  match state with
  | None =>
      if bool_decide (is_Some (extended u)) then Some StExtended
      else if negb (length (discovery u) =? 0) then Some (StDiscovery 0)
      else None
  | Some StExtended => if negb (length (discovery u) =? 0) then Some (StDiscovery 0) else None
  | Some (StDiscovery index) => if index + 1 <? length (discovery u) then Some (StDiscovery (index + 1)) else None
  end.

(** [loop_states]: the fuel bounds the turns of the [loop]. *)
Fixpoint loop_states {R} (fuel : nat) (is_sink : bool) (result : outcome UberError (option R))
    (get_next_state : UberModule D -> option ModuleState) (assign_state : option ModuleState -> UberModule D -> UberModule D)
    (logic : ModuleState -> St (UberModule D) UberError (option R)) : St (UberModule D) UberError (option R) := fun u =>
  match fuel with
  | O => (NoFuel, u)
  | S fuel' =>
      match get_next_state u with
      | None => (result, assign_state None u)
      | Some state =>
          let '(result', u') := logic state u in
          let should_continue := match result' with
            | Ok var => is_sink || negb is_sink && bool_decide (var = None)
            | _ => false
            end in
          if should_continue then loop_states fuel' is_sink result' get_next_state assign_state logic (assign_state (Some state) u')
          else (result', u')
      end
  end.

(** One turn for each module, and the one that finds no next module. *)
Definition loop_fuel (u : UberModule D) : nat := length (discovery u) + 2.

Definition set_sink (state : option ModuleState) (u : UberModule D) : UberModule D :=
  {| extended := extended u; discovery := discovery u; last_sink_state := state; last_stream_state := last_stream_state u |}.
Definition set_stream (state : option ModuleState) (u : UberModule D) : UberModule D :=
  {| extended := extended u; discovery := discovery u; last_sink_state := last_sink_state u; last_stream_state := state |}.
Definition set_extended (m : option ExtendedModule) (u : UberModule D) : UberModule D :=
  {| extended := m; discovery := discovery u; last_sink_state := last_sink_state u; last_stream_state := last_stream_state u |}.
Definition set_discovery (ds : list D) (u : UberModule D) : UberModule D :=
  {| extended := extended u; discovery := ds; last_sink_state := last_sink_state u; last_stream_state := last_stream_state u |}.
End Builder.

Section Uber.
Context {D : Type} `{DiscoveryTrait D}.

(** A call on the extended module, if there is one, with the discovery modules. *)
Definition on_extended {R} (message : IExtendedMessage) : St (UberModule D) UberError (option R) := fun u =>
  match extended u with
  | Some m =>
      let '(r, (m', ds')) := process_message message (m, discovery u) in
      (_ ← unwrap r; Ok None, set_discovery ds' (set_extended (Some m') u))
  | None => (Ok None, u)
  end.

(** A call on [self.discovery[index]]; its errors become [UberError]s. *)
Definition on_discovery {A} (index : nat) (m : St D DiscoveryError A) : St (UberModule D) UberError A := fun u =>
  match discovery u !! index with
  | Some d => let '(r, d') := m d in (map_err UDiscovery r, set_discovery (<[index := d']> (discovery u)) u)
  | None => (Panic, u)
  end.

Definition sink_logic (message : IUberMessage) (state : ModuleState) : St (UberModule D) UberError (option unit) :=
  match state, message with
  | StExtended, UControl control => on_extended (EControl control)
  | StExtended, UExtended e => on_extended e
  | StDiscovery index, UControl control => fmap (fun _ => tt) <$> on_discovery index (run_send (IControl control))
  | StDiscovery index, UDiscover d => fmap (fun _ => tt) <$> on_discovery index (run_send d)
  | _, _ => mret None
  end.

Definition start_sink_state (message : IUberMessage) : St (UberModule D) UberError (option unit) := fun u =>
  loop_states (loop_fuel u) true (Ok None) (fun u => next_state u (last_sink_state u)) set_sink (sink_logic message) u.

Definition poll_extended : St (UberModule D) UberError (option OUberMessage) := fun u =>
  match extended u with
  | Some m => let '(r, m') := ext_poll m in (r ≫= (fun o => Ok (option_map OExtended o)), set_extended (Some m') u)
  | None => (Ok None, u)
  end.

Definition stream_logic (state : ModuleState) : St (UberModule D) UberError (option OUberMessage) :=
  match state with
  | StExtended => poll_extended
  | StDiscovery index => fmap ODiscover <$> on_discovery index run_poll
  end.

Definition poll_stream_state : St (UberModule D) UberError (option OUberMessage) := fun u =>
  loop_states (loop_fuel u) false (Ok None) (fun u => next_state u (last_stream_state u)) set_stream stream_logic u.

Definition uber_send (item : IUberMessage) : St (UberModule D) UberError (option unit) := start_sink_state item.
Definition uber_poll : St (UberModule D) UberError (option OUberMessage) := poll_stream_state.
End Uber.

(** * revelation/honest.rs *)

Inductive IRevealMessage : Type :=
  | RControl (m : ControlMessage)
  | RFoundGoodPiece (hash : ShaHash) (index : Z)
  | ReceivedBitField (info : PeerInfo) (m : BitFieldMessage)
  | ReceivedHave (info : PeerInfo) (m : HaveMessage).

Inductive ORevealMessage : Type :=
  | SendBitField (info : PeerInfo) (m : BitFieldMessage)
  | SendHave (info : PeerInfo) (m : HaveMessage).

(** revelation/error.rs *)
Inductive RevealError : Type :=
  | RInvalidMessage (info : PeerInfo) (message : bytes)
  | RInvalidMetainfoExists (hash : ShaHash)
  | RInvalidMetainfoNotExists (hash : ShaHash)
  | RInvalidPieceOutOfRange (hash : ShaHash) (index : Z).

(** [BitSet<u8>] of the crate bit-set, and what its documentation says of it: the
    element [k] is bit [k mod 8] of byte [k / 8] of the storage. *)
Class BitSetOps := {
  BitSet : Type;
  bitset_default : BitSet;
  reserve_len_exact : nat -> BitSet -> BitSet;
  bitset_insert : nat -> BitSet -> BitSet;
  bitset_is_empty : BitSet -> bool;
  storage : BitSet -> bytes;
}.

Definition bitset_has `{BitSetOps} (b : BitSet) (k : nat) : bool :=
  match storage b !! (k / 8) with Some byte => Z.testbit byte (Z.of_nat (k mod 8)) | None => false end.

Class BitSetLaws `{BitSetOps} := {
  bitset_default_has : forall k, bitset_has bitset_default k = false;
  reserve_has : forall n b k, bitset_has (reserve_len_exact n b) k = bitset_has b k;
  bitset_insert_has : forall i b k, bitset_has (bitset_insert i b) k = (k =? i) || bitset_has b k;
  bitset_is_empty_spec : forall b, bitset_is_empty b = true <-> forall k, bitset_has b k = false;
  storage_bytes : forall b, Forall is_u8 (storage b);
}.

(** One byte of [insert_reversed_bits]: eight turns that move the lowest bit over. *)
Fixpoint reverse_bits (turns : nat) (byte reversed_byte : Z) : Z :=
  match turns with
  | O => reversed_byte
  | S turns' => reverse_bits turns' (Z.shiftr byte 1) (Z.lor (to_u8 (Z.shiftl reversed_byte 1)) (Z.land byte 1))
  end.

(** The room that [BytesMut::new()] of the crate bytes 0.4 has, and has again once its
    content was split off; [put_u8] panics when there is none left. *)
Class BytesMutOps := { new_capacity : nat }.

Definition put_u8 `{BytesMutOps} (n : Z) (out : bytes) : outcome Empty_set bytes :=
  if length out <? new_capacity then Ok (out ++ [n]) else Panic.

Fixpoint insert_reversed_bits `{BytesMutOps} (out slice : bytes) : outcome Empty_set bytes :=
  match slice with
  | [] => Ok out
  | byte :: slice => out ← put_u8 (reverse_bits 8 byte 0) out; insert_reversed_bits out slice
  end.

Section Reveal.
Context `{BitSetOps} `{BytesMutOps} `{HashOrder}.

Record PeersInfo := { num_pieces : nat; status : BitSet; pi_peers : peer_set }.

Record HonestRevealModule := {
  torrents : gmap ShaHash PeersInfo;
  out_queue : list ORevealMessage;
  out_bytes : bytes;
}.

Definition HonestRevealModule_new : HonestRevealModule := {| torrents := ∅; out_queue := []; out_bytes := [] |}.

Definition RevealM : Type -> Type := St HonestRevealModule Empty_set.

(** [Option<Result<IRevealMessage, RevealError>>] *)
Definition reveal_result : Type := option (IRevealMessage + RevealError).

Definition rv_add_torrent (metainfo : Metainfo) : RevealM reveal_result := fun s =>
  let h := info_hash (info metainfo) in
  match torrents s !! h with
  | Some _ => (Ok (Some (inr (RInvalidMetainfoExists h))), s)
  | None =>
      let n := length (pieces (info metainfo)) in
      let piece_set := reserve_len_exact n bitset_default in
      (Ok None, {| torrents := <[h := {| num_pieces := n; status := piece_set; pi_peers := ∅ |}]> (torrents s);
                out_queue := out_queue s; out_bytes := out_bytes s |})
  end.

Definition rv_remove_torrent (metainfo : Metainfo) : RevealM reveal_result := fun s =>
  let h := info_hash (info metainfo) in
  let s' := {| torrents := delete h (torrents s); out_queue := out_queue s; out_bytes := out_bytes s |} in
  match torrents s !! h with
  | None => (Ok (Some (inr (RInvalidMetainfoNotExists h))), s')
  | Some _ => (Ok None, s')
  end.

Definition rv_add_peer (peer : PeerInfo) : RevealM reveal_result := fun s =>
  let h := peer_hash peer in
  match torrents s !! h with
  | Some i =>
      let torrents' := <[h := {| num_pieces := num_pieces i; status := status i; pi_peers := peers_insert peer (pi_peers i) |}]> (torrents s) in
      if negb (bitset_is_empty (status i)) then
        match insert_reversed_bits (out_bytes s) (storage (status i)) with
        | Ok bitfield_bytes =>
            (Ok None, {| torrents := torrents'; out_queue := out_queue s ++ [SendBitField peer {| bitfield := bitfield_bytes |}]; out_bytes := [] |})
        | _ => (Panic, {| torrents := torrents'; out_queue := out_queue s; out_bytes := out_bytes s |})
        end
      else (Ok None, {| torrents := torrents'; out_queue := out_queue s; out_bytes := out_bytes s |})
  | None => (Ok (Some (inr (RInvalidMetainfoNotExists h))), s)
  end.

Definition rv_remove_peer (peer : PeerInfo) : RevealM reveal_result := fun s =>
  let h := peer_hash peer in
  match torrents s !! h with
  | Some i =>
      (Ok None, {| torrents := <[h := {| num_pieces := num_pieces i; status := status i; pi_peers := peers_remove peer (pi_peers i) |}]> (torrents s);
                out_queue := out_queue s; out_bytes := out_bytes s |})
  | None => (Ok (Some (inr (RInvalidMetainfoNotExists h))), s)
  end.

Definition insert_piece (h : ShaHash) (index : Z) : RevealM reveal_result := fun s =>
  match torrents s !! h with
  | Some i =>
      if (Z.of_nat (num_pieces i) <=? index)%Z then (Ok (Some (inr (RInvalidPieceOutOfRange h index))), s)
      else
        let haves := (fun e => SendHave e.2 {| have_piece_index := to_u32 index |}) <$> entries (pi_peers i) in
        (Ok None, {| torrents := <[h := {| num_pieces := num_pieces i; status := bitset_insert (Z.to_nat index) (status i); pi_peers := pi_peers i |}]> (torrents s);
                  out_queue := out_queue s ++ haves; out_bytes := out_bytes s |})
  | None => (Ok (Some (inr (RInvalidMetainfoNotExists h))), s)
  end.

Definition reveal_send (item : IRevealMessage) : RevealM reveal_result :=
  match item with
  | RControl (AddTorrent metainfo) => rv_add_torrent metainfo
  | RControl (RemoveTorrent metainfo) => rv_remove_torrent metainfo
  | RControl (PeerConnected info) => rv_add_peer info
  | RControl (PeerDisconnected info) => rv_remove_peer info
  | RFoundGoodPiece h index => insert_piece h index
  | RControl (Tick _) | ReceivedBitField _ _ | ReceivedHave _ _ => fun s => (Ok None, s)
  end.

Definition reveal_poll : RevealM (option ORevealMessage) := fun s =>
  (Ok (head (out_queue s)), {| torrents := torrents s; out_queue := tail (out_queue s); out_bytes := out_bytes s |}).
End Reveal.
