(* ===== verification/SelectMetadata.v ===== *)
(** SelectMetadata: downloading and serving metadata ([Select]).

    The requests of a download are each waiting or sent to one peer, and are counted
    by [left]; a download that is handed out has bytes whose digest is the hash that
    was asked for.  Everything a poll hands out is justified by what was sent to the
    module, in any order of events and for any order in which hash maps are walked.
    With honest peers a download comes to its end. *)

From stdpp Require Import base list gmap.
From Stdlib Require Import ZArith Lia.
From S2P Require Import Prelude Effects OrdMap Bencode BencodeCorrect Convert ShaHash Handshake HandshakeCorrect Metainfo MetainfoCorrect DhtToken PeerMessage PeerInfo Select.

(** * Events *)

Inductive ut_event : Type :=
  | USend (item : IDiscoveryMessage)
  | UUpdate (info : PeerInfo) (extended : ExtendedPeerInfo)
  | UPoll (rng : Z).

(** What is left of a call: a returned error leaves the module in use, a panic does
    not. *)
Definition after {S E A} (r : outcome E A * S) : outcome Empty_set S :=
  match r with
  | (Ok _, s) | (Err _, s) => Ok s
  | (Panic, _) => Panic
  | (NoFuel, _) => NoFuel
  end.

Definition ut_step `{Sha1} `{Profile} (o : HashOrder) (e : ut_event) (s : UtMetadataModule) : outcome Empty_set UtMetadataModule :=
  match e with
  | USend item => after (ut_send item s)
  | UUpdate info extended => after (ut_on_update info extended s)
  | UPoll rng => after (ut_poll rng s)
  end.

Fixpoint ut_run `{Sha1} `{Profile} (es : list (HashOrder * ut_event)) (s : UtMetadataModule) : outcome Empty_set UtMetadataModule :=
  match es with
  | [] => Ok s
  | (o, e) :: es' => s' ← ut_step o e s; ut_run es' s'
  end.

(** * What the events say *)

(** Both sides of the peer's handshake support the exchange of metadata, and the
    peer told its size. *)
Definition supports (extended : ExtendedPeerInfo) (metadata_size : Z) : Prop :=
  is_Some (our_message extended ≫= fun msg => query_id msg UtMetadata) /\
  is_Some (their_message extended ≫= fun msg => query_id msg UtMetadata) /\
  (their_message extended ≫= PeerMessage.metadata_size) = Some metadata_size.

(** A peer told the size [size] for [h] (the module casts it to a [usize]). *)
Definition announced (es : list ut_event) (h : ShaHash) (size : Z) : Prop :=
  exists info extended told, UUpdate info extended ∈ es /\ peer_hash info = h /\ supports extended told /\ size = to_u64 told.
Definition introduced (es : list ut_event) (info : PeerInfo) : Prop :=
  exists extended size, UUpdate info extended ∈ es /\ supports extended size.
Definition served `{Sha1} `{Profile} (es : list ut_event) (h : ShaHash) (bs : bytes) : Prop :=
  exists m, USend (IControl (AddTorrent m)) ∈ es /\ info_hash (info m) = h /\
    Info_to_bytes (hashing (Info_accessor (info m))) (info m) = Ok bs.

(** What justifies a message handed out after the events [es]. *)
Definition justified `{Sha1} `{Profile} (es : list ut_event) (m : ODiscoveryMessage) : Prop :=
  match m with
  | DownloadedMetainfo mi =>
      exists bs i, USend (DownloadMetainfo (info_hash i)) ∈ es /\ ShaHash_from_bytes bs = info_hash i /\
        Info_from_bytes bs = Ok i /\ mi = Metainfo_from i
  | SendUtMetadataMessage peer (UmRequest r) =>
      USend (DownloadMetainfo (peer_hash peer)) ∈ es /\ introduced es peer /\
      exists size, announced es (peer_hash peer) size /\ (0 <= umr_piece r /\ umr_piece r * MAX_REQUEST_SIZE < size)%Z
  | SendUtMetadataMessage peer (UmData d) =>
      exists r bs, USend (ReceivedUtMetadataMessage peer (UmRequest r)) ∈ es /\ umr_piece r = umd_piece d /\
        served es (peer_hash peer) bs /\
        umd_data d = take (Z.to_nat MAX_REQUEST_SIZE) (drop (Z.to_nat (to_u64 (umd_piece d * MAX_REQUEST_SIZE))) bs) /\
        Z.of_nat (length (umd_data d)) = MAX_REQUEST_SIZE
  | _ => False
  end.

(** * The invariant *)

Definition of_hash (h : ShaHash) (l : list ActiveRequest) : list UtMetadataRequestMessage :=
  ar_message <$> filter (fun r => peer_hash (sent_to r) = h) l.

(** A download with requests [act] on their way. *)
Record download_ok (p : PendingInfo) (act : list UtMetadataRequestMessage) : Prop := {
  do_left : left p = Z.of_nat (length (messages p ++ act));
  do_pieces : Forall (fun m => (0 <= umr_piece m /\ umr_piece m * MAX_REQUEST_SIZE < Z.of_nat (length (pending_bytes p)))%Z) (messages p ++ act);
  do_nodup : NoDup (umr_piece <$> messages p ++ act);
  do_size : (Z.of_nat (length (pending_bytes p)) <= ISIZE_MAX)%Z;
  do_bound : (left p <= ISIZE_MAX)%Z;
}.

Lemma download_ok_perm p act p' act' :
  messages p ++ act ≡ₚ messages p' ++ act' -> left p' = left p -> length (pending_bytes p') = length (pending_bytes p) ->
  download_ok p act -> download_ok p' act'.
Proof.
  intros Hm Hl Hb [H1 H2 H3 H4 H5]. split; rewrite ?Hl, ?Hb; try done.
  - by rewrite H1, Hm.
  - by rewrite <- Hm.
  - by rewrite <- Hm.
Qed.

Section Invariant.
Context {HS : Sha1} {HP : Profile}.
(** Why the events would be in the wrong, and why a call may panic. *)
Variables R P : Prop.
Hypothesis HRP : R -> P.

Definition size_ok (size : Z) : Prop := (0 <= size <= ISIZE_MAX)%Z.
Definition piece_ok (k : Z) : Prop := (0 <= k /\ k * MAX_REQUEST_SIZE + MAX_REQUEST_SIZE < 18446744073709551616)%Z.

Record module_ok (es : list ut_event) (s : UtMetadataModule) : Prop := {
  ok_download : forall h p, pending_map s !! h = Some (Some p) ->
    download_ok p (of_hash h (active_requests s)) /\ announced es h (Z.of_nat (length (pending_bytes p)));
  ok_idle : forall h, mjoin (pending_map s !! h) = None -> of_hash h (active_requests s) = [];
  ok_asked : forall h, is_Some (pending_map s !! h) -> USend (DownloadMetainfo h) ∈ es;
  ok_peers : forall h a k i, active_peers s !! h = Some a -> peers a !! k = Some i -> key_of i = k /\ peer_hash i = h /\ introduced es i;
  ok_sizes : forall h a, active_peers s !! h = Some a -> announced es h (to_u64 (ap_metadata_size a)) /\ (R \/ size_ok (ap_metadata_size a));
  ok_served : forall h bs, completed_map s !! h = Some bs -> served es h bs;
  ok_queue : Forall (fun r => USend (ReceivedUtMetadataMessage (send_to r) (UmRequest (request r))) ∈ es /\
    (R \/ piece_ok (umr_piece (request r)))) (peer_requests s);
}.

(** A download that has all pieces passed the check of its digest. *)
Definition checked (s : UtMetadataModule) : Prop := forall h p,
  pending_map s !! h = Some (Some p) -> left p = 0%Z -> ShaHash_from_bytes (pending_bytes p) = h.

(** [runs m Q I s]: from [s] the call returns and [Q] holds, or fails and [I] holds,
    or it panics and [P] holds; it comes to an end if
    the events are not in the wrong. *)
Definition runs {S E A} (m : St S E A) (Q : A -> S -> Prop) (I : S -> Prop) (s : S) : Prop :=
  match m s with
  | (Ok a, s') => Q a s'
  | (Err _, s') => I s'
  | (Panic, _) => P
  | (NoFuel, _) => R
  end.

Lemma announced_mono es es' h size : es ⊆ es' -> announced es h size -> announced es' h size.
Proof. intros Hsub (i & e & told & Hin & ?). exists i, e, told. split; [by apply Hsub|done]. Qed.
Lemma introduced_mono es es' i : es ⊆ es' -> introduced es i -> introduced es' i.
Proof. intros Hsub (e & size & Hin & ?). exists e, size. split; [by apply Hsub|done]. Qed.
Lemma served_mono es es' h bs : es ⊆ es' -> served es h bs -> served es' h bs.
Proof. intros Hsub (m & Hin & ?). exists m. split; [by apply Hsub|done]. Qed.

Lemma ut_ok_mono es es' s : es ⊆ es' -> module_ok es s -> module_ok es' s.
Proof.
  intros Hsub [H1 H2 H3 H4 H5 H6 H7]. split; try done.
  - intros h p Hp. destruct (H1 h p Hp). eauto using announced_mono.
  - auto.
  - intros h a k i Ha Hi. destruct (H4 h a k i Ha Hi) as (? & ? & ?). eauto using introduced_mono.
  - intros h a Ha. destruct (H5 h a Ha). eauto using announced_mono.
  - eauto using served_mono.
  - eapply Forall_impl; [exact H7|]. intros r [? ?]. auto.
Qed.

Lemma new_ok : module_ok [] UtMetadataModule_new /\ checked UtMetadataModule_new.
Proof. split; [split|]; unfold UtMetadataModule_new; cbn; try (intros *; rewrite lookup_empty; by intros ?); done. Qed.

Lemma runs_mono {S E A} (m : St S E A) (Q Q' : A -> S -> Prop) (I I' : S -> Prop) s :
  runs m Q I s -> (forall a s', Q a s' -> Q' a s') -> (forall s', I s' -> I' s') -> runs m Q' I' s.
Proof. unfold runs. destruct (m s) as [[a|e| |] s']; auto. Qed.

Lemma runs_bind {S E A B} (m : St S E A) (f : A -> St S E B) Q Q' I s :
  runs m Q' I s -> (forall a s', Q' a s' -> runs (f a) Q I s') -> runs (m ≫= f) Q I s.
Proof. unfold runs, mbind, St_bind. intros Hm Hf. destruct (m s) as [[a|e| |] s']; [by apply Hf|done..]. Qed.

Lemma runs_get {S E B} (f : S -> St S E B) Q I s : runs (f s) Q I s -> runs (get ≫= f) Q I s.
Proof. done. Qed.
Lemma runs_modify {S E B} g (f : unit -> St S E B) Q I s : runs (f tt) Q I (g s) -> runs (modify g ≫= f) Q I s.
Proof. done. Qed.
Lemma runs_value {S E A B} (a : A) (f : A -> St S E B) Q I s : runs (f a) Q I s -> runs (lift (Ok a) ≫= f) Q I s.
Proof. done. Qed.

Lemma runs_lift {S E A B} (m : outcome E A) (f : A -> St S E B) Q I s :
  R \/ (exists a, m = Ok a) -> (forall e, m <> Err e) -> (forall a, m = Ok a -> runs (f a) Q I s) -> runs (lift m ≫= f) Q I s.
Proof.
  intros Hm He Hf. unfold runs, mbind, St_bind, lift. destruct m as [a|e| |]; [by apply Hf|by destruct (He e)|..]; (destruct Hm as [?|[? ?]]; [by auto|done]).
Qed.

Lemma runs_for_any {S E A} (J : list A -> S -> Prop) (l : list A) (f : A -> St S E bool) I s :
  (forall done a rest s, l = done ++ a :: rest -> J done s -> runs (f a) (fun _ => J (done ++ [a])) I s) ->
  J [] s -> runs (for_any l f) (fun _ => J l) I s.
Proof.
  intros Hf. enough (Hg : forall rest done s, l = done ++ rest -> J done s -> runs (for_any rest f) (fun _ => J l) I s) by (intros HJ; by apply (Hg l [] s)).
  intros rest. induction rest as [|a rest IH]; intros done s0 Hl HJ; cbn [for_any].
  - by rewrite Hl, app_nil_r.
  - apply (runs_bind _ _ _ (fun _ => J (done ++ [a]))); [by apply (Hf _ _ rest)|]. intros b s1 H1.
    eapply runs_bind; [apply (IH (done ++ [a])); [by rewrite <- (assoc_L (++))|done]|]. by intros r s2 H2.
Qed.

(** ** The calls of a message *)

Lemma add_torrent_ok es m s :
  USend (IControl (AddTorrent m)) ∈ es ->
  R \/ (exists bs, Info_to_bytes (hashing (Info_accessor (info m))) (info m) = Ok bs) ->
  module_ok es s -> runs (ut_add_torrent m) (fun _ => module_ok es) (module_ok es) s.
Proof.
  intros Hin Hr [H1 H2 H3 H4 H5 H6 H7]. unfold ut_add_torrent, runs. rewrite bind_get_run.
  destruct (completed_map s !! info_hash (info m)) as [old|] eqn:Hc; [by split|].
  destruct (Info_to_bytes _ _) as [bs|[]| |] eqn:Hb; cbn; [|destruct Hr as [Hr|[? [=]]]; first [exact (HRP Hr)|exact Hr]..]. ut_fields. split; ut_fields; try done.
  intros h b. rewrite lookup_insert_Some. intros [[<- <-]|[_ ?]]; [|by apply H6]. by exists m.
Qed.

Lemma remove_torrent_ok es m s : module_ok es s -> runs (ut_remove_torrent m) (fun _ => module_ok es) (module_ok es) s.
Proof.
  intros [H1 H2 H3 H4 H5 H6 H7]. unfold ut_remove_torrent, runs. rewrite bind_get_run, bind_modify_run.
  enough (Hok : module_ok es (s <| completed_map := delete (info_hash (info m)) (completed_map s) |>)) by (destruct (completed_map s !! _); exact Hok).
  split; ut_fields; try done. intros h b [_ ?]%lookup_delete_Some. by apply H6.
Qed.

Lemma peers_insert_Some i ps k j : peers_insert i ps !! k = Some j -> ps !! k = Some j \/ (j = i /\ k = key_of i).
Proof. unfold peers_insert. case_match; [auto|]. rewrite lookup_insert_Some. naive_solver. Qed.

Lemma add_peer_ok es i e s :
  UUpdate i e ∈ es -> (forall size, supports e size -> R \/ size_ok size) ->
  module_ok es s -> runs (ut_add_peer i e) (fun _ => module_ok es) (fun _ => False) s.
Proof.
  intros Hin Hs [H1 H2 H3 H4 H5 H6 H7]. unfold ut_add_peer, runs. 
  destruct (our_message e ≫= _) as [a|] eqn:Ea; [|by split]. destruct (their_message e ≫= fun msg => query_id msg UtMetadata) as [b|] eqn:Eb; [|by split].
  destruct (their_message e ≫= PeerMessage.metadata_size) as [size|] eqn:Ec; [|by split].
  assert (Hsup : supports e size) by (unfold supports; rewrite Ea, Eb, Ec; eauto).
  assert (Hann : announced es (peer_hash i) (to_u64 size)) by (by exists i, e, size).
  rewrite bind_modify_run. split; ut_fields; try done.
  - intros h a' k j. rewrite lookup_insert_Some. intros [[<- <-]|[_ ?]] Hj; [|by eapply H4]. cbn [peers] in Hj.
    apply peers_insert_Some in Hj as [Hj|[-> ->]]; [|split_and!; try done; by exists e, size].
    destruct (active_peers s !! peer_hash i) as [old|] eqn:Ho; [by eapply H4|]. cbn in Hj. by rewrite lookup_empty in Hj.
  - intros h a'. rewrite lookup_insert_Some. intros [[<- <-]|[_ ?]]; [|by apply H5]. cbn [ap_metadata_size].
    destruct (active_peers s !! peer_hash i) as [old|] eqn:Ho; [by apply H5|]. cbn. auto.
Qed.

Lemma remove_peer_ok es i s : module_ok es s -> runs (ut_remove_peer i) (fun _ => module_ok es) (module_ok es) s.
Proof.
  intros Hok. unfold ut_remove_peer, runs. rewrite bind_get_run. destruct (active_peers s !! peer_hash i) as [a|] eqn:Ha; [|done].
  destruct Hok as [H1 H2 H3 H4 H5 H6 H7].
  set (s1 := s <| active_peers := <[peer_hash i := {| peers := peers_remove i (peers a); ap_metadata_size := ap_metadata_size a |}]> (active_peers s) |>).
  assert (Hs1 : module_ok es s1).
  { subst s1. split; ut_fields; try done.
    - intros h a' k j. rewrite lookup_insert_Some. intros [[<- <-]|[_ ?]] Hj; [|by eapply H4].
      cbn [peers] in Hj. unfold peers_remove in Hj. apply lookup_delete_Some in Hj as [_ Hj]. by eapply H4.
    - intros h a'. rewrite lookup_insert_Some. intros [[<- <-]|[_ ?]]; [|by apply H5]. exact (H5 _ _ Ha). }
  cbn zeta. destruct (bool_decide (peers_remove i (peers a) = ∅)); [|exact Hs1]. cbn [when mbind St_bind mret St_ret modify]. fold s1.
  destruct Hs1 as [G1 G2 G3 G4 G5 G6 G7]. split; ut_fields; try done.
  - intros h a' k j [_ ?]%lookup_delete_Some. by eapply G4.
  - intros h a' [_ ?]%lookup_delete_Some. by apply G5.
Qed.

(** ** Requests that time out, and pieces that come in *)

Lemma of_hash_cons h r l : of_hash h (r :: l) = (if decide (peer_hash (sent_to r) = h) then [ar_message r] else []) ++ of_hash h l.
Proof. unfold of_hash. rewrite filter_cons. by case_decide. Qed.
Lemma of_hash_other h r l : peer_hash (sent_to r) <> h -> of_hash h (r :: l) = of_hash h l.
Proof. intros Hne. by rewrite of_hash_cons, decide_False. Qed.
Lemma of_hash_app h l l' : of_hash h (l ++ l') = of_hash h l ++ of_hash h l'.
Proof. unfold of_hash. by rewrite filter_app, fmap_app. Qed.
Lemma of_hash_perm h l l' : l ≡ₚ l' -> of_hash h l ≡ₚ of_hash h l'.
Proof. intros Hp. unfold of_hash. by rewrite Hp. Qed.

(** The requests matter only as the collections of those for each hash. *)
Lemma ut_ok_active es s l :
  (forall h, of_hash h l ≡ₚ of_hash h (active_requests s)) -> module_ok es s -> module_ok es (s <| active_requests := l |>).
Proof.
  intros Hl [H1 H2 H3 H4 H5 H6 H7]. split; ut_fields; try done.
  - intros h p Hp. destruct (H1 h p Hp) as [Hd Ha]. split; [|done]. eapply download_ok_perm; [..|exact Hd]; [by rewrite Hl|done..].
  - intros h Hh. apply Permutation_nil_r. rewrite Hl. by rewrite H2.
Qed.

Lemma expire_ok es r pre l s :
  module_ok es (s <| active_requests := pre ++ r :: l |>) -> module_ok es (expire r s <| active_requests := pre ++ l |>).
Proof.
  intros [H1 H2 H3 H4 H5 H6 H7]. unfold expire. split; ut_fields; try done.
  - intros h p. rewrite lookup_alter_Some. intros [(<- & o & Ho & Hp)|[Hne Hp]].
    + destruct o as [p0|]; [|done]. injection Hp as ->. destruct (H1 _ _ Ho) as [Hd Ha]. split; [|done].
      eapply download_ok_perm; [..|exact Hd]; [|done..]. cbn [messages]. rewrite !of_hash_app, of_hash_cons, decide_True by done. solve_Permutation.
    + destruct (H1 _ _ Hp) as [Hd Ha]. split; [|done]. rewrite of_hash_app, of_hash_other in Hd by done. by rewrite of_hash_app.
  - intros h Hh. assert (Ho : mjoin (pending_map s !! h) = None).
    { destruct (decide (peer_hash (sent_to r) = h)) as [<-|Hne]; [|by rewrite lookup_alter_ne in Hh].
      rewrite lookup_alter_eq in Hh. by destruct (pending_map s !! _) as [[?|]|]. }
    specialize (H2 h Ho). rewrite of_hash_app in H2 |- *. apply app_nil in H2 as [-> H2]. rewrite of_hash_cons in H2. by apply app_nil in H2 as [_ ->].
  - intros h Hh. apply H3. destruct (decide (peer_hash (sent_to r) = h)) as [<-|Hne]; [|by rewrite lookup_alter_ne in Hh].
    rewrite lookup_alter_eq in Hh. by destruct (pending_map s !! _).
  - intros h a k j. rewrite lookup_alter_Some. intros [(<- & a0 & Ha & ->)|[Hne Ha]] Hj; [|by eapply H4].
    cbn [peers] in Hj. unfold peers_remove in Hj. apply lookup_delete_Some in Hj as [_ Hj]. by eapply H4.
  - intros h a. rewrite lookup_alter_Some. intros [(<- & a0 & Ha & ->)|[Hne Ha]]; [|by apply H5]. exact (H5 _ _ Ha).
Qed.

Lemma retain_ok es d l : forall pre s, module_ok es (s <| active_requests := pre ++ l |>) ->
  runs (retain_active d l) (fun kept s' => module_ok es (s' <| active_requests := pre ++ kept |>) /\ Forall (fun r => (d <= ar_left r)%Z) kept)
    (fun _ => False) s.
Proof.
  induction l as [|r l IH]; intros pre s Hs; [by split|]. cbn [retain_active]. destruct (Z.ltb_spec (ar_left r) d) as [Hlt|Hle].
  - apply (runs_bind _ _ _ (fun _ s' => s' = expire r s)); [done|]. intros _ s' ->.
    eapply runs_bind; [apply (IH pre); by apply expire_ok|]. by intros kept s2 ?.
  - apply (runs_bind _ _ _ (fun _ s' => s' = s)); [done|]. intros _ s' ->.
    eapply runs_bind; [apply (IH (pre ++ [r])); by rewrite <- (assoc_L (++))|].
    intros kept s2 [Hk Hf]. cbn. split; [by rewrite <- (assoc_L (++)) in Hk|by constructor].
Qed.

Lemma subtract_ok d l : Forall (fun r => (d <= ar_left r)%Z) l ->
  exists l', subtract_all d l = Ok l' /\ forall h, of_hash h l' = of_hash h l.
Proof.
  induction 1 as [|r l Hr Hl IH]; [by exists []|]. destruct IH as (l' & E & Hh). cbn [subtract_all].
  destruct (Z.ltb_spec (ar_left r) d); [lia|]. rewrite E. run_binds. eexists. split; [done|]. intros h. rewrite !of_hash_cons. by rewrite Hh.
Qed.

Lemma tick_ok es d s : module_ok es s -> runs (apply_tick d) (fun _ => module_ok es) (fun _ => False) s.
Proof.
  intros Hs. unfold apply_tick, runs at 1. rewrite bind_get_run. change (runs (retain_active d (active_requests s) ≫= fun kept =>
    _ ← modify (fun s => s <| active_requests := kept |>); lefts ← lift (subtract_all d kept);
    _ ← modify (fun s => s <| active_requests := lefts |>); mret (None : option IDiscoveryMessage)) (fun _ => module_ok es) (fun _ => False) s).
  eapply runs_bind; [apply (retain_ok es d (active_requests s) []); by destruct s|]. intros kept s' [Hk Hf].
  destruct (subtract_ok d kept Hf) as (l' & E & Hh). unfold runs. rewrite bind_modify_run, E, bind_lift_run, bind_modify_run. cbn [mret St_ret].
  apply ut_ok_active; [|exact Hk]. intros h. by rewrite Hh.
Qed.

Lemma download_metainfo_ok es h s :
  USend (DownloadMetainfo h) ∈ es -> module_ok es s -> runs (download_metainfo h) (fun _ => module_ok es) (fun _ => False) s.
Proof.
  intros Hin Hok. unfold download_metainfo, runs. rewrite bind_get_run. case_bool_decide as Hb; [exact Hok|]. cbn.
  destruct Hok as [H1 H2 H3 H4 H5 H6 H7]. apply eq_None_not_Some in Hb. split; ut_fields; try done.
  - intros h' p. rewrite lookup_insert_Some. intros [[<- ?]|[_ ?]]; [done|by apply H1].
  - intros h' Hh. destruct (decide (h = h')) as [<-|Hne]; [apply H2; by rewrite Hb|]. rewrite lookup_insert_ne in Hh by done. by apply H2.
  - intros h'. rewrite lookup_insert_is_Some. intros [<-|[_ ?]]; [done|by apply H3].
Qed.

Lemma recv_request_ok es i r s :
  USend (ReceivedUtMetadataMessage i (UmRequest r)) ∈ es -> R \/ piece_ok (umr_piece r) ->
  module_ok es s -> runs (recv_request i r) (fun _ => module_ok es) (fun _ => False) s.
Proof.
  intros Hin Hp Hok. unfold recv_request, runs. rewrite bind_get_run. destruct (length (peer_requests s) =? MAX_PEER_REQUESTS); [exact Hok|]. cbn.
  destruct Hok as [H1 H2 H3 H4 H5 H6 H7]. split; ut_fields; try done. apply Forall_app. split; [done|]. by apply Forall_singleton.
Qed.

Lemma write_at_length offset data buf : offset <= length buf -> length (write_at offset data buf) = length buf.
Proof. intros Ho. unfold write_at, overwrite. rewrite !length_app, length_take, length_drop, length_take. lia. Qed.

Lemma PeerInfo_eq_key i j : PeerInfo_eq i j = true <-> key_of i = key_of j.
Proof.
  unfold PeerInfo_eq, key_of. rewrite !andb_true_iff, !bool_decide_eq_true. split; [by intros [[-> ->] ->]|by intros [= -> -> ->]].
Qed.

(** What a piece of data does to the request it answers. *)
Lemma piece_arrives p m act :
  download_ok p (m :: act) ->
  to_u64 (umr_piece m) = umr_piece m /\ is_u64 (umr_piece m * MAX_REQUEST_SIZE) /\ is_u64 (left p - 1) /\
  Z.to_nat (umr_piece m * MAX_REQUEST_SIZE) <= length (pending_bytes p) /\
  forall data, download_ok {| messages := messages p; left := left p - 1;
    pending_bytes := write_at (Z.to_nat (umr_piece m * MAX_REQUEST_SIZE)) data (pending_bytes p) |} act.
Proof.
  intros [H1 H2 H3 H4 H5]. unfold ISIZE_MAX in *.
  assert (Hp : messages p ++ m :: act ≡ₚ m :: messages p ++ act) by (symmetry; apply Permutation_middle).
  rewrite Hp in H1, H2, H3. apply Forall_cons in H2 as [[Hm0 Hm] H2]. apply NoDup_cons in H3 as [_ H3]. cbn [length] in H1.
  unfold MAX_REQUEST_SIZE in *. split_and!.
  - unfold to_u64. apply Z.mod_small. lia.
  - unfold is_u64. lia.
  - unfold is_u64. lia.
  - lia.
  - intros data. split; cbn [left messages pending_bytes]; rewrite ?write_at_length by lia; try done; unfold ISIZE_MAX; lia.
Qed.

Lemma recv_data_ok es i data s : module_ok es s -> runs (recv_data i data) (fun _ => module_ok es) (fun _ => False) s.
Proof.
  intros Hok. unfold recv_data, runs. rewrite bind_get_run.
  destruct (position _ _) as [k|] eqn:Hk; [|exact Hok]. apply position_Some in Hk as (x & Hx & Hm & _).
  apply andb_true_iff in Hm as [Hi Hd%Z.eqb_eq]. apply PeerInfo_eq_key in Hi.
  assert (Hh : peer_hash (sent_to x) = peer_hash i) by (by injection Hi).
  pose proof (swap_remove_perm _ _ _ Hx) as Hp. set (l := swap_remove k (active_requests s)) in *.
  assert (Hx2 : of_hash (peer_hash i) (active_requests s) ≡ₚ ar_message x :: of_hash (peer_hash i) l).
  { rewrite (of_hash_perm _ _ _ Hp), of_hash_cons. by rewrite decide_True. }
  assert (Hne : forall h, h <> peer_hash i -> of_hash h l ≡ₚ of_hash h (active_requests s)).
  { intros h Hne. rewrite (of_hash_perm _ _ _ Hp), of_hash_other; [done|]. by rewrite Hh. }

  destruct Hok as [H1 H2 H3 H4 H5 H6 H7].
  destruct (mjoin (pending_map s !! peer_hash i)) as [p|] eqn:Hp0; [|rewrite (H2 _ Hp0) in Hx2; by apply Permutation_nil_cons in Hx2].
  destruct (pending_map s !! peer_hash i) as [[p'|]|] eqn:Hpm; [|done..]. injection Hp0 as ->.
  destruct (H1 _ _ Hpm) as [Hd0 Ha]. assert (Hd1 : download_ok p (ar_message x :: of_hash (peer_hash i) l)).
  { eapply download_ok_perm; [..|exact Hd0]; [by rewrite Hx2|done..]. }
  destruct (piece_arrives _ _ _ Hd1) as (E1 & E2 & E3 & E4 & E5). rewrite Hd in E1, E2, E4, E5.
  cbn [mbind St_bind modify lift]. rewrite E1, u64_arith_in by done. rewrite u64_arith_in by done. unfold mbind, St_bind, modify, lift. cbn beta iota. rewrite slice_from_in by done.
  cbn [mret St_ret]. split; ut_fields; try done.
  - intros h p1. rewrite lookup_insert_Some. intros [[<- [= <-]]|[Hn Hp1]].
    + split; [by apply E5|]. cbn [pending_bytes]. by rewrite write_at_length.
    + destruct (H1 _ _ Hp1) as [Hd2 Ha2]. split; [|done]. eapply download_ok_perm; [..|exact Hd2]; [fold l; by rewrite Hne|done..].
  - intros h Hh0. destruct (decide (h = peer_hash i)) as [->|Hn]; [by rewrite lookup_insert_eq in Hh0|].
    rewrite lookup_insert_ne in Hh0 by done. apply Permutation_nil_r. fold l. rewrite Hne by done. by rewrite H2.
  - intros h. rewrite lookup_insert_is_Some. intros [<-|[_ ?]]; apply H3; [by rewrite Hpm|done].
Qed.

(** ** Setting downloads up and checking them *)

Lemma to_i64_small z : (0 <= z <= ISIZE_MAX)%Z -> to_i64 z = z.
Proof. unfold ISIZE_MAX, to_i64, to_u64. intros Hz. rewrite Z.mod_small by lia. destruct (Z.ltb_spec z 9223372036854775808); lia. Qed.

(** The requests that [n] pieces of a download make. *)
Lemma requests_numbered n : (Z.of_nat n <= ISIZE_MAX)%Z ->
  umr_piece <$> ((fun index => UtMetadataRequestMessage_new (to_i64 (Z.of_nat index))) <$> seq 0 n) = Z.of_nat <$> seq 0 n.
Proof.
  intros Hn. rewrite <- list_fmap_compose. apply list_fmap_ext. intros k x Hx%lookup_seq. cbn. apply to_i64_small. lia.
Qed.

(** A download that is set up misses all of its pieces. *)
Lemma pending_fresh {E} size p : @pending_info_from_metadata_size E size = Ok p ->
  download_ok p [] /\ Z.of_nat (length (pending_bytes p)) = to_u64 size /\ 
  umr_piece <$> messages p = Z.of_nat <$> seq 0 (Z.to_nat ((to_u64 size + (MAX_REQUEST_SIZE - 1)) / MAX_REQUEST_SIZE)).
Proof.
  unfold pending_info_from_metadata_size. destruct (Z.ltb_spec ISIZE_MAX (to_u64 size)) as [|Hle]; [done|]. intros [= <-].
  pose proof (to_u64_range size) as Hr. set (z := to_u64 size) in *. unfold is_u64 in Hr.
  assert (En : (if negb (z mod MAX_REQUEST_SIZE =? 0) then z / MAX_REQUEST_SIZE + 1 else z / MAX_REQUEST_SIZE)%Z = ((z + (MAX_REQUEST_SIZE - 1)) / MAX_REQUEST_SIZE)%Z).
  { unfold MAX_REQUEST_SIZE. destruct (Z.eqb_spec (z mod (16 * 1024)) 0); cbn [negb]; Z.to_euclidean_division_equations; lia. }
  rewrite En. set (n := ((z + (MAX_REQUEST_SIZE - 1)) / MAX_REQUEST_SIZE)%Z).
  assert (Hn : (0 <= n <= ISIZE_MAX)%Z /\ forall k, (0 <= k < n)%Z -> (k * MAX_REQUEST_SIZE < z)%Z) by (subst n; unfold MAX_REQUEST_SIZE, ISIZE_MAX in *; split; [|intros k Hk]; Z.to_euclidean_division_equations; lia).
  destruct Hn as [Hn Hk]. pose proof (requests_numbered (Z.to_nat n)) as Hm. rewrite Z2Nat.id in Hm by lia. specialize (Hm (proj2 Hn)).
  cbn [messages left pending_bytes]. rewrite length_replicate, Z2Nat.id by lia. split_and!; [|done|done].
  split; cbn [messages left pending_bytes]; rewrite ?app_nil_r, ?length_fmap, ?length_seq, ?length_replicate, ?Z2Nat.id by lia; try lia.
  - apply Forall_fmap, Forall_seq. intros k Hk2. cbn. rewrite to_i64_small by lia. split; [lia|]. apply Hk. lia.
  - rewrite Hm. apply (NoDup_fmap_2 _), NoDup_seq.
Qed.

Lemma pending_info_runs {E} size : R \/ size_ok size -> R \/ exists p, @pending_info_from_metadata_size E size = Ok p.
Proof.
  intros [|Hs]; [by left|right]. unfold size_ok, ISIZE_MAX, pending_info_from_metadata_size, to_u64 in *. rewrite Z.mod_small by lia.
  unfold ISIZE_MAX. destruct (Z.ltb_spec 9223372036854775807 size); [lia|by eexists].
Qed.
Lemma pending_info_no_err {E} size e : @pending_info_from_metadata_size E size <> Err e.
Proof. unfold pending_info_from_metadata_size. by case_match. Qed.

Lemma insert_pending_same s h v : pending_map s !! h = Some v -> s <| pending_map := <[h := v]> (pending_map s) |> = s.
Proof. intros Hv. destruct s. ut_fields. by rewrite insert_id. Qed.

Lemma set_up_ok es s h a p :
  module_ok es s -> pending_map s !! h = Some None -> active_peers s !! h = Some a ->
  @pending_info_from_metadata_size DiscoveryError (ap_metadata_size a) = Ok p ->
  module_ok es (s <| pending_map := <[h := Some p]> (pending_map s) |>).
Proof.
  intros [H1 H2 H3 H4 H5 H6 H7] Hh Ha Hp. destruct (pending_fresh _ _ Hp) as (Hd & Hl & _). split; ut_fields; try done.
  - intros h' p'. rewrite lookup_insert_Some. intros [[<- [= <-]]|[_ ?]]; [|by apply H1].
    rewrite (H2 h) by (by rewrite Hh). split; [done|]. rewrite Hl. by apply (H5 _ _ Ha).
  - intros h' Hh'. destruct (decide (h = h')) as [<-|Hn]; [by rewrite lookup_insert_eq in Hh'|].
    rewrite lookup_insert_ne in Hh' by done. by apply H2.
  - intros h'. rewrite lookup_insert_is_Some. intros [<-|[_ ?]]; apply H3; [by rewrite Hh|done].
Qed.

Context {HO : HashOrder}.

Lemma entries_NoDup {K A} `{Countable K} (m : gmap K A) : NoDup (entries m).*1.
Proof. rewrite entries_perm. apply NoDup_fst_map_to_list. Qed.
Lemma elem_of_entries {K A} `{Countable K} (m : gmap K A) k a : (k, a) ∈ entries m <-> m !! k = Some a.
Proof. rewrite entries_perm. apply elem_of_map_to_list. Qed.

(** In a loop over the entries, the current one has not been met before. *)
Lemma entries_split {K A} `{Countable K} (m : gmap K A) done k a rest :
  entries m = done ++ (k, a) :: rest -> m !! k = Some a /\ k ∉ done.*1.
Proof.
  intros E. split; [apply elem_of_entries; rewrite E; set_solver|]. pose proof (entries_NoDup m) as Hn.
  rewrite E, fmap_app in Hn. apply NoDup_app in Hn as (_ & Hn & _). intros Hk. apply (Hn k Hk). cbn. by left.
Qed.

Lemma initialize_ok es s : module_ok es s -> runs initialize_pending (fun _ => module_ok es) (fun _ => False) s.
Proof.
  intros Hok. unfold initialize_pending, runs at 1. rewrite bind_get_run.
  set (J := fun (done : list (ShaHash * option PendingInfo)) s' => module_ok es s' /\ active_peers s' = active_peers s /\
    forall k, k ∉ done.*1 -> pending_map s' !! k = pending_map s !! k).
  match goal with |- match ?m s with _ => _ end => change (runs m (fun _ => module_ok es) (fun _ => False) s) end.
  apply (runs_mono _ (fun _ => J (entries (pending_map s))) _ (fun _ => False)); [apply (runs_for_any J)|by intros ? ? (? & _)|done]; [|by split_and!].
  intros done [h v] rest s' Hl (Hs' & Hap & Hsame). destruct (entries_split _ _ _ _ _ Hl) as [Hv Hnew]. rewrite <- (Hsame h Hnew) in Hv.
  assert (Hstay : J (done ++ [(h, v)]) s').
  { split_and!; [done..|]. intros k Hk. apply Hsame. set_solver. }
  destruct v as [p|]; [|destruct (active_peers s !! h) as [a|] eqn:Ha].
  - unfold runs, mbind, St_bind, modify, mret, St_ret. cbn beta iota. by rewrite insert_pending_same.
  - unfold runs, fmap, St_fmap, mbind, St_bind, lift. rewrite <- Hap in Ha.
    destruct (pending_info_runs (E := DiscoveryError) (ap_metadata_size a)) as [HR|[p Hp]].
    + by apply Hs' in Ha as [_ ?].
    + destruct (pending_info_from_metadata_size _) eqn:Hp; cbn; [|by apply pending_info_no_err in Hp|by auto..].
      split_and!; [by eapply set_up_ok|done|]. intros k Hk. ut_fields. rewrite lookup_insert_ne by set_solver. apply Hsame. set_solver.
    + rewrite Hp. cbn. split_and!; [by eapply set_up_ok|done|]. intros k Hk. ut_fields. rewrite lookup_insert_ne by set_solver. apply Hsame. set_solver.
  - unfold runs, mbind, St_bind, modify, mret, St_ret. cbn beta iota. by rewrite insert_pending_same.
Qed.

Lemma reset_ok es s h p :
  module_ok es s -> pending_map s !! h = Some (Some p) -> left p = 0%Z -> module_ok es (s <| pending_map := <[h := None]> (pending_map s) |>).
Proof.
  intros [H1 H2 H3 H4 H5 H6 H7] Hh Hl. split; ut_fields; try done.
  - intros h' p'. rewrite lookup_insert_Some. intros [[<- ?]|[_ ?]]; [done|by apply H1].
  - intros h' Hh'. destruct (decide (h = h')) as [<-|Hn].
    + destruct (H1 _ _ Hh) as [[Hd _ _ _ _] _]. rewrite Hl, length_app in Hd. apply length_zero_iff_nil. lia.
    + rewrite lookup_insert_ne in Hh' by done. by apply H2.
  - intros h'. rewrite lookup_insert_is_Some. intros [<-|[_ ?]]; apply H3; [by rewrite Hh|done].
Qed.

Lemma validate_ok es s : module_ok es s -> runs validate_downloaded (fun _ s' => module_ok es s' /\ checked s') (fun _ => False) s.
Proof.
  intros Hok. unfold validate_downloaded, runs at 1. rewrite bind_get_run.
  set (J := fun (done : list (ShaHash * option PendingInfo)) s' => module_ok es s' /\
    (forall k, k ∉ done.*1 -> pending_map s' !! k = pending_map s !! k) /\
    forall k p, k ∈ done.*1 -> pending_map s' !! k = Some (Some p) -> left p = 0%Z -> ShaHash_from_bytes (pending_bytes p) = k).
  match goal with |- match ?m s with _ => _ end => change (runs m (fun _ s' => module_ok es s' /\ checked s') (fun _ => False) s) end.
  apply (runs_mono _ (fun _ => J (entries (pending_map s))) _ (fun _ => False)); [apply (runs_for_any J)| |done].
  2: by split_and!; [done|done|intros k p ?%elem_of_nil].
  2: { intros _ s' (Hs' & Hsame & Hdone). split; [done|]. intros k p Hp Hl. destruct (decide (k ∈ (entries (pending_map s)).*1)) as [Hk|Hk]; [by eapply Hdone|].
       exfalso. apply Hk. rewrite (Hsame k Hk) in Hp. apply list_elem_of_fmap. exists (k, Some p). split; [done|]. by apply elem_of_entries. }
  intros done [h v] rest s' Hl (Hs' & Hsame & Hdone). destruct (entries_split _ _ _ _ _ Hl) as [Hv Hnew]. rewrite <- (Hsame h Hnew) in Hv.
  assert (Hkeep : (forall p, v = Some p -> left p = 0%Z -> ShaHash_from_bytes (pending_bytes p) = h) -> J (done ++ [(h, v)]) s').
  { intros Hg. split_and!; [done|intros k Hk; apply Hsame; set_solver|]. intros k p. rewrite fmap_app, elem_of_app. intros [Hk| ->%list_elem_of_singleton] Hp; [by eapply Hdone|].
    cbn in Hp. rewrite Hv in Hp. injection Hp as Hp. by apply Hg. }
  destruct v as [p|]; [|by apply Hkeep]. unfold runs. cbn [is_complete_download]. destruct (Z.eqb_spec (left p) 0) as [Hl0|Hl0]; cbn [andb].
  - case_bool_decide as Hg; cbn; [apply Hkeep; by intros p' [= <-]|].
    split_and!; [by eapply reset_ok|intros k Hk; ut_fields; rewrite lookup_insert_ne by set_solver; apply Hsame; set_solver|].
    intros k p'. ut_fields. rewrite fmap_app, elem_of_app, lookup_insert_Some. intros Hk [[_ [=]]|[Hne Hp]]. destruct Hk as [Hk|Hk]; [by eapply Hdone|set_solver].
  - cbn. apply Hkeep. by intros p' [= <-].
Qed.

(** ** Sending *)

(** What an event must be for a panic to need no reason. *)
Definition event_ok (e : ut_event) : Prop :=
  match e with
  | USend (IControl (AddTorrent m)) => R \/ exists bs, Info_to_bytes (hashing (Info_accessor (info m))) (info m) = Ok bs
  | USend (ReceivedUtMetadataMessage _ (UmRequest r)) => R \/ piece_ok (umr_piece r)
  | UUpdate _ extended => forall size, supports extended size -> R \/ size_ok size
  | _ => True
  end.

Lemma dispatch_ok es item s :
  USend item ∈ es -> event_ok (USend item) -> module_ok es s -> runs (ut_dispatch item) (fun _ => module_ok es) (module_ok es) s.
Proof.
  intros Hin He Hok. assert (Hno : forall (m : UtM (option IDiscoveryMessage)), runs m (fun _ => module_ok es) (fun _ => False) s ->
    runs m (fun _ => module_ok es) (module_ok es) s) by (intros m Hm; by eapply runs_mono).
  destruct item as [[m|m|i|i|d]|h|i [r|r|r]]; cbn [ut_dispatch] in *.
  - by apply add_torrent_ok.
  - by apply remove_torrent_ok.
  - exact Hok.
  - by apply remove_peer_ok.
  - by apply Hno, tick_ok.
  - by apply Hno, download_metainfo_ok.
  - by apply Hno, recv_request_ok.
  - by apply Hno, recv_data_ok.
  - exact Hok.
Qed.

Lemma unblock_ok es s : module_ok es s -> runs check_stream_unblock (fun _ s' => module_ok es s' /\ checked s') (fun _ => False) s.
Proof.
  intros Hok. unfold check_stream_unblock. apply (runs_bind _ _ _ (fun _ => module_ok es)); [by apply initialize_ok|]. intros _ s1 H1.
  apply (runs_bind _ _ _ (fun _ s' => module_ok es s' /\ checked s')); [by apply validate_ok|done].
Qed.

Lemma runs_finally {S E A} (m : St S E A) k (I Q : S -> Prop) s :
  runs m (fun _ => I) I s -> (forall s', I s' -> runs k (fun _ => Q) (fun _ => False) s') -> runs (finally m k) (fun _ => Q) Q s.
Proof.
  intros Hm Hk. unfold runs, finally in *. destruct (m s) as [[a|e| |] s1]; try done.
  - specialize (Hk s1 Hm). by destruct (k s1) as [[| | |] s2].
  - specialize (Hk s1 Hm). by destruct (k s1) as [[| | |] s2].
Qed.

Lemma send_ok es item s : USend item ∈ es -> event_ok (USend item) -> module_ok es s ->
  runs (ut_send item) (fun _ s' => module_ok es s' /\ checked s') (fun s' => module_ok es s' /\ checked s') s.
Proof. intros Hin He Hok. eapply runs_finally; [by apply dispatch_ok|]. intros s'. apply unblock_ok. Qed.

Lemma update_ok es i e s : UUpdate i e ∈ es -> event_ok (UUpdate i e) -> module_ok es s -> checked s ->
  runs (ut_on_update i e) (fun _ s' => module_ok es s' /\ checked s') (fun _ => False) s.
Proof.
  intros Hin He Hok Hc. pose proof (add_peer_ok es i e s Hin He Hok) as Hr. unfold runs, ut_on_update in *.
  assert (Hp : pending_map (ut_add_peer i e s).2 = pending_map s) by (unfold ut_add_peer; by repeat case_match).
  destruct (ut_add_peer i e s) as [[o|err| |] s']; cbn in *; try done. split; [done|]. intros h p. rewrite Hp. apply Hc.
Qed.

(** ** Polling *)

Lemma info_of_bytes h bs : ShaHash_from_bytes bs = h ->
  match Info_from_bytes bs with
  | Ok i => info_hash i = h
  | Err _ => True
  | Panic => BencodeRef_decode bs BDecodeOpt_default = Panic
  | NoFuel => False
  end.
Proof.
  intros Hh. unfold Info_from_bytes. pose proof (decoder_answers bs) as Hf.
  destruct (BencodeRef_decode bs BDecodeOpt_default) as [r|e| |] eqn:Hr; try done.
  cbn [map_err]. run_binds. pose proof (settles_info r) as Hs. apply decode_buffers in Hr as [(rest & E & Hfull) _].
  rewrite (Hfull eq_refl), app_nil_r in E. destruct (parse_info_dictionary r); [|done..]. destruct Hs as [_ ->]. by rewrite <- E.
Qed.

(** A download has all its bytes, with the digest that was asked for, and the
    decoder panics on them. *)
Definition undecodable (s : UtMetadataModule) : Prop := exists h p,
  pending_map s !! h = Some (Some p) /\ left p = 0%Z /\ ShaHash_from_bytes (pending_bytes p) = h /\
  BencodeRef_decode (pending_bytes p) BDecodeOpt_default = Panic.

Lemma complete_found s h o : find (fun e => is_complete_download e.2) (entries (pending_map s)) = Some (h, o) ->
  exists p, o = Some p /\ pending_map s !! h = Some (Some p) /\ left p = 0%Z.
Proof.
  intros [Hin Hc]%find_some. apply list_elem_of_In, elem_of_entries in Hin. destruct o as [p|]; [|done]. exists p. split_and!; [done..|by apply Z.eqb_eq].
Qed.

Lemma finished_ok es s h p :
  module_ok es s -> checked s -> pending_map s !! h = Some (Some p) -> left p = 0%Z ->
  let s' := s <| pending_map := delete h (pending_map s) |> <| active_peers := delete h (active_peers s) |> in module_ok es s' /\ checked s'.
Proof.
  intros [H1 H2 H3 H4 H5 H6 H7] Hc Hh Hl. split; [split; ut_fields; try done|].
  - intros h' p' [_ ?]%lookup_delete_Some. by apply H1.
  - intros h' Hh'. destruct (decide (h = h')) as [<-|Hn].
    + destruct (H1 _ _ Hh) as [[Hd _ _ _ _] _]. rewrite Hl, length_app in Hd. apply length_zero_iff_nil. lia.
    + rewrite lookup_delete_ne in Hh' by done. by apply H2.
  - intros h' [v [_ Hv]%lookup_delete_Some]. by apply H3.
  - intros h' a k j [_ ?]%lookup_delete_Some. by eapply H4.
  - intros h' a [_ ?]%lookup_delete_Some. by apply H5.
  - intros h' p'. ut_fields. intros [_ ?]%lookup_delete_Some. by apply Hc.
Qed.

Lemma retrieve_completed_ok es fuel : forall s, size (pending_map s) < fuel -> module_ok es s -> checked s -> (undecodable s -> P) ->
  runs (retrieve_completed fuel) (fun o s' => module_ok es s' /\ checked s' /\ forall m, o = Some m -> justified es m) (fun _ => False) s.
Proof.
  induction fuel as [|fuel IH]; intros s Hf Hok Hc HU; [lia|]. cbn [retrieve_completed]. apply runs_get.
  destruct (find _ _) as [[h o]|] eqn:Hfind; [|by split_and!]. apply complete_found in Hfind as (p & -> & Hh & Hl). rewrite Hh. cbn [mjoin option_join opt_unwrap].
  apply runs_value, runs_modify, runs_modify. destruct (finished_ok es s h p Hok Hc Hh Hl) as [Hok' Hc'].
  pose proof (ok_asked _ _ Hok h ltac:(by rewrite Hh)) as Hask. pose proof (info_of_bytes h _ (Hc _ _ Hh Hl)) as Hi.
  destruct (Info_from_bytes (pending_bytes p)) as [i|e| |] eqn:Hb; [| | |done].
  - split_and!; [done..|]. intros m [= <-]. exists (pending_bytes p), i. rewrite Hi. split_and!; try done. by apply Hc.
  - apply IH; [|done|done|].
    + ut_fields. rewrite map_size_delete, Hh. cbn. destruct (size (pending_map s)) eqn:Hz; [|lia].
      apply map_size_empty_inv in Hz. by rewrite Hz, lookup_empty in Hh.
    + intros (h' & p' & Hh' & Hrest). apply HU. exists h', p'. split; [|done]. ut_fields. by apply lookup_delete_Some in Hh' as [_ ?].
  - apply HU. exists h, p. split_and!; [done|done|by apply Hc|done].
Qed.

(** A request goes from those that wait to those that are sent. *)
Lemma request_sent es s h p m peer :
  module_ok es s -> checked s -> pending_map s !! h = Some (Some p) -> last (messages p) = Some m -> peer_hash peer = h ->
  let s' := s <| pending_map := <[h := Some {| messages := take (length (messages p) - 1) (messages p); left := left p; pending_bytes := pending_bytes p |}]> (pending_map s) |>
              <| active_requests := active_requests s ++ [generate_active_request m peer] |> in
  module_ok es s' /\ checked s'.
Proof.
  intros [H1 H2 H3 H4 H5 H6 H7] Hc Hh Hm Hpeer. apply last_Some in Hm as [ms Hm].
  assert (Hof : forall h', of_hash h' (active_requests s ++ [generate_active_request m peer]) = of_hash h' (active_requests s) ++ (if decide (h = h') then [m] else [])).
  { intros h'. rewrite of_hash_app, of_hash_cons. cbn. rewrite Hpeer. by case_decide. }
  split; [split; ut_fields; try done|].
  - intros h' p'. rewrite lookup_insert_Some, Hof. intros [[<- [= <-]]|[Hn Hp]].
    + destruct (H1 _ _ Hh) as [Hd Ha]. split; [|exact Ha]. rewrite decide_True by done. eapply download_ok_perm; [..|exact Hd]; [|done..].
      cbn [messages]. rewrite Hm, length_app, Nat.add_sub, take_app_length. solve_Permutation.
    + rewrite decide_False, app_nil_r by done. by apply H1.
  - intros h' Hh'. destruct (decide (h = h')) as [<-|Hn]; [by rewrite lookup_insert_eq in Hh'|].
    rewrite lookup_insert_ne in Hh' by done. rewrite Hof, decide_False, app_nil_r by done. by apply H2.
  - intros h'. rewrite lookup_insert_is_Some. intros [<-|[_ ?]]; apply H3; [by rewrite Hh|done].
  - intros h' p'. ut_fields. rewrite lookup_insert_Some. intros [[<- [= <-]]|[Hn Hp]]; [by apply (Hc _ p)|by apply Hc].
Qed.

Lemma retrieve_request_ok es rng s : module_ok es s -> checked s ->
  runs (retrieve_piece_request rng) (fun o s' => module_ok es s' /\ checked s' /\ forall m, o = Some m -> justified es m) (fun _ => False) s.
Proof.
  intros Hok Hc. unfold retrieve_piece_request. apply runs_get. destruct (find _ _) as [[h o]|] eqn:Hfind; [|by split_and!].
  apply find_some in Hfind as [Hin Hb]. apply list_elem_of_In, elem_of_entries in Hin. cbn [fst snd] in Hb. apply andb_true_iff in Hb as [Hr Ha].
  destruct o as [p|]; [|done]. cbn [has_ready_requests] in Hr. unfold has_active_peers in Ha. destruct (active_peers s !! h) as [a|] eqn:Hap; [|done].
  apply negb_true_iff, bool_decide_eq_false in Hr, Ha. cbn [opt_unwrap]. apply runs_value, runs_value.
  set (candidates := snd <$> entries (peers a)).
  assert (Hlen : (0 < Z.of_nat (length candidates))%Z).
  { subst candidates. rewrite length_fmap, entries_perm, length_map_to_list. apply map_size_non_empty_iff in Ha. lia. }
  destruct (Z.eqb_spec (Z.of_nat (length candidates)) 0) as [|_]; [lia|]. apply runs_value.
  pose proof (Z.mod_pos_bound rng _ Hlen) as Hk. set (k := (rng mod Z.of_nat (length candidates))%Z) in *.
  destruct (lookup_lt_is_Some_2 candidates (Z.to_nat k)) as [peer Hpeer]; [lia|]. rewrite (index_Some _ _ _ Hpeer). apply runs_value.
  destruct (last (messages p)) as [m|] eqn:Hm; [|by apply last_None in Hm]. apply runs_value, runs_modify, runs_modify.
  apply list_lookup_fmap_Some in Hpeer as ([key peer'] & -> & He). apply list_elem_of_lookup_2, elem_of_entries in He.
  destruct (ok_peers _ _ Hok _ _ _ _ Hap He) as (_ & Hph & Hintro). cbn [snd].
  destruct (request_sent es s h p m peer' Hok Hc Hin Hm Hph) as [Hok' Hc'].
  split_and!; [done..|]. intros x [= <-]. cbn [justified]. rewrite Hph. pose proof (ok_asked _ _ Hok h ltac:(by rewrite Hin)) as Hask.
  destruct (ok_download _ _ Hok h p Hin) as [Hd Hann]. split_and!; [done..|]. exists (Z.of_nat (length (pending_bytes p))). split; [done|].
  pose proof (do_pieces _ _ Hd) as Hps. apply last_Some in Hm as [ms Hms]. rewrite Hms, <- (assoc_L (++)) in Hps. by apply Forall_app in Hps as [_ [? _]%Forall_cons].
Qed.

(** The queue of requests gets shorter. *)
Lemma queue_cut es s r rest : peer_requests s = r :: rest -> module_ok es s -> checked s ->
  module_ok es (s <| peer_requests := rest |>) /\ checked (s <| peer_requests := rest |>).
Proof. intros Hq [H1 H2 H3 H4 H5 H6 H7] Hc. split; [split; ut_fields; try done|done]. rewrite Hq in H7. by apply Forall_cons in H7 as [_ ?]. Qed.

(** The bounds of a piece whose index is small enough. *)
Lemma piece_bounds k : piece_ok k ->
  @u64_arith _ DiscoveryError (to_u64 k * MAX_REQUEST_SIZE) = Ok (k * MAX_REQUEST_SIZE)%Z /\
  @u64_arith _ DiscoveryError (k * MAX_REQUEST_SIZE + MAX_REQUEST_SIZE) = Ok (k * MAX_REQUEST_SIZE + MAX_REQUEST_SIZE)%Z.
Proof.
  intros [Hp0 Hp]. unfold MAX_REQUEST_SIZE in *. unfold to_u64. rewrite Z.mod_small by lia. split; apply u64_arith_in; unfold is_u64; lia.
Qed.

Lemma u64_arith_Ok {E} z v : @u64_arith _ E z = Ok v -> is_u64 v /\ v = to_u64 z.
Proof. apply arith_Ok; [apply to_u64_range|]. intros x Hx. by apply Z.mod_small. Qed.

(** A slice of a stored dictionary is the piece, whatever was computed for its bounds. *)
Lemma slice_exact k start end_ data sl :
  @u64_arith _ DiscoveryError (to_u64 k * MAX_REQUEST_SIZE) = Ok start -> @u64_arith _ DiscoveryError (start + MAX_REQUEST_SIZE) = Ok end_ ->
  @slice DiscoveryError Z data (Z.to_nat start) (Z.to_nat end_) = Ok sl ->
  sl = take (Z.to_nat MAX_REQUEST_SIZE) (drop (Z.to_nat (to_u64 (k * MAX_REQUEST_SIZE))) data) /\ Z.of_nat (length sl) = MAX_REQUEST_SIZE.
Proof.
  intros H1 H2 [Hle ->]%slice_Ok. apply u64_arith_Ok in H1 as [Hr1 E1]. apply u64_arith_Ok in H2 as [Hr2 E2].
  assert (E : start = to_u64 (k * MAX_REQUEST_SIZE)) by (rewrite E1; unfold to_u64; by rewrite Zmult_mod_idemp_l).
  assert (Ee : (Z.to_nat end_ - Z.to_nat start)%nat = Z.to_nat MAX_REQUEST_SIZE).
  { unfold to_u64, is_u64, MAX_REQUEST_SIZE in *. destruct (Z.lt_ge_cases (start + 16 * 1024) 18446744073709551616) as [Hlt|Hge].
    - rewrite Z.mod_small in E2 by lia. lia.
    - exfalso. assert (end_ = start + 16 * 1024 - 18446744073709551616)%Z; [|lia].
      rewrite E2. symmetry. apply (Z.mod_unique _ _ 1); lia. }
  rewrite Ee, <- E. split; [done|]. rewrite length_take, length_drop. unfold MAX_REQUEST_SIZE in *. lia.
Qed.

Lemma answer_ok es q : forall s, peer_requests s = q -> module_ok es s -> checked s ->
  runs (answer_requests q) (fun o s' => module_ok es s' /\ checked s' /\ forall m, o = Some m -> justified es m) (fun _ => False) s.
Proof.
  induction q as [|r q IH]; intros s Hs Hok Hc; [by split_and!|]. cbn [answer_requests].
  destruct (queue_cut _ _ _ _ Hs Hok Hc) as [Hok' Hc']. pose proof (ok_queue _ _ Hok) as Hq. rewrite Hs in Hq. apply Forall_cons in Hq as [[Hin Hp] _].
  apply runs_modify, runs_get. set (s' := s <| peer_requests := q |>) in *. set (k := umr_piece (request r)) in *.
  apply runs_lift; [destruct Hp as [|Hp]; [by left|right; eexists; by apply piece_bounds]|by intros e; apply arith_no_err|].
  intros start Hstart. apply runs_lift; [|by intros e; apply arith_no_err|].
  { destruct Hp as [|Hp]; [by left|right]. rewrite (proj1 (piece_bounds _ Hp)) in Hstart. injection Hstart as <-. eexists. by apply piece_bounds. }
  intros end_ Hend. assert (Hrest := IH s' eq_refl Hok' Hc').
  destruct (completed_map s' !! peer_hash (send_to r)) as [data|] eqn:Hdata; [|exact Hrest].
  destruct ((start <=? Z.of_nat (length data)) && (end_ <=? Z.of_nat (length data)))%Z eqn:Hle; [|exact Hrest].
  apply runs_lift; [|by intros e; unfold slice; case_match|].
  { destruct Hp as [|Hp]; [by left|right]. destruct (piece_bounds _ Hp) as [E1 E2]. rewrite E1 in Hstart. injection Hstart as <-. rewrite E2 in Hend. injection Hend as <-.
    eexists. apply slice_in. destruct Hp. unfold MAX_REQUEST_SIZE in *. lia. }
  intros sl Hsl. destruct (slice_exact _ _ _ _ _ Hstart Hend Hsl) as [E Hl]. split_and!; [done..|]. intros m [= <-]. exists (request r), data.
  split_and!; [done|done|by apply (ok_served _ _ Hok)|exact E|exact Hl].
Qed.

Lemma ut_poll_ok es rng s : module_ok es s -> checked s -> (undecodable s -> P) ->
  runs (ut_poll rng) (fun o s' => module_ok es s' /\ checked s' /\ forall m, o = Some m -> justified es m) (fun _ => False) s.
Proof.
  intros Hok Hc HU. set (Q := fun (o : option ODiscoveryMessage) s' => module_ok es s' /\ checked s' /\ forall m, o = Some m -> justified es m).
  assert (Hor : forall (m k : UtM (option ODiscoveryMessage)) s, runs m Q (fun _ => False) s -> (forall s', module_ok es s' -> checked s' -> runs k Q (fun _ => False) s') ->
    runs (or_else m k) Q (fun _ => False) s).
  { intros m k s0 Hm Hk. eapply runs_bind; [exact Hm|]. intros [o|] s1 (H1 & H2 & H3); [by split_and!|by apply Hk]. }
  unfold ut_poll. apply Hor; [apply Hor|].
  - unfold retrieve_completed_download. apply runs_get. apply retrieve_completed_ok; [lia|done..].
  - intros. by apply retrieve_request_ok.
  - intros. unfold retrieve_piece_response. apply runs_get. by apply answer_ok.
Qed.
End Invariant.

(** * Every run *)

Section Runs.
Context {HS : Sha1} {HP : Profile}.

(** The event panics, and it is a poll that meets a download the decoder panics on. *)
Definition panics_decoding (o : HashOrder) (e : ut_event) (s : UtMetadataModule) : Prop :=
  ut_step o e s = Panic /\ (exists rng, e = UPoll rng) /\ undecodable s.

Lemma ut_step_ok R es (o : HashOrder) e s : e ∈ es -> event_ok R e -> module_ok R es s -> checked s ->
  match ut_step o e s with
  | Ok s' => module_ok R es s' /\ checked s'
  | Err _ => False
  | Panic => R \/ panics_decoding o e s
  | NoFuel => R
  end.
Proof.
  intros Hin He Hok Hc. unfold panics_decoding. destruct e as [item|i x|rng]; cbn [ut_step].
  - pose proof (send_ok R R id es item s Hin He Hok) as Hr. unfold runs in Hr. destruct (ut_send item s) as [[| | |] s']; [done|done|by left|done].
  - pose proof (update_ok R R es i x s Hin He Hok Hc) as Hr. unfold runs in Hr. destruct (ut_on_update i x s) as [[| | |] s']; [done|done|by left|done].
  - pose proof (ut_poll_ok R (R \/ undecodable s) (@or_introl _ _) es rng s Hok Hc (@or_intror _ _)) as Hr. unfold runs in Hr.
    destruct (ut_poll rng s) as [[| | |] s']; cbn [after]; [by destruct Hr as (? & ? & _)|done| |done].
    destruct Hr as [?|?]; [by left|right]. split_and!; [done|by eexists|done].
Qed.

Lemma ut_run_ok R es : forall past s, Forall (event_ok R) es.*2 -> module_ok R past s -> checked s ->
  match ut_run es s with
  | Ok s' => module_ok R (past ++ es.*2) s' /\ checked s'
  | Err _ => False
  | Panic => R \/ exists es1 o e es2 s1, es = es1 ++ (o, e) :: es2 /\ ut_run es1 s = Ok s1 /\ panics_decoding o e s1
  | NoFuel => R
  end.
Proof.
  induction es as [|[o e] es IH]; intros past s Hes Hok Hc; [by rewrite app_nil_r|]. cbn [ut_run fmap list_fmap snd] in *.
  apply Forall_cons in Hes as [He Hes]. pose proof (ut_step_ok R (past ++ [e]) o e s) as Hs.
  assert (Hok1 : module_ok R (past ++ [e]) s) by (eapply ut_ok_mono; [|exact Hok]; set_solver).
  specialize (Hs ltac:(set_solver) He Hok1 Hc). destruct (ut_step o e s) as [s'| | |] eqn:Hstep; [|done| |done].
  - run_binds. destruct Hs as [Hok' Hc']. specialize (IH (past ++ [e]) s' Hes Hok' Hc'). rewrite <- (assoc_L (++)) in IH.
    destruct (ut_run es s'); try done. destruct IH as [?|(es1 & o1 & e1 & es2 & s1 & -> & Hr & Hp)]; [by left|right].
    exists ((o, e) :: es1), o1, e1, es2, s1. split_and!; [done| |done]. cbn [ut_run]. rewrite Hstep. run_binds. exact Hr.
  - destruct Hs as [?|Hp]; [by left|right]. by exists [], o, e, es, s.
Qed.
End Runs.

(** What events must be like for nothing else to panic: the torrents that are added
    can be encoded, a size that a peer supporting the exchange tells is not
    negative, and the index of a requested piece is neither negative nor so large
    that the end of the piece is beyond 64 bits. *)
Definition well_behaved `{Sha1} `{Profile} (e : ut_event) : Prop := event_ok False e.

(** The book-keeping of the download of [h]. *)
Definition accounted `{Sha1} (s : UtMetadataModule) (h : ShaHash) : Prop :=
  match pending_map s !! h with
  | Some (Some p) =>
      let outstanding := umr_piece <$> messages p ++ of_hash h (active_requests s) in
      left p = Z.of_nat (length outstanding) /\ NoDup outstanding /\
      Forall (fun k => (0 <= k /\ k * MAX_REQUEST_SIZE < Z.of_nat (length (pending_bytes p)))%Z) outstanding /\
      (left p = 0%Z -> ShaHash_from_bytes (pending_bytes p) = h)
  | _ => of_hash h (active_requests s) = []
  end.

(** C15. Whatever torrents, downloads, handshakes, metadata messages, timer ticks and
    polls come, in any order, as long as the torrents can be encoded, no peer that
    supports the exchange tells a negative size, and no requested piece index is
    negative or ends beyond 64 bits: each download counts with [left] exactly the
    pieces that wait to be requested or are requested and not answered, each piece
    once and inside the dictionary, and has the digest that was asked for when none
    is left; and a hash that is not being downloaded has no requests on their way.
    The one way to a panic is a poll that meets a download with all its bytes and
    the right digest on which the bencode decoder panics. *)
Theorem downloads_accounted `{Sha1} `{Profile} (es : list (HashOrder * ut_event)) :
  Forall well_behaved es.*2 ->
  (exists s, ut_run es UtMetadataModule_new = Ok s /\ forall h, accounted s h) \/
  (exists es1 o e es2 s, es = es1 ++ (o, e) :: es2 /\ ut_run es1 UtMetadataModule_new = Ok s /\ (forall h, accounted s h) /\
    panics_decoding o e s).
Proof.
  intros Hes. destruct (new_ok False) as [Hok Hc].
  assert (Hacc : forall past s, module_ok False past s -> checked s -> forall h, accounted s h).
  { intros past s Hs Hcs h. unfold accounted.
    destruct (pending_map s !! h) as [[p|]|] eqn:Hp; [|by apply (ok_idle _ _ _ Hs); rewrite Hp..].
    destruct (ok_download _ _ _ Hs h p Hp) as [[H1 H2 H3 H4 H5] _]. cbn zeta. rewrite length_fmap.
    split_and!; [done|done|by apply Forall_fmap|by apply Hcs]. }
  pose proof (ut_run_ok False es [] _ Hes Hok Hc) as Hr. destruct (ut_run es _) as [s| | |]; [|done| |done].
  - left. destruct Hr as [Hs Hcs]. exists s. split; [done|by eapply Hacc].
  - right. destruct Hr as [[]|(es1 & o & e & es2 & s & -> & Hrun & Hp)]. exists es1, o, e, es2, s. split_and!; [done|done| |done].
    rewrite fmap_app in Hes. apply Forall_app in Hes as [Hes _]. pose proof (ut_run_ok False es1 [] _ Hes Hok Hc) as Hr.
    rewrite Hrun in Hr. destruct Hr. by eapply Hacc.
Qed.

(** A torrent is asked for, a peer that has it says so, time passes and a request
    goes out. *)
Definition sample_order : HashOrder := {| entries := fun K A _ _ m => map_to_list m; entries_perm := fun K A _ _ m => reflexivity _ |}.
Definition sample_peer : PeerInfo :=
  PeerInfo_new (SockV4 {| v4_ip := Ipv4 1 2 3 4; v4_port := 6881 |}) {| hash := replicate 20 1%Z |} {| hash := replicate 20 3%Z |} Extensions_new.
Definition sample_handshake (size : Z) : ExtendedPeerInfo :=
  ExtendedPeerInfo_new (Some (ext_build (ut_extend ExtendedMessageBuilder_new)))
    (Some (ext_build (with_metadata_size (Some size) (ut_extend ExtendedMessageBuilder_new)))).

Lemma sample_supports size : supports (sample_handshake size) size.
Proof. by split_and!; [eexists..|]. Qed.
Lemma sample_supported size n : supports (sample_handshake size) n -> n = size.
Proof. by intros (_ & _ & [= ->]). Qed.

Definition sample_events : list (HashOrder * ut_event) :=
  [(sample_order, USend (DownloadMetainfo {| hash := replicate 20 0%Z |})); (sample_order, UUpdate sample_peer (sample_handshake 40000));
   (sample_order, USend (IControl (Tick 1000))); (sample_order, UPoll 7);
   (sample_order, USend (ReceivedUtMetadataMessage sample_peer (UmRequest (UtMetadataRequestMessage_new 2)))); (sample_order, UPoll 8)].

Lemma downloads_accounted_witness :
  Forall (@well_behaved sample_sha1 true) sample_events.*2 /\
  ((exists s, @ut_run sample_sha1 true sample_events UtMetadataModule_new = Ok s /\ forall h, @accounted sample_sha1 s h) \/
   (exists es1 o e es2 s, sample_events = es1 ++ (o, e) :: es2 /\ @ut_run sample_sha1 true es1 UtMetadataModule_new = Ok s /\
      (forall h, @accounted sample_sha1 s h) /\ @panics_decoding sample_sha1 true o e s)).
Proof.
  refine ((fun Hes => conj Hes (@downloads_accounted sample_sha1 true sample_events Hes)) _).
  repeat (apply Forall_cons; split); try exact I; [| |constructor].
  - intros size Hs. right. apply sample_supported in Hs as ->. split; unfold ISIZE_MAX; lia.
  - right. split; unfold MAX_REQUEST_SIZE; cbn; lia.
Defined.
