(* ===== verification/SelectDownload.v ===== *)
(** SelectDownload: a download of metadata from honest peers comes to its end, and
    what polling hands out is always justified ([Select]).

    An honest peer answers a request with the piece of the info dictionary that was
    asked for.  The bytes that have come in agree with the dictionary on all pieces
    that are not outstanding; each round of a poll and an answer takes one off. *)

From stdpp Require Import base list gmap.
From Stdlib Require Import ZArith Lia.
From Stdlib Require String.
Import String.StringSyntax.
From S2P Require Import Prelude Effects OrdMap Bencode BencodeCorrect Convert ShaHash Handshake HandshakeCorrect Metainfo MetainfoCorrect DhtToken PeerMessage PeerInfo Select SelectMetadata.

(** * Honest peers *)

(** The piece [k] of an info dictionary. *)
Definition piece_of (dict : bytes) (k : Z) : bytes := take (Z.to_nat MAX_REQUEST_SIZE) (drop (Z.to_nat (k * MAX_REQUEST_SIZE)) dict).

Definition answer (dict : bytes) (peer : PeerInfo) (r : UtMetadataRequestMessage) : IDiscoveryMessage :=
  ReceivedUtMetadataMessage peer (UmData (UtMetadataDataMessage_new (umr_piece r) (Z.of_nat (length dict)) (piece_of dict (umr_piece r)))).

(** Rounds of a poll and, when it asks a peer for a piece, the answer of that peer; the
    torrent that comes out of them. *)
Fixpoint honest_rounds `{Sha1} `{Profile} (dict : bytes) (envs : list (HashOrder * Z)) (s : UtMetadataModule) : option Metainfo :=
  match envs with
  | [] => None
  | (o, rng) :: envs' =>
      match ut_poll rng s with
      | (Ok (Some (DownloadedMetainfo m)), _) => Some m
      | (Ok (Some (SendUtMetadataMessage peer (UmRequest r))), s') =>
          match ut_send (answer dict peer r) s' with
          | (Ok _, s'') => honest_rounds dict envs' s''
          | _ => None
          end
      | _ => None
      end
  end.

(** * One download *)

Lemma entries_one `{HashOrder} {A} (h : ShaHash) (v : A) : entries ({[h := v]} : gmap ShaHash A) = [(h, v)].
Proof. apply Permutation_singleton_r. by rewrite entries_perm, map_to_list_singleton. Qed.

Section Download.
Context {HS : Sha1} {HP : Profile} {HO : HashOrder}.

Lemma validate_one s h p : pending_map s = {[h := Some p]} -> (left p = 0%Z -> ShaHash_from_bytes (pending_bytes p) = h) ->
  exists b, validate_downloaded s = (Ok b, s).
Proof.
  intros Hs Hp. unfold validate_downloaded. unfold mbind at 1, St_bind at 1, get. cbn beta iota. rewrite Hs, entries_one. cbn [for_any is_complete_download].
  destruct (Z.eqb_spec (left p) 0) as [Hl|Hl]; cbn [andb]; [|by eexists]. rewrite bool_decide_eq_true_2 by auto. by eexists.
Qed.

Lemma initialize_one s h p : pending_map s = {[h := Some p]} -> exists b, initialize_pending s = (Ok b, s).
Proof.
  intros Hs. unfold initialize_pending. unfold mbind at 1, St_bind at 1, get. cbn beta iota. rewrite Hs, entries_one. cbn [for_any].
  unfold mbind, St_bind, modify, mret, St_ret. cbn beta iota. rewrite insert_pending_same by (rewrite Hs; apply lookup_singleton_eq). by eexists.
Qed.

Lemma unblock_one s h p : pending_map s = {[h := Some p]} -> (left p = 0%Z -> ShaHash_from_bytes (pending_bytes p) = h) ->
  check_stream_unblock s = (Ok tt, s).
Proof.
  intros Hs Hp. unfold check_stream_unblock. destruct (initialize_one s h p Hs) as [b1 E1]. destruct (validate_one s h p Hs Hp) as [b2 E2].
  unfold mbind, St_bind. by rewrite E1, E2.
Qed.

(** A download whose size is not known yet, and one whose size is. *)
Lemma unblock_waiting s h : pending_map s = {[h := None]} -> active_peers s !! h = None -> check_stream_unblock s = (Ok tt, s).
Proof.
  intros Hs Ha. unfold check_stream_unblock, initialize_pending, validate_downloaded. unfold mbind, St_bind, get, modify, mret, St_ret.
  rewrite Hs, entries_one. cbn [for_any]. unfold mbind, St_bind, get, modify, mret, St_ret. rewrite Ha. cbn beta iota.
  rewrite insert_pending_same by (rewrite Hs; apply lookup_singleton_eq). rewrite Hs, entries_one. cbn. done.
Qed.

Lemma unblock_starting s h a p : pending_map s = {[h := None]} -> active_peers s !! h = Some a ->
  pending_info_from_metadata_size (ap_metadata_size a) = (Ok p : outcome DiscoveryError PendingInfo) -> (left p = 0%Z -> ShaHash_from_bytes (pending_bytes p) = h) ->
  check_stream_unblock s = (Ok tt, s <| pending_map := {[h := Some p]} |>).
Proof.
  intros Hs Ha Hp Hd. unfold check_stream_unblock. unfold mbind at 1, St_bind at 1.
  assert (E : exists b, initialize_pending s = (Ok b, s <| pending_map := {[h := Some p]} |>)).
  { unfold initialize_pending. unfold mbind at 1, St_bind at 1, get. cbn beta iota. rewrite Hs, entries_one. cbn [for_any].
    unfold fmap, St_fmap, mbind, St_bind, modify, mret, St_ret, lift. rewrite Ha, Hp. cbn beta iota. rewrite Hs, insert_singleton_eq. by eexists. }
  destruct E as [b ->]. set (s1 := s <| pending_map := {[h := Some p]} |>).
  destruct (validate_one s1 h p) as [b2 E2]; [done|done|].
  unfold mbind, St_bind. by rewrite E2.
Qed.

Lemma completed_none s h p : pending_map s = {[h := Some p]} -> left p <> 0%Z -> retrieve_completed_download s = (Ok None, s).
Proof.
  intros Hs Hl. unfold retrieve_completed_download. unfold mbind, St_bind, get. cbn [retrieve_completed]. unfold mbind, St_bind, get.
  rewrite Hs, entries_one. cbn [find is_complete_download snd]. by destruct (Z.eqb_spec (left p) 0).
Qed.

(** With pieces to ask for and peers to ask, a poll asks one of them. *)
Lemma poll_requests s h p ms m a rng :
  pending_map s = {[h := Some p]} -> left p <> 0%Z -> messages p = ms ++ [m] -> active_peers s !! h = Some a -> peers a <> ∅ ->
  exists k peer, peers a !! k = Some peer /\
    ut_poll rng s = (Ok (Some (SendUtMetadataMessage peer (UmRequest m))),
      s <| pending_map := {[h := Some {| messages := ms; left := left p; pending_bytes := pending_bytes p |}]} |>
        <| active_requests := active_requests s ++ [generate_active_request m peer] |>).
Proof.
  intros Hs Hl Hm Ha Hne. unfold ut_poll, or_else. unfold mbind, St_bind. rewrite (completed_none s h p Hs Hl). cbn beta iota.
  unfold retrieve_piece_request. unfold mbind at 1, St_bind at 1, get. cbn beta iota. rewrite Hs, entries_one.
  cbn [find has_ready_requests fst snd]. unfold has_active_peers. rewrite Ha, Hm.
  rewrite (bool_decide_eq_false_2 (peers a = ∅)) by done. rewrite bool_decide_eq_false_2 by (by destruct ms). cbn [negb andb opt_unwrap].
  set (candidates := snd <$> entries (peers a)).
  assert (Hlen : (0 < Z.of_nat (length candidates))%Z).
  { subst candidates. rewrite length_fmap, entries_perm, length_map_to_list. apply map_size_non_empty_iff in Hne. lia. }
  pose proof (Z.mod_pos_bound rng _ Hlen) as Hk.
  destruct (lookup_lt_is_Some_2 candidates (Z.to_nat (rng mod Z.of_nat (length candidates)))) as [peer Hpeer]; [lia|].
  pose proof Hpeer as Hin. apply list_lookup_fmap_Some in Hin as ([key peer'] & -> & He). apply list_elem_of_lookup_2, elem_of_entries in He.
  exists key, peer'. split; [done|]. unfold mbind, St_bind, lift, modify, mret, St_ret.
  rewrite Ha, Hm. cbn [opt_unwrap]. cbn zeta beta iota. fold candidates. destruct (Z.eqb_spec (Z.of_nat (length candidates)) 0) as [|_]; [lia|]. rewrite (index_Some _ _ _ Hpeer). cbn beta iota. rewrite last_snoc. cbn [opt_unwrap].
  rewrite Hs, insert_singleton_eq, length_app, Nat.add_sub, take_app_length. done.
Qed.

(** An answer to the only request on its way. *)
Lemma data_arrives s h p peer m d :
  pending_map s = {[h := Some p]} -> active_requests s = [generate_active_request m peer] -> peer_hash peer = h ->
  umd_piece d = umr_piece m -> (0 <= umr_piece m /\ umr_piece m * MAX_REQUEST_SIZE < Z.of_nat (length (pending_bytes p)) <= ISIZE_MAX)%Z ->
  (0 < left p <= ISIZE_MAX)%Z ->
  let p' := {| messages := messages p; left := left p - 1;
               pending_bytes := write_at (Z.to_nat (umr_piece m * MAX_REQUEST_SIZE)) (umd_data d) (pending_bytes p) |} in
  (left p' = 0%Z -> ShaHash_from_bytes (pending_bytes p') = h) ->
  ut_send (ReceivedUtMetadataMessage peer (UmData d)) s = (Ok None, s <| active_requests := [] |> <| pending_map := {[h := Some p']} |>).
Proof.
  intros Hs Hact Hph Hd Hk Hl p' Hp'. unfold ut_send, finally, ut_dispatch. unfold ISIZE_MAX, MAX_REQUEST_SIZE in *.
  assert (E : recv_data peer d s = (Ok None, s <| active_requests := [] |> <| pending_map := {[h := Some p']} |>)).
  { unfold recv_data. unfold mbind at 1, St_bind at 1, get. cbn beta iota. rewrite Hact. cbn [position generate_active_request sent_to ar_message].
    rewrite (proj2 (PeerInfo_eq_key peer peer) eq_refl), Hd, Z.eqb_refl. cbn [andb]. unfold mbind, St_bind, modify, lift, mret, St_ret.
    rewrite Hph, Hs, lookup_singleton_eq. assert (to_u64 (umr_piece m) = umr_piece m) as -> by (unfold to_u64; rewrite Z.mod_small; lia).
    unfold MAX_REQUEST_SIZE. rewrite !u64_arith_in by (unfold is_u64; lia). cbn beta iota. rewrite slice_from_in by lia. cbn beta iota.
    ut_fields. rewrite Hs, insert_singleton_eq, Hact. done. }
  rewrite E. by rewrite (unblock_one _ h p').
Qed.

(** [n] pieces of the dictionary are missing; the others are there. *)
Record downloading (dict : bytes) (h : ShaHash) (n : nat) (p : PendingInfo) (s : UtMetadataModule) : Prop := {
  dl_pending : pending_map s = {[h := Some p]};
  dl_active : active_requests s = [];
  dl_left : left p = Z.of_nat n /\ length (messages p) = n;
  dl_length : length (pending_bytes p) = length dict;
  dl_pieces : Forall (fun m => 0 <= umr_piece m /\ umr_piece m * MAX_REQUEST_SIZE < Z.of_nat (length dict))%Z (messages p);
  dl_there : forall pos, pos < length dict -> (Z.of_nat pos / MAX_REQUEST_SIZE)%Z ∉ umr_piece <$> messages p -> pending_bytes p !! pos = dict !! pos;
  dl_peers : exists a, active_peers s !! h = Some a /\ peers a <> ∅ /\ forall k i, peers a !! k = Some i -> peer_hash i = h;
}.

Lemma downloading_done dict h p s : downloading dict h 0 p s -> pending_bytes p = dict.
Proof.
  intros [_ _ [_ Hm] Hl _ Hin _]. apply nil_length_inv in Hm. apply list_eq_same_length with (length dict); [done..|].
  intros pos x y Hpos Hx Hy. rewrite Hin in Hx; [congruence|done|]. rewrite Hm. apply not_elem_of_nil.
Qed.

(** The piece that is written is the one of the dictionary, the rest stays. *)
Lemma write_piece_lookup dict buf k pos : length buf = length dict -> (0 <= k /\ k * MAX_REQUEST_SIZE < Z.of_nat (length dict))%Z -> pos < length dict ->
  write_at (Z.to_nat (k * MAX_REQUEST_SIZE)) (piece_of dict k) buf !! pos = (if decide (Z.of_nat pos / MAX_REQUEST_SIZE = k)%Z then dict !! pos else buf !! pos).
Proof.
  intros Hl Hk Hpos. unfold write_at, overwrite, piece_of. set (off := Z.to_nat (k * MAX_REQUEST_SIZE)). set (w := Z.to_nat MAX_REQUEST_SIZE).
  set (d := take (length buf - off) (take w (drop off dict))).
  assert (Hd : length d = Nat.min (length dict - off) w) by (subst d; rewrite !length_take, length_drop; lia).
  assert (Hoff : off < length dict) by (unfold off; lia). assert (Hw : w = 16384) by done.
  assert (Hdiv : (Z.of_nat pos / MAX_REQUEST_SIZE = k)%Z <-> off <= pos < off + w).
  { subst off w. unfold MAX_REQUEST_SIZE in *. split; intros H; [subst k|]; Z.to_euclidean_division_equations; lia. }
  destruct (decide (pos < off)) as [Hlt|Hge].
  { rewrite lookup_app_l by (rewrite length_take; lia). rewrite lookup_take_lt by done. rewrite decide_False; [done|]. rewrite Hdiv. lia. }
  rewrite lookup_app_r by (rewrite length_take; lia). rewrite length_take, Nat.min_l by lia.
  destruct (decide (pos < off + w)) as [Hin|Hout].
  - rewrite decide_True by (apply Hdiv; lia). rewrite lookup_app_l by lia. subst d. rewrite !lookup_take_lt by lia. rewrite lookup_drop. f_equal. lia.
  - rewrite decide_False by (rewrite Hdiv; lia). rewrite lookup_app_r by lia. rewrite lookup_drop. f_equal. lia.
Qed.

(** A round takes one piece off. *)
Lemma round_ok dict h n p s rng :
  ShaHash_from_bytes dict = h -> (Z.of_nat (length dict) <= ISIZE_MAX)%Z -> (Z.of_nat (S n) <= ISIZE_MAX)%Z -> downloading dict h (S n) p s ->
  exists peer r s1 s2 p', ut_poll rng s = (Ok (Some (SendUtMetadataMessage peer (UmRequest r))), s1) /\
    ut_send (answer dict peer r) s1 = (Ok None, s2) /\ downloading dict h n p' s2.
Proof.
  intros Hh Hdict Hn [H1 H2 [H3 H3'] H4 H5 H6 (a & Ha & Hne & Hall)].
  destruct (messages p) as [|m ms _] eqn:Hm using rev_ind; [done|]. rewrite length_app in H3'. cbn in H3'.
  destruct (poll_requests s h p ms m a rng H1 ltac:(lia) Hm Ha Hne) as (k & peer & Hpeer & Hpoll).
  apply Forall_app in H5 as [H5 [Hmk _]%Forall_cons]. 
  set (p1 := {| messages := ms; left := left p; pending_bytes := pending_bytes p |}) in *.
  set (s1 := s <| pending_map := {[h := Some p1]} |> <| active_requests := active_requests s ++ [generate_active_request m peer] |>) in *.
  set (d := UtMetadataDataMessage_new (umr_piece m) (Z.of_nat (length dict)) (piece_of dict (umr_piece m))).
  set (p' := {| messages := messages p1; left := left p1 - 1; pending_bytes := write_at (Z.to_nat (umr_piece m * MAX_REQUEST_SIZE)) (umd_data d) (pending_bytes p1) |}).
  assert (Hd : downloading dict h n p' (s1 <| active_requests := [] |> <| pending_map := {[h := Some p']} |>)).
  { split; [done|done|cbn; lia| |done| |by exists a]; cbn [pending_bytes p' messages p1 umd_data d UtMetadataDataMessage_new].
    - rewrite write_at_length; [done|]. unfold MAX_REQUEST_SIZE in *. lia.
    - intros pos Hpos Hnot. rewrite write_piece_lookup by done. case_decide as Hk; [done|]. apply H6; [done|].
      rewrite fmap_app, not_elem_of_app. split; [done|]. cbn. by rewrite list_elem_of_singleton. }
  exists peer, m, s1, (s1 <| active_requests := [] |> <| pending_map := {[h := Some p']} |>), p'. split; [exact Hpoll|]. split; [|exact Hd].
  apply (data_arrives s1 h p1 peer m d); try done.
  - cbn. by rewrite H2.
  - by eapply Hall.
  - cbn. rewrite H4. unfold MAX_REQUEST_SIZE in *. lia.
  - cbn. lia.
  - intros Hl. assert (n = 0) as -> by (cbn in Hl; lia). fold p'. by rewrite (downloading_done _ _ _ _ Hd).
Qed.

(** The last poll hands the torrent out. *)
Lemma last_poll dict h p s rng i :
  ShaHash_from_bytes dict = h -> Info_from_bytes dict = Ok i -> downloading dict h 0 p s ->
  exists s', ut_poll rng s = (Ok (Some (DownloadedMetainfo (Metainfo_from i))), s').
Proof.
  intros Hh Hi Hd. pose proof (downloading_done _ _ _ _ Hd) as Hb. destruct Hd as [H1 H2 [H3 _] _ _ _ _]. eexists.
  unfold ut_poll, or_else, retrieve_completed_download. unfold mbind, St_bind, get. cbn [retrieve_completed]. unfold mbind, St_bind, get.
  rewrite H1, entries_one. cbn [find is_complete_download snd]. rewrite H3. change (Z.of_nat 0 =? 0)%Z with true. cbn beta iota. rewrite lookup_singleton_eq. cbn [mjoin option_join opt_unwrap].
  unfold lift, modify. cbn beta iota. rewrite Hb, Hi. done.
Qed.
End Download.

Lemma rounds_end `{Sha1} `{Profile} dict h i envs : forall n p s,
  ShaHash_from_bytes dict = h -> Info_from_bytes dict = Ok i -> (Z.of_nat (length dict) <= ISIZE_MAX)%Z -> (Z.of_nat n <= ISIZE_MAX)%Z ->
  downloading dict h n p s -> length envs = S n -> honest_rounds dict envs s = Some (Metainfo_from i).
Proof.
  induction envs as [|[o rng] envs IH]; intros n p s Hh Hi Hl Hn Hd Henvs; [done|]. cbn [honest_rounds length] in *. injection Henvs as Henvs.
  destruct n as [|n].
  - destruct (last_poll dict h p s rng i Hh Hi Hd) as [s' ->]. done.
  - destruct (round_ok dict h n p s rng Hh Hl Hn Hd) as (peer & r & s1 & s2 & p' & -> & -> & Hd'). eapply (IH n); eauto. lia.
Qed.

(** * Starting *)

(** A torrent is asked for, peers tell the size of its dictionary, time passes. *)
Definition download_start (h : ShaHash) (o : HashOrder) (updates : list (HashOrder * (PeerInfo * ExtendedPeerInfo))) (d : Z) : list (HashOrder * ut_event) :=
  (o, USend (DownloadMetainfo h)) :: ((fun u => (u.1, UUpdate u.2.1 u.2.2)) <$> updates) ++ [(o, USend (IControl (Tick d)))].

(** The peers that told the size [size] of the dictionary of [h]. *)
Definition told (h : ShaHash) (size : Z) (a : ActivePeers) : Prop :=
  ap_metadata_size a = size /\ peers a <> ∅ /\ forall k i, peers a !! k = Some i -> peer_hash i = h.

Section Start.
Context {HS : Sha1} {HP : Profile}.

Lemma run_app es es' : forall s s', ut_run es s = Ok s' -> ut_run (es ++ es') s = ut_run es' s'.
Proof.
  induction es as [|[o e] es IH]; intros s s' Hr; [by injection Hr as ->|]. cbn [ut_run app] in *.
  destruct (ut_step o e s) as [s1| | |]; [|done..]. by apply IH.
Qed.

Lemma update_told (o : HashOrder) h size i e s :
  peer_hash i = h -> supports e size -> (forall a, active_peers s !! h = Some a -> told h size a) ->
  exists a, ut_step o (UUpdate i e) s = Ok (s <| active_peers := <[h := a]> (active_peers s) |>) /\ told h size a.
Proof.
  intros Hi (H1 & H2 & H3) Ha. cbn [ut_step]. unfold ut_on_update, ut_add_peer. destruct H1 as [x1 ->], H2 as [x2 ->]. rewrite H3, Hi.
  eexists. split; [done|]. set (a0 := default _ _).
  assert (Ha0 : ap_metadata_size a0 = size /\ forall k j, peers a0 !! k = Some j -> peer_hash j = h).
  { subst a0. destruct (active_peers s !! h) as [a|]; cbn; [by destruct (Ha a eq_refl) as (? & _ & ?)|]. split; [done|]. intros k j. by rewrite lookup_empty. }
  destruct Ha0 as [Hs Hall]. split; [done|]. cbn [peers]. split.
  - unfold peers_insert. destruct (peers a0 !! key_of i) as [j|] eqn:Hj; [|apply insert_non_empty]. intros He. by rewrite He, lookup_empty in Hj.
  - intros k j [Hj|[-> ->]]%peers_insert_Some; [by eapply Hall|done].
Qed.

Lemma updates_told h size ups : forall s,
  pending_map s = {[h := None]} -> active_requests s = [] -> (forall a, active_peers s !! h = Some a -> told h size a) ->
  Forall (fun u => peer_hash u.2.1 = h /\ supports u.2.2 size) ups ->
  exists s', ut_run ((fun u => (u.1, UUpdate u.2.1 u.2.2)) <$> ups) s = Ok s' /\
    pending_map s' = {[h := None]} /\ active_requests s' = [] /\ (forall a, active_peers s' !! h = Some a -> told h size a) /\
    (ups <> [] -> is_Some (active_peers s' !! h)) /\ (is_Some (active_peers s !! h) -> is_Some (active_peers s' !! h)).
Proof.
  induction ups as [|[o [i e]] ups IH]; intros s Hp Ha Ht Hups; [by exists s|]. apply Forall_cons in Hups as [[Hi Hs] Hups]. cbn [fst snd] in *.
  destruct (update_told o h size i e s Hi Hs Ht) as (a & E & Hta). cbn [fmap list_fmap ut_run fst snd]. rewrite E. run_binds.
  destruct (IH (s <| active_peers := <[h := a]> (active_peers s) |>)) as (s' & Hr & H1 & H2 & H3 & H4 & H5); [done|done| |done|].
  { ut_fields. intros a'. rewrite lookup_insert_eq. by intros [= <-]. }
  exists s'. split_and!; try done. all: intros _; apply H5; ut_fields; rewrite lookup_insert_eq; by eexists.
Qed.

(** The number of pieces of a dictionary. *)
Definition num_dict_pieces (size : nat) : nat := Z.to_nat ((Z.of_nat size + (MAX_REQUEST_SIZE - 1)) / MAX_REQUEST_SIZE).

Lemma fresh_downloading dict h a p s :
  (Z.of_nat (length dict) <= ISIZE_MAX)%Z -> told h (Z.of_nat (length dict)) a -> active_peers s !! h = Some a -> active_requests s = [] ->
  pending_map s = {[h := Some p]} -> pending_info_from_metadata_size (Z.of_nat (length dict)) = (Ok p : outcome DiscoveryError PendingInfo) ->
  downloading dict h (num_dict_pieces (length dict)) p s.
Proof.
  intros Hl (_ & Hne & Hall) Ha Hr Hs Hp. destruct (pending_fresh _ _ Hp) as ([D1 D2 _ _ _] & Hb & Hm). unfold ISIZE_MAX in *.
  assert (Eu : to_u64 (Z.of_nat (length dict)) = Z.of_nat (length dict)) by (unfold to_u64; apply Z.mod_small; lia).
  rewrite Eu in Hb, Hm. fold (num_dict_pieces (length dict)) in Hm. rewrite app_nil_r in D1, D2.
  assert (Hlen : length (messages p) = num_dict_pieces (length dict)) by (by rewrite <- (length_fmap umr_piece), Hm, length_fmap, length_seq).
  split; [done|done|by rewrite D1, Hlen|lia| | |by exists a].
  - rewrite Hb in D2. exact D2.
  - intros pos Hpos []. rewrite Hm. apply list_elem_of_fmap. exists (Z.to_nat (Z.of_nat pos / MAX_REQUEST_SIZE)). unfold num_dict_pieces, MAX_REQUEST_SIZE.
    split; [Z.to_euclidean_division_equations; lia|]. apply elem_of_seq. Z.to_euclidean_division_equations; lia.
Qed.

Lemma start_downloading dict h o ups d :
  ShaHash_from_bytes dict = h -> (Z.of_nat (length dict) <= ISIZE_MAX)%Z -> ups <> [] ->
  Forall (fun u => peer_hash u.2.1 = h /\ supports u.2.2 (Z.of_nat (length dict))) ups ->
  exists s p, ut_run (download_start h o ups d) UtMetadataModule_new = Ok s /\ downloading dict h (num_dict_pieces (length dict)) p s.
Proof.
  intros Hh Hl Hne Hups. unfold download_start. cbn [ut_run]. 
  assert (E1 : ut_step o (USend (DownloadMetainfo h)) UtMetadataModule_new = Ok (UtMetadataModule_new <| pending_map := {[h := None]} |>)).
  { cbn [ut_step]. unfold ut_send, finally, ut_dispatch, download_metainfo. unfold mbind, St_bind, get, when, modify, mret, St_ret. cbn [pending_map UtMetadataModule_new].
    rewrite lookup_empty, bool_decide_eq_false_2 by (by intros [? ?]). cbn [negb]. by rewrite (unblock_waiting _ h). }
  rewrite E1. run_binds. destruct (updates_told h (Z.of_nat (length dict)) ups (UtMetadataModule_new <| pending_map := {[h := None]} |>)) as (s & Hr & H1 & H2 & H3 & H4 & _); [done|done| |done|].
  { ut_fields. intros a. cbn. by rewrite lookup_empty. }
  rewrite (run_app _ _ _ _ Hr). cbn [ut_run ut_step]. destruct (H4 Hne) as [a Ha]. pose proof (H3 a Ha) as Ht.
  destruct (pending_info_runs False (E := DiscoveryError) (Z.of_nat (length dict))) as [[]|[p Hp]]; [right; split; lia|].
  set (s1 := s <| active_requests := [] |> <| active_requests := [] |>).
  assert (Ht1 : ut_dispatch (IControl (Tick d)) s = (Ok None, s1)).
  { cbn [ut_dispatch]. unfold apply_tick, mbind, St_bind, get, modify, mret, St_ret, lift. by rewrite H2. }
  assert (Hd : downloading dict h (num_dict_pieces (length dict)) p (s1 <| pending_map := {[h := Some p]} |>)) by (by eapply fresh_downloading).
  exists (s1 <| pending_map := {[h := Some p]} |>), p. split; [|done].
  unfold ut_send, finally. rewrite Ht1. rewrite (unblock_starting s1 h a p); [done|done|done|by rewrite (proj1 Ht)|].
  intros Hz. pose proof (dl_left _ _ _ _ _ Hd) as [Hn _]. assert (Hn0 : num_dict_pieces (length dict) = 0) by lia. rewrite Hn0 in Hd.
  by rewrite (downloading_done _ _ _ _ Hd).
Qed.
End Start.

(** C13. A torrent that is asked for is downloaded: when at least one peer told the
    size of its info dictionary, all that did told the right one, and whoever is
    asked for a piece answers with it, one poll for each piece and one more hand out
    the torrent of that dictionary, whatever peers are picked. *)
Theorem honest_download_completes `{Sha1} `{Profile} (dict : bytes) (i : Info) (o : HashOrder)
    (updates : list (HashOrder * (PeerInfo * ExtendedPeerInfo))) (d : Z) (envs : list (HashOrder * Z)) :
  Info_from_bytes dict = Ok i -> (Z.of_nat (length dict) <= ISIZE_MAX)%Z -> updates <> [] ->
  Forall (fun u => peer_hash u.2.1 = ShaHash_from_bytes dict /\ supports u.2.2 (Z.of_nat (length dict))) updates ->
  length envs = S (num_dict_pieces (length dict)) ->
  exists s, ut_run (download_start (ShaHash_from_bytes dict) o updates d) UtMetadataModule_new = Ok s /\
    honest_rounds dict envs s = Some (Metainfo_from i).
Proof.
  intros Hi Hl Hne Hups Henvs. destruct (start_downloading dict _ o updates d eq_refl Hl Hne Hups) as (s & p & Hr & Hd).
  exists s. split; [done|]. apply (rounds_end dict (ShaHash_from_bytes dict) i envs (num_dict_pieces (length dict)) p s); try done. unfold num_dict_pieces, MAX_REQUEST_SIZE, ISIZE_MAX in *.
  rewrite Z2Nat.id by (apply Z.div_pos; lia). Z.to_euclidean_division_equations; lia.
Qed.

(** C39. What a poll hands out has its reason in what came before, for every order
    of events.  A torrent is one whose hash was asked for, read from bytes with
    that digest.  A request goes to a peer that supports the exchange, for a torrent that
    was asked for and a piece inside the size that some peer told.  Data goes to a
    peer that asked for that piece, and is a whole piece of the dictionary of a torrent that was
    added under the peer's hash. *)
Theorem polls_justified `{Sha1} `{Profile} (es : list (HashOrder * ut_event)) (s : UtMetadataModule) (o : HashOrder) (rng : Z)
    (m : ODiscoveryMessage) (s' : UtMetadataModule) :
  ut_run es UtMetadataModule_new = Ok s -> ut_poll rng s = (Ok (Some m), s') -> justified es.*2 m.
Proof.
  intros Hr Hp. destruct (new_ok True) as [Hok Hc].
  assert (Hes : Forall (event_ok True) es.*2) by (apply Forall_forall; intros [[[]| |? []]| |] _; cbn; auto).
  pose proof (ut_run_ok True es [] _ Hes Hok Hc) as Hs. rewrite Hr in Hs. destruct Hs as [Hs Hcs].
  pose proof (ut_poll_ok True True id es.*2 rng s Hs Hcs (fun _ => I)) as Hq. unfold runs in Hq. rewrite Hp in Hq. by apply Hq.
Qed.

(** * A concrete download *)

(** The dictionary of a file of five bytes. *)
Definition sample_dict : bytes :=
  ascii_bytes "d6:lengthi5e4:name5:a.txt12:piece lengthi8e6:pieces20:12345678901234567890e".
Definition sample_dict_info : Info := {|
  info_hash := {| hash := ascii_bytes "d6:lengthi5e4:name5:" |};
  files := [{| f_len := 5; f_path := ascii_bytes "a.txt"; f_md5sum := None |}]; pieces := [ascii_bytes "12345678901234567890"];
  piece_len := 8; is_private := None; file_directory := None |}.
Definition sample_holder : PeerInfo :=
  PeerInfo_new (SockV4 {| v4_ip := Ipv4 1 2 3 4; v4_port := 6881 |}) {| hash := replicate 20 1%Z |} (info_hash sample_dict_info) Extensions_new.

Lemma sample_dict_read : @Info_from_bytes sample_sha1 sample_dict = Ok sample_dict_info.
Proof. by vm_compute. Qed.

Lemma honest_download_completes_witness :
  exists s, @ut_run sample_sha1 true (download_start (@ShaHash_from_bytes sample_sha1 sample_dict) sample_order
      [(sample_order, (sample_holder, sample_handshake (Z.of_nat (length sample_dict))))] 1000) UtMetadataModule_new = Ok s /\
    @honest_rounds sample_sha1 true sample_dict [(sample_order, 5%Z); (sample_order, 6%Z)] s = Some (Metainfo_from sample_dict_info).
Proof.
  apply (@honest_download_completes sample_sha1 true sample_dict sample_dict_info); [apply sample_dict_read|by vm_compute|done| |done].
  apply Forall_singleton. split; [done|apply sample_supports].
Defined.

Lemma polls_justified_witness :
  exists s m s', @ut_run sample_sha1 true (download_start (@ShaHash_from_bytes sample_sha1 sample_dict) sample_order
      [(sample_order, (sample_holder, sample_handshake (Z.of_nat (length sample_dict))))] 1000) UtMetadataModule_new = Ok s /\
    @ut_poll sample_sha1 true sample_order 5 s = (Ok (Some m), s') /\
    @justified sample_sha1 true (download_start (@ShaHash_from_bytes sample_sha1 sample_dict) sample_order
      [(sample_order, (sample_holder, sample_handshake (Z.of_nat (length sample_dict))))] 1000).*2 m.
Proof.
  destruct (@start_downloading sample_sha1 true sample_dict (@ShaHash_from_bytes sample_sha1 sample_dict) sample_order
    [(sample_order, (sample_holder, sample_handshake (Z.of_nat (length sample_dict))))] 1000 eq_refl) as (s & p & Hr & Hd); [by vm_compute|done| |].
  { apply Forall_singleton. split; [done|apply sample_supports]. }
  assert (En : num_dict_pieces (length sample_dict) = 1) by (by vm_compute). rewrite En in Hd.
  destruct (@round_ok sample_sha1 true sample_order sample_dict _ 0 p s 5 eq_refl ltac:(by vm_compute) ltac:(by vm_compute) Hd) as (peer & r & s1 & s2 & p' & Hp & _).
  exists s, (SendUtMetadataMessage peer (UmRequest r)), s1. split_and!; [exact Hr|exact Hp|].
  exact (@polls_justified sample_sha1 true _ s sample_order 5 _ s1 Hr Hp).
Defined.
