(* ===== verification/SelectUber.v ===== *)
(** SelectUber: the module that hands messages to the others, and the extended
    handshake ([Select]).

    The loop over module states is the walk over the list of the modules that follow
    the last one: [visit].  A control message that no module refuses is handled by
    each of them once, in order; after an error the next message starts at the
    module that failed. *)

From stdpp Require Import base list gmap.
From Stdlib Require Import ZArith Lia.
From S2P Require Import Prelude Effects ShaHash Handshake Metainfo DhtToken PeerMessage PeerInfo Select SelectMetadata.

Section Visit.
Context {D : Type} `{DiscoveryTrait D}.

(** The modules that follow a state, in order. *)
Definition modules_after (u : UberModule D) (state : option ModuleState) : list ModuleState :=
  match state with
  | None => (if extended u then [StExtended] else []) ++ (StDiscovery <$> seq 0 (length (discovery u)))
  | Some StExtended => StDiscovery <$> seq 0 (length (discovery u))
  | Some (StDiscovery k) => StDiscovery <$> seq (k + 1) (length (discovery u) - (k + 1))
  end.

(** A walk over modules: the sink goes on after every answer, the stream until one
    has a message; an error stops both. *)
Fixpoint visit {R} (is_sink : bool) (set_state : option ModuleState -> UberModule D -> UberModule D)
    (logic : ModuleState -> St (UberModule D) UberError (option R)) (states : list ModuleState) (result : outcome UberError (option R)) :
    St (UberModule D) UberError (option R) := fun u =>
  match states with
  | [] => (result, set_state None u)
  | state :: rest =>
      match logic state u with
      | (Ok var, u') =>
          if is_sink || bool_decide (var = None) then visit is_sink set_state logic rest (Ok var) (set_state (Some state) u')
          else (Ok var, u')
      | stopped => stopped
      end
  end.

(** What a call on a module leaves as it was. *)
Record same_shape (u u' : UberModule D) : Prop := {
  sh_extended : is_Some (extended u) <-> is_Some (extended u');
  sh_discovery : length (discovery u') = length (discovery u);
  sh_sink : last_sink_state u' = last_sink_state u;
  sh_stream : last_stream_state u' = last_stream_state u;
}.

Lemma modules_after_shape u u' st : is_Some (extended u) <-> is_Some (extended u') -> length (discovery u') = length (discovery u) ->
  modules_after u' st = modules_after u st.
Proof.
  intros He Hd. unfold modules_after. rewrite Hd. destruct st as [[|k]|]; [done..|]. f_equal.
  destruct (extended u), (extended u'); try done; exfalso; destruct He as [H1 H2]; [by destruct (H1 (mk_is_Some _ _ eq_refl))|by destruct (H2 (mk_is_Some _ _ eq_refl))].
Qed.

(** The next state is the first of the modules that follow, and the others follow it. *)
Lemma next_state_after u st : match modules_after u st with
  | [] => next_state u st = None
  | state :: rest => next_state u st = Some state /\ modules_after u (Some state) = rest
  end.
Proof.
  unfold modules_after, next_state. destruct st as [[|k]|].
  - destruct (length (discovery u)) as [|n]; [done|]. cbn [Nat.eqb negb seq fmap list_fmap]. split; [done|]. by rewrite Nat.sub_1_r.
  - destruct (Nat.ltb_spec (k + 1) (length (discovery u))) as [Hlt|Hge].
    + destruct (length (discovery u) - (k + 1)) as [|n] eqn:Hn; [lia|]. cbn [seq fmap list_fmap]. split; [done|].
      rewrite (Nat.add_1_r (k + 1)). by replace (length (discovery u) - S (k + 1)) with n by lia.
    + by replace (length (discovery u) - (k + 1)) with 0 by lia.
  - destruct (extended u) as [m|]; cbn [app]; [by rewrite bool_decide_eq_true_2|]. rewrite bool_decide_eq_false_2 by (by intros []).
    destruct (length (discovery u)) as [|n]; [done|]. cbn [Nat.eqb negb seq fmap list_fmap]. split; [done|]. by rewrite Nat.sub_1_r.
Qed.

(** A field of the last state, with the call that sets it. *)
Record state_field (get_state : UberModule D -> option ModuleState) (set_state : option ModuleState -> UberModule D -> UberModule D) : Prop := {
  sf_get : forall st u, get_state (set_state st u) = st;
  sf_extended : forall st u, extended (set_state st u) = extended u;
  sf_discovery : forall st u, discovery (set_state st u) = discovery u;
  sf_same : forall u u', same_shape u u' -> get_state u' = get_state u;
}.

Lemma sink_field : state_field last_sink_state set_sink.
Proof. split; [done..|]. by intros u u' [_ _ ? _]. Qed.
Lemma stream_field : state_field last_stream_state set_stream.
Proof. split; [done..|]. by intros u u' [_ _ _ ?]. Qed.

(** The loop is the walk. *)
Lemma loop_visits {R} is_sink get_state set_state (logic : ModuleState -> St (UberModule D) UberError (option R)) :
  state_field get_state set_state -> (forall state u, same_shape u (logic state u).2) ->
  forall fuel result u, length (modules_after u (get_state u)) < fuel ->
  loop_states fuel is_sink result (fun u => next_state u (get_state u)) set_state logic u =
  visit is_sink set_state logic (modules_after u (get_state u)) result u.
Proof.
  intros Hf Hshape. induction fuel as [|fuel IH]; intros result u Hlen; [lia|]. cbn [loop_states]. pose proof (next_state_after u (get_state u)) as Hn.
  destruct (modules_after u (get_state u)) as [|state rest]; [by rewrite Hn|]. destruct Hn as [-> Hrest]. cbn [visit length] in *.
  specialize (Hshape state u). destruct (logic state u) as [r u']. destruct r as [var|e| |]; [|done..].
  replace (is_sink || negb is_sink && bool_decide (var = None)) with (is_sink || bool_decide (var = None)) by (by destruct is_sink).
  destruct (is_sink || bool_decide (var = None)); [|done]. cbn [snd] in Hshape.
  assert (E : modules_after (set_state (Some state) u') (get_state (set_state (Some state) u')) = rest).
  { rewrite (sf_get _ _ Hf), <- Hrest. destruct Hshape. apply modules_after_shape; [by rewrite (sf_extended _ _ Hf)|by rewrite (sf_discovery _ _ Hf)]. }
  rewrite IH; [by rewrite E|rewrite E; lia].
Qed.

Lemma modules_after_length u st : length (modules_after u st) < loop_fuel u.
Proof.
  unfold loop_fuel, modules_after. destruct st as [[|k]|]; rewrite ?length_app, !length_fmap, !length_seq; [lia..|]. destruct (extended u); cbn; lia.
Qed.
End Visit.

Section Uber.
Context {D : Type} `{DiscoveryTrait D}.

Lemma same_shape_refl (u : UberModule D) : same_shape u u.
Proof. by split. Qed.

Lemma update_modules_length info i (ds : list D) : length (update_modules info i ds).2 = length ds.
Proof.
  induction ds as [|d ds IH]; [done|]. cbn [update_modules]. destruct (on_update info i d) as [[a|e| |] d']; [|done..].
  destruct (update_modules info i ds) as [r ds']. cbn in *. by rewrite IH.
Qed.

Lemma process_message_length m e (ds : list D) : length (process_message m (e, ds)).2.2 = length ds.
Proof.
  unfold process_message. destruct m as [[| |i|i|]|i m]; [done|done| |done|done|].
  - match goal with |- context [update_modules ?i ?x ?l] => pose proof (update_modules_length i x l) as Hl; destruct (update_modules i x l) as [[| | |] ds'] end; exact Hl.
  - destruct (ext_peers e !! key_of i); [|done].
    match goal with |- context [update_modules ?i ?x ?l] => pose proof (update_modules_length i x l) as Hl; destruct (update_modules i x l) as [r ds'] end. exact Hl.
Qed.

Lemma on_extended_shape {R} m (u : UberModule D) : same_shape u (on_extended (R := R) m u).2.
Proof.
  unfold on_extended. destruct (extended u) as [e|] eqn:He; [|apply same_shape_refl]. pose proof (process_message_length m e (discovery u)) as Hl.
  destruct (process_message m (e, discovery u)) as [r [e' ds']]. split; cbn in *; [by rewrite He|done..].
Qed.

Lemma on_discovery_shape {A} k (m : St D DiscoveryError A) (u : UberModule D) : same_shape u (on_discovery k m u).2.
Proof.
  unfold on_discovery. destruct (discovery u !! k) as [d|]; [|apply same_shape_refl]. destruct (m d) as [r d']. split; cbn; [done| |done..]. by rewrite length_insert.
Qed.

Lemma fmap_state {A B} (f : A -> B) (m : St (UberModule D) UberError A) u : ((f <$> m) u).2 = (m u).2.
Proof. unfold fmap, St_fmap, mbind, St_bind. by destruct (m u) as [[| | |] u']. Qed.

Lemma sink_logic_shape item state (u : UberModule D) : same_shape u (sink_logic item state u).2.
Proof.
  unfold sink_logic. destruct state, item; try apply same_shape_refl; try apply on_extended_shape.
  all: rewrite fmap_state; apply on_discovery_shape.
Qed.

Lemma stream_logic_shape state (u : UberModule D) : same_shape u (stream_logic state u).2.
Proof.
  unfold stream_logic. destruct state; [|rewrite fmap_state; apply on_discovery_shape]. unfold poll_extended.
  destruct (extended u) as [e|] eqn:He; [|apply same_shape_refl]. cbn. split; cbn; [by rewrite He|done..].
Qed.

(** C26. Sending and polling walk over the modules that follow the one a call last got to,
    each once and in order, the extended module first: the loop over module states
    always ends, and is that walk.  After the last module the next walk starts at
    the first; when a module fails, or has a message for the caller, the walk stops and
    the next one starts at that same module. *)
Theorem uber_walks_modules (item : IUberMessage) (u : UberModule D) :
  uber_send item u = visit true set_sink (sink_logic item) (modules_after u (last_sink_state u)) (Ok None) u /\
  uber_poll u = visit false set_stream stream_logic (modules_after u (last_stream_state u)) (Ok None) u.
Proof.
  split; apply loop_visits; [apply sink_field|apply sink_logic_shape|apply modules_after_length|apply stream_field|apply stream_logic_shape|apply modules_after_length].
Qed.

(** ** A message that no module refuses *)

(** What a message is to the extended module and to the discovery modules. *)
Definition extended_part (item : IUberMessage) : option IExtendedMessage :=
  match item with UControl c => Some (EControl c) | UExtended e => Some e | UDiscover _ => None end.
Definition discovery_part (item : IUberMessage) : option IDiscoveryMessage :=
  match item with UControl c => Some (IControl c) | UExtended _ => None | UDiscover m => Some m end.

(** The extended module, and the discovery modules it calls back. *)
Definition extended_turn (item : IUberMessage) (u : UberModule D) : outcome Empty_set unit * (option ExtendedModule * list D) :=
  match extended u, extended_part item with
  | Some e, Some m => let '(r, (e', ds)) := process_message m (e, discovery u) in (r, (Some e', ds))
  | e, _ => (Ok tt, (e, discovery u))
  end.
(** The turn of a discovery module. *)
Definition discovery_turn (item : IUberMessage) (d : D) : outcome DiscoveryError unit * D :=
  match discovery_part item with
  | Some m => let '(r, d') := run_send m d in (_ ← r; Ok tt, d')
  | None => (Ok tt, d)
  end.

Lemma discovery_logic item k (u : UberModule D) d : discovery u !! k = Some d -> (discovery_turn item d).1 = Ok tt ->
  exists r, sink_logic item (StDiscovery k) u = (Ok r, set_discovery (<[k := (discovery_turn item d).2]> (discovery u)) u).
Proof.
  intros Hd. unfold discovery_turn. assert (Hnone : u = set_discovery (<[k := d]> (discovery u)) u) by (destruct u; unfold set_discovery; cbn in *; by rewrite list_insert_id).
  assert (Hcall : forall m, (let '(r, d') := run_send m d in (_ ← r; Ok tt, d')).1 = (Ok tt : outcome DiscoveryError unit) ->
    exists r, (fmap (fun _ : IDiscoveryMessage => tt) <$> on_discovery k (run_send m)) u =
      (Ok r, set_discovery (<[k := (let '(r, d') := run_send m d in (_ ← r; Ok tt : outcome DiscoveryError unit, d')).2]> (discovery u)) u)).
  { intros m Hm. unfold fmap at 1, St_fmap, mbind at 1, St_bind, on_discovery. rewrite Hd. destruct (run_send m d) as [[a|e| |] d']; try done. by eexists. }
  destruct item as [c|e|m]; cbn [discovery_part sink_logic fst snd]; [apply Hcall| |apply Hcall]. intros _. exists None. by rewrite <- Hnone.
Qed.

(** The discovery modules from [k] on, one after the other. *)
Lemma visit_discovery item n : forall k res (u : UberModule D), k + n = length (discovery u) ->
  (forall j d, k <= j -> discovery u !! j = Some d -> (discovery_turn item d).1 = Ok tt) ->
  exists r, visit true set_sink (sink_logic item) (StDiscovery <$> seq k n) (Ok res) u =
    (Ok r, set_sink None (set_discovery (imap (fun j d => if decide (k <= j) then (discovery_turn item d).2 else d) (discovery u)) u)).
Proof.
  induction n as [|n IH]; intros k res u Hk Hok; cbn [seq fmap list_fmap visit].
  - exists res. f_equal. unfold set_sink, set_discovery. cbn. f_equal. apply list_eq. intros j. rewrite list_lookup_imap.
    destruct (discovery u !! j) as [d|] eqn:Hd; [|done]. apply lookup_lt_Some in Hd. cbn. rewrite decide_False by lia. done.
  - destruct (lookup_lt_is_Some_2 (discovery u) k) as [d Hd]; [lia|].
    destruct (discovery_logic item k u d Hd) as [r ->]; [by apply (Hok k)|]. cbn [orb].
    set (u1 := set_sink (Some (StDiscovery k)) (set_discovery (<[k := (discovery_turn item d).2]> (discovery u)) u)).
    destruct (IH (S k) r u1) as [r2 E].
    + cbn. rewrite length_insert. lia.
    + intros j d' Hj. cbn. rewrite list_lookup_insert_ne by lia. apply Hok. lia.
    + exists r2. rewrite E. f_equal. unfold set_sink, set_discovery. cbn. f_equal. apply list_eq. intros j. rewrite !list_lookup_imap.
      destruct (decide (j = k)) as [->|Hne].
      * rewrite list_lookup_insert_eq, Hd by lia. cbn. by rewrite decide_False, decide_True by lia.
      * rewrite list_lookup_insert_ne by done. destruct (discovery u !! j) as [x|]; [|done]. cbn. f_equal. repeat case_decide; try lia; done.
Qed.

(** A message that nothing refuses reaches every module: when no earlier message
    was cut short, the extended module handles it first, calling back the discovery
    modules, and then each discovery module handles it once, as it is after the callbacks; the
    next message starts at the first module again. *)
Theorem send_reaches_all (item : IUberMessage) (u : UberModule D) (e' : option ExtendedModule) (ds : list D) :
  last_sink_state u = None -> extended_turn item u = (Ok tt, (e', ds)) -> Forall (fun d => (discovery_turn item d).1 = Ok tt) ds ->
  exists r, uber_send item u = (Ok r, {|
    extended := e'; discovery := (fun d => (discovery_turn item d).2) <$> ds; last_sink_state := None; last_stream_state := last_stream_state u |}).
Proof.
  intros Hlast He Hds. unfold uber_send, start_sink_state.
  rewrite (loop_visits true last_sink_state set_sink (sink_logic item) sink_field (sink_logic_shape item)) by apply modules_after_length. rewrite Hlast.
  set (u1 := {| extended := e'; discovery := ds; last_sink_state := if extended u then Some StExtended else None; last_stream_state := last_stream_state u |}).
  assert (Hv : exists res, visit true set_sink (sink_logic item) (modules_after u None) (Ok None) u =
    visit true set_sink (sink_logic item) (StDiscovery <$> seq 0 (length ds)) (Ok res) u1).
  { unfold modules_after, extended_turn in *. destruct (extended u) as [e|] eqn:Hu.
    - cbn [app visit]. destruct (extended_part item) as [m|] eqn:Hm.
      + pose proof (process_message_length m e (discovery u)) as Hl. destruct (process_message m (e, discovery u)) as [r [e1 ds1]] eqn:Hp.
        injection He as -> <- ->. cbn in Hl. rewrite <- Hl. exists None.
        assert (sink_logic item StExtended u = (Ok None, set_discovery ds (set_extended (Some e1) u))) as ->; [|done].
        destruct item; cbn in Hm |- *; [injection Hm as <-|injection Hm as <-|done]; unfold on_extended; by rewrite Hu, Hp.
      + injection He as <- <-. exists None. destruct item; try done. cbn. unfold set_sink, u1. by rewrite Hu.
    - injection He as <- <-. exists None. cbn [app]. f_equal. subst u1. destruct u; cbn in *. by subst. }
  destruct Hv as [res ->]. destruct (visit_discovery item (length ds) 0 res u1) as [r E]; [done| |].
  { intros j d _ Hd. cbn in Hd. by eapply Forall_lookup_1 in Hds. }
  exists r. rewrite E. f_equal. unfold set_sink, set_discovery. cbn. f_equal. apply list_eq. intros j. rewrite list_lookup_imap, list_lookup_fmap. by destruct (ds !! j).
Qed.
End Uber.

(** * A concrete instance *)

(** One metadata module beside the extended module; a peer connects. *)
Definition sample_uber : UberModule UtMetadataModule :=
  uber_build (with_discovery_module UtMetadataModule_new (with_extended_builder (Some ExtendedMessageBuilder_new) UberModuleBuilder_new)).
Definition sample_connected : IUberMessage := UControl (PeerConnected sample_peer).
Definition sample_discovery : DiscoveryTrait UtMetadataModule := @UtMetadata_discovery sample_sha1 true sample_order 7.

Lemma send_reaches_all_witness :
  exists r, @uber_send UtMetadataModule sample_discovery sample_connected sample_uber = (Ok r, {|
    extended := (@extended_turn UtMetadataModule sample_discovery sample_connected sample_uber).2.1;
    discovery := (fun d => (@discovery_turn UtMetadataModule sample_discovery sample_connected d).2) <$>
      (@extended_turn UtMetadataModule sample_discovery sample_connected sample_uber).2.2;
    last_sink_state := None; last_stream_state := None |}).
Proof.
  refine (@send_reaches_all UtMetadataModule sample_discovery sample_connected sample_uber _ _ eq_refl _ _).
  - assert (E : (@extended_turn UtMetadataModule sample_discovery sample_connected sample_uber).1 = Ok tt) by reflexivity.
    destruct (@extended_turn UtMetadataModule sample_discovery sample_connected sample_uber) as [r0 [e' ds]]. cbn in *. by rewrite E.
  - assert (E : (@extended_turn UtMetadataModule sample_discovery sample_connected sample_uber).2.2 = [UtMetadataModule_new]) by reflexivity.
    rewrite E. by apply Forall_singleton.
Defined.
