(* ===== verification/SelectReveal.v ===== *)
(** SelectReveal: telling peers which pieces we have ([Select], honest.rs).

    What the module keeps of a torrent is the set of pieces that were found and the set
    of peers that are connected; the messages it queues are refined against that.
    The bitfield a new peer is sent, read by the iterator of the other end, gives
    exactly the pieces that were found.  A bitfield that does not fit into the buffer
    makes the module panic. *)

From stdpp Require Import base list gmap.
From Stdlib Require Import ZArith Lia.
From S2P Require Import Prelude Effects Convert ShaHash Handshake Metainfo MetainfoCorrect PeerMessage PeerInfo PeerMessageCorrect PeerTask Select SelectMetadata.

(** * Turning bytes around *)

Definition reversed_ok (byte : Z) : bool :=
  let r := reverse_bits 8 byte 0 in
  bool_decide (is_u8 r) && forallb (fun k => Bool.eqb (Z.testbit r (Z.of_nat (7 - k))) (Z.testbit byte (Z.of_nat k))) (seq 0 8).

Lemma all_reversed : forallb (fun n => reversed_ok (Z.of_nat n)) (seq 0 256) = true.
Proof. by vm_compute. Qed.

Lemma reverse_bits_ok byte : is_u8 byte ->
  is_u8 (reverse_bits 8 byte 0) /\ forall k, k < 8 -> Z.testbit (reverse_bits 8 byte 0) (Z.of_nat (7 - k)) = Z.testbit byte (Z.of_nat k).
Proof.
  intros Hb. pose proof all_reversed as Hall. rewrite forallb_forall in Hall. specialize (Hall (Z.to_nat byte)).
  unfold is_u8 in Hb. rewrite Z2Nat.id in Hall by lia. unfold reversed_ok in Hall.
  assert (Hin : In (Z.to_nat byte) (seq 0 256)) by (apply in_seq; lia). apply Hall, andb_true_iff in Hin as [H1 H2].
  apply bool_decide_eq_true in H1. split; [done|]. intros k Hk. rewrite forallb_forall in H2. apply eqb_prop, H2, in_seq. lia.
Qed.

Section Reveal.
Context `{BitSetLaws}.

(** The bit for piece [k] in the bytes that are sent. *)
Definition reversed_bits (b : BitSet) : bytes := (fun byte => reverse_bits 8 byte 0) <$> storage b.

Lemma reversed_bit (b : BitSet) k : byte_bit (reversed_bits b) k = bitset_has b k.
Proof.
  unfold reversed_bits, byte_bit, bitset_has. rewrite list_lookup_fmap. pose proof (storage_bytes b) as Hb.
  destruct (storage b !! (k / 8)) as [byte|] eqn:Hl; cbn [fmap option_fmap option_map default from_option]; [|apply Z.bits_0].
  apply reverse_bits_ok; [by eapply Forall_lookup_1 in Hb|]. apply Nat.mod_upper_bound. lia.
Qed.

Lemma bitset_has_bound (b : BitSet) k : bitset_has b k = true -> k < 8 * length (storage b).
Proof.
  unfold bitset_has. destruct (storage b !! (k / 8)) as [byte|] eqn:Hl; [|done]. intros _. apply lookup_lt_Some in Hl.
  pose proof (Nat.div_mod_eq k 8). pose proof (Nat.mod_upper_bound k 8). lia.
Qed.

(** The bytes go out as long as there is room for them. *)
Lemma insert_reversed `{BytesMutOps} out slice : length out <= new_capacity ->
  insert_reversed_bits out slice =
  if length out + length slice <=? new_capacity then Ok (out ++ ((fun byte => reverse_bits 8 byte 0) <$> slice)) else Panic.
Proof.
  revert out. induction slice as [|byte slice IH]; intros out Hout; cbn [insert_reversed_bits length fmap list_fmap].
  - rewrite Nat.add_0_r, app_nil_r. by destruct (Nat.leb_spec (length out) new_capacity); [|lia].
  - unfold put_u8. destruct (Nat.ltb_spec (length out) new_capacity) as [Hlt|Hge].
    + rewrite mbind_ok, IH by (rewrite length_app; cbn; lia). rewrite length_app, <- (assoc_L (++)). cbn [length app].
      by replace (length out + 1 + length slice) with (length out + S (length slice)) by lia.
    + destruct (Nat.leb_spec (length out + S (length slice)) new_capacity); [lia|done].
Qed.
End Reveal.

(** * Specification *)

(** A torrent: the number of its pieces, those that were found, who is connected. *)
Record Known := { k_pieces : nat; k_found : gset nat; k_connected : gset peer_key }.
Notation reveal_spec := (gmap ShaHash Known).

Definition spec_reveal (item : IRevealMessage) (t : reveal_spec) : reveal_spec :=
  match item with
  | RControl (AddTorrent m) =>
      match t !! info_hash (info m) with
      | Some _ => t
      | None => <[info_hash (info m) := {| k_pieces := length (pieces (info m)); k_found := ∅; k_connected := ∅ |}]> t
      end
  | RControl (RemoveTorrent m) => delete (info_hash (info m)) t
  | RControl (PeerConnected p) =>
      alter (fun k => {| k_pieces := k_pieces k; k_found := k_found k; k_connected := {[key_of p]} ∪ k_connected k |}) (peer_hash p) t
  | RControl (PeerDisconnected p) =>
      alter (fun k => {| k_pieces := k_pieces k; k_found := k_found k; k_connected := k_connected k ∖ {[key_of p]} |}) (peer_hash p) t
  | RFoundGoodPiece h index =>
      alter (fun k => if (Z.of_nat (k_pieces k) <=? index)%Z then k
        else {| k_pieces := k_pieces k; k_found := {[Z.to_nat index]} ∪ k_found k; k_connected := k_connected k |}) h t
  | _ => t
  end.

Definition spec_error (item : IRevealMessage) (t : reveal_spec) : option RevealError :=
  match item with
  | RControl (AddTorrent m) => if t !! info_hash (info m) then Some (RInvalidMetainfoExists (info_hash (info m))) else None
  | RControl (RemoveTorrent m) => if t !! info_hash (info m) then None else Some (RInvalidMetainfoNotExists (info_hash (info m)))
  | RControl (PeerConnected p) | RControl (PeerDisconnected p) => if t !! peer_hash p then None else Some (RInvalidMetainfoNotExists (peer_hash p))
  | RFoundGoodPiece h index =>
      match t !! h with
      | Some k => if (Z.of_nat (k_pieces k) <=? index)%Z then Some (RInvalidPieceOutOfRange h index) else None
      | None => Some (RInvalidMetainfoNotExists h)
      end
  | _ => None
  end.

(** What a peer reads from a bitfield: a have for each piece it is told of, in order. *)
Definition reads_pieces (m : BitFieldMessage) (found : gset nat) : Prop :=
  (forall k, k ∈ found -> k < 8 * length (bitfield m)) /\
  bitfield_collect (8 * length (bitfield m) + 1) (BitFieldMessage_iter m) =
  Ok ((fun i => {| have_piece_index := to_u32 (Z.of_nat i) |}) <$> filter (fun i => i ∈ found) (seq 0 (8 * length (bitfield m)))).

(** The messages that [item] makes the module queue: a peer that connects is told of all
    pieces found so far, if there are any; a piece that is found is told to every
    peer that is connected, once. *)
Definition spec_queued (item : IRevealMessage) (t : reveal_spec) (msgs : list ORevealMessage) : Prop :=
  match item with
  | RControl (PeerConnected p) =>
      match t !! peer_hash p with
      | Some k => if decide (k_found k = ∅) then msgs = [] else exists m, msgs = [SendBitField p m] /\ reads_pieces m (k_found k)
      | None => msgs = []
      end
  | RFoundGoodPiece h index =>
      match t !! h with
      | Some k =>
          if (Z.of_nat (k_pieces k) <=? index)%Z then msgs = []
          else exists peers, key_of <$> peers ≡ₚ elements (k_connected k) /\ msgs = (fun p => SendHave p {| have_piece_index := to_u32 index |}) <$> peers
      | None => msgs = []
      end
  | _ => msgs = []
  end.

(** * Refinement *)

Definition known_as `{BitSetOps} (i : option PeersInfo) (k : option Known) : Prop :=
  match i, k with
  | Some i, Some k =>
      num_pieces i = k_pieces k /\ (forall n, bitset_has (status i) n = bool_decide (n ∈ k_found k)) /\
      dom (pi_peers i) = k_connected k /\ (forall key p, pi_peers i !! key = Some p -> key_of p = key)
  | None, None => True
  | _, _ => False
  end.

Definition reveals `{BitSetOps} (s : HonestRevealModule) (t : reveal_spec) : Prop :=
  (forall h, known_as (torrents s !! h) (t !! h)) /\ out_bytes s = [].

(** The one panic: a peer connects, and the bytes of the torrent's bit set, in which some
    piece is found, do not fit into the buffer. *)
Definition overflows `{BitSetOps} `{BytesMutOps} (item : IRevealMessage) (s : HonestRevealModule) : Prop :=
  exists p i, item = RControl (PeerConnected p) /\ torrents s !! peer_hash p = Some i /\ bitset_is_empty (status i) = false /\
    new_capacity < length (storage (status i)).

(** The bitfields that are queued. *)
Definition fitting `{BytesMutOps} (msgs : list ORevealMessage) : Prop :=
  forall p m, SendBitField p m ∈ msgs -> length (bitfield m) <= new_capacity.

Section Refine.
Context `{BitSetLaws} `{BytesMutOps} `{HashOrder}.

Lemma known_insert (s : HonestRevealModule) t h i k q :
  reveals s t -> known_as (Some i) (Some k) -> reveals {| torrents := <[h := i]> (torrents s); out_queue := q; out_bytes := [] |} (<[h := k]> t).
Proof.
  intros [Hs _] Hik. split; [|done]. intros h'. cbn [torrents]. destruct (decide (h = h')) as [<-|Hne]; [by rewrite !lookup_insert_eq|].
  by rewrite !lookup_insert_ne.
Qed.

Lemma alter_known (f : Known -> Known) h (t : reveal_spec) k : t !! h = Some k -> alter f h t = <[h := f k]> t.
Proof. intros Hk. apply map_eq. intros j. destruct (decide (h = j)) as [<-|Hne]; [by rewrite lookup_alter_eq, Hk, lookup_insert_eq|by rewrite lookup_alter_ne, lookup_insert_ne]. Qed.
Lemma alter_unknown (f : Known -> Known) h (t : reveal_spec) : t !! h = None -> alter f h t = t.
Proof. intros Hk. apply map_eq. intros j. destruct (decide (h = j)) as [<-|Hne]; [by rewrite lookup_alter_eq, Hk|by rewrite lookup_alter_ne]. Qed.

Lemma insert_peer_dom (p : PeerInfo) (ps : peer_set) : dom (peers_insert p ps) = {[key_of p]} ∪ dom ps.
Proof.
  unfold peers_insert. destruct (ps !! key_of p) as [q|] eqn:Hq; [|apply dom_insert_L].
  assert (key_of p ∈ dom ps) by (by apply elem_of_dom_2 in Hq). set_solver.
Qed.

(** The bitfield of what was found. *)
Lemma bitfield_reads (b : BitSet) (found : gset nat) : (forall n, bitset_has b n = bool_decide (n ∈ found)) ->
  reads_pieces {| bitfield := reversed_bits b |} found.
Proof.
  intros Hb. assert (Hlen : length (reversed_bits b) = length (storage b)) by (unfold reversed_bits; by rewrite length_fmap).
  split.
  - intros k Hk. cbn [bitfield]. rewrite Hlen. apply bitset_has_bound. rewrite Hb. by apply bool_decide_eq_true.
  - rewrite (bitfield_iter_yields_set_bits {| bitfield := reversed_bits b |}). cbn [bitfield]. do 2 f_equal.
    apply list_filter_iff. intros k. by rewrite reversed_bit, Hb, bool_decide_eq_true.
Qed.

Definition outcome_of (r : option RevealError) : reveal_result := inr <$> r.

(** A message does what the specification says, or does not fit into the buffer. *)
Definition reveal_refines (item : IRevealMessage) (s : HonestRevealModule) (t : reveal_spec) : Prop :=
  match reveal_send item s with
  | (Ok r, s') =>
      r = outcome_of (spec_error item t) /\ reveals s' (spec_reveal item t) /\
      exists msgs, out_queue s' = out_queue s ++ msgs /\ spec_queued item t msgs /\ fitting msgs
  | (Panic, _) => overflows item s
  | _ => False
  end.

(** A torrent is known to both or to none. *)
Lemma known_cases (s : HonestRevealModule) t h : reveals s t ->
  (torrents s !! h = None /\ t !! h = None) \/ exists i k, torrents s !! h = Some i /\ t !! h = Some k /\ known_as (Some i) (Some k).
Proof.
  intros [Hs _]. specialize (Hs h). destruct (torrents s !! h) as [i|] eqn:Hi, (t !! h) as [k|] eqn:Hk; [|by destruct Hs|by destruct Hs|by left].
  right. exists i, k. auto.
Qed.

Lemma fitting_nil : fitting [].
Proof. by intros p m ?%elem_of_nil. Qed.

Lemma add_torrent_refines m s t : reveals s t -> reveal_refines (RControl (AddTorrent m)) s t.
Proof.
  intros Hr. pose proof Hr as [_ Hb]. unfold reveal_refines. cbn [reveal_send spec_reveal spec_error spec_queued]. unfold rv_add_torrent.
  destruct (known_cases s t (info_hash (info m)) Hr) as [[-> ->]|(i & k & -> & -> & _)].
  2: split_and!; [done|done|exists []; rewrite app_nil_r; split_and!; [done|done|apply fitting_nil]].
  split_and!; [done| |exists []; cbn [out_queue]; rewrite app_nil_r; split_and!; [done|done|apply fitting_nil]].
  rewrite Hb. apply known_insert; [done|].
  split_and!; [done| |by cbn; rewrite dom_empty_L|intros key q; cbn; by rewrite lookup_empty].
  intros n. cbn. rewrite reserve_has, bitset_default_has. symmetry. apply bool_decide_eq_false. set_solver.
Qed.

Lemma remove_torrent_refines m s t : reveals s t -> reveal_refines (RControl (RemoveTorrent m)) s t.
Proof.
  intros Hr. unfold reveal_refines. cbn [reveal_send spec_reveal spec_error spec_queued]. unfold rv_remove_torrent. set (h := info_hash (info m)).
  assert (Hdel : reveals {| torrents := delete h (torrents s); out_queue := out_queue s; out_bytes := out_bytes s |} (delete h t)).
  { destruct Hr as [Hs Hb]. split; [|done]. intros h'. cbn [torrents]. destruct (decide (h = h')) as [<-|Hne]; [by rewrite !lookup_delete_eq|by rewrite !lookup_delete_ne]. }
  destruct (known_cases s t h Hr) as [[-> ->]|(i & k & -> & -> & _)];
    (split_and!; [done|done|exists []; cbn [out_queue]; rewrite app_nil_r; split_and!; [done|done|apply fitting_nil]]).
Qed.

(** Nothing is known of the torrent: an error, and nothing else. *)
Lemma unknown_refines item s t h f :
  reveals s t -> t !! h = None -> spec_reveal item t = alter f h t -> spec_queued item t [] ->
  reveal_send item s = (Ok (outcome_of (spec_error item t)), s) -> reveal_refines item s t.
Proof.
  intros Hr Hk Hs Hq Hi. unfold reveal_refines. rewrite Hi, Hs, alter_unknown by done. split_and!; [done|done|].
  exists []. rewrite app_nil_r. split_and!; [done|done|apply fitting_nil].
Qed.

Lemma empty_found i k : known_as (Some i) (Some k) -> bitset_is_empty (status i) = true <-> k_found k = ∅.
Proof.
  intros (_ & Hf & _). rewrite bitset_is_empty_spec. setoid_rewrite Hf. setoid_rewrite bool_decide_eq_false. split; [intros Hn; apply set_eq; set_solver|intros ->; set_solver].
Qed.

Lemma add_peer_refines p s t : reveals s t -> reveal_refines (RControl (PeerConnected p)) s t.
Proof.
  intros Hr. pose proof Hr as [_ Hb]. destruct (known_cases s t (peer_hash p) Hr) as [[Hi Hk]|(i & k & Hi & Hk & Hik)].
  { eapply unknown_refines; [done..| |]; cbn; unfold rv_add_peer; by rewrite ?Hi, ?Hk. }
  unfold reveal_refines. cbn [reveal_send spec_reveal spec_error spec_queued]. unfold rv_add_peer. rewrite Hi, Hk, (alter_known _ _ _ _ Hk), Hb.
  pose proof (empty_found i k Hik) as He. pose proof Hik as (H1' & H2' & H3' & H4').
  assert (Hkn : known_as (Some {| num_pieces := num_pieces i; status := status i; pi_peers := peers_insert p (pi_peers i) |})
    (Some {| k_pieces := k_pieces k; k_found := k_found k; k_connected := {[key_of p]} ∪ k_connected k |})).
  { split_and!; [done|done|cbn; by rewrite insert_peer_dom, H3'|]. intros key q Hq. cbn in Hq. apply peers_insert_Some in Hq as [Hq|[-> ->]]; [by apply H4'|done]. }
  destruct (bitset_is_empty (status i)) eqn:Hemp; cbn [negb].
  - split_and!; [done|by apply known_insert|]. exists []. cbn [out_queue]. rewrite app_nil_r.
    split_and!; [done|by rewrite decide_True by (by apply He)|apply fitting_nil].
  - rewrite insert_reversed by (cbn; lia). cbn [length Nat.add app]. destruct (Nat.leb_spec (length (storage (status i))) new_capacity).
    + fold (reversed_bits (status i)). split_and!; [done|by apply known_insert|]. eexists [_]. split_and!; [done| |].
      * rewrite decide_False by (intros Hf; by apply He in Hf). eexists. split; [done|]. by apply bitfield_reads.
      * intros q m [= -> ->]%list_elem_of_singleton. cbn [bitfield]. unfold reversed_bits. by rewrite length_fmap.
    + by exists p, i.
Qed.

Lemma remove_peer_refines p s t : reveals s t -> reveal_refines (RControl (PeerDisconnected p)) s t.
Proof.
  intros Hr. pose proof Hr as [_ Hb]. destruct (known_cases s t (peer_hash p) Hr) as [[Hi Hk]|(i & k & Hi & Hk & H1' & H2' & H3' & H4')].
  { eapply unknown_refines; [done..| |]; cbn; unfold rv_remove_peer; by rewrite ?Hi, ?Hk. }
  unfold reveal_refines. cbn [reveal_send spec_reveal spec_error spec_queued]. unfold rv_remove_peer. rewrite Hi, Hk, (alter_known _ _ _ _ Hk), Hb.
  split_and!; [done| |exists []; cbn [out_queue]; rewrite app_nil_r; split_and!; [done|done|apply fitting_nil]]. apply known_insert; [done|].
  split_and!; [done|done|cbn; unfold peers_remove; by rewrite dom_delete_L, H3'|].
  intros key q Hq. cbn in Hq. unfold peers_remove in Hq. apply lookup_delete_Some in Hq as [_ Hq]. by apply H4'.
Qed.

Lemma insert_piece_refines h index s t : reveals s t -> reveal_refines (RFoundGoodPiece h index) s t.
Proof.
  intros Hr. pose proof Hr as [_ Hb]. destruct (known_cases s t h Hr) as [[Hi Hk]|(i & k & Hi & Hk & H1' & H2' & H3' & H4')].
  { eapply unknown_refines; [done..| |]; cbn; unfold insert_piece; by rewrite ?Hi, ?Hk. }
  unfold reveal_refines. cbn [reveal_send spec_reveal spec_error spec_queued]. unfold insert_piece. rewrite Hi, Hk, (alter_known _ _ _ _ Hk), H1'.
  destruct (Z.of_nat (k_pieces k) <=? index)%Z.
  { split_and!; [done|by rewrite insert_id|]. exists []. rewrite app_nil_r. split_and!; [done|done|apply fitting_nil]. }
  rewrite Hb. split_and!; [done|apply known_insert; [done|]|eexists _; cbn [out_queue]; split_and!; [done| |]].
  - split_and!; [by cbn| |done|done]. intros n. cbn. rewrite bitset_insert_has, H2'.
    destruct (Nat.eqb_spec n (Z.to_nat index)) as [->|Hne]; cbn [orb]; [symmetry; apply bool_decide_eq_true; set_solver|]. apply bool_decide_ext. set_solver.
  - exists (snd <$> entries (pi_peers i)). rewrite <- !list_fmap_compose. split; [|done]. rewrite <- H3'.
    assert (E : (key_of ∘ snd) <$> entries (pi_peers i) = fst <$> entries (pi_peers i)).
    { apply list_fmap_ext. intros n [key p] Hn. cbn. apply H4'. apply elem_of_entries. by apply list_elem_of_lookup_2 in Hn. }
    rewrite E, entries_perm. apply NoDup_Permutation; [apply NoDup_fst_map_to_list|apply NoDup_elements|].
    intros key. rewrite elem_of_elements, elem_of_dom, list_elem_of_fmap. split.
    + intros ([key' p] & -> & Hin). apply elem_of_map_to_list in Hin. by eexists.
    + intros [p Hp]. exists (key, p). split; [done|]. by apply elem_of_map_to_list.
  - intros q m (e & He & _)%list_elem_of_fmap. done.
Qed.

Lemma reveal_step item s t : reveals s t -> reveal_refines item s t.
Proof.
  intros Hr. destruct item as [[m|m|p|p|d]|h index|p m|p m].
  1-4: auto using add_torrent_refines, remove_torrent_refines, add_peer_refines, remove_peer_refines.
  2: by apply insert_piece_refines.
  all: split_and!; [done|done|exists []; rewrite app_nil_r; split_and!; [done|done|apply fitting_nil]].
Qed.
Lemma overflow_panics item s t : reveals s t -> overflows item s -> (reveal_send item s).1 = Panic.
Proof.
  intros [_ Hb] (p & i & -> & Hi & He & Hlong). cbn [reveal_send]. unfold rv_add_peer. rewrite Hi, He, Hb. cbn [negb].
  rewrite insert_reversed by (cbn; lia). cbn [length Nat.add]. by destruct (Nat.leb_spec (length (storage (status i))) new_capacity); [lia|].
Qed.
End Refine.

(** * Every run *)

(** A turn of the module: a message, or a poll. *)
Definition reveal_turn `{BitSetOps} `{BytesMutOps} (e : HashOrder * option IRevealMessage) : RevealM unit :=
  match e with
  | (o, Some item) => _ ← reveal_send item; mret tt
  | (_, None) => _ ← reveal_poll; mret tt
  end.
Definition reveal_run `{BitSetOps} `{BytesMutOps} (es : list (HashOrder * option IRevealMessage)) : RevealM unit := for_each es reveal_turn.
Definition spec_run (es : list (option IRevealMessage)) : reveal_spec :=
  fold_left (fun t e => match e with Some item => spec_reveal item t | None => t end) es ∅.

Lemma run_reveals `{BitSetLaws} `{BytesMutOps} es s : reveal_run es HonestRevealModule_new = (Ok tt, s) -> reveals s (spec_run es.*2).
Proof.
  unfold reveal_run, spec_run. assert (Hnew : reveals HonestRevealModule_new ∅) by (split; [intros h; cbn; by rewrite !lookup_empty|done]).
  revert Hnew. generalize HonestRevealModule_new as s0, (∅ : reveal_spec) as t. induction es as [|[o item] es IH]; intros s0 t Hr; cbn [for_each fold_left fmap list_fmap snd].
  { by intros [= <-]. }
  intros ([] & s1 & E1 & E2)%St_bind_inv. apply (IH s1); [|exact E2]. destruct item as [item|]; cbn [reveal_turn] in E1.
  - apply St_bind_inv in E1 as (r & s2 & E1 & [= <-]). pose proof (reveal_step item s0 t Hr) as Hs. unfold reveal_refines in Hs.
    rewrite E1 in Hs. by destruct Hs as (_ & ? & _).
  - injection E1 as <-. destruct Hr. by split.
Qed.

(** C25. The module tells peers honestly what we have, after every sequence of
    messages and polls that it has come through: it returns exactly the errors of the
    specification; a peer that connects is queued, if some piece was found since the
    torrent was added, one bitfield, from which the iterator of the other end reads just
    the pieces that were found; a piece that is found is told once to each peer that is
    connected for the torrent; and nothing else is queued.  It panics exactly when
    a peer connects and the bytes of the torrent's bit set do not fit into the
    buffer ([BytesMut::new()]). *)
Theorem pieces_revealed `{BitSetLaws} `{BytesMutOps} (es : list (HashOrder * option IRevealMessage)) (s : HonestRevealModule)
    (o : HashOrder) (item : IRevealMessage) :
  reveal_run es HonestRevealModule_new = (Ok tt, s) ->
  let t := spec_run es.*2 in
  match reveal_send item s with
  | (Ok r, s') =>
      r = inr <$> spec_error item t /\
      ~ overflows item s /\ exists msgs, out_queue s' = out_queue s ++ msgs /\ spec_queued item t msgs /\ fitting msgs
  | (Panic, _) => overflows item s
  | _ => False
  end.
Proof.
  intros Hrun t. pose proof (run_reveals es s Hrun) as Hr. pose proof (reveal_step item s t Hr) as Hs. unfold reveal_refines in Hs.
  pose proof (overflow_panics item s t Hr) as Ho.
  destruct (reveal_send item s) as [[r|e| |] s']; try done. destruct Hs as (? & _ & ?). split_and!; [done| |done]. by intros ?%Ho.
Qed.

(** * A concrete bit set *)

(** The elements in a list; the storage has a byte for each eight numbers up to the
    largest. *)
Fixpoint bits_of (n i : nat) (f : nat -> bool) : Z :=
  match n with O => 0%Z | S n' => (Z.b2z (f i) + 2 * bits_of n' (S i) f)%Z end.
Definition byte_of (f : nat -> bool) : Z := bits_of 8 0 f.

Lemma byte_of_bit f k : k < 8 -> Z.testbit (byte_of f) (Z.of_nat k) = f k.
Proof.
  intros Hk. unfold byte_of, bits_of. do 8 (destruct k as [|k]; [destruct (f 0), (f 1), (f 2), (f 3), (f 4), (f 5), (f 6), (f 7); reflexivity|]). lia.
Qed.
Lemma byte_of_u8 f : is_u8 (byte_of f).
Proof. unfold byte_of, bits_of. destruct (f 0), (f 1), (f 2), (f 3), (f 4), (f 5), (f 6), (f 7); by split. Qed.

Definition list_bitset : BitSetOps := {|
  BitSet := list nat;
  bitset_default := [];
  reserve_len_exact := fun _ b => b;
  bitset_insert := cons;
  bitset_is_empty := fun b => bool_decide (b = []);
  storage := fun b => (fun i => byte_of (fun j => bool_decide (8 * i + j ∈ b))) <$> seq 0 (S (max_list b / 8));
|}.

Lemma list_bitset_has (b : list nat) k : @bitset_has list_bitset b k = bool_decide (k ∈ b).
Proof.
  unfold bitset_has. cbn [storage list_bitset]. rewrite list_lookup_fmap. pose proof (Nat.div_mod_eq k 8) as Hk. pose proof (Nat.mod_upper_bound k 8) as Hm.
  destruct (decide (k / 8 < S (max_list b / 8))) as [Hlt|Hge].
  - rewrite lookup_seq_lt by done. cbn [fmap option_fmap option_map Nat.add]. rewrite byte_of_bit by lia. by rewrite <- Hk.
  - rewrite lookup_seq_ge by lia. cbn [fmap option_fmap option_map]. symmetry. apply bool_decide_eq_false. intros Hin. apply Hge.
    apply max_list_elem_of_le in Hin. apply (Nat.Div0.div_le_mono _ _ 8) in Hin. lia.
Qed.

Lemma list_bitset_laws : @BitSetLaws list_bitset.
Proof.
  split.
  - intros k. by rewrite list_bitset_has.
  - by intros n b k.
  - intros i b k. rewrite !list_bitset_has. cbn. destruct (Nat.eqb_spec k i) as [->|Hne]; cbn [orb].
    + apply bool_decide_eq_true. by left.
    + apply bool_decide_ext. rewrite elem_of_cons. naive_solver.
  - intros b. cbn. rewrite bool_decide_eq_true. split; [intros -> k; by rewrite list_bitset_has|]. intros Hk. destruct b as [|x b]; [done|].
    specialize (Hk x). rewrite list_bitset_has in Hk. apply bool_decide_eq_false in Hk. exfalso. apply Hk. by left.
  - intros b. cbn [storage list_bitset]. apply Forall_fmap, Forall_true. intros i. apply byte_of_u8.
Qed.

(** A torrent of two pieces, its second piece is found, and a peer connects. *)
Definition sample_reveals : list (HashOrder * option IRevealMessage) :=
  [(sample_order, Some (RControl (AddTorrent sample_metainfo))); (sample_order, Some (RFoundGoodPiece (info_hash (info sample_metainfo)) 1))].
Definition sample_curious : PeerInfo :=
  PeerInfo_new (addr sample_peer) (pid sample_peer) (info_hash (info sample_metainfo)) Extensions_new.

(** The buffer of bytes 0.4 on a 64-bit machine. *)
#[local] Instance inline_buffer : BytesMutOps := {| new_capacity := 31 |}.
Definition sample_revealed : HonestRevealModule := (@reveal_run list_bitset inline_buffer sample_reveals HonestRevealModule_new).2.

Lemma sample_revealed_run : @reveal_run list_bitset inline_buffer sample_reveals HonestRevealModule_new = (Ok tt, sample_revealed).
Proof. apply injective_projections; [by vm_compute|reflexivity]. Qed.

Lemma pieces_revealed_witness :
  let item := RControl (PeerConnected sample_curious) in let t := spec_run sample_reveals.*2 in
  match @reveal_send list_bitset inline_buffer sample_order item sample_revealed with
  | (Ok r, s') =>
      r = inr <$> spec_error item t /\
      ~ @overflows list_bitset inline_buffer item sample_revealed /\ exists msgs, out_queue s' = out_queue sample_revealed ++ msgs /\ spec_queued item t msgs /\ @fitting inline_buffer msgs
  | (Panic, _) => @overflows list_bitset inline_buffer item sample_revealed
  | _ => False
  end.
Proof.
  exact (@pieces_revealed list_bitset list_bitset_laws inline_buffer sample_reveals sample_revealed sample_order
    (RControl (PeerConnected sample_curious)) sample_revealed_run).
Defined.

(** * A long torrent *)

(** The first peer that connects once the piece 248 of a torrent is found makes the
    module panic. *)
Example long_bitfield_panics (i : @PeersInfo list_bitset) (p : PeerInfo) :
  status i = [248] ->
  (@reveal_send list_bitset inline_buffer sample_order (RControl (PeerConnected p))
    {| torrents := {[peer_hash p := i]}; out_queue := []; out_bytes := [] |}).1 = Panic.
Proof.
  intros Hi. cbn [reveal_send]. unfold rv_add_peer. cbn [torrents out_bytes]. rewrite lookup_singleton_eq, Hi. by vm_compute.
Qed.
