(* ===== verification/PeerManager.v ===== *)
(** PeerManager: [btp-peer/src/handler] and [btp-peer/src/manager], the manager of
    peer connections.

    The handler takes commands of the user and responses of the connections off
    its channels.  A connection is two loops that share a codec behind a mutex
    ([PeerTask]): the reader turns bytes into responses, the writer takes messages
    off the connection's channel.  Sending on a channel whose receiver is gone fails, and
    the code unwraps it.  The steps of the handler, the loops, the sockets and the user
    come in any order. *)

From stdpp Require Import base list gmap.
From Stdlib Require Import ZArith Lia.
From S2P Require Import Prelude Effects Convert ShaHash Nom Handshake PeerMessage PeerInfo PeerTask.

(** * manager/builder.rs *)

Definition DEFAULT_PEER_CAPACITY : nat := 1000.
Definition DEFAULT_SINK_BUFFER_CAPACITY : nat := 100.
Definition DEFAULT_STREAM_BUFFER_CAPACITY : nat := 100.
Definition DEFAULT_HEARTBEAT_INTERVAL_MILLIS : Z := 1 * 60 * 1000.
Definition DEFAULT_HEARTBEAT_TIMEOUT_MILLIS : Z := 2 * 60 * 1000.

(** Durations in milliseconds. *)
Record PeerManagerBuilder := {
  mgr_peer : nat; mgr_sink_buffer : nat; mgr_stream_buffer : nat; heartbeat_interval : Z; heartbeat_timeout : Z }.

Definition PeerManagerBuilder_eta (b : PeerManagerBuilder) : PeerManagerBuilder := {|
  mgr_peer := mgr_peer b; mgr_sink_buffer := mgr_sink_buffer b; mgr_stream_buffer := mgr_stream_buffer b;
  heartbeat_interval := heartbeat_interval b; heartbeat_timeout := heartbeat_timeout b |}.
#[global] Instance up_mgr_peer : FieldUpdate mgr_peer := ltac:(field_update PeerManagerBuilder_eta mgr_peer).
#[global] Instance up_mgr_sink_buffer : FieldUpdate mgr_sink_buffer := ltac:(field_update PeerManagerBuilder_eta mgr_sink_buffer).
#[global] Instance up_mgr_stream_buffer : FieldUpdate mgr_stream_buffer := ltac:(field_update PeerManagerBuilder_eta mgr_stream_buffer).
#[global] Instance up_heartbeat_interval : FieldUpdate heartbeat_interval := ltac:(field_update PeerManagerBuilder_eta heartbeat_interval).
#[global] Instance up_heartbeat_timeout : FieldUpdate heartbeat_timeout := ltac:(field_update PeerManagerBuilder_eta heartbeat_timeout).

Definition PeerManagerBuilder_new : PeerManagerBuilder := {|
  mgr_peer := DEFAULT_PEER_CAPACITY; mgr_sink_buffer := DEFAULT_SINK_BUFFER_CAPACITY; mgr_stream_buffer := DEFAULT_STREAM_BUFFER_CAPACITY;
  heartbeat_interval := DEFAULT_HEARTBEAT_INTERVAL_MILLIS; heartbeat_timeout := DEFAULT_HEARTBEAT_TIMEOUT_MILLIS |}.
Definition with_peer_capacity (n : nat) (b : PeerManagerBuilder) : PeerManagerBuilder := b <| mgr_peer := n |>.
Definition with_sink_buffer_capacity (n : nat) (b : PeerManagerBuilder) : PeerManagerBuilder := b <| mgr_sink_buffer := n |>.
Definition with_stream_buffer_capacity (n : nat) (b : PeerManagerBuilder) : PeerManagerBuilder := b <| mgr_stream_buffer := n |>.
Definition with_heartbeat_interval (d : Z) (b : PeerManagerBuilder) : PeerManagerBuilder := b <| heartbeat_interval := d |>.
Definition with_heartbeat_timeout (d : Z) (b : PeerManagerBuilder) : PeerManagerBuilder := b <| heartbeat_timeout := d |>.

(** * manager/mod.rs: messages *)

(** The stream of a peer is only handed to its connection. *)
Inductive IPeerManagerMessage : Type :=
  | AddPeer (info : PeerInfo)
  | RemovePeer (info : PeerInfo)
  | SendMessage (info : PeerInfo) (mid : Z) (m : PeerWireProtocolMessage)
  | Shutdown.

Inductive OPeerManagerMessage : Type :=
  | PeerAdded (info : PeerInfo)
  | PeerRemoved (info : PeerInfo)
  | SentMessage (info : PeerInfo) (mid : Z)
  | ReceivedMessage (info : PeerInfo) (m : PeerWireProtocolMessage)
  | PeerDisconnect (info : PeerInfo)
  | PeerError (info : PeerInfo) (error : IoError).

(** * handler/peer_task.rs: a connection *)

(** A loop waits to start, runs, has returned, has panicked, or turns for ever at a
    poisoned mutex. *)
Inductive LoopState : Type := Spawned | Looping | Ended | Crashed | Spinning.
#[global] Instance LoopState_dec : EqDecision LoopState.
Proof. solve_decision. Defined.

(** [socket_out] has the calls of [write] on the socket, each with the bytes it was given and
    how many of them the socket took. *)
Record Connection := {
  conn_info : PeerInfo;
  msg_rx : list IPeerManagerMessage;
  writer : LoopState;
  reader : LoopState;
  msg_codec : PeerWireMessageCodec;
  poisoned : bool;
  in_buffer : bytes;
  out_buffer : bytes;
  socket_out : list (bytes * nat);
}.

Definition Connection_eta (c : Connection) : Connection := {|
  conn_info := conn_info c; msg_rx := msg_rx c; writer := writer c; reader := reader c; msg_codec := msg_codec c;
  poisoned := poisoned c; in_buffer := in_buffer c; out_buffer := out_buffer c; socket_out := socket_out c |}.
#[global] Instance up_msg_rx : FieldUpdate msg_rx := ltac:(field_update Connection_eta msg_rx).
#[global] Instance up_writer : FieldUpdate writer := ltac:(field_update Connection_eta writer).
#[global] Instance up_reader : FieldUpdate reader := ltac:(field_update Connection_eta reader).
#[global] Instance up_msg_codec : FieldUpdate msg_codec := ltac:(field_update Connection_eta msg_codec).
#[global] Instance up_poisoned : FieldUpdate poisoned := ltac:(field_update Connection_eta poisoned).
#[global] Instance up_in_buffer : FieldUpdate in_buffer := ltac:(field_update Connection_eta in_buffer).
#[global] Instance up_out_buffer : FieldUpdate out_buffer := ltac:(field_update Connection_eta out_buffer).
#[global] Instance up_socket_out : FieldUpdate socket_out := ltac:(field_update Connection_eta socket_out).
Ltac conn_fields := cbn [update_field up_msg_rx up_writer up_reader up_msg_codec up_poisoned up_in_buffer up_out_buffer up_socket_out
  conn_info msg_rx writer reader msg_codec poisoned in_buffer out_buffer socket_out] in *.

(** [run_peer_task] *)
Definition run_peer_task (info : PeerInfo) : Connection := {|
  conn_info := info; msg_rx := []; writer := Spawned; reader := Looping; msg_codec := codec_new; poisoned := false;
  in_buffer := []; out_buffer := replicate BUFFER_LEN 0%Z; socket_out := [] |}.

(** [o_send.send(m).unwrap()] of a loop *)
Definition report (o_open : bool) (m : OPeerManagerMessage) (c : Connection) : Connection * list OPeerManagerMessage :=
  if o_open then (c, [m]) else (c <| writer := Crashed |>, []).

(** The next turn of [loop_write_msg].  [has_sender]: the handler keeps the other
    end of the channel; [accepted]: how much the socket takes. *)
Definition loop_write_msg (o_open has_sender : bool) (accepted : nat) (c : Connection) : Connection * list OPeerManagerMessage :=
  match writer c with
  | Spawned => report o_open (PeerAdded (conn_info c)) (c <| writer := Looping |>)
  | Looping =>
      match msg_rx c with
      | SendMessage p_info mid p_message :: rest =>
          let c := c <| msg_rx := rest |> in
          if poisoned c then (c <| writer := Spinning |>, []) else
          match on_write (msg_codec c) (out_buffer c) p_message with
          | Ok (sent, out, codec) =>
              report o_open (SentMessage p_info mid)
                (c <| msg_codec := codec |> <| out_buffer := out |> <| socket_out := socket_out c ++ [(sent, Nat.min accepted (length sent))] |>)
          | _ =>
              (* only [write_bytes] runs with the lock taken *)
              let locked := match (codec_write_bytes (msg_codec c) p_message).1 with Ok _ => false | _ => true end in
              (c <| writer := Crashed |> <| poisoned := locked |>, [])
          end
      | RemovePeer p_info :: rest => report o_open (PeerRemoved p_info) (c <| msg_rx := rest |> <| writer := Ended |>)
      | _ :: rest => (c <| msg_rx := rest |> <| writer := Ended |>, [])
      | [] => if has_sender then (c, []) else report o_open (PeerDisconnect (conn_info c)) (c <| writer := Ended |>)
      end
  | _ => (c, [])
  end.

Section Reader.
Context `{Nom}.

(** The next turn of [loop_read_msg]: a read fails, or gives bytes that fit the buffer;
    none at the end of the stream.  Messages that were sent before the parser panics
    are under way. *)
Definition loop_read_msg (o_open : bool) (read_result : option bytes) (c : Connection) : Connection * list OPeerManagerMessage :=
  match reader c with
  | Looping =>
      match read_result with
      | None => (c <| reader := Ended |>, [])
      | Some chunk =>
          let bytes_read := take (BUFFER_LEN - length (in_buffer c)) chunk in
          if bool_decide (bytes_read = []) then (c, [])
          else if (4 <=? length (in_buffer c ++ bytes_read)) && poisoned c then (c <| in_buffer := in_buffer c ++ bytes_read |> <| reader := Spinning |>, [])
          else
            match on_read (msg_codec c) (in_buffer c) bytes_read with
            | (msgs, r) =>
                if negb o_open && negb (bool_decide (msgs = [])) then (c <| reader := Crashed |> <| poisoned := true |>, []) else
                let c := match r with
                  | Ok (rest, codec) => c <| in_buffer := rest |> <| msg_codec := codec |>
                  | _ => c <| reader := Crashed |> <| poisoned := true |>
                  end in
                (c, ReceivedMessage (conn_info c) <$> msgs)
            end
      end
  | _ => (c, [])
  end.
End Reader.

(** * handler/mod.rs *)

Record PeerHandler := {
  is_run : bool;
  peers : gmap peer_key (PeerInfo * nat);
  peer_capacity : nat;
  sink_capacity : nat;
  command : list IPeerManagerMessage;
  command_open : bool;
  response : list OPeerManagerMessage;
  out : list OPeerManagerMessage;
  out_open : bool;
  crashed : bool;
  connections : list Connection;
}.

Definition PeerHandler_eta (h : PeerHandler) : PeerHandler := {|
  is_run := is_run h; peers := peers h; peer_capacity := peer_capacity h; sink_capacity := sink_capacity h; command := command h;
  command_open := command_open h; response := response h; out := out h; out_open := out_open h; crashed := crashed h; connections := connections h |}.
#[global] Instance up_ph_is_run : FieldUpdate is_run := ltac:(field_update PeerHandler_eta is_run).
#[global] Instance up_ph_peers : FieldUpdate peers := ltac:(field_update PeerHandler_eta peers).
#[global] Instance up_ph_command : FieldUpdate command := ltac:(field_update PeerHandler_eta command).
#[global] Instance up_ph_command_open : FieldUpdate command_open := ltac:(field_update PeerHandler_eta command_open).
#[global] Instance up_ph_response : FieldUpdate response := ltac:(field_update PeerHandler_eta response).
#[global] Instance up_ph_out : FieldUpdate out := ltac:(field_update PeerHandler_eta out).
#[global] Instance up_ph_out_open : FieldUpdate out_open := ltac:(field_update PeerHandler_eta out_open).
#[global] Instance up_ph_crashed : FieldUpdate crashed := ltac:(field_update PeerHandler_eta crashed).
#[global] Instance up_ph_connections : FieldUpdate connections := ltac:(field_update PeerHandler_eta connections).
Ltac mgr_fields := cbn [update_field up_ph_is_run up_ph_peers up_ph_command up_ph_command_open up_ph_response up_ph_out up_ph_out_open up_ph_crashed up_ph_connections
  is_run peers peer_capacity sink_capacity command command_open response out out_open crashed connections] in *.

(** [start_peer_task] and [PeerHandler::new] *)
Definition start_peer_task (build : PeerManagerBuilder) : PeerHandler := {|
  is_run := true; peers := ∅; peer_capacity := mgr_peer build; sink_capacity := mgr_sink_buffer build; command := []; command_open := true;
  response := []; out := []; out_open := true; crashed := false; connections := [] |}.

Definition MgrM : Type -> Type := St PeerHandler Empty_set.

Definition shutdown : MgrM unit := modify (fun h => h <| is_run := false |>).

(** [sender.send(m).expect(..)] on the channel of a connection: its receiver is the
    writing loop. *)
Definition conn_send (t : nat) (m : IPeerManagerMessage) : MgrM unit :=
  h ← get;
  c ← lift (opt_unwrap (connections h !! t));
  match writer c with
  | Ended | Crashed => lift Panic
  | _ => modify (fun h => h <| connections := <[t := c <| msg_rx := msg_rx c ++ [m] |>]> (connections h) |>)
  end.

(** [self.out_send.send(m).expect(..)] *)
Definition mgr_out_send (m : OPeerManagerMessage) : MgrM unit :=
  h ← get;
  if out_open h then modify (fun h => h <| out := out h ++ [m] |>) else lift Panic.

Definition mgr_command_ex `{HashOrder} (message : IPeerManagerMessage) : MgrM unit :=
  h ← get;
  match message with
  | AddPeer info =>
      if peer_capacity h <=? size (peers h) then lift Panic else
      match peers h !! key_of info with
      | Some _ => lift Panic
      | None => modify (fun h => h <| peers := <[key_of info := (info, length (connections h))]> (peers h) |>
                                   <| connections := connections h ++ [run_peer_task info] |>)
      end
  | RemovePeer info =>
      sender ← lift (opt_unwrap (peers h !! key_of info));
      conn_send sender.2 (RemovePeer info)
  | SendMessage info mid peer_message =>
      sender ← lift (opt_unwrap (peers h !! key_of info));
      conn_send sender.2 (SendMessage info mid peer_message)
  | Shutdown =>
      _ ← for_each (entries (peers h)) (fun e => conn_send e.2.2 (RemovePeer e.2.1));
      shutdown
  end.

(** A peer is gone: its entry is removed and the user told. *)
Definition peer_gone (info : PeerInfo) (message : OPeerManagerMessage) : MgrM unit :=
  h ← get;
  _ ← lift (opt_unwrap (peers h !! key_of info));
  _ ← modify (fun h => h <| peers := delete (key_of info) (peers h) |>);
  mgr_out_send message.

Definition response_in_ex (message : OPeerManagerMessage) : MgrM unit :=
  match message with
  | PeerRemoved info => peer_gone info (PeerRemoved info)
  | PeerDisconnect info => peer_gone info (PeerDisconnect info)
  | PeerError info error => peer_gone info (PeerError info error)
  | other => mgr_out_send other
  end.

(** The two branches of [run_one]. *)
Inductive Branch : Type := CommandReady | ResponseReady.

Definition mgr_run_one `{HashOrder} (b : Branch) : MgrM unit :=
  h ← get;
  match b with
  | CommandReady =>
      match command h with
      | cmd :: rest => _ ← modify (fun h => h <| command := rest |>); mgr_command_ex cmd
      | [] => when (negb (command_open h)) shutdown
      end
  | ResponseReady =>
      match response h with
      | message :: rest => _ ← modify (fun h => h <| response := rest |>); response_in_ex message
      | [] => mret tt
      end
  end.

(** The handler is alive: its ends of the channels are. *)
Definition alive (h : PeerHandler) : bool := is_run h && negb (crashed h).

(** ** Steps of the manager, its connections and its user *)

Inductive mgr_event : Type :=
  | UserSends (m : IPeerManagerMessage)
  | UserTakes
  | UserDropsSinks
  | UserDropsStream
  | HandlerTurn (o : HashOrder) (b : Branch)
  | WriterTurn (t : nat) (accepted : nat)
  | ReaderTurn (t : nat) (read_result : option bytes).

(** The handler keeps a sender for the connection. *)
Definition has_sender (h : PeerHandler) (t : nat) : bool := alive h && existsb (fun e => e.2.2 =? t) (map_to_list (peers h)).

(** A turn of a loop of the connection [t]. *)
Definition conn_turn (turn : Connection -> Connection * list OPeerManagerMessage) (t : nat) (h : PeerHandler) : PeerHandler :=
  match connections h !! t with
  | Some c =>
      let '(c', msgs) := turn c in
      h <| connections := <[t := c']> (connections h) |> <| response := response h ++ msgs |>
  | None => h
  end.

Definition mgr_step `{Nom} (e : mgr_event) (h : PeerHandler) : PeerHandler :=
  match e with
  | UserSends m => if alive h && command_open h && (length (command h) <? sink_capacity h) then h <| command := command h ++ [m] |> else h
  | UserTakes => h <| out := tail (out h) |>
  | UserDropsSinks => h <| command_open := false |>
  | UserDropsStream => h <| out_open := false |>
  | HandlerTurn o b =>
      if alive h then
        match mgr_run_one b h with
        | (Ok _, h') | (Err _, h') => h'
        | (_, h') => h' <| crashed := true |>
        end
      else h
  | WriterTurn t accepted => conn_turn (loop_write_msg (alive h) (has_sender h t) accepted) t h
  | ReaderTurn t read_result => conn_turn (loop_read_msg (alive h) read_result) t h
  end.
