(* ===== verification/PeerManagerCorrect.v ===== *)
(** PeerManagerCorrect: a user that waits for peers to be gone never makes the manager
    panic, and its messages are written in order ([PeerManager]).

    For each peer the commands of the user, the channel of its connection, the
    responses and the messages to the user form one line on which the session
    moves forward: its phase. *)

From stdpp Require Import base list gmap.
From Stdlib Require Import ZArith Lia.
From S2P Require Import Prelude Effects Convert ShaHash Nom Handshake PeerMessage PeerMessageCorrect PeerInfo PeerTask PeerManager.

(** * The user *)

(** A session with a peer, as the user sees it: the messages sent to it, and whether
    its removal was asked for. *)
Record Session := { ss_sent : list (Z * PeerWireProtocolMessage); ss_removing : bool }.
Notation user_view := (gmap peer_key Session).

(** A message that is well-formed whatever the peer has announced: any but those of the
    extension protocol.  The user cannot know what the codec knows of the peer
    when it comes to write the message. *)
Definition sendable (m : PeerWireProtocolMessage) : Prop := forall ext, msg_ok ext m.

Definition loop_event (e : mgr_event) : bool :=
  match e with HandlerTurn _ _ | WriterTurn _ _ | ReaderTurn _ _ => true | _ => false end.

(** What the user learns when it takes a message. *)
Definition view_taken (m : option OPeerManagerMessage) (v : user_view) : user_view :=
  match m with Some (PeerRemoved i) => delete (key_of i) v | _ => v end.

(** Everything that can come about with a user that adds a peer only when it has
    no session with it and the capacity allows, sends to and removes the peers it has
    sessions with, and counts a session until it took the message that the peer is
    removed.  A send waits for a place in the channel.  Loops take turns in any
    order, and sockets deliver and accept anything. *)
Inductive manages `{Nom} (b : PeerManagerBuilder) : PeerHandler -> user_view -> Prop :=
  | manages_new : manages b (start_peer_task b) ∅
  | manages_add h v i : manages b h v -> v !! key_of i = None -> size v < mgr_peer b -> length (command h) < mgr_sink_buffer b ->
      manages b (mgr_step (UserSends (AddPeer i)) h) (<[key_of i := {| ss_sent := []; ss_removing := false |}]> v)
  | manages_send h v i mid m s : manages b h v -> v !! key_of i = Some s -> ss_removing s = false -> sendable m -> length (command h) < mgr_sink_buffer b ->
      manages b (mgr_step (UserSends (SendMessage i mid m)) h) (<[key_of i := {| ss_sent := ss_sent s ++ [(mid, m)]; ss_removing := false |}]> v)
  | manages_remove h v i s : manages b h v -> v !! key_of i = Some s -> ss_removing s = false -> length (command h) < mgr_sink_buffer b ->
      manages b (mgr_step (UserSends (RemovePeer i)) h) (<[key_of i := {| ss_sent := ss_sent s; ss_removing := true |}]> v)
  | manages_take h v : manages b h v -> manages b (mgr_step UserTakes h) (view_taken (head (out h)) v)
  | manages_turn h v e : manages b h v -> loop_event e = true -> manages b (mgr_step e h) v.

(** * Phases of a session *)

Definition command_key (m : IPeerManagerMessage) : option peer_key :=
  match m with AddPeer i | RemovePeer i | SendMessage i _ _ => Some (key_of i) | Shutdown => None end.
Definition commands_for (k : peer_key) (l : list IPeerManagerMessage) : list IPeerManagerMessage := filter (fun m => command_key m = Some k) l.

Definition removed_key (m : OPeerManagerMessage) : option peer_key := match m with PeerRemoved i => Some (key_of i) | _ => None end.
(** How many messages say that the peer is removed. *)
Definition removals (k : peer_key) (l : list OPeerManagerMessage) : nat := length (filter (fun m => removed_key m = Some k) l).

(** Commands on their way that send [todo] and then, perhaps, remove the peer. *)
Definition sends (k : peer_key) (c : IPeerManagerMessage) (x : Z * PeerWireProtocolMessage) : Prop :=
  exists i, key_of i = k /\ c = SendMessage i x.1 x.2 /\ sendable x.2.
Definition under_way (k : peer_key) (todo : list (Z * PeerWireProtocolMessage)) (removing : bool) (l : list IPeerManagerMessage) : Prop :=
  exists l1 l2, l = l1 ++ l2 /\ Forall2 (sends k) l1 todo /\ if removing then exists i, key_of i = k /\ l2 = [RemovePeer i] else l2 = [].

(** A call of [write] for a message: it was given all bytes of the message. *)
Definition wrote (call : bytes * nat) (x : Z * PeerWireProtocolMessage) : Prop :=
  (forall ext, write_bytes x.2 ext = Ok call.1) /\ length call.1 = message_size x.2.

Lemma sendable_writes m : sendable m -> exists w, (forall ext, write_bytes m ext = Ok w) /\ length w = message_size m /\
  forall codec buf, exists buf' codec', on_write codec buf m = Ok (w, buf', codec').
Proof.
  intros Hm. assert (Hu : forall u, m <> ProtExtension u) by (intros u ->; destruct u as [u|u]; [by destruct (Hm None) as (? & ? & ? & _)|by destruct (Hm None)]).
  assert (Hw : exists w, write_bytes m None = Ok w /\ length w = message_size m).
  { assert (Hk : m = KeepAlive \/ m <> KeepAlive) by (destruct m; (by left) || by right). destruct Hk as [->|Hk]; [by eexists|]. destruct (wire_all (N := nom3) _ m (Hm None) Hk) as (len & id & body & Hw & _ & _ & Hs & _).
    exists (frame len id body). by rewrite length_frame. }
  destruct Hw as (w & Hw & Hl). exists w. assert (Hall : forall ext, write_bytes m ext = Ok w) by (intros ext; by rewrite (write_any _ None)).
  split_and!; [done|done|]. intros codec buf. by apply on_write_sends.
Qed.

Inductive phase (k : peer_key) (h : PeerHandler) : option Session -> Prop :=
  | ph_absent : commands_for k (command h) = [] -> peers h !! k = None -> removals k (response h) = 0 -> removals k (out h) = 0 ->
      phase k h None
  | ph_adding s i l : commands_for k (command h) = AddPeer i :: l -> under_way k (ss_sent s) (ss_removing s) l -> peers h !! k = None ->
      removals k (response h) = 0 -> removals k (out h) = 0 -> phase k h (Some s)
  | ph_live s i t c sent lost todo :
      peers h !! k = Some (i, t) -> connections h !! t = Some c -> key_of (conn_info c) = k ->
      (writer c = Spinning \/ (lost = [] /\ (writer c = Spawned \/ writer c = Looping))) ->
      ss_sent s = sent ++ lost ++ todo -> Forall2 wrote (socket_out c) sent ->
      under_way k todo (ss_removing s) (msg_rx c ++ commands_for k (command h)) ->
      removals k (response h) = 0 -> removals k (out h) = 0 -> phase k h (Some s)
  | ph_leaving s i t c :
      ss_removing s = true -> peers h !! k = Some (i, t) -> connections h !! t = Some c -> key_of (conn_info c) = k -> writer c = Ended ->
      Forall2 wrote (socket_out c) (ss_sent s) ->
      commands_for k (command h) = [] -> removals k (response h) = 1 -> removals k (out h) = 0 -> phase k h (Some s)
  | ph_left s : ss_removing s = true -> peers h !! k = None -> commands_for k (command h) = [] ->
      removals k (response h) = 0 -> removals k (out h) = 1 -> phase k h (Some s).

Record managed (n cap : nat) (h : PeerHandler) (v : user_view) : Prop := {
  mg_alive : is_run h = true /\ crashed h = false /\ out_open h = true /\ command_open h = true;
  mg_capacity : peer_capacity h = n /\ sink_capacity h = cap /\ size v <= n;
  mg_phase : forall k, phase k h (v !! k);
  mg_commands : Forall (fun m => is_Some (command_key m)) (command h);
  mg_responses : Forall (fun m => match m with PeerDisconnect _ | PeerError _ _ => False | _ => True end) (response h);
  mg_connections : forall t c, connections h !! t = Some c -> writer c = Ended \/ exists k i, peers h !! k = Some (i, t) /\ key_of (conn_info c) = k;
}.

Lemma commands_for_snoc k l m : commands_for k (l ++ [m]) = commands_for k l ++ (if decide (command_key m = Some k) then [m] else []).
Proof. unfold commands_for. rewrite filter_app, filter_cons, filter_nil. by case_decide. Qed.
Lemma commands_for_cons k l m : commands_for k (m :: l) = (if decide (command_key m = Some k) then [m] else []) ++ commands_for k l.
Proof. unfold commands_for. rewrite filter_cons. by case_decide. Qed.
Lemma removals_app k l l' : removals k (l ++ l') = removals k l + removals k l'.
Proof. unfold removals. by rewrite filter_app, length_app. Qed.
Lemma removals_cons k m l : removals k (m :: l) = (if decide (removed_key m = Some k) then 1 else 0) + removals k l.
Proof. unfold removals. rewrite filter_cons. by case_decide. Qed.

(** What the phase of a peer depends on. *)
Definition same_line (c c' : Connection) : Prop :=
  conn_info c' = conn_info c /\ msg_rx c' = msg_rx c /\ writer c' = writer c /\ socket_out c' = socket_out c.

Lemma phase_same k h h' s :
  commands_for k (command h') = commands_for k (command h) -> peers h' !! k = peers h !! k ->
  (forall i t c, peers h !! k = Some (i, t) -> connections h !! t = Some c -> exists c', connections h' !! t = Some c' /\ same_line c c') ->
  removals k (response h') = removals k (response h) -> removals k (out h') = removals k (out h) -> phase k h s -> phase k h' s.
Proof.
  intros E1 E2 E3 E4 E5 Hp. destruct Hp as [|s i l|s i t c sent lost todo Hk Ht|s i t c Hr Hk Ht|].
  - apply ph_absent; congruence.
  - eapply ph_adding; try congruence; [by rewrite E1|done].
  - destruct (E3 _ _ _ Hk Ht) as (c' & Ht' & Hi & Hm & Hw & Hs).
    eapply (ph_live _ _ _ i t c'); rewrite ?Hi, ?Hm, ?Hw, ?Hs, ?E1, ?E2, ?E4, ?E5; eassumption.
  - destruct (E3 _ _ _ Hk Ht) as (c' & Ht' & Hi & Hm & Hw & Hs).
    eapply (ph_leaving _ _ _ i t c'); rewrite ?Hi, ?Hw, ?Hs, ?E1, ?E2, ?E4, ?E5; eassumption.
  - apply ph_left; congruence.
Qed.

Lemma phase_frame k h h' s :
  commands_for k (command h') = commands_for k (command h) -> peers h' !! k = peers h !! k ->
  (forall i t, peers h !! k = Some (i, t) -> connections h' !! t = connections h !! t) ->
  removals k (response h') = removals k (response h) -> removals k (out h') = removals k (out h) -> phase k h s -> phase k h' s.
Proof. intros E1 E2 E3. apply phase_same; [done|done|]. intros i t c Hk Ht. exists c. by rewrite (E3 _ _ Hk). Qed.

Lemma under_way_snoc k todo l i mid m : key_of i = k -> sendable m -> under_way k todo false l -> under_way k (todo ++ [(mid, m)]) false (l ++ [SendMessage i mid m]).
Proof.
  intros Hi Hm (l1 & l2 & -> & Hs & ->). exists (l1 ++ [SendMessage i mid m]), []. rewrite !app_nil_r. split_and!; [done| |done].
  apply Forall2_app; [done|]. constructor; [|constructor]. by exists i.
Qed.
Lemma under_way_remove k todo l i : key_of i = k -> under_way k todo false l -> under_way k todo true (l ++ [RemovePeer i]).
Proof. intros Hi (l1 & l2 & -> & Hs & ->). exists l1, [RemovePeer i]. rewrite app_nil_r. split_and!; [done|done|]. by exists i. Qed.

(** * Steps of the user *)

Section User.
Context {n cap : nat}.

Lemma send_enabled h v m : managed n cap h v -> length (command h) < cap ->
  (if alive h && command_open h && (length (command h) <? sink_capacity h) then h <| command := command h ++ [m] |> else h) = h <| command := command h ++ [m] |>.
Proof.
  intros [(H1 & H2 & H3 & H4) (_ & Hc & _) _ _ _ _] Hl. unfold alive. rewrite H1, H2, H4, Hc. by destruct (Nat.ltb_spec (length (command h)) cap); [|lia].
Qed.

(** A command for [k] joins its line; nothing changes for the others. *)
Lemma command_joins h v k m s' :
  managed n cap h v -> command_key m = Some k -> size (<[k := s']> v) <= n ->
  phase k (h <| command := command h ++ [m] |>) (Some s') -> managed n cap (h <| command := command h ++ [m] |>) (<[k := s']> v).
Proof.
  intros [H1 (H2 & H2' & _) H3 H4 H5 H6] Hk Hsize Hp. split; mgr_fields; try done.
  - intros k'. destruct (decide (k = k')) as [<-|Hne]; [by rewrite lookup_insert_eq|]. rewrite lookup_insert_ne by done.
    eapply phase_frame; [..|apply H3]; try done. mgr_fields. rewrite commands_for_snoc, decide_False, app_nil_r; [done|]. rewrite Hk. congruence.
  - apply Forall_app. split; [done|]. apply Forall_singleton. by rewrite Hk.
Qed.

Lemma add_managed `{Nom} h v i : managed n cap h v -> v !! key_of i = None -> size v < n -> length (command h) < cap ->
  managed n cap (mgr_step (UserSends (AddPeer i)) h) (<[key_of i := {| ss_sent := []; ss_removing := false |}]> v).
Proof.
  intros Hm Hv Hs Hl. cbn [mgr_step]. rewrite (send_enabled h v) by done. apply command_joins; [done|done|by rewrite map_size_insert_None by done; lia|].
  pose proof (mg_phase _ _ _ _ Hm (key_of i)) as Hp. rewrite Hv in Hp. inversion Hp; subst. eapply ph_adding; mgr_fields; try done.
  - rewrite commands_for_snoc, decide_True by done. by match goal with E : commands_for _ _ = [] |- _ => rewrite E end.
  - by exists [], [].
Qed.

Lemma insert_present (v : user_view) k s s' : v !! k = Some s -> size (<[k := s']> v) = size v.
Proof. intros Hk. apply map_size_insert_Some. by rewrite Hk. Qed.

Lemma send_managed `{Nom} h v i mid m s : managed n cap h v -> v !! key_of i = Some s -> ss_removing s = false -> sendable m -> length (command h) < cap ->
  managed n cap (mgr_step (UserSends (SendMessage i mid m)) h) (<[key_of i := {| ss_sent := ss_sent s ++ [(mid, m)]; ss_removing := false |}]> v).
Proof.
  intros Hm Hv Hr Hw Hl. cbn [mgr_step]. rewrite (send_enabled h v) by done. apply command_joins; [done|done|rewrite (insert_present _ _ _ _ Hv); apply (mg_capacity _ _ _ _ Hm)|].
  pose proof (mg_phase _ _ _ _ Hm (key_of i)) as Hp. rewrite Hv in Hp.
  assert (E : commands_for (key_of i) (command h ++ [SendMessage i mid m]) = commands_for (key_of i) (command h) ++ [SendMessage i mid m]).
  { rewrite commands_for_snoc. by rewrite decide_True. }
  inversion Hp; subst; try congruence.
  - rewrite Hr in *. eapply ph_adding; mgr_fields; try done; [rewrite E; by match goal with Ec : commands_for _ _ = _ |- _ => rewrite Ec end|]. by apply under_way_snoc.
  - rewrite Hr in *. eapply ph_live; mgr_fields; try done.
    + cbn [ss_sent]. match goal with Es : ss_sent s = _ |- _ => rewrite Es end. by rewrite <- !(assoc_L (++)).
    + rewrite E, (assoc_L (++)). by apply under_way_snoc.
Qed.

Lemma remove_managed `{Nom} h v i s : managed n cap h v -> v !! key_of i = Some s -> ss_removing s = false -> length (command h) < cap ->
  managed n cap (mgr_step (UserSends (RemovePeer i)) h) (<[key_of i := {| ss_sent := ss_sent s; ss_removing := true |}]> v).
Proof.
  intros Hm Hv Hr Hl. cbn [mgr_step]. rewrite (send_enabled h v) by done. apply command_joins; [done|done|rewrite (insert_present _ _ _ _ Hv); apply (mg_capacity _ _ _ _ Hm)|].
  pose proof (mg_phase _ _ _ _ Hm (key_of i)) as Hp. rewrite Hv in Hp.
  assert (E : commands_for (key_of i) (command h ++ [RemovePeer i]) = commands_for (key_of i) (command h) ++ [RemovePeer i]).
  { rewrite commands_for_snoc. by rewrite decide_True. }
  inversion Hp; subst; try congruence.
  - rewrite Hr in *. eapply ph_adding; mgr_fields; try done; [rewrite E; by match goal with Ec : commands_for _ _ = _ |- _ => rewrite Ec end|]. by apply under_way_remove.
  - rewrite Hr in *. eapply ph_live; mgr_fields; try done. rewrite E, (assoc_L (++)). by apply under_way_remove.
Qed.

(** The user takes a message. *)
Lemma take_managed `{Nom} h v : managed n cap h v -> managed n cap (mgr_step UserTakes h) (view_taken (head (out h)) v).
Proof.
  intros [H1 (H2 & H2' & H2'') H3 H4 H5 H6]. cbn [mgr_step].
  assert (Hsize : size (view_taken (head (out h)) v) <= n).
  { destruct (head (out h)) as [[]|]; cbn [view_taken]; try done. rewrite map_size_delete. destruct (v !! key_of info); cbn; lia. }
  split; mgr_fields; try done. intros k. specialize (H3 k). destruct (out h) as [|m rest] eqn:Ho; cbn [head tail view_taken].
  { eapply phase_frame; [..|exact H3]; try done. mgr_fields. by rewrite Ho. }
  destruct (decide (removed_key m = Some k)) as [Hk|Hk].
  - destruct m as [|i| | | |]; try done. injection Hk as Hk. cbn [view_taken]. rewrite Hk, lookup_delete_eq.
    assert (Hone : removals k (out h) = S (removals k rest)) by (rewrite Ho, removals_cons, decide_True; [done|by rewrite <- Hk]).
    inversion H3; subst; try lia. apply ph_absent; mgr_fields; try done. lia.
  - assert (Hv : view_taken (Some m) v !! k = v !! k).
    { destruct m as [|i| | | |]; try done. cbn [view_taken]. rewrite lookup_delete_ne; [done|]. intros Hi. apply Hk. cbn. by rewrite Hi. }
    cbn [view_taken] in Hv |- *. rewrite Hv. eapply phase_frame; [..|exact H3]; try done. mgr_fields. rewrite Ho, removals_cons. by rewrite decide_False.
Qed.
End User.

(** * Turns of the handler *)

Section Handler.
Context {n cap : nat} {HO : HashOrder}.

Lemma not_added k i todo removing l : under_way k todo removing l -> AddPeer i ∉ l.
Proof.
  intros (l1 & l2 & -> & Hs & Hr) [Hin|Hin]%elem_of_app.
  - apply list_elem_of_lookup in Hin as [j Hj]. destruct (Forall2_lookup_l _ _ _ _ _ Hs Hj) as (x & _ & i' & _ & [=] & _).
  - destruct removing; [destruct Hr as (i' & _ & ->); by apply list_elem_of_singleton in Hin|subst; by apply elem_of_nil in Hin].
Qed.

(** The connections of other peers are others. *)
Lemma other_connection h v k k' i i' t t' : managed n cap h v -> k <> k' -> peers h !! k = Some (i, t) -> peers h !! k' = Some (i', t') ->
  t <> t'.
Proof.
  intros Hm Hne Hk Hk' ->. pose proof (mg_phase _ _ _ _ Hm k) as Hp. pose proof (mg_phase _ _ _ _ Hm k') as Hp'.
  destruct (v !! k) as [s|], (v !! k') as [s'|]; inversion Hp; inversion Hp'; subst; congruence.
Qed.

Lemma mapped_connection h v k i t : managed n cap h v -> peers h !! k = Some (i, t) -> is_Some (connections h !! t).
Proof.
  intros Hm Hk. pose proof (mg_phase _ _ _ _ Hm k) as Hp. destruct (v !! k) as [s|]; inversion Hp; subst; simplify_eq; by eexists.
Qed.

(** A peer with a connection is one that the user has a session with. *)
Lemma peers_in_view h v : managed n cap h v -> dom (peers h) ⊆ dom v.
Proof.
  intros Hm k [[i t] Hk]%elem_of_dom. apply elem_of_dom. pose proof (mg_phase _ _ _ _ Hm k) as Hp. destruct (v !! k) as [s|]; [by eexists|].
  inversion Hp; subst. congruence.
Qed.

Lemma room_left h v k s : managed n cap h v -> v !! k = Some s -> peers h !! k = None -> size (peers h) < n.
Proof.
  intros Hm Hv Hk. pose proof (peers_in_view h v Hm) as Hsub. destruct (mg_capacity _ _ _ _ Hm) as (_ & _ & Hs).
  assert (Hin : dom (peers h) ⊆ dom (delete k v)).
  { intros k' Hk'. rewrite dom_delete. assert (k' ≠ k) by (intros ->; apply elem_of_dom in Hk' as [? ?]; congruence). set_solver. }
  apply subseteq_size in Hin. rewrite !size_dom, map_size_delete, Hv in Hin. pose proof (map_size_ne_0_lookup_2 v k (mk_is_Some _ _ Hv)). lia.
Qed.

Lemma add_handled h v i rest : managed n cap h v -> command h = AddPeer i :: rest ->
  exists h', mgr_command_ex (AddPeer i) (h <| command := rest |>) = (Ok tt, h') /\ managed n cap h' v.
Proof.
  intros Hm Hc. pose proof (mg_phase _ _ _ _ Hm (key_of i)) as Hp.
  assert (Ec : commands_for (key_of i) (command h) = AddPeer i :: commands_for (key_of i) rest) by (rewrite Hc, commands_for_cons; by rewrite decide_True).
  destruct (v !! key_of i) as [s|] eqn:Hv; inversion Hp; subst; try congruence; [|exfalso; eapply not_added; [eassumption|rewrite Ec; apply elem_of_app; right; left]].
  pose proof Hm as [M1 (M2 & M2' & M2'') M3 M4 M5 M6].
  match goal with E : commands_for _ _ = AddPeer ?j :: ?l |- _ => rewrite Ec in E; injection E as <- <- end.
  assert (Hroom := room_left h v (key_of i) s Hm Hv ltac:(done)).
  eexists. split.
  { unfold mgr_command_ex. rewrite bind_get_run. mgr_fields. destruct (Nat.leb_spec (peer_capacity h) (size (peers h))); [lia|].
    match goal with E : peers h !! _ = None |- _ => rewrite E end. reflexivity. }
  split; mgr_fields; try done.
  - intros k. destruct (decide (k = key_of i)) as [->|Hne].
    + rewrite Hv. eapply (ph_live _ _ _ i (length (connections h)) (run_peer_task i) [] [] (ss_sent s)); mgr_fields; try done.
      * by rewrite lookup_insert_eq.
      * by rewrite lookup_app_r, Nat.sub_diag.
      * right. split; [done|by left].
    + eapply phase_frame; [..|apply M3]; mgr_fields; try done.
      * rewrite Hc, commands_for_cons, decide_False; [done|]. cbn. congruence.
      * by rewrite lookup_insert_ne.
      * intros i' t Hk. rewrite lookup_app_l; [done|]. destruct (mapped_connection h v k i' t Hm Hk) as [c' Ht]. by eapply lookup_lt_Some.
  - rewrite Hc in M4. by apply Forall_cons in M4 as [_ ?].
  - intros t c Ht. destruct (decide (t < length (connections h))) as [Hlt|Hge].
    + rewrite lookup_app_l in Ht by done. destruct (M6 t c Ht) as [?|(k & i' & Hk & ?)]; [by left|right]. exists k, i'. split; [|done].
      rewrite lookup_insert_ne; [done|]. intros <-. congruence.
    + rewrite lookup_app_r in Ht by lia. destruct (t - length (connections h)) as [|x] eqn:Hx; [|done]. injection Ht as <-. right.
      exists (key_of i), i. split; [|done]. rewrite lookup_insert_eq. do 2 f_equal. lia.
Qed.

(** A command goes to the connection of the peer. *)
Lemma forward_handled h v m k rest : managed n cap h v -> command h = m :: rest -> command_key m = Some k -> (forall i, m <> AddPeer i) ->
  exists i t c, peers h !! k = Some (i, t) /\ connections h !! t = Some c /\ writer c <> Ended /\ writer c <> Crashed /\
    managed n cap (h <| command := rest |> <| connections := <[t := c <| msg_rx := msg_rx c ++ [m] |>]> (connections h) |>) v.
Proof.
  intros Hm Hc Hkey Hna. pose proof (mg_phase _ _ _ _ Hm k) as Hp. pose proof Hm as [M1 M2 M3 M4 M5 M6].
  assert (Ec : commands_for k (command h) = m :: commands_for k rest) by (rewrite Hc, commands_for_cons; by rewrite decide_True).
  assert (Hother : forall i t c, peers h !! k = Some (i, t) -> connections h !! t = Some c -> key_of (conn_info c) = k ->
    phase k (h <| command := rest |> <| connections := <[t := c <| msg_rx := msg_rx c ++ [m] |>]> (connections h) |>) (v !! k) ->
    managed n cap (h <| command := rest |> <| connections := <[t := c <| msg_rx := msg_rx c ++ [m] |>]> (connections h) |>) v).
  { intros i t c Hk Ht Hck Hph. split; mgr_fields; try done.
    - intros k'. destruct (decide (k' = k)) as [->|Hne]; [done|]. eapply phase_frame; [..|apply M3]; mgr_fields; try done.
      + rewrite Hc, commands_for_cons, decide_False; [done|]. rewrite Hkey. congruence.
      + intros i' t' Hk'. rewrite list_lookup_insert_ne; [done|]. by apply (other_connection h v k k' i i' t t').
    - rewrite Hc in M4. by apply Forall_cons in M4 as [_ ?].
    - intros t' c'. rewrite list_lookup_insert_Some. intros [(<- & <- & _)|[_ ?]]; [|by apply M6]. right. by exists k, i. }
  destruct (v !! k) as [s|] eqn:Hv; inversion Hp; subst; try congruence.
  assert (Hw : writer c <> Ended /\ writer c <> Crashed) by (match goal with E : writer c = Spinning \/ _ |- _ => destruct E as [->|[_ [->| ->]]] end; done).
  exists i, t, c. split_and!; try tauto. apply (Hother i t c); try done.
  rewrite Ec, (cons_middle m), (assoc_L (++)) in H6.
  eapply (ph_live _ _ _ i t (c <| msg_rx := msg_rx c ++ [m] |>)); mgr_fields; conn_fields; try eassumption; [|done].
  apply list_lookup_insert_eq. by eapply lookup_lt_Some.
Qed.

(** A turn of the handler that takes a command. *)
Lemma command_taken h v m rest : managed n cap h v -> command h = m :: rest ->
  exists h', mgr_command_ex m (h <| command := rest |>) = (Ok tt, h') /\ managed n cap h' v.
Proof.
  intros Hm Hc. pose proof (mg_commands _ _ _ _ Hm) as Hk. rewrite Hc in Hk. apply Forall_cons in Hk as [[k Hk] _].
  destruct m as [i|i|i mid m|]; [by eapply add_handled| | |done]; injection Hk as Hk.
  all: destruct (forward_handled h v _ k rest Hm Hc (f_equal Some Hk) ltac:(done)) as (i' & t & c & Hp & Ht & Hw & Hw' & Hm').
  all: eexists; split; [|exact Hm'].
  all: unfold mgr_command_ex, conn_send, lift, get, modify, mbind, St_bind; mgr_fields; rewrite Hk, Hp; cbn [opt_unwrap snd connections].
  all: rewrite Ht; cbn [opt_unwrap]; by destruct (writer c).
Qed.

(** A turn of the handler that takes a response. *)
Lemma response_handled h v m rest : managed n cap h v -> response h = m :: rest ->
  exists h', response_in_ex m (h <| response := rest |>) = (Ok tt, h') /\ managed n cap h' v.
Proof.
  intros Hm Hr. pose proof Hm as [M1 M2 M3 M4 M5 M6]. destruct M1 as (M1 & M1' & M1'' & M1''').
  rewrite Hr in M5. apply Forall_cons in M5 as [Hok M5].
  assert (Hforward : (forall k, removed_key m <> Some k) -> managed n cap (h <| response := rest |> <| out := out h ++ [m] |>) v).
  { intros Hno. split; mgr_fields; try done. intros k. eapply phase_frame; [..|apply M3]; mgr_fields; try done.
    - rewrite Hr, removals_cons, decide_False; done.
    - rewrite removals_app, removals_cons, decide_False by done. cbn. lia. }
  destruct m as [i|i|i mid|i m|i|i e]; try done.
  1,3,4: eexists; (split; [|by apply Hforward]); unfold response_in_ex, mgr_out_send; rewrite bind_get_run; mgr_fields; by rewrite M1''.
  assert (Hone : removals (key_of i) (response h) = S (removals (key_of i) rest)) by (rewrite Hr, removals_cons, decide_True; done).
  pose proof (M3 (key_of i)) as Hp. destruct (v !! key_of i) as [s|] eqn:Hv; inversion Hp; subst; try lia.
  eexists. split.
  { unfold response_in_ex, peer_gone, mgr_out_send, lift, get, modify, mbind, St_bind. mgr_fields.
    match goal with E : peers h !! _ = Some _ |- _ => rewrite E end. cbn [opt_unwrap]. mgr_fields. by rewrite M1''. }
  split; mgr_fields; try done.
  - intros k. destruct (decide (key_of i = k)) as [<-|Hne].
    + rewrite Hv. apply ph_left; mgr_fields; try done; [apply lookup_delete_eq|lia|]. rewrite removals_app, removals_cons, decide_True by done. cbn. lia.
    + eapply phase_frame; [..|apply M3]; mgr_fields; try done.
      * by rewrite lookup_delete_ne.
      * rewrite Hr, removals_cons, decide_False; [done|]. cbn. congruence.
      * rewrite removals_app, removals_cons, decide_False; [cbn; lia|]. cbn. congruence.
  - intros t' c' Ht'. destruct (M6 t' c' Ht') as [?|(k & i' & Hk & Hc)]; [by left|]. destruct (decide (key_of i = k)) as [<-|Hne].
    + left. simplify_eq. congruence.
    + right. exists k, i'. by rewrite lookup_delete_ne.
Qed.

End Handler.

Lemma handler_turn_managed {n cap} `{Nom} h v o b : managed n cap h v -> managed n cap (mgr_step (HandlerTurn o b) h) v.
Proof.
  intros Hm. pose proof (mg_alive _ _ _ _ Hm) as (H1 & H2 & H3 & H4). cbn [mgr_step]. unfold alive. rewrite H1, H2. cbn [negb andb].
  unfold mgr_run_one, get, modify, mbind, St_bind. mgr_fields. destruct b.
  - destruct (command h) as [|m rest] eqn:Hc; [by rewrite H4|]. destruct (command_taken (HO := o) h v m rest Hm Hc) as (h' & E & ?). mgr_fields. by rewrite E.
  - destruct (response h) as [|m rest] eqn:Hr; [done|]. destruct (response_handled h v m rest Hm Hr) as (h' & E & ?). mgr_fields. by rewrite E.
Qed.

(** * Turns of a connection *)

Section Connections.
Context {n cap : nat}.

Definition ok_response (m : OPeerManagerMessage) : Prop := match m with PeerDisconnect _ | PeerError _ _ => False | _ => True end.

(** A connection moves its peer's session and nobody else's. *)
Lemma conn_moves h v t c c' msgs :
  let h' := h <| connections := <[t := c']> (connections h) |> <| response := response h ++ msgs |> in
  managed n cap h v -> connections h !! t = Some c -> Forall ok_response msgs -> conn_info c' = conn_info c ->
  (writer c = Ended -> writer c' = Ended) -> (forall k, removals k msgs = 0 \/ exists i, peers h !! k = Some (i, t)) ->
  (forall k i, peers h !! k = Some (i, t) -> phase k h' (v !! k)) -> managed n cap h' v.
Proof.
  intros h' Hm Ht Hok Hi He Hr Hph. subst h'. pose proof Hm as [M1 M2 M3 M4 M5 M6]. split; mgr_fields; try done.
  - intros k. destruct (peers h !! k) as [[i t']|] eqn:Hk; [destruct (decide (t = t')) as [<-|Hne]; [by eapply Hph|]|].
    1,2: assert (Hno : removals k msgs = 0) by (destruct (Hr k) as [?|[? ?]]; [done|congruence]).
    1,2: eapply phase_frame; [..|apply M3]; mgr_fields; try done; [|rewrite removals_app; lia].
    + intros i' t2 Hk'. rewrite list_lookup_insert_ne; [done|]. congruence.
    + intros i' t2 Hk'. congruence.
  - apply Forall_app. by split.
  - intros t' c2. rewrite list_lookup_insert_Some. intros [(<- & <- & _)|[_ ?]]; [|by apply M6]. destruct (M6 t c Ht) as [?|(k & i & ? & ?)]; [left; by apply He|].
    right. exists k, i. by rewrite Hi.
Qed.

(** A turn that changes nothing the sessions depend on. *)
Lemma conn_same h v t c c' msgs :
  let h' := h <| connections := <[t := c']> (connections h) |> <| response := response h ++ msgs |> in
  managed n cap h v -> connections h !! t = Some c -> Forall ok_response msgs -> same_line c c' -> (forall k, removals k msgs = 0) -> managed n cap h' v.
Proof.
  intros h' Hm Ht Hok Hs Hr. pose proof Hs as (Hi & Hx & Hw & Ho). apply (conn_moves h v t c); try done; [by rewrite Hw|by left|].
  intros k i Hk. eapply phase_same; [..|apply (mg_phase _ _ _ _ Hm)]; subst h'; mgr_fields; try done; [|rewrite removals_app, Hr; lia].
  intros i' t' c2 Hk' Ht'. simplify_eq. exists c'. split; [|done]. apply list_lookup_insert_eq. by eapply lookup_lt_Some.
Qed.

Lemma received_no_removal k i (msgs : list PeerWireProtocolMessage) : removals k (ReceivedMessage i <$> msgs) = 0.
Proof. unfold removals. induction msgs; [done|]. by rewrite fmap_cons, filter_cons, decide_False. Qed.

Lemma reader_turn_managed `{Nom} h v t r : managed n cap h v -> managed n cap (mgr_step (ReaderTurn t r) h) v.
Proof.
  intros Hm. cbn [mgr_step]. unfold conn_turn. destruct (connections h !! t) as [c|] eqn:Ht; [|done].
  destruct (loop_read_msg (alive h) r c) as [c' msgs] eqn:Hl.
  assert (Hs : same_line c c' /\ exists i ms, msgs = ReceivedMessage i <$> ms).
  { unfold loop_read_msg in Hl. repeat case_match; simplify_eq; (split; [by split_and!|]); first [by eexists _, _|by exists (conn_info c), []|by exists (conn_info c'), []]. }
  destruct Hs as (Hs & i & ms & ->). apply (conn_same h v t c); try done.
  - apply Forall_fmap, Forall_forall. done.
  - intros k. apply received_no_removal.
Qed.

Lemma under_way_head k todo r m l : under_way k todo r (m :: l) ->
  (exists x todo' i, m = SendMessage i x.1 x.2 /\ sendable x.2 /\ todo = x :: todo' /\ under_way k todo' r l) \/
  (exists i, m = RemovePeer i /\ key_of i = k /\ r = true /\ todo = [] /\ l = []).
Proof.
  intros (l1 & l2 & Hl & Hs & Hr). destruct Hs as [|m' x l1 todo' (i & Hi & -> & Hw) Hs].
  - right. cbn in Hl. subst l2. destruct r; [|done]. destruct Hr as (i & Hi & [= -> ->]). by exists i.
  - left. injection Hl as -> ->. exists x, todo', i. split_and!; try done. by exists l1, l2.
Qed.

(** The connection of a session with a loop that writes. *)
Lemma writing_session h v t c : managed n cap h v -> connections h !! t = Some c -> writer c <> Ended ->
  exists k s i sent lost todo, peers h !! k = Some (i, t) /\ v !! k = Some s /\ key_of (conn_info c) = k /\
    (writer c = Spinning \/ (lost = [] /\ (writer c = Spawned \/ writer c = Looping))) /\
    ss_sent s = sent ++ lost ++ todo /\ Forall2 wrote (socket_out c) sent /\
    under_way k todo (ss_removing s) (msg_rx c ++ commands_for k (command h)) /\ removals k (response h) = 0 /\ removals k (out h) = 0 /\
    (forall k' i', peers h !! k' = Some (i', t) -> k' = k) /\ has_sender h t = true.
Proof.
  intros Hm Ht Hw. destruct (mg_connections _ _ _ _ Hm t c Ht) as [?|(k & i & Hk & Hi)]; [done|].
  pose proof (mg_phase _ _ _ _ Hm k) as Hp. destruct (v !! k) as [s|] eqn:Hv; inversion Hp; simplify_eq.
  exists (key_of (conn_info c)), s, i, sent, lost, todo. split_and!; try done.
  - intros k' i' Hk'. destruct (decide (k' = key_of (conn_info c))) as [?|Hne]; [done|]. by destruct (other_connection h v _ _ _ _ _ _ Hm Hne Hk' Hk).
  - unfold has_sender, alive. destruct (mg_alive _ _ _ _ Hm) as (-> & -> & _). cbn. apply existsb_exists. exists (key_of (conn_info c), (i, t)).
    split; [by apply list_elem_of_In, elem_of_map_to_list|]. apply Nat.eqb_refl.
Qed.

(** A writing loop that goes on with its session. *)
Lemma writer_moves h v t c c' m k s sent lost todo :
  managed n cap h v -> connections h !! t = Some c -> writer c <> Ended -> v !! k = Some s -> key_of (conn_info c) = k -> conn_info c' = conn_info c ->
  (exists i, peers h !! k = Some (i, t)) -> Forall ok_response m -> (forall k', removals k' m = 0) ->
  (writer c' = Spinning \/ (lost = [] /\ (writer c' = Spawned \/ writer c' = Looping))) ->
  ss_sent s = sent ++ lost ++ todo -> Forall2 wrote (socket_out c') sent -> under_way k todo (ss_removing s) (msg_rx c' ++ commands_for k (command h)) ->
  removals k (response h) = 0 -> removals k (out h) = 0 -> (forall k' i', peers h !! k' = Some (i', t) -> k' = k) ->
  managed n cap (h <| connections := <[t := c']> (connections h) |> <| response := response h ++ m |>) v.
Proof.
  intros Hm Ht Hw Hv Hk Hi [i Hp] Hok Hno Hw' Hs Ho Hu Hr Hr' Honly. apply (conn_moves h v t c); try done; [by left|].
  intros k' i' Hk'. pose proof (Honly _ _ Hk') as ->. rewrite Hv. eapply (ph_live _ _ _ i t c'); mgr_fields; try done; [| |eassumption..|].
  - apply list_lookup_insert_eq. by eapply lookup_lt_Some.
  - congruence.
  - rewrite removals_app, Hno. lia.
Qed.

Lemma writer_turn_managed `{Nom} h v t accepted : managed n cap h v -> managed n cap (mgr_step (WriterTurn t accepted) h) v.
Proof.
  intros Hm. cbn [mgr_step]. unfold conn_turn. destruct (connections h !! t) as [c|] eqn:Ht; [|done].
  assert (Hsame : managed n cap (h <| connections := <[t := c]> (connections h) |> <| response := response h ++ [] |>) v) by (by apply (conn_same h v t c)).
  unfold loop_write_msg, report. destruct (mg_alive _ _ _ _ Hm) as (Ha & Ha' & _). unfold alive at 1 2 3 4. rewrite Ha, Ha'. cbn [negb andb].
  destruct (decide (writer c = Ended)) as [E|Hne]; [by rewrite E|].
  destruct (writing_session h v t c Hm Ht Hne) as (k & s & i & sent & lost & todo & Hk & Hv & Hc & Hw & Hs & Ho & Hu & Hr & Hr' & Honly & Hsend).
  assert (Hki : exists i, peers h !! k = Some (i, t)) by (by exists i).
  destruct Hw as [Hw|[-> [Hw|Hw]]]; rewrite Hw; [done| |].
  { apply (writer_moves h v t c _ _ k s sent [] todo); try done; conn_fields; [by constructor|right; split; [done|by right]]. }
  destruct (msg_rx c) as [|m rest] eqn:Hm'; [by rewrite Hsend|]. cbn [app] in Hu.
  destruct (under_way_head _ _ _ _ _ Hu) as [([mid m'] & todo' & i' & -> & Hwr & -> & Hu')|(i' & -> & Hi' & Hrm & -> & Hnil)]; conn_fields.
  - destruct (poisoned c) eqn:Hp.
    + apply (writer_moves h v t c _ _ k s sent [(mid, m')] todo'); try done; conn_fields. by left.
    + cbn [fst snd] in *. destruct (sendable_writes m' Hwr) as (w & Hall & Hlen & Hon). destruct (Hon (msg_codec c) (out_buffer c)) as (buf & codec & E). rewrite E.
      apply (writer_moves h v t c _ _ k s (sent ++ [(mid, m')]) [] todo'); try done; conn_fields.
      * by constructor.
      * right. split; [done|by right].
      * by rewrite Hs, <- (assoc_L (++)).
      * apply Forall2_app; [done|]. by constructor.
  - apply app_nil in Hnil as [-> Hcmd]. rewrite app_nil_r in Hs. cbn [app] in Hs.
    apply (conn_moves h v t c); try done; conn_fields; [by constructor| |].
    + intros k'. destruct (decide (k' = k)) as [->|Hk']; [by right|left]. rewrite removals_cons, decide_False; [done|]. cbn. congruence.
    + intros k' i2 Hk2. pose proof (Honly _ _ Hk2) as ->. rewrite Hv. eapply (ph_leaving _ _ _ i2 t (c <| msg_rx := [] |> <| writer := Ended |>)); mgr_fields; conn_fields; try done.
      * apply list_lookup_insert_eq. by eapply lookup_lt_Some.
      * by rewrite Hs.
      * rewrite removals_app, removals_cons, decide_True; [cbn; lia|]. cbn. by rewrite Hi'.
Qed.
End Connections.

Lemma manages_managed `{Nom} b h v : manages b h v -> managed (mgr_peer b) (mgr_sink_buffer b) h v.
Proof.
  induction 1 as [|h v i Hm IH|h v i mid m s Hm IH|h v i s Hm IH|h v Hm IH|h v e Hm IH He].
  - split; try done; cbn; [split_and!; [done..|rewrite map_size_empty; lia]|]. intros k. rewrite lookup_empty. by apply ph_absent.
  - by apply add_managed.
  - by eapply send_managed.
  - by apply remove_managed.
  - by apply take_managed.
  - destruct e; try done; [by apply handler_turn_managed|by apply writer_turn_managed|by apply reader_turn_managed].
Qed.

(** * Properties *)

(** C23. With a user that adds only peers it has no session with, and no more than the
    capacity, that uses only sessions it did not ask to remove, that keeps the stream and the
    sinks of the manager and never asks for its shutdown, and that sends no messages of
    the extension protocol ([sendable]: their writing can fail,
    [metadata_before_handshake]), the manager never
    panics and goes on running, whatever the order in which the handler and the loops of
    the connections take turns and whatever the sockets do: every command and every
    response finds its peer, no channel it sends on is closed, no writing loop panics,
    and the capacity is respected. *)
Theorem manager_never_panics `{Nom} b h v : manages b h v ->
  alive h = true /\ size (peers h) <= mgr_peer b /\ Forall (fun c => writer c <> Crashed) (connections h) /\
    forall o b, exists h', @mgr_run_one o b h = (Ok tt, h').
Proof.
  intros Hv%manages_managed. pose proof (mg_alive _ _ _ _ Hv) as (H1 & H2 & H3 & H4). split_and!.
  - unfold alive. by rewrite H1, H2.
  - pose proof (peers_in_view h v Hv) as Hsub%subseteq_size. rewrite !size_dom in Hsub. destruct (mg_capacity _ _ _ _ Hv) as (_ & _ & ?). lia.
  - apply Forall_lookup. intros t c Ht E. destruct (writing_session h v t c Hv Ht ltac:(congruence)) as (k & s & i & ? & ? & ? & _ & _ & _ & Hw & _).
    rewrite E in Hw. destruct Hw as [?|(_ & [?|?])]; done.
  - intros o br. unfold mgr_run_one, get, modify, mbind, St_bind. destruct br.
    + destruct (command h) as [|m rest] eqn:Hc; [rewrite H4; by eexists|].
      destruct (command_taken (HO := o) h v m rest Hv Hc) as (h' & E & ?). mgr_fields. rewrite E. by eexists.
    + destruct (response h) as [|m rest] eqn:Hr; [by eexists|].
      destruct (response_handled h v m rest Hv Hr) as (h' & E & ?). mgr_fields. rewrite E. by eexists.
Qed.

(** C14. A connection of the manager serves the session that such a user has with its peer:
    the calls of [write] on its socket are, one each, for the messages that the user sent
    in the session, in their order and without a gap, and each was given all bytes of
    its message, the [message_size] ones of its wire form; once the loop has ended,
    before the user hears that the peer is removed, there was one for every message.  (Of
    these bytes the socket takes as many as it likes, and the code leaves it at
    that.) *)
Theorem sessions_written_in_order `{Nom} b h v k i t : manages b h v -> peers h !! k = Some (i, t) ->
  exists s c sent rest, v !! k = Some s /\ connections h !! t = Some c /\ key_of (conn_info c) = k /\
    ss_sent s = sent ++ rest /\ Forall2 wrote (socket_out c) sent /\ (writer c = Ended -> rest = [] /\ ss_removing s = true).
Proof.
  intros Hv%manages_managed Hk. pose proof (mg_phase _ _ _ _ Hv k) as Hp. destruct (v !! k) as [s|] eqn:Hs; inversion Hp; simplify_eq.
  - eexists s, c, sent, _. split_and!; try done. intros E. rewrite E in *. naive_solver.
  - exists s, c, (ss_sent s), []. rewrite app_nil_r. by split_and!.
Qed.

(** * Witnesses *)

Definition map_order : HashOrder := {| entries := fun K A _ _ m => map_to_list m; entries_perm := fun K A _ _ m => reflexivity _ |}.

Definition sample_remote : PeerInfo := PeerInfo_new default_route_v4 zero_hash zero_hash Extensions_new.

Lemma keep_alive_sendable : sendable KeepAlive.
Proof. done. Qed.

(** A session with one message, and its removal. *)
Definition sample_run : list mgr_event :=
  [UserSends (AddPeer sample_remote); HandlerTurn map_order CommandReady; WriterTurn 0 0;
   UserSends (SendMessage sample_remote 7 KeepAlive); UserSends (RemovePeer sample_remote);
   HandlerTurn map_order CommandReady; HandlerTurn map_order CommandReady; WriterTurn 0 4; WriterTurn 0 0].
Definition sample_manager `{Nom} : PeerHandler := foldl (fun h e => mgr_step e h) (start_peer_task PeerManagerBuilder_new) sample_run.
Definition sample_session : Session := {| ss_sent := [(7%Z, KeepAlive)]; ss_removing := true |}.

Lemma sample_manages `{Nom} : exists v, manages PeerManagerBuilder_new sample_manager v /\ size v = 1.
Proof.
  eexists. split.
  - unfold sample_manager, sample_run. cbn [foldl]. do 4 (apply manages_turn; [|done]).
    eapply (manages_remove _ _ _ _ {| ss_sent := [(7%Z, KeepAlive)]; ss_removing := false |}); [|apply lookup_insert_eq|done|vm_compute; lia].
    eapply (manages_send _ _ _ _ _ _ {| ss_sent := []; ss_removing := false |}); [|apply lookup_insert_eq|done|apply keep_alive_sendable|vm_compute; lia].
    do 2 (apply manages_turn; [|done]). apply manages_add; [apply manages_new|done|vm_compute; lia|vm_compute; lia].
  - vm_compute. reflexivity.
Qed.

Lemma manager_never_panics_witness :
  alive (@sample_manager nom3) = true /\ size (peers (@sample_manager nom3)) <= 1000 /\
  Forall (fun c => writer c <> Crashed) (connections (@sample_manager nom3)) /\
  (forall o b, exists h', @mgr_run_one o b (@sample_manager nom3) = (Ok tt, h')).
Proof.
  destruct (@sample_manages nom3) as [v [Hv _]]. apply (@manager_never_panics nom3 PeerManagerBuilder_new _ v Hv).
Defined.

(** The keep-alive was written, the user is yet to hear of the removal. *)
Lemma sessions_written_in_order_witness :
  (writer <$> connections (@sample_manager nom3)) = [Ended] /\ (socket_out <$> connections (@sample_manager nom3)) = [[([0; 0; 0; 0]%Z, 4)]] /\
  exists (v : user_view) s c sent rest, v !! key_of sample_remote = Some s /\ connections (@sample_manager nom3) !! 0 = Some c /\ key_of (conn_info c) = key_of sample_remote /\
    ss_sent s = sent ++ rest /\ Forall2 wrote (socket_out c) sent /\ (writer c = Ended -> rest = [] /\ ss_removing s = true).
Proof.
  split; [vm_compute; reflexivity|]. split; [vm_compute; reflexivity|].
  destruct (@sample_manages nom3) as [v [Hv _]]. exists v. apply (@sessions_written_in_order nom3 PeerManagerBuilder_new _ v _ sample_remote 0 Hv).
  vm_compute. reflexivity.
Defined.

(** A metadata request to a peer whose extended handshake has not come makes the writing
    loop panic with the codec locked; the next command for that peer makes the
    manager panic. *)
Example metadata_before_handshake :
  let h := @mgr_step nom3 (HandlerTurn map_order CommandReady) (@mgr_step nom3 (UserSends (RemovePeer sample_remote))
    (foldl (fun h e => @mgr_step nom3 e h) (start_peer_task PeerManagerBuilder_new)
      [UserSends (AddPeer sample_remote); HandlerTurn map_order CommandReady; WriterTurn 0 0;
       UserSends (SendMessage sample_remote 7 (ProtExtension (PeUtMetadata (UmRequest (UtMetadataRequestMessage_new 0)))));
       HandlerTurn map_order CommandReady; WriterTurn 0 0])) in
  (writer <$> connections h) = [Crashed] /\ (poisoned <$> connections h) = [true] /\ crashed h = true.
Proof. vm_compute. repeat split. Qed.
