(* ===== verification/ClientMessage.v ===== *)
(** ClientMessage: [bittorrent-client-demo/src/peer] (message.rs, util.rs, ipc.rs) and
    the reading of a stream in peer_connection.rs.

    The client has message types and framing of its own.  A stream that is read is
    the bytes that will arrive and whether it then breaks or just ends. *)

From stdpp Require Import base list.
From Stdlib Require Import ZArith Lia String.
From S2P Require Import Prelude Effects.

(** * util.rs *)

Definition BYTE_0 : Z := 256 * 256 * 256.
Definition BYTE_1 : Z := 256 * 256.
Definition BYTE_2 : Z := 256.

Definition bytes_to_u32 {E} (bs : bytes) : outcome E Z :=
  a ← index bs 0; b ← index bs 1; c ← index bs 2; d ← index bs 3;
  Ok (a * BYTE_0 + b * BYTE_1 + c * BYTE_2 + d)%Z.

Definition u32_to_bytes (integer : Z) : bytes :=
  let first := (integer / BYTE_0)%Z in
  let rest := (integer - first * BYTE_0)%Z in
  let second := (rest / BYTE_1)%Z in
  let rest := (rest - second * BYTE_1)%Z in
  let third := (rest / BYTE_2)%Z in
  let rest := (rest - third * BYTE_2)%Z in
  [to_u8 first; to_u8 second; to_u8 third; to_u8 rest].

(** * message.rs *)

Inductive Message : Type :=
  | CmKeepAlive | CmChoke | CmUnchoke | CmInterested | CmNotInterested
  | CmHave (index : Z)
  | CmBitfield (bs : bytes)
  | CmRequest (index offset length : Z)
  | CmPiece (index offset : Z) (data : bytes)
  | CmCancel (index offset length : Z)
  | CmPort.

Definition three_u32 {E} (body : bytes) : outcome E (Z * Z * Z) :=
  a ← slice body 0 4; b ← slice body 4 8; c ← slice body 8 12;
  x ← bytes_to_u32 a; y ← bytes_to_u32 b; z ← bytes_to_u32 c; Ok (x, y, z).

Definition Message_new {E} (id : Z) (body : bytes) : outcome E Message :=
  match id with
  | 0 => Ok CmChoke
  | 1 => Ok CmUnchoke
  | 2 => Ok CmInterested
  | 3 => Ok CmNotInterested
  | 4 => i ← bytes_to_u32 body; Ok (CmHave i)
  | 5 => Ok (CmBitfield body)
  | 6 => '(i, o, l) ← three_u32 body; Ok (CmRequest i o l)
  | 7 => a ← slice body 0 4; b ← slice body 4 8; i ← bytes_to_u32 a; o ← bytes_to_u32 b; data ← slice_from body 8; Ok (CmPiece i o data)
  | 8 => '(i, o, l) ← three_u32 body; Ok (CmCancel i o l)
  | 9 => Ok CmPort
  | _ => Panic
  end%Z.

Definition message_payload (m : Message) : bytes :=
  match m with
  | CmKeepAlive => []
  | CmChoke => [0]
  | CmUnchoke => [1]
  | CmInterested => [2]
  | CmNotInterested => [3]
  | CmHave i => 4 :: u32_to_bytes i
  | CmBitfield bs => 5 :: bs
  | CmRequest i o l => 6 :: u32_to_bytes i ++ u32_to_bytes o ++ u32_to_bytes l
  | CmPiece i o data => 6 :: u32_to_bytes i ++ u32_to_bytes o ++ data
  | CmCancel i o l => 8 :: u32_to_bytes i ++ u32_to_bytes o ++ u32_to_bytes l
  | CmPort => [9]
  end%Z.

Definition serialize (m : Message) : bytes :=
  u32_to_bytes (to_u32 (Z.of_nat (List.length (message_payload m)))) ++ message_payload m.

(** * ipc.rs *)

Inductive IPC : Type :=
  | CatComplete
  | BlockComplete (piece_index block_index : Z)
  | PieceComplete (piece_index : Z)
  | DownloadComplete
  | IpcMessage (m : Message)
  | BlockUploaded
  | Upstream_Error
  | Downstream_Error.

(** * Reading of the stream *)

Inductive ClientError : Type :=
  | InvalidInfoHash | ConnectingToSelf | CMissingPieceData | CIoError | SocketClosed | UnknownRequestType (m : Message) | ReceiveError | SendMessageError.

Record TcpStream := { arriving : bytes; breaks : bool }.

(** [read_n] and [read_n_to_buf] *)
Definition read_n (n : Z) : St TcpStream ClientError bytes := fun s =>
  let k := Z.to_nat n in
  if k <=? List.length (arriving s) then (Ok (take k (arriving s)), {| arriving := drop k (arriving s); breaks := breaks s |})
  else (Err (if breaks s then CIoError else SocketClosed), {| arriving := []; breaks := breaks s |}).

(** [receive_message] *)
Definition receive_message : St TcpStream ClientError Message :=
  size_bytes ← read_n 4;
  message_size ← lift (bytes_to_u32 size_bytes);
  if (0 <? message_size)%Z then
    message ← read_n message_size;
    id ← lift (index message 0);
    body ← lift (slice_from message 1);
    lift (Message_new id body)
  else mret CmKeepAlive.

(** What a [DownstreamMessageFunnel] puts into the connection's channel; the fuel
    bounds the messages.  [None]: the thread panicked. *)
Fixpoint downstream (fuel : nat) (s : TcpStream) : option (list IPC) :=
  match fuel with
  | O => Some []
  | S fuel' =>
      match receive_message s with
      | (Ok m, s') => cons (IpcMessage m) <$> downstream fuel' s'
      | (Err _, _) => Some [Downstream_Error]
      | _ => None
      end
  end.

Definition PROTOCOL : bytes := ascii_bytes "BitTorrent protocol".

Definition send_handshake (info_hash our_peer_id : bytes) : bytes :=
  [Z.of_nat (List.length PROTOCOL)] ++ PROTOCOL ++ replicate 8 0%Z ++ info_hash ++ our_peer_id.

Definition receive_handshake (info_hash our_peer_id : bytes) : St TcpStream ClientError unit :=
  pstrlen ← read_n 1;
  n ← lift (index pstrlen 0);
  _ ← read_n n;
  _ ← read_n 8;
  their_hash ← read_n 20;
  peer_id ← read_n 20;
  if negb (bool_decide (their_hash = info_hash)) then fail InvalidInfoHash
  else if bool_decide (peer_id = our_peer_id) then fail ConnectingToSelf
  else mret tt.

(** * What is read of what is written *)



Lemma length_u32_to_bytes z : List.length (u32_to_bytes z) = 4.
Proof. done. Qed.

Lemma bytes_to_u32_back {E} z rest : is_u32 z -> @bytes_to_u32 E (u32_to_bytes z ++ rest) = Ok z.
Proof.
  unfold is_u32, bytes_to_u32, u32_to_bytes, to_u8, index, BYTE_0, BYTE_1, BYTE_2. intros Hz. cbn. f_equal.
  Z.to_euclidean_division_equations. lia.
Qed.

Definition client_message_ok (m : Message) : Prop :=
  (1 + Z.of_nat (List.length (message_payload m)) < 4294967296)%Z /\
  match m with
  | CmHave i => is_u32 i
  | CmRequest i o l | CmCancel i o l => is_u32 i /\ is_u32 o /\ is_u32 l
  | CmPiece i o data => is_u32 i /\ is_u32 o /\ 4 <= List.length data /\ Forall is_u8 data
  | _ => True
  end.

(** The number in the first four bytes. *)
Definition first_u32 (data : bytes) : Z := match @bytes_to_u32 Empty_set data with Ok z => z | _ => 0%Z end.

(** A piece is written under the number of a request. *)
Definition arrives_as (m : Message) : Message :=
  match m with CmPiece i o data => CmRequest i o (first_u32 data) | _ => m end.

Lemma slice_first {E A} (l r : list A) n : List.length l = n -> @slice E A (l ++ r) 0 n = Ok l.
Proof. intros <-. rewrite slice_in by (rewrite length_app; lia). by rewrite drop_0, Nat.sub_0_r, take_app_length. Qed.
Lemma slice_second {E A} (l k r : list A) n m : List.length l = n -> n + List.length k = m -> @slice E A (l ++ k ++ r) n m = Ok k.
Proof. intros <- <-. apply slice_app. Qed.

Lemma three_u32_back {E} a b c : is_u32 a -> is_u32 b -> is_u32 c -> @three_u32 E (u32_to_bytes a ++ u32_to_bytes b ++ u32_to_bytes c) = Ok (a, b, c).
Proof.
  intros Ha Hb Hc. unfold three_u32. rewrite slice_first by done. run_binds. rewrite (slice_second _ _ _ 4 8) by done. run_binds.
  rewrite (assoc_L (++)), <- (app_nil_r (u32_to_bytes c)), slice_second by done. run_binds.
  rewrite <- (app_nil_r (u32_to_bytes a)), bytes_to_u32_back by done. run_binds. rewrite <- (app_nil_r (u32_to_bytes b)), bytes_to_u32_back by done. run_binds.
  rewrite <- (app_nil_r (u32_to_bytes c)), bytes_to_u32_back by done. done.
Qed.

(** A piece read as a request. *)
Lemma piece_as_request i o data : is_u32 i -> is_u32 o -> 4 <= List.length data -> Forall is_u8 data ->
  @three_u32 ClientError (u32_to_bytes i ++ u32_to_bytes o ++ data) = Ok (i, o, first_u32 data).
Proof.
  intros Hi Ho Hl Hd. destruct data as [|a [|b [|c [|d data]]]]; cbn [List.length] in Hl; try lia. change (a :: b :: c :: d :: data) with ([a; b; c; d] ++ data).
  unfold three_u32. rewrite slice_first by done. run_binds. rewrite (slice_second _ _ _ 4 8) by done. run_binds.
  rewrite (assoc_L (++)), slice_second by done. run_binds. rewrite <- (app_nil_r (u32_to_bytes i)), bytes_to_u32_back by done. run_binds.
  rewrite <- (app_nil_r (u32_to_bytes o)), bytes_to_u32_back by done. done.
Qed.

Lemma Message_new_back id body m : message_payload m = id :: body -> client_message_ok m -> @Message_new ClientError id body = Ok (arrives_as m).
Proof.
  intros Hp [_ Hok]. pose proof (f_equal (hd 0%Z) Hp) as Hi. pose proof (f_equal tail Hp) as Hb. cbn [hd tail] in Hi, Hb. rewrite <- Hi, <- Hb. clear Hi Hb.
  destruct m; cbn [message_payload hd tail Message_new arrives_as]; try done.
  - rewrite <- (app_nil_r (u32_to_bytes index)), bytes_to_u32_back by done. done.
  - destruct Hok as (? & ? & ?). by rewrite three_u32_back.
  - destruct Hok as (? & ? & ? & ?). by rewrite piece_as_request.
  - destruct Hok as (? & ? & ?). by rewrite three_u32_back.
Qed.

Lemma read_n_front n front rest br : n = Z.of_nat (List.length front) ->
  read_n n {| arriving := front ++ rest; breaks := br |} = (Ok front, {| arriving := rest; breaks := br |}).
Proof.
  intros ->. unfold read_n. cbn [arriving breaks]. rewrite Nat2Z.id, length_app. destruct (Nat.leb_spec (List.length front) (List.length front + List.length rest)); [|lia].
  by rewrite take_app_length, drop_app_length.
Qed.

Lemma receive_serialized m rest br : client_message_ok m ->
  receive_message {| arriving := serialize m ++ rest; breaks := br |} = (Ok (arrives_as m), {| arriving := rest; breaks := br |}).
Proof.
  intros Hok. unfold receive_message, serialize. rewrite <- (assoc_L (++)). erewrite St_bind_ok by (by apply read_n_front).
  assert (Hlen : (0 <= Z.of_nat (List.length (message_payload m)) < 4294967296)%Z) by (destruct Hok; lia).
  rewrite <- (app_nil_r (u32_to_bytes _)), bytes_to_u32_back by apply to_u32_range. rewrite bind_lift_run.
  unfold to_u32. rewrite Z.mod_small by done. destruct (message_payload m) as [|id body] eqn:Hp.
  - cbn. destruct m; done.
  - rewrite (proj2 (Z.ltb_lt _ _)) by (cbn [List.length]; lia). erewrite St_bind_ok by (by apply read_n_front).
    unfold index. cbn [lookup list_lookup opt_unwrap]. rewrite bind_lift_run. unfold slice_from. cbn [List.length Nat.leb drop]. rewrite bind_lift_run.
    unfold lift. rewrite drop_0. by rewrite (Message_new_back id body m Hp Hok).
Qed.

(** * Properties *)

(** C40. The messages that one client writes into a stream are read one by one at the other
    end, until the stream ends: each one as it was sent, except that a piece arrives as a
    request for it whose length is what its first four bytes happen to say. *)
Theorem client_stream_read_back (ms : list Message) (br : bool) : Forall client_message_ok ms ->
  downstream (S (List.length ms)) {| arriving := mjoin (serialize <$> ms); breaks := br |} = Some ((IpcMessage ∘ arrives_as <$> ms) ++ [Downstream_Error]).
Proof.
  induction 1 as [|m ms Hm _ IH]; [done|]. cbn [List.length]. remember (S (List.length ms)) as fuel. rewrite !fmap_cons. cbn [downstream].
  change (mjoin (serialize m :: (serialize <$> ms))) with (serialize m ++ mjoin (serialize <$> ms)). rewrite receive_serialized by done. by rewrite IH.
Qed.

Lemma client_stream_read_back_witness :
  downstream 4 {| arriving := mjoin (serialize <$> [CmHave 3; CmPiece 1 16384 [0; 0; 64; 0; 9]; CmKeepAlive]%Z); breaks := false |} =
  Some [IpcMessage (CmHave 3%Z); IpcMessage (CmRequest 1 16384 16384)%Z; IpcMessage CmKeepAlive; Downstream_Error].
Proof.
  apply (client_stream_read_back [CmHave 3; CmPiece 1 16384 [0; 0; 64; 0; 9]; CmKeepAlive]%Z false).
  repeat constructor; cbn; unfold is_u32, is_u8; lia.
Defined.
