(* ===== verification/ClientDownload.v ===== *)
(** ClientDownload: [bittorrent-client-demo/src] peer/download.rs, request_queue.rs
    and request_metadata.rs, the download that all connections of the client
    share.

    The download is behind a mutex: a panic with the lock held poisons it, and
    whoever takes the lock afterwards turns for ever ([NoFuel]).  Accesses of the
    file can fail; a [Fault] says how.  Channels are numbered; a channel has
    its messages as long as its receiver is there. *)

From stdpp Require Import base list gmap.
From Stdlib Require Import ZArith Lia.
From S2P Require Import Prelude Effects Float Convert ShaHash FileSystem ClientMessage.

Definition BLOCK_SIZE : Z := 16384.

(** * request_metadata.rs and request_queue.rs *)

Record RequestMetadata := { rm_piece_index : Z; rm_block_index : Z; rm_offset : Z; rm_block_length : Z }.

Definition rm_matches (piece_index block_index : Z) (r : RequestMetadata) : bool :=
  (rm_piece_index r =? piece_index)%Z && (rm_block_index r =? block_index)%Z.

Definition rq_position (piece_index block_index : Z) (q : list RequestMetadata) : option nat := position (rm_matches piece_index block_index) q.
Definition rq_has (piece_index block_index : Z) (q : list RequestMetadata) : bool := bool_decide (is_Some (rq_position piece_index block_index q)).

Definition rq_add (piece_index block_index offset block_length : Z) (q : list RequestMetadata) : bool * list RequestMetadata :=
  if negb (rq_has piece_index block_index q) then
    (true, q ++ [{| rm_piece_index := piece_index; rm_block_index := block_index; rm_offset := offset; rm_block_length := block_length |}])
  else (false, q).

Definition rq_pop (q : list RequestMetadata) : option (RequestMetadata * list RequestMetadata) :=
  match q with r :: q' => Some (r, q') | [] => None end.

Definition rq_remove (piece_index block_index : Z) (q : list RequestMetadata) : option RequestMetadata * list RequestMetadata :=
  match rq_position piece_index block_index q with
  | Some i => (q !! i, delete i q)
  | None => (None, q)
  end.

(** * meta_info.rs: what the download uses of a torrent *)

Record ClientTorrent := {
  ct_size : option Z; ct_piece_length : Z; ct_num_pieces : option Z; ct_piece_list : option (list bytes); ct_info_hash : option bytes }.

(** * download.rs *)

Record Block := { b_index : Z; b_length : Z; b_complete : bool }.

Record Piece := { p_length : Z; p_offset : Z; p_hash : bytes; p_blocks : list Block; p_complete : bool }.

Record Download := {
  our_peer_id : bytes;
  torrent : ClientTorrent;
  d_pieces : list Piece;
  d_file : bytes;
  d_cat_complete : bool;
  d_size : Z;
  d_paces : Z;
  peer_channels : list nat;
  active_connext : gmap SocketAddr f64;
  close_connext : gset SocketAddr;
  d_channels : list (option (list IPC));
  d_poisoned : bool;
}.

Definition Download_eta (d : Download) : Download := {|
  our_peer_id := our_peer_id d; torrent := torrent d; d_pieces := d_pieces d; d_file := d_file d; d_cat_complete := d_cat_complete d;
  d_size := d_size d; d_paces := d_paces d; peer_channels := peer_channels d; active_connext := active_connext d;
  close_connext := close_connext d; d_channels := d_channels d; d_poisoned := d_poisoned d |}.
#[global] Instance up_d_pieces : FieldUpdate d_pieces := ltac:(field_update Download_eta d_pieces).
#[global] Instance up_d_file : FieldUpdate d_file := ltac:(field_update Download_eta d_file).
#[global] Instance up_d_cat_complete : FieldUpdate d_cat_complete := ltac:(field_update Download_eta d_cat_complete).
#[global] Instance up_d_size : FieldUpdate d_size := ltac:(field_update Download_eta d_size).
#[global] Instance up_d_paces : FieldUpdate d_paces := ltac:(field_update Download_eta d_paces).
#[global] Instance up_peer_channels : FieldUpdate peer_channels := ltac:(field_update Download_eta peer_channels).
#[global] Instance up_active_connext : FieldUpdate active_connext := ltac:(field_update Download_eta active_connext).
#[global] Instance up_close_connext : FieldUpdate close_connext := ltac:(field_update Download_eta close_connext).
#[global] Instance up_d_channels : FieldUpdate d_channels := ltac:(field_update Download_eta d_channels).
#[global] Instance up_d_poisoned : FieldUpdate d_poisoned := ltac:(field_update Download_eta d_poisoned).
Ltac dl_fields := cbn [update_field up_d_pieces up_d_file up_d_cat_complete up_d_size up_d_paces up_peer_channels up_active_connext up_close_connext up_d_channels up_d_poisoned
  our_peer_id torrent d_pieces d_file d_cat_complete d_size d_paces peer_channels active_connext close_connext d_channels d_poisoned] in *.

(** ** The file *)

Inductive Fault : Type := NoFault | SeekFails | WriteStops (n : nat) | ReadFails.

Definition write_all_at (f : Fault) (offset : Z) (data file : bytes) : outcome ClientError unit * bytes :=
  match f with
  | SeekFails => (Err CIoError, file)
  | WriteStops n =>
      if n <? length data then (Err CIoError, overwrite file (Z.to_nat offset) (take n data)) else (Ok tt, overwrite file (Z.to_nat offset) data)
  | _ => (Ok tt, overwrite file (Z.to_nat offset) data)
  end.

(** [file.take(length).read_to_end] *)
Definition read_at (f : Fault) (offset len : Z) (file : bytes) : outcome ClientError bytes :=
  match f with
  | SeekFails | ReadFails => Err CIoError
  | _ => Ok (take (Z.to_nat len) (drop (Z.to_nat offset) file))
  end.

Section Client.
Context `{Sha1} `{Profile}.

(** [calculate_sha1] *)
Definition calculate_sha1 (input : bytes) : bytes := sha1 input.

(** ** Pieces *)

Definition Block_new (index length : Z) : Block := {| b_index := index; b_length := length; b_complete := false |}.

(** The division of an u32 by 2^14 and its ceiling are exact in an [f64]. *)
Definition num_blocks (length : Z) : Z := ((length + (BLOCK_SIZE - 1)) / BLOCK_SIZE)%Z.

Definition Piece_new (length offset : Z) (hash : bytes) : Piece := {|
  p_length := length; p_offset := offset; p_hash := hash;
  p_blocks := (fun i => Block_new (Z.of_nat i) (if (Z.of_nat i <? num_blocks length - 1)%Z then BLOCK_SIZE else (length - BLOCK_SIZE * (num_blocks length - 1))%Z))
              <$> seq 0 (Z.to_nat (num_blocks length));
  p_complete := false |}.

Definition set_blocks (bs : list Block) (p : Piece) : Piece :=
  {| p_length := p_length p; p_offset := p_offset p; p_hash := p_hash p; p_blocks := bs; p_complete := p_complete p |}.
Definition set_complete (c : bool) (p : Piece) : Piece :=
  {| p_length := p_length p; p_offset := p_offset p; p_hash := p_hash p; p_blocks := p_blocks p; p_complete := c |}.
Definition block_done (c : bool) (b : Block) : Block := {| b_index := b_index b; b_length := b_length b; b_complete := c |}.

Definition has_all_blocks (p : Piece) : bool := forallb b_complete (p_blocks p).
Definition reset_blocks (p : Piece) : Piece := set_blocks (block_done false <$> p_blocks p) p.
Definition has_block {E} (block_index : Z) (p : Piece) : outcome E bool :=
  b ← index (p_blocks p) (Z.to_nat block_index); Ok (b_complete b).

(** [Piece::verify]; the piece is as it was when the file cannot be read. *)
Definition piece_verify (rf : Fault) (p : Piece) (file : bytes) : outcome ClientError bool * Piece :=
  match read_at rf (p_offset p) (p_length p) file with
  | Ok data => let c := bool_decide (p_hash p = calculate_sha1 data) in (Ok c, set_complete c p)
  | Err e => (Err e, p)
  | _ => (Panic, p)
  end.

(** [Piece::store] *)
Definition piece_store (wf rf : Fault) (block_index : Z) (data : bytes) (p : Piece) (file : bytes) : outcome ClientError unit * Piece * bytes :=
  let offset : outcome ClientError Z := position_in_piece ← u32_arith (block_index * BLOCK_SIZE); u64_arith (p_offset p + position_in_piece) in
  match offset with
  | Ok offset =>
      let '(written, file) := write_all_at wf offset data file in
      match written with
      | Ok _ =>
          match p_blocks p !! Z.to_nat block_index with
          | None => (Panic, p, file)
          | Some b =>
              let p := set_blocks (<[Z.to_nat block_index := block_done true b]> (p_blocks p)) p in
              if has_all_blocks p then
                let '(valid, p) := piece_verify rf p file in
                match valid with
                | Ok true => (Ok tt, p, file)
                | Ok false => (Ok tt, reset_blocks p, file)
                | Err e => (Err e, p, file)
                | _ => (Panic, p, file)
                end
              else (Ok tt, p, file)
          end
      | r => (r, p, file)
      end
  | _ => (Panic, p, file)
  end.

(** ** The download *)

Definition DM : Type -> Type := St Download ClientError.

(** [broadcast]: channels whose receiver is gone are dropped. *)
Definition broadcast (ipc : IPC) (d : Download) : Download :=
  d <| peer_channels := filter (fun c => is_Some (mjoin (d_channels d !! c))) (peer_channels d) |>
    <| d_channels := imap (fun c ch => if bool_decide (c ∈ peer_channels d) then (fun msgs => msgs ++ [ipc]) <$> ch else ch) (d_channels d) |>.

Definition d_is_complete (d : Download) : bool := forallb p_complete (d_pieces d).

Definition register_peer (c : nat) (d : Download) : Download := d <| peer_channels := peer_channels d ++ [c] |>.
Definition put_close_connext (a : SocketAddr) (d : Download) : Download := d <| close_connext := {[a]} ∪ close_connext d |>.
(** [active_peer_reset]: the listing of the active peers starts anew. *)
Definition active_peer_reset (d : Download) : Download := d <| active_connext := ∅ |>.
Definition cat_complete (d : Download) : Download := d <| d_cat_complete := true |>.

(** [Download::store]; [download_size] is the sender's total in megabytes. *)
Definition store (wf rf : Fault) (socket_addr : SocketAddr) (download_size : f64) (piece_index block_index : Z) (data : bytes) : DM unit :=
  _ ← modify (fun d => d <| active_connext := <[socket_addr := download_size]> (active_connext d) |>);
  d ← get;
  piece ← lift (index (d_pieces d) (Z.to_nat piece_index));
  here ← (if p_complete piece then mret true else lift (has_block block_index piece));
  if here : bool then mret tt else
  let '(r, piece, file) := piece_store wf rf block_index data piece (d_file d) in
  _ ← modify (fun d => d <| d_pieces := <[Z.to_nat piece_index := piece]> (d_pieces d) |> <| d_file := file |>);
  _ ← lift r;
  size ← lift (u64_arith (d_size d + Z.of_nat (length data)));
  _ ← modify (fun d => broadcast (BlockComplete piece_index block_index) (d <| d_size := size |>));
  _ ← when (p_complete piece) (
    _ ← modify (broadcast (PieceComplete piece_index));
    paces ← lift (u64_arith (d_paces d + 1));
    modify (fun d => d <| d_paces := paces |>));
  d ← get;
  when (d_is_complete d) (modify (broadcast DownloadComplete)).

Definition retrive_data (rf : Fault) (request : RequestMetadata) : DM bytes :=
  d ← get;
  piece ← lift (index (d_pieces d) (Z.to_nat (rm_piece_index request)));
  if p_complete piece then
    offset ← lift (u64_arith (p_offset piece + rm_offset request));
    lift (read_at rf offset (rm_block_length request) (d_file d))
  else fail CMissingPieceData.

(** [have_pieces]: how many pieces there are already, and which are complete. *)
Definition have_pieces : DM (nat * list bool) :=
  d ← get;
  let have := p_complete <$> d_pieces d in
  n ← lift (opt_unwrap (ct_num_pieces (torrent d)));
  mret (length have, have ++ replicate (Z.to_nat n - length have) false).

Definition incomplete_blocks_for_piece (piece_index : Z) : DM (list (Z * Z)) :=
  d ← get;
  piece ← lift (index (d_pieces d) (Z.to_nat piece_index));
  mret (if negb (p_complete piece) then (fun b => (b_index b, b_length b)) <$> filter (fun b => negb (b_complete b)) (p_blocks piece) else []).

(** [loop { if let Ok(download) = mutex.lock() { ..; break; } }] *)
Definition locked {A} (m : DM A) : DM A := fun d =>
  if d_poisoned d then (NoFuel, d) else
  match m d with
  | (Panic, d') => (Panic, d' <| d_poisoned := true |>)
  | r => r
  end.
(** ** The thread that makes the pieces *)

(** One turn of the loop of [pieces_spilt]; the torrent was cloned before it. *)
Definition spilt_piece (rf : Fault) (i : nat) : DM unit :=
  d ← get;
  file_length ← lift (opt_unwrap (ct_size (torrent d)));
  num_pieces ← lift (opt_unwrap (ct_num_pieces (torrent d)));
  piece_list ← lift (opt_unwrap (ct_piece_list (torrent d)));
  offset ← lift (u64_arith (Z.of_nat i * ct_piece_length (torrent d)));
  length ← (if (Z.of_nat i <? num_pieces - 1)%Z then mret (ct_piece_length (torrent d)) else lift (u64_arith (file_length - offset)));
  xc ← lift (index piece_list i);
  locked (
    d ← get;
    let '(r, piece) := piece_verify rf (Piece_new (to_u32 length) offset xc) (d_file d) in
    _ ← lift_unwrap r;
    modify (fun d => d <| d_pieces := d_pieces d ++ [piece] |>)).

(** The end of [pieces_spilt]. *)
Definition spilt_done : DM unit := locked (modify (fun d => broadcast CatComplete (cat_complete d))).

End Client.

(** [Download::new] *)
Definition Download_new (our_peer_id : bytes) (torrent : ClientTorrent) (file : bytes) : Download := {|
  our_peer_id := our_peer_id; torrent := torrent; d_pieces := []; d_file := file; d_cat_complete := false; d_size := 0; d_paces := 0;
  peer_channels := []; active_connext := ∅; close_connext := ∅; d_channels := []; d_poisoned := false |}.
