(* ===== verification/ClientDownloadCorrect.v ===== *)
(** ClientDownloadCorrect: what the demo client's download promises
    ([ClientDownload]): complete pieces are true of the file, and blocks from honest
    peers complete it. *)

From stdpp Require Import base list gmap.
From Stdlib Require Import ZArith Lia.
From S2P Require Import Prelude Effects Float Convert ShaHash FileSystem FileSystemCorrect ClientMessage ClientDownload.
Local Open Scope Z_scope.

(** The bytes of a range of a file. *)
Definition seg (f : bytes) (o l : Z) : bytes := take (Z.to_nat l) (drop (Z.to_nat o) f).

(** Two files have the same bytes in a range. *)
Definition agree (f g : bytes) (o l : Z) : Prop := forall k : nat, o <= Z.of_nat k < o + l -> f !! k = g !! k.

Lemma seg_lookup f o l (k : nat) : 0 <= o -> Z.of_nat k < l -> seg f o l !! k = f !! (Z.to_nat o + k)%nat.
Proof. intros Ho Hk. unfold seg. by rewrite lookup_take_lt, lookup_drop by lia. Qed.

Lemma agree_seg f g o l : 0 <= o -> agree f g o l -> seg f o l = seg g o l.
Proof.
  intros Ho Ha. apply list_eq. intros k. destruct (decide (Z.of_nat k < l)) as [Hk|Hk].
  - rewrite !seg_lookup by done. apply Ha. lia.
  - unfold seg. by rewrite !lookup_take_ge by lia.
Qed.

Lemma agree_sub f g o l o' l' : agree f g o l -> o <= o' -> o' + l' <= o + l -> agree f g o' l'.
Proof. intros Ha H1 H2 k Hk. apply Ha. lia. Qed.
Lemma agree_trans f g h o l : agree f g o l -> agree g h o l -> agree f h o l.
Proof. intros H1 H2 k Hk. by rewrite H1, H2. Qed.

Lemma length_seg f o l : 0 <= o -> 0 <= l -> o + l <= Z.of_nat (length f) -> Z.of_nat (length (seg f o l)) = l.
Proof. intros. unfold seg. rewrite length_take, length_drop. lia. Qed.
(** A range that begins with what another file has there. *)
Lemma seg_prefix f o l : seg f o (Z.of_nat (length (seg f o l))) = seg f o l.
Proof.
  unfold seg. rewrite Nat2Z.id, length_take. set (x := drop _ f).
  destruct (Nat.min_spec (Z.to_nat l) (length x)) as [[_ ->]|[Hle ->]]; [done|]. by rewrite !take_ge.
Qed.
Lemma seg_full f o l : 0 <= o -> 0 < l -> Z.of_nat (length (seg f o l)) = l -> o + l <= Z.of_nat (length f).
Proof. intros Ho Hl. unfold seg. rewrite length_take, length_drop. lia. Qed.

(** Writing changes nothing elsewhere that was there, and puts the data. *)
Lemma overwrite_elsewhere f o data o' l' : 0 <= o -> o' + l' <= Z.of_nat (length f) -> (o' + l' <= o \/ o + Z.of_nat (length data) <= o') ->
  agree (overwrite f (Z.to_nat o) data) f o' l'.
Proof.
  intros Ho Hl Hd k Hk. rewrite lookup_overwrite, bool_decide_eq_false_2 by lia. rewrite bool_decide_eq_false_2; [done|]. lia.
Qed.
Lemma overwrite_there f o data (k : nat) : 0 <= o -> o <= Z.of_nat k < o + Z.of_nat (length data) -> overwrite f (Z.to_nat o) data !! k = data !! (k - Z.to_nat o)%nat.
Proof. intros Ho Hk. by rewrite lookup_overwrite, bool_decide_eq_true_2 by lia. Qed.
Lemma overwrite_longer f o data : (length f <= length (overwrite f o data))%nat.
Proof. rewrite length_overwrite. case_bool_decide; lia. Qed.

(** * Blocks of a piece *)

Definition block_len (len j : Z) : Z := if j <? num_blocks len - 1 then BLOCK_SIZE else len - BLOCK_SIZE * (num_blocks len - 1).

Lemma num_blocks_pos len : 0 < len -> 0 < num_blocks len.
Proof. unfold num_blocks, BLOCK_SIZE. intros. Z.to_euclidean_division_equations. lia. Qed.
Lemma block_end len j : 0 < len -> 0 <= j < num_blocks len ->
  0 < block_len len j <= BLOCK_SIZE /\ j * BLOCK_SIZE + block_len len j <= len /\ (j < num_blocks len - 1 -> block_len len j = BLOCK_SIZE) /\
  (j = num_blocks len - 1 -> j * BLOCK_SIZE + block_len len j = len).
Proof.
  unfold block_len, num_blocks, BLOCK_SIZE. intros Hl Hj. destruct (Z.ltb_spec j ((len + (16384 - 1)) / 16384 - 1)); Z.to_euclidean_division_equations; lia.
Qed.
(** Every byte is in a block. *)
Lemma block_of len k : 0 <= k < len -> 0 <= k / BLOCK_SIZE < num_blocks len /\ k / BLOCK_SIZE * BLOCK_SIZE <= k < k / BLOCK_SIZE * BLOCK_SIZE + block_len len (k / BLOCK_SIZE).
Proof.
  intros Hk. assert (Hj : 0 <= k / BLOCK_SIZE < num_blocks len) by (unfold num_blocks, BLOCK_SIZE; Z.to_euclidean_division_equations; lia).
  split; [done|]. destruct (block_end len (k / BLOCK_SIZE) ltac:(lia) Hj) as (_ & _ & H1 & H2).
  destruct (decide (k / BLOCK_SIZE < num_blocks len - 1)) as [Hlt|]; [rewrite H1 by done|specialize (H2 ltac:(lia))]; unfold BLOCK_SIZE in *; Z.to_euclidean_division_equations; lia.
Qed.

(** Pieces agree when their blocks do. *)
Lemma blocks_agree f g o len : (forall j, 0 <= j < num_blocks len -> agree f g (o + j * BLOCK_SIZE) (block_len len j)) -> agree f g o len.
Proof. intros Hb k Hk. destruct (block_of len (Z.of_nat k - o) ltac:(lia)) as [Hj Hr]. apply (Hb _ Hj). lia. Qed.

(** * A torrent that fits together *)

Record torrent_ok (t : ClientTorrent) (size plen : Z) (hs : list bytes) : Prop := {
  tk_size : ct_size t = Some size;
  tk_plen : ct_piece_length t = plen;
  tk_num : ct_num_pieces t = Some (Z.of_nat (length hs));
  tk_list : ct_piece_list t = Some hs;
  tk_range : 0 < plen < 4294967296 /\ size < 18446744073709551616;
  tk_cut : (Z.of_nat (length hs) - 1) * plen < size <= Z.of_nat (length hs) * plen;
}.

Section Torrent.
Context `{Sha1} `{Profile} {t : ClientTorrent} {size plen : Z} {hs : list bytes}.
Hypothesis tok : torrent_ok t size plen hs.

Definition piece_len (i : nat) : Z := if Z.of_nat i <? Z.of_nat (length hs) - 1 then plen else size - Z.of_nat i * plen.

Lemma piece_len_range i : (i < length hs)%nat -> 0 < piece_len i <= plen /\ 0 <= Z.of_nat i * plen /\ Z.of_nat i * plen + piece_len i <= size /\
  (forall i', (i < i' < length hs)%nat -> Z.of_nat i * plen + piece_len i <= Z.of_nat i' * plen).
Proof.
  intros Hi. destruct (tk_range _ _ _ _ tok) as [Hp Hs], (tk_cut _ _ _ _ tok) as [Hc1 Hc2]. unfold piece_len.
  destruct (Z.ltb_spec (Z.of_nat i) (Z.of_nat (length hs) - 1)).
  - split_and!; [lia|lia|nia|nia|intros; nia].
  - assert (Z.of_nat i = Z.of_nat (length hs) - 1) as -> by lia. split_and!; [lia|lia|nia|lia|intros; lia].
Qed.

(** A piece of the torrent, whatever is complete of it. *)
Record piece_of (i : nat) (p : Piece) : Prop := {
  po_offset : p_offset p = Z.of_nat i * plen;
  po_length : p_length p = piece_len i;
  po_hash : hs !! i = Some (p_hash p);
  po_count : Z.of_nat (length (p_blocks p)) = num_blocks (piece_len i);
  po_blocks : forall (j : nat) b, p_blocks p !! j = Some b -> b_index b = Z.of_nat j /\ b_length b = block_len (piece_len i) (Z.of_nat j);
}.

(** The piece has passed its check on all that one of the contents [ever] of the file had
    in its place, and this is in its place still. *)
Definition piece_true (ever : bytes -> Prop) (file : bytes) (p : Piece) : Prop :=
  p_complete p = true -> exists f, ever f /\ let data := seg f (p_offset p) (p_length p) in
    calculate_sha1 data = p_hash p /\ seg file (p_offset p) (Z.of_nat (length data)) = data.

Record download_true (ever : bytes -> Prop) (d : Download) : Prop := {
  dt_torrent : torrent d = t;
  dt_count : (length (d_pieces d) <= length hs)%nat;
  dt_pieces : forall (i : nat) p, d_pieces d !! i = Some p -> piece_of i p /\ piece_true ever (d_file d) p;
}.

Lemma piece_true_mono (ever ever' : bytes -> Prop) file p : (forall f, ever f -> ever' f) -> piece_true ever file p -> piece_true ever' file p.
Proof. intros Hsub Ht Hc. destruct (Ht Hc) as (f & Hf & ?). exists f. auto. Qed.
Lemma download_true_mono (ever ever' : bytes -> Prop) d : (forall f, ever f -> ever' f) -> download_true ever d -> download_true ever' d.
Proof. intros Hsub [H1 H2 H3]. split; [done|done|]. intros i p Hp. destruct (H3 i p Hp). split; [done|]. by eapply piece_true_mono. Qed.

Lemma piece_new_of (i : nat) h : (i < length hs)%nat -> hs !! i = Some h -> piece_of i (Piece_new (piece_len i) (Z.of_nat i * plen) h).
Proof.
  intros Hi Hh. pose proof (num_blocks_pos (piece_len i) ltac:(apply piece_len_range; lia)) as Hn. split; try done.
  - cbn. rewrite length_fmap, length_seq. lia.
  - intros j b Hb. cbn in Hb. apply list_lookup_fmap_Some in Hb as (k & -> & Hk). apply lookup_seq in Hk as [-> _]. done.
Qed.

Section Ever.
(** The contents that the file has had. *)
Variable ever : bytes -> Prop.

Lemma verify_true i p rf file r p' : (i < length hs)%nat -> piece_of i p -> (p_complete p = true -> piece_true ever file p) ->
  piece_verify rf p file = (r, p') ->
  piece_of i p' /\ (ever file -> piece_true ever file p') /\ ((exists e, r = Err e /\ p' = p) \/ exists c, r = Ok c /\ p' = set_complete c p).
Proof.
  intros Hi Hp Ht Hv. unfold piece_verify in Hv.
  assert (Hr : read_at rf (p_offset p) (p_length p) file = Err CIoError \/ read_at rf (p_offset p) (p_length p) file = Ok (seg file (p_offset p) (p_length p))).
  { destruct rf; [right|left|right|left]; done. }
  destruct Hr as [Hr|Hr]; rewrite Hr in Hv; injection Hv as <- <-.
  - split_and!; [done|intros _ Hc; by apply Ht|]. left. by exists CIoError.
  - split_and!; [by destruct Hp; split| |].
    + intros He Hc. change (bool_decide (p_hash p = calculate_sha1 (seg file (p_offset p) (p_length p))) = true) in Hc.
      apply bool_decide_eq_true in Hc. exists file. split; [done|]. split; [exact (eq_sym Hc)|]. apply seg_prefix.
    + right. by eexists.
Qed.

(** The data fits the block that it is said to be. *)
Definition fits (i : nat) (block_index : Z) (data : bytes) : Prop :=
  0 <= block_index < num_blocks (piece_len i) /\ block_index * BLOCK_SIZE + Z.of_nat (length data) <= piece_len i.

(** A write in one piece leaves what is complete of the others. *)
Lemma written_elsewhere file i o data i' p' : (i < length hs)%nat -> (i' < length hs)%nat -> i <> i' -> piece_of i' p' ->
  Z.of_nat i * plen <= o -> o + Z.of_nat (length data) <= Z.of_nat i * plen + piece_len i -> piece_true ever file p' ->
  piece_true ever (overwrite file (Z.to_nat o) data) p'.
Proof.
  intros Hi Hi' Hne Hp' Ho1 Ho2 Ht Hc. destruct (Ht Hc) as (f & Hf & Hs & Hl). exists f. split; [done|]. split; [done|]. set (n := length (seg f (p_offset p') (p_length p'))) in *.
  destruct (piece_len_range i Hi) as (Hl1 & Hl2 & _ & Hl3), (piece_len_range i' Hi') as (Hk1 & Hk2 & _ & Hk3).
  destruct (decide (n = 0%nat)) as [E|Hn]; [rewrite <- Hl, E; reflexivity|].
  assert (Hin : p_offset p' + Z.of_nat n <= Z.of_nat (length file)).
  { apply seg_full; [rewrite (po_offset _ _ Hp'); lia|lia|]. by rewrite Hl. }
  assert (Hle : Z.of_nat n <= piece_len i') by (subst n; unfold seg; rewrite length_take, (po_length _ _ Hp'); lia).
  rewrite <- Hl. apply agree_seg; [rewrite (po_offset _ _ Hp'); lia|].
  apply overwrite_elsewhere; [lia|done|]. rewrite (po_offset _ _ Hp') in *.
  destruct (decide (i < i')%nat); [specialize (Hl3 i' ltac:(lia))|specialize (Hk3 i ltac:(lia))]; lia.
Qed.

Lemma blocks_updated i p (j : nat) b c : piece_of i p -> p_blocks p !! j = Some b -> piece_of i (set_blocks (<[j := block_done c b]> (p_blocks p)) p).
Proof.
  intros [H1 H2 H3 H4 H5] Hb. split; try done; cbn [set_blocks p_blocks].
  - by rewrite length_insert.
  - intros k b'. rewrite list_lookup_insert_Some. intros [(<- & <- & _)|[_ Hk]]; [by apply (H5 j b)|by apply H5].
Qed.
Lemma blocks_reset i p : piece_of i p -> piece_of i (reset_blocks p).
Proof.
  intros [H1 H2 H3 H4 H5]. split; try done; cbn [reset_blocks set_blocks p_blocks].
  - by rewrite length_fmap.
  - intros k b' Hk. apply list_lookup_fmap_Some in Hk as (b & -> & Hb). by apply (H5 k b).
Qed.

(** What a store does to an incomplete piece and to the file. *)
Lemma piece_store_spec wf rf i p file bi data : (i < length hs)%nat -> piece_of i p -> p_complete p = false -> fits i bi data ->
  let '(r, p', file') := piece_store wf rf bi data p file in
  returns r /\ piece_of i p' /\ (ever file' -> piece_true ever file' p') /\
  exists written, (length written <= length data)%nat /\ file' = overwrite file (Z.to_nat (Z.of_nat i * plen + bi * BLOCK_SIZE)) written.
Proof.
  intros Hi Hp Hc [Hb Hf]. destruct (piece_len_range i Hi) as (Hl & Ho & Hs & _), (tk_range _ _ _ _ tok) as [Hpl Hsz].
  assert (Hbb : 0 <= bi * BLOCK_SIZE) by (unfold BLOCK_SIZE; lia).
  unfold piece_store. rewrite (u32_arith_in (bi * BLOCK_SIZE)) by (unfold is_u32, BLOCK_SIZE in *; lia). cbn [mbind outcome_bind].
  rewrite u64_arith_in by (unfold is_u64; rewrite (po_offset _ _ Hp); lia). rewrite (po_offset _ _ Hp).
  assert (Hw : exists w r, write_all_at wf (Z.of_nat i * plen + bi * BLOCK_SIZE) data file = (r, overwrite file (Z.to_nat (Z.of_nat i * plen + bi * BLOCK_SIZE)) w) /\
    (length w <= length data)%nat /\ (r = Ok tt \/ r = Err CIoError)).
  { unfold write_all_at. destruct wf as [| |n|].
    1,4: by exists data; eexists; split; [reflexivity|split; [lia|by left]].
    - exists []; eexists; split; [reflexivity|split; [cbn; lia|by right]].
    - destruct (n <? length data)%nat; [exists (take n data)|exists data]; eexists; (split; [reflexivity|]); [split; [rewrite length_take; lia|by right]|split; [lia|by left]]. }
  destruct Hw as (w & r & -> & Hlw & Hr). set (file' := overwrite file _ w).
  assert (Hnot : forall q, p_complete q = false -> ever file' -> piece_true ever file' q) by (intros q Hq _ Hq'; congruence).
  destruct Hr as [->| ->]; [|by split_and!; [..|exists w]; auto].
  destruct (lookup_lt_is_Some_2 (p_blocks p) (Z.to_nat bi)) as [b Hbk]; [pose proof (po_count _ _ Hp); lia|]. rewrite Hbk.
  pose proof (blocks_updated i p _ b true Hp Hbk) as Hp1. set (p1 := set_blocks _ p) in *. assert (Hc1 : p_complete p1 = false) by done.
  destruct (has_all_blocks p1); [|by split_and!; [..|exists w]; auto].
  destruct (piece_verify rf p1 file') as [v p2] eqn:Hv. destruct (verify_true i p1 rf file' v p2 Hi Hp1 ltac:(intros Hq; congruence) Hv) as (Hp2 & Ht2 & Hcase).
  destruct Hcase as [(e & -> & ->)|(c & -> & Ep2)]; [by split_and!; [..|exists w]; auto|].
  destruct c; [by split_and!; [..|exists w]; auto|]. split_and!; [done|by apply blocks_reset| |by exists w]. apply Hnot. by rewrite Ep2.
Qed.

(** * The download *)

(** Whatever else happens leaves the pieces and the file alone. *)
Definition untouched (d d' : Download) : Prop := torrent d' = torrent d /\ d_pieces d' = d_pieces d /\ d_file d' = d_file d.

Lemma untouched_true d d' : untouched d d' -> download_true ever d -> download_true ever d'.
Proof. intros (E1 & E2 & E3) [H1 H2 H3]. split; rewrite ?E1, ?E2, ?E3; auto. Qed.

Lemma locked_state {A} (m : DM A) d : untouched (if d_poisoned d then d else (m d).2) (locked m d).2.
Proof. unfold locked. destruct (d_poisoned d); [done|]. by destruct (m d) as [[] ?]. Qed.

(** The rest of [store] once the piece was written. *)
Lemma store_state wf rf a sz pi bi data d : exists r, (store wf rf a sz pi bi data d).1 = r /\
  (untouched d (store wf rf a sz pi bi data d).2 \/
   exists p, d_pieces d !! Z.to_nat pi = Some p /\ p_complete p = false /\ is_Some (p_blocks p !! Z.to_nat bi) /\
     let '(_, p', file') := piece_store wf rf bi data p (d_file d) in
     untouched (d <| d_pieces := <[Z.to_nat pi := p']> (d_pieces d) |> <| d_file := file' |>) (store wf rf a sz pi bi data d).2).
Proof.
  eexists. split; [reflexivity|]. unfold store, get, modify, lift, mbind, St_bind. dl_fields. unfold index at 1 2. destruct (d_pieces d !! Z.to_nat pi) as [p|] eqn:Hp; cbn [opt_unwrap]; [|by left].
  destruct (p_complete p) eqn:Hc; [by left|]. unfold has_block, index. destruct (p_blocks p !! Z.to_nat bi) as [b|] eqn:Hb; cbn [opt_unwrap mbind outcome_bind]; [|by left].
  destruct (b_complete b); [by left|]. right. exists p. split_and!; [done|done|by eexists|].
  destruct (piece_store wf rf bi data p (d_file d)) as [[r p'] file'] eqn:E. dl_fields.
  destruct r as [[]|e| |]; [|done..]. destruct (u64_arith _) as [z| | |]; [|done..]. cbn [broadcast]. dl_fields.
  destruct (p_complete p'); cbn [when]; unfold mret, St_ret.
  - destruct (u64_arith _) as [z'| | |]; [|done..]. dl_fields. by destruct (d_is_complete _).
  - dl_fields. by destruct (d_is_complete _).
Qed.

(** The data fits, if there is such a piece. *)
Definition store_fits (pi bi : Z) (data : bytes) : Prop :=
  0 <= pi /\ 0 <= bi /\ ((Z.to_nat pi < length hs)%nat -> bi < num_blocks (piece_len (Z.to_nat pi)) -> fits (Z.to_nat pi) bi data).

Lemma store_true wf rf a sz pi bi data d : store_fits pi bi data -> ever (d_file (store wf rf a sz pi bi data d).2) -> download_true ever d ->
  download_true ever (store wf rf a sz pi bi data d).2.
Proof.
  intros (Hpi & Hbi & Hfit) He [H1 H2 H3]. destruct (store_state wf rf a sz pi bi data d) as (r & _ & [Hu|(p & Hp & Hc & Hb & Hs)]); [by eapply untouched_true|].
  destruct (H3 _ _ Hp) as [Hpo _]. assert (Hi : (Z.to_nat pi < length hs)%nat) by (apply lookup_lt_Some in Hp; lia).
  destruct (Hfit Hi ltac:(rewrite <- (po_count _ _ Hpo); destruct Hb as [b Hb]; apply lookup_lt_Some in Hb; lia)) as [Hb1 Hb2].
  pose proof (piece_store_spec wf rf _ p (d_file d) bi data Hi Hpo Hc (conj Hb1 Hb2)) as Hspec.
  destruct (piece_store wf rf bi data p (d_file d)) as [[r' p'] file']. destruct Hspec as (_ & Hpo' & Ht' & w & Hw & ->).
  pose proof (proj2 (proj2 Hs)) as Ef. dl_fields. rewrite Ef in He. specialize (Ht' He).
  eapply untouched_true; [exact Hs|]. split; dl_fields; [done|by rewrite length_insert|].
  intros i q. rewrite list_lookup_insert_Some. intros [(<- & <- & _)|[Hne Hq]]; [done|]. destruct (H3 _ _ Hq) as [Hqo Hqt]. split; [done|].
  assert (Hil : (i < length hs)%nat) by (apply lookup_lt_Some in Hq; lia). assert (0 <= bi * BLOCK_SIZE) by (unfold BLOCK_SIZE; lia).
  apply (written_elsewhere (d_file d) (Z.to_nat pi) _ w i); [done..|lia|lia|done].
Qed.

(** A turn of the thread that makes the pieces. *)
Lemma spilt_spec rf d : download_true ever d -> (length (d_pieces d) < length hs)%nat -> d_poisoned d = false ->
  exists h p, hs !! length (d_pieces d) = Some h /\ p = (piece_verify rf (Piece_new (piece_len (length (d_pieces d))) (Z.of_nat (length (d_pieces d)) * plen) h) (d_file d)) /\
    spilt_piece rf (length (d_pieces d)) d =
    match p.1 with Ok _ => (Ok tt, d <| d_pieces := d_pieces d ++ [p.2] |>) | NoFuel => (NoFuel, d) | _ => (Panic, d <| d_poisoned := true |>) end.
Proof.
  intros [H1 H2 H3] Hi Hpoison. destruct (lookup_lt_is_Some_2 hs _ Hi) as [h Hh]. eexists h, _. split; [done|]. split; [reflexivity|].
  destruct (piece_len_range _ Hi) as (Hl & Ho & Hs & _), (tk_range _ _ _ _ tok) as [Hpl Hsz]. unfold spilt_piece, get, lift, mbind, St_bind.
  rewrite H1, (tk_size _ _ _ _ tok), (tk_num _ _ _ _ tok), (tk_list _ _ _ _ tok), (tk_plen _ _ _ _ tok). cbn [opt_unwrap].
  rewrite u64_arith_in by (unfold is_u64; lia).
  assert (Elen : forall k : Z -> DM unit, (match (if Z.of_nat (length (d_pieces d)) <? Z.of_nat (length hs) - 1 then mret plen else lift (u64_arith (size - Z.of_nat (length (d_pieces d)) * plen))) d with
    | (Ok x, d') => k x d' | (Err e, d') => (Err e, d') | (Panic, d') => (Panic, d') | (NoFuel, d') => (NoFuel, d') end) = k (piece_len (length (d_pieces d))) d).
  { intros k. unfold piece_len in *. destruct (_ <? _); [done|]. unfold lift. by rewrite u64_arith_in by (unfold is_u64; lia). }
  unfold lift in Elen. rewrite Elen. unfold index. rewrite Hh. cbn [opt_unwrap]. unfold to_u32. rewrite Z.mod_small by lia. unfold locked. rewrite Hpoison.
  destruct (piece_verify rf _ (d_file d)) as [r q]. cbn [fst snd]. unfold lift_unwrap, lift, modify. by destruct r.
Qed.

Lemma spilt_poisoned rf i d : d_poisoned d = true -> (spilt_piece rf i d).2 = d.
Proof.
  intros Hp. unfold spilt_piece, get, lift, mret, St_ret, mbind, St_bind, locked. repeat (case_match; simplify_eq/=); congruence || done.
Qed.

Lemma spilt_true rf d : ever (d_file d) -> download_true ever d -> (length (d_pieces d) < length hs)%nat ->
  download_true ever (spilt_piece rf (length (d_pieces d)) d).2.
Proof.
  intros He Hd Hi. destruct (d_poisoned d) eqn:Hp.
  { by rewrite spilt_poisoned. }
  destruct (spilt_spec rf d Hd Hi Hp) as (h & p & Hh & Ep & ->). destruct p as [r q]. symmetry in Ep. pose proof Hd as [H1 H2 H3].
  destruct (verify_true _ _ rf (d_file d) r q Hi (piece_new_of _ h Hi Hh) ltac:(done) Ep) as (Hq & Ht & _). cbn [fst snd].
  specialize (Ht He).
  assert (Hok : download_true ever (d <| d_pieces := d_pieces d ++ [q] |>)).
  { split; dl_fields; [done|rewrite length_app; cbn; lia|]. intros i p Hi'. apply lookup_app_Some in Hi' as [?|[Hge Hq']]; [by apply H3|].
    destruct (i - length (d_pieces d))%nat as [|x] eqn:Hx; [|done]. injection Hq' as <-. replace i with (length (d_pieces d)) by lia. done. }
  destruct r; try (by eapply untouched_true; [|exact Hd]); done.
Qed.

End Ever.

(** Everything that happens to the download: its pieces are made in order, stores come
    from any connection, and the rest leaves pieces and file alone.  The contents that
    the file has had are kept. *)
Inductive download_runs : Download -> list bytes -> Prop :=
  | runs_new me file : download_runs (Download_new me t file) [file]
  | runs_spilt d files rf : download_runs d files -> (length (d_pieces d) < length hs)%nat ->
      download_runs (spilt_piece rf (length (d_pieces d)) d).2 files
  | runs_store d files wf rf a sz pi bi data : download_runs d files -> store_fits pi bi data ->
      let d' := (locked (store wf rf a sz pi bi data) d).2 in download_runs d' (d_file d' :: files)
  | runs_other d files d' : download_runs d files -> untouched d d' -> download_runs d' files.

Lemma spilt_file rf i d : d_file (spilt_piece rf i d).2 = d_file d.
Proof.
  unfold spilt_piece, get, lift, mret, St_ret, mbind, St_bind, locked, lift_unwrap, lift, modify. by repeat (case_match; simplify_eq/=).
Qed.

Lemma download_runs_true d files : download_runs d files -> d_file d ∈ files /\ download_true (.∈ files) d.
Proof.
  induction 1 as [me file|d files rf _ [He IH] Hi|d files wf rf a sz pi bi data _ [He IH] Hf d'|d files d' _ [He IH] Hu].
  - split; [by left|]. split; [done|cbn; lia|]. intros i p Hp. done.
  - split; [by rewrite spilt_file|]. by apply spilt_true.
  - split; [by left|]. pose proof (locked_state (store wf rf a sz pi bi data) d) as Hs. fold d' in Hs. pose proof (proj2 (proj2 Hs)) as Ef.
    eapply untouched_true; [exact Hs|]. assert (IH' : download_true (.∈ d_file d' :: files) d).
    { eapply download_true_mono; [|exact IH]. intros f Hin. by right. }
    destruct (d_poisoned d); [done|]. apply store_true; [done| |done]. rewrite <- Ef. by left.
  - split; [by rewrite (proj2 (proj2 Hu))|]. by eapply untouched_true.
Qed.

(** * Honest peers *)

Section Honest.
Context {T : bytes}.
Hypothesis size_T : Z.of_nat (length T) = size.
Hypothesis hashes : forall i : nat, (i < length hs)%nat -> hs !! i = Some (calculate_sha1 (seg T (Z.of_nat i * plen) (piece_len i))).

Definition block_start (i j : nat) : Z := Z.of_nat i * plen + Z.of_nat j * BLOCK_SIZE.
Definition block_data (i j : nat) : bytes := seg T (block_start i j) (block_len (piece_len i) (Z.of_nat j)).

Lemma honest_write f o l o' l' : 0 <= o -> 0 <= o' -> o' + l' <= Z.of_nat (length T) -> agree f T o' l' -> agree (overwrite f (Z.to_nat o) (seg T o l)) T o' l'.
Proof.
  intros Ho Ho' Hl Ha k Hk. rewrite lookup_overwrite. case_bool_decide as Hin.
  - assert (Hlen : Z.of_nat (length (seg T o l)) <= l) by (unfold seg in *; rewrite length_take in *; lia).
    rewrite seg_lookup by lia. f_equal. lia.
  - rewrite bool_decide_eq_false_2; [by apply Ha|]. intros [Hgap _]. assert (Hs : is_Some (T !! k)) by (apply lookup_lt_is_Some; lia).
    rewrite <- Ha in Hs by done. apply lookup_lt_is_Some in Hs. lia.
Qed.
Lemma honest_written f o l : 0 <= o -> 0 <= l -> o + l <= Z.of_nat (length T) -> agree (overwrite f (Z.to_nat o) (seg T o l)) T o l.
Proof.
  intros Ho Hl Hlen k Hk. pose proof (length_seg T o l Ho Hl Hlen). rewrite overwrite_there by lia. rewrite seg_lookup by lia. f_equal. lia.
Qed.

(** What is counted of an incomplete piece is there, and something is missing. *)
Record coming (file : bytes) (i : nat) (p : Piece) : Prop := {
  cm_there : forall (j : nat) b, p_blocks p !! j = Some b -> b_complete b = true -> agree file T (block_start i j) (block_len (piece_len i) (Z.of_nat j));
  cm_missing : has_all_blocks p = false;
}.

Lemma block_in_file i j : (i < length hs)%nat -> Z.of_nat j < num_blocks (piece_len i) ->
  0 <= block_start i j /\ 0 < block_len (piece_len i) (Z.of_nat j) /\ block_start i j + block_len (piece_len i) (Z.of_nat j) <= Z.of_nat (length T) /\
  fits i (Z.of_nat j) (block_data i j).
Proof.
  intros Hi Hj. destruct (piece_len_range i Hi) as (Hl & Ho & Hs & _). destruct (block_end (piece_len i) (Z.of_nat j) ltac:(lia) ltac:(lia)) as (Hb1 & Hb2 & _).
  assert (0 <= Z.of_nat j * BLOCK_SIZE) by (unfold BLOCK_SIZE; lia). unfold block_start, fits. split_and!; [lia..|].
  unfold block_data, seg. rewrite length_take. lia.
Qed.

Lemma coming_written file o l i p : 0 <= o -> (i < length hs)%nat -> piece_of i p -> coming file i p -> coming (overwrite file (Z.to_nat o) (seg T o l)) i p.
Proof.
  intros Ho Hi Hpo [H1 H2]. split; [|done]. intros j b Hb Hc. assert (Hj : Z.of_nat j < num_blocks (piece_len i)) by (rewrite <- (po_count _ _ Hpo); apply lookup_lt_Some in Hb; lia).
  destruct (block_in_file i j Hi Hj) as (? & ? & ? & _). apply honest_write; [lia..|]. by apply (H1 j b).
Qed.

(** A block of an honest peer is counted, and the last one completes the piece. *)
Lemma honest_piece_store i p file j b : (i < length hs)%nat -> piece_of i p -> p_complete p = false -> coming file i p -> p_blocks p !! j = Some b ->
  exists p', piece_store NoFault NoFault (Z.of_nat j) (block_data i j) p file = (Ok tt, p', overwrite file (Z.to_nat (block_start i j)) (block_data i j)) /\
    (p_complete p' = true \/ p_complete p' = false /\ coming (overwrite file (Z.to_nat (block_start i j)) (block_data i j)) i p' /\ p_blocks p' = <[j := block_done true b]> (p_blocks p)).
Proof.
  intros Hi Hpo Hc Hcm Hb. assert (Hj : Z.of_nat j < num_blocks (piece_len i)) by (rewrite <- (po_count _ _ Hpo); apply lookup_lt_Some in Hb; lia).
  destruct (block_in_file i j Hi Hj) as (Hs1 & Hs2 & Hs3 & [_ Hfit]), (piece_len_range i Hi) as (Hl & Ho & Hsz & _), (tk_range _ _ _ _ tok) as [Hpl Hsize].
  assert (0 <= Z.of_nat j * BLOCK_SIZE) by (unfold BLOCK_SIZE; lia).
  unfold piece_store. rewrite u32_arith_in by (unfold is_u32; lia). cbn [mbind outcome_bind]. rewrite u64_arith_in by (unfold is_u64; rewrite (po_offset _ _ Hpo); lia).
  rewrite (po_offset _ _ Hpo). fold (block_start i j). cbn [write_all_at]. rewrite Nat2Z.id, Hb. set (file' := overwrite file _ _). set (p1 := set_blocks _ p).
  assert (Hthere : forall (k : nat) b', p_blocks p1 !! k = Some b' -> b_complete b' = true -> agree file' T (block_start i k) (block_len (piece_len i) (Z.of_nat k))).
  { intros k b' Hk Hb'. subst p1. cbn [set_blocks p_blocks] in Hk. rewrite list_lookup_insert_Some in Hk. destruct Hk as [(<- & _)|[_ Hk]]; [by apply honest_written; lia|].
    by apply (cm_there _ _ _ (coming_written file (block_start i j) (block_len (piece_len i) (Z.of_nat j)) i p Hs1 Hi Hpo Hcm) k b'). }
  destruct (has_all_blocks p1) eqn:Hall; [|eexists; split; [reflexivity|]; right; done].
  assert (Hagree : agree file' T (Z.of_nat i * plen) (piece_len i)).
  { apply blocks_agree. intros k Hk. destruct (lookup_lt_is_Some_2 (p_blocks p1) (Z.to_nat k)) as [b' Hb']; [subst p1; cbn [set_blocks p_blocks]; rewrite length_insert; pose proof (po_count _ _ Hpo); lia|].
    assert (Hbc : b_complete b' = true) by (unfold has_all_blocks in Hall; rewrite forallb_forall in Hall; apply Hall, list_elem_of_In; by eapply list_elem_of_lookup_2).
    pose proof (Hthere _ _ Hb' Hbc) as Ha. unfold block_start in Ha. by rewrite Z2Nat.id in Ha by lia. }
  unfold piece_verify. subst p1. cbn [read_at set_blocks p_offset p_length p_hash]. rewrite (po_offset _ _ Hpo), (po_length _ _ Hpo). fold (seg file' (Z.of_nat i * plen) (piece_len i)).
  rewrite (agree_seg _ _ _ _ Ho Hagree). rewrite bool_decide_eq_true_2; [eexists; split; [reflexivity|by left]|].
  pose proof (po_hash _ _ Hpo) as Hh. rewrite hashes in Hh by done. by injection Hh.
Qed.

Definition stored (d : Download) (x : nat * nat) : Prop :=
  exists p, d_pieces d !! x.1 = Some p /\ (p_complete p = true \/ exists b, p_blocks p !! x.2 = Some b /\ b_complete b = true).

Record progress (d : Download) (l : list (nat * nat)) : Prop := {
  pg_true : download_true (fun _ => True) d;
  pg_lock : d_poisoned d = false;
  pg_coming : forall (i : nat) p, d_pieces d !! i = Some p -> p_complete p = false -> coming (d_file d) i p;
  pg_stored : Forall (stored d) l;
}.

Definition counters_small (d : Download) : Prop := 0 <= d_size d < 9223372036854775808 /\ 0 <= d_paces d < 9223372036854775808.

(** The calls of an honest session: the block [j] of the piece [i] is stored. *)
Definition store_block (a : SocketAddr) (sz : f64) (i j : nat) : DM unit :=
  locked (store NoFault NoFault a sz (Z.of_nat i) (Z.of_nat j) (block_data i j)).

Inductive fetches : Download -> list (nat * nat) -> Prop :=
  | fetch_new me file : fetches (Download_new me t file) []
  | fetch_spilt d l : fetches d l -> (length (d_pieces d) < length hs)%nat -> fetches (spilt_piece NoFault (length (d_pieces d)) d).2 l
  | fetch_block d l a sz (i j : nat) p : fetches d l -> d_pieces d !! i = Some p -> is_Some (p_blocks p !! j) -> counters_small d -> fetches (store_block a sz i j d).2 ((i, j) :: l)
  | fetch_other d d' l : fetches d l -> untouched d d' -> d_poisoned d' = d_poisoned d -> fetches d' l.

Lemma stored_after d i p p' x : d_pieces d !! i = Some p -> p_complete p = false ->
  (p_complete p' = true \/ exists j b, p_blocks p' = <[j := block_done true b]> (p_blocks p)) -> stored d x ->
  forall d', d_pieces d' = <[i := p']> (d_pieces d) -> stored d' x.
Proof.
  destruct x as [k m]. intros Hp Hc Hp' (q & Hq & Hdone) d' Hd'. cbn [fst snd] in *. unfold stored. cbn [fst snd]. rewrite Hd'. destruct (decide (i = k)) as [<-|Hne]; [|exists q; by rewrite list_lookup_insert_ne].
  exists p'. split; [apply list_lookup_insert_eq; by eapply lookup_lt_Some|]. simplify_eq. destruct Hp' as [?|(j & b & Hb)]; [by left|right]. rewrite Hb.
  destruct Hdone as [?|(b' & Hb' & ?)]; [congruence|]. destruct (decide (j = m)) as [->|Hne]; [|exists b'; by rewrite list_lookup_insert_ne].
  eexists. split; [apply list_lookup_insert_eq; by eapply lookup_lt_Some|done].
Qed.

(** A store that succeeds, and one of a block that is there. *)
Lemma store_done a sz (i j : nat) data d p b p' file' : d_pieces d !! i = Some p -> p_blocks p !! j = Some b -> p_complete p = false -> b_complete b = false ->
  piece_store NoFault NoFault (Z.of_nat j) data p (d_file d) = (Ok tt, p', file') -> counters_small d -> Z.of_nat (length data) <= BLOCK_SIZE ->
  exists d', store NoFault NoFault a sz (Z.of_nat i) (Z.of_nat j) data d = (Ok tt, d') /\ torrent d' = torrent d /\ d_pieces d' = <[i := p']> (d_pieces d) /\ d_file d' = file' /\
    d_poisoned d' = d_poisoned d.
Proof.
  intros Hp Hb Hc Hbc E [Hsz Hpc] Hl. unfold store, get, modify, lift, mbind, St_bind. dl_fields. unfold has_block, index. rewrite !Nat2Z.id, Hp. cbn [opt_unwrap].
  rewrite Hc, Hb. cbn [opt_unwrap mbind outcome_bind]. rewrite Hbc, E. dl_fields. rewrite u64_arith_in by (unfold is_u64, BLOCK_SIZE in *; lia). cbn [broadcast]. dl_fields.
  destruct (p_complete p'); cbn [when]; unfold mret, St_ret.
  - rewrite u64_arith_in by (unfold is_u64; lia). dl_fields. destruct (d_is_complete _); eexists; (split; [reflexivity|]); done.
  - dl_fields. destruct (d_is_complete _); eexists; (split; [reflexivity|]); done.
Qed.
Lemma store_skipped a sz (i j : nat) data d p b : d_pieces d !! i = Some p -> p_blocks p !! j = Some b -> p_complete p || b_complete b = true ->
  store NoFault NoFault a sz (Z.of_nat i) (Z.of_nat j) data d = (Ok tt, d <| active_connext := <[a := sz]> (active_connext d) |>).
Proof.
  intros Hp Hb Hor. unfold store, get, modify, lift, mbind, St_bind. dl_fields. unfold has_block, index. rewrite !Nat2Z.id, Hp. cbn [opt_unwrap].
  destruct (p_complete p); [done|]. rewrite Hb. cbn [opt_unwrap mbind outcome_bind]. cbn [orb] in Hor. by rewrite Hor.
Qed.

Lemma store_block_progress a sz i j d l p : progress d l -> d_pieces d !! i = Some p -> is_Some (p_blocks p !! j) -> counters_small d ->
  exists d', store_block a sz i j d = (Ok tt, d') /\ progress d' ((i, j) :: l).
Proof.
  intros [H1 H2 H3 H4] Hp [b Hb] Hsmall. destruct (dt_pieces _ _ H1 _ _ Hp) as [Hpo _]. assert (Hi : (i < length hs)%nat) by (apply lookup_lt_Some in Hp; pose proof (dt_count _ _ H1); lia).
  assert (Hj : Z.of_nat j < num_blocks (piece_len i)) by (rewrite <- (po_count _ _ Hpo); apply lookup_lt_Some in Hb; lia).
  destruct (block_in_file i j Hi Hj) as (Hs1 & _ & Hin & Hfit). unfold store_block, locked. rewrite H2.
  destruct (p_complete p || b_complete b) eqn:Hor.
  { rewrite (store_skipped _ _ _ _ _ _ _ _ Hp Hb Hor). eexists. split; [reflexivity|]. split; [by apply (untouched_true _ d)|done|done|]. constructor; [|done].
    exists p. split; [done|]. apply orb_true_iff in Hor as [?|?]; [by left|right; by exists b]. }
  apply orb_false_iff in Hor as [Hc Hbc].
  destruct (honest_piece_store i p (d_file d) j b Hi Hpo Hc (H3 _ _ Hp Hc) Hb) as (p' & E & Hcase).
  destruct (store_done a sz i j (block_data i j) d p b p' _ Hp Hb Hc Hbc E Hsmall) as (d' & Es & Et & Epi & Ef & Epo).
  { destruct (block_end (piece_len i) (Z.of_nat j) ltac:(destruct (piece_len_range i Hi); lia) ltac:(lia)) as ([? ?] & _). unfold block_data, seg. rewrite length_take. lia. }
  rewrite Es. eexists. split; [reflexivity|].
  assert (Htrue : download_true (fun _ => True) d').
  { change d' with (Ok (E := ClientError) tt, d').2. rewrite <- Es. apply store_true; [|done|done]. split_and!; [lia|lia|]. by rewrite Nat2Z.id. }
  split; [done|congruence| |].
  - intros k q Hq Hqc. rewrite Epi in Hq. rewrite Ef. rewrite list_lookup_insert_Some in Hq. destruct Hq as [(<- & <- & _)|[Hne Hq]].
    + destruct Hcase as [?|(_ & ? & _)]; [congruence|done].
    + destruct (dt_pieces _ _ H1 _ _ Hq) as [Hqo _]. apply coming_written; [done|apply lookup_lt_Some in Hq; pose proof (dt_count _ _ H1); lia|done|by apply H3].
  - constructor.
    + exists p'. cbn [fst snd]. split; [rewrite Epi; apply list_lookup_insert_eq; by eapply lookup_lt_Some|]. destruct Hcase as [?|(_ & _ & Hbl)]; [by left|right].
      rewrite Hbl. eexists. split; [apply list_lookup_insert_eq; by eapply lookup_lt_Some|done].
    + eapply Forall_impl; [exact H4|]. intros x Hx. apply (stored_after d i p p' x); try done. destruct Hcase as [?|(_ & _ & Hbl)]; [by left|right; by exists j, b].
Qed.

Lemma spilt_progress d l : progress d l -> (length (d_pieces d) < length hs)%nat -> spilt_piece NoFault (length (d_pieces d)) d = (Ok tt, (spilt_piece NoFault (length (d_pieces d)) d).2) /\ progress (spilt_piece NoFault (length (d_pieces d)) d).2 l.
Proof.
  intros [H1 H2 H3 H4] Hi. pose proof (spilt_true _ NoFault d I H1 Hi) as Htrue. destruct (spilt_spec _ NoFault d H1 Hi H2) as (h & q & Hh & -> & E). rewrite E in *.
  destruct (piece_len_range _ Hi) as (Hl & _). pose proof (num_blocks_pos _ (proj1 Hl)) as Hn.
  unfold piece_verify in *. cbn [read_at fst snd] in *. split; [done|]. split; [done|done| |].
  - dl_fields. intros i p Hp Hc. apply lookup_app_Some in Hp as [Hp|[Hge Hp]]; [by apply H3|]. destruct (i - length (d_pieces d))%nat as [|x] eqn:Hx; [|done]. injection Hp as <-.
    split.
    + intros j b Hb Hbc. cbn in Hb. apply list_lookup_fmap_Some in Hb as (k & -> & _). done.
    + unfold has_all_blocks. cbn [set_complete p_blocks Piece_new]. replace (Z.to_nat (num_blocks (piece_len (length (d_pieces d))))) with (S (Z.to_nat (num_blocks (piece_len (length (d_pieces d))) - 1))) by lia. done.
  - eapply Forall_impl; [exact H4|]. intros x (p & Hp & Hd). exists p. dl_fields. split; [by apply lookup_app_l_Some|done].
Qed.

Lemma fetches_progress d l : fetches d l -> progress d l.
Proof.
  induction 1 as [me file|d l _ IH Hi|d l a sz i j p _ IH Hp Hb Hs|d d' l _ IH (E1 & E2 & E3) Epo].
  - split; [|done|done|constructor]. eapply download_true_mono; [|apply (download_runs_true _ [file]), runs_new]. done.
  - by apply spilt_progress.
  - destruct (store_block_progress a sz i j d l p IH Hp Hb Hs) as (d' & -> & ?). done.
  - destruct IH as [H1 H2 H3 H4]. split; [by apply (untouched_true _ d)|congruence|rewrite E2, E3; done|].
    eapply Forall_impl; [exact H4|]. intros x (p & Hp & Hd). exists p. by rewrite E2.
Qed.
End Honest.
End Torrent.

(** * Properties *)

(** C24. A piece that the client counts as complete is true of its file: whatever
    blocks the peers sent, right or wrong, in any order and from any number of
    connections, with whatever failures of the file, as long as no block is longer than
    it should be, there has been a moment at which all that the file had in the piece's
    place had the hash of the torrent, and these bytes are in the piece's place still.
    (The client does not make the file as long as the torrent: what it had then is the
    whole piece, or less if the file ended before the piece does.) *)
Theorem complete_pieces_true `{Sha1} `{Profile} (t : ClientTorrent) (size plen : Z) (hs : list bytes) (d : Download) (files : list bytes) (i : nat) (p : Piece) :
  torrent_ok t size plen hs -> @download_runs _ _ t size plen hs d files -> d_pieces d !! i = Some p -> p_complete p = true ->
  exists f, f ∈ files /\ let data := seg f (Z.of_nat i * plen) (@piece_len size plen hs i) in
    hs !! i = Some (calculate_sha1 data) /\ seg (d_file d) (Z.of_nat i * plen) (Z.of_nat (length data)) = data.
Proof.
  intros Ht Hd Hp Hc. destruct (download_runs_true Ht d files Hd) as [_ Htrue]. destruct (dt_pieces _ _ Htrue i p Hp) as [Hpo Hpt].
  destruct (Hpt Hc) as (f & Hf & Hs & Hl). exists f. split; [done|]. cbv zeta in *.
  rewrite (po_offset _ _ Hpo), (po_length _ _ Hpo) in Hs, Hl. by rewrite Hs, (po_hash _ _ Hpo).
Qed.

(** C17. Blocks from honest peers complete a download: when the file is fine and every
    block that is stored is what the torrent has there, no store fails, the lock is never
    poisoned, and once all pieces are made and each block of each was stored at least
    once, in any order, the download is complete, whatever the file held before. *)
Theorem honest_blocks_complete `{Sha1} `{Profile} (t : ClientTorrent) (size plen : Z) (hs : list bytes) (T : bytes) (d : Download) (l : list (nat * nat)) :
  torrent_ok t size plen hs ->
  Z.of_nat (length T) = size ->
  (forall i : nat, (i < length hs)%nat -> hs !! i = Some (calculate_sha1 (seg T (Z.of_nat i * plen) (@piece_len size plen hs i)))) ->
  @fetches _ _ t size plen hs T d l ->
  d_poisoned d = false /\
  (length (d_pieces d) = length hs ->
   (forall i j : nat, (i < length hs)%nat -> Z.of_nat j < num_blocks (@piece_len size plen hs i) -> (i, j) ∈ l) -> d_is_complete d = true) /\
  forall a sz (i j : nat) p, d_pieces d !! i = Some p -> is_Some (p_blocks p !! j) -> counters_small d ->
    exists d', @store_block _ _ size plen hs T a sz i j d = (Ok tt, d').
Proof.
  intros Ht HT Hh Hf. pose proof (fetches_progress Ht HT Hh d l Hf) as Hp. split_and!; [apply Hp| |].
  - intros Hn Hall. unfold d_is_complete. apply forallb_forall. intros p Hin%list_elem_of_In. apply list_elem_of_lookup in Hin as [i Hi].
    destruct (p_complete p) eqn:Hc; [done|]. exfalso. destruct (dt_pieces _ _ (pg_true _ _ Hp) _ _ Hi) as [Hpo _].
    assert (Hil : (i < length hs)%nat) by (apply lookup_lt_Some in Hi; lia). pose proof (cm_missing _ _ _ (pg_coming _ _ Hp _ _ Hi Hc)) as Hm.
    assert (Hx : forallb b_complete (p_blocks p) = true); [|unfold has_all_blocks in Hm; congruence].
    apply forallb_forall. intros b Hb%list_elem_of_In. apply list_elem_of_lookup in Hb as [j Hj].
    assert (Hjl : Z.of_nat j < num_blocks (@piece_len size plen hs i)) by (rewrite <- (po_count _ _ Hpo); apply lookup_lt_Some in Hj; lia).
    pose proof (pg_stored _ _ Hp) as Hst. rewrite Forall_forall in Hst. destruct (Hst (i, j) (Hall i j Hil Hjl)) as (q & Hq & Hd). cbn [fst snd] in *. naive_solver congruence.
  - intros a sz i j p Hi Hj Hs. destruct (store_block_progress Ht HT Hh a sz i j d l p Hp Hi Hj Hs) as (d' & E & _). by exists d'.
Qed.

(** * Witnesses *)

(** Six bytes in two pieces, with a digest that tells lengths apart. *)
Definition length_digest (bs : bytes) : bytes := to_u8 (Z.of_nat (length bs)) :: take 19 ((to_u8 <$> bs) ++ replicate 19 0).

Lemma length_digest_hash bs : length (length_digest bs) = SHA_HASH_LEN /\ Forall is_u8 (length_digest bs).
Proof.
  unfold length_digest. split.
  - cbn [length]. rewrite length_take, length_app, length_replicate. unfold SHA_HASH_LEN. lia.
  - constructor; [apply to_u8_u8|]. apply Forall_take, Forall_app. split; [apply Forall_fmap, Forall_forall; intros; apply to_u8_u8|]. by apply Forall_replicate.
Qed.
#[local] Instance length_sha1 : Sha1 := {| sha1 := length_digest; sha1_is_hash := length_digest_hash |}.

#[local] Instance checked_profile : Profile := true.

Definition six_bytes : bytes := [1; 2; 3; 4; 5; 6].
Definition six_hashes : list bytes := [length_digest [1; 2; 3; 4]; length_digest [5; 6]].
Definition six_torrent : ClientTorrent := {|
  ct_size := Some 6; ct_piece_length := 4; ct_num_pieces := Some 2; ct_piece_list := Some six_hashes; ct_info_hash := Some [] |}.

Lemma six_torrent_ok : torrent_ok six_torrent 6 4 six_hashes.
Proof. split; cbn; lia || reflexivity. Qed.
Lemma six_hashed (i : nat) : (i < length six_hashes)%nat -> six_hashes !! i = Some (@calculate_sha1 length_sha1 (seg six_bytes (Z.of_nat i * 4) (@piece_len 6 4 six_hashes i))).
Proof. intros Hi. destruct i as [|[|i]]; [reflexivity|reflexivity|cbn in Hi; lia]. Qed.

Definition sample_new : Download := Download_new [] six_torrent [9; 9].
Definition sample_made : Download := (@spilt_piece length_sha1 checked_profile NoFault 1 (@spilt_piece length_sha1 checked_profile NoFault 0 sample_new).2).2.
Definition sample_fetched : Download :=
  (@store_block length_sha1 checked_profile 6 4 six_hashes six_bytes default_route_v4 (f64_of_Z 0) 0 0
    (@store_block length_sha1 checked_profile 6 4 six_hashes six_bytes default_route_v4 (f64_of_Z 0) 1 0 sample_made).2).2.

Lemma sample_fetches : @fetches length_sha1 checked_profile six_torrent 6 4 six_hashes six_bytes sample_fetched [(0, 0); (1, 0)]%nat.
Proof.
  unfold sample_fetched. eapply fetch_block; [eapply fetch_block|..].
  - pose proof (@fetch_new _ _ six_torrent 6 4 six_hashes six_bytes [] [9; 9]) as F0.
    assert (F1 : @fetches length_sha1 checked_profile six_torrent 6 4 six_hashes six_bytes (spilt_piece NoFault 0 sample_new).2 []) by (apply (fetch_spilt _ _ F0); vm_compute; lia).
    apply (fetch_spilt _ _ F1). vm_compute. lia.
  - vm_compute. reflexivity.
  - vm_compute. by eexists.
  - vm_compute. intuition congruence.
  - vm_compute. reflexivity.
  - vm_compute. by eexists.
  - vm_compute. intuition congruence.
Qed.

Lemma honest_blocks_complete_witness : length (d_pieces sample_made) = 2%nat /\ d_is_complete sample_made = false /\ d_is_complete sample_fetched = true.
Proof.
  split; [vm_compute; reflexivity|]. split; [vm_compute; reflexivity|].
  apply (@honest_blocks_complete length_sha1 checked_profile six_torrent 6 4 six_hashes six_bytes sample_fetched _ six_torrent_ok eq_refl six_hashed sample_fetches).
  - vm_compute. reflexivity.
  - intros i j Hi Hj. destruct i as [|[|i]]; [| |cbn in Hi; lia].
    + change (num_blocks _) with 1 in Hj. replace j with 0%nat by lia. set_solver.
    + change (num_blocks _) with 1 in Hj. replace j with 0%nat by lia. set_solver.
Defined.

Notation sample_runs := (@download_runs length_sha1 checked_profile six_torrent 6 4 six_hashes).

Lemma complete_pieces_true_witness : exists files, sample_runs sample_fetched files /\
  exists f, f ∈ files /\ let data := seg f (Z.of_nat 1 * 4) (@piece_len 6 4 six_hashes 1) in
    six_hashes !! 1%nat = Some (@calculate_sha1 length_sha1 data) /\
    seg (d_file sample_fetched) (Z.of_nat 1 * 4) (Z.of_nat (length data)) = data.
Proof.
  assert (Hr : exists files, sample_runs sample_fetched files).
  { unfold sample_fetched, store_block. eexists. apply runs_store; [apply runs_store|].
    - pose proof (@runs_new _ _ six_torrent 6 4 six_hashes [] [9; 9]) as R0.
      assert (R1 : sample_runs (spilt_piece NoFault 0 sample_new).2 [[9; 9]]) by (apply (runs_spilt _ _ NoFault R0); vm_compute; lia).
      apply (runs_spilt _ _ NoFault R1). vm_compute. lia.
    - vm_compute. intuition congruence.
    - vm_compute. intuition congruence. }
  destruct Hr as [files Hr]. exists files. split; [exact Hr|].
  eapply (@complete_pieces_true length_sha1 checked_profile six_torrent 6 4 six_hashes sample_fetched files 1 _ six_torrent_ok Hr); vm_compute; reflexivity.
Defined.

(** * What goes wrong *)

(** A store while the pieces are still being made announces the end of the download as
    soon as those that there are are complete. *)
Example complete_too_early :
  let d := (spilt_piece NoFault 0 (register_peer 0 sample_new <| d_channels := [Some []] |>)).2 in
  exists d', store NoFault NoFault default_route_v4 (f64_of_Z 0) 0 0 [1; 2; 3; 4] d = (Ok tt, d') /\ length (d_pieces d') = 1%nat /\
    d_channels d' = [Some [BlockComplete 0 0; PieceComplete 0; DownloadComplete]].
Proof. eexists. split; [vm_compute; reflexivity|]. split; vm_compute; reflexivity. Qed.

(** A block that is too long overwrites the next piece, which stays complete. *)
Example long_block_corrupts :
  let d := (store_block (size := 6) (plen := 4) (hs := six_hashes) (T := six_bytes) default_route_v4 (f64_of_Z 0) 1 0 sample_made).2 in
  exists d', store NoFault NoFault default_route_v4 (f64_of_Z 0) 0 0 [0; 0; 0; 0; 7; 7] d = (Ok tt, d') /\
    (p_complete <$> d_pieces d) = [false; true] /\ (p_complete <$> d_pieces d') = [false; true] /\ seg (d_file d) 4 2 = [5; 6] /\ seg (d_file d') 4 2 = [7; 7].
Proof. eexists. split; [vm_compute; reflexivity|]. repeat split; vm_compute; reflexivity. Qed.
