(* ===== verification/ClientConnection.v ===== *)
(** ClientConnection: [bittorrent-client-demo/src/peer/peer_connection.rs], one
    connection of the demo client.

    A connection thread takes messages off its channel, from its peer and from the
    download, and puts messages for the peer into the channel of a writing thread.
    What it does is a function of the connection and the shared download.  Each message
    that it sends is kept with the moment of sending. *)

From stdpp Require Import base list gmap.
From Stdlib Require Import ZArith Lia.
From S2P Require Import Prelude Effects Float Convert ShaHash PeerInfo ClientMessage ClientDownload.

Definition MAX_CONCURRENT_REQUESTS : nat := 10.

(** What a connection sees besides its messages: random numbers, the order of its map,
    failures of the file. *)
Class ConnEnv := {
  conn_order : HashOrder;
  draw : nat -> nat;
  write_fault : Fault;
  read_fault : Fault;
}.
#[export] Existing Instance conn_order.

Record PeerMetadata := { has_pieces : list bool; is_choked : bool; is_interested : bool; requests : list RequestMetadata }.

Definition PeerMetadata_new (have : list bool) : PeerMetadata :=
  {| has_pieces := have; is_choked := true; is_interested := false; requests := [] |}.

Definition PeerMetadata_eta (m : PeerMetadata) : PeerMetadata :=
  {| has_pieces := has_pieces m; is_choked := is_choked m; is_interested := is_interested m; requests := requests m |}.
#[global] Instance up_has_pieces : FieldUpdate has_pieces := ltac:(field_update PeerMetadata_eta has_pieces).
#[global] Instance up_is_choked : FieldUpdate is_choked := ltac:(field_update PeerMetadata_eta is_choked).
#[global] Instance up_is_interested : FieldUpdate is_interested := ltac:(field_update PeerMetadata_eta is_interested).
#[global] Instance up_requests : FieldUpdate requests := ltac:(field_update PeerMetadata_eta requests).

(** A message and the moment at which it was sent. *)
Record Sent := { sent_message : Message; sent_me : PeerMetadata; sent_them : PeerMetadata; sent_download : Download }.

Record PeerConnection := {
  halt : bool;
  conn_addr : SocketAddr;
  me : PeerMetadata;
  them : PeerMetadata;
  outgoing : list Sent;
  outgoing_open : bool;
  upload_in_progress : bool;
  to_request : gmap (Z * Z) (Z * Z * Z);
  request_size : nat;
  cat_num : nat;
  cat_status : bool;
  cat_num_list : list nat;
  un_cat_num_list : list nat;
  received_size : Z;
}.

Definition PeerConnection_eta (c : PeerConnection) : PeerConnection := {|
  halt := halt c; conn_addr := conn_addr c; me := me c; them := them c; outgoing := outgoing c; outgoing_open := outgoing_open c;
  upload_in_progress := upload_in_progress c; to_request := to_request c; request_size := request_size c; cat_num := cat_num c;
  cat_status := cat_status c; cat_num_list := cat_num_list c; un_cat_num_list := un_cat_num_list c; received_size := received_size c |}.
#[global] Instance up_halt : FieldUpdate halt := ltac:(field_update PeerConnection_eta halt).
#[global] Instance up_me : FieldUpdate me := ltac:(field_update PeerConnection_eta me).
#[global] Instance up_them : FieldUpdate them := ltac:(field_update PeerConnection_eta them).
#[global] Instance up_outgoing : FieldUpdate outgoing := ltac:(field_update PeerConnection_eta outgoing).
#[global] Instance up_outgoing_open : FieldUpdate outgoing_open := ltac:(field_update PeerConnection_eta outgoing_open).
#[global] Instance up_upload_in_progress : FieldUpdate upload_in_progress := ltac:(field_update PeerConnection_eta upload_in_progress).
#[global] Instance up_to_request : FieldUpdate to_request := ltac:(field_update PeerConnection_eta to_request).
#[global] Instance up_cat_num : FieldUpdate cat_num := ltac:(field_update PeerConnection_eta cat_num).
#[global] Instance up_cat_status : FieldUpdate cat_status := ltac:(field_update PeerConnection_eta cat_status).
#[global] Instance up_cat_num_list : FieldUpdate cat_num_list := ltac:(field_update PeerConnection_eta cat_num_list).
#[global] Instance up_un_cat_num_list : FieldUpdate un_cat_num_list := ltac:(field_update PeerConnection_eta un_cat_num_list).
#[global] Instance up_received_size : FieldUpdate received_size := ltac:(field_update PeerConnection_eta received_size).
Ltac pc_fields := cbn [update_field up_has_pieces up_is_choked up_is_interested up_requests up_halt up_me up_them up_outgoing up_outgoing_open up_upload_in_progress
  up_to_request up_cat_num up_cat_status up_cat_num_list up_un_cat_num_list up_received_size has_pieces is_choked is_interested requests
  halt conn_addr me them outgoing outgoing_open upload_in_progress to_request request_size cat_num cat_status cat_num_list un_cat_num_list received_size fst snd] in *.

(** [PeerConnection::new], after its two visits of the download. *)
Definition PeerConnection_new (addr : SocketAddr) (cat : nat) (have : list bool) : PeerConnection := {|
  halt := false; conn_addr := addr; me := PeerMetadata_new have; them := PeerMetadata_new (replicate (length have) false);
  outgoing := []; outgoing_open := true; upload_in_progress := false; to_request := ∅; request_size := 8; cat_num := cat;
  cat_status := false; cat_num_list := []; un_cat_num_list := []; received_size := 0 |}.

Section Connection.
Context `{Sha1} `{Profile} `{ConnEnv}.

Definition CM : Type -> Type := St (PeerConnection * Download) ClientError.

Definition conn : CM PeerConnection := gets fst.
Definition change (f : PeerConnection -> PeerConnection) : CM unit := modify (fun s => (f s.1, s.2)).

(** With the lock of the download. *)
Definition shared {A} (m : DM A) : CM A := fun s => let '(r, d) := locked m s.2 in (r, (s.1, d)).

Definition send_message (m : Message) : CM unit :=
  s ← get;
  if outgoing_open s.1 then
    change (fun c => c <| outgoing := outgoing c ++ [{| sent_message := m; sent_me := me c; sent_them := them c; sent_download := s.2 |}] |>)
  else fail SendMessageError.

(** [Vec::pop] *)
Definition vec_pop {A} (l : list A) : option (A * list A) := x ← last l; Some (x, take (length l - 1) l).

Definition queue_blocks (piece_index : Z) : CM nat :=
  incomplete_blocks ← shared (incomplete_blocks_for_piece piece_index);
  c ← conn;
  let wanted := filter (fun b => negb (rq_has piece_index b.1 (requests (me c)))) incomplete_blocks in
  _ ← change (fun c => c <| to_request := foldl (fun t b => <[(piece_index, b.1) := (piece_index, b.1, b.2)]> t) (to_request c) wanted |>);
  mret (length wanted).

Definition update_my_interested_status : CM unit :=
  c ← conn;
  let am_interested := (0 <? length (requests (me c))) || (0 <? size (to_request c)) in
  if negb (Bool.eqb (is_interested (me c)) am_interested) then
    _ ← change (fun c => c <| me := me c <| is_interested := am_interested |> |>);
    send_message (if am_interested then CmInterested else CmNotInterested)
  else mret tt.

(** The bytes of [send_bitfield]. *)
Definition bitfield_bytes (have : list bool) : bytes :=
  (fun i => fold_left (fun byte k => if default false (have !! (8 * i + k)%nat) then Z.lor byte (Z.shiftl 1 (7 - Z.of_nat k)) else byte) (seq 0 8) 0%Z)
  <$> seq 0 ((length have + 7) / 8).

Definition send_bitfield : CM unit := c ← conn; send_message (CmBitfield (bitfield_bytes (has_pieces (me c)))).

(** The [while] loop of [request_more_blocks]; each turn takes a block out of
    [to_request]. *)
Fixpoint request_loop (fuel : nat) : CM unit :=
  match fuel with
  | O => lift NoFuel
  | S fuel' =>
      c ← conn;
      if MAX_CONCURRENT_REQUESTS <=? length (requests (me c)) then mret tt else
      let len := size (to_request c) in
      if len =? 0 then mret tt else
      target ← lift (opt_unwrap ((fst <$> entries (to_request c)) !! (draw fuel' mod len)));
      removed ← lift (opt_unwrap (to_request c !! target));
      _ ← change (fun c => c <| to_request := delete target (to_request c) |>);
      let '(piece_index, block_index, block_length) := removed in
      offset ← lift (u32_arith (block_index * BLOCK_SIZE));
      let '(added, q) := rq_add piece_index block_index offset block_length (requests (me c)) in
      _ ← change (fun c => c <| me := me c <| requests := q |> |>);
      _ ← when added (send_message (CmRequest piece_index offset block_length));
      request_loop fuel'
  end.

Definition request_more_blocks : CM unit :=
  c ← conn;
  if is_choked (me c) || negb (is_interested (me c)) || (size (to_request c) =? 0) then mret tt
  else request_loop (S (size (to_request c))).

Definition upload_next_block : CM unit :=
  c ← conn;
  if upload_in_progress c || is_choked (them c) || negb (is_interested (them c)) then mret tt else
  match rq_pop (requests (them c)) with
  | Some (r, q) =>
      _ ← change (fun c => c <| them := them c <| requests := q |> |>);
      data ← shared (retrive_data read_fault r);
      _ ← change (fun c => c <| upload_in_progress := true |>);
      send_message (CmPiece (rm_piece_index r) (rm_offset r) data)
  | None => mret tt
  end.

Definition unchoke_them : CM unit :=
  c ← conn;
  when (is_choked (them c)) (
    _ ← change (fun c => c <| them := them c <| is_choked := false |> |>);
    _ ← send_message CmUnchoke;
    upload_next_block).

(** [for i in 0..n { match self.cat_num_list.pop() { Some(i) => queue_blocks(i), _ => break } }] *)
Fixpoint pop_and_queue (n : nat) : CM unit :=
  match n with
  | O => mret tt
  | S n' =>
      c ← conn;
      match vec_pop (cat_num_list c) with
      | Some (have_index, rest) =>
          _ ← change (fun c => c <| cat_num_list := rest |>);
          _ ← queue_blocks (Z.of_nat have_index);
          pop_and_queue n'
      | None => mret tt
      end
  end.

(** The end of several handlers. *)
Definition interest_and_request : CM unit := _ ← update_my_interested_status; request_more_blocks.

(** One bit of a bitfield. *)
Definition bitfield_bit (bs : bytes) (have_index : nat) : CM unit :=
  byte ← lift (index bs (have_index / 8));
  let value := negb (Z.land byte (Z.shiftl 1 (7 - Z.of_nat (have_index mod 8))) =? 0)%Z in
  _ ← change (fun c => c <| them := them c <| has_pieces := <[have_index := value]> (has_pieces (them c)) |> |>);
  when value (change (fun c => if have_index <? cat_num c then c <| cat_num_list := cat_num_list c ++ [have_index] |>
                               else c <| un_cat_num_list := un_cat_num_list c ++ [have_index] |>)).

Definition keep_alive : CM unit :=
  request ← shared have_pieces;
  let '(cat, have) := request in
  c ← conn;
  let pieces_num := length have in
  let them_have := has_pieces (them c) in
  lists ← (if cat =? pieces_num then
      _ ← for_each (seq 0 pieces_num) (fun i => b ← lift (index them_have i); when b (_ ← queue_blocks (Z.of_nat i); mret tt));
      mret ([], [])
    else
      _ ← lift (if pieces_num <=? length them_have then Ok tt else Panic);
      let theirs := filter (fun i => default false (them_have !! i)) (seq 0 pieces_num) in
      _ ← pop_and_queue (request_size c);
      mret (filter (fun i => i < cat) theirs, filter (fun i => ~ i < cat) theirs));
  _ ← change (fun c => c <| cat_num := cat |> <| me := me c <| has_pieces := have |> |> <| cat_num_list := lists.1 |> <| un_cat_num_list := lists.2 |>);
  interest_and_request.

(** The block that an offset is in. *)
Definition block_at (offset : Z) : Z := (offset / BLOCK_SIZE)%Z.

Definition process_message (message : Message) : CM unit :=
  match message with
  | CmChoke => change (fun c => c <| me := me c <| is_choked := true |> |>)
  | CmUnchoke =>
      c ← conn;
      when (is_choked (me c)) (_ ← change (fun c => c <| me := me c <| is_choked := false |> |>); request_more_blocks)
  | CmInterested => _ ← change (fun c => c <| them := them c <| is_interested := true |> |>); unchoke_them
  | CmNotInterested => change (fun c => c <| them := them c <| is_interested := false |> |>)
  | CmHave have_index =>
      c ← conn;
      _ ← lift (index (has_pieces (them c)) (Z.to_nat have_index));
      _ ← change (fun c => c <| them := them c <| has_pieces := <[Z.to_nat have_index := true]> (has_pieces (them c)) |> |>);
      when (cat_status c) (_ ← queue_blocks have_index; interest_and_request)
  | CmBitfield bs =>
      c ← conn;
      _ ← for_each (seq 0 (length (has_pieces (them c)))) (bitfield_bit bs);
      _ ← pop_and_queue (request_size c);
      interest_and_request
  | CmRequest piece_index offset length =>
      _ ← change (fun c => c <| them := them c <| requests := (rq_add piece_index (block_at offset) offset length (requests (them c))).2 |> |>);
      upload_next_block
  | CmPiece piece_index offset data =>
      c ← conn;
      total ← lift (u64_arith (received_size c + Z.of_nat (length data)));
      _ ← change (fun c => c <| received_size := total |> <| me := me c <| requests := (rq_remove piece_index (block_at offset) (requests (me c))).2 |> |>);
      _ ← shared (store write_fault read_fault (conn_addr c) (f64_div (f64_div (f64_of_Z total) (f64_of_Z 1024)) (f64_of_Z 1024)) piece_index (block_at offset) data);
      interest_and_request
  | CmCancel piece_index offset _ =>
      change (fun c => c <| them := them c <| requests := (rq_remove piece_index (block_at offset) (requests (them c))).2 |> |>)
  | CmKeepAlive => keep_alive
  | CmPort => fail (UnknownRequestType message)
  end.

Definition process (ipc : IPC) : CM unit :=
  match ipc with
  | IpcMessage message => process_message message
  | BlockComplete piece_index block_index =>
      c ← conn;
      let '(removed, q) := rq_remove piece_index block_index (requests (me c)) in
      _ ← change (fun c => c <| to_request := delete (piece_index, block_index) (to_request c) |> <| me := me c <| requests := q |> |>);
      match removed with
      | Some r => send_message (CmCancel (rm_piece_index r) (rm_offset r) (rm_block_length r))
      | None => mret tt
      end
  | PieceComplete piece_index =>
      c ← conn;
      _ ← lift (index (has_pieces (me c)) (Z.to_nat piece_index));
      _ ← change (fun c => c <| me := me c <| has_pieces := <[Z.to_nat piece_index := true]> (has_pieces (me c)) |> |>);
      _ ← update_my_interested_status;
      send_message (CmHave piece_index)
  | CatComplete =>
      request ← shared have_pieces;
      _ ← change (fun c => c <| me := me c <| has_pieces := request.2 |> |> <| cat_status := true |>
                             <| cat_num_list := cat_num_list c ++ un_cat_num_list c |> <| un_cat_num_list := [] |>);
      c ← conn;
      _ ← pop_and_queue (length (cat_num_list c));
      interest_and_request
  | DownloadComplete => _ ← change (fun c => c <| halt := true |>); update_my_interested_status
  | BlockUploaded => _ ← change (fun c => c <| upload_in_progress := false |>); upload_next_block
  | Downstream_Error | Upstream_Error => c ← conn; shared (modify (put_close_connext (conn_addr c)))
  end.

(** The loop of [run], over the messages that arrive; without a sender left [recv]
    fails.  [self] holds a sender, so the loop of the code waits instead. *)
Fixpoint run_messages (ipcs : list IPC) : CM unit :=
  c ← conn;
  if halt c then mret tt else
  match ipcs with
  | [] => fail ReceiveError
  | ipc :: rest => _ ← process ipc; run_messages rest
  end.
End Connection.

(** One message of [UpstreamMessageFunnel::run], written whole. *)
Definition upstream_message (m : Message) : bytes * list IPC :=
  (serialize m, match m with CmPiece _ _ _ => [BlockUploaded] | _ => [] end).
