(* ===== verification/ClientConnectionCorrect.v ===== *)
(** ClientConnectionCorrect: how a connection of the demo client behaves towards its
    peer ([ClientConnection]), whatever comes in and whatever the other connections
    do to the download meanwhile. *)

From stdpp Require Import base list gmap.
From Stdlib Require Import ZArith Lia.
From S2P Require Import Prelude Effects Float Convert ShaHash PeerInfo ClientMessage ClientDownload ClientDownloadCorrect ClientConnection.

(** * What was told to the peer *)

(** The last of two opposite messages, [false] before any. *)
Definition told (yes no : Message -> bool) (l : list Sent) : bool :=
  fold_left (fun acc s => if yes (sent_message s) then true else if no (sent_message s) then false else acc) l false.

Definition told_interest : list Sent -> bool :=
  told (fun m => match m with CmInterested => true | _ => false end) (fun m => match m with CmNotInterested => true | _ => false end).
Definition told_unchoked : list Sent -> bool :=
  told (fun m => match m with CmUnchoke => true | _ => false end) (fun m => match m with CmChoke => true | _ => false end).
Definition is_piece (m : Message) : bool := match m with CmPiece _ _ _ => true | _ => false end.
Definition pieces_sent (l : list Sent) : nat := length (filter (fun s => is_piece (sent_message s)) l).

Definition rm_key (r : RequestMetadata) : Z * Z := (rm_piece_index r, rm_block_index r).

(** A request as its message says it. *)
Definition rm_told (r : RequestMetadata) : Z * Z * Z := (rm_piece_index r, rm_offset r, rm_block_length r).

(** Why a message may be sent, when the peer has asked for [asked]: a request when the
    peer does not choke us and knows that we are interested; a piece to a peer that is
    interested and not choked, out of a piece that is complete.  Its data answers a
    request of the peer for that piece and offset: it is what the file holds from there
    on, as many bytes as were asked for, or as the file has. *)
Definition justified `{Profile} (asked : list (Z * Z * Z)) (s : Sent) : Prop :=
  match sent_message s with
  | CmRequest _ _ _ => is_choked (sent_me s) = false /\ is_interested (sent_me s) = true
  | CmPiece piece_index offset data =>
      is_choked (sent_them s) = false /\ is_interested (sent_them s) = true /\
      exists len p start, (piece_index, offset, len) ∈ asked /\
        d_pieces (sent_download s) !! Z.to_nat piece_index = Some p /\ p_complete p = true /\
        @u64_arith _ ClientError (p_offset p + offset) = Ok start /\
        data = take (Z.to_nat len) (drop (Z.to_nat start) (d_file (sent_download s)))
  | _ => True
  end.

(** A request that was sent. *)
Definition requested (l : list Sent) (r : RequestMetadata) : Prop :=
  exists s, s ∈ l /\ sent_message s = CmRequest (rm_piece_index r) (rm_offset r) (rm_block_length r).

(** What the peer knows, as long as the channel to it is open; [uploaded] blocks were
    written. *)
Record conn_told (c : PeerConnection) (uploaded : nat) : Prop := {
  cd_requests : Forall (requested (outgoing c)) (requests (me c));
  cd_interest : told_interest (outgoing c) = is_interested (me c);
  cd_unchoked : told_unchoked (outgoing c) = negb (is_choked (them c));
  cd_uploads : pieces_sent (outgoing c) = uploaded + Nat.b2n (upload_in_progress c);
}.

(** What holds of a connection at every moment. *)
Record conn_shape `{Profile} (asked : list (Z * Z * Z)) (c : PeerConnection) : Prop := {
  ck_limit : length (requests (me c)) <= MAX_CONCURRENT_REQUESTS;
  ck_distinct : NoDup (rm_key <$> requests (me c));
  ck_waiting : forall k v, to_request c !! k = Some v -> v.1 = k /\ k ∉ rm_key <$> requests (me c);
  ck_asked : Forall (fun r => rm_told r ∈ asked) (requests (them c));
  ck_justified : Forall (justified asked) (outgoing c);
}.

(** What holds between two messages. *)
Definition conn_ok `{Profile} (asked : list (Z * Z * Z)) (c : PeerConnection) (uploaded : nat) : Prop :=
  conn_shape asked c /\ (outgoing_open c = true -> conn_told c uploaded).

(** The queue of requests. *)
Lemma rq_position_key pi bi q : match rq_position pi bi q with
  | Some i => exists r, q !! i = Some r /\ rm_key r = (pi, bi)
  | None => (pi, bi) ∉ rm_key <$> q
  end.
Proof.
  unfold rq_position. destruct (position (rm_matches pi bi) q) as [i|] eqn:E.
  - apply position_Some in E as (r & Hr & Hm & _). exists r. split; [done|]. unfold rm_matches in Hm. apply andb_true_iff in Hm as [?%Z.eqb_eq ?%Z.eqb_eq]. unfold rm_key. congruence.
  - apply position_None in E. rewrite list_elem_of_fmap. intros (r & Hk & Hr). rewrite Forall_forall in E. specialize (E r Hr). unfold rm_matches in E.
    injection Hk as -> ->. by rewrite !Z.eqb_refl in E.
Qed.
Lemma rq_has_key pi bi q : rq_has pi bi q = bool_decide ((pi, bi) ∈ rm_key <$> q).
Proof.
  unfold rq_has. pose proof (rq_position_key pi bi q) as Hp. destruct (rq_position pi bi q) as [i|].
  - destruct Hp as (r & Hr & Hk). rewrite !bool_decide_eq_true_2; [done| |by eexists]. rewrite <- Hk. apply list_elem_of_fmap_2. by eapply list_elem_of_lookup_2.
  - by rewrite !bool_decide_eq_false_2 by (done || by intros [? ?]).
Qed.
Lemma rq_remove_sublist pi bi q : (rq_remove pi bi q).2 `sublist_of` q.
Proof. unfold rq_remove. destruct (rq_position pi bi q); [apply sublist_delete|done]. Qed.
Lemma rq_remove_gone pi bi q : NoDup (rm_key <$> q) -> (pi, bi) ∉ rm_key <$> (rq_remove pi bi q).2.
Proof.
  intros Hnd. unfold rq_remove. pose proof (rq_position_key pi bi q) as Hp. destruct (rq_position pi bi q) as [i|]; [|done].
  destruct Hp as (r & Hr & Hk). cbn [snd]. rewrite list_fmap_delete, <- Hk. intros Hin. apply list_elem_of_lookup in Hin as [j Hj].
  rewrite NoDup_alt in Hnd. destruct (decide (j < i)) as [Hlt|Hge].
  - rewrite list_lookup_delete_lt in Hj by done. assert (j = i) by (eapply Hnd; [exact Hj|by rewrite list_lookup_fmap, Hr]). lia.
  - rewrite list_lookup_delete_ge in Hj by lia. assert (S j = i) by (eapply Hnd; [exact Hj|by rewrite list_lookup_fmap, Hr]). lia.
Qed.

(** * Runs of a handler *)

(** From [s] the handler returns with [Q], fails with [I], or panics; it always
    ends. *)
Definition does {S A} (m : St S ClientError A) (Q : A -> S -> Prop) (I : S -> Prop) (s : S) : Prop :=
  match m s with
  | (Ok a, s') => Q a s'
  | (Err _, s') => I s'
  | (Panic, _) => True
  | (NoFuel, _) => False
  end.

Section Does.
Context {S : Type}.
Implicit Types (I : S -> Prop) (s : S).

Lemma does_bind {A B} (m : St S ClientError A) (f : A -> St S ClientError B) Q Q' I s :
  does m Q' I s -> (forall a s', Q' a s' -> does (f a) Q I s') -> does (m ≫= f) Q I s.
Proof. unfold does, mbind, St_bind. intros Hm Hf. destruct (m s) as [[a|e| |] s']; [by apply Hf|done..]. Qed.
Lemma does_mono {A} (m : St S ClientError A) (Q Q' : A -> S -> Prop) I (I' : S -> Prop) s :
  does m Q I s -> (forall a s', Q a s' -> Q' a s') -> (forall s', I s' -> I' s') -> does m Q' I' s.
Proof. unfold does. destruct (m s) as [[a|e| |] s']; auto. Qed.
Lemma does_when b (m : St S ClientError unit) (Q : unit -> S -> Prop) I s : (b = true -> does m Q I s) -> (b = false -> Q tt s) -> does (when b m) Q I s.
Proof. destruct b; cbn; auto. Qed.
Lemma does_lift {A} (m : outcome ClientError A) (Q : A -> S -> Prop) I s : I s -> m <> NoFuel -> (forall a, m = Ok a -> Q a s) -> does (lift m) Q I s.
Proof. unfold does, lift. destruct m; auto. Qed.
Lemma does_bind_lift {A B} (m : outcome ClientError A) (f : A -> St S ClientError B) Q I s :
  I s -> m <> NoFuel -> (forall a, m = Ok a -> does (f a) Q I s) -> does (lift m ≫= f) Q I s.
Proof. unfold does, lift, mbind, St_bind. intros Hi Hn Hf. destruct m as [a|e| |]; [by apply (Hf a)|done..]. Qed.
Lemma does_modify f (Q : unit -> S -> Prop) I s : Q tt (f s) -> does (modify f) Q I s.
Proof. done. Qed.
Lemma does_each {A} (l : list A) (f : A -> St S ClientError unit) I s : (forall a s, I s -> does (f a) (fun _ => I) I s) -> I s -> does (for_each l f) (fun _ => I) I s.
Proof.
  intros Hf. revert s. induction l as [|a l IH]; intros s Hs; [done|]. apply (does_bind _ _ _ (fun _ => I)); [by apply Hf|]. intros _ s' Hs'. by apply IH.
Qed.
End Does.

Lemma index_not_fuel {E A} (l : list A) i : @index E A l i <> NoFuel.
Proof. unfold index. by destruct (l !! i). Qed.
Lemma unwrap_not_fuel {E A} (o : option A) : @opt_unwrap E A o <> NoFuel.
Proof. by destruct o. Qed.
Lemma arith_not_fuel `{Profile} {E} (ok : Z -> Prop) `{forall z, Decision (ok z)} wrap z : @arith _ E ok _ wrap z <> NoFuel.
Proof. unfold arith. destruct (decide _); [done|]. by destruct overflow_checks. Qed.
Lemma u32_not_fuel `{Profile} {E} z : @u32_arith _ E z <> NoFuel.
Proof. apply arith_not_fuel. Qed.
Lemma u64_not_fuel `{Profile} {E} z : @u64_arith _ E z <> NoFuel.
Proof. apply arith_not_fuel. Qed.

(** * What the download does for a connection *)

Section Shared.
Context `{Sha1} `{Profile}.

Definition sound (d : Download) : Prop := d_poisoned d = false.
(** It ends, and leaves the lock as it is. *)
Definition serves {A} (m : DM A) : Prop := forall d, sound d -> does m (fun _ => sound) sound d.

Lemma serves_have : serves have_pieces.
Proof. intros d Hd. unfold have_pieces, does, get, lift, mbind, St_bind. by destruct (ct_num_pieces (torrent d)). Qed.
Lemma serves_incomplete i : serves (incomplete_blocks_for_piece i).
Proof. intros d Hd. unfold incomplete_blocks_for_piece, does, get, lift, index, mbind, St_bind. by destruct (d_pieces d !! _). Qed.
Lemma serves_close a : serves (modify (put_close_connext a)).
Proof. by intros d Hd. Qed.

Lemma write_all_at_ends f o data file : (write_all_at f o data file).1 = Ok tt \/ exists e, (write_all_at f o data file).1 = Err e.
Proof. unfold write_all_at. destruct f as [| |n|]; try (destruct (n <? length data)); cbn; eauto. Qed.
Lemma piece_verify_ends rf p file : (piece_verify rf p file).1 <> NoFuel.
Proof. unfold piece_verify. by destruct (read_at _ _ _ _) as [| | |]. Qed.
Lemma piece_store_ends wf rf i data p file : (piece_store wf rf i data p file).1.1 <> NoFuel.
Proof.
  unfold piece_store. set (o := _ ≫= _). destruct o as [o| | |]; [|done..]. pose proof (write_all_at_ends wf o data file) as Hw.
  destruct (write_all_at wf o data file) as [r f']. cbn in Hw. destruct Hw as [->|[e ->]]; [|done].
  destruct (p_blocks p !! _); [|done]. destruct (has_all_blocks _); [|done].
  destruct (piece_verify rf _ f') as [[[]| | |] p'] eqn:E; try done.
Qed.

Lemma sound_same (d d' : Download) : d_poisoned d' = d_poisoned d -> sound d -> sound d'.
Proof. unfold sound. congruence. Qed.

Lemma serves_store wf rf a size pi bi data : serves (store wf rf a size pi bi data).
Proof.
  intros d Hd. unfold store. apply (does_bind _ _ _ (fun _ => sound)); [by apply does_modify|]. intros _ d1 Hd1.
  unfold get. apply (does_bind _ _ _ (fun _ => sound)); [done|]. intros d2 d3 Hd3.
  apply does_bind_lift; [done|apply index_not_fuel|]. intros piece _.
  apply (does_bind _ _ _ (fun _ => sound)).
  { destruct (p_complete piece); [done|]. apply does_lift; [done| |done]. unfold has_block, index. by destruct (p_blocks piece !! _). }
  intros [|] d4 Hd4; [done|]. pose proof (piece_store_ends wf rf bi data piece (d_file d2)) as Hps.
  destruct (piece_store wf rf bi data piece (d_file d2)) as [[r p'] file']. cbn in Hps.
  apply (does_bind _ _ _ (fun _ => sound)); [by apply does_modify|]. intros _ d5 Hd5.
  apply does_bind_lift; [done..|]. intros _ _. apply does_bind_lift; [done|apply u64_not_fuel|]. intros sz _.
  apply (does_bind _ _ _ (fun _ => sound)); [by apply does_modify|]. intros _ d6 Hd6.
  apply (does_bind _ _ _ (fun _ => sound)).
  { apply does_when; [|done]. intros _. apply (does_bind _ _ _ (fun _ => sound)); [by apply does_modify|]. intros _ d7 Hd7.
    apply does_bind_lift; [done|apply u64_not_fuel|]. intros paces _. by apply does_modify. }
  intros _ d7 Hd7. apply (does_bind _ _ _ (fun _ => sound)); [done|]. intros d8 d9 Hd9. by apply does_when.
Qed.

(** The block that is sent is the part of the file that was asked for. *)
Lemma retrive_does rf r d : sound d -> does (retrive_data rf r)
  (fun data d' => d' = d /\ exists p start, d_pieces d !! Z.to_nat (rm_piece_index r) = Some p /\ p_complete p = true /\
     @u64_arith _ ClientError (p_offset p + rm_offset r) = Ok start /\
     data = take (Z.to_nat (rm_block_length r)) (drop (Z.to_nat start) (d_file d)))
  sound d.
Proof.
  intros Hd. unfold retrive_data. unfold get, index, lift, does, mbind, St_bind. destruct (d_pieces d !! _) as [p|] eqn:Ep; [|done]. cbn.
  destruct (p_complete p) eqn:Ec; [|done]. pose proof (u64_not_fuel (E := ClientError) (p_offset p + rm_offset r)) as Hn.
  destruct (u64_arith _) as [o|e| |] eqn:Eo; [|done..]. unfold read_at.
  destruct rf; cbn; [|done| |done]; (split; [done|]); by exists p, o.
Qed.
End Shared.

(** * The connection *)

Section Connection.
Context `{Sha1} `{Profile} `{ConnEnv}.
Implicit Types (c : PeerConnection) (s : PeerConnection * Download) (n : nat).

Section Invariant.
(** What the peer has asked for so far. *)
Variable asked : list (Z * Z * Z).

Definition inv n s : Prop := conn_ok asked s.1 n /\ sound s.2.

(** What the invariant looks at. *)
Definition view c := (requests (me c), to_request c, outgoing c, outgoing_open c, (is_interested (me c), is_choked (them c), upload_in_progress c), requests (them c)).

Lemma shape_view c c' : view c' = view c -> conn_shape asked c -> conn_shape asked c'.
Proof. intros [= E1 E2 E3 E4 E5 E6 E7 E8] [X1 X2 X3 X4 X5]. split; rewrite ?E1, ?E2, ?E3, ?E8; done. Qed.
Lemma told_view c c' n : view c' = view c -> conn_told c n -> conn_told c' n.
Proof. intros [= E1 E2 E3 E4 E5 E6 E7 E8] [X1 X2 X3 X4]. split; rewrite ?E1, ?E3, ?E5, ?E6, ?E7; done. Qed.
Lemma ok_view c c' n : view c' = view c -> conn_ok asked c n -> conn_ok asked c' n.
Proof.
  intros E [Hs Ht]. split; [by apply (shape_view c)|]. intros Ho. apply (told_view c); [done|]. apply Ht. injection E. congruence.
Qed.
Lemma inv_view n s c' : view c' = view s.1 -> inv n s -> inv n (c', s.2).
Proof. intros E [Hok Hd]. split; [by eapply ok_view|done]. Qed.

Lemma does_conn (Q : PeerConnection -> PeerConnection * Download -> Prop) I s : Q s.1 s -> does conn Q I s.
Proof. done. Qed.
Lemma bind_conn {B} (f : PeerConnection -> CM B) Q I s : does (f s.1) Q I s -> does (conn ≫= f) Q I s.
Proof. done. Qed.
Lemma bind_change {B} g (f : unit -> CM B) Q I s : does (f tt) Q I (g s.1, s.2) -> does (change g ≫= f) Q I s.
Proof. done. Qed.

(** With the lock. *)
Lemma does_shared {A} (m : DM A) Q n s : inv n s -> does m Q sound s.2 ->
  does (shared m) (fun a s' => s'.1 = s.1 /\ Q a s'.2) (inv n) s.
Proof.
  intros [Hok Hd] Hm. unfold does in *. unfold shared, locked. rewrite Hd. destruct (m s.2) as [[a|e| |] d]; try done.
Qed.
Lemma serve_shared {A} (m : DM A) n s : inv n s -> serves m -> does (shared m) (fun _ s' => s'.1 = s.1 /\ inv n s') (inv n) s.
Proof.
  intros Hs Hm. eapply does_mono; [apply (does_shared m (fun _ => sound)); [done|apply Hm, Hs]| |done].
  intros a s' [E Hd]. split; [done|]. split; [rewrite E; apply Hs|done].
Qed.

(** A message goes out. *)
Definition with_message (m : Message) c d : PeerConnection :=
  c <| outgoing := outgoing c ++ [{| sent_message := m; sent_me := me c; sent_them := them c; sent_download := d |}] |>.
Lemma does_send m n s (Q : unit -> PeerConnection * Download -> Prop) :
  conn_shape asked s.1 -> sound s.2 -> (outgoing_open s.1 = true -> Q tt (with_message m s.1 s.2, s.2)) -> does (send_message m) Q (inv n) s.
Proof.
  intros Hs Hd HQ. unfold send_message, get, does, mbind, St_bind. cbn beta iota. destruct (outgoing_open s.1) eqn:Ho; [by apply HQ|].
  cbn. split; [|done]. split; [done|]. congruence.
Qed.
Lemma shape_sent m c d : justified asked {| sent_message := m; sent_me := me c; sent_them := them c; sent_download := d |} -> conn_shape asked c -> conn_shape asked (with_message m c d).
Proof. intros Hj [X1 X2 X3 X4 X5]. split; cbn; [done..|]. apply Forall_app. by split; [|constructor]. Qed.

Lemma told_snoc yes no l x : told yes no (l ++ [x]) = if yes (sent_message x) then true else if no (sent_message x) then false else told yes no l.
Proof. unfold told. by rewrite fold_left_app. Qed.
Lemma pieces_sent_snoc l x : pieces_sent (l ++ [x]) = pieces_sent l + Nat.b2n (is_piece (sent_message x)).
Proof. unfold pieces_sent. rewrite filter_app, length_app. f_equal. rewrite filter_cons. case_decide as E; cbn; [by destruct (is_piece _)|by destruct (is_piece _)]. Qed.
Lemma requested_more (o : list Sent) x l : Forall (requested o) l -> Forall (requested (o ++ [x])) l.
Proof. intros Hf. eapply Forall_impl; [exact Hf|]. intros r (y & Hin & Hy). exists y. split; [|done]. apply elem_of_app. by left. Qed.

(** What the peer knows after one more message. *)
Ltac told_more := split; cbn -[told_interest told_unchoked pieces_sent];
  [by apply requested_more|unfold told_interest in *; rewrite told_snoc; cbn in *; done|unfold told_unchoked in *; rewrite told_snoc; cbn in *; done|rewrite pieces_sent_snoc; cbn -[pieces_sent] in *; lia].

(** A message that says nothing about interest, choking and uploads. *)
Definition plain (m : Message) : bool := match m with CmInterested | CmNotInterested | CmChoke | CmUnchoke | CmPiece _ _ _ => false | _ => true end.
Lemma told_plain m c d n : plain m = true -> conn_told c n -> conn_told (with_message m c d) n.
Proof.
  intros Hp [X1 X2 X3 X4]. destruct m; try done; told_more.
Qed.
Lemma send_plain m n s : plain m = true -> (forall p o l, m <> CmRequest p o l) -> inv n s -> does (send_message m) (fun _ => inv n) (inv n) s.
Proof.
  intros Hp Hj [[Hs Ht] Hd]. apply does_send; [done..|]. intros Ho. split; [|done]. split.
  - apply shape_sent; [|done]. destruct m; try done. by edestruct Hj.
  - intros _. apply told_plain; auto.
Qed.

(** ** Blocks to request *)

Lemma shape_waiting c t : conn_shape asked c -> (forall k v, t !! k = Some v -> v.1 = k /\ k ∉ rm_key <$> requests (me c)) -> conn_shape asked (c <| to_request := t |>).
Proof. intros [X1 X2 X3 X4 X5] Ht. by split. Qed.
Lemma inv_waiting n s t : inv n s -> (forall k v, t !! k = Some v -> v.1 = k /\ k ∉ rm_key <$> requests (me s.1)) -> inv n (s.1 <| to_request := t |>, s.2).
Proof.
  intros [[Hs Ht] Hd] Hw. split; [|done]. split; [by apply shape_waiting|]. intros Ho. specialize (Ht Ho). destruct Ht as [Y1 Y2 Y3 Y4]. by split.
Qed.

Lemma does_queue i n s : inv n s -> does (queue_blocks i) (fun _ => inv n) (inv n) s.
Proof.
  intros Hs. unfold queue_blocks. eapply does_bind; [apply serve_shared; [done|apply serves_incomplete]|]. intros bl s1 [E1 Hs1]. apply bind_conn, bind_change.
  set (w := filter _ bl). assert (Hw : Forall (fun b => (i, b.1) ∉ rm_key <$> requests (me s1.1)) w).
  { apply Forall_forall. intros b [Hb _]%list_elem_of_filter. rewrite rq_has_key in Hb. destruct (bool_decide_reflect ((i, b.1) ∈ rm_key <$> requests (me s1.1))); [by cbn in Hb|done]. }
  unfold does. cbn [mret St_ret]. apply inv_waiting; [done|]. pose proof (ck_waiting _ _ (proj1 (proj1 Hs1))) as Hold.
  clearbody w. revert Hold. generalize (to_request s1.1). induction Hw as [|b w Hb _ IH]; intros t Hold; [done|]. cbn [foldl]. apply IH.
  intros k v. rewrite lookup_insert_Some. intros [[<- <-]|[_ Hk]]; [done|by apply Hold].
Qed.

Lemma does_pop_and_queue k n s : inv n s -> does (pop_and_queue k) (fun _ => inv n) (inv n) s.
Proof.
  revert s. induction k as [|k IH]; intros s Hs; [done|]. cbn [pop_and_queue]. apply bind_conn. destruct (vec_pop _) as [[i rest]|]; [|done].
  apply bind_change. apply (does_bind _ _ _ (fun _ => inv n)); [|intros _ s1 Hs1; by apply IH].
  apply does_queue. by apply inv_view.
Qed.

(** ** Interest *)

Lemma does_interest n s : inv n s -> does update_my_interested_status (fun _ => inv n) (inv n) s.
Proof.
  intros Hs. unfold update_my_interested_status. apply bind_conn. set (am := _ || _). destruct (Bool.eqb_spec (is_interested (me s.1)) am) as [|Hne]; [done|].
  cbn [negb]. apply bind_change. destruct Hs as [[Hs Ht] Hd].
  assert (Hsh : conn_shape asked (s.1 <| me := me s.1 <| is_interested := am |> |>)) by (destruct Hs as [X1 X2 X3 X4 X5]; by split).
  apply does_send; [done..|]. cbn [fst snd]. intros Ho. split; [|done]. split; [apply shape_sent; [by destruct am|done]|]. intros _. specialize (Ht Ho).
  destruct Ht as [Y1 Y2 Y3 Y4]. destruct am; told_more.
Qed.

(** ** Requests *)

(** A block moves from the waiting ones to the requested ones. *)
Definition requesting (pi bi off len : Z) c : PeerConnection :=
  c <| to_request := delete (pi, bi) (to_request c) |>
    <| me := me c <| requests := requests (me c) ++ [{| rm_piece_index := pi; rm_block_index := bi; rm_offset := off; rm_block_length := len |}] |> |>.

Lemma shape_requesting pi bi off len c : length (requests (me c)) < MAX_CONCURRENT_REQUESTS -> (pi, bi) ∉ rm_key <$> requests (me c) ->
  conn_shape asked c -> conn_shape asked (requesting pi bi off len c).
Proof.
  intros Hl Hk [X1 X2 X3 X4 X5]. split; cbn; [rewrite length_app; cbn; lia| | |done|done].
  - rewrite fmap_app. apply NoDup_app. split; [done|]. cbn. split; [|apply NoDup_singleton]. intros k Hin ->%list_elem_of_singleton. done.
  - intros k v [Hne Hkv]%lookup_delete_Some. destruct (X3 k v Hkv) as [E Hni]. split; [done|]. rewrite fmap_app. intros [?|Hin]%elem_of_app; [done|].
    cbn in Hin. apply list_elem_of_singleton in Hin. by subst k.
Qed.
Lemma told_requesting pi bi off len c d n : conn_told c n -> conn_told (with_message (CmRequest pi off len) (requesting pi bi off len c) d) n.
Proof.
  intros [Y1 Y2 Y3 Y4]. split; cbn -[told_interest told_unchoked pieces_sent].
  - apply Forall_app. split; [by apply requested_more|]. apply Forall_singleton. eexists. split; [apply elem_of_app; right; by apply list_elem_of_singleton|done].
  - unfold told_interest in *. by rewrite told_snoc.
  - unfold told_unchoked in *. by rewrite told_snoc.
  - rewrite pieces_sent_snoc, Y4. cbn. lia.
Qed.
Lemma rq_add_new pi bi off len q : (pi, bi) ∉ rm_key <$> q ->
  rq_add pi bi off len q = (true, q ++ [{| rm_piece_index := pi; rm_block_index := bi; rm_offset := off; rm_block_length := len |}]).
Proof. intros Hk. unfold rq_add. by rewrite rq_has_key, bool_decide_eq_false_2. Qed.

Lemma does_request_loop fuel n s : size (to_request s.1) < fuel -> is_choked (me s.1) = false -> is_interested (me s.1) = true -> inv n s ->
  does (request_loop fuel) (fun _ => inv n) (inv n) s.
Proof.
  revert s. induction fuel as [|fuel IH]; intros s Hf Hc Hi Hs; [lia|]. cbn [request_loop]. apply bind_conn.
  destruct (MAX_CONCURRENT_REQUESTS <=? length (requests (me s.1))) eqn:Hlim; [done|]. apply Nat.leb_gt in Hlim.
  destruct (size (to_request s.1) =? 0); [done|]. apply does_bind_lift; [done|apply unwrap_not_fuel|]. intros target _.
  apply does_bind_lift; [done|apply unwrap_not_fuel|]. intros [[pi bi] len] Ht. destruct (to_request s.1 !! target) as [v|] eqn:El; [|done]. injection Ht as ->.
  pose proof (proj1 (proj1 Hs)) as Hsh. destruct (ck_waiting _ _ Hsh _ _ El) as [Hk Hni]. cbn in Hk. subst target. apply bind_change.
  assert (Hs1 : inv n (s.1 <| to_request := delete (pi, bi) (to_request s.1) |>, s.2)).
  { apply inv_waiting; [done|]. intros k v [_ Hk]%lookup_delete_Some. by apply (ck_waiting _ _ Hsh). }
  apply does_bind_lift; [done|apply u32_not_fuel|]. intros off _. rewrite rq_add_new by done. apply bind_change. cbn [when].
  apply (does_bind _ _ _ (fun _ s' => inv n s' /\ size (to_request s'.1) < fuel /\ is_choked (me s'.1) = false /\ is_interested (me s'.1) = true)).
  - assert (E : conn_shape asked (requesting pi bi off len s.1)) by by apply shape_requesting.
    apply does_send; [exact E|apply Hs|]. intros Ho. cbn [fst snd]. split; [split; [split|apply Hs]|].
    + by apply shape_sent.
    + intros _. apply (told_requesting pi bi off len s.1), Hs. exact Ho.
    + cbn. split; [|done]. rewrite map_size_delete_Some by eauto. assert (size (to_request s.1) <> 0); [|lia].
      intros E0%map_size_empty_inv. by rewrite E0, lookup_empty in El.
  - intros _ s' (Hs' & Hf' & Hc' & Hi'). by apply IH.
Qed.

Lemma does_request_more n s : inv n s -> does request_more_blocks (fun _ => inv n) (inv n) s.
Proof.
  intros Hs. unfold request_more_blocks. apply bind_conn. destruct (is_choked (me s.1) || _ || _) eqn:E; [done|].
  apply orb_false_iff in E as [[Hc Hi%negb_false_iff]%orb_false_iff _]. apply does_request_loop; [lia|done..].
Qed.

Lemma does_interest_and_request n s : inv n s -> does interest_and_request (fun _ => inv n) (inv n) s.
Proof. intros Hs. apply (does_bind _ _ _ (fun _ => inv n)); [by apply does_interest|]. intros _ s' Hs'. by apply does_request_more. Qed.

(** ** Uploads *)

(** The queue of the peer's requests holds what the peer has asked for. *)
Lemma inv_asked n s q : Forall (fun r => rm_told r ∈ asked) q -> inv n s -> inv n (s.1 <| them := them s.1 <| requests := q |> |>, s.2).
Proof.
  intros Hq [[[X1 X2 X3 X4 X5] Ht] Hd]. split; [|done]. split; [by split|]. intros Ho. destruct (Ht Ho) as [Y1 Y2 Y3 Y4]. by split.
Qed.
Lemma inv_queue n s : inv n s -> Forall (fun r => rm_told r ∈ asked) (requests (them s.1)).
Proof. intros [[X _] _]. by destruct X. Qed.

Lemma does_upload n s : inv n s -> does upload_next_block (fun _ => inv n) (inv n) s.
Proof.
  intros Hs. unfold upload_next_block. apply bind_conn. destruct (upload_in_progress s.1 || _ || _) eqn:E; [done|].
  apply orb_false_iff in E as [[Hu Hc]%orb_false_iff Hi%negb_false_iff]. unfold rq_pop. pose proof (inv_queue n s Hs) as Hq.
  destruct (requests (them s.1)) as [|r q]; [done|]. apply Forall_cons in Hq as [Hr Hq]. apply bind_change.
  set (c1 := s.1 <| them := them s.1 <| requests := q |> |>). assert (Hs1 : inv n (c1, s.2)) by by apply inv_asked.
  eapply does_bind; [eapply (does_shared _ _ n); [done|apply retrive_does, Hs]|]. intros data s2 (E2 & Ed & p & start & Hdata). apply bind_change.
  destruct Hs1 as [[Hsh Ht] Hd]. cbn [fst snd] in *. rewrite E2, Ed.
  assert (Hsh2 : conn_shape asked (c1 <| upload_in_progress := true |>)) by (destruct Hsh; by split).
  apply does_send; [done|done|]. cbn [fst snd]. intros Ho. split; [split|done].
  - apply shape_sent; [|done]. unfold justified. cbn. split; [done|]. split; [done|]. by exists (rm_block_length r), p, start.
  - intros _. specialize (Ht Ho). destruct Ht as [Y1 Y2 Y3 Y4]. cbn -[pieces_sent] in Y4. rewrite Hu in Y4. told_more.
Qed.

Lemma does_unchoke n s : inv n s -> does unchoke_them (fun _ => inv n) (inv n) s.
Proof.
  intros Hs. unfold unchoke_them. apply bind_conn. apply does_when; [|done]. intros Hc. apply bind_change.
  apply (does_bind _ _ _ (fun _ => inv n)); [|intros _ s' Hs'; by apply does_upload]. destruct Hs as [[Hsh Ht] Hd].
  assert (Hsh2 : conn_shape asked (s.1 <| them := them s.1 <| is_choked := false |> |>)) by (destruct Hsh; by split).
  apply does_send; [done..|]. cbn [fst snd]. intros Ho. split; [split|done]; [by apply shape_sent|]. intros _. specialize (Ht Ho).
  destruct Ht as [Y1 Y2 Y3 Y4]. told_more.
Qed.

(** ** A message from the channel *)

(** Fewer requests. *)
Lemma inv_fewer n s q : q `sublist_of` requests (me s.1) -> inv n s -> inv n (s.1 <| me := me s.1 <| requests := q |> |>, s.2).
Proof.
  intros Hq [[[X1 X2 X3 X4 X5] Ht] Hd]. assert (Hk : rm_key <$> q `sublist_of` rm_key <$> requests (me s.1)) by by apply fmap_sublist.
  split; [|done]. split.
  - split; cbn; [apply sublist_length in Hq; lia|by eapply sublist_NoDup| |done|done].
    intros k v Hkv. destruct (X3 k v Hkv) as [E Hni]. split; [done|]. intros Hin. apply Hni. by eapply elem_of_submseteq, sublist_submseteq.
  - intros Ho. destruct (Ht Ho) as [Y1 Y2 Y3 Y4]. split; cbn -[told_interest told_unchoked pieces_sent]; [|done..].
    rewrite Forall_forall in Y1 |- *. intros r Hr. apply Y1. by eapply elem_of_submseteq, sublist_submseteq.
Qed.

Lemma does_bitfield_bit bs i n s : inv n s -> does (bitfield_bit bs i) (fun _ => inv n) (inv n) s.
Proof.
  intros Hs. unfold bitfield_bit. apply does_bind_lift; [done|apply index_not_fuel|]. intros byte _. apply bind_change.
  apply does_when; intros _; [|by apply inv_view]. apply does_modify. cbn [fst snd]. destruct (_ <? _); by apply (inv_view n s).
Qed.

Lemma does_keep_alive n s : inv n s -> does keep_alive (fun _ => inv n) (inv n) s.
Proof.
  intros Hs. unfold keep_alive. eapply does_bind; [apply serve_shared; [done|apply serves_have]|]. intros [cat have] s1 [_ Hs1]. apply bind_conn.
  apply (does_bind _ _ _ (fun _ => inv n)).
  - destruct (cat =? length have).
    + apply (does_bind _ _ _ (fun _ => inv n)); [|by intros _ s2 Hs2]. apply does_each; [|done]. intros i s2 Hs2.
      apply does_bind_lift; [done|apply index_not_fuel|]. intros b _. apply does_when; [|done]. intros _.
      apply (does_bind _ _ _ (fun _ => inv n)); [by apply does_queue|]. by intros _ s3 Hs3.
    + apply does_bind_lift; [done|by destruct (_ <=? _)|]. intros _ _.
      apply (does_bind _ _ _ (fun _ => inv n)); [by apply does_pop_and_queue|]. by intros _ s2 Hs2.
  - intros lists s2 Hs2. apply bind_change. apply does_interest_and_request. by apply (inv_view n s2).
Qed.

Lemma rq_add_asked pi bi off len q : (pi, off, len) ∈ asked -> Forall (fun r => rm_told r ∈ asked) q ->
  Forall (fun r => rm_told r ∈ asked) (rq_add pi bi off len q).2.
Proof. intros Hin Hq. unfold rq_add. destruct (rq_has pi bi q); [done|]. apply Forall_app. split; [done|]. by apply Forall_singleton. Qed.

(** What a message asks for. *)
Definition asks (m : Message) : list (Z * Z * Z) := match m with CmRequest p o l => [(p, o, l)] | _ => [] end.

Lemma does_process_message m n s : asks m ⊆ asked -> inv n s -> does (process_message m) (fun _ => inv n) (inv n) s.
Proof.
  intros Ha Hs. destruct m; cbn [process_message].
  - by apply does_keep_alive.
  - by apply does_modify, inv_view.
  - apply bind_conn, does_when; [|done]. intros _. apply bind_change, does_request_more. by apply inv_view.
  - apply bind_change, does_unchoke. by apply inv_view.
  - by apply does_modify, inv_view.
  - apply bind_conn, does_bind_lift; [done|apply index_not_fuel|]. intros b _. apply bind_change.
    apply does_when; intros _; [|by apply (inv_view n s)]. apply (does_bind _ _ _ (fun _ => inv n)); [by apply does_queue, (inv_view n s)|]. intros _ s2 Hs2. by apply does_interest_and_request.
  - apply bind_conn, (does_bind _ _ _ (fun _ => inv n)); [apply does_each; [|done]; intros; by apply does_bitfield_bit|]. intros _ s1 Hs1.
    apply (does_bind _ _ _ (fun _ => inv n)); [by apply does_pop_and_queue|]. intros _ s2 Hs2. by apply does_interest_and_request.
  - apply bind_change, does_upload, inv_asked; [|done]. apply rq_add_asked; [apply Ha; by left|by eapply inv_queue].
  - apply bind_conn, does_bind_lift; [done|apply u64_not_fuel|]. intros total _. apply bind_change.
    eapply does_bind; [apply (serve_shared _ n); [|apply serves_store]|intros _ s1 [_ Hs1]; by apply does_interest_and_request].
    set (q := (rq_remove _ _ _).2). assert (Hq : q `sublist_of` requests (me s.1)) by apply rq_remove_sublist.
    pose proof (inv_fewer n (s.1 <| received_size := total |>, s.2) q) as X. cbn in X |- *. apply X; [done|by apply (inv_view n s)].
  - apply does_modify, inv_asked; [|done]. pose proof (inv_queue n s Hs) as Hq. rewrite Forall_forall in Hq |- *. intros r Hr. apply Hq.
    eapply elem_of_submseteq; [exact Hr|]. apply sublist_submseteq, rq_remove_sublist.
  - done.
Qed.

(** Blocks written to the peer, as the writing thread reports them. *)
Definition reported (ipc : IPC) n : nat := match ipc with BlockUploaded => S n | _ => n end.
Definition may_arrive (ipc : IPC) c n : Prop := match ipc with BlockUploaded => n < pieces_sent (outgoing c) | _ => True end.

Definition asks_ipc (ipc : IPC) : list (Z * Z * Z) := match ipc with IpcMessage m => asks m | _ => [] end.

Lemma does_process ipc n s : asks_ipc ipc ⊆ asked -> inv n s -> may_arrive ipc s.1 n -> does (process ipc) (fun _ => inv (reported ipc n)) (inv (reported ipc n)) s.
Proof.
  intros Ha Hs Hm. destruct ipc; cbn [process reported].
  - eapply does_bind; [apply serve_shared; [done|apply serves_have]|]. intros [k have] s1 [_ Hs1]. apply bind_change, bind_conn.
    apply (does_bind _ _ _ (fun _ => inv n)); [by apply does_pop_and_queue, (inv_view n s1)|]. intros _ s2 Hs2. by apply does_interest_and_request.
  - apply bind_conn. destruct (rq_remove _ _ _) as [removed q] eqn:Eq. apply bind_change.
    match goal with |- does _ _ _ ?s' => assert (Hs' : inv n s') end.
    { pose proof (inv_fewer n (s.1 <| to_request := delete (piece_index, block_index) (to_request s.1) |>, s.2) q) as X. cbn in X |- *. apply X; clear X.
      - pose proof (rq_remove_sublist piece_index block_index (requests (me s.1))) as X. by rewrite Eq in X.
      - apply (inv_waiting n s); [done|]. intros k v [_ Hk]%lookup_delete_Some. by apply (ck_waiting _ _ (proj1 (proj1 Hs))). }
    destruct removed as [r|]; [by apply send_plain|done].
  - apply bind_conn, does_bind_lift; [done|apply index_not_fuel|]. intros b _. apply bind_change.
    apply (does_bind _ _ _ (fun _ => inv n)); [by apply does_interest, inv_view|]. intros _ s1 Hs1. by apply send_plain.
  - apply bind_change, does_interest. by apply inv_view.
  - by apply does_process_message.
  - apply bind_change, does_upload. destruct Hs as [[Hsh Ht] Hd]. split; [|done]. split; [by destruct Hsh|]. intros Ho.
    destruct (Ht Ho) as [Y1 Y2 Y3 Y4]. split; cbn -[told_interest told_unchoked pieces_sent]; [done..|]. cbn in Hm. rewrite Y4 in Hm |- *. destruct (upload_in_progress s.1); cbn in *; lia.
  - apply bind_conn. eapply does_mono; [by apply (serve_shared _ n), serves_close| |done]. by intros _ s' [_ Hs'].
  - apply bind_conn. eapply does_mono; [by apply (serve_shared _ n), serves_close| |done]. by intros _ s' [_ Hs'].
Qed.

End Invariant.

(** * Runs of a connection *)

(** A connection, the number of blocks written and the requests of its peer that it
    has taken off its channel.  Between two messages the other connections may have done
    anything to the download that leaves its lock usable; the writing thread may have
    ended. *)
Inductive conn_runs : PeerConnection -> nat -> list (Z * Z * Z) -> Prop :=
  | conn_runs_new addr cat have : conn_runs (PeerConnection_new addr cat have) 0 []
  | conn_runs_bitfield c n asked d r s' : conn_runs c n asked -> sound d -> send_bitfield (c, d) = (r, s') -> conn_runs s'.1 n asked
  | conn_runs_process ipc c n asked d r s' : conn_runs c n asked -> sound d -> may_arrive ipc c n -> returns r ->
      process ipc (c, d) = (r, s') -> conn_runs s'.1 (reported ipc n) (asks_ipc ipc ++ asked)
  | conn_runs_closed c n asked : conn_runs c n asked -> conn_runs (c <| outgoing_open := false |>) n asked.

Lemma conn_new_ok addr cat have : conn_ok [] (PeerConnection_new addr cat have) 0.
Proof. split; [|intros _]; split; cbn; try done; try constructor; lia. Qed.

Lemma justified_mono asked asked' x : asked ⊆ asked' -> justified asked x -> justified asked' x.
Proof.
  intros Hsub. unfold justified. destruct (sent_message x); try done.
  intros (? & ? & len & p & start & Hin & ?). split_and!; [done|done|]. exists len, p, start. auto.
Qed.
Lemma conn_ok_mono asked asked' c n : asked ⊆ asked' -> conn_ok asked c n -> conn_ok asked' c n.
Proof.
  intros Hsub [[X1 X2 X3 X4 X5] Ht]. split; [|done]. split; try done.
  - eapply Forall_impl; [exact X4|]. auto.
  - eapply Forall_impl; [exact X5|]. intros x. by apply justified_mono.
Qed.

Lemma does_returns {A} asked (m : CM A) n s r s' : does m (fun _ => inv asked n) (inv asked n) s -> m s = (r, s') -> returns r -> conn_ok asked s'.1 n.
Proof. unfold does. intros Hm E Hr. rewrite E in Hm. destruct r; [apply Hm|apply Hm|done..]. Qed.

Lemma conn_runs_ok c n asked : conn_runs c n asked -> conn_ok asked c n.
Proof.
  induction 1 as [| c n asked d r s' _ IH Hd E | ipc c n asked d r s' _ IH Hd Hm Hr E | c n asked _ [Hs _]].
  - apply conn_new_ok.
  - assert (X : does send_bitfield (fun _ => inv asked n) (inv asked n) (c, d)) by (apply bind_conn; by apply send_plain).
    apply (does_returns _ _ _ _ _ _ X E). unfold send_bitfield, send_message, conn, gets, get, mbind, St_bind in E. cbn in E. destruct (outgoing_open c); by injection E as <- _.
  - apply (does_returns _ (process ipc) (reported ipc n) (c, d) r s'); [|done..]. apply (does_process _ ipc n (c, d)); [set_solver| |done].
    split; [|done]. eapply conn_ok_mono; [|exact IH]. set_solver.
  - split; [by destruct Hs|done].
Qed.

(** C16.  However the messages of the peer, of the download and of the writing thread
    arrive, a connection never has more than ten requests outstanding, never two for the
    same block; it asks for blocks only while the peer does not choke it and it has said
    that it is interested.  It sends a block only to a peer that is interested and
    unchoked, only in answer to a request of the peer for that piece and offset, and only
    while the piece is complete; the data is what the file holds from that offset of
    the piece on, as many bytes as the request asked for or as the file has left.  As long
    as the channel to the peer is open, each outstanding request was sent, what the
    peer was last told about interest and choking is what the connection believes, and
    of the blocks sent all but at most one are written.  Each message is handled in
    finite time, as long as no thread panicked with the lock held. *)
Theorem connection_disciplined c n asked : conn_runs c n asked ->
  length (requests (me c)) <= MAX_CONCURRENT_REQUESTS /\ NoDup (rm_key <$> requests (me c)) /\ Forall (justified asked) (outgoing c) /\
  (outgoing_open c = true -> Forall (requested (outgoing c)) (requests (me c)) /\ told_interest (outgoing c) = is_interested (me c) /\
    told_unchoked (outgoing c) = negb (is_choked (them c)) /\ pieces_sent (outgoing c) = n + Nat.b2n (upload_in_progress c)) /\
  forall ipc d, sound d -> may_arrive ipc c n -> (process ipc (c, d)).1 <> NoFuel.
Proof.
  intros Hr. apply conn_runs_ok in Hr as Hok. pose proof Hok as [[X1 X2 X3 X4 X5] Ht]. split_and!; [done..| |].
  - intros Ho. by destruct (Ht Ho).
  - intros ipc d Hd Hm. pose proof (does_process (asks_ipc ipc ++ asked) ipc n (c, d)) as X. unfold does in X. intros E.
    destruct (process ipc (c, d)) as [r s']. cbn in E. subst r. apply X; [set_solver| |done].
    split; [|done]. eapply conn_ok_mono; [|exact Hok]. set_solver.
Qed.
End Connection.

(** A connection that asks, and that uploads one block after the other. *)
#[local] Instance map_env : ConnEnv := {|
  conn_order := {| entries := fun K A _ _ m => map_to_list m; entries_perm := fun K A _ _ m => reflexivity _ |};
  draw := fun _ => 0; write_fault := NoFault; read_fault := NoFault |}.
Definition two_pieces : Download := {|
  our_peer_id := []; torrent := {| ct_size := Some 8%Z; ct_piece_length := 4; ct_num_pieces := Some 2%Z; ct_piece_list := None; ct_info_hash := None |};
  d_pieces := [ {| p_length := 4; p_offset := 0; p_hash := []; p_blocks := [{| b_index := 0; b_length := 4; b_complete := true |}]; p_complete := true |};
                {| p_length := 4; p_offset := 4; p_hash := [1%Z]; p_blocks := [{| b_index := 0; b_length := 4; b_complete := false |}]; p_complete := false |} ];
  d_file := [5; 6; 7; 8]%Z; d_cat_complete := true; d_size := 0; d_paces := 0; peer_channels := []; active_connext := ∅; close_connext := ∅;
  d_channels := []; d_poisoned := false |}.
Definition fed (l : list IPC) (c : PeerConnection) : PeerConnection :=
  fold_left (fun c ipc => (@process length_sha1 checked_profile _ ipc (c, two_pieces)).2.1) l c.
Definition talk : list IPC :=
  IpcMessage <$> [CmBitfield [192%Z]; CmUnchoke; CmInterested; CmRequest 0 0 4; CmRequest 0 1 2].
Definition talked : PeerConnection := fed talk (PeerConnection_new default_route_v4 2 [true; false]).

Lemma connection_disciplined_witness :
  (sent_message <$> outgoing talked) = [CmInterested; CmRequest 1 0 4; CmUnchoke; CmPiece 0 0 [5; 6; 7; 8]]%Z /\
  Forall (@justified checked_profile [(0, 1, 2); (0, 0, 4)]%Z) (outgoing talked).
Proof.
  split; [vm_compute; reflexivity|].
  apply (@connection_disciplined length_sha1 checked_profile map_env talked 0 [(0, 1, 2); (0, 0, 4)]%Z).
  unfold talked, talk, fed. cbn [fmap list_fmap fold_left].
  refine (conn_runs_process (IpcMessage (CmRequest 0 1 2)) _ 0 [(0, 0, 4)%Z] two_pieces _ _ _ _ _ _ (surjective_pairing _)); [|by vm_compute..].
  refine (conn_runs_process (IpcMessage (CmRequest 0 0 4)) _ 0 [] two_pieces _ _ _ _ _ _ (surjective_pairing _)); [|by vm_compute..].
  repeat (lazymatch goal with |- conn_runs (@process _ _ _ ?ipc (?c, ?d)).2.1 _ _ => refine (conn_runs_process ipc c 0 [] d _ _ _ _ _ _ (surjective_pairing _)); [|by vm_compute..] end).
  apply conn_runs_new.
Defined.
